(* ===== verification/_CoqProject ===== *)
-Q . S2P
Prelude.v
ChunkMap.v
SizeBucketed.v
VMAllocator.v
HeapAllocator.v
GuestMem.v
GuestAlloc.v
GenericChar.v
GenericCharFacts.v
GenericCharWrites.v
CString.v
CStringFacts.v
Env.v
Qsort.v
Scheduler.v
SchedulerFacts.v
MutexFacts.v
Pthread.v
PthreadFacts.v
CondFacts.v
Semaphore.v
StrToInt.v
StrToIntFacts.v
Fs.v
FsFacts.v
FsRuns.v
FsOps.v
Text.v
PathAlgorithms.v
NSString.v
NSStringFacts.v
NSStringSearch.v
NSStringMethods.v
NSStringRuns.v
NSStringLines.v
PosixIo.v
PosixIoFacts.v
Socket.v
SocketFacts.v
Stdio.v
StdioFacts.v
Abi.v
AbiFacts.v
ObjcClasses.v
ObjcClassFacts.v
ObjcIvars.v
ObjcSelectors.v
ObjcLink.v
ObjcMessages.v
ObjcMessageFacts.v
Gdb.v
GdbFacts.v
MachO.v
MachOFacts.v
Dyld.v
DyldFacts.v
Printf.v
PrintfFacts.v
Scanf.v
ScanfFacts.v
Unwind.v
UnwindFacts.v
Ima4.v
AudioQueue.v
AudioQueueFacts.v
AudioQueueRuns.v
RunLoop.v
RunLoopFacts.v
RunLoopRuns.v
Collections.v
DictionaryFacts.v
ArrayFacts.v
Hierarchy.v
HierarchyFacts.v
LayerConversion.v
Calendar.v
LoadOrder.v
ObjcSync.v
Objects.v
CStdlib.v
