(* ===== verification/Prelude.v ===== *)
(** * Verification of the touchHLE emulator core

    touchHLE (under [src/touchHLE/src]) runs iPhone OS apps by emulating their ARM code
    and reimplementing the system's libraries in Rust.  This library models the parts
    of it that carry state the rest relies on, and proves them correct.  All source
    paths below are relative to [src/touchHLE/src].

    ** How the program is modelled

    Rust functions become Rocq functions with the state they borrow mutably passed in
    and out.  A function that can panic returns an [outcome]: [Panic] stands for
    [panic!], a failed [assert!], an [unwrap] of nothing, and, as in a build with
    overflow checks, an overflow of [+], [-] or [*].  [Result] is [result], [Option] is
    [option].  Integers are [Z], checked at their width by [u32], [u64] and [i32] where the
    code computes with them; bytes and guest strings are lists of [Z]; hash maps are
    [gmap], with the unspecified order of iteration an argument where a result depends on
    it (LoadOrder); Rc-shared objects are in a table, and the tables that share them hold
    keys (semaphores).  A function that suspends the running coroutine returns [run]:
    [Finished] with a result, or [Yielded] with what it does when it is resumed (Env).
    Wall clocks and the host file system are arguments.

    ** The parts, and where they are

    - Memory.  [ChunkMap], [SizeBucketed]: the sorted chunk map and the size-bucketed free
      chunks of [mem/allocator.rs].  [VMAllocator], [HeapAllocator]: the page allocator and the
      heap on top of it, from the same file.  [GuestMem]: guest memory, pointers, strings and
      the malloc family of [mem.rs]; [GuestAlloc]: what a caller that keeps several blocks needs
      of it.  The abstract specification is the set of addresses that are
      used or free ([vm_used], [vm_free]) and the set of live blocks ([heap_live],
      [mem_live]); the theorems say that every operation changes those sets as it should,
      never hands out an address twice, and that memory contents survive.
    - Threads.  [Env]: the [Environment] record, threads, blocking and the mutexes of
      [environment.rs] and [environment/mutex.rs].  [Scheduler]: the scheduler, context switches
      and the executor loop of [environment.rs], [FILE] locks of [libc/stdio.rs].
      [SchedulerFacts]: bounded waiting, contexts are not mixed up, stepping.  [MutexFacts]: an
      invariant of all reachable states.  [Pthread], [PthreadFacts], [CondFacts]: the pthread
      library ([libc/pthread]); [Semaphore]: POSIX and Mach semaphores
      ([libc/semaphore.rs], [libc/mach/semaphore.rs]).  [ObjcSync]: [@synchronized] blocks
      ([objc/synchronization.rs]).
    - Objects.  [Objects]: reference counts and autorelease pools ([objc/objects.rs],
      [objc/arc.rs], [frameworks/foundation/ns_autorelease_pool.rs]).  [ObjcClasses]: selectors,
      classes, categories, instance variables and method tables ([objc/selectors.rs],
      [objc/classes.rs], [objc/methods.rs], [objc/properties.rs]).  [ObjcClassFacts]: superclass
      chains; [ObjcSelectors]: selectors are interned; [ObjcLink]: linking builds a class
      hierarchy; [ObjcIvars]: ivar layouts are reconciled.  [ObjcMessages], [ObjcMessageFacts]:
      message sending of [objc/messages.rs] delivers to the method of the nearest class.
    - Files.  [Fs]: the guest file system of [fs.rs] over a model of the host's.  [FsFacts]: path
      resolution, and the invariant that the writeable guest tree and the host sandbox
      mirror each other.  [FsRuns]: [Fs::new] establishes it, every run keeps it and stays in
      the sandbox.  [FsOps]: what single operations do.
    - Descriptors and streams.  [PosixIo]: the file descriptor table and the calls on it of
      [libc/posix_io.rs], with the [GuestFile] kinds of [fs.rs].  [PosixIoFacts]: they refine an
      abstract table of open files, each a position in a sequence of bytes.  [Stdio],
      [StdioFacts]: the [FILE] calls of [libc/stdio.rs] on top of them.
    - Strings and the C library.  [GenericChar], [CString]: the character-generic string
      functions of [libc/generic_char.rs] and their clients [libc/string.rs] and
      [libc/wchar.rs]; [GenericCharFacts], [GenericCharWrites], [CStringFacts]: what they compute,
      against definitions on lists.  [Qsort]: [qsort], [bsearch] of [libc/stdlib/qsort.rs] and
      [libc/stdlib.rs].  [StrToInt], [StrToIntFacts]: integer parsing of [libc/stdlib.rs] and
      [libc/stdio.rs].  [CStdlib]: the environment, random numbers and allocation entry
      points of [libc/stdlib.rs].  [Calendar]: dates of [libc/time.rs].
    - Calls between host and guest.  [Abi], [AbiFacts]: argument and result passing of
      [abi.rs], the registers of [cpu.rs] it uses, and the start-up stack of [stack.rs].
    - Binaries.  [MachO], [MachOFacts]: the loader of [mach_o.rs] over what the Mach-O parser
      (a crate) finds in a file.  [Dyld], [DyldFacts]: the dynamic linker of [dyld.rs].
      [LoadOrder]: the topological sort of binaries in [environment.rs].
    - Exceptions.  [Unwind], [UnwindFacts]: the C++ unwinder of [libc/unwind_sjlj.rs], over personality
      routines (guest code) that keep to the C++ ABI.
    - Debugger.  [Gdb], [GdbFacts]: the remote protocol server of [gdb.rs], against a session of
      abstract commands.
    - Formatted text.  [Printf], [PrintfFacts]: [printf_inner] and the [sprintf] family of
      [libc/stdio/printf.rs], against the C standard's text of each conversion.  [Scanf], [ScanfFacts]:
      [sscanf] of the same file.
    - Frameworks.  [Collections], [DictionaryFacts], [ArrayFacts]: dictionaries, arrays and sets of
      [frameworks/foundation] and the CFDictionary on top, against maps and lists that own references to
      their elements.  [Hierarchy], [HierarchyFacts]: the views of [frameworks/uikit/ui_view.rs] and
      the layers of [frameworks/core_animation/ca_layer.rs], against a tree of ordered lists;
      [LayerConversion]: the search for a common ancestor of two layers.
    - Strings.  [Text]: what the code uses of Rust's strings, with UTF-8 and UTF-16.  [NSString]: the strings
      and character sets of [frameworks/foundation/ns_string.rs] and [ns_character_set.rs] and the functions of
      [frameworks/core_foundation/cf_string.rs].  [NSStringFacts], [NSStringSearch], [NSStringMethods]: strings
      as values, cuts at the occurrences of a string, what each method does; [NSStringRuns]: the
      methods refine a specification on code units; [NSStringLines]: lines of a range.
      [PathAlgorithms]: [ns_string/path_algorithms.rs].
    - Sockets.  [Socket]: the calls of [libc/sys/socket.rs], over the descriptor table of [PosixIo] and the
      host's network, a class.  [SocketFacts]: what the code relies on of the network, the
      invariant of all runs, and the pass of [select] over a set.
    - Sound.  [Ima4]: the decoder of [audio/ima4.rs].  [AudioQueue]: the audio queues of
      [frameworks/audio_toolbox/audio_queue.rs] over OpenAL, a library, whose operations are a class.
      [AudioQueueFacts]: OpenAL's laws, and what each operation keeps; [AudioQueueRuns]: the invariant of
      all runs.
    - Run loops.  [RunLoop]: timers, selector requests, run loop passes and notification centers of
      [frameworks/foundation], with the references they hold.  [RunLoopFacts]: what each operation
      does to the references; [RunLoopRuns]: the invariant of all runs, callbacks included.

    ** What the theorems show

    The properties carry numbers [C1], [C2], ... in the comments before them.  They are, by
    group: memory safety and functional correctness of the allocators and of guest
    memory; invariants of every reachable state for mutexes, condition variables,
    semaphores and [@synchronized] blocks, stated over step relations of what the threads and
    the scheduler can do; liveness of the scheduler (a ready thread is passed over fewer
    times than there are threads); confinement of the file system to the app's sandbox, and
    that its calls to the host never fail; refinement of an abstract table of open files by
    the descriptors; equivalence of the string functions with definitions on lists;
    termination and correctness of [qsort]; values and saturation of integer parsing; round
    trips (C strings, open/close, arguments of calls, timestamp/date, printed integers); functional
    correctness of the load order, of the loader and of formatted output; the class hierarchy, the
    instance variables and the message dispatch of the Objective-C runtime; safety of the
    dynamic linker (a stub calls what its symbol means); refinement of abstract debugger
    sessions; refinement of maps and lists that own their elements by the collections, and of an
    ordered tree by the views, with the layers in the same shape; the frame in which a C++ exception
    lands; that audio queues and OpenAL's queues stay in step; that run loops, timers and
    notifications refer only to objects that are there; that the tables of sockets, descriptors and the
    host's sockets agree, and what [select] asks and answers; that strings are values whatever their
    representation, that paths taken apart can be put together again, and which lines a range covers.  A few theorems state behaviour the code has and does not
    mean to have; their comments name the defect.

    ** Bounds and fuel

    Loops that are not structural take fuel, and the theorems show that what they are given
    is enough: a [while] loop ([run_loop]) runs for up to [2 ^ k] iterations with a [k] at which
    the loop's measure is below that ([2 ^ 33] for the loops over strings, more than the address
    space); the tree of a host directory to one more than the length of the longest host path
    ([from_host_dir]); the sort of binaries for one more iteration than there are binaries
    ([drain]); [qsort] to a depth of one more than the number of elements; the scheduler's
    outer loop for as many passes as it is given clock readings; walks over superclasses for as many
    steps as there are objects; linking of a class for one more level than there are names; the
    debugger's wait for as many reads as its input has; a universal binary to the depth of one
    nested file, which is all that the format allows; the deallocation of a view or layer to a depth of
    one more than there are objects; the climb over superlayers for [2 ^ 33] steps, more than twice the
    layers that there can be; the walk over exception frames for [2 ^ 32], more than there can be; the
    priming of an audio queue for one more step than it has buffers, and the return of its played
    buffers for one more than there are; the loops that remove timers or observers from a vector for one
    more step than its length; the release of an object to a depth of one more than there are objects; the
    loops that split a string or replace in it for one more round than it has units.  A run
    loop, and its loop over requests, may run for ever: without enough fuel they give no result.

    ** What is not modelled

    The CPU (dynarmic, C++), most of the frameworks (drawing, animation, OpenGL ES, audio files, archives,
    formatting into an NSString), the window, and of the C library the directory streams, locales, name resolution and floating-point
    functions.  The parser of Mach-O files (the [mach_object] crate), the formatting and parsing of
    floating-point numbers, Unicode's case tables, decoders of legacy encodings, guest code and the host's clocks, files and network are arguments.
    Parts that only forward to the host are left out.  LiveExec32 is Objective-C and not part of the
    Rust program. *)

From stdpp Require Export base gmap list numbers sorting fin_maps option strings.
From Stdlib Require Export ZArith Lia.

#[global] Open Scope Z_scope.

(** ** Outcomes: values and panics *)

(** A Rust function either returns or panics.  [Panic] stands for every
    [panic!], failed [assert!], [unwrap] of [None] and, as in a build with
    overflow checks, every arithmetic overflow of [+], [-] and [*]. *)
Inductive outcome (A : Type) : Type :=
| Ret (a : A)
| Panic.
Arguments Ret {A} a.
Arguments Panic {A}.

(** [Result<A, E>] of the source. *)
Inductive result (A E : Type) : Type :=
| Ok (a : A)
| Err (e : E).
Arguments Ok {A E} a.
Arguments Err {A E} e.

#[global] Instance outcome_ret : MRet outcome := @Ret.
#[global] Instance outcome_bind : MBind outcome := λ A B f m,
  match m with Ret a => f a | Panic => Panic end.
#[global] Instance outcome_fmap : FMap outcome := λ A B f m,
  match m with Ret a => Ret (f a) | Panic => Panic end.

(** [Option::unwrap] and [Option::expect]. *)
Definition unwrap {A} (o : option A) : outcome A :=
  match o with Some a => Ret a | None => Panic end.

(** [assert!]. *)
Definition rassert (b : bool) : outcome unit := if b then Ret () else Panic.

(** [for x in l { s = f(x, s) }] where the body may panic. *)
Fixpoint for_each {A S} (f : A → S → outcome S) (l : list A) (s : S) : outcome S :=
  match l with
  | [] => Ret s
  | x :: l' => s' ← f x s; for_each f l' s'
  end.

(** [opt.map(|x| ...)] on a state: [if let Some(x) = o { s = f(x, s) }]. *)
Definition if_some {A S} (o : option A) (f : A → S → outcome S) (s : S) : outcome S :=
  match o with Some a => f a s | None => Ret s end.

(** ** Machine integers *)

Definition U32_MOD : Z := 4294967296.
Definition U64_MOD : Z := 18446744073709551616.

(** The value of an exact [u32] computation: out of range panics. *)
Definition u32 (z : Z) : outcome Z :=
  if (0 <=? z) && (z <? U32_MOD) then Ret z else Panic.
Definition u64 (z : Z) : outcome Z :=
  if (0 <=? z) && (z <? U64_MOD) then Ret z else Panic.

(** The value of an exact [i32] computation. *)
Definition i32 (z : Z) : outcome Z :=
  if (-2147483648 <=? z) && (z <? 2147483648) then Ret z else Panic.

Definition is_u32 (z : Z) : Prop := 0 ≤ z < U32_MOD.

(** [i32] as two's complement of a 32-bit pattern and back ([as] casts). *)
Definition to_i32 (z : Z) : Z :=
  let w := z mod U32_MOD in if w <? 2147483648 then w else w - U32_MOD.

Lemma u32_ok z : 0 ≤ z < U32_MOD → u32 z = Ret z.
Proof. intros H. unfold u32. by rewrite (proj2 (Z.leb_le 0 z)), (proj2 (Z.ltb_lt _ _)) by lia. Qed.

Lemma u32_inv z r : u32 z = Ret r → r = z ∧ 0 ≤ z < U32_MOD.
Proof.
  unfold u32. destruct (Z.leb_spec 0 z), (Z.ltb_spec z U32_MOD); simpl; intros; simplify_eq; lia.
Qed.

Lemma u64_ok z : 0 ≤ z < U64_MOD → u64 z = Ret z.
Proof. intros H. unfold u64. by rewrite (proj2 (Z.leb_le 0 z)), (proj2 (Z.ltb_lt _ _)) by lia. Qed.

Lemma u64_inv z r : u64 z = Ret r → r = z ∧ 0 ≤ z < U64_MOD.
Proof.
  unfold u64. destruct (Z.leb_spec 0 z), (Z.ltb_spec z U64_MOD); simpl; intros; simplify_eq; lia.
Qed.

Lemma i32_ok z : -2147483648 ≤ z < 2147483648 → i32 z = Ret z.
Proof. intros H. unfold i32. by rewrite (proj2 (Z.leb_le _ z)), (proj2 (Z.ltb_lt _ _)) by lia. Qed.

Lemma i32_inv z r : i32 z = Ret r → r = z ∧ -2147483648 ≤ z < 2147483648.
Proof.
  unfold i32. destruct (Z.leb_spec (-2147483648) z), (Z.ltb_spec z 2147483648); simpl; intros; simplify_eq; lia.
Qed.

(** ** Automation *)

Create HintDb rust.

(** Case analysis on the Boolean comparison that blocks a definition. *)
Ltac zcase :=
  match goal with
  | |- context [Z.leb ?a ?b] => destruct (Z.leb_spec a b)
  | |- context [Z.ltb ?a ?b] => destruct (Z.ltb_spec a b)
  | |- context [Z.eqb ?a ?b] => destruct (Z.eqb_spec a b)
  | H : context [Z.leb ?a ?b] |- _ => destruct (Z.leb_spec a b)
  | H : context [Z.ltb ?a ?b] |- _ => destruct (Z.ltb_spec a b)
  | H : context [Z.eqb ?a ?b] |- _ => destruct (Z.eqb_spec a b)
  end.

(** Discharge the range checks of the arithmetic that is in range. *)
Ltac u32_simpl :=
  repeat (rewrite u32_ok by (unfold U32_MOD in *; lia); simpl).

(** Equality of data up to linear arithmetic in its leaves. *)
Ltac feq_lia := repeat first [lia | progress f_equal].

Lemma bind_ret_inv {A B} (m : outcome A) (f : A → outcome B) b :
  m ≫= f = Ret b → ∃ a, m = Ret a ∧ f a = Ret b.
Proof. destruct m; simpl; [eauto | discriminate]. Qed.

(** Whether a run returns, and the value when it does: lets a concrete run be
    evaluated without writing its result down. *)
Definition is_ret {A} (x : outcome A) : bool := match x with Ret _ => true | Panic => false end.
Lemma is_ret_inv {A} (x : outcome A) : is_ret x = true → ∃ a, x = Ret a.
Proof. destruct x; [eauto|discriminate]. Qed.

Lemma bind_eq {A B} (m : outcome A) (f : A → outcome B) a : m = Ret a → m ≫= f = f a.
Proof. by intros ->. Qed.

Lemma ret_bind {A B} (a : A) (f : A → outcome B) : Ret a ≫= f = f a.
Proof. done. Qed.
Lemma assert_bind {A} b (k : outcome A) : b = true → (rassert b;; k) = k.
Proof. by intros ->. Qed.

(** One step of a run: the first command returns as [E] says. *)
Ltac mrun E := rewrite E, ret_bind; cbv beta iota.

Lemma rassert_inv b r : rassert b = Ret r → b = true.
Proof. by destruct b. Qed.

(** Take a successful monadic run apart, one step at a time. *)
Ltac bind_inv H :=
  let a := fresh "a" in let E := fresh "E" in
  apply bind_ret_inv in H as (a & E & H).

Lemma for_each_app {A S} (f : A → S → outcome S) l1 l2 s :
  for_each f (l1 ++ l2) s = (s' ← for_each f l1 s; for_each f l2 s').
Proof. revert s. induction l1 as [|x l1 IH]; intros s; simpl; [done|]. by destruct (f x s); simpl. Qed.

(** ** Loops *)

(** A [while]/[loop] whose body maps the loop state to the next state or to
    the value it breaks with, run for up to [2 ^ k] iterations: [inl] means
    that the iterations did not suffice. *)
Fixpoint run_loop {S R} (k : nat) (body : S → outcome (S + R)) (s : S) : outcome (S + R) :=
  match k with
  | O => body s
  | Datatypes.S k' =>
      x ← run_loop k' body s;
      match x with
      | inl s' => run_loop k' body s'
      | inr r => Ret (inr r)
      end
  end.

(** A value of a loop that must have ended within the iterations given. *)
Definition loop_end {S R} (x : outcome (S + R)) : outcome R :=
  y ← x; match y with inl _ => Panic | inr r => Ret r end.

(** Total correctness of a loop: an invariant, and a measure below [2 ^ k] that
    each iteration decreases. *)
Lemma run_loop_spec {S R} (I : S → Prop) (Q : outcome R → Prop) (measure : S → Z)
    (body : S → outcome (S + R)) :
  (∀ s, I s → match body s with
              | Ret (inl s') => I s' ∧ 0 ≤ measure s' < measure s
              | Ret (inr r) => Q (Ret r)
              | Panic => Q Panic
              end) →
  ∀ k s, I s → match run_loop k body s with
               | Ret (inl s') => I s' ∧ 0 ≤ measure s' ≤ measure s - 2 ^ Z.of_nat k
               | Ret (inr r) => Q (Ret r)
               | Panic => Q Panic
               end.
Proof.
  intros Hbody k. induction k as [|k IH]; intros s Hs; simpl run_loop.
  - specialize (Hbody s Hs). destruct (body s) as [[s'|r]|]; [|done..]. destruct Hbody.
    split; [done|]. simpl. lia.
  - specialize (IH s Hs) as IH1. destruct (run_loop k body s) as [[s'|r]|]; simpl; [|done..].
    destruct IH1 as [Hs' ?]. specialize (IH s' Hs').
    destruct (run_loop k body s') as [[s''|r]|]; [|done..]. destruct IH. split; [done|].
    rewrite Nat2Z.inj_succ, Z.pow_succ_r by lia. lia.
Qed.

Lemma loop_end_spec {S R} (I : S → Prop) (Q : outcome R → Prop) (measure : S → Z)
    (body : S → outcome (S + R)) k s :
  (∀ s, I s → match body s with
              | Ret (inl s') => I s' ∧ 0 ≤ measure s' < measure s
              | Ret (inr r) => Q (Ret r)
              | Panic => Q Panic
              end) →
  I s → measure s < 2 ^ Z.of_nat k → Q (loop_end (run_loop k body s)).
Proof.
  intros Hbody Hs Hk. pose proof (run_loop_spec I Q measure body Hbody k s Hs) as H.
  destruct (run_loop k body s) as [[s'|r]|]; simpl; [lia|done..].
Qed.

(** [iterates body n s r]: the loop from [s] ends with [r] in its [n]-th iteration. *)
Inductive iterates {S R} (body : S → outcome (S + R)) : Z → S → outcome R → Prop :=
| iterates_panic s : body s = Panic → iterates body 1 s Panic
| iterates_stop s r : body s = Ret (inr r) → iterates body 1 s (Ret r)
| iterates_step n s s' r : body s = Ret (inl s') → iterates body n s' r → iterates body (n + 1) s r.

Lemma iterates_pos {S R} (body : S → outcome (S + R)) n s r : iterates body n s r → 1 ≤ n.
Proof. induction 1; lia. Qed.

Lemma iterates_run_loop {S R} (body : S → outcome (S + R)) k n s r :
  iterates body n s r →
  if decide (n ≤ 2 ^ Z.of_nat k)
  then run_loop k body s = match r with Ret x => Ret (inr x) | Panic => Panic end
  else ∃ s', run_loop k body s = Ret (inl s') ∧ iterates body (n - 2 ^ Z.of_nat k) s' r.
Proof.
  revert n s. induction k as [|k IH]; intros n s H.
  - simpl. change (2 ^ Z.of_nat 0) with 1. destruct H as [s E|s r E|n s s' r E H].
    + by rewrite decide_True by lia.
    + by rewrite decide_True by lia.
    + pose proof (iterates_pos _ _ _ _ H). rewrite decide_False by lia. exists s'. split; [done|].
      by replace (n + 1 - 1) with n by lia.
  - cbn [run_loop]. pose proof (IH n s H) as H1. pose proof (Z.pow_pos_nonneg 2 (Z.of_nat k)).
    rewrite Nat2Z.inj_succ, Z.pow_succ_r by lia. case_decide as Hn.
    + rewrite decide_True by lia. rewrite H1. by destruct r.
    + destruct H1 as (s' & -> & H1). simpl. pose proof (IH _ s' H1) as H2. case_decide as Hn'.
      * by rewrite decide_True by lia.
      * rewrite decide_False by lia. destruct H2 as (s2 & -> & H2). exists s2. split; [done|].
        by replace (n - 2 * 2 ^ Z.of_nat k) with (n - 2 ^ Z.of_nat k - 2 ^ Z.of_nat k) by lia.
Qed.

(** Enough iterations give the result of the loop. *)
Lemma iterates_loop {S R} (body : S → outcome (S + R)) k n s r :
  iterates body n s r → n ≤ 2 ^ Z.of_nat k → loop_end (run_loop k body s) = r.
Proof.
  intros H Hn. pose proof (iterates_run_loop body k n s r H) as E. rewrite decide_True in E by done.
  unfold loop_end. rewrite E. by destruct r.
Qed.

(** [for i in 0..n { ... }] for a [u32] [n]: the body gives the next state, or
    ([inr]) returns from the function. *)
Definition for_range_body {S R} (n : Z) (body : Z → S → outcome (S + R)) (x : Z * S)
    : outcome (Z * S + (S + R)) :=
  let '(i, s) := x in
  if i <? n then
    y ← body i s;
    match y with inl s' => Ret (inl (i + 1, s')) | inr r => Ret (inr (inr r)) end
  else Ret (inr (inl s)).
Definition for_range {S R} (n : Z) (body : Z → S → outcome (S + R)) (s : S) : outcome (S + R) :=
  loop_end (run_loop 33 (for_range_body n body) (0, s)).

(** Total correctness of a counting loop by an invariant on the state before
    each iteration. *)
Lemma for_range_spec {S R} n (body : Z → S → outcome (S + R)) (I : Z → S → Prop) (Q : S + R → Prop) s :
  0 ≤ n < U32_MOD → I 0 s →
  (∀ i s, 0 ≤ i < n → I i s → (∃ s', body i s = Ret (inl s') ∧ I (i + 1) s') ∨
                              (∃ r, body i s = Ret (inr r) ∧ Q (inr r))) →
  (∀ s, I n s → Q (inl s)) →
  ∃ y, for_range n body s = Ret y ∧ Q y.
Proof.
  intros Hn H0 Hbody Hend. unfold for_range.
  apply (loop_end_spec (λ '(i, s), 0 ≤ i ≤ n ∧ I i s) (λ o, ∃ y, o = Ret y ∧ Q y) (λ '(i, _), n - i));
    [|split; [lia|done]|unfold U32_MOD in *; lia].
  intros [i t] [Hi HI]. simpl. destruct (Z.ltb_spec i n).
  - destruct (Hbody i t) as [(s' & -> & HI')|(r & -> & HQ)]; [lia|done|..]; simpl.
    + split; [split; [lia|done]|lia].
    + eauto.
  - assert (i = n) as -> by lia. eauto.
Qed.

(** The same without early return. *)
Definition for_count {S} (n : Z) (body : Z → S → outcome S) (s : S) : outcome S :=
  r ← for_range (R := Empty_set) n (λ i s, s' ← body i s; Ret (inl s')) s;
  match r with inl s' => Ret s' | inr e => match e : Empty_set with end end.

Lemma for_count_spec {S} n (body : Z → S → outcome S) (I : Z → S → Prop) s :
  0 ≤ n < U32_MOD → I 0 s →
  (∀ i s, 0 ≤ i < n → I i s → ∃ s', body i s = Ret s' ∧ I (i + 1) s') →
  ∃ s', for_count n body s = Ret s' ∧ I n s'.
Proof.
  intros Hn H0 Hbody. unfold for_count.
  destruct (for_range_spec (R := Empty_set) n (λ i s, s' ← body i s; Ret (inl s')) I
              (λ y, match y with inl s' => I n s' | inr _ => False end) s) as (y & -> & Hy); [done|done| |done|].
  - intros i t Hi HI. left. destruct (Hbody i t Hi HI) as (s' & -> & ?). simpl. eauto.
  - destruct y as [s'|[]]. eauto.
Qed.

(** ** Ordered maps: the [BTreeMap] of the standard library *)

Section btree.
Context {A : Type}.
Implicit Types m : gmap Z A.

Definition key_le (p q : Z * A) : Prop := p.1 ≤ q.1.
#[global] Instance key_le_dec p q : Decision (key_le p q) := decide (p.1 ≤ q.1).
#[global] Instance key_le_trans : Transitive key_le.
Proof. intros ???; unfold key_le; lia. Qed.
#[global] Instance key_le_total : Total key_le.
Proof. intros ??; unfold key_le; lia. Qed.

(** In-order traversal. *)
Definition btree_iter m : list (Z * A) := merge_sort key_le (map_to_list m).

(** [map.range(r)] for the keys [k] with [r k = true]. *)
Definition btree_range (r : Z → bool) m : list (Z * A) :=
  filter (λ p, r p.1 = true) (btree_iter m).

Lemma elem_of_btree_iter m k v : (k, v) ∈ btree_iter m ↔ m !! k = Some v.
Proof. unfold btree_iter. by rewrite merge_sort_Permutation, elem_of_map_to_list. Qed.

Lemma elem_of_btree_range r m k v :
  (k, v) ∈ btree_range r m ↔ m !! k = Some v ∧ r k = true.
Proof. unfold btree_range. rewrite list_elem_of_filter, elem_of_btree_iter. naive_solver. Qed.

Lemma btree_iter_NoDup m : NoDup (btree_iter m).*1.
Proof. unfold btree_iter. rewrite merge_sort_Permutation. apply NoDup_fst_map_to_list. Qed.

Lemma btree_range_NoDup r m : NoDup (btree_range r m).*1.
Proof.
  unfold btree_range. pose proof (btree_iter_NoDup m) as H. revert H.
  induction (btree_iter m) as [|p l IH]; simpl; [done|].
  intros [Hp Hl]%NoDup_cons. rewrite filter_cons. case_decide; [|auto].
  simpl. apply NoDup_cons. split; [|auto].
  intros [q [E Hq]]%list_elem_of_fmap. apply Hp. rewrite E.
  apply list_elem_of_filter in Hq as [_ Hq]. by apply list_elem_of_fmap_2.
Qed.

Lemma btree_iter_sorted m : StronglySorted key_le (btree_iter m).
Proof. apply StronglySorted_merge_sort; apply _. Qed.

Lemma filter_sorted (P : Z * A → Prop) `{!∀ x, Decision (P x)} l :
  StronglySorted key_le l → StronglySorted key_le (filter P l).
Proof.
  induction 1 as [|x l Hl IH Hx]; [by constructor|].
  rewrite filter_cons. case_decide; [|done]. constructor; [done|].
  apply Forall_forall. intros y [_ Hy]%list_elem_of_filter.
  by eapply Forall_forall in Hx.
Qed.

Lemma sorted_last_max l p q :
  StronglySorted key_le l → last l = Some p → q ∈ l → key_le q p.
Proof.
  induction 1 as [|x l Hl IH Hx]; [done|]. intros Hlast Hq.
  destruct l as [|y l']; [simpl in Hlast; simplify_eq; apply list_elem_of_singleton in Hq; subst; unfold key_le; lia|].
  rewrite last_cons_cons in Hlast.
  apply elem_of_cons in Hq as [->|Hq]; [|auto].
  assert (p ∈ y :: l') by (apply last_Some_elem_of; done).
  by eapply Forall_forall in Hx.
Qed.

(** [map.range(r).next_back()]: the entry with the largest key in range. *)
Lemma btree_next_back_Some r m k v :
  last (btree_range r m) = Some (k, v) →
  m !! k = Some v ∧ r k = true ∧ (∀ k' v', m !! k' = Some v' → r k' = true → k' ≤ k).
Proof.
  intros Hl. assert ((k, v) ∈ btree_range r m) as [??]%elem_of_btree_range
    by (by apply last_Some_elem_of).
  split_and!; [done..|]. intros k' v' Hk' Hr.
  apply (sorted_last_max _ _ (k', v')) in Hl; [done| |by apply elem_of_btree_range].
  apply filter_sorted, btree_iter_sorted.
Qed.

Lemma btree_next_back_None r m k v :
  last (btree_range r m) = None → m !! k = Some v → r k = false.
Proof.
  rewrite last_None. intros Hl Hk. destruct (r k) eqn:E; [|done].
  assert ((k, v) ∈ btree_range r m) as H by (by apply elem_of_btree_range).
  rewrite Hl in H. by apply elem_of_nil in H.
Qed.
End btree.

(** ** Vectors *)

Section vectors.
Context {A : Type}.
Implicit Types l : list A.

(** [Vec::swap_remove(i)]: the element at [i] and the vector in which the
    last element took its place; panics out of bounds. *)
Definition swap_remove (i : nat) l : outcome (A * list A) :=
  x ← unwrap (l !! i);
  y ← unwrap (last l);
  Ret (x, take (length l - 1) (<[i := y]> l)).

(** [iter().rposition(p)]: the last index whose element satisfies [p]. *)
Fixpoint rposition (p : A → bool) l : option nat :=
  match l with
  | [] => None
  | x :: l' =>
      match rposition p l' with
      | Some i => Some (S i)
      | None => if p x then Some O else None
      end
  end.

(** [iter().position(p)]. *)
Fixpoint position (p : A → bool) l : option nat :=
  match l with
  | [] => None
  | x :: l' => if p x then Some O else S <$> position p l'
  end.

Lemma rposition_Some p l i :
  rposition p l = Some i → ∃ x, l !! i = Some x ∧ p x = true.
Proof.
  revert i. induction l as [|x l IH]; intros i; simpl; [done|].
  destruct (rposition p l) as [j|]; [intros [= <-]; by apply IH|].
  destruct (p x) eqn:E; [|done]. intros [= <-]. eauto.
Qed.

Lemma rposition_None p l : rposition p l = None → ∀ x, x ∈ l → p x = false.
Proof.
  induction l as [|y l IH]; simpl; intros H x Hx; [by apply elem_of_nil in Hx|].
  destruct (rposition p l); [done|]. destruct (p y) eqn:E; [done|].
  apply elem_of_cons in Hx as [->|?]; auto.
Qed.

Lemma position_Some p l i :
  position p l = Some i →
  ∃ x, l !! i = Some x ∧ p x = true ∧ ∀ j y, (j < i)%nat → l !! j = Some y → p y = false.
Proof.
  revert i. induction l as [|x l IH]; intros i; simpl; [done|].
  destruct (p x) eqn:E; [intros [= <-]; exists x; split_and!; [done..|lia]|].
  destruct (position p l) as [j|]; simpl; [|done]. intros [= <-].
  destruct (IH j eq_refl) as (y & ? & ? & H). exists y. split_and!; [done..|].
  intros [|k] z Hk Hz; simpl in *; [by simplify_eq|]. eapply H; [|done]. lia.
Qed.

Lemma position_None p l : position p l = None → ∀ x, x ∈ l → p x = false.
Proof.
  induction l as [|y l IH]; simpl; intros H x Hx; [by apply elem_of_nil in Hx|].
  destruct (p y) eqn:E; [done|]. destruct (position p l); [done|].
  apply elem_of_cons in Hx as [->|?]; auto.
Qed.

Lemma swap_remove_spec i l x :
  l !! i = Some x → ∃ l', swap_remove i l = Ret (x, l') ∧ l ≡ₚ x :: l'.
Proof.
  intros Hi. unfold swap_remove. rewrite Hi. simpl.
  destruct l as [|z l0 _] using rev_ind; [done|].
  rewrite last_snoc. simpl. eexists. split; [done|].
  rewrite length_app. simpl. replace (length l0 + 1 - 1)%nat with (length l0) by lia.
  destruct (decide (i < length l0)%nat) as [Hlt|Hge].
  - rewrite lookup_app_l in Hi by done.
    rewrite insert_app_l, take_app_le, take_ge by (rewrite ?length_insert; lia).
    rewrite <- (take_drop_middle l0 i x Hi) at 1.
    rewrite insert_take_drop by done.
    rewrite (Permutation_app_comm _ [z]), <- !Permutation_middle. done.
  - apply lookup_lt_Some in Hi as Hlt. rewrite length_app in Hlt. simpl in Hlt.
    replace i with (length l0) in * by lia.
    rewrite list_lookup_middle in Hi by done. simplify_eq.
    rewrite insert_app_r_alt, take_app_le, take_ge by lia.
    by rewrite Permutation_app_comm.
Qed.
End vectors.

Arguments u32 : simpl never.
Arguments u64 : simpl never.
Arguments i32 : simpl never.
Arguments swap_remove {A} i l : simpl never.

(** Loops are evaluated by their lemmas, or on concrete states by [vm_compute]. *)
#[global] Opaque run_loop.
