(* ===== verification/ChunkMap.v ===== *)
(** * Chunks and chunk maps ([mem/allocator.rs])

    A chunk is a non-empty range of guest addresses.  [ChunkMap] is the
    [BTreeMap] from base to size; [SizeBucketedChunkMap] adds a vector of
    buckets by the logarithm of the size, which is an index into the same
    chunks.  Both are stores of chunks: the class [ChunkStore] has their
    common operations, [ChunkStoreLaws] what they promise, and [remove_range]
    (which the source writes once per type, with the same body) is defined and
    verified against that interface. *)

From S2P Require Import Prelude.

Definition MIN_CHUNK_SIZE : Z := 16.
Definition PAGE_SIZE : Z := 4096.

(** ** Chunks *)

Record Chunk := mkChunk { cbase : Z; csize : Z }.

#[global] Instance Chunk_eq_dec : EqDecision Chunk.
Proof. solve_decision. Defined.

Definition Chunk_new (base size : Z) : outcome Chunk :=
  if size =? 0 then Panic else Ret (mkChunk base size).

Definition last_byte (self : Chunk) : outcome Z :=
  off ← u32 (csize self - 1);
  u32 (cbase self + off).

Definition Chunk_merge (self other : Chunk) : outcome Chunk :=
  self_last ← last_byte self;
  self_end ← u32 (self_last + 1);
  adjacent ←
    (if self_end =? cbase other then Ret true
     else
       other_last ← last_byte other;
       other_end ← u32 (other_last + 1);
       Ret (other_end =? cbase self));
  rassert adjacent;;
  size ← u32 (csize self + csize other);
  Chunk_new (Z.min (cbase self) (cbase other)) size.

Definition contains (self : Chunk) (addr : Z) : outcome bool :=
  if cbase self <=? addr then
    l ← last_byte self; Ret (addr <=? l)
  else Ret false.

Definition difference (self other : Chunk) : outcome (option Chunk * option Chunk) :=
  other_last ← last_byte other;
  if other_last <? cbase self then Ret (None, Some self)
  else
    self_last ← last_byte self;
    if self_last <? cbase other then Ret (Some self, None)
    else
      left ←
        (if cbase other - cbase self <=? 0 then Ret None
         else c ← Chunk_new (cbase self) (cbase other - cbase self); Ret (Some c));
      right ←
        (if self_last - other_last <=? 0 then Ret None
         else
           base ← u32 (other_last + 1);
           c ← Chunk_new base (self_last - other_last); Ret (Some c));
      Ret (left, right).

Definition trisect_by (self middle : Chunk)
    : outcome (option (option Chunk * option Chunk)) :=
  has_base ← contains self (cbase middle);
  if negb has_base then Ret None
  else
    middle_last ← last_byte middle;
    has_last ← contains self middle_last;
    if negb has_last then Ret None
    else d ← difference self middle; Ret (Some d).

(** The addresses of a chunk. *)
Definition chunk_in (c : Chunk) (a : Z) : Prop := cbase c ≤ a < cbase c + csize c.

#[global] Instance chunk_in_dec c a : Decision (chunk_in c a).
Proof. unfold chunk_in. apply _. Defined.

(** A chunk of the address space that stops short of its last byte: the top
    of the address space is the main thread's stack, never a chunk. *)
Definition chunk_ok (c : Chunk) : Prop :=
  0 ≤ cbase c ∧ 0 < csize c ∧ cbase c + csize c < U32_MOD.

(** Reference definition of the two parts of [c] that [d] leaves. *)
Definition cut_left (c d : Chunk) : option Chunk :=
  if cbase d <=? cbase c then None
  else Some (mkChunk (cbase c) (Z.min (csize c) (cbase d - cbase c))).

Definition cut_right (c d : Chunk) : option Chunk :=
  let e := Z.max (cbase c) (cbase d + csize d) in
  if cbase c + csize c <=? e then None
  else Some (mkChunk e (cbase c + csize c - e)).

Lemma last_byte_ok c : chunk_ok c → last_byte c = Ret (cbase c + csize c - 1).
Proof.
  intros (?&?&?). unfold last_byte. u32_simpl. f_equal. lia.
Qed.

Lemma contains_ok c a :
  chunk_ok c → contains c a = Ret (bool_decide (chunk_in c a)).
Proof.
  intros Hc. unfold contains. rewrite last_byte_ok by done. simpl.
  unfold chunk_in. repeat zcase; f_equal; symmetry;
    first [apply bool_decide_eq_true | apply bool_decide_eq_false]; lia.
Qed.

Lemma merge_ok c d :
  chunk_ok c → chunk_ok d →
  cbase c + csize c = cbase d ∨ cbase d + csize d = cbase c →
  Chunk_merge c d = Ret (mkChunk (Z.min (cbase c) (cbase d)) (csize c + csize d)).
Proof.
  intros Hc Hd Hadj. unfold Chunk_merge. rewrite !last_byte_ok by done. simpl.
  destruct Hc as (?&?&?), Hd as (?&?&?). u32_simpl.
  destruct (Z.eqb_spec (cbase c + csize c - 1 + 1) (cbase d)); simpl.
  - u32_simpl. unfold Chunk_new. zcase; [lia|done].
  - u32_simpl. destruct (Z.eqb_spec (cbase d + csize d - 1 + 1) (cbase c)); simpl; [|lia].
    u32_simpl. unfold Chunk_new. zcase; [lia|done].
Qed.

Lemma difference_cut c d :
  chunk_ok c → chunk_ok d → difference c d = Ret (cut_left c d, cut_right c d).
Proof.
  intros Hc Hd. unfold difference. rewrite !last_byte_ok by done. simpl.
  destruct c as [b s], d as [b' s'], Hc as (?&?&?), Hd as (?&?&?).
  unfold cut_left, cut_right, Chunk_new; simpl in *.
  destruct (Z.ltb_spec (b' + s' - 1) b); simpl.
  { repeat zcase; try lia; feq_lia. }
  destruct (Z.ltb_spec (b + s - 1) b'); simpl.
  { repeat zcase; try lia; feq_lia. }
  destruct (Z.leb_spec (b' - b) 0), (Z.leb_spec (b + s - 1 - (b' + s' - 1)) 0),
    (Z.leb_spec b' b), (Z.leb_spec (b + s) (b `max` (b' + s'))); try lia; simpl;
    repeat (zcase; try lia; simpl); u32_simpl; repeat (zcase; try lia; simpl);
    feq_lia.
Qed.

Lemma cut_left_Some c d l :
  cut_left c d = Some l → chunk_ok c →
  cbase l = cbase c ∧ chunk_ok l ∧ ∀ a, chunk_in l a ↔ chunk_in c a ∧ a < cbase d.
Proof.
  unfold cut_left, chunk_ok, chunk_in. intros H ?. zcase; simplify_eq; simpl.
  split_and!; lia.
Qed.

Lemma cut_right_Some c d r :
  cut_right c d = Some r → chunk_ok c →
  cbase c ≤ cbase r ∧ chunk_ok r ∧ ∀ a, chunk_in r a ↔ chunk_in c a ∧ cbase d + csize d ≤ a.
Proof.
  unfold cut_right, chunk_ok, chunk_in. intros H ?. zcase; simplify_eq; simpl.
  split_and!; lia.
Qed.

(** The two parts together are the addresses of [c] outside [d]. *)
Lemma cut_cover c d a :
  chunk_ok c → chunk_ok d →
  (∃ l, cut_left c d = Some l ∧ chunk_in l a) ∨ (∃ r, cut_right c d = Some r ∧ chunk_in r a) ↔
  chunk_in c a ∧ ¬ chunk_in d a.
Proof.
  intros (?&?&?) (?&?&?). unfold cut_left, cut_right, chunk_in. split.
  - intros [(l & El & ?)|(r & Er & ?)]; zcase; simplify_eq; simpl in *; lia.
  - intros [? Hd]. destruct (Z.lt_ge_cases a (cbase d)).
    + left. zcase; [lia|]. eexists. split; [done|]. simpl. lia.
    + right. zcase; [lia|]. eexists. split; [done|]. simpl. lia.
Qed.

Lemma cut_end c d x :
  cut_left c d = Some x ∨ cut_right c d = Some x →
  cbase x + csize x = cbase c + csize c ∨ cbase x + csize x = cbase d.
Proof. unfold cut_left, cut_right. intros []; zcase; simplify_eq; simpl; lia. Qed.

Lemma cut_gran g c d x :
  (g | cbase c) → (g | csize c) → (g | cbase d) → (g | csize d) →
  cut_left c d = Some x ∨ cut_right c d = Some x → (g | cbase x) ∧ (g | csize x).
Proof.
  intros. unfold cut_left, cut_right in *.
  destruct_or!; zcase; simplify_eq; simpl.
  - split; [done|]. destruct (Z.min_spec (csize c) (cbase d - cbase c)) as [[_ ->]|[_ ->]]; [done|].
    by apply Z.divide_sub_r.
  - destruct (Z.max_spec (cbase c) (cbase d + csize d)) as [[_ ->]|[_ ->]];
      repeat first [split | apply Z.divide_sub_r | apply Z.divide_add_r | done].
Qed.

(** ** Maps of chunks *)

(** Address [a] belongs to a chunk of [m]. *)
Definition covers (m : gmap Z Z) (a : Z) : Prop :=
  ∃ b s, m !! b = Some s ∧ b ≤ a < b + s.

(** The invariant of every chunk map of the allocators: chunks are ranges of
    the address space, base and size are multiples of the granularity [g], and
    two chunks share no address. *)
Record map_ok (g : Z) (m : gmap Z Z) : Prop := {
  map_ok_chunk b s : m !! b = Some s → chunk_ok (mkChunk b s);
  map_ok_gran b s : m !! b = Some s → (g | b) ∧ (g | s);
  map_ok_disjoint b1 s1 b2 s2 a :
    m !! b1 = Some s1 → m !! b2 = Some s2 →
    b1 ≤ a < b1 + s1 → b2 ≤ a < b2 + s2 → b1 = b2
}.

Lemma map_ok_empty g : map_ok g ∅.
Proof. split; intros *; rewrite ?lookup_empty; discriminate. Qed.

Lemma covers_empty a : ¬ covers ∅ a.
Proof. intros (?&?&?&?). by rewrite lookup_empty in *. Qed.

Lemma covers_insert m b s a :
  m !! b = None → covers (<[b := s]> m) a ↔ (b ≤ a < b + s) ∨ covers m a.
Proof.
  intros Hb. split.
  - intros (b' & s' & H & Ha). rewrite lookup_insert in H. case_decide; simplify_eq; [by left|].
    right. by exists b', s'.
  - intros [Ha|(b' & s' & H & Ha)].
    + exists b, s. by rewrite lookup_insert_eq.
    + exists b', s'. rewrite lookup_insert_ne; [done|congruence].
Qed.

Lemma covers_delete g m b s a :
  map_ok g m → m !! b = Some s →
  covers (delete b m) a ↔ covers m a ∧ ¬ (b ≤ a < b + s).
Proof.
  intros Hm Hb. split.
  - intros (b' & s' & [Hne H]%lookup_delete_Some & Ha). split; [by exists b', s'|].
    intros Ha'. by apply Hne, (map_ok_disjoint _ _ Hm _ _ _ _ _ Hb H Ha' Ha).
  - intros [(b' & s' & H & Ha) Hn]. exists b', s'. rewrite lookup_delete_ne; [done|].
    intros ->. simplify_eq. auto.
Qed.

Lemma map_ok_delete g m b : map_ok g m → map_ok g (delete b m).
Proof.
  intros [H1 H2 H3]. split.
  - intros b' s' [_ ?]%lookup_delete_Some. eauto.
  - intros b' s' [_ ?]%lookup_delete_Some. eauto.
  - intros ????? [_ ?]%lookup_delete_Some [_ ?]%lookup_delete_Some. eauto.
Qed.

(** A chunk whose addresses are all free may be added. *)
Lemma map_ok_insert g m b s :
  map_ok g m → chunk_ok (mkChunk b s) → (g | b) → (g | s) →
  (∀ a, b ≤ a < b + s → ¬ covers m a) →
  m !! b = None ∧ map_ok g (<[b := s]> m).
Proof.
  intros Hm Hc Hb Hs Hfree.
  assert (m !! b = None) as HN.
  { destruct (m !! b) as [s'|] eqn:E; [|done]. exfalso.
    pose proof (map_ok_chunk _ _ Hm _ _ E) as (?&?&?). destruct Hc as (?&?&?). simpl in *.
    apply (Hfree b); [lia|]. exists b, s'. split; [done|lia]. }
  split; [done|]. destruct Hm as [H1 H2 H3]. split.
  - intros b' s' H. rewrite lookup_insert in H. case_decide; simplify_eq; eauto.
  - intros b' s' H. rewrite lookup_insert in H. case_decide; simplify_eq; eauto.
  - intros b1 s1 b2 s2 a HA HB Ha1 Ha2.
    rewrite lookup_insert in HA. rewrite lookup_insert in HB.
    repeat case_decide; simplify_eq; [done|..|by eauto];
      exfalso; eapply Hfree; first [exact Ha1 | exact Ha2 | by eexists _, _].
Qed.

Lemma covers_range g m a : map_ok g m → covers m a → 0 ≤ a < U32_MOD.
Proof.
  intros Hm (b & s & H & ?). pose proof (map_ok_chunk _ _ Hm _ _ H) as (?&?&?). simpl in *. lia.
Qed.

(** [e] is the address just past some chunk of [m]. *)
Definition chunk_end (m : gmap Z Z) (e : Z) : Prop := ∃ b s, m !! b = Some s ∧ e = b + s.

(** Two chunks of [m] never touch: what is free is one chunk per gap. *)
Definition coalesced (m : gmap Z Z) : Prop := ∀ e, chunk_end m e → ¬ covers m e.

(** *** [ChunkMap] *)

Definition ChunkMap_insert (c : Chunk) (m : gmap Z Z) : outcome (gmap Z Z) :=
  match m !! cbase c with
  | None => Ret (<[cbase c := csize c]> m)
  | Some _ => Panic
  end.

Definition ChunkMap_remove_with_base (base : Z) (m : gmap Z Z)
    : outcome (option Chunk * gmap Z Z) :=
  match m !! base with
  | Some size => Ret (Some (mkChunk base size), delete base m)
  | None => Ret (None, m)
  end.

Definition ChunkMap_remove_with_end (end_ : Z) (m : gmap Z Z)
    : outcome (option Chunk * gmap Z Z) :=
  match last (btree_range (λ k, k <? end_) m) with
  | None => Ret (None, m)
  | Some (base, size) =>
      l ← last_byte (mkChunk base size);
      e ← u32 (l + 1);
      if negb (e =? end_) then Ret (None, m)
      else
        '(c, m') ← ChunkMap_remove_with_base base m;
        c ← unwrap c;
        Ret (Some c, m')
  end.

Definition ChunkMap_get_size_with_base (base : Z) (m : gmap Z Z) : option Z := m !! base.

Definition overlapping_chunks (chunk : Chunk) (m : gmap Z Z) : outcome (list Chunk) :=
  start ←
    match last (btree_range (λ k, k <=? cbase chunk) m) with
    | Some (base, size) =>
        e ← u32 (base + size);
        Ret (if cbase chunk <? e then base else cbase chunk)
    | None => Ret (cbase chunk)
    end;
  l ← last_byte chunk;
  rassert (start <=? l);;
  Ret ((λ p, mkChunk p.1 p.2) <$> btree_range (λ k, (start <=? k) && (k <=? l)) m).

(** *** The interface of a store of chunks *)

Class ChunkStore (S : Type) := {
  cs_map : S → gmap Z Z;
  cs_insert : Chunk → S → outcome S;
  cs_remove_with_base : Z → S → outcome (option Chunk * S)
}.

Class ChunkStoreLaws (S : Type) `{ChunkStore S} (ok : S → Prop) (min : Z) := {
  cs_insert_law s c :
    ok s → chunk_ok c → min ≤ csize c → cs_map s !! cbase c = None →
    ∃ s', cs_insert c s = Ret s' ∧ ok s' ∧ cs_map s' = <[cbase c := csize c]> (cs_map s);
  cs_remove_law s b n :
    ok s → cs_map s !! b = Some n →
    ∃ s', cs_remove_with_base b s = Ret (Some (mkChunk b n), s') ∧ ok s' ∧
          cs_map s' = delete b (cs_map s);
  cs_remove_none_law s b :
    ok s → cs_map s !! b = None → cs_remove_with_base b s = Ret (None, s)
}.

#[global] Instance ChunkMap_store : ChunkStore (gmap Z Z) := {
  cs_map m := m;
  cs_insert := ChunkMap_insert;
  cs_remove_with_base := ChunkMap_remove_with_base
}.

#[global] Instance ChunkMap_laws : ChunkStoreLaws (gmap Z Z) (λ _, True) 1.
Proof.
  split; simpl; unfold ChunkMap_insert, ChunkMap_remove_with_base.
  - intros s c _ _ _ ->. eauto.
  - intros s b n _ ->. eauto.
  - by intros s b _ ->.
Qed.

Section store.
Context {S : Type} `{ChunkStore S}.

(** Body of the loop of [remove_range]. *)
Definition remove_range_step (remove : Chunk) (base : Z) (s : S) : outcome S :=
  '(c, s1) ← cs_remove_with_base base s;
  c ← unwrap c;
  '(lhs, rhs) ← difference c remove;
  s2 ← if_some lhs cs_insert s1;
  if_some rhs cs_insert s2.

Definition remove_range (remove : Chunk) (s : S) : outcome S :=
  cs ← overlapping_chunks remove (cs_map s);
  for_each (remove_range_step remove) (cbase <$> cs) s.

Context {ok : S → Prop} {min : Z} `{!ChunkStoreLaws S ok min}.
Implicit Types s : S.

(** Inserting a chunk of free addresses, at the level of addresses. *)
Lemma cs_insert_free g s c :
  ok s → map_ok g (cs_map s) → chunk_ok c → min ≤ csize c → (g | cbase c) → (g | csize c) →
  (∀ a, chunk_in c a → ¬ covers (cs_map s) a) →
  ∃ s', cs_insert c s = Ret s' ∧ ok s' ∧ map_ok g (cs_map s') ∧
    cs_map s' = <[cbase c := csize c]> (cs_map s) ∧ cs_map s !! cbase c = None ∧
    ∀ a, covers (cs_map s') a ↔ chunk_in c a ∨ covers (cs_map s) a.
Proof.
  intros Hok Hm Hc Hmin Hb Hs Hfree. destruct c as [b n].
  destruct (map_ok_insert g (cs_map s) b n) as [HN Hm']; [done..|].
  destruct (cs_insert_law s (mkChunk b n)) as (s' & E & Hok' & Es); [done..|].
  exists s'. rewrite Es. split_and!; [done..|]. intros a. by apply covers_insert.
Qed.

(** What one iteration of [remove_range], and the whole loop over the bases
    [bs], make of the store. *)
Definition carved (g : Z) (remove : Chunk) (bs : list Z) s s' : Prop :=
  ok s' ∧ map_ok g (cs_map s') ∧
  (∀ a, covers (cs_map s') a ↔
     covers (cs_map s) a ∧
     ¬ (chunk_in remove a ∧
        ∃ b n, b ∈ bs ∧ cs_map s !! b = Some n ∧ b ≤ a < b + n)) ∧
  (∀ b n, b ∉ bs → cs_map s !! b = Some n → cs_map s' !! b = Some n) ∧
  (∀ e, chunk_end (cs_map s') e → chunk_end (cs_map s) e ∨ e = cbase remove).

Lemma if_some_insert g s (o : option Chunk) :
  0 < g → min ≤ g → ok s → map_ok g (cs_map s) →
  (∀ c, o = Some c → chunk_ok c ∧ (g | cbase c) ∧ (g | csize c) ∧
                     ∀ a, chunk_in c a → ¬ covers (cs_map s) a) →
  ∃ s', if_some o cs_insert s = Ret s' ∧ ok s' ∧ map_ok g (cs_map s') ∧
    (∀ a, covers (cs_map s') a ↔ (∃ c, o = Some c ∧ chunk_in c a) ∨ covers (cs_map s) a) ∧
    (∀ b n, cs_map s !! b = Some n → cs_map s' !! b = Some n) ∧
    (∀ e, chunk_end (cs_map s') e →
       chunk_end (cs_map s) e ∨ ∃ c, o = Some c ∧ e = cbase c + csize c).
Proof.
  intros Hg Hmin Hok Hm Ho. destruct o as [c|]; simpl.
  2: { exists s. split_and!; [done..| | |by auto]; [naive_solver|done]. }
  destruct (Ho c eq_refl) as (Hc & Hb & Hs & Hfree).
  destruct (cs_insert_free g s c) as (s' & E & Hok' & Hm' & Em & HN & Hcov); try done.
  { destruct Hc as (_&?&_). apply Z.divide_pos_le in Hs; lia. }
  exists s'. split_and!; [done..| | |].
  - intros a. rewrite Hcov. naive_solver.
  - intros b n Hbn. rewrite Em, lookup_insert_ne; [done|]. congruence.
  - intros e (b & n & Hbn & ->). rewrite Em, lookup_insert in Hbn.
    case_decide; simplify_eq; [right; by exists c|left; by exists b, n].
Qed.

Lemma remove_range_step_spec g remove b n s :
  0 < g → min ≤ g → ok s → map_ok g (cs_map s) →
  chunk_ok remove → (g | cbase remove) → (g | csize remove) →
  cs_map s !! b = Some n →
  ∃ s', remove_range_step remove b s = Ret s' ∧ carved g remove [b] s s'.
Proof.
  intros Hg Hmin Hok Hm Hr Hrb Hrs Hb. unfold remove_range_step.
  destruct (cs_remove_law s b n) as (s1 & -> & Hok1 & E1); [done..|]. simpl.
  pose proof (map_ok_chunk _ _ Hm _ _ Hb) as Hc. destruct (map_ok_gran _ _ Hm _ _ Hb) as [Hgb Hgn].
  rewrite difference_cut by done. simpl.
  assert (map_ok g (cs_map s1)) as Hm1 by (rewrite E1; by apply map_ok_delete).
  assert (∀ a, covers (cs_map s1) a ↔ covers (cs_map s) a ∧ ¬ chunk_in (mkChunk b n) a) as Hc1.
  { intros a. rewrite E1. by eapply covers_delete. }
  destruct (if_some_insert g s1 (cut_left (mkChunk b n) remove))
    as (s2 & -> & Hok2 & Hm2 & Hc2 & Hl2 & He2); [done..| |].
  { intros c Ec. pose proof (cut_left_Some _ _ _ Ec Hc) as (_&?&Hin).
    destruct (cut_gran g (mkChunk b n) remove c) as [??]; [by auto..|].
    split_and!; [done..|]. intros a Ha%Hin. rewrite Hc1. tauto. }
  simpl.
  destruct (if_some_insert g s2 (cut_right (mkChunk b n) remove))
    as (s3 & -> & Hok3 & Hm3 & Hc3 & Hl3 & He3); [done..| |].
  { intros c Ec. pose proof (cut_right_Some _ _ _ Ec Hc) as (_&?&Hin).
    destruct (cut_gran g (mkChunk b n) remove c) as [??]; [by auto..|].
    split_and!; [done..|]. intros a Ha%Hin. rewrite Hc2, Hc1.
    intros [(c' & Ec' & Hin')|?]; [|tauto].
    apply (cut_left_Some _ _ _ Ec' Hc) in Hin' as [_ ?]. destruct Hr as (?&?&?). lia. }
  exists s3. split; [done|]. split_and!; [done..| | |].
  - intros a. rewrite Hc3, Hc2, Hc1. pose proof (cut_cover (mkChunk b n) remove a Hc Hr) as Hcut.
    transitivity (covers (cs_map s) a ∧ ¬ (chunk_in remove a ∧ chunk_in (mkChunk b n) a)).
    + assert (chunk_in (mkChunk b n) a → covers (cs_map s) a) by (intros; by exists b, n).
      destruct (decide (chunk_in remove a)), (decide (chunk_in (mkChunk b n) a)); tauto.
    + setoid_rewrite list_elem_of_singleton. unfold chunk_in. simpl. naive_solver.
  - intros b' n' Hb'%not_elem_of_cons Hn'. apply Hl3, Hl2. rewrite E1, lookup_delete_ne; naive_solver.
  - intros e He. assert (chunk_end (cs_map s) (b + n)) as Hbn by (by exists b, n).
    apply He3 in He as [He|(c & Ec & ->)]; [apply He2 in He as [He|(c & Ec & ->)]|].
    + left. destruct He as (b' & n' & Hd & ->). rewrite E1 in Hd.
      apply lookup_delete_Some in Hd as [_ ?]. by exists b', n'.
    + destruct (cut_end _ _ _ (or_introl Ec)) as [->| ->]; auto.
    + destruct (cut_end _ _ _ (or_intror Ec)) as [->| ->]; auto.
Qed.

Lemma remove_range_loop g remove bs s :
  0 < g → min ≤ g → ok s → map_ok g (cs_map s) →
  chunk_ok remove → (g | cbase remove) → (g | csize remove) →
  NoDup bs → (∀ b, b ∈ bs → is_Some (cs_map s !! b)) →
  ∃ s', for_each (remove_range_step remove) bs s = Ret s' ∧ carved g remove bs s s'.
Proof.
  intros Hg Hmin Hok Hm Hr Hrb Hrs. revert s Hok Hm.
  induction bs as [|b bs IH]; intros s Hok Hm Hnd Hin.
  { exists s. split; [done|]. split_and!; [done..| | |by auto]; [|done].
    intros a. split; [|tauto]. intros ?. split; [done|]. intros (_&?&?&Hx&_). by apply elem_of_nil in Hx. }
  apply NoDup_cons in Hnd as [Hb Hnd]. destruct (Hin b) as [n Hn]; [by left|].
  destruct (remove_range_step_spec g remove b n s) as (s1 & E & Hok1 & Hm1 & Hc1 & Hl1 & He1); [done..|].
  cbn [for_each]. rewrite E. simpl.
  assert (∀ b' n', b' ∈ bs → cs_map s1 !! b' = Some n' ↔ cs_map s !! b' = Some n') as Hkeep.
  { intros b' n' Hb'. destruct (Hin b') as [n'' Hn'']; [by right|].
    assert (b' ∉ [b]) by (intros ->%list_elem_of_singleton; done).
    rewrite (Hl1 b' n'') by done. naive_solver. }
  destruct (IH s1 Hok1 Hm1 Hnd) as (s2 & -> & Hok2 & Hm2 & Hc2 & Hl2 & He2).
  { intros b' Hb'. destruct (Hin b') as [n' Hn']; [by right|]. exists n'. by apply Hkeep. }
  exists s2. split; [done|]. split_and!; [done..| | |].
  - intros a. rewrite Hc2, Hc1. setoid_rewrite list_elem_of_singleton. setoid_rewrite elem_of_cons.
    split; [intros [[Hc Hn1] Hn2]|intros [Hc Hn1]]; split_and!; try done.
    + intros (Ha & b' & n' & [->|Hb'] & Hbn & Hr'); [naive_solver|].
      apply Hn2. split; [done|]. exists b', n'. rewrite Hkeep by done. done.
    + intros (Ha & b' & n' & -> & Hr'). naive_solver.
    + intros (Ha & b' & n' & Hb' & Hbn & Hr'). rewrite Hkeep in Hbn by done. naive_solver.
  - intros b' n' Hb' Hn'. apply not_elem_of_cons in Hb' as [??]. apply Hl2; [done|]. apply Hl1; [|done].
    by intros ->%list_elem_of_singleton.
  - intros e [He| ->]%He2; [|by right]. by apply He1.
Qed.
End store.

(** [overlapping_chunks] never panics on a well-formed map and yields exactly
    the chunks that share an address with [c]. *)
Lemma overlapping_chunks_spec g m c :
  map_ok g m → chunk_ok c →
  ∃ l, overlapping_chunks c m = Ret l ∧ NoDup (cbase <$> l) ∧
    ∀ b s, mkChunk b s ∈ l ↔ m !! b = Some s ∧ b < cbase c + csize c ∧ cbase c < b + s.
Proof.
  intros Hm Hc. pose proof Hc as (?&?&?). unfold overlapping_chunks.
  rewrite last_byte_ok by done.
  assert (∃ start,
    match last (btree_range (λ k, k <=? cbase c) m) with
    | Some (base, size) =>
        e ← u32 (base + size);
        Ret (if cbase c <? e then base else cbase c)
    | None => Ret (cbase c)
    end = Ret start ∧ start ≤ cbase c ∧
    ∀ b s, m !! b = Some s → b < cbase c + csize c → (start ≤ b ↔ cbase c < b + s))
    as (start & -> & Hle & Hst).
  { destruct (last _) as [[b0 s0]|] eqn:E.
    - apply btree_next_back_Some in E as (Hb0 & Hk & Hmax). apply Z.leb_le in Hk.
      pose proof (map_ok_chunk _ _ Hm _ _ Hb0) as (?&?&?). simpl in *. u32_simpl.
      eexists. split; [done|]. split; [zcase; lia|]. intros b s Hb Hlt.
      pose proof (map_ok_chunk _ _ Hm _ _ Hb) as (?&?&?). simpl in *.
      specialize (Hmax b s Hb). rewrite Z.leb_le in Hmax.
      pose proof (map_ok_disjoint _ _ Hm b s b0 s0 b0 Hb Hb0) as Hd.
      destruct (Z.eq_dec b b0) as [->|]; [simplify_eq; zcase; lia|]. zcase; lia.
    - eexists. split; [done|]. split; [lia|]. intros b s Hb Hlt.
      pose proof (map_ok_chunk _ _ Hm _ _ Hb) as (?&?&?). simpl in *.
      pose proof (btree_next_back_None _ _ _ _ E Hb) as Hf. apply Z.leb_gt in Hf. lia. }
  simpl. destruct (Z.leb_spec start (cbase c + csize c - 1)); [|lia]. simpl.
  eexists. split; [done|]. split.
  - rewrite <- list_fmap_compose. apply btree_range_NoDup.
  - intros b s. rewrite list_elem_of_fmap. split.
    + intros ([b' s'] & E & [Hb Hk]%elem_of_btree_range). simpl in E. simplify_eq.
      rewrite andb_true_iff, !Z.leb_le in Hk. split; [done|]. split; [lia|]. apply Hst; [done|lia..].
    + intros (Hb & ? & ?). exists (b, s). split; [done|]. apply elem_of_btree_range. split; [done|].
      rewrite andb_true_iff, !Z.leb_le. split; [|lia]. eapply Hst; [done|lia..].
Qed.

Section remove_range.
Context {S : Type} `{ChunkStore S} {ok : S → Prop} {min : Z} `{!ChunkStoreLaws S ok min}.

(** [remove_range] takes exactly the addresses of [remove] out of the store. *)
Lemma remove_range_spec g remove (s : S) :
  0 < g → min ≤ g → ok s → map_ok g (cs_map s) →
  chunk_ok remove → (g | cbase remove) → (g | csize remove) →
  ∃ s', remove_range remove s = Ret s' ∧ ok s' ∧ map_ok g (cs_map s') ∧
    (∀ a, covers (cs_map s') a ↔ covers (cs_map s) a ∧ ¬ chunk_in remove a) ∧
    (∀ e, chunk_end (cs_map s') e → chunk_end (cs_map s) e ∨ e = cbase remove).
Proof.
  intros Hg Hmin Hok Hm Hr Hrb Hrs. unfold remove_range.
  destruct (overlapping_chunks_spec g (cs_map s) remove) as (l & -> & Hnd & Hl); [done..|]. simpl.
  destruct (remove_range_loop g remove (cbase <$> l) s) as (s' & E & Hok' & Hm' & Hc & _ & He); try done.
  { intros b ([b' n] & -> & Hb)%list_elem_of_fmap. apply Hl in Hb as [? _]. by eexists. }
  exists s'. split_and!; [done..| |done]. intros a. rewrite Hc. split; intros [Ha Hn]; (split; [done|]).
  - intros Hra. apply Hn. split; [done|]. destruct Ha as (b & n & Hb & ?).
    exists b, n. split_and!; [|done|lia..]. apply list_elem_of_fmap. exists (mkChunk b n).
    split; [done|]. apply Hl. unfold chunk_in in Hra. split; [done|lia].
  - tauto.
Qed.
End remove_range.

(** [ChunkMap::remove_range]. *)
Definition ChunkMap_remove_range (remove : Chunk) (m : gmap Z Z) : outcome (gmap Z Z) :=
  remove_range remove m.

Lemma ChunkMap_remove_with_end_hit g m b n :
  map_ok g m → m !! b = Some n →
  ChunkMap_remove_with_end (b + n) m = Ret (Some (mkChunk b n), delete b m).
Proof.
  intros Hm Hb. unfold ChunkMap_remove_with_end.
  pose proof (map_ok_chunk _ _ Hm _ _ Hb) as Hc. pose proof Hc as (?&?&?). simpl in *.
  destruct (last _) as [[k v]|] eqn:E.
  - apply btree_next_back_Some in E as (Hk & Hlt & Hmax). apply Z.ltb_lt in Hlt.
    assert (b ≤ k) by (eapply Hmax; [done|]; by apply Z.ltb_lt; lia).
    pose proof (map_ok_chunk _ _ Hm _ _ Hk) as (?&?&?). simpl in *.
    assert (b = k) as <- by (eapply (map_ok_disjoint _ _ Hm b n k v k); [done..|lia|lia]).
    simplify_eq. rewrite last_byte_ok by done. simpl. u32_simpl.
    destruct (Z.eqb_spec (b + n - 1 + 1) (b + n)); [|lia]. simpl.
    unfold ChunkMap_remove_with_base. by rewrite Hb.
  - eapply btree_next_back_None in E; [|done]. apply Z.ltb_ge in E. lia.
Qed.

Lemma ChunkMap_remove_with_end_miss g m e :
  map_ok g m → ¬ chunk_end m e → ChunkMap_remove_with_end e m = Ret (None, m).
Proof.
  intros Hm He. unfold ChunkMap_remove_with_end. destruct (last _) as [[k v]|] eqn:E; [|done].
  apply btree_next_back_Some in E as (Hk & _ & _).
  pose proof (map_ok_chunk _ _ Hm _ _ Hk) as Hc. rewrite last_byte_ok by done. simpl.
  destruct Hc as (?&?&?). simpl in *. u32_simpl.
  destruct (Z.eqb_spec (k + v - 1 + 1) e) as [<-|]; [|done]. exfalso. apply He.
  exists k, v. split; [done|lia].
Qed.

(** ** Coalescing *)

Definition cend (c : Chunk) : Z := cbase c + csize c.

(** [c] is a chunk that may be added to [m]. *)
Record addable (g : Z) (m : gmap Z Z) (c : Chunk) : Prop := {
  addable_map : map_ok g m;
  addable_chunk : chunk_ok c;
  addable_base : (g | cbase c);
  addable_size : (g | csize c);
  addable_free a : chunk_in c a → ¬ covers m a
}.

(** Moving a neighbour from the map into the chunk changes no address. *)
Lemma absorb_spec g m c b n :
  addable g m c → m !! b = Some n → b = cend c ∨ b + n = cbase c →
  let c' := mkChunk (Z.min b (cbase c)) (csize c + n) in
  addable g (delete b m) c' ∧
  ∀ a, chunk_in c' a ∨ covers (delete b m) a ↔ chunk_in c a ∨ covers m a.
Proof.
  intros [Hm Hc Hb Hs Hf] Hbn Hadj. pose proof (map_ok_chunk _ _ Hm _ _ Hbn) as (?&?&?).
  destruct (map_ok_gran _ _ Hm _ _ Hbn). pose proof Hc as (?&?&?). unfold cend in *. simpl in *.
  assert (∀ a, b ≤ a < b + n → covers m a) by (intros; by exists b, n).
  split; [split|].
  - by apply map_ok_delete.
  - unfold chunk_ok; simpl. lia.
  - simpl. destruct (Z.min_spec b (cbase c)) as [[_ ->]|[_ ->]]; done.
  - simpl. by apply Z.divide_add_r.
  - intros a Ha. rewrite covers_delete by done. intros [Hca Hn].
    apply (Hf a); [|done]. unfold chunk_in in *. simpl in *. lia.
  - intros a. rewrite covers_delete by done. unfold chunk_in. simpl.
    destruct (decide (b ≤ a < b + n)) as [Hd|Hd]; [|split; intros [?|?]; try tauto; left; lia].
    split; [intros _; right; auto|intros _; left; lia].
Qed.

Lemma coalesced_delete m b : coalesced m → coalesced (delete b m).
Proof.
  intros Hm e (b' & n & [_ Hb']%lookup_delete_Some & ->) (b2 & n2 & [_ Hb2]%lookup_delete_Some & ?).
  apply (Hm (b' + n)); [by exists b', n|by exists b2, n2].
Qed.

Lemma coalesced_insert g m c :
  addable g m c → coalesced m → ¬ chunk_end m (cbase c) → m !! cend c = None →
  coalesced (<[cbase c := csize c]> m).
Proof.
  intros [Hm Hc Hb Hs Hf] Hco Hl Hr e (b & n & Hbn & ->). pose proof Hc as (?&?&?).
  destruct (map_ok_insert g m (cbase c) (csize c)) as [HN Hm']; [done..|].
  rewrite covers_insert by done. rewrite lookup_insert in Hbn. unfold cend in *.
  case_decide as Hd; simplify_eq.
  - intros [?|(b2 & n2 & Hb2 & ?)]; [lia|].
    destruct (decide (b2 = cbase c + csize c)) as [->|]; [congruence|].
    apply (Hf (cbase c + csize c - 1)); [unfold chunk_in; lia|]. exists b2, n2. split; [done|lia].
  - pose proof (map_ok_chunk _ _ Hm _ _ Hbn) as (?&?&?). simpl in *.
    intros [?|?]; [|apply (Hco (b + n)); [by exists b, n|done]].
    destruct (decide (b + n = cbase c)) as [E|]; [apply Hl; exists b, n; by rewrite E|].
    apply (Hf (b + n - 1)); [unfold chunk_in; lia|]. exists b, n. split; [done|lia].
Qed.

(** In a coalesced map a run of covered addresses lies in one chunk. *)
Lemma run_in_one_chunk m b n :
  coalesced m → 0 < n → (∀ a, b ≤ a < b + n → covers m a) →
  ∃ b0 s0, m !! b0 = Some s0 ∧ b0 ≤ b ∧ b + n ≤ b0 + s0.
Proof.
  intros Hco Hn Hrun. destruct (Hrun b) as (b0 & s0 & Hb0 & ?); [lia|].
  exists b0, s0. split_and!; [done|lia|]. apply Z.nlt_ge. intros Hlt.
  apply (Hco (b0 + s0)); [by exists b0, s0|]. apply Hrun. lia.
Qed.

Lemma coalesced_carve m m' r :
  coalesced m → 0 < csize r →
  (∀ a, covers m' a → covers m a ∧ ¬ chunk_in r a) →
  (∀ e, chunk_end m' e → chunk_end m e ∨ e = cbase r) → coalesced m'.
Proof.
  intros Hco Hr Hcov Hend e He [Hc Hn]%Hcov. apply Hend in He as [He| ->]; [by apply (Hco e)|].
  apply Hn. unfold chunk_in. lia.
Qed.

Lemma trisect_by_ok c d :
  chunk_ok c → chunk_ok d →
  trisect_by c d = Ret (if bool_decide (cbase c ≤ cbase d ∧ cend d ≤ cend c)
                        then Some (cut_left c d, cut_right c d) else None).
Proof.
  intros Hc Hd. unfold trisect_by. rewrite !contains_ok, last_byte_ok by done. simpl.
  pose proof Hc as (?&?&?). pose proof Hd as (?&?&?). unfold chunk_in, cend.
  case_bool_decide; simpl; [rewrite contains_ok by done; simpl; unfold chunk_in; case_bool_decide; simpl|].
  - rewrite difference_cut by done. simpl. rewrite bool_decide_eq_true_2 by lia. done.
  - rewrite bool_decide_eq_false_2 by lia. done.
  - rewrite bool_decide_eq_false_2 by lia. done.
Qed.

#[global] Instance chunk_end_dec m e : Decision (chunk_end m e).
Proof.
  refine (cast_if (decide (map_Exists (λ b n, e = b + n) m)));
    abstract (unfold chunk_end, map_Exists in *; naive_solver).
Defined.
