(* ===== verification/SizeBucketed.v ===== *)
(** * Chunks indexed by size ([SizeBucketedChunkMap] of [mem/allocator.rs])

    The state is the chunk map and, for every logarithm of a size, the vector
    of the chunks with that logarithm.  The invariant [sb_ok] says that the
    buckets hold exactly the chunks of the map, each in its own bucket.  The
    search of [allocate] is best-fit over the whole map: [SizeBucketed_allocate_spec]. *)

From S2P Require Import Prelude ChunkMap.

Record SizeBucketed := mkSizeBucketed {
  min_chunk_size : Z;
  chunks : gmap Z Z;
  chunks_by_log2_size : list (list Chunk)
}.

Definition U32_MAX : Z := 4294967295.

Definition SizeBucketed_new (min_chunk_size : Z) : SizeBucketed :=
  mkSizeBucketed min_chunk_size ∅
    (replicate (Z.to_nat (Z.log2 U32_MAX - Z.log2 min_chunk_size) + 1) []).

Definition bucket_for (self : SizeBucketed) (size : Z) : outcome nat :=
  d ← u32 (Z.log2 size - Z.log2 (min_chunk_size self));
  Ret (Z.to_nat d).

Definition SizeBucketed_insert (chunk : Chunk) (self : SizeBucketed) : outcome SizeBucketed :=
  rassert (min_chunk_size self <=? csize chunk);;
  chunks' ← ChunkMap_insert chunk (chunks self);
  i ← bucket_for self (csize chunk);
  bucket ← unwrap (chunks_by_log2_size self !! i);
  Ret (mkSizeBucketed (min_chunk_size self) chunks'
         (<[i := bucket ++ [chunk]]> (chunks_by_log2_size self))).

Definition remove_from_bucket (chunk : Chunk) (self : SizeBucketed) : outcome SizeBucketed :=
  i ← bucket_for self (csize chunk);
  bucket ← unwrap (chunks_by_log2_size self !! i);
  idx ← unwrap (rposition (λ chunk2, cbase chunk =? cbase chunk2) bucket);
  '(removed, bucket') ← swap_remove idx bucket;
  rassert (bool_decide (chunk = removed));;
  Ret (mkSizeBucketed (min_chunk_size self) (chunks self)
         (<[i := bucket']> (chunks_by_log2_size self))).

Definition SizeBucketed_remove_with_base (base : Z) (self : SizeBucketed)
    : outcome (option Chunk * SizeBucketed) :=
  '(c, chunks') ← ChunkMap_remove_with_base base (chunks self);
  match c with
  | None => Ret (None, self)
  | Some chunk =>
      self' ← remove_from_bucket chunk
                (mkSizeBucketed (min_chunk_size self) chunks' (chunks_by_log2_size self));
      Ret (Some chunk, self')
  end.

Definition SizeBucketed_remove_with_end (end_ : Z) (self : SizeBucketed)
    : outcome (option Chunk * SizeBucketed) :=
  '(c, chunks') ← ChunkMap_remove_with_end end_ (chunks self);
  match c with
  | None => Ret (None, self)
  | Some chunk =>
      self' ← remove_from_bucket chunk
                (mkSizeBucketed (min_chunk_size self) chunks' (chunks_by_log2_size self));
      Ret (Some chunk, self')
  end.

(** The search loop of [allocate_in_bucket], over the reversed enumeration. *)
Fixpoint best_chunk (size : Z) (l : list (nat * Chunk)) (best : option (nat * Z))
    : option (nat * Z) :=
  match l with
  | [] => best
  | (idx, chunk) :: l' =>
      if (size <=? csize chunk) &&
         match best with None => true | Some (_, b) => csize chunk <? b end
      then
        if csize chunk =? size then Some (idx, csize chunk)
        else best_chunk size l' (Some (idx, csize chunk))
      else best_chunk size l' best
  end.

Definition enumerate {A} (l : list A) : list (nat * A) := imap (λ i x, (i, x)) l.

Definition allocate_in_bucket (size : Z) (bucket : nat) (self : SizeBucketed)
    : outcome (option Chunk * SizeBucketed) :=
  b ← unwrap (chunks_by_log2_size self !! bucket);
  match best_chunk size (reverse (enumerate b)) None with
  | None => Ret (None, self)
  | Some (idx, _) =>
      '(existing, b') ← swap_remove idx b;
      '(existing2, chunks') ← ChunkMap_remove_with_base (cbase existing) (chunks self);
      rassert (bool_decide (Some existing = existing2));;
      let self1 := mkSizeBucketed (min_chunk_size self) chunks'
                     (<[bucket := b']> (chunks_by_log2_size self)) in
      if csize existing =? size then Ret (Some existing, self1)
      else
        alloc ← Chunk_new (cbase existing) size;
        base ← u32 (cbase existing + size);
        sz ← u32 (csize existing - size);
        rump ← Chunk_new base sz;
        self2 ← SizeBucketed_insert rump self1;
        Ret (Some alloc, self2)
  end.

Definition SizeBucketed_allocate (size : Z) (self : SizeBucketed)
    : outcome (option Chunk * SizeBucketed) :=
  rassert (min_chunk_size self <=? size);;
  bucket ← bucket_for self size;
  '(r, self1) ← allocate_in_bucket size bucket self;
  match r with
  | Some alloc => Ret (Some alloc, self1)
  | None =>
      match position (λ b : list Chunk, negb (bool_decide (b = [])))
              (drop (S bucket) (chunks_by_log2_size self1)) with
      | None => Ret (None, self1)
      | Some i => allocate_in_bucket size (i + bucket + 1)%nat self1
      end
  end.

Definition SizeBucketed_iter (self : SizeBucketed) : list Chunk :=
  concat (chunks_by_log2_size self).

#[global] Instance SizeBucketed_store : ChunkStore SizeBucketed := {
  cs_map := chunks;
  cs_insert := SizeBucketed_insert;
  cs_remove_with_base := SizeBucketed_remove_with_base
}.

(** [SizeBucketedChunkMap::remove_range]. *)
Definition SizeBucketed_remove_range (remove : Chunk) (self : SizeBucketed) : outcome SizeBucketed :=
  remove_range remove self.

(** ** Invariant *)

Definition entries (m : gmap Z Z) : list Chunk := (λ p, mkChunk p.1 p.2) <$> map_to_list m.

Lemma elem_of_entries m c : c ∈ entries m ↔ m !! cbase c = Some (csize c).
Proof.
  unfold entries. rewrite list_elem_of_fmap. split.
  - intros ([b s] & -> & ?%elem_of_map_to_list). done.
  - intros H. exists (cbase c, csize c). split; [by destruct c|]. by apply elem_of_map_to_list.
Qed.

Lemma entries_insert m c :
  m !! cbase c = None → entries (<[cbase c := csize c]> m) ≡ₚ c :: entries m.
Proof. intros H. unfold entries. rewrite map_to_list_insert by done. simpl. by destruct c. Qed.

Lemma entries_delete m b n :
  m !! b = Some n → entries m ≡ₚ mkChunk b n :: entries (delete b m).
Proof. intros H. unfold entries. by rewrite <- (map_to_list_delete m b n) by done. Qed.

Lemma concat_insert {A} (bs : list (list A)) i b b' :
  bs !! i = Some b → concat (<[i := b']> bs) ++ b ≡ₚ concat bs ++ b'.
Proof.
  revert i. induction bs as [|x bs IH]; intros [|i] H; simplify_eq/=.
  - rewrite <- !app_assoc, (Permutation_app_comm (concat bs) b), (Permutation_app_comm (concat bs) b').
    by rewrite !app_assoc, (Permutation_app_comm b' b).
  - by rewrite <- !app_assoc, IH.
Qed.

(** Index of the bucket of a size. *)
Definition bucket_index (k size : Z) : nat := Z.to_nat (Z.log2 size - Z.log2 k).

Record buckets_ok (k : Z) (bs : list (list Chunk)) : Prop := {
  buckets_len : length bs = (Z.to_nat (31 - Z.log2 k) + 1)%nat;
  buckets_elem i b c :
    bs !! i = Some b → c ∈ b → k ≤ csize c < U32_MOD ∧ bucket_index k (csize c) = i
}.

Record sb_ok (k : Z) (x : SizeBucketed) : Prop := {
  sb_min : min_chunk_size x = k;
  sb_min_range : 0 < k < U32_MOD;
  sb_buckets : buckets_ok k (chunks_by_log2_size x);
  sb_perm : concat (chunks_by_log2_size x) ≡ₚ entries (chunks x)
}.

Lemma log2_range k s : 0 < k ≤ s → s < U32_MOD → 0 ≤ Z.log2 k ≤ Z.log2 s ∧ Z.log2 s ≤ 31.
Proof.
  intros ??. split; [split; [apply Z.log2_nonneg|apply Z.log2_le_mono; lia]|].
  change 31 with (Z.log2 (U32_MOD - 1)). apply Z.log2_le_mono. lia.
Qed.

Lemma bucket_for_ok k x s :
  min_chunk_size x = k → 0 < k ≤ s → s < U32_MOD →
  bucket_for x s = Ret (bucket_index k s).
Proof.
  intros <- ??. destruct (log2_range (min_chunk_size x) s); [done..|].
  unfold bucket_for. rewrite u32_ok by (unfold U32_MOD; lia). done.
Qed.

Lemma bucket_index_lookup k bs s :
  buckets_ok k bs → 0 < k ≤ s → s < U32_MOD → ∃ b, bs !! bucket_index k s = Some b.
Proof.
  intros Hb ??. apply lookup_lt_is_Some. rewrite (buckets_len _ _ Hb).
  destruct (log2_range k s); [done..|]. unfold bucket_index. lia.
Qed.

Lemma buckets_ok_insert k bs i b :
  buckets_ok k bs → (i < length bs)%nat →
  (∀ c, c ∈ b → k ≤ csize c < U32_MOD ∧ bucket_index k (csize c) = i) →
  buckets_ok k (<[i := b]> bs).
Proof.
  intros [H1 H2] Hi Hb. split; [by rewrite length_insert|].
  intros j b' c Hj Hc. destruct (decide (i = j)) as [->|].
  - rewrite list_lookup_insert_eq in Hj by done. simplify_eq. auto.
  - rewrite list_lookup_insert_ne in Hj by done. eauto.
Qed.

(** The chunks of the map are those of the buckets. *)
Lemma sb_elem k x c :
  sb_ok k x → chunks x !! cbase c = Some (csize c) ↔ c ∈ concat (chunks_by_log2_size x).
Proof. intros Hx. rewrite (sb_perm _ _ Hx). symmetry. apply elem_of_entries. Qed.

Lemma elem_of_concat {A} (x : A) (bs : list (list A)) :
  x ∈ concat bs ↔ ∃ i b, bs !! i = Some b ∧ x ∈ b.
Proof.
  induction bs as [|b bs IH]; simpl.
  - split; [by intros ?%elem_of_nil|]. intros (i&?&H&_). by destruct i.
  - rewrite elem_of_app, IH. split.
    + intros [?|(i & b' & ? & ?)]; [by exists O, b|by exists (S i), b'].
    + intros ([|i] & b' & ? & ?); simplify_eq/=; [by left|right; by exists i, b'].
Qed.

Lemma sb_elem_bucket k x c :
  sb_ok k x → chunks x !! cbase c = Some (csize c) →
  k ≤ csize c < U32_MOD ∧
  ∃ b, chunks_by_log2_size x !! bucket_index k (csize c) = Some b ∧ c ∈ b.
Proof.
  intros Hx (i & b & Hi & Hc)%(sb_elem k x c Hx)%elem_of_concat.
  destruct (buckets_elem _ _ (sb_buckets _ _ Hx) _ _ _ Hi Hc) as [? <-]. eauto.
Qed.

Lemma sb_new_ok k : 0 < k < U32_MOD → sb_ok k (SizeBucketed_new k).
Proof.
  intros Hk. split; simpl; [done..| |].
  - split; [by rewrite length_replicate|].
    intros i b c [-> _]%lookup_replicate Hc. by apply elem_of_nil in Hc.
  - unfold entries. rewrite map_to_list_empty. simpl.
    by induction (Z.to_nat _ + 1)%nat.
Qed.

Lemma sb_insert_ok k x c :
  sb_ok k x → chunk_ok c → k ≤ csize c → chunks x !! cbase c = None →
  ∃ x', SizeBucketed_insert c x = Ret x' ∧ sb_ok k x' ∧
        chunks x' = <[cbase c := csize c]> (chunks x).
Proof.
  intros Hx (?&?&?) Hk HN. pose proof Hx as [Hmin Hkr Hbs Hp]. unfold SizeBucketed_insert.
  rewrite Hmin. destruct (Z.leb_spec k (csize c)); [|lia]. simpl.
  unfold ChunkMap_insert. rewrite HN. simpl. rewrite (bucket_for_ok k) by (done || lia). simpl.
  destruct (bucket_index_lookup k (chunks_by_log2_size x) (csize c)) as [b Hb]; [done|lia..|].
  rewrite Hb. simpl. eexists. split; [done|]. split; [|done].
  split; simpl; [done..| |].
  - apply buckets_ok_insert; [done|by eapply lookup_lt_Some|].
    intros c' [Hc'| ->%list_elem_of_singleton]%elem_of_app; [|split; [lia|done]].
    by eapply (buckets_elem _ _ Hbs).
  - rewrite entries_insert by done. apply (Permutation_app_inv_r b).
    rewrite (concat_insert _ _ _ _ Hb), Hp. simpl.
    rewrite app_assoc, <- (Permutation_cons_append _ c). done.
Qed.

Lemma remove_from_bucket_ok k x b n m' :
  sb_ok k x → chunks x !! b = Some n →
  ∃ bs', remove_from_bucket (mkChunk b n) (mkSizeBucketed k m' (chunks_by_log2_size x))
         = Ret (mkSizeBucketed k m' bs') ∧ buckets_ok k bs' ∧
         concat (chunks_by_log2_size x) ≡ₚ mkChunk b n :: concat bs'.
Proof.
  intros Hx Hb. pose proof Hx as [Hmin Hkr Hbs Hp].
  destruct (sb_elem_bucket k x (mkChunk b n) Hx Hb) as [Hn (bk & Hbk & Hin)]. simpl in *.
  unfold remove_from_bucket. rewrite (bucket_for_ok k) by (done || simpl; lia). simpl.
  rewrite Hbk. simpl.
  destruct (rposition _ bk) as [idx|] eqn:E.
  2: { eapply rposition_None in E; [|exact Hin]. simpl in E. by rewrite Z.eqb_refl in E. }
  apply rposition_Some in E as (c2 & Hc2 & Hbase). apply Z.eqb_eq in Hbase.
  assert (c2 = mkChunk b n) as ->.
  { assert (chunks x !! cbase c2 = Some (csize c2)) as H2.
    { apply (sb_elem k x c2 Hx), elem_of_concat. eexists _, bk. split; [done|]. by eapply list_elem_of_lookup_2. }
    rewrite <- Hbase in H2. destruct c2; simpl in *. congruence. }
  simpl. destruct (swap_remove_spec _ _ _ Hc2) as (bk' & -> & Hperm). simpl.
  rewrite bool_decide_eq_true_2 by done. simpl. eexists. split; [done|]. split.
  - apply buckets_ok_insert; [done|by eapply lookup_lt_Some|]. intros c Hc.
    eapply (buckets_elem _ _ Hbs); [done|]. rewrite Hperm. by right.
  - apply (Permutation_app_inv_r bk'). rewrite <- (concat_insert _ _ _ bk' Hbk).
    by rewrite Hperm, <- Permutation_middle.
Qed.

Lemma sb_remove_hit k x b n :
  sb_ok k x → chunks x !! b = Some n →
  ∃ x', SizeBucketed_remove_with_base b x = Ret (Some (mkChunk b n), x') ∧ sb_ok k x' ∧
        chunks x' = delete b (chunks x).
Proof.
  intros Hx Hb. pose proof Hx as [Hmin Hkr Hbs Hp].
  unfold SizeBucketed_remove_with_base, ChunkMap_remove_with_base. rewrite Hb, Hmin. simpl.
  destruct (remove_from_bucket_ok k x b n (delete b (chunks x)) Hx Hb) as (bs' & -> & Hbs' & Hp').
  simpl. eexists. split; [done|]. split; [|done]. split; simpl; [done..|].
  apply (Permutation_cons_inv (a := mkChunk b n)). by rewrite <- Hp', Hp, <- entries_delete.
Qed.

Lemma sb_remove_miss x b :
  chunks x !! b = None → SizeBucketed_remove_with_base b x = Ret (None, x).
Proof. intros HN. unfold SizeBucketed_remove_with_base, ChunkMap_remove_with_base. by rewrite HN. Qed.

#[global] Instance SizeBucketed_laws k : ChunkStoreLaws SizeBucketed (sb_ok k) k.
Proof.
  split; simpl; [apply sb_insert_ok|apply sb_remove_hit|intros x b _; apply sb_remove_miss].
Qed.

Lemma sb_remove_with_end_hit g k x b n :
  sb_ok k x → map_ok g (chunks x) → chunks x !! b = Some n →
  ∃ x', SizeBucketed_remove_with_end (b + n) x = Ret (Some (mkChunk b n), x') ∧ sb_ok k x' ∧
        chunks x' = delete b (chunks x).
Proof.
  intros Hx Hm Hb. pose proof Hx as [Hmin Hkr Hbs Hp].
  unfold SizeBucketed_remove_with_end. erewrite ChunkMap_remove_with_end_hit by done.
  rewrite Hmin. simpl.
  destruct (remove_from_bucket_ok k x b n (delete b (chunks x)) Hx Hb) as (bs' & -> & Hbs' & Hp').
  simpl. eexists. split; [done|]. split; [|done]. split; simpl; [done..|].
  apply (Permutation_cons_inv (a := mkChunk b n)). by rewrite <- Hp', Hp, <- entries_delete.
Qed.

Lemma sb_remove_with_end_miss g x e :
  map_ok g (chunks x) → ¬ chunk_end (chunks x) e →
  SizeBucketed_remove_with_end e x = Ret (None, x).
Proof.
  intros Hm He. unfold SizeBucketed_remove_with_end. by erewrite ChunkMap_remove_with_end_miss by done.
Qed.

(** ** Allocation is best fit *)

(** What a run of the loop from [best] over [l] may answer. *)
Definition best_of (size : Z) (l : list (nat * Chunk)) (best r : option (nat * Z)) : Prop :=
  match r with
  | None => best = None ∧ ∀ p, p ∈ l → csize p.2 < size
  | Some (i, s) =>
      (best = Some (i, s) ∨ ∃ c, (i, c) ∈ l ∧ csize c = s) ∧ size ≤ s ∧
      (∀ p, p ∈ l → size ≤ csize p.2 → s ≤ csize p.2) ∧
      (∀ i' s', best = Some (i', s') → s ≤ s')
  end.

Lemma best_of_skip size i c l best r :
  csize c < size ∨ (∃ i0 b0, best = Some (i0, b0) ∧ b0 ≤ csize c) →
  best_of size l best r → best_of size ((i, c) :: l) best r.
Proof.
  intros Hc. destruct r as [[j s]|]; simpl.
  - intros (H1 & H2 & H3 & H4). split_and!; [|done| |done].
    + destruct H1 as [?|(c' & ? & ?)]; [by left|right; exists c'; split; [by right|done]].
    + intros p [->|Hp]%elem_of_cons ?; [|auto].
      destruct Hc as [?|(i0 & b0 & E & ?)]; simpl in *; [lia|]. specialize (H4 _ _ E). lia.
  - intros [-> H]. split; [done|]. intros p [->|Hp]%elem_of_cons; [|auto].
    destruct Hc as [?|(i0 & b0 & E & ?)]; done.
Qed.

Lemma best_of_take size i c l best r :
  (∀ i' s', best = Some (i', s') → csize c < s') →
  best_of size l (Some (i, csize c)) r → best_of size ((i, c) :: l) best r.
Proof.
  intros Hb. destruct r as [[j s]|]; simpl; [|by intros []].
  intros (H1 & H2 & H3 & H4). specialize (H4 _ _ eq_refl). split_and!; [|done| |].
  - right. destruct H1 as [[= <- <-]|(c' & ? & ?)]; [exists c; split; [by left|done]|].
    exists c'. split; [by right|done].
  - intros p [->|Hp]%elem_of_cons ?; auto.
  - intros i' s' E. specialize (Hb _ _ E). lia.
Qed.

Lemma best_chunk_spec size l best :
  (∀ i s, best = Some (i, s) → size ≤ s) → best_of size l best (best_chunk size l best).
Proof.
  revert best. induction l as [|[i c] l IH]; intros best Hbest; cbn [best_chunk].
  { destruct best as [[i s]|]; simpl; split_and!; try done; eauto;
      try (intros p Hp; by apply elem_of_nil in Hp). intros ?? [= <- <-]. lia. }
  destruct (_ && _) eqn:E.
  - apply andb_true_iff in E as [Hle Hlt]. apply Z.leb_le in Hle.
    assert (∀ i' s', best = Some (i', s') → csize c < s') as Hb.
    { intros i' s' ->. by apply Z.ltb_lt. }
    destruct (Z.eqb_spec (csize c) size) as [Heq|]; [|by apply best_of_take, IH; [done|intros ?? [= <- <-]]].
    split_and!; [right; exists c; split; [by left|done]|lia|lia|].
    intros i' s' E. specialize (Hb _ _ E). lia.
  - apply best_of_skip; [|by apply IH].
    apply andb_false_iff in E as [?%Z.leb_gt|E]; [by left|].
    destruct best as [[i0 b0]|]; [|done]. right. exists i0, b0. split; [done|by apply Z.ltb_ge].
Qed.

Lemma elem_of_enumerate {A} (l : list A) i x : (i, x) ∈ reverse (enumerate l) ↔ l !! i = Some x.
Proof.
  rewrite elem_of_reverse. unfold enumerate. rewrite elem_of_lookup_imap. naive_solver.
Qed.

(** The map after the front of the chunk at [b] was taken. *)
Definition take_front (m : gmap Z Z) (b s size : Z) : gmap Z Z :=
  if s =? size then delete b m else <[b + size := s - size]> (delete b m).

Lemma take_front_spec g m b s size :
  map_ok g m → m !! b = Some s → 0 < size ≤ s → (g | size) →
  (s ≠ size → delete b m !! (b + size) = None) ∧
  map_ok g (take_front m b s size) ∧
  (∀ a, covers (take_front m b s size) a ↔ covers m a ∧ ¬ (b ≤ a < b + size)) ∧
  (∀ e, chunk_end (take_front m b s size) e → chunk_end m e).
Proof.
  intros Hm Hb Hsz Hg. unfold take_front.
  pose proof (map_ok_chunk _ _ Hm _ _ Hb) as (?&?&?). destruct (map_ok_gran _ _ Hm _ _ Hb). simpl in *.
  pose proof (map_ok_delete _ _ b Hm) as Hd.
  assert (∀ e, chunk_end (delete b m) e → chunk_end m e) as Hend.
  { intros e (b' & n' & [_ ?]%lookup_delete_Some & ->). by exists b', n'. }
  destruct (Z.eqb_spec s size) as [->|Hne].
  - split_and!; [done|done| |done]. intros a. by eapply covers_delete.
  - destruct (map_ok_insert g (delete b m) (b + size) (s - size)) as [HN Hok]; [done| | | | |].
    + unfold chunk_ok; simpl; lia.
    + by apply Z.divide_add_r.
    + by apply Z.divide_sub_r.
    + intros a Ha. rewrite covers_delete by done. intros [_ ?]. lia.
    + split_and!; [done|done| |].
      * intros a. rewrite covers_insert, covers_delete by done. split.
        -- intros [?|[? ?]]; [|split; [done|lia]]. split; [exists b, s; split; [done|lia]|lia].
        -- intros [Hc ?]. destruct (decide (b ≤ a < b + s)); [left; lia|right; done].
      * intros e (b' & n' & H' & ->). rewrite lookup_insert in H'. case_decide; simplify_eq.
        -- exists b, s. split; [done|lia].
        -- apply Hend. by exists b', n'.
Qed.

Definition allocated (x x' : SizeBucketed) (size : Z) (a : Chunk) (s : Z) : Prop :=
  csize a = size ∧ size ≤ s ∧ chunks x !! cbase a = Some s ∧
  chunks x' = take_front (chunks x) (cbase a) s size.

(** Taking the chunk [c] at index [idx] out of bucket [i] and out of the map. *)
Lemma sb_take_ok k x i bk bk' c :
  sb_ok k x → chunks_by_log2_size x !! i = Some bk → bk ≡ₚ c :: bk' →
  chunks x !! cbase c = Some (csize c) →
  sb_ok k (mkSizeBucketed k (delete (cbase c) (chunks x)) (<[i := bk']> (chunks_by_log2_size x))).
Proof.
  intros [Hmin Hkr Hbs Hp] Hi Hperm Hcm. split; simpl; [done..| |].
  - apply buckets_ok_insert; [done|by eapply lookup_lt_Some|]. intros c' Hc'.
    eapply (buckets_elem _ _ Hbs); [done|]. rewrite Hperm. by right.
  - apply (Permutation_cons_inv (a := c)).
    replace c with (mkChunk (cbase c) (csize c)) at 2 by (by destruct c).
    rewrite <- entries_delete, <- Hp by done.
    apply (Permutation_app_inv_r bk'). rewrite <- (concat_insert _ _ _ bk' Hi).
    by rewrite Hperm, <- Permutation_middle.
Qed.

Lemma allocate_in_bucket_spec k x size i bk :
  sb_ok k x → map_ok k (chunks x) → (k | size) → k ≤ size < U32_MOD →
  chunks_by_log2_size x !! i = Some bk →
  ∃ r x', allocate_in_bucket size i x = Ret (r, x') ∧
    match r with
    | None => x' = x ∧ ∀ c, c ∈ bk → csize c < size
    | Some a => sb_ok k x' ∧ ∃ s, allocated x x' size a s ∧ mkChunk (cbase a) s ∈ bk ∧
                 ∀ c, c ∈ bk → size ≤ csize c → s ≤ csize c
    end.
Proof.
  intros Hx Hm Hks Hsz Hi. pose proof Hx as [Hmin Hkr Hbs Hp].
  unfold allocate_in_bucket. rewrite Hi. simpl.
  pose proof (best_chunk_spec size (reverse (enumerate bk)) None ltac:(done)) as Hbest.
  destruct (best_chunk _ _ _) as [[idx s]|].
  2: { destruct Hbest as [_ Hb]. exists None, x. split; [done|]. split; [done|]. intros c Hc.
       apply list_elem_of_lookup_1 in Hc as [j Hj].
       apply (Hb (j, c)). by apply elem_of_enumerate. }
  destruct Hbest as ([?|(c & Hc%elem_of_enumerate & <-)] & Hle & Hmn & _); [done|].
  assert (c ∈ bk) as Hcin by (by eapply list_elem_of_lookup_2).
  assert (∀ c', c' ∈ bk → size ≤ csize c' → csize c ≤ csize c') as Hmn'.
  { intros c' [j Hj]%list_elem_of_lookup_1 ?. apply (Hmn (j, c')); [by apply elem_of_enumerate|done]. }
  assert (chunks x !! cbase c = Some (csize c)) as Hcm.
  { apply (sb_elem k x c Hx), elem_of_concat. by exists i, bk. }
  destruct (swap_remove_spec _ _ _ Hc) as (bk' & -> & Hperm). simpl.
  unfold ChunkMap_remove_with_base. rewrite Hcm. simpl. rewrite bool_decide_eq_true_2 by (by destruct c).
  simpl. rewrite Hmin.
  set (x1 := mkSizeBucketed k _ _).
  assert (sb_ok k x1) as Hx1 by (by eapply sb_take_ok).
  destruct (take_front_spec k (chunks x) (cbase c) (csize c) size) as (HN & _); [done|done|lia|done|].
  destruct (Z.eqb_spec (csize c) size) as [Heq|Hne].
  - exists (Some c), x1. split; [done|]. split; [done|]. exists (csize c).
    split_and!; [split_and!; [done..|]|by destruct c|done].
    unfold take_front. rewrite (proj2 (Z.eqb_eq _ _) Heq). done.
  - pose proof (map_ok_chunk _ _ Hm _ _ Hcm) as (?&?&?). destruct (map_ok_gran _ _ Hm _ _ Hcm). simpl in *.
    assert (k | csize c - size) as Hrump by (by apply Z.divide_sub_r).
    apply Z.divide_pos_le in Hrump; [|lia].
    unfold Chunk_new. destruct (Z.eqb_spec size 0); [lia|]. simpl. u32_simpl.
    destruct (Z.eqb_spec (csize c - size) 0); [lia|]. simpl.
    destruct (sb_insert_ok k x1 (mkChunk (cbase c + size) (csize c - size))) as (x2 & -> & Hx2 & E2);
      simpl; [done|unfold chunk_ok; simpl; lia|lia|auto|]. simpl.
    exists (Some (mkChunk (cbase c) size)), x2. split; [done|]. split; [done|]. exists (csize c).
    split_and!; [split_and!; [done..|]|by destruct c|done].
    unfold take_front. simpl. by rewrite (proj2 (Z.eqb_neq _ _) Hne).
Qed.

(** Sizes in a later bucket are larger. *)
Lemma bucket_index_lt k s t :
  0 < k ≤ s → k ≤ t → (bucket_index k s < bucket_index k t)%nat → s < t.
Proof.
  intros Hs Ht Hlt. unfold bucket_index in Hlt.
  assert (Z.log2 k ≤ Z.log2 s) by (apply Z.log2_le_mono; lia).
  assert (Z.log2 k ≤ Z.log2 t) by (apply Z.log2_le_mono; lia).
  apply Z.log2_lt_cancel. lia.
Qed.

Lemma bucket_index_le k s t : s ≤ t → (bucket_index k s ≤ bucket_index k t)%nat.
Proof.
  intros Hle. unfold bucket_index. assert (Z.log2 s ≤ Z.log2 t) by (by apply Z.log2_le_mono). lia.
Qed.

Lemma sb_fitting k x size b t :
  sb_ok k x → chunks x !! b = Some t → size ≤ t →
  k ≤ t < U32_MOD ∧ (bucket_index k size ≤ bucket_index k t)%nat ∧
  ∃ bk, chunks_by_log2_size x !! bucket_index k t = Some bk ∧ mkChunk b t ∈ bk.
Proof.
  intros Hx Hb Ht. destruct (sb_elem_bucket k x (mkChunk b t) Hx Hb) as [? ?]. simpl in *.
  split_and!; [lia|lia|by apply bucket_index_le|done].
Qed.

Definition non_empty (b : list Chunk) : bool := negb (bool_decide (b = [])).

Lemma next_bucket_Some i j (bs : list (list Chunk)) :
  position non_empty (drop (S i) bs) = Some j →
  ∃ bk, bs !! (j + i + 1)%nat = Some bk ∧ bk ≠ [] ∧
    ∀ n bk', (i < n < j + i + 1)%nat → bs !! n = Some bk' → bk' = [].
Proof.
  intros (bk & Hbk & Hne & Hbefore)%position_Some. rewrite lookup_drop in Hbk.
  exists bk. split_and!; [rewrite <- Hbk; f_equal; lia| |].
  - intros ->. done.
  - intros n bk' Hn Hbk'. specialize (Hbefore (n - S i)%nat bk').
    rewrite lookup_drop in Hbefore. replace (S i + (n - S i))%nat with n in Hbefore by lia.
    specialize (Hbefore ltac:(lia) Hbk'). unfold non_empty in Hbefore.
    by apply negb_false_iff, bool_decide_eq_true in Hbefore.
Qed.

Lemma next_bucket_None i n (bs : list (list Chunk)) bk :
  position non_empty (drop (S i) bs) = None → (i < n)%nat → bs !! n = Some bk → bk = [].
Proof.
  intros H Hn Hbk. assert (bk ∈ drop (S i) bs) as Hin.
  { apply (list_elem_of_lookup_2 _ (n - S i)%nat). rewrite lookup_drop, <- Hbk. f_equal. lia. }
  eapply position_None in H; [|done]. by apply negb_false_iff, bool_decide_eq_true in H.
Qed.

(** [allocate] never panics; it fails only when no chunk is large enough, and
    otherwise takes the front of a smallest chunk that is. *)
Lemma SizeBucketed_allocate_spec k x size :
  sb_ok k x → map_ok k (chunks x) → (k | size) → k ≤ size < U32_MOD →
  ∃ r x', SizeBucketed_allocate size x = Ret (r, x') ∧
    match r with
    | None => x' = x ∧ ∀ b s, chunks x !! b = Some s → s < size
    | Some a => sb_ok k x' ∧ ∃ s, allocated x x' size a s ∧
                 ∀ b t, chunks x !! b = Some t → size ≤ t → s ≤ t
    end.
Proof.
  intros Hx Hm Hks Hsz. pose proof Hx as [Hmin Hkr Hbs _]. unfold SizeBucketed_allocate.
  rewrite Hmin. destruct (Z.leb_spec k size); [|lia]. simpl.
  rewrite (bucket_for_ok k) by (done || lia). simpl.
  set (i0 := bucket_index k size).
  destruct (bucket_index_lookup k (chunks_by_log2_size x) size) as [bk Hbk]; [done|lia..|].
  fold i0 in Hbk.
  (* a chunk of bucket [i] that fits best there beats the chunks of later buckets *)
  assert (∀ i bk s b0 b t, chunks_by_log2_size x !! i = Some bk → mkChunk b0 s ∈ bk →
    (∀ c, c ∈ bk → size ≤ csize c → s ≤ csize c) →
    chunks x !! b = Some t → size ≤ t → (i ≤ bucket_index k t)%nat → s ≤ t) as Hbeat.
  { intros i bk' s b0 b t Hi Hin Hmn Hb Ht Hle.
    destruct (sb_fitting k x size b t) as (? & _ & bk'' & Hbk'' & Hin''); [done..|].
    destruct (decide (bucket_index k t = i)) as [<-|Hne].
    - simplify_eq. by apply (Hmn (mkChunk b t)).
    - destruct (buckets_elem _ _ Hbs _ _ _ Hi Hin) as [Hs Hsi]. simpl in *.
      apply Z.lt_le_incl, (bucket_index_lt k); lia. }
  destruct (allocate_in_bucket_spec k x size i0 bk) as (r & x' & -> & Hr); [done..|]. simpl.
  destruct r as [a|].
  { destruct Hr as (Hx' & s & Ha & Hin & Hmn). exists (Some a), x'. split; [done|]. split; [done|].
    exists s. split; [done|]. intros b t Hb Ht. eapply Hbeat; [done..|]. by apply bucket_index_le. }
  destruct Hr as [-> Hnone].
  assert (∀ b t, chunks x !! b = Some t → size ≤ t → (i0 < bucket_index k t)%nat) as Hlater.
  { intros b t Hb Ht. destruct (sb_fitting k x size b t) as (? & Hi & bk' & Hbk' & Hin'); [done..|].
    destruct (decide (bucket_index k t = i0)) as [Heq|Hne]; [|unfold i0 in *; lia].
    rewrite Heq, Hbk in Hbk'. simplify_eq. apply Hnone in Hin'. simpl in *. lia. }
  change (λ b : list Chunk, negb (bool_decide (b = []))) with non_empty.
  destruct (position non_empty _) as [j|] eqn:Epos.
  - apply next_bucket_Some in Epos as (bk2 & Hbk2 & Hne & Hempty).
    destruct (allocate_in_bucket_spec k x size (j + i0 + 1) bk2) as (r & x' & -> & Hr); [done..|].
    exists r, x'. split; [done|]. destruct r as [a|].
    + destruct Hr as (Hx' & s & Ha & Hin & Hmn). split; [done|]. exists s. split; [done|].
      intros b t Hb Ht. eapply Hbeat; [done..|]. apply Nat.nlt_ge. intros Hlt.
      destruct (sb_fitting k x size b t) as (_ & _ & bk' & Hbk' & Hin'); [done..|].
      rewrite (Hempty _ _ (conj (Hlater _ _ Hb Ht) Hlt) Hbk') in Hin'. by apply elem_of_nil in Hin'.
    + destruct Hr as [_ Hr]. exfalso. destruct bk2 as [|c bk2]; [done|].
      specialize (Hr c ltac:(by left)).
      destruct (buckets_elem _ _ Hbs _ _ c Hbk2) as [? Hci]; [by left|].
      assert ((bucket_index k (csize c) ≤ i0)%nat) by (apply bucket_index_le; lia). lia.
  - exists None, x. split; [done|]. split; [done|]. intros b t Hb.
    destruct (Z.lt_ge_cases t size) as [|Ht]; [done|]. specialize (Hlater b t Hb Ht).
    destruct (sb_fitting k x size b t) as (_ & _ & bk' & Hbk' & Hin'); [done..|].
    rewrite (next_bucket_None _ _ _ _ Epos Hlater Hbk') in Hin'. by apply elem_of_nil in Hin'.
Qed.

(** Inserting a chunk that shares no address with the map. *)
Lemma sb_insert_addable k x c :
  sb_ok k x → addable k (chunks x) c →
  ∃ x', SizeBucketed_insert c x = Ret x' ∧ sb_ok k x' ∧ map_ok k (chunks x') ∧
    chunks x' = <[cbase c := csize c]> (chunks x) ∧
    ∀ a, covers (chunks x') a ↔ covers (chunks x) a ∨ chunk_in c a.
Proof.
  intros Hx [Hm Hc Hb Hs Hf]. pose proof (sb_min_range _ _ Hx).
  destruct (cs_insert_free (ok := sb_ok k) (min := k) k x c) as (x' & E & Hx' & Hm' & Em & _ & Hcov);
    try done. { destruct Hc as (_&?&_). apply Z.divide_pos_le in Hs; lia. }
  exists x'. split_and!; [done..|]. intros a. simpl in *. rewrite Hcov. tauto.
Qed.

Lemma sb_remove_range k x remove :
  sb_ok k x → map_ok k (chunks x) → chunk_ok remove → (k | cbase remove) → (k | csize remove) →
  ∃ x', SizeBucketed_remove_range remove x = Ret x' ∧ sb_ok k x' ∧ map_ok k (chunks x') ∧
    (∀ a, covers (chunks x') a ↔ covers (chunks x) a ∧ ¬ chunk_in remove a) ∧
    (∀ e, chunk_end (chunks x') e → chunk_end (chunks x) e ∨ e = cbase remove).
Proof.
  intros Hx Hm Hr Hb Hs. pose proof (sb_min_range _ _ Hx).
  destruct (remove_range_spec (ok := sb_ok k) (min := k) k remove x) as (x' & E & H'); try done; [lia|].
  by exists x'.
Qed.
