(* ===== verification/VMAllocator.v ===== *)
(** * The virtual memory allocator ([VMAllocator] of [mem/allocator.rs])

    Page-granular allocation of the guest address space.  The state is the map
    of used chunks and the size-bucketed map of unused chunks.  The abstract
    view is the set of used and the set of free addresses; the invariant
    [vm_ok] makes them disjoint and says that free chunks never touch, so that
    a run of free pages is always one chunk.  The theorems give each operation
    at the level of addresses, on every branch, panics excluded. *)

From S2P Require Import Prelude ChunkMap SizeBucketed.

Inductive VMAllocError := AddressUnavailable | NoSpace.

Record VMAllocator := mkVMAllocator {
  vm_used_chunks : gmap Z Z;
  vm_unused_chunks : SizeBucketed
}.

(** [u32::next_multiple_of]. *)
Definition next_multiple_of (x m : Z) : outcome Z :=
  let r := x mod m in if r =? 0 then Ret x else u32 (x + (m - r)).

(** [address & !(PAGE_SIZE - 1)] on [u32]. *)
Definition page_base (address : Z) : Z :=
  Z.land address (Z.lxor U32_MAX (PAGE_SIZE - 1)).

Definition is_multiple_of (x m : Z) : bool := x mod m =? 0.

Definition VMAllocator_new (base size : Z) : outcome VMAllocator :=
  allocation_space ← Chunk_new base size;
  unused_chunks ← SizeBucketed_insert allocation_space (SizeBucketed_new PAGE_SIZE);
  Ret (mkVMAllocator ∅ unused_chunks).

(** [iter().find(|c| c.contains(address))]. *)
Fixpoint find_containing (address : Z) (l : list Chunk) : outcome (option Chunk) :=
  match l with
  | [] => Ret None
  | c :: l' =>
      found ← contains c address;
      if found : bool then Ret (Some c) else find_containing address l'
  end.

Definition allocate_at (address size : Z) (self : VMAllocator)
    : outcome (result Chunk VMAllocError * VMAllocator) :=
  rassert (is_multiple_of address PAGE_SIZE);;
  rassert (is_multiple_of size PAGE_SIZE && (PAGE_SIZE <=? size));;
  chunk ← Chunk_new address size;
  found ← find_containing address (SizeBucketed_iter (vm_unused_chunks self));
  match found with
  | None => Ret (Err AddressUnavailable, self)
  | Some to_trisect =>
      parts ← trisect_by to_trisect chunk;
      match parts with
      | None => Ret (Err NoSpace, self)
      | Some (before, after) =>
          '(_, u1) ← SizeBucketed_remove_with_base (cbase to_trisect) (vm_unused_chunks self);
          u2 ← if_some before SizeBucketed_insert u1;
          u3 ← if_some after SizeBucketed_insert u2;
          used ← ChunkMap_insert chunk (vm_used_chunks self);
          Ret (Ok chunk, mkVMAllocator used u3)
      end
  end.

Definition allocate_any (size : Z) (self : VMAllocator)
    : outcome (result Chunk VMAllocError * VMAllocator) :=
  rassert (is_multiple_of size PAGE_SIZE && (PAGE_SIZE <=? size));;
  '(r, unused) ← SizeBucketed_allocate size (vm_unused_chunks self);
  match r with
  | None => Ret (Err NoSpace, mkVMAllocator (vm_used_chunks self) unused)
  | Some alloc =>
      used ← ChunkMap_insert alloc (vm_used_chunks self);
      Ret (Ok alloc, mkVMAllocator used unused)
  end.

Definition VMAllocator_allocate (address : option Z) (size : Z) (self : VMAllocator)
    : outcome (result Chunk VMAllocError * VMAllocator) :=
  size ← next_multiple_of size PAGE_SIZE;
  match address with
  | Some address => allocate_at (page_base address) size self
  | None => allocate_any size self
  end.

(** [if let Some(adjacent) = o { combined = combined.merge(adjacent) }]. *)
Definition merge_opt (o : option Chunk) (combined : Chunk) : outcome Chunk :=
  match o with Some adjacent => Chunk_merge combined adjacent | None => Ret combined end.

(** The end of [deallocate]: the freed chunk goes back, merged with the unused
    chunks that touch it. *)
Definition insert_coalesced (freed : Chunk) (unused : SizeBucketed) : outcome SizeBucketed :=
  l ← last_byte freed;
  e ← u32 (l + 1);
  '(left_adjacent, u1) ← SizeBucketed_remove_with_base e unused;
  '(right_adjacent, u2) ← SizeBucketed_remove_with_end (cbase freed) u1;
  c1 ← merge_opt left_adjacent freed;
  combined ← merge_opt right_adjacent c1;
  SizeBucketed_insert combined u2.

Definition VMAllocator_deallocate (address size : Z) (self : VMAllocator)
    : outcome (Chunk * VMAllocator) :=
  size ← next_multiple_of size PAGE_SIZE;
  let address := page_base address in
  freed ← Chunk_new address size;
  used ← ChunkMap_remove_range freed (vm_used_chunks self);
  u0 ← SizeBucketed_remove_range freed (vm_unused_chunks self);
  u3 ← insert_coalesced freed u0;
  Ret (freed, mkVMAllocator used u3).

(** ** Specification *)

Definition vm_used (v : VMAllocator) : Z → Prop := covers (vm_used_chunks v).
Definition vm_free (v : VMAllocator) : Z → Prop := covers (chunks (vm_unused_chunks v)).

Record vm_ok (v : VMAllocator) : Prop := {
  vm_ok_used : map_ok PAGE_SIZE (vm_used_chunks v);
  vm_ok_sb : sb_ok PAGE_SIZE (vm_unused_chunks v);
  vm_ok_unused : map_ok PAGE_SIZE (chunks (vm_unused_chunks v));
  vm_ok_coalesced : coalesced (chunks (vm_unused_chunks v));
  vm_ok_disjoint a : vm_used v a → ¬ vm_free v a
}.

(** Granting the free chunk [c]. *)
Record vm_granted (v : VMAllocator) (c : Chunk) (v' : VMAllocator) : Prop := {
  granted_chunk : chunk_ok c ∧ (PAGE_SIZE | cbase c) ∧ (PAGE_SIZE | csize c);
  granted_free a : chunk_in c a → vm_free v a;
  granted_used a : vm_used v' a ↔ vm_used v a ∨ chunk_in c a;
  granted_rest a : vm_free v' a ↔ vm_free v a ∧ ¬ chunk_in c a
}.

Definition round_up (x : Z) : Z := (x + (PAGE_SIZE - 1)) / PAGE_SIZE * PAGE_SIZE.

Lemma round_up_spec x : (PAGE_SIZE | round_up x) ∧ x ≤ round_up x < x + PAGE_SIZE.
Proof.
  unfold round_up, PAGE_SIZE. split; [by apply Z.divide_factor_r|].
  pose proof (Z.div_mod (x + (4096 - 1)) 4096). pose proof (Z.mod_pos_bound (x + (4096 - 1)) 4096). lia.
Qed.

Lemma round_up_id x : (PAGE_SIZE | x) → round_up x = x.
Proof.
  intros [k ->]. unfold round_up. rewrite Z.div_add_l by done.
  unfold PAGE_SIZE. rewrite Z.div_small by lia. lia.
Qed.

Lemma round_up_between x y : x ≤ y ≤ round_up x → round_up y = round_up x.
Proof.
  intros [H1 H2]. apply Z.le_antisymm.
  - rewrite <- (round_up_id (round_up x)) by apply round_up_spec.
    unfold round_up at 1 2. apply Z.mul_le_mono_nonneg_r; [done|]. apply Z.div_le_mono; [done|]. lia.
  - unfold round_up. apply Z.mul_le_mono_nonneg_r; [done|]. apply Z.div_le_mono; [done|]. lia.
Qed.

Lemma next_multiple_of_round_up x :
  0 ≤ x → next_multiple_of x PAGE_SIZE = u32 (round_up x) ∨ U32_MOD ≤ x.
Proof.
  intros Hx. destruct (Z.lt_ge_cases x U32_MOD); [left|by right].
  unfold next_multiple_of. pose proof (Z.div_mod x PAGE_SIZE ltac:(done)) as E.
  pose proof (Z.mod_pos_bound x PAGE_SIZE ltac:(done)).
  destruct (round_up_spec x) as [[k Hk] ?]. unfold PAGE_SIZE in *.
  destruct (Z.eqb_spec (x mod 4096) 0).
  - rewrite round_up_id, u32_ok by (unfold U32_MOD in *; try lia; exists (x / 4096); unfold PAGE_SIZE; lia). done.
  - f_equal. lia.
Qed.

Lemma page_base_spec a : 0 ≤ a < U32_MOD → page_base a = a / PAGE_SIZE * PAGE_SIZE.
Proof.
  intros Ha. unfold page_base. change (Z.lxor U32_MAX (PAGE_SIZE - 1)) with (Z.shiftl (Z.ones 20) 12).
  transitivity (Z.shiftl (Z.land (Z.shiftr a 12) (Z.ones 20)) 12).
  - apply Z.bits_inj'. intros n Hn. rewrite Z.land_spec, !Z.shiftl_spec, Z.land_spec by done.
    destruct (Z.lt_ge_cases n 12).
    + rewrite !(Z.testbit_neg_r _ (n - 12)) by lia. by rewrite andb_false_r.
    + rewrite Z.shiftr_spec by lia. by replace (n - 12 + 12) with n by lia.
  - rewrite Z.land_ones, Z.shiftl_mul_pow2, Z.shiftr_div_pow2 by lia.
    rewrite Z.mod_small; [done|]. split; [apply Z.div_pos; lia|].
    apply Z.div_lt_upper_bound; unfold U32_MOD in *; lia.
Qed.

Lemma page_base_id a : 0 ≤ a < U32_MOD → (PAGE_SIZE | a) → page_base a = a.
Proof. intros ? [k ->]. rewrite page_base_spec by done. by rewrite Z.div_mul by done. Qed.

Lemma is_multiple_of_divide x m : 0 < m → (m | x) → is_multiple_of x m = true.
Proof. intros ? H. unfold is_multiple_of. apply Z.eqb_eq, Z.mod_divide; [lia|done]. Qed.

Lemma page_pos x : (PAGE_SIZE | x) → 0 < x → PAGE_SIZE ≤ x.
Proof. intros H Hx. apply Z.divide_pos_le in H; lia. Qed.

(** [ChunkMap::insert] of a chunk disjoint from the map. *)
Lemma ChunkMap_insert_addable g m c :
  addable g m c →
  ChunkMap_insert c m = Ret (<[cbase c := csize c]> m) ∧ map_ok g (<[cbase c := csize c]> m) ∧
  ∀ a, covers (<[cbase c := csize c]> m) a ↔ covers m a ∨ chunk_in c a.
Proof.
  intros [Hm Hc Hb Hs Hf]. destruct c as [b n].
  destruct (map_ok_insert g m b n) as [HN Hm']; [done..|].
  unfold ChunkMap_insert. simpl. rewrite HN. split_and!; [done..|].
  intros a. rewrite covers_insert by done. unfold chunk_in. simpl. tauto.
Qed.

Lemma vm_used_addable v c :
  vm_ok v → chunk_ok c → (PAGE_SIZE | cbase c) → (PAGE_SIZE | csize c) →
  (∀ a, chunk_in c a → vm_free v a) → addable PAGE_SIZE (vm_used_chunks v) c.
Proof.
  intros Hv ??? Hf. split; [apply Hv|done..|]. intros a Ha Hu. by eapply (vm_ok_disjoint _ Hv), Hf.
Qed.

Lemma VMAllocator_new_ok base size :
  chunk_ok (mkChunk base size) → (PAGE_SIZE | base) → (PAGE_SIZE | size) →
  ∃ v, VMAllocator_new base size = Ret v ∧ vm_ok v ∧
    ∀ a, ¬ vm_used v a ∧ (vm_free v a ↔ base ≤ a < base + size).
Proof.
  intros Hc Hb Hs. pose proof Hc as (?&?&?). simpl in *. unfold VMAllocator_new, Chunk_new.
  destruct (Z.eqb_spec size 0); [lia|]. simpl.
  destruct (sb_insert_addable PAGE_SIZE (SizeBucketed_new PAGE_SIZE) (mkChunk base size))
    as (x & -> & Hx & Hm & Em & Hcov).
  { by apply sb_new_ok. }
  { split; simpl; [apply map_ok_empty|done..|]. intros a _. apply covers_empty. }
  simpl. eexists. split; [done|]. simpl in *. split.
  - split; simpl; [apply map_ok_empty|done|done| |by intros a ?%covers_empty].
    intros e (b & n' & Hbn & ->). rewrite Hcov. unfold chunk_in. simpl.
    rewrite Em in Hbn. apply lookup_insert_Some in Hbn as [[<- <-]|[_ ?]]; [|done].
    intros [?%covers_empty|?]; [done|lia].
  - intros a. unfold vm_used, vm_free. simpl. split; [apply covers_empty|]. rewrite Hcov.
    unfold chunk_in. simpl. split; [intros [?%covers_empty|?]; done|tauto].
Qed.

Lemma allocate_any_spec v size :
  vm_ok v → (PAGE_SIZE | size) → 0 < size < U32_MOD →
  ∃ r v', allocate_any size v = Ret (r, v') ∧
    match r with
    | Ok c => vm_ok v' ∧ vm_granted v c v' ∧ csize c = size ∧
              vm_used_chunks v' = <[cbase c := size]> (vm_used_chunks v)
    | Err e => v' = v ∧ e = NoSpace ∧
               ∀ b, ¬ (∀ a, b ≤ a < b + size → vm_free v a)
    end.
Proof.
  intros Hv Hs Hsz. pose proof Hv as [Hu Hsb Hun Hco Hdis]. pose proof (page_pos _ Hs ltac:(lia)).
  unfold allocate_any. rewrite is_multiple_of_divide by done.
  destruct (Z.leb_spec PAGE_SIZE size); [|lia]. simpl.
  destruct (SizeBucketed_allocate_spec PAGE_SIZE (vm_unused_chunks v) size) as (r & u & -> & Hr);
    [done|done|done|lia|]. simpl. destruct r as [c|].
  - destruct Hr as (Hu' & s & (Hcs & Hle & Hcm & Em) & _).
    pose proof (map_ok_chunk _ _ Hun _ _ Hcm) as (?&?&?). destruct (map_ok_gran _ _ Hun _ _ Hcm). simpl in *.
    destruct (take_front_spec PAGE_SIZE _ _ _ size Hun Hcm) as (_ & Hm' & Hcov & Hend); [lia|done|].
    assert (∀ a, chunk_in c a → vm_free v a) as Hfree.
    { intros a Ha. exists (cbase c), s. unfold chunk_in in Ha. split; [done|lia]. }
    assert (chunk_ok c) by (unfold chunk_ok; lia).
    destruct (ChunkMap_insert_addable PAGE_SIZE (vm_used_chunks v) c) as (-> & Hmu & Hcu).
    { apply vm_used_addable; [done..| |done]. by rewrite Hcs. }
    simpl. eexists _, _. split; [done|]. simpl. rewrite Hcs in *.
    assert (∀ a, covers (chunks u) a ↔ vm_free v a ∧ ¬ chunk_in c a) as Hfu.
    { intros a. rewrite Em, Hcov. unfold vm_free, chunk_in. by rewrite Hcs. }
    split_and!; [|split; simpl; [by rewrite ?Hcs|done|done|done]|done|done].
    split; simpl; [done|done|by rewrite Em| |].
    + intros e He Hc. rewrite Em in He. apply Hend in He. apply Hfu in Hc as [? _]. by apply (Hco e).
    + intros a Ha. apply Hcu in Ha as [?|?]; intros [? ?]%Hfu; [by eapply Hdis|done].
  - destruct Hr as [-> Hr]. eexists _, _. split; [done|]. split_and!; [by destruct v|done|].
    intros b Hrun. destruct (run_in_one_chunk _ b size Hco) as (b0 & s0 & Hb0 & ? & ?); [lia|done|].
    apply Hr in Hb0. lia.
Qed.

Lemma find_containing_spec address l :
  (∀ c, c ∈ l → chunk_ok c) →
  ∃ r, find_containing address l = Ret r ∧
    match r with
    | Some c => c ∈ l ∧ chunk_in c address
    | None => ∀ c, c ∈ l → ¬ chunk_in c address
    end.
Proof.
  induction l as [|c l IH]; intros Hl; simpl.
  { exists None. split; [done|]. intros c Hc. by apply elem_of_nil in Hc. }
  rewrite contains_ok by (apply Hl; by left). simpl. case_bool_decide.
  - exists (Some c). split_and!; [done|by left|done].
  - destruct IH as (r & -> & Hr); [intros; apply Hl; by right|]. exists r. split; [done|].
    destruct r as [c'|]; [destruct Hr; split; [by right|done]|].
    intros c' [->|?]%elem_of_cons; auto.
Qed.

(** The chunk that [allocate_at] looks for. *)
Lemma find_unused_spec v address :
  vm_ok v →
  ∃ r, find_containing address (SizeBucketed_iter (vm_unused_chunks v)) = Ret r ∧
    match r with
    | Some t => chunks (vm_unused_chunks v) !! cbase t = Some (csize t) ∧ chunk_in t address
    | None => ¬ vm_free v address
    end.
Proof.
  intros Hv. unfold SizeBucketed_iter.
  assert (∀ c, c ∈ concat (chunks_by_log2_size (vm_unused_chunks v)) ↔
               chunks (vm_unused_chunks v) !! cbase c = Some (csize c)) as Hin.
  { intros c. symmetry. apply (sb_elem PAGE_SIZE), Hv. }
  destruct (find_containing_spec address (concat (chunks_by_log2_size (vm_unused_chunks v)))) as (r & -> & Hr).
  { intros c Hc%Hin. apply (map_ok_chunk _ _ (vm_ok_unused _ Hv)) in Hc. by destruct c. }
  exists r. split; [done|]. destruct r as [t|]; [by rewrite <- Hin|].
  intros (b & s & Hbs & ?). by apply (Hr (mkChunk b s)); [apply Hin|].
Qed.

Lemma allocate_at_spec v address size :
  vm_ok v → (PAGE_SIZE | address) → (PAGE_SIZE | size) → chunk_ok (mkChunk address size) →
  ∃ r v', allocate_at address size v = Ret (r, v') ∧
    match r with
    | Ok c => vm_ok v' ∧ vm_granted v c v' ∧ c = mkChunk address size ∧
              vm_used_chunks v' = <[address := size]> (vm_used_chunks v)
    | Err e => v' = v ∧ ¬ (∀ a, address ≤ a < address + size → vm_free v a) ∧
               (e = AddressUnavailable ↔ ¬ vm_free v address)
    end.
Proof.
  intros Hv Ha Hs Hc. pose proof Hv as [Hu Hsb Hun Hco Hdis]. pose proof Hc as (?&?&?). simpl in *.
  pose proof (page_pos _ Hs ltac:(lia)). unfold allocate_at.
  rewrite !is_multiple_of_divide by done. destruct (Z.leb_spec PAGE_SIZE size); [|lia]. simpl.
  unfold Chunk_new. destruct (Z.eqb_spec size 0); [lia|]. simpl.
  set (c := mkChunk address size) in *.
  destruct (find_unused_spec v address Hv) as (r & -> & Hr). simpl. destruct r as [t|].
  2: { eexists _, _. split; [done|]. split_and!; [done| |done]. intros Hrun. apply Hr, Hrun. lia. }
  destruct Hr as [Ht Hin]. assert (chunk_ok t) as Hct.
  { apply (map_ok_chunk _ _ Hun) in Ht. by destruct t. }
  assert (vm_free v address) as Hfa by (by exists (cbase t), (csize t)).
  rewrite trisect_by_ok by done. simpl. case_bool_decide as Hfit.
  2: { eexists _, _. split; [done|]. split_and!; [done| |split; [done|tauto]]. intros Hrun. apply Hfit.
       destruct (run_in_one_chunk _ address size Hco) as (b0 & s0 & Hb0 & ? & ?); [lia|done|].
       assert (b0 = cbase t) as ->.
       { eapply (map_ok_disjoint _ _ Hun _ _ _ _ address Hb0 Ht); [lia|done]. }
       simplify_eq. unfold cend. simpl. lia. }
  destruct (remove_range_step_spec (ok := sb_ok PAGE_SIZE) (min := PAGE_SIZE) PAGE_SIZE c (cbase t) (csize t)
    (vm_unused_chunks v)) as (u3 & Estep & Hu3 & Hm3 & Hcov & _ & Hend); try done.
  unfold remove_range_step in Estep.
  destruct (sb_remove_hit PAGE_SIZE (vm_unused_chunks v) (cbase t) (csize t)) as (u1 & E1 & _); [done..|].
  simpl in Estep. rewrite E1 in Estep |- *. cbn in Estep.
  replace (mkChunk (cbase t) (csize t)) with t in Estep by (by destruct t).
  rewrite difference_cut in Estep by done. simpl in Estep.
  apply bind_ret_inv in Estep as (u2 & E2 & E3). simpl. rewrite E2. simpl. rewrite E3. simpl in *.
  unfold cend in Hfit. simpl in Hfit.
  assert (∀ a, chunk_in c a → vm_free v a) as Hfree.
  { intros a [??]. exists (cbase t), (csize t). simpl in *. split; [done|lia]. }
  destruct (ChunkMap_insert_addable PAGE_SIZE (vm_used_chunks v) c) as (-> & Hmu & Hcu).
  { by apply vm_used_addable. }
  assert (∀ a, covers (chunks u3) a ↔ vm_free v a ∧ ¬ chunk_in c a) as Hf3.
  { intros a. rewrite Hcov. setoid_rewrite list_elem_of_singleton. split; intros [Hx Hn]; (split; [done|]).
    - intros [??]. apply Hn. split; [done|]. exists (cbase t), (csize t). simpl in *. split_and!; [done..|lia|lia].
    - tauto. }
  simpl. eexists _, _. split; [done|].
  split_and!; [|split; simpl; [done|done|done|done]|done|done].
  split; simpl; [done..| |].
  - eapply coalesced_carve; [exact Hco| |by intros ? ?%Hf3|done]. simpl. lia.
  - intros a [?|?]%Hcu [? ?]%Hf3; [by eapply Hdis|done].
Qed.

(** Taking the chunk after [c] out, if there is one, and merging it in. *)
Lemma absorb_after k x c :
  sb_ok k x → addable k (chunks x) c → coalesced (chunks x) →
  ∃ o x' c', SizeBucketed_remove_with_base (cend c) x = Ret (o, x') ∧ merge_opt o c = Ret c' ∧
    sb_ok k x' ∧ addable k (chunks x') c' ∧ coalesced (chunks x') ∧
    cbase c' = cbase c ∧ chunks x' !! cend c' = None ∧
    (∀ e, chunk_end (chunks x') e → chunk_end (chunks x) e) ∧
    ∀ a, chunk_in c' a ∨ covers (chunks x') a ↔ chunk_in c a ∨ covers (chunks x) a.
Proof.
  intros Hx Hc Hco. destruct (chunks x !! cend c) as [n|] eqn:E.
  - destruct (sb_remove_hit k x (cend c) n) as (x' & Er & Hx' & Em); [done..|].
    simpl in *. pose proof Hc as [Hm (?&?&?) _ _ _].
    pose proof (map_ok_chunk _ _ Hm _ _ E) as Hn. pose proof Hn as (?&?&?).
    destruct (absorb_spec k _ c (cend c) n Hc E) as [Hc' Hcov]; [by left|]. simpl in *.
    rewrite Z.min_r in Hc', Hcov by (unfold cend; lia).
    exists (Some (mkChunk (cend c) n)), x', (mkChunk (cbase c) (csize c + n)). rewrite Em. split_and!; try done.
    + simpl. rewrite merge_ok by (done || by left). simpl. unfold cend. feq_lia.
    + by apply coalesced_delete.
    + apply eq_None_not_Some. intros [n' [_ Hn']%lookup_delete_Some]. unfold cend in *. simpl in *.
      apply (Hco (cbase c + csize c + n)); [by exists (cbase c + csize c), n|].
      pose proof (map_ok_chunk _ _ Hm _ _ Hn') as (?&?&?). simpl in *.
      eexists _, n'. split; [done|lia].
    + intros e (b & m & [_ ?]%lookup_delete_Some & ->). by exists b, m.
  - exists None, x, c. split_and!; try done.
    by apply sb_remove_miss.
Qed.

(** The same for the chunk before [c]. *)
Lemma absorb_before k x c :
  sb_ok k x → addable k (chunks x) c → coalesced (chunks x) → chunks x !! cend c = None →
  ∃ o x' c', SizeBucketed_remove_with_end (cbase c) x = Ret (o, x') ∧ merge_opt o c = Ret c' ∧
    sb_ok k x' ∧ addable k (chunks x') c' ∧ coalesced (chunks x') ∧
    ¬ chunk_end (chunks x') (cbase c') ∧ chunks x' !! cend c' = None ∧
    ∀ a, chunk_in c' a ∨ covers (chunks x') a ↔ chunk_in c a ∨ covers (chunks x) a.
Proof.
  intros Hx Hc Hco HN. pose proof Hc as [Hm Hck _ _ _]. pose proof Hck as (?&?&?).
  destruct (decide (chunk_end (chunks x) (cbase c))) as [(b & n & Hbn & E)|Hne].
  - destruct (sb_remove_with_end_hit k k x b n) as (x' & Er & Hx' & Em); [done..|].
    pose proof (map_ok_chunk _ _ Hm _ _ Hbn) as Hn. pose proof Hn as (?&?&?).
    destruct (absorb_spec k _ c b n Hc Hbn) as [Hc' Hcov]; [by right|]. simpl in *.
    rewrite Z.min_l in Hc', Hcov by lia.
    exists (Some (mkChunk b n)), x', (mkChunk b (csize c + n)). rewrite E, Em. split_and!; try done.
    + simpl. rewrite merge_ok by (done || by right). simpl. feq_lia.
    + by apply coalesced_delete.
    + simpl. intros (b' & n' & [_ Hb']%lookup_delete_Some & ->).
      apply (Hco (b' + n')); [by exists b', n'|]. eexists _, n. split; [done|lia].
    + unfold cend in *. simpl. rewrite lookup_delete_ne by lia. rewrite <- HN. f_equal. lia.
  - exists None, x, c. split_and!; try done. by eapply sb_remove_with_end_miss.
Qed.

Lemma insert_coalesced_spec k x c :
  sb_ok k x → addable k (chunks x) c → coalesced (chunks x) →
  ∃ x', insert_coalesced c x = Ret x' ∧ sb_ok k x' ∧ map_ok k (chunks x') ∧ coalesced (chunks x') ∧
    ∀ a, covers (chunks x') a ↔ covers (chunks x) a ∨ chunk_in c a.
Proof.
  intros Hx Hc Hco. pose proof (addable_chunk _ _ _ Hc) as Hck. unfold insert_coalesced.
  rewrite last_byte_ok by done. simpl. pose proof Hck as (?&?&?). u32_simpl.
  replace (cbase c + csize c - 1 + 1) with (cend c) by (unfold cend; lia).
  destruct (absorb_after k x c) as (o1 & x1 & c1 & -> & Em1 & Hx1 & Hc1 & Hco1 & Eb & HN1 & _ & Hcov1); [done..|].
  simpl. rewrite <- Eb.
  destruct (absorb_before k x1 c1) as (o2 & x2 & c2 & -> & Em2 & Hx2 & Hc2 & Hco2 & Hl2 & HN2 & Hcov2); [done..|].
  simpl. rewrite Em1. simpl. rewrite Em2. simpl.
  destruct (sb_insert_addable k x2 c2) as (x3 & -> & Hx3 & Hm3 & Em3 & Hcov3); [done..|].
  exists x3. split_and!; [done..| |].
  - rewrite Em3. by eapply coalesced_insert.
  - intros a. rewrite Hcov3, (or_comm (covers (chunks x2) a)), Hcov2, Hcov1. tauto.
Qed.

(** The chunk that a deallocation request frees. *)
Definition freed_chunk (address size : Z) : Chunk := mkChunk (page_base address) (round_up size).

Lemma VMAllocator_deallocate_spec v address size :
  vm_ok v → 0 ≤ address < U32_MOD → 0 < size < U32_MOD → chunk_ok (freed_chunk address size) →
  ∃ v', VMAllocator_deallocate address size v = Ret (freed_chunk address size, v') ∧ vm_ok v' ∧
    (∀ a, vm_used v' a ↔ vm_used v a ∧ ¬ chunk_in (freed_chunk address size) a) ∧
    (∀ a, vm_free v' a ↔ vm_free v a ∨ chunk_in (freed_chunk address size) a).
Proof.
  intros Hv Ha Hs Hc. pose proof Hv as [Hu Hsb Hun Hco Hdis]. pose proof Hc as (?&?&?).
  unfold VMAllocator_deallocate. destruct (next_multiple_of_round_up size) as [->|]; [lia| |lia].
  destruct (round_up_spec size) as [Hrs ?]. simpl in *. u32_simpl. unfold Chunk_new.
  destruct (Z.eqb_spec (round_up size) 0); [lia|]. cbn -[ChunkMap_remove_range SizeBucketed_remove_range].
  unfold ChunkMap_remove_range.
  change (mkChunk (page_base address) (round_up size)) with (freed_chunk address size).
  set (f := freed_chunk address size) in *.
  assert (PAGE_SIZE | cbase f) as Hb.
  { unfold f. simpl. rewrite page_base_spec by done. by apply Z.divide_factor_r. }
  destruct (remove_range_spec (ok := λ _, True) (min := 1) PAGE_SIZE f (vm_used_chunks v))
    as (used & -> & _ & Hu' & Hcu & _); try done.
  destruct (sb_remove_range PAGE_SIZE (vm_unused_chunks v) f) as (u0 & -> & Hu0 & Hm0 & Hc0 & He0); try done.
  simpl. destruct (insert_coalesced_spec PAGE_SIZE u0 f) as (u3 & -> & Hu3 & Hm3 & Hco3 & Hc3); [done| | |].
  { split; try done. intros a ? [_ ?]%Hc0. done. }
  { eapply coalesced_carve; [exact Hco|by apply Hc|by intros ? ?%Hc0|done]. }
  simpl. eexists. split; [done|].
  assert (∀ a, covers (chunks u3) a ↔ vm_free v a ∨ chunk_in f a) as Hfin.
  { intros a. rewrite Hc3, Hc0. unfold vm_free. destruct (decide (chunk_in f a)); tauto. }
  split_and!; [|done|done]. split; simpl; [done..|].
  intros a [? ?]%Hcu [?|?]%Hfin; [by eapply Hdis|done].
Qed.

Lemma VMAllocator_allocate_None v size :
  0 ≤ size → round_up size < U32_MOD →
  VMAllocator_allocate None size v = allocate_any (round_up size) v.
Proof.
  intros. destruct (round_up_spec size). unfold VMAllocator_allocate.
  destruct (next_multiple_of_round_up size) as [->|]; [lia| |lia]. by u32_simpl.
Qed.

(** A range of [size] bytes (rounded to pages), at [address] when one is asked
    for, whose addresses are all free. *)
Definition vm_suitable (v : VMAllocator) (address : option Z) (size : Z) (c : Chunk) : Prop :=
  csize c = round_up size ∧
  (∀ a, address = Some a → cbase c = page_base a) ∧
  (∀ a, chunk_in c a → vm_free v a).


(** The guest address space below the main thread's stack, as [Mem::new] sets
    it up. *)
Definition MAIN_THREAD_STACK_LOW_END : Z := 4293918720.

Lemma vm_initial_ok :
  ∃ v, VMAllocator_new 0 MAIN_THREAD_STACK_LOW_END = Ret v ∧ vm_ok v ∧
    ∀ a, ¬ vm_used v a ∧ (vm_free v a ↔ 0 ≤ a < 0 + MAIN_THREAD_STACK_LOW_END).
Proof.
  apply VMAllocator_new_ok; [unfold chunk_ok, U32_MOD; simpl; unfold MAIN_THREAD_STACK_LOW_END; lia|by exists 0|].
  by exists 1048320.
Qed.


(** [VMAllocator::deallocate] of any page range below the top of the
    address space never panics, whatever of the range is used or free; it
    returns the page range, which is then free and not used, touches no other
    address and keeps free memory coalesced ([vm_ok]). *)
Theorem vm_deallocate_correct v address size :
  vm_ok v → 0 ≤ address < U32_MOD → 0 < size < U32_MOD →
  page_base address + round_up size < U32_MOD →
  let c := freed_chunk address size in
  ∃ v', VMAllocator_deallocate address size v = Ret (c, v') ∧ vm_ok v' ∧
    (∀ a, vm_used v' a ↔ vm_used v a ∧ ¬ chunk_in c a) ∧
    (∀ a, vm_free v' a ↔ vm_free v a ∨ chunk_in c a).
Proof.
  intros Hv Ha Hs Hb c. apply VMAllocator_deallocate_spec; [done..|].
  destruct (round_up_spec size). unfold chunk_ok, freed_chunk. simpl.
  pose proof (page_base_spec address Ha) as Hp.
  assert (0 ≤ page_base address) by (rewrite Hp; apply Z.mul_nonneg_nonneg; [apply Z.div_pos; lia|done]). lia.
Qed.

Lemma vm_deallocate_correct_witness :
  ∃ v v', VMAllocator_new 0 MAIN_THREAD_STACK_LOW_END = Ret v ∧
    VMAllocator_deallocate 8200 5000 v = Ret (mkChunk 8192 8192, v') ∧ vm_ok v'.
Proof.
  destruct vm_initial_ok as (v & E & Hv & _).
  destruct (vm_deallocate_correct v 8200 5000) as (v' & E' & Hv' & _);
    [exact Hv|unfold U32_MOD; lia|unfold U32_MOD; lia|vm_compute; reflexivity|].
  exists v, v'. auto.
Defined.
