(* ===== verification/HeapAllocator.v ===== *)
(** * The heap allocator ([HeapAllocator] of [mem/allocator.rs])

    A heap takes 2 MiB chunks from the virtual memory allocator and cuts them
    into allocations of a multiple of 16 bytes; larger requests become external
    chunks, which the virtual memory allocator manages.  [heap_ok] is the
    invariant of a heap together with the virtual memory allocator it draws
    from; [heap_live] is the abstract view: the allocations that the program
    holds. *)

From S2P Require Import Prelude ChunkMap SizeBucketed VMAllocator.

Record HeapAllocator := mkHeap {
  used_chunks : gmap Z Z;
  unused_chunks : SizeBucketed;
  external_chunks : gmap Z Z;
  backing_chunks : list Chunk
}.

Definition HEAP_CHUNK_SIZE : Z := 2097152.
Definition HEAP_ALLOCATION_THRESHOLD : Z := 15 * 1024 - 1.

(** [Result::ok().expect(..)]. *)
Definition expect_ok {A E} (r : result A E) : outcome A :=
  match r with Ok a => Ret a | Err _ => Panic end.

Definition HeapAllocator_new (vm : VMAllocator) (size : Z)
    : outcome (HeapAllocator * VMAllocator) :=
  let unused := SizeBucketed_new MIN_CHUNK_SIZE in
  if 0 <? size then
    '(r, vm') ← VMAllocator_allocate None size vm;
    base_chunk ← expect_ok r;
    unused' ← SizeBucketed_insert base_chunk unused;
    Ret (mkHeap ∅ unused' ∅ [base_chunk], vm')
  else Ret (mkHeap ∅ unused ∅ [], vm).

Definition heap_align (size align : Z) : outcome Z :=
  if negb (is_multiple_of size align) then
    t ← u32 (size + align);
    u32 (t - size mod align)
  else Ret size.

Definition heap_grow (vm : VMAllocator) (self : HeapAllocator)
    : outcome (HeapAllocator * VMAllocator) :=
  '(r, vm') ← VMAllocator_allocate None HEAP_CHUNK_SIZE vm;
  chunk ← expect_ok r;
  unused' ← SizeBucketed_insert chunk (unused_chunks self);
  Ret (mkHeap (used_chunks self) unused' (external_chunks self)
         (backing_chunks self ++ [chunk]), vm').

(** [self.used_chunks.insert(alloc)] after [alloc] was taken from [unused]. *)
Definition heap_hand_out (alloc : option Chunk) (unused : SizeBucketed)
    (self : HeapAllocator) (vm : VMAllocator)
    : outcome (option Chunk * HeapAllocator * VMAllocator) :=
  match alloc with
  | None =>
      Ret (None, mkHeap (used_chunks self) unused (external_chunks self) (backing_chunks self), vm)
  | Some c =>
      used' ← ChunkMap_insert c (used_chunks self);
      Ret (Some c, mkHeap used' unused (external_chunks self) (backing_chunks self), vm)
  end.

(** An allocation that is deferred to the virtual memory allocator. *)
Definition heap_alloc_external (vm : VMAllocator) (size : Z) (self : HeapAllocator)
    : outcome (option Chunk * HeapAllocator * VMAllocator) :=
  '(r, vm') ← VMAllocator_allocate None size vm;
  match r with
  | Err _ => Ret (None, self, vm')
  | Ok alloc =>
      external' ← ChunkMap_insert alloc (external_chunks self);
      Ret (Some alloc, mkHeap (used_chunks self) (unused_chunks self) external'
                         (backing_chunks self), vm')
  end.

Definition heap_alloc (vm : VMAllocator) (size : Z) (self : HeapAllocator)
    : outcome (option Chunk * HeapAllocator * VMAllocator) :=
  let size := Z.max size MIN_CHUNK_SIZE in
  size ← heap_align size MIN_CHUNK_SIZE;
  if HEAP_ALLOCATION_THRESHOLD <? size then heap_alloc_external vm size self
  else
    '(r, unused') ← SizeBucketed_allocate size (unused_chunks self);
    match r with
    | Some c => heap_hand_out (Some c) unused' self vm
    | None =>
        '(self1, vm1) ← heap_grow vm (mkHeap (used_chunks self) unused' (external_chunks self)
                                        (backing_chunks self));
        '(r2, unused2) ← SizeBucketed_allocate size (unused_chunks self1);
        heap_hand_out r2 unused2 self1 vm1
    end.

Definition heap_valloc (vm : VMAllocator) (size : Z) (self : HeapAllocator)
    : outcome (option Chunk * HeapAllocator * VMAllocator) :=
  rassert (0 <? size);;
  size ← next_multiple_of size PAGE_SIZE;
  heap_alloc_external vm size self.

Definition find_allocated_size (base : Z) (self : HeapAllocator) : outcome Z :=
  match ChunkMap_get_size_with_base base (external_chunks self) with
  | Some size => Ret size
  | None => unwrap (ChunkMap_get_size_with_base base (used_chunks self))
  end.

(** [unused.remove_with_base(end).or_else(|| unused.remove_with_end(base))]. *)
Definition remove_adjacent (freed : Chunk) (unused : SizeBucketed)
    : outcome (option Chunk * SizeBucketed) :=
  l ← last_byte freed;
  e ← u32 (l + 1);
  '(r, u1) ← SizeBucketed_remove_with_base e unused;
  match r with
  | Some adjacent => Ret (Some adjacent, u1)
  | None => SizeBucketed_remove_with_end (cbase freed) u1
  end.

Definition heap_free (vm : VMAllocator) (base : Z) (self : HeapAllocator)
    : outcome (Z * HeapAllocator * VMAllocator) :=
  '(ext, external') ← ChunkMap_remove_with_base base (external_chunks self);
  match ext with
  | Some freed =>
      '(_, vm') ← VMAllocator_deallocate (cbase freed) (csize freed) vm;
      Ret (csize freed, mkHeap (used_chunks self) (unused_chunks self) external'
                          (backing_chunks self), vm')
  | None =>
      '(own, used') ← ChunkMap_remove_with_base base (used_chunks self);
      match own with
      | None => Ret (0, self, vm)
      | Some freed =>
          '(adj, u1) ← remove_adjacent freed (unused_chunks self);
          combined ← match adj with
                     | Some adjacent => Chunk_merge adjacent freed
                     | None => Ret freed
                     end;
          unused' ← SizeBucketed_insert combined u1;
          Ret (csize freed, mkHeap used' unused' (external_chunks self) (backing_chunks self), vm)
      end
  end.

Definition into_vm_chunks (self : HeapAllocator) : list Chunk :=
  ((λ p, mkChunk p.1 p.2) <$> btree_iter (external_chunks self)) ++ backing_chunks self.

(** ** Invariant *)

(** Addresses of the chunks the heap cuts up itself. *)
Definition heap_own (h : HeapAllocator) (a : Z) : Prop :=
  covers (used_chunks h) a ∨ covers (chunks (unused_chunks h)) a.

Record heap_ok (vm : VMAllocator) (h : HeapAllocator) : Prop := {
  heap_vm : vm_ok vm;
  heap_used : map_ok MIN_CHUNK_SIZE (used_chunks h);
  heap_sb : sb_ok MIN_CHUNK_SIZE (unused_chunks h);
  heap_unused : map_ok MIN_CHUNK_SIZE (chunks (unused_chunks h));
  heap_external : map_ok PAGE_SIZE (external_chunks h);
  heap_disjoint a : covers (used_chunks h) a → ¬ covers (chunks (unused_chunks h)) a;
  heap_ext_disjoint a : covers (external_chunks h) a → ¬ heap_own h a;
  heap_own_vm a : heap_own h a → vm_used vm a;
  heap_ext_vm a : covers (external_chunks h) a → vm_used vm a;
  heap_backing a : heap_own h a ↔ ∃ c, c ∈ backing_chunks h ∧ chunk_in c a
}.

(** The allocation at [b] of [n] bytes is live. *)
Definition heap_live (h : HeapAllocator) (b n : Z) : Prop :=
  external_chunks h !! b = Some n ∨ used_chunks h !! b = Some n.

(** Memory that is in use, and not by the heap: the binary, stacks. *)
Definition heap_static (vm : VMAllocator) (h : HeapAllocator) (a : Z) : Prop :=
  vm_used vm a ∧ ¬ heap_own h a ∧ ¬ covers (external_chunks h) a.

(** Live allocations never overlap. *)
Lemma heap_live_disjoint vm h b1 n1 b2 n2 a :
  heap_ok vm h → heap_live h b1 n1 → heap_live h b2 n2 →
  b1 ≤ a < b1 + n1 → b2 ≤ a < b2 + n2 → b1 = b2 ∧ n1 = n2.
Proof.
  intros Hh [H1|H1] [H2|H2] Ha1 Ha2.
  - assert (b1 = b2) as -> by (by eapply (map_ok_disjoint _ _ (heap_external _ _ Hh))). by simplify_eq.
  - exfalso. eapply (heap_ext_disjoint _ _ Hh a); [by exists b1, n1|]. left. by exists b2, n2.
  - exfalso. eapply (heap_ext_disjoint _ _ Hh a); [by exists b2, n2|]. left. by exists b1, n1.
  - assert (b1 = b2) as -> by (by eapply (map_ok_disjoint _ _ (heap_used _ _ Hh))). by simplify_eq.
Qed.

(** ** Operations preserve the invariant *)

Lemma page_min x : (PAGE_SIZE | x) → (MIN_CHUNK_SIZE | x).
Proof. apply Z.divide_trans. by exists 256. Qed.

Lemma heap_align_spec s :
  0 ≤ s → s + MIN_CHUNK_SIZE < U32_MOD →
  ∃ n, heap_align s MIN_CHUNK_SIZE = Ret n ∧ (MIN_CHUNK_SIZE | n) ∧ s ≤ n < s + MIN_CHUNK_SIZE.
Proof.
  intros Hs Hlt. unfold heap_align, is_multiple_of, MIN_CHUNK_SIZE in *.
  pose proof (Z.div_mod s 16 ltac:(done)). pose proof (Z.mod_pos_bound s 16 ltac:(done)).
  destruct (Z.eqb_spec (s mod 16) 0); simpl.
  - exists s. split_and!; [done| |lia..]. exists (s / 16). lia.
  - u32_simpl. eexists. split_and!; [done| |lia..]. exists (s / 16 + 1). lia.
Qed.

(** Free memory of the virtual memory allocator belongs to no heap. *)
Lemma vm_free_not_heap vm h a :
  heap_ok vm h → vm_free vm a → ¬ heap_own h a ∧ ¬ covers (external_chunks h) a.
Proof.
  intros Hh Hf. split; intros H; eapply (vm_ok_disjoint _ (heap_vm _ _ Hh) a); try done;
    [by apply (heap_own_vm _ _ Hh)|by apply (heap_ext_vm _ _ Hh)].
Qed.

Lemma heap_hand_out_spec vm h u' size c s :
  heap_ok vm h → allocated (unused_chunks h) u' size c s → sb_ok MIN_CHUNK_SIZE u' →
  (MIN_CHUNK_SIZE | size) → 0 < size →
  ∃ h', heap_hand_out (Some c) u' h vm = Ret (Some c, h', vm) ∧ heap_ok vm h' ∧
    used_chunks h' = <[cbase c := csize c]> (used_chunks h) ∧
    external_chunks h' = external_chunks h ∧
    chunk_ok c ∧ (MIN_CHUNK_SIZE | cbase c) ∧ (∀ a, chunk_in c a → covers (chunks (unused_chunks h)) a) ∧
    (∀ a, heap_own h' a ↔ heap_own h a).
Proof.
  intros Hh (Hcs & Hle & Hcm & Em) Hsb' Hg Hpos.
  pose proof Hh as [Hvm Hu Hsb Hun Hex Hdis Hexd Hov Hev Hback].
  pose proof (map_ok_chunk _ _ Hun _ _ Hcm) as (?&?&?). destruct (map_ok_gran _ _ Hun _ _ Hcm). simpl in *.
  destruct (take_front_spec _ _ _ _ size Hun Hcm) as (_ & Hm' & Hcov & _); [lia|done|].
  assert (∀ a, chunk_in c a → covers (chunks (unused_chunks h)) a) as Hfree.
  { intros a [??]. exists (cbase c), s. split; [done|lia]. }
  assert (chunk_ok c) as Hc by (unfold chunk_ok; lia).
  destruct (ChunkMap_insert_addable MIN_CHUNK_SIZE (used_chunks h) c) as (Eins & Hmu & Hcu).
  { split; [done..|by rewrite Hcs|]. intros a ? ?. by eapply Hdis, Hfree. }
  assert (∀ a, covers (chunks u') a ↔ covers (chunks (unused_chunks h)) a ∧ ¬ chunk_in c a) as Hfu.
  { intros a. rewrite Em, Hcov. unfold chunk_in. by rewrite Hcs. }
  unfold heap_hand_out. rewrite Eins. simpl. eexists. split; [done|].
  assert (∀ a, heap_own (mkHeap (<[cbase c:=csize c]> (used_chunks h)) u' (external_chunks h) (backing_chunks h)) a
     ↔ heap_own h a) as Hown.
  { intros a. unfold heap_own. simpl. rewrite Hcu, Hfu.
    destruct (decide (chunk_in c a)) as [Hd|Hd]; [pose proof (Hfree a Hd)|]; tauto. }
  split; [|done]. split; simpl; [done..| |done| | | |done|].
  - by rewrite Em.
  - intros a [?|?]%Hcu [? ?]%Hfu; [by eapply Hdis|done].
  - intros a ?. rewrite Hown. by apply Hexd.
  - intros a ?%Hown. by apply Hov.
  - intros a. by rewrite Hown.
Qed.

(** A chunk that the virtual memory allocator just granted, in a heap. *)
Lemma heap_ok_granted vm vm' h c :
  heap_ok vm h → vm_ok vm' → vm_granted vm c vm' → heap_ok vm' h ∧
  (∀ a, chunk_in c a → ¬ heap_own h a ∧ ¬ covers (external_chunks h) a ∧ vm_used vm' a).
Proof.
  intros Hh Hv [Hc Hf Hu Hr]. split.
  - destruct Hh as [Hvm Hu' Hsb Hun Hex Hdis Hexd Hov Hev Hback].
    split; try done; intros a ?; apply Hu; left; auto.
  - intros a Ha. destruct (vm_free_not_heap vm h a Hh (Hf a Ha)). split_and!; [done..|].
    apply Hu. by right.
Qed.

Lemma heap_add_backing vm h c x :
  heap_ok vm h → sb_ok MIN_CHUNK_SIZE x → map_ok MIN_CHUNK_SIZE (chunks x) →
  (∀ a, chunk_in c a → ¬ heap_own h a ∧ ¬ covers (external_chunks h) a ∧ vm_used vm a) →
  (∀ a, covers (chunks x) a ↔ covers (chunks (unused_chunks h)) a ∨ chunk_in c a) →
  heap_ok vm (mkHeap (used_chunks h) x (external_chunks h) (backing_chunks h ++ [c])).
Proof.
  intros Hh Hx Hm Hc Hcov. destruct Hh as [Hvm Hu Hsb Hun Hex Hdis Hexd Hov Hev Hback].
  assert (∀ a, heap_own (mkHeap (used_chunks h) x (external_chunks h) (backing_chunks h ++ [c])) a
     ↔ heap_own h a ∨ chunk_in c a) as Hown.
  { intros a. unfold heap_own. simpl. rewrite Hcov. tauto. }
  split; simpl; [done..| | | |done|].
  - intros a Ha [?|?]%Hcov; [by eapply Hdis|]. destruct (Hc a) as [Hn _]; [done|]. apply Hn. by left.
  - intros a Ha [?|?]%Hown; [by eapply Hexd|]. by destruct (Hc a) as (_ & ? & _).
  - intros a [?|?]%Hown; [auto|]. by apply Hc.
  - intros a. rewrite Hown, Hback. setoid_rewrite elem_of_app. setoid_rewrite list_elem_of_singleton.
    naive_solver.
Qed.

Definition vm_has_room (vm : VMAllocator) (size : Z) : Prop :=
  ∃ b, ∀ a, b ≤ a < b + size → vm_free vm a.

Lemma heap_grow_spec vm h :
  heap_ok vm h →
  (∃ h' vm', heap_grow vm h = Ret (h', vm') ∧ heap_ok vm' h' ∧
    used_chunks h' = used_chunks h ∧ external_chunks h' = external_chunks h ∧
    (∃ b, chunks (unused_chunks h') !! b = Some HEAP_CHUNK_SIZE) ∧
    (∀ a, vm_used vm a → vm_used vm' a) ∧ (∀ a, heap_static vm h a → heap_static vm' h' a)) ∨
  (heap_grow vm h = Panic ∧ ¬ vm_has_room vm HEAP_CHUNK_SIZE).
Proof.
  intros Hh. unfold heap_grow. rewrite VMAllocator_allocate_None by done.
  change (round_up HEAP_CHUNK_SIZE) with HEAP_CHUNK_SIZE.
  destruct (allocate_any_spec vm HEAP_CHUNK_SIZE) as (r & vm' & -> & Hr);
    [apply Hh|by exists 512|done|]. simpl. destruct r as [c|e].
  2: { destruct Hr as (_ & _ & Hn). right. split; [done|]. intros [b Hb]. by apply (Hn b). }
  left. destruct Hr as (Hv' & Hg & Hcs & _). destruct (granted_chunk _ _ _ Hg) as (Hck & Hcb & Hcz).
  destruct (heap_ok_granted vm vm' h c) as [Hh' Hnew]; [done..|]. simpl.
  destruct (sb_insert_addable MIN_CHUNK_SIZE (unused_chunks h) c) as (x & -> & Hx & Hm & Em & Hcov); [apply Hh| |].
  { split; [apply Hh|done|by apply page_min..|]. intros a Ha ?. destruct (Hnew a Ha) as [Hn _]. apply Hn. by right. }
  simpl. eexists _, vm'. split; [done|]. split; [by eapply heap_add_backing|]. simpl. split_and!; [done..| | |].
  - exists (cbase c). by rewrite Em, lookup_insert_eq, Hcs.
  - intros a ?. apply (granted_used _ _ _ Hg). by left.
  - intros a (Hu & Ho & He). assert (¬ chunk_in c a).
    { intros Hf%(granted_free _ _ _ Hg). by apply (vm_ok_disjoint _ (heap_vm _ _ Hh) a). }
    split_and!; [apply (granted_used _ _ _ Hg); by left| |done].
    unfold heap_own in *. simpl. rewrite Hcov. tauto.
Qed.

(** ** Allocation *)

Lemma addable_fresh g m c : addable g m c → m !! cbase c = None.
Proof. intros [Hm Hc Hb Hs Hf]. by destruct (map_ok_insert g m (cbase c) (csize c)). Qed.

(** What an allocation request of [size] bytes may answer: a fresh block, added
    to the live ones and disjoint from them, or nothing, when the request went
    to the virtual memory allocator and that has no run of free pages left. *)
Definition heap_alloc_post (vm : VMAllocator) (h : HeapAllocator) (size : Z)
    (r : option Chunk) (h' : HeapAllocator) (vm' : VMAllocator) : Prop :=
  heap_ok vm' h' ∧
  match r with
  | Some c =>
      chunk_ok c ∧ size ≤ csize c ∧ (MIN_CHUNK_SIZE | cbase c) ∧
      (∀ b n, heap_live h' b n ↔ heap_live h b n ∨ (b = cbase c ∧ n = csize c)) ∧
      (∀ b n a, heap_live h b n → b ≤ a < b + n → ¬ chunk_in c a) ∧
      (∀ a, vm_used vm a → vm_used vm' a) ∧
      (∀ a, heap_static vm h a → heap_static vm' h' a ∧ ¬ chunk_in c a)
  | None => h' = h ∧ vm' = vm ∧ ¬ vm_has_room vm (round_up size)
  end.

Lemma heap_alloc_external_spec vm h size :
  heap_ok vm h → 0 < size → round_up size < U32_MOD →
  ∃ r h' vm', heap_alloc_external vm size h = Ret (r, h', vm') ∧
    heap_alloc_post vm h size r h' vm' ∧
    (∀ c, r = Some c → csize c = round_up size ∧ (PAGE_SIZE | cbase c)).
Proof.
  intros Hh Hs Hr. destruct (round_up_spec size) as [Hrd ?]. unfold heap_alloc_external.
  rewrite VMAllocator_allocate_None by lia.
  destruct (allocate_any_spec vm (round_up size)) as (r & vm' & -> & Hres); [apply Hh|done|lia|].
  simpl. destruct r as [c|e].
  - destruct Hres as (Hv' & Hg & Hcs & _). destruct (granted_chunk _ _ _ Hg) as (Hck & Hcb & Hcz).
    destruct (heap_ok_granted vm vm' h c) as [Hh' Hnew]; [done..|].
    assert (addable PAGE_SIZE (external_chunks h) c) as Had.
    { split; [apply Hh|done..|]. intros a ?. by apply Hnew. }
    destruct (ChunkMap_insert_addable _ _ _ Had) as (-> & Hme & Hce). simpl.
    eexists (Some c), _, vm'. split; [done|]. split; [|intros ? [= <-]; by split].
    split; [|split_and!; [done|lia|by apply page_min| | | |]].
    + destruct Hh' as [Hvm Hu Hsb Hun Hex Hdis Hexd Hov Hev Hback]. split; simpl; try done.
      * intros a [?|?]%Hce; [by apply Hexd|by apply Hnew].
      * intros a [?|?]%Hce; [by apply Hev|by apply Hnew].
    + intros b n. unfold heap_live. simpl. pose proof (addable_fresh _ _ _ Had) as HN.
      rewrite lookup_insert_Some. split; [naive_solver|].
      intros [[He|?]|[-> ->]]; [|by right|by left; left]. left. right. split; [congruence|done].
    + intros b n a Hl Ha Hc. destruct (Hnew a Hc) as (Hn1 & Hn2 & _).
      destruct Hl as [?|?]; [apply Hn2; by exists b, n|apply Hn1; left; by exists b, n].
    + intros a ?. apply (granted_used _ _ _ Hg). by left.
    + intros a (Hu & Ho & He). assert (¬ chunk_in c a) as Hn.
      { intros Hf%(granted_free _ _ _ Hg). by apply (vm_ok_disjoint _ (heap_vm _ _ Hh) a). }
      split; [|done]. split_and!; [apply (granted_used _ _ _ Hg); by left|done|]. simpl. rewrite Hce. tauto.
  - destruct Hres as (-> & _ & Hn). exists None, h, vm. split; [done|]. split; [|done].
    split; [done|]. split_and!; [done..|]. intros [b Hb]. by apply (Hn b).
Qed.

(** Taking a block that [SizeBucketed_allocate] cut off is an allocation. *)
Lemma heap_hand_out_post vm0 h0 vm h u' size req c s :
  heap_ok vm h → allocated (unused_chunks h) u' size c s → sb_ok MIN_CHUNK_SIZE u' →
  (MIN_CHUNK_SIZE | size) → 0 < size → req ≤ size →
  used_chunks h = used_chunks h0 → external_chunks h = external_chunks h0 →
  (∀ a, vm_used vm0 a → vm_used vm a) → (∀ a, heap_static vm0 h0 a → heap_static vm h a) →
  ∃ h', heap_hand_out (Some c) u' h vm = Ret (Some c, h', vm) ∧
    heap_alloc_post vm0 h0 req (Some c) h' vm.
Proof.
  intros Hh Ha Hsb Hg Hpos Hreq Eu Ee Hvm Hst.
  destruct (heap_hand_out_spec vm h u' size c s) as (h' & -> & Hh' & Eu' & Ee' & Hc & Hcb & Hfree & Hown); [done..|].
  exists h'. split; [done|]. split; [done|].
  assert (used_chunks h !! cbase c = None) as HN.
  { apply (addable_fresh MIN_CHUNK_SIZE). destruct Ha as (? & _). split; [apply Hh|done|done|congruence|].
    intros a ?%Hfree ?. by eapply (heap_disjoint _ _ Hh). }
  split_and!; [done|destruct Ha; lia|done| | |done|].
  - intros b n. unfold heap_live. rewrite Eu', Ee', <- Ee, <- Eu, lookup_insert_Some. split; [naive_solver|].
    intros [[?|?]|[-> ->]]; [by left|right; right; split; [congruence|done]|by right; left].
  - intros b n a Hl Hab Hin%Hfree. unfold heap_live in Hl. rewrite <- Ee, <- Eu in Hl. destruct Hl as [?|?].
    + eapply (heap_ext_disjoint _ _ Hh a); [by exists b, n|by right].
    + eapply (heap_disjoint _ _ Hh a); [by exists b, n|done].
  - intros a (Hu & Ho & He)%Hst. split; [split_and!; [done|by rewrite Hown|by rewrite Ee']|].
    intros ?%Hfree. apply Ho. by right.
Qed.

Lemma heap_alloc_small vm h size req run :
  heap_ok vm h → (MIN_CHUNK_SIZE | size) → MIN_CHUNK_SIZE ≤ size ≤ HEAP_CHUNK_SIZE → req ≤ size →
  run =
    ('(r, unused') ← SizeBucketed_allocate size (unused_chunks h);
     match r with
     | Some c => heap_hand_out (Some c) unused' h vm
     | None =>
         '(self1, vm1) ← heap_grow vm (mkHeap (used_chunks h) unused' (external_chunks h)
                                         (backing_chunks h));
         '(r2, unused2) ← SizeBucketed_allocate size (unused_chunks self1);
         heap_hand_out r2 unused2 self1 vm1
     end) →
  (∃ c h' vm', run = Ret (Some c, h', vm') ∧ heap_alloc_post vm h req (Some c) h' vm') ∨
  (run = Panic ∧ ¬ vm_has_room vm HEAP_CHUNK_SIZE).
Proof.
  intros Hh Hg Hs Hreq ->. unfold MIN_CHUNK_SIZE, HEAP_CHUNK_SIZE in Hs.
  destruct (SizeBucketed_allocate_spec MIN_CHUNK_SIZE (unused_chunks h) size) as (r & u & -> & Hr);
    [apply Hh|apply Hh|done|unfold MIN_CHUNK_SIZE, U32_MOD; lia|]. simpl. destruct r as [c|].
  { left. destruct Hr as (Hu & s & Ha & _).
    destruct (heap_hand_out_post vm h vm h u size req c s) as (h' & E & Hp); try done; [lia|].
    by exists c, h', vm. }
  destruct Hr as [-> _]. replace (mkHeap _ _ _ _) with h by (by destruct h).
  destruct (heap_grow_spec vm h Hh) as [(h1 & vm1 & -> & Hh1 & Eu & Ee & (b & Hb) & Hvm & Hst)|[-> ?]]; [left|by right].
  simpl. destruct (SizeBucketed_allocate_spec MIN_CHUNK_SIZE (unused_chunks h1) size) as (r & u1 & -> & Hr);
    [apply Hh1|apply Hh1|done|unfold MIN_CHUNK_SIZE, U32_MOD; lia|]. simpl. destruct r as [c|].
  - destruct Hr as (Hu & s & Ha & _).
    destruct (heap_hand_out_post vm h vm1 h1 u1 size req c s) as (h' & E & Hp); try done; [lia|].
    by exists c, h', vm1.
  - destruct Hr as [_ Hr]. apply Hr in Hb. unfold HEAP_CHUNK_SIZE in Hb. lia.
Qed.

Lemma heap_alloc_spec vm h size :
  heap_ok vm h → 0 ≤ size → size + 2 * PAGE_SIZE < U32_MOD →
  (∃ r h' vm', heap_alloc vm size h = Ret (r, h', vm') ∧
     heap_alloc_post vm h size r h' vm' ∧ (size ≤ 15344 → r ≠ None)) ∨
  (heap_alloc vm size h = Panic ∧ size ≤ HEAP_ALLOCATION_THRESHOLD ∧ ¬ vm_has_room vm HEAP_CHUNK_SIZE).
Proof.
  intros Hh Hs Hlt. unfold PAGE_SIZE, U32_MOD in Hlt. unfold heap_alloc.
  destruct (heap_align_spec (Z.max size MIN_CHUNK_SIZE)) as (n & -> & Hg & Hn);
    [lia|unfold MIN_CHUNK_SIZE, U32_MOD; lia|]. cbn [mbind outcome_bind].
  assert (n ≤ size + 15 ∨ n = 16) as Hn'.
  { destruct (Z.max_spec size MIN_CHUNK_SIZE) as [[? E]|[? E]]; rewrite E in Hn; unfold MIN_CHUNK_SIZE in *.
    - right. destruct Hg as [k ->]. lia.
    - left. lia. }
  unfold HEAP_ALLOCATION_THRESHOLD, MIN_CHUNK_SIZE in *. destruct (Z.ltb_spec (15 * 1024 - 1) n).
  - left. destruct (round_up_spec n) as [Hrd ?]. unfold PAGE_SIZE in *.
    destruct (heap_alloc_external_spec vm h n) as (r & h' & vm' & -> & Hp & _); [done|lia|unfold U32_MOD; lia|].
    exists r, h', vm'. split; [done|]. split.
    2: { intros Hsz. destruct Hn' as [?|?]; [|lia]. destruct Hg as [k ->]. lia. }
    destruct Hp as [Hok Hp]. split; [done|]. destruct r as [c|].
    + destruct Hp as (?&?&?&?). split_and!; [done|lia|done|tauto..].
    + destruct Hp as (?&?&Hnr). split_and!; [done..|]. destruct (round_up_spec size) as [Hrs ?].
      rewrite <- (round_up_between size n); [done|]. split; [lia|].
      apply page_min in Hrs as [k2 Ek2]. destruct Hg as [k1 Ek1]. unfold MIN_CHUNK_SIZE in *. lia.
  - edestruct (heap_alloc_small vm h n size) as [(c & h' & vm' & E & Hp)|[E ?]];
      [done|done|unfold MIN_CHUNK_SIZE, HEAP_CHUNK_SIZE; lia|lia|reflexivity| |]; rewrite E.
    + left. exists (Some c), h', vm'. by split_and!.
    + right. split_and!; [done|lia|done].
Qed.


(** ** Release *)

Lemma remove_adjacent_spec k x c :
  sb_ok k x → addable k (chunks x) c →
  ∃ o x' c', remove_adjacent c x = Ret (o, x') ∧
    match o with Some adjacent => Chunk_merge adjacent c | None => Ret c end = Ret c' ∧
    sb_ok k x' ∧ addable k (chunks x') c' ∧
    ∀ a, chunk_in c' a ∨ covers (chunks x') a ↔ chunk_in c a ∨ covers (chunks x) a.
Proof.
  intros Hx Hc. pose proof Hc as [Hm Hck _ _ _]. pose proof Hck as (?&?&?). unfold remove_adjacent.
  rewrite last_byte_ok by done. simpl. u32_simpl.
  replace (cbase c + csize c - 1 + 1) with (cend c) by (unfold cend; lia).
  assert (∀ b n, chunks x !! b = Some n → b = cend c ∨ b + n = cbase c →
    Chunk_merge (mkChunk b n) c = Ret (mkChunk (Z.min b (cbase c)) (csize c + n))) as Hmerge.
  { intros b n Hbn Hadj. rewrite merge_ok; [simpl; feq_lia|by eapply map_ok_chunk|done|].
    simpl. unfold cend in Hadj. lia. }
  destruct (chunks x !! cend c) as [n|] eqn:E.
  - destruct (sb_remove_hit k x (cend c) n) as (x' & -> & Hx' & Em); [done..|]. simpl.
    destruct (absorb_spec k _ c (cend c) n Hc E) as [Hc' Hcov]; [by left|].
    eexists _, x', _. split; [done|]. split; [apply Hmerge; [done|by left]|]. by rewrite Em.
  - rewrite sb_remove_miss by done. simpl.
    destruct (decide (chunk_end (chunks x) (cbase c))) as [(b & n & Hbn & Eb)|Hne].
    + destruct (sb_remove_with_end_hit k k x b n) as (x' & Er & Hx' & Em); [done..|]. rewrite Eb, Er.
      destruct (absorb_spec k _ c b n Hc Hbn) as [Hc' Hcov]; [by right|].
      eexists _, x', _. split; [done|]. split; [apply Hmerge; [done|by right]|]. by rewrite Em.
    + erewrite sb_remove_with_end_miss by done. by exists None, x, c.
Qed.

Lemma freed_chunk_page b n :
  chunk_ok (mkChunk b n) → (PAGE_SIZE | b) → (PAGE_SIZE | n) → freed_chunk b n = mkChunk b n.
Proof.
  intros (?&?&?) ??. simpl in *. unfold freed_chunk. rewrite page_base_id, round_up_id by (done || lia). done.
Qed.

Lemma heap_free_external vm h base n :
  heap_ok vm h → external_chunks h !! base = Some n →
  ∃ vm', VMAllocator_deallocate base n vm = Ret (mkChunk base n, vm') ∧
    heap_ok vm' (mkHeap (used_chunks h) (unused_chunks h) (delete base (external_chunks h)) (backing_chunks h)) ∧
    (∀ a, base ≤ a < base + n → vm_free vm' a).
Proof.
  intros Hh Hb. pose proof Hh as [Hvm Hu Hsb Hun Hex Hdis Hexd Hov Hev Hback].
  pose proof (map_ok_chunk _ _ Hex _ _ Hb) as Hc. destruct (map_ok_gran _ _ Hex _ _ Hb) as [Hgb Hgn].
  pose proof Hc as (?&?&?). simpl in *. pose proof (freed_chunk_page base n Hc Hgb Hgn) as Ef.
  destruct (VMAllocator_deallocate_spec vm base n) as (vm' & E & Hv' & Hu' & Hf'); [done|lia|lia|by rewrite Ef|].
  rewrite Ef in *. exists vm'. split; [done|].
  assert (∀ a, covers (external_chunks h) a → heap_own h a → False) as Hx by (intros a ??; by eapply Hexd).
  assert (∀ a, chunk_in (mkChunk base n) a → covers (external_chunks h) a) as Hin by (intros a ?; by exists base, n).
  split; [|intros a ?; apply Hf'; by right].
  assert (∀ a, covers (delete base (external_chunks h)) a ↔
     covers (external_chunks h) a ∧ ¬ chunk_in (mkChunk base n) a) as Hd.
  { intros a. by eapply covers_delete. }
  split; simpl; try done.
  - by apply map_ok_delete.
  - intros a [? _]%Hd. by apply Hexd.
  - intros a Ha. apply Hu'. split; [by apply Hov|]. intros ?%Hin. by eapply Hx.
  - intros a [? ?]%Hd. apply Hu'. split; [by apply Hev|done].
Qed.

Lemma heap_free_own vm h base n :
  heap_ok vm h → used_chunks h !! base = Some n →
  ∃ o u1 c' u', remove_adjacent (mkChunk base n) (unused_chunks h) = Ret (o, u1) ∧
    match o with Some adjacent => Chunk_merge adjacent (mkChunk base n) | None => Ret (mkChunk base n) end
      = Ret c' ∧
    SizeBucketed_insert c' u1 = Ret u' ∧
    heap_ok vm (mkHeap (delete base (used_chunks h)) u' (external_chunks h) (backing_chunks h)) ∧
    (∀ a, base ≤ a < base + n → covers (chunks u') a).
Proof.
  intros Hh Hb. pose proof Hh as [Hvm Hu Hsb Hun Hex Hdis Hexd Hov Hev Hback].
  pose proof (map_ok_chunk _ _ Hu _ _ Hb) as Hc. destruct (map_ok_gran _ _ Hu _ _ Hb) as [Hgb Hgn].
  assert (∀ a, chunk_in (mkChunk base n) a → covers (used_chunks h) a) as Hin by (intros a ?; by exists base, n).
  destruct (remove_adjacent_spec MIN_CHUNK_SIZE (unused_chunks h) (mkChunk base n))
    as (o & u1 & c' & E1 & E2 & Hu1 & Hc' & Hcov1); [done| |].
  { split; try done. intros a ?%Hin. by apply Hdis. }
  destruct (sb_insert_addable MIN_CHUNK_SIZE u1 c') as (u' & E3 & Hu' & Hm' & _ & Hcov'); [done..|].
  exists o, u1, c', u'. split_and!; [done..| |].
  2: { intros a ?. apply Hcov', or_comm, Hcov1. by left. }
  assert (∀ a, covers (chunks u') a ↔ chunk_in (mkChunk base n) a ∨ covers (chunks (unused_chunks h)) a) as Hcu.
  { intros a. specialize (Hcov1 a). rewrite Hcov'. tauto. }
  assert (∀ a, covers (delete base (used_chunks h)) a ↔
     covers (used_chunks h) a ∧ ¬ chunk_in (mkChunk base n) a) as Hd.
  { intros a. by eapply covers_delete. }
  assert (∀ a, heap_own (mkHeap (delete base (used_chunks h)) u' (external_chunks h) (backing_chunks h)) a
     ↔ heap_own h a) as Hown.
  { intros a. unfold heap_own. simpl. rewrite Hcu, Hd. specialize (Hin a).
    destruct (decide (chunk_in (mkChunk base n) a)); tauto. }
  split; simpl; try done.
  - by apply map_ok_delete.
  - intros a [? ?]%Hd [?|?]%Hcu; [done|by eapply Hdis].
  - intros a ?. rewrite Hown. by apply Hexd.
  - intros a ?%Hown. by apply Hov.
  - intros a. by rewrite Hown.
Qed.

(** [HeapAllocator::free] never panics.  At the base of a live allocation
    it returns that allocation's size, ends exactly that allocation's life and
    makes all its bytes allocatable again, in the heap or in the virtual
    memory allocator; at any other address it returns 0 and changes nothing. *)
Lemma heap_free_spec vm h base :
  heap_ok vm h →
  ∃ n h' vm', heap_free vm base h = Ret (n, h', vm') ∧ heap_ok vm' h' ∧
    ((heap_live h base n ∧ 0 < n ∧
      (∀ b m, heap_live h' b m ↔ heap_live h b m ∧ b ≠ base) ∧
      (∀ a, base ≤ a < base + n → covers (chunks (unused_chunks h')) a ∨ vm_free vm' a)) ∨
     (n = 0 ∧ h' = h ∧ vm' = vm ∧ ∀ m, ¬ heap_live h base m)).
Proof.
  intros Hh. unfold heap_free, ChunkMap_remove_with_base.
  destruct (external_chunks h !! base) as [n|] eqn:Ee; simpl.
  - destruct (heap_free_external vm h base n) as (vm' & -> & Hh' & Hfree); [done..|]. simpl.
    eexists n, _, vm'. split; [done|]. split; [done|]. left. split_and!; [by left| | |by auto].
    { by apply (map_ok_chunk _ _ (heap_external _ _ Hh) _ _ Ee). }
    intros b m. unfold heap_live. simpl. rewrite lookup_delete_Some. split.
    + intros [[? ?]|Hb]; [by auto|]. split; [by right|]. intros ->.
      destruct (map_ok_chunk _ _ (heap_external _ _ Hh) _ _ Ee) as (?&?&?).
      destruct (map_ok_chunk _ _ (heap_used _ _ Hh) _ _ Hb) as (?&?&?). simpl in *.
      eapply (heap_ext_disjoint _ _ Hh base); [exists base, n; split; [done|lia]|].
      left. exists base, m. split; [done|lia].
    + intros [[?|?] ?]; [left; by split|by right].
  - destruct (used_chunks h !! base) as [n|] eqn:Eu; simpl.
    + destruct (heap_free_own vm h base n) as (o & u1 & c' & u' & -> & E2 & E3 & Hh' & Hfree); [done..|]. simpl.
      rewrite E2. simpl. rewrite E3. simpl. eexists n, _, vm. split; [done|]. split; [done|]. left.
      split_and!; [by right| | |by auto]. { by apply (map_ok_chunk _ _ (heap_used _ _ Hh) _ _ Eu). }
      intros b m. unfold heap_live. simpl. rewrite lookup_delete_Some. naive_solver congruence.
    + eexists 0, h, vm. split_and!; [done..|]. right. split_and!; [done..|].
      intros m [?|?]; congruence.
Qed.

Lemma heap_new_ok vm size :
  vm_ok vm → 0 ≤ size → round_up size < U32_MOD → vm_has_room vm (round_up size) →
  ∃ h vm', HeapAllocator_new vm size = Ret (h, vm') ∧ heap_ok vm' h ∧ ∀ b n, ¬ heap_live h b n.
Proof.
  intros Hv Hs Hlt [b Hroom]. unfold HeapAllocator_new.
  assert (heap_ok vm (mkHeap ∅ (SizeBucketed_new MIN_CHUNK_SIZE) ∅ [])) as H0.
  { split; simpl; try done; try apply map_ok_empty.
    - by apply sb_new_ok.
    - by intros a ?%covers_empty.
    - by intros a ?%covers_empty.
    - by intros a [?%covers_empty|?%covers_empty].
    - by intros a ?%covers_empty.
    - intros a. split; [by intros [?%covers_empty|?%covers_empty]|]. by intros (c & ?%elem_of_nil & _). }
  destruct (Z.ltb_spec 0 size).
  - rewrite VMAllocator_allocate_None by done. destruct (round_up_spec size) as [Hd ?].
    destruct (allocate_any_spec vm (round_up size)) as (r & vm' & -> & Hr); [done|done|lia|]. simpl.
    destruct r as [c|]; [|destruct Hr as (_ & _ & Hn); exfalso; by apply (Hn b)].
    destruct Hr as (Hv' & Hg & Hcs & _). destruct (granted_chunk _ _ _ Hg) as (Hck & Hcb & Hcz).
    destruct (heap_ok_granted _ _ _ _ H0 Hv' Hg) as [H0' Hnew]. simpl.
    destruct (sb_insert_addable MIN_CHUNK_SIZE (SizeBucketed_new MIN_CHUNK_SIZE) c) as (x & -> & Hx & Hm & _ & Hcov).
    { by apply sb_new_ok. }
    { split; [apply map_ok_empty|done|by apply page_min..|]. intros a _. apply covers_empty. }
    simpl. eexists _, vm'. split; [done|]. split; [by apply (heap_add_backing _ _ _ _ H0')|].
    intros b' n [Hl|Hl]; simpl in Hl; by rewrite lookup_empty in Hl.
  - eexists _, vm. split; [done|]. split; [done|]. intros b' n [Hl|Hl]; simpl in Hl; by rewrite lookup_empty in Hl.
Qed.

(** The default heap of a fresh guest memory. *)
Lemma heap_initial_ok :
  ∃ v h vm, VMAllocator_new 0 MAIN_THREAD_STACK_LOW_END = Ret v ∧
    HeapAllocator_new v HEAP_CHUNK_SIZE = Ret (h, vm) ∧ heap_ok vm h.
Proof.
  destruct vm_initial_ok as (v & E & Hv & Hf).
  destruct (heap_new_ok v HEAP_CHUNK_SIZE) as (h & vm & E' & Hh & _); [done..| |by exists v, h, vm].
  exists 0. intros a Ha. apply Hf. unfold HEAP_CHUNK_SIZE, MAIN_THREAD_STACK_LOW_END in *.
  change (round_up 2097152) with 2097152 in Ha. lia.
Qed.

Lemma heap_valloc_spec vm h size :
  heap_ok vm h → 0 < size → round_up size < U32_MOD →
  ∃ r h' vm', heap_valloc vm size h = Ret (r, h', vm') ∧ heap_alloc_post vm h size r h' vm' ∧
    ∀ c, r = Some c → csize c = round_up size ∧ (PAGE_SIZE | cbase c).
Proof.
  intros Hh Hs Hlt. destruct (round_up_spec size) as [Hd ?]. unfold heap_valloc.
  destruct (Z.ltb_spec 0 size); [|lia]. simpl.
  destruct (next_multiple_of_round_up size) as [->|]; [lia| |lia]. u32_simpl.
  destruct (heap_alloc_external_spec vm h (round_up size)) as (r & h' & vm' & -> & [Hok Hp] & Hr);
    [done|lia|by rewrite round_up_id|]. rewrite round_up_id in * by done.
  exists r, h', vm'. split; [done|]. split; [|done]. split; [done|].
  destruct r as [c|]; [|by rewrite round_up_id in Hp].
  destruct Hp as (?&?&?&?). split_and!; [done|lia|done|tauto..].
Qed.

(** ** Programs of allocations *)

(** One call into a heap, with arguments that stay clear of the top of the
    address space. *)
Inductive heap_step : VMAllocator * HeapAllocator → VMAllocator * HeapAllocator → Prop :=
| step_alloc vm h size r h' vm' :
    0 ≤ size → size + 2 * PAGE_SIZE < U32_MOD →
    heap_alloc vm size h = Ret (r, h', vm') → heap_step (vm, h) (vm', h')
| step_valloc vm h size r h' vm' :
    0 < size → round_up size < U32_MOD →
    heap_valloc vm size h = Ret (r, h', vm') → heap_step (vm, h) (vm', h')
| step_free vm h base n h' vm' :
    heap_free vm base h = Ret (n, h', vm') → heap_step (vm, h) (vm', h').

Lemma heap_step_ok s s' : heap_step s s' → heap_ok s.1 s.2 → heap_ok s'.1 s'.2.
Proof.
  intros [vm h size r h' vm' ? ? E|vm h size r h' vm' ? ? E|vm h base n h' vm' E] Hh; simpl in *.
  - destruct (heap_alloc_spec vm h size) as [(r0 & h0 & vm0 & E0 & [? _] & _)|[E0 _]]; [done..| |]; congruence.
  - destruct (heap_valloc_spec vm h size) as (r0 & h0 & vm0 & E0 & [? _] & _); [done..|]. congruence.
  - destruct (heap_free_spec vm h base) as (n0 & h0 & vm0 & E0 & ? & _); [done|]. congruence.
Qed.

(** C1: in every state that a program of [alloc], [valloc] and [free] calls can
    reach from the default heap of a fresh guest memory, two live allocations
    that share a byte are the same allocation, and every live allocation lies
    in memory that the virtual memory allocator has marked used. *)
Theorem heap_reachable_safe v h0 vm0 vm h :
  VMAllocator_new 0 MAIN_THREAD_STACK_LOW_END = Ret v →
  HeapAllocator_new v HEAP_CHUNK_SIZE = Ret (h0, vm0) →
  rtc heap_step (vm0, h0) (vm, h) →
  (∀ b1 n1 b2 n2 a, heap_live h b1 n1 → heap_live h b2 n2 →
     b1 ≤ a < b1 + n1 → b2 ≤ a < b2 + n2 → b1 = b2 ∧ n1 = n2) ∧
  (∀ b n a, heap_live h b n → b ≤ a < b + n → vm_used vm a ∧ ¬ vm_free vm a).
Proof.
  intros Ev Eh Hsteps. destruct heap_initial_ok as (v' & h' & vm' & Ev' & Eh' & H0).
  rewrite Ev in Ev'. simplify_eq. rewrite Eh in Eh'. simplify_eq.
  assert (heap_ok vm h) as Hh.
  { change (heap_ok (vm, h).1 (vm, h).2). revert H0. change (heap_ok vm' h') with (heap_ok (vm', h').1 (vm', h').2).
    induction Hsteps as [|s1 s2 s3 Hs _ IH]; [done|]. intros ?. by apply IH, (heap_step_ok s1). }
  split; [intros *; by apply (heap_live_disjoint vm)|].
  intros b n a Hl Ha. assert (vm_used vm a) as Hu.
  { destruct Hl; [apply (heap_ext_vm _ _ Hh)|apply (heap_own_vm _ _ Hh); left]; by exists b, n. }
  split; [done|]. by apply (vm_ok_disjoint _ (heap_vm _ _ Hh)).
Qed.

(** The first block of the default heap, and the state it is taken from. *)
Lemma heap_reachable_safe_witness :
  ∃ v h0 vm0 vm h, VMAllocator_new 0 MAIN_THREAD_STACK_LOW_END = Ret v ∧
    HeapAllocator_new v HEAP_CHUNK_SIZE = Ret (h0, vm0) ∧ rtc heap_step (vm0, h0) (vm, h) ∧
    used_chunks h = {[ 0 := 112 ]} ∧
    (∀ b n a, heap_live h b n → b ≤ a < b + n → vm_used vm a ∧ ¬ vm_free vm a).
Proof.
  destruct (VMAllocator_new 0 MAIN_THREAD_STACK_LOW_END) as [v|] eqn:Ev; [|vm_compute in Ev; discriminate].
  destruct (HeapAllocator_new v HEAP_CHUNK_SIZE) as [[h0 vm0]|] eqn:Eh;
    [|vm_compute in Ev; injection Ev as <-; vm_compute in Eh; discriminate].
  destruct (heap_alloc vm0 100 h0) as [[[r h] vm]|] eqn:Ea;
    [|vm_compute in Ev; injection Ev as <-; vm_compute in Eh; injection Eh as <- <-; vm_compute in Ea; discriminate].
  assert (rtc heap_step (vm0, h0) (vm, h)) as Hr.
  { apply rtc_once. eapply step_alloc; [..|exact Ea]; [lia|vm_compute; reflexivity]. }
  destruct (heap_reachable_safe v h0 vm0 vm h Ev Eh Hr) as [_ Hsafe].
  exists v, h0, vm0, vm, h. split_and!; [done..| |done].
  clear Hr Hsafe. vm_compute in Ev. injection Ev as <-. vm_compute in Eh. injection Eh as <- <-.
  vm_compute in Ea. injection Ea as <- <- <-. reflexivity.
Defined.


(** A block that [HeapAllocator::alloc] handed out is known to
    [find_allocated_size] under its base with its full size, and
    [HeapAllocator::free] of that base returns the same size and leaves exactly
    the allocations that were live before: allocation and release are inverse
    on the set of live allocations. *)
Theorem heap_alloc_free_roundtrip vm h size c h1 vm1 :
  heap_ok vm h → 0 ≤ size → size + 2 * PAGE_SIZE < U32_MOD →
  heap_alloc vm size h = Ret (Some c, h1, vm1) →
  find_allocated_size (cbase c) h1 = Ret (csize c) ∧ size ≤ csize c ∧
  ∃ h2 vm2, heap_free vm1 (cbase c) h1 = Ret (csize c, h2, vm2) ∧ heap_ok vm2 h2 ∧
    (∀ b n, heap_live h2 b n ↔ heap_live h b n) ∧
    (∀ a, chunk_in c a → covers (chunks (unused_chunks h2)) a ∨ vm_free vm2 a).
Proof.
  intros Hh Hs Hlt E.
  destruct (heap_alloc_spec vm h size) as [(r & h' & vm' & E' & [Hok Hp] & _)|[? _]]; [done..| |congruence].
  rewrite E in E'. simplify_eq. destruct Hp as (Hck & Hsz & Hg & Hlive & Hfresh & _).
  destruct Hck as (?&?&?).
  assert (heap_live h' (cbase c) (csize c)) as Hl by (apply Hlive; by right).
  assert (∀ n, ¬ heap_live h (cbase c) n) as Hnew.
  { intros n Hn. assert (heap_live h' (cbase c) n) as Hn' by (apply Hlive; by left).
    assert (0 < n) by (destruct Hn' as [He|He];
      [by apply (map_ok_chunk _ _ (heap_external _ _ Hok) _ _ He)|by apply (map_ok_chunk _ _ (heap_used _ _ Hok) _ _ He)]).
    apply (Hfresh (cbase c) n (cbase c)); [done|lia|unfold chunk_in; lia]. }
  destruct (heap_free_spec vm' h' (cbase c)) as (n & h2 & vm2 & Ef & Hh2 & [(Hn & ? & Hl2 & Hfree)|(_ & _ & _ & Hno)]);
    [done| |by apply Hno in Hl].
  assert (n = csize c) as ->.
  { eapply (heap_live_disjoint vm' h' (cbase c) n (cbase c) (csize c) (cbase c)); done || lia. }
  split_and!; [|done|].
  - unfold find_allocated_size, ChunkMap_get_size_with_base. destruct (external_chunks h' !! cbase c) as [n|] eqn:Ee.
    + destruct (heap_live_disjoint vm' h' (cbase c) n (cbase c) (csize c) (cbase c)) as [_ ->];
        [done|by left|done| |lia|done].
      pose proof (map_ok_chunk _ _ (heap_external _ _ Hok) _ _ Ee) as (?&?&?). simpl in *. lia.
    + destruct Hl as [?| ->]; [congruence|done].
  - exists h2, vm2. split_and!; [done..| |done]. intros b n. rewrite Hl2, Hlive. split.
    + intros [[?|[-> _]] ?]; done.
    + intros Hb. split; [by left|]. intros ->. by eapply Hnew.
Qed.

Lemma heap_alloc_free_roundtrip_witness :
  ∃ vm h c h1 vm1, heap_ok vm h ∧ heap_alloc vm 100 h = Ret (Some c, h1, vm1) ∧
    find_allocated_size (cbase c) h1 = Ret (csize c).
Proof.
  destruct heap_initial_ok as (v & h & vm & Ev & Eh & Hh).
  destruct (heap_alloc vm 100 h) as [[[[c|] h1] vm1]|] eqn:Ea;
    [|vm_compute in Ev; injection Ev as <-; vm_compute in Eh; injection Eh as <- <-; vm_compute in Ea; discriminate..].
  exists vm, h, c, h1, vm1. split; [exact Hh|]. split; [exact Ea|].
  apply (heap_alloc_free_roundtrip vm h 100 c h1 vm1 Hh); [lia|vm_compute; reflexivity|exact Ea].
Defined.

(** [HeapAllocator::free] never panics.  At the base of a live allocation
    it returns that allocation's size, ends exactly that allocation's life and
    makes all its bytes allocatable again, in the heap or in the virtual
    memory allocator; at any other address it returns 0 and changes nothing. *)
Theorem heap_free_correct vm h base :
  heap_ok vm h →
  ∃ n h' vm', heap_free vm base h = Ret (n, h', vm') ∧ heap_ok vm' h' ∧
    ((heap_live h base n ∧ 0 < n ∧
      (∀ b m, heap_live h' b m ↔ heap_live h b m ∧ b ≠ base) ∧
      (∀ a, base ≤ a < base + n → covers (chunks (unused_chunks h')) a ∨ vm_free vm' a)) ∨
     (n = 0 ∧ h' = h ∧ vm' = vm ∧ ∀ m, ¬ heap_live h base m)).
Proof. apply heap_free_spec. Qed.

Lemma heap_free_correct_witness :
  ∃ vm h n h' vm', heap_ok vm h ∧ heap_free vm 4096 h = Ret (n, h', vm') ∧ heap_ok vm' h'.
Proof.
  destruct heap_initial_ok as (_ & h & vm & _ & _ & Hh).
  destruct (heap_free_correct vm h 4096 Hh) as (n & h' & vm' & E & Hh' & _).
  exists vm, h, n, h', vm'. auto.
Defined.
