(* ===== verification/GuestMem.v ===== *)
(** * Guest memory ([mem.rs])

    [Mem] owns the bytes of the 32-bit guest address space and the allocators.
    A byte that was never written is zero, so the array of 2^32 bytes is a
    finite map with default 0, and [fill(0)] removes a range from it.  Values
    are read and written as their little-endian bytes. *)

From S2P Require Import Prelude ChunkMap SizeBucketed VMAllocator HeapAllocator.

Record Mem := mkMem {
  bytes : gmap Z Z;
  null_segment_size : Z;
  heap_allocator : option HeapAllocator;
  vm_allocator : VMAllocator;
  zero_memory_on_free : bool;
  (** [JC3_WATCH_ADDR], a static of the module: 0 when off. *)
  jc3_watch_addr : Z
}.

Definition set_bytes (b : gmap Z Z) (m : Mem) : Mem :=
  mkMem b (null_segment_size m) (heap_allocator m) (vm_allocator m) (zero_memory_on_free m) (jc3_watch_addr m).
Definition set_allocators (h : option HeapAllocator) (v : VMAllocator) (m : Mem) : Mem :=
  mkMem (bytes m) (null_segment_size m) h v (zero_memory_on_free m) (jc3_watch_addr m).

(** ** Bytes *)

Definition byte_at (m : Mem) (a : Z) : Z := default 0 (bytes m !! a).

(** Addresses [a], [a + 1], ..., [a + n - 1]. *)
Definition addr_range (a n : Z) : list Z := seqZ a n.

(** The bounds check of [&self.bytes()[ptr..][..count]]. *)
Definition in_bounds (ptr count : Z) : bool := ptr + count <=? U32_MOD.

(** [bytes_at]: the null-segment check only logs. *)
Definition bytes_at (ptr count : Z) (m : Mem) : outcome (list Z) :=
  rassert (in_bounds ptr count);;
  Ret (byte_at m <$> addr_range ptr count).

Definition unchecked_bytes_at (ptr count : Z) (m : Mem) : outcome (list Z) :=
  rassert (in_bounds ptr count);;
  Ret (byte_at m <$> addr_range ptr count).

Definition get_bytes_fallible (addr count : Z) (m : Mem) : option (list Z) :=
  if addr <? null_segment_size m then None
  else if in_bounds addr count then Some (byte_at m <$> addr_range addr count) else None.

(** Store the bytes [l] from address [a] on. *)
Fixpoint store (a : Z) (l : list Z) (b : gmap Z Z) : gmap Z Z :=
  match l with
  | [] => b
  | x :: l' => store (a + 1) l' (<[a := x]> b)
  end.

(** [self.bytes_at_mut(ptr, count).copy_from_slice(l)]. *)
Definition bytes_at_mut_copy (ptr count : Z) (l : list Z) (m : Mem) : outcome Mem :=
  rassert (in_bounds ptr count);;
  rassert (Z.of_nat (length l) =? count);;
  Ret (set_bytes (store ptr l (bytes m)) m).

(** [self.bytes_at_mut(ptr, count).fill(0)]. *)
Definition bytes_at_mut_zero (ptr count : Z) (m : Mem) : outcome Mem :=
  rassert (in_bounds ptr count);;
  Ret (set_bytes (filter (λ p, ¬ (ptr ≤ p.1 < ptr + count)) (bytes m)) m).

Definition get_bytes_fallible_mut_copy (addr count : Z) (l : list Z) (m : Mem) : option Mem :=
  if addr <? null_segment_size m then None
  else if in_bounds addr count then Some (set_bytes (store addr l (bytes m)) m) else None.

(** ** Pointers *)

(** [Ptr + n] and [Ptr - n] for elements of [size] bytes. *)
Definition ptr_add (size ptr other : Z) : outcome Z :=
  rassert (negb (size =? 0));;
  off ← u32 (other * size);
  u32 (ptr + off).
Definition ptr_sub (size ptr other : Z) : outcome Z :=
  rassert (negb (size =? 0));;
  off ← u32 (other * size);
  u32 (ptr - off).

(** [ptr_at]: the bytes of [count] elements of [size] bytes. *)
Definition ptr_at (size ptr count : Z) (m : Mem) : outcome (list Z) :=
  n ← u32 (count * size);
  bytes_at ptr n m.

(** [read::<T>] and [write::<T>] for a [T] of [size] bytes, at the level of
    bytes. *)
Definition mem_read (size ptr : Z) (m : Mem) : outcome (list Z) := ptr_at size ptr 1 m.

Definition mem_write (size ptr : Z) (value : list Z) (m : Mem) : outcome Mem :=
  rassert (0 <? size);;
  (if negb (jc3_watch_addr m =? 0) && (ptr <=? jc3_watch_addr m)
   then e ← u32 (ptr + size); Ret () else Ret ());;
  bytes_at_mut_copy ptr size value m.

(** Little-endian bytes of an [n]-byte unsigned integer. *)
Fixpoint le_bytes (n : nat) (v : Z) : list Z :=
  match n with
  | O => []
  | S n' => v mod 256 :: le_bytes n' (v / 256)
  end.
Fixpoint from_le_bytes (l : list Z) : Z :=
  match l with
  | [] => 0
  | x :: l' => x + 256 * from_le_bytes l'
  end.

Definition read_u (n : nat) (ptr : Z) (m : Mem) : outcome Z :=
  l ← mem_read (Z.of_nat n) ptr m; Ret (from_le_bytes l).
Definition write_u (n : nat) (ptr v : Z) (m : Mem) : outcome Mem :=
  mem_write (Z.of_nat n) ptr (le_bytes n v) m.

Definition read_u8 := read_u 1.
Definition read_u32 := read_u 4.
Definition read_u64 := read_u 8.
Definition write_u8 := write_u 1.
Definition write_u32 := write_u 4.
Definition write_u64 := write_u 8.

(** ** Blocks *)

(** [memmove]: [copy_within] copies as if through a temporary. *)
Definition memmove (dest src size : Z) (m : Mem) : outcome Mem :=
  rassert (in_bounds src size);;
  rassert (in_bounds dest size);;
  Ret (set_bytes (store dest (byte_at m <$> addr_range src size) (bytes m)) m).

(** ** Allocation *)

(** [allocators_mut]: the heap to use (the default heap, which the first use
    creates) and the virtual memory allocator. *)
Definition allocators_mut (heap : option HeapAllocator) (m : Mem)
    : outcome (HeapAllocator * Mem) :=
  match heap with
  | Some h => Ret (h, m)
  | None =>
      match heap_allocator m with
      | Some h => Ret (h, m)
      | None =>
          '(h, v) ← HeapAllocator_new (vm_allocator m) HEAP_CHUNK_SIZE;
          Ret (h, set_allocators (Some h) v m)
      end
  end.

(** The heap reference written back: to the caller's heap or to [self]. *)
Definition put_heap (heap : option HeapAllocator) (h : HeapAllocator) (v : VMAllocator) (m : Mem)
    : option HeapAllocator * Mem :=
  match heap with
  | Some _ => (Some h, set_allocators (heap_allocator m) v m)
  | None => (None, set_allocators (Some h) v m)
  end.

Definition alloc_in_heap (heap : option HeapAllocator) (size : Z) (m : Mem)
    : outcome (Z * option HeapAllocator * Mem) :=
  '(h, m) ← allocators_mut heap m;
  '(r, h', v') ← heap_alloc (vm_allocator m) size h;
  alloc ← unwrap r;
  let '(heap', m') := put_heap heap h' v' m in
  m'' ← (if negb (zero_memory_on_free m') && (csize alloc <=? HEAP_ALLOCATION_THRESHOLD)
         then bytes_at_mut_zero (cbase alloc) size m' else Ret m');
  Ret (cbase alloc, heap', m'').

Definition mem_alloc (size : Z) (m : Mem) : outcome (Z * Mem) :=
  '(p, _, m') ← alloc_in_heap None size m; Ret (p, m').

Definition vm_alloc (address : option Z) (size : Z) (m : Mem)
    : outcome (result Z VMAllocError * Mem) :=
  '(r, v') ← VMAllocator_allocate address size (vm_allocator m);
  let m1 := set_allocators (heap_allocator m) v' m in
  match r with
  | Err e => Ret (Err e, m1)
  | Ok allocation =>
      m2 ← bytes_at_mut_zero (cbase allocation) (csize allocation) m1;
      Ret (Ok (cbase allocation), m2)
  end.

Definition calloc (size : Z) (m : Mem) : outcome (Z * Mem) :=
  '(p, m') ← mem_alloc size m;
  m'' ← bytes_at_mut_zero p size m';
  Ret (p, m'').

Definition mem_valloc (size : Z) (m : Mem) : outcome (Z * Mem) :=
  '(h, m) ← allocators_mut None m;
  '(r, h', v') ← heap_valloc (vm_allocator m) size h;
  alloc ← unwrap r;
  rassert (is_multiple_of (cbase alloc) PAGE_SIZE);;
  rassert (is_multiple_of (csize alloc) PAGE_SIZE);;
  m'' ← bytes_at_mut_zero (cbase alloc) (csize alloc) (set_allocators (Some h') v' m);
  Ret (cbase alloc, m'').

Definition malloc_size_in_heap (heap : option HeapAllocator) (ptr : Z) (m : Mem)
    : outcome (Z * Mem) :=
  '(h, m') ← allocators_mut heap m;
  n ← find_allocated_size ptr h;
  Ret (n, m').

Definition free_in_heap (heap : option HeapAllocator) (ptr : Z) (m : Mem)
    : outcome (Z * option HeapAllocator * Mem) :=
  '(h, m) ← allocators_mut heap m;
  '(size, h', v') ← heap_free (vm_allocator m) ptr h;
  let '(heap', m') := put_heap heap h' v' m in
  m'' ← (if (HEAP_ALLOCATION_THRESHOLD <? size) || zero_memory_on_free m'
         then bytes_at_mut_zero ptr size m' else Ret m');
  Ret (size, heap', m'').

Definition mem_free (ptr : Z) (m : Mem) : outcome (Z * Mem) :=
  '(n, _, m') ← free_in_heap None ptr m; Ret (n, m').

Definition realloc_in_heap (heap : option HeapAllocator) (old_ptr size : Z) (m : Mem)
    : outcome (Z * option HeapAllocator * Mem) :=
  if old_ptr =? 0 then alloc_in_heap heap size m
  else
    '(old_size, m) ← malloc_size_in_heap heap old_ptr m;
    if size <=? old_size then Ret (old_ptr, heap, m)
    else
      '(new_ptr, heap, m) ← alloc_in_heap heap size m;
      m ← memmove new_ptr old_ptr old_size m;
      '(_, heap, m) ← free_in_heap heap old_ptr m;
      Ret (new_ptr, heap, m).

Definition vm_dealloc (ptr size : Z) (m : Mem) : outcome Mem :=
  '(freed, v') ← VMAllocator_deallocate ptr size (vm_allocator m);
  bytes_at_mut_zero (cbase freed) (csize freed) (set_allocators (heap_allocator m) v' m).

Definition reserve (base size : Z) (m : Mem) : outcome Mem :=
  '(r, v') ← VMAllocator_allocate (Some base) size (vm_allocator m);
  _ ← expect_ok r;
  Ret (set_allocators (heap_allocator m) v' m).

Definition set_null_segment_size (new_size : Z) (m : Mem) : outcome Mem :=
  rassert (null_segment_size m =? 0);;
  rassert (is_multiple_of new_size PAGE_SIZE);;
  '(r, v') ← VMAllocator_allocate (Some 0) new_size (vm_allocator m);
  _ ← expect_ok r;
  Ret (mkMem (bytes m) new_size (heap_allocator m) v' (zero_memory_on_free m) (jc3_watch_addr m)).

Definition Mem_new : outcome Mem :=
  v ← VMAllocator_new 0 MAIN_THREAD_STACK_LOW_END;
  Ret (mkMem ∅ 0 None v true 0).

Definition create_heap (size : Z) (m : Mem) : outcome (HeapAllocator * Mem) :=
  '(h, v') ← HeapAllocator_new (vm_allocator m) size;
  Ret (h, set_allocators (heap_allocator m) v' m).

Definition destroy_heap (h : HeapAllocator) (m : Mem) : outcome Mem :=
  for_each (λ c m, vm_dealloc (cbase c) (csize c) m) (into_vm_chunks h) m.

(** ** C strings *)

Definition alloc_and_write (value : list Z) (m : Mem) : outcome (Z * Mem) :=
  let size := Z.of_nat (length value) in
  '(ptr, m') ← mem_alloc size m;
  m'' ← mem_write size ptr value m';
  Ret (ptr, m'').

Definition alloc_and_write_cstr (str_bytes : list Z) (m : Mem) : outcome (Z * Mem) :=
  len ← u32 (Z.of_nat (length str_bytes));
  n ← u32 (len + 1);
  '(ptr, m) ← mem_alloc n m;
  m ← bytes_at_mut_copy ptr len str_bytes m;
  e ← ptr_add 1 ptr len;
  m ← write_u8 e 0 m;
  Ret (ptr, m).

(** Loop of [cstr_at]: the length up to the terminator.  The address of the
    byte that is read is at most 2^32 - 1, so 2^32 iterations are enough. *)
Definition cstr_len_body (ptr : Z) (m : Mem) (len : Z) : outcome (Z + Z) :=
  p ← ptr_add 1 ptr len;
  c ← read_u8 p m;
  if c =? 0 then Ret (inr len) else len' ← u32 (len + 1); Ret (inl len').

Definition cstr_len (ptr : Z) (m : Mem) : outcome Z :=
  loop_end (run_loop 33 (cstr_len_body ptr m) 0).

Definition cstr_at (ptr : Z) (m : Mem) : outcome (list Z) :=
  len ← cstr_len ptr m;
  bytes_at ptr len m.

(** ** Reading and writing *)

Lemma store_lookup a l b x :
  store a l b !! x =
    if decide (a ≤ x < a + Z.of_nat (length l)) then l !! Z.to_nat (x - a) else b !! x.
Proof.
  revert a b. induction l as [|y l IH]; intros a b; simpl.
  { case_decide; [lia|done]. }
  rewrite IH. destruct (decide (x = a)) as [->|Hne].
  - rewrite decide_False by lia. rewrite decide_True by lia. rewrite lookup_insert_eq.
    by replace (a - a) with 0 by lia.
  - rewrite lookup_insert_ne by done. destruct (decide (a ≤ x < a + Z.of_nat (S (length l)))).
    + rewrite decide_True by lia. by replace (Z.to_nat (x - a)) with (S (Z.to_nat (x - (a + 1)))) by lia.
    + by rewrite decide_False by lia.
Qed.

Lemma byte_at_store m a l x :
  byte_at (set_bytes (store a l (bytes m)) m) x =
    if decide (a ≤ x < a + Z.of_nat (length l)) then default 0 (l !! Z.to_nat (x - a))
    else byte_at m x.
Proof. unfold byte_at. simpl. rewrite store_lookup. by case_decide. Qed.

Lemma byte_at_zero m p n x :
  byte_at (set_bytes (filter (λ q, ¬ (p ≤ q.1 < p + n)) (bytes m)) m) x =
    if decide (p ≤ x < p + n) then 0 else byte_at m x.
Proof.
  unfold byte_at. simpl. case_decide as Hd.
  - rewrite map_lookup_filter_None_2; [done|]. right. intros v _ Hn. by apply Hn.
  - destruct (bytes m !! x) as [v|] eqn:E.
    + by rewrite (map_lookup_filter_Some_2 _ _ _ v).
    + rewrite map_lookup_filter_None_2; [done|by left].
Qed.

Lemma bytes_of_range m a n l :
  Z.of_nat (length l) = n →
  (∀ i, 0 ≤ i < n → byte_at m (a + i) = default 0 (l !! Z.to_nat i)) →
  byte_at m <$> addr_range a n = l.
Proof.
  intros Hlen H. apply list_eq. intros i. unfold addr_range. rewrite list_lookup_fmap.
  destruct (decide (Z.of_nat i < n)).
  - rewrite lookup_seqZ_lt by lia. simpl. rewrite H by lia. rewrite Nat2Z.id.
    destruct (l !! i) eqn:E; [done|]. apply lookup_ge_None in E. lia.
  - rewrite lookup_seqZ_ge by lia. simpl. symmetry. apply lookup_ge_None. lia.
Qed.

Lemma bytes_at_eq m a n :
  0 ≤ n → a + n ≤ U32_MOD → bytes_at a n m = Ret (byte_at m <$> addr_range a n).
Proof. intros ??. unfold bytes_at, in_bounds. destruct (Z.leb_spec (a + n) U32_MOD); [done|lia]. Qed.

(** The watch never gets in the way of a write that ends below 2^32. *)
Lemma mem_write_eq size ptr l m :
  0 < size → Z.of_nat (length l) = size → 0 ≤ ptr → ptr + size < U32_MOD →
  mem_write size ptr l m = Ret (set_bytes (store ptr l (bytes m)) m).
Proof.
  intros Hs Hl Hp Hb. unfold mem_write. destruct (Z.ltb_spec 0 size); [|lia]. simpl.
  assert ((if negb (jc3_watch_addr m =? 0) && (ptr <=? jc3_watch_addr m)
           then e ← u32 (ptr + size); Ret () else Ret ()) = Ret ()) as ->.
  { destruct (_ && _); [|done]. by u32_simpl. }
  simpl. unfold bytes_at_mut_copy, in_bounds. destruct (Z.leb_spec (ptr + size) U32_MOD); [|lia]. simpl.
  by rewrite Hl, Z.eqb_refl.
Qed.

Lemma mem_read_eq size ptr m :
  0 ≤ size < U32_MOD → ptr + size ≤ U32_MOD →
  mem_read size ptr m = Ret (byte_at m <$> addr_range ptr size).
Proof.
  intros Hs Hb. unfold mem_read, ptr_at. rewrite Z.mul_1_l, u32_ok by done. simpl.
  apply bytes_at_eq; lia.
Qed.

Lemma le_bytes_length n v : length (le_bytes n v) = n.
Proof. revert v. induction n as [|n IH]; intros v; simpl; [done|]. by rewrite IH. Qed.

Lemma from_le_bytes_le_bytes n v : from_le_bytes (le_bytes n v) = v mod 256 ^ Z.of_nat n.
Proof.
  revert v. induction n as [|n IH]; intros v; cbn [le_bytes from_le_bytes].
  { by rewrite Z.mod_1_r. }
  rewrite IH, Nat2Z.inj_succ, Z.pow_succ_r by lia.
  assert (0 < 256 ^ Z.of_nat n) by (apply Z.pow_pos_nonneg; lia).
  rewrite Z.rem_mul_r by lia. done.
Qed.

Lemma write_read_spec n ptr v m :
  (0 < n ≤ 8)%nat → 0 ≤ ptr → ptr + Z.of_nat n < U32_MOD →
  ∃ m', write_u n ptr v m = Ret m' ∧
    read_u n ptr m' = Ret (v mod 256 ^ Z.of_nat n) ∧
    (∀ a, ¬ (ptr ≤ a < ptr + Z.of_nat n) → byte_at m' a = byte_at m a) ∧
    heap_allocator m' = heap_allocator m ∧ vm_allocator m' = vm_allocator m ∧ null_segment_size m' = null_segment_size m.
Proof.
  intros Hn Hp Hb. unfold write_u, read_u. rewrite mem_write_eq by (rewrite ?le_bytes_length; lia).
  eexists. split; [done|]. split_and!; [..|done|done|done].
  - rewrite mem_read_eq by (unfold U32_MOD in *; lia). simpl. rewrite (bytes_of_range _ _ _ (le_bytes n v)).
    + by rewrite from_le_bytes_le_bytes.
    + by rewrite le_bytes_length.
    + intros i Hi. rewrite byte_at_store, le_bytes_length, decide_True by lia. do 2 f_equal. lia.
  - intros a Ha. by rewrite byte_at_store, le_bytes_length, decide_False by lia.
Qed.

(** A write of an [n]-byte integer anywhere below the top of the address
    space succeeds; reading the same address back gives the value (modulo
    2^(8n)), and no byte outside the [n] bytes changes. *)
Theorem write_read_roundtrip n ptr v m :
  (0 < n ≤ 8)%nat → 0 ≤ ptr → ptr + Z.of_nat n < U32_MOD →
  ∃ m', write_u n ptr v m = Ret m' ∧
    read_u n ptr m' = Ret (v mod 256 ^ Z.of_nat n) ∧
    ∀ a, ¬ (ptr ≤ a < ptr + Z.of_nat n) → byte_at m' a = byte_at m a.
Proof.
  intros Hn Hp Hb. destruct (write_read_spec n ptr v m Hn Hp Hb) as (m' & ? & ? & ? & _). eauto.
Qed.

Definition empty_mem : Mem := mkMem ∅ 0 None (mkVMAllocator ∅ (SizeBucketed_new PAGE_SIZE)) true 0.

Lemma write_read_roundtrip_witness :
  ∃ m', write_u 4 4096 305419896 empty_mem = Ret m' ∧ read_u 4 4096 m' = Ret 305419896.
Proof.
  destruct (write_read_roundtrip 4 4096 305419896 empty_mem) as (m' & E & R & _);
    [lia|lia|vm_compute; reflexivity|].
  exists m'. split; [exact E|exact R].
Defined.

Lemma memmove_spec dest src size m :
  0 ≤ size → 0 ≤ src → 0 ≤ dest → src + size ≤ U32_MOD → dest + size ≤ U32_MOD →
  ∃ m', memmove dest src size m = Ret m' ∧
    (∀ i, 0 ≤ i < size → byte_at m' (dest + i) = byte_at m (src + i)) ∧
    (∀ a, ¬ (dest ≤ a < dest + size) → byte_at m' a = byte_at m a).
Proof.
  intros Hs ? ? ? ?. unfold memmove, in_bounds.
  destruct (Z.leb_spec (src + size) U32_MOD), (Z.leb_spec (dest + size) U32_MOD); try lia. simpl.
  assert (Z.of_nat (length (byte_at m <$> addr_range src size)) = size) as Hlen.
  { unfold addr_range. rewrite length_fmap, length_seqZ. lia. }
  eexists. split; [done|]. split.
  - intros i Hi. rewrite byte_at_store, Hlen, decide_True by lia.
    rewrite list_lookup_fmap. unfold addr_range. rewrite lookup_seqZ_lt by lia. simpl. f_equal. lia.
  - intros a Ha. by rewrite byte_at_store, Hlen, decide_False by lia.
Qed.

(** [memmove] of a range inside the address space succeeds and moves the
    bytes even when the ranges overlap: every destination byte is what the
    source byte was before the call, and nothing outside the destination
    changes. *)
Theorem memmove_correct dest src size m :
  0 ≤ size → 0 ≤ src → 0 ≤ dest → src + size ≤ U32_MOD → dest + size ≤ U32_MOD →
  ∃ m', memmove dest src size m = Ret m' ∧
    (∀ i, 0 ≤ i < size → byte_at m' (dest + i) = byte_at m (src + i)) ∧
    (∀ a, ¬ (dest ≤ a < dest + size) → byte_at m' a = byte_at m a).
Proof. apply memmove_spec. Qed.

Lemma memmove_correct_witness :
  ∃ m', memmove 10 8 4 (set_bytes {[ 8 := 1; 9 := 2; 10 := 3; 11 := 4 ]} empty_mem) = Ret m' ∧
    byte_at m' 12 = 3.
Proof.
  destruct (memmove_correct 10 8 4 (set_bytes {[ 8 := 1; 9 := 2; 10 := 3; 11 := 4 ]} empty_mem))
    as (m' & E & H & _); [lia|lia|lia|vm_compute; discriminate|vm_compute; discriminate|].
  exists m'. split; [exact E|]. exact (H 2 ltac:(lia)).
Defined.

(** ** Allocation in guest memory *)

Definition mem_ok (m : Mem) : Prop :=
  match heap_allocator m with
  | Some h => heap_ok (vm_allocator m) h
  | None => vm_ok (vm_allocator m)
  end.

(** A live allocation of the default heap. *)
Definition mem_live (m : Mem) (b n : Z) : Prop :=
  ∃ h, heap_allocator m = Some h ∧ heap_live h b n.

Lemma mem_live_pos m b n : mem_ok m → mem_live m b n → 0 ≤ b ∧ 0 < n ∧ b + n < U32_MOD.
Proof.
  unfold mem_ok. intros Hm (h & Eh & [H|H]); rewrite Eh in Hm.
  - apply (map_ok_chunk _ _ (heap_external _ _ Hm) _ _ H).
  - apply (map_ok_chunk _ _ (heap_used _ _ Hm) _ _ H).
Qed.

Lemma mem_live_disjoint m b1 n1 b2 n2 a :
  mem_ok m → mem_live m b1 n1 → mem_live m b2 n2 →
  b1 ≤ a < b1 + n1 → b2 ≤ a < b2 + n2 → b1 = b2 ∧ n1 = n2.
Proof.
  unfold mem_ok. intros Hm (h & Eh & H1) (h' & Eh' & H2). rewrite Eh in *. simplify_eq.
  by apply (heap_live_disjoint (vm_allocator m) h').
Qed.

Lemma bytes_at_mut_zero_eq p n m :
  p + n ≤ U32_MOD →
  bytes_at_mut_zero p n m = Ret (set_bytes (filter (λ q, ¬ (p ≤ q.1 < p + n)) (bytes m)) m).
Proof. intros ?. unfold bytes_at_mut_zero, in_bounds. destruct (Z.leb_spec (p + n) U32_MOD); [done|lia]. Qed.

(** [malloc] once the default heap exists: the block, what is live, and which
    bytes may have changed. *)
Lemma mem_alloc_spec m h size :
  mem_ok m → heap_allocator m = Some h → 0 ≤ size → size + 2 * PAGE_SIZE < U32_MOD →
  vm_has_room (vm_allocator m) HEAP_CHUNK_SIZE → vm_has_room (vm_allocator m) (round_up size) →
  ∃ p n m', alloc_in_heap None size m = Ret (p, None, m') ∧ mem_ok m' ∧
    is_Some (heap_allocator m') ∧ size ≤ n ∧
    (∀ b k, mem_live m' b k ↔ mem_live m b k ∨ (b = p ∧ k = n)) ∧
    (∀ b k a, mem_live m b k → b ≤ a < b + k → ¬ (p ≤ a < p + n)) ∧
    (∀ a, ¬ (p ≤ a < p + size) → byte_at m' a = byte_at m a).
Proof.
  intros Hm Eh Hs Hlt Hroom1 Hroom2. unfold mem_ok in Hm. rewrite Eh in Hm.
  unfold alloc_in_heap, allocators_mut. rewrite Eh. simpl.
  destruct (heap_alloc_spec (vm_allocator m) h size) as [(r & h' & v' & -> & [Hok Hp] & _)|(_ & _ & Hn)];
    [done..| |by exfalso]. simpl.
  destruct r as [c|]; [|destruct Hp as (_ & _ & Hn); by exfalso]. simpl.
  destruct Hp as ((?&?&?) & Hsz & _ & Hlive & Hdis & _).
  set (m1 := set_allocators (Some h') v' m).
  assert (∃ m', (if negb (zero_memory_on_free m1) && (csize c <=? HEAP_ALLOCATION_THRESHOLD)
                 then bytes_at_mut_zero (cbase c) size m1 else Ret m1) = Ret m' ∧
     heap_allocator m' = Some h' ∧ vm_allocator m' = v' ∧
     ∀ a, ¬ (cbase c ≤ a < cbase c + size) → byte_at m' a = byte_at m a) as (m' & E & Eh' & Ev' & Hby).
  { destruct (_ && _).
    - rewrite bytes_at_mut_zero_eq by lia. eexists. split_and!; [done..|].
      intros a Ha. by rewrite byte_at_zero, decide_False.
    - eexists. split_and!; done. }
  simpl in E. rewrite E. simpl. exists (cbase c), (csize c), m'. split; [done|].
  assert (∀ b k, mem_live m' b k ↔ heap_live h' b k) as Hl'.
  { intros b k. unfold mem_live. rewrite Eh'. naive_solver. }
  assert (∀ b k, mem_live m b k ↔ heap_live h b k) as Hl.
  { intros b k. unfold mem_live. rewrite Eh. naive_solver. }
  split_and!; [|by rewrite Eh'|done| | |done].
  - unfold mem_ok. by rewrite Eh', Ev'.
  - intros b k. by rewrite Hl', Hl, Hlive.
  - intros b k a Hb%Hl Ha. by eapply Hdis.
Qed.

Lemma mem_free_spec m h p n :
  mem_ok m → heap_allocator m = Some h → mem_live m p n →
  ∃ m', free_in_heap None p m = Ret (n, None, m') ∧ mem_ok m' ∧ is_Some (heap_allocator m') ∧
    (∀ b k, mem_live m' b k ↔ mem_live m b k ∧ b ≠ p) ∧
    (∀ a, ¬ (p ≤ a < p + n) → byte_at m' a = byte_at m a).
Proof.
  intros Hm Eh Hp. pose proof (mem_live_pos m p n Hm Hp) as (?&?&?).
  destruct Hp as (h0 & Eh0 & Hp). rewrite Eh in Eh0. simplify_eq. unfold mem_ok in Hm. rewrite Eh in Hm.
  unfold free_in_heap, allocators_mut. rewrite Eh. simpl.
  destruct (heap_free_spec (vm_allocator m) h0 p) as (n' & h' & v' & -> & Hok & [(Hn' & _ & Hl' & _)|(_ & _ & _ & Hno)]);
    [done| |by apply Hno in Hp].
  assert (n' = n) as ->.
  { assert (0 < n') by (destruct Hn' as [H'|H'];
      [by apply (map_ok_chunk _ _ (heap_external _ _ Hm) _ _ H')|by apply (map_ok_chunk _ _ (heap_used _ _ Hm) _ _ H')]).
    by eapply (heap_live_disjoint _ _ p n' p n p Hm); [..|lia|lia]. }
  simpl. set (m1 := set_allocators (Some h') v' m).
  assert (∃ m', (if (HEAP_ALLOCATION_THRESHOLD <? n) || zero_memory_on_free m1
                 then bytes_at_mut_zero p n m1 else Ret m1) = Ret m' ∧
     heap_allocator m' = Some h' ∧ vm_allocator m' = v' ∧
     ∀ a, ¬ (p ≤ a < p + n) → byte_at m' a = byte_at m a) as (m' & E & Eh' & Ev' & Hby).
  { destruct (_ || _).
    - rewrite bytes_at_mut_zero_eq by lia. eexists. split_and!; [done..|].
      intros a Ha. by rewrite byte_at_zero, decide_False.
    - eexists. split_and!; done. }
  simpl in E. rewrite E. simpl. exists m'. split; [done|]. split_and!; [|by rewrite Eh'| |done].
  - unfold mem_ok. by rewrite Eh', Ev'.
  - intros b k. unfold mem_live. rewrite Eh', Eh. setoid_rewrite <- (inj_iff Some). naive_solver.
Qed.

(** [realloc] of a live block of the default heap succeeds whenever the
    virtual memory allocator has room: the result is a live block of at least
    the requested size that begins with all the bytes of the old block, and
    every other live block stays live with its bytes unchanged. *)
Theorem realloc_preserves m p n size :
  mem_ok m → mem_live m p n → p ≠ 0 → 0 ≤ size → size + 2 * PAGE_SIZE < U32_MOD →
  vm_has_room (vm_allocator m) HEAP_CHUNK_SIZE → vm_has_room (vm_allocator m) (round_up size) →
  ∃ p' n' m', realloc_in_heap None p size m = Ret (p', None, m') ∧ mem_ok m' ∧
    mem_live m' p' n' ∧ size ≤ n' ∧
    (∀ i, 0 ≤ i < n → byte_at m' (p' + i) = byte_at m (p + i)) ∧
    (∀ b k, b ≠ p → mem_live m b k →
       mem_live m' b k ∧ ∀ a, b ≤ a < b + k → byte_at m' a = byte_at m a).
Proof.
  intros Hm Hp Hp0 Hs Hlt Hr1 Hr2. pose proof Hp as (h & Eh & Hph).
  destruct (mem_live_pos m p n Hm Hp) as (?&?&?).
  unfold realloc_in_heap. rewrite (proj2 (Z.eqb_neq p 0)) by done.
  assert (malloc_size_in_heap None p m = Ret (n, m)) as ->.
  { unfold malloc_size_in_heap, allocators_mut. rewrite Eh. simpl. unfold find_allocated_size, ChunkMap_get_size_with_base.
    destruct (external_chunks h !! p) as [k|] eqn:Ee; [|by destruct Hph as [?| ->]; [congruence|]].
    assert (mem_live m p k) as Hk by (exists h; split; [done|by left]).
    pose proof (mem_live_pos m p k Hm Hk). simpl.
    destruct (mem_live_disjoint m p k p n p Hm Hk Hp) as [_ ->]; [lia|lia|done]. }
  simpl. destruct (Z.leb_spec size n).
  { exists p, n, m. by split_and!. }
  destruct (mem_alloc_spec m h size) as (q & k & m1 & -> & Hm1 & [h1 Eh1] & Hk & Hl1 & Hd1 & Hb1); [done..|]. simpl.
  assert (mem_live m1 q k) as Hq by (apply Hl1; by right).
  assert (mem_live m1 p n) as Hp1 by (apply Hl1; by left).
  destruct (mem_live_pos m1 q k Hm1 Hq) as (?&?&?).
  assert (∀ a, p ≤ a < p + n → ¬ (q ≤ a < q + k)) as Hsep by (intros a ?; by eapply Hd1).
  destruct (memmove_spec q p n m1) as (m2 & E2 & Hmv & Hfr); [lia..|].
  assert (heap_allocator m2 = Some h1 ∧ vm_allocator m2 = vm_allocator m1) as [Eh2 Ev2].
  { unfold memmove in E2. destruct (in_bounds p n), (in_bounds q n); simpl in E2; simplify_eq. done. }
  rewrite E2. simpl.
  assert (∀ b j, mem_live m2 b j ↔ mem_live m1 b j) as Hl2.
  { intros b j. unfold mem_live. by rewrite Eh2, Eh1. }
  assert (mem_ok m2) as Hm2. { unfold mem_ok in *. by rewrite Eh2, Ev2, Eh1 in *. }
  destruct (mem_free_spec m2 h1 p n) as (m3 & -> & Hm3 & _ & Hl3 & Hb3); [done|done|by apply Hl2|]. simpl.
  assert (p ≠ q) by (intros ->; apply (Hsep q); lia).
  exists q, k, m3. split; [done|]. split; [done|]. split; [by rewrite Hl3, Hl2|]. split; [done|]. split.
  - intros i Hi. rewrite Hb3, Hmv, Hb1; [done| |done|].
    + intros ?. apply (Hsep (p + i)); lia.
    + intros ?. apply (Hsep (q + i)); lia.
  - intros b j Hb Hbl. split; [rewrite Hl3, Hl2, Hl1; tauto|]. intros a Ha.
    assert (¬ (q ≤ a < q + k)) by (by eapply Hd1).
    rewrite Hb3, Hfr, Hb1; [done|lia|lia|].
    intros ?. destruct (mem_live_disjoint m b j p n a Hm Hbl Hp) as [-> _]; done.
Qed.

(** The first use of the default heap creates it. *)
Lemma first_heap_spec m size :
  mem_ok m → heap_allocator m = None → vm_has_room (vm_allocator m) HEAP_CHUNK_SIZE →
  ∃ h m1, allocators_mut None m = Ret (h, m1) ∧ mem_ok m1 ∧ heap_allocator m1 = Some h ∧
    bytes m1 = bytes m ∧ (∀ b n, ¬ mem_live m1 b n) ∧
    alloc_in_heap None size m = alloc_in_heap None size m1.
Proof.
  intros Hm Eh Hroom. unfold mem_ok in Hm. rewrite Eh in Hm.
  destruct (heap_new_ok (vm_allocator m) HEAP_CHUNK_SIZE) as (h & v & E & Hh & Hno); [done..|].
  exists h, (set_allocators (Some h) v m).
  assert (allocators_mut None m = Ret (h, set_allocators (Some h) v m)) as Ea.
  { unfold allocators_mut. rewrite Eh, E. done. }
  split_and!; [done|done|done|done| |].
  - intros b n (h' & [= <-] & Hl). by eapply Hno.
  - unfold alloc_in_heap. by rewrite Ea.
Qed.

Lemma Mem_new_ok :
  ∃ m, Mem_new = Ret m ∧ mem_ok m ∧ heap_allocator m = None ∧ null_segment_size m = 0 ∧
    ∀ a, vm_free (vm_allocator m) a ↔ 0 ≤ a < MAIN_THREAD_STACK_LOW_END.
Proof.
  destruct vm_initial_ok as (v & E & Hv & Hf). unfold Mem_new. rewrite E. simpl.
  eexists. split; [done|]. split_and!; [done..|]. intros a. by apply Hf.
Qed.

(** The null segment takes the bottom of the address space out of circulation. *)
Lemma set_null_segment_spec m n :
  mem_ok m → heap_allocator m = None → null_segment_size m = 0 → (PAGE_SIZE | n) → 0 < n < U32_MOD →
  (∀ a, 0 ≤ a < n → vm_free (vm_allocator m) a) →
  ∃ m', set_null_segment_size n m = Ret m' ∧ mem_ok m' ∧ heap_allocator m' = None ∧
    ∀ a, vm_free (vm_allocator m') a ↔ vm_free (vm_allocator m) a ∧ ¬ (0 ≤ a < n).
Proof.
  intros Hm Eh E0 Hd Hn Hfree. unfold mem_ok in Hm. rewrite Eh in Hm. unfold set_null_segment_size.
  rewrite E0. simpl. rewrite is_multiple_of_divide by done. simpl.
  unfold VMAllocator_allocate. destruct (next_multiple_of_round_up n) as [->|]; [lia| |lia].
  rewrite round_up_id by done. u32_simpl. change (page_base 0) with 0.
  destruct (allocate_at_spec (vm_allocator m) 0 n) as (r & v & -> & Hr);
    [done|by exists 0|done|unfold chunk_ok; simpl; lia|]. simpl. destruct r as [c|e].
  - destruct Hr as (Hv & Hg & -> & _). simpl. eexists. split; [done|]. unfold mem_ok. simpl. rewrite Eh.
    split_and!; [done..|]. intros a. apply (granted_rest _ _ _ Hg).
  - exfalso. destruct Hr as (_ & Hn' & _). apply Hn'. intros a ?. apply Hfree. lia.
Qed.

(** A guest memory after start-up: null page reserved, one block allocated. *)
Definition demo_mem : outcome (Z * option HeapAllocator * Mem) :=
  m ← Mem_new;
  m ← set_null_segment_size 4096 m;
  alloc_in_heap None 100 m.

Lemma vm_has_room_chunk v b s n : chunks (vm_unused_chunks v) !! b = Some s → n ≤ s → vm_has_room v n.
Proof. intros H ?. exists b. intros a ?. exists b, s. split; [done|lia]. Qed.

Lemma demo_mem_ok :
  ∃ m, demo_mem = Ret (4096, None, m) ∧ mem_ok m ∧ mem_live m 4096 112 ∧
    ∀ n, n ≤ 16777216 → vm_has_room (vm_allocator m) n.
Proof.
  destruct Mem_new_ok as (m0 & E0 & Hm0 & Eh0 & En0 & Hf0).
  destruct (set_null_segment_spec m0 4096) as (m1 & E1 & Hm1 & Eh1 & Hf1); [done..|by exists 1|done| |].
  { intros a ?. apply Hf0. unfold MAIN_THREAD_STACK_LOW_END. lia. }
  assert (∀ b n, 4096 ≤ b → b + n ≤ MAIN_THREAD_STACK_LOW_END → vm_has_room (vm_allocator m1) n) as Hroom.
  { intros b n ??. exists b. intros a ?. apply Hf1. rewrite Hf0. lia. }
  destruct (first_heap_spec m1 100) as (h & m2 & Ea & Hm2 & Eh2 & _ & Hno & E2);
    [done|done|by apply (Hroom 4096)|].
  assert (∃ b, chunks (vm_unused_chunks (vm_allocator m2)) !! b = Some 4291817472) as [b Hb].
  { vm_compute in E0. injection E0 as <-. vm_compute in E1. injection E1 as <-.
    vm_compute in Ea. injection Ea as <- <-. eexists 2101248. vm_compute. reflexivity. }
  destruct (mem_alloc_spec m2 h 100) as (p & n & m & E & Hm & [h' Eh'] & Hn & Hl & _ & _); [done|done|lia|done| | |].
  { by apply (vm_has_room_chunk _ b _ _ Hb). } { by apply (vm_has_room_chunk _ b _ _ Hb). }
  assert (demo_mem = Ret (p, None, m)) as Ed.
  { unfold demo_mem. rewrite E0. simpl. rewrite E1. simpl. by rewrite E2. }
  assert (p = 4096 ∧ mem_live m 4096 112 ∧
          chunks (vm_unused_chunks (vm_allocator m)) !! 2101248 = Some 4291817472) as (-> & ? & Hb').
  { clear -Ed. vm_compute in Ed. injection Ed as <- <-. split_and!; [done| |reflexivity].
    eexists. split; [reflexivity|]. right. reflexivity. }
  exists m. split_and!; [done..|]. intros k ?. apply (vm_has_room_chunk _ _ _ _ Hb'). lia.
Qed.

Lemma realloc_preserves_witness :
  ∃ m p' n' m', demo_mem = Ret (4096, None, m) ∧
    realloc_in_heap None 4096 200 m = Ret (p', None, m') ∧ mem_live m' p' n' ∧ 200 ≤ n'.
Proof.
  destruct demo_mem_ok as (m & E & Hm & Hl & Hroom).
  destruct (realloc_preserves m 4096 112 200) as (p' & n' & m' & E' & _ & Hl' & Hn' & _);
    [exact Hm|exact Hl|lia|lia|vm_compute; reflexivity|apply Hroom; vm_compute; discriminate
    |apply Hroom; vm_compute; discriminate|].
  exists m, p', n', m'. auto.
Defined.

(** ** C strings *)

Lemma read_u8_eq p m : 0 ≤ p < U32_MOD → read_u8 p m = Ret (byte_at m p).
Proof.
  intros Hp. unfold read_u8, read_u. rewrite mem_read_eq by (unfold U32_MOD in *; lia).
  simpl. by rewrite Z.add_0_r.
Qed.

Lemma ptr_add_1 p n : 0 ≤ n → 0 ≤ p → p + n < U32_MOD → ptr_add 1 p n = Ret (p + n).
Proof. intros ???. unfold ptr_add. simpl. rewrite Z.mul_1_r. u32_simpl. done. Qed.

(** [cstr_at] stops at the first zero byte. *)
Lemma cstr_len_spec ptr len m :
  0 ≤ ptr → 0 ≤ len → ptr + len < U32_MOD → byte_at m (ptr + len) = 0 →
  (∀ i, 0 ≤ i < len → byte_at m (ptr + i) ≠ 0) → cstr_len ptr m = Ret len.
Proof.
  intros Hp Hl Hb Hz Hnz. unfold cstr_len.
  apply (loop_end_spec (λ k, 0 ≤ k ≤ len) (λ r, r = Ret len) (λ k, len - k)); [|lia|unfold U32_MOD in Hb; lia].
  intros k Hk. unfold cstr_len_body. rewrite ptr_add_1 by lia. simpl. rewrite read_u8_eq by lia. simpl.
  destruct (Z.eqb_spec (byte_at m (ptr + k)) 0) as [E|E].
  - destruct (decide (k = len)) as [->|]; [done|]. exfalso. apply (Hnz k); [lia|done].
  - destruct (decide (k = len)) as [->|]; [done|]. u32_simpl. lia.
Qed.

(** [alloc_and_write_cstr] of a string without zero bytes, once the default
    heap exists and memory is left, allocates a block that holds the string and
    its terminator: [cstr_at] reads back exactly the string, and every block that was
    live keeps its bytes. *)
Theorem cstr_roundtrip m h str :
  mem_ok m → heap_allocator m = Some h →
  Forall (λ x, 0 < x < 256) str → Z.of_nat (length str) + 1 + 2 * PAGE_SIZE < U32_MOD →
  vm_has_room (vm_allocator m) HEAP_CHUNK_SIZE →
  vm_has_room (vm_allocator m) (round_up (Z.of_nat (length str) + 1)) →
  ∃ p m', alloc_and_write_cstr str m = Ret (p, m') ∧ mem_ok m' ∧ cstr_at p m' = Ret str ∧
    ∀ b k a, mem_live m b k → b ≤ a < b + k → byte_at m' a = byte_at m a.
Proof.
  intros Hm Eh Hstr Hlen Hr1 Hr2. set (n := Z.of_nat (length str)) in *. unfold alloc_and_write_cstr. fold n.
  unfold PAGE_SIZE in Hlen. u32_simpl.
  destruct (mem_alloc_spec m h (n + 1)) as (p & k & m1 & E & Hm1 & [h1 Eh1] & Hk & Hl & Hd & Hb);
    [done|done|lia|unfold PAGE_SIZE; lia|done|done|].
  unfold mem_alloc. rewrite E. simpl.
  assert (mem_live m1 p k) as Hp by (apply Hl; by right). destruct (mem_live_pos m1 p k Hm1 Hp) as (?&?&?).
  unfold bytes_at_mut_copy, in_bounds. destruct (Z.leb_spec (p + n) U32_MOD); [|lia]. simpl.
  unfold n at 1. rewrite Z.eqb_refl. simpl. rewrite ptr_add_1 by lia. simpl.
  unfold write_u8, write_u. rewrite mem_write_eq by (simpl; lia). simpl.
  set (m2 := set_bytes _ (set_bytes _ m1)).
  exists p, m2. split; [done|].
  assert (∀ a, byte_at m2 a = if decide (p ≤ a < p + n) then default 0 (str !! Z.to_nat (a - p))
                              else if decide (a = p + n) then 0 else byte_at m1 a) as Hby.
  { intros a. unfold m2, byte_at. simpl. destruct (decide (a = p + n)) as [->|Hne].
    - rewrite lookup_insert_eq, decide_False by lia. done.
    - rewrite lookup_insert_ne by done. rewrite store_lookup. fold n. by case_decide. }
  split; [exact Hm1|]. split.
  - assert (∀ i, 0 ≤ i < n → byte_at m2 (p + i) = default 0 (str !! Z.to_nat i)) as Hin.
    { intros i ?. rewrite Hby, decide_True by lia. by replace (p + i - p) with i by lia. }
    unfold cstr_at. rewrite (cstr_len_spec p n); [simpl|lia|lia|lia| |].
    + rewrite bytes_at_eq by lia. f_equal. by apply bytes_of_range.
    + by rewrite Hby, decide_False, decide_True by lia.
    + intros i Hi. rewrite Hin by done. destruct (str !! Z.to_nat i) as [x|] eqn:Ex.
      * apply (Forall_lookup_1 _ _ _ _ Hstr) in Ex. simpl. lia.
      * apply lookup_ge_None in Ex. lia.
  - intros b j a Hbl Ha. assert (¬ (p ≤ a < p + k)) by (by eapply Hd).
    rewrite Hby, !decide_False by lia. apply Hb. lia.
Qed.

Lemma cstr_roundtrip_witness :
  ∃ m p m', demo_mem = Ret (4096, None, m) ∧
    alloc_and_write_cstr [104; 105] m = Ret (p, m') ∧ cstr_at p m' = Ret [104; 105].
Proof.
  destruct demo_mem_ok as (m & E & Hm & (h & Eh & _) & Hroom).
  destruct (cstr_roundtrip m h [104; 105]) as (p & m' & E' & _ & R & _);
    [exact Hm|exact Eh|repeat constructor; lia|vm_compute; reflexivity
    |apply Hroom; vm_compute; discriminate|apply Hroom; vm_compute; discriminate|].
  exists m, p, m'. auto.
Defined.
