(* ===== verification/GuestAlloc.v ===== *)
(** * Small blocks of guest memory ([mem.rs])

    What the runtime's own allocations rely on: as long as the virtual memory
    allocator has room for [k] more heap chunks, [k] more small blocks can be
    had, and memory that is in use, by the heap or by anything else, keeps its
    bytes.  The files that allocate objects, strings and classes for the guest use
    these lemmas instead of those of the allocators. *)

From S2P Require Import Prelude ChunkMap SizeBucketed VMAllocator HeapAllocator GuestMem.

(** ** Room for more blocks *)

Definition vm_room (v : VMAllocator) (n : Z) : Prop :=
  ∃ b s, chunks (vm_unused_chunks v) !! b = Some s ∧ n ≤ s.

(** [k] more heap chunks fit into one free chunk of pages. *)
Definition mem_room (k : nat) (m : Mem) : Prop :=
  (0 < k)%nat → vm_room (vm_allocator m) (Z.of_nat k * HEAP_CHUNK_SIZE).

Lemma vm_room_has v n n' : vm_room v n → n' ≤ n → vm_has_room v n'.
Proof. intros (b & s & Hb & Hs) Hn. apply (vm_has_room_chunk v b s n' Hb). lia. Qed.

Lemma vm_room_alloc v r v' k :
  vm_ok v → VMAllocator_allocate None HEAP_CHUNK_SIZE v = Ret (r, v') → (0 < k)%nat →
  vm_room v (Z.of_nat (S k) * HEAP_CHUNK_SIZE) → vm_room v' (Z.of_nat k * HEAP_CHUNK_SIZE).
Proof.
  intros Hv E Hk (b & s & Hb & Hs). pose proof Hv as [Hu Hsb Hun Hco Hdis].
  rewrite VMAllocator_allocate_None in E by done. change (round_up HEAP_CHUNK_SIZE) with HEAP_CHUNK_SIZE in E.
  unfold allocate_any in E. change (is_multiple_of HEAP_CHUNK_SIZE PAGE_SIZE && (PAGE_SIZE <=? HEAP_CHUNK_SIZE)) with true in E.
  simpl in E. destruct (SizeBucketed_allocate_spec PAGE_SIZE (vm_unused_chunks v) HEAP_CHUNK_SIZE) as (o & x & Ex & Ho);
    [done|done|by exists 512|done|]. rewrite Ex in E. simpl in E.
  assert (HEAP_CHUNK_SIZE < s) by (unfold HEAP_CHUNK_SIZE in *; lia). destruct o as [a|]; last first.
  { destruct Ho as [_ Hno]. apply Hno in Hb. lia. }
  destruct Ho as (_ & t & (Hcs & Hle & Ha & Em) & Hbest).
  apply bind_ret_inv in E as (used & _ & E). injection E as _ <-. unfold vm_room. simpl. rewrite Em.
  destruct (take_front_spec PAGE_SIZE (chunks (vm_unused_chunks v)) (cbase a) t HEAP_CHUNK_SIZE) as (Hfresh & _);
    [done|done|unfold HEAP_CHUNK_SIZE in *; lia|by exists 512|]. unfold take_front.
  destruct (decide (cbase a = b)) as [<-|Hne].
  - rewrite Hb in Ha. injection Ha as <-. destruct (Z.eqb_spec s HEAP_CHUNK_SIZE) as [->|Hnt]; [lia|].
    exists (cbase a + HEAP_CHUNK_SIZE), (s - HEAP_CHUNK_SIZE). rewrite lookup_insert_eq. split; [done|]. unfold HEAP_CHUNK_SIZE in *. lia.
  - exists b, s. split; [|unfold HEAP_CHUNK_SIZE in *; lia]. destruct (Z.eqb_spec t HEAP_CHUNK_SIZE) as [->|Hnt]; [by rewrite lookup_delete_ne|].
    rewrite lookup_insert_ne; [by rewrite lookup_delete_ne|]. intros E'. rewrite E' in Hfresh.
    rewrite lookup_delete_ne, Hb in Hfresh by done. by specialize (Hfresh Hnt).
Qed.

(** A small allocation asks the virtual memory allocator for at most one heap chunk. *)
Lemma heap_alloc_vm v size h r h' v' :
  0 ≤ size ≤ 15344 → heap_alloc v size h = Ret (r, h', v') →
  v' = v ∨ ∃ x, VMAllocator_allocate None HEAP_CHUNK_SIZE v = Ret (x, v').
Proof.
  intros Hs E. unfold heap_alloc in E.
  destruct (heap_align_spec (Z.max size MIN_CHUNK_SIZE)) as (n & En & Hg & Hn);
    [lia|unfold MIN_CHUNK_SIZE, U32_MOD; lia|]. rewrite En in E. cbn [mbind outcome_bind] in E.
  rewrite (proj2 (Z.ltb_ge _ _)) in E.
  2: { unfold HEAP_ALLOCATION_THRESHOLD, MIN_CHUNK_SIZE in *. destruct Hg as [k ->]. lia. }
  assert (∀ c u s w, heap_hand_out c u s w = Ret (r, h', v') → v' = w) as Hout.
  { intros [c|] u s w Eo; unfold heap_hand_out in Eo; [|by injection Eo]. apply bind_ret_inv in Eo as (? & _ & Eo). by injection Eo. }
  apply bind_ret_inv in E as ([[c|] u] & _ & E); [left; by eapply Hout|right].
  apply bind_ret_inv in E as ([h1 v1] & Egrow & E). apply bind_ret_inv in E as ([c2 u2] & _ & E). apply Hout in E as ->.
  unfold heap_grow in Egrow. apply bind_ret_inv in Egrow as ([x v2] & Ev & E). apply bind_ret_inv in E as (? & _ & E).
  apply bind_ret_inv in E as (? & _ & E). injection E as _ <-. by exists x.
Qed.

(** ** Memory in use *)

Definition mem_static (m : Mem) (a : Z) : Prop :=
  match heap_allocator m with
  | Some h => heap_static (vm_allocator m) h a
  | None => vm_used (vm_allocator m) a
  end.
Definition mem_kept (m : Mem) (a : Z) : Prop :=
  mem_static m a ∨ ∃ b n, mem_live m b n ∧ b ≤ a < b + n.

(** What every operation that only allocates leaves as it was. *)
Record mem_grows (m m' : Mem) : Prop := {
  grows_ok : mem_ok m';
  grows_heap : is_Some (heap_allocator m');
  grows_null : null_segment_size m' = null_segment_size m;
  grows_live b n : mem_live m b n → mem_live m' b n;
  grows_static a : mem_static m a → mem_static m' a;
  grows_kept a : mem_kept m a → mem_kept m' a ∧ byte_at m' a = byte_at m a
}.

Lemma mem_grows_refl m : mem_ok m → is_Some (heap_allocator m) → mem_grows m m.
Proof. by split. Qed.
Lemma mem_grows_trans m1 m2 m3 : mem_grows m1 m2 → mem_grows m2 m3 → mem_grows m1 m3.
Proof.
  intros [? ? N1 L1 S1 K1] [? ? N2 L2 S2 K2]. split; [done|done|congruence|auto|auto|].
  intros a Ha. destruct (K1 a Ha) as [Ha2 E1]. destruct (K2 a Ha2) as [? E2]. split; [done|congruence].
Qed.

(** A block of [size] bytes at [p], new in [m']. *)
Record fresh_block (m : Mem) (p size : Z) (m' : Mem) : Prop := {
  fresh_live : ∃ n, size ≤ n ∧ mem_live m' p n;
  fresh_range : 0 ≤ p ∧ p + size < U32_MOD;
  fresh_kept a : mem_kept m a → ¬ (p ≤ a < p + size)
}.

(** A small allocation returns when there is room for one more heap chunk. *)
Lemma mem_alloc_returns m size :
  mem_ok m → is_Some (heap_allocator m) → 0 ≤ size ≤ 15344 → vm_has_room (vm_allocator m) HEAP_CHUNK_SIZE →
  ∃ p m', mem_alloc size m = Ret (p, m').
Proof.
  intros Hm [h Eh] Hs Hr. pose proof Hm as Hh. unfold mem_ok in Hh. rewrite Eh in Hh.
  unfold mem_alloc, alloc_in_heap, allocators_mut. rewrite Eh. simpl.
  destruct (heap_alloc_spec (vm_allocator m) h size) as [(r & h' & v' & E & [Hok Hp] & Hsome)|(_ & _ & Hn)];
    [done|lia|unfold PAGE_SIZE, U32_MOD; lia| |by exfalso].
  rewrite E. simpl. destruct r as [c|]; [|by destruct Hsome; [lia|]]. simpl. destruct Hp as ((?&?&?) & Hsz & _).
  destruct (_ && _); [rewrite bytes_at_mut_zero_eq by lia|]; simpl; eauto.
Qed.

(** What an allocation that returns has done. *)
Lemma mem_alloc_grows m size p m' :
  mem_ok m → is_Some (heap_allocator m) → 0 ≤ size ≤ 15344 → mem_alloc size m = Ret (p, m') →
  mem_grows m m' ∧ fresh_block m p size m' ∧
  ∃ h r h', heap_allocator m = Some h ∧ heap_alloc (vm_allocator m) size h = Ret (r, h', vm_allocator m').
Proof.
  intros Hm [h Eh] Hs Ealloc. pose proof Hm as Hh. unfold mem_ok in Hh. rewrite Eh in Hh.
  unfold mem_alloc, alloc_in_heap, allocators_mut in Ealloc. rewrite Eh in Ealloc. simpl in Ealloc.
  destruct (heap_alloc_spec (vm_allocator m) h size) as [(r & h' & v' & E & [Hok Hp] & _)|(E & _)];
    [done|lia|unfold PAGE_SIZE, U32_MOD; lia| |by rewrite E in Ealloc].
  rewrite E in Ealloc. simpl in Ealloc. destruct r as [c|]; [|done]. simpl in Ealloc.
  destruct Hp as ((?&?&?) & Hsz & _ & Hlive & Hdis & _ & Hst).
  apply bind_ret_inv in Ealloc as ([[p0 x] m0] & E0 & [= <- <-]). apply bind_ret_inv in E0 as (m0' & Ez & [= <- <- <-]).
  assert (heap_allocator m0' = Some h' ∧ vm_allocator m0' = v' ∧ null_segment_size m0' = null_segment_size m ∧
     ∀ a, ¬ (cbase c ≤ a < cbase c + size) → byte_at m0' a = byte_at m a) as (Eh' & Ev' & En' & Hby).
  { revert Ez. destruct (_ && _).
    - rewrite bytes_at_mut_zero_eq by lia. intros [= <-]. split_and!; [done..|]. intros a Ha.
      etransitivity; [apply (byte_at_zero (set_allocators (Some h') v' m))|]. by rewrite decide_False.
    - by intros [= <-]. }
  assert (∀ b n, mem_live m0' b n ↔ mem_live m b n ∨ b = cbase c ∧ n = csize c) as Hl.
  { intros b n. unfold mem_live. rewrite Eh', Eh. setoid_rewrite <- (inj_iff Some). specialize (Hlive b n). naive_solver. }
  assert (∀ a, mem_kept m a → ¬ chunk_in c a) as Hnot.
  { intros a [Ha|(b & n & (h0 & E0 & Ha) & Hr')].
    - unfold mem_static in Ha. rewrite Eh in Ha. by apply Hst.
    - rewrite Eh in E0. injection E0 as <-. by eapply Hdis. }
  split_and!.
  - split; [unfold mem_ok; by rewrite Eh', Ev'|by rewrite Eh'|done|intros; apply Hl; by left| |].
    { intros a Ha. unfold mem_static in *. rewrite Eh in Ha. rewrite Eh', Ev'. by apply Hst. }
    intros a Ha. pose proof (Hnot a Ha) as Hc. split.
    + destruct Ha as [Ha|(b & n & Ha & Hr')]; [left|right; exists b, n; split; [apply Hl; by left|done]].
      unfold mem_static in *. rewrite Eh in Ha. rewrite Eh', Ev'. by apply Hst.
    + apply Hby. unfold chunk_in in Hc. lia.
  - split; [exists (csize c); split; [done|apply Hl; by right]|lia|].
    intros a Ha%Hnot. unfold chunk_in in Ha. lia.
  - exists h, (Some c), h'. by rewrite Ev'.
Qed.

Lemma mem_alloc_room m k size :
  mem_ok m → is_Some (heap_allocator m) → 0 ≤ size ≤ 15344 → mem_room (S k) m →
  ∃ p m', mem_alloc size m = Ret (p, m') ∧ mem_grows m m' ∧ fresh_block m p size m' ∧ mem_room k m'.
Proof.
  intros Hm Hh Hs Hroom. destruct (mem_alloc_returns m size) as (p & m' & E); [done..| |].
  { eapply vm_room_has; [apply Hroom; lia|]. unfold HEAP_CHUNK_SIZE. lia. }
  destruct (mem_alloc_grows m size p m' Hm Hh Hs E) as (Hg & Hf & h & r & h' & Eh & Eheap). exists p, m'. split_and!; [done..|].
  intros Hk. destruct (heap_alloc_vm _ _ _ _ _ _ Hs Eheap) as [->|[x Ex]].
  - destruct Hroom as (b & s & Hb & Hbs); [lia|]. exists b, s. split; [done|]. unfold HEAP_CHUNK_SIZE in *. lia.
  - unfold mem_ok in Hm. rewrite Eh in Hm. eapply vm_room_alloc; [apply Hm|done|done|apply Hroom; lia].
Qed.

(** Memory in use by something else is not in a live block; blocks are aligned. *)
Lemma static_not_live m a b n : mem_ok m → mem_static m a → mem_live m b n → ¬ (b ≤ a < b + n).
Proof.
  unfold mem_ok, mem_static. intros Hm Ha (h & Eh & Hl) Hin. rewrite Eh in Hm, Ha. destruct Ha as (_ & Hown & Hext).
  destruct Hl as [Hl|Hl]; [apply Hext; by exists b, n|]. apply Hown. left. by exists b, n.
Qed.
Lemma mem_live_aligned m b n : mem_ok m → mem_live m b n → (MIN_CHUNK_SIZE | b).
Proof.
  unfold mem_ok. intros Hm (h & Eh & [H|H]); rewrite Eh in Hm.
  - apply (Z.divide_trans _ PAGE_SIZE); [by exists 256|]. apply (map_ok_gran _ _ (heap_external _ _ Hm) _ _ H).
  - apply (map_ok_gran _ _ (heap_used _ _ Hm) _ _ H).
Qed.

(** ** Filling a new block *)

(** Writes into a block that is new change nothing that was in use. *)
Lemma mem_grows_fill m m1 m2 p size k :
  mem_grows m m1 → fresh_block m p size m1 → mem_room k m1 →
  heap_allocator m2 = heap_allocator m1 → vm_allocator m2 = vm_allocator m1 →
  null_segment_size m2 = null_segment_size m1 →
  (∀ a, ¬ (p ≤ a < p + size) → byte_at m2 a = byte_at m1 a) →
  mem_grows m m2 ∧ fresh_block m p size m2 ∧ mem_room k m2.
Proof.
  intros [Ho Hh Hn Hl Hst Hk] [Hf Hr Hd] Hroom Eh Ev En Hb.
  assert (∀ b n, mem_live m2 b n ↔ mem_live m1 b n) as Hl2 by (intros; unfold mem_live; by rewrite Eh).
  split_and!.
  - split; [unfold mem_ok; by rewrite Eh, Ev|by rewrite Eh|congruence|intros; by apply Hl2, Hl|intros a Ha%Hst; unfold mem_static in *; by rewrite Eh, Ev|].
    intros a Ha. destruct (Hk a Ha) as [Ha1 E1]. split; [|rewrite Hb; [done|by apply Hd]].
    unfold mem_kept, mem_static in *. rewrite Eh, Ev. by setoid_rewrite Hl2.
  - split; [|done|done]. destruct Hf as (n & ? & ?). exists n. by rewrite Hl2.
  - unfold mem_room. by rewrite Ev.
Qed.

(** The bytes of the C string [s] at [p], in memory that is in use. *)
Definition string_kept (m : Mem) (p : Z) (s : list Z) : Prop :=
  0 ≤ p ∧ p + Z.of_nat (length s) < U32_MOD ∧
  (∀ i, 0 ≤ i ≤ Z.of_nat (length s) → mem_kept m (p + i) ∧ byte_at m (p + i) = default 0 (s !! Z.to_nat i)) ∧
  Forall (λ x, 0 < x < 256) s.

Lemma string_kept_cstr m p s : string_kept m p s → cstr_at p m = Ret s.
Proof.
  intros (Hp & Hl & Hb & Hs). unfold cstr_at. rewrite (cstr_len_spec p (Z.of_nat (length s))); [|lia|lia|lia| |].
  - simpl. rewrite bytes_at_eq by lia. f_equal. apply bytes_of_range; [done|]. intros i Hi. apply Hb. lia.
  - rewrite (proj2 (Hb (Z.of_nat (length s)) ltac:(lia))). rewrite Nat2Z.id, (proj2 (lookup_ge_None _ _)) by (rewrite ?Nat2Z.id; lia). done.
  - intros i Hi. rewrite (proj2 (Hb i ltac:(lia))). destruct (s !! Z.to_nat i) as [x|] eqn:Ex.
    + apply (Forall_lookup_1 _ _ _ _ Hs) in Ex. simpl. lia.
    + apply lookup_ge_None in Ex. lia.
Qed.

Lemma string_kept_grows m m' p s : mem_grows m m' → string_kept m p s → string_kept m' p s.
Proof.
  intros Hg (Hp & Hl & Hb & Hs). split_and!; [done..| |done]. intros i Hi. destruct (Hb i Hi) as [Hk E].
  destruct (grows_kept _ _ Hg _ Hk) as [? ->]. done.
Qed.

Lemma alloc_cstr_room m k str :
  mem_ok m → is_Some (heap_allocator m) → Forall (λ x, 0 < x < 256) str → Z.of_nat (length str) < 15344 → mem_room (S k) m →
  ∃ p m', alloc_and_write_cstr str m = Ret (p, m') ∧ mem_grows m m' ∧ string_kept m' p str ∧ mem_room k m'.
Proof.
  intros Hm Hh Hs Hlen Hroom. set (n := Z.of_nat (length str)) in *. unfold alloc_and_write_cstr. fold n.
  rewrite !u32_ok by (unfold U32_MOD; lia). simpl. rewrite u32_ok by (unfold U32_MOD; lia). simpl.
  destruct (mem_alloc_room m k (n + 1)) as (p & m1 & -> & Hg & Hf & Hr); [done|done|lia|done|]. simpl.
  destruct (fresh_range _ _ _ _ Hf) as [Hp0 Hp1].
  unfold bytes_at_mut_copy, in_bounds. destruct (Z.leb_spec (p + n) U32_MOD); [|lia]. simpl.
  unfold n at 1. rewrite Z.eqb_refl. simpl. rewrite ptr_add_1 by lia. simpl.
  unfold write_u8, write_u. rewrite mem_write_eq by (simpl; lia). simpl.
  set (m2 := set_bytes _ (set_bytes _ m1)).
  assert (∀ a, byte_at m2 a = if decide (p ≤ a < p + n) then default 0 (str !! Z.to_nat (a - p))
                              else if decide (a = p + n) then 0 else byte_at m1 a) as Hby.
  { intros a. unfold m2, byte_at. simpl. destruct (decide (a = p + n)) as [->|Hne].
    - rewrite lookup_insert_eq, decide_False by lia. done.
    - rewrite lookup_insert_ne by done. rewrite store_lookup. fold n. by case_decide. }
  destruct (mem_grows_fill m m1 m2 p (n + 1) k) as (Hg2 & Hf2 & Hr2); [done..| |].
  { intros a Ha. rewrite Hby, !decide_False by lia. done. }
  exists p, m2. split; [done|]. split_and!; [done| |done].
  split_and!; [lia|unfold n in *; lia| |done]. fold n. intros i Hi. split.
  - right. destruct (fresh_live _ _ _ _ Hf2) as (j & ? & ?). exists p, j. split; [done|lia].
  - rewrite Hby. case_decide; [by replace (p + i - p) with i by lia|].
    rewrite decide_True by lia. by rewrite (proj2 (lookup_ge_None _ _)) by (unfold n in *; lia).
Qed.

(** A block whose first word is [v]: an object and its [isa]. *)
Definition word_kept (m : Mem) (p v : Z) : Prop :=
  0 < p ∧ p + 4 < U32_MOD ∧ (∀ a, p ≤ a < p + 4 → mem_kept m a) ∧ read_u32 p m = Ret v.

Lemma read_u32_same p m m' :
  0 ≤ p → p + 4 ≤ U32_MOD → (∀ a, p ≤ a < p + 4 → byte_at m' a = byte_at m a) → read_u32 p m' = read_u32 p m.
Proof.
  intros H0 Hp Hb. unfold read_u32, read_u. rewrite !mem_read_eq by (unfold U32_MOD in *; simpl; lia).
  cbn [mbind outcome_bind]. f_equal. f_equal. apply list_fmap_ext. intros i x Hx. apply Hb. apply lookup_seqZ in Hx. lia.
Qed.

Lemma word_kept_grows m m' p v : mem_grows m m' → word_kept m p v → word_kept m' p v.
Proof.
  intros Hg (Hp & Hl & Hk & E). split_and!; [done..| |].
  - intros a Ha. by apply (grows_kept _ _ Hg a), Hk.
  - rewrite (read_u32_same p m); [done|lia|lia|]. intros a Ha. by apply (grows_kept _ _ Hg a), Hk.
Qed.

(** The start-up memory of [demo_mem] has room for a hundred blocks; its null page is in use. *)
Lemma demo_mem_room :
  ∃ m, demo_mem = Ret (4096, None, m) ∧ mem_ok m ∧ is_Some (heap_allocator m) ∧ mem_room 100 m ∧
    null_segment_size m = 4096 ∧ ∀ a, 0 ≤ a < 4096 → mem_static m a.
Proof.
  destruct demo_mem_ok as (m & E & Hm & (h & Eh & Hl) & _). exists m.
  assert (chunks (vm_unused_chunks (vm_allocator m)) !! 2101248 = Some 4291817472 ∧ null_segment_size m = 4096 ∧
          vm_used_chunks (vm_allocator m) !! 0 = Some 4096 ∧
          ∃ h', heap_allocator m = Some h' ∧ backing_chunks h' = [mkChunk 4096 2097152] ∧ external_chunks h' = ∅) as (Hc & Hn & Hu & h' & Eh' & Hb & He).
  { clear -E. vm_compute in E. injection E as <-. split_and!; [reflexivity..|]. eexists. split_and!; reflexivity. }
  split_and!; [done|done|by exists h| |done|].
  - intros _. exists 2101248, 4291817472. split; [done|]. vm_compute. discriminate.
  - intros a Ha. unfold mem_static. rewrite Eh'. unfold mem_ok in Hm. rewrite Eh' in Hm. split_and!.
    + exists 0, 4096. split; [done|lia].
    + rewrite (heap_backing _ _ Hm), Hb. intros (c & ->%list_elem_of_singleton & Hin). unfold chunk_in in Hin. simpl in Hin. lia.
    + rewrite He. intros (b & s & Hbs & _). by rewrite lookup_empty in Hbs.
Qed.

(** ** Words of memory *)

Definition word_at (m : Mem) (p : Z) : Z := from_le_bytes (byte_at m <$> addr_range p 4).

Lemma read_u32_word m p : 0 ≤ p → p + 4 ≤ U32_MOD → read_u32 p m = Ret (word_at m p).
Proof. intros H0 Hp. unfold read_u32, read_u. by rewrite mem_read_eq by (unfold U32_MOD in *; simpl; lia). Qed.

Lemma word_at_same m m' p : (∀ a, p ≤ a < p + 4 → byte_at m' a = byte_at m a) → word_at m' p = word_at m p.
Proof. intros H. unfold word_at. f_equal. apply list_fmap_ext. intros i x Hx. apply H. apply lookup_seqZ in Hx. lia. Qed.

(** [m'] differs from [m] only in the bytes at addresses in [P]. *)
Record patched (P : Z → Prop) (m m' : Mem) : Prop := {
  patched_heap : heap_allocator m' = heap_allocator m;
  patched_vm : vm_allocator m' = vm_allocator m;
  patched_null : null_segment_size m' = null_segment_size m;
  patched_bytes a : ¬ P a → byte_at m' a = byte_at m a
}.

Lemma patched_trans (P Q R : Z → Prop) m1 m2 m3 : (∀ a, P a ∨ Q a → R a) → patched P m1 m2 → patched Q m2 m3 → patched R m1 m3.
Proof.
  intros HR [H1 V1 N1 B1] [H2 V2 N2 B2]. split; [congruence..|]. intros a Ha.
  rewrite B2, B1; [done|intros ?; apply Ha, HR; by left|intros ?; apply Ha, HR; by right].
Qed.
Lemma patched_weaken (P Q : Z → Prop) m m' : (∀ a, P a → Q a) → patched P m m' → patched Q m m'.
Proof. intros HPQ [? ? ? Hb]. split; [done..|]. intros a Ha. apply Hb. intros ?. by apply Ha, HPQ. Qed.
Lemma patched_ok P m m' : patched P m m' → mem_ok m → mem_ok m'.
Proof. intros [Eh Ev _ _]. unfold mem_ok. by rewrite Eh, Ev. Qed.
Lemma patched_live P m m' b n : patched P m m' → mem_live m b n → mem_live m' b n.
Proof. intros [Eh _ _ _]. unfold mem_live. by rewrite Eh. Qed.
Lemma patched_static P m m' a : patched P m m' → mem_static m a → mem_static m' a.
Proof. intros [Eh Ev _ _]. unfold mem_static. by rewrite Eh, Ev. Qed.
Lemma patched_word P m m' p : patched P m m' → (∀ a, p ≤ a < p + 4 → ¬ P a) → word_at m' p = word_at m p.
Proof. intros Hp H. apply word_at_same. intros a Ha. by apply (patched_bytes _ _ _ Hp), H. Qed.

Lemma write_u32_word m p v :
  0 ≤ p → p + 4 < U32_MOD → 0 ≤ v < U32_MOD →
  ∃ m', write_u32 p v m = Ret m' ∧ patched (λ a, p ≤ a < p + 4) m m' ∧ word_at m' p = v.
Proof.
  intros H0 Hp Hv. destruct (write_read_spec 4 p v m) as (m' & E & R & B & Eh & Ev & En); [lia|lia|lia|].
  exists m'. split; [done|]. split; [by split|]. fold read_u32 in R. rewrite read_u32_word in R by lia. injection R as ->.
  change (256 ^ Z.of_nat 4) with U32_MOD. by apply Z.mod_small.
Qed.
