(* ===== verification/GenericChar.v ===== *)
(** * C strings of any character type ([libc/generic_char.rs])

    The functions of [GenericChar<T>], generic in the character type, as loops
    over guest memory.  [string.rs] and [wchar.rs] instantiate them at [u8] and
    at [wchar_t] (file [CString]).  A loop that looks for a terminator adds one
    to a [u32] offset or to a pointer each time, so it returns or panics within
    2^32 + 1 iterations and 2^33 iterations are always enough. *)

From S2P Require Import Prelude ChunkMap SizeBucketed VMAllocator HeapAllocator GuestMem.

(** The character type: its size in bytes and the value of a bit pattern. *)
Class GuestChar := { char_size : nat; char_decode : Z → Z }.

(** What the functions rely on: values of the type survive being stored, and the
    default value is 0. *)
Class GuestCharLaws (T : GuestChar) := {
  char_valid : Z → Prop;
  char_size_ok : (0 < char_size ≤ 4)%nat;
  char_decode_encode v : char_valid v → char_decode (v mod 256 ^ Z.of_nat char_size) = v;
  char_decode_valid v : char_valid (char_decode v);
  char_null_valid : char_valid 0
}.

Inductive Ordering := Less | Equal | Greater.
Definition cmp (a b : Z) : Ordering := if a <? b then Less else if a =? b then Equal else Greater.

(** [strlcpy] and [strncmp] take a bound of [GuestUSize::MAX] for "none". *)
Definition USIZE_MAX : Z := U32_MOD - 1.

Section generic_char.
Context {T : GuestChar}.

Definition GenericChar_null : Z := 0.
Definition guest_size : Z := Z.of_nat char_size.

(** [env.mem.read(p)] and [env.mem.write(p, c)] for a [Ptr<T>], and [p + i]. *)
Definition char_add (p i : Z) : outcome Z := ptr_add guest_size p i.
Definition char_read (p : Z) (m : Mem) : outcome Z := v ← read_u char_size p m; Ret (char_decode v).
Definition char_write (p c : Z) (m : Mem) : outcome Mem := write_u char_size p c m.
Definition char_at (p i : Z) (m : Mem) : outcome Z := q ← char_add p i; char_read q m.
Definition char_set (p i c : Z) (m : Mem) : outcome Mem := q ← char_add p i; char_write q c m.

(** A [loop] whose offset is a [u32]. *)
Definition c_loop {S R} (body : S → outcome (S + R)) (s : S) : outcome R := loop_end (run_loop 33 body s).

(** ** Blocks *)

Definition GenericChar_memset (dest ch count dest_count : Z) (m : Mem) : outcome (Z * Mem) :=
  rassert (count <=? dest_count);;
  m' ← for_count count (λ i m, char_set dest i ch m) m;
  Ret (dest, m').

Definition GenericChar_memmove (dest src size dest_size : Z) (m : Mem) : outcome (Z * Mem) :=
  rassert (size <=? dest_size);;
  n ← u32 (size * guest_size);
  m' ← memmove dest src n m;
  Ret (dest, m').

(** [memcpy] has the body of [memmove]. *)
Definition GenericChar_memcpy (dest src size dest_size : Z) (m : Mem) : outcome (Z * Mem) :=
  GenericChar_memmove dest src size dest_size m.

Definition memcmp_body (a b n : Z) (m : Mem) (offset : Z) : outcome (Z + Z) :=
  if negb (offset <? n) then Ret (inr 0)
  else
    char_a ← char_at a offset m;
    char_b ← char_at b offset m;
    offset ← u32 (offset + 1);
    match cmp char_a char_b with
    | Less => Ret (inr (-1))
    | Greater => Ret (inr 1)
    | Equal => Ret (inl offset)
    end.
Definition GenericChar_memcmp (a b n : Z) (m : Mem) : outcome Z := c_loop (memcmp_body a b n m) 0.

Definition GenericChar_memchr (string c size : Z) (m : Mem) : outcome Z :=
  r ← for_range size (λ i s, x ← char_at string i m;
                            if x =? c then p ← char_add string i; Ret (inr p) else Ret (inl s)) ();
  match r with inl _ => Ret 0 | inr p => Ret p end.

(** ** Strings *)

Definition strlen_body (s : Z) (m : Mem) (i : Z) : outcome (Z + Z) :=
  c ← char_at s i m;
  if c =? GenericChar_null then Ret (inr i) else i' ← u32 (i + 1); Ret (inl i').
Definition GenericChar_strlen (s : Z) (m : Mem) : outcome Z := c_loop (strlen_body s m) 0.

Definition strcpy_body (x : Z * Z * Z * Mem) : outcome (Z * Z * Z * Mem + Mem) :=
  let '(dest, src, bufsz, m) := x in
  rassert (negb (bufsz =? 0));;
  c ← char_read src m;
  m ← char_write dest c m;
  if c =? GenericChar_null then Ret (inr m)
  else
    dest ← char_add dest 1;
    src ← char_add src 1;
    bufsz ← u32 (bufsz - 1);
    Ret (inl (dest, src, bufsz, m)).
Definition GenericChar_strcpy (dest src bufsz : Z) (m : Mem) : outcome (Z * Mem) :=
  m' ← c_loop strcpy_body (dest, src, bufsz, m);
  Ret (dest, m').

Definition GenericChar_strcat (dest src bufsz : Z) (m : Mem) : outcome (Z * Mem) :=
  dest_len ← GenericChar_strlen dest m;
  dest' ← char_add dest dest_len;
  remaining ← u32 (bufsz - dest_len);
  '(_, m') ← GenericChar_strcpy dest' src remaining m;
  Ret (dest, m').

(** The inner loops of [strspn] and [strcspn], and of [strpbrk]: is [c] in the set? *)
Definition in_charset_body (charset c : Z) (m : Mem) (j : Z) : outcome (Z + bool) :=
  cc ← char_at charset j m;
  if c =? cc then Ret (inr true)
  else if cc =? GenericChar_null then Ret (inr false)
  else j' ← u32 (j + 1); Ret (inl j').
Definition strpbrk_inner_body (charset c : Z) (m : Mem) (j : Z) : outcome (Z + bool) :=
  cc ← char_at charset j m;
  if cc =? GenericChar_null then Ret (inr false)
  else if c =? cc then Ret (inr true)
  else j' ← u32 (j + 1); Ret (inl j').

Definition strspn_body (s charset : Z) (m : Mem) (i : Z) : outcome (Z + Z) :=
  c ← char_at s i m;
  if c =? GenericChar_null then Ret (inr i)
  else
    found ← c_loop (in_charset_body charset c m) 0;
    if negb found then Ret (inr i) else i' ← u32 (i + 1); Ret (inl i').
Definition GenericChar_strspn (s charset : Z) (m : Mem) : outcome Z := c_loop (strspn_body s charset m) 0.

Definition strcspn_body (s charset : Z) (m : Mem) (i : Z) : outcome (Z + Z) :=
  c ← char_at s i m;
  if c =? GenericChar_null then Ret (inr i)
  else
    found ← c_loop (in_charset_body charset c m) 0;
    if (found : bool) then Ret (inr i) else i' ← u32 (i + 1); Ret (inl i').
Definition GenericChar_strcspn (s charset : Z) (m : Mem) : outcome Z := c_loop (strcspn_body s charset m) 0.

Definition strncpy_body (dest src i : Z) (x : bool * Mem) : outcome (bool * Mem) :=
  let '(end_, m) := x in
  if negb end_ then
    c ← char_at src i m;
    m ← char_set dest i c m;
    Ret (c =? GenericChar_null, m)
  else m ← char_set dest i GenericChar_null m; Ret (true, m).
Definition GenericChar_strncpy (dest src size dest_size : Z) (m : Mem) : outcome (Z * Mem) :=
  rassert (negb (dest_size <? size));;
  '(_, m') ← for_count size (strncpy_body dest src) (false, m);
  Ret (dest, m').

Definition GenericChar_strdup (src : Z) (m : Mem) : outcome (Z * Mem) :=
  len ← GenericChar_strlen src m;
  n ← u32 (len + 1);
  n ← u32 (n * guest_size);
  '(new, m) ← mem_alloc n m;
  GenericChar_strcpy new src USIZE_MAX m.

Definition strcmp_body (a b : Z) (m : Mem) (offset : Z) : outcome (Z + Z) :=
  char_a ← char_at a offset m;
  char_b ← char_at b offset m;
  offset ← u32 (offset + 1);
  match cmp char_a char_b with
  | Less => Ret (inr (-1))
  | Greater => Ret (inr 1)
  | Equal => if char_a =? GenericChar_null then Ret (inr 0) else Ret (inl offset)
  end.
Definition GenericChar_strcmp (a b : Z) (m : Mem) : outcome Z := c_loop (strcmp_body a b m) 0.

Definition strncmp_body (a b n : Z) (m : Mem) (offset : Z) : outcome (Z + Z) :=
  char_a ← char_at a offset m;
  char_b ← char_at b offset m;
  offset ← u32 (offset + 1);
  match cmp char_a char_b with
  | Less => Ret (inr (-1))
  | Greater => Ret (inr 1)
  | Equal => if (offset =? n) || (char_a =? GenericChar_null) then Ret (inr 0) else Ret (inl offset)
  end.
Definition GenericChar_strncmp (a b n : Z) (m : Mem) : outcome Z :=
  if n =? 0 then Ret 0 else c_loop (strncmp_body a b n m) 0.

Definition GenericChar_strncat (s1 s2 n : Z) (m : Mem) : outcome (Z * Mem) :=
  len ← GenericChar_strlen s1 m;
  s1end ← char_add s1 len;
  r ← for_range n (λ i m, c ← char_at s2 i m;
                         m ← char_set s1end i c m;
                         if c =? GenericChar_null then Ret (inr m) else Ret (inl m)) m;
  match r with
  | inr m => Ret (s1, m)
  | inl m => m ← char_set s1end n GenericChar_null m; Ret (s1, m)
  end.

(** The inner loop of [strstr]: [Some p] returns [p], [None] goes to the next offset. *)
Definition strstr_inner (string substring : Z) (m : Mem) (offset inner_offset : Z) : outcome (Z + option Z) :=
  p ← char_add string offset;
  char_string ← char_at p inner_offset m;
  char_substring ← char_at substring inner_offset m;
  if char_substring =? GenericChar_null then Ret (inr (Some p))
  else if char_string =? GenericChar_null then Ret (inr (Some 0))
  else if negb (char_string =? char_substring) then Ret (inr None)
  else inner_offset' ← u32 (inner_offset + 1); Ret (inl inner_offset').
Definition strstr_body (string substring : Z) (m : Mem) (offset : Z) : outcome (Z + Z) :=
  r ← c_loop (strstr_inner string substring m offset) 0;
  match r with
  | Some p => Ret (inr p)
  | None => offset' ← u32 (offset + 1); Ret (inl offset')
  end.
Definition GenericChar_strstr (string substring : Z) (m : Mem) : outcome Z :=
  c_loop (strstr_body string substring m) 0.

Definition strchr_body (string char len : Z) (m : Mem) (offset : Z) : outcome (Z + Z) :=
  p ← char_add string offset;
  c ← char_read p m;
  if c =? char then Ret (inr p)
  else if offset =? len then Ret (inr 0)
  else offset' ← u32 (offset + 1); Ret (inl offset').
Definition GenericChar_strchr (string char : Z) (m : Mem) : outcome Z :=
  len ← GenericChar_strlen string m;
  c_loop (strchr_body string char len m) 0.

Definition strrchr_body (string char : Z) (m : Mem) (offset : Z) : outcome (Z + Z) :=
  p ← char_add string offset;
  c ← char_read p m;
  if c =? char then Ret (inr p)
  else if offset =? 0 then Ret (inr 0)
  else offset' ← u32 (offset - 1); Ret (inl offset').
Definition GenericChar_strrchr (string char : Z) (m : Mem) : outcome Z :=
  offset ← GenericChar_strlen string m;
  c_loop (strrchr_body string char m) offset.

Definition strpbrk_body (string charset : Z) (m : Mem) (i : Z) : outcome (Z + Z) :=
  c ← char_at string i m;
  if c =? GenericChar_null then Ret (inr 0)
  else
    found ← c_loop (strpbrk_inner_body charset c m) 0;
    if (found : bool) then p ← char_add string i; Ret (inr p) else i' ← u32 (i + 1); Ret (inl i').
Definition GenericChar_strpbrk (string charset : Z) (m : Mem) : outcome Z :=
  c_loop (strpbrk_body string charset m) 0.

Definition strlcpy_body (dst src size : Z) (x : Z * Mem) : outcome (Z * Mem + Z * Mem) :=
  let '(i, m) := x in
  c ← char_at src i m;
  last ← u32 (size - 1);
  m ← match cmp i last with
      | Less => char_set dst i c m
      | Equal => char_set dst i GenericChar_null m
      | Greater => Ret m
      end;
  if c =? GenericChar_null then Ret (inr (i, m)) else i' ← u32 (i + 1); Ret (inl (i', m)).
Definition GenericChar_strlcpy (dst src size : Z) (m : Mem) : outcome (Z * Mem) :=
  c_loop (strlcpy_body dst src size) (0, m).
End generic_char.
