(* ===== verification/GenericCharFacts.v ===== *)
(** * What the string functions compute

    Strings in guest memory as lists of characters ([chars_at], [cstring]), the
    reference definitions on lists, and for each function of [GenericChar] the
    lemma that relates the two.  The lemmas about loops give the number of
    iterations, so they also show that the loops end. *)

From S2P Require Import Prelude ChunkMap SizeBucketed VMAllocator HeapAllocator GuestMem GenericChar.

(** ** Reference definitions *)

Definition sign_of (o : Ordering) : Z := match o with Less => -1 | Equal => 0 | Greater => 1 end.

(** Lexicographic comparison, the end of a list counting as the character 0. *)
Fixpoint str_compare (a b : list Z) : Z :=
  match a, b with
  | [], [] => 0
  | [], y :: _ => sign_of (cmp 0 y)
  | x :: _, [] => sign_of (cmp x 0)
  | x :: a', y :: b' => match cmp x y with Equal => str_compare a' b' | o => sign_of o end
  end.

(** Length of the longest prefix whose elements satisfy [f]. *)
Fixpoint span_len (f : Z → bool) (l : list Z) : nat :=
  match l with
  | [] => O
  | x :: l' => if f x then S (span_len f l') else O
  end.

(** Index of the first occurrence of [sub]. *)
Fixpoint find_sub (sub l : list Z) : option nat :=
  if decide (sub `prefix_of` l) then Some O
  else match l with [] => None | _ :: l' => S <$> find_sub sub l' end.

Lemma find_sub_Some sub l i :
  find_sub sub l = Some i ↔ sub `prefix_of` drop i l ∧ (i ≤ length l)%nat ∧ ∀ j, (j < i)%nat → ¬ sub `prefix_of` drop j l.
Proof.
  revert i. induction l as [|x l IH]; intros i; simpl; case_decide as Hp.
  - split; [intros [= <-]; split_and!; [done|lia|lia]|]. intros (_ & ? & _). f_equal. lia.
  - split; [done|]. intros (H & _). by rewrite drop_nil in H.
  - split; [intros [= <-]; split_and!; [done|lia|lia]|]. intros (_ & _ & H). destruct i as [|i]; [done|].
    exfalso. by apply (H O); [lia|].
  - destruct i as [|i]; [split; [by destruct (find_sub sub l)|intros (? & _); done]|].
    transitivity (find_sub sub l = Some i). { destruct (find_sub sub l); simpl; naive_solver. }
    rewrite IH. simpl. split.
    + intros (? & ? & H). split_and!; [done|lia|]. intros [|j] ?; [done|]. apply H. lia.
    + intros (? & ? & H). split_and!; [done|lia|]. intros j ?. apply (H (S j)). lia.
Qed.

Definition mem_of (set : list Z) (c : Z) : bool := bool_decide (c ∈ set).

(** The pointer to index [i] of a string, or [NULL]. *)
Definition ptr_or_null (size p : Z) (i : option nat) : Z :=
  match i with Some i => p + size * Z.of_nat i | None => 0 end.

Section facts.
Context {T : GuestChar} {L : GuestCharLaws T}.
Implicit Types (m : Mem) (l s : list Z).

(** ** Characters in memory *)

Definition char_val m (p : Z) : Z := char_decode (from_le_bytes (byte_at m <$> addr_range p guest_size)).

(** The characters [l] from [p] on, below the top of the address space. *)
Definition chars_at m (p : Z) l : Prop :=
  0 ≤ p ∧ p + guest_size * Z.of_nat (length l) < U32_MOD ∧
  ∀ i c, l !! i = Some c → char_val m (p + guest_size * Z.of_nat i) = c.

(** A string: characters other than 0, followed by 0. *)
Definition cstring m (p : Z) l : Prop := chars_at m p (l ++ [0]) ∧ Forall (λ c, c ≠ 0) l.

Lemma guest_size_pos : 1 ≤ guest_size ≤ 4.
Proof. unfold guest_size. pose proof char_size_ok as Hcs. lia. Qed.

Lemma char_add_eq p i : 0 ≤ p → 0 ≤ i → p + guest_size * i < U32_MOD → char_add p i = Ret (p + guest_size * i).
Proof.
  pose proof guest_size_pos as Hgs. intros ???. unfold char_add, ptr_add.
  destruct (Z.eqb_spec guest_size 0); [lia|]. simpl. rewrite u32_ok by nia. simpl. rewrite u32_ok by nia.
  f_equal. lia.
Qed.

Lemma char_read_eq p m : 0 ≤ p → p + guest_size ≤ U32_MOD → char_read p m = Ret (char_val m p).
Proof.
  pose proof guest_size_pos as Hgs. intros ??. unfold char_read, read_u, char_val. fold guest_size.
  rewrite mem_read_eq by (unfold U32_MOD in *; lia). done.
Qed.

Lemma char_at_eq m p l i c :
  chars_at m p l → l !! i = Some c → char_at p (Z.of_nat i) m = Ret c.
Proof.
  pose proof guest_size_pos as Hgs. intros (? & Hb & Hl) Hi. pose proof (lookup_lt_Some _ _ _ Hi).
  unfold char_at. rewrite char_add_eq by nia. simpl. rewrite char_read_eq by nia. f_equal. by apply Hl.
Qed.

Lemma char_write_spec p c m :
  char_valid c → 0 ≤ p → p + guest_size < U32_MOD →
  ∃ m', char_write p c m = Ret m' ∧ char_val m' p = c ∧
    (∀ a, ¬ (p ≤ a < p + guest_size) → byte_at m' a = byte_at m a) ∧
    heap_allocator m' = heap_allocator m ∧ vm_allocator m' = vm_allocator m ∧ null_segment_size m' = null_segment_size m.
Proof.
  intros Hc ??. pose proof char_size_ok as Hcs. pose proof guest_size_pos as Hgs.
  destruct (write_read_spec char_size p c m) as (m' & E & R & F & A); [lia|done|done|].
  exists m'. split; [done|]. split_and!; [|done|apply A..].
  unfold read_u in R. fold guest_size in R. rewrite mem_read_eq in R by (unfold U32_MOD in *; lia).
  simpl in R. injection R as R. unfold char_val. rewrite R. by apply char_decode_encode.
Qed.

Lemma char_val_frame m m' p :
  (∀ a, p ≤ a < p + guest_size → byte_at m' a = byte_at m a) → char_val m' p = char_val m p.
Proof.
  intros H. unfold char_val. do 2 f_equal. apply list_fmap_ext. intros i a Ha.
  unfold addr_range in Ha. apply lookup_seqZ in Ha. apply H. lia.
Qed.

Lemma chars_at_frame m m' p l :
  (∀ a, p ≤ a < p + guest_size * Z.of_nat (length l) → byte_at m' a = byte_at m a) →
  chars_at m p l → chars_at m' p l.
Proof.
  pose proof guest_size_pos as Hgs. intros H (? & ? & Hl). split_and!; [done..|]. intros i c Hi.
  pose proof (lookup_lt_Some _ _ _ Hi). rewrite <- (Hl i c Hi). apply char_val_frame. intros a ?. apply H. nia.
Qed.

Lemma chars_at_app m p l1 l2 :
  chars_at m p (l1 ++ l2) ↔ chars_at m p l1 ∧ chars_at m (p + guest_size * Z.of_nat (length l1)) l2.
Proof.
  pose proof guest_size_pos as Hgs. unfold chars_at. rewrite length_app, Nat2Z.inj_add, Z.mul_add_distr_l.
  assert (0 ≤ guest_size * Z.of_nat (length l1)) by nia. assert (0 ≤ guest_size * Z.of_nat (length l2)) by nia. split.
  - intros (? & ? & H'). split; split_and!; [done|lia| |lia|lia|].
    + intros i c Hi. apply H'. by apply lookup_app_l_Some.
    + intros i c Hi. rewrite <- (H' (length l1 + i)%nat c); [f_equal; lia|]. by rewrite lookup_app_r, Nat.add_comm, Nat.add_sub by lia.
  - intros [(? & ? & Hl1) (? & ? & Hl2)]. split_and!; [done|lia|]. intros i c [Hi|[Hi Hc]]%lookup_app_Some; [auto|].
    rewrite <- (Hl2 _ _ Hc), Nat2Z.inj_sub by lia. f_equal. lia.
Qed.

Lemma chars_at_valid m p l i c : chars_at m p l → l !! i = Some c → char_valid c.
Proof. intros (_ & _ & H) Hi. rewrite <- (H i c Hi). apply char_decode_valid. Qed.

Lemma chars_at_bound m p l : chars_at m p l → 0 ≤ p ∧ p + guest_size * Z.of_nat (length l) < U32_MOD ∧ Z.of_nat (length l) < U32_MOD.
Proof. pose proof guest_size_pos as Hgs. intros (? & ? & _). split_and!; [done..|]. nia. Qed.

(** Reading character [length l1] of [l1 ++ c :: l2]. *)
Lemma char_at_mid m p l1 c l2 :
  chars_at m p (l1 ++ c :: l2) → char_at p (Z.of_nat (length l1)) m = Ret c.
Proof. intros H. apply (char_at_eq m p _ _ c H). by rewrite list_lookup_middle. Qed.

(** Reading [i] of a string whose suffix from [i] is [l2]. *)
Definition head0 l : Z := match l with [] => 0 | c :: _ => c end.
Lemma cstring_at m p l1 l2 :
  cstring m p (l1 ++ l2) → char_at p (Z.of_nat (length l1)) m = Ret (head0 l2).
Proof. intros [H _]. rewrite <- app_assoc in H. destruct l2 as [|c l2]; by eapply char_at_mid. Qed.

Lemma cstring_bound m p l : cstring m p l → 0 ≤ p ∧ p + guest_size * (Z.of_nat (length l) + 1) < U32_MOD ∧ Z.of_nat (length l) + 1 < U32_MOD.
Proof. pose proof guest_size_pos as Hgs. intros [H _]. apply chars_at_bound in H. rewrite length_app in H. simpl in H. nia. Qed.

Lemma cstring_nz m p l1 c l2 : cstring m p (l1 ++ c :: l2) → (c =? GenericChar_null) = false.
Proof. intros [_ H]. apply Forall_app in H as [_ H]. apply Forall_cons in H as [H _]. by apply Z.eqb_neq. Qed.

(** One more character moves from the suffix to the prefix. *)
Lemma cstring_cons m p l1 c l2 : cstring m p (l1 ++ c :: l2) → cstring m p ((l1 ++ [c]) ++ l2).
Proof. by rewrite <- app_assoc. Qed.
Lemma length_snoc_Z l (c : Z) : Z.of_nat (length (l ++ [c])) = Z.of_nat (length l) + 1.
Proof. rewrite length_app. simpl. lia. Qed.

Lemma offset_u32 m p l1 c l2 :
  cstring m p (l1 ++ c :: l2) → u32 (Z.of_nat (length l1) + 1) = Ret (Z.of_nat (length (l1 ++ [c]))).
Proof.
  intros H. apply cstring_bound in H. rewrite length_app in H. simpl in H.
  rewrite u32_ok by lia. by rewrite length_snoc_Z.
Qed.

(** The result of a loop that ends within the length of a string. *)
Lemma c_loop_iterates {S R} (body : S → outcome (S + R)) n (s : S) r :
  iterates body n s r → n ≤ U32_MOD → c_loop body s = r.
Proof. intros H ?. apply (iterates_loop _ _ _ _ _ H). unfold U32_MOD in *. lia. Qed.
#[global] Opaque c_loop.

(** ** Searching *)

Lemma strlen_iterates m p l1 l2 :
  cstring m p (l1 ++ l2) →
  iterates (strlen_body p m) (Z.of_nat (length l2) + 1) (Z.of_nat (length l1)) (Ret (Z.of_nat (length (l1 ++ l2)))).
Proof.
  revert l1. induction l2 as [|c l2 IH]; intros l1 H.
  - apply iterates_stop. unfold strlen_body. rewrite (cstring_at m p l1 [] H). simpl. by rewrite app_nil_r.
  - rewrite (cons_middle c l1 l2), app_assoc. cbn [length]. rewrite Nat2Z.inj_succ.
    eapply iterates_step; [|apply IH; by apply cstring_cons].
    unfold strlen_body. rewrite (cstring_at _ _ _ _ H). simpl. rewrite (cstring_nz _ _ _ _ _ H).
    by rewrite (offset_u32 _ _ _ _ _ H).
Qed.

Lemma strlen_spec m p l : cstring m p l → GenericChar_strlen p m = Ret (Z.of_nat (length l)).
Proof.
  intros H. pose proof (cstring_bound _ _ _ H). apply (c_loop_iterates _ (Z.of_nat (length l) + 1)); [|lia].
  apply (strlen_iterates m p [] l H).
Qed.

Lemma cmp_refl c : cmp c c = Equal.
Proof. unfold cmp. by rewrite Z.ltb_irrefl, Z.eqb_refl. Qed.
Lemma cmp_eq a b : cmp a b = Equal → a = b.
Proof. unfold cmp. repeat zcase; [done|done|done]. Qed.

Lemma strcmp_iterates m p q a1 a2 b1 b2 :
  cstring m p (a1 ++ a2) → cstring m q (b1 ++ b2) → length a1 = length b1 →
  ∃ n, n ≤ Z.of_nat (length a2) + 1 ∧
    iterates (strcmp_body p q m) n (Z.of_nat (length a1)) (Ret (str_compare a2 b2)).
Proof.
  revert a1 b1 b2. induction a2 as [|x a2 IH]; intros a1 b1 b2 Ha Hb Hlen;
    pose proof (cstring_bound _ _ _ Ha) as Hbd; rewrite length_app in Hbd; cbn [length] in *;
    assert (u32 (Z.of_nat (length a1) + 1) = Ret (Z.of_nat (length a1) + 1)) as Eo by (apply u32_ok; lia);
    assert (char_at q (Z.of_nat (length a1)) m = Ret (head0 b2)) as Eb by (rewrite Hlen; by apply cstring_at).
  - exists 1. split; [lia|]. apply iterates_stop. unfold strcmp_body.
    rewrite (cstring_at m p a1 [] Ha). simpl. rewrite Eb. simpl. rewrite Eo. simpl.
    destruct b2 as [|y b2]; simpl; [done|]. destruct (cmp 0 y) eqn:E; [done| |done].
    by apply cmp_eq in E.
  - pose proof (cstring_nz _ _ _ _ _ Ha) as Hnz. destruct (cmp x (head0 b2)) eqn:E.
    1,3: exists 1; split; [lia|]; apply iterates_stop; unfold strcmp_body;
      rewrite (cstring_at _ _ _ _ Ha); simpl; rewrite Eb; simpl; rewrite Eo; simpl; rewrite E;
      destruct b2; simpl in *; by rewrite E.
    apply cmp_eq in E. destruct b2 as [|y b2]; simpl in E; [subst x; done|]. subst y.
    destruct (IH (a1 ++ [x]) (b1 ++ [x]) b2) as (n & Hn & IT).
    { by apply cstring_cons. } { by apply cstring_cons. } { rewrite !length_app. simpl. lia. }
    exists (n + 1). split; [lia|]. cbn [str_compare]. rewrite cmp_refl. eapply iterates_step; [|exact IT].
    unfold strcmp_body. rewrite (cstring_at _ _ _ _ Ha). simpl. rewrite Eb. simpl. rewrite Eo. simpl.
    rewrite cmp_refl, Hnz. by rewrite length_snoc_Z.
Qed.

Lemma strcmp_spec m p q a b :
  cstring m p a → cstring m q b → GenericChar_strcmp p q m = Ret (str_compare a b).
Proof.
  intros Ha Hb. pose proof (cstring_bound _ _ _ Ha).
  destruct (strcmp_iterates m p q [] a [] b Ha Hb eq_refl) as (n & ? & IT).
  apply (c_loop_iterates _ n); [exact IT|lia].
Qed.

Lemma strncmp_iterates m p q a1 a2 b1 b2 k :
  cstring m p (a1 ++ a2) → cstring m q (b1 ++ b2) → length a1 = length b1 →
  ∃ n, n ≤ Z.of_nat (length a2) + 1 ∧
    iterates (strncmp_body p q (Z.of_nat (length a1 + S k)) m) n (Z.of_nat (length a1))
      (Ret (str_compare (take (S k) a2) (take (S k) b2))).
Proof.
  revert a1 b1 b2 k. induction a2 as [|x a2 IH]; intros a1 b1 b2 k Ha Hb Hlen;
    pose proof (cstring_bound _ _ _ Ha) as Hbd; rewrite length_app in Hbd; cbn [length] in *;
    assert (u32 (Z.of_nat (length a1) + 1) = Ret (Z.of_nat (length a1) + 1)) as Eo by (apply u32_ok; lia);
    assert (char_at q (Z.of_nat (length a1)) m = Ret (head0 b2)) as Eb by (rewrite Hlen; by apply cstring_at).
  - exists 1. split; [lia|]. apply iterates_stop. unfold strncmp_body.
    rewrite (cstring_at m p a1 [] Ha). simpl. rewrite Eb. simpl. rewrite Eo. simpl.
    destruct b2 as [|y b2]; simpl; [by rewrite orb_true_r|]. destruct (cmp 0 y) eqn:E; [done| |done].
    apply cmp_eq in E. subst y. by rewrite orb_true_r.
  - pose proof (cstring_nz _ _ _ _ _ Ha) as Hnz. destruct (cmp x (head0 b2)) eqn:E.
    1,3: exists 1; split; [lia|]; apply iterates_stop; unfold strncmp_body;
      rewrite (cstring_at _ _ _ _ Ha); simpl; rewrite Eb; simpl; rewrite Eo; simpl; rewrite E;
      destruct b2; simpl in *; by rewrite E.
    apply cmp_eq in E. destruct b2 as [|y b2]; simpl in E; [subst x; done|]. subst y.
    cbn [take str_compare]. rewrite cmp_refl. destruct k as [|k].
    + exists 1. split; [lia|]. apply iterates_stop. unfold strncmp_body.
      rewrite (cstring_at _ _ _ _ Ha). simpl. rewrite Eb. simpl. rewrite Eo. simpl. rewrite cmp_refl.
      rewrite (proj2 (Z.eqb_eq _ _)) by lia. by destruct a2, b2.
    + destruct (IH (a1 ++ [x]) (b1 ++ [x]) b2 k) as (n & Hn & IT).
      { by apply cstring_cons. } { by apply cstring_cons. } { rewrite !length_app. simpl. lia. }
      exists (n + 1). split; [lia|]. rewrite length_app in IT. cbn [length] in IT.
      replace (length a1 + 1 + S k)%nat with (length a1 + S (S k))%nat in IT by lia.
      eapply iterates_step; [|exact IT].
      unfold strncmp_body. rewrite (cstring_at _ _ _ _ Ha). simpl. rewrite Eb. simpl. rewrite Eo. simpl.
      rewrite cmp_refl, Hnz. rewrite (proj2 (Z.eqb_neq _ _)) by lia. simpl. do 2 f_equal. lia.
Qed.

Lemma strncmp_spec m p q a b n :
  cstring m p a → cstring m q b → 0 ≤ n →
  GenericChar_strncmp p q n m = Ret (str_compare (take (Z.to_nat n) a) (take (Z.to_nat n) b)).
Proof.
  intros Ha Hb Hn. unfold GenericChar_strncmp. destruct (Z.eqb_spec n 0) as [->|]; [done|].
  pose proof (cstring_bound _ _ _ Ha).
  destruct (strncmp_iterates m p q [] a [] b (Z.to_nat (n - 1)) Ha Hb eq_refl) as (k & ? & IT).
  replace (S (Z.to_nat (n - 1))) with (Z.to_nat n) in IT by lia. simpl in IT. rewrite Z2Nat.id in IT by lia.
  apply (c_loop_iterates _ k); [exact IT|lia].
Qed.

Lemma memcmp_iterates m p q a1 a2 b1 b2 :
  chars_at m p (a1 ++ a2) → chars_at m q (b1 ++ b2) → length a1 = length b1 → length a2 = length b2 →
  ∃ n, n ≤ Z.of_nat (length a2) + 1 ∧
    iterates (memcmp_body p q (Z.of_nat (length (a1 ++ a2))) m) n (Z.of_nat (length a1)) (Ret (str_compare a2 b2)).
Proof.
  revert a1 b1 b2. induction a2 as [|x a2 IH]; intros a1 b1 b2 Ha Hb H1 H2; destruct b2 as [|y b2]; try done.
  - exists 1. split; [simpl; lia|]. apply iterates_stop. unfold memcmp_body.
    rewrite app_nil_r, Z.ltb_irrefl. done.
  - assert ((Z.of_nat (length a1) <? Z.of_nat (length (a1 ++ x :: a2))) = true) as Hlt.
    { apply Z.ltb_lt. rewrite length_app. simpl. lia. }
    assert (u32 (Z.of_nat (length a1) + 1) = Ret (Z.of_nat (length a1) + 1)) as Eo.
    { apply u32_ok. apply chars_at_bound in Ha. rewrite length_app in Ha. simpl in Ha. lia. }
    assert (char_at q (Z.of_nat (length a1)) m = Ret y) as Eb by (rewrite H1; by eapply char_at_mid).
    destruct (cmp x y) eqn:E.
    1,3: exists 1; split; [simpl; lia|]; apply iterates_stop; unfold memcmp_body; rewrite Hlt; simpl;
      rewrite (char_at_mid _ _ _ _ _ Ha); simpl; rewrite Eb; simpl; rewrite Eo; simpl; by rewrite E.
    destruct (IH (a1 ++ [x]) (b1 ++ [y]) b2) as (n & Hn & IT).
    { by rewrite <- app_assoc. } { by rewrite <- app_assoc. } { rewrite !length_app; simpl; lia. } { by injection H2. }
    exists (n + 1). split; [simpl; lia|]. cbn [str_compare]. rewrite E. rewrite <- app_assoc in IT.
    eapply iterates_step; [|exact IT]. unfold memcmp_body. rewrite Hlt. simpl.
    rewrite (char_at_mid _ _ _ _ _ Ha). simpl. rewrite Eb. simpl. rewrite Eo. simpl. rewrite E.
    by rewrite length_snoc_Z.
Qed.

Lemma memcmp_spec m p q a b :
  chars_at m p a → chars_at m q b → length a = length b →
  GenericChar_memcmp p q (Z.of_nat (length a)) m = Ret (str_compare a b).
Proof.
  intros Ha Hb Hl. pose proof (chars_at_bound _ _ _ Ha).
  destruct (memcmp_iterates m p q [] a [] b Ha Hb eq_refl Hl) as (n & ? & IT).
  apply (c_loop_iterates _ n); [exact IT|lia].
Qed.

(** The two inner loops over a set of characters agree. *)
Lemma charset_iterates m q set1 set2 c :
  cstring m q (set1 ++ set2) → c ≠ 0 →
  ∃ n, n ≤ Z.of_nat (length set2) + 1 ∧
    iterates (in_charset_body q c m) n (Z.of_nat (length set1)) (Ret (mem_of set2 c)) ∧
    iterates (strpbrk_inner_body q c m) n (Z.of_nat (length set1)) (Ret (mem_of set2 c)).
Proof.
  revert set1. induction set2 as [|x set2 IH]; intros set1 H Hc.
  - exists 1. split; [simpl; lia|]. split; apply iterates_stop; unfold in_charset_body, strpbrk_inner_body;
      rewrite (cstring_at m q set1 [] H); simpl; by rewrite ?(proj2 (Z.eqb_neq c 0) Hc).
  - pose proof (cstring_nz _ _ _ _ _ H) as Hnz. destruct (Z.eqb_spec c x) as [->|Hne].
    + exists 1. split; [simpl; lia|]. unfold mem_of. rewrite bool_decide_eq_true_2 by set_solver.
      split; apply iterates_stop; unfold in_charset_body, strpbrk_inner_body;
        rewrite (cstring_at _ _ _ _ H); simpl; by rewrite ?Hnz, Z.eqb_refl.
    + destruct (IH (set1 ++ [x])) as (n & Hn & I1 & I2); [by apply cstring_cons|done|].
      exists (n + 1). split; [simpl; lia|].
      replace (mem_of (x :: set2) c) with (mem_of set2 c) by (unfold mem_of; apply bool_decide_ext; set_solver).
      split; (eapply iterates_step; [|eassumption]); unfold in_charset_body, strpbrk_inner_body;
        rewrite (cstring_at _ _ _ _ H); simpl; rewrite ?Hnz, (proj2 (Z.eqb_neq c x) Hne), ?Hnz;
        by rewrite (offset_u32 _ _ _ _ _ H).
Qed.

Lemma charset_spec m q set c :
  cstring m q set → c ≠ 0 →
  c_loop (in_charset_body q c m) 0 = Ret (mem_of set c) ∧ c_loop (strpbrk_inner_body q c m) 0 = Ret (mem_of set c).
Proof.
  intros H Hc. pose proof (cstring_bound _ _ _ H).
  destruct (charset_iterates m q [] set c H Hc) as (n & ? & I1 & I2).
  split; apply (c_loop_iterates _ n); [exact I1|lia|exact I2|lia].
Qed.

(** [strspn] and [strcspn] measure the same prefix, of members and of others. *)
Lemma span_iterates m p (f : Z → bool) (body : Z → outcome (Z + Z)) l1 l2 :
  cstring m p (l1 ++ l2) →
  (∀ i c, char_at p i m = Ret c →
     body i = if c =? 0 then Ret (inr i) else if negb (f c) then Ret (inr i) else i' ← u32 (i + 1); Ret (inl i')) →
  ∃ n, n ≤ Z.of_nat (length l2) + 1 ∧
    iterates body n (Z.of_nat (length l1)) (Ret (Z.of_nat (length l1 + span_len f l2))).
Proof.
  intros H Hbody. revert l1 H. induction l2 as [|c l2 IH]; intros l1 H.
  - exists 1. split; [simpl; lia|]. rewrite Nat.add_0_r. apply iterates_stop.
    by rewrite (Hbody _ _ (cstring_at m p l1 [] H)).
  - pose proof (Hbody _ _ (cstring_at _ _ _ _ H)) as E. simpl in E. rewrite (cstring_nz _ _ _ _ _ H : (c =? 0) = false) in E.
    cbn [span_len]. destruct (f c); simpl in E.
    + destruct (IH (l1 ++ [c])) as (n & Hn & IT); [by apply cstring_cons|]. exists (n + 1). split; [simpl; lia|].
      rewrite length_app in IT. cbn [length] in IT.
      replace (length l1 + S (span_len f l2))%nat with (length l1 + 1 + span_len f l2)%nat by lia.
      eapply iterates_step; [|exact IT]. rewrite E, (offset_u32 _ _ _ _ _ H). simpl. do 2 f_equal. rewrite length_app. simpl. lia.
    + exists 1. split; [simpl; lia|]. rewrite Nat.add_0_r. by apply iterates_stop.
Qed.

Lemma strspn_spec m p q l set :
  cstring m p l → cstring m q set →
  GenericChar_strspn p q m = Ret (Z.of_nat (span_len (mem_of set) l)) ∧
  GenericChar_strcspn p q m = Ret (Z.of_nat (span_len (λ c, negb (mem_of set c)) l)).
Proof.
  intros H Hs. pose proof (cstring_bound _ _ _ H).
  destruct (span_iterates m p (mem_of set) (strspn_body p q m) [] l H) as (n & ? & I1).
  { intros i c E. unfold strspn_body. rewrite E. cbn [mbind outcome_bind]. unfold GenericChar_null. destruct (Z.eqb_spec c 0); [done|].
    destruct (charset_spec m q set c Hs) as [-> _]; done. }
  destruct (span_iterates m p (λ c, negb (mem_of set c)) (strcspn_body p q m) [] l H) as (k & ? & I2).
  { intros i c E. unfold strcspn_body. rewrite E. cbn [mbind outcome_bind]. unfold GenericChar_null. destruct (Z.eqb_spec c 0); [done|].
    destruct (charset_spec m q set c Hs) as [-> _]; [done|]. simpl. by destruct (mem_of set c). }
  split; [apply (c_loop_iterates _ n); [exact I1|lia]|apply (c_loop_iterates _ k); [exact I2|lia]].
Qed.

Lemma strpbrk_iterates m p q l1 l2 set :
  cstring m p (l1 ++ l2) → cstring m q set →
  ∃ n, n ≤ Z.of_nat (length l2) + 1 ∧
    iterates (strpbrk_body p q m) n (Z.of_nat (length l1))
      (Ret (ptr_or_null guest_size p ((λ i, length l1 + i)%nat <$> position (mem_of set) l2))).
Proof.
  intros H Hs. revert l1 H. induction l2 as [|c l2 IH]; intros l1 H.
  - exists 1. split; [simpl; lia|]. apply iterates_stop. unfold strpbrk_body. by rewrite (cstring_at m p l1 [] H).
  - pose proof (cstring_nz _ _ _ _ _ H) as Hnz. pose proof (cstring_bound _ _ _ H) as Hb.
    rewrite length_app in Hb. cbn [length] in Hb. pose proof guest_size_pos as Hgs.
    destruct (charset_spec m q set c Hs) as [_ E]; [by apply Z.eqb_neq|]. cbn [position].
    destruct (mem_of set c) eqn:Em.
    + exists 1. split; [simpl; lia|]. simpl. rewrite Nat.add_0_r. apply iterates_stop. unfold strpbrk_body.
      rewrite (cstring_at _ _ _ _ H). simpl. rewrite Hnz, E. simpl. rewrite char_add_eq by nia. done.
    + destruct (IH (l1 ++ [c])) as (n & Hn & IT); [by apply cstring_cons|]. exists (n + 1). split; [simpl; lia|].
      rewrite length_app in IT. cbn [length] in IT.
      replace ((λ i, (length l1 + i)%nat) <$> (S <$> position (mem_of set) l2))
        with ((λ i, (length l1 + 1 + i)%nat) <$> position (mem_of set) l2)
        by (destruct (position (mem_of set) l2); simpl; f_equal; lia).
      eapply iterates_step; [|exact IT]. unfold strpbrk_body. rewrite (cstring_at _ _ _ _ H). simpl.
      rewrite Hnz, E. simpl. rewrite (offset_u32 _ _ _ _ _ H). simpl. by rewrite length_snoc_Z, Nat2Z.inj_add.
Qed.

Lemma strpbrk_spec m p q l set :
  cstring m p l → cstring m q set →
  GenericChar_strpbrk p q m = Ret (ptr_or_null guest_size p (position (mem_of set) l)).
Proof.
  intros H Hs. pose proof (cstring_bound _ _ _ H).
  destruct (strpbrk_iterates m p q [] l set H Hs) as (n & ? & IT).
  replace ((λ i, (length [] + i)%nat) <$> position (mem_of set) l) with (position (mem_of set) l) in IT
    by (by destruct (position (mem_of set) l)).
  apply (c_loop_iterates _ n); [exact IT|lia].
Qed.

(** Reading [p + i] for an index of the string or of its terminator. *)
Lemma cstring_lookup m p l i c :
  cstring m p l → (l ++ [0]) !! i = Some c →
  char_add p (Z.of_nat i) = Ret (p + guest_size * Z.of_nat i) ∧ char_read (p + guest_size * Z.of_nat i) m = Ret c.
Proof.
  intros [H _] Hi. pose proof guest_size_pos as Hgs. pose proof (lookup_lt_Some _ _ _ Hi) as Hlt.
  destruct H as (? & ? & Hl). rewrite char_add_eq by nia. split; [done|]. rewrite char_read_eq by nia.
  by rewrite (Hl i c Hi).
Qed.

Lemma strchr_iterates m p c l l1 l2 :
  cstring m p l → l ++ [0] = l1 ++ l2 → l2 ≠ [] →
  ∃ n, n ≤ Z.of_nat (length l2) ∧
    iterates (strchr_body p c (Z.of_nat (length l)) m) n (Z.of_nat (length l1))
      (Ret (ptr_or_null guest_size p ((λ i, length l1 + i)%nat <$> position (λ x, x =? c) l2))).
Proof.
  intros H. pose proof (cstring_bound _ _ _ H) as Hb.
  revert l1. induction l2 as [|x l2 IH]; intros l1 E Hne; [done|].
  assert (length l + 1 = length l1 + S (length l2))%nat as El.
  { apply (f_equal length) in E. rewrite !length_app in E. simpl in E. lia. }
  destruct (cstring_lookup m p l (length l1) x H) as [Ea Er]; [rewrite E; by apply list_lookup_middle|].
  cbn [position]. destruct (x =? c) eqn:Ex.
  - exists 1. split; [simpl; lia|]. simpl. rewrite Nat.add_0_r. apply iterates_stop. unfold strchr_body.
    rewrite Ea. simpl. rewrite Er. simpl. by rewrite Ex.
  - destruct l2 as [|y l2].
    + exists 1. split; [simpl; lia|]. apply iterates_stop. unfold strchr_body. rewrite Ea. simpl. rewrite Er. simpl.
      rewrite Ex. simpl in El. by rewrite (proj2 (Z.eqb_eq _ _)) by lia.
    + destruct (IH (l1 ++ [x])) as (n & Hn & IT); [by rewrite <- app_assoc|done|]. exists (n + 1).
      split; [simpl in *; lia|]. rewrite length_app in IT. cbn [length] in IT, El.
      replace ((λ i, (length l1 + i)%nat) <$> (S <$> position (λ x, x =? c) (y :: l2)))
        with ((λ i, (length l1 + 1 + i)%nat) <$> position (λ x, x =? c) (y :: l2))
        by (destruct (position (λ x, x =? c) (y :: l2)); simpl; f_equal; lia).
      eapply iterates_step; [|exact IT]. unfold strchr_body. rewrite Ea. simpl. rewrite Er. simpl. rewrite Ex.
      rewrite (proj2 (Z.eqb_neq _ _)) by lia. rewrite u32_ok by lia. simpl. by rewrite Nat2Z.inj_add.
Qed.

Lemma strchr_spec m p c l :
  cstring m p l → GenericChar_strchr p c m = Ret (ptr_or_null guest_size p (position (λ x, x =? c) (l ++ [0]))).
Proof.
  intros H. pose proof (cstring_bound _ _ _ H). unfold GenericChar_strchr. rewrite (strlen_spec _ _ _ H). simpl.
  destruct (strchr_iterates m p c l [] (l ++ [0]) H eq_refl) as (n & Hn & IT); [by destruct l|].
  rewrite length_app in Hn. simpl in Hn.
  replace ((λ i, (length [] + i)%nat) <$> position (λ x, x =? c) (l ++ [0])) with (position (λ x, x =? c) (l ++ [0])) in IT
    by (by destruct (position (λ x, x =? c) (l ++ [0]))).
  apply (c_loop_iterates _ n); [exact IT|lia].
Qed.

Lemma rposition_snoc (f : Z → bool) l x :
  rposition f (l ++ [x]) = if f x then Some (length l) else rposition f l.
Proof.
  induction l as [|y l IH]; simpl; [by destruct (f x)|]. rewrite IH. destruct (f x); [done|]. done.
Qed.

Lemma strrchr_iterates m p c l l1 x l2 :
  cstring m p l → l ++ [0] = (l1 ++ [x]) ++ l2 →
  ∃ n, n ≤ Z.of_nat (length l1) + 1 ∧
    iterates (strrchr_body p c m) n (Z.of_nat (length l1))
      (Ret (ptr_or_null guest_size p (rposition (λ x, x =? c) (l1 ++ [x])))).
Proof.
  intros H. pose proof (cstring_bound _ _ _ H) as Hb. revert x l2.
  induction l1 as [|y l1 IH] using rev_ind; intros x l2 E.
  - destruct (cstring_lookup m p l (length (@nil Z)) x H) as [Ea Er]; [by rewrite E|].
    exists 1. split; [simpl; lia|]. apply iterates_stop. unfold strrchr_body. rewrite Ea. cbn [mbind outcome_bind]. rewrite Er. cbn [mbind outcome_bind].
    simpl. by destruct (x =? c).
  - destruct (cstring_lookup m p l (length (l1 ++ [y])) x H) as [Ea Er].
    { rewrite E, <- app_assoc. by apply list_lookup_middle. }
    rewrite rposition_snoc. destruct (x =? c) eqn:Ex.
    + exists 1. split; [lia|]. apply iterates_stop. unfold strrchr_body. rewrite Ea. simpl. rewrite Er. simpl.
      by rewrite Ex.
    + destruct (IH y (x :: l2)) as (n & Hn & IT); [by rewrite E, <- !app_assoc|].
      exists (n + 1). rewrite length_snoc_Z in *. split; [lia|].
      assert (Z.of_nat (length l1) + 1 ≤ Z.of_nat (length l)).
      { apply (f_equal length) in E. rewrite !length_app in E. simpl in E. lia. }
      eapply iterates_step; [|exact IT]. unfold strrchr_body. rewrite Ea. simpl. rewrite Er. simpl. rewrite Ex.
      rewrite (proj2 (Z.eqb_neq _ _)) by lia. rewrite u32_ok by lia. simpl. do 2 f_equal. lia.
Qed.

Lemma strrchr_spec m p c l :
  cstring m p l → GenericChar_strrchr p c m = Ret (ptr_or_null guest_size p (rposition (λ x, x =? c) (l ++ [0]))).
Proof.
  intros H. pose proof (cstring_bound _ _ _ H). unfold GenericChar_strrchr. rewrite (strlen_spec _ _ _ H). simpl.
  destruct (strrchr_iterates m p c l l 0 [] H) as (n & Hn & IT); [by rewrite app_nil_r|].
  apply (c_loop_iterates _ n); [exact IT|lia].
Qed.

(** The inner loop of [strstr] at one offset: found, past the end, or go on. *)
Lemma strstr_inner_iterates m p q l1 a1 a2 b1 b2 :
  cstring m p (l1 ++ a1 ++ a2) → cstring m q (b1 ++ b2) → length a1 = length b1 →
  ∃ n r, n ≤ Z.of_nat (length a2) + 1 ∧
    iterates (strstr_inner p q m (Z.of_nat (length l1))) n (Z.of_nat (length a1)) (Ret r) ∧
    match r with
    | None => ¬ b2 `prefix_of` a2 ∧ a2 ≠ []
    | Some r' => if decide (b2 `prefix_of` a2) then r' = p + guest_size * Z.of_nat (length l1)
                 else r' = 0 ∧ (length a2 < length b2)%nat
    end.
Proof.
  revert a1 b1 b2. induction a2 as [|x a2 IH]; intros a1 b1 b2 Ha Hb Hlen;
    pose proof (cstring_bound _ _ _ Ha) as Hbd; rewrite !length_app in Hbd; cbn [length] in *;
    pose proof guest_size_pos as Hgs;
    assert (char_add p (Z.of_nat (length l1)) = Ret (p + guest_size * Z.of_nat (length l1))) as Ep
      by (apply char_add_eq; nia);
    assert (char_at q (Z.of_nat (length a1)) m = Ret (head0 b2)) as Eb by (rewrite Hlen; by apply cstring_at);
    assert (cstring m (p + guest_size * Z.of_nat (length l1)) (a1 ++ _)) as Ha'
      by (destruct Ha as [Hc Hf]; rewrite <- app_assoc in Hc; apply chars_at_app in Hc as [_ Hc];
          apply Forall_app in Hf as [_ Hf]; split; [exact Hc|exact Hf]).
  - destruct b2 as [|y b2].
    + exists 1, (Some (p + guest_size * Z.of_nat (length l1))). split; [lia|]. rewrite decide_True by apply prefix_nil.
      split; [|done]. apply iterates_stop. unfold strstr_inner. rewrite Ep. simpl.
      rewrite (cstring_at _ _ a1 [] Ha'). simpl. by rewrite Eb.
    + exists 1, (Some 0). split; [lia|]. rewrite decide_False by (by intros [? ?]). split.
      * apply iterates_stop. unfold strstr_inner. rewrite Ep. simpl. rewrite (cstring_at _ _ a1 [] Ha'). simpl.
        rewrite Eb. simpl. by rewrite (cstring_nz _ _ _ _ _ Hb).
      * split; [done|]. simpl. lia.
  - destruct b2 as [|y b2].
    + exists 1, (Some (p + guest_size * Z.of_nat (length l1))). split; [lia|]. rewrite decide_True by apply prefix_nil.
      split; [|done]. apply iterates_stop. unfold strstr_inner. rewrite Ep. simpl.
      rewrite (cstring_at _ _ _ _ Ha'). simpl. by rewrite Eb.
    + pose proof (cstring_nz _ _ _ _ _ Ha') as Hx. pose proof (cstring_nz _ _ _ _ _ Hb) as Hy.
      destruct (Z.eqb_spec x y) as [->|Hne].
      * destruct (IH (a1 ++ [y]) (b1 ++ [y]) b2) as (n & r & Hn & IT & Hr).
        { by rewrite <- app_assoc. } { by rewrite <- app_assoc. } { rewrite !length_app. simpl. lia. }
        exists (n + 1), r. split; [lia|]. split.
        -- eapply iterates_step; [|exact IT]. unfold strstr_inner. rewrite Ep. simpl.
           rewrite (cstring_at _ _ _ _ Ha'). simpl. rewrite Eb. simpl. rewrite Hy. simpl. rewrite Z.eqb_refl. simpl.
           by rewrite (offset_u32 _ _ _ _ _ Ha').
        -- destruct r as [r|]; [|split; [intros ?%prefix_cons_inv_2; by apply (proj1 Hr)|done]].
           destruct (decide (b2 `prefix_of` a2)) as [Hp|Hp].
           ++ by rewrite decide_True by (by apply prefix_cons).
           ++ rewrite decide_False by (by intros ?%prefix_cons_inv_2). destruct Hr as [-> Hr]. split; [done|]. simpl. lia.
      * exists 1, None. split; [lia|]. split.
        -- apply iterates_stop. unfold strstr_inner. rewrite Ep. simpl.
           rewrite (cstring_at _ _ _ _ Ha'). simpl. rewrite Eb. simpl. rewrite Hy, Hx.
           by rewrite (proj2 (Z.eqb_neq x y) Hne).
        -- split; [|done]. intros ?%prefix_cons_inv_1. by apply Hne.
Qed.

Lemma strstr_iterates m p q l1 l2 sub :
  cstring m p (l1 ++ l2) → cstring m q sub →
  ∃ n, n ≤ Z.of_nat (length l2) + 1 ∧
    iterates (strstr_body p q m) n (Z.of_nat (length l1))
      (Ret (ptr_or_null guest_size p ((λ i, length l1 + i)%nat <$> find_sub sub l2))).
Proof.
  intros H Hs. revert l1 H. induction l2 as [|c l2 IH]; intros l1 H;
    pose proof (cstring_bound _ _ _ H) as Hb; rewrite length_app in Hb;
    destruct (strstr_inner_iterates m p q l1 [] _ [] sub H Hs eq_refl) as (k & r & Hk & IT & Hr);
    apply c_loop_iterates in IT; [|cbn [length] in *; lia| |cbn [length] in *; lia].
  - exists 1. split; [simpl; lia|]. destruct r as [r|]; [|by destruct Hr]. apply iterates_stop.
    unfold strstr_body. change (Z.of_nat (length (@nil Z))) with 0 in IT. rewrite IT. simpl. f_equal. f_equal.
    destruct (decide (sub `prefix_of` [])) as [Hp|Hp]; simpl; [by rewrite Nat.add_0_r|by destruct Hr].
  - cbn [find_sub]. destruct r as [r|].
    + exists 1. split; [simpl; lia|]. apply iterates_stop. unfold strstr_body. change (Z.of_nat (length (@nil Z))) with 0 in IT. rewrite IT. simpl. f_equal. f_equal.
      destruct (decide (sub `prefix_of` c :: l2)) as [Hp|Hp]; simpl; [by rewrite Nat.add_0_r|].
      destruct Hr as [-> Hr]. destruct (find_sub sub l2) as [i|] eqn:Ef; [|done].
      apply find_sub_Some in Ef as (Ef & _). apply prefix_length in Ef. rewrite length_drop in Ef. simpl in Hr. lia.
    + rewrite decide_False by apply Hr.
      destruct (IH (l1 ++ [c])) as (n & Hn & IT'); [by apply cstring_cons|]. exists (n + 1). split; [simpl; lia|].
      rewrite length_app in IT'. cbn [length] in IT'.
      replace ((λ i, (length l1 + i)%nat) <$> (S <$> find_sub sub l2))
        with ((λ i, (length l1 + 1 + i)%nat) <$> find_sub sub l2) by (destruct (find_sub sub l2); simpl; f_equal; lia).
      eapply iterates_step; [|exact IT']. unfold strstr_body. change (Z.of_nat (length (@nil Z))) with 0 in IT. rewrite IT. simpl.
      rewrite (offset_u32 _ _ _ _ _ H). simpl. by rewrite length_snoc_Z, Nat2Z.inj_add.
Qed.

Lemma strstr_spec m p q l sub :
  cstring m p l → cstring m q sub →
  GenericChar_strstr p q m = Ret (ptr_or_null guest_size p (find_sub sub l)).
Proof.
  intros H Hs. pose proof (cstring_bound _ _ _ H).
  destruct (strstr_iterates m p q [] l sub H Hs) as (n & ? & IT).
  replace ((λ i, (length [] + i)%nat) <$> find_sub sub l) with (find_sub sub l) in IT by (by destruct (find_sub sub l)).
  apply (c_loop_iterates _ n); [exact IT|lia].
Qed.

Lemma memchr_spec m p c l :
  chars_at m p l →
  GenericChar_memchr p c (Z.of_nat (length l)) m = Ret (ptr_or_null guest_size p (position (λ x, x =? c) l)).
Proof.
  intros H. pose proof (chars_at_bound _ _ _ H) as (? & ? & ?). pose proof guest_size_pos as Hgs.
  unfold GenericChar_memchr. match goal with |- context [for_range _ ?b _] => set (body := b) end.
  destruct (for_range_spec (Z.of_nat (length l)) body (λ i _, ∀ j x, (j < Z.to_nat i)%nat → l !! j = Some x → (x =? c) = false)
    (λ y, match y with inl _ => 0 | inr q => q end = ptr_or_null guest_size p (position (λ x, x =? c) l)) ())
    as (y & -> & Hy); [lia|lia| | |].
  - intros i [] Hi HI. unfold body. destruct (lookup_lt_is_Some_2 l (Z.to_nat i)) as [x Hx]; [lia|].
    assert (char_at p i m = Ret x) as ->. { rewrite <- (Z2Nat.id i) by lia. by apply (char_at_eq m p l). } simpl.
    destruct (x =? c) eqn:Ex; [right|left].
    + rewrite char_add_eq by nia. eexists. split; [done|]. simpl.
      destruct (position (λ x, x =? c) l) as [k|] eqn:Ek.
      * apply position_Some in Ek as (z & Hz & Hzc & Hk). simpl.
        assert (k = Z.to_nat i) as ->; [|by rewrite Z2Nat.id by lia].
        destruct (decide (k < Z.to_nat i)%nat) as [Hlt|]; [by rewrite (HI k z Hlt Hz) in Hzc|].
        destruct (decide (Z.to_nat i < k)%nat) as [Hlt|]; [by rewrite (Hk _ _ Hlt Hx) in Ex|lia].
      * by rewrite (position_None _ _ Ek x (list_elem_of_lookup_2 _ _ _ Hx)) in Ex.
    + exists (). split; [done|]. intros j z Hj Hz. destruct (decide (j = Z.to_nat i)) as [->|]; [by simplify_eq|].
      apply (HI j); [lia|done].
  - intros [] HI. rewrite Nat2Z.id in HI. destruct (position (λ x, x =? c) l) as [k|] eqn:Ek; [|done].
    apply position_Some in Ek as (z & Hz & Hzc & _). rewrite (HI k z) in Hzc; [done|by eapply lookup_lt_Some|done].
  - simpl. rewrite <- Hy. by destruct y.
Qed.
End facts.
