(* ===== verification/GenericCharWrites.v ===== *)
(** * The string functions that write

    [wrote m m' p l]: from [m] to [m'] the characters [l] were written from [p]
    on and nothing else changed.  Each function that copies or fills writes the
    characters its reference says, when the destination does not overlap the
    source; the checked versions panic when the destination is too small. *)

From S2P Require Import Prelude ChunkMap SizeBucketed VMAllocator HeapAllocator GuestMem GenericChar GenericCharFacts.

Section writes.
Context {T : GuestChar} {L : GuestCharLaws T}.
Implicit Types (m : Mem) (l : list Z).

Definition same_allocators m m' : Prop :=
  heap_allocator m' = heap_allocator m ∧ vm_allocator m' = vm_allocator m ∧ null_segment_size m' = null_segment_size m.

Record wrote m m' (p : Z) l : Prop := {
  wrote_chars : chars_at m' p l;
  wrote_rest a : ¬ (p ≤ a < p + guest_size * Z.of_nat (length l)) → byte_at m' a = byte_at m a;
  wrote_allocators : same_allocators m m'
}.

(** [n] characters at [p] and [k] characters at [q] do not overlap. *)
Definition apart (p : Z) (n : nat) (q : Z) (k : nat) : Prop :=
  p + guest_size * Z.of_nat n ≤ q ∨ q + guest_size * Z.of_nat k ≤ p.

(** Room for [n] characters at [p]. *)
Definition room (p : Z) (n : nat) : Prop := 0 ≤ p ∧ p + guest_size * Z.of_nat n < U32_MOD.

Lemma wrote_nil m p : 0 ≤ p < U32_MOD → wrote m m p [].
Proof. intros ?. split; [|done|done]. unfold chars_at. simpl. split_and!; [lia|lia|done]. Qed.

(** One more character. *)
Lemma wrote_snoc m m1 p l c :
  wrote m m1 p l → char_valid c → room p (length l + 1) →
  ∃ m2, char_write (p + guest_size * Z.of_nat (length l)) c m1 = Ret m2 ∧ wrote m m2 p (l ++ [c]).
Proof.
  intros [Hc Hr Ha] Hv [Hp Hb]. pose proof guest_size_pos as Hgs. rewrite Nat2Z.inj_add in Hb.
  set (q := p + guest_size * Z.of_nat (length l)).
  destruct (char_write_spec q c m1) as (m2 & E & Hq & Hf & A1 & A2 & A3); [done|unfold q; nia|unfold q; nia|].
  exists m2. split; [done|]. split.
  - apply chars_at_app. split.
    + apply (chars_at_frame m1); [|done]. intros a ?. apply Hf. fold q in H. lia.
    + fold q. split_and!; [unfold q; nia|simpl; unfold q; nia|]. intros [|i] x Hx; simpl in Hx; [|done]. simplify_eq.
      by rewrite Z.mul_0_r, Z.add_0_r.
  - intros a Hna. rewrite length_app, Nat2Z.inj_add in Hna. simpl in Hna. rewrite Hf by (unfold q; lia).
    apply Hr. lia.
  - destruct Ha as (? & ? & ?). unfold same_allocators. by rewrite A1, A2, A3.
Qed.

(** What was not written to is as it was. *)
Lemma wrote_apart m m' p l q k :
  wrote m m' p l → apart p (length l) q (length k) → chars_at m q k → chars_at m' q k.
Proof.
  intros [_ Hr _] Hap. apply chars_at_frame. intros a Ha. apply Hr. destruct Hap; lia.
Qed.

Lemma wrote_cstring m m' p l : wrote m m' p (l ++ [0]) → Forall (λ c, c ≠ 0) l → cstring m' p l.
Proof. intros [H _ _] ?. by split. Qed.

Lemma apart_le p n n' q k k' : (n' ≤ n)%nat → (k' ≤ k)%nat → apart p n q k → apart p n' q k'.
Proof. pose proof guest_size_pos as Hgs. unfold apart. intros ?? [|]; [left|right]; nia. Qed.

Lemma char_set_snoc m m1 p l c :
  wrote m m1 p l → char_valid c → room p (length l + 1) →
  ∃ m2, char_set p (Z.of_nat (length l)) c m1 = Ret m2 ∧ wrote m m2 p (l ++ [c]).
Proof.
  intros Hw Hv Hroom. destruct (wrote_snoc _ _ _ _ _ Hw Hv Hroom) as (m2 & E & ?). exists m2. split; [|done].
  pose proof guest_size_pos as Hgs. destruct Hroom. unfold char_set. rewrite char_add_eq by nia. exact E.
Qed.

(** ** [memset] *)

Lemma memset_spec m dest ch count dest_count :
  char_valid ch → 0 ≤ count < U32_MOD → count ≤ dest_count → room dest (Z.to_nat count) →
  ∃ m', GenericChar_memset dest ch count dest_count m = Ret (dest, m') ∧ wrote m m' dest (replicate (Z.to_nat count) ch).
Proof.
  intros Hv Hc Hd Hroom. pose proof guest_size_pos as Hgs.
  destruct (for_count_spec count (λ i m, char_set dest i ch m) (λ i m1, wrote m m1 dest (replicate (Z.to_nat i) ch)) m)
    as (m' & E & Hw); [done| | |].
  - apply (wrote_nil m). destruct Hroom. nia.
  - intros i m1 Hi Hw. destruct (char_set_snoc _ _ _ _ ch Hw Hv) as (m2 & E & Hw2).
    { destruct Hroom. rewrite length_replicate. split; [done|nia]. }
    rewrite length_replicate, Z2Nat.id in E by lia. exists m2. split; [done|].
    replace (Z.to_nat (i + 1)) with (S (Z.to_nat i)) by lia. by rewrite replicate_S_end.
  - exists m'. split; [|done]. unfold GenericChar_memset. rewrite assert_bind by (by apply Z.leb_le). by mrun E.
Qed.

(** ** [strcpy] and [strcat] *)

(** Reading the source of a copy while the destination is being written. *)
Lemma source_read m m1 dest l src l1 l2 :
  cstring m src (l1 ++ l2) → wrote m m1 dest l → apart dest (length l) src (length (l1 ++ l2) + 1) →
  char_read (src + guest_size * Z.of_nat (length l1)) m1 = Ret (head0 l2) ∧
  char_at src (Z.of_nat (length l1)) m1 = Ret (head0 l2) ∧ char_valid (head0 l2).
Proof.
  intros [Hc Hz] Hw Hap.
  assert (cstring m1 src (l1 ++ l2)) as H1.
  { split; [|done]. apply (wrote_apart _ _ _ _ _ _ Hw); [|done]. by rewrite (length_app _ [0]). }
  assert (((l1 ++ l2) ++ [0]) !! length l1 = Some (head0 l2)) as Hi.
  { rewrite <- app_assoc. destruct l2; by apply list_lookup_middle. }
  split_and!; [|by apply cstring_at|].
  - by apply (cstring_lookup m1 src (l1 ++ l2)).
  - by eapply chars_at_valid.
Qed.

Lemma strcpy_iterates m m1 dest src bufsz l1 l2 :
  cstring m src (l1 ++ l2) → wrote m m1 dest l1 → room dest (length (l1 ++ l2) + 1) →
  apart dest (length (l1 ++ l2) + 1) src (length (l1 ++ l2) + 1) →
  Z.of_nat (length (l1 ++ l2)) < bufsz ≤ USIZE_MAX →
  ∃ n m', n ≤ Z.of_nat (length l2) + 1 ∧ wrote m m' dest ((l1 ++ l2) ++ [0]) ∧
    iterates strcpy_body n (dest + guest_size * Z.of_nat (length l1), src + guest_size * Z.of_nat (length l1),
                            bufsz - Z.of_nat (length l1), m1) (Ret m').
Proof.
  pose proof guest_size_pos as Hgs.
  revert l1 m1. induction l2 as [|c l2 IH]; intros l1 m1 Hs Hw Hr Hap Hbuf; pose proof (cstring_bound _ _ _ Hs) as Hsb;
    pose proof Hbuf as Hbuf'; pose proof Hr as [Hr0 Hr1]; rewrite length_app in Hbuf', Hr1, Hsb; cbn [length] in Hbuf', Hr1, Hsb;
    (destruct (source_read m m1 dest l1 src l1 _ Hs Hw) as (Er & _ & Hv);
     [eapply apart_le; [..|exact Hap]; rewrite ?length_app; simpl; lia|]);
    (destruct (wrote_snoc m m1 dest l1 _ Hw Hv) as (m2 & Ew & Hw2); [split; [done|nia]|]);
    cbn [head0] in *; (assert ((bufsz - Z.of_nat (length l1) =? 0) = false) as Eb by (apply Z.eqb_neq; lia)).
  - exists 1, m2. rewrite app_nil_r in *. split; [simpl; lia|]. split; [done|]. apply iterates_stop.
    unfold strcpy_body. rewrite Eb. simpl. rewrite Er. simpl. by rewrite Ew.
  - destruct (IH (l1 ++ [c]) m2) as (n & m' & Hn & Hw' & IT); [by apply cstring_cons|done| | | |].
    { by rewrite <- app_assoc. } { by rewrite <- app_assoc. } { by rewrite <- app_assoc. }
    exists (n + 1), m'. split; [simpl; lia|]. split; [by rewrite <- !app_assoc in *|].
    eapply iterates_step; [|exact IT]. unfold strcpy_body. rewrite Eb. simpl. rewrite Er. simpl. rewrite Ew. simpl.
    rewrite (cstring_nz _ _ _ _ _ Hs). rewrite !char_add_eq by nia. simpl. unfold USIZE_MAX in *. u32_simpl.
    rewrite length_snoc_Z. feq_lia.
Qed.

Lemma strcpy_spec m dest src bufsz l :
  cstring m src l → room dest (length l + 1) → apart dest (length l + 1) src (length l + 1) →
  Z.of_nat (length l) < bufsz ≤ USIZE_MAX →
  ∃ m', GenericChar_strcpy dest src bufsz m = Ret (dest, m') ∧ wrote m m' dest (l ++ [0]).
Proof.
  intros Hs Hr Hap Hb. pose proof guest_size_pos as Hgs. pose proof (cstring_bound _ _ _ Hs) as Hsb.
  destruct (strcpy_iterates m m dest src bufsz [] l) as (n & m' & Hn & Hw & IT); [done| |done..|].
  { apply wrote_nil. destruct Hr. nia. }
  exists m'. split; [|done]. cbn [length Z.of_nat] in IT. rewrite Z.mul_0_r, !Z.add_0_r, Z.sub_0_r in IT.
  unfold GenericChar_strcpy. rewrite (c_loop_iterates _ n _ _ IT) by lia. done.
Qed.

(** A buffer that is too small is found out before a byte is written past it. *)
Lemma strcpy_overrun m m1 dest src bufsz l1 l2 :
  cstring m src (l1 ++ l2) → wrote m m1 dest l1 → room dest (Z.to_nat bufsz) →
  apart dest (Z.to_nat bufsz) src (length (l1 ++ l2) + 1) →
  Z.of_nat (length l1) ≤ bufsz ≤ Z.of_nat (length (l1 ++ l2)) →
  ∃ n, n ≤ Z.of_nat (length l2) + 1 ∧
    iterates strcpy_body n (dest + guest_size * Z.of_nat (length l1), src + guest_size * Z.of_nat (length l1),
                            bufsz - Z.of_nat (length l1), m1) Panic.
Proof.
  pose proof guest_size_pos as Hgs.
  revert l1 m1. induction l2 as [|c l2 IH]; intros l1 m1 Hs Hw Hr Hap Hbuf; pose proof (cstring_bound _ _ _ Hs) as Hsb;
    (destruct (Z.eqb_spec (bufsz - Z.of_nat (length l1)) 0) as [E0|E0];
     [exists 1; split; [simpl; lia|]; apply iterates_panic; unfold strcpy_body; rewrite E0; done|]).
  { rewrite app_nil_r in Hbuf. lia. }
  pose proof Hbuf as Hbuf'. pose proof Hr as [Hr0 Hr1]. rewrite length_app in Hbuf', Hsb; cbn [length] in Hbuf', Hsb.
  destruct (source_read m m1 dest l1 src l1 _ Hs Hw) as (Er & _ & Hv).
  { eapply apart_le; [..|exact Hap]; rewrite ?length_app; simpl; lia. }
  destruct (wrote_snoc m m1 dest l1 _ Hw Hv) as (m2 & Ew & Hw2); [split; [done|nia]|]. cbn [head0] in *.
  destruct (IH (l1 ++ [c]) m2) as (n & Hn & IT); [by apply cstring_cons|done|done| | |].
  { by rewrite <- app_assoc. } { rewrite <- app_assoc, length_snoc_Z. simpl. lia. }
  exists (n + 1). split; [simpl; lia|]. eapply iterates_step; [|exact IT]. unfold strcpy_body.
  rewrite (proj2 (Z.eqb_neq _ _) E0). simpl. rewrite Er. simpl. rewrite Ew. simpl.
  rewrite (cstring_nz _ _ _ _ _ Hs). rewrite !char_add_eq by nia. simpl. u32_simpl.
  rewrite length_snoc_Z. feq_lia.
Qed.

Lemma strcpy_overrun_spec m dest src bufsz l :
  cstring m src l → room dest (Z.to_nat bufsz) → apart dest (Z.to_nat bufsz) src (length l + 1) →
  0 ≤ bufsz ≤ Z.of_nat (length l) → GenericChar_strcpy dest src bufsz m = Panic.
Proof.
  intros Hs Hr Hap Hb. pose proof guest_size_pos as Hgs. pose proof (cstring_bound _ _ _ Hs) as Hsb.
  destruct (strcpy_overrun m m dest src bufsz [] l) as (n & Hn & IT); [done| |done|done|done|].
  { apply wrote_nil. destruct Hr. nia. }
  cbn [length Z.of_nat] in IT. rewrite Z.mul_0_r, !Z.add_0_r, Z.sub_0_r in IT.
  unfold GenericChar_strcpy. rewrite (c_loop_iterates _ n _ _ IT) by lia. done.
Qed.

Lemma strcat_spec m dest src bufsz d l :
  cstring m dest d → cstring m src l → room dest (length d + length l + 1) →
  apart dest (length d + length l + 1) src (length l + 1) →
  Z.of_nat (length d + length l) < bufsz ≤ USIZE_MAX →
  ∃ m', GenericChar_strcat dest src bufsz m = Ret (dest, m') ∧ cstring m' dest (d ++ l) ∧
    ∀ a, ¬ (dest ≤ a < dest + guest_size * Z.of_nat (length d + length l + 1)) → byte_at m' a = byte_at m a.
Proof.
  intros Hd Hs Hr Hap Hb. pose proof guest_size_pos as Hgs. pose proof (cstring_bound _ _ _ Hd) as Hdb.
  destruct Hr as [Hr0 Hr]. unfold GenericChar_strcat, USIZE_MAX in *. mrun (strlen_spec _ _ _ Hd).
  rewrite char_add_eq, ret_bind by nia. rewrite u32_ok, ret_bind by lia.
  set (q := dest + guest_size * Z.of_nat (length d)).
  destruct (strcpy_spec m q src (bufsz - Z.of_nat (length d)) l) as (m' & E & Hw); [done| | |unfold USIZE_MAX; lia|].
  { split; unfold q; nia. } { unfold q, apart in *. destruct Hap; [left|right]; nia. }
  exists m'. split; [by mrun E|]. rewrite !Nat2Z.inj_add. destruct Hd as [Hdc Hdz], Hs as [Hsc Hsz]. split.
  - split; [|by apply Forall_app]. rewrite <- app_assoc. apply chars_at_app. split; [|by apply Hw].
    apply chars_at_app in Hdc as [Hdc _]. apply (chars_at_frame m); [|done]. intros a ?. apply (wrote_rest _ _ _ _ Hw).
    fold q in H. lia.
  - intros a Ha. apply (wrote_rest _ _ _ _ Hw). rewrite length_app, Nat2Z.inj_add. cbn [length]. unfold q. nia.
Qed.

(** ** Bounded copies *)

Lemma take_snoc l i x : l !! i = Some x → take (i + 1) l = take i l ++ [x].
Proof. intros H. rewrite Nat.add_1_r. by apply take_S_r. Qed.

Lemma take_nat_Z l i x :
  0 ≤ i → l !! Z.to_nat i = Some x → take (Z.to_nat (i + 1)) l = take (Z.to_nat i) l ++ [x].
Proof. intros ? H. replace (Z.to_nat (i + 1)) with (Z.to_nat i + 1)%nat by lia. by apply take_snoc. Qed.

(** Character [i] of the source, read while the destination is being written. *)
Lemma source_at m m1 dest k src l i :
  cstring m src l → wrote m m1 dest k → apart dest (length k) src (length l + 1) → 0 ≤ i ≤ Z.of_nat (length l) →
  ∃ c, char_at src i m1 = Ret c ∧ (l ++ [0]) !! Z.to_nat i = Some c ∧ char_valid c ∧
       (c =? GenericChar_null) = (i =? Z.of_nat (length l)).
Proof.
  intros Hs Hw Hap Hi.
  destruct (source_read m m1 dest k src (take (Z.to_nat i) l) (drop (Z.to_nat i) l)) as (_ & E & Hv);
    [by rewrite take_drop|done|by rewrite take_drop|].
  rewrite length_take_le, Z2Nat.id in E by lia.
  exists (head0 (drop (Z.to_nat i) l)). split; [done|].
  destruct Hs as [_ Hz]. destruct (decide (i = Z.of_nat (length l))) as [->|].
  - rewrite Nat2Z.id, drop_all in *. simpl. rewrite Z.eqb_refl. split_and!; [by rewrite list_lookup_middle|done|done].
  - destruct (lookup_lt_is_Some_2 l (Z.to_nat i)) as [x Hx]; [lia|].
    rewrite (drop_S _ _ _ Hx) in *. simpl in *. split_and!; [by rewrite lookup_app_l_Some with (x := x)|done|].
    rewrite (proj2 (Z.eqb_neq i _)) by done. apply Z.eqb_neq. by apply (Forall_lookup_1 _ _ _ _ Hz Hx).
Qed.

(** [strncpy] pads with zeros, and does not terminate a string of [size] or more. *)
Lemma strncpy_spec m dest src size dest_size l :
  cstring m src l → 0 ≤ size < U32_MOD → size ≤ dest_size → room dest (Z.to_nat size) →
  apart dest (Z.to_nat size) src (length l + 1) →
  ∃ m', GenericChar_strncpy dest src size dest_size m = Ret (dest, m') ∧
    wrote m m' dest (take (Z.to_nat size) (l ++ replicate (Z.to_nat size) 0)).
Proof.
  intros Hs Hn Hd Hroom Hap. pose proof guest_size_pos as Hgs. set (full := l ++ replicate (Z.to_nat size) 0).
  assert (∀ i, 0 ≤ i ≤ size → Z.of_nat (length (take (Z.to_nat i) full)) = i) as Hlen.
  { intros i ?. unfold full. rewrite length_take, length_app, length_replicate. lia. }
  destruct (for_count_spec size (strncpy_body dest src)
    (λ i x, x.1 = (Z.of_nat (length l) <? i) ∧ wrote m x.2 dest (take (Z.to_nat i) full)) (false, m))
    as ([e m'] & E & _ & Hw); [done| | |].
  - split; [by symmetry; apply Z.ltb_ge; lia|]. apply (wrote_nil m). destruct Hroom. nia.
  - intros i [e m1] Hi [He Hw]. simpl in He, Hw. specialize (Hlen i ltac:(lia)) as Hli.
    assert (room dest (length (take (Z.to_nat i) full) + 1)) as Hri by (destruct Hroom; split; [done|nia]).
    assert (∀ c, full !! Z.to_nat i = Some c → char_valid c →
      ∃ m2, char_set dest i c m1 = Ret m2 ∧ wrote m m2 dest (take (Z.to_nat (i + 1)) full)) as Hset.
    { intros c Hc Hv. destruct (char_set_snoc _ _ _ _ c Hw Hv Hri) as (m2 & E2 & Hw2). rewrite Hli in E2.
      exists m2. split; [done|]. rewrite (take_nat_Z _ _ c) by (done || lia). done. }
    subst e. unfold strncpy_body. destruct (Z.ltb_spec (Z.of_nat (length l)) i) as [Hgt|Hle]; cbn [negb].
    + destruct (Hset 0) as (m2 & E2 & Hw2).
      { unfold full. rewrite lookup_app_r, lookup_replicate by lia. split; [done|lia]. } { apply char_null_valid. }
      unfold GenericChar_null. mrun E2. eexists. split; [done|]. split; [|done]. symmetry. apply Z.ltb_lt. lia.
    + destruct (source_at m m1 dest (take (Z.to_nat i) full) src l i Hs Hw) as (c & Ec & Hc & Hv & Hz); [|lia|].
      { eapply apart_le; [..|exact Hap]; lia. }
      mrun Ec. destruct (Hset c) as (m2 & E2 & Hw2); [|done|].
      { unfold full. destruct (decide (i = Z.of_nat (length l))) as [->|].
        - rewrite Nat2Z.id in *. rewrite list_lookup_middle in Hc by done. simplify_eq.
          rewrite lookup_app_r, lookup_replicate by lia. split; [done|lia].
        - rewrite lookup_app_l in Hc |- * by lia. done. }
      mrun E2. eexists. split; [done|]. split; [|done]. simpl. rewrite Hz.
      destruct (Z.eqb_spec i (Z.of_nat (length l))), (Z.ltb_spec (Z.of_nat (length l)) (i + 1)); lia || done.
  - exists m'. split; [|done]. unfold GenericChar_strncpy.
    rewrite assert_bind by (apply negb_true_iff, Z.ltb_ge; lia). by mrun E.
Qed.

Lemma strncat_spec m s1 s2 n d l :
  cstring m s1 d → cstring m s2 l → 0 ≤ n < U32_MOD →
  room s1 (length d + length (take (Z.to_nat n) l) + 1) →
  apart s1 (length d + length (take (Z.to_nat n) l) + 1) s2 (length l + 1) →
  ∃ m', GenericChar_strncat s1 s2 n m = Ret (s1, m') ∧ cstring m' s1 (d ++ take (Z.to_nat n) l) ∧
    wrote m m' (s1 + guest_size * Z.of_nat (length d)) (take (Z.to_nat n) l ++ [0]).
Proof.
  intros Hd Hs Hn [Hr0 Hr] Hap. pose proof guest_size_pos as Hgs. pose proof (cstring_bound _ _ _ Hd) as Hdb.
  set (e := s1 + guest_size * Z.of_nat (length d)). set (k := take (Z.to_nat n) l) in *.
  assert (Z.of_nat (length k) = Z.min n (Z.of_nat (length l))) as Hk by (unfold k; rewrite length_take; lia).
  assert (apart e (length k + 1) s2 (length l + 1)) as Hape.
  { unfold apart, e in *. destruct Hap; [left|right]; nia. }
  assert (room e (length k + 1)) as Hre by (split; unfold e; nia).
  enough (∃ m', GenericChar_strncat s1 s2 n m = Ret (s1, m') ∧ wrote m m' e (k ++ [0])) as (m' & E & Hw).
  { exists m'. split; [done|]. split; [|done]. destruct Hd as [Hdc Hdz], Hs as [_ Hsz].
    split; [|apply Forall_app; split; [done|by apply Forall_take]].
    rewrite <- app_assoc. apply chars_at_app. split; [|by apply Hw].
    apply chars_at_app in Hdc as [Hdc _]. apply (chars_at_frame m); [|done]. intros a Ha.
    apply (wrote_rest _ _ _ _ Hw). fold e in Ha. lia. }
  unfold GenericChar_strncat. mrun (strlen_spec _ _ _ Hd). rewrite char_add_eq, ret_bind by nia. fold e.
  match goal with |- context [for_range _ ?b _] => set (body := b) end.
  destruct (for_range_spec n body (λ i m1, i ≤ Z.of_nat (length l) ∧ wrote m m1 e (take (Z.to_nat i) l))
    (λ y, match y with inl m1 => n ≤ Z.of_nat (length l) ∧ wrote m m1 e k | inr m1 => wrote m m1 e (k ++ [0]) end) m)
    as (y & E & Hy); [done| | |by intros m1 [? ?]; split|].
  - split; [lia|]. apply (wrote_nil m). destruct Hre. nia.
  - intros i m1 Hi [Hil Hw]. unfold body.
    assert (length (take (Z.to_nat i) l) = Z.to_nat i) as Hti by (rewrite length_take; lia).
    destruct (source_at m m1 e (take (Z.to_nat i) l) s2 l i Hs Hw) as (c & Ec & Hc & Hv & Hz); [|lia|].
    { eapply apart_le; [..|exact Hape]; lia. }
    destruct (char_set_snoc _ _ _ _ c Hw Hv) as (m2 & E2 & Hw2); [destruct Hre; split; [done|nia]|].
    rewrite Hti, Z2Nat.id in E2 by lia. mrun Ec. mrun E2. rewrite Hz. destruct (Z.eqb_spec i (Z.of_nat (length l))) as [->|].
    + right. eexists. split; [done|]. simpl. rewrite Nat2Z.id in *. rewrite list_lookup_middle in Hc by done. simplify_eq.
      unfold k. rewrite take_ge in Hw2 |- * by lia. done.
    + left. eexists. split; [done|]. split; [lia|]. rewrite lookup_app_l in Hc by lia. by rewrite (take_nat_Z _ _ c) by (done || lia).
  - mrun E. destruct y as [m1|m1]; [|by exists m1]. destruct Hy as [Hnl Hw].
    destruct (char_set_snoc _ _ _ _ 0 Hw char_null_valid Hre) as (m2 & E2 & Hw2).
    replace (Z.of_nat (length k)) with n in E2 by lia. exists m2. split; [|done]. unfold GenericChar_null. by mrun E2.
Qed.

(** What [strlcpy] has written before character [i]. *)
Definition strlcpy_done (size : Z) l (i : Z) : list Z :=
  if decide (i < size) then take (Z.to_nat i) l else take (Z.to_nat (size - 1)) l ++ [0].

Lemma strlcpy_step m m1 dst src size l i :
  cstring m src l → 0 < size < U32_MOD → room dst (Z.to_nat size) → apart dst (Z.to_nat size) src (length l + 1) →
  0 ≤ i ≤ Z.of_nat (length l) → wrote m m1 dst (strlcpy_done size l i) →
  ∃ m2, (c ← char_at src i m1;
         last ← u32 (size - 1);
         match cmp i last with
         | Less => char_set dst i c m1
         | Equal => char_set dst i GenericChar_null m1
         | Greater => Ret m1
         end) = Ret m2 ∧
    (if i =? Z.of_nat (length l) then wrote m m2 dst (take (Z.to_nat (size - 1)) l ++ [0])
     else wrote m m2 dst (strlcpy_done size l (i + 1))) ∧
    ∃ c, char_at src i m1 = Ret c ∧ (c =? GenericChar_null) = (i =? Z.of_nat (length l)).
Proof.
  intros Hs Hsz Hroom Hap Hi Hw. pose proof guest_size_pos as Hgs.
  assert (length (strlcpy_done size l i) ≤ Z.to_nat size)%nat as Hld.
  { unfold strlcpy_done. case_decide; rewrite ?length_app, length_take; simpl; lia. }
  destruct (source_at m m1 dst _ src l i Hs Hw) as (c & Ec & Hc & Hv & Hz); [|lia|].
  { eapply apart_le; [..|exact Hap]; lia. }
  unfold strlcpy_done in *.
  mrun Ec. rewrite u32_ok, ret_bind by lia. unfold cmp.
  destruct (decide (i < size)) as [Hlt|Hge].
  - assert (length (take (Z.to_nat i) l) = Z.to_nat i) as Hti by (rewrite length_take; lia).
    assert (room dst (length (take (Z.to_nat i) l) + 1)) as Hri by (destruct Hroom; split; [done|nia]).
    destruct (Z.ltb_spec i (size - 1)); [|destruct (Z.eqb_spec i (size - 1)) as [Ei|]; [|lia]].
    + destruct (char_set_snoc _ _ _ _ c Hw Hv Hri) as (m2 & E2 & Hw2). rewrite Hti, Z2Nat.id in E2 by lia.
      exists m2. split; [done|]. split; [|eauto]. destruct (Z.eqb_spec i (Z.of_nat (length l))) as [Ei|].
      * rewrite Ei, Nat2Z.id in Hc, Hw2. rewrite list_lookup_middle in Hc by done. simplify_eq.
        rewrite take_ge in Hw2 |- * by lia. done.
      * rewrite decide_True by lia. rewrite lookup_app_l in Hc by lia. by rewrite (take_nat_Z _ _ c) by (done || lia).
    + destruct (char_set_snoc _ _ _ _ 0 Hw char_null_valid Hri) as (m2 & E2 & Hw2). rewrite Hti, Z2Nat.id in E2 by lia.
      exists m2. split; [done|]. split; [|eauto]. rewrite Ei in Hw2. destruct (i =? _); [done|]. rewrite decide_False by lia. done.
  - destruct (Z.ltb_spec i (size - 1)); [lia|]. destruct (Z.eqb_spec i (size - 1)); [lia|].
    exists m1. split; [done|]. split; [|eauto]. destruct (i =? _); [done|]. rewrite decide_False by lia. done.
Qed.

Lemma strlcpy_iterates m m1 dst src size l (k : nat) :
  cstring m src l → 0 < size < U32_MOD → room dst (Z.to_nat size) → apart dst (Z.to_nat size) src (length l + 1) →
  (k ≤ length l)%nat → wrote m m1 dst (strlcpy_done size l (Z.of_nat (length l - k))) →
  ∃ m', iterates (strlcpy_body dst src size) (Z.of_nat k + 1) (Z.of_nat (length l - k), m1) (Ret (Z.of_nat (length l), m')) ∧
    wrote m m' dst (take (Z.to_nat (size - 1)) l ++ [0]).
Proof.
  intros Hs Hsz Hroom Hap. pose proof (cstring_bound _ _ _ Hs) as Hsb. revert m1. induction k as [|k IH]; intros m1 Hk Hw;
    destruct (strlcpy_step m m1 dst src size l (Z.of_nat (length l - _)) Hs Hsz Hroom Hap ltac:(lia) Hw)
      as (m2 & E2 & Hw2 & c & Ec & Hz); rewrite Ec, ret_bind in E2.
  - rewrite Nat.sub_0_r, Z.eqb_refl in *. exists m2. split; [|done]. apply iterates_stop. unfold strlcpy_body.
    mrun Ec. rewrite (u32_ok (size - 1)), ret_bind in E2 by lia. rewrite (u32_ok (size - 1)), ret_bind by lia. mrun E2. by rewrite Hz.
  - rewrite (proj2 (Z.eqb_neq (Z.of_nat (length l - S k)) (Z.of_nat (length l)))) in Hz, Hw2 by lia.
    replace (Z.of_nat (length l - S k) + 1) with (Z.of_nat (length l - k)) in Hw2 by lia.
    destruct (IH m2 ltac:(lia) Hw2) as (m' & IT & ?). exists m'. split; [|done].
    rewrite Nat2Z.inj_succ, <- Z.add_1_r. eapply iterates_step; [|exact IT]. unfold strlcpy_body.
    mrun Ec. rewrite (u32_ok (size - 1)), ret_bind in E2 by lia. rewrite (u32_ok (size - 1)), ret_bind by lia. mrun E2. rewrite Hz, u32_ok, ret_bind by lia. feq_lia.
Qed.

(** [strlcpy] always terminates the copy and returns the length of the source. *)
Lemma strlcpy_spec m dst src size l :
  cstring m src l → 0 < size < U32_MOD → room dst (Z.to_nat size) → apart dst (Z.to_nat size) src (length l + 1) →
  ∃ m', GenericChar_strlcpy dst src size m = Ret (Z.of_nat (length l), m') ∧
    wrote m m' dst (take (Z.to_nat (size - 1)) l ++ [0]).
Proof.
  intros Hs Hsz Hroom Hap. pose proof guest_size_pos as Hgs. pose proof (cstring_bound _ _ _ Hs) as Hsb.
  destruct (strlcpy_iterates m m dst src size l (length l)) as (m' & IT & Hw); [done..| |].
  { rewrite Nat.sub_diag. unfold strlcpy_done. rewrite decide_True by lia. apply (wrote_nil m). destruct Hroom. nia. }
  exists m'. split; [|done]. rewrite Nat.sub_diag in IT. apply (c_loop_iterates _ _ _ _ IT). lia.
Qed.

(** ** [strdup] *)

Lemma strdup_spec m h src l b k :
  mem_ok m → heap_allocator m = Some h → cstring m src l → mem_live m b k → b ≤ src →
  src + guest_size * (Z.of_nat (length l) + 1) ≤ b + k →
  guest_size * (Z.of_nat (length l) + 1) + 2 * PAGE_SIZE < U32_MOD →
  vm_has_room (vm_allocator m) HEAP_CHUNK_SIZE →
  vm_has_room (vm_allocator m) (round_up (guest_size * (Z.of_nat (length l) + 1))) →
  ∃ p n m', GenericChar_strdup src m = Ret (p, m') ∧ mem_ok m' ∧ cstring m' p l ∧ cstring m' src l ∧
    mem_live m' p n ∧ guest_size * (Z.of_nat (length l) + 1) ≤ n ∧
    ∀ b k, mem_live m b k → mem_live m' b k ∧ ∀ a, b ≤ a < b + k → byte_at m' a = byte_at m a.
Proof.
  intros Hm Eh Hs Hl Hb1 Hb2 Hn Hr1 Hr2. pose proof guest_size_pos as Hgs. pose proof (cstring_bound _ _ _ Hs) as Hsb.
  set (sz := guest_size * (Z.of_nat (length l) + 1)) in *.
  destruct (mem_alloc_spec m h sz) as (p & n & m1 & E & Hm1 & [h1 Eh1] & Hpn & Hl1 & Hd1 & Hb); [done|done|lia|done|done|done|].
  assert (mem_live m1 p n) as Hp by (apply Hl1; by right). destruct (mem_live_pos m1 p n Hm1 Hp) as (?&?&?).
  destruct (mem_live_pos m b k Hm Hl) as (?&?&?).
  assert (cstring m1 src l) as Hs1.
  { destruct Hs as [Hc Hz]. split; [|done]. apply (chars_at_frame m); [|done]. rewrite length_app, Nat2Z.inj_add. intros a Ha.
    apply Hb. intros ?. apply (Hd1 b k a Hl); simpl in Ha; lia. }
  assert (apart p (length l + 1) src (length l + 1)) as Hap.
  { unfold apart. destruct (decide (p + guest_size * Z.of_nat (length l + 1) ≤ src)); [by left|right].
    destruct (decide (src + guest_size * Z.of_nat (length l + 1) ≤ p)); [done|]. exfalso.
    apply (Hd1 b k (Z.max p src) Hl); lia. }
  destruct (strcpy_spec m1 p src USIZE_MAX l) as (m' & Ec & Hw); [done|split; [done|lia]|done|unfold USIZE_MAX; lia|].
  assert (∀ b k, mem_live m' b k ↔ mem_live m1 b k) as Hlive.
  { intros b' k'. unfold mem_live. destruct (wrote_allocators _ _ _ _ Hw) as (-> & _). done. }
  exists p, n, m'. split_and!.
  - unfold GenericChar_strdup. mrun (strlen_spec _ _ _ Hs). rewrite !u32_ok, ret_bind by lia.
    rewrite u32_ok, ret_bind by lia. replace ((Z.of_nat (length l) + 1) * guest_size) with sz by lia.
    unfold mem_alloc. mrun E. done.
  - unfold mem_ok in *. destruct (wrote_allocators _ _ _ _ Hw) as (-> & -> & _). done.
  - apply (wrote_cstring m1); [done|]. apply Hs.
  - destruct Hs1 as [Hc Hz]. split; [|done]. apply (wrote_apart _ _ _ _ _ _ Hw); [|done]. by rewrite !length_app.
  - by apply Hlive.
  - done.
  - intros b' k' Hb'. split; [apply Hlive, Hl1; by left|]. intros a Ha.
    rewrite (wrote_rest _ _ _ _ Hw), Hb; [done| |]; [intros ?; apply (Hd1 b' k' a Hb'); lia|].
    rewrite length_app, Nat2Z.inj_add. simpl. intros ?. apply (Hd1 b' k' a Hb'); lia.
Qed.
End writes.
