(* ===== verification/CString.v ===== *)
(** * [string.h] and [wchar.h] ([libc/string.rs], [libc/wchar.rs])

    The instances of [GenericChar] at [u8] and at [wchar_t], and the functions
    that [string.rs] defines on its own: [strtok] with its hidden state,
    [strsep], the case-insensitive comparisons and [memset_pattern]. *)

From S2P Require Import Prelude ChunkMap SizeBucketed VMAllocator HeapAllocator GuestMem GenericChar GenericCharFacts GenericCharWrites.

(** [u8], and [wchar_t], which is an [i32]. *)
#[global] Instance u8_char : GuestChar := { char_size := 1; char_decode v := v mod 256 }.
Definition wchar_t : GuestChar := {| char_size := 4; char_decode := to_i32 |}.

#[global, refine] Instance u8_char_laws : GuestCharLaws u8_char := { char_valid v := 0 ≤ v < 256 }.
Proof.
  - simpl. lia.
  - intros v ?. simpl. change (256 ^ Z.of_nat 1) with 256. rewrite !Z.mod_small by (rewrite ?Z.mod_small; lia). done.
  - intros v. simpl. apply Z.mod_pos_bound. lia.
  - lia.
Defined.

#[global, refine] Instance wchar_t_laws : GuestCharLaws wchar_t := { char_valid v := -2147483648 ≤ v < 2147483648 }.
Proof.
  - simpl. lia.
  - intros v ?. simpl. change (256 ^ Z.of_nat 4) with U32_MOD. unfold to_i32, U32_MOD. rewrite Z.mod_mod by lia.
    destruct (Z.ltb_spec (v mod 4294967296) 2147483648); Z.div_mod_to_equations; lia.
  - intros v. simpl. unfold to_i32, U32_MOD. pose proof (Z.mod_pos_bound v 4294967296 ltac:(lia)). zcase; lia.
  - lia.
Defined.

(** ** [string.h] *)

(** [ch as u8]. *)
Definition as_u8 (v : Z) : Z := v mod 256.

Definition memset (dest ch count : Z) (m : Mem) : outcome (Z * Mem) := GenericChar_memset dest (as_u8 ch) count USIZE_MAX m.
Definition bzero (dest count : Z) (m : Mem) : outcome Mem := '(_, m') ← memset dest 0 count m; Ret m'.
Definition __memset_chk (dest ch count dest_count : Z) (m : Mem) : outcome (Z * Mem) :=
  GenericChar_memset dest (as_u8 ch) count dest_count m.

(** The [for] loop over whole patterns: the target address after it. *)
Definition memset_pattern_inner (b pattern len pattern_len : Z) (m : Mem) : outcome Mem :=
  rassert ((pattern_len =? 4) || (pattern_len =? 8) || (pattern_len =? 16));;
  tmp ← bytes_at pattern pattern_len m;
  '(target, m) ← for_count (len / pattern_len)
    (λ _ '(target, m), m ← bytes_at_mut_copy target pattern_len tmp m;
                       target ← ptr_add 1 target pattern_len;
                       Ret (target, m)) (b, m);
  '(_, m) ← for_count (len mod pattern_len)
    (λ i '(target, m), p ← ptr_add 1 pattern i;
                       value ← read_u8 p m;
                       m ← write_u8 target value m;
                       target ← ptr_add 1 target 1;
                       Ret (target, m)) (target, m);
  Ret m.
Definition memset_pattern4 (b pattern4 len : Z) : Mem → outcome Mem := memset_pattern_inner b pattern4 len 4.
Definition memset_pattern8 (b pattern8 len : Z) : Mem → outcome Mem := memset_pattern_inner b pattern8 len 8.
Definition memset_pattern16 (b pattern16 len : Z) : Mem → outcome Mem := memset_pattern_inner b pattern16 len 16.

Definition memcpy (dest src size : Z) (m : Mem) : outcome (Z * Mem) := GenericChar_memcpy dest src size USIZE_MAX m.
Definition __memcpy_chk (dest src size dest_size : Z) (m : Mem) : outcome (Z * Mem) := GenericChar_memcpy dest src size dest_size m.
Definition c_memmove (dest src size : Z) (m : Mem) : outcome (Z * Mem) := GenericChar_memmove dest src size USIZE_MAX m.
Definition __memmove_chk (dest src size dest_size : Z) (m : Mem) : outcome (Z * Mem) := GenericChar_memmove dest src size dest_size m.
Definition memchr (string c size : Z) (m : Mem) : outcome Z := GenericChar_memchr string (as_u8 c) size m.
Definition memcmp (a b size : Z) (m : Mem) : outcome Z := GenericChar_memcmp a b size m.
Definition strlen (s : Z) (m : Mem) : outcome Z := GenericChar_strlen s m.
Definition strcpy (dest src : Z) (m : Mem) : outcome (Z * Mem) := GenericChar_strcpy dest src USIZE_MAX m.
Definition __strcpy_chk (dest src size : Z) (m : Mem) : outcome (Z * Mem) := GenericChar_strcpy dest src size m.
Definition strcat (dest src : Z) (m : Mem) : outcome (Z * Mem) := GenericChar_strcat dest src USIZE_MAX m.
Definition __strcat_chk (dest src size : Z) (m : Mem) : outcome (Z * Mem) := GenericChar_strcat dest src size m.
Definition strspn (s charset : Z) (m : Mem) : outcome Z := GenericChar_strspn s charset m.
Definition strcspn (s charset : Z) (m : Mem) : outcome Z := GenericChar_strcspn s charset m.
Definition strncpy (dest src size : Z) (m : Mem) : outcome (Z * Mem) := GenericChar_strncpy dest src size USIZE_MAX m.
Definition __strncpy_chk (dest src size dest_size : Z) (m : Mem) : outcome (Z * Mem) := GenericChar_strncpy dest src size dest_size m.
Definition strdup (src : Z) (m : Mem) : outcome (Z * Mem) := GenericChar_strdup src m.
Definition strcmp (a b : Z) (m : Mem) : outcome Z := GenericChar_strcmp a b m.
Definition strncmp (a b n : Z) (m : Mem) : outcome Z := GenericChar_strncmp a b n m.
Definition strncat (s1 s2 n : Z) (m : Mem) : outcome (Z * Mem) := GenericChar_strncat s1 s2 n m.
Definition strstr (string substring : Z) (m : Mem) : outcome Z := GenericChar_strstr string substring m.
Definition strchr (path c : Z) (m : Mem) : outcome Z := GenericChar_strchr path c m.
Definition strrchr (path c : Z) (m : Mem) : outcome Z := GenericChar_strrchr path c m.
Definition strpbrk (s charset : Z) (m : Mem) : outcome Z := GenericChar_strpbrk s charset m.
Definition strlcpy (dst src size : Z) (m : Mem) : outcome (Z * Mem) := GenericChar_strlcpy dst src size m.

(** [to_ascii_lowercase]. *)
Definition to_ascii_lowercase (c : Z) : Z := if (65 <=? c) && (c <=? 90) then c + 32 else c.

Definition strncasecmp_body (a b : Z) (n : option Z) (m : Mem) (offset : Z) : outcome (Z + Z) :=
  char_a ← char_at a offset m; let char_a := to_ascii_lowercase char_a in
  char_b ← char_at b offset m; let char_b := to_ascii_lowercase char_b in
  offset ← u32 (offset + 1);
  match cmp char_a char_b with
  | Less => Ret (inr (-1))
  | Greater => Ret (inr 1)
  | Equal => if bool_decide (n = Some offset) || (char_a =? 0) then Ret (inr 0) else Ret (inl offset)
  end.
Definition strcasecmp (a b : Z) (m : Mem) : outcome Z := c_loop (strncasecmp_body a b None m) 0.
Definition strncasecmp (a b n : Z) (m : Mem) : outcome Z :=
  if n =? 0 then Ret 0 else c_loop (strncasecmp_body a b (Some n) m) 0.

(** [strsep]: the inner loop over the delimiters is the one of [strcspn]. *)
Definition strsep_body (stringp tmp delim : Z) (x : Z * Mem) : outcome (Z * Mem + Mem) :=
  let '(i, m) := x in
  c ← char_at tmp i m;
  if c =? 0 then m ← write_u32 stringp 0 m; Ret (inr m)
  else
    found ← c_loop (in_charset_body delim c m) 0;
    if (found : bool) then
      m ← char_set tmp i 0 m;
      p ← ptr_add 1 tmp i;
      p ← ptr_add 1 p 1;
      m ← write_u32 stringp p m;
      Ret (inr m)
    else i' ← u32 (i + 1); Ret (inl (i', m)).
Definition strsep (stringp delim : Z) (m : Mem) : outcome (Z * Mem) :=
  orig ← read_u32 stringp m;
  if orig =? 0 then Ret (0, m)
  else m' ← c_loop (strsep_body stringp orig delim) (0, m); Ret (orig, m').

(** ** [strtok] *)

(** [libc_state.string.strtok]: [None], or the next token, possibly [NULL]. *)
Definition StringState : Type := option Z.

Definition token_start_body (sep : list Z) (m : Mem) (token_start : Z) : outcome (Z + option Z) :=
  c ← read_u8 token_start m;
  if c =? 0 then Ret (inr None)
  else if bool_decide (c ∈ sep) then p ← ptr_add 1 token_start 1; Ret (inl p)
  else Ret (inr (Some token_start)).
Definition token_end_body (sep : list Z) (m : Mem) (token_end : Z) : outcome (Z + (Z * Mem)) :=
  c ← read_u8 token_end m;
  if bool_decide (c ∈ sep) then
    m ← write_u8 token_end 0 m;
    p ← ptr_add 1 token_end 1;
    Ret (inr (p, m))
  else if c =? 0 then Ret (inr (0, m))
  else p ← ptr_add 1 token_end 1; Ret (inl p).
Definition strtok (s sep : Z) (st : StringState) (m : Mem) : outcome (Z * StringState * Mem) :=
  s' ← (if s =? 0 then unwrap st else Ret s);
  if s' =? 0 then Ret (0, None, m)
  else
    seps ← cstr_at sep m;
    start ← c_loop (token_start_body seps m) s';
    match start with
    | None => Ret (0, None, m)
    | Some token_start =>
        '(next_token, m) ← c_loop (token_end_body seps m) token_start;
        Ret (token_start, Some next_token, m)
    end.

(** ** [wchar.h] *)

Definition WEOF : Z := -1.
Definition btowc (c : Z) : Z := let c := as_u8 c in if c <? 128 then c else WEOF.
Definition wctob (c : Z) : Z := if (0 <=? c) && (c <? 128) then c else WEOF.

Definition wmemset (dest ch count : Z) (m : Mem) : outcome (Z * Mem) := GenericChar_memset (T := wchar_t) dest ch count USIZE_MAX m.
Definition wmemcpy (dest src size : Z) (m : Mem) : outcome (Z * Mem) := GenericChar_memcpy (T := wchar_t) dest src size USIZE_MAX m.
Definition __wmemcpy_chk (dest src size dest_size : Z) (m : Mem) : outcome (Z * Mem) := GenericChar_memcpy (T := wchar_t) dest src size dest_size m.
Definition wmemmove (dest src size : Z) (m : Mem) : outcome (Z * Mem) := GenericChar_memmove (T := wchar_t) dest src size USIZE_MAX m.
Definition __wmemmove_chk (dest src size dest_size : Z) (m : Mem) : outcome (Z * Mem) := GenericChar_memmove (T := wchar_t) dest src size dest_size m.
Definition wmemchr (string c size : Z) (m : Mem) : outcome Z := GenericChar_memchr (T := wchar_t) string c size m.
Definition wmemcmp (a b size : Z) (m : Mem) : outcome Z := GenericChar_memcmp (T := wchar_t) a b size m.
Definition wcslen (s : Z) (m : Mem) : outcome Z := GenericChar_strlen (T := wchar_t) s m.
Definition wcscpy (dest src : Z) (m : Mem) : outcome (Z * Mem) := GenericChar_strcpy (T := wchar_t) dest src USIZE_MAX m.
Definition wcscat (dest src : Z) (m : Mem) : outcome (Z * Mem) := GenericChar_strcat (T := wchar_t) dest src USIZE_MAX m.
Definition wcsspn (s charset : Z) (m : Mem) : outcome Z := GenericChar_strspn (T := wchar_t) s charset m.
Definition wcscspn (str charset : Z) (m : Mem) : outcome Z := GenericChar_strcspn (T := wchar_t) str charset m.
Definition wcsncpy (dest src size : Z) (m : Mem) : outcome (Z * Mem) := GenericChar_strncpy (T := wchar_t) dest src size USIZE_MAX m.
Definition __wcsncpy_chk (dest src size dest_size : Z) (m : Mem) : outcome (Z * Mem) := GenericChar_strncpy (T := wchar_t) dest src size dest_size m.
Definition wcsdup (src : Z) (m : Mem) : outcome (Z * Mem) := GenericChar_strdup (T := wchar_t) src m.
Definition wcscmp (a b : Z) (m : Mem) : outcome Z := GenericChar_strcmp (T := wchar_t) a b m.
Definition wcsncmp (a b n : Z) (m : Mem) : outcome Z := GenericChar_strncmp (T := wchar_t) a b n m.
Definition wcsncat (s1 s2 n : Z) (m : Mem) : outcome (Z * Mem) := GenericChar_strncat (T := wchar_t) s1 s2 n m.
Definition wcsstr (wcsing subwcsing : Z) (m : Mem) : outcome Z := GenericChar_strstr (T := wchar_t) wcsing subwcsing m.
Definition wcschr (wcsing wchar : Z) (m : Mem) : outcome Z := GenericChar_strchr (T := wchar_t) wcsing wchar m.
Definition wcsrchr (wcsing wchar : Z) (m : Mem) : outcome Z := GenericChar_strrchr (T := wchar_t) wcsing wchar m.
Definition wcspbrk (s charset : Z) (m : Mem) : outcome Z := GenericChar_strpbrk (T := wchar_t) s charset m.
Definition wcslcpy (dst src size : Z) (m : Mem) : outcome (Z * Mem) := GenericChar_strlcpy (T := wchar_t) dst src size m.
