(* ===== verification/CStringFacts.v ===== *)
(** * Correctness of the string functions

    The properties of [string.h]: the functions that only read compute their
    reference on lists, the copies write what they must and nothing else, and
    repeated calls of [strtok] give the tokens of the string. *)

From S2P Require Import Prelude ChunkMap SizeBucketed VMAllocator HeapAllocator GuestMem GenericChar GenericCharFacts GenericCharWrites CString.

(** The reference comparison is an order: 0 exactly on equal strings, and
    antisymmetric. *)
Lemma str_compare_eq a b :
  Forall (λ c, c ≠ 0) a → Forall (λ c, c ≠ 0) b → str_compare a b = 0 ↔ a = b.
Proof.
  revert b. induction a as [|x a IH]; intros [|y b] Ha Hb; simpl; [done|..].
  - apply Forall_cons in Hb as [? _]. unfold cmp. split; [|done]. repeat zcase; done.
  - apply Forall_cons in Ha as [? _]. unfold cmp. split; [|done]. repeat zcase; done.
  - apply Forall_cons in Ha as [? Ha]. apply Forall_cons in Hb as [? Hb]. unfold cmp.
    repeat zcase; [split; [done|intros [= ??]; lia]| |split; [done|intros [= ??]; lia]].
    subst y. rewrite IH by done. split; congruence.
Qed.

Lemma cmp_swap x y : sign_of (cmp y x) = - sign_of (cmp x y).
Proof. unfold cmp. repeat zcase; simpl; lia. Qed.

Lemma str_compare_swap a b : str_compare b a = - str_compare a b.
Proof.
  revert b. induction a as [|x a IH]; intros [|y b]; simpl; [done|apply cmp_swap..|].
  rewrite (IH b). pose proof (cmp_swap x y). unfold cmp in *. repeat zcase; simpl in *; lia.
Qed.

(** C14: on any two C strings in guest memory, of bytes or of wide characters, the functions
    that only read return what their definitions on lists say: [strlen] the
    length, [strcmp] and [strncmp] the lexicographic order, [strstr] the first
    occurrence, [strchr] and [strrchr] the first and the last place of a
    character (the terminator included), [strspn], [strcspn] and [strpbrk] the
    prefix of members of a set and the first member.  In particular every one of
    these loops ends. *)
Theorem string_queries_correct {T : GuestChar} {L : GuestCharLaws T} m p q a b c n :
  cstring m p a → cstring m q b → 0 ≤ n →
  GenericChar_strlen p m = Ret (Z.of_nat (length a)) ∧
  GenericChar_strcmp p q m = Ret (str_compare a b) ∧
  GenericChar_strncmp p q n m = Ret (str_compare (take (Z.to_nat n) a) (take (Z.to_nat n) b)) ∧
  GenericChar_strstr p q m = Ret (ptr_or_null guest_size p (find_sub b a)) ∧
  GenericChar_strchr p c m = Ret (ptr_or_null guest_size p (position (λ x, x =? c) (a ++ [0]))) ∧
  GenericChar_strrchr p c m = Ret (ptr_or_null guest_size p (rposition (λ x, x =? c) (a ++ [0]))) ∧
  GenericChar_strspn p q m = Ret (Z.of_nat (span_len (mem_of b) a)) ∧
  GenericChar_strcspn p q m = Ret (Z.of_nat (span_len (λ x, negb (mem_of b x)) a)) ∧
  GenericChar_strpbrk p q m = Ret (ptr_or_null guest_size p (position (mem_of b) a)).
Proof.
  intros Ha Hb Hn. destruct (strspn_spec m p q a b Ha Hb) as [??].
  split_and!; [by apply strlen_spec|by apply strcmp_spec|by apply strncmp_spec|by apply strstr_spec|by apply strchr_spec
    |by apply strrchr_spec|done|done|by apply strpbrk_spec].
Qed.

(** A memory with "banana" at 4096 and "an" at 8192. *)
Definition banana : Mem :=
  set_bytes (store 4096 [98; 97; 110; 97; 110; 97; 0] (store 8192 [97; 110; 0] ∅)) empty_mem.

Lemma banana_chars p l :
  0 ≤ p → p + Z.of_nat (length l) < U32_MOD → (λ i, char_val banana (p + i)) <$> seqZ 0 (Z.of_nat (length l)) = l →
  chars_at banana p l.
Proof.
  intros ? Hb H. unfold chars_at. change guest_size with 1. rewrite Z.mul_1_l. split_and!; [done..|]. intros i c Hi.
  rewrite Z.mul_1_l. rewrite <- H in Hi. apply list_lookup_fmap_Some in Hi as (j & -> & Hj).
  apply lookup_seqZ in Hj as [-> _]. do 2 f_equal.
Qed.

Lemma banana_strings : cstring banana 4096 [98; 97; 110; 97; 110; 97] ∧ cstring banana 8192 [97; 110].
Proof.
  split; (split; [apply banana_chars; [lia|vm_compute; reflexivity|vm_compute; reflexivity]|repeat constructor; lia]).
Qed.

Lemma string_queries_correct_witness :
  GenericChar_strstr 4096 8192 banana = Ret 4097 ∧ GenericChar_strrchr 4096 97 banana = Ret 4101 ∧
  GenericChar_strcmp 4096 8192 banana = Ret 1.
Proof.
  destruct banana_strings as [Ha Hb].
  destruct (string_queries_correct banana 4096 8192 [98; 97; 110; 97; 110; 97] [97; 110] 97 3 Ha Hb)
    as (_ & Ec & _ & Es & _ & Er & _); [lia|].
  split_and!; [exact Es|exact Er|exact Ec].
Defined.

(** The copying functions, for a source and a destination buffer that do not
    overlap.  [strcpy] with a buffer that the string and its terminator fit in
    writes exactly these; with a smaller one it panics.  [strncpy] writes exactly
    [size] characters, cut off or padded with zeros; [strlcpy] writes the longest
    prefix that fits, always with a terminator, and returns the full length.
    Nothing outside the characters named is changed. *)
Theorem string_copies_correct {T : GuestChar} {L : GuestCharLaws T} m dest src l size :
  cstring m src l → 0 < size < U32_MOD → room dest (Z.to_nat size) → apart dest (Z.to_nat size) src (length l + 1) →
  (if Z.of_nat (length l) <? size
   then ∃ m', GenericChar_strcpy dest src size m = Ret (dest, m') ∧ wrote m m' dest (l ++ [0])
   else GenericChar_strcpy dest src size m = Panic) ∧
  (∃ m', GenericChar_strncpy dest src size size m = Ret (dest, m') ∧
         wrote m m' dest (take (Z.to_nat size) (l ++ replicate (Z.to_nat size) 0))) ∧
  (∃ m', GenericChar_strlcpy dest src size m = Ret (Z.of_nat (length l), m') ∧
         wrote m m' dest (take (Z.to_nat (size - 1)) l ++ [0])).
Proof.
  intros Hs Hn Hr Hap. split_and!.
  - destruct (Z.ltb_spec (Z.of_nat (length l)) size).
    + apply strcpy_spec; [done| | |unfold USIZE_MAX; lia].
      * destruct Hr as [? Hr]. split; [done|]. pose proof guest_size_pos. nia.
      * eapply apart_le; [..|exact Hap]; lia.
    + apply (strcpy_overrun_spec m dest src size l); [done..|lia].
  - apply strncpy_spec; done || lia.
  - by apply strlcpy_spec.
Qed.

Lemma string_copies_correct_witness :
  (∃ m', GenericChar_strcpy 16384 8192 3 banana = Ret (16384, m') ∧ wrote banana m' 16384 [97; 110; 0]) ∧
  GenericChar_strcpy 16384 4096 6 banana = Panic.
Proof.
  destruct banana_strings as [Ha Hb]. split.
  - destruct (string_copies_correct banana 16384 8192 [97; 110] 3 Hb) as [H _];
      [vm_compute; split; reflexivity|vm_compute; split; [discriminate|reflexivity]|right; vm_compute; discriminate|exact H].
  - destruct (string_copies_correct banana 16384 4096 [98; 97; 110; 97; 110; 97] 6 Ha) as [H _];
      [vm_compute; split; reflexivity|vm_compute; split; [discriminate|reflexivity]|right; vm_compute; discriminate|exact H].
Defined.

(** ** [strtok] *)

(** The bytes of a C string, none of them 0. *)
Definition byte_string (m : Mem) (p : Z) (l : list Z) : Prop :=
  0 < p ∧ p + Z.of_nat (length l) + 1 < U32_MOD ∧
  (∀ i c, l !! i = Some c → byte_at m (p + Z.of_nat i) = c) ∧ byte_at m (p + Z.of_nat (length l)) = 0 ∧
  Forall (λ c, 0 < c < 256) l.

(** Reference: the maximal runs of characters outside [sep]; [cur] is the run
    being read. *)
Fixpoint tokens_from (sep cur l : list Z) : list (list Z) :=
  match l with
  | [] => if decide (cur = []) then [] else [cur]
  | c :: l' =>
      if mem_of sep c then (if decide (cur = []) then tokens_from sep [] l' else cur :: tokens_from sep [] l')
      else tokens_from sep (cur ++ [c]) l'
  end.
Definition tokens (sep l : list Z) : list (list Z) := tokens_from sep [] l.

(** Call [strtok] on [s] and then on [NULL] until it returns [NULL]. *)
Fixpoint strtok_run (fuel : nat) (s sep : Z) (st : StringState) (m : Mem) : outcome (list Z * Mem) :=
  match fuel with
  | O => Panic
  | S fuel' =>
      '(p, st, m) ← strtok s sep st m;
      if p =? 0 then Ret ([], m)
      else '(ps, m) ← strtok_run fuel' 0 sep st m; Ret (p :: ps, m)
  end.

Lemma byte_string_head m p l :
  byte_string m p l → read_u8 p m = Ret (head0 l) ∧ 0 < p < U32_MOD.
Proof.
  intros (? & ? & Hl & Hz & _). split; [|lia]. rewrite read_u8_eq by lia. f_equal.
  destruct l as [|c l]; simpl in *; [by rewrite Z.add_0_r in Hz|]. by rewrite <- (Hl O c), Z.add_0_r.
Qed.

Lemma byte_string_cons m p c l :
  byte_string m p (c :: l) →
  byte_string m (p + 1) l ∧ ptr_add 1 p 1 = Ret (p + 1) ∧ (c =? 0) = false ∧ 0 < c < 256 ∧ p + 2 < U32_MOD.
Proof.
  intros (? & Hb & Hl & Hz & Hf). apply Forall_cons in Hf as [? Hf]. simpl in Hb, Hz.
  split_and!; [|apply ptr_add_1; lia|apply Z.eqb_neq; lia|lia|lia|lia]. split_and!; [lia|lia| | |done].
  - intros i x Hx. rewrite <- (Hl (S i) x Hx). f_equal. lia.
  - rewrite <- Hz. f_equal. lia.
Qed.

Lemma byte_string_frame m m' p l :
  (∀ a, p ≤ a ≤ p + Z.of_nat (length l) → byte_at m' a = byte_at m a) → byte_string m p l → byte_string m' p l.
Proof.
  intros H (? & ? & Hl & Hz & ?). split_and!; [done|done| | |done].
  - intros i c Hi. pose proof (lookup_lt_Some _ _ _ Hi). rewrite H by lia. auto.
  - by rewrite H by lia.
Qed.

Lemma byte_string_cstr m p l : byte_string m p l → cstr_at p m = Ret l.
Proof.
  intros (? & ? & Hl & Hz & Hf). unfold cstr_at. rewrite (cstr_len_spec p (Z.of_nat (length l))), ret_bind; [|lia..|done|].
  - rewrite bytes_at_eq by lia. f_equal. apply bytes_of_range; [done|]. intros i ?.
    destruct (lookup_lt_is_Some_2 l (Z.to_nat i)) as [x Hx]; [lia|]. rewrite Hx. simpl. rewrite <- (Hl _ _ Hx). f_equal. lia.
  - intros i ?. destruct (lookup_lt_is_Some_2 l (Z.to_nat i)) as [x Hx]; [lia|].
    pose proof (Hl _ _ Hx) as E. rewrite Z2Nat.id in E by lia. rewrite E. apply (Forall_lookup_1 _ _ _ _ Hf) in Hx. lia.
Qed.

Lemma token_start_iterates m sep p l :
  byte_string m p l → let k := span_len (mem_of sep) l in
  ∃ n, n ≤ Z.of_nat (length l) + 1 ∧
    iterates (token_start_body sep m) n p (Ret (if decide (k = length l) then None else Some (p + Z.of_nat k))).
Proof.
  revert p. induction l as [|c l IH]; intros p H; destruct (byte_string_head _ _ _ H) as [Er _]; cbn [head0] in Er.
  - exists 1. split; [done|]. apply iterates_stop. unfold token_start_body. by rewrite Er.
  - destruct (byte_string_cons _ _ _ _ H) as (H' & Ea & Hc & _). cbn [span_len length].
    destruct (mem_of sep c) eqn:Es; unfold mem_of in Es.
    + destruct (IH _ H') as (n & Hn & IT). exists (n + 1). split; [lia|].
      replace (if decide (S (span_len (mem_of sep) l) = S (length l)) then None else Some (p + Z.of_nat (S (span_len (mem_of sep) l))))
        with (if decide (span_len (mem_of sep) l = length l) then None else Some (p + 1 + Z.of_nat (span_len (mem_of sep) l))).
      * eapply iterates_step; [|exact IT]. unfold token_start_body. rewrite Er. simpl. rewrite Hc, Es. by rewrite Ea.
      * repeat case_decide; lia || (f_equal; lia) || done.
    + exists 1. split; [lia|]. rewrite decide_False by lia. rewrite Z.add_0_r. apply iterates_stop. unfold token_start_body.
      rewrite Er. simpl. by rewrite Hc, Es.
Qed.

Lemma token_end_iterates m sep p l :
  byte_string m p l → (0 : Z) ∉ sep → let k := span_len (λ c, negb (mem_of sep c)) l in
  ∃ n m', n ≤ Z.of_nat (length l) + 1 ∧
    iterates (token_end_body sep m) n p (Ret (if decide (k = length l) then 0 else p + Z.of_nat k + 1, m')) ∧
    (∀ a, byte_at m' a = if decide (k ≠ length l ∧ a = p + Z.of_nat k) then 0 else byte_at m a).
Proof.
  intros H Hs. revert p H. induction l as [|c l IH]; intros p H; destruct (byte_string_head _ _ _ H) as [Er ?]; cbn [head0] in Er.
  - exists 1, m. split; [done|]. split; [|intros a; by rewrite decide_False by (by intros [? _])]. apply iterates_stop.
    unfold token_end_body. rewrite Er. simpl. by rewrite bool_decide_eq_false_2.
  - destruct (byte_string_cons _ _ _ _ H) as (H' & Ea & Hc & ? & ?). cbn [span_len length].
    destruct (mem_of sep c) eqn:Es; unfold mem_of in Es; cbn [negb].
    + destruct (write_read_spec 1 p 0 m) as (m' & Ew & Ew2 & Hf & _); [lia|lia|simpl; lia|].
      exists 1, m'. split; [lia|]. rewrite decide_False by lia. rewrite Z.add_0_r. split.
      * apply iterates_stop. unfold token_end_body. rewrite Er. simpl. rewrite Es. unfold write_u8. rewrite Ew. simpl. by rewrite Ea.
      * intros a. destruct (decide (O ≠ S (length l) ∧ a = p)) as [[_ ->]|Ha]; [|apply Hf; simpl; intros ?; apply Ha; split; lia].
        change (read_u8 p m' = Ret 0) in Ew2. rewrite read_u8_eq in Ew2 by lia. by injection Ew2.
    + destruct (IH _ H') as (n & m' & Hn & IT & Hf). exists (n + 1), m'. split; [lia|]. set (k := span_len _ l) in *. split.
      * replace (if decide (S k = S (length l)) then 0 else p + Z.of_nat (S k) + 1)
          with (if decide (k = length l) then 0 else p + 1 + Z.of_nat k + 1) by (repeat case_decide; lia).
        eapply iterates_step; [|exact IT]. unfold token_end_body. rewrite Er. simpl. rewrite Es, Hc. by rewrite Ea.
      * intros a. rewrite Hf. destruct (decide (k ≠ length l ∧ _)), (decide (S k ≠ S (length l) ∧ _)); done || lia.
Qed.

Lemma span_len_le f l : (span_len f l ≤ length l)%nat.
Proof. induction l as [|x l IH]; simpl; [lia|]. destruct (f x); lia. Qed.

Lemma tokens_skip sep l : tokens sep l = tokens sep (drop (span_len (mem_of sep) l) l).
Proof.
  unfold tokens. induction l as [|c l IH]; [done|]. cbn [span_len]. destruct (mem_of sep c) eqn:E; [|done].
  cbn [drop tokens_from]. by rewrite E, decide_True.
Qed.

Lemma tokens_from_token sep cur l :
  let k := span_len (λ c, negb (mem_of sep c)) l in
  cur ++ take k l ≠ [] →
  tokens_from sep cur l = (cur ++ take k l) :: (if decide (k = length l) then [] else tokens sep (drop (S k) l)).
Proof.
  revert cur. induction l as [|c l IH]; intros cur; cbn [span_len].
  - rewrite take_nil, app_nil_r. simpl. intros ?. by rewrite decide_False.
  - cbn [tokens_from]. destruct (mem_of sep c) eqn:E; cbn [negb].
    + cbn [take drop]. rewrite app_nil_r. intros ?. by rewrite decide_False.
    + cbn [take drop length]. intros Hne. rewrite IH by (by destruct cur). rewrite <- app_assoc. f_equal.
      destruct (decide (_ = length l)), (decide (S _ = S (length l))); done || lia.
Qed.

Lemma byte_string_suffix m p l1 l2 : byte_string m p (l1 ++ l2) → byte_string m (p + Z.of_nat (length l1)) l2.
Proof.
  intros (? & Hb & Hl & Hz & Hf). rewrite length_app in Hb, Hz. apply Forall_app in Hf as [_ Hf].
  split_and!; [lia|lia| | |done].
  - intros i c Hi. rewrite <- (Hl (length l1 + i)%nat c); [f_equal; lia|]. rewrite lookup_app_r by lia. by rewrite Nat.add_comm, Nat.add_sub.
  - rewrite <- Hz. f_equal. lia.
Qed.

Lemma byte_string_drop m p l k : (k ≤ length l)%nat → byte_string m p l → byte_string m (p + Z.of_nat k) (drop k l).
Proof.
  intros Hk H. rewrite <- (take_drop k l) in H. apply byte_string_suffix in H. by rewrite length_take_le in H.
Qed.

(** Writing a terminator over character [k] cuts the string in two. *)
Lemma byte_string_cut m m' p l k :
  byte_string m p l → (k < length l)%nat →
  (∀ a, byte_at m' a = if decide (a = p + Z.of_nat k) then 0 else byte_at m a) →
  byte_string m' p (take k l) ∧ byte_string m' (p + Z.of_nat k + 1) (drop (S k) l).
Proof.
  intros H Hk Hm. split.
  - destruct H as (? & ? & Hl & Hz & Hf). unfold byte_string. rewrite length_take_le by lia.
    split_and!; [lia|lia| |by rewrite Hm, decide_True|by apply Forall_take].
    intros i c [Hi ?]%lookup_take_Some. rewrite Hm, decide_False by lia. by apply Hl.
  - apply (byte_string_drop m p l (S k)) in H; [|lia]. replace (p + Z.of_nat k + 1) with (p + Z.of_nat (S k)) by lia.
    apply (byte_string_frame m); [|done]. intros a ?. by rewrite Hm, decide_False by lia.
Qed.

(** One call: the token from [p] on, and where the next call starts. *)
Lemma strtok_step m p q l sep s st :
  byte_string m p l → byte_string m q sep → (if s =? 0 then st = Some p else s = p) →
  let k := span_len (mem_of sep) l in let t := drop k l in let j := span_len (λ c, negb (mem_of sep c)) t in
  if decide (k = length l) then strtok s q st m = Ret (0, None, m)
  else ∃ m', strtok s q st m = Ret (p + Z.of_nat k, Some (if decide (j = length t) then 0 else p + Z.of_nat k + Z.of_nat j + 1), m') ∧
    ∀ a, byte_at m' a = if decide (j ≠ length t ∧ a = p + Z.of_nat k + Z.of_nat j) then 0 else byte_at m a.
Proof.
  intros Hl Hs Hst k t j. destruct (byte_string_head _ _ _ Hl) as [_ Hp].
  assert (0 ∉ sep) as H0. { destruct Hs as (_ & _ & _ & _ & Hs). intros Hin. rewrite Forall_forall in Hs. specialize (Hs _ Hin). lia. }
  destruct (token_start_iterates m sep p l Hl) as (n1 & Hn1 & I1). fold k in I1.
  assert (strtok s q st m =
    match (if decide (k = length l) then None else Some (p + Z.of_nat k)) with
    | None => Ret (0, None, m)
    | Some ts => '(next_token, m) ← c_loop (token_end_body sep m) ts; Ret (ts, Some next_token, m)
    end) as E.
  { unfold strtok. assert ((if s =? 0 then unwrap st else Ret s) = Ret p) as -> by (destruct (s =? 0); by rewrite Hst).
    rewrite ret_bind. rewrite (proj2 (Z.eqb_neq p 0)) by lia. mrun (byte_string_cstr _ _ _ Hs).
    rewrite (c_loop_iterates _ _ _ _ I1), ret_bind; [done|]. destruct Hl as (? & ? & _). lia. }
  case_decide as Hk; [done|]. pose proof (span_len_le (mem_of sep) l). fold k in H.
  assert (byte_string m (p + Z.of_nat k) t) as Ht by (by apply byte_string_drop).
  destruct (token_end_iterates m sep _ t Ht H0) as (n2 & m' & Hn2 & I2 & Hm'). fold j in I2, Hm'.
  exists m'. split; [|done]. rewrite E. rewrite (c_loop_iterates _ _ _ _ I2), ret_bind; [done|]. destruct Ht as (? & ? & _). lia.
Qed.

Lemma span_len_stop f l :
  span_len f l ≠ length l → ∃ c t, drop (span_len f l) l = c :: t ∧ f c = false.
Proof.
  induction l as [|x l IH]; cbn [span_len length]; [done|]. destruct (f x) eqn:E; [|intros _; by exists x, l].
  intros H. cbn [drop]. apply IH. lia.
Qed.

Lemma strtok_run_spec fuel m p q l sep s st :
  byte_string m p l → byte_string m q sep →
  p + Z.of_nat (length l) < q ∨ q + Z.of_nat (length sep) < p →
  (if s =? 0 then st = Some p else s = p) → (length l + 2 ≤ fuel)%nat →
  ∃ ps m', strtok_run fuel s q st m = Ret (ps, m') ∧ Forall2 (byte_string m') ps (tokens sep l) ∧
    ∀ a, ¬ (p ≤ a ≤ p + Z.of_nat (length l)) → byte_at m' a = byte_at m a.
Proof.
  revert m p l s st. induction fuel as [|fuel IH]; intros m p l s st Hl Hs Hap Hst Hf; [lia|].
  pose proof (strtok_step m p q l sep s st Hl Hs Hst) as Hstep. cbv zeta in Hstep.
  rewrite tokens_skip. set (k := span_len (mem_of sep) l) in *. set (t := drop k l) in *.
  set (j := span_len (λ c, negb (mem_of sep c)) t) in *.
  pose proof (span_len_le (mem_of sep) l) as Hkl. fold k in Hkl. destruct (decide (k = length l)) as [Hk|Hk].
  { exists [], m. cbn [strtok_run]. mrun Hstep. split; [done|]. split; [|done].
    unfold t. rewrite Hk, drop_all. constructor. }
  destruct (span_len_stop _ _ Hk) as (c & t' & Et & Hc). fold k t in Et.
  assert (length t = length l - k)%nat as Hlt by (unfold t; by rewrite length_drop).
  pose proof (span_len_le (λ c, negb (mem_of sep c)) t) as Hj. fold j in Hj.
  assert (tokens sep t = take j t :: (if decide (j = length t) then [] else tokens sep (drop (S j) t))) as Etok.
  { apply (tokens_from_token sep [] t). fold j. assert (j ≠ O) by (unfold j; rewrite Et; simpl; by rewrite Hc).
    rewrite Et. simpl. destruct j; done. }
  destruct Hstep as (m1 & E1 & Hm1). assert (byte_string m (p + Z.of_nat k) t) as Ht by (by apply byte_string_drop).
  pose proof Ht as (? & ? & _). cbn [strtok_run]. mrun E1. rewrite (proj2 (Z.eqb_neq _ 0)) by lia. rewrite Etok.
  destruct (decide (j = length t)) as [Hjt|Hjt].
  - destruct fuel as [|fuel]; [lia|]. exists [p + Z.of_nat k], m1. cbn [strtok_run].
    rewrite (eq_refl : strtok 0 q (Some 0) m1 = Ret (0, None, m1)), !ret_bind. split; [done|].
    assert (∀ a, byte_at m1 a = byte_at m a) as Hsame by (intros a; rewrite Hm1, decide_False by (by intros [? _]); done).
    split; [|done]. constructor; [|constructor]. rewrite Hjt, take_ge by lia. by apply (byte_string_frame m).
  - destruct (byte_string_cut m m1 _ t j Ht) as [Hb1 Hb2]; [lia| |].
    { intros a. rewrite Hm1. destruct (decide (j ≠ length t ∧ _)), (decide (a = p + Z.of_nat k + Z.of_nat j)); done || lia. }
    assert (∀ a, a ≠ p + Z.of_nat k + Z.of_nat j → byte_at m1 a = byte_at m a) as Hsame.
    { intros a ?. by rewrite Hm1, decide_False by (by intros [_ ?]). }
    assert (Z.of_nat (length (drop (S j) t)) = Z.of_nat (length t) - Z.of_nat j - 1) as Hld by (rewrite length_drop; lia).
    destruct (IH m1 _ (drop (S j) t) 0 (Some (p + Z.of_nat k + Z.of_nat j + 1)) Hb2) as (ps & m' & E & Hps & Hfr);
      [|lia|done|lia|].
    { apply (byte_string_frame m); [|done]. intros a ?. apply Hsame. lia. }
    exists (p + Z.of_nat k :: ps), m'. split; [by mrun E|]. split.
    + constructor; [|done]. apply (byte_string_frame m1); [|done]. intros a Ha. apply Hfr.
      rewrite length_take_le in Ha by lia. lia.
    + intros a Ha. rewrite Hfr, Hsame by lia. done.
Qed.

(** Calling [strtok] on a string and then on [NULL] until it returns [NULL]
    gives, in order, a pointer to each token of the string (the maximal runs of
    characters outside the separators), and in the memory afterwards each pointer
    is a C string that holds exactly its token.  It takes at most one call more
    than there are characters, and nothing outside the string is changed. *)
Theorem strtok_gives_tokens m p q l sep st :
  byte_string m p l → byte_string m q sep →
  p + Z.of_nat (length l) < q ∨ q + Z.of_nat (length sep) < p →
  ∃ ps m', strtok_run (length l + 2) p q st m = Ret (ps, m') ∧ Forall2 (byte_string m') ps (tokens sep l) ∧
    ∀ a, ¬ (p ≤ a ≤ p + Z.of_nat (length l)) → byte_at m' a = byte_at m a.
Proof.
  intros Hl Hs Hap. apply strtok_run_spec; [done..| |lia].
  destruct (byte_string_head _ _ _ Hl) as [_ ?]. by rewrite (proj2 (Z.eqb_neq p 0)) by lia.
Qed.

Lemma banana_bytes p l :
  0 < p → p + Z.of_nat (length l) + 1 < U32_MOD → (λ i, byte_at banana (p + i)) <$> seqZ 0 (Z.of_nat (length l)) = l →
  byte_at banana (p + Z.of_nat (length l)) = 0 → Forall (λ c, 0 < c < 256) l → byte_string banana p l.
Proof.
  intros ?? H ??. split_and!; [done..| |done|done]. intros i c Hi. rewrite <- H in Hi.
  apply list_lookup_fmap_Some in Hi as (j & -> & Hj). by apply lookup_seqZ in Hj as [-> _].
Qed.

Lemma strtok_gives_tokens_witness :
  tokens [97; 110] [98; 97; 110; 97; 110; 97] = [[98]] ∧
  ∃ m', strtok_run 8 4096 8192 None banana = Ret ([4096], m') ∧ byte_string m' 4096 [98].
Proof.
  split; [vm_compute; reflexivity|].
  destruct (strtok_gives_tokens banana 4096 8192 [98; 97; 110; 97; 110; 97] [97; 110] None) as (ps & m' & E & H & _).
  - apply banana_bytes; [lia|vm_compute; reflexivity|vm_compute; reflexivity|vm_compute; reflexivity|repeat constructor; lia].
  - apply banana_bytes; [lia|vm_compute; reflexivity|vm_compute; reflexivity|vm_compute; reflexivity|repeat constructor; lia].
  - left. vm_compute. reflexivity.
  - change (tokens [97; 110] [98; 97; 110; 97; 110; 97]) with [[98]] in H.
    assert (ps = [4096]) as Eps.
    { cut (match strtok_run 8 4096 8192 None banana with Ret (x, _) => x | Panic => [] end = [4096]).
      - intros Er. cbn [length Nat.add] in E. rewrite E in Er. exact Er.
      - vm_compute. reflexivity. }
    subst ps. exists m'. split; [exact E|]. inversion H. assumption.
Defined.
