(* ===== verification/Env.v ===== *)
(** * The emulated process ([environment.rs], [environment/mutex.rs])

    The state the emulator keeps for the guest process: memory, CPU context,
    threads, mutexes, and the host objects behind semaphores, condition
    variables and [FILE] locks.  Guest threads are coroutines that run one at a
    time: an operation that blocks hands the environment back to the executor
    and later continues with the environment the executor passes in, so it is a
    value of type [run]: finished, or suspended with the rest of its body. *)

From S2P Require Import Prelude ChunkMap SizeBucketed VMAllocator HeapAllocator GuestMem.

(** ** Error numbers ([libc/errno.rs]) *)

Definition EPERM : Z := 1.
Definition ESRCH : Z := 3.
Definition EDEADLK : Z := 11.
Definition EBUSY : Z := 16.
Definition EINVAL : Z := 22.
Definition EAGAIN : Z := 35.
Definition ETIMEDOUT : Z := 60.

(** ** Data *)

Notation ThreadId := nat (only parsing).
Notation MutexId := Z (only parsing).

(** The registers the CPU emulator saves per thread. *)
Record CpuContext := mkCpuContext {
  regs : list Z;
  extregs : list Z;
  cpsr : Z;
  fpscr : Z
}.
Definition CpuContext_new : CpuContext := mkCpuContext (replicate 16 0) (replicate 64 0) 0 0.

Inductive CpuError := MemoryError | UndefinedInstruction | Breakpoint.

(** A coroutine, identified by the thread whose body it runs. *)
Inductive HostContext := Coroutine (body_of : ThreadId).

(** Instants and durations are nanoseconds. *)
Inductive ThreadBlock :=
| NotBlocked
| Sleeping (until : Z)
| BlockMutex (mutex_id : MutexId)
| BlockSemaphore (sem : Z)
| BlockCondition (cond : Z) (deadline : option Z)
| Joining (joinee : ThreadId) (ptr : Z)
| WaitingForDebugger (reason : option CpuError)
| Suspended (count : Z) (previous : ThreadBlock)
| FileObjectLock (file_ptr : Z).

Record Thread := mkThread {
  active : bool;
  blocked_by : ThreadBlock;
  return_value : option Z;
  guest_context : option CpuContext;
  host_context : option HostContext;
  stack : option (Z * Z)
}.

Inductive MutexType :=
| PTHREAD_MUTEX_NORMAL
| PTHREAD_MUTEX_ERRORCHECK
| PTHREAD_MUTEX_RECURSIVE.
#[global] Instance MutexType_eq_dec : EqDecision MutexType.
Proof. solve_decision. Defined.
Definition PTHREAD_MUTEX_DEFAULT : MutexType := PTHREAD_MUTEX_NORMAL.

Definition MutexType_to_i32 (t : MutexType) : Z :=
  match t with
  | PTHREAD_MUTEX_NORMAL => 0
  | PTHREAD_MUTEX_ERRORCHECK => 1
  | PTHREAD_MUTEX_RECURSIVE => 2
  end.
Definition MutexType_try_from (value : Z) : option MutexType :=
  if value =? 0 then Some PTHREAD_MUTEX_NORMAL
  else if value =? 1 then Some PTHREAD_MUTEX_ERRORCHECK
  else if value =? 2 then Some PTHREAD_MUTEX_RECURSIVE
  else None.

Record Mutex := mkMutex {
  mtype : MutexType;
  waiting_count : Z;
  locked : option (ThreadId * Z)
}.

Record MutexState := mkMutexState {
  mutexes : gmap MutexId Mutex;
  mutex_count : Z
}.

(** Semaphore host objects are shared ([Rc]) between the table of names and the
    table of open semaphores: both map to the key of the object in [sem_objects]. *)
Record SemaphoreHostObject := mkSem {
  sem_value : Z;
  sem_waiting : gset ThreadId;
  guest_sem : option Z;
  sem_named : bool
}.
Record SemState := mkSemState {
  sem_objects : gmap Z SemaphoreHostObject;
  next_sem_object : Z;
  named_semaphores : gmap (list Z) Z;
  open_semaphores : gmap Z Z
}.

Record CondHostObject := mkCond {
  cond_waiting : list ThreadId;
  cond_waking : list ThreadId;
  curr_mutex : option MutexId;
  timed_out : gset ThreadId
}.

Record FILEHostObject := mkFILE {
  pushbacks : list Z;
  lock_count : Z;
  owning_thread : option ThreadId
}.

(** [pthread_attr_t] of guest memory. *)
Record pthread_attr_t := mkAttr {
  attr_magic : Z;
  detachstate : Z;
  stacksize : Z;
  attr_unused : list Z
}.
Record ThreadHostObject := mkThreadHost {
  host_thread_id : ThreadId;
  joined_by : option ThreadId;
  host_attr : pthread_attr_t
}.

Record Environment := mkEnvironment {
  mem : Mem;
  cpu : CpuContext;
  current_thread : ThreadId;
  threads : list Thread;
  mutex_state : MutexState;
  errnos : gmap ThreadId Z;
  sem_state : SemState;
  condition_variables : gmap Z CondHostObject;
  file_streams : gmap Z FILEHostObject;
  sync_mutexes : gmap Z MutexId;
  (** Whether the running app is the one [bundle_identifier()] is compared with. *)
  bundle_is_jc3 : bool;
  (** Thread-specific data ([libc/pthread/key.rs]): values by thread, and the destructor. *)
  pthread_keys : list (option (gmap ThreadId Z * Z));
  (** [libc/pthread/thread.rs]. *)
  pthread_threads : gmap Z ThreadHostObject;
  main_thread_object_created : bool
}.

Definition set_mem (x : Mem) (e : Environment) : Environment :=
  mkEnvironment x (cpu e) (current_thread e) (threads e) (mutex_state e) (errnos e) (sem_state e)
    (condition_variables e) (file_streams e) (sync_mutexes e) (bundle_is_jc3 e)
    (pthread_keys e) (pthread_threads e) (main_thread_object_created e).
Definition set_cpu (x : CpuContext) (e : Environment) : Environment :=
  mkEnvironment (mem e) x (current_thread e) (threads e) (mutex_state e) (errnos e) (sem_state e)
    (condition_variables e) (file_streams e) (sync_mutexes e) (bundle_is_jc3 e)
    (pthread_keys e) (pthread_threads e) (main_thread_object_created e).
Definition set_current (x : ThreadId) (e : Environment) : Environment :=
  mkEnvironment (mem e) (cpu e) x (threads e) (mutex_state e) (errnos e) (sem_state e)
    (condition_variables e) (file_streams e) (sync_mutexes e) (bundle_is_jc3 e)
    (pthread_keys e) (pthread_threads e) (main_thread_object_created e).
Definition set_threads (x : list Thread) (e : Environment) : Environment :=
  mkEnvironment (mem e) (cpu e) (current_thread e) x (mutex_state e) (errnos e) (sem_state e)
    (condition_variables e) (file_streams e) (sync_mutexes e) (bundle_is_jc3 e)
    (pthread_keys e) (pthread_threads e) (main_thread_object_created e).
Definition set_mutex_state (x : MutexState) (e : Environment) : Environment :=
  mkEnvironment (mem e) (cpu e) (current_thread e) (threads e) x (errnos e) (sem_state e)
    (condition_variables e) (file_streams e) (sync_mutexes e) (bundle_is_jc3 e)
    (pthread_keys e) (pthread_threads e) (main_thread_object_created e).
Definition set_errnos (x : gmap ThreadId Z) (e : Environment) : Environment :=
  mkEnvironment (mem e) (cpu e) (current_thread e) (threads e) (mutex_state e) x (sem_state e)
    (condition_variables e) (file_streams e) (sync_mutexes e) (bundle_is_jc3 e)
    (pthread_keys e) (pthread_threads e) (main_thread_object_created e).
Definition set_sem_state (x : SemState) (e : Environment) : Environment :=
  mkEnvironment (mem e) (cpu e) (current_thread e) (threads e) (mutex_state e) (errnos e) x
    (condition_variables e) (file_streams e) (sync_mutexes e) (bundle_is_jc3 e)
    (pthread_keys e) (pthread_threads e) (main_thread_object_created e).
Definition set_conds (x : gmap Z CondHostObject) (e : Environment) : Environment :=
  mkEnvironment (mem e) (cpu e) (current_thread e) (threads e) (mutex_state e) (errnos e) (sem_state e)
    x (file_streams e) (sync_mutexes e) (bundle_is_jc3 e)
    (pthread_keys e) (pthread_threads e) (main_thread_object_created e).
Definition set_file_streams (x : gmap Z FILEHostObject) (e : Environment) : Environment :=
  mkEnvironment (mem e) (cpu e) (current_thread e) (threads e) (mutex_state e) (errnos e) (sem_state e)
    (condition_variables e) x (sync_mutexes e) (bundle_is_jc3 e)
    (pthread_keys e) (pthread_threads e) (main_thread_object_created e).
Definition set_sync_mutexes (x : gmap Z MutexId) (e : Environment) : Environment :=
  mkEnvironment (mem e) (cpu e) (current_thread e) (threads e) (mutex_state e) (errnos e) (sem_state e)
    (condition_variables e) (file_streams e) x (bundle_is_jc3 e)
    (pthread_keys e) (pthread_threads e) (main_thread_object_created e).

Definition set_keys (x : list (option (gmap ThreadId Z * Z))) (e : Environment) : Environment :=
  mkEnvironment (mem e) (cpu e) (current_thread e) (threads e) (mutex_state e) (errnos e) (sem_state e)
    (condition_variables e) (file_streams e) (sync_mutexes e) (bundle_is_jc3 e)
    x (pthread_threads e) (main_thread_object_created e).
Definition set_pthreads (x : gmap Z ThreadHostObject) (created : bool) (e : Environment) : Environment :=
  mkEnvironment (mem e) (cpu e) (current_thread e) (threads e) (mutex_state e) (errnos e) (sem_state e)
    (condition_variables e) (file_streams e) (sync_mutexes e) (bundle_is_jc3 e)
    (pthread_keys e) x created.

(** ** Suspension *)

(** What an operation of the running thread comes to: it returns, or it yields
    and goes on with [resume] when the thread is scheduled again. *)
Inductive run (R : Type) : Type :=
| Finished (r : R) (e : Environment)
| Yielded (e : Environment) (resume : Environment → outcome (R * Environment)).
Arguments Finished {R} r e.
Arguments Yielded {R} e resume.

(** Continue a finished or suspended operation. *)
Definition run_map {R R'} (f : R → Environment → outcome (R' * Environment)) (x : run R)
    : outcome (run R') :=
  match x with
  | Finished r e => '(r', e') ← f r e; Ret (Finished r' e')
  | Yielded e k => Ret (Yielded e (λ e', '(r, e'') ← k e'; f r e''))
  end.

(** ** Threads *)

Definition is_blocked (t : Thread) : bool :=
  match blocked_by t with NotBlocked => false | _ => true end.

(** [self.threads[t]] for reading and for writing: out of range panics. *)
Definition get_thread (t : ThreadId) (e : Environment) : outcome Thread := unwrap (threads e !! t).
Definition update_thread (t : ThreadId) (f : Thread → Thread) (e : Environment) : outcome Environment :=
  th ← get_thread t e;
  Ret (set_threads (<[t := f th]> (threads e)) e).

Definition with_block (b : ThreadBlock) (th : Thread) : Thread :=
  mkThread (active th) b (return_value th) (guest_context th) (host_context th) (stack th).
Definition set_block (t : ThreadId) (b : ThreadBlock) : Environment → outcome Environment :=
  update_thread t (with_block b).

(** [yield_thread], with the rest of the caller's body. *)
Definition yield_thread {R} (thread_block : ThreadBlock)
    (rest : Environment → outcome (R * Environment)) (e : Environment) : outcome (run R) :=
  th ← get_thread (current_thread e) e;
  rassert (negb (is_blocked th));;
  e' ← set_block (current_thread e) thread_block e;
  Ret (Yielded e' (λ e1,
    th1 ← get_thread (current_thread e1) e1;
    rassert (negb (is_blocked th1));;
    rest e1)).

(** [sleep]: [now] is the reading of [Instant::now()]. *)
Definition sleep (now duration : Z) (e : Environment) : outcome (run unit) :=
  yield_thread (Sleeping (now + duration)) (λ e', Ret ((), e')) e.

Definition suspend_thread (t : ThreadId) (e : Environment) : outcome Environment :=
  th ← get_thread t e;
  match blocked_by th with
  | Suspended count prev => n ← u64 (count + 1); set_block t (Suspended n prev) e
  | b => set_block t (Suspended 1 b) e
  end.

Definition resume_thread (t : ThreadId) (e : Environment) : outcome Environment :=
  th ← get_thread t e;
  match blocked_by th with
  | Suspended count prev =>
      rassert (0 <? count);;
      if 1 <? count then set_block t (Suspended (count - 1) prev) e else set_block t prev e
  | _ => Panic
  end.

(** [new_thread]: a stack from the guest heap and a coroutine for the body. *)
Definition new_thread (stack_size : Z) (e : Environment) : outcome (ThreadId * Environment) :=
  '(stack_alloc, m) ← mem_alloc stack_size (mem e);
  high ← u32 (stack_alloc + stack_size);
  rassert (is_multiple_of high 4);;
  last ← u32 (high - 1);
  let id := length (threads e) in
  let th := mkThread true NotBlocked None (Some CpuContext_new) (Some (Coroutine id))
              (Some (stack_alloc, last)) in
  Ret (id, set_threads (threads e ++ [th]) (set_mem m e)).

Definition join_with_thread (joinee : ThreadId) (ptr : Z) (e : Environment) : outcome (run unit) :=
  yield_thread (Joining joinee ptr) (λ e', Ret ((), e')) e.

(** ** Mutexes *)

Definition get_mutex (id : MutexId) (s : MutexState) : outcome Mutex := unwrap (mutexes s !! id).
Definition put_mutex (id : MutexId) (m : Mutex) (s : MutexState) : MutexState :=
  mkMutexState (<[id := m]> (mutexes s)) (mutex_count s).
Definition put_mutex_env (id : MutexId) (m : Mutex) (e : Environment) : Environment :=
  set_mutex_state (put_mutex id m (mutex_state e)) e.

Definition init_mutex (t : MutexType) (s : MutexState) : outcome (MutexId * MutexState) :=
  let id := mutex_count s in
  n ← u64 (mutex_count s + 1);
  Ret (id, mkMutexState (<[id := mkMutex t 0 None]> (mutexes s)) n).

Definition destroy_mutex (id : MutexId) (s : MutexState) : outcome (result unit Z * MutexState) :=
  m ← get_mutex id s;
  match locked m with
  | Some _ => Ret (Err EBUSY, s)
  | None =>
      if negb (waiting_count m =? 0) then Ret (Err EBUSY, s)
      else Ret (Ok (), mkMutexState (delete id (mutexes s)) (mutex_count s))
  end.

Definition mutex_is_locked (id : MutexId) (s : MutexState) : bool :=
  match mutexes s !! id with
  | Some m => match locked m with Some _ => true | None => false end
  | None => false
  end.
Definition mutex_is_recursive (id : MutexId) (s : MutexState) : bool :=
  match mutexes s !! id with
  | Some m => bool_decide (mtype m = PTHREAD_MUTEX_RECURSIVE)
  | None => false
  end.
Definition mutex_is_locked_by (id : MutexId) (t : ThreadId) (s : MutexState) : bool :=
  match mutexes s !! id with
  | Some m => match locked m with Some (o, _) => bool_decide (o = t) | None => false end
  | None => false
  end.

Definition relock_unblocked_mutex_for_thread (t : ThreadId) (id : MutexId) (e : Environment)
    : outcome Environment :=
  m ← get_mutex id (mutex_state e);
  rassert (match locked m with None => true | Some _ => false end);;
  let w := if 0 <? waiting_count m then waiting_count m - 1 else waiting_count m in
  Ret (put_mutex_env id (mkMutex (mtype m) w (Some (t, 1))) e).

Definition block_on_mutex {R} (id : MutexId) (rest : Environment → outcome (R * Environment))
    : Environment → outcome (run R) :=
  yield_thread (BlockMutex id) rest.

Definition lock_mutex (id : MutexId) (e : Environment) : outcome (run (result Z Z)) :=
  let cur := current_thread e in
  m ← get_mutex id (mutex_state e);
  match locked m with
  | None => Ret (Finished (Ok 1) (put_mutex_env id (mkMutex (mtype m) (waiting_count m) (Some (cur, 1))) e))
  | Some (owner, count) =>
      if decide (owner = cur) then
        match mtype m with
        | PTHREAD_MUTEX_NORMAL => Panic
        | PTHREAD_MUTEX_ERRORCHECK => Ret (Finished (Err EDEADLK) e)
        | PTHREAD_MUTEX_RECURSIVE =>
            n ← u32 (count + 1);
            Ret (Finished (Ok n) (put_mutex_env id (mkMutex (mtype m) (waiting_count m) (Some (owner, n))) e))
        end
      else
        w ← u32 (waiting_count m + 1);
        block_on_mutex id (λ e', Ret (Ok 1, e')) (put_mutex_env id (mkMutex (mtype m) w (locked m)) e)
  end.

Definition unlock_mutex (id : MutexId) (e : Environment) : outcome (result Z Z * Environment) :=
  let cur := current_thread e in
  m ← get_mutex id (mutex_state e);
  match locked m with
  | None =>
      match mtype m with
      | PTHREAD_MUTEX_NORMAL => Panic
      | _ => Ret (Err EPERM, e)
      end
  | Some (owner, count) =>
      if negb (bool_decide (owner = cur)) && negb (bool_decide (mtype m = PTHREAD_MUTEX_NORMAL))
      then Ret (Err EPERM, e)
      else if count =? 1
      then Ret (Ok 0, put_mutex_env id (mkMutex (mtype m) (waiting_count m) None) e)
      else
        rassert (bool_decide (mtype m = PTHREAD_MUTEX_RECURSIVE));;
        n ← u32 (count - 1);
        rassert (negb (n =? 0));;
        Ret (Ok n, put_mutex_env id (mkMutex (mtype m) (waiting_count m) (Some (owner, n))) e)
  end.
