(* ===== verification/Qsort.v ===== *)
(** * Sorting and searching ([libc/stdlib/qsort.rs], [bsearch] of [libc/stdlib.rs])

    [qsort_generic] sorts anything that can compare and swap by index: the array
    in guest memory of [qsort], and the host vector of an [NSArray].  The class
    [Sortable] states what it needs of the two operations; the theorem about
    [qsort_generic] is proved against the class, and guest memory with a
    comparison function of the guest is an instance. *)

From S2P Require Import Prelude ChunkMap SizeBucketed VMAllocator HeapAllocator GuestMem Env.

(** ** The algorithm *)

Section qsort_generic.
Context {T : Type}.
Variable compar : Z → Z → T → outcome (Z * T).
Variable swap : Z → Z → T → outcome T.

(** One iteration of the partition loop, [separator] being the first index that
    is not known to hold an element below the pivot. *)
Definition partition_step (pivot i : Z) (x : Z * T) : outcome (Z * T) :=
  let '(separator, user_data) := x in
  '(c, user_data) ← compar i pivot user_data;
  if c <? 0 then
    user_data ← swap i separator user_data;
    separator ← u32 (separator + 1);
    Ret (separator, user_data)
  else Ret (separator, user_data).

(** The recursion is never deeper than the number of elements: [fuel]. *)
Fixpoint qsort_rec (fuel : nat) (low hi : Z) (user_data : T) : outcome T :=
  if hi <=? low then Ret user_data
  else
    match fuel with
    | O => Panic
    | S fuel' =>
        let pivot := low in
        separator ← u32 (low + 1);
        '(separator, user_data) ← for_each (partition_step pivot) (seqZ (low + 1) (hi - low)) (separator, user_data);
        last ← u32 (separator - 1);
        user_data ← swap pivot last user_data;
        user_data ← (if 1 <? separator
                     then h ← u32 (separator - 2); qsort_rec fuel' low h user_data
                     else Ret user_data);
        qsort_rec fuel' separator hi user_data
    end.

Definition qsort_generic (nitems : Z) (user_data : T) : outcome T :=
  if nitems <? 2 then Ret user_data
  else h ← u32 (nitems - 1); qsort_rec (Z.to_nat nitems) 0 h user_data.
End qsort_generic.

(** ** What comparing and swapping have to do *)

(** The list with the elements at [i] and [j] exchanged. *)
Definition list_swap {A} (i j : nat) (l : list A) : list A :=
  match l !! i, l !! j with
  | Some x, Some y => <[i := y]> (<[j := x]> l)
  | _, _ => l
  end.

(** A state [T] that holds the elements [items], compared by [lt]; [ok] is what
    the operations keep true of the state. *)
Class Sortable {T A : Type} (compar : Z → Z → T → outcome (Z * T)) (swap : Z → Z → T → outcome T)
    (ok : T → Prop) (items : T → list A) (lt : A → A → Prop) := {
  sortable_compar ud i j x y :
    ok ud → items ud !! i = Some x → items ud !! j = Some y →
    ∃ c ud', compar (Z.of_nat i) (Z.of_nat j) ud = Ret (c, ud') ∧ ok ud' ∧ items ud' = items ud ∧ (c < 0 ↔ lt x y);
  sortable_swap ud i j :
    ok ud → (i < length (items ud))%nat → (j < length (items ud))%nat →
    ∃ ud', swap (Z.of_nat i) (Z.of_nat j) ud = Ret ud' ∧ ok ud' ∧ items ud' = list_swap i j (items ud)
}.

(** A comparison: [lt] is the strict part of a total preorder. *)
Class Comparison {A} (lt : A → A → Prop) := {
  lt_asym x y : lt x y → ¬ lt y x;
  not_lt_trans x y z : ¬ lt y x → ¬ lt z y → ¬ lt z x
}.

Lemma list_swap_mid {A} (a b c : list A) x y :
  list_swap (length a) (length a + S (length b)) (a ++ x :: b ++ y :: c) = a ++ y :: b ++ x :: c.
Proof.
  unfold list_swap. rewrite list_lookup_middle by done.
  rewrite lookup_app_r by lia. replace (length a + S (length b) - length a)%nat with (S (length b)) by lia.
  simpl. rewrite list_lookup_middle by done.
  rewrite insert_app_r. simpl. replace (length b) with (length b + 0)%nat by lia. rewrite insert_app_r. simpl.
  replace (length a) with (length a + 0)%nat by lia. by rewrite insert_app_r.
Qed.

Lemma list_swap_same {A} i (l : list A) : list_swap i i l = l.
Proof. unfold list_swap. destruct (l !! i) eqn:E; [|done]. by rewrite list_insert_insert_eq, list_insert_id. Qed.

Lemma list_swap_comm {A} i j (l : list A) : list_swap i j l = list_swap j i l.
Proof.
  unfold list_swap. destruct (l !! i) eqn:Ei, (l !! j) eqn:Ej; try done.
  destruct (decide (i = j)) as [->|]; [by simplify_eq|]. by rewrite list_insert_insert_ne.
Qed.

(** ** Correctness of the algorithm *)

Ltac len_simpl := repeat (progress (rewrite ?length_app in *; cbn [length] in * )).

Section correctness.
Context {T A : Type} {compar : Z → Z → T → outcome (Z * T)} {swap : Z → Z → T → outcome T}
        {ok : T → Prop} {items : T → list A} {lt : A → A → Prop}.
Context `{!Sortable compar swap ok items lt, !Comparison lt}.
Implicit Types (ud : T) (a b l r rest : list A).

(** In order: no element is below an earlier one. *)
Definition in_order : list A → Prop := StronglySorted (λ x y, ¬ lt y x).

(** Swapping two positions of a list given by its pieces. *)
Lemma swap_pieces ud a x b y c :
  ok ud → items ud = a ++ x :: b ++ y :: c →
  ∃ ud', swap (Z.of_nat (length a)) (Z.of_nat (length a + S (length b))) ud = Ret ud' ∧ ok ud' ∧
    items ud' = a ++ y :: b ++ x :: c ∧
    ∃ ud'', swap (Z.of_nat (length a + S (length b))) (Z.of_nat (length a)) ud = Ret ud'' ∧ ok ud'' ∧
      items ud'' = a ++ y :: b ++ x :: c.
Proof.
  intros Hok E.
  destruct (sortable_swap ud (length a) (length a + S (length b))) as (ud1 & E1 & ? & I1);
    [done|rewrite E, ?length_app; simpl; rewrite ?length_app; simpl; lia..|].
  destruct (sortable_swap ud (length a + S (length b)) (length a)) as (ud2 & E2 & ? & I2);
    [done|rewrite E, ?length_app; simpl; rewrite ?length_app; simpl; lia..|].
  exists ud1. split_and!; [done|done|by rewrite I1, E, list_swap_mid|].
  exists ud2. split_and!; [done|done|by rewrite I2, E, list_swap_comm, list_swap_mid].
Qed.

Lemma swap_self ud i :
  ok ud → (i < length (items ud))%nat →
  ∃ ud', swap (Z.of_nat i) (Z.of_nat i) ud = Ret ud' ∧ ok ud' ∧ items ud' = items ud.
Proof.
  intros Hok Hi. destruct (sortable_swap ud i i) as (ud' & ? & ? & E); [done..|]. exists ud'. by rewrite E, list_swap_same.
Qed.

(** One step: the element [x] after the two parts joins one of them. *)
Lemma partition_step_spec ud a p l r x c :
  ok ud → items ud = a ++ p :: l ++ r ++ x :: c → Z.of_nat (length (items ud)) < U32_MOD →
  Forall (λ y, lt y p) l → Forall (λ y, ¬ lt y p) r →
  ∃ ud' l' r', partition_step compar swap (Z.of_nat (length a)) (Z.of_nat (length a + 1 + length l + length r))
      (Z.of_nat (length a + 1 + length l), ud) = Ret (Z.of_nat (length a + 1 + length l'), ud') ∧
    ok ud' ∧ items ud' = a ++ p :: l' ++ r' ++ c ∧ Forall (λ y, lt y p) l' ∧ Forall (λ y, ¬ lt y p) r' ∧
    l ++ r ++ [x] ≡ₚ l' ++ r' ∧ (length l' + length r' = length l + length r + 1)%nat.
Proof.
  intros Hok E Hlen Hl Hr. rewrite E in Hlen. unfold partition_step.
  destruct (sortable_compar ud (length a + 1 + length l + length r) (length a) x p) as (cr & ud1 & Ec & Hok1 & I1 & Hc); [done| | |].
  { rewrite E. rewrite lookup_app_r by lia. replace (length a + 1 + length l + length r - length a)%nat with (S (length l + length r)) by lia.
    simpl. rewrite app_assoc. rewrite <- length_app. by rewrite list_lookup_middle. }
  { rewrite E. by apply list_lookup_middle. }
  mrun Ec. len_simpl.
  destruct (Z.ltb_spec cr 0) as [Hneg|Hpos].
  - assert (lt x p) as Hx by (by apply Hc). destruct r as [|y r].
    + destruct (swap_self ud1 (length a + 1 + length l)) as (ud2 & E2 & Hok2 & I2); [done| |].
      { rewrite I1, E, !length_app. simpl. rewrite !length_app. simpl. lia. }
      simpl. rewrite Nat.add_0_r. mrun E2. rewrite u32_ok, ret_bind by lia.
      exists ud2, (l ++ [x]), []. split; [f_equal; f_equal; rewrite length_app; simpl; lia|].
      rewrite I2, I1, E. split_and!; [done|by rewrite <- app_assoc|by apply Forall_app; auto|done|by rewrite app_nil_r|].
      rewrite length_app. simpl. lia.
    + destruct (swap_pieces ud1 (a ++ p :: l) y r x c) as (_ & _ & _ & _ & ud2 & E2 & Hok2 & I2); [done| |].
      { rewrite I1, E. by rewrite <- !app_assoc. }
      replace (length a + 1 + length l + length (y :: r))%nat with (length (a ++ p :: l) + S (length r))%nat
        by (rewrite length_app; simpl; lia).
      replace (length a + 1 + length l)%nat with (length (a ++ p :: l)) by (rewrite length_app; simpl; lia).
      mrun E2. rewrite u32_ok, ret_bind by (rewrite length_app; simpl; lia).
      apply Forall_cons in Hr as [??].
      exists ud2, (l ++ [x]), (r ++ [y]). split; [f_equal; f_equal; rewrite !length_app; simpl; lia|].
      split_and!; [done| |by apply Forall_app; auto|by apply Forall_app; auto| |rewrite !length_app; simpl; lia].
      * rewrite I2. by rewrite <- !app_assoc.
      * rewrite <- app_assoc. apply Permutation_app_head. simpl.
        rewrite (Permutation_app_comm (y :: r) [x]). simpl. constructor. apply Permutation_cons_append.
  - exists ud1, l, (r ++ [x]). split; [done|]. rewrite I1, E.
    split_and!; [done|by rewrite <- app_assoc|done| |done|rewrite length_app; simpl; lia].
    apply Forall_app. split; [done|]. constructor; [|constructor]. intros ?%Hc. lia.
Qed.

Lemma partition_spec a p rest b : ∀ l r ud,
  ok ud → items ud = a ++ p :: l ++ r ++ rest ++ b → Z.of_nat (length (items ud)) < U32_MOD →
  Forall (λ y, lt y p) l → Forall (λ y, ¬ lt y p) r →
  ∃ ud' l' r', for_each (partition_step compar swap (Z.of_nat (length a)))
      (seqZ (Z.of_nat (length a + 1 + length l + length r)) (Z.of_nat (length rest)))
      (Z.of_nat (length a + 1 + length l), ud) = Ret (Z.of_nat (length a + 1 + length l'), ud') ∧
    ok ud' ∧ items ud' = a ++ p :: l' ++ r' ++ b ∧ Forall (λ y, lt y p) l' ∧ Forall (λ y, ¬ lt y p) r' ∧
    l ++ r ++ rest ≡ₚ l' ++ r'.
Proof.
  induction rest as [|x rest IH]; intros l r ud Hok E Hlen Hl Hr.
  - exists ud, l, r. by rewrite app_nil_r.
  - destruct (partition_step_spec ud a p l r x (rest ++ b)) as (ud1 & l1 & r1 & E1 & Hok1 & I1 & Hl1 & Hr1 & HP & Hn); [done..|].
    destruct (IH l1 r1 ud1) as (ud2 & l2 & r2 & E2 & Hok2 & I2 & Hl2 & Hr2 & HP2); [done|done| |done|done|].
    { rewrite I1. rewrite E in Hlen. len_simpl. lia. }
    exists ud2, l2, r2. split; [|split_and!; [done..|]].
    + cbn [length]. rewrite Nat2Z.inj_succ, seqZ_cons by lia. cbn [for_each]. mrun E1.
      replace (Z.succ (Z.of_nat (length a + 1 + length l + length r))) with (Z.of_nat (length a + 1 + length l1 + length r1)) by lia.
      replace (Z.pred (Z.succ (Z.of_nat (length rest)))) with (Z.of_nat (length rest)) by lia. done.
    + rewrite <- HP2. rewrite (app_assoc l1), <- HP, <- !app_assoc. done.
Qed.

(** The pivot goes between the two parts. *)
Lemma pivot_spec ud a p l c :
  ok ud → items ud = a ++ p :: l ++ c →
  ∃ ud' l', swap (Z.of_nat (length a)) (Z.of_nat (length a + length l)) ud = Ret ud' ∧ ok ud' ∧
    items ud' = a ++ l' ++ p :: c ∧ l' ≡ₚ l.
Proof.
  intros Hok E. destruct l as [|z l _] using rev_ind.
  - destruct (swap_self ud (length a)) as (ud' & Es & ? & I); [done|rewrite E; len_simpl; lia|].
    exists ud', []. rewrite Nat.add_0_r, I. by split_and!.
  - destruct (swap_pieces ud a p l z c) as (ud' & Es & ? & I & _); [done|by rewrite E, <- app_assoc|].
    exists ud', (z :: l). split_and!; [|done|done|apply Permutation_cons_append].
    rewrite <- Es. do 2 f_equal. len_simpl. lia.
Qed.

Lemma in_order_pivot l p r :
  in_order l → in_order r → Forall (λ y, lt y p) l → Forall (λ y, ¬ lt y p) r → in_order (l ++ p :: r).
Proof.
  intros Hl Hr Fl Fr. unfold in_order in *. induction Hl as [|x l Hl IH Hx]; simpl.
  - by constructor.
  - apply Forall_cons in Fl as [Fx Fl]. constructor; [by apply IH|]. apply Forall_app. split; [done|].
    constructor; [by apply lt_asym|]. eapply Forall_impl; [exact Fr|]. intros y Hy.
    apply (not_lt_trans x p y); [by apply lt_asym|done].
Qed.

Lemma qsort_rec_empty fuel low hi ud : hi ≤ low → qsort_rec compar swap fuel low hi ud = Ret ud.
Proof. intros ?. destruct fuel; cbn [qsort_rec]; by rewrite (proj2 (Z.leb_le hi low)). Qed.

(** What a call on the part [ms] of the elements does. *)
Definition sorts_part (fuel : nat) : Prop := ∀ a ms b ud,
  ok ud → items ud = a ++ ms ++ b → Z.of_nat (length (items ud)) < U32_MOD → (length ms ≤ fuel)%nat →
  ∃ ud' ms', qsort_rec compar swap fuel (Z.of_nat (length a)) (Z.of_nat (length a + length ms) - 1) ud = Ret ud' ∧
    ok ud' ∧ items ud' = a ++ ms' ++ b ∧ ms' ≡ₚ ms ∧ in_order ms'.

(** The two recursive calls, after the partition. *)
Lemma recursive_calls fuel a l p r b ud :
  sorts_part fuel → ok ud → items ud = a ++ l ++ p :: r ++ b → Z.of_nat (length (items ud)) < U32_MOD →
  (length l ≤ fuel)%nat → (length r ≤ fuel)%nat → Forall (λ y, lt y p) l → Forall (λ y, ¬ lt y p) r →
  let separator := Z.of_nat (length a + 1 + length l) in
  ∃ ud' ms', (ud ← (if 1 <? separator then h ← u32 (separator - 2); qsort_rec compar swap fuel (Z.of_nat (length a)) h ud else Ret ud);
     qsort_rec compar swap fuel separator (Z.of_nat (length a + length l + length r)) ud) = Ret ud' ∧
    ok ud' ∧ items ud' = a ++ ms' ++ b ∧ ms' ≡ₚ l ++ p :: r ∧ in_order ms'.
Proof.
  intros IH Hok E Hlen Hf1 Hf2 Hl Hr separator.
  assert (∃ ud1 l', (if 1 <? separator then h ← u32 (separator - 2); qsort_rec compar swap fuel (Z.of_nat (length a)) h ud else Ret ud) = Ret ud1 ∧
    ok ud1 ∧ items ud1 = a ++ l' ++ p :: r ++ b ∧ l' ≡ₚ l ∧ in_order l') as (ud1 & l' & E1 & Hok1 & I1 & HP1 & Ho1).
  { destruct (Z.ltb_spec 1 separator) as [H1|H1].
    - unfold separator in *. rewrite u32_ok, ret_bind by (rewrite E in Hlen; len_simpl; lia).
      destruct (IH a l (p :: r ++ b) ud) as (ud1 & l' & E1 & ?); [done..|]. exists ud1, l'. split; [|done].
      rewrite <- E1. f_equal. lia.
    - exists ud, l. destruct l as [|z l]; [|unfold separator in H1; cbn [length] in H1; lia]. split_and!; [done..|constructor]. }
  rewrite E1, ret_bind. pose proof (Permutation_length HP1).
  destruct (IH (a ++ l' ++ [p]) r b ud1) as (ud2 & r' & E2 & Hok2 & I2 & HP2 & Ho2); [done| | |done|].
  { by rewrite I1, <- !app_assoc. } { rewrite I1. rewrite E in Hlen. len_simpl. lia. }
  exists ud2, (l' ++ p :: r'). split_and!; [|done| | |].
  - unfold separator. rewrite <- E2. len_simpl. f_equal; lia.
  - by rewrite I2, <- !app_assoc.
  - by rewrite HP1, HP2.
  - apply in_order_pivot; [done..|by rewrite HP1|by rewrite HP2].
Qed.

Lemma qsort_rec_spec fuel : sorts_part fuel.
Proof.
  induction fuel as [|fuel IH]; intros a ms b ud Hok E Hlen Hf; (destruct ms as [|p tl];
    [exists ud, []; split_and!; [apply qsort_rec_empty; cbn [length]; lia|done|done|done|constructor]|]); [simpl in Hf; lia|].
  cbn [length] in *. destruct tl as [|x rest].
  { exists ud, [p]. split_and!; [apply qsort_rec_empty; cbn [length]; lia|done|done|done|repeat constructor]. }
  set (tl := x :: rest) in *. assert (0 < length tl)%nat by (simpl; lia). clearbody tl.
  replace (Z.of_nat (length a + S (length tl)) - 1) with (Z.of_nat (length a + length tl)) by lia.
  cbn [qsort_rec]. rewrite (proj2 (Z.leb_gt _ _)) by lia.
  assert (Z.of_nat (length a) + 1 + Z.of_nat (length tl) + Z.of_nat (length b) < U32_MOD) as Hb.
  { rewrite E in Hlen. rewrite length_app in Hlen. cbn [length app] in Hlen. rewrite length_app in Hlen. lia. }
  rewrite u32_ok, ret_bind by lia.
  destruct (partition_spec a p tl b [] [] ud) as (ud1 & l & r & E1 & Hok1 & I1 & Hl & Hr & HP); [done..|].
  cbn [length Nat.add] in E1. rewrite !Nat.add_0_r in E1.
  replace (Z.of_nat (length a + length tl) - Z.of_nat (length a)) with (Z.of_nat (length tl)) by lia.
  replace (Z.of_nat (length a) + 1) with (Z.of_nat (length a + 1)) by lia. mrun E1.
  change (tl ≡ₚ l ++ r) in HP.
  assert (length tl = length l + length r)%nat as HPl by (by rewrite <- length_app, HP).
  rewrite (u32_ok (Z.of_nat (length a + 1 + length l) - 1)), ret_bind by lia.
  destruct (pivot_spec ud1 a p l (r ++ b)) as (ud2 & l' & E2 & Hok2 & I2 & HP2); [done..|].
  replace (Z.of_nat (length a + 1 + length l) - 1) with (Z.of_nat (length a + length l)) by lia. mrun E2.
  pose proof (Permutation_length HP2) as HPl2.
  destruct (recursive_calls fuel a l' p r b ud2 IH) as (ud3 & ms' & E3 & Hok3 & I3 & HP3 & Ho3); [done|done| |lia|lia|by rewrite HP2|done|].
  { rewrite I2. len_simpl. lia. }
  exists ud3, ms'. split_and!; [|done|done| |done].
  - rewrite <- E3, HPl2. by replace (length a + length tl)%nat with (length a + length l + length r)%nat by lia.
  - rewrite HP3, HP2, HP. by rewrite Permutation_middle.
Qed.

Lemma qsort_generic_spec ud nitems :
  ok ud → Z.of_nat (length (items ud)) = nitems → nitems < U32_MOD →
  ∃ ud', qsort_generic compar swap nitems ud = Ret ud' ∧ ok ud' ∧ items ud' ≡ₚ items ud ∧ in_order (items ud').
Proof.
  intros Hok Hn Hlt. unfold qsort_generic. destruct (Z.ltb_spec nitems 2) as [H2|H2].
  - exists ud. split_and!; [done..|]. destruct (items ud) as [|x [|y l]]; [constructor|repeat constructor|simpl in Hn; lia].
  - rewrite u32_ok, ret_bind by lia.
    destruct (qsort_rec_spec (Z.to_nat nitems) [] (items ud) [] ud) as (ud' & ms' & E & Hok' & I & HP & Ho);
      [done|by rewrite app_nil_r|lia|lia|].
    exists ud'. cbn [length Nat.add Z.of_nat] in E. rewrite Hn in E. rewrite app_nil_r in I. cbn [app] in I. subst ms'. by split_and!.
Qed.
End correctness.

(** ** [qsort]: an array in guest memory *)

(** A guest function called from the host with two pointers: its [int] result,
    and what it did to the environment. *)
Definition GuestFunction2 : Type := Z → Z → Environment → outcome (Z * Environment).

Definition qsort_compar (compar : GuestFunction2) (base size i j : Z) (e : Environment) : outcome (Z * Environment) :=
  oi ← u32 (i * size);
  i_ptr ← ptr_add 1 base oi;
  oj ← u32 (j * size);
  j_ptr ← ptr_add 1 base oj;
  compar i_ptr j_ptr e.

(** The slices taken apart by [split_at_mut] and exchanged by [swap_with_slice]. *)
Definition qsort_swap (base nitems size i j : Z) (e : Environment) : outcome Environment :=
  if i =? j then Ret e
  else
    let '(i, j) := if j <? i then (j, i) else (i, j) in
    n ← u32 (nitems * size);
    rassert (in_bounds base n);;
    oi ← u32 (i * size);
    rassert (oi <=? n);;
    oj ← u32 (j * size);
    offset ← u32 (oj - oi);
    rassert (offset <=? n - oi);;
    rassert (size <=? offset);;
    rassert (size <=? n - oi - offset);;
    let left := byte_at (mem e) <$> addr_range (base + oi) size in
    let right := byte_at (mem e) <$> addr_range (base + oi + offset) size in
    Ret (set_mem (set_bytes (store (base + oi) right (store (base + oi + offset) left (bytes (mem e)))) (mem e)) e).

Definition qsort (compar : GuestFunction2) (base nitems size : Z) (e : Environment) : outcome Environment :=
  qsort_generic (qsort_compar compar base size) (qsort_swap base nitems size) nitems e.

(** The elements, as the bytes they consist of. *)
Definition item_bytes (m : Mem) (base size : Z) (k : nat) : list Z :=
  byte_at m <$> addr_range (base + Z.of_nat k * size) size.
Definition array_items (base size : Z) (n : nat) (e : Environment) : list (list Z) :=
  item_bytes (mem e) base size <$> seq 0 n.

(** What the guest's function has to do: on pointers to two elements it returns,
    negative exactly if the first is below the second, and leaves the array alone. *)
Definition compares_items (compar : GuestFunction2) (base size : Z) (n : nat) (lt : list Z → list Z → Prop) : Prop :=
  ∀ e i j, (i < n)%nat → (j < n)%nat →
    ∃ c e', compar (base + Z.of_nat i * size) (base + Z.of_nat j * size) e = Ret (c, e') ∧
      array_items base size n e' = array_items base size n e ∧
      (c < 0 ↔ lt (item_bytes (mem e) base size i) (item_bytes (mem e) base size j)).

Lemma list_swap_lookup {A} i j k (l : list A) :
  (i < length l)%nat → (j < length l)%nat →
  list_swap i j l !! k = if decide (k = i) then l !! j else if decide (k = j) then l !! i else l !! k.
Proof.
  intros Hi Hj. unfold list_swap. destruct (lookup_lt_is_Some_2 l i Hi) as [x Ex], (lookup_lt_is_Some_2 l j Hj) as [y Ey].
  rewrite Ex, Ey. repeat case_decide; subst.
  - by rewrite list_lookup_insert_eq by (rewrite length_insert; lia).
  - rewrite list_lookup_insert_ne by done. by rewrite list_lookup_insert_eq.
  - by rewrite !list_lookup_insert_ne.
Qed.

Lemma array_items_lookup base size n e k :
  (k < n)%nat → array_items base size n e !! k = Some (item_bytes (mem e) base size k).
Proof. intros ?. unfold array_items. rewrite list_lookup_fmap, lookup_seq_lt by done. done. Qed.

Section guest_array.
Variables (compar : GuestFunction2) (base size : Z) (n : nat) (lt : list Z → list Z → Prop).
Hypotheses (Hbase : 0 ≤ base) (Hsize : 0 < size) (Hfit : base + Z.of_nat n * size < U32_MOD).

Lemma item_range k : (k < n)%nat → 0 ≤ Z.of_nat k * size ∧ Z.of_nat k * size + size ≤ Z.of_nat n * size.
Proof. intros ?. nia. Qed.

Lemma item_disjoint i k : (i ≠ k)%nat → Z.of_nat i * size + size ≤ Z.of_nat k * size ∨ Z.of_nat k * size + size ≤ Z.of_nat i * size.
Proof. intros ?. destruct (decide (i < k)%nat); [left|right]; nia. Qed.

(** Two elements exchanged in memory. *)
Definition swapped_mem (i j : nat) (m : Mem) : Mem :=
  set_bytes (store (base + Z.of_nat i * size) (item_bytes m base size j)
            (store (base + Z.of_nat j * size) (item_bytes m base size i) (bytes m))) m.

Lemma swapped_mem_items i j m k :
  i ≠ j → item_bytes (swapped_mem i j m) base size k =
    if decide (k = i) then item_bytes m base size j else if decide (k = j) then item_bytes m base size i
    else item_bytes m base size k.
Proof.
  intros Hij. assert (∀ k, Z.of_nat (length (item_bytes m base size k)) = size) as Hlen.
  { intros k'. unfold item_bytes, addr_range. rewrite length_fmap, length_seqZ. lia. }
  assert (∀ a, byte_at (swapped_mem i j m) a =
    if decide (base + Z.of_nat i * size ≤ a < base + Z.of_nat i * size + size) then byte_at m (base + Z.of_nat j * size + (a - (base + Z.of_nat i * size)))
    else if decide (base + Z.of_nat j * size ≤ a < base + Z.of_nat j * size + size) then byte_at m (base + Z.of_nat i * size + (a - (base + Z.of_nat j * size)))
    else byte_at m a) as Hby.
  { intros a. unfold swapped_mem, byte_at at 1. cbn [bytes set_bytes]. rewrite !store_lookup, !Hlen.
    unfold item_bytes, addr_range. repeat case_decide; [..|done]; rewrite list_lookup_fmap, lookup_seqZ_lt by lia; simpl; f_equal; lia. }
  assert (∀ k', (byte_at (swapped_mem i j m) <$> addr_range (base + Z.of_nat k * size) size = item_bytes m base size k') ↔
    ∀ d, 0 ≤ d < size → byte_at (swapped_mem i j m) (base + Z.of_nat k * size + d) = byte_at m (base + Z.of_nat k' * size + d)) as Hext.
  { intros k'. unfold item_bytes, addr_range. split.
    - intros H d Hd. apply (f_equal (λ l, l !! Z.to_nat d)) in H. rewrite !list_lookup_fmap, !lookup_seqZ_lt in H by lia.
      simpl in H. injection H as H. rewrite Z2Nat.id in H by lia. done.
    - intros H. apply list_eq. intros d. rewrite !list_lookup_fmap. destruct (decide (Z.of_nat d < size)).
      + rewrite !lookup_seqZ_lt by lia. simpl. f_equal. apply H. lia.
      + by rewrite !lookup_seqZ_ge by lia. }
  unfold item_bytes at 1. destruct (decide (k = i)) as [->|Hki]; [|destruct (decide (k = j)) as [->|Hkj]];
    apply Hext; intros d Hd; rewrite Hby.
  - rewrite decide_True by lia. f_equal. lia.
  - destruct (item_disjoint i j Hij); rewrite decide_False, decide_True by lia; f_equal; lia.
  - destruct (item_disjoint k i Hki), (item_disjoint k j Hkj); by rewrite !decide_False by lia.
Qed.

Lemma qsort_swap_eq i j e :
  (i < j)%nat → (j < n)%nat →
  qsort_swap base (Z.of_nat n) size (Z.of_nat i) (Z.of_nat j) e = Ret (set_mem (swapped_mem i j (mem e)) e) ∧
  qsort_swap base (Z.of_nat n) size (Z.of_nat j) (Z.of_nat i) e = Ret (set_mem (swapped_mem i j (mem e)) e).
Proof.
  intros Hij Hj. destruct (item_range i) as [??]; [lia|]. destruct (item_range j) as [??]; [lia|].
  assert (Z.of_nat i * size + size ≤ Z.of_nat j * size) by nia.
  unfold qsort_swap. rewrite !(proj2 (Z.eqb_neq _ _)) by lia. rewrite (proj2 (Z.ltb_ge _ _)), (proj2 (Z.ltb_lt (Z.of_nat i) _)) by lia.
  unfold in_bounds. rewrite !(u32_ok (Z.of_nat _ * size)) by lia. cbn [mbind outcome_bind].
  rewrite !(proj2 (Z.leb_le (base + _) _)), (proj2 (Z.leb_le (Z.of_nat i * size) _)) by lia. cbn [rassert mbind outcome_bind].
  rewrite !u32_ok by lia. cbn [mbind outcome_bind].
  rewrite !(proj2 (Z.leb_le _ _)) by lia. cbn [rassert mbind outcome_bind]. unfold swapped_mem, item_bytes.
  replace (base + Z.of_nat i * size + (Z.of_nat j * size - Z.of_nat i * size)) with (base + Z.of_nat j * size) by lia. done.
Qed.

(** Guest memory with a comparison function of the guest implements the interface. *)
#[local] Instance guest_array_sortable :
  compares_items compar base size n lt →
  Sortable (qsort_compar compar base size) (qsort_swap base (Z.of_nat n) size) (λ _, True) (array_items base size n) lt.
Proof.
  intros Hcmp. split.
  - intros e i j x y _ Hi Hj. pose proof (lookup_lt_Some _ _ _ Hi) as Hi'. pose proof (lookup_lt_Some _ _ _ Hj) as Hj'.
    unfold array_items in Hi', Hj'. rewrite length_fmap, length_seq in Hi', Hj'.
    rewrite array_items_lookup in Hi, Hj by done. simplify_eq.
    destruct (item_range i Hi') as [??], (item_range j Hj') as [??].
    destruct (Hcmp e i j Hi' Hj') as (c & e' & Ec & Ei & Hc). exists c, e'. split_and!; [|done|done|done].
    unfold qsort_compar. rewrite !u32_ok by lia. cbn [mbind outcome_bind]. rewrite !ptr_add_1 by lia. exact Ec.
  - intros e i j _ Hi Hj. unfold array_items in Hi, Hj. rewrite length_fmap, length_seq in Hi, Hj.
    assert (∀ i j, i ≠ j → (i < n)%nat → (j < n)%nat →
      array_items base size n (set_mem (swapped_mem i j (mem e)) e) = list_swap i j (array_items base size n e)) as Hsw.
    { clear i j Hi Hj. intros i j Hij Hi Hj. apply list_eq. intros k.
      rewrite list_swap_lookup by (unfold array_items; rewrite length_fmap, length_seq; lia).
      destruct (decide (k < n)%nat).
      - rewrite !array_items_lookup by done. cbn [mem set_mem]. rewrite swapped_mem_items by done. by repeat case_decide.
      - rewrite !decide_False by lia. by rewrite !lookup_ge_None_2 by (unfold array_items; rewrite length_fmap, length_seq; lia). }
    destruct (decide (i = j)) as [->|Hij].
    { exists e. unfold qsort_swap. by rewrite Z.eqb_refl, list_swap_same. }
    destruct (decide (i < j)%nat).
    + destruct (qsort_swap_eq i j e) as [-> _]; [lia|done|]. eexists. split_and!; [done|done|]. by apply Hsw.
    + destruct (qsort_swap_eq j i e) as [_ ->]; [lia|done|]. eexists. split_and!; [done|done|]. rewrite Hsw by lia. apply list_swap_comm.
Qed.

Lemma qsort_spec e :
  compares_items compar base size n lt → Comparison lt →
  ∃ e', qsort compar base (Z.of_nat n) size e = Ret e' ∧
    array_items base size n e' ≡ₚ array_items base size n e ∧ in_order (lt := lt) (array_items base size n e').
Proof.
  intros Hcmp Hlt. pose proof (guest_array_sortable Hcmp).
  destruct (qsort_generic_spec (lt := lt) e (Z.of_nat n)) as (e' & ? & _ & ? & ?); [done| | |by exists e'].
  - unfold array_items. by rewrite length_fmap, length_seq.
  - nia.
Qed.
End guest_array.

(** C15: [qsort] on any array in guest memory, with a guest function that compares
    elements by a total preorder and leaves the array alone, returns (the recursion
    and every index and pointer computation stay in range), and the array then
    holds a permutation of its elements, in order. *)
Theorem qsort_sorts compar base size n lt e :
  0 ≤ base → 0 < size → base + Z.of_nat n * size < U32_MOD →
  compares_items compar base size n lt → Comparison lt →
  ∃ e', qsort compar base (Z.of_nat n) size e = Ret e' ∧
    array_items base size n e' ≡ₚ array_items base size n e ∧ in_order (lt := lt) (array_items base size n e').
Proof. intros. by apply qsort_spec. Qed.

(** A guest function that compares two [u32]s, and an array [3; 1; 2]. *)
Definition compare_u32 : GuestFunction2 := λ p q e,
  x ← read_u32 p (mem e); y ← read_u32 q (mem e); Ret (if x <? y then -1 else if y <? x then 1 else 0, e).
Definition lt_u32 (x y : list Z) : Prop := from_le_bytes x < from_le_bytes y.
#[global] Instance lt_u32_comparison : Comparison lt_u32.
Proof. split; unfold lt_u32; intros; lia. Qed.
Definition idle_env (m : Mem) : Environment :=
  mkEnvironment m CpuContext_new 0 [] (mkMutexState ∅ 0) ∅ (mkSemState ∅ 0 ∅ ∅) ∅ ∅ ∅ false [] ∅ false.

Lemma compare_u32_items base n : 0 ≤ base → base + Z.of_nat n * 4 < U32_MOD → compares_items compare_u32 base 4 n lt_u32.
Proof.
  intros ?? e i j ??. unfold compare_u32, read_u32, read_u. rewrite !mem_read_eq by (unfold U32_MOD in *; lia).
  cbn [mbind outcome_bind]. eexists _, e. split; [done|]. split; [done|].
  unfold lt_u32, item_bytes. change (Z.of_nat 4) with 4. repeat zcase; lia.
Qed.

Definition three_numbers : Environment :=
  idle_env (set_bytes (store 4096 [3; 0; 0; 0; 1; 0; 0; 0; 2; 0; 0; 0] ∅) empty_mem).

Lemma qsort_sorts_witness :
  ∃ e', qsort compare_u32 4096 3 4 three_numbers = Ret e' ∧
    in_order (lt := lt_u32) (array_items 4096 4 3 e') ∧ array_items 4096 4 3 e' = [[1; 0; 0; 0]; [2; 0; 0; 0]; [3; 0; 0; 0]].
Proof.
  destruct (qsort_sorts compare_u32 4096 4 3 lt_u32 three_numbers) as (e' & E & _ & Ho);
    [lia|lia|vm_compute; reflexivity|apply compare_u32_items; [lia|vm_compute; reflexivity]|apply _|].
  exists e'. split; [exact E|]. split; [exact Ho|].
  cut (match qsort compare_u32 4096 3 4 three_numbers with Ret e => array_items 4096 4 3 e | Panic => [] end
       = [[1; 0; 0; 0]; [2; 0; 0; 0]; [3; 0; 0; 0]]).
  - change (Z.of_nat 3) with 3 in E. rewrite E. exact (λ H, H).
  - vm_compute. reflexivity.
Defined.

(** ** [bsearch] *)

Definition bsearch_body (compare_callback : GuestFunction2) (key items item_size : Z) (x : Z * Z * Environment)
    : outcome (Z * Z * Environment + Z * Environment) :=
  let '(low, len, e) := x in
  if 0 <? len then
    let half_len := len / 2 in
    mid ← u32 (low + half_len);
    off ← u32 (item_size * mid);
    item ← ptr_add 1 items off;
    '(cmp_result, e) ← compare_callback key item e;
    if cmp_result =? 0 then Ret (inr (item, e))
    else if 0 <? cmp_result then
      low' ← u32 (low + half_len + 1);
      len' ← u32 (len - half_len - 1);
      Ret (inl (low', len', e))
    else Ret (inl (low, half_len, e))
  else Ret (inr (0, e)).
Definition bsearch (compare_callback : GuestFunction2) (key items item_count item_size : Z) (e : Environment)
    : outcome (Z * Environment) :=
  loop_end (run_loop 33 (bsearch_body compare_callback key items item_size) (0, item_count, e)).

(** The guest's function tells, for each element, how the key compares with it
    ([order]), whatever the environment. *)
Definition compares_key (compare_callback : GuestFunction2) (key items item_size : Z) (n : nat) (order : nat → Z) : Prop :=
  ∀ e i, (i < n)%nat → ∃ e', compare_callback key (items + Z.of_nat i * item_size) e = Ret (order i, e').

(** The elements are sorted with respect to the key: those below it come first,
    those above it last. *)
Definition sorted_for (n : nat) (order : nat → Z) : Prop :=
  ∀ i j, (i ≤ j < n)%nat → Z.sgn (order j) ≤ Z.sgn (order i).

(** [bsearch] on any array in guest memory that is sorted with respect to the
    key returns: a pointer to an element that the guest's function says is equal
    to the key, or [NULL] when there is none. *)
Theorem bsearch_finds compare_callback key items item_size n order e :
  0 < items → 0 ≤ item_size → items + Z.of_nat n * item_size < U32_MOD → Z.of_nat n < U32_MOD →
  compares_key compare_callback key items item_size n order → sorted_for n order →
  ∃ p e', bsearch compare_callback key items (Z.of_nat n) item_size e = Ret (p, e') ∧
    ((p = 0 ∧ ∀ i, (i < n)%nat → order i ≠ 0) ∨
     (∃ i, (i < n)%nat ∧ p = items + Z.of_nat i * item_size ∧ order i = 0)).
Proof.
  intros Hit Hsz Hfit Hn Hcmp Hsort. unfold bsearch.
  apply (loop_end_spec
    (λ '(low, len, e), 0 ≤ low ∧ 0 ≤ len ∧ low + len ≤ Z.of_nat n ∧
       (∀ i, (i < n)%nat → Z.of_nat i < low → 0 < order i) ∧ (∀ i, (i < n)%nat → low + len ≤ Z.of_nat i → order i < 0))
    (λ r, ∃ p e', r = Ret (p, e') ∧ ((p = 0 ∧ ∀ i, (i < n)%nat → order i ≠ 0) ∨
       (∃ i, (i < n)%nat ∧ p = items + Z.of_nat i * item_size ∧ order i = 0)))
    (λ '(_, len, _), len)); [|split_and!; [lia|lia|lia|lia|lia]|unfold U32_MOD in *; lia].
  intros [[low len] e0] (Hl0 & Hlen & Hle & Hlo & Hhi). unfold bsearch_body.
  destruct (Z.ltb_spec 0 len) as [Hpos|Hnp].
  - assert (0 ≤ len / 2 < len) by (split; [apply Z.div_pos; lia|apply Z.div_lt; lia]).
    assert (0 ≤ item_size * (low + len / 2) ∧ item_size * (low + len / 2) ≤ Z.of_nat n * item_size) by nia.
    rewrite (u32_ok (low + len / 2)) by lia. cbn [mbind outcome_bind]. rewrite (u32_ok (item_size * (low + len / 2))) by lia. cbn [mbind outcome_bind].
    rewrite ptr_add_1 by lia. cbn [mbind outcome_bind]. set (i := Z.to_nat (low + len / 2)).
    assert (Z.of_nat i = low + len / 2) as Hi by (unfold i; lia).
    replace (items + item_size * (low + len / 2)) with (items + Z.of_nat i * item_size) by nia.
    destruct (Hcmp e0 i) as (e1 & ->); [lia|]. cbn [mbind outcome_bind].
    destruct (Z.eqb_spec (order i) 0) as [E0|N0].
    + eexists _, e1. split; [done|]. right. exists i. split; [lia|done].
    + destruct (Z.ltb_spec 0 (order i)) as [Hgt|Hlt].
      * rewrite !u32_ok by lia. cbn [mbind outcome_bind]. split; [|lia]. split_and!; [lia|lia|lia| |].
        -- intros j Hj Hjl. pose proof (Hsort j i ltac:(lia)). apply Z.sgn_pos_iff in Hgt. lia.
        -- intros j Hj Hjl. apply Hhi; lia.
      * split; [|lia]. split_and!; [lia|lia|lia|done|]. intros j Hj Hjl.
        pose proof (Hsort i j ltac:(lia)). assert (order i < 0) as Hneg by lia. apply Z.sgn_neg_iff in Hneg. lia.
  - eexists 0, e0. split; [done|]. left. split; [done|]. intros i Hi.
    destruct (decide (Z.of_nat i < low)) as [H1|H1]; [specialize (Hlo i Hi H1)|specialize (Hhi i Hi ltac:(lia))]; lia.
Qed.

(** The key 2 at 8192, searched in the sorted array [1; 2; 3]. *)
Definition sorted_numbers : Environment :=
  idle_env (set_bytes (store 4096 [1; 0; 0; 0; 2; 0; 0; 0; 3; 0; 0; 0] ∅) empty_mem).
Definition compare_with_two : GuestFunction2 := λ _ q e,
  Ret (if q =? 4100 then 0 else if q <? 4100 then 1 else -1, e).

Lemma bsearch_finds_witness :
  ∃ p e', bsearch compare_with_two 8192 4096 3 4 sorted_numbers = Ret (p, e') ∧ p = 4100.
Proof.
  set (order := λ i : nat, if Z.of_nat i =? 1 then 0 else if Z.of_nat i <? 1 then 1 else -1).
  destruct (bsearch_finds compare_with_two 8192 4096 4 3 order sorted_numbers) as (p & e' & E & H).
  - lia.
  - lia.
  - vm_compute. reflexivity.
  - vm_compute. reflexivity.
  - intros e i Hi. exists e. unfold compare_with_two, order. repeat zcase; first [reflexivity|lia].
  - intros i j Hij. unfold order. repeat zcase; simpl; lia.
  - exists p, e'. split; [exact E|]. destruct H as [[_ H]|(i & Hi & -> & H)].
    + exfalso. apply (H 1%nat); [lia|reflexivity].
    + unfold order in H. destruct (Z.eqb_spec (Z.of_nat i) 1) as [->|]; [reflexivity|]. destruct (Z.of_nat i <? 1); discriminate.
Defined.
