(* ===== verification/Scheduler.v ===== *)
(** * The thread scheduler ([environment.rs], semaphores and [FILE] locks)

    The blocking primitives of [Environment] other than mutexes,
    [schedule_next_thread], [switch_thread] and the part of [run] that follows
    a coroutine handing control back.  The clocks the scheduler reads are
    arguments: one pair of readings per candidate that is examined. *)

From S2P Require Import Prelude ChunkMap SizeBucketed VMAllocator HeapAllocator GuestMem Env.

(** ** Semaphores *)

(** The shared object an open semaphore refers to. *)
Definition get_sem (sem : Z) (s : SemState) : outcome (Z * SemaphoreHostObject) :=
  rc ← unwrap (open_semaphores s !! sem);
  o ← unwrap (sem_objects s !! rc);
  Ret (rc, o).
Definition put_sem_object (rc : Z) (o : SemaphoreHostObject) (s : SemState) : SemState :=
  mkSemState (<[rc := o]> (sem_objects s)) (next_sem_object s) (named_semaphores s) (open_semaphores s).
Definition put_sem (rc : Z) (o : SemaphoreHostObject) (e : Environment) : Environment :=
  set_sem_state (put_sem_object rc o (sem_state e)) e.

Definition sem_decrement (sem : Z) (wait_on_lock : bool) (e : Environment) : outcome (run bool) :=
  '(rc, o) ← get_sem sem (sem_state e);
  if 0 <? sem_value o then
    Ret (Finished true (put_sem rc (mkSem (sem_value o - 1) (sem_waiting o) (guest_sem o) (sem_named o)) e))
  else if negb wait_on_lock then Ret (Finished false e)
  else
    let o' := mkSem (sem_value o) ({[current_thread e]} ∪ sem_waiting o) (guest_sem o) (sem_named o) in
    yield_thread (BlockSemaphore sem) (λ e', Ret (true, e')) (put_sem rc o' e).

Definition sem_increment (sem : Z) (e : Environment) : outcome Environment :=
  '(rc, o) ← get_sem sem (sem_state e);
  v ← i32 (sem_value o + 1);
  Ret (put_sem rc (mkSem v (sem_waiting o) (guest_sem o) (sem_named o)) e).

(** ** [FILE] locks ([libc/stdio.rs]) *)

Definition STDERR_FILENO : Z := 2.

(** [get_file_host_obj_mut]: the host object, created on demand for the standard
    streams ([FILE] holds only the descriptor, an [i32]). *)
Definition get_file_host_obj (file_ptr : Z) (e : Environment) : outcome (FILEHostObject * Environment) :=
  fd ← read_u32 file_ptr (mem e);
  let e := if (fd <=? STDERR_FILENO) && negb (bool_decide (is_Some (file_streams e !! file_ptr)))
           then set_file_streams (<[file_ptr := mkFILE [] 0 None]> (file_streams e)) e else e in
  o ← unwrap (file_streams e !! file_ptr);
  Ret (o, e).

Definition put_file (file_ptr : Z) (o : FILEHostObject) (e : Environment) : Environment :=
  set_file_streams (<[file_ptr := o]> (file_streams e)) e.

Definition try_acquire_file_object_lock (file_ptr : Z) (t : ThreadId) (e : Environment)
    : outcome (bool * Environment) :=
  '(o, e) ← get_file_host_obj file_ptr e;
  if lock_count o =? 0 then
    rassert (match owning_thread o with None => true | Some _ => false end);;
    Ret (true, put_file file_ptr (mkFILE (pushbacks o) 1 (Some t)) e)
  else Ret (false, e).

Definition check_file_object_lock (file_ptr : Z) (e : Environment) : outcome Environment :=
  '(o, e) ← get_file_host_obj file_ptr e;
  rassert (match owning_thread o with
           | None => lock_count o =? 0
           | Some t => bool_decide (t = current_thread e)
           end);;
  Ret e.

Definition flockfile (file_ptr : Z) (e : Environment) : outcome (run unit) :=
  '(o, e) ← get_file_host_obj file_ptr e;
  if (match owning_thread o with Some t => negb (bool_decide (t = current_thread e)) | None => false end)
  then yield_thread (FileObjectLock file_ptr) (λ e', Ret ((), e')) e
  else
    n ← u32 (lock_count o + 1);
    Ret (Finished () (put_file file_ptr (mkFILE (pushbacks o) n (Some (current_thread e))) e)).

Definition ftrylockfile (file_ptr : Z) (e : Environment) : outcome (Z * Environment) :=
  '(o, e) ← get_file_host_obj file_ptr e;
  if (match owning_thread o with Some t => negb (bool_decide (t = current_thread e)) | None => false end)
  then Ret (EBUSY, e)
  else
    n ← u32 (lock_count o + 1);
    Ret (0, put_file file_ptr (mkFILE (pushbacks o) n (Some (current_thread e))) e).

Definition funlockfile (file_ptr : Z) (e : Environment) : outcome Environment :=
  '(o, e) ← get_file_host_obj file_ptr e;
  rassert (bool_decide (owning_thread o = Some (current_thread e)));;
  n ← u32 (lock_count o - 1);
  Ret (put_file file_ptr (mkFILE (pushbacks o) n (if n =? 0 then None else owning_thread o)) e).

(** ** [schedule_next_thread] *)

(** Readings of [Instant::now()] and of the system clock (since the epoch)
    when the [i]-th candidate of a pass is examined. *)
Record clock := mkClock {
  instant_now : nat → Z;
  system_now : nat → Z
}.

(** One candidate: [inr] when it is chosen, [inl] with the earliest awakening
    seen so far when the search goes on. *)
Definition schedule_candidate (now sys_now : Z) (t : ThreadId) (next : option Z) (e : Environment)
    : outcome ((option Z * Environment) + (ThreadId * Environment)) :=
  th ← get_thread t e;
  if negb (active th) then Ret (inl (next, e))
  else
    match blocked_by th with
    | Sleeping until =>
        if until <=? now then e' ← set_block t NotBlocked e; Ret (inr (t, e'))
        else Ret (inl (Some (match next with None => until | Some other => Z.min other until end), e))
    | BlockMutex id =>
        if negb (mutex_is_locked id (mutex_state e)) then
          e1 ← set_block t NotBlocked e;
          e2 ← relock_unblocked_mutex_for_thread t id e1;
          Ret (inr (t, e2))
        else Ret (inl (next, e))
    | BlockSemaphore sem =>
        '(rc, o) ← get_sem sem (sem_state e);
        if 0 <? sem_value o then
          let o' := mkSem (sem_value o - 1) (sem_waiting o ∖ {[current_thread e]}) (guest_sem o) (sem_named o) in
          e' ← set_block t NotBlocked (put_sem rc o' e);
          Ret (inr (t, e'))
        else Ret (inl (next, e))
    | BlockCondition cond deadline =>
        c ← unwrap (condition_variables e !! cond);
        mutex ← unwrap (curr_mutex c);
        if bool_decide (head (cond_waking c) = Some t) && negb (mutex_is_locked mutex (mutex_state e)) then
          let c' := mkCond (cond_waiting c) (tail (cond_waking c)) (curr_mutex c) (timed_out c) in
          e1 ← set_block t NotBlocked (set_conds (<[cond := c']> (condition_variables e)) e);
          e2 ← relock_unblocked_mutex_for_thread t mutex e1;
          Ret (inr (t, e2))
        else
          match deadline with
          | None => Ret (inl (next, e))
          | Some d =>
              rassert (0 <=? sys_now);;
              if d <=? sys_now then
                rassert (negb (bool_decide (t ∈ timed_out c)));;
                rassert (match cond_waking c with [] => true | _ => false end);;
                let c' := mkCond (filter (λ x, x ≠ t) (cond_waiting c)) (cond_waking c) (curr_mutex c)
                            ({[t]} ∪ timed_out c) in
                rassert (negb (mutex_is_locked mutex (mutex_state e)));;
                e1 ← set_block t NotBlocked (set_conds (<[cond := c']> (condition_variables e)) e);
                e2 ← relock_unblocked_mutex_for_thread t mutex e1;
                Ret (inr (t, e2))
              else Ret (inl (next, e))
          end
    | Joining joinee ptr =>
        j ← get_thread joinee e;
        if negb (active j) then
          e1 ← (if negb (ptr =? 0)
                then v ← unwrap (return_value j); m ← write_u32 ptr v (mem e); Ret (set_mem m e)
                else Ret e);
          e2 ← set_block t NotBlocked e1;
          Ret (inr (t, e2))
        else Ret (inl (next, e))
    | NotBlocked => Ret (inr (t, e))
    | WaitingForDebugger _ => Panic
    | Suspended count _ => rassert (0 <? count);; Ret (inl (next, e))
    | FileObjectLock file_ptr =>
        '(acquired, e1) ← try_acquire_file_object_lock file_ptr t e;
        if (acquired : bool) then e2 ← set_block t NotBlocked e1; Ret (inr (t, e2))
        else Ret (inl (next, e1))
    end.

(** The candidates in the order they are examined: all threads, the one after
    the current one first, the current one last. *)
Definition candidate (e : Environment) (i : nat) : ThreadId :=
  ((current_thread e + 1 + i) mod length (threads e))%nat.

Fixpoint schedule_pass (clk : clock) (idxs : list nat) (next : option Z) (e : Environment)
    : outcome ((option Z * Environment) + (ThreadId * Environment)) :=
  match idxs with
  | [] => Ret (inl (next, e))
  | i :: idxs' =>
      x ← schedule_candidate (instant_now clk i) (system_now clk i) (candidate e i) next e;
      match x with
      | inl (next', e') => schedule_pass clk idxs' next' e'
      | inr r => Ret (inr r)
      end
  end.

(** The loop around the passes, given the clock readings of each pass; when
    they are used up the scheduler is still asleep and there is no result. *)
Fixpoint schedule_next_thread (clks : list clock) (e : Environment)
    : outcome (option (ThreadId * Environment)) :=
  match clks with
  | [] => Ret None
  | clk :: clks' =>
      x ← schedule_pass clk (seq 0 (length (threads e))) None e;
      match x with
      | inr r => Ret (Some r)
      | inl (Some _, e') => schedule_next_thread clks' e'
      | inl (None, _) => Panic
      end
  end.

(** ** Switching *)

Definition with_contexts (g : option CpuContext) (h : option HostContext) (th : Thread) : Thread :=
  mkThread (active th) (blocked_by th) (return_value th) g h (stack th).

Definition switch_thread (old_context : option HostContext) (new : ThreadId) (e : Environment)
    : outcome (option HostContext * Environment) :=
  let cur := current_thread e in
  rassert (negb (bool_decide (new = cur)));;
  n ← get_thread new e;
  rassert (active n);;
  ctx ← unwrap (guest_context n);
  e ← update_thread new (with_contexts None (host_context n)) e;
  let saved := cpu e in
  let e := set_cpu ctx e in
  c ← get_thread cur e;
  rassert (match guest_context c with None => true | Some _ => false end);;
  rassert (bool_decide (is_Some old_context) || negb (active c));;
  e ← update_thread cur (with_contexts (Some saved) (host_context c)) e;
  new_host ← unwrap (host_context n);
  e ← update_thread new (λ th, with_contexts (guest_context th) None th) e;
  e ← update_thread cur (λ th, with_contexts (guest_context th) old_context th) e;
  Ret (Some new_host, set_current new e).

(** A coroutine whose body returned: its stack is freed. *)
Definition kill_current_thread (e : Environment) : outcome Environment :=
  th ← get_thread (current_thread e) e;
  '(lo, _) ← unwrap (stack th);
  e ← update_thread (current_thread e)
        (λ th, mkThread (active th) (blocked_by th) (return_value th) (guest_context th) (host_context th) None) e;
  '(_, m) ← mem_free lo (mem e);
  Ret (set_mem m e).

(** End of the body of a secondary thread. *)
Definition thread_returned (v : Z) : Environment → outcome Environment := λ e,
  update_thread (current_thread e)
    (λ th, mkThread false (blocked_by th) (Some v) (guest_context th) (host_context th) (stack th)) e.

(** Wait for the clock: the scheduler's result, when there is one. *)
Definition with_next {A} (clks : list clock) (e : Environment)
    (k : ThreadId → Environment → outcome (option A)) : outcome (option A) :=
  s ← schedule_next_thread clks e;
  match s with
  | None => Ret None
  | Some (next, e') => k next e'
  end.

(** What the debugger's session decides: whether to single-step, and what it
    changed of the registers and the memory. *)
Definition debugger := option CpuError → Environment → outcome (bool * Environment).

(** The executor's visit to the debugger ([stepping], or the current thread
    asked for it). *)
Definition visit_debugger (dbg : debugger) (stepping : bool) (clks : list clock)
    (old_context : option HostContext) (e : Environment)
    : outcome (option (bool * option HostContext * Environment)) :=
  th ← get_thread (current_thread e) e;
  let block := blocked_by th in
  let switch_off old_context e (k : option HostContext → Environment → outcome (option _)) :=
    with_next clks e (λ next e, '(ctx, e) ← switch_thread old_context next e; k ctx e) in
  let decide_step old_context e :=
    '(reason, e) ← (match block with
                    | WaitingForDebugger reason => e ← set_block (current_thread e) NotBlocked e; Ret (reason, e)
                    | _ => Ret (None, e)
                    end);
    '(will_step, e) ← dbg reason e;
    Ret (Some (stepping || will_step, old_context, e)) in
  let check_blocked old_context e :=
    th ← get_thread (current_thread e) e;
    match blocked_by th with
    | NotBlocked | WaitingForDebugger _ => decide_step old_context e
    | _ => switch_off old_context e decide_step
    end in
  match old_context with
  | None => switch_off old_context e check_blocked
  | Some _ => check_blocked old_context e
  end.

(** The executor after a coroutine handed control back: [returned] says
    whether its body ended.  The result is whether to single-step, the
    coroutine to resume and the environment to resume it with. *)
Definition run_iteration (dbg : debugger) (clks : list clock) (stepping returned : bool)
    (curr : HostContext) (e : Environment) : outcome (option (bool * HostContext * Environment)) :=
  e ← (if returned then kill_current_thread e else Ret e);
  let old_context := if returned then None else Some curr in
  th ← get_thread (current_thread e) e;
  x ← (if stepping || (match blocked_by th with WaitingForDebugger _ => true | _ => false end)
       then visit_debugger dbg stepping clks old_context e
       else Ret (Some (stepping, old_context, e)));
  match x with
  | None => Ret None
  | Some (stepping, old_context, e) =>
      if (stepping : bool) then h ← unwrap old_context; Ret (Some (true, h, e))
      else
        with_next clks e (λ next e,
          '(ctx, e) ← (if negb (bool_decide (next = current_thread e)) then switch_thread old_context next e
                       else Ret (old_context, e));
          h ← unwrap ctx;
          Ret (Some (false, h, e)))
  end.
