(* ===== verification/SchedulerFacts.v ===== *)
(** * Correctness of the scheduler

    A pass leaves the environment alone until it chooses a thread; the thread it
    chooses is then runnable and stays within a full turn of the others
    (bounded waiting).  The executor always resumes the coroutine of the
    current thread with that thread's own registers. *)

From S2P Require Import Prelude ChunkMap SizeBucketed VMAllocator HeapAllocator GuestMem Env Scheduler.

(** ** Thread updates *)

Lemma update_thread_inv t f e e' :
  update_thread t f e = Ret e' →
  ∃ th, threads e !! t = Some th ∧ e' = set_threads (<[t := f th]> (threads e)) e.
Proof.
  unfold update_thread, get_thread. destruct (threads e !! t) as [th|]; simpl; [|done].
  intros [= <-]. eauto.
Qed.

Lemma set_block_inv t b e e' :
  set_block t b e = Ret e' →
  ∃ th, threads e !! t = Some th ∧ e' = set_threads (<[t := with_block b th]> (threads e)) e.
Proof. apply update_thread_inv. Qed.

Lemma update_thread_eq t f e th :
  threads e !! t = Some th → update_thread t f e = Ret (set_threads (<[t := f th]> (threads e)) e).
Proof. intros E. unfold update_thread, get_thread. by rewrite E. Qed.

Lemma set_block_eq t b e th :
  threads e !! t = Some th → set_block t b e = Ret (set_threads (<[t := with_block b th]> (threads e)) e).
Proof. apply update_thread_eq. Qed.

Lemma get_thread_eq t e th : threads e !! t = Some th → get_thread t e = Ret th.
Proof. unfold get_thread. by intros ->. Qed.

(** A thread the executor may run. *)
Definition runnable (t : ThreadId) (e : Environment) : Prop :=
  ∃ th, threads e !! t = Some th ∧ active th = true ∧ blocked_by th = NotBlocked.

(** Take apart a hypothesis [... = Ret ...] built from the code's binds and tests. *)
Ltac ret_step H :=
  lazymatch type of H with
  | mbind _ _ = Ret _ => apply bind_ret_inv in H as (? & ? & H)
  | (if ?b then _ else _) = Ret _ => destruct b eqn:?
  | match ?x with _ => _ end = Ret _ => destruct x eqn:?
  | Ret _ = Ret _ => injection H as H
  | Panic = Ret _ => discriminate H
  end.
Ltac ret_inv H := repeat (ret_step H; simpl in H; try discriminate).

(** ** One candidate *)

(** Nothing of the threads or the CPU changes. *)
Definition same_cpu (e e' : Environment) : Prop :=
  threads e' = threads e ∧ current_thread e' = current_thread e ∧ cpu e' = cpu e.

Lemma relock_threads t id e e' :
  relock_unblocked_mutex_for_thread t id e = Ret e' →
  same_cpu e e'.
Proof. unfold relock_unblocked_mutex_for_thread. intros H. ret_inv H. by subst. Qed.

Lemma get_file_host_obj_inv p e o e' :
  get_file_host_obj p e = Ret (o, e') → ∃ fs, e' = set_file_streams fs e.
Proof.
  unfold get_file_host_obj. intros H. ret_step H. simpl in H. ret_step H. simpl in H.
  injection H as <- <-. case_match; [by eexists|]. exists (file_streams e). by destruct e.
Qed.

(** Trying to lock a [FILE] changes nothing but the table of streams. *)
Lemma try_acquire_inv p t e b e' :
  try_acquire_file_object_lock p t e = Ret (b, e') → ∃ fs, e' = set_file_streams fs e.
Proof.
  unfold try_acquire_file_object_lock. intros H. ret_step H. destruct x as [o e1].
  apply get_file_host_obj_inv in H0 as [fs ->]. ret_inv H; simplify_eq; by eexists.
Qed.

Lemma try_acquire_threads p t e b e' :
  try_acquire_file_object_lock p t e = Ret (b, e') → same_cpu e e'.
Proof. by intros [fs ->]%try_acquire_inv. Qed.

Lemma try_acquire_false p t e e' :
  try_acquire_file_object_lock p t e = Ret (false, e') → e' = e.
Proof.
  unfold try_acquire_file_object_lock, get_file_host_obj. intros H. ret_step H. destruct x as [o e1].
  ret_step H0. simpl in H0. destruct (_ && _) eqn:Hc in H0.
  - simpl in H0. rewrite lookup_insert_eq in H0. simpl in H0. simplify_eq.
  - ret_step H0. simplify_eq. ret_inv H; by simplify_eq.
Qed.

Lemma with_block_id th b : blocked_by th = b → with_block b th = th.
Proof. destruct th; unfold with_block; simpl. by intros ->. Qed.

Lemma set_block_unblocks t e e' :
  set_block t NotBlocked e = Ret e' →
  current_thread e' = current_thread e ∧ cpu e' = cpu e ∧
  ∃ th, threads e !! t = Some th ∧ threads e' = <[t := with_block NotBlocked th]> (threads e).
Proof. intros (th & Hth & ->)%set_block_inv. simpl. eauto. Qed.

(** A candidate that is passed over leaves the environment as it was; one that
    is chosen is active and no longer blocked, and no other thread changes. *)
Lemma schedule_candidate_spec now sys t next e x :
  schedule_candidate now sys t next e = Ret x →
  match x with
  | inl (next', e') => e' = e ∧ ¬ runnable t e
  | inr (t', e') => t' = t ∧ current_thread e' = current_thread e ∧ cpu e' = cpu e ∧
      ∃ th, threads e !! t = Some th ∧ active th = true ∧
        threads e' = <[t := with_block NotBlocked th]> (threads e)
  end.
Proof.
  unfold schedule_candidate, get_thread. destruct (threads e !! t) as [th|] eqn:Hth; simpl; [|done].
  destruct (active th) eqn:Ha; simpl.
  2:{ intros [= <-]. split; [done|]. intros (?&?&?&?). congruence. }
  assert (∀ x0 : option Z, blocked_by th ≠ NotBlocked →
    match inl (x0, e) : (option Z * Environment) + (ThreadId * Environment) with
    | inl (_, e') => e' = e ∧ ¬ runnable t e | inr _ => False end) as Hskip.
  { intros _ Hb. split; [done|]. intros (?&?&?&?). congruence. }
  intros H. destruct (blocked_by th) eqn:Hb; simpl in H.
  - simplify_eq. split_and!; [done..|]. exists th. split_and!; [done..|].
    by rewrite with_block_id, list_insert_id.
  - ret_inv H; simplify_eq; [|by apply Hskip]. apply set_block_unblocks in H0 as (?&?&?&?&?).
    simpl in *; simplify_eq; eauto 7.
  - ret_inv H; simplify_eq; [|by apply Hskip].
    apply set_block_unblocks in H0 as (?&?&?&?&?). apply relock_threads in H1 as (-> & -> & ->). simpl in *; simplify_eq; eauto 7.
  - ret_inv H; simplify_eq; [|by apply Hskip]. apply set_block_unblocks in H1 as (?&?&?&?&?).
    simpl in *; simplify_eq; eauto 7.
  - ret_inv H; simplify_eq; try by apply Hskip.
    + apply set_block_unblocks in H2 as (?&?&?&?&?). apply relock_threads in H3 as (-> & -> & ->). simpl in *; simplify_eq; eauto 7.
    + apply set_block_unblocks in H6 as (?&?&?&?&?). apply relock_threads in H7 as (-> & -> & ->). simpl in *; simplify_eq; eauto 7.
  - ret_step H. simpl in H. ret_step H; [|injection H as <-; by apply Hskip].
    ret_step H. ret_step H. injection H as <-. apply set_block_unblocks in H2 as (Hc&Hcpu&?&Ht&Hu).
    assert (same_cpu e x1) as (E1 & E2 & E3).
    { ret_inv H1; by simplify_eq. }
    rewrite E1, E2, E3 in *. simpl in *; simplify_eq; eauto 7.
  - done.
  - ret_inv H. simplify_eq. by apply Hskip.
  - ret_inv H; simplify_eq.
    + apply set_block_unblocks in H1 as (Hc&?&?&?&?). apply try_acquire_threads in H0 as (E1 & E2 & E3).
      rewrite E1, E2, E3 in *. simpl in *; simplify_eq; eauto 7.
    + apply try_acquire_false in H0 as ->. by apply Hskip.
Qed.

(** ** A pass over all threads *)

(** What the choice of [s] means for the environment [e] that was searched. *)
Definition chosen (s : ThreadId) (e e' : Environment) : Prop :=
  current_thread e' = current_thread e ∧ cpu e' = cpu e ∧
  ∃ th, threads e !! s = Some th ∧ active th = true ∧
    threads e' = <[s := with_block NotBlocked th]> (threads e).

Lemma schedule_pass_spec clk n k next e x :
  schedule_pass clk (seq k n) next e = Ret x →
  match x with
  | inl (_, e') => e' = e ∧ ∀ j, (k ≤ j < k + n)%nat → ¬ runnable (candidate e j) e
  | inr (s, e') => ∃ i, (k ≤ i < k + n)%nat ∧ s = candidate e i ∧
      (∀ j, (k ≤ j < i)%nat → ¬ runnable (candidate e j) e) ∧ chosen s e e'
  end.
Proof.
  revert k next x. induction n as [|n IH]; intros k next x; simpl.
  { intros [= <-]. split; [done|]. lia. }
  intros H. apply bind_ret_inv in H as (y & Hc & H). apply schedule_candidate_spec in Hc.
  destruct y as [[next' e']|[s e']].
  - destruct Hc as [-> Hn]. apply IH in H. destruct x as [[? ?]|[s e']].
    + destruct H as [-> H]. split; [done|]. intros j Hj. destruct (decide (j = k)) as [->|]; [done|].
      apply H. lia.
    + destruct H as (i & ? & ? & H & ?). exists i. split_and!; [lia..|done| |done].
      intros j Hj. destruct (decide (j = k)) as [->|]; [done|]. apply H. lia.
  - injection H as <-. destruct Hc as (-> & ? & ?). exists k. split_and!; [lia..|done| |done]. lia.
Qed.

Lemma schedule_next_thread_spec clks e s e' :
  schedule_next_thread clks e = Ret (Some (s, e')) →
  ∃ i, (i < length (threads e))%nat ∧ s = candidate e i ∧
    (∀ j, (j < i)%nat → ¬ runnable (candidate e j) e) ∧ chosen s e e'.
Proof.
  induction clks as [|clk clks IH]; simpl; [done|].
  intros H. apply bind_ret_inv in H as (x & Hp & H). apply schedule_pass_spec in Hp.
  destruct x as [[[a|] e1]|[s1 e1]]; [|done|].
  - destruct Hp as [-> _]. auto.
  - simplify_eq. destruct Hp as (i & ? & ? & Hj & ?). exists i. split_and!; [lia|done| |done].
    intros j ?. apply Hj. lia.
Qed.

(** What waking any single thread preserves, the scheduler preserves. *)
Lemma schedule_preserves (P : Environment → Prop) :
  (∀ now sys t next e s e', P e → schedule_candidate now sys t next e = Ret (inr (s, e')) → P e') →
  ∀ clks e t e', P e → schedule_next_thread clks e = Ret (Some (t, e')) → P e'.
Proof.
  intros Hc. assert (∀ clk l next e x, P e → schedule_pass clk l next e = Ret x →
    match x with inl (_, e1) => P e1 | inr (_, e1) => P e1 end) as Hpass.
  { intros clk l. induction l as [|i l IH]; intros next e x Hok H; simpl in H; [by simplify_eq|].
    apply bind_ret_inv in H as (y & Hy & H). destruct y as [[n1 e1]|[s e1]].
    - apply schedule_candidate_spec in Hy as [-> _]. by eapply IH.
    - simplify_eq. by eapply Hc. }
  intros clks. induction clks as [|clk clks IH]; intros e t e' Hok; simpl; [done|].
  intros H. apply bind_ret_inv in H as (x & Hp & H). apply Hpass in Hp; [|done].
  destruct x as [[[a|] e1]|[s1 e1]]; [by eapply IH|done|by simplify_eq].
Qed.

(** ** Bounded waiting *)

(** How many threads the scheduler examines before [t]. *)
Definition turn (e : Environment) (t : ThreadId) : Z :=
  (Z.of_nat t - Z.of_nat (current_thread e) - 1) mod Z.of_nat (length (threads e)).

Lemma candidate_Z e i :
  (0 < length (threads e))%nat →
  Z.of_nat (candidate e i) =
    (Z.of_nat (current_thread e) + 1 + Z.of_nat i) mod Z.of_nat (length (threads e)).
Proof. intros. unfold candidate. rewrite Nat2Z.inj_mod. f_equal. lia. Qed.

Lemma candidate_turn e t :
  (t < length (threads e))%nat → candidate e (Z.to_nat (turn e t)) = t.
Proof.
  intros Ht. set (n := length (threads e)) in *. apply Nat2Z.inj. rewrite candidate_Z by lia. fold n.
  assert (0 ≤ turn e t < Z.of_nat n) by (apply Z.mod_pos_bound; lia).
  rewrite Z2Nat.id by lia. unfold turn. fold n.
  rewrite Zplus_mod_idemp_r.
  replace (_ + 1 + _) with (Z.of_nat t) by lia. apply Z.mod_small. lia.
Qed.

(** The scheduler passes over [t], which is ready to run, and runs another
    thread, which may do anything that leaves [t] ready. *)
Definition passed_over (t : ThreadId) (e e2 : Environment) : Prop :=
  ∃ clks s e1, schedule_next_thread clks e = Ret (Some (s, e1)) ∧ s ≠ t ∧
    current_thread e2 = s ∧ length (threads e2) = length (threads e) ∧ runnable t e2.

Lemma passed_over_turn t e e2 : runnable t e → passed_over t e e2 → 0 ≤ turn e2 t < turn e t.
Proof.
  intros Hr (clks & s & e1 & H & Hne & Hc & Hlen & _).
  pose proof Hr as (th & Ht & _). apply lookup_lt_Some in Ht.
  apply schedule_next_thread_spec in H as (i & Hi & Hs & Hj & _).
  set (n := length (threads e)) in *.
  assert (0 ≤ turn e t < Z.of_nat n) by (apply Z.mod_pos_bound; lia).
  assert (Z.of_nat i < turn e t).
  { destruct (decide (Z.of_nat i < turn e t)); [done|]. exfalso.
    destruct (decide (Z.of_nat i = turn e t)) as [E|].
    - apply Hne. rewrite Hs, <- (candidate_turn e t Ht), <- E. by rewrite Nat2Z.id.
    - apply (Hj (Z.to_nat (turn e t))); [lia|]. by rewrite candidate_turn. }
  assert (turn e2 t = turn e t - Z.of_nat i - 1) as ->; [|lia].
  unfold turn at 1. rewrite Hc, Hlen, Hs. fold n. rewrite candidate_Z by (unfold n in *; lia). fold n.
  rewrite <- (Z.mod_small (turn e t - Z.of_nat i - 1) (Z.of_nat n)) by lia. unfold turn. fold n.
  match goal with |- (?a - ?b mod ?n - 1) mod _ = (?c mod _ - ?d - 1) mod _ =>
    replace (a - b mod n - 1) with (a - 1 - b mod n) by lia;
    replace (c mod n - d - 1) with (c mod n - (d + 1)) by lia end.
  rewrite Zminus_mod_idemp_r, Zminus_mod_idemp_l. f_equal. lia.
Qed.

(** C7: Bounded waiting.  A thread that is ready to run, and stays ready whatever
    the threads that are run instead do, is passed over fewer times than there are
    threads: the scheduler is a round robin and cannot starve it. *)
Theorem scheduler_bounded_waiting t k e e2 :
  runnable t e → nsteps (passed_over t) k e e2 → Z.of_nat k < Z.of_nat (length (threads e)).
Proof.
  intros Hr Hk. assert (Z.of_nat k + turn e2 t ≤ turn e t ∧ 0 ≤ turn e2 t) as H.
  { revert Hr. induction Hk as [e|k e e1 e2 H1 Hk IH]; intros Hr.
    - split; [lia|]. apply Z.mod_pos_bound. destruct Hr as (?&?%lookup_lt_Some&_). lia.
    - pose proof (passed_over_turn _ _ _ Hr H1). destruct H1 as (?&?&?&?&?&?&?&Hr1).
      specialize (IH Hr1). lia. }
  assert (turn e t < Z.of_nat (length (threads e))); [|lia].
  apply Z.mod_pos_bound. destruct Hr as (?&?%lookup_lt_Some&_). lia.
Qed.

(** Some threads in a process with nothing else in it, for examples. *)
Definition idle_thread (b : ThreadBlock) (g : option CpuContext) (h : option HostContext) : Thread :=
  mkThread true b None g h None.
Definition demo_env (cur : ThreadId) (ths : list Thread) : Environment :=
  mkEnvironment empty_mem CpuContext_new cur ths (mkMutexState ∅ 0) ∅ (mkSemState ∅ 0 ∅ ∅) ∅ ∅ ∅ false [] ∅ false.
Definition three_threads : list Thread :=
  [idle_thread NotBlocked None None;
   idle_thread NotBlocked (Some CpuContext_new) (Some (Coroutine 1%nat));
   idle_thread NotBlocked (Some CpuContext_new) (Some (Coroutine 2%nat))].
Definition clock_at (t : Z) : clock := mkClock (λ _, t) (λ _, t).

Lemma scheduler_bounded_waiting_witness :
  ∃ e e2, nsteps (passed_over 2) 1 e e2 ∧ 1 < Z.of_nat (length (threads e)).
Proof.
  exists (demo_env 0 three_threads), (demo_env 1 three_threads).
  assert (∀ c, runnable 2 (demo_env c three_threads)) as Hr by (intros c; eexists; repeat split).
  assert (nsteps (passed_over 2) 1 (demo_env 0 three_threads) (demo_env 1 three_threads)) as Hs.
  { apply nsteps_once. exists [clock_at 0], 1%nat, (demo_env 0 three_threads).
    split; [vm_compute; reflexivity|]. split; [discriminate|]. split; [reflexivity|].
    split; [reflexivity|]. apply Hr. }
  split; [exact Hs|]. exact (scheduler_bounded_waiting 2 1 _ _ (Hr 0%nat) Hs).
Defined.

(** ** Contexts *)

(** The coroutine [h] the executor resumes is the current thread's, whose
    registers are in the CPU; every other active thread has its own coroutine and
    saved registers. *)
Definition contexts_ok (h : HostContext) (e : Environment) : Prop :=
  h = Coroutine (current_thread e) ∧
  (∃ th, threads e !! current_thread e = Some th ∧ guest_context th = None ∧ host_context th = None) ∧
  ∀ t th, threads e !! t = Some th → t ≠ current_thread e →
    is_Some (guest_context th) ∧ (active th = true → host_context th = Some (Coroutine t)).

(** Number of saved register sets. *)
Definition saved_contexts (e : Environment) : nat :=
  length (filter (λ th, is_Some (guest_context th)) (threads e)).

Lemma filter_all {A} (P : A → Prop) `{!∀ x, Decision (P x)} (l : list A) : Forall P l → filter P l = l.
Proof. induction 1; [done|]. rewrite filter_cons_True by done. by f_equal. Qed.

Lemma saved_contexts_count h e : contexts_ok h e → S (saved_contexts e) = length (threads e).
Proof.
  intros (_ & (th & Hth & Hg & _) & Hall). unfold saved_contexts.
  pose proof (take_drop_middle _ _ _ Hth) as E. rewrite <- E at 1.
  rewrite filter_app, filter_cons_False by (by rewrite Hg; intros [??]).
  assert (current_thread e < length (threads e))%nat by (by eapply lookup_lt_Some).
  rewrite !filter_all; [rewrite length_app, length_take, length_drop; lia|..];
    apply Forall_forall; intros x [i Hx]%list_elem_of_lookup.
  - rewrite lookup_drop in Hx. apply (Hall _ _ Hx). lia.
  - apply lookup_take_Some in Hx as [Hx ?]. apply (Hall _ _ Hx). lia.
Qed.

(** The same while no coroutine is running: [old] is what is left of the
    current thread's. *)
Definition parked_ok (old : option HostContext) (e : Environment) : Prop :=
  ∃ th, threads e !! current_thread e = Some th ∧ guest_context th = None ∧ host_context th = None ∧
    (old = Some (Coroutine (current_thread e)) ∨ old = None ∧ active th = false) ∧
  ∀ t th, threads e !! t = Some th → t ≠ current_thread e →
    is_Some (guest_context th) ∧ (active th = true → host_context th = Some (Coroutine t)).

Lemma parked_chosen s old e e' :
  parked_ok old e → chosen s e e' →
  parked_ok old e' ∧ ∃ th, threads e' !! s = Some th ∧ active th = true.
Proof.
  intros (th & Hth & Hg & Hh & Ho & Hall) (Hc & _ & ts & Hs & Ha & Ht).
  pose proof (lookup_lt_Some _ _ _ Hs) as Hlt. split.
  2:{ rewrite Ht, list_lookup_insert_eq by done. by eexists. }
  exists (if decide (s = current_thread e) then with_block NotBlocked th else th).
  rewrite Hc, Ht. split_and!.
  - case_decide; subst; [|by rewrite list_lookup_insert_ne].
    rewrite list_lookup_insert_eq by done. by simplify_eq.
  - by case_decide.
  - by case_decide.
  - case_decide; simpl; done.
  - intros t th' Hl Hne. destruct (decide (s = t)) as [->|].
    + rewrite list_lookup_insert_eq in Hl by done. simplify_eq. simpl. by apply Hall.
    + rewrite list_lookup_insert_ne in Hl by done. by apply Hall.
Qed.

Lemma set_threads_threads l l' e : set_threads l (set_threads l' e) = set_threads l e.
Proof. reflexivity. Qed.
Lemma set_cpu_threads l c e : set_cpu c (set_threads l e) = set_threads l (set_cpu c e).
Proof. reflexivity. Qed.

Lemma switch_thread_spec old new e th :
  parked_ok old e → new ≠ current_thread e → threads e !! new = Some th → active th = true →
  ∃ e' g, switch_thread old new e = Ret (Some (Coroutine new), e') ∧
    contexts_ok (Coroutine new) e' ∧ current_thread e' = new ∧
    guest_context th = Some g ∧ cpu e' = g ∧
    (∃ c, threads e' !! current_thread e = Some c ∧ guest_context c = Some (cpu e) ∧ host_context c = old) ∧
    length (threads e') = length (threads e) ∧
    (∀ t, (λ th, (active th, blocked_by th)) <$> threads e' !! t =
          (λ th, (active th, blocked_by th)) <$> threads e !! t).
Proof.
  intros (c & Hc & Hg & Hh & Ho & Hall) Hne Hn Ha.
  destruct (Hall new th Hn Hne) as [[g Eg] Hhost]. specialize (Hhost Ha).
  pose proof (lookup_lt_Some _ _ _ Hn) as Hln. pose proof (lookup_lt_Some _ _ _ Hc) as Hlc.
  assert (bool_decide (is_Some old) || negb (active c) = true) as Hold.
  { destruct Ho as [->|[-> ->]]; [|done]. by rewrite bool_decide_eq_true_2 by eauto. }
  set (cur := current_thread e) in *. assert (cur ≠ new) as Hne' by done.
  set (c' := with_contexts (Some (cpu e)) old c). set (n' := with_contexts None None th).
  set (ths := <[cur := c']> (<[new := n']> (threads e))).
  assert (switch_thread old new e = Ret (Some (Coroutine new), set_current new (set_threads ths (set_cpu g e)))) as Hsw.
  { unfold switch_thread. fold cur. rewrite (bool_decide_eq_false_2 (new = cur)) by done. simpl.
    rewrite (get_thread_eq _ _ th) by done. simpl. rewrite Ha, Eg. simpl.
    rewrite (update_thread_eq _ _ _ th) by done. simpl.
    rewrite (get_thread_eq _ _ c) by (simpl; by rewrite list_lookup_insert_ne). simpl. rewrite Hg, Hold. simpl.
    rewrite (update_thread_eq _ _ _ c) by (simpl; by rewrite list_lookup_insert_ne). simpl. rewrite Hhost. simpl.
    rewrite (update_thread_eq _ _ _ (with_contexts None (Some (Coroutine new)) th))
      by (simpl; rewrite list_lookup_insert_ne, list_lookup_insert_eq by done; done). simpl.
    erewrite update_thread_eq
      by (simpl; rewrite list_lookup_insert_ne, list_lookup_insert_eq by (rewrite ?length_insert; done); done).
    cbn [mbind outcome_bind]. rewrite set_cpu_threads, !set_threads_threads. unfold ths. do 4 f_equal. cbn [threads set_threads set_cpu].
    rewrite (list_insert_insert_ne _ new cur), !list_insert_insert_eq by done. done. }
  eexists _, g. split; [exact Hsw|]. unfold ths. split_and!; simpl; [split; [done|]; split; simpl|done|done|done| | |].
  - exists n'. rewrite list_lookup_insert_ne, list_lookup_insert_eq by done. done.
  - intros t th' Hl Ht. destruct (decide (t = cur)) as [->|].
    + rewrite list_lookup_insert_eq in Hl by (by rewrite length_insert). simplify_eq. split; [by eexists|].
      simpl. destruct Ho as [->|[-> Hf]]; [done|]. congruence.
    + rewrite !list_lookup_insert_ne in Hl by done. by apply Hall.
  - exists c'. rewrite list_lookup_insert_eq by (by rewrite length_insert). done.
  - by rewrite !length_insert.
  - intros t. destruct (decide (t = cur)) as [->|].
    { rewrite list_lookup_insert_eq by (by rewrite length_insert). by rewrite Hc. }
    rewrite list_lookup_insert_ne by done. destruct (decide (t = new)) as [->|].
    { rewrite list_lookup_insert_eq by done. by rewrite Hn. }
    by rewrite list_lookup_insert_ne by done.
Qed.

Lemma kill_current_thread_spec e e1 :
  kill_current_thread e = Ret e1 →
  current_thread e1 = current_thread e ∧ cpu e1 = cpu e ∧
  ∃ th, threads e !! current_thread e = Some th ∧
    threads e1 = <[current_thread e := mkThread (active th) (blocked_by th) (return_value th)
                     (guest_context th) (host_context th) None]> (threads e).
Proof.
  unfold kill_current_thread. intros H.
  apply bind_ret_inv in H as (th & Hth & H). apply bind_ret_inv in H as ([lo hi] & _ & H).
  apply bind_ret_inv in H as (e2 & He2 & H). apply bind_ret_inv in H as ([n m] & _ & H).
  injection H as <-. apply update_thread_inv in He2 as (th' & Hl & ->). simpl. eauto.
Qed.

Lemma contexts_parked (returned : bool) h e e1 :
  contexts_ok h e → (returned = true → ∀ th, threads e !! current_thread e = Some th → active th = false) →
  (if returned then kill_current_thread e else Ret e) = Ret e1 →
  parked_ok (if returned then None else Some h) e1 ∧ current_thread e1 = current_thread e ∧
  cpu e1 = cpu e ∧ length (threads e1) = length (threads e) ∧
  ∀ t, t ≠ current_thread e → threads e1 !! t = threads e !! t.
Proof.
  intros (-> & (th & Hth & Hg & Hh) & Hall) Hact. destruct returned.
  2:{ intros [= <-]. split_and!; [|done..]. exists th. split_and!; [done..|by left|done]. }
  intros (Hc & Hp & th' & Hl & Ht)%kill_current_thread_spec.
  assert (∀ t, t ≠ current_thread e → threads e1 !! t = threads e !! t) as Hne.
  { intros t ?. by rewrite Ht, list_lookup_insert_ne. }
  pose proof (lookup_lt_Some _ _ _ Hl). simplify_eq.
  split_and!; [|done|done|by rewrite Ht, length_insert|done].
  eexists. rewrite Hc, Ht, list_lookup_insert_eq by done. split_and!; [done..| |].
  - right. split; [done|]. simpl. by eapply Hact.
  - intros t th'' Hl' ?. rewrite list_lookup_insert_ne in Hl' by done. by apply Hall.
Qed.

(** C8: The executor.  After a coroutine yields or its body returns, the executor
    (no debugger attached) goes on with a thread that is ready, resumes exactly that
    thread's coroutine, and the CPU holds exactly that thread's registers: those of
    the running thread if it goes on, otherwise the ones saved for the new thread,
    the old thread's being saved.  The invariant on contexts is kept, so this holds for
    the whole run, and there is one saved context fewer than there are threads. *)
Theorem executor_resumes_own_context dbg clks (returned : bool) h e st h' e' :
  contexts_ok h e →
  (∃ th, threads e !! current_thread e = Some th ∧ (∀ r, blocked_by th ≠ WaitingForDebugger r) ∧
     (returned = true → active th = false)) →
  run_iteration dbg clks false returned h e = Ret (Some (st, h', e')) →
  st = false ∧ contexts_ok h' e' ∧ S (saved_contexts e') = length (threads e') ∧
  runnable (current_thread e') e' ∧
  (current_thread e' = current_thread e ∧ cpu e' = cpu e ∨
   current_thread e' ≠ current_thread e ∧
   (∃ th, threads e !! current_thread e' = Some th ∧ guest_context th = Some (cpu e')) ∧
   ∃ th, threads e' !! current_thread e = Some th ∧ guest_context th = Some (cpu e)).
Proof.
  intros Hok (th & Hth & Hdbg & Hret) H. cut (st = false ∧ contexts_ok h' e' ∧ runnable (current_thread e') e' ∧
    (current_thread e' = current_thread e ∧ cpu e' = cpu e ∨
     current_thread e' ≠ current_thread e ∧
     (∃ th, threads e !! current_thread e' = Some th ∧ guest_context th = Some (cpu e')) ∧
     ∃ th, threads e' !! current_thread e = Some th ∧ guest_context th = Some (cpu e))).
  { intros (? & ? & ?). eauto using saved_contexts_count. }
  unfold run_iteration in H.
  apply bind_ret_inv in H as (e1 & He1 & H).
  destruct (contexts_parked _ _ _ _ Hok ltac:(intros; naive_solver) He1) as (Hp & Hc & Hcpu & Hlen & Hsame).
  apply bind_ret_inv in H as (th1 & Hth1 & H). simpl in H.
  assert (∀ r, blocked_by th1 ≠ WaitingForDebugger r) as Hdbg1.
  { unfold get_thread in Hth1. rewrite Hc in Hth1. destruct returned.
    - apply kill_current_thread_spec in He1 as (_ & _ & th' & Hl & Ht).
      rewrite Ht, list_lookup_insert_eq in Hth1 by (by eapply lookup_lt_Some).
      simpl in Hth1. by simplify_eq/=.
    - injection He1 as <-. rewrite Hth in Hth1. simpl in Hth1. by simplify_eq. }
  replace (match blocked_by th1 with WaitingForDebugger _ => true | _ => false end) with false in H
    by (destruct (blocked_by th1); naive_solver).
  simpl in H. unfold with_next in H.
  apply bind_ret_inv in H as (s & Hs & H). destruct s as [[next e2]|]; [|done].
  apply schedule_next_thread_spec in Hs as (i & _ & _ & _ & Hch).
  pose proof Hch as (Hc2 & Hcpu2 & tn & Htn & Han & Hths).
  destruct (parked_chosen _ _ _ _ Hp Hch) as (Hp2 & tn' & Htn' & Han').
  assert (blocked_by tn' = NotBlocked) as Hbn.
  { rewrite Hths, list_lookup_insert_eq in Htn' by (by eapply lookup_lt_Some). by simplify_eq. }
  apply bind_ret_inv in H as ([ctx e3] & Hsw & H). apply bind_ret_inv in H as (h3 & Hctx & H).
  simplify_eq. split; [done|]. destruct (decide (next = current_thread e2)) as [->|Hne].
  - rewrite bool_decide_eq_true_2 in Hsw by done. simpl in Hsw. simplify_eq. destruct Hp2 as (tc & Htc & Hg & Hh & Ho & Hall).
    rewrite Htc in Htn'. simplify_eq. destruct returned; simpl in Hctx; simplify_eq.
    destruct Ho as [Ho|[??]]; [|done]. simplify_eq.
    split_and!; [split; [done|split; [by eexists|done]]|by eexists|left; split; congruence].
  - rewrite bool_decide_eq_false_2 in Hsw by done. simpl in Hsw.
    destruct (switch_thread_spec _ _ _ _ Hp2 Hne Htn' Han') as (e4 & g & E & Hok' & Hcur & Hg & Hcg & Hold & _ & Hb).
    rewrite E in Hsw. injection Hsw as <- ->. injection Hctx as <-.
    assert (current_thread e' ≠ current_thread e) as Hnc by congruence.
    split_and!; [done| |right; split_and!; [done| |]].
    + destruct Hok' as (_ & (tc & Htc & _) & _). rewrite Hcur in Htc |- *. specialize (Hb next).
      rewrite Htn', Htc in Hb. simpl in Hb. injection Hb as Hba Hbb. exists tc. split_and!; congruence.
    + exists tn. split; [rewrite <- Hsame by done; by rewrite Hcur|].
      rewrite Hths, list_lookup_insert_eq in Htn' by (by eapply lookup_lt_Some). by simplify_eq.
    + destruct Hold as (c & Hcl & Hcg' & _). exists c. split; congruence.
Qed.

(** ** Single-stepping *)

Lemma visit_debugger_stepping dbg clks old e st old' e' :
  visit_debugger dbg true clks old e = Ret (Some (st, old', e')) → st = true.
Proof.
  unfold visit_debugger, with_next. intros H.
  repeat first [progress simpl in H | progress simplify_eq | ret_step H]; done.
Qed.

(** Once the executor single-steps for the debugger it never stops doing so,
    whatever the debugger answers: the answer "continue" is not turned into normal
    execution. *)
Theorem single_step_never_ends dbg clks returned h e st h' e' :
  run_iteration dbg clks true returned h e = Ret (Some (st, h', e')) → st = true.
Proof.
  unfold run_iteration. intros H. apply bind_ret_inv in H as (e1 & _ & H).
  apply bind_ret_inv in H as (th & _ & H). simpl in H. apply bind_ret_inv in H as (x & Hx & H).
  destruct x as [[[st1 o1] e2]|]; [|done]. apply visit_debugger_stepping in Hx as ->.
  apply bind_ret_inv in H as (h1 & _ & H). by simplify_eq.
Qed.

(** The debugger answers "continue", and the executor still steps. *)
Lemma single_step_never_ends_witness :
  ∃ st h' e', run_iteration (λ _ e, Ret (false, e)) [clock_at 0] true false (Coroutine 0)
    (demo_env 0 three_threads) = Ret (Some (st, h', e')) ∧ st = true.
Proof.
  do 3 eexists. split; [vm_compute; reflexivity|].
  refine (single_step_never_ends (λ _ e, Ret (false, e)) [clock_at 0] false (Coroutine 0) (demo_env 0 three_threads) _ _ _ _).
  vm_compute. reflexivity.
Defined.

Lemma executor_resumes_own_context_witness :
  ∃ st h' e', run_iteration (λ _ e, Ret (false, e)) [clock_at 0] false false (Coroutine 0)
    (demo_env 0 three_threads) = Ret (Some (st, h', e')) ∧ contexts_ok h' e'.
Proof.
  do 3 eexists. split; [vm_compute; reflexivity|].
  refine (proj1 (proj2 (executor_resumes_own_context (λ _ e, Ret (false, e)) [clock_at 0] false (Coroutine 0)
    (demo_env 0 three_threads) _ _ _ _ _ _))).
  - split; [done|]. split; [by eexists|]. intros [|[|[|t]]] th; intros [= <-] Hne; [done|by split|by split].
  - eexists. split; [reflexivity|]. split; [done|discriminate].
  - vm_compute. reflexivity.
Defined.
