(* ===== verification/MutexFacts.v ===== *)
(** * Safety of the mutexes

    A process whose threads lock, unlock, create and destroy mutexes, sleep,
    suspend each other, start and end, under the scheduler: in every state it
    reaches, each mutex knows exactly its waiters, is owned by at most one thread,
    which is not waiting for it, and a mutex that a thread waits for exists. *)

From S2P Require Import Prelude ChunkMap SizeBucketed VMAllocator HeapAllocator GuestMem Env Scheduler SchedulerFacts.

(** A thread waits for a mutex also while it is suspended. *)
Fixpoint waits_on (id : MutexId) (b : ThreadBlock) : bool :=
  match b with
  | BlockMutex i => i =? id
  | Suspended _ p => waits_on id p
  | _ => false
  end.

(** Waits on a condition variable are excluded (see [PthreadFacts]). *)
Fixpoint no_cond (b : ThreadBlock) : bool :=
  match b with
  | BlockCondition _ _ => false
  | Suspended _ p => no_cond p
  | _ => true
  end.

Definition waiters (id : MutexId) (ths : list Thread) : nat :=
  length (filter (λ th, waits_on id (blocked_by th) = true) ths).

(** The mutex [id] in a process with threads [ths]. *)
Definition mutex_ok (ths : list Thread) (id : MutexId) (m : Mutex) : Prop :=
  waiting_count m = Z.of_nat (waiters id ths) ∧
  ∀ t c, locked m = Some (t, c) →
    1 ≤ c ∧ (mtype m ≠ PTHREAD_MUTEX_RECURSIVE → c = 1) ∧
    ∃ th, ths !! t = Some th ∧ waits_on id (blocked_by th) = false.

Definition mutexes_ok (ths : list Thread) (s : MutexState) : Prop :=
  (∀ id m, mutexes s !! id = Some m → id < mutex_count s ∧ mutex_ok ths id m) ∧
  (∀ t th id, ths !! t = Some th → waits_on id (blocked_by th) = true → is_Some (mutexes s !! id)) ∧
  (∀ t th, ths !! t = Some th → no_cond (blocked_by th) = true).

Definition process_ok (e : Environment) : Prop := mutexes_ok (threads e) (mutex_state e).

(** What the running thread may do, and the scheduler. *)
Inductive process_step : Environment → Environment → Prop :=
| step_init e ty id s :
    runnable (current_thread e) e → init_mutex ty (mutex_state e) = Ret (id, s) →
    process_step e (set_mutex_state s e)
| step_destroy e id r s :
    runnable (current_thread e) e → destroy_mutex id (mutex_state e) = Ret (r, s) →
    process_step e (set_mutex_state s e)
| step_lock e id r e' :
    runnable (current_thread e) e → lock_mutex id e = Ret (Finished r e') → process_step e e'
| step_lock_blocked e id e' k :
    runnable (current_thread e) e → lock_mutex id e = Ret (Yielded e' k) → process_step e e'
| step_unlock e id r e' :
    runnable (current_thread e) e → unlock_mutex id e = Ret (r, e') → process_step e e'
| step_sleep e now d e' k :
    runnable (current_thread e) e → sleep now d e = Ret (Yielded e' k) → process_step e e'
| step_join e t p e' k :
    runnable (current_thread e) e → join_with_thread t p e = Ret (Yielded e' k) → process_step e e'
| step_sem_wait e sem w r e' :
    runnable (current_thread e) e → sem_decrement sem w e = Ret (Finished r e') → process_step e e'
| step_sem_blocked e sem w e' k :
    runnable (current_thread e) e → sem_decrement sem w e = Ret (Yielded e' k) → process_step e e'
| step_sem_post e sem e' :
    runnable (current_thread e) e → sem_increment sem e = Ret e' → process_step e e'
| step_suspend e t e' :
    runnable (current_thread e) e → suspend_thread t e = Ret e' → process_step e e'
| step_resume e t e' :
    runnable (current_thread e) e → resume_thread t e = Ret e' → process_step e e'
| step_new e n t e' :
    runnable (current_thread e) e → new_thread n e = Ret (t, e') → process_step e e'
| step_exit e v e' :
    runnable (current_thread e) e → thread_returned v e = Ret e' → process_step e e'
| step_schedule e clks t e' :
    schedule_next_thread clks e = Ret (Some (t, e')) → process_step e (set_current t e').

(** ** Counting waiters *)

Lemma waiters_insert id ths t th th' :
  ths !! t = Some th →
  (waiters id (<[t := th']> ths) + (if waits_on id (blocked_by th) then 1 else 0) =
   waiters id ths + (if waits_on id (blocked_by th') then 1 else 0))%nat.
Proof.
  intros Ht. pose proof (lookup_lt_Some _ _ _ Ht). unfold waiters.
  rewrite insert_take_drop by done. rewrite <- (take_drop_middle _ _ _ Ht) at 3.
  rewrite !filter_app, !length_app. destruct (waits_on id (blocked_by th)) eqn:E, (waits_on id (blocked_by th')) eqn:E';
    rewrite ?(filter_cons_True _ th), ?(filter_cons_True _ th'), ?(filter_cons_False _ th), ?(filter_cons_False _ th')
      by congruence; simpl; lia.
Qed.

Lemma waiters_pos id ths t th :
  ths !! t = Some th → waits_on id (blocked_by th) = true → (0 < waiters id ths)%nat.
Proof.
  intros Ht Hw. pose proof (waiters_insert id ths t th (with_block NotBlocked th) Ht) as H.
  rewrite Hw in H. simpl in H. lia.
Qed.

Lemma waiters_none id ths :
  (∀ t th, ths !! t = Some th → waits_on id (blocked_by th) = false) → waiters id ths = O.
Proof.
  intros H. unfold waiters. destruct (filter _ ths) as [|x l] eqn:E; [done|].
  assert (x ∈ x :: l) as Hx by left. rewrite <- E in Hx. apply list_elem_of_filter in Hx as [Hw [t Ht]%list_elem_of_lookup].
  rewrite (H t x Ht) in Hw. done.
Qed.

(** Changing a thread without changing what mutex it waits for. *)
Lemma mutexes_ok_insert ths s t th th' :
  mutexes_ok ths s → ths !! t = Some th → no_cond (blocked_by th') = true →
  (∀ id, waits_on id (blocked_by th') = waits_on id (blocked_by th)) →
  mutexes_ok (<[t := th']> ths) s.
Proof.
  intros (Hm & Hw & Hn) Ht Hn' Heq. pose proof (lookup_lt_Some _ _ _ Ht) as Hlt. split_and!.
  - intros id m Hl. destruct (Hm id m Hl) as (? & Hc & Ho). split; [done|]. split.
    + rewrite Hc. f_equal. pose proof (waiters_insert id ths t th th' Ht) as H'. rewrite (Heq id) in H'. lia.
    + intros o c Hlk. destruct (Ho o c Hlk) as (? & ? & tho & Hto & ?). split_and!; [done..|].
      destruct (decide (o = t)) as [->|]; [|exists tho; by rewrite list_lookup_insert_ne].
      exists th'. rewrite list_lookup_insert_eq by done. rewrite Heq. by simplify_eq.
  - intros u thu id Hu Hwu. destruct (decide (u = t)) as [->|].
    + rewrite list_lookup_insert_eq in Hu by done. simplify_eq. rewrite Heq in Hwu. by eapply Hw.
    + rewrite list_lookup_insert_ne in Hu by done. by eapply Hw.
  - intros u thu Hu. destruct (decide (u = t)) as [->|].
    + rewrite list_lookup_insert_eq in Hu by done. by simplify_eq.
    + rewrite list_lookup_insert_ne in Hu by done. by eapply Hn.
Qed.

(** Changing a thread and the one mutex whose waiters it thereby changes. *)
Lemma mutexes_ok_both ths s t th th' id m m' :
  mutexes_ok ths s → ths !! t = Some th → mutexes s !! id = Some m → no_cond (blocked_by th') = true →
  (∀ i, i ≠ id → waits_on i (blocked_by th') = waits_on i (blocked_by th)) →
  mutex_ok (<[t := th']> ths) id m' →
  mutexes_ok (<[t := th']> ths) (put_mutex id m' s).
Proof.
  intros (Hm & Hw & Hn) Ht Hl Hn' Heq Hok. pose proof (lookup_lt_Some _ _ _ Ht) as Hlt. split_and!.
  - intros i mi. simpl. destruct (decide (i = id)) as [->|Hi].
    { rewrite lookup_insert_eq. intros [= <-]. split; [by eapply Hm|done]. }
    rewrite lookup_insert_ne by done. intros Hli. destruct (Hm i mi Hli) as (? & Hc & Ho). split; [done|]. split.
    + rewrite Hc. f_equal. pose proof (waiters_insert i ths t th th' Ht) as H'. rewrite (Heq i Hi) in H'. lia.
    + intros o c Hlk. destruct (Ho o c Hlk) as (? & ? & tho & Hto & ?). split_and!; [done..|].
      destruct (decide (o = t)) as [->|]; [|exists tho; by rewrite list_lookup_insert_ne].
      exists th'. rewrite list_lookup_insert_eq by done. rewrite Heq by done. by simplify_eq.
  - intros u thu i Hu Hwu. simpl. destruct (decide (i = id)) as [->|]; [rewrite lookup_insert_eq; by eexists|].
    rewrite lookup_insert_ne by done. destruct (decide (u = t)) as [->|].
    + rewrite list_lookup_insert_eq in Hu by done. simplify_eq. rewrite Heq in Hwu by done. by eapply Hw.
    + rewrite list_lookup_insert_ne in Hu by done. by eapply Hw.
  - intros u thu Hu. destruct (decide (u = t)) as [->|].
    + rewrite list_lookup_insert_eq in Hu by done. by simplify_eq.
    + rewrite list_lookup_insert_ne in Hu by done. by eapply Hn.
Qed.

(** Changing a mutex alone. *)
Lemma mutexes_ok_put ths s t th id m m' :
  mutexes_ok ths s → ths !! t = Some th → mutexes s !! id = Some m → mutex_ok ths id m' →
  mutexes_ok ths (put_mutex id m' s).
Proof.
  intros Hok Ht Hl Hm. rewrite <- (list_insert_id ths t th Ht).
  eapply mutexes_ok_both; eauto; [by eapply Hok|by rewrite list_insert_id].
Qed.

Lemma runnable_thread e :
  runnable (current_thread e) e →
  ∃ th, threads e !! current_thread e = Some th ∧ ∀ id, waits_on id (blocked_by th) = false.
Proof. intros (th & Ht & _ & Hb). exists th. split; [done|]. by rewrite Hb. Qed.

(** ** The operations *)

Lemma init_mutex_ok e ty id s :
  process_ok e → init_mutex ty (mutex_state e) = Ret (id, s) → process_ok (set_mutex_state s e).
Proof.
  unfold init_mutex. intros (Hm & Hw & Hn) H. apply bind_ret_inv in H as (n & E & H). apply u64_inv in E as [-> ?]. simplify_eq.
  assert (mutexes (mutex_state e) !! mutex_count (mutex_state e) = None) as Hfresh.
  { destruct (_ !! _) eqn:E; [|done]. apply Hm in E as [? _]. lia. }
  unfold process_ok. simpl. split_and!; simpl; [| |done].
  - intros i m. destruct (decide (i = mutex_count (mutex_state e))) as [->|].
    + rewrite lookup_insert_eq. intros [= <-]. split; [lia|]. split; [|done]. simpl.
      rewrite waiters_none; [done|]. intros t th Ht.
      destruct (waits_on _ _) eqn:Hwt; [|done]. destruct (Hw _ _ _ Ht Hwt) as [? E]. congruence.
    + rewrite lookup_insert_ne by done. intros Hl. destruct (Hm _ _ Hl). split; [lia|done].
  - intros t th i Ht Hwt. destruct (Hw t th i Ht Hwt) as [m E].
    rewrite lookup_insert_ne by congruence. by eexists.
Qed.

(** Destroying a mutex takes one away that nobody owns or waits for. *)
Lemma destroy_mutex_ok e id r s :
  process_ok e → destroy_mutex id (mutex_state e) = Ret (r, s) → process_ok (set_mutex_state s e).
Proof.
  unfold destroy_mutex, get_mutex. intros Hok H. apply bind_ret_inv in H as (m & Hl & H).
  destruct (mutexes (mutex_state e) !! id) as [m0|] eqn:E; [|done]. simpl in Hl. simplify_eq.
  destruct (locked m); [by simplify_eq; destruct e|].
  destruct (Z.eqb_spec (waiting_count m) 0) as [E0|]; simpl in H; [|by simplify_eq; destruct e].
  simplify_eq. destruct Hok as (Hm & Hw & Hn). unfold process_ok. simpl. split_and!; simpl; [| |done].
  - intros i mi [? Hl]%lookup_delete_Some. by apply Hm.
  - intros t th i Ht Hwt. rewrite lookup_delete_ne; [by eapply Hw|]. intros <-.
    destruct (Hm _ _ E) as (_ & Hc & _). pose proof (waiters_pos _ _ _ _ Ht Hwt). lia.
Qed.

Lemma get_mutex_inv id s m : get_mutex id s = Ret m → mutexes s !! id = Some m.
Proof. unfold get_mutex. destruct (_ !! _); simpl; [|done]. by intros [= <-]. Qed.

Lemma yield_thread_inv {R} b (rest : Environment → outcome (R * Environment)) e x :
  yield_thread b rest e = Ret x →
  ∃ th k, threads e !! current_thread e = Some th ∧ blocked_by th = NotBlocked ∧
    x = Yielded (set_threads (<[current_thread e := with_block b th]> (threads e)) e) k.
Proof.
  unfold yield_thread, get_thread. intros H. apply bind_ret_inv in H as (th & Ht & H).
  destruct (threads e !! current_thread e) as [th0|] eqn:E; simpl in Ht; simplify_eq.
  apply bind_ret_inv in H as (u & Hb & H). apply rassert_inv in Hb.
  rewrite (set_block_eq _ _ _ th) in H by done. simpl in H. simplify_eq.
  eexists _, _. split_and!; [done| |done]. unfold is_blocked in Hb. by destruct (blocked_by th).
Qed.

(** Blocking on something that is neither a mutex nor a condition variable. *)
Lemma yield_thread_ok {R} b (rest : Environment → outcome (R * Environment)) e e' k :
  process_ok e → no_cond b = true → (∀ id, waits_on id b = false) →
  yield_thread b rest e = Ret (Yielded e' k) → process_ok e'.
Proof.
  intros Hok Hn Hw (th & k' & Ht & Hb & Heq)%yield_thread_inv. simplify_eq. unfold process_ok. simpl.
  eapply mutexes_ok_insert; [done..| |]; simpl; [done|]. intros id. by rewrite Hw, Hb.
Qed.

Lemma lock_mutex_ok e id x :
  process_ok e → runnable (current_thread e) e → lock_mutex id e = Ret x →
  match x with Finished _ e' => process_ok e' | Yielded e' _ => process_ok e' end.
Proof.
  intros Hok (th & Ht & Hnw)%runnable_thread H. unfold lock_mutex in H.
  apply bind_ret_inv in H as (m & Hm%get_mutex_inv & H).
  destruct (proj1 Hok _ _ Hm) as (_ & Hc & Ho).
  destruct (locked m) as [[o c]|] eqn:El; simpl in H.
  2:{ simplify_eq. unfold process_ok. simpl. eapply mutexes_ok_put; [done..|]. split; [done|].
      intros t' c'. simpl. intros [= <- <-]. split_and!; [done..|]. exists th. by rewrite Hnw. }
  destruct (Ho o c eq_refl) as (Hc1 & Hty & tho & Hto & Hwo). destruct (decide (o = current_thread e)) as [->|Hne].
  - destruct (mtype m) eqn:Et; [done|by simplify_eq|]. apply bind_ret_inv in H as (n & Hn & H).
    apply u32_inv in Hn as [-> ?]. simplify_eq. unfold process_ok. simpl.
    eapply mutexes_ok_put; [done..|]. split; [done|]. simpl. intros t' c' [= <- <-].
    split_and!; [lia|done|]. eauto.
  - apply bind_ret_inv in H as (w & Hw & H). apply u32_inv in Hw as [-> ?].
    apply yield_thread_inv in H as (th' & k & Ht' & Hb & ->). simpl in Ht'. simplify_eq.
    unfold process_ok. simpl. eapply mutexes_ok_both; [done..| |].
    + intros i Hi. simpl. rewrite Hnw. by apply Z.eqb_neq.
    + pose proof (waiters_insert id (threads e) _ _ (with_block (BlockMutex id) th) Ht) as Hwi.
      rewrite Hnw in Hwi. simpl in Hwi. rewrite Z.eqb_refl in Hwi.
      split; simpl; [lia|]. intros t' c' El'. simplify_eq.
      split_and!; [done..|]. exists tho. rewrite list_lookup_insert_ne by done. done.
Qed.

Lemma unlock_mutex_ok e id r e' :
  process_ok e → runnable (current_thread e) e → unlock_mutex id e = Ret (r, e') → process_ok e'.
Proof.
  intros Hok (th & Ht & _)%runnable_thread H. unfold unlock_mutex in H.
  apply bind_ret_inv in H as (m & Hm%get_mutex_inv & H).
  destruct (proj1 Hok _ _ Hm) as (_ & Hc & Ho).
  destruct (locked m) as [[o c]|] eqn:El; [|destruct (mtype m); by simplify_eq].
  destruct (Ho o c eq_refl) as (Hc1 & Hty & tho & Hto & Hwo).
  destruct (_ && _); [by simplify_eq|]. destruct (Z.eqb_spec c 1).
  { simplify_eq. unfold process_ok. simpl. eapply mutexes_ok_put; [done..|]. split; [done|]. done. }
  apply bind_ret_inv in H as (u & Hu & H). apply rassert_inv, bool_decide_eq_true_1 in Hu.
  apply bind_ret_inv in H as (n' & Hn & H). apply u32_inv in Hn as [-> ?].
  apply bind_ret_inv in H as (u' & Hu' & H). apply rassert_inv in Hu'. simplify_eq.
  unfold process_ok. simpl. eapply mutexes_ok_put; [done..|]. split; [done|]. simpl.
  intros t' c' [= <- <-]. split_and!; [|done|by exists tho].
  destruct (Z.eqb_spec (c - 1) 0); [done|]. lia.
Qed.

Lemma set_block_ok e t b e' :
  process_ok e → set_block t b e = Ret e' → no_cond b = true →
  (∀ th id, threads e !! t = Some th → waits_on id b = waits_on id (blocked_by th)) → process_ok e'.
Proof.
  intros Hok (th & Ht & ->)%set_block_inv Hn Hw. unfold process_ok. simpl.
  eapply mutexes_ok_insert; [done..|]. intros id. by apply Hw.
Qed.

Lemma suspend_resume_ok e t e' :
  process_ok e → suspend_thread t e = Ret e' ∨ resume_thread t e = Ret e' → process_ok e'.
Proof.
  intros Hok [H|H]; unfold suspend_thread, resume_thread, get_thread in H;
    apply bind_ret_inv in H as (th & Ht & H);
    (destruct (threads e !! t) as [th0|] eqn:E; simpl in Ht; simplify_eq);
    pose proof (proj2 (proj2 Hok) t th E) as Hn.
  - destruct (blocked_by th) eqn:Eb; simpl in H; [..|apply bind_ret_inv in H as (n & _ & H)|];
      (eapply set_block_ok; [done|done|done|]); intros; simplify_eq; by rewrite Eb.
  - destruct (blocked_by th) eqn:Eb; simpl in H; try done.
    apply bind_ret_inv in H as (u & _ & H). destruct (1 <? _);
      (eapply set_block_ok; [done|done|done|]); intros; simplify_eq; by rewrite Eb.
Qed.

(** The scheduler wakes a thread that waits for a mutex by giving it the mutex. *)
Lemma schedule_mutex_ok e t id th e1 e2 :
  process_ok e → threads e !! t = Some th → blocked_by th = BlockMutex id →
  set_block t NotBlocked e = Ret e1 → relock_unblocked_mutex_for_thread t id e1 = Ret e2 → process_ok e2.
Proof.
  intros Hok Ht Hb H1 H2. rewrite (set_block_eq _ _ _ th) in H1 by done. injection H1 as <-.
  unfold relock_unblocked_mutex_for_thread in H2. simpl in H2.
  apply bind_ret_inv in H2 as (m & Hm%get_mutex_inv & H2). apply bind_ret_inv in H2 as (u & Hu & H2).
  apply rassert_inv in Hu. injection H2 as <-. destruct (proj1 Hok _ _ Hm) as (_ & Hc & Ho).
  pose proof (waiters_insert id (threads e) _ _ (with_block NotBlocked th) Ht) as Hwi.
  rewrite Hb in Hwi. simpl in Hwi. rewrite Z.eqb_refl in Hwi.
  unfold process_ok. simpl. eapply mutexes_ok_both; [done..| |].
  - intros i Hi. simpl. rewrite Hb. simpl. symmetry. by apply Z.eqb_neq.
  - split; simpl; [destruct (Z.ltb_spec 0 (waiting_count m)); lia|].
    intros t' c' [= <- <-]. split_and!; [done..|]. exists (with_block NotBlocked th).
    rewrite list_lookup_insert_eq by (by eapply lookup_lt_Some). done.
Qed.

Lemma schedule_candidate_ok now sys t next e s e' :
  process_ok e → schedule_candidate now sys t next e = Ret (inr (s, e')) → process_ok e'.
Proof.
  intros Hok H. unfold schedule_candidate, get_thread in H.
  destruct (threads e !! t) as [th|] eqn:Ht; simpl in H; [|done].
  destruct (active th); simpl in H; [|done].
  pose proof (proj2 (proj2 Hok) t th Ht) as Hn.
  assert (∀ e0 e1, threads e0 = threads e → mutex_state e0 = mutex_state e →
    (∀ id, waits_on id (blocked_by th) = false) → set_block t NotBlocked e0 = Ret e1 → process_ok e1) as Hwake.
  { intros e0 e1 E1 E2 Hw Hs. eapply (set_block_ok e0); [|done..|].
    - unfold process_ok. by rewrite E1, E2.
    - intros th' id. rewrite E1, Ht. intros [= <-]. by rewrite Hw. }
  destruct (blocked_by th) eqn:Hb; simpl in H, Hn; try done.
  - ret_inv H; simplify_eq; done.
  - ret_inv H; simplify_eq. by eapply Hwake.
  - ret_inv H; simplify_eq. by eapply schedule_mutex_ok.
  - ret_inv H; simplify_eq. eapply Hwake; [..|exact H1]; done.
  - apply bind_ret_inv in H as (j & _ & H). destruct (negb _); [|done].
    apply bind_ret_inv in H as (e1 & H1 & H). apply bind_ret_inv in H as (e2 & H2 & H). simplify_eq.
    eapply (Hwake e1); [..|done]; ret_inv H1; by simplify_eq.
  - ret_inv H; simplify_eq.
  - ret_inv H; simplify_eq. apply try_acquire_inv in H0 as [fs ->]. eapply Hwake; [..|exact H1]; done.
Qed.

Lemma schedule_next_thread_ok clks e t e' :
  process_ok e → schedule_next_thread clks e = Ret (Some (t, e')) → process_ok e'.
Proof. apply schedule_preserves. intros. by eapply schedule_candidate_ok. Qed.

Lemma new_thread_ok n e t e' : process_ok e → new_thread n e = Ret (t, e') → process_ok e'.
Proof.
  intros (Hm & Hw & Hn) H. unfold new_thread in H. ret_inv H. simplify_eq. unfold process_ok. simpl.
  set (th := mkThread _ _ _ _ _ _). assert (∀ u thu, (threads e ++ [th]) !! u = Some thu →
    threads e !! u = Some thu ∨ thu = th) as Hu.
  { intros u thu [?|[_ ?]]%lookup_app_Some; [by left|]. right. by destruct (u - _)%nat; simplify_eq/=. }
  split_and!.
  - intros id m' Hl. destruct (Hm id m' Hl) as (? & Hc & Ho). split; [done|]. split.
    + rewrite Hc. unfold waiters. rewrite filter_app, filter_cons_False, filter_nil, app_nil_r by done. done.
    + intros o c Hlk. destruct (Ho o c Hlk) as (? & ? & tho & ? & ?). split_and!; [done..|].
      exists tho. by rewrite lookup_app_l by (by eapply lookup_lt_Some).
  - intros u thu id [?| ->]%Hu Hwt; [by eapply Hw|done].
  - intros u thu [?| ->]%Hu; [by eapply Hn|done].
Qed.

Lemma process_step_ok e e' : process_ok e → process_step e e' → process_ok e'.
Proof.
  intros Hok. destruct 1 as [e ty id s ? H|e id r s ? H|e id r e' ? H|e id e' k ? H|e id r e' ? H|e now d e' k ? H
    |e t p e' k ? H|e sem w r e' ? H|e sem w e' k ? H|e sem e' ? H|e t e' ? H|e t e' ? H|e n t e' ? H|e v e' ? H|e clks t e' H].
  - by eapply init_mutex_ok.
  - by eapply destroy_mutex_ok.
  - by apply lock_mutex_ok in H.
  - by apply lock_mutex_ok in H.
  - by eapply unlock_mutex_ok.
  - by eapply yield_thread_ok in H.
  - by eapply yield_thread_ok in H.
  - unfold sem_decrement in H. ret_inv H; [by simplify_eq..|].
    by apply yield_thread_inv in H as (?&?&?&?&?).
  - unfold sem_decrement in H. ret_inv H; [by simplify_eq..|]. by eapply yield_thread_ok in H.
  - unfold sem_increment in H. ret_inv H. by simplify_eq.
  - eapply suspend_resume_ok; [done|by left].
  - eapply suspend_resume_ok; [done|by right].
  - by eapply new_thread_ok.
  - unfold thread_returned in H. apply update_thread_inv in H as (th & Ht & ->). unfold process_ok. simpl.
    eapply mutexes_ok_insert; [done..| |]; simpl; [|done]. by eapply Hok.
  - by eapply (schedule_next_thread_ok clks e t e') in H.
Qed.

(** A process that starts: no mutex, no thread blocked. *)
Definition initial_process (e : Environment) : Prop :=
  mutexes (mutex_state e) = ∅ ∧ ∀ t th, threads e !! t = Some th → blocked_by th = NotBlocked.

Lemma initial_process_ok e : initial_process e → process_ok e.
Proof.
  intros [Hm Hb]. split_and!.
  - intros id m. by rewrite Hm, lookup_empty.
  - intros t th id Ht. by rewrite (Hb t th Ht).
  - intros t th Ht. by rewrite (Hb t th Ht).
Qed.

(** C4: In every state that a process reaches through mutex, semaphore and
    thread operations and the scheduler (condition variables excluded): the waiting count
    of a mutex is exactly the number of threads blocked on it (suspended ones
    included); a thread that owns a mutex holds it at least once, exactly once if it is
    not recursive, and is not waiting for it; and a mutex that a thread waits for has not
    been destroyed, so that waking the waiter cannot panic. *)
Theorem mutexes_reachable_safe e0 e id m :
  initial_process e0 → rtc process_step e0 e →
  (mutexes (mutex_state e) !! id = Some m →
     waiting_count m = Z.of_nat (waiters id (threads e)) ∧
     ∀ t c, locked m = Some (t, c) →
       1 ≤ c ∧ (mtype m ≠ PTHREAD_MUTEX_RECURSIVE → c = 1) ∧
       ∃ th, threads e !! t = Some th ∧ waits_on id (blocked_by th) = false) ∧
  ∀ t th, threads e !! t = Some th → blocked_by th = BlockMutex id → mutex_is_locked id (mutex_state e) = false →
    ∃ e', relock_unblocked_mutex_for_thread t id e = Ret e' ∧
      mutex_is_locked_by id t (mutex_state e') = true.
Proof.
  intros H0 Hr. assert (process_ok e) as Hok.
  { apply initial_process_ok in H0. revert H0. induction Hr; eauto using process_step_ok. }
  split; [intros Hl; by apply Hok|]. intros t th Ht Hb Hul.
  destruct (proj1 (proj2 Hok) t th id Ht) as [m' Hm']; [rewrite Hb; apply Z.eqb_refl|].
  unfold mutex_is_locked in Hul. rewrite Hm' in Hul.
  unfold relock_unblocked_mutex_for_thread, get_mutex. rewrite Hm'. simpl.
  destruct (locked m'); [done|]. simpl. eexists. split; [done|].
  unfold mutex_is_locked_by. simpl. rewrite lookup_insert_eq. simpl. by apply bool_decide_eq_true_2.
Qed.

(** Thread 0 creates and locks a mutex, thread 1 blocks on it. *)
Definition contended : outcome Environment :=
  '(id, s) ← init_mutex PTHREAD_MUTEX_NORMAL (mutex_state (demo_env 0 three_threads));
  x ← lock_mutex id (set_mutex_state s (demo_env 0 three_threads));
  match x with
  | Yielded _ _ => Panic
  | Finished _ e =>
      s ← schedule_next_thread [clock_at 0] e;
      '(t, e) ← unwrap s;
      y ← lock_mutex id (set_current t e);
      match y with Finished _ _ => Panic | Yielded e _ => Ret e end
  end.

Lemma mutexes_reachable_safe_witness :
  ∃ e m, contended = Ret e ∧ mutexes (mutex_state e) !! 0 = Some m ∧
    waiting_count m = Z.of_nat (waiters 0 (threads e)) ∧ waiters 0 (threads e) = 1%nat.
Proof.
  assert (initial_process (demo_env 0 three_threads)) as H0.
  { split; [reflexivity|]. intros [|[|[|t]]] th; intros [= <-]; reflexivity. }
  eexists _, _. split; [vm_compute; reflexivity|]. split; [vm_compute; reflexivity|].
  split; [|vm_compute; reflexivity].
  refine (proj1 (proj1 (mutexes_reachable_safe (demo_env 0 three_threads) _ 0 _ H0 _) _)); [|vm_compute; reflexivity].
  eapply rtc_l; [apply (step_init _ PTHREAD_MUTEX_NORMAL 0); [eexists; repeat split|vm_compute; reflexivity]|].
  eapply rtc_l; [eapply (step_lock _ 0); [eexists; repeat split|vm_compute; reflexivity]|].
  eapply rtc_l; [eapply (step_schedule _ [clock_at 0]); vm_compute; reflexivity|].
  eapply rtc_l; [eapply (step_lock_blocked _ 0); [eexists; repeat split|vm_compute; reflexivity]|].
  apply rtc_refl.
Defined.
