(* ===== verification/Pthread.v ===== *)
(** * Guest pthreads ([libc/pthread/*.rs], [libc/errno.rs])

    The C functions the guest calls: mutexes, condition variables, threads,
    thread-specific data and [pthread_once], over the guest memory that holds their
    magic numbers and the host objects of [Environment]. *)

From S2P Require Import Prelude ChunkMap SizeBucketed VMAllocator HeapAllocator GuestMem Env Scheduler.

(** ** [errno] *)

Definition errno_ptr_for_thread (t : ThreadId) (e : Environment) : outcome (Z * Environment) :=
  match errnos e !! t with
  | Some p => Ret (p, e)
  | None =>
      '(p, m) ← alloc_and_write (le_bytes 4 0) (mem e);
      Ret (p, set_errnos (<[t := p]> (errnos e)) (set_mem m e))
  end.

Definition set_errno (val : Z) (e : Environment) : outcome Environment :=
  '(p, e) ← errno_ptr_for_thread (current_thread e) e;
  m ← write_u32 p val (mem e);
  Ret (set_mem m e).

(** ** Magic numbers and structures in guest memory *)

(** [check_magic!]: return [EINVAL] unless the object starts with the number. *)
Definition check_magic (object expected : Z) (e : Environment)
    (k : outcome (Z * Environment)) : outcome (Z * Environment) :=
  actual ← read_u32 object (mem e);
  if actual =? expected then k else Ret (EINVAL, e).

Definition MAGIC_MUTEXATTR : Z := 1299530100.
Definition MAGIC_MUTEX : Z := 1297437784.
Definition MAGIC_MUTEX_STATIC : Z := 850045863.
Definition MAGIC_COND : Z := 1129270852.
Definition MAGIC_COND_STATIC : Z := 1018212795.
Definition MAGIC_ATTR : Z := 1416118644.
Definition MAGIC_THREAD : Z := 1414025796.
Definition MAGIC_ONCE : Z := 816954554.

Definition write_bytes (p : Z) (l : list Z) (e : Environment) : outcome Environment :=
  m ← mem_write (Z.of_nat (length l)) p l (mem e);
  Ret (set_mem m e).

(** [pthread_mutex_t]: the magic number and the mutex identifier, packed. *)
Definition write_mutex (p magic id : Z) : Environment → outcome Environment :=
  write_bytes p (le_bytes 4 magic ++ le_bytes 8 id).
Definition read_mutex_id (p : Z) (e : Environment) : outcome Z :=
  l ← mem_read 12 p (mem e);
  Ret (from_le_bytes (drop 4 l)).

(** [pthread_mutexattr_t]: magic number, type and an unused word. *)
Definition write_mutexattr (p magic type_ unused : Z) : Environment → outcome Environment :=
  write_bytes p (le_bytes 4 magic ++ le_bytes 4 type_ ++ le_bytes 4 unused).
Definition read_mutexattr (p : Z) (e : Environment) : outcome (Z * Z * Z) :=
  l ← mem_read 12 p (mem e);
  Ret (from_le_bytes (take 4 l), to_i32 (from_le_bytes (take 4 (drop 4 l))), from_le_bytes (drop 8 l)).

(** ** Mutexes ([mutex.rs]) *)

Definition pthread_mutexattr_init (attr : Z) (e : Environment) : outcome (Z * Environment) :=
  e ← write_mutexattr attr MAGIC_MUTEXATTR (MutexType_to_i32 PTHREAD_MUTEX_DEFAULT) 0 e;
  Ret (0, e).

Definition PTHREAD_PROCESS_PRIVATE : Z := 2.
Definition pthread_mutexattr_setpshared (attr pshared : Z) (e : Environment) : outcome (Z * Environment) :=
  check_magic attr MAGIC_MUTEXATTR e
    (rassert (pshared =? PTHREAD_PROCESS_PRIVATE);; Ret (0, e)).

Definition pthread_mutexattr_settype (attr type_ : Z) (e : Environment) : outcome (Z * Environment) :=
  check_magic attr MAGIC_MUTEXATTR e
    ('(magic, _, unused) ← read_mutexattr attr e;
     e ← write_mutexattr attr magic type_ unused e;
     Ret (0, e)).

Definition pthread_mutexattr_destroy (attr : Z) (e : Environment) : outcome (Z * Environment) :=
  check_magic attr MAGIC_MUTEXATTR e
    (e ← write_mutexattr attr 0 (MutexType_to_i32 PTHREAD_MUTEX_DEFAULT) 0 e;
     Ret (0, e)).

Definition create_mutex (mutex : Z) (ty : MutexType) (e : Environment) : outcome (Z * Environment) :=
  '(id, s) ← init_mutex ty (mutex_state e);
  e ← write_mutex mutex MAGIC_MUTEX id (set_mutex_state s e);
  Ret (0, e).

Definition pthread_mutex_init (mutex attr : Z) (e : Environment) : outcome (Z * Environment) :=
  if negb (attr =? 0) then
    check_magic attr MAGIC_MUTEXATTR e
      ('(_, type_, _) ← read_mutexattr attr e;
       ty ← unwrap (MutexType_try_from type_);
       create_mutex mutex ty e)
  else create_mutex mutex PTHREAD_MUTEX_DEFAULT e.

Definition check_or_register_mutex (mutex : Z) (e : Environment) : outcome (result unit Z * Environment) :=
  magic ← read_u32 mutex (mem e);
  if magic =? MAGIC_MUTEX_STATIC then
    '(_, e) ← pthread_mutex_init mutex 0 e; Ret (Ok (), e)
  else if magic =? MAGIC_MUTEX then Ret (Ok (), e)
  else Ret (Err EINVAL, e).

(** [r.err().unwrap_or(0)]. *)
Definition err_or_0 {A} (r : result A Z) : Z := match r with Ok _ => 0 | Err e => e end.

Definition pthread_mutex_lock (mutex : Z) (e : Environment) : outcome (run Z) :=
  '(r, e) ← check_or_register_mutex mutex e;
  match r with
  | Err err => Ret (Finished err e)
  | Ok _ =>
      id ← read_mutex_id mutex e;
      x ← lock_mutex id e;
      run_map (λ r e, Ret (err_or_0 r, e)) x
  end.

Definition pthread_mutex_trylock (mutex : Z) (e : Environment) : outcome (run Z) :=
  '(r, e) ← check_or_register_mutex mutex e;
  match r with
  | Err err => Ret (Finished err e)
  | Ok _ =>
      id ← read_mutex_id mutex e;
      if mutex_is_locked id (mutex_state e) &&
         negb (mutex_is_recursive id (mutex_state e) && mutex_is_locked_by id (current_thread e) (mutex_state e))
      then Ret (Finished EBUSY e)
      else pthread_mutex_lock mutex e
  end.

Definition pthread_mutex_unlock (mutex : Z) (e : Environment) : outcome (Z * Environment) :=
  '(r, e) ← check_or_register_mutex mutex e;
  match r with
  | Err err => Ret (err, e)
  | Ok _ =>
      id ← read_mutex_id mutex e;
      '(r, e) ← unlock_mutex id e;
      Ret (err_or_0 r, e)
  end.

Definition pthread_mutex_destroy (mutex : Z) (e : Environment) : outcome (Z * Environment) :=
  '(r, e) ← check_or_register_mutex mutex e;
  match r with
  | Err err => Ret (err, e)
  | Ok _ =>
      id ← read_mutex_id mutex e;
      e ← write_mutex mutex 0 18446744073709551615 e;
      '(r, s) ← destroy_mutex id (mutex_state e);
      Ret (err_or_0 r, set_mutex_state s e)
  end.

(** ** Condition variables ([cond.rs]) *)

Definition put_cond (cond : Z) (c : CondHostObject) (e : Environment) : Environment :=
  set_conds (<[cond := c]> (condition_variables e)) e.
Definition get_cond (cond : Z) (e : Environment) : outcome CondHostObject :=
  unwrap (condition_variables e !! cond).

Definition pthread_cond_init (cond attr : Z) (e : Environment) : outcome (Z * Environment) :=
  rassert (attr =? 0);;
  e ← write_bytes cond (le_bytes 4 MAGIC_COND ++ replicate 24 0) e;
  rassert (negb (bool_decide (is_Some (condition_variables e !! cond))));;
  Ret (0, put_cond cond (mkCond [] [] None ∅) e).

Definition check_or_register_cond (cond : Z) (e : Environment) : outcome (result unit Z * Environment) :=
  magic ← read_u32 cond (mem e);
  if magic =? MAGIC_COND_STATIC then
    '(_, e) ← pthread_cond_init cond 0 e; Ret (Ok (), e)
  else if magic =? MAGIC_COND then Ret (Ok (), e)
  else Ret (Err EINVAL, e).

(** The common part of the two waits, up to the yield. *)
Definition cond_enqueue (cond mutex : Z) (e : Environment) : outcome Environment :=
  '(res, e) ← pthread_mutex_unlock mutex e;
  rassert (res =? 0);;
  id ← read_mutex_id mutex e;
  c ← get_cond cond e;
  rassert (bool_decide (curr_mutex c = Some id) ||
           match cond_waking c, cond_waiting c with [], [] => true | _, _ => false end);;
  Ret (put_cond cond (mkCond (cond_waiting c ++ [current_thread e]) (cond_waking c) (Some id) (timed_out c)) e).

Definition pthread_cond_timedwait (cond mutex abs_time : Z) (e : Environment) : outcome (run Z) :=
  l ← mem_read 8 abs_time (mem e);
  let tv_sec := to_i32 (from_le_bytes (take 4 l)) in
  let tv_nsec := to_i32 (from_le_bytes (drop 4 l)) in
  rassert (0 <=? tv_sec);;
  rassert (0 <=? tv_nsec);;
  let deadline := tv_sec * 1000000000 + tv_nsec in
  '(r, e) ← check_or_register_cond cond e;
  match r with
  | Err err => Ret (Finished err e)
  | Ok _ =>
      e ← cond_enqueue cond mutex e;
      let cur := current_thread e in
      yield_thread (BlockCondition cond (Some deadline))
        (λ e,
          c ← get_cond cond e;
          if bool_decide (cur ∈ timed_out c)
          then Ret (ETIMEDOUT, put_cond cond (mkCond (cond_waiting c) (cond_waking c) (curr_mutex c) (timed_out c ∖ {[cur]})) e)
          else Ret (0, e)) e
  end.

Definition pthread_cond_wait (cond mutex : Z) (e : Environment) : outcome (run Z) :=
  '(r, e) ← check_or_register_cond cond e;
  match r with
  | Err err => Ret (Finished err e)
  | Ok _ =>
      e ← cond_enqueue cond mutex e;
      let cur := current_thread e in
      yield_thread (BlockCondition cond None)
        (λ e,
          c ← get_cond cond e;
          rassert (negb (bool_decide (cur ∈ timed_out c)));;
          Ret (0, e)) e
  end.

Definition pthread_cond_signal (cond : Z) (e : Environment) : outcome (Z * Environment) :=
  '(r, e) ← check_or_register_cond cond e;
  match r with
  | Err err => Ret (err, e)
  | Ok _ =>
      c ← get_cond cond e;
      match cond_waiting c with
      | tid :: rest => Ret (0, put_cond cond (mkCond rest (cond_waking c ++ [tid]) (curr_mutex c) (timed_out c)) e)
      | [] => Ret (0, e)
      end
  end.

Definition pthread_cond_broadcast (cond : Z) (e : Environment) : outcome (Z * Environment) :=
  '(r, e) ← check_or_register_cond cond e;
  match r with
  | Err err => Ret (err, e)
  | Ok _ =>
      c ← get_cond cond e;
      Ret (0, put_cond cond (mkCond [] (cond_waking c ++ cond_waiting c) (curr_mutex c) (timed_out c)) e)
  end.

Definition pthread_cond_destroy (cond : Z) (e : Environment) : outcome (Z * Environment) :=
  '(r, e) ← check_or_register_cond cond e;
  match r with
  | Err err => Ret (err, e)
  | Ok _ =>
      c ← get_cond cond e;
      let e := set_conds (delete cond (condition_variables e)) e in
      rassert (match cond_waiting c, cond_waking c with [], [] => true | _, _ => false end);;
      Ret (0, e)
  end.

(** ** Threads ([thread.rs]) *)

Definition PTHREAD_CREATE_JOINABLE : Z := 1.
Definition PTHREAD_CREATE_DETACHED : Z := 2.
Definition PTHREAD_STACK_MIN : Z := 2 * PAGE_SIZE.
Definition SECONDARY_THREAD_DEFAULT_STACK_SIZE : Z := 512 * 1024.
Definition DEFAULT_ATTR : pthread_attr_t :=
  mkAttr MAGIC_ATTR PTHREAD_CREATE_JOINABLE SECONDARY_THREAD_DEFAULT_STACK_SIZE (replicate 28 0).

Definition write_attr (p : Z) (a : pthread_attr_t) : Environment → outcome Environment :=
  write_bytes p (le_bytes 4 (attr_magic a) ++ le_bytes 4 (detachstate a) ++ le_bytes 4 (stacksize a) ++ attr_unused a).
Definition read_attr (p : Z) (e : Environment) : outcome pthread_attr_t :=
  l ← mem_read 40 p (mem e);
  Ret (mkAttr (from_le_bytes (take 4 l)) (to_i32 (from_le_bytes (take 4 (drop 4 l))))
         (from_le_bytes (take 4 (drop 8 l))) (drop 12 l)).

Definition pthread_attr_init (attr : Z) (e : Environment) : outcome (Z * Environment) :=
  e ← write_attr attr DEFAULT_ATTR e; Ret (0, e).

Definition valid_detachstate (d : Z) : bool := (d =? PTHREAD_CREATE_JOINABLE) || (d =? PTHREAD_CREATE_DETACHED).

Definition pthread_attr_getdetachstate (attr detachstate_ptr : Z) (e : Environment) : outcome (Z * Environment) :=
  check_magic attr MAGIC_ATTR e
    (a ← read_attr attr e;
     rassert (valid_detachstate (detachstate a));;
     m ← write_u32 detachstate_ptr (detachstate a) (mem e);
     Ret (0, set_mem m e)).

Definition pthread_attr_setdetachstate (attr d : Z) (e : Environment) : outcome (Z * Environment) :=
  check_magic attr MAGIC_ATTR e
    (rassert (valid_detachstate d);;
     a ← read_attr attr e;
     e ← write_attr attr (mkAttr (attr_magic a) d (stacksize a) (attr_unused a)) e;
     Ret (0, e)).

(** The magic number of a thread, not of an attribute object, is checked. *)
Definition pthread_attr_getstacksize (attr stacksize_ptr : Z) (e : Environment) : outcome (Z * Environment) :=
  if attr =? 0 then Ret (EINVAL, e)
  else
    check_magic attr MAGIC_THREAD e
      (a ← read_attr attr e;
       m ← write_u32 stacksize_ptr (stacksize a) (mem e);
       Ret (0, set_mem m e)).

Definition pthread_attr_setstacksize (attr size : Z) (e : Environment) : outcome (Z * Environment) :=
  if (attr =? 0) || (size <? PTHREAD_STACK_MIN) || negb (is_multiple_of size PAGE_SIZE) then Ret (EINVAL, e)
  else
    check_magic attr MAGIC_ATTR e
      (a ← read_attr attr e;
       e ← write_attr attr (mkAttr (attr_magic a) (detachstate a) size (attr_unused a)) e;
       Ret (0, e)).

Definition pthread_attr_destroy (attr : Z) (e : Environment) : outcome (Z * Environment) :=
  check_magic attr MAGIC_ATTR e
    (e ← write_attr attr (mkAttr 0 0 0 (replicate 28 0)) e; Ret (0, e)).

(** Register a host object under a fresh [pthread_t]. *)
Definition add_pthread (t : ThreadId) (a : pthread_attr_t) (created : bool) (opaque : Z) (e : Environment)
    : outcome Environment :=
  rassert (negb (bool_decide (is_Some (pthread_threads e !! opaque))));;
  Ret (set_pthreads (<[opaque := mkThreadHost t None a]> (pthread_threads e)) created e).

Definition pthread_create (thread attr : Z) (e : Environment) : outcome (run Z) :=
  let create a :=
    '(t, e) ← new_thread (stacksize a) e;
    '(opaque, m) ← alloc_and_write (le_bytes 4 MAGIC_THREAD) (mem e);
    m ← write_u32 thread opaque m;
    e ← add_pthread t a (main_thread_object_created e) opaque (set_mem m e);
    if bundle_is_jc3 e then yield_thread NotBlocked (λ e, Ret (0, e)) e
    else Ret (Finished 0 e) in
  if negb (attr =? 0) then
    actual ← read_u32 attr (mem e);
    if actual =? MAGIC_ATTR then a ← read_attr attr e; create a else Ret (Finished EINVAL e)
  else create DEFAULT_ATTR.

Definition pthread_equal (thread1 thread2 : Z) (e : Environment) : outcome Z :=
  o1 ← unwrap (pthread_threads e !! thread1);
  o2 ← unwrap (pthread_threads e !! thread2);
  Ret (if decide (host_thread_id o1 = host_thread_id o2) then 1 else 0).

(** The host object with the given thread identifier ([iter().find]); the
    identifiers are distinct, so that the order of iteration does not matter. *)
Definition find_pthread (t : ThreadId) (e : Environment) : option Z :=
  fst <$> head (filter (λ p, host_thread_id p.2 = t) (map_to_list (pthread_threads e))).

Definition pthread_self (e : Environment) : outcome (Z * Environment) :=
  let cur := current_thread e in
  e ← (if bool_decide (cur = 0%nat) && negb (main_thread_object_created e) then
         let e := set_pthreads (pthread_threads e) true e in
         '(opaque, m) ← alloc_and_write (le_bytes 4 MAGIC_THREAD) (mem e);
         add_pthread 0 DEFAULT_ATTR true opaque (set_mem m e)
       else Ret e);
  p ← unwrap (find_pthread cur e);
  Ret (p, e).

Definition pthread_join (thread retval : Z) (e : Environment) : outcome (run Z) :=
  let cur := current_thread e in
  '(curr_pthread_t, e) ← pthread_self e;
  j ← unwrap (pthread_threads e !! thread);
  let joinee := host_thread_id j in
  rassert (negb (bool_decide (joinee = 0%nat)));;
  if decide (joinee = cur) then Ret (Finished EDEADLK e)
  else
    c ← unwrap (pthread_threads e !! curr_pthread_t);
    if decide (joined_by c = Some joinee) then Ret (Finished EDEADLK e)
    else if detachstate (host_attr j) =? PTHREAD_CREATE_DETACHED then Ret (Finished EINVAL e)
    else
      let e := set_pthreads (<[thread := mkThreadHost joinee (Some cur) (host_attr j)]> (pthread_threads e))
                 (main_thread_object_created e) e in
      x ← join_with_thread joinee retval e;
      run_map (λ _ e, Ret (0, e)) x.

Definition pthread_detach (thread : Z) (e : Environment) : outcome (Z * Environment) :=
  match pthread_threads e !! thread with
  | None => Ret (ESRCH, e)
  | Some o => if detachstate (host_attr o) =? PTHREAD_CREATE_DETACHED then Ret (EINVAL, e) else Ret (0, e)
  end.

Definition pthread_mach_thread_np (thread : Z) (e : Environment) : outcome Z :=
  o ← unwrap (pthread_threads e !! thread);
  u32 (Z.of_nat (host_thread_id o) + 1).

Definition pthread_get_stackaddr_np (thread : Z) (e : Environment) : outcome Z :=
  o ← unwrap (pthread_threads e !! thread);
  th ← get_thread (host_thread_id o) e;
  '(_, last) ← unwrap (stack th);
  Ret last.

Definition pthread_get_stacksize_np (thread : Z) (e : Environment) : outcome Z :=
  o ← unwrap (pthread_threads e !! thread);
  th ← get_thread (host_thread_id o) e;
  '(first, last) ← unwrap (stack th);
  start ← (if decide (host_thread_id o = 0%nat) then u32 (first + PAGE_SIZE) else Ret first);
  Ret (((last + 1) mod U32_MOD - start) mod U32_MOD).

(** ** Thread-specific data ([key.rs]) *)

Definition PTHREAD_KEYS_MAX : nat := 512.

Definition is_none {A} (o : option A) : bool := match o with None => true | Some _ => false end.

Definition pthread_key_create (key_ptr destructor : Z) (e : Environment) : outcome (Z * Environment) :=
  match position is_none (pthread_keys e) with
  | Some idx =>
      key ← u32 (Z.of_nat idx + 1);
      let e := set_keys (<[idx := Some (∅, destructor)]> (pthread_keys e)) e in
      m ← write_u32 key_ptr key (mem e);
      Ret (0, set_mem m e)
  | None =>
      if (length (pthread_keys e) <? PTHREAD_KEYS_MAX)%nat then
        key ← u32 (Z.of_nat (length (pthread_keys e)) + 1);
        let e := set_keys (pthread_keys e ++ [Some (∅, destructor)]) e in
        m ← write_u32 key_ptr key (mem e);
        Ret (0, set_mem m e)
      else Ret (EAGAIN, e)
  end.

(** The slot of a key: [key.checked_sub(1).unwrap()]. *)
Definition key_slot (key : Z) (e : Environment) : outcome (option (gmap ThreadId Z * Z)) :=
  idx ← u32 (key - 1);
  Ret (mjoin (pthread_keys e !! Z.to_nat idx)).

Definition pthread_getspecific (key : Z) (e : Environment) : outcome Z :=
  slot ← key_slot key e;
  Ret (match slot with Some (map, _) => default 0 (map !! current_thread e) | None => 0 end).

Definition pthread_setspecific (key value : Z) (e : Environment) : outcome (Z * Environment) :=
  slot ← key_slot key e;
  match slot with
  | Some (map, d) =>
      Ret (0, set_keys (<[Z.to_nat (key - 1) := Some (<[current_thread e := value]> map, d)]> (pthread_keys e)) e)
  | None => Ret (EINVAL, e)
  end.

Definition pthread_key_delete (key : Z) (e : Environment) : outcome (Z * Environment) :=
  slot ← key_slot key e;
  match slot with
  | Some _ => Ret (0, set_keys (<[Z.to_nat (key - 1) := None]> (pthread_keys e)) e)
  | None => Ret (EINVAL, e)
  end.

(** ** [pthread_once] ([once.rs]) *)

(** [init_routine] is the guest function the emulated CPU runs. *)
Definition pthread_once (once_control : Z) (init_routine : Environment → outcome Environment) (e : Environment)
    : outcome (Z * Environment) :=
  l ← mem_read 8 once_control (mem e);
  let magic := from_le_bytes (take 4 l) in
  let init := from_le_bytes (drop 4 l) in
  rassert (magic =? MAGIC_ONCE);;
  if init =? 0 then
    e ← write_bytes once_control (le_bytes 4 magic ++ le_bytes 4 4294967295) e;
    e ← init_routine e;
    Ret (0, e)
  else
    rassert (init =? 4294967295);;
    Ret (0, e).
