(* ===== verification/PthreadFacts.v ===== *)
(** * Properties of the guest pthread functions *)

From S2P Require Import Prelude ChunkMap SizeBucketed VMAllocator HeapAllocator GuestMem Env Scheduler SchedulerFacts MutexFacts Pthread.

(** ** Structures in guest memory *)

Lemma mem_write_inv size p l m m' :
  mem_write size p l m = Ret m' →
  m' = set_bytes (store p l (bytes m)) m ∧ Z.of_nat (length l) = size ∧ 0 < size ∧ p + size ≤ U32_MOD.
Proof.
  unfold mem_write, bytes_at_mut_copy, in_bounds. intros H.
  apply bind_ret_inv in H as (u1 & H1 & H). apply rassert_inv, Z.ltb_lt in H1.
  apply bind_ret_inv in H as (u2 & _ & H).
  apply bind_ret_inv in H as (u3 & H3 & H). apply rassert_inv, Z.leb_le in H3.
  apply bind_ret_inv in H as (u4 & H4 & H). apply rassert_inv, Z.eqb_eq in H4.
  by injection H as <-.
Qed.

(** Reading a part of what was written. *)
Lemma mem_read_written p l m off n :
  p + Z.of_nat (length l) ≤ U32_MOD → (off + n ≤ length l)%nat → Z.of_nat (length l) < U32_MOD →
  mem_read (Z.of_nat n) (p + Z.of_nat off) (set_bytes (store p l (bytes m)) m) = Ret (take n (drop off l)).
Proof.
  intros Hb Hn Hl. rewrite mem_read_eq by lia. f_equal. apply bytes_of_range.
  - rewrite length_take, length_drop. lia.
  - intros i Hi. rewrite byte_at_store, decide_True by lia. rewrite lookup_take_lt by lia.
    rewrite lookup_drop. do 2 f_equal. lia.
Qed.

Lemma write_bytes_inv p l e e' :
  write_bytes p l e = Ret e' → Z.of_nat (length l) < U32_MOD →
  e' = set_mem (mem e') e ∧
  ∀ off n, (off + n ≤ length l)%nat →
    mem_read (Z.of_nat n) (p + Z.of_nat off) (mem e') = Ret (take n (drop off l)).
Proof.
  unfold write_bytes. intros H Hl. apply bind_ret_inv in H as (m & Hm & H). injection H as <-.
  apply mem_write_inv in Hm as (-> & _ & _ & Hb). split; [done|]. intros off n Hn.
  by apply mem_read_written.
Qed.

Lemma read_u32_of_read p m l : mem_read 4 p m = Ret l → read_u32 p m = Ret (from_le_bytes l).
Proof. unfold read_u32, read_u. change (Z.of_nat 4) with 4. intros ->. done. Qed.

Lemma write_read_u32 p v m m' : write_u32 p v m = Ret m' → 0 ≤ v < U32_MOD → read_u32 p m' = Ret v.
Proof.
  intros Hw Hk. unfold write_u32, write_u in Hw. apply mem_write_inv in Hw as (-> & _ & _ & Hb).
  pose proof (mem_read_written p (le_bytes 4 v) m 0 4) as Hr. rewrite Z.add_0_r in Hr.
  erewrite read_u32_of_read by (apply Hr; [exact Hb|simpl; lia|done]). f_equal.
  rewrite drop_0, take_ge by (rewrite le_bytes_length; lia). rewrite from_le_bytes_le_bytes. by apply Z.mod_small.
Qed.

(** After the guest structure of a mutex is written, its fields read back. *)
Lemma write_mutex_spec p magic id e e' :
  write_mutex p magic id e = Ret e' → 0 ≤ magic < U32_MOD → 0 ≤ id < U64_MOD →
  e' = set_mem (mem e') e ∧ read_u32 p (mem e') = Ret magic ∧ read_mutex_id p e' = Ret id.
Proof.
  intros H Hm Hi. apply write_bytes_inv in H as [He H]; [|done]. split; [done|].
  pose proof (H 0%nat 4%nat ltac:(simpl; lia)) as H4. pose proof (H 0%nat 12%nat ltac:(simpl; lia)) as H12.
  rewrite Z.add_0_r in H4, H12. split.
  - rewrite (read_u32_of_read _ _ _ H4). f_equal.
    rewrite drop_0, take_app_le, take_ge by (rewrite ?length_take, le_bytes_length; lia).
    rewrite from_le_bytes_le_bytes. apply Z.mod_small. done.
  - unfold read_mutex_id. change 12 with (Z.of_nat 12). rewrite H12. cbn [mbind outcome_bind]. f_equal.
    rewrite drop_0, take_ge by (rewrite length_app, !le_bytes_length; lia).
    rewrite drop_app_ge, le_bytes_length by (rewrite le_bytes_length; lia).
    rewrite drop_0, from_le_bytes_le_bytes. apply Z.mod_small. done.
Qed.

(** ** Mutexes *)

Lemma create_mutex_spec p ty e r e' :
  create_mutex p ty e = Ret (r, e') → 0 ≤ mutex_count (mutex_state e) →
  r = 0 ∧ read_u32 p (mem e') = Ret MAGIC_MUTEX ∧ read_mutex_id p e' = Ret (mutex_count (mutex_state e)) ∧
  mutexes (mutex_state e') = <[mutex_count (mutex_state e) := mkMutex ty 0 None]> (mutexes (mutex_state e)) ∧
  threads e' = threads e ∧ current_thread e' = current_thread e.
Proof.
  unfold create_mutex, init_mutex. intros H Hc. apply bind_ret_inv in H as ([id s] & Hi & H).
  apply bind_ret_inv in Hi as (n & Hn & Hi). apply u64_inv in Hn as [-> ?]. simplify_eq.
  apply bind_ret_inv in H as (e1 & He1 & H). simplify_eq.
  apply write_mutex_spec in He1 as (He & Hr & Hid); [|done|lia].
  rewrite He. done.
Qed.

(** A mutex that passed the check passes it again, unchanged. *)
Lemma check_or_register_again p e e' u :
  0 ≤ mutex_count (mutex_state e) →
  check_or_register_mutex p e = Ret (Ok u, e') →
  check_or_register_mutex p e' = Ret (Ok (), e') ∧ current_thread e' = current_thread e.
Proof.
  unfold check_or_register_mutex. intros Hc H. apply bind_ret_inv in H as (magic & Hm & H).
  destruct (Z.eqb_spec magic MAGIC_MUTEX_STATIC) as [->|Hns].
  - apply bind_ret_inv in H as ([r e1] & Hi & H). simplify_eq.
    apply create_mutex_spec in Hi as (_ & Hr & _ & _ & _ & Hcur); [|done]. by rewrite Hr.
  - destruct (Z.eqb_spec magic MAGIC_MUTEX) as [->|]; simplify_eq. by rewrite Hm.
Qed.

(** [pthread_mutex_trylock] never suspends the calling thread, whatever the
    state and type of the mutex: it always returns at once. *)
Theorem trylock_never_blocks p e x :
  0 ≤ mutex_count (mutex_state e) → pthread_mutex_trylock p e = Ret x → ∃ r e', x = Finished r e'.
Proof.
  unfold pthread_mutex_trylock. intros Hc H. apply bind_ret_inv in H as ([r e1] & Hr & H).
  destruct r as [u|err]; [|simplify_eq; eauto].
  apply check_or_register_again in Hr as [Hr _]; [|done].
  apply bind_ret_inv in H as (id & Hid & H). destruct (_ && _) eqn:Hlk; [simplify_eq; eauto|].
  unfold pthread_mutex_lock in H. rewrite Hr in H. simpl in H. rewrite Hid in H. simpl in H.
  apply bind_ret_inv in H as (y & Hy & H). unfold lock_mutex in Hy.
  apply bind_ret_inv in Hy as (m & Hm%get_mutex_inv & Hy).
  unfold mutex_is_locked, mutex_is_recursive, mutex_is_locked_by in Hlk. rewrite Hm in Hlk.
  destruct (locked m) as [[o c]|]; [|simplify_eq; simpl in H; simplify_eq; eauto].
  simpl in Hlk. apply negb_false_iff, andb_true_iff in Hlk as [Hrec Hby].
  apply bool_decide_eq_true_1 in Hrec, Hby. rewrite decide_True, Hrec in Hy by done.
  apply bind_ret_inv in Hy as (n & _ & Hy). simplify_eq. simpl in H. simplify_eq. eauto.
Qed.

(** A process with a statically initialised mutex at 4096 and condition
    variable at 8192. *)
Definition static_env : Environment :=
  set_mem (set_bytes (store 4096 (le_bytes 4 MAGIC_MUTEX_STATIC)
             (store 8192 (le_bytes 4 MAGIC_COND_STATIC) ∅)) empty_mem) (demo_env 0 three_threads).

Lemma trylock_never_blocks_witness :
  ∃ x, pthread_mutex_trylock 4096 static_env = Ret x ∧ ∃ r e', x = Finished r e'.
Proof.
  destruct (is_ret_inv (pthread_mutex_trylock 4096 static_env)) as [x Hx]; [vm_compute; reflexivity|].
  exists x. split; [exact Hx|]. apply (trylock_never_blocks 4096 static_env x); [|exact Hx].
  vm_compute. discriminate.
Defined.

(** A statically initialised mutex ([PTHREAD_MUTEX_INITIALIZER]) is created by
    the first [pthread_mutex_lock] on it, which returns 0 with the mutex owned by
    the calling thread; the thread's [pthread_mutex_unlock] then returns 0, leaves it free,
    and every other mutex is untouched by both. *)
Theorem static_mutex_lock_unlock p e :
  read_u32 p (mem e) = Ret MAGIC_MUTEX_STATIC → 0 ≤ p → p + 12 < U32_MOD →
  0 ≤ mutex_count (mutex_state e) → mutex_count (mutex_state e) + 1 < U64_MOD →
  let id := mutex_count (mutex_state e) in
  ∃ e1 e2, pthread_mutex_lock p e = Ret (Finished 0 e1) ∧
    mutex_is_locked_by id (current_thread e) (mutex_state e1) = true ∧
    pthread_mutex_unlock p e1 = Ret (0, e2) ∧ mutex_is_locked id (mutex_state e2) = false ∧
    ∀ i, i ≠ id → mutexes (mutex_state e2) !! i = mutexes (mutex_state e) !! i.
Proof.
  intros Hr Hp Hb Hc Hc' id.
  assert (∃ e0, create_mutex p PTHREAD_MUTEX_NORMAL e = Ret (0, e0)) as [e0 He0].
  { unfold create_mutex, init_mutex, u64. destruct (Z.leb_spec 0 (id + 1)), (Z.ltb_spec (id + 1) U64_MOD);
      [|unfold id in *; lia..].
    fold id. rewrite (proj2 (Z.leb_le 0 (id + 1))), (proj2 (Z.ltb_lt (id + 1) _)) by done. simpl.
    unfold write_mutex, write_bytes. rewrite mem_write_eq; [by eexists|done|done|done|simpl; lia]. }
  pose proof (create_mutex_spec _ _ _ _ _ He0 Hc) as (_ & Hm0 & Hid0 & Hmx & Hth & Hcur).
  fold id in Hid0, Hmx.
  assert (check_or_register_mutex p e = Ret (Ok (), e0)) as Hck.
  { unfold check_or_register_mutex, pthread_mutex_init, PTHREAD_MUTEX_DEFAULT. rewrite Hr. cbn [mbind outcome_bind].
    rewrite Z.eqb_refl. cbn [negb Z.eqb]. by rewrite He0. }
  assert (∀ s, check_or_register_mutex p (set_mutex_state s e0) = Ret (Ok (), set_mutex_state s e0)) as Hck1.
  { intros s. unfold check_or_register_mutex. simpl. by rewrite Hm0. }
  assert (∀ s, read_mutex_id p (set_mutex_state s e0) = Ret id) as Hid1 by (intros s; exact Hid0).
  set (s1 := put_mutex id (mkMutex PTHREAD_MUTEX_NORMAL 0 (Some (current_thread e, 1))) (mutex_state e0)).
  set (s2 := put_mutex id (mkMutex PTHREAD_MUTEX_NORMAL 0 None) s1).
  exists (set_mutex_state s1 e0), (set_mutex_state s2 e0). split_and!.
  - unfold pthread_mutex_lock. rewrite Hck. simpl. rewrite Hid0. simpl. unfold lock_mutex, get_mutex.
    rewrite Hmx, lookup_insert_eq. simpl. by rewrite Hcur.
  - unfold mutex_is_locked_by. simpl. rewrite lookup_insert_eq. simpl. by apply bool_decide_eq_true_2.
  - unfold pthread_mutex_unlock. rewrite Hck1. simpl. rewrite Hid1. simpl. unfold unlock_mutex, get_mutex.
    simpl. rewrite lookup_insert_eq. simpl. rewrite andb_false_r. done.
  - unfold mutex_is_locked. simpl. by rewrite lookup_insert_eq.
  - intros i Hi. simpl. by rewrite !lookup_insert_ne, Hmx, lookup_insert_ne by done.
Qed.

Lemma static_mutex_lock_unlock_witness :
  ∃ e1 e2, pthread_mutex_lock 4096 static_env = Ret (Finished 0 e1) ∧
    pthread_mutex_unlock 4096 e1 = Ret (0, e2).
Proof.
  destruct (static_mutex_lock_unlock 4096 static_env) as (e1 & e2 & H1 & _ & H2 & _);
    [vm_compute; reflexivity|lia|vm_compute; reflexivity|vm_compute; discriminate|vm_compute; reflexivity|].
  exists e1, e2. split; [exact H1|exact H2].
Defined.

(** Registering a mutex is an error only for an unknown magic number. *)
Lemma check_or_register_mutex_err p e err e' :
  check_or_register_mutex p e = Ret (Err err, e') → err = EINVAL.
Proof.
  unfold check_or_register_mutex. intros H. apply bind_ret_inv in H as (magic & _ & H).
  destruct (_ =? _); [by apply bind_ret_inv in H as ([??] & _ & H)|].
  destruct (_ =? _); by simplify_eq.
Qed.

(** [pthread_mutex_destroy] of a mutex that is in use reports [EBUSY] but
    has already wiped the guest structure: the host mutex stays as it was, and every
    later lock or unlock through the same pointer returns [EINVAL], so that the owner
    cannot release it any more. *)
Theorem destroy_busy_mutex_is_lost p e e' :
  pthread_mutex_destroy p e = Ret (EBUSY, e') →
  pthread_mutex_unlock p e' = Ret (EINVAL, e') ∧ pthread_mutex_lock p e' = Ret (Finished EINVAL e') ∧
  ∃ id m, mutexes (mutex_state e') !! id = Some m ∧ (is_Some (locked m) ∨ waiting_count m ≠ 0).
Proof.
  unfold pthread_mutex_destroy. intros H. apply bind_ret_inv in H as ([r e1] & Hr & H).
  destruct r as [u|err]; [|apply check_or_register_mutex_err in Hr as ->; by simplify_eq].
  apply bind_ret_inv in H as (id & _ & H). apply bind_ret_inv in H as (e2 & He2 & H).
  apply write_mutex_spec in He2 as (_ & Hm & _); [|done|done].
  apply bind_ret_inv in H as ([r s] & Hd & H). simplify_eq.
  assert (check_or_register_mutex p (set_mutex_state s e2) = Ret (Err EINVAL, set_mutex_state s e2)) as Hck.
  { unfold check_or_register_mutex. simpl. by rewrite Hm. }
  split_and!; [unfold pthread_mutex_unlock; by rewrite Hck|unfold pthread_mutex_lock; by rewrite Hck|].
  unfold destroy_mutex in Hd. apply bind_ret_inv in Hd as (m & Hg%get_mutex_inv & Hd). exists id, m.
  destruct (locked m) as [l|] eqn:El; [simplify_eq; simpl; eauto|].
  destruct (Z.eqb_spec (waiting_count m) 0); simpl in Hd; simplify_eq. eauto.
Qed.

Definition locked_env : outcome Environment :=
  x ← pthread_mutex_lock 4096 static_env;
  match x with Finished _ e => Ret e | Yielded _ _ => Panic end.

Lemma destroy_busy_mutex_is_lost_witness :
  ∃ e e', locked_env = Ret e ∧ pthread_mutex_destroy 4096 e = Ret (EBUSY, e') ∧
    pthread_mutex_unlock 4096 e' = Ret (EINVAL, e').
Proof.
  destruct (is_ret_inv (e ← locked_env; '(r, e') ← pthread_mutex_destroy 4096 e; rassert (r =? EBUSY);; Ret (e, e')))
    as [[e e'] H]; [vm_compute; reflexivity|].
  apply bind_ret_inv in H as (e1 & He & H). apply bind_ret_inv in H as ([r e2] & Hd & H).
  apply bind_ret_inv in H as (u & Hu & H). apply rassert_inv, Z.eqb_eq in Hu. injection H as -> ->.
  rewrite Hu in Hd. exists e, e'. split; [exact He|]. split; [exact Hd|].
  exact (proj1 (destroy_busy_mutex_is_lost 4096 e e' Hd)).
Defined.

(** ** Thread attributes *)

(** [pthread_attr_getstacksize] fails with [EINVAL] on every attribute object
    that [pthread_attr_init] set up, because it looks for the magic number of a thread. *)
Theorem getstacksize_rejects_attributes attr out e r e1 :
  pthread_attr_init attr e = Ret (r, e1) → pthread_attr_getstacksize attr out e1 = Ret (EINVAL, e1).
Proof.
  unfold pthread_attr_init, write_attr, pthread_attr_getstacksize, check_magic. intros H.
  apply bind_ret_inv in H as (e2 & He2 & H). simplify_eq. destruct (attr =? 0); [done|].
  apply write_bytes_inv in He2 as [_ Hrd]; [|done].
  pose proof (Hrd 0%nat 4%nat ltac:(simpl; lia)) as H4. rewrite Z.add_0_r in H4.
  by rewrite (read_u32_of_read _ _ _ H4).
Qed.

Lemma getstacksize_rejects_attributes_witness :
  ∃ e1, pthread_attr_init 4096 static_env = Ret (0, e1) ∧ pthread_attr_getstacksize 4096 8192 e1 = Ret (EINVAL, e1).
Proof.
  destruct (is_ret_inv (pthread_attr_init 4096 static_env)) as [[r e1] H]; [vm_compute; reflexivity|].
  assert (r = 0) as -> by (apply bind_ret_inv in H as (e2 & _ & H); injection H; auto).
  exists e1. split; [exact H|]. exact (getstacksize_rejects_attributes 4096 8192 static_env 0 e1 H).
Defined.

(** ** Thread-specific data *)

(** What thread [t] reads under [key]. *)
Definition specific (t : ThreadId) (key : Z) (e : Environment) : outcome Z :=
  pthread_getspecific key (set_current t e).

Lemma specific_set_keys t key e i s :
  (i < length (pthread_keys e))%nat → 1 ≤ key ≤ U32_MOD →
  specific t key (set_keys (<[i := s]> (pthread_keys e)) e) =
    if decide (Z.to_nat (key - 1) = i)
    then Ret (match s with Some (map, _) => default 0 (map !! t) | None => 0 end)
    else specific t key e.
Proof.
  intros Hi Hk. unfold specific, pthread_getspecific, key_slot. rewrite !u32_ok by lia. simpl.
  destruct (decide _) as [->|Hne]; [by rewrite list_lookup_insert_eq|by rewrite list_lookup_insert_ne].
Qed.

(** Thread-specific data is a separate cell for each thread and live key:
    after a successful [pthread_setspecific] the thread reads the new value under the
    key, and nothing changes for other threads or under other keys. *)
Theorem setspecific_isolated key value e e' t k :
  0 < key ≤ U32_MOD → 0 < k ≤ U32_MOD → pthread_setspecific key value e = Ret (0, e') →
  specific t k e' = if decide (t = current_thread e ∧ k = key) then Ret value else specific t k e.
Proof.
  intros Hkey Hk H. unfold pthread_setspecific, key_slot in H. rewrite u32_ok in H by lia. simpl in H.
  destruct (pthread_keys e !! Z.to_nat (key - 1)) as [[[map d]|]|] eqn:E; simpl in H; [|done..].
  simplify_eq. pose proof (lookup_lt_Some _ _ _ E). rewrite specific_set_keys by lia.
  destruct (decide (Z.to_nat (k - 1) = _)) as [Heq|Hne].
  - assert (k = key) as -> by lia. destruct (decide (t = current_thread e)) as [->|Ht].
    + rewrite decide_True by done. by rewrite lookup_insert_eq.
    + rewrite decide_False by naive_solver. rewrite lookup_insert_ne by done.
      unfold specific, pthread_getspecific, key_slot. rewrite u32_ok by lia. simpl. by rewrite E.
  - rewrite decide_False; [done|]. intros [_ ->]. done.
Qed.

(** A new slot at the end of the table. *)
Lemma specific_append t k e d :
  0 < k ≤ U32_MOD → (length (pthread_keys e) < 512)%nat →
  specific t k (set_keys (pthread_keys e ++ [Some (∅, d)]) e) =
    if decide (Z.to_nat (k - 1) = length (pthread_keys e)) then Ret 0 else specific t k e.
Proof.
  intros Hk Hn. unfold specific, pthread_getspecific, key_slot. rewrite !u32_ok by lia. simpl.
  destruct (decide _) as [->|Hne]; [rewrite list_lookup_middle by done; simpl; by rewrite lookup_empty|].
  destruct (decide (Z.to_nat (k - 1) < length (pthread_keys e))%nat) as [|Hk'].
  - by rewrite lookup_app_l.
  - rewrite !lookup_ge_None_2; [done|lia|]. rewrite length_app. simpl. lia.
Qed.

(** [pthread_key_create] either reports [EAGAIN], when all 512 keys are in use,
    or hands out a key that is not in use, under which every thread reads null, and does not
    disturb the data under other keys. *)
Theorem key_create_fresh p d e r e' :
  pthread_key_create p d e = Ret (r, e') → (length (pthread_keys e) ≤ PTHREAD_KEYS_MAX)%nat →
  (length (pthread_keys e') ≤ PTHREAD_KEYS_MAX)%nat ∧
  (r = EAGAIN ∧ e' = e ∧ length (pthread_keys e) = PTHREAD_KEYS_MAX ∧ Forall is_Some (pthread_keys e) ∨
   r = 0 ∧ ∃ key, 1 ≤ key ≤ 512 ∧ read_u32 p (mem e') = Ret key ∧
     mjoin (pthread_keys e !! Z.to_nat (key - 1)) = None ∧
     (∀ t, specific t key e' = Ret 0) ∧
     ∀ t k, 0 < k ≤ U32_MOD → k ≠ key → specific t k e' = specific t k e).
Proof.
  unfold pthread_key_create, PTHREAD_KEYS_MAX. intros H Hlen. destruct (position is_none (pthread_keys e)) as [i|] eqn:Ep.
  - apply position_Some in Ep as (s & Hs & Hn & _). destruct s; [done|].
    pose proof (lookup_lt_Some _ _ _ Hs) as Hlt. rewrite u32_ok in H by (unfold U32_MOD; lia). simpl in H.
    apply bind_ret_inv in H as (m & Hm & H). injection H as <- <-.
    simpl. rewrite length_insert. split; [done|]. right. split; [done|]. exists (Z.of_nat i + 1).
    split_and!; [lia|lia| | | |].
    + apply (write_read_u32 _ _ _ _ Hm). unfold U32_MOD. lia.
    + replace (Z.to_nat _) with i by lia. by rewrite Hs.
    + intros t. change (specific t (Z.of_nat i + 1) (set_keys (<[i := Some (∅, d)]> (pthread_keys e)) e) = Ret 0).
      rewrite specific_set_keys, decide_True by (unfold U32_MOD; lia). by rewrite lookup_empty.
    + intros t k Hk Hne. change (specific t k (set_keys (<[i := Some (∅, d)]> (pthread_keys e)) e) = specific t k e).
      by rewrite specific_set_keys, decide_False by lia.
  - destruct (Nat.ltb_spec (length (pthread_keys e)) 512) as [Hlt|Hge].
    2:{ simplify_eq. split; [done|]. left. split_and!; [done..|lia|]. apply Forall_forall. intros s Hs.
        pose proof (position_None _ _ Ep s Hs). destruct s; [by eexists|done]. }
    rewrite u32_ok in H by (unfold U32_MOD; lia). simpl in H. apply bind_ret_inv in H as (m & Hm & H).
    injection H as <- <-. simpl. rewrite length_app. simpl. split; [lia|]. right. split; [done|].
    set (n := length (pthread_keys e)) in *. exists (Z.of_nat n + 1). split_and!; [lia|lia| | | |].
    + apply (write_read_u32 _ _ _ _ Hm). unfold U32_MOD. lia.
    + replace (Z.to_nat _) with n by lia. by rewrite lookup_ge_None_2 by done.
    + intros t. change (specific t (Z.of_nat n + 1) (set_keys (pthread_keys e ++ [Some (∅, d)]) e) = Ret 0).
      by rewrite specific_append, decide_True by (unfold U32_MOD; lia).
    + intros t k Hk Hne. change (specific t k (set_keys (pthread_keys e ++ [Some (∅, d)]) e) = specific t k e).
      by rewrite specific_append, decide_False by lia.
Qed.

Definition one_key_env : Environment := set_keys [Some (∅, 0); None] static_env.

Lemma setspecific_isolated_witness :
  ∃ e', pthread_setspecific 1 77 one_key_env = Ret (0, e') ∧ specific 0 1 e' = Ret 77 ∧ specific 1 1 e' = Ret 0.
Proof.
  destruct (is_ret_inv ('(r, e) ← pthread_setspecific 1 77 one_key_env; rassert (r =? 0);; Ret e)) as [e' H];
    [vm_compute; reflexivity|].
  apply bind_ret_inv in H as ([r e1] & H1 & H). apply bind_ret_inv in H as (u & Hu & H).
  apply rassert_inv, Z.eqb_eq in Hu. injection H as ->. rewrite Hu in H1. exists e'. split; [exact H1|].
  split; [rewrite (setspecific_isolated 1 77 one_key_env e' 0 1)|rewrite (setspecific_isolated 1 77 one_key_env e' 1 1)];
    try exact H1; try (vm_compute; reflexivity); unfold U32_MOD; lia.
Defined.

Lemma key_create_fresh_witness :
  ∃ r e', pthread_key_create 12288 0 one_key_env = Ret (r, e') ∧ (length (pthread_keys e') ≤ PTHREAD_KEYS_MAX)%nat.
Proof.
  destruct (is_ret_inv (pthread_key_create 12288 0 one_key_env)) as [[r e'] H]; [vm_compute; reflexivity|].
  exists r, e'. split; [exact H|].
  refine (proj1 (key_create_fresh 12288 0 one_key_env r e' H _)). simpl. unfold PTHREAD_KEYS_MAX. lia.
Defined.
