(* ===== verification/CondFacts.v ===== *)
(** * No lost waiters on condition variables

    In every state of a process that uses mutexes and condition variables under
    the scheduler, a thread that is blocked on a condition variable is in exactly
    one of its queues, exactly once, and the queues hold no other thread. *)

From S2P Require Import Prelude ChunkMap SizeBucketed VMAllocator HeapAllocator GuestMem Env Scheduler SchedulerFacts MutexFacts Pthread PthreadFacts.

(** The condition variable a thread is blocked on, suspended or not. *)
Fixpoint cond_of (b : ThreadBlock) : option Z :=
  match b with
  | BlockCondition c _ => Some c
  | Suspended _ p => cond_of p
  | _ => None
  end.

Definition blocked_on (c : Z) (ths : list Thread) (t : ThreadId) : Prop :=
  ∃ th, ths !! t = Some th ∧ cond_of (blocked_by th) = Some c.

Definition queue (o : CondHostObject) : list ThreadId := cond_waiting o ++ cond_waking o.

Definition conds_ok (ths : list Thread) (conds : gmap Z CondHostObject) : Prop :=
  (∀ c o, conds !! c = Some o → NoDup (queue o) ∧ ∀ t, t ∈ queue o ↔ blocked_on c ths t) ∧
  (∀ c t, blocked_on c ths t → is_Some (conds !! c)).

Definition queues_ok (e : Environment) : Prop := conds_ok (threads e) (condition_variables e).

Inductive cond_step : Environment → Environment → Prop :=
| cstep_init e c a r e' :
    runnable (current_thread e) e → pthread_cond_init c a e = Ret (r, e') → cond_step e e'
| cstep_wait e c m e' k :
    runnable (current_thread e) e → pthread_cond_wait c m e = Ret (Yielded e' k) → cond_step e e'
| cstep_timedwait e c m p e' k :
    runnable (current_thread e) e → pthread_cond_timedwait c m p e = Ret (Yielded e' k) → cond_step e e'
| cstep_signal e c r e' :
    runnable (current_thread e) e → pthread_cond_signal c e = Ret (r, e') → cond_step e e'
| cstep_broadcast e c r e' :
    runnable (current_thread e) e → pthread_cond_broadcast c e = Ret (r, e') → cond_step e e'
| cstep_destroy e c r e' :
    runnable (current_thread e) e → pthread_cond_destroy c e = Ret (r, e') → cond_step e e'
| cstep_lock e m r e' :
    runnable (current_thread e) e → pthread_mutex_lock m e = Ret (Finished r e') → cond_step e e'
| cstep_lock_blocked e m e' k :
    runnable (current_thread e) e → pthread_mutex_lock m e = Ret (Yielded e' k) → cond_step e e'
| cstep_unlock e m r e' :
    runnable (current_thread e) e → pthread_mutex_unlock m e = Ret (r, e') → cond_step e e'
| cstep_suspend e t e' :
    runnable (current_thread e) e → suspend_thread t e = Ret e' → cond_step e e'
| cstep_resume e t e' :
    runnable (current_thread e) e → resume_thread t e = Ret e' → cond_step e e'
| cstep_schedule e clks t e' :
    schedule_next_thread clks e = Ret (Some (t, e')) → cond_step e (set_current t e').

(** ** Thread and queue updates *)

Lemma blocked_on_insert c ths t th th' u :
  ths !! t = Some th → cond_of (blocked_by th') = cond_of (blocked_by th) →
  blocked_on c (<[t := th']> ths) u ↔ blocked_on c ths u.
Proof.
  intros Ht Heq. pose proof (lookup_lt_Some _ _ _ Ht). unfold blocked_on.
  destruct (decide (u = t)) as [->|]; [|by rewrite list_lookup_insert_ne].
  rewrite list_lookup_insert_eq by done. split; intros (? & ? & ?); simplify_eq; eexists; split; eauto; congruence.
Qed.

Lemma conds_ok_insert ths conds t th th' :
  conds_ok ths conds → ths !! t = Some th → cond_of (blocked_by th') = cond_of (blocked_by th) →
  conds_ok (<[t := th']> ths) conds.
Proof.
  intros [Hq He] Ht Heq. split.
  - intros c o Hc. destruct (Hq c o Hc) as [? Hin]. split; [done|]. intros u. by rewrite blocked_on_insert.
  - intros c u. rewrite blocked_on_insert by done. apply He.
Qed.

(** The same threads in the queues of one variable. *)
Lemma conds_ok_put ths conds c o o' :
  conds_ok ths conds → conds !! c = Some o → queue o' ≡ₚ queue o → conds_ok ths (<[c := o']> conds).
Proof.
  intros [Hq He] Hc Hp. split.
  - intros d od. destruct (decide (d = c)) as [->|].
    + rewrite lookup_insert_eq. intros [= <-]. destruct (Hq c o Hc) as [Hnd Hin]. rewrite Hp.
      split; [done|]. intros t. rewrite <- Hin. by rewrite Hp.
    + rewrite lookup_insert_ne by done. apply Hq.
  - intros d t Hb. destruct (decide (d = c)) as [->|]; [rewrite lookup_insert_eq; by eexists|].
    rewrite lookup_insert_ne by done. by eapply He.
Qed.

(** A thread starts waiting. *)
Lemma conds_ok_wait ths conds c o o' t th b :
  conds_ok ths conds → ths !! t = Some th → cond_of (blocked_by th) = None → conds !! c = Some o →
  cond_of b = Some c → queue o' ≡ₚ t :: queue o →
  conds_ok (<[t := with_block b th]> ths) (<[c := o']> conds).
Proof.
  intros [Hq He] Ht Hn Hc Hb Hp. pose proof (lookup_lt_Some _ _ _ Ht).
  assert (∀ d u, blocked_on d (<[t := with_block b th]> ths) u ↔ d = c ∧ u = t ∨ blocked_on d ths u) as Hbl.
  { intros d u. unfold blocked_on. destruct (decide (u = t)) as [->|].
    - rewrite list_lookup_insert_eq by done. split.
      + intros (? & [= <-] & Hx). simpl in Hx. left. split; congruence.
      + intros [[-> _]|(? & ? & ?)]; [by eexists|]. simplify_eq.
    - rewrite list_lookup_insert_ne by done. naive_solver. }
  split.
  - intros d od. destruct (decide (d = c)) as [->|].
    + rewrite lookup_insert_eq. intros [= <-]. destruct (Hq c o Hc) as [Hnd Hin]. split.
      * rewrite Hp. apply NoDup_cons. split; [|done]. rewrite Hin. intros (? & ? & ?). simplify_eq.
      * intros u. rewrite Hp, elem_of_cons, Hin, Hbl. naive_solver.
    + rewrite lookup_insert_ne by done. intros Hd. destruct (Hq d od Hd) as [Hnd Hin]. split; [done|].
      intros u. rewrite Hin, Hbl. naive_solver.
  - intros d u [[-> ->]|Hd]%Hbl; [rewrite lookup_insert_eq; by eexists|].
    destruct (decide (d = c)) as [->|]; [rewrite lookup_insert_eq; by eexists|].
    rewrite lookup_insert_ne by done. by eapply He.
Qed.

(** A thread stops waiting. *)
Lemma conds_ok_wake ths conds c o o' t th b d :
  conds_ok ths conds → ths !! t = Some th → blocked_by th = BlockCondition c d → conds !! c = Some o →
  cond_of b = None → queue o ≡ₚ t :: queue o' →
  conds_ok (<[t := with_block b th]> ths) (<[c := o']> conds).
Proof.
  intros [Hq He] Ht Hn Hc Hb Hp. pose proof (lookup_lt_Some _ _ _ Ht).
  assert (∀ x u, blocked_on x (<[t := with_block b th]> ths) u ↔ u ≠ t ∧ blocked_on x ths u) as Hbl.
  { intros x u. unfold blocked_on. destruct (decide (u = t)) as [->|].
    - rewrite list_lookup_insert_eq by done. split; [|by intros [? _]].
      intros (? & [= <-] & Hx). simpl in Hx. congruence.
    - rewrite list_lookup_insert_ne by done. naive_solver. }
  assert (∀ x, blocked_on x ths t → x = c) as Ht'.
  { intros x (? & ? & Hx). simplify_eq. rewrite Hn in Hx. by simplify_eq/=. }
  split.
  - intros x ox. destruct (decide (x = c)) as [->|].
    + rewrite lookup_insert_eq. intros [= <-]. destruct (Hq c o Hc) as [Hnd Hin].
      rewrite Hp in Hnd. apply NoDup_cons in Hnd as [Hnt Hnd]. split; [done|]. intros u.
      rewrite Hbl, <- Hin, Hp, elem_of_cons. split; [|naive_solver].
      intros Hu. split; [|by right]. by intros ->.
    + rewrite lookup_insert_ne by done. intros Hd. destruct (Hq x ox Hd) as [Hnd Hin]. split; [done|].
      intros u. rewrite Hin, Hbl. split; [|naive_solver]. intros Hu. split; [|done]. intros ->. by apply Ht' in Hu.
  - intros x u [? Hd]%Hbl. destruct (decide (x = c)) as [->|]; [rewrite lookup_insert_eq; by eexists|].
    rewrite lookup_insert_ne by done. by eapply He.
Qed.

(** ** Operations that leave threads and queues alone *)

Definition same_queues (e e' : Environment) : Prop :=
  threads e' = threads e ∧ condition_variables e' = condition_variables e ∧ current_thread e' = current_thread e.

Lemma same_queues_ok e e' : same_queues e e' → queues_ok e → queues_ok e'.
Proof. unfold same_queues, queues_ok. by intros (-> & -> & _). Qed.

#[local] Instance same_queues_trans : Transitive same_queues.
Proof. unfold same_queues. intros ??? (?&?&?) (?&?&?). split_and!; congruence. Qed.

Lemma write_bytes_same p l e e' : write_bytes p l e = Ret e' → same_queues e e'.
Proof. unfold write_bytes. intros H. apply bind_ret_inv in H as (m & _ & H). by injection H as <-. Qed.

Lemma check_or_register_mutex_same p e r e' : check_or_register_mutex p e = Ret (r, e') → same_queues e e'.
Proof.
  unfold check_or_register_mutex. intros H. apply bind_ret_inv in H as (magic & _ & H).
  destruct (_ =? _); [|destruct (_ =? _); by simplify_eq].
  apply bind_ret_inv in H as ([r1 e1] & Hi & H). injection H as _ <-.
  unfold pthread_mutex_init, create_mutex in Hi. simpl in Hi.
  apply bind_ret_inv in Hi as ([id s] & _ & Hi). apply bind_ret_inv in Hi as (e2 & Hw & Hi).
  injection Hi as _ <-. exact (write_bytes_same _ _ _ _ Hw).
Qed.

Lemma unlock_mutex_same id e r e' : unlock_mutex id e = Ret (r, e') → same_queues e e'.
Proof. unfold unlock_mutex. intros H. ret_inv H; by simplify_eq. Qed.

Lemma pthread_mutex_unlock_same p e r e' : pthread_mutex_unlock p e = Ret (r, e') → same_queues e e'.
Proof.
  unfold pthread_mutex_unlock. intros H. apply bind_ret_inv in H as ([r1 e1] & H1 & H).
  apply check_or_register_mutex_same in H1. destruct r1; [|by simplify_eq].
  apply bind_ret_inv in H as (id & _ & H). apply bind_ret_inv in H as ([r2 e2] & H2 & H).
  apply unlock_mutex_same in H2. simplify_eq. by etrans.
Qed.

Lemma relock_same t id e e' : relock_unblocked_mutex_for_thread t id e = Ret e' → same_queues e e'.
Proof. unfold relock_unblocked_mutex_for_thread. intros H. ret_inv H. by subst. Qed.

(** ** Operations that change them *)

Lemma set_block_queues_ok e t b e' :
  queues_ok e → set_block t b e = Ret e' →
  (∀ th, threads e !! t = Some th → cond_of b = cond_of (blocked_by th)) → queues_ok e'.
Proof.
  intros Hok (th & Ht & ->)%set_block_inv Hb. unfold queues_ok. simpl.
  eapply conds_ok_insert; [done..|]. by apply Hb.
Qed.

Lemma pthread_cond_init_ok c a e r e' : queues_ok e → pthread_cond_init c a e = Ret (r, e') →
  queues_ok e' ∧ threads e' = threads e ∧ current_thread e' = current_thread e.
Proof.
  unfold pthread_cond_init. intros Hok H. apply bind_ret_inv in H as (u & _ & H).
  apply bind_ret_inv in H as (e1 & He1 & H). apply write_bytes_same in He1 as (Et & Ec & Ecur).
  apply bind_ret_inv in H as (u' & Hu & H). apply rassert_inv, negb_true_iff, bool_decide_eq_false in Hu.
  rewrite Ec in Hu. simplify_eq. split_and!; [|done|done]. unfold queues_ok. simpl. rewrite Et, Ec.
  destruct Hok as [Hq He]. split.
  - intros d o. destruct (decide (d = c)) as [->|].
    + rewrite lookup_insert_eq. intros [= <-]. split; [constructor|]. intros t.
      split; [by intros ?%elem_of_nil|]. by intros ?%He.
    + rewrite lookup_insert_ne by done. apply Hq.
  - intros d t Hb. destruct (decide (d = c)) as [->|]; [rewrite lookup_insert_eq; by eexists|].
    rewrite lookup_insert_ne by done. by eapply He.
Qed.

Lemma check_or_register_cond_ok c e r e' : queues_ok e → check_or_register_cond c e = Ret (r, e') →
  queues_ok e' ∧ threads e' = threads e ∧ current_thread e' = current_thread e.
Proof.
  unfold check_or_register_cond. intros Hok H. apply bind_ret_inv in H as (magic & _ & H).
  destruct (_ =? _); [|destruct (_ =? _); by simplify_eq].
  apply bind_ret_inv in H as ([r1 e1] & Hi & H). simplify_eq. by eapply pthread_cond_init_ok.
Qed.

Lemma cond_enqueue_ok {R} c m b (rest : Environment → outcome (R * Environment)) e e1 e' k :
  queues_ok e → runnable (current_thread e) e → cond_of b = Some c →
  cond_enqueue c m e = Ret e1 → yield_thread b rest e1 = Ret (Yielded e' k) → queues_ok e'.
Proof.
  unfold cond_enqueue, get_cond. intros Hok (th & Ht & _ & Hb) Hc H Hy.
  apply bind_ret_inv in H as ([res e0] & Hu & H). apply pthread_mutex_unlock_same in Hu as (Et & Ec & Ecur).
  apply bind_ret_inv in H as (u & _ & H). apply bind_ret_inv in H as (id & _ & H).
  apply bind_ret_inv in H as (o & Ho & H). apply bind_ret_inv in H as (u' & _ & H).
  destruct (condition_variables e0 !! c) as [o0|] eqn:E0; simpl in Ho; simplify_eq.
  apply yield_thread_inv in Hy as (th1 & k' & Ht1 & _ & Heq). simpl in Ht1. simplify_eq.
  unfold queues_ok. simpl in *. rewrite Ecur, Et, Ec in *. simplify_eq.
  eapply conds_ok_wait; [done|done|by rewrite Hb|done|done|]. unfold queue. simpl.
  rewrite (Permutation_app_comm (cond_waiting o)). simpl. done.
Qed.

Lemma cond_wait_ok c m e e' k d :
  queues_ok e → runnable (current_thread e) e →
  pthread_cond_wait c m e = Ret (Yielded e' k) ∨ pthread_cond_timedwait c m d e = Ret (Yielded e' k) →
  queues_ok e'.
Proof.
  intros Hok Hr [H|H].
  - unfold pthread_cond_wait in H. apply bind_ret_inv in H as ([r e1] & H1 & H).
    apply check_or_register_cond_ok in H1 as (Hok1 & Et & Ec); [|done]. destruct r; [|done].
    apply bind_ret_inv in H as (e2 & H2 & H). eapply (cond_enqueue_ok c m _ _ e1 e2); [exact Hok1| | |exact H2|exact H]; [|done].
    unfold runnable. by rewrite Et, Ec.
  - unfold pthread_cond_timedwait in H. apply bind_ret_inv in H as (l & _ & H).
    apply bind_ret_inv in H as (u & _ & H). apply bind_ret_inv in H as (u' & _ & H).
    apply bind_ret_inv in H as ([r e1] & H1 & H).
    apply check_or_register_cond_ok in H1 as (Hok1 & Et & Ec); [|done]. destruct r; [|done].
    apply bind_ret_inv in H as (e2 & H2 & H). eapply (cond_enqueue_ok c m _ _ e1 e2); [exact Hok1| | |exact H2|exact H]; [|done].
    unfold runnable. by rewrite Et, Ec.
Qed.

(** Signal, broadcast: threads move between the queues. *)
Lemma cond_notify_ok c e r e' :
  queues_ok e → pthread_cond_signal c e = Ret (r, e') ∨ pthread_cond_broadcast c e = Ret (r, e') → queues_ok e'.
Proof.
  unfold pthread_cond_signal, pthread_cond_broadcast, get_cond.
  intros Hok [H|H]; apply bind_ret_inv in H as ([r1 e1] & H1 & H);
    (apply check_or_register_cond_ok in H1 as (Hok1 & _ & _); [|done]); (destruct r1; [|by simplify_eq]);
    apply bind_ret_inv in H as (o & Ho & H);
    (destruct (condition_variables e1 !! c) as [o0|] eqn:E0; simpl in Ho; simplify_eq).
  - destruct (cond_waiting o) as [|t l] eqn:Ew; simplify_eq; [done|].
    unfold queues_ok. simpl. eapply conds_ok_put; [done..|]. unfold queue. simpl. rewrite Ew.
    rewrite app_assoc, (Permutation_app_comm _ [t]). done.
  - unfold queues_ok. simpl. eapply conds_ok_put; [done..|]. unfold queue. simpl. apply Permutation_app_comm.
Qed.

Lemma cond_destroy_ok c e r e' : queues_ok e → pthread_cond_destroy c e = Ret (r, e') → queues_ok e'.
Proof.
  unfold pthread_cond_destroy, get_cond. intros Hok H. apply bind_ret_inv in H as ([r1 e1] & H1 & H).
  apply check_or_register_cond_ok in H1 as (Hok1 & _ & _); [|done]. destruct r1; [|by simplify_eq].
  apply bind_ret_inv in H as (o & Ho & H). apply bind_ret_inv in H as (u & Hu & H). apply rassert_inv in Hu.
  destruct (condition_variables e1 !! c) as [o0|] eqn:E0; simpl in Ho; simplify_eq.
  destruct Hok1 as [Hq He]. unfold queues_ok. simpl. split.
  - intros d od [? Hd]%lookup_delete_Some. by apply Hq.
  - intros d t Hb. rewrite lookup_delete_ne; [by eapply He|]. intros <-.
    destruct (Hq c o E0) as [_ Hin]. apply Hin in Hb. unfold queue in Hb.
    destruct (cond_waiting o), (cond_waking o); try done. by apply elem_of_nil in Hb.
Qed.

(** ** The scheduler *)

Lemma filter_remove (t : nat) (l : list nat) :
  NoDup l → t ∈ l → l ≡ₚ t :: filter (λ x, x ≠ t) l.
Proof.
  induction 1 as [|x l Hx Hnd IH]; [by intros ?%elem_of_nil|]. intros [->|Hin]%elem_of_cons.
  - rewrite filter_cons_False by naive_solver. f_equiv. rewrite filter_all; [done|].
    apply Forall_forall. intros y Hy ->. done.
  - rewrite filter_cons_True by (intros ->; done). rewrite (IH Hin) at 1. constructor.
Qed.

(** A waiter is woken: by a signal, at the head of the queue, or by its deadline. *)
Lemma wake_cond_ok e t th c d o o' e1 e2 id :
  queues_ok e → threads e !! t = Some th → blocked_by th = BlockCondition c d →
  condition_variables e !! c = Some o → queue o ≡ₚ t :: queue o' →
  set_block t NotBlocked (set_conds (<[c := o']> (condition_variables e)) e) = Ret e1 →
  relock_unblocked_mutex_for_thread t id e1 = Ret e2 → queues_ok e2.
Proof.
  intros Hok Ht Hb Ho Hp H1 H2%relock_same. eapply same_queues_ok; [done|].
  rewrite (set_block_eq _ _ _ th) in H1 by done. injection H1 as <-. unfold queues_ok. simpl.
  by eapply conds_ok_wake.
Qed.

Lemma schedule_candidate_queues_ok now sys t next e s e' :
  queues_ok e → schedule_candidate now sys t next e = Ret (inr (s, e')) → queues_ok e'.
Proof.
  intros Hok H. unfold schedule_candidate, get_thread in H.
  destruct (threads e !! t) as [th|] eqn:Ht; simpl in H; [|done].
  destruct (active th); simpl in H; [|done].
  assert (∀ e0 e1, same_queues e e0 → cond_of (blocked_by th) = None → set_block t NotBlocked e0 = Ret e1 →
    queues_ok e1) as Hwake.
  { intros e0 e1 Hs Hc H1. pose proof Hs as (Et & _). eapply (set_block_queues_ok e0); [by eapply same_queues_ok|done|].
    intros th'. rewrite Et, Ht. intros [= <-]. by rewrite Hc. }
  destruct (blocked_by th) eqn:Hb; simpl in H; try done.
  - ret_inv H; by simplify_eq.
  - ret_inv H; simplify_eq. by eapply Hwake.
  - ret_inv H; simplify_eq. eapply same_queues_ok; [by eapply relock_same|]. by eapply Hwake.
  - ret_inv H; simplify_eq. eapply Hwake; [..|exact H1]; done.
  - apply bind_ret_inv in H as (o & Ho & H). apply bind_ret_inv in H as (id & _ & H).
    destruct (condition_variables e !! cond) as [o0|] eqn:Eo; simpl in Ho; simplify_eq.
    pose proof (proj1 Hok cond o Eo) as [Hnd Hin].
    destruct (bool_decide _ && _) eqn:Hc.
    + apply andb_true_iff in Hc as [Hh%bool_decide_eq_true_1 _]. destruct (cond_waking o) as [|t' l] eqn:Ew; [done|].
      simpl in Hh. simplify_eq. apply bind_ret_inv in H as (e1 & H1 & H).
      apply bind_ret_inv in H as (e2 & H2 & H). simplify_eq.
      eapply wake_cond_ok; [done|done|done|done| |exact H1|exact H2]. unfold queue. simpl. rewrite Ew. simpl.
      by rewrite Permutation_middle.
    + destruct deadline as [d|]; [|done]. apply bind_ret_inv in H as (u & _ & H). destruct (d <=? sys); [|done].
      apply bind_ret_inv in H as (u1 & _ & H). apply bind_ret_inv in H as (u2 & Hw & H). apply rassert_inv in Hw.
      apply bind_ret_inv in H as (u3 & _ & H). apply bind_ret_inv in H as (e1 & H1 & H).
      apply bind_ret_inv in H as (e2 & H2 & H). simplify_eq.
      eapply wake_cond_ok; [done|done|done|done| |exact H1|exact H2]. unfold queue in *. simpl.
      destruct (cond_waking o); [|done]. rewrite app_nil_r in Hnd, Hin |- *. rewrite app_nil_r. apply filter_remove; [done|].
      apply Hin. by exists th; rewrite Hb.
  - apply bind_ret_inv in H as (j & _ & H). destruct (negb _); [|done].
    apply bind_ret_inv in H as (e1 & H1 & H). apply bind_ret_inv in H as (e2 & H2 & H). simplify_eq.
    eapply (Hwake e1); [..|done]; [|done]. ret_inv H1; by simplify_eq.
  - ret_inv H; simplify_eq.
  - ret_inv H; simplify_eq. apply try_acquire_inv in H0 as [fs ->]. eapply Hwake; [..|exact H1]; done.
Qed.

Lemma schedule_next_thread_queues_ok clks e t e' :
  queues_ok e → schedule_next_thread clks e = Ret (Some (t, e')) → queues_ok e'.
Proof. apply schedule_preserves. intros. by eapply schedule_candidate_queues_ok. Qed.

Lemma mutex_lock_queues_ok m e x :
  queues_ok e → pthread_mutex_lock m e = Ret x →
  match x with Finished _ e' => queues_ok e' | Yielded e' _ => queues_ok e' end.
Proof.
  unfold pthread_mutex_lock. intros Hok H. apply bind_ret_inv in H as ([r e1] & H1 & H).
  apply check_or_register_mutex_same in H1. assert (queues_ok e1) as Hok1 by (by eapply same_queues_ok).
  destruct r; [|by simplify_eq]. apply bind_ret_inv in H as (id & _ & H).
  apply bind_ret_inv in H as (y & Hy & H).
  assert (match y with Finished _ e' => queues_ok e' | Yielded e' _ => queues_ok e' end) as Hy'.
  { unfold lock_mutex in Hy. apply bind_ret_inv in Hy as (mx & _ & Hy).
    destruct (locked mx) as [[o c]|]; [|by simplify_eq]. destruct (decide _).
    - destruct (mtype mx); [done|by simplify_eq|]. apply bind_ret_inv in Hy as (n & _ & Hy). by simplify_eq.
    - apply bind_ret_inv in Hy as (w & _ & Hy). apply yield_thread_inv in Hy as (th & k & Ht & Hb & ->).
      unfold queues_ok. simpl in *. eapply conds_ok_insert; [done..|]. by rewrite Hb. }
  destruct y; simpl in H; by simplify_eq.
Qed.

Lemma suspend_resume_queues_ok e t e' :
  queues_ok e → suspend_thread t e = Ret e' ∨ resume_thread t e = Ret e' → queues_ok e'.
Proof.
  intros Hok [H|H]; unfold suspend_thread, resume_thread, get_thread in H;
    apply bind_ret_inv in H as (th & Ht & H);
    (destruct (threads e !! t) as [th0|] eqn:E; simpl in Ht; simplify_eq).
  - destruct (blocked_by th) eqn:Eb; simpl in H; [..|apply bind_ret_inv in H as (n & _ & H)|];
      (eapply set_block_queues_ok; [done|done|]); intros; simplify_eq; by rewrite Eb.
  - destruct (blocked_by th) eqn:Eb; simpl in H; try done.
    apply bind_ret_inv in H as (u & _ & H). destruct (1 <? _);
      (eapply set_block_queues_ok; [done|done|]); intros; simplify_eq; by rewrite Eb.
Qed.

Lemma cond_step_ok e e' : queues_ok e → cond_step e e' → queues_ok e'.
Proof.
  intros Hok. destruct 1 as [e c a r e' ? H|e c m e' k ? H|e c m p e' k ? H|e c r e' ? H|e c r e' ? H|e c r e' ? H
    |e m r e' ? H|e m e' k ? H|e m r e' ? H|e t e' ? H|e t e' ? H|e clks t e' H].
  - by eapply pthread_cond_init_ok.
  - eapply (cond_wait_ok c m _ _ _ 0); eauto.
  - eapply cond_wait_ok; eauto.
  - eapply cond_notify_ok; eauto.
  - eapply cond_notify_ok; eauto.
  - by eapply cond_destroy_ok.
  - by apply mutex_lock_queues_ok in H.
  - by apply mutex_lock_queues_ok in H.
  - eapply same_queues_ok; [by eapply pthread_mutex_unlock_same|done].
  - eapply suspend_resume_queues_ok; eauto.
  - eapply suspend_resume_queues_ok; eauto.
  - by apply schedule_next_thread_queues_ok in H.
Qed.


(** ** Runs of three threads *)

(** The results of an operation that must not yield, or must. *)
Definition finished {R} (x : outcome (run R)) : outcome (R * Environment) :=
  r ← x; match r with Finished v e => Ret (v, e) | Yielded _ _ => Panic end.
Definition yielded {R} (x : outcome (run R)) : outcome Environment :=
  r ← x; match r with Finished _ _ => Panic | Yielded e _ => Ret e end.
(** Let the scheduler run thread [t]. *)
Definition switch_to (t : ThreadId) (e : Environment) : outcome Environment :=
  s ← schedule_next_thread [clock_at 0] e;
  '(u, e) ← unwrap s;
  rassert (bool_decide (u = t));;
  Ret (set_current u e).

Definition waiting_env : outcome (Environment * Environment) :=
  '(_, e1) ← finished (pthread_mutex_lock 4096 static_env);
  e2 ← yielded (pthread_cond_wait 8192 4096 e1);
  Ret (e1, e2).

Lemma finished_inv {R} (x : outcome (run R)) v e : finished x = Ret (v, e) → x = Ret (Finished v e).
Proof. destruct x as [[? ?|? ?]|]; simpl; [|done..]. by intros [= -> ->]. Qed.
Lemma yielded_inv {R} (x : outcome (run R)) e : yielded x = Ret e → ∃ k, x = Ret (Yielded e k).
Proof. destruct x as [[? ?|? k]|]; simpl; [done| |done]. intros [= ->]. eauto. Qed.



(** Three threads, a mutex and a condition variable: 2 waits, 1 signals it while 0
    blocks on the mutex, and 2 destroys the mutex after it was woken. *)
Definition destroyed_under_waiter : outcome Environment :=
  '(_, e) ← finished (pthread_mutex_lock 4096 (set_current 2 static_env));
  e ← yielded (pthread_cond_wait 8192 4096 e);
  e ← switch_to 0 e;
  e ← switch_to 1 e;
  '(_, e) ← finished (pthread_mutex_lock 4096 e);
  '(_, e) ← pthread_cond_signal 8192 e;
  e ← switch_to 0 e;
  e ← yielded (pthread_mutex_lock 4096 e);
  e ← switch_to 1 e;
  '(_, e) ← pthread_mutex_unlock 4096 e;
  e ← switch_to 2 e;
  '(_, e) ← pthread_mutex_unlock 4096 e;
  '(r, e) ← pthread_mutex_destroy 4096 e;
  rassert (r =? 0);;
  Ret e.

(** A condition variable can defeat the protection of its mutex.  The thread that
    is woken by a signal lowers the waiting count of the mutex, which its wait never
    raised: in this run thread 0 is blocked on the mutex while the count says that nobody
    is, thread 2 destroys it, and the scheduler panics on the mutex that is gone. *)
Theorem woken_waiter_exposes_mutex :
  ∃ e th, destroyed_under_waiter = Ret e ∧ threads e !! 0%nat = Some th ∧ blocked_by th = BlockMutex 0 ∧
    mutexes (mutex_state e) !! 0 = None ∧ schedule_next_thread [clock_at 0] e = Panic.
Proof.
  assert ((e ← destroyed_under_waiter;
           Ret (blocked_by <$> threads e !! 0%nat, mutexes (mutex_state e) !! 0,
                is_ret (schedule_next_thread [clock_at 0] e))) = Ret (Some (BlockMutex 0), None, false)) as H
    by (vm_compute; reflexivity).
  apply bind_ret_inv in H as (e & He & H). injection H as H1 H2 H3.
  apply fmap_Some in H1 as (th & Ht & Hb). exists e, th.
  split; [exact He|]. split; [exact Ht|]. split; [symmetry; exact Hb|]. split; [exact H2|].
  change (is_ret (schedule_next_thread [clock_at 0] e) = false) in H3.
  destruct (schedule_next_thread [clock_at 0] e); [discriminate H3|reflexivity].
Qed.
