(* ===== verification/Semaphore.v ===== *)
(** * POSIX and Mach semaphores ([libc/semaphore.rs], [libc/mach/semaphore.rs]) *)

From S2P Require Import Prelude ChunkMap SizeBucketed VMAllocator HeapAllocator GuestMem Env Scheduler SchedulerFacts MutexFacts Pthread PthreadFacts.

Definition SEM_FAILED : Z := 4294967295.
Definition O_CREAT : Z := 512.
Definition O_EXCL : Z := 2048.

(** ** UTF-8 ([std::str::from_utf8]) *)

Definition in_range (lo hi b : Z) : bool := (lo <=? b) && (b <=? hi).
Definition continuation : Z → bool := in_range 128 191.

Fixpoint utf8_valid (l : list Z) : bool :=
  match l with
  | [] => true
  | a :: l1 =>
      if a <? 128 then utf8_valid l1
      else if in_range 194 223 a then
        match l1 with b :: l2 => continuation b && utf8_valid l2 | _ => false end
      else if in_range 224 239 a then
        match l1 with
        | b :: c :: l3 =>
            in_range (if a =? 224 then 160 else 128) (if a =? 237 then 159 else 191) b &&
            continuation c && utf8_valid l3
        | _ => false
        end
      else if in_range 240 244 a then
        match l1 with
        | b :: c :: d :: l4 =>
            in_range (if a =? 240 then 144 else 128) (if a =? 244 then 143 else 191) b &&
            continuation c && continuation d && utf8_valid l4
        | _ => false
        end
      else false
  end.

(** [cstr_at_utf8(ptr).unwrap()]. *)
Definition cstr_at_utf8_unwrap (ptr : Z) (m : Mem) : outcome (list Z) :=
  s ← cstr_at ptr m;
  rassert (utf8_valid s);;
  Ret s.

(** ** POSIX *)

(** A new shared object. *)
Definition new_sem_object (o : SemaphoreHostObject) (s : SemState) : Z * SemState :=
  let rc := next_sem_object s in
  (rc, mkSemState (<[rc := o]> (sem_objects s)) (rc + 1) (named_semaphores s) (open_semaphores s)).

Definition set_open (f : gmap Z Z → gmap Z Z) (s : SemState) : SemState :=
  mkSemState (sem_objects s) (next_sem_object s) (named_semaphores s) (f (open_semaphores s)).
Definition set_named (f : gmap (list Z) Z → gmap (list Z) Z) (s : SemState) : SemState :=
  mkSemState (sem_objects s) (next_sem_object s) (f (named_semaphores s)) (open_semaphores s).

Definition sem_init (sem pshared value : Z) (e : Environment) : outcome (Z * Environment) :=
  e ← set_errno 0 e;
  rassert (pshared =? 0);;
  if bool_decide (is_Some (open_semaphores (sem_state e) !! sem)) then Ret (0, e)
  else
    let '(rc, s) := new_sem_object (mkSem (to_i32 value) ∅ (Some sem) false) (sem_state e) in
    Ret (0, set_sem_state (set_open (insert sem rc) s) e).

Definition sem_destroy (sem : Z) (e : Environment) : outcome (Z * Environment) :=
  match open_semaphores (sem_state e) !! sem with
  | Some rc =>
      o ← unwrap (sem_objects (sem_state e) !! rc);
      rassert (negb (sem_named o));;
      Ret (0, set_sem_state (set_open (delete sem) (sem_state e)) e)
  | None => Ret (EINVAL, e)
  end.

(** Give a named object a place in guest memory and open it. *)
Definition open_named (rc : Z) (e : Environment) : outcome (Z * Environment) :=
  '(sem, m) ← alloc_and_write (le_bytes 4 0) (mem e);
  o ← unwrap (sem_objects (sem_state e) !! rc);
  let s := put_sem_object rc (mkSem (sem_value o) (sem_waiting o) (Some sem) (sem_named o)) (sem_state e) in
  Ret (sem, set_sem_state (set_open (insert sem rc) s) (set_mem m e)).

Definition sem_open (name oflag value : Z) (e : Environment) : outcome (Z * Environment) :=
  e ← set_errno 0 e;
  sem_name ← cstr_at_utf8_unwrap name (mem e);
  match named_semaphores (sem_state e) !! sem_name with
  | Some rc =>
      if Z.land oflag O_EXCL =? 0 then Ret (SEM_FAILED, e)
      else
        o ← unwrap (sem_objects (sem_state e) !! rc);
        match guest_sem o with
        | Some existing => Ret (existing, e)
        | None => open_named rc e
        end
  | None =>
      if Z.land oflag O_CREAT =? 0 then Ret (SEM_FAILED, e)
      else
        let '(rc, s) := new_sem_object (mkSem (to_i32 value) ∅ None true) (sem_state e) in
        open_named rc (set_sem_state (set_named (insert sem_name rc) s) e)
  end.

Definition sem_post (sem : Z) (e : Environment) : outcome (Z * Environment) :=
  e ← set_errno 0 e;
  e ← sem_increment sem e;
  Ret (0, e).

Definition sem_wait (sem : Z) (e : Environment) : outcome (run Z) :=
  e ← set_errno 0 e;
  x ← sem_decrement sem true e;
  run_map (λ _ e, Ret (0, e)) x.

Definition sem_trywait (sem : Z) (e : Environment) : outcome (run Z) :=
  e ← set_errno 0 e;
  x ← sem_decrement sem false e;
  run_map (λ (b : bool) e, Ret (if b then 0 else -1, e)) x.

Definition sem_close (sem : Z) (e : Environment) : outcome (Z * Environment) :=
  e ← set_errno 0 e;
  rc ← unwrap (open_semaphores (sem_state e) !! sem);
  o ← unwrap (sem_objects (sem_state e) !! rc);
  rassert (sem_named o);;
  g ← unwrap (guest_sem o);
  '(_, m) ← mem_free g (mem e);
  let s := set_open (delete sem) (sem_state e) in
  Ret (0, set_sem_state (put_sem_object rc (mkSem (sem_value o) (sem_waiting o) None (sem_named o)) s) (set_mem m e)).

Definition sem_unlink (name : Z) (e : Environment) : outcome (Z * Environment) :=
  e ← set_errno 0 e;
  sem_name ← cstr_at_utf8_unwrap name (mem e);
  Ret (0, set_sem_state (set_named (delete sem_name) (sem_state e)) e).

Definition host_create_semaphore (value : Z) (e : Environment) : outcome (Z * Environment) :=
  '(sem, m) ← alloc_and_write (le_bytes 4 0) (mem e);
  '(_, e) ← sem_init sem 0 value (set_mem m e);
  Ret (sem, e).

Definition host_destroy_semaphore (sem : Z) (e : Environment) : outcome Environment :=
  '(_, e) ← sem_destroy sem e;
  '(_, m) ← mem_free sem (mem e);
  Ret (set_mem m e).

(** ** Mach *)

Definition MACH_TASK_SELF : Z := 1952543595.

Definition semaphore_create (task semaphore policy value : Z) (e : Environment) : outcome (Z * Environment) :=
  rassert (task =? MACH_TASK_SELF);;
  rassert (policy =? 0);;
  '(sem, m) ← alloc_and_write (le_bytes 4 0) (mem e);
  v ← u32 value;
  '(res, e) ← sem_init sem 0 v (set_mem m e);
  rassert (res =? 0);;
  m ← write_u32 semaphore sem (mem e);
  Ret (0, set_mem m e).

Definition semaphore_signal (semaphore : Z) (e : Environment) : outcome (run Z) :=
  '(r, e) ← sem_post semaphore e;
  rassert (r =? 0);;
  if bundle_is_jc3 e then yield_thread NotBlocked (λ e, Ret (0, e)) e
  else Ret (Finished 0 e).

Definition semaphore_wait (semaphore : Z) (e : Environment) : outcome (run Z) :=
  x ← sem_wait semaphore e;
  run_map (λ r e, rassert (r =? 0);; Ret (0, e)) x.

Definition semaphore_destroy (task semaphore : Z) (e : Environment) : outcome (Z * Environment) :=
  rassert (task =? MACH_TASK_SELF);;
  '(_, e) ← sem_destroy semaphore e;
  '(_, m) ← mem_free semaphore (mem e);
  Ret (0, set_mem m e).

(** ** Tokens *)

Definition value_of (rc : Z) (e : Environment) : option Z := sem_value <$> sem_objects (sem_state e) !! rc.
(** 1 if the pointer [sem] is open for the object [rc]. *)
Definition refers (rc sem : Z) (e : Environment) : Z :=
  if decide (open_semaphores (sem_state e) !! sem = Some rc) then 1 else 0.
(** 1 if the thread is blocked on a semaphore that is open for [rc]. *)
Definition awaits (rc : Z) (t : ThreadId) (e : Environment) : Z :=
  match blocked_by <$> threads e !! t with Some (BlockSemaphore s) => refers rc s e | _ => 0 end.

(** Runs of threads that post and wait, with the number of posts to the object
    [rc] and of waits on it that were granted (at once or by the scheduler). *)
Inductive sem_run (rc : Z) : Environment → Z → Z → Environment → Prop :=
| run_nil e : sem_run rc e 0 0 e
| run_post e p t e1 s e2 :
    sem_run rc e p t e1 → sem_increment s e1 = Ret e2 → sem_run rc e (p + refers rc s e1) t e2
| run_granted e p t e1 s w e2 :
    sem_run rc e p t e1 → sem_decrement s w e1 = Ret (Finished true e2) →
    sem_run rc e p (t + refers rc s e1) e2
| run_refused e p t e1 s w e2 :
    sem_run rc e p t e1 → sem_decrement s w e1 = Ret (Finished false e2) → sem_run rc e p t e2
| run_blocked e p t e1 s w e2 k :
    sem_run rc e p t e1 → sem_decrement s w e1 = Ret (Yielded e2 k) → sem_run rc e p t e2
| run_schedule e p t e1 clks u e2 :
    sem_run rc e p t e1 → schedule_next_thread clks e1 = Ret (Some (u, e2)) →
    sem_run rc e p (t + awaits rc u e1) (set_current u e2).

Lemma get_sem_inv sem s rc o :
  get_sem sem s = Ret (rc, o) → open_semaphores s !! sem = Some rc ∧ sem_objects s !! rc = Some o.
Proof.
  unfold get_sem. destruct (open_semaphores s !! sem) as [rc'|]; simpl; [|done].
  destruct (sem_objects s !! rc') as [o'|] eqn:E; simpl; [|done]. intros [= <- <-]. done.
Qed.

(** The value of [rc] after an update of the object that [sem] is open for. *)
Lemma value_of_put rc rc' o o' sem e k :
  open_semaphores (sem_state e) !! sem = Some rc' → sem_objects (sem_state e) !! rc' = Some o →
  sem_value o' = sem_value o + k →
  value_of rc (put_sem rc' o' e) = (λ v, v + k * refers rc sem e) <$> value_of rc e.
Proof.
  intros Ho Hs Hv. unfold value_of, refers. simpl. destruct (decide (rc' = rc)) as [->|Hne].
  - rewrite lookup_insert_eq, Hs, decide_True by done. simpl. f_equal. lia.
  - rewrite lookup_insert_ne, decide_False by congruence. destruct (_ !! rc); simpl; [|done]. f_equal. lia.
Qed.

Lemma yield_sem_state {R} b (rest : Environment → outcome (R * Environment)) e e' k :
  yield_thread b rest e = Ret (Yielded e' k) → sem_state e' = sem_state e.
Proof. intros (th & k' & _ & _ & H)%yield_thread_inv. by simplify_eq. Qed.

Lemma sem_increment_spec rc s e e' :
  sem_increment s e = Ret e' →
  value_of rc e' = (λ v, v + refers rc s e) <$> value_of rc e.
Proof.
  unfold sem_increment. intros H. apply bind_ret_inv in H as ([rc' o] & Hg & H). apply get_sem_inv in Hg as [Ho Hs].
  apply bind_ret_inv in H as (v & Hv & H). apply i32_inv in Hv as [-> _]. simplify_eq.
  rewrite (value_of_put _ _ _ _ _ _ 1 Ho Hs) by done.
  destruct (value_of rc e); simpl; [f_equal; lia|done].
Qed.

Lemma sem_decrement_spec rc s w e x :
  sem_decrement s w e = Ret x →
  match x with
  | Finished true e' => value_of rc e' = (λ v, v - refers rc s e) <$> value_of rc e ∧
      (refers rc s e = 1 → ∃ v, value_of rc e = Some v ∧ 0 < v)
  | Finished false e' => e' = e
  | Yielded e' _ => value_of rc e' = value_of rc e
  end.
Proof.
  unfold sem_decrement. intros H. apply bind_ret_inv in H as ([rc' o] & Hg & H). apply get_sem_inv in Hg as [Ho Hs].
  destruct (Z.ltb_spec 0 (sem_value o)) as [Hpos|].
  - simplify_eq. split.
    + rewrite (value_of_put _ _ _ _ _ _ (-1) Ho Hs) by (simpl; lia).
      destruct (value_of rc e); simpl; [f_equal; lia|done].
    + unfold refers. destruct (decide _) as [E|]; [|done]. simplify_eq. intros _.
      exists (sem_value o). unfold value_of. by rewrite Hs.
  - destruct w; simpl in H; [|by simplify_eq].
    pose proof H as Hy. apply yield_thread_inv in Hy as (th & k & _ & _ & ->).
    apply yield_sem_state in H. unfold value_of. rewrite H.
    pose proof (value_of_put rc _ _ (mkSem (sem_value o) ({[current_thread e]} ∪ sem_waiting o) (guest_sem o) (sem_named o))
      _ _ 0 Ho Hs ltac:(simpl; lia)) as Hp. unfold value_of in Hp. rewrite Hp.
    destruct (sem_objects (sem_state e) !! rc); simpl; [f_equal; lia|done].
Qed.

(** The scheduler takes a token for the thread it wakes, if it waits for [rc]. *)
Lemma schedule_candidate_sem rc now sys t next e s e' :
  schedule_candidate now sys t next e = Ret (inr (s, e')) →
  value_of rc e' = (λ v, v - awaits rc s e) <$> value_of rc e ∧
  (awaits rc s e = 1 → ∃ v, value_of rc e = Some v ∧ 0 < v).
Proof.
  intros H. pose proof (schedule_candidate_spec _ _ _ _ _ _ H) as (-> & _).
  unfold schedule_candidate, get_thread in H.
  destruct (threads e !! t) as [th|] eqn:Ht; simpl in H; [|done].
  destruct (active th); simpl in H; [|done].
  assert (∀ e', sem_state e' = sem_state e → (∀ sem, blocked_by th ≠ BlockSemaphore sem) →
    value_of rc e' = (λ v, v - awaits rc t e) <$> value_of rc e ∧
    (awaits rc t e = 1 → ∃ v, value_of rc e = Some v ∧ 0 < v)) as Hother.
  { intros e1 E Hb. unfold value_of, awaits. rewrite E, Ht. simpl.
    destruct (blocked_by th) as [| | |sem| | | | |]; try (by destruct (Hb sem));
      (split; [destruct (sem_objects (sem_state e) !! rc); simpl; [f_equal; lia|done]|done]). }
  destruct (blocked_by th) eqn:Hb; simpl in H; try done.
  all: try (ret_inv H; simplify_eq; apply Hother; [|done]; try done;
    repeat match goal with
    | H : set_block _ _ _ = Ret _ |- _ => apply set_block_inv in H as (? & _ & ->)
    | H : relock_unblocked_mutex_for_thread _ _ _ = Ret _ |- _ =>
        unfold relock_unblocked_mutex_for_thread in H; ret_inv H; subst
    end; done).
  - apply bind_ret_inv in H as ([rc' o] & Hg & H). apply get_sem_inv in Hg as [Ho Hs].
    destruct (Z.ltb_spec 0 (sem_value o)); [|done]. apply bind_ret_inv in H as (e1 & H1 & H). simplify_eq.
    apply set_block_inv in H1 as (th' & _ & ->).
    assert (awaits rc t e = refers rc sem e) as -> by (unfold awaits; rewrite Ht; simpl; by rewrite Hb).
    split.
    + pose proof (value_of_put rc _ _ (mkSem (sem_value o - 1) (sem_waiting o ∖ {[current_thread e]}) (guest_sem o) (sem_named o))
        _ _ (-1) Ho Hs ltac:(simpl; lia)) as Hp. unfold value_of in *. simpl in *. rewrite Hp.
      destruct (sem_objects (sem_state e) !! rc); simpl; [f_equal; lia|done].
    + unfold refers. destruct (decide _) as [E|]; [|done]. simplify_eq. intros _.
      exists (sem_value o). unfold value_of. by rewrite Hs.
  - ret_inv H; simplify_eq; (apply Hother; [|done]);
      match goal with
      | H1 : set_block _ _ _ = Ret ?x, H2 : relock_unblocked_mutex_for_thread _ _ ?x = Ret _ |- _ =>
          apply set_block_inv in H1 as (? & _ & ->); unfold relock_unblocked_mutex_for_thread in H2; ret_inv H2; by subst
      end.
  - apply bind_ret_inv in H as (j & _ & H). destruct (negb _); [|done].
    apply bind_ret_inv in H as (e1 & H1 & H). apply bind_ret_inv in H as (e2 & H2 & H). simplify_eq.
    apply set_block_inv in H2 as (? & _ & ->). apply Hother; [|done]. ret_inv H1; by simplify_eq.
  - ret_inv H; by simplify_eq.
  - ret_inv H; simplify_eq. apply try_acquire_inv in H0 as [fs ->].
    apply set_block_inv in H1 as (? & _ & ->). by apply Hother.
Qed.

Lemma schedule_next_thread_sem rc clks e u e' :
  schedule_next_thread clks e = Ret (Some (u, e')) →
  value_of rc e' = (λ v, v - awaits rc u e) <$> value_of rc e ∧
  (awaits rc u e = 1 → ∃ v, value_of rc e = Some v ∧ 0 < v).
Proof.
  assert (∀ clk l next e x, schedule_pass clk l next e = Ret x →
    match x with
    | inl (_, e1) => e1 = e
    | inr (s, e1) => value_of rc e1 = (λ v, v - awaits rc s e) <$> value_of rc e ∧
        (awaits rc s e = 1 → ∃ v, value_of rc e = Some v ∧ 0 < v)
    end) as Hpass.
  { intros clk l. induction l as [|i l IH]; intros next e0 x H; simpl in H; [by simplify_eq|].
    apply bind_ret_inv in H as (y & Hy & H). destruct y as [[n1 e1]|[s e1]].
    - apply schedule_candidate_spec in Hy as [-> _]. by eapply IH.
    - simplify_eq. by eapply schedule_candidate_sem. }
  revert e. induction clks as [|clk clks IH]; intros e; simpl; [done|].
  intros H. apply bind_ret_inv in H as (x & Hp & H). apply Hpass in Hp.
  destruct x as [[[a|] e1]|[s1 e1]]; [subst e1; by apply IH|done|by simplify_eq].
Qed.

Lemma refers_01 rc s e : refers rc s e = 0 ∨ refers rc s e = 1.
Proof. unfold refers. destruct (decide _); auto. Qed.

Lemma awaits_01 rc u e : awaits rc u e = 0 ∨ awaits rc u e = 1.
Proof. unfold awaits. destruct (_ <$> _) as [[]|]; auto using refers_01. Qed.

(** Taking away tokens that are there. *)
Lemma take_token d v o :
  d = 0 ∨ d = 1 → o = Some v → 0 ≤ v → (d = 1 → ∃ w, o = Some w ∧ 0 < w) →
  (λ x, x - d) <$> o = Some (v - d) ∧ 0 ≤ v - d.
Proof.
  intros [-> | ->] -> Hv Hd; simpl; [split; [done|lia]|].
  destruct (Hd eq_refl) as (w & [= <-] & ?). split; [done|lia].
Qed.

(** C6: A semaphore hands out exactly its tokens.  In every run of threads posting
    and waiting under the scheduler, the value of a semaphore is its initial value plus the
    posts minus the waits that were granted, and it never becomes negative: there are never more
    granted waits than tokens. *)
Theorem semaphore_tokens rc e p t e' v0 :
  value_of rc e = Some v0 → 0 ≤ v0 → sem_run rc e p t e' →
  value_of rc e' = Some (v0 + p - t) ∧ t ≤ v0 + p.
Proof.
  intros Hv Hpos Hr. cut (value_of rc e' = Some (v0 + p - t) ∧ 0 ≤ v0 + p - t); [intros []; split; [done|lia]|].
  induction Hr as [e|e p t e1 s e2 Hr IH H|e p t e1 s w e2 Hr IH H|e p t e1 s w e2 Hr IH H|e p t e1 s w e2 k Hr IH H
    |e p t e1 clks u e2 Hr IH H]; [split; [rewrite Hv; f_equal; lia|lia]|..];
    destruct (IH Hv) as [IHv IHp].
  - apply (sem_increment_spec rc) in H. destruct (refers_01 rc s e1) as [E|E]; rewrite E in *;
      rewrite H, IHv; simpl; (split; [f_equal; lia|lia]).
  - apply (sem_decrement_spec rc) in H as [H Hpos']. rewrite H. replace (v0 + p - (t + _)) with (v0 + p - t - refers rc s e1) by lia.
    apply take_token; auto using refers_01.
  - apply (sem_decrement_spec rc) in H as ->. done.
  - apply (sem_decrement_spec rc) in H. by rewrite H.
  - apply (schedule_next_thread_sem rc) in H as [H Hpos'].
    change (value_of rc (set_current u e2)) with (value_of rc e2). rewrite H.
    replace (v0 + p - (t + _)) with (v0 + p - t - awaits rc u e1) by lia.
    apply take_token; auto using awaits_01.
Qed.

(** One semaphore with one token, open at 4096 and named "a" (the name is at 20480). *)
Definition sem_env : Environment :=
  set_errnos {[0%nat := 16384]} (set_mem (set_bytes {[20480 := 97]} empty_mem)
    (set_sem_state (mkSemState {[0 := mkSem 1 ∅ (Some 4096) true]} 1 {[ [97] := 0 ]} {[4096 := 0]})
      (demo_env 0 three_threads))).

Lemma semaphore_tokens_witness :
  ∃ e1 e2, sem_decrement 4096 true sem_env = Ret (Finished true e1) ∧ sem_increment 4096 e1 = Ret e2 ∧
    value_of 0 e2 = Some (1 + 1 - 1) ∧ 1 ≤ 1 + 1.
Proof.
  destruct (is_ret_inv (x ← sem_decrement 4096 true sem_env;
    match x with Finished true e1 => e2 ← sem_increment 4096 e1; Ret (e1, e2) | _ => Panic end)) as [[e1 e2] H];
    [vm_compute; reflexivity|].
  apply bind_ret_inv in H as (x & H1 & H). destruct x as [[|] e1'|]; [|discriminate H..].
  apply bind_ret_inv in H as (e2' & H2 & H). injection H as -> ->. exists e1, e2.
  split; [exact H1|]. split; [exact H2|].
  apply (semaphore_tokens 0 sem_env 1 1 e2 1); [vm_compute; reflexivity|lia|].
  pose proof (run_granted 0 _ _ _ _ 4096 true _ (run_nil 0 sem_env) H1) as R1.
  pose proof (run_post 0 _ _ _ _ 4096 _ R1 H2) as R2.
  assert (refers 0 4096 e1 = 1) as E1.
  { unfold sem_decrement in H1. vm_compute in H1. injection H1 as <-. vm_compute. reflexivity. }
  assert (refers 0 4096 sem_env = 1) as E0 by (vm_compute; reflexivity).
  rewrite E1, E0 in R2. exact R2.
Defined.

(** ** Named semaphores *)

Lemma set_errno_sem_state v e e1 : set_errno v e = Ret e1 → sem_state e1 = sem_state e.
Proof.
  unfold set_errno, errno_ptr_for_thread. intros H. apply bind_ret_inv in H as ([p e0] & H0 & H).
  apply bind_ret_inv in H as (m & _ & H). injection H as <-.
  destruct (errnos e !! current_thread e); [by simplify_eq|].
  apply bind_ret_inv in H0 as ([q m0] & _ & H0). by simplify_eq.
Qed.

(** [sem_open] treats [O_EXCL] the wrong way round: opening a semaphore that
    exists fails with [SEM_FAILED] exactly when [O_EXCL] is absent, and returns the existing
    semaphore when it is given. *)
Theorem sem_open_existing name oflag value e e1 s rc o p :
  set_errno 0 e = Ret e1 → cstr_at_utf8_unwrap name (mem e1) = Ret s →
  named_semaphores (sem_state e) !! s = Some rc → sem_objects (sem_state e) !! rc = Some o →
  guest_sem o = Some p →
  sem_open name oflag value e =
    Ret (if Z.land oflag O_EXCL =? 0 then SEM_FAILED else p, e1).
Proof.
  intros H1 Hs Hn Ho Hp. unfold sem_open.
  rewrite (bind_eq _ _ _ H1); cbv beta. rewrite (bind_eq _ _ _ Hs); cbv beta.
  rewrite (set_errno_sem_state _ _ _ H1), Hn. destruct (Z.land oflag O_EXCL =? 0); [done|].
  rewrite Ho. cbn [unwrap mbind outcome_bind]. by rewrite Hp.
Qed.

Lemma sem_open_existing_witness :
  ∃ e1, sem_open 20480 O_CREAT 1 sem_env = Ret (SEM_FAILED, e1) ∧
    sem_open 20480 (O_CREAT + O_EXCL) 1 sem_env = Ret (4096, e1).
Proof.
  destruct (is_ret_inv (e1 ← set_errno 0 sem_env; s ← cstr_at_utf8_unwrap 20480 (mem e1);
    rassert (bool_decide (s = [97]));; Ret e1)) as [e1 H]; [vm_compute; reflexivity|].
  apply bind_ret_inv in H as (e1' & H1 & H). apply bind_ret_inv in H as (s & Hs & H).
  apply bind_ret_inv in H as (u & Hu & H). apply rassert_inv, bool_decide_eq_true_1 in Hu. injection H as ->.
  rewrite Hu in Hs. exists e1. split.
  - exact (sem_open_existing 20480 O_CREAT 1 sem_env e1 [97] 0 (mkSem 1 ∅ (Some 4096) true) 4096 H1 Hs eq_refl eq_refl eq_refl).
  - exact (sem_open_existing 20480 (O_CREAT + O_EXCL) 1 sem_env e1 [97] 0 (mkSem 1 ∅ (Some 4096) true) 4096 H1 Hs eq_refl eq_refl eq_refl).
Defined.
