(* ===== verification/StrToInt.v ===== *)
(** * Numbers in strings ([libc/stdlib.rs])

    [str_to_int_inner_generic], which [strtol], [strtoul], [strtoll], [strtoull],
    [atoi] and [scanf] share: white space, a sign, a base prefix, digits.  The
    characters come from a callback, by index for a string and one after the
    other for a stream; the state of the callback is a parameter.  The source's
    closure returns early when the callback fails or the maximal length is
    reached, and the variables it captured are used either way: [Scan] holds
    them, and a stage that ends the closure gives [inr]. *)

From S2P Require Import Prelude ChunkMap SizeBucketed VMAllocator HeapAllocator GuestMem Env Pthread.

(** ** Characters *)

Definition is_ascii_whitespace (c : Z) : bool :=
  (c =? 32) || (c =? 9) || (c =? 10) || (c =? 12) || (c =? 13).
(** C's notion: with the vertical tab. *)
Definition is_c_space (c : Z) : bool := is_ascii_whitespace c || (c =? 11).

(** [char::to_digit]. *)
Definition to_digit (c : Z) : option Z :=
  if (48 <=? c) && (c <=? 57) then Some (c - 48)
  else if (97 <=? c) && (c <=? 122) then Some (c - 87)
  else if (65 <=? c) && (c <=? 90) then Some (c - 55)
  else None.
(** [char::is_digit(base)], which panics on a base outside 2 to 36. *)
Definition is_digit (c base : Z) : outcome bool :=
  rassert ((2 <=? base) && (base <=? 36));;
  Ret (match to_digit c with Some d => d <? base | None => false end).

(** [from_str_radix] on digits of the base, of which the empty string and numbers
    out of the range of the type are errors. *)
Definition digits_value (base : Z) (chars : list Z) : Z :=
  fold_left (λ acc c, acc * base + default 0 (to_digit c)) chars 0.
Definition from_str_radix (lo hi : Z) (chars : list Z) (base : Z) : option Z :=
  match chars with
  | [] => None
  | _ => let v := digits_value base chars in if (lo <=? v) && (v <=? hi) then Some v else None
  end.

Record Scan := mkScan {
  whitespace_len : Z;
  scan_len : Z;
  scan_sign : option Z;
  prefix_length : Z;
  chars : list Z;
  scan_base : Z
}.
Definition set_len (n : Z) (x : Scan) : Scan := mkScan (whitespace_len x) n (scan_sign x) (prefix_length x) (chars x) (scan_base x).
Definition set_prefix (n : Z) (x : Scan) : Scan := mkScan (whitespace_len x) (scan_len x) (scan_sign x) n (chars x) (scan_base x).
Definition set_sign (c : option Z) (x : Scan) : Scan := mkScan (whitespace_len x) (scan_len x) c (prefix_length x) (chars x) (scan_base x).
Definition set_base (b : Z) (x : Scan) : Scan := mkScan (whitespace_len x) (scan_len x) (scan_sign x) (prefix_length x) (chars x) b.
Definition push_char (c : Z) (x : Scan) : Scan := mkScan (whitespace_len x) (scan_len x) (scan_sign x) (prefix_length x) (chars x ++ [c]) (scan_base x).

Section generic.
Context {S : Type}.
(** [getc_fn]: the character at an index, or the end of input; [ungetc_fn]. *)
Variable getc_fn : Z → S → outcome (option Z * S).
Variable ungetc_fn : Z → S → outcome S.
Variables (offset max_length : Z).

Definition whitespace_body (x : Z * S) : outcome (Z * S + result Z Z * S) :=
  let '(count, s) := x in
  '(c, s) ← getc_fn count s;
  match c with
  | None => n ← u32 (count - offset); Ret (inr (Err n, s))
  | Some c =>
      if is_c_space c then count ← u32 (count + 1); Ret (inl (count, s))
      else s ← ungetc_fn c s; n ← u32 (count - offset); Ret (inr (Ok n, s))
  end.
Definition count_whitespace_generic (s : S) : outcome (result Z Z * S) :=
  loop_end (run_loop 33 whitespace_body (offset, s)).

(** A stage of the closure: it goes on with [inl] and returns with [inr]. *)
Definition stage : Type := outcome (Scan * S + Scan * S).
Definition then_stage (x : stage) (k : Scan → S → stage) : stage :=
  y ← x; match y with inl (v, s) => k v s | inr r => Ret (inr r) end.

(** [getc_fn(env, subject, offset + whitespace_len + len + plus)?]. *)
Definition next_char (v : Scan) (plus : Z) (s : S) (k : Z → S → stage) : stage :=
  i ← u32 (offset + whitespace_len v);
  i ← u32 (i + scan_len v);
  i ← u32 (i + plus);
  '(c, s) ← getc_fn i s;
  match c with Some c => k c s | None => Ret (inr (v, s)) end.

(** [len += 1; if len == max_length { return Ok(()) }]. *)
Definition count_char (v : Scan) (s : S) (k : Scan → S → stage) : stage :=
  n ← u32 (scan_len v + 1);
  let v := set_len n v in
  if n =? max_length then Ret (inr (v, s)) else k v s.

Definition sign_stage (v : Scan) (s : S) : stage :=
  next_char v 0 s (λ maybe_sign s,
    if (maybe_sign =? 43) || (maybe_sign =? 45) then
      p ← u32 (prefix_length v + 1);
      count_char (set_prefix p (set_sign (Some maybe_sign) v)) s (λ v s, Ret (inl (v, s)))
    else s ← ungetc_fn maybe_sign s; Ret (inl (v, s))).

(** Base 0: the base is detected from the prefix. *)
Definition base_stage (v : Scan) (s : S) : stage :=
  if scan_base v =? 0 then
    next_char v 0 s (λ curr s,
      if curr =? 48 then
        next_char v 1 s (λ next s,
          s ← ungetc_fn next s;
          s ← ungetc_fn curr s;
          Ret (inl (set_base (if (next =? 120) || (next =? 88) then 16 else 8) v, s)))
      else s ← ungetc_fn curr s; Ret (inl (set_base 10 v, s)))
  else Ret (inl (v, s)).

Definition prefix_stage (v : Scan) (s : S) : stage :=
  if (scan_base v =? 8) || (scan_base v =? 16) then
    next_char v 0 s (λ curr s,
      if curr =? 48 then
        count_char v s (λ v s,
          p ← u32 (prefix_length v + 1);
          let v := set_prefix p v in
          if scan_base v =? 16 then
            next_char v 0 s (λ next s,
              if (next =? 120) || (next =? 88) then
                count_char v s (λ v s, p ← u32 (prefix_length v + 1); Ret (inl (set_prefix p v, s)))
              else s ← ungetc_fn next s; Ret (inl (v, s)))
          else s ← ungetc_fn curr s; Ret (inl (v, s)))
      else s ← ungetc_fn curr s; Ret (inl (v, s)))
  else Ret (inl (v, s)).

(** The loop over the digits: [curr] is the character just read.  The value of the
    loop is the end of the closure. *)
Definition digits_body (x : Scan * Z * S) : outcome (Scan * Z * S + Scan * S) :=
  let '(v, curr, s) := x in
  d ← is_digit curr (scan_base v);
  if (d : bool) then
    r ← count_char (push_char curr v) s (λ v s, Ret (inl (v, s)));
    match r with
    | inr out => Ret (inr out)
    | inl (v, s) =>
        i ← u32 (offset + whitespace_len v);
        i ← u32 (i + scan_len v);
        '(c, s) ← getc_fn i s;
        match c with Some c => Ret (inl (v, c, s)) | None => Ret (inr (v, s)) end
    end
  else
    s ← ungetc_fn curr s;
    n ← u32 (scan_len v - prefix_length v);
    rassert (Z.of_nat (length (chars v)) =? n);;
    Ret (inr (v, s)).
Definition digits_stage (v : Scan) (s : S) : stage :=
  next_char v 0 s (λ curr s, r ← loop_end (run_loop 33 digits_body (v, curr, s)); Ret (inr r)).

(** The whole closure. *)
Definition scan_number (base : Z) (s : S) : outcome (Scan * S) :=
  '(r, s) ← count_whitespace_generic s;
  let v n := mkScan n 0 None 0 [] base in
  match r with
  | Err count => Ret (v count, s)
  | Ok count =>
      r ← then_stage (sign_stage (v count) s) (λ v s, then_stage (base_stage v s) (λ v s, then_stage (prefix_stage v s) digits_stage));
      match r with inl x | inr x => Ret x end
  end.

Definition str_to_int_inner_generic (base : Z) (from_str_radix_fn : list Z → Z → outcome Z) (negation_fn : Z → outcome Z) (s : S)
    : outcome (result (Z * Z) () * S) :=
  '(v, s) ← scan_number base s;
  rassert ((2 <=? scan_base v) && (scan_base v <=? 36));;
  magnitude_len ← u32 (scan_len v - prefix_length v);
  if 0 <? magnitude_len then
    res ← from_str_radix_fn (chars v) (scan_base v);
    res ← (if bool_decide (scan_sign v = Some 45) then negation_fn res else Ret res);
    n ← u32 (whitespace_len v + scan_len v);
    Ret (Ok (res, n), s)
  else if (scan_base v =? 8) && (0 <? prefix_length v) then
    n ← u32 (whitespace_len v + prefix_length v);
    Ret (Ok (0, n), s)
  else Ret (Err (), s).
End generic.

(** ** The functions of [stdlib.h] *)

Definition I32_MAX : Z := 2147483647.
Definition I32_MIN : Z := -2147483648.
Definition I64_MAX : Z := 9223372036854775807.
Definition I64_MIN : Z := -9223372036854775808.
Definition U32_MAX : Z := U32_MOD - 1.
Definition U64_MAX : Z := U64_MOD - 1.

(** [i64] from a 64-bit pattern. *)
Definition to_i64 (z : Z) : Z := let w := z mod U64_MOD in if w <? 9223372036854775808 then w else w - U64_MOD.

(** Characters of a C string, by index. *)
Definition string_getc (str : Z) (i : Z) (m : Mem) : outcome (option Z * Mem) :=
  p ← ptr_add 1 str i; c ← read_u8 p m; Ret (Some c, m).
Definition string_ungetc (_ : Z) (m : Mem) : outcome Mem := Ret m.

(** The parser on a C string, with the callbacks of the four result types. *)
Definition parse_string (str base : Z) (lo hi : Z) (negation_fn : Z → outcome Z) (m : Mem) : outcome (result (Z * Z) ()) :=
  '(r, _) ← str_to_int_inner_generic (string_getc str) string_ungetc 0 U32_MAX base
              (λ s base, Ret (default hi (from_str_radix lo hi s base))) negation_fn m;
  Ret r.

(** [num.checked_mul(-1).unwrap_or(i32::MIN)]. *)
Definition strtol_negate (num : Z) : outcome Z := Ret (if I32_MIN <? num then - num else I32_MIN).
Definition strtol_inner (str base : Z) (m : Mem) : outcome (result (Z * Z) ()) :=
  parse_string str base I32_MIN I32_MAX strtol_negate m.

(** What follows the parser in each of them: the end pointer, and 0 on an error. *)
Definition finish_parse (str endptr : Z) (r : result (Z * Z) ()) (e : Environment) : outcome (Z * Environment) :=
  match r with
  | Ok (res, len) =>
      if endptr =? 0 then Ret (res, e)
      else p ← ptr_add 1 str len; m ← write_u32 endptr p (mem e); Ret (res, set_mem m e)
  | Err _ =>
      if endptr =? 0 then Ret (0, e) else m ← write_u32 endptr str (mem e); Ret (0, set_mem m e)
  end.

(** [base as u32]. *)
Definition strtol (str endptr base : Z) (e : Environment) : outcome (Z * Environment) :=
  e ← set_errno 0 e;
  r ← strtol_inner str (base mod U32_MOD) (mem e);
  finish_parse str endptr r e.

(** [base.try_into().unwrap()], and [wrapping_neg]. *)
Definition strtoul (str endptr base : Z) (e : Environment) : outcome (Z * Environment) :=
  e ← set_errno 0 e;
  rassert (0 <=? base);;
  r ← parse_string str base 0 U32_MAX (λ num, Ret ((- num) mod U32_MOD)) (mem e);
  finish_parse str endptr r e.
Definition strtoull (str endptr base : Z) (e : Environment) : outcome (Z * Environment) :=
  e ← set_errno 0 e;
  rassert (0 <=? base);;
  r ← parse_string str base 0 U64_MAX (λ num, Ret ((- num) mod U64_MOD)) (mem e);
  finish_parse str endptr r e.
Definition strtoll (str endptr base : Z) (e : Environment) : outcome (Z * Environment) :=
  e ← set_errno 0 e;
  rassert (0 <=? base);;
  r ← parse_string str base I64_MIN I64_MAX (λ num, Ret (to_i64 (- num))) (mem e);
  finish_parse str endptr r e.

Definition atoi (s : Z) (e : Environment) : outcome (Z * Environment) :=
  e ← set_errno 0 e;
  r ← strtol_inner s 10 (mem e);
  Ret (match r with Ok (res, _) => res | Err _ => 0 end, e).
Definition atol (s : Z) (e : Environment) : outcome (Z * Environment) := atoi s e.
