(* ===== verification/StrToIntFacts.v ===== *)
(** * What the number parsers return

    On a string made of white space, an optional sign and digits of a base
    without prefix, [strtol] and its relatives return the number, limited to the
    range of the result type, and the number of characters they used. *)

From S2P Require Import Prelude ChunkMap SizeBucketed VMAllocator HeapAllocator GuestMem Env Pthread GenericChar GenericCharFacts GenericCharWrites CString CStringFacts StrToInt.

(** A digit of the base. *)
Definition digitb (base c : Z) : bool := match to_digit c with Some d => d <? base | None => false end.

Lemma to_digit_range c d : to_digit c = Some d → 0 ≤ d < 36 ∧ 48 ≤ c ≤ 122 ∧ is_c_space c = false ∧ c ≠ 43 ∧ c ≠ 45.
Proof.
  unfold to_digit, is_c_space, is_ascii_whitespace. intros H.
  assert (48 ≤ c ≤ 122 ∧ 0 ≤ d < 36) as [??].
  { destruct (Z.leb_spec 48 c), (Z.leb_spec c 57), (Z.leb_spec 97 c), (Z.leb_spec c 122), (Z.leb_spec 65 c), (Z.leb_spec c 90);
      simpl in H; simplify_eq; lia. }
  split_and!; [lia..| |lia|lia]. rewrite !(proj2 (Z.eqb_neq c _)) by lia. done.
Qed.

Lemma digitb_char base c : digitb base c = true → 48 ≤ c ≤ 122 ∧ is_c_space c = false ∧ c ≠ 43 ∧ c ≠ 45.
Proof. unfold digitb. destruct (to_digit c) eqn:E; [|done]. intros _. by apply to_digit_range in E as [_ ?]. Qed.

Lemma is_digit_eq c base : 2 ≤ base ≤ 36 → is_digit c base = Ret (digitb base c).
Proof. intros Hb. unfold is_digit. by rewrite assert_bind by (rewrite andb_true_iff, !Z.leb_le; lia). Qed.

Lemma digits_value_nonneg base ds :
  0 ≤ base → Forall (λ c, digitb base c = true) ds → 0 ≤ digits_value base ds.
Proof.
  intros Hbase Hds. unfold digits_value. assert (∀ l acc, 0 ≤ acc → Forall (λ c, digitb base c = true) l →
    0 ≤ fold_left (λ acc c, acc * base + default 0 (to_digit c)) l acc) as H; [|by apply H].
  induction l as [|c l IH]; intros acc Hacc Hl; [done|]. apply Forall_cons in Hl as [Hc Hl]. simpl. apply IH; [|done].
  unfold digitb in Hc. destruct (to_digit c) as [d|] eqn:Ed; [|done]. apply to_digit_range in Ed. simpl. nia.
Qed.

Section number_text.
(** Callbacks that give the characters of a string from [start] on, and do not change the state. *)
Context {A : Type} (getc : Z → A → outcome (option Z * A)) (ungetc : Z → A → outcome A) (start : Z) (s : A).
Variables (base : Z) (ws sg ds rest : list Z).
Let str := ws ++ sg ++ ds ++ rest.
Hypotheses (Hgetc : ∀ l1 l2, str = l1 ++ l2 → getc (start + Z.of_nat (length l1)) s = Ret (Some (head0 l2), s))
  (Hungetc : ∀ c, ungetc c s = Ret s) (Hstart : 0 ≤ start) (Hlen : start + Z.of_nat (length str) + 2 < U32_MOD)
  (Hbase : 2 ≤ base ≤ 36) (Hb8 : base ≠ 8) (Hb16 : base ≠ 16)
  (Hws : Forall (λ c, is_c_space c = true) ws) (Hsg : sg = [] ∨ sg = [43] ∨ sg = [45])
  (Hds : Forall (λ c, digitb base c = true) ds) (Hne : ds ≠ []) (Hrest : digitb base (head0 rest) = false).

Lemma str_bound l1 l2 : str = l1 ++ l2 → 0 ≤ Z.of_nat (length l1) ∧ start + Z.of_nat (length l1) + Z.of_nat (length l2) + 2 < U32_MOD.
Proof. intros E. pose proof Hlen as Hb. rewrite E, length_app in Hb. lia. Qed.

(** What follows the white space is not white space. *)
Lemma after_ws : is_c_space (head0 (sg ++ ds ++ rest)) = false.
Proof.
  destruct Hsg as [->|[->| ->]]; [|done..]. destruct ds as [|d ds']; [done|]. simpl.
  apply Forall_cons in Hds as [Hd _]. by apply digitb_char in Hd as (_ & ? & _).
Qed.

Lemma whitespace_iterates l1 l2 :
  ws = l1 ++ l2 →
  iterates (whitespace_body getc ungetc start) (Z.of_nat (length l2) + 1) (start + Z.of_nat (length l1), s)
    (Ret (Ok (Z.of_nat (length ws)), s)).
Proof.
  revert l1. induction l2 as [|c l2 IH]; intros l1 E.
  - rewrite app_nil_r in E. subst l1. apply iterates_stop. unfold whitespace_body.
    mrun (Hgetc ws _ eq_refl). rewrite after_ws, Hungetc, ret_bind.
    pose proof (str_bound ws _ eq_refl). rewrite u32_ok, ret_bind by lia. do 4 f_equal. lia.
  - cbn [length]. rewrite Nat2Z.inj_succ, <- Z.add_1_r. eapply iterates_step; [|apply (IH (l1 ++ [c])); by rewrite <- app_assoc].
    assert (str = l1 ++ c :: l2 ++ sg ++ ds ++ rest) as Es by (unfold str; by rewrite E, <- app_assoc).
    unfold whitespace_body. mrun (Hgetc l1 _ Es). cbn [head0].
    rewrite E in Hws. apply Forall_app in Hws as [_ Hw]. apply Forall_cons in Hw as [-> _].
    pose proof (str_bound _ _ Es) as Hb. cbn [length] in Hb. rewrite u32_ok, ret_bind by lia. by rewrite length_snoc_Z, Z.add_assoc.
Qed.

Lemma count_whitespace_eq : count_whitespace_generic getc ungetc start s = Ret (Ok (Z.of_nat (length ws)), s).
Proof.
  unfold count_whitespace_generic. pose proof (whitespace_iterates [] ws eq_refl) as H. simpl length in H. rewrite Z.add_0_r in H.
  apply (iterates_loop _ _ _ _ _ H). pose proof (str_bound ws _ eq_refl). unfold U32_MOD in *. lia.
Qed.

(** The variables after the sign and [d1] of the digits. *)
Definition scanned (d1 : list Z) : Scan :=
  mkScan (Z.of_nat (length ws)) (Z.of_nat (length sg + length d1)) (head sg) (Z.of_nat (length sg)) d1 base.

Lemma digits_iterates d1 d2 :
  ds = d1 ++ d2 →
  iterates (digits_body getc ungetc start U32_MAX) (Z.of_nat (length d2) + 1)
    (scanned d1, head0 (d2 ++ rest), s) (Ret (scanned ds, s)).
Proof.
  revert d1. induction d2 as [|c d2 IH]; intros d1 E.
  - rewrite app_nil_r in E. subst d1. assert (str = (ws ++ sg ++ ds) ++ rest) as Es by (unfold str; by rewrite <- !app_assoc). apply iterates_stop. unfold digits_body. cbn [app].
    rewrite is_digit_eq, ret_bind by done. cbn [scan_base scanned]. rewrite Hrest, Hungetc, ret_bind.
    pose proof (str_bound _ _ Es) as Hb. rewrite !length_app in Hb. cbn [scan_len prefix_length scanned chars].
    rewrite u32_ok, ret_bind by lia. rewrite assert_bind by (apply Z.eqb_eq; lia). done.
  - cbn [length]. rewrite Nat2Z.inj_succ, <- Z.add_1_r. eapply iterates_step; [|apply (IH (d1 ++ [c])); by rewrite <- app_assoc].
    assert (str = (ws ++ sg ++ d1 ++ [c]) ++ d2 ++ rest) as Es' by (unfold str; rewrite E, <- !app_assoc; done).
    pose proof (str_bound _ _ Es') as Hb. repeat (rewrite length_app in Hb; cbn [length] in Hb).
    unfold digits_body. cbn [app head0]. rewrite is_digit_eq, ret_bind by done. cbn [scan_base scanned].
    assert (digitb base c = true) as ->.
    { rewrite E in Hds. apply Forall_app in Hds as [_ Hd]. by apply Forall_cons in Hd as [? _]. }
    unfold count_char. cbn [scan_len push_char scanned]. rewrite u32_ok, ret_bind by lia.
    unfold U32_MAX. rewrite (proj2 (Z.eqb_neq _ _)) by lia. rewrite ret_bind. cbn [whitespace_len scan_len set_len push_char scanned].
    rewrite u32_ok, ret_bind by lia. rewrite u32_ok, ret_bind by lia.
    replace (start + Z.of_nat (length ws) + (Z.of_nat (length sg + length d1) + 1)) with (start + Z.of_nat (length (ws ++ sg ++ d1 ++ [c])))
      by (rewrite !length_app; simpl; lia).
    mrun (Hgetc _ _ Es'). do 4 f_equal. unfold set_len, push_char, scanned. cbn. f_equal. rewrite length_app. simpl. lia.
Qed.

Lemma scan_number_eq : scan_number getc ungetc start U32_MAX base s = Ret (scanned ds, s).
Proof.
  unfold scan_number. mrun count_whitespace_eq.
  assert (then_stage (sign_stage getc ungetc start U32_MAX (mkScan (Z.of_nat (length ws)) 0 None 0 [] base) s)
    (λ v s, Ret (inl (v, s))) = Ret (inl (scanned [], s))) as Esign.
  { unfold sign_stage, next_char, then_stage. cbn [whitespace_len scan_len prefix_length].
    pose proof (str_bound ws _ eq_refl) as Hb. repeat (rewrite length_app in Hb; cbn [length] in Hb).
    assert (u32 (start + Z.of_nat (length ws)) = Ret (start + Z.of_nat (length ws))) as Eu by (apply u32_ok; lia).
    mrun Eu. do 2 (rewrite (Z.add_0_r (start + Z.of_nat (length ws))); mrun Eu).
    mrun (Hgetc ws _ eq_refl). unfold scanned. rewrite Nat.add_0_r.
    destruct Hsg as [->|[->| ->]].
    - destruct ds as [|d ds']; [done|]. cbn [app head0 length head]. apply Forall_cons in Hds as [Hd _].
      apply digitb_char in Hd as (_ & _ & ? & ?). rewrite !(proj2 (Z.eqb_neq d _)) by done. cbn [orb]. by rewrite Hungetc.
    - cbn [app head0]. unfold count_char. done.
    - cbn [app head0]. unfold count_char. done. }
  unfold then_stage in *. apply bind_ret_inv in Esign as (y & -> & Ey). rewrite ret_bind.
  destruct y as [[v0 s0]|r]; [|done]. injection Ey as -> ->.
  unfold base_stage at 1. cbn [scan_base scanned]. rewrite (proj2 (Z.eqb_neq base 0)) by lia. rewrite ret_bind.
  unfold prefix_stage at 1. cbn [scan_base scanned]. rewrite (proj2 (Z.eqb_neq base 8)), (proj2 (Z.eqb_neq base 16)) by done. cbn [orb].
  rewrite ret_bind. unfold digits_stage, next_char. cbn [whitespace_len scan_len scanned].
  assert (str = (ws ++ sg) ++ ds ++ rest) as Es by (unfold str; by rewrite <- app_assoc).
  pose proof (str_bound _ _ Es) as Hb. repeat (rewrite length_app in Hb; cbn [length] in Hb).
  rewrite Nat.add_0_r, u32_ok, ret_bind by lia. rewrite u32_ok, ret_bind by lia. rewrite Z.add_0_r, u32_ok, ret_bind by lia.
  rewrite <- Z.add_assoc, <- Nat2Z.inj_add, <- length_app. mrun (Hgetc _ _ Es).
  rewrite (iterates_loop _ _ _ _ _ (digits_iterates [] ds eq_refl)), !ret_bind; [done|]. unfold U32_MOD in *. lia.
Qed.

(** The parser with any callbacks for the digits and the sign. *)
Lemma str_to_int_eq from_str neg v :
  from_str ds base = Ret v →
  str_to_int_inner_generic getc ungetc start U32_MAX base from_str neg s =
    (res ← (if bool_decide (sg = [45]) then neg v else Ret v); Ret (Ok (res, Z.of_nat (length (ws ++ sg ++ ds))), s)).
Proof.
  intros Hf. unfold str_to_int_inner_generic. mrun scan_number_eq. cbn [scan_base scanned].
  rewrite assert_bind by (rewrite andb_true_iff, !Z.leb_le; lia). cbn [scan_len prefix_length scanned chars whitespace_len scan_sign].
  assert (str = (ws ++ sg ++ ds) ++ rest) as Es by (unfold str; by rewrite <- !app_assoc).
  pose proof (str_bound _ _ Es) as Hb. repeat (rewrite length_app in Hb; cbn [length] in Hb).
  assert (0 < length ds)%nat by (destruct ds; [done|simpl; lia]).
  set (n := Z.of_nat (length sg + length ds) - Z.of_nat (length sg)). assert (0 < n < U32_MOD) as Hn by (unfold n; lia).
  rewrite (u32_ok n), ret_bind by lia. rewrite (proj2 (Z.ltb_lt 0 n)) by lia. mrun Hf.
  assert (bool_decide (head sg = Some 45) = bool_decide (sg = [45])) as -> by (by destruct Hsg as [->|[->| ->]]).
  destruct (if bool_decide (sg = [45]) then _ else _) as [res|]; [|done]. rewrite !ret_bind.
  rewrite u32_ok, !ret_bind by lia. do 4 f_equal. rewrite !length_app. lia.
Qed.
End number_text.

(** Decimal and other digits within the limits of the type. *)
Lemma from_str_radix_eq base lo hi ds :
  2 ≤ base → Forall (λ c, digitb base c = true) ds → ds ≠ [] → lo ≤ 0 → 0 ≤ hi →
  from_str_radix lo hi ds base = if digits_value base ds <=? hi then Some (digits_value base ds) else None.
Proof.
  intros Hb Hds Hne Hlo Hhi. assert (0 ≤ digits_value base ds) by (apply digits_value_nonneg; [lia|done]).
  unfold from_str_radix. destruct ds as [|d ds']; [done|]. by rewrite (proj2 (Z.leb_le lo _)) by lia.
Qed.

Section string_number.
Variables (m : Mem) (p base : Z) (ws sg ds rest : list Z).
Hypotheses (Hstr : byte_string m p (ws ++ sg ++ ds ++ rest))
  (Hbase : 2 ≤ base ≤ 36) (Hb8 : base ≠ 8) (Hb16 : base ≠ 16)
  (Hws : Forall (λ c, is_c_space c = true) ws) (Hsg : sg = [] ∨ sg = [43] ∨ sg = [45])
  (Hds : Forall (λ c, digitb base c = true) ds) (Hne : ds ≠ []) (Hrest : digitb base (head0 rest) = false).

Lemma string_getc_eq l1 l2 :
  ws ++ sg ++ ds ++ rest = l1 ++ l2 → string_getc p (0 + Z.of_nat (length l1)) m = Ret (Some (head0 l2), m).
Proof.
  intros E. rewrite E in Hstr. pose proof Hstr as (? & Hb & _). rewrite length_app in Hb.
  unfold string_getc. rewrite Z.add_0_l, ptr_add_1, ret_bind by lia. apply byte_string_suffix in Hstr.
  destruct (byte_string_head _ _ _ Hstr) as [-> _]. done.
Qed.

Lemma parse_string_eq lo hi neg :
  lo ≤ 0 → 0 ≤ hi →
  parse_string p base lo hi neg m =
    (res ← (if bool_decide (sg = [45]) then neg (Z.min (digits_value base ds) hi) else Ret (Z.min (digits_value base ds) hi));
     Ret (Ok (res, Z.of_nat (length (ws ++ sg ++ ds))))).
Proof.
  intros Hlo Hhi. pose proof Hstr as (? & ? & _). unfold parse_string.
  rewrite (str_to_int_eq _ _ 0 m base ws sg ds rest string_getc_eq (λ _, eq_refl) ltac:(lia) ltac:(lia) Hbase Hb8 Hb16 Hws Hsg Hds Hne Hrest _ _ (Z.min (digits_value base ds) hi)).
  - by destruct (if bool_decide (sg = [45]) then _ else _).
  - rewrite from_str_radix_eq by (done || lia). destruct (Z.leb_spec (digits_value base ds) hi); simpl; f_equal; lia.
Qed.
End string_number.


(** A memory with a C string at 4096. *)
Definition string_mem (l : list Z) : Mem := set_bytes (store 4096 (l ++ [0]) ∅) empty_mem.

Lemma string_mem_bytes l :
  Forall (λ c, 0 < c < 256) l → Z.of_nat (length l) < 1000000 → byte_string (string_mem l) 4096 l.
Proof.
  intros Hl Hlen. unfold string_mem.
  assert (∀ a, byte_at (set_bytes (store 4096 (l ++ [0]) ∅) empty_mem) a = 
    if decide (4096 ≤ a < 4096 + Z.of_nat (length (l ++ [0]))) then default 0 ((l ++ [0]) !! Z.to_nat (a - 4096)) else 0) as Hb.
  { intros a. etransitivity; [apply (byte_at_store empty_mem 4096 (l ++ [0]) a)|].
    case_decide; [done|]. unfold byte_at. simpl. by rewrite lookup_empty. }
  unfold byte_string. split_and!; [lia|unfold U32_MOD; lia| | |done].
  - intros i c Hi. pose proof (lookup_lt_Some _ _ _ Hi). rewrite Hb, decide_True by (rewrite length_app; simpl; lia).
    replace (Z.to_nat (4096 + Z.of_nat i - 4096)) with i by lia. by rewrite (lookup_app_l_Some _ _ _ _ Hi).
  - rewrite Hb, decide_True by (rewrite length_app; simpl; lia).
    replace (Z.to_nat (4096 + Z.of_nat (length l) - 4096)) with (length l) by lia. by rewrite list_lookup_middle.
Qed.


(** [strtol] does not return [INT_MIN] for its decimal digits: the magnitude is
    limited to [INT_MAX] before the sign is applied. *)
Example strtol_int_min :
  strtol_inner 4096 10 (string_mem [45; 50; 49; 52; 55; 52; 56; 51; 54; 52; 56]) = Ret (Ok (-2147483647, 11)).
Proof. vm_compute. reflexivity. Qed.

(** In base 16 the string "0" is taken for a prefix without digits: no conversion. *)
Example strtol_hex_zero : strtol_inner 4096 16 (string_mem [48]) = Ret (Err ()).
Proof. vm_compute. reflexivity. Qed.

(** In base 8 a sign without digits is converted to 0. *)
Example strtol_octal_sign : strtol_inner 4096 8 (string_mem [45]) = Ret (Ok (0, 1)).
Proof. vm_compute. reflexivity. Qed.

(** With a maximal length of 1, as for the [scanf] conversion "%1x", the input "0" is
    counted as a digit without being stored, and the conversion of the empty
    string of digits is an error, which [scanf] unwraps. *)
Example scanf_width_one_zero :
  str_to_int_inner_generic (string_getc 4096) string_ungetc 0 1 16
    (λ s base, unwrap (from_str_radix 0 U64_MAX s base)) (λ num, Ret ((- num) mod U64_MOD)) (string_mem [48]) = Panic.
Proof. vm_compute. reflexivity. Qed.
