(* ===== verification/Fs.v ===== *)
(** * The guest file system ([fs.rs])

    A tree of nodes that maps guest paths to host files, members of the app's
    archive and bundled resources.  Strings are their bytes.  The host file
    system that the writeable part is backed by is a map from host paths (lists of
    components) to files and directories, with the behaviour of [std::fs] on it; the
    calls that fail there are the ones [handle_open_err] turns into panics. *)

From S2P Require Import Prelude.

Notation str := (list Z) (only parsing).
(** The bytes of a literal. *)
Definition bytes_of (s : string) : str := (λ c, Z.of_nat (Ascii.nat_of_ascii c)) <$> String.list_ascii_of_string s.

Definition SLASH : Z := 47.
Definition DOT : Z := 46.

(** ** The host ([std::fs]) *)

Notation HostPath := (list (list Z)) (only parsing).
Inductive HostNode := HFile (content : list Z) | HDir.
#[global] Instance HostNode_eq_dec : EqDecision HostNode.
Proof. solve_decision. Defined.
Notation Host := (gmap HostPath HostNode) (only parsing).

(** [std::fs::OpenOptions] as far as it is used. *)
Record OpenOptions := mkOpenOptions {
  o_read : bool; o_write : bool; o_append : bool; o_create : bool; o_truncate : bool
}.

(** The combinations [OpenOptions::open] rejects with [InvalidInput]. *)
Definition valid_open_options (o : OpenOptions) : bool :=
  (o_read o || o_write o || o_append o) &&
  (if o_append o then negb (o_truncate o)
   else o_write o || negb (o_create o || o_truncate o)).

(** An open host file: its path, how it was opened, and the cursor. *)
Record HostFile := mkHostFile {
  hf_path : HostPath; hf_options : OpenOptions; hf_pos : Z
}.

Definition parent_exists (p : HostPath) (h : Host) : bool :=
  match last p with
  | None => false
  | Some _ => bool_decide (h !! take (length p - 1) p = Some HDir)
  end.

(** [None] is an I/O error. *)
Definition host_open (o : OpenOptions) (p : HostPath) (h : Host) : option (HostFile * Host) :=
  if negb (valid_open_options o) then None
  else
    match h !! p with
    | Some (HFile c) =>
        Some (mkHostFile p o 0, if o_truncate o then <[p := HFile []]> h else h)
    | Some HDir => if o_write o || o_append o then None else Some (mkHostFile p o 0, h)
    | None =>
        if o_create o && parent_exists p h then Some (mkHostFile p o 0, <[p := HFile []]> h) else None
    end.

Definition host_create_dir (p : HostPath) (h : Host) : option Host :=
  match h !! p with
  | Some _ => None
  | None => if parent_exists p h then Some (<[p := HDir]> h) else None
  end.

Definition host_remove_file (p : HostPath) (h : Host) : option Host :=
  match h !! p with Some (HFile _) => Some (delete p h) | _ => None end.

(** Whether [q] lies in the directory [p]. *)
Definition is_child_of (p q : HostPath) : bool :=
  bool_decide (length q = S (length p)) && bool_decide (take (length p) q = p).

Definition host_remove_dir (p : HostPath) (h : Host) : option Host :=
  match h !! p with
  | Some HDir => if forallb (λ q, negb (is_child_of p q.1)) (map_to_list h)
                 then Some (delete p h) else None
  | _ => None
  end.

(** [fs::rename] of a file onto a path where there is a file. *)
Definition host_rename (p q : HostPath) (h : Host) : option Host :=
  match h !! p, h !! q with
  | Some (HFile c), Some (HFile _) => Some (<[q := HFile c]> (if decide (p = q) then h else delete p h))
  | _, _ => None
  end.

(** [remove_dir_all]; an error leaves the host alone. *)
Definition host_remove_dir_all (p : HostPath) (h : Host) : Host :=
  if bool_decide (h !! p = Some HDir) then filter (λ e, ¬ p `prefix_of` e.1) h else h.

(** [create_dir_all]: the missing directories from the shortest prefix on. *)
Fixpoint host_create_dirs (acc p : HostPath) (h : Host) : option Host :=
  match p with
  | [] => Some h
  | c :: p' =>
      let q := acc ++ [c] in
      match h !! q with
      | Some HDir => host_create_dirs q p' h
      | Some (HFile _) => None
      | None => host_create_dirs q p' (<[q := HDir]> h)
      end
  end.
Definition host_create_dir_all (p : HostPath) (h : Host) : option Host := host_create_dirs [] p h.

(** The length of the longest path. *)
Definition host_depth (h : Host) : nat := map_fold (λ q _ d, (length q `max` d)%nat) 0%nat h.

(** ** Nodes *)

Inductive FileLocation :=
| LPath (p : HostPath)
| IpaFileRef (member : Z)
| ResourceFilePath (name : str).

Inductive FsError :=
| AccessDenied | AlreadyExist | DirectoryNotEmpty | DoesNotExist | IoError | InvalidParentDir
| IsDirectory | NonexistentParentDir | ReadonlyParentDir.

Inductive FsNode :=
| File (location : FileLocation) (writeable : bool)
| Directory (children : gmap str FsNode) (writeable : option HostPath).

Definition FsNode_dir : FsNode := Directory ∅ None.
Definition with_child (name : str) (child n : FsNode) : outcome FsNode :=
  match n with
  | Directory ch w => rassert (bool_decide (ch !! name = None));; Ret (Directory (<[name := child]> ch) w)
  | File _ _ => Panic
  end.
Definition bundle_zip_file (member : Z) : FsNode := File (IpaFileRef member) false.
Definition resource_file (name : str) : FsNode := File (ResourceFilePath name) false.

(** One entry of the host, in the loop of [from_host_dir] over a directory: [sub] is the
    recursive call. *)
Definition add_entry (sub : HostPath → outcome FsNode) (writeable : bool) (p : HostPath)
    (entry : HostPath * HostNode) (children : gmap str FsNode) : outcome (gmap str FsNode) :=
  if negb (is_child_of p entry.1) then Ret children
  else
    name ← unwrap (last entry.1);
    match entry.2 with
    | HFile _ => Ret (<[name := File (LPath entry.1) writeable]> children)
    | HDir => n ← sub entry.1; Ret (<[name := n]> children)
    end.

(** [from_host_dir]: the tree under a host directory, to a depth of [fuel] (one more
    than the longest host path is enough). *)
Fixpoint from_host_dir (fuel : nat) (writeable : bool) (p : HostPath) (h : Host) : outcome FsNode :=
  match fuel with
  | O => Panic
  | S fuel' =>
      children ← for_each (add_entry (λ q, from_host_dir fuel' writeable q h) writeable p) (map_to_list h) ∅;
      Ret (Directory children (if writeable then Some p else None))
  end.

(** ** Paths *)

(** [s.split('/')]. *)
Fixpoint split_slash (s : str) : list str :=
  match s with
  | [] => [[]]
  | c :: s' =>
      match split_slash s' with
      | [] => [[]]
      | w :: ws => if c =? SLASH then [] :: w :: ws else (c :: w) :: ws
      end
  end.

Definition starts_with_slash (s : str) : bool :=
  match s with c :: _ => c =? SLASH | [] => false end.

(** [components.join("/")]. *)
Fixpoint join_slash (l : list str) : str :=
  match l with
  | [] => []
  | [w] => w
  | w :: ws => w ++ SLASH :: join_slash ws
  end.

Definition GuestPath_join (p q : str) : str := p ++ SLASH :: q.

(** [s.rsplit_once('/')]. *)
Fixpoint rsplit_slash (s : str) : option (str * str) :=
  match s with
  | [] => None
  | c :: s' =>
      match rsplit_slash s' with
      | Some (a, b) => Some (c :: a, b)
      | None => if c =? SLASH then Some ([], s') else None
      end
  end.

Definition parent_and_file_name (s : str) : outcome (option (str * str)) :=
  rassert (negb (bool_decide (last s = Some SLASH)));;
  Ret (rsplit_slash s).

Definition apply_path_component (components : list str) (component : str) : list str :=
  if decide (component = []) then components
  else if decide (component = [DOT]) then components
  else if decide (component = [DOT; DOT]) then take (length components - 1) components
  else components ++ [component].

Definition resolve_path (path : str) (relative_to : option str) : outcome (list str) :=
  components ← (if negb (starts_with_slash path) then
                  r ← unwrap relative_to;
                  rassert (starts_with_slash r);;
                  Ret (foldl apply_path_component [] (split_slash r))
                else Ret []);
  Ret (foldl apply_path_component components (split_slash path)).

(** ** The file system *)

Record Fs := mkFs {
  root : FsNode;
  working_directory : str;
  home_directory : str
}.
Definition set_root (n : FsNode) (fs : Fs) : Fs := mkFs n (working_directory fs) (home_directory fs).

Record GuestOpenOptions := mkGuestOpenOptions {
  g_read : bool; g_write : bool; g_append : bool; g_create : bool; g_truncate : bool; g_exclusive : bool
}.
(** The options of [write]: [write().create().truncate()]. *)
Definition write_create_truncate : GuestOpenOptions := mkGuestOpenOptions false true false true true false.

Inductive GuestFile :=
| GDirectory
| GFile (f : HostFile)
| IpaBundleFile (member : Z)
| ResourceFile (name : str)
| Socket.

Fixpoint lookup_node_inner (n : FsNode) (components : list str) : option FsNode :=
  match components with
  | [] => Some n
  | c :: cs =>
      match n with
      | Directory children _ => match children !! c with Some m => lookup_node_inner m cs | None => None end
      | File _ _ => None
      end
  end.

Definition resolve (path : str) (fs : Fs) : outcome (list str) :=
  resolve_path path (Some (working_directory fs)).
Definition lookup_node (path : str) (fs : Fs) : outcome (option FsNode) :=
  cs ← resolve path fs;
  Ret (lookup_node_inner (root fs) cs).

(** [lookup_parent_node]: the parent, its path, and the final component. *)
Definition lookup_parent_node (path : str) (fs : Fs) : outcome (option (FsNode * list str * str)) :=
  cs ← resolve path fs;
  Ret (match last cs with
       | None => None
       | Some final =>
           let parent := take (length cs - 1) cs in
           match lookup_node_inner (root fs) parent with
           | None => None
           | Some n => Some (n, parent, final)
           end
       end).

(** An update of the node at a path, and of one of a directory's children. *)
Fixpoint alter_node (components : list str) (f : FsNode → FsNode) (n : FsNode) : FsNode :=
  match components with
  | [] => f n
  | c :: cs =>
      match n with
      | Directory children w => Directory (alter (alter_node cs f) c children) w
      | File _ _ => n
      end
  end.
Definition put_child (name : str) (child : option FsNode) (n : FsNode) : FsNode :=
  match n with
  | Directory children w => Directory (partial_alter (λ _, child) name children) w
  | File _ _ => n
  end.
Definition set_child (parent : list str) (name : str) (child : option FsNode) (fs : Fs) : Fs :=
  set_root (alter_node parent (put_child name child) (root fs)) fs.

(** ** Construction *)

Definition DYLIBS_DIR : str := bytes_of "touchHLE_dylibs".
Definition FAKE_UUID : str := bytes_of "00000000-0000-0000-0000-000000000000".
Definition APPLICATIONS : str := bytes_of "/var/mobile/Applications".

(** The bundled libraries: name in the guest, file among the resources. *)
Definition dylibs : list (str * str) :=
  (λ p, (bytes_of p.1, bytes_of p.2)) <$>
  [("libgcc_s.1.dylib", "libgcc_s.1.dylib"); ("libstdc++.6.dylib", "libstdc++.6.0.9.dylib");
   ("libstdc++.6.0.9.dylib", "libstdc++.6.0.9.dylib"); ("libz.1.2.3.dylib", "libz.1.2.3.dylib");
   ("libz.1.dylib", "libz.1.2.3.dylib"); ("libz.dylib", "libz.1.2.3.dylib"); ("libz.1.1.3.dylib", "libz.1.2.3.dylib");
   ("libsqlite3.dylib", "libsqlite3.dylib"); ("libsqlite3.0.dylib", "libsqlite3.dylib");
   ("libxml2.2.dylib", "libxml2.2.dylib"); ("libxml2.dylib", "libxml2.2.dylib"); ("libxml2.2.7.8.dylib", "libxml2.2.dylib")]%string.

Definition usr_lib : outcome FsNode :=
  for_each (λ p n, with_child p.1 (resource_file (DYLIBS_DIR ++ SLASH :: p.2)) n) dylibs FsNode_dir.

Definition tmp_dir : str := bytes_of "tmp".
Definition directories : list str := [bytes_of "Documents"; bytes_of "Library"; tmp_dir].

(** Prepare one directory of the sandbox on the host. *)
Definition prepare_directory (sandbox : HostPath) (dir : str) (h : Host) : outcome Host :=
  let path := sandbox ++ [dir] in
  let h := if decide (dir = tmp_dir) then host_remove_dir_all path h else h in
  unwrap (host_create_dir_all path h).

(** Scan one directory of the sandbox into the children of the home directory. *)
Definition scan_directory (sandbox : HostPath) (h : Host) (dir : str) (children : gmap str FsNode)
    : outcome (gmap str FsNode) :=
  n ← from_host_dir (S (host_depth h)) true (sandbox ++ [dir]) h;
  Ret (<[dir := n]> children).

(** The root node: the home directory under [/var], the libraries under [/usr]. *)
Definition new_root (app_dir_children : gmap str FsNode) (lib : FsNode) : outcome FsNode :=
  apps ← with_child FAKE_UUID (Directory app_dir_children None) FsNode_dir;
  mobile ← with_child (bytes_of "Applications") apps FsNode_dir;
  var ← with_child (bytes_of "mobile") mobile FsNode_dir;
  r ← with_child (bytes_of "var") var FsNode_dir;
  usr ← with_child (bytes_of "lib") lib FsNode_dir;
  with_child (bytes_of "usr") usr r.

(** [Fs::new]: [app_bundle] is the bundle's tree ([into_fs_node]), [sandbox] the host
    directory for the app ([user_data_base_path()/SANDBOX_DIR/bundle_id]). *)
Definition Fs_new (app_bundle : FsNode) (bundle_dir_name : str) (sandbox : HostPath) (read_only_mode : bool)
    (h : Host) : outcome (Fs * str * Host) :=
  let home := GuestPath_join APPLICATIONS FAKE_UUID in
  let bundle_guest_path := GuestPath_join home bundle_dir_name in
  h ← (if read_only_mode then Ret h
       else
         h ← for_each (prepare_directory sandbox) directories h;
         unwrap (host_create_dir_all (sandbox ++ [bytes_of "Library"; bytes_of "Preferences"]) h));
  lib ← usr_lib;
  app_dir_children ←
    (if read_only_mode then Ret {[bundle_dir_name := app_bundle]}
     else for_each (scan_directory sandbox h) directories {[bundle_dir_name := app_bundle]});
  r ← new_root app_dir_children lib;
  let fs := mkFs r bundle_guest_path home in
  n ← lookup_node bundle_guest_path fs;
  rassert (bool_decide (is_Some n));;
  Ret (fs, bundle_guest_path, h).

Definition change_working_directory (new_path : str) (fs : Fs) : outcome (result str unit * Fs) :=
  resolved ← resolve new_path fs;
  match lookup_node_inner (root fs) resolved with
  | Some (Directory _ _) =>
      let p := match resolved with [] => [SLASH] | _ => concat (map (cons SLASH) resolved) end in
      Ret (Ok p, mkFs (root fs) p (home_directory fs))
  | _ => Ret (Err (), fs)
  end.

Definition fs_exists (path : str) (fs : Fs) : outcome bool :=
  n ← lookup_node path fs; Ret (match n with Some _ => true | None => false end).

Definition access (path : str) (fs : Fs) : outcome (bool * bool * bool * bool) :=
  n ← lookup_node path fs;
  Ret (match n with
       | None => (false, false, false, false)
       | Some (File _ writeable) => (true, true, writeable, false)
       | Some (Directory _ writeable) => (true, true, bool_decide (is_Some writeable), true)
       end).

Definition is_file (path : str) (fs : Fs) : outcome bool :=
  n ← lookup_node path fs; Ret (match n with Some (File _ _) => true | _ => false end).
Definition is_dir (path : str) (fs : Fs) : outcome bool :=
  n ← lookup_node path fs; Ret (match n with Some (Directory _ _) => true | _ => false end).

Definition fs_enumerate (path : str) (fs : Fs) : outcome (result (list str) unit) :=
  n ← lookup_node path fs;
  Ret (match n with Some (Directory children _) => Ok (map_to_list children).*1 | _ => Err () end).

(** [handle_open_err]. *)
Definition handle_open_err {A} (r : option A) : outcome A := unwrap r.

(** [open] (read-only). *)
Definition fs_open (path : str) (fs : Fs) (h : Host) : outcome (result GuestFile unit) :=
  n ← lookup_node path fs;
  match n with
  | None => Ret (Err ())
  | Some (File (LPath p) _) =>
      '(f, _) ← handle_open_err (host_open (mkOpenOptions true false false false false) p h);
      Ret (Ok (GFile f))
  | Some (File (IpaFileRef m) _) => Ret (Ok (IpaBundleFile m))
  | Some (File (ResourceFilePath name) _) => Ret (Ok (ResourceFile name))
  | Some (Directory _ _) => Ret (Err ())
  end.

Definition host_options (o : GuestOpenOptions) (create : bool) : OpenOptions :=
  mkOpenOptions (g_read o) (g_write o) (g_append o) create (g_truncate o).

(** No path separator in a file name ([std::path::is_separator] on Unix). *)
Definition check_name (name : str) : outcome unit :=
  rassert (negb (existsb (Z.eqb SLASH) name)).

Definition open_existing (o : GuestOpenOptions) (node : FsNode) (fs : Fs) (h : Host)
    : outcome (result GuestFile FsError * Fs * Host) :=
  match node with
  | File location writeable =>
      if negb writeable && (g_append o || g_write o) then Ret (Err AccessDenied, fs, h)
      else
        match location with
        | LPath p =>
            '(f, h') ← handle_open_err (host_open (host_options o false) p h);
            Ret (Ok (GFile f), fs, h')
        | IpaFileRef m =>
            rassert (negb (writeable || g_append o || g_write o));;
            Ret (Ok (IpaBundleFile m), fs, h)
        | ResourceFilePath name =>
            rassert (negb (writeable || g_append o || g_write o));;
            Ret (Ok (ResourceFile name), fs, h)
        end
  | Directory _ _ => if g_write o then Ret (Err IsDirectory, fs, h) else Ret (Ok GDirectory, fs, h)
  end.

Definition open_with_options (path : str) (o : GuestOpenOptions) (fs : Fs) (h : Host)
    : outcome (result GuestFile FsError * Fs * Host) :=
  rassert ((negb (g_truncate o) && negb (g_create o)) || g_write o || g_append o);;
  pn ← lookup_parent_node path fs;
  match pn with
  | None => Ret (Err DoesNotExist, fs, h)
  | Some (File _ _, _, _) => Ret (Err NonexistentParentDir, fs, h)
  | Some (Directory children dir_host_path, parent, new_filename) =>
      match children !! new_filename with
      | Some existing_file =>
          if g_create o && g_exclusive o then Ret (Err AlreadyExist, fs, h)
          else open_existing o existing_file fs h
      | None =>
          if negb (g_create o) then Ret (Err DoesNotExist, fs, h)
          else
            match dir_host_path with
            | None => Ret (Err AccessDenied, fs, h)
            | Some d =>
                check_name new_filename;;
                let host_path := d ++ [new_filename] in
                '(f, h') ← handle_open_err (host_open (host_options o (g_create o)) host_path h);
                Ret (Ok (GFile f), set_child parent new_filename (Some (File (LPath host_path) true)) fs, h')
            end
      end
  end.

Definition remove (path : str) (fs : Fs) (h : Host) : outcome (result unit FsError * Fs * Host) :=
  pn ← lookup_parent_node path fs;
  match pn with
  | None => Ret (Err NonexistentParentDir, fs, h)
  | Some (File _ _, _, _) => Ret (Err InvalidParentDir, fs, h)
  | Some (Directory children dir_writeable, parent, node_name) =>
      if negb (bool_decide (is_Some dir_writeable)) then Ret (Err ReadonlyParentDir, fs, h)
      else
        match children !! node_name with
        | None => Ret (Err DoesNotExist, fs, h)
        | Some (File location writeable) =>
            if negb writeable then Ret (Err AccessDenied, fs, h)
            else
              match location with
              | LPath p =>
                  h' ← handle_open_err (host_remove_file p h);
                  Ret (Ok (), set_child parent node_name None fs, h')
              | _ => Panic
              end
        | Some (Directory children' writeable) =>
            if negb (bool_decide (children' = ∅)) then Ret (Err DirectoryNotEmpty, fs, h)
            else
              match writeable with
              | None => Ret (Err AccessDenied, fs, h)
              | Some p =>
                  h' ← handle_open_err (host_remove_dir p h);
                  Ret (Ok (), set_child parent node_name None fs, h')
              end
        end
  end.

Definition create_dir (path : str) (fs : Fs) (h : Host) : outcome (result unit FsError * Fs * Host) :=
  pn ← lookup_parent_node path fs;
  match pn with
  | None => Ret (Err NonexistentParentDir, fs, h)
  | Some (File _ _, _, _) => Ret (Err InvalidParentDir, fs, h)
  | Some (Directory children dir_host_path, parent, new_dir_name) =>
      if bool_decide (is_Some (children !! new_dir_name)) then Ret (Err AlreadyExist, fs, h)
      else
        match dir_host_path with
        | None => Ret (Err ReadonlyParentDir, fs, h)
        | Some d =>
            check_name new_dir_name;;
            let host_path := d ++ [new_dir_name] in
            h' ← handle_open_err (host_create_dir host_path h);
            Ret (Ok (), set_child parent new_dir_name (Some (Directory ∅ (Some host_path))) fs, h')
        end
  end.

(** The loop of [create_dir_all]: [done] are the components already handled. *)
Fixpoint create_dirs (done components : list str) (fs : Fs) (h : Host)
    : outcome (result unit FsError * Fs * Host) :=
  match components with
  | [] => Ret (Ok (), fs, h)
  | c :: cs =>
      '(res, fs', h') ← create_dir (join_slash ([] :: done ++ [c])) fs h;
      match res with
      | Ok _ | Err AlreadyExist => create_dirs (done ++ [c]) cs fs' h'
      | _ => Ret (res, fs', h')
      end
  end.

Definition create_dir_all (path : str) (fs : Fs) (h : Host) : outcome (result unit FsError * Fs * Host) :=
  rassert (starts_with_slash path);;
  components ← resolve_path path None;
  create_dirs [] components fs h.

(** The second half of [rename]: the target exists. *)
Definition rename_onto (from_host_path : HostPath) (from to : str) (fs : Fs) (h : Host)
    : outcome (result unit FsError * Fs * Host) :=
  t ← lookup_node to fs;
  to_node ← unwrap t;
  match to_node with
  | Directory _ _ => Ret (Err IsDirectory, fs, h)
  | File (LPath to_host_path) to_writeable =>
      rassert to_writeable;;
      match host_rename from_host_path to_host_path h with
      | None => Ret (Err IoError, fs, h)
      | Some h' =>
          pn ← lookup_parent_node from fs;
          '(n, parent, component) ← unwrap pn;
          match n with
          | Directory children _ =>
              _ ← unwrap (children !! component);
              Ret (Ok (), set_child parent component None fs, h')
          | File _ _ => Panic
          end
      end
  | File _ _ => Ret (Err AccessDenied, fs, h)
  end.

Definition rename (from to : str) (fs : Fs) (h : Host) : outcome (result unit FsError * Fs * Host) :=
  from_node ← lookup_node from fs;
  match from_node with
  | None => Ret (Err DoesNotExist, fs, h)
  | Some (Directory _ _) => Panic
  | Some (File (LPath from_host_path) from_writeable) =>
      rassert from_writeable;;
      t ← lookup_node to fs;
      match t with
      | Some _ => rename_onto from_host_path from to fs h
      | None =>
          '(created, fs, h) ← open_with_options to write_create_truncate fs h;
          match created with
          | Err e => Ret (Err e, fs, h)
          | Ok _ => rename_onto from_host_path from to fs h
          end
      end
  | Some (File _ _) => Ret (Err IsDirectory, fs, h)
  end.
