(* ===== verification/FsFacts.v ===== *)
(** * Correctness of the guest file system

    Path resolution, and the invariant that ties the writeable part of the guest
    tree to the sandbox directory of the host: the two mirror each other, every
    operation keeps them so, never fails on the host and never touches a host path
    outside the sandbox. *)

From S2P Require Import Prelude Fs.

(** ** Paths *)

(** A component that names an entry of a directory. *)
Definition normal (c : str) : Prop :=
  c ≠ [] ∧ c ≠ [DOT] ∧ c ≠ [DOT; DOT] ∧ SLASH ∉ c.
#[global] Instance normal_dec c : Decision (normal c).
Proof. unfold normal. apply _. Defined.

Lemma split_slash_no_slash s : Forall (λ w, SLASH ∉ w) (split_slash s).
Proof.
  induction s as [|c s IH]; simpl; [constructor; [apply not_elem_of_nil|constructor]|].
  destruct (split_slash s) as [|w ws]; [constructor; [apply not_elem_of_nil|constructor]|].
  apply Forall_cons in IH as [Hw Hws].
  destruct (Z.eqb_spec c SLASH); repeat constructor; auto using not_elem_of_nil.
  apply not_elem_of_cons. auto.
Qed.

Lemma apply_path_component_normal cs c :
  Forall normal cs → SLASH ∉ c → Forall normal (apply_path_component cs c).
Proof.
  intros Hcs Hc. unfold apply_path_component. repeat case_decide; [done|done|by apply Forall_take|].
  apply Forall_app. split; [done|]. constructor; [|constructor]. by split_and!.
Qed.

Lemma resolve_fold_normal ws cs :
  Forall normal cs → Forall (λ w, SLASH ∉ w) ws → Forall normal (foldl apply_path_component cs ws).
Proof.
  intros Hcs Hws. revert cs Hcs. induction Hws as [|w ws Hw Hws IH]; intros cs Hcs; simpl; [done|].
  apply IH. by apply apply_path_component_normal.
Qed.

Lemma resolve_path_spec path rel cs : resolve_path path rel = Ret cs → Forall normal cs.
Proof.
  unfold resolve_path. intros H. apply bind_ret_inv in H as (start & Hs & H). injection H as <-.
  apply resolve_fold_normal; [|apply split_slash_no_slash].
  destruct (negb _); [|by injection Hs as <-].
  apply bind_ret_inv in Hs as (r & _ & Hs). apply bind_ret_inv in Hs as (u & _ & Hs). injection Hs as <-.
  apply resolve_fold_normal; [constructor|apply split_slash_no_slash].
Qed.

Lemma split_slash_nonempty s : split_slash s ≠ [].
Proof. destruct s as [|c s]; simpl; [done|]. destruct (split_slash s); [done|]. by destruct (_ =? _). Qed.

Lemma split_slash_plain w : SLASH ∉ w → split_slash w = [w].
Proof.
  induction w as [|c w IH]; intros Hw; simpl; [done|]. apply not_elem_of_cons in Hw as [Hc Hw].
  rewrite IH by done. destruct (Z.eqb_spec c SLASH); [congruence|done].
Qed.

Lemma split_slash_app w s : SLASH ∉ w → split_slash (w ++ SLASH :: s) = w :: split_slash s.
Proof.
  induction w as [|c w IH]; intros Hw; simpl.
  - pose proof (split_slash_nonempty s). by destruct (split_slash s).
  - apply not_elem_of_cons in Hw as [Hc Hw]. rewrite IH by done.
    destruct (Z.eqb_spec c SLASH); [congruence|done].
Qed.

(** Joining and splitting. *)
Lemma split_join ws : ws ≠ [] → Forall (λ w, SLASH ∉ w) ws → split_slash (join_slash ws) = ws.
Proof.
  intros Hne Hws. induction Hws as [|w ws Hw Hws IH]; [done|]. destruct ws as [|w' ws].
  - by apply split_slash_plain.
  - change (join_slash (w :: w' :: ws)) with (w ++ SLASH :: join_slash (w' :: ws)).
    by rewrite split_slash_app, IH.
Qed.

Lemma normal_no_slash cs : Forall normal cs → Forall (λ w, SLASH ∉ w) cs.
Proof. intros H. eapply Forall_impl; [exact H|]. by intros c (_ & _ & _ & ?). Qed.

Lemma resolve_fold_id ws cs : Forall normal ws → foldl apply_path_component cs ws = cs ++ ws.
Proof.
  intros Hws. revert cs. induction Hws as [|w ws (H1 & H2 & H3 & _) Hws IH]; intros cs; simpl; [by rewrite app_nil_r|].
  rewrite IH. unfold apply_path_component. rewrite !decide_False by done. by rewrite <- app_assoc.
Qed.

Lemma resolve_absolute cs rel : cs ≠ [] → Forall normal cs → resolve_path (join_slash ([] :: cs)) rel = Ret cs.
Proof.
  intros Hne Hcs. destruct cs as [|c cs]; [done|]. unfold resolve_path.
  rewrite split_join; [|done|constructor; [apply not_elem_of_nil|by apply normal_no_slash]].
  simpl. f_equal. exact (resolve_fold_id (c :: cs) [] Hcs).
Qed.

(** ** Trees *)

(** What a path leads to, without what is below it. *)
Inductive node_view := VFile (location : FileLocation) (writeable : bool) | VDir (writeable : option HostPath).
Definition view (n : FsNode) : node_view :=
  match n with File l w => VFile l w | Directory _ w => VDir w end.
Definition view_at (n : FsNode) (cs : list str) : option node_view := view <$> lookup_node_inner n cs.

Lemma lookup_node_app n p q :
  lookup_node_inner n (p ++ q) = lookup_node_inner n p ≫= λ m, lookup_node_inner m q.
Proof.
  revert n. induction p as [|c p IH]; intros n; simpl; [done|].
  destruct n as [l w|ch w]; [done|]. destruct (ch !! c); [apply IH|done].
Qed.

(** Everything below [p] is replaced by [child], and nothing else changes. *)
Lemma view_at_put n p c child ch w cs :
  lookup_node_inner n p = Some (Directory ch w) →
  (∀ m r, child = Some m → r ≠ [] → lookup_node_inner m r = None) →
  view_at (alter_node p (put_child c child) n) cs =
    if decide (cs = p ++ [c]) then view <$> child
    else if decide (p ++ [c] `prefix_of` cs) then None
    else view_at n cs.
Proof.
  revert n cs. induction p as [|a p IH]; intros n cs Hn Hleaf; unfold view_at in *;
    cbn [lookup_node_inner alter_node app] in *.
  - injection Hn as ->. cbn [put_child]. destruct cs as [|d cs]; cbn [lookup_node_inner].
    { rewrite decide_False by done. rewrite decide_False by (by intros ?%prefix_nil_inv). done. }
    destruct (decide (d = c)) as [->|Hne].
    + rewrite lookup_partial_alter_eq. destruct cs as [|x cs].
      * rewrite decide_True by done. by destruct child.
      * rewrite decide_False by done. rewrite decide_True by (apply prefix_cons, prefix_nil).
        destruct child as [m|]; [|done]. by rewrite (Hleaf m (x :: cs)).
    + rewrite lookup_partial_alter_ne by done. rewrite decide_False by congruence.
      rewrite decide_False; [done|]. by intros ?%prefix_cons_inv_1.
  - destruct n as [l w'|ch0 w']; [done|]. destruct (ch0 !! a) as [m|] eqn:Ha; [|done].
    destruct cs as [|d cs]; cbn [lookup_node_inner].
    { rewrite decide_False by done. rewrite decide_False by (by intros ?%prefix_nil_inv). done. }
    destruct (decide (d = a)) as [->|Hne].
    + rewrite lookup_alter_eq, Ha. cbn [fmap option_fmap option_map]. rewrite (IH m cs Hn Hleaf).
      destruct (decide (cs = p ++ [c])) as [->|H1]; [by rewrite decide_True|].
      rewrite (decide_False (P := a :: cs = _)) by congruence.
      destruct (decide (p ++ [c] `prefix_of` cs)) as [Hp|Hp].
      * by rewrite decide_True by (by apply prefix_cons).
      * by rewrite decide_False by (by intros ?%prefix_cons_inv_2).
    + rewrite lookup_alter_ne by done. rewrite decide_False by congruence.
      rewrite decide_False; [done|]. by intros ?%prefix_cons_inv_1.
Qed.

(** ** The sandbox *)

Section sandbox.
(** The host directory of the app's sandbox, the guest path of the home directory,
    and the directories of it that are writeable. *)
Context (sb : HostPath) (home : list str) (dirs : list str).

(** The host path behind a guest path in the writeable part. *)
Definition host_of (cs : list str) : option HostPath :=
  if decide (take (length home) cs = home) then
    match drop (length home) cs with
    | d :: rest => if decide (d ∈ dirs) then Some (sb ++ d :: rest) else None
    | [] => None
    end
  else None.

Lemma host_of_Some cs p :
  host_of cs = Some p ↔ ∃ d rest, d ∈ dirs ∧ cs = home ++ d :: rest ∧ p = sb ++ d :: rest.
Proof.
  unfold host_of. split.
  - destruct (decide _) as [Ht|]; [|done]. destruct (drop _ cs) as [|d rest] eqn:Ed; [done|].
    destruct (decide (d ∈ dirs)); [|done]. intros [= <-]. exists d, rest. split_and!; [done| |done].
    rewrite <- Ht, <- Ed. by rewrite take_drop.
  - intros (d & rest & Hd & -> & ->). rewrite decide_True by (by rewrite take_app_length).
    by rewrite drop_app_length, decide_True.
Qed.

Lemma host_of_inj cs cs' p : host_of cs = Some p → host_of cs' = Some p → cs = cs'.
Proof. intros (d & r & _ & -> & ->)%host_of_Some (d' & r' & _ & -> & E)%host_of_Some. by simplify_list_eq. Qed.

Lemma host_of_app cs p r : host_of cs = Some p → host_of (cs ++ r) = Some (p ++ r).
Proof.
  intros (d & rest & ? & -> & ->)%host_of_Some. apply host_of_Some. exists d, (rest ++ r).
  split_and!; [done|by rewrite <- app_assoc|by rewrite <- app_assoc].
Qed.

Lemma host_of_sandbox cs p : host_of cs = Some p → sb `prefix_of` p.
Proof. intros (d & rest & _ & _ & ->)%host_of_Some. by exists (d :: rest). Qed.

(** The writeable part of the guest tree and the host sandbox mirror each other;
    everything else is read-only, and host files it refers to are outside. *)
Definition mirror (n : FsNode) (h : Host) : Prop := ∀ cs,
  match host_of cs, view_at n cs with
  | Some p, Some (VFile l w) => l = LPath p ∧ w = true ∧ ∃ c, h !! p = Some (HFile c)
  | Some p, Some (VDir w) => w = Some p ∧ h !! p = Some HDir
  | Some p, None => h !! p = None
  | None, Some (VFile l w) => w = false ∧
      match l with LPath q => ¬ sb `prefix_of` q ∧ ∃ c, h !! q = Some (HFile c) | _ => True end
  | None, Some (VDir w) => w = None
  | None, None => True
  end.

(** Nothing outside the sandbox changes on the host, and no guest path outside the
    writeable directories changes. *)
Definition confined (s s' : FsNode * Host) : Prop :=
  (∀ p, ¬ sb `prefix_of` p → s'.2 !! p = s.2 !! p) ∧
  (∀ cs, host_of cs = None → view_at s'.1 cs = view_at s.1 cs).

#[global] Instance confined_preorder : PreOrder confined.
Proof.
  split; [by split|]. intros s1 s2 s3 [H1 K1] [H2 K2].
  split; [intros p Hp; by rewrite H2, H1|intros cs Hcs; by rewrite K2, K1].
Qed.

(** A child of a writeable directory is added, replaced or removed on both sides. *)
Definition matches (q : HostPath) (child : option FsNode) (entry : option HostNode) : Prop :=
  match child, entry with
  | Some (File l w), Some (HFile _) => l = LPath q ∧ w = true
  | Some (Directory ch w), Some HDir => ch = ∅ ∧ w = Some q
  | None, None => True
  | _, _ => False
  end.

Lemma mirror_put_at n h p c ch w q child entry :
  mirror n h → lookup_node_inner n p = Some (Directory ch w) → host_of (p ++ [c]) = Some q →
  (∀ r, r ≠ [] → view_at n (p ++ [c] ++ r) = None) →
  matches q child entry →
  mirror (alter_node p (put_child c child) n) (partial_alter (λ _, entry) q h) ∧
  confined (n, h) (alter_node p (put_child c child) n, partial_alter (λ _, entry) q h).
Proof.
  intros Hm Hp Hq Hbelow Hmatch.
  pose proof (host_of_sandbox _ _ Hq) as Hsb.
  assert (∀ x, ¬ sb `prefix_of` x → q ≠ x) as Hout by (by intros x ? <-).
  assert (∀ m r, child = Some m → r ≠ [] → lookup_node_inner m r = None) as Hleaf.
  { intros m r -> Hr. destruct m as [l wm|ch' wm]; destruct r as [|x r]; try done. simpl.
    destruct entry as [[]|]; try done. destruct Hmatch as [-> _]. by rewrite lookup_empty. }
  split.
  2:{ split; [intros x Hx; simpl; rewrite lookup_partial_alter_ne; auto|]. intros cs Hcs. simpl.
      rewrite (view_at_put _ _ _ _ _ _ _ Hp Hleaf). rewrite !decide_False; [done|..].
      - intros [r ->]. by rewrite (host_of_app _ _ _ Hq) in Hcs.
      - intros ->. by rewrite Hq in Hcs. }
  intros cs. rewrite (view_at_put _ _ _ _ _ _ _ Hp Hleaf).
  destruct (decide (cs = p ++ [c])) as [->|Hne].
  - rewrite Hq, lookup_partial_alter_eq. destruct child as [[l wc|ch' wc]|], entry as [[]|]; simpl in *; try done.
    + destruct Hmatch as [-> ->]. eauto.
    + by destruct Hmatch as [_ ->].
  - destruct (decide (p ++ [c] `prefix_of` cs)) as [[r ->]|Hnp].
    + rewrite (host_of_app _ _ _ Hq). specialize (Hm ((p ++ [c]) ++ r)). rewrite (host_of_app _ _ _ Hq) in Hm.
      assert (r ≠ []) as Hr by (intros ->; by rewrite app_nil_r in Hne).
      rewrite <- (app_assoc p), (Hbelow r Hr) in Hm. rewrite lookup_partial_alter_ne; [done|].
      intros E. apply Hr. rewrite <- (app_nil_r q) in E at 1. by apply app_inv_head in E.
    + specialize (Hm cs). destruct (host_of cs) as [x|] eqn:Hx.
      * rewrite lookup_partial_alter_ne; [done|]. intros <-. apply Hne. by eapply host_of_inj.
      * destruct (view_at n cs) as [[l wv|wv]|]; [|done..]. destruct Hm as [-> Hl]. split; [done|].
        destruct l; [|done..]. destruct Hl as [Ho Hc]. split; [done|]. rewrite lookup_partial_alter_ne; auto.
Qed.

Lemma mirror_put n h p c ch d child entry :
  mirror n h → lookup_node_inner n p = Some (Directory ch (Some d)) →
  (∀ r, r ≠ [] → view_at n (p ++ [c] ++ r) = None) →
  matches (d ++ [c]) child entry →
  mirror (alter_node p (put_child c child) n) (partial_alter (λ _, entry) (d ++ [c]) h) ∧
  confined (n, h) (alter_node p (put_child c child) n, partial_alter (λ _, entry) (d ++ [c]) h).
Proof.
  intros Hm Hp. eapply mirror_put_at; [done..|]. apply host_of_app.
  specialize (Hm p). unfold view_at in Hm. rewrite Hp in Hm. simpl in Hm.
  destruct (host_of p); [|done]. by destruct Hm as [[= ->] _].
Qed.

(** ** The operations *)

Definition fs_wf (fs : Fs) : Prop := starts_with_slash (working_directory fs) = true.

(** The operation returns, keeps the mirror and stays inside the sandbox. *)
Definition op_ok {A : Type} (fs : Fs) (h : Host) (x : outcome (A * Fs * Host)) : Prop :=
  ∃ r fs' h', x = Ret (r, fs', h') ∧ mirror (root fs') h' ∧ confined (root fs, h) (root fs', h') ∧
    working_directory fs' = working_directory fs.

Lemma op_same {A : Type} fs h (r : A) : mirror (root fs) h → op_ok fs h (Ret (r, fs, h)).
Proof. intros. exists r, fs, h. by split_and!. Qed.

Lemma resolve_total path fs : fs_wf fs → ∃ cs, resolve path fs = Ret cs ∧ Forall normal cs.
Proof.
  intros Hwf. unfold resolve. assert (∃ cs, resolve_path path (Some (working_directory fs)) = Ret cs) as [cs E].
  { unfold resolve_path. destruct (negb _); simpl; [rewrite Hwf; simpl|]; by eexists. }
  exists cs. split; [done|]. by eapply resolve_path_spec.
Qed.

(** The cases of [lookup_parent_node]. *)
Lemma lookup_parent_cases path fs : fs_wf fs →
  lookup_parent_node path fs = Ret None ∨
  ∃ n p c, lookup_parent_node path fs = Ret (Some (n, p, c)) ∧ resolve path fs = Ret (p ++ [c]) ∧
    lookup_node_inner (root fs) p = Some n ∧ normal c.
Proof.
  intros Hwf. destruct (resolve_total path fs Hwf) as (cs & Hcs & Hn). unfold lookup_parent_node. rewrite Hcs. simpl.
  destruct cs as [|c p _] using rev_ind; [by left|]. rewrite last_snoc. simpl.
  rewrite length_app. simpl. replace (length p + 1 - 1)%nat with (length p) by lia. rewrite take_app_length.
  destruct (lookup_node_inner (root fs) p) as [n|] eqn:E; [|by left].
  apply Forall_app in Hn as [_ [Hc _]%Forall_cons]. right. by exists n, p, c.
Qed.

Lemma view_at_child n p c ch w :
  lookup_node_inner n p = Some (Directory ch w) → view_at n (p ++ [c]) = view <$> ch !! c.
Proof.
  intros Hp. unfold view_at. rewrite lookup_node_app, Hp. simpl. by destruct (ch !! c).
Qed.

Lemma view_at_below n p c ch w r :
  lookup_node_inner n p = Some (Directory ch w) → (∀ m, ch !! c = Some m → view_at m r = None) →
  view_at n (p ++ [c] ++ r) = None.
Proof.
  intros Hp Hb. unfold view_at in *. rewrite lookup_node_app, Hp. simpl.
  destruct (ch !! c); [by apply Hb|done].
Qed.

(** A writeable directory exists on the host, and its entries are its children. *)
Lemma mirror_dir n h p ch d :
  mirror n h → lookup_node_inner n p = Some (Directory ch (Some d)) →
  host_of p = Some d ∧ h !! d = Some HDir ∧
  ∀ c, match ch !! c with
       | None => h !! (d ++ [c]) = None
       | Some (File l w) => l = LPath (d ++ [c]) ∧ w = true ∧ ∃ x, h !! (d ++ [c]) = Some (HFile x)
       | Some (Directory _ w) => w = Some (d ++ [c]) ∧ h !! (d ++ [c]) = Some HDir
       end.
Proof.
  intros Hm Hp. pose proof (Hm p) as Hd. unfold view_at in Hd. rewrite Hp in Hd. simpl in Hd.
  destruct (host_of p) as [d'|] eqn:E; [|done]. destruct Hd as [[= <-] Hd]. split_and!; [done..|].
  intros c. pose proof (Hm (p ++ [c])) as Hc. rewrite (host_of_app _ _ _ E), (view_at_child _ _ _ _ _ Hp) in Hc.
  by destruct (ch !! c) as [[]|].
Qed.

Lemma check_name_normal c : normal c → check_name c = Ret ().
Proof.
  intros (_ & _ & _ & Hc). unfold check_name. destruct (existsb _ c) eqn:E; [|done].
  apply existsb_exists in E as (x & Hx & Heq%Z.eqb_eq). subst x. exfalso. apply Hc. by apply list_elem_of_In.
Qed.

Lemma parent_exists_child d c h : h !! d = Some HDir → parent_exists (d ++ [c]) h = true.
Proof.
  intros Hd. unfold parent_exists. rewrite last_snoc, length_app. simpl.
  replace (length d + 1 - 1)%nat with (length d) by lia. rewrite take_app_length. by apply bool_decide_eq_true_2.
Qed.

Lemma create_dir_ok path fs h : fs_wf fs → mirror (root fs) h → op_ok fs h (create_dir path fs h).
Proof.
  intros Hwf Hm. unfold create_dir.
  destruct (lookup_parent_cases path fs Hwf) as [-> | (n & p & c & -> & _ & Hp & Hc)]; simpl; [by apply op_same|].
  destruct n as [l w|ch w]; [by apply op_same|]. destruct (ch !! c) as [m|] eqn:Ech; simpl; [by apply op_same|].
  destruct w as [d|]; [|by apply op_same]. rewrite check_name_normal by done. simpl.
  destruct (mirror_dir _ _ _ _ _ Hm Hp) as (_ & Hd & Hch). specialize (Hch c). rewrite Ech in Hch.
  unfold host_create_dir. rewrite Hch, parent_exists_child by done. simpl.
  destruct (mirror_put _ _ p c ch d (Some (Directory ∅ (Some (d ++ [c])))) (Some HDir) Hm Hp) as [Hm' Hconf].
  { intros r Hr. eapply view_at_below; [done|]. by rewrite Ech. }
  { done. }
  eexists _, _, _. split; [done|]. by split_and!.
Qed.

(** A directory that is empty in the guest tree is empty on the host. *)
Lemma host_remove_dir_empty n h cs d :
  mirror n h → lookup_node_inner n cs = Some (Directory ∅ (Some d)) →
  host_remove_dir d h = Some (delete d h).
Proof.
  intros Hm Hn. destruct (mirror_dir _ _ _ _ _ Hm Hn) as (_ & Hd & Hch).
  unfold host_remove_dir. rewrite Hd. rewrite (proj2 (forallb_forall _ _)); [done|].
  intros [q e] Hq%list_elem_of_In%elem_of_map_to_list. apply negb_true_iff. unfold is_child_of. simpl.
  destruct (decide (length q = S (length d))) as [Hl|]; [|by rewrite bool_decide_eq_false_2].
  destruct (decide (take (length d) q = d)) as [Ht|]; [|by rewrite (bool_decide_eq_false_2 (take _ _ = _)), andb_false_r].
  exfalso. assert (∃ x, q = d ++ [x]) as [x ->].
  { rewrite <- (take_drop (length d) q), Ht. destruct (drop _ q) as [|x [|]] eqn:Ed; [|by exists x|];
      apply (f_equal length) in Ed; rewrite length_drop in Ed; simpl in Ed; lia. }
  specialize (Hch x). rewrite lookup_empty in Hch. congruence.
Qed.

Lemma remove_ok path fs h : fs_wf fs → mirror (root fs) h → op_ok fs h (remove path fs h).
Proof.
  intros Hwf Hm. unfold remove.
  destruct (lookup_parent_cases path fs Hwf) as [-> | (n & p & c & -> & _ & Hp & Hc)]; simpl; [by apply op_same|].
  destruct n as [l w|ch [d|]]; simpl; [by apply op_same| |by apply op_same].
  destruct (mirror_dir _ _ _ _ _ Hm Hp) as (Hod & Hd & Hch). pose proof (Hch c) as Hcc.
  destruct (ch !! c) as [[l w|ch' w]|] eqn:Ech; simpl; [| |by apply op_same].
  - destruct Hcc as (-> & -> & x & Hx). simpl. unfold host_remove_file. rewrite Hx. simpl.
    destruct (mirror_put _ _ p c ch d None None Hm Hp) as [Hm' Hconf].
    { intros [|y r] Hr; [done|]. eapply view_at_below; [done|]. rewrite Ech. by intros m [= <-]. }
    { done. }
    eexists _, _, _. split; [done|]. by split_and!.
  - destruct (decide (ch' = ∅)) as [->|Hne]; [|rewrite bool_decide_eq_false_2 by done; by apply op_same].
    rewrite bool_decide_eq_true_2 by done. simpl. destruct Hcc as (-> & Hx). simpl.
    rewrite (host_remove_dir_empty (root fs) h (p ++ [c])); [|done|by rewrite lookup_node_app, Hp; simpl; rewrite Ech].
    simpl. destruct (mirror_put _ _ p c ch d None None Hm Hp) as [Hm' Hconf].
    { intros [|y r] Hr; [done|]. eapply view_at_below; [done|]. rewrite Ech. intros m [= <-]. unfold view_at. simpl.
      by rewrite lookup_empty. }
    { done. }
    eexists _, _, _. split; [done|]. by split_and!.
Qed.

(** The content of files does not matter to the mirror. *)
Lemma mirror_content n h q c c' :
  mirror n h → h !! q = Some (HFile c) → sb `prefix_of` q →
  mirror n (<[q := HFile c']> h) ∧ confined (n, h) (n, <[q := HFile c']> h).
Proof.
  intros Hm Hq Hsb. assert (∀ x, ¬ sb `prefix_of` x → q ≠ x) as Hout by (by intros x ? <-).
  split; [|split; [intros x Hx; simpl; rewrite lookup_insert_ne; auto|done]].
  intros cs. specialize (Hm cs). destruct (host_of cs) as [x|], (view_at n cs) as [[l w|w]|]; try done.
  - destruct Hm as (-> & -> & y & Hy). split_and!; [done..|].
    destruct (decide (q = x)) as [->|]; [rewrite lookup_insert_eq|rewrite lookup_insert_ne by done]; eauto.
  - destruct Hm as (-> & Hy). split; [done|]. rewrite lookup_insert_ne; [done|]. congruence.
  - rewrite lookup_insert_ne; [done|]. congruence.
  - destruct Hm as [-> Hl]. split; [done|]. destruct l; [|done..]. destruct Hl as [? [y Hy]]. split; [done|].
    rewrite lookup_insert_ne by auto. eauto.
Qed.

(** The options a caller may pass: some access, and no truncating append. *)
Definition options_ok (o : GuestOpenOptions) : Prop :=
  g_read o || g_write o || g_append o = true ∧ g_append o && g_truncate o = false ∧
  (negb (g_truncate o) && negb (g_create o)) || g_write o || g_append o = true.

Lemma options_valid o create :
  options_ok o → (create = true → g_create o = true) → valid_open_options (host_options o create) = true.
Proof.
  intros (H1 & H2 & H3) H4. unfold valid_open_options, host_options. simpl. rewrite H1. simpl.
  destruct o as [r w a c t x], create; simpl in *; destruct a, t, w, c; try done; by specialize (H4 eq_refl).
Qed.

Lemma open_existing_ok o cs m fs h :
  options_ok o → mirror (root fs) h → view_at (root fs) cs = Some (view m) → op_ok fs h (open_existing o m fs h).
Proof.
  intros Ho Hm Hv. specialize (Hm cs) as Hcs. rewrite Hv in Hcs. unfold open_existing.
  destruct m as [l w|ch w]; simpl in *; [|destruct (g_write o); by apply op_same].
  destruct (negb w && _) eqn:Ew; [by apply op_same|].
  destruct (host_of cs) as [q|] eqn:Eq.
  - destruct Hcs as (-> & -> & c & Hc). unfold handle_open_err, host_open. rewrite options_valid, Hc by done. simpl.
    eexists _, _, _. split; [done|]. destruct (g_truncate o); [|by split_and!].
    destruct (mirror_content _ _ _ _ [] Hm Hc) as [??]; [by eapply host_of_sandbox|]. by split_and!.
  - destruct Hcs as (-> & Hl). simpl in Ew. apply orb_false_iff in Ew as [Ea Ewr]. rewrite Ea, Ewr. simpl.
    destruct l as [q| |]; [|by apply op_same..]. destruct Hl as (_ & c & Hc).
    unfold handle_open_err, host_open. rewrite options_valid, Hc by done. simpl.
    destruct Ho as (_ & _ & Ho). rewrite Ea, Ewr, !orb_false_r in Ho. apply andb_true_iff in Ho as [Ht _].
    apply negb_true_iff in Ht. rewrite Ht. by apply op_same.
Qed.

Lemma open_with_options_ok path o fs h :
  fs_wf fs → options_ok o → mirror (root fs) h → op_ok fs h (open_with_options path o fs h).
Proof.
  intros Hwf Ho Hm. unfold open_with_options. rewrite (proj2 (proj2 Ho)). simpl.
  destruct (lookup_parent_cases path fs Hwf) as [-> | (n & p & c & -> & _ & Hp & Hc)]; simpl; [by apply op_same|].
  destruct n as [l w|ch w]; [by apply op_same|]. destruct (ch !! c) as [m|] eqn:Ech.
  { destruct (g_create o && _); [by apply op_same|]. apply (open_existing_ok o (p ++ [c])); [done|done|].
    rewrite (view_at_child _ _ _ _ _ Hp). by rewrite Ech. }
  destruct (g_create o) eqn:Ec; simpl; [|by apply op_same]. destruct w as [d|]; [|by apply op_same].
  rewrite check_name_normal by done. simpl.
  destruct (mirror_dir _ _ _ _ _ Hm Hp) as (_ & Hd & Hch). specialize (Hch c). rewrite Ech in Hch.
  unfold handle_open_err, host_open. rewrite options_valid, Hch, parent_exists_child by done. simpl.
  destruct (mirror_put _ _ p c ch d (Some (File (LPath (d ++ [c])) true)) (Some (HFile [])) Hm Hp) as [Hm' Hconf].
  { intros r Hr. eapply view_at_below; [done|]. by rewrite Ech. }
  { done. }
  eexists _, _, _. split; [done|]. by split_and!.
Qed.

Lemma create_dirs_ok cs acc fs h : fs_wf fs → mirror (root fs) h → op_ok fs h (create_dirs acc cs fs h).
Proof.
  revert acc fs h. induction cs as [|c cs IH]; intros acc fs h Hwf Hm; [by apply op_same|].
  cbn [create_dirs]. destruct (create_dir_ok (join_slash ([] :: acc ++ [c])) fs h Hwf Hm) as (r & fs1 & h1 & -> & Hm1 & Hc1 & Hw1).
  cbn [mbind outcome_bind]. assert (fs_wf fs1) as Hwf1 by (unfold fs_wf; by rewrite Hw1).
  destruct (IH (acc ++ [c]) fs1 h1 Hwf1 Hm1) as (r2 & fs2 & h2 & E2 & Hm2 & Hc2 & Hw2).
  assert (op_ok fs h (create_dirs (acc ++ [c]) cs fs1 h1)) as Hgo.
  { exists r2, fs2, h2. split_and!; [done|done|by etrans|congruence]. }
  assert (∀ x : result unit FsError, op_ok fs h (Ret (x, fs1, h1))) as Hstop.
  { intros x. exists x, fs1, h1. by split_and!. }
  by destruct r as [u|[]].
Qed.

Lemma create_dir_all_ok path fs h :
  fs_wf fs → mirror (root fs) h → starts_with_slash path = true → op_ok fs h (create_dir_all path fs h).
Proof.
  intros Hwf Hm Hs. unfold create_dir_all, resolve_path. rewrite Hs. simpl. by apply create_dirs_ok.
Qed.

(** ** Renaming *)

Lemma lookup_node_eq path fs cs : resolve path fs = Ret cs → lookup_node path fs = Ret (lookup_node_inner (root fs) cs).
Proof. unfold lookup_node. by intros ->. Qed.

Lemma lookup_parent_eq path fs p c :
  resolve path fs = Ret (p ++ [c]) →
  lookup_parent_node path fs = Ret ((λ n, (n, p, c)) <$> lookup_node_inner (root fs) p).
Proof.
  unfold lookup_parent_node. intros ->. simpl. rewrite last_snoc, length_app. simpl.
  replace (length p + 1 - 1)%nat with (length p) by lia. rewrite take_app_length.
  by destruct (lookup_node_inner (root fs) p).
Qed.

(** A file has a parent directory that lists it. *)
Lemma file_parent n cs l w :
  view_at n cs = Some (VFile l w) → cs ≠ [] → ∃ p c ch v, cs = p ++ [c] ∧
    lookup_node_inner n p = Some (Directory ch v) ∧ ch !! c = Some (File l w).
Proof.
  intros Hv Hne. destruct cs as [|c p _] using rev_ind; [done|].
  unfold view_at in Hv. rewrite lookup_node_app in Hv.
  destruct (lookup_node_inner n p) as [[l' w'|ch v]|] eqn:E; [done| |done].
  simpl in Hv. destruct (ch !! c) as [m|] eqn:Ec; [|done]. simpl in Hv. exists p, c, ch, v.
  split_and!; [done..|]. destruct m; simpl in Hv; congruence.
Qed.

Lemma host_of_nil : host_of [] = None.
Proof. destruct (host_of []) as [p|] eqn:E; [|done]. apply host_of_Some in E as (d & r & _ & E & _). by destruct home. Qed.

(** A file that may be written is in the sandbox. *)
Lemma writeable_in_sandbox n h cs l :
  mirror n h → view_at n cs = Some (VFile l true) →
  ∃ p, host_of cs = Some p ∧ l = LPath p ∧ ∃ c, h !! p = Some (HFile c).
Proof.
  intros Hm Hv. specialize (Hm cs). rewrite Hv in Hm. destruct (host_of cs) as [p|]; [|by destruct Hm].
  destruct Hm as (-> & _ & ?). eauto.
Qed.

(** The parent of a sandbox path that exists is a writeable directory. *)
Lemma file_removed n h cs p c :
  mirror n h → host_of cs = Some p → view_at n cs = Some (VFile (LPath p) true) → h !! p = Some (HFile c) →
  ∃ q x ch v, cs = q ++ [x] ∧ lookup_node_inner n q = Some (Directory ch v) ∧
    ch !! x = Some (File (LPath p) true) ∧
    mirror (alter_node q (put_child x None) n) (delete p h) ∧
    confined (n, h) (alter_node q (put_child x None) n, delete p h).
Proof.
  intros Hm Hp Hv Hc. destruct (file_parent _ _ _ _ Hv) as (q & x & ch & v & -> & Hq & Hx).
  { intros ->. by rewrite host_of_nil in Hp. }
  exists q, x, ch, v. split_and!; [done..| |].
  all: eapply (mirror_put_at n h q x ch v p None None); [done..| |done].
  all: intros [|y r] Hr; [done|]; eapply view_at_below; [done|]; rewrite Hx; by intros m [= <-].
Qed.

Lemma rename_onto_ok fp from to fs h cf ct :
  fs_wf fs → mirror (root fs) h → resolve from fs = Ret cf → resolve to fs = Ret ct → cf ≠ ct →
  view_at (root fs) cf = Some (VFile (LPath fp) true) → is_Some (view_at (root fs) ct) →
  (∀ q w, view_at (root fs) ct = Some (VFile (LPath q) w) → w = true) →
  op_ok fs h (rename_onto fp from to fs h).
Proof.
  intros Hwf Hm Hf Ht Hne Hvf [vt Hvt] Hw. unfold rename_onto. rewrite (lookup_node_eq _ _ _ Ht). simpl.
  unfold view_at in Hvt. destruct (lookup_node_inner (root fs) ct) as [tn|] eqn:Et; [|done]. simpl in Hvt |- *.
  destruct tn as [[q| |] w|]; [|by apply op_same..].
  assert (w = true) as ->. { apply (Hw q). unfold view_at. by rewrite Et. }
  destruct (writeable_in_sandbox _ _ ct (LPath q) Hm) as (q' & Hq & [= <-] & cq & Hcq); [unfold view_at; by rewrite Et|].
  destruct (writeable_in_sandbox _ _ _ _ Hm Hvf) as (fp' & Hfp & [= <-] & cf' & Hcf). simpl.
  assert (fp ≠ q) as Hfq by (intros ->; apply Hne; by eapply host_of_inj).
  unfold host_rename. rewrite Hcf, Hcq, decide_False by done.
  destruct (file_removed _ _ _ _ _ Hm Hfp Hvf Hcf) as (p & c & ch & v & -> & Hp & Hc & Hm' & Hconf).
  rewrite (lookup_parent_eq _ _ _ _ Hf), Hp. simpl. rewrite Hc. simpl.
  destruct (mirror_content (alter_node p (put_child c None) (root fs)) (delete fp h) q cq cf' Hm') as [Hm'' Hconf'].
  { by rewrite lookup_delete_ne. }
  { by eapply host_of_sandbox. }
  eexists _, _, _. split; [done|]. split_and!; [done|by etrans|done].
Qed.

(** The parent is not a writeable directory. *)
Definition not_creatable (fs : Fs) (cs : list str) : Prop :=
  ∀ p c d, cs = p ++ [c] → view_at (root fs) p ≠ Some (VDir (Some d)).

(** Opening a file that does not exist, to write it: it is created where its
    directory is writeable, and no other path changes. *)
Lemma open_create_spec path fs h cs :
  fs_wf fs → mirror (root fs) h → resolve path fs = Ret cs → view_at (root fs) cs = None →
  (∃ e, open_with_options path write_create_truncate fs h = Ret (Err e, fs, h) ∧ not_creatable fs cs) ∨
  ∃ f fs' h' q, open_with_options path write_create_truncate fs h = Ret (Ok f, fs', h') ∧
    mirror (root fs') h' ∧ confined (root fs, h) (root fs', h') ∧ working_directory fs' = working_directory fs ∧
    host_of cs = Some q ∧ h !! q = None ∧ h' = <[q := HFile []]> h ∧
    ∀ x, view_at (root fs') x = if decide (x = cs) then Some (VFile (LPath q) true) else view_at (root fs) x.
Proof.
  intros Hwf Hm Hcs Hv. destruct cs as [|c p _] using rev_ind; [done|].
  unfold open_with_options, not_creatable. rewrite (lookup_parent_eq _ _ _ _ Hcs). simpl.
  assert (∀ o, view <$> lookup_node_inner (root fs) p = o → (∀ d, o ≠ Some (VDir (Some d))) →
    ∀ p' c' d, p ++ [c] = p' ++ [c'] → view_at (root fs) p' ≠ Some (VDir (Some d))) as Hnot.
  { intros o Ho Hd p' c' d [<- _]%app_inj_tail. unfold view_at. by rewrite Ho. }
  destruct (lookup_node_inner (root fs) p) as [n|] eqn:Hp; simpl; [|left; eexists; split; [done|exact (Hnot None eq_refl ltac:(done))]].
  destruct n as [l w|ch w]; [left; eexists; split; [done|exact (Hnot (Some (VFile l w)) eq_refl ltac:(done))]|].
  rewrite (view_at_child _ _ _ _ _ Hp) in Hv. apply fmap_None in Hv. rewrite Hv.
  destruct w as [d|]; [|left; eexists; split; [done|exact (Hnot (Some (VDir None)) eq_refl ltac:(done))]]. right.
  assert (normal c) as Hc by (apply resolve_path_spec, Forall_app in Hcs as [_ [Hc _]%Forall_cons]; done).
  rewrite check_name_normal by done. simpl.
  destruct (mirror_dir _ _ _ _ _ Hm Hp) as (Hod & Hd & Hch). specialize (Hch c). rewrite Hv in Hch.
  unfold handle_open_err, host_open. cbn [valid_open_options host_options o_read o_write o_append o_create o_truncate].
  rewrite Hch, parent_exists_child by done. simpl.
  assert (∀ r, r ≠ [] → view_at (root fs) (p ++ [c] ++ r) = None) as Hb.
  { intros r Hr. eapply view_at_below; [done|]. by rewrite Hv. }
  destruct (mirror_put _ _ p c ch d (Some (File (LPath (d ++ [c])) true)) (Some (HFile [])) Hm Hp Hb) as [Hm' Hconf]; [done|].
  eexists _, _, _, (d ++ [c]). split; [done|]. split_and!; [done..|by apply host_of_app|done|done|].
  intros x. unfold set_child, set_root. cbn [root].
  rewrite (view_at_put _ _ _ _ _ _ _ Hp) by (intros m [|y r] [= <-] ?; done).
  destruct (decide (x = p ++ [c])); [done|]. destruct (decide _) as [[r ->]|]; [|done].
  rewrite <- app_assoc, Hb; [done|]. intros ->. by rewrite app_nil_r in *.
Qed.

Lemma rename_ok from to fs h cf ct :
  fs_wf fs → mirror (root fs) h → resolve from fs = Ret cf → resolve to fs = Ret ct → cf ≠ ct →
  (∀ w, view_at (root fs) cf ≠ Some (VDir w)) →
  (∀ q w, view_at (root fs) cf = Some (VFile (LPath q) w) → w = true) →
  (∀ q w, view_at (root fs) ct = Some (VFile (LPath q) w) → w = true) →
  op_ok fs h (rename from to fs h).
Proof.
  intros Hwf Hm Hf Ht Hne Hnd Hwf' Hwt. unfold rename. rewrite (lookup_node_eq _ _ _ Hf), (lookup_node_eq _ _ _ Ht).
  cbn [mbind outcome_bind]. unfold view_at in Hnd, Hwf'.
  destruct (lookup_node_inner (root fs) cf) as [[[fp| |] w|ch w]|] eqn:Ef; simpl in Hnd, Hwf'; [|by apply op_same..| |by apply op_same].
  2:{ by specialize (Hnd w). }
  rewrite (Hwf' fp w eq_refl) in *. simpl. assert (view_at (root fs) cf = Some (VFile (LPath fp) true)) as Hvf.
  { unfold view_at. by rewrite Ef. }
  destruct (lookup_node_inner (root fs) ct) as [tn|] eqn:Et.
  { apply (rename_onto_ok fp from to fs h cf ct); try done. unfold view_at. rewrite Et. by eexists. }
  destruct (open_create_spec to fs h ct Hwf Hm Ht) as [(e & -> & _)|(f & fs1 & h1 & q & -> & Hm1 & Hc1 & Hw1 & Hq & _ & _ & Hv1)];
    [unfold view_at; by rewrite Et|by apply op_same|]. simpl.
  destruct (rename_onto_ok fp from to fs1 h1 cf ct) as (r & fs2 & h2 & -> & Hm2 & Hc2 & Hw2).
  - unfold fs_wf. by rewrite Hw1.
  - done.
  - unfold resolve. by rewrite Hw1.
  - unfold resolve. by rewrite Hw1.
  - done.
  - by rewrite Hv1, decide_False.
  - rewrite Hv1, decide_True by done. by eexists.
  - intros q' w'. rewrite Hv1, decide_True by done. by intros [= _ <-].
  - exists r, fs2, h2. split_and!; [done|done|by etrans|congruence].
Qed.

(** A call of [rename] that returns did not meet a directory or a read-only host file. *)
Lemma rename_returns from to fs h x cf ct :
  rename from to fs h = Ret x → resolve from fs = Ret cf → resolve to fs = Ret ct →
  (x.1.2 = fs ∧ x.2 = h) ∨
  ((∀ w, view_at (root fs) cf ≠ Some (VDir w)) ∧
   (∀ q w, view_at (root fs) cf = Some (VFile (LPath q) w) → w = true) ∧
   (∀ q w, view_at (root fs) ct = Some (VFile (LPath q) w) → w = true)).
Proof.
  unfold rename, view_at. intros H Hf Ht. rewrite (lookup_node_eq _ _ _ Hf), (lookup_node_eq _ _ _ Ht) in H.
  cbn [mbind outcome_bind] in H.
  destruct (lookup_node_inner (root fs) cf) as [[[fp| |] w|ch w]|]; [|left; by injection H as <-..|done|left; by injection H as <-].
  apply bind_ret_inv in H as (u & Hu & H). apply rassert_inv in Hu as ->. simpl. right.
  split_and!; [done|by intros q w [= _ <-]|]. intros q w. destruct (lookup_node_inner (root fs) ct) as [tn|] eqn:Et; [|done].
  simpl. destruct tn as [l w'|]; [|done]. intros [= -> ->]. unfold rename_onto in H.
  rewrite (lookup_node_eq _ _ _ Ht), Et in H. cbn [mbind outcome_bind unwrap] in H.
  apply bind_ret_inv in H as (u' & Hu' & _). by apply rassert_inv in Hu'.
Qed.

(** ** Runs *)

(** The operations the guest can reach, as steps of the file system and the host. *)
Inductive fs_step : Fs * Host → Fs * Host → Prop :=
| fstep_open path o fs h r fs' h' :
    options_ok o → open_with_options path o fs h = Ret (r, fs', h') → fs_step (fs, h) (fs', h')
| fstep_remove path fs h r fs' h' : remove path fs h = Ret (r, fs', h') → fs_step (fs, h) (fs', h')
| fstep_create_dir path fs h r fs' h' : create_dir path fs h = Ret (r, fs', h') → fs_step (fs, h) (fs', h')
| fstep_create_dir_all path fs h r fs' h' :
    create_dir_all path fs h = Ret (r, fs', h') → fs_step (fs, h) (fs', h')
| fstep_rename from to fs h r fs' h' cf ct :
    resolve from fs = Ret cf → resolve to fs = Ret ct → cf ≠ ct →
    rename from to fs h = Ret (r, fs', h') → fs_step (fs, h) (fs', h')
| fstep_chdir path fs h r fs' : change_working_directory path fs = Ret (r, fs') → fs_step (fs, h) (fs', h).

Lemma op_ok_inv {A : Type} (fs : Fs) (h : Host) (x : outcome (A * Fs * Host)) (r : A) (fs' : Fs) (h' : Host) :
  op_ok fs h x → x = Ret (r, fs', h') →
  mirror (root fs') h' ∧ confined (root fs, h) (root fs', h') ∧ working_directory fs' = working_directory fs.
Proof. intros (r1 & fs1 & h1 & -> & ?) [= -> -> ->]. done. Qed.

Lemma change_working_directory_spec path fs r fs' :
  fs_wf fs → change_working_directory path fs = Ret (r, fs') → fs_wf fs' ∧ root fs' = root fs.
Proof.
  intros Hwf. unfold change_working_directory. destruct (resolve_total path fs Hwf) as (cs & -> & _). simpl.
  destruct (lookup_node_inner (root fs) cs) as [[]|]; intros [= <- <-]; [done| |done].
  split; [|done]. by destruct cs.
Qed.

Lemma fs_step_ok fs h fs' h' :
  fs_step (fs, h) (fs', h') → fs_wf fs → mirror (root fs) h →
  fs_wf fs' ∧ mirror (root fs') h' ∧ confined (root fs, h) (root fs', h').
Proof.
  intros Hs Hwf Hm. assert (∀ A (x : outcome (A * Fs * Host)) r, op_ok fs h x → x = Ret (r, fs', h') →
    fs_wf fs' ∧ mirror (root fs') h' ∧ confined (root fs, h) (root fs', h')) as Hok.
  { intros A x r Hx E. destruct (op_ok_inv _ _ _ _ _ _ Hx E) as (? & ? & Hw). split_and!; [|done..].
    unfold fs_wf. by rewrite Hw. }
  inversion Hs as [path o ? ? r ? ? Ho H|path ? ? r ? ? H|path ? ? r ? ? H|path ? ? r ? ? H
    |from to ? ? r ? ? cf ct Hf Ht Hne H|path ? ? r ? H]; subst.
  - eapply Hok; [|exact H]. by apply open_with_options_ok.
  - eapply Hok; [|exact H]. by apply remove_ok.
  - eapply Hok; [|exact H]. by apply create_dir_ok.
  - eapply Hok; [|exact H]. apply create_dir_all_ok; [done..|].
    unfold create_dir_all in H. apply bind_ret_inv in H as (u & Hu & _). by apply rassert_inv in Hu.
  - destruct (rename_returns _ _ _ _ _ _ _ H Hf Ht) as [[E1 E2]|(H1 & H2 & H3)]; [simpl in E1, E2; subst; by split_and!|].
    eapply Hok; [|exact H]. by eapply rename_ok.
  - apply change_working_directory_spec in H as [? E]; [|done]. rewrite E. by split_and!.
Qed.
End sandbox.
