(* ===== verification/FsRuns.v ===== *)
(** * Runs of the guest file system

    [Fs::new] builds a tree that mirrors the sandbox; from there on every run of the
    operations keeps it so.  Also what the single operations do to the paths the
    guest sees. *)

From S2P Require Import Prelude Fs FsFacts.

(** ** The host directories *)

(** Every entry of the host is in a directory. *)
Definition host_ok (h : Host) : Prop :=
  h !! [] = Some HDir ∧ ∀ p c x, h !! (p ++ [c]) = Some x → h !! p = Some HDir.

(** What [from_host_dir] makes of a host path. *)
Definition host_view (w : bool) (h : Host) (q : HostPath) : option node_view :=
  match h !! q with
  | Some (HFile _) => Some (VFile (LPath q) w)
  | Some HDir => Some (VDir (if w then Some q else None))
  | None => None
  end.

Lemma host_depth_le h q x : h !! q = Some x → (length q ≤ host_depth h)%nat.
Proof.
  revert q x. unfold host_depth. apply (map_fold_weak_ind (λ d h, ∀ q x, h !! q = Some x → (length q ≤ d)%nat)).
  - intros q x. by rewrite lookup_empty.
  - intros i y m r _ IH q x. destruct (decide (i = q)) as [->|Hne]; [lia|].
    rewrite lookup_insert_ne by done. intros H%IH. lia.
Qed.

Lemma is_child_of_true p q : is_child_of p q = true ↔ ∃ c, q = p ++ [c].
Proof.
  unfold is_child_of. rewrite andb_true_iff, !bool_decide_eq_true. split.
  - intros [Hl Ht]. rewrite <- (take_drop (length p) q), Ht. destruct (drop (length p) q) as [|x [|]] eqn:Ed; [|by exists x|];
      apply (f_equal length) in Ed; rewrite length_drop in Ed; simpl in Ed; lia.
  - intros [c ->]. rewrite length_app, take_app_length. simpl. split; [lia|done].
Qed.

Lemma view_at_cons ch w c cs :
  view_at (Directory ch w) (c :: cs) = ch !! c ≫= λ m, view_at m cs.
Proof. unfold view_at. simpl. by destruct (ch !! c). Qed.

(** Nothing of the host is below a path that is not there, or is a file. *)
Lemma host_below h p r : host_ok h → h !! p ≠ Some HDir → r ≠ [] → h !! (p ++ r) = None.
Proof.
  intros [_ Hok] Hp. induction r as [|c r IH] using rev_ind; [done|]. intros _.
  destruct (h !! (p ++ r ++ [c])) as [x|] eqn:E; [|done]. rewrite app_assoc in E. apply Hok in E.
  destruct r as [|d r]; [by rewrite app_nil_r in E|]. by rewrite IH in E.
Qed.

Lemma add_entry_eq sub w p q x ch : add_entry sub w p (q, x) ch =
  if negb (is_child_of p q) then Ret ch
  else unwrap (last q) ≫= λ name, match x with
    | HFile _ => Ret (<[name := File (LPath q) w]> ch)
    | HDir => sub q ≫= λ n, Ret (<[name := n]> ch)
    end.
Proof. done. Qed.

(** The loop over the entries of the host, given what the recursive calls return. *)
Lemma entries_loop (sub : HostPath → outcome FsNode) w p h l ch0 :
  host_ok h →
  (∀ c, h !! (p ++ [c]) = Some HDir →
     ∃ n, sub (p ++ [c]) = Ret n ∧ ∀ cs, view_at n cs = host_view w h ((p ++ [c]) ++ cs)) →
  (∀ e, e ∈ l → h !! e.1 = Some e.2) →
  ∃ ch, for_each (add_entry sub w p) l ch0 = Ret ch ∧
    ∀ c, if decide (p ++ [c] ∈ l.*1)
         then ∃ n, ch !! c = Some n ∧ ∀ cs, view_at n cs = host_view w h ((p ++ [c]) ++ cs)
         else ch !! c = ch0 !! c.
Proof.
  intros Hok Hsub. revert ch0. induction l as [|[q x] l IH]; intros ch0 Hl; cbn [for_each].
  { exists ch0. split; [done|]. intros c. rewrite decide_False; [done|]. apply not_elem_of_nil. }
  pose proof (Hl (q, x) (list_elem_of_here _ _)) as Hqx. simpl in Hqx. rewrite add_entry_eq.
  assert (∀ e, e ∈ l → h !! e.1 = Some e.2) as Hl' by (intros e He; apply Hl; by right).
  destruct (is_child_of p q) eqn:Ec; cbn [negb mbind outcome_bind].
  2:{ destruct (IH ch0 Hl') as (ch & -> & Hch). exists ch. split; [done|]. intros c. specialize (Hch c).
      destruct (decide (p ++ [c] ∈ l.*1)).
      - by rewrite decide_True by (simpl; by right).
      - rewrite decide_False; [done|]. simpl. rewrite elem_of_cons. intros [<-|]; [|done].
        assert (is_child_of p (p ++ [c]) = true); [|congruence]. apply is_child_of_true. by exists c. }
  apply is_child_of_true in Ec as [c ->]. rewrite last_snoc. cbn [mbind outcome_bind unwrap].
  assert (∃ m : FsNode, match x with HFile _ => Ret (<[c := File (LPath (p ++ [c])) w]> ch0)
               | HDir => sub (p ++ [c]) ≫= λ n, Ret (<[c := n]> ch0) end = Ret (<[c := m]> ch0) ∧
               ∀ cs, view_at m cs = host_view w h ((p ++ [c]) ++ cs)) as (m & Em & Hm).
  { destruct x as [y|].
    - eexists. split; [done|]. intros [|d cs].
      + rewrite app_nil_r. unfold host_view. by rewrite Hqx.
      + unfold host_view. by rewrite (host_below h (p ++ [c])) by congruence.
    - destruct (Hsub c Hqx) as (n & -> & Hn). by exists n. }
  rewrite Em. cbn [mbind outcome_bind]. destruct (IH (<[c := m]> ch0) Hl') as (ch & -> & Hch). exists ch. split; [done|].
  intros d. specialize (Hch d). destruct (decide (p ++ [d] ∈ l.*1)).
  - by rewrite decide_True by (simpl; by right).
  - destruct (decide (d = c)) as [->|Hne].
    + rewrite decide_True by (simpl; by left). exists m. by rewrite Hch, lookup_insert_eq.
    + rewrite decide_False; [by rewrite Hch, lookup_insert_ne|].
      simpl. rewrite elem_of_cons. intros [E|]; [|done]. by simplify_list_eq.
Qed.

(** [from_host_dir] returns, and its tree is the host's. *)
Lemma from_host_dir_spec fuel w p h :
  host_ok h → h !! p = Some HDir →
  (∀ r x, h !! (p ++ r) = Some x → (length r < fuel)%nat) →
  ∃ n, from_host_dir fuel w p h = Ret n ∧ ∀ cs, view_at n cs = host_view w h (p ++ cs).
Proof.
  intros Hok. revert p. induction fuel as [|fuel IH]; intros p Hp Hfuel.
  { exfalso. rewrite <- (app_nil_r p) in Hp. apply Hfuel in Hp. lia. }
  cbn [from_host_dir].
  destruct (entries_loop (λ q, from_host_dir fuel w q h) w p h (map_to_list h) ∅ Hok) as (ch & E & Hch).
  { intros c Hc. apply IH; [done|]. intros r x. rewrite <- app_assoc. intros H%Hfuel. simpl in H. lia. }
  { intros [q x] H. by apply elem_of_map_to_list in H. }
  rewrite (bind_eq _ _ _ E). eexists. split; [done|]. intros [|c cs].
  { rewrite app_nil_r. unfold host_view. by rewrite Hp. }
  rewrite view_at_cons. specialize (Hch c). replace (p ++ c :: cs) with ((p ++ [c]) ++ cs) by (by rewrite <- app_assoc).
  destruct (decide _) as [Hin|Hni].
  - destruct Hch as (n & -> & Hn). simpl. apply Hn.
  - rewrite Hch, lookup_empty. simpl. assert (h !! (p ++ [c]) = None) as Hnone.
    { apply eq_None_not_Some. intros [x Hx]. apply Hni. apply list_elem_of_fmap. exists (p ++ [c], x).
      split; [done|]. by apply elem_of_map_to_list. }
    unfold host_view. destruct cs as [|d cs]; [by rewrite app_nil_r, Hnone|].
    by rewrite (host_below h (p ++ [c])) by congruence.
Qed.

Lemma from_host_dir_ok w p h :
  host_ok h → h !! p = Some HDir →
  ∃ n, from_host_dir (S (host_depth h)) w p h = Ret n ∧ ∀ cs, view_at n cs = host_view w h (p ++ cs).
Proof.
  intros Hok Hp. apply from_host_dir_spec; [done..|]. intros r x H%host_depth_le. rewrite length_app in H. lia.
Qed.

(** ** Preparing the sandbox *)

(** No prefix of the path is a regular file. *)
Definition no_file (h : Host) (p : HostPath) : Prop := ∀ q c, q `prefix_of` p → h !! q ≠ Some (HFile c).

Lemma host_ok_insert_dir h p c : host_ok h → h !! p = Some HDir → h !! (p ++ [c]) = None → host_ok (<[p ++ [c] := HDir]> h).
Proof.
  intros [H1 H2] Hp Hc. split; [rewrite lookup_insert_ne; [done|by destruct p]|].
  intros q d x. destruct (decide (q = p ++ [c])) as [->|Hq]; [by rewrite lookup_insert_eq|].
  rewrite (lookup_insert_ne _ _ q) by done. destruct (decide (p ++ [c] = q ++ [d])) as [E|Hne].
  - apply app_inj_tail in E as [-> _]. done.
  - rewrite lookup_insert_ne by done. apply H2.
Qed.

(** [create_dir_all] adds the directories on the way that are missing. *)
Lemma host_create_dirs_spec p acc h :
  host_ok h → h !! acc = Some HDir → (∀ q c, acc `prefix_of` q → q `prefix_of` acc ++ p → h !! q ≠ Some (HFile c)) →
  ∃ h', host_create_dirs acc p h = Some h' ∧ host_ok h' ∧ h' !! (acc ++ p) = Some HDir ∧
    ∀ q, h' !! q = h !! q ∨ (h !! q = None ∧ h' !! q = Some HDir ∧ q `prefix_of` acc ++ p).
Proof.
  revert acc h. induction p as [|c p IH]; intros acc h Hok Hacc Hnf; cbn [host_create_dirs].
  { exists h. rewrite app_nil_r. split_and!; auto. }
  assert (acc ++ c :: p = (acc ++ [c]) ++ p) as E by (by rewrite <- app_assoc). rewrite E in *.
  assert (acc `prefix_of` acc ++ [c]) as Hpre by (by apply prefix_app_r).
  assert (acc ++ [c] `prefix_of` (acc ++ [c]) ++ p) as Hpre' by (by apply prefix_app_r).
  destruct (h !! (acc ++ [c])) as [[y|]|] eqn:Ec.
  - by destruct (Hnf (acc ++ [c]) y).
  - apply IH; [done..|]. intros q x Hq. apply Hnf. by etrans.
  - destruct (IH (acc ++ [c]) (<[acc ++ [c] := HDir]> h)) as (h' & -> & Hok' & Hd & Hq).
    + by apply host_ok_insert_dir.
    + by rewrite lookup_insert_eq.
    + intros q x Hq1 Hq2. destruct (decide (acc ++ [c] = q)) as [<-|]; [by rewrite lookup_insert_eq|].
      rewrite lookup_insert_ne by done. apply Hnf; [by etrans|done].
    + exists h'. split_and!; [done..|]. intros q. destruct (decide (acc ++ [c] = q)) as [<-|Hne].
      * right. split_and!; [done| |done]. destruct (Hq (acc ++ [c])) as [->|(? & ? & ?)]; [by rewrite lookup_insert_eq|done].
      * destruct (Hq q) as [Hx|Hx]; rewrite lookup_insert_ne in Hx by done; auto.
Qed.

Lemma host_create_dir_all_spec p h :
  host_ok h → no_file h p →
  ∃ h', host_create_dir_all p h = Some h' ∧ host_ok h' ∧ h' !! p = Some HDir ∧
    ∀ q, h' !! q = h !! q ∨ (h !! q = None ∧ h' !! q = Some HDir ∧ q `prefix_of` p).
Proof. intros Hok Hnf. apply (host_create_dirs_spec p [] h); [done|apply Hok|]. intros q c _. apply Hnf. Qed.

Lemma host_remove_dir_all_ok p h : host_ok h → p ≠ [] → host_ok (host_remove_dir_all p h).
Proof.
  intros [H1 H2] Hp. unfold host_remove_dir_all. case_bool_decide; [|done]. split.
  - apply map_lookup_filter_Some. split; [done|]. simpl. by intros ?%prefix_nil_inv.
  - intros q c x [Hx Hn]%map_lookup_filter_Some. apply map_lookup_filter_Some. split; [by eapply H2|].
    simpl in *. intros Hq. apply Hn. by apply prefix_app_r.
Qed.

Section new.
Context (sb : HostPath).

(** What the preparation may do: the sandbox apart, it only adds missing directories
    above the sandbox; it makes no files. *)
Definition prepared (h h' : Host) : Prop :=
  host_ok h' ∧ (∀ q c, h' !! q = Some (HFile c) → h !! q = Some (HFile c)) ∧
  ∀ q, ¬ sb `prefix_of` q → h' !! q = h !! q ∨ (h !! q = None ∧ h' !! q = Some HDir ∧ q `prefix_of` sb).

Lemma prepared_trans h1 h2 h3 : prepared h1 h2 → prepared h2 h3 → prepared h1 h3.
Proof.
  intros (_ & F1 & O1) (Hok & F2 & O2). split_and!; [done|auto|]. intros q Hq.
  destruct (O1 q Hq) as [E1|(? & ? & ?)], (O2 q Hq) as [E2|(? & ? & ?)]; [left; congruence|right|right|congruence];
    split_and!; congruence.
Qed.

Lemma prepared_no_file h h' p : prepared h h' → no_file h p → no_file h' p.
Proof. intros (_ & F & _) Hp q c Hq E. by apply (Hp q c Hq), F. Qed.

Lemma prefix_outside q r : ¬ sb `prefix_of` q → q `prefix_of` sb ++ r → q `prefix_of` sb.
Proof.
  intros Hq [k E]. symmetry in E. apply app_eq_app in E as (l & [[-> ->]|[-> ->]]); [|by apply prefix_app_r].
  destruct Hq. by apply prefix_app_r.
Qed.

(** [create_dir_all] below the sandbox. *)
Lemma create_in_sandbox r h :
  host_ok h → no_file h (sb ++ r) →
  ∃ h', host_create_dir_all (sb ++ r) h = Some h' ∧ prepared h h' ∧ h' !! (sb ++ r) = Some HDir ∧
    ∀ q, h !! q = Some HDir → h' !! q = Some HDir.
Proof.
  intros Hok Hnf. destruct (host_create_dir_all_spec _ _ Hok Hnf) as (h' & E & Hok' & Hd & Hq).
  exists h'. split_and!; [done| |done|].
  - split_and!; [done| |].
    + intros q c Hc. destruct (Hq q) as [<-|(_ & ? & _)]; congruence.
    + intros q Ho. destruct (Hq q) as [|(? & ? & Hp)]; [by left|right]. split_and!; [done..|]. by eapply prefix_outside.
  - intros q Hx. destruct (Hq q) as [->|(? & ? & _)]; congruence.
Qed.

Lemma prepare_directory_ok d h :
  host_ok h → no_file h (sb ++ [d]) →
  ∃ h', prepare_directory sb d h = Ret h' ∧ prepared h h' ∧ h' !! (sb ++ [d]) = Some HDir ∧
    ∀ x, x ≠ tmp_dir → h !! (sb ++ [x]) = Some HDir → h' !! (sb ++ [x]) = Some HDir.
Proof.
  intros Hok Hnf. unfold prepare_directory. destruct (decide (d = tmp_dir)) as [->|Hne].
  2:{ destruct (create_in_sandbox [d] h Hok Hnf) as (h' & -> & Hp & Hd & Hk). exists h'. split_and!; auto. }
  assert (prepared h (host_remove_dir_all (sb ++ [tmp_dir]) h)) as Hr.
  { split_and!; [apply host_remove_dir_all_ok; [done|by destruct sb]| |]; unfold host_remove_dir_all; case_bool_decide; auto.
    - intros q c. by intros [? _]%map_lookup_filter_Some.
    - intros q Hq. left. destruct (h !! q) as [x|] eqn:E.
      + apply map_lookup_filter_Some. split; [done|]. simpl. intros Hx. apply Hq. etrans; [|done]. by apply prefix_app_r.
      + apply map_lookup_filter_None. by left. }
  destruct (create_in_sandbox [tmp_dir] (host_remove_dir_all (sb ++ [tmp_dir]) h)) as (h' & -> & Hp & Hd & Hk);
    [apply Hr|by eapply prepared_no_file|].
  exists h'. split_and!; [done|by eapply prepared_trans|done|]. intros x Hx Hdx. apply Hk.
  unfold host_remove_dir_all. case_bool_decide; [|done]. apply map_lookup_filter_Some. split; [done|]. simpl.
  intros [k E]. simplify_list_eq.
Qed.

Definition LIBRARY : str := bytes_of "Library".
Definition PREFERENCES : str := bytes_of "Preferences".

(** The sandbox as [Fs::new] leaves it. *)
Lemma sandbox_ready h :
  host_ok h → (∀ d, d ∈ directories → no_file h (sb ++ [d])) → no_file h (sb ++ [LIBRARY; PREFERENCES]) →
  ∃ h1 h', for_each (prepare_directory sb) directories h = Ret h1 ∧
    host_create_dir_all (sb ++ [LIBRARY; PREFERENCES]) h1 = Some h' ∧ prepared h h' ∧
    ∀ d, d ∈ directories → h' !! (sb ++ [d]) = Some HDir.
Proof.
  intros Hok Hnf Hpref. unfold directories in *. cbn [for_each].
  destruct (prepare_directory_ok (bytes_of "Documents") h Hok) as (h1 & E1 & P1 & D1 & _); [apply Hnf; set_solver|].
  rewrite (bind_eq _ _ _ E1). destruct (prepare_directory_ok (bytes_of "Library") h1) as (h2 & E2 & P2 & D2 & K2);
    [apply P1|eapply prepared_no_file; [done|]; apply Hnf; set_solver|].
  rewrite (bind_eq _ _ _ E2). pose proof (prepared_trans _ _ _ P1 P2) as P12.
  destruct (prepare_directory_ok tmp_dir h2) as (h3 & E3 & P3 & D3 & K3);
    [apply P2|eapply prepared_no_file; [done|]; apply Hnf; set_solver|].
  rewrite (bind_eq _ _ _ E3). pose proof (prepared_trans _ _ _ P12 P3) as P123.
  destruct (create_in_sandbox [LIBRARY; PREFERENCES] h3) as (h4 & E4 & P4 & _ & K4);
    [apply P3|by eapply prepared_no_file|].
  exists h3, h4. split_and!; [done|done|by eapply prepared_trans|].
  intros d. rewrite !elem_of_cons. intros [->|[->|[->|[]%elem_of_nil]]]; apply K4; [| |done].
  - apply K3; [done|]. by apply K2.
  - by apply K3.
Qed.
End new.

(** ** The tree of [Fs::new] *)

Section tree.
Context (sb : HostPath) (dirs : list str) (h : Host).

(** A tree with nothing writeable, whose host files are outside the sandbox. *)
Definition read_only (n : FsNode) : Prop := ∀ cs,
  match view_at n cs with
  | Some (VFile l w) => w = false ∧
      match l with LPath q => ¬ sb `prefix_of` q ∧ ∃ c, h !! q = Some (HFile c) | _ => True end
  | Some (VDir w) => w = None
  | None => True
  end.

Lemma read_only_dir ch : (∀ c m, ch !! c = Some m → read_only m) → read_only (Directory ch None).
Proof.
  intros Hch [|c cs]; [done|]. rewrite view_at_cons. destruct (ch !! c) as [m|] eqn:E; [|done].
  apply (Hch c m E cs).
Qed.

Lemma read_only_resource name : read_only (resource_file name).
Proof. intros [|c cs]; by unfold view_at. Qed.

(** The home directory: the writeable directories, and read-only entries. *)
Lemma mirror_home ch :
  (∀ d, d ∈ dirs → ∃ n, ch !! d = Some n ∧ ∀ cs, view_at n cs = host_view true h (sb ++ d :: cs)) →
  (∀ c m, c ∉ dirs → ch !! c = Some m → read_only m) →
  mirror sb [] dirs (Directory ch None) h.
Proof.
  intros Hd Hr [|c cs]; [done|]. unfold host_of. cbn [length take drop]. rewrite decide_True, view_at_cons by done.
  destruct (decide (c ∈ dirs)) as [Hc|Hc].
  - destruct (Hd c Hc) as (n & -> & Hn). simpl. rewrite Hn. unfold host_view.
    destruct (h !! (sb ++ c :: cs)) as [[y|]|] eqn:E; eauto.
  - destruct (ch !! c) as [m|] eqn:E; [|done]. simpl. apply (Hr c m Hc E cs).
Qed.

(** The directories above it. *)
Lemma mirror_up home c n ch :
  mirror sb home dirs n h → ch !! c = Some n → (∀ c' m, c' ≠ c → ch !! c' = Some m → read_only m) →
  mirror sb (c :: home) dirs (Directory ch None) h.
Proof.
  intros Hm Hc Hr [|x cs]; [done|]. rewrite view_at_cons. destruct (decide (x = c)) as [->|Hx].
  - rewrite Hc. simpl. assert (host_of sb (c :: home) dirs (c :: cs) = host_of sb home dirs cs) as ->; [|apply Hm].
    unfold host_of. cbn [length take drop].
    destruct (decide (take (length home) cs = home)) as [->|]; [by rewrite decide_True|by rewrite decide_False by congruence].
  - assert (host_of sb (c :: home) dirs (x :: cs) = None) as ->.
    { unfold host_of. cbn [length take]. by rewrite decide_False by congruence. }
    destruct (ch !! x) as [m|] eqn:E; [|done]. simpl. apply (Hr x m Hx E cs).
Qed.

Lemma read_only_with_child name c n m :
  read_only n → read_only c → with_child name c n = Ret m → read_only m.
Proof.
  intros Hn Hc. unfold with_child. destruct n as [l w|ch w]; [done|]. intros H.
  apply bind_ret_inv in H as (u & _ & H). injection H as <-.
  assert (w = None) as -> by exact (Hn []). apply read_only_dir. intros x y.
  destruct (decide (name = x)) as [->|]; [rewrite lookup_insert_eq; by intros [= <-]|]. rewrite lookup_insert_ne by done.
  intros Hx cs. specialize (Hn (x :: cs)). by rewrite view_at_cons, Hx in Hn.
Qed.

Lemma read_only_libs l n m :
  for_each (λ p n, with_child p.1 (resource_file (DYLIBS_DIR ++ SLASH :: p.2)) n) l n = Ret m → read_only n → read_only m.
Proof.
  revert n. induction l as [|p l IH]; intros n H Hn; cbn [for_each] in H; [by injection H as <-|].
  apply bind_ret_inv in H as (n' & H1 & H). eapply IH; [exact H|]. eapply read_only_with_child; [done| |done]. apply read_only_resource.
Qed.

Lemma usr_lib_ok : ∃ n, usr_lib = Ret n ∧ read_only n.
Proof.
  assert (is_ret usr_lib = true) as Hr by (vm_compute; reflexivity).
  apply is_ret_inv in Hr as [n E]. exists n. split; [done|]. eapply read_only_libs; [exact E|].
  apply read_only_dir. intros c m. by rewrite lookup_empty.
Qed.
End tree.

(** The guest path of the home directory, in components. *)
Definition HOME : list str := [bytes_of "var"; bytes_of "mobile"; bytes_of "Applications"; FAKE_UUID].

Lemma with_child_dir name n : with_child name n FsNode_dir = Ret (Directory {[name := n]} None).
Proof. done. Qed.

(** The loop that scans the writeable directories. *)
Lemma home_children sb h ds ch0 :
  host_ok h → (∀ d, d ∈ ds → h !! (sb ++ [d]) = Some HDir) →
  ∃ ch, for_each (scan_directory sb h) ds ch0 = Ret ch ∧
    ∀ c, if decide (c ∈ ds) then ∃ n, ch !! c = Some n ∧ ∀ cs, view_at n cs = host_view true h (sb ++ c :: cs)
         else ch !! c = ch0 !! c.
Proof.
  intros Hok. revert ch0. induction ds as [|d ds IH]; intros ch0 Hds; cbn [for_each].
  { exists ch0. split; [done|]. intros c. rewrite decide_False; [done|]. apply not_elem_of_nil. }
  destruct (from_host_dir_ok true (sb ++ [d]) h Hok) as (n & E & Hn); [apply Hds; by left|].
  assert (scan_directory sb h d ch0 = Ret (<[d := n]> ch0)) as Es by exact (bind_eq _ _ _ E). rewrite (bind_eq _ _ _ Es).
  destruct (IH (<[d := n]> ch0)) as (ch & -> & Hch); [intros x Hx; apply Hds; by right|]. exists ch. split; [done|].
  intros c. specialize (Hch c). destruct (decide (c ∈ ds)) as [Hc|Hc].
  - by rewrite decide_True by (by right).
  - destruct (decide (c = d)) as [->|Hne].
    + rewrite decide_True by (by left). rewrite lookup_insert_eq in Hch. exists n. split; [done|]. intros cs.
      rewrite Hn. by rewrite <- app_assoc.
    + rewrite decide_False by (by rewrite elem_of_cons; intros [|]). by rewrite lookup_insert_ne in Hch by done.
Qed.

(** The tree, given the entries of the home directory. *)
Lemma root_tree sb dirs h lib ch name b :
  (∀ d, d ∈ dirs → ∃ n, ch !! d = Some n ∧ ∀ cs, view_at n cs = host_view true h (sb ++ d :: cs)) →
  (∀ c m, c ∉ dirs → ch !! c = Some m → read_only sb h m) →
  ch !! name = Some b → normal name → read_only sb h lib →
  ∃ r, new_root ch lib = Ret r ∧
    mirror sb HOME dirs r h ∧ lookup_node_inner r (HOME ++ [name]) = Some b.
Proof.
  intros Hd Hr Hb Hn Hlib.
  unfold new_root. rewrite !with_child_dir. do 4 (cbn [mbind outcome_bind]; rewrite ?with_child_dir).
  unfold with_child. rewrite bool_decide_eq_true_2 by (by rewrite lookup_singleton_ne).
  cbn [mbind outcome_bind rassert]. eexists. split; [reflexivity|]. split.
  - unfold HOME. repeat (eapply mirror_up; [|by rewrite ?lookup_insert_ne, lookup_singleton_eq by done|]).
    { by apply mirror_home. }
    1-3: intros c' m Hc; by rewrite lookup_singleton_ne by congruence.
    intros c' m Hc. rewrite lookup_insert_Some, lookup_singleton_Some. intros [[<- <-]|(_ & <- & _)]; [|done].
    apply read_only_dir. intros x y [_ <-]%lookup_singleton_Some. done.
  - unfold HOME. cbn [app lookup_node_inner]. rewrite lookup_insert_ne, lookup_singleton_eq by done.
    by rewrite !lookup_singleton_eq, Hb.
Qed.

(** The sandbox can be prepared: nothing on the way to its directories is a file. *)
Definition sandbox_free (sb : HostPath) (h : Host) : Prop :=
  (∀ d, d ∈ directories → no_file h (sb ++ [d])) ∧ no_file h (sb ++ [LIBRARY; PREFERENCES]).

Lemma read_only_prepared sb h h' n : prepared sb h h' → read_only sb h n → read_only sb h' n.
Proof.
  intros (_ & _ & O) Hn cs. specialize (Hn cs). destruct (view_at n cs) as [[l w|]|]; [|done..].
  destruct Hn as [-> Hl]. split; [done|]. destruct l as [q| |]; [|done..]. destruct Hl as [Hq [c Hc]]. split; [done|].
  exists c. destruct (O q Hq) as [->|(? & ? & _)]; congruence.
Qed.

Definition bundle_path (name : str) : str := GuestPath_join (GuestPath_join APPLICATIONS FAKE_UUID) name.

Lemma bundle_path_resolve name rel : normal name → resolve_path (bundle_path name) rel = Ret (HOME ++ [name]).
Proof.
  intros Hn. change (bundle_path name) with (join_slash ([] :: (HOME ++ [name]))). apply resolve_absolute; [done|].
  apply Forall_app. split; [|by constructor]. apply (bool_decide_eq_true_1 _). vm_compute. reflexivity.
Qed.

Lemma Fs_new_spec app_bundle name sb (ro : bool) h :
  host_ok h → (ro = false → sandbox_free sb h) → normal name → name ∉ directories → read_only sb h app_bundle →
  ∃ fs h', Fs_new app_bundle name sb ro h = Ret (fs, bundle_path name, h') ∧
    mirror sb HOME (if ro then [] else directories) (root fs) h' ∧ fs_wf fs ∧
    lookup_node_inner (root fs) (HOME ++ [name]) = Some app_bundle ∧
    (if ro then h' = h else prepared sb h h').
Proof.
  intros Hok Hfree Hn Hnd Hro.
  assert (∃ h', (if ro then Ret h else h ← for_each (prepare_directory sb) directories h;
      unwrap (host_create_dir_all (sb ++ [LIBRARY; PREFERENCES]) h)) = Ret h' ∧
      (if ro then h' = h else prepared sb h h' ∧ ∀ d, d ∈ directories → h' !! (sb ++ [d]) = Some HDir)) as (h' & Eh & Hh').
  { destruct ro; [by exists h|]. destruct (Hfree eq_refl) as [Hd Hp].
    destruct (sandbox_ready sb h Hok Hd Hp) as (h1 & h2 & E1 & E2 & Hprep & Hds). exists h2.
    rewrite (bind_eq _ _ _ E1), E2. done. }
  assert (host_ok h' ∧ read_only sb h' app_bundle) as [Hok' Hro'].
  { destruct ro; [by subst h'|]. destruct Hh' as [Hp _]. split; [apply Hp|by eapply read_only_prepared]. }
  destruct (usr_lib_ok sb h') as (lib & El & Hlib).
  assert (∃ ch, (if ro then Ret {[name := app_bundle]} else for_each (scan_directory sb h') directories {[name := app_bundle]}) = Ret ch ∧
    ∀ c, if decide (c ∈ if ro then [] else directories)
         then ∃ n, ch !! c = Some n ∧ ∀ cs, view_at n cs = host_view true h' (sb ++ c :: cs)
         else ch !! c = ({[name := app_bundle]} : gmap str FsNode) !! c) as (ch & Ech & Hch).
  { destruct ro; [|by apply home_children; [|apply Hh']]. eexists. split; [done|]. intros c.
    rewrite decide_False; [done|]. apply not_elem_of_nil. }
  destruct (root_tree sb (if ro then [] else directories) h' lib ch name app_bundle) as (r & Er & Hm & Hb); [| | |done|done|].
  { intros d Hd. specialize (Hch d). by rewrite decide_True in Hch. }
  { intros c m Hc. specialize (Hch c). rewrite decide_False in Hch by done. rewrite Hch. by intros [_ <-]%lookup_singleton_Some. }
  { specialize (Hch name). rewrite decide_False in Hch; [by rewrite Hch, lookup_singleton_eq|].
    destruct ro; [apply not_elem_of_nil|done]. }
  unfold Fs_new. rewrite (bind_eq _ _ _ Eh), (bind_eq _ _ _ El), (bind_eq _ _ _ Ech), (bind_eq _ _ _ Er). cbv zeta.
  unfold lookup_node, resolve. fold (bundle_path name). rewrite (bundle_path_resolve _ _ Hn). cbn [mbind outcome_bind root].
  rewrite Hb, bool_decide_eq_true_2 by done. cbn [mbind outcome_bind rassert].
  eexists _, h'. split; [reflexivity|]. cbn [root]. split_and!; [done|done|done|]. destruct ro; [done|by destruct Hh'].
Qed.

(** ** Runs *)

(** The file system is built for an app on some host. *)
Definition boot (app_bundle : FsNode) (name : str) (sb : HostPath) (ro : bool) (h : Host) (s : Fs * Host) : Prop :=
  host_ok h ∧ (ro = false → sandbox_free sb h) ∧ normal name ∧ name ∉ directories ∧ read_only sb h app_bundle ∧
  Fs_new app_bundle name sb ro h = Ret (s.1, bundle_path name, s.2).

Definition writeable_dirs (ro : bool) : list str := if ro then [] else directories.

Lemma boot_ok app_bundle name sb ro h s :
  boot app_bundle name sb ro h s →
  fs_wf s.1 ∧ mirror sb HOME (writeable_dirs ro) (root s.1) s.2 ∧
  lookup_node_inner (root s.1) (HOME ++ [name]) = Some app_bundle ∧
  ∀ q, ¬ sb `prefix_of` q → is_Some (h !! q) → s.2 !! q = h !! q.
Proof.
  intros (Hok & Hfree & Hn & Hnd & Hro & E).
  destruct (Fs_new_spec app_bundle name sb ro h Hok Hfree Hn Hnd Hro) as (fs & h' & E' & Hm & Hwf & Hb & Hp).
  rewrite E in E'. injection E' as E1 E2. rewrite E1, E2. split_and!; [done..|]. intros q Hq [x Hx].
  destruct ro; [by rewrite Hp|]. destruct Hp as (_ & _ & O). destruct (O q Hq) as [->|(? & _)]; congruence.
Qed.

Lemma fs_steps_ok sb home dirs s s' :
  rtc fs_step s s' → fs_wf s.1 → mirror sb home dirs (root s.1) s.2 →
  fs_wf s'.1 ∧ mirror sb home dirs (root s'.1) s'.2 ∧ confined sb home dirs (root s.1, s.2) (root s'.1, s'.2).
Proof.
  induction 1 as [[fs h]|[fs1 h1] [fs2 h2] [fs3 h3] Hs _ IH]; intros Hwf Hm; [by split_and!|].
  destruct (fs_step_ok sb home dirs _ _ _ _ Hs Hwf Hm) as (Hwf2 & Hm2 & Hc2).
  destruct (IH Hwf2 Hm2) as (? & ? & Hc3). split_and!; [done..|]. by etrans.
Qed.

(** An entry of the bundle is not in the writeable part. *)
Lemma bundle_not_writeable sb ro name cs :
  name ∉ directories → host_of sb HOME (writeable_dirs ro) ((HOME ++ [name]) ++ cs) = None.
Proof.
  intros Hn. destruct (host_of _ _ _ _) as [p|] eqn:E; [|done].
  apply host_of_Some in E as (d & r & Hd & E & _). simplify_list_eq.
  destruct ro; [by apply elem_of_nil in Hd|]. done.
Qed.

(** Opening for reading never fails on the host. *)
Lemma fs_open_ok sb home dirs path fs h :
  fs_wf fs → mirror sb home dirs (root fs) h → ∃ r, fs_open path fs h = Ret r.
Proof.
  intros Hwf Hm. destruct (resolve_total path fs Hwf) as (cs & Hcs & _). unfold fs_open.
  rewrite (lookup_node_eq _ _ _ Hcs). cbn [mbind outcome_bind].
  destruct (lookup_node_inner (root fs) cs) as [[[p| |] w|ch w]|] eqn:E; try by eexists.
  specialize (Hm cs). unfold view_at in Hm. rewrite E in Hm. simpl in Hm.
  assert (∃ c, h !! p = Some (HFile c)) as [c Hc].
  { destruct (host_of sb home dirs cs); [destruct Hm as ([= <-] & _ & ?)|destruct Hm as (_ & _ & ?)]; done. }
  unfold handle_open_err, host_open. simpl. rewrite Hc. by eexists.
Qed.



(** A host with a file outside the sandbox, which is the app's only resource, and a guest
    that creates a directory. *)
Definition demo_host : Host := {[ [] := HDir; [bytes_of "app"] := HFile [7] ]}.
Definition demo_bundle : FsNode := Directory {[ bytes_of "icon" := File (LPath [bytes_of "app"]) false ]} None.
Definition demo_name : str := bytes_of "A.app".
Definition demo_sandbox : HostPath := [bytes_of "sandbox"].
Definition demo_dir : str := bytes_of "../Documents/./saves".

Lemma demo_lookup q x : demo_host !! q = Some x → (q = [] ∧ x = HDir) ∨ (q = [bytes_of "app"] ∧ x = HFile [7]).
Proof.
  unfold demo_host. rewrite lookup_insert_Some, lookup_singleton_Some. naive_solver.
Qed.

Lemma demo_boots : ∃ s, boot demo_bundle demo_name demo_sandbox false demo_host s.
Proof.
  assert (host_ok demo_host) as Hok.
  { split; [done|]. intros p c x [[E _]|[E _]]%demo_lookup; [by destruct p|].
    by apply (app_inj_tail p []) in E as [-> _]. }
  assert (sandbox_free demo_sandbox demo_host) as Hfree.
  { split; [intros d _|]; intros q c Hq [[_ ?]|[-> _]]%demo_lookup; try done; destruct Hq as [k Hq]; done. }
  assert (read_only demo_sandbox demo_host demo_bundle) as Hro.
  { apply read_only_dir. intros c m [_ <-]%lookup_singleton_Some [|x cs]; [|done]. split; [done|].
    split; [by intros [k Hk]|by exists [7]]. }
  assert (normal demo_name) as Hn by (apply (bool_decide_eq_true_1 _); by vm_compute).
  assert (demo_name ∉ directories) as Hnd by (apply (bool_decide_eq_true_1 _); by vm_compute).
  destruct (Fs_new_spec demo_bundle demo_name demo_sandbox false demo_host) as (fs & h' & E & _); [done..|].
  exists (fs, h'). by split_and!.
Qed.

(** Whether the app can create the directory. *)
Definition demo_creates : bool :=
  match Fs_new demo_bundle demo_name demo_sandbox false demo_host with
  | Ret (fs, _, h) =>
      match create_dir demo_dir fs h with
      | Ret (Ok _, _, h') => bool_decide (h' !! (demo_sandbox ++ [bytes_of "Documents"; bytes_of "saves"]) = Some HDir)
      | _ => false
      end
  | Panic => false
  end.
Lemma demo_creates_true : demo_creates = true.
Proof. vm_compute. reflexivity. Qed.

Lemma demo_run : ∃ s s', boot demo_bundle demo_name demo_sandbox false demo_host s ∧ rtc fs_step s s' ∧
  s'.2 !! (demo_sandbox ++ [bytes_of "Documents"; bytes_of "saves"]) = Some HDir.
Proof.
  destruct demo_boots as [s Hs]. pose proof demo_creates_true as Hc. unfold demo_creates in Hc.
  pose proof Hs as (_ & _ & _ & _ & _ & E). rewrite E in Hc. destruct s as [fs h]. cbn [fst snd] in Hc.
  destruct (create_dir demo_dir fs h) as [[[[u|e] fs'] h']|] eqn:Ec; [|discriminate Hc|discriminate Hc].
  exists (fs, h), (fs', h'). split; [exact Hs|]. split; [|exact (bool_decide_eq_true_1 _ Hc)].
  apply rtc_once. by eapply fstep_create_dir.
Qed.


