(* ===== verification/FsOps.v ===== *)
(** * What the file operations do

    The effect of the single operations of the guest file system on the paths the guest
    sees and on the host's files. *)

From S2P Require Import Prelude Fs FsFacts FsRuns.

Lemma lookup_alter_node n p f : lookup_node_inner (alter_node p f n) p = f <$> lookup_node_inner n p.
Proof.
  revert n. induction p as [|a p IH]; intros n; [done|]. destruct n as [l w|ch w]; [done|]. simpl.
  rewrite lookup_alter_eq. destruct (ch !! a); [apply IH|done].
Qed.

(** Taking out a child that was put where there was none. *)
Lemma alter_put_undo n p c ch w child :
  lookup_node_inner n p = Some (Directory ch w) → ch !! c = None →
  alter_node p (put_child c None) (alter_node p (put_child c child) n) = n.
Proof.
  revert n. induction p as [|a p IH]; intros n Hn Hc; simpl in *.
  - injection Hn as ->. simpl. f_equal. apply map_eq. intros x. destruct (decide (x = c)) as [->|].
    + by rewrite lookup_partial_alter_eq.
    + by rewrite !lookup_partial_alter_ne.
  - destruct n as [l w'|ch0 w']; [done|]. destruct (ch0 !! a) as [m|] eqn:Ea; [|done]. simpl. f_equal.
    apply map_eq. intros x. destruct (decide (x = a)) as [->|].
    + rewrite !lookup_alter_eq, Ea. simpl. f_equal. by apply IH.
    + by rewrite !lookup_alter_ne.
Qed.

Section ops.
Context (sb : HostPath) (home dirs : list str).

Lemma create_dir_inv path fs h fs' h' :
  fs_wf fs → create_dir path fs h = Ret (Ok (), fs', h') →
  ∃ p c ch d, resolve path fs = Ret (p ++ [c]) ∧ normal c ∧ lookup_node_inner (root fs) p = Some (Directory ch (Some d)) ∧
    ch !! c = None ∧ host_create_dir (d ++ [c]) h = Some h' ∧
    fs' = set_child p c (Some (Directory ∅ (Some (d ++ [c])))) fs.
Proof.
  intros Hwf H. unfold create_dir in H.
  destruct (lookup_parent_cases path fs Hwf) as [E | (n & p & c & E & Hr & Hp & Hc)]; rewrite E in H; [done|].
  cbn [mbind outcome_bind] in H. destruct n as [l w|ch w]; [done|].
  destruct (ch !! c) as [m|] eqn:Ech; [done|]. rewrite bool_decide_eq_false_2 in H by (by intros [? ?]).
  destruct w as [d|]; [|done]. rewrite check_name_normal in H by done. cbn [mbind outcome_bind] in H.
  unfold handle_open_err in H. destruct (host_create_dir (d ++ [c]) h) as [h1|] eqn:Eh; [|done]. injection H as <- <-.
  exists p, c, ch, d. by split_and!.
Qed.

(** The views after a child is put into a writeable directory. *)
Lemma view_at_set_child fs p c ch w child x :
  lookup_node_inner (root fs) p = Some (Directory ch w) → ch !! c = None →
  (∀ m r, child = Some m → r ≠ [] → lookup_node_inner m r = None) →
  view_at (root (set_child p c child fs)) x = if decide (x = p ++ [c]) then view <$> child else view_at (root fs) x.
Proof.
  intros Hp Hc Hleaf. unfold set_child, set_root. cbn [root]. rewrite (view_at_put _ _ _ _ _ _ _ Hp Hleaf).
  destruct (decide (x = p ++ [c])); [done|]. destruct (decide _) as [[r ->]|]; [|done].
  rewrite <- app_assoc. symmetry. eapply view_at_below; [done|]. by rewrite Hc.
Qed.

Lemma create_then_remove path fs h fs' h' :
  fs_wf fs → mirror sb home dirs (root fs) h → create_dir path fs h = Ret (Ok (), fs', h') →
  remove path fs' h' = Ret (Ok (), fs, h).
Proof.
  intros Hwf Hm Hcreate. destruct (create_dir_inv _ _ _ _ _ Hwf Hcreate) as (p & c & ch & d & Hr & Hc & Hp & Hch & Hh & Hfs).
  destruct (op_ok_inv sb home dirs _ _ _ _ _ _ (create_dir_ok sb home dirs path fs h Hwf Hm) Hcreate) as (Hm' & _ & _).
  assert (lookup_node_inner (root fs') p = Some (Directory (<[c := Directory ∅ (Some (d ++ [c]))]> ch) (Some d))) as Hp'.
  { rewrite Hfs. unfold set_child, set_root. cbn [root]. by rewrite lookup_alter_node, Hp. }
  unfold remove. rewrite (lookup_parent_eq path fs' p c) by (by rewrite Hfs). rewrite Hp'. simpl.
  rewrite lookup_insert_eq. simpl.
  rewrite (host_remove_dir_empty sb home dirs (root fs') h' (p ++ [c])); [|done|by rewrite lookup_node_app, Hp'; simpl; rewrite lookup_insert_eq].
  simpl. unfold host_create_dir in Hh. destruct (h !! (d ++ [c])) eqn:Ed; [done|].
  destruct (parent_exists _ _); [|done]. injection Hh as <-. rewrite delete_insert_id by done.
  do 3 f_equal. rewrite Hfs. unfold set_child, set_root. cbn [root working_directory home_directory].
  rewrite (alter_put_undo _ _ _ _ _ _ Hp Hch). by destruct fs.
Qed.

(** ** Renaming *)

Lemma rename_onto_spec fp from to fs h cf ct q c :
  mirror sb home dirs (root fs) h → resolve from fs = Ret cf → resolve to fs = Ret ct → 
  view_at (root fs) cf = Some (VFile (LPath fp) true) → h !! fp = Some (HFile c) →
  view_at (root fs) ct = Some (VFile (LPath q) true) →
  ∃ fs', rename_onto fp from to fs h = Ret (Ok (), fs', <[q := HFile c]> (if decide (fp = q) then h else delete fp h)) ∧
    ∀ x, view_at (root fs') x = if decide (x = cf) then None else view_at (root fs) x.
Proof.
  intros Hm Hf Ht Hvf Hc Hvt. unfold rename_onto. rewrite (lookup_node_eq _ _ _ Ht).
  destruct (writeable_in_sandbox _ _ _ _ _ _ _ Hm Hvt) as (q' & _ & [= <-] & cq & Hcq).
  unfold view_at in Hvt. destruct (lookup_node_inner (root fs) ct) as [tn|] eqn:Et; [|done]. simpl in Hvt |- *.
  destruct tn as [l w|]; [|done]. injection Hvt as -> ->. simpl. unfold host_rename. rewrite Hc, Hcq.
  destruct (writeable_in_sandbox _ _ _ _ _ _ _ Hm Hvf) as (fp' & Hfp & [= <-] & _).
  destruct (file_parent _ _ _ _ Hvf) as (p & a & ch & v & -> & Hp & Ha); [intros ->; by rewrite host_of_nil in Hfp|].
  rewrite (lookup_parent_eq _ _ _ _ Hf), Hp. simpl. rewrite Ha. simpl. eexists. split; [reflexivity|].
  intros x. unfold set_child, set_root. cbn [root]. rewrite (view_at_put _ _ _ _ _ _ _ Hp) by done.
  destruct (decide (x = p ++ [a])); [done|]. destruct (decide _) as [[r ->]|]; [|done].
  rewrite <- app_assoc. symmetry. destruct r as [|y r]; [by rewrite app_nil_r in *|].
  eapply view_at_below; [done|]. rewrite Ha. by intros m [= <-].
Qed.

Lemma rename_spec from to fs h cf ct fp c :
  fs_wf fs → mirror sb home dirs (root fs) h → resolve from fs = Ret cf → resolve to fs = Ret ct → cf ≠ ct →
  view_at (root fs) cf = Some (VFile (LPath fp) true) → h !! fp = Some (HFile c) →
  view_at (root fs) ct = None ∨ (∃ q, view_at (root fs) ct = Some (VFile (LPath q) true)) →
  (∃ e, rename from to fs h = Ret (Err e, fs, h) ∧ not_creatable fs ct) ∨
  ∃ fs' h' q, rename from to fs h = Ret (Ok (), fs', h') ∧ host_of sb home dirs ct = Some q ∧ 
    h' !! q = Some (HFile c) ∧ h' !! fp = None ∧
    ∀ x, view_at (root fs') x = if decide (x = cf) then None
                                else if decide (x = ct) then Some (VFile (LPath q) true) else view_at (root fs) x.
Proof.
  intros Hwf Hm Hf Ht Hne Hvf Hc Hvt. destruct (writeable_in_sandbox _ _ _ _ _ _ _ Hm Hvf) as (fp' & Hfp & [= <-] & _).
  assert (∀ q, host_of sb home dirs ct = Some q → fp ≠ q) as Hfq.
  { intros q Hq ->. apply Hne. by eapply host_of_inj. }
  assert (∀ fs1 h1 q, mirror sb home dirs (root fs1) h1 → working_directory fs1 = working_directory fs →
    view_at (root fs1) cf = Some (VFile (LPath fp) true) → h1 !! fp = Some (HFile c) → host_of sb home dirs ct = Some q →
    view_at (root fs1) ct = Some (VFile (LPath q) true) →
    ∃ fs' h', rename_onto fp from to fs1 h1 = Ret (Ok (), fs', h') ∧ h' !! q = Some (HFile c) ∧ h' !! fp = None ∧
      ∀ x, view_at (root fs') x = if decide (x = cf) then None else view_at (root fs1) x) as Honto.
  { intros fs1 h1 q Hm1 Hw1 Hvf1 Hc1 Hq Hvt1.
    destruct (rename_onto_spec fp from to fs1 h1 cf ct q c) as (fs' & E & Hv); try done; [unfold resolve; by rewrite Hw1..|].
    eexists fs', _. split; [done|]. rewrite decide_False by auto. split_and!; [by rewrite lookup_insert_eq| |done].
    rewrite lookup_insert_ne by (symmetry; auto). by rewrite lookup_delete_eq. }
  unfold rename. rewrite (lookup_node_eq _ _ _ Hf), (lookup_node_eq _ _ _ Ht). cbn [mbind outcome_bind].
  unfold view_at in Hvf. destruct (lookup_node_inner (root fs) cf) as [[l w|]|] eqn:Ef; [|done..]. injection Hvf as -> ->.
  assert (view_at (root fs) cf = Some (VFile (LPath fp) true)) as Hvf by (unfold view_at; by rewrite Ef). simpl.
  destruct Hvt as [Hvt|[q Hvt]].
  - unfold view_at in Hvt. destruct (lookup_node_inner (root fs) ct) eqn:Et; [done|].
    destruct (open_create_spec sb home dirs to fs h ct Hwf Hm Ht) as [(e & -> & Hnc)|(f & fs1 & h1 & q & -> & Hm1 & _ & Hw1 & Hq & _ & Hh1 & Hv1)];
      [unfold view_at; by rewrite Et|left; by eexists|right]. simpl.
    assert (h1 !! fp = Some (HFile c)) as Hc1 by (rewrite Hh1, lookup_insert_ne; [done|by symmetry; apply Hfq]).
    destruct (Honto fs1 h1 q) as (fs' & h' & -> & ? & ? & Hv); try done.
    { by rewrite Hv1, decide_False. }
    { by rewrite Hv1, decide_True. }
    exists fs', h', q. split_and!; [done..|]. intros x. by rewrite Hv, Hv1.
  - destruct (writeable_in_sandbox _ _ _ _ _ _ _ Hm Hvt) as (q' & Hq & [= <-] & _).
    destruct (Honto fs h q) as (fs' & h' & E & ? & ? & Hv); try done. right.
    unfold view_at in Hvt. destruct (lookup_node_inner (root fs) ct) as [tn|] eqn:Et; [|done].
    exists fs', h', q. split_and!; [done..|]. intros x. rewrite Hv. destruct (decide (x = cf)); [done|].
    destruct (decide (x = ct)) as [->|]; [|done]. unfold view_at. by rewrite Et.
Qed.
End ops.

(** ** Paths *)

Lemma join_slash_cons w ws : ws ≠ [] → join_slash (w :: ws) = w ++ SLASH :: join_slash ws.
Proof. by destruct ws. Qed.

Lemma join_components cs : cs ≠ [] → join_slash ([] :: cs) = concat (map (cons SLASH) cs).
Proof.
  induction cs as [|c [|c' cs] IH]; intros Hne; [done|simpl; by rewrite app_nil_r|].
  change (SLASH :: join_slash (c :: c' :: cs) = SLASH :: c ++ concat (map (cons SLASH) (c' :: cs))).
  rewrite join_slash_cons by done. do 2 f_equal. by rewrite <- IH.
Qed.

Lemma resolve_working_directory cs q : Forall normal cs → starts_with_slash q = false →
  resolve_path q (Some (match cs with [] => [SLASH] | _ => concat (map (cons SLASH) cs) end)) =
    Ret (foldl apply_path_component cs (split_slash q)).
Proof.
  intros Hcs Hq. unfold resolve_path. rewrite Hq. cbn [negb unwrap mbind outcome_bind].
  destruct cs as [|c cs]; [done|]. rewrite <- join_components by done.
  replace (starts_with_slash (join_slash ([] :: c :: cs))) with true by done. cbn [rassert mbind outcome_bind].
  rewrite split_join; [|done|constructor; [apply not_elem_of_nil|by apply normal_no_slash]].
  do 2 f_equal. exact (resolve_fold_id (c :: cs) [] Hcs).
Qed.

(** A resolved path is canonical: its components name entries (none is empty, [.],
    [..] or holds a separator, so the joins with host paths cannot climb), and writing
    it out as an absolute path and resolving that gives it back. *)
Theorem resolve_path_canonical path relative_to cs :
  resolve_path path relative_to = Ret cs →
  Forall normal cs ∧ (cs ≠ [] → ∀ rel, resolve_path (join_slash ([] :: cs)) rel = Ret cs).
Proof.
  intros H. assert (Forall normal cs) as Hn by (by eapply resolve_path_spec). split; [done|].
  intros Hne rel. by apply resolve_absolute.
Qed.

Lemma resolve_path_canonical_witness :
  resolve_path (join_slash [[]; bytes_of "usr"; bytes_of "b"]) None = Ret [bytes_of "usr"; bytes_of "b"].
Proof.
  apply (resolve_path_canonical (bytes_of "a/.././../../usr//lib/../b") (Some (bytes_of "/var/x")));
    [vm_compute; reflexivity|discriminate].
Defined.

(** [chdir] and relative paths agree: after the working directory has become the
    directory a path resolves to, a relative path is resolved from that directory. *)
Theorem chdir_then_relative path fs wd fs' :
  fs_wf fs → change_working_directory path fs = Ret (Ok wd, fs') →
  ∃ cs, resolve path fs = Ret cs ∧ (∃ ch w, lookup_node_inner (root fs) cs = Some (Directory ch w)) ∧
    root fs' = root fs ∧
    ∀ q, starts_with_slash q = false → resolve q fs' = Ret (foldl apply_path_component cs (split_slash q)).
Proof.
  intros Hwf. unfold change_working_directory. destruct (resolve_total path fs Hwf) as (cs & E & Hn). rewrite E.
  cbn [mbind outcome_bind]. destruct (lookup_node_inner (root fs) cs) as [[|ch w]|] eqn:El; intros [= <- <-].
  exists cs. split_and!; [done|by eexists _, _|done|]. intros q Hq. unfold resolve. cbn [working_directory].
  by apply resolve_working_directory.
Qed.

Definition demo_fs : Fs := mkFs (Directory {[ bytes_of "d" := Directory ∅ None ]} None) (bytes_of "/x") (bytes_of "/").
Lemma chdir_then_relative_witness : ∃ wd fs', change_working_directory (bytes_of "../d/.") demo_fs = Ret (Ok wd, fs') ∧
  resolve (bytes_of "e/../f") fs' = Ret [bytes_of "d"; bytes_of "f"].
Proof.
  assert (change_working_directory (bytes_of "../d/.") demo_fs =
    Ret (Ok (bytes_of "/d"), mkFs (root demo_fs) (bytes_of "/d") (home_directory demo_fs))) as E by (vm_compute; reflexivity).
  eexists _, _. split; [exact E|].
  destruct (chdir_then_relative _ demo_fs _ _ ltac:(reflexivity) E) as (cs & Hcs & _ & _ & Hq). vm_compute in Hcs. injection Hcs as <-.
  rewrite Hq by (vm_compute; reflexivity). vm_compute. reflexivity.
Defined.

(** ** Directories *)

(** Removing a directory that was just created undoes it exactly: the removal
    succeeds, and the guest tree and the host are those of before. *)
Theorem create_remove_roundtrip sb home dirs path fs h fs' h' :
  fs_wf fs → mirror sb home dirs (root fs) h → create_dir path fs h = Ret (Ok (), fs', h') →
  remove path fs' h' = Ret (Ok (), fs, h).
Proof. apply create_then_remove. Qed.

Lemma create_remove_roundtrip_witness : ∃ fs h fs' h', create_dir demo_dir fs h = Ret (Ok (), fs', h') ∧
  remove demo_dir fs' h' = Ret (Ok (), fs, h).
Proof.
  destruct demo_boots as [[fs h] Hs]. destruct (boot_ok _ _ _ _ _ _ Hs) as (Hwf & Hm & _).
  pose proof demo_creates_true as Hc. unfold demo_creates in Hc.
  pose proof Hs as (_ & _ & _ & _ & _ & E). rewrite E in Hc. cbn [fst snd] in Hc, Hwf, Hm.
  destruct (create_dir demo_dir fs h) as [[[[[]|e] fs'] h']|] eqn:Ec; [|discriminate Hc|discriminate Hc].
  exists fs, h, fs', h'. split; [exact Ec|]. exact (create_remove_roundtrip _ _ _ _ _ _ _ _ Hwf Hm Ec).
Defined.

(** ** Renaming *)

(** [rename] of a writeable file onto another path: unless it reports an error,
    changing nothing, because the target's directory does not exist or is read-only, the content is afterwards at the target, on the host too, the
    source is gone, and every other path is as it was. *)
Theorem rename_moves_file sb home dirs from to fs h cf ct fp c :
  fs_wf fs → mirror sb home dirs (root fs) h → resolve from fs = Ret cf → resolve to fs = Ret ct → cf ≠ ct →
  view_at (root fs) cf = Some (VFile (LPath fp) true) → h !! fp = Some (HFile c) →
  view_at (root fs) ct = None ∨ (∃ q, view_at (root fs) ct = Some (VFile (LPath q) true)) →
  (∃ e, rename from to fs h = Ret (Err e, fs, h) ∧ not_creatable fs ct) ∨
  ∃ fs' h' q, rename from to fs h = Ret (Ok (), fs', h') ∧ host_of sb home dirs ct = Some q ∧
    h' !! q = Some (HFile c) ∧ h' !! fp = None ∧
    ∀ x, view_at (root fs') x = if decide (x = cf) then None
                                else if decide (x = ct) then Some (VFile (LPath q) true) else view_at (root fs) x.
Proof. apply rename_spec. Qed.

(** [rename] of a file to its own path reports success but takes the file out of the
    guest tree, while it stays on the host: the guest loses it until the next start,
    and the tree no longer mirrors the sandbox. *)
Theorem rename_same_path_loses_file sb home dirs path fs h cs q c :
  fs_wf fs → mirror sb home dirs (root fs) h → resolve path fs = Ret cs →
  view_at (root fs) cs = Some (VFile (LPath q) true) → h !! q = Some (HFile c) →
  ∃ fs', rename path path fs h = Ret (Ok (), fs', h) ∧ view_at (root fs') cs = None ∧
    ¬ mirror sb home dirs (root fs') h.
Proof.
  intros Hwf Hm Hcs Hv Hc.
  destruct (rename_onto_spec sb home dirs q path path fs h cs cs q c) as (fs' & E & Hv'); try done.
  assert (view_at (root fs') cs = None) as Hgone by (by rewrite Hv', decide_True).
  exists fs'. split_and!; [|done|].
  - unfold rename. rewrite (lookup_node_eq _ _ _ Hcs). cbn [mbind outcome_bind].
    unfold view_at in Hv. destruct (lookup_node_inner (root fs) cs) as [[l w|]|] eqn:El; [|done..]. injection Hv as -> ->.
    simpl. rewrite decide_True, insert_id in E by done. exact E.
  - intros Hm'. destruct (writeable_in_sandbox _ _ _ _ _ _ _ Hm Hv) as (q' & Hq & [= <-] & _).
    specialize (Hm' cs). rewrite Hq, Hgone in Hm'. congruence.
Qed.

(** A save file in the sandbox. *)
Definition demo_saved : list str := HOME ++ [bytes_of "Documents"; bytes_of "x"].
Definition demo_other : list str := HOME ++ [bytes_of "Library"; bytes_of "y"].
Definition demo_saved_host : HostPath := demo_sandbox ++ [bytes_of "Documents"; bytes_of "x"].
Definition demo_saves : bool :=
  match Fs_new demo_bundle demo_name demo_sandbox false demo_host with
  | Ret (fs, _, h) =>
      match open_with_options (join_slash ([] :: demo_saved)) write_create_truncate fs h with
      | Ret (_, _, h') => bool_decide (h' !! demo_saved_host = Some (HFile []) ∧
                                       h' !! (demo_sandbox ++ [bytes_of "Library"; bytes_of "y"]) = None ∧
                                       h' !! (demo_sandbox ++ [bytes_of "Library"]) = Some HDir)
      | _ => false
      end
  | Panic => false
  end.
Lemma demo_saves_true : demo_saves = true.
Proof. vm_compute. reflexivity. Qed.

Lemma demo_save : ∃ fs h, fs_wf fs ∧ mirror demo_sandbox HOME directories (root fs) h ∧
  resolve (join_slash ([] :: demo_saved)) fs = Ret demo_saved ∧ resolve (join_slash ([] :: demo_other)) fs = Ret demo_other ∧
  view_at (root fs) demo_saved = Some (VFile (LPath demo_saved_host) true) ∧ h !! demo_saved_host = Some (HFile []) ∧
  view_at (root fs) demo_other = None ∧
  view_at (root fs) (HOME ++ [bytes_of "Library"]) = Some (VDir (Some (demo_sandbox ++ [bytes_of "Library"]))).
Proof.
  destruct demo_boots as [[fs h] Hs]. destruct (boot_ok _ _ _ _ _ _ Hs) as (Hwf & Hm & _).
  pose proof demo_saves_true as Hc. unfold demo_saves in Hc.
  pose proof Hs as (_ & _ & _ & _ & _ & E). rewrite E in Hc. cbn [fst snd] in Hc, Hwf, Hm.
  destruct (open_with_options _ _ fs h) as [[[r fs'] h']|] eqn:Eo; [|discriminate Hc].
  apply bool_decide_eq_true_1 in Hc as (Hx & Hy & Hl).
  destruct (op_ok_inv demo_sandbox HOME directories _ _ _ _ _ _
    (open_with_options_ok demo_sandbox HOME directories _ write_create_truncate fs h Hwf (conj eq_refl (conj eq_refl eq_refl)) Hm) Eo)
    as (Hm' & _ & Hw).
  exists fs', h'. split; [unfold fs_wf; by rewrite Hw|]. split; [exact Hm'|].
  assert (host_of demo_sandbox HOME directories demo_saved = Some demo_saved_host) as H1 by (vm_compute; reflexivity).
  assert (host_of demo_sandbox HOME directories demo_other = Some (demo_sandbox ++ [bytes_of "Library"; bytes_of "y"])) as H2
    by (vm_compute; reflexivity).
  pose proof (Hm' demo_saved) as V1. rewrite H1, Hx in V1. pose proof (Hm' demo_other) as V2. rewrite H2, Hy in V2.
  split; [apply resolve_absolute; [done|apply (bool_decide_eq_true_1 _); by vm_compute]|].
  split; [apply resolve_absolute; [done|apply (bool_decide_eq_true_1 _); by vm_compute]|].
  assert (host_of demo_sandbox HOME directories (HOME ++ [bytes_of "Library"]) = Some (demo_sandbox ++ [bytes_of "Library"])) as H3
    by (vm_compute; reflexivity).
  pose proof (Hm' (HOME ++ [bytes_of "Library"])) as V3. rewrite H3, Hl in V3.
  split; [|split; [exact Hx|split]].
  - destruct (view_at (root fs') demo_saved) as [[l w|w]|]; [|by destruct V1|discriminate V1].
    by destruct V1 as (-> & -> & _).
  - by destruct (view_at (root fs') demo_other) as [[l w|w]|]; [destruct V2 as (_ & _ & ? & ?)|destruct V2|].
  - by destruct (view_at (root fs') (HOME ++ _)) as [[l w|w]|]; [destruct V3 as (_ & _ & ? & ?)|destruct V3 as [-> _]|].
Qed.

Lemma rename_moves_file_witness : ∃ fs h fs' h',
  rename (join_slash ([] :: demo_saved)) (join_slash ([] :: demo_other)) fs h = Ret (Ok (), fs', h') ∧
  h' !! demo_saved_host = None ∧ view_at (root fs') demo_saved = None.
Proof.
  destruct demo_save as (fs & h & Hwf & Hm & R1 & R2 & V1 & Hx & V2 & Hl). exists fs, h.
  destruct (rename_moves_file _ _ _ _ _ _ _ _ _ _ _ Hwf Hm R1 R2 ltac:(discriminate) V1 Hx (or_introl V2))
    as [(e & _ & Hn)|(fs' & h' & q & E & _ & _ & Hn & Hv)].
  - destruct (Hn (HOME ++ [bytes_of "Library"]) (bytes_of "y") (demo_sandbox ++ [bytes_of "Library"]) eq_refl Hl).
  - exists fs', h'. split; [exact E|split; [exact Hn|]]. by rewrite Hv, decide_True.
Defined.

Lemma rename_same_path_loses_file_witness : ∃ fs h fs',
  rename (join_slash ([] :: demo_saved)) (join_slash ([] :: demo_saved)) fs h = Ret (Ok (), fs', h) ∧
  view_at (root fs') demo_saved = None.
Proof.
  destruct demo_save as (fs & h & Hwf & Hm & R1 & R2 & V1 & Hx & V2 & _).
  destruct (rename_same_path_loses_file _ _ _ _ _ _ _ _ _ Hwf Hm R1 V1 Hx) as (fs' & E & Hn & _). eauto.
Defined.

(** ** Creating a whole path *)

Lemma create_existing path fs h p c ch w :
  resolve path fs = Ret (p ++ [c]) → lookup_node_inner (root fs) p = Some (Directory ch w) → is_Some (ch !! c) →
  create_dir path fs h = Ret (Err AlreadyExist, fs, h).
Proof.
  intros Hr Hp Hc. unfold create_dir. rewrite (lookup_parent_eq _ _ _ _ Hr), Hp. simpl. by rewrite bool_decide_eq_true_2.
Qed.

Lemma create_dirs_existing cs acc fs h :
  Forall normal (acc ++ cs) → is_Some (view_at (root fs) (acc ++ cs)) → create_dirs acc cs fs h = Ret (Ok (), fs, h).
Proof.
  revert acc. induction cs as [|c cs IH]; intros acc Hn Hv; [done|]. cbn [create_dirs].
  replace (acc ++ c :: cs) with ((acc ++ [c]) ++ cs) in Hn, Hv by (by rewrite <- app_assoc).
  assert (∃ ch w, lookup_node_inner (root fs) acc = Some (Directory ch w) ∧ is_Some (ch !! c)) as (ch & w & Ha & Hc).
  { unfold view_at in Hv. rewrite <- app_assoc, lookup_node_app in Hv.
    destruct (lookup_node_inner (root fs) acc) as [[l w|ch w]|]; [by destruct Hv| |by destruct Hv].
    exists ch, w. split; [done|]. simpl in Hv. destruct (ch !! c); [by eexists|by destruct Hv]. }
  rewrite (bind_eq _ _ (Err AlreadyExist, fs, h)); [by apply IH|].
  apply (create_existing _ fs h acc c ch w); [|done|done]. apply resolve_absolute; [by destruct acc|].
  by apply Forall_app in Hn as [? _].
Qed.

(** [create_dir_all] of a path that exists changes nothing and reports success, even
    where the path is a regular file (which [std::fs::create_dir_all] refuses). *)
Theorem create_dir_all_existing path fs h cs :
  starts_with_slash path = true → resolve_path path None = Ret cs → is_Some (view_at (root fs) cs) →
  create_dir_all path fs h = Ret (Ok (), fs, h).
Proof.
  intros Hs Hr Hv. unfold create_dir_all. rewrite Hs, Hr. cbn [rassert mbind outcome_bind].
  apply create_dirs_existing; [by eapply resolve_path_spec|done].
Qed.

Lemma create_dir_all_existing_witness : ∃ fs h, create_dir_all (bytes_of "/f") fs h = Ret (Ok (), fs, h) ∧
  is_file (bytes_of "/f") fs = Ret true.
Proof.
  exists (mkFs (Directory {[ bytes_of "f" := resource_file (bytes_of "r") ]} None) (bytes_of "/") (bytes_of "/")), ∅.
  split; [apply (create_dir_all_existing _ _ _ [bytes_of "f"])|]; [vm_compute; reflexivity..| |vm_compute; reflexivity].
  eexists. vm_compute. reflexivity.
Defined.
