(* ===== verification/Text.v ===== *)
(** * Text: what the code uses of Rust's [char] and [String]

    A [String] is the list of its characters, a character its scalar value.  UTF-8
    ([as_bytes], [String::from_utf8]), UTF-16 ([encode_utf16], [String::from_utf16]), white space,
    decimal digits, and the two-way splits of [str]. *)

From S2P Require Import Prelude Semaphore Fs.

(** ** Characters *)

(** [char::from_u32]: [None] for the values that are no scalar values. *)
Definition scalar (c : Z) : bool := (0 <=? c) && (c <? 55296) || (57344 <=? c) && (c <? 1114112).
Definition char_from_u32 (c : Z) : option Z := if scalar c then Some c else None.
Definition str_ok (s : str) : Prop := Forall (λ c, scalar c = true) s.

Definition is_ascii (c : Z) : bool := c <? 128.
Definition str_is_ascii (s : str) : bool := forallb is_ascii s.
Definition is_ascii_digit (c : Z) : bool := (48 <=? c) && (c <=? 57).
Definition is_ascii_alphanumeric (c : Z) : bool :=
  is_ascii_digit c || (65 <=? c) && (c <=? 90) || (97 <=? c) && (c <=? 122).
(** [char::is_ascii_whitespace]. *)
Definition is_ascii_whitespace (c : Z) : bool := bool_decide (c ∈ [32; 9; 10; 12; 13]).
(** [char::is_whitespace]: the property White_Space of Unicode. *)
Definition is_whitespace (c : Z) : bool :=
  (9 <=? c) && (c <=? 13) || (8192 <=? c) && (c <=? 8202) ||
  bool_decide (c ∈ [32; 133; 160; 5760; 8232; 8233; 8239; 8287; 12288]).

(** ** UTF-8 *)

Definition char_bytes (c : Z) : list Z :=
  if c <? 128 then [c]
  else if c <? 2048 then [192 + c / 64; 128 + c mod 64]
  else if c <? 65536 then [224 + c / 4096; 128 + c / 64 mod 64; 128 + c mod 64]
  else [240 + c / 262144; 128 + c / 4096 mod 64; 128 + c / 64 mod 64; 128 + c mod 64].
Definition as_bytes (s : str) : list Z := s ≫= char_bytes.
(** [str::len]: the number of bytes. *)
Definition str_len (s : str) : Z := Z.of_nat (length (as_bytes s)).

(** [String::from_utf8]. *)
Fixpoint from_utf8 (l : list Z) : option str :=
  match l with
  | [] => Some []
  | a :: l1 =>
      if a <? 128 then cons a <$> from_utf8 l1
      else if in_range 194 223 a then
        match l1 with
        | b :: l2 => if continuation b then cons ((a - 192) * 64 + (b - 128)) <$> from_utf8 l2 else None
        | _ => None
        end
      else if in_range 224 239 a then
        match l1 with
        | b :: c :: l3 =>
            if in_range (if a =? 224 then 160 else 128) (if a =? 237 then 159 else 191) b && continuation c
            then cons ((a - 224) * 4096 + (b - 128) * 64 + (c - 128)) <$> from_utf8 l3 else None
        | _ => None
        end
      else if in_range 240 244 a then
        match l1 with
        | b :: c :: d :: l4 =>
            if in_range (if a =? 240 then 144 else 128) (if a =? 244 then 143 else 191) b && continuation c && continuation d
            then cons ((a - 240) * 262144 + (b - 128) * 4096 + (c - 128) * 64 + (d - 128)) <$> from_utf8 l4 else None
        | _ => None
        end
      else None
  end.

(** ** UTF-16 *)

Definition char_units (c : Z) : list Z :=
  if c <? 65536 then [c] else [55296 + (c - 65536) / 1024; 56320 + (c - 65536) mod 1024].
Definition encode_utf16 (s : str) : list Z := s ≫= char_units.

Definition is_surrogate (u : Z) : bool := in_range 55296 57343 u.
(** [String::from_utf16]: an unpaired surrogate is an error. *)
Fixpoint from_utf16 (l : list Z) : option str :=
  match l with
  | [] => Some []
  | a :: l1 =>
      if negb (is_surrogate a) then cons a <$> from_utf16 l1
      else if in_range 55296 56319 a then
        match l1 with
        | b :: l2 =>
            if in_range 56320 57343 b then cons (65536 + (a - 55296) * 1024 + (b - 56320)) <$> from_utf16 l2 else None
        | [] => None
        end
      else None
  end.

Definition is_u16 (u : Z) : Prop := 0 ≤ u < 65536.

(** ** Slices and splits *)

(** [trim_start_matches], [trim_start], [trim_end_matches]. *)
Fixpoint trim_start_matches (p : Z → bool) (s : str) : str :=
  match s with c :: s' => if p c then trim_start_matches p s' else s | [] => [] end.
Definition trim_start : str → str := trim_start_matches is_whitespace.
Definition trim_end_matches (p : Z → bool) (s : str) : str := reverse (trim_start_matches p (reverse s)).

(** [s.split_once(c)] and [s.rsplit_once(c)]. *)
Fixpoint split_once (x : Z) (s : str) : option (str * str) :=
  match s with
  | [] => None
  | c :: s' => if c =? x then Some ([], s') else prod_map (cons c) id <$> split_once x s'
  end.
Fixpoint rsplit_once (x : Z) (s : str) : option (str * str) :=
  match s with
  | [] => None
  | c :: s' =>
      match rsplit_once x s' with
      | Some (a, b) => Some (c :: a, b)
      | None => if c =? x then Some ([], s') else None
      end
  end.

(** [strip_prefix] and [strip_suffix] of one character. *)
Definition strip_prefix_char (x : Z) (s : str) : option str :=
  match s with c :: s' => if c =? x then Some s' else None | [] => None end.
Definition strip_suffix_char (x : Z) (s : str) : option str :=
  reverse <$> strip_prefix_char x (reverse s).

Fixpoint starts_with (p s : list Z) : bool :=
  match p, s with
  | [], _ => true
  | x :: p', c :: s' => (c =? x) && starts_with p' s'
  | _ :: _, [] => false
  end.
Definition ends_with (p s : list Z) : bool := starts_with (reverse p) (reverse s).
(** [s.contains(p)]. *)
Fixpoint str_contains (p s : list Z) : bool :=
  starts_with p s || match s with _ :: s' => str_contains p s' | [] => false end.

(** The longest prefix of characters that satisfy [p]: [&s[..cutoff]] with the cutoff at the
    first one that does not. *)
Fixpoint take_while (p : Z → bool) (s : str) : str :=
  match s with c :: s' => if p c then c :: take_while p s' else [] | [] => [] end.

(** [str::parse::<i32>]: a sign and at least one digit, nothing else, in range. *)
Definition parse_digits (s : str) : option Z :=
  if bool_decide (s = []) || negb (forallb is_ascii_digit s) then None
  else Some (foldl (λ n c, n * 10 + (c - 48)) 0 s).
Definition parse_i32 (s : str) : option Z :=
  n ← match s with
      | 43 :: s' => parse_digits s'
      | 45 :: s' => Z.opp <$> parse_digits s'
      | _ => parse_digits s
      end;
  if (-2147483648 <=? n) && (n <=? 2147483647) then Some n else None.

(** ** Facts *)

Section facts.
Implicit Types s t : str.

(** *** UTF-16 *)

Lemma scalar_range c : scalar c = true ↔ 0 ≤ c < 55296 ∨ 57344 ≤ c < 1114112.
Proof. unfold scalar. rewrite orb_true_iff, !andb_true_iff. lia. Qed.

Lemma in_range_spec lo hi b : in_range lo hi b = true ↔ lo ≤ b ≤ hi.
Proof. unfold in_range. rewrite andb_true_iff. lia. Qed.
Lemma in_range_false lo hi b : in_range lo hi b = false ↔ b < lo ∨ hi < b.
Proof. unfold in_range. rewrite andb_false_iff. lia. Qed.

Lemma char_units_u16 c : scalar c = true → Forall is_u16 (char_units c).
Proof.
  rewrite scalar_range. intros H. unfold char_units. destruct (Z.ltb_spec c 65536).
  - repeat constructor; lia.
  - repeat constructor; try (Z.div_mod_to_equations; lia).
Qed.
Lemma encode_utf16_u16 s : str_ok s → Forall is_u16 (encode_utf16 s).
Proof. intros H. apply Forall_bind. eapply Forall_impl; [exact H|]. apply char_units_u16. Qed.

Lemma from_utf16_char c l :
  scalar c = true → from_utf16 (char_units c ++ l) = cons c <$> from_utf16 l.
Proof.
  rewrite scalar_range. intros H. unfold char_units. destruct (Z.ltb_spec c 65536).
  - cbn [app from_utf16]. unfold is_surrogate. by rewrite (proj2 (in_range_false 55296 57343 c)) by lia.
  - cbn [app from_utf16]. unfold is_surrogate.
    rewrite (proj2 (in_range_spec 55296 57343 _)) by (Z.div_mod_to_equations; lia). cbn [negb].
    rewrite (proj2 (in_range_spec 55296 56319 _)) by (Z.div_mod_to_equations; lia).
    rewrite (proj2 (in_range_spec 56320 57343 _)) by (Z.div_mod_to_equations; lia).
    do 2 f_equal. Z.div_mod_to_equations; lia.
Qed.

(** A string survives the change to UTF-16 and back. *)
Lemma from_encode_utf16 s : str_ok s → from_utf16 (encode_utf16 s) = Some s.
Proof.
  induction 1 as [|c s Hc Hs IH]; [done|].
  change (encode_utf16 (c :: s)) with (char_units c ++ encode_utf16 s).
  by rewrite from_utf16_char, IH.
Qed.

Ltac u16_case :=
  repeat match goal with
  | H : negb (is_surrogate _) = true |- _ => apply negb_true_iff in H; apply in_range_false in H
  | H : negb (is_surrogate _) = false |- _ => apply negb_false_iff in H; apply in_range_spec in H
  | H : in_range _ _ _ = true |- _ => apply in_range_spec in H
  | H : (_ <$> _) = Some _ |- _ => apply fmap_Some in H as (? & ? & ->)
  end.

Lemma from_utf16_inv_len n l s :
  (length l ≤ n)%nat → Forall is_u16 l → from_utf16 l = Some s → str_ok s ∧ encode_utf16 s = l.
Proof.
  revert l s. induction n as [|n IH]; intros l s Hn Hl H.
  { destruct l; simpl in *; [|lia]. simplify_eq. by split; [constructor|]. }
  destruct l as [|a l]; [simplify_eq/=; by split; [constructor|]|]. apply Forall_cons in Hl as [Ha Hl]. unfold is_u16 in Ha. cbn [from_utf16] in H.
  destruct (negb (is_surrogate a)) eqn:E1; u16_case; simpl in Hn.
  - destruct (IH l x) as [Hx <-]; [lia|done..|]. split; [constructor; [apply scalar_range; lia|done]|].
    cbn [encode_utf16 mbind list_bind]. unfold char_units at 1. by rewrite (proj2 (Z.ltb_lt _ _)) by lia.
  - destruct (in_range 55296 56319 a) eqn:E2; [|done]. destruct l as [|b l]; [done|].
    destruct (in_range 56320 57343 b) eqn:E3; [|done]. u16_case. apply Forall_cons in Hl as [_ Hl]. simpl in Hn.
    destruct (IH l x) as [Hx <-]; [lia|done..|]. split; [constructor; [apply scalar_range; lia|done]|].
    cbn [encode_utf16 mbind list_bind]. unfold char_units at 1. rewrite (proj2 (Z.ltb_ge _ _)) by lia.
    cbn [app]. f_equal; [|f_equal]; Z.div_mod_to_equations; lia.
Qed.
Lemma from_utf16_inv l s : Forall is_u16 l → from_utf16 l = Some s → str_ok s ∧ encode_utf16 s = l.
Proof. by apply (from_utf16_inv_len (length l)). Qed.

(** *** UTF-8 *)

Lemma from_utf8_char c l :
  scalar c = true → from_utf8 (char_bytes c ++ l) = cons c <$> from_utf8 l.
Proof.
  rewrite scalar_range. intros H. unfold char_bytes.
  destruct (Z.ltb_spec c 128).
  { cbn [app from_utf8]. by rewrite (proj2 (Z.ltb_lt c 128)) by lia. }
  destruct (Z.ltb_spec c 2048).
  { cbn [app from_utf8]. rewrite (proj2 (Z.ltb_ge _ _)) by (Z.div_mod_to_equations; lia).
    rewrite (proj2 (in_range_spec 194 223 _)) by (Z.div_mod_to_equations; lia).
    unfold continuation. rewrite (proj2 (in_range_spec 128 191 _)) by (Z.div_mod_to_equations; lia).
    do 2 f_equal. Z.div_mod_to_equations; lia. }
  destruct (Z.ltb_spec c 65536).
  { cbn [app from_utf8]. rewrite (proj2 (Z.ltb_ge _ _)) by (Z.div_mod_to_equations; lia).
    rewrite (proj2 (in_range_false 194 223 _)) by (Z.div_mod_to_equations; lia).
    rewrite (proj2 (in_range_spec 224 239 _)) by (Z.div_mod_to_equations; lia).
    unfold continuation. rewrite (proj2 (in_range_spec 128 191 _)) by (Z.div_mod_to_equations; lia).
    rewrite (proj2 (in_range_spec (if 224 + c / 4096 =? 224 then _ else _) _ _)) by (do 2 zcase; Z.div_mod_to_equations; lia).
    cbn [andb]. do 2 f_equal. Z.div_mod_to_equations; lia. }
  cbn [app from_utf8]. rewrite (proj2 (Z.ltb_ge _ _)) by (Z.div_mod_to_equations; lia).
  rewrite (proj2 (in_range_false 194 223 _)) by (Z.div_mod_to_equations; lia).
  rewrite (proj2 (in_range_false 224 239 _)) by (Z.div_mod_to_equations; lia).
  rewrite (proj2 (in_range_spec 240 244 _)) by (Z.div_mod_to_equations; lia).
  unfold continuation. rewrite !(proj2 (in_range_spec 128 191 _)) by (Z.div_mod_to_equations; lia).
  rewrite (proj2 (in_range_spec (if 240 + c / 262144 =? 240 then _ else _) _ _)) by (do 2 zcase; Z.div_mod_to_equations; lia).
  cbn [andb]. do 2 f_equal. Z.div_mod_to_equations; lia.
Qed.

Lemma from_as_bytes s : str_ok s → from_utf8 (as_bytes s) = Some s.
Proof.
  induction 1 as [|c s Hc Hs IH]; [done|].
  change (as_bytes (c :: s)) with (char_bytes c ++ as_bytes s). by rewrite from_utf8_char, IH.
Qed.

Lemma from_utf8_ascii l : Forall (λ c, 0 ≤ c < 128) l → from_utf8 l = Some l.
Proof.
  induction 1 as [|c l Hc Hl IH]; [done|]. cbn [from_utf8]. rewrite (proj2 (Z.ltb_lt c 128)) by lia. by rewrite IH.
Qed.

Lemma as_bytes_ascii s : str_is_ascii s = true → as_bytes s = s.
Proof.
  unfold str_is_ascii. induction s as [|c s IH]; [done|]. simpl. intros [Hc Hs]%andb_true_iff.
  unfold char_bytes, is_ascii in *. by rewrite Hc, IH.
Qed.
End facts.
