(* ===== verification/PathAlgorithms.v ===== *)
(** * The path methods of NSString ([frameworks/foundation/ns_string/path_algorithms.rs])

    Splitting a path into its last component and the rest, into all of its components, into
    name and extension, and appending a component: pure functions on strings.  Taken apart and put
    together again, a path comes back in its normal form: its components, separated by one slash each. *)

From S2P Require Import Prelude Fs FsFacts FsOps Text.

Definition slash (c : Z) : bool := c =? SLASH.

Definition trim_trailing_slashes (path : str) : str :=
  let without_trailing_slashes := trim_end_matches slash path in
  if bool_decide (without_trailing_slashes = []) && starts_with_slash path then [SLASH]
  else without_trailing_slashes.

(** [stringByDeletingLastPathComponent] and [lastPathComponent]. *)
Definition split_last_path_component (path : str) : str * str :=
  let path := trim_trailing_slashes path in
  if decide (path = [SLASH]) then ([SLASH], [SLASH])
  else
    match rsplit_once SLASH path with
    | Some (rest, last_path_component) =>
        let rest := if bool_decide (rest = []) && starts_with_slash path then [SLASH] else rest in
        (rest, last_path_component)
    | None => ([], path)
    end.

Definition nonempty (c : str) : Prop := c ≠ [].

Definition split_path_components (path : str) : list str :=
  let '(components, path) :=
    match strip_prefix_char SLASH path with Some path => ([[SLASH]], path) | None => ([], path) end in
  let '(path, trailing_slash) :=
    match strip_suffix_char SLASH path with Some path => (path, true) | None => (path, false) end in
  let components := components ++ filter nonempty (split_slash path) in
  if trailing_slash then components ++ [[SLASH]] else components.

(** [stringByDeletingPathExtension] and [pathExtension]. *)
Definition split_path_extension (path : str) : outcome (str * str) :=
  let path := trim_trailing_slashes path in
  let '(_, last_path_component) := split_last_path_component path in
  if bool_decide (DOT ∈ last_path_component) &&
     (negb (starts_with [DOT] last_path_component) || bool_decide (DOT ∈ drop 1 last_path_component))
  then unwrap (rsplit_once DOT path)
  else Ret (path, []).

Definition string_by_appending_path_component (base component : str) : str :=
  let a_components := split_slash base in
  let b_components := split_slash component in
  let components := filter nonempty (a_components ++ b_components) in
  if starts_with_slash base || bool_decide (base = []) && starts_with_slash component
  then SLASH :: join_slash components
  else join_slash components.

(** ** Trimming and splitting *)

Lemma trim_start_matches_spec p s :
  ∃ u, s = u ++ trim_start_matches p s ∧ Forall (λ c, p c = true) u ∧
    (∀ c, head (trim_start_matches p s) = Some c → p c = false).
Proof.
  induction s as [|c s (u & Hs & Hu & Hh)]; simpl; [by exists []|].
  destruct (p c) eqn:E.
  - exists (c :: u). rewrite Hs at 1. split; [done|]. split; [by constructor|done].
  - exists []. split; [done|]. split; [done|]. intros ? [= <-]. done.
Qed.

Lemma trim_end_matches_spec p s :
  ∃ u, s = trim_end_matches p s ++ u ∧ Forall (λ c, p c = true) u ∧
    (∀ c, last (trim_end_matches p s) = Some c → p c = false).
Proof.
  destruct (trim_start_matches_spec p (reverse s)) as (u & Hs & Hu & Hh).
  exists (reverse u). unfold trim_end_matches. split; [|split].
  - rewrite <- reverse_app, <- Hs. by rewrite reverse_involutive.
  - by apply Forall_reverse.
  - intros c Hc. apply Hh. by rewrite last_reverse in Hc.
Qed.

Lemma rsplit_once_None x s : rsplit_once x s = None ↔ x ∉ s.
Proof.
  induction s as [|c s IH]; simpl; [split; [intros _; apply not_elem_of_nil|done]|].
  rewrite not_elem_of_cons. destruct (rsplit_once x s) as [[a b]|] eqn:E; simpl.
  - split; [done|]. intros [_ H]. by apply IH in H.
  - destruct (Z.eqb_spec c x); [naive_solver|]. split; [|done]. intros _. split; [congruence|]. by apply IH.
Qed.
Lemma rsplit_once_Some x s a b : rsplit_once x s = Some (a, b) ↔ s = a ++ x :: b ∧ x ∉ b.
Proof.
  revert a b. induction s as [|c s IH]; intros a b; simpl; [split; [done|by intros [?%app_cons_not_nil]]|].
  destruct (rsplit_once x s) as [[a' b']|] eqn:E.
  - destruct (proj1 (IH a' b') eq_refl) as [-> Hb]. split.
    + intros [= <- <-]. done.
    + intros [Heq Hb']. destruct a as [|c' a].
      * injection Heq as -> Heq. exfalso. apply Hb'. rewrite <- Heq. set_solver.
      * injection Heq as -> Heq. assert (Some (a', b') = Some (a, b)) as [= -> ->] by (apply IH; done). done.
  - apply rsplit_once_None in E. destruct (Z.eqb_spec c x) as [->|Hne]; split.
    + by intros [= <- <-].
    + intros [Heq Hb]. destruct a as [|c' a]; [by injection Heq as ->|]. injection Heq as -> ->. set_solver.
    + done.
    + intros [Heq Hb]. destruct a as [|c' a]; [by injection Heq as ->|]. injection Heq as -> ->. set_solver.
Qed.

(** ** Components *)

Definition path_components (p : str) : list str := filter nonempty (split_slash p).
(** The components with one slash between them, and one in front of an absolute path. *)
Definition normal_path (p : str) : str :=
  if starts_with_slash p then SLASH :: join_slash (path_components p) else join_slash (path_components p).

(** Components: not empty, without slashes. *)
Definition plain_component (w : str) : Prop := w ≠ [] ∧ SLASH ∉ w.

Lemma split_slash_cons c s :
  split_slash (c :: s) = if c =? SLASH then [] :: split_slash s
                         else match split_slash s with w :: ws => (c :: w) :: ws | [] => [[]] end.
Proof. simpl. pose proof (split_slash_nonempty s). destruct (split_slash s); [done|]. by destruct (c =? SLASH). Qed.

Lemma split_slash_app_slash a b : split_slash (a ++ SLASH :: b) = split_slash a ++ split_slash b.
Proof.
  induction a as [|c a IH].
  - change ([] ++ SLASH :: b) with (SLASH :: b). rewrite split_slash_cons. done.
  - change ((c :: a) ++ SLASH :: b) with (c :: (a ++ SLASH :: b)). rewrite !split_slash_cons, IH.
    destruct (c =? SLASH); [done|]. pose proof (split_slash_nonempty a). by destruct (split_slash a).
Qed.

Lemma path_components_app a b : path_components (a ++ SLASH :: b) = path_components a ++ path_components b.
Proof. unfold path_components. by rewrite split_slash_app_slash, filter_app. Qed.
Lemma path_components_nil : path_components [] = [].
Proof. done. Qed.
Lemma path_components_slashes a u : Forall (λ c, slash c = true) u → path_components (a ++ u) = path_components a.
Proof.
  intros Hu. revert a. induction Hu as [|c u Hc Hu IH]; intros a; [by rewrite app_nil_r|].
  apply Z.eqb_eq in Hc as ->. rewrite path_components_app, <- (app_nil_l u), IH. apply app_nil_r.
Qed.
Lemma path_components_plain w : plain_component w → path_components w = [w].
Proof.
  intros [Hw Hs]. unfold path_components. rewrite split_slash_plain by done. by rewrite filter_cons_True, filter_nil.
Qed.
Lemma path_components_ok p : Forall plain_component (path_components p).
Proof.
  apply Forall_forall. intros w [Hw Hin]%list_elem_of_filter. split; [done|].
  pose proof (split_slash_no_slash p) as H. rewrite Forall_forall in H. by apply H.
Qed.

Lemma components_join ws : Forall plain_component ws → path_components (join_slash ws) = ws.
Proof.
  intros H. induction H as [|w ws Hw Hws IH]; [done|]. destruct ws as [|w' ws].
  - simpl. by apply path_components_plain.
  - rewrite join_slash_cons by done. rewrite path_components_app, IH, path_components_plain by done. done.
Qed.
Lemma join_relative ws : Forall plain_component ws → starts_with_slash (join_slash ws) = false.
Proof.
  intros H. destruct H as [|w ws [Hw Hs] Hws]; [done|]. assert (starts_with_slash w = false) as Hw'.
  { destruct w as [|c w]; [done|]. simpl. apply Z.eqb_neq. set_solver. }
  destruct ws; [done|]. rewrite join_slash_cons by done. destruct w; done.
Qed.

(** ** Appending *)

Definition absolute_append (base component : str) : bool :=
  starts_with_slash base || bool_decide (base = []) && starts_with_slash component.

Lemma append_eq base component :
  string_by_appending_path_component base component =
    (if absolute_append base component then [SLASH] else []) ++ join_slash (path_components base ++ path_components component).
Proof. unfold string_by_appending_path_component. rewrite filter_app. unfold absolute_append. by destruct (_ || _). Qed.

Lemma normal_eq p : normal_path p = (if starts_with_slash p then [SLASH] else []) ++ join_slash (path_components p).
Proof. unfold normal_path. by destruct (starts_with_slash p). Qed.

Lemma components_prefixed (b : bool) ws :
  Forall plain_component ws →
  path_components ((if b then [SLASH] else []) ++ join_slash ws) = ws ∧
  starts_with_slash ((if b then [SLASH] else []) ++ join_slash ws) = b.
Proof.
  intros H. destruct b.
  - split; [|done]. change ([SLASH] ++ join_slash ws) with ([] ++ SLASH :: join_slash ws). rewrite path_components_app. by apply components_join.
  - split; [by apply components_join|by apply join_relative].
Qed.

Lemma components_append base component :
  path_components (string_by_appending_path_component base component) = path_components base ++ path_components component ∧
  starts_with_slash (string_by_appending_path_component base component) = absolute_append base component.
Proof. rewrite append_eq. apply components_prefixed, Forall_app. split; apply path_components_ok. Qed.

Lemma normal_path_append base component :
  normal_path (string_by_appending_path_component base component) = string_by_appending_path_component base component.
Proof. destruct (components_append base component) as [Hc Hs]. by rewrite normal_eq, Hc, Hs, append_eq. Qed.
Lemma normal_path_idemp p : normal_path (normal_path p) = normal_path p.
Proof.
  rewrite normal_eq at 1. destruct (components_prefixed (starts_with_slash p) (path_components p)) as [Hc Hs]; [apply path_components_ok|].
  rewrite <- normal_eq in Hc, Hs. by rewrite Hc, Hs, <- normal_eq.
Qed.

(** ** Taking apart *)

Lemma slash_iff c : slash c = true ↔ c = SLASH.
Proof. apply Z.eqb_eq. Qed.

Lemma starts_with_slash_app a b : a ≠ [] → starts_with_slash (a ++ b) = starts_with_slash a.
Proof. by destruct a. Qed.

Lemma trim_components p :
  path_components (trim_trailing_slashes p) = path_components p ∧
  starts_with_slash (trim_trailing_slashes p) = starts_with_slash p.
Proof.
  unfold trim_trailing_slashes. destruct (trim_end_matches_spec slash p) as (u & Hp & Hu & _).
  set (t := trim_end_matches slash p) in *. clearbody t. subst p. rewrite path_components_slashes by done.
  destruct t as [|c t]; cbn [bool_decide decide]; [|by rewrite andb_false_l].
  rewrite bool_decide_true by done. cbn [andb app]. destruct Hu as [|c u Hc Hu]; [done|]. cbn [starts_with_slash].
  apply slash_iff in Hc as ->. done.
Qed.

(** After trimming, no slash at the end, other than the one of the root. *)
Lemma trim_last p : trim_trailing_slashes p = [SLASH] ∨ last (trim_trailing_slashes p) ≠ Some SLASH.
Proof.
  unfold trim_trailing_slashes. destruct (trim_end_matches_spec slash p) as (u & _ & _ & Hl).
  destruct (_ && _); [by left|]. right. intros H. by apply Hl in H.
Qed.

(** The last component of a path that is not the root, and what is before it. *)
Lemma split_last_cases p :
  let path := trim_trailing_slashes p in let '(rest, name) := split_last_path_component p in
  (path = [SLASH] ∧ rest = [SLASH] ∧ name = [SLASH]) ∨
  (path ≠ [SLASH] ∧ SLASH ∉ name ∧ (name = [] → path = []) ∧
   path_components path = path_components rest ++ path_components name ∧ absolute_append rest name = starts_with_slash path ∧
   ∃ b, path = b ++ name).
Proof.
  unfold split_last_path_component. pose proof (trim_last p) as Hl. set (path := trim_trailing_slashes p) in *. clearbody path. cbv zeta.
  case_decide as Hr; cbv beta iota; [by left|]. destruct Hl as [?|Hl]; [done|].
  destruct (rsplit_once SLASH path) as [[rest name]|] eqn:E.
  - right. apply rsplit_once_Some in E as [-> Hn]. split; [done|]. split; [done|]. split; [|split; [|split; [|eexists; by rewrite cons_middle, app_assoc]]].
    + intros ->. by rewrite last_snoc in Hl.
    + rewrite path_components_app. destruct rest as [|c rest]; [done|].
      rewrite bool_decide_false by done. done.
    + unfold absolute_append. destruct rest as [|c rest]; [done|]. rewrite bool_decide_false by done. cbn [andb app starts_with_slash].
      by rewrite bool_decide_false, andb_false_l, orb_false_r by done.
  - right. apply rsplit_once_None in E. split; [done|]. split; [done|]. split; [done|]. split; [done|]. split; [done|]. by exists [].
Qed.

Lemma append_last_component p :
  string_by_appending_path_component (split_last_path_component p).1 (split_last_path_component p).2 = normal_path p.
Proof.
  destruct (trim_components p) as [Hc Hs]. pose proof (split_last_cases p) as H. cbv zeta in H.
  destruct (split_last_path_component p) as [rest name]. cbn [fst snd]. rewrite append_eq, normal_eq, <- Hc, <- Hs.
  destruct H as [(-> & -> & ->)|(_ & _ & _ & -> & -> & _)]; done.
Qed.

(** *** All components *)

Lemma foldl_append ws p :
  Forall plain_component ws → (p ≠ []) →
  foldl string_by_appending_path_component p ws =
    match ws with [] => p | _ => (if starts_with_slash p then [SLASH] else []) ++ join_slash (path_components p ++ ws) end.
Proof.
  intros H. revert p. induction H as [|w ws Hw Hws IH]; intros p Hp; [done|]. simpl foldl.
  assert (absolute_append p w = starts_with_slash p) as Ha.
  { unfold absolute_append. rewrite (bool_decide_false (p = [])) by done. by rewrite andb_false_l, orb_false_r. }
  destruct (components_append p w) as [Hc Hs]. rewrite Ha in Hs. rewrite (path_components_plain w) in Hc by done.
  rewrite IH.
  - destruct ws as [|w' ws].
    + by rewrite append_eq, Ha, (path_components_plain w).
    + rewrite Hs, Hc, <- app_assoc. done.
  - intros E. rewrite E in Hc. rewrite path_components_nil in Hc. by destruct (path_components p).
Qed.

Lemma plain_relative w : plain_component w → starts_with_slash w = false.
Proof. intros Hw. apply (join_relative [w]). by constructor. Qed.

Lemma foldl_append_plain (b : bool) ws :
  Forall plain_component ws →
  foldl string_by_appending_path_component (if b then [SLASH] else []) ws = (if b then [SLASH] else []) ++ join_slash ws.
Proof.
  intros H. destruct b.
  - rewrite foldl_append by done. by destruct ws.
  - destruct H as [|w ws Hw Hws]; [done|]. cbn [foldl app]. assert (string_by_appending_path_component [] w = w) as ->.
    { rewrite append_eq, (path_components_plain w) by done. unfold absolute_append. rewrite (plain_relative w) by done. done. }
    rewrite foldl_append by (done || by destruct Hw). rewrite plain_relative, path_components_plain by done. by destruct ws.
Qed.

(** A trailing slash in the list of the components changes nothing. *)
Lemma append_slash p : p ≠ [] → string_by_appending_path_component p [SLASH] = normal_path p.
Proof.
  intros Hp. rewrite append_eq, normal_eq. unfold absolute_append. rewrite bool_decide_false by done.
  rewrite andb_false_l, orb_false_r. by rewrite app_nil_r.
Qed.

Lemma strip_prefix_char_spec p :
  (∃ q, p = SLASH :: q ∧ strip_prefix_char SLASH p = Some q) ∨ (starts_with_slash p = false ∧ strip_prefix_char SLASH p = None).
Proof.
  destruct p as [|c q]; [by right|]. simpl. destruct (Z.eqb_spec c SLASH) as [->|]; [left; eauto|by right].
Qed.
Lemma strip_suffix_char_spec p :
  (∃ q, p = q ++ [SLASH] ∧ strip_suffix_char SLASH p = Some q) ∨ strip_suffix_char SLASH p = None.
Proof.
  unfold strip_suffix_char. destruct (strip_prefix_char_spec (reverse p)) as [(q & Hq & ->)|[_ ->]]; [|by right].
  left. exists (reverse q). split; [|done]. rewrite <- (reverse_involutive p), Hq. by rewrite reverse_cons.
Qed.

(** The components of the list, but for the slashes that mark an absolute path and a trailing slash. *)
Lemma split_path_components_eq p :
  ∃ t : bool, split_path_components p =
    (if starts_with_slash p then [[SLASH]] else []) ++ path_components p ++ (if t then [[SLASH]] else []) ∧
    (t = true → path_components p ≠ [] ∨ starts_with_slash p = true).
Proof.
  unfold split_path_components.
  assert (∀ l q, path_components q = path_components p →
    (starts_with_slash p = true ∨ starts_with_slash q = false) → ∃ t : bool,
    (let '(path, trailing_slash) := match strip_suffix_char SLASH q with Some path => (path, true) | None => (q, false) end in
     if trailing_slash then (l ++ filter nonempty (split_slash path)) ++ [[SLASH]] else l ++ filter nonempty (split_slash path))
    = l ++ path_components p ++ (if t then [[SLASH]] else []) ∧ (t = true → path_components p ≠ [] ∨ starts_with_slash p = true)) as Hsuf.
  { intros l q Hq Hs. destruct (strip_suffix_char_spec q) as [(q' & -> & ->)| ->].
    - exists true. cbv beta iota. rewrite path_components_slashes in Hq by (repeat constructor). fold (path_components q'). rewrite Hq, <- app_assoc.
      split; [done|]. intros _. destruct Hs as [?|Hs]; [by right|]. left. rewrite <- Hq. destruct q' as [|c q']; [done|].
      unfold path_components. rewrite split_slash_cons. cbn in Hs. rewrite Hs. pose proof (split_slash_nonempty q').
      destruct (split_slash q'); [done|]. by rewrite filter_cons_True.
    - exists false. cbv beta iota. fold (path_components q). rewrite Hq, app_nil_r. done. }
  destruct (strip_prefix_char_spec p) as [(q & -> & ->)|[Hs ->]]; cbv beta iota zeta.
  - apply Hsuf; [symmetry; apply (path_components_app [] q)|by left].
  - destruct (Hsuf [] p) as (t & E & Ht); [done|by right|]. exists t. rewrite Hs in *. by split.
Qed.

Lemma append_all_components p : foldl string_by_appending_path_component [] (split_path_components p) = normal_path p.
Proof.
  destruct (split_path_components_eq p) as (t & -> & Ht). rewrite foldl_app, foldl_app, normal_eq.
  replace (foldl string_by_appending_path_component [] (if starts_with_slash p then [[SLASH]] else []))
    with (if starts_with_slash p then [SLASH] else []) by by destruct (starts_with_slash p).
  rewrite foldl_append_plain by apply path_components_ok. rewrite <- normal_eq. destruct t; [|done]. cbn [foldl].
  rewrite append_slash; [apply normal_path_idemp|]. rewrite normal_eq. destruct (Ht eq_refl) as [Hne| ->]; [|done].
  destruct (path_components_ok p) as [|w ws [Hw _] _]; [done|]. intros E. apply app_nil in E as [_ E]. destruct ws; [done|]. simpl in E. by apply app_nil in E as [? _].
Qed.

(** *** The extension *)

Lemma elem_of_starts c w : starts_with [c] w = true ↔ ∃ w', w = c :: w'.
Proof.
  destruct w as [|d w]; simpl; [split; [done|by intros [? ?]]|]. rewrite andb_true_r, Z.eqb_eq.
  split; [intros ->; by eexists|by intros [? [= ->]]].
Qed.

(** The name of a path without an extension is the path, without slashes at its end; otherwise an
    extension and a dot are taken off the end, the extension holds neither a dot nor a slash, and it does not
    start the name of the file. *)
Lemma split_extension p :
  ∃ rest ext (dotted : bool), split_path_extension p = Ret (rest, ext) ∧
    trim_trailing_slashes p = rest ++ (if dotted then DOT :: ext else []) ∧
    DOT ∉ ext ∧ SLASH ∉ ext ∧ (dotted = false → ext = []) ∧
    (dotted = true → rest ≠ [] ∧ last rest ≠ Some SLASH).
Proof.
  assert (∀ q, trim_trailing_slashes (trim_trailing_slashes q) = trim_trailing_slashes q) as Htt.
  { intros q. pose proof (trim_last q) as [E|Hl]; [by rewrite E|]. set (t := trim_trailing_slashes q) in *. clearbody t.
    unfold trim_trailing_slashes. destruct (trim_end_matches_spec slash t) as (u & Ht & Hu & _).
    destruct u as [|c u _] using rev_ind; [rewrite app_nil_r in Ht; rewrite <- Ht; by destruct t|].
    exfalso. apply Hl. rewrite Ht, app_assoc, last_snoc. apply Forall_app in Hu as [_ Hu].
    apply Forall_cons in Hu as [Hc _]. by apply slash_iff in Hc as ->. }
  pose proof (split_last_cases (trim_trailing_slashes p)) as H. cbv zeta in H. rewrite Htt in H.
  unfold split_path_extension. cbv zeta. destruct (split_last_path_component (trim_trailing_slashes p)) as [rest name].
  set (t := trim_trailing_slashes p) in *. clearbody t. cbv beta iota.
  destruct (_ && _) eqn:E; [|exists t, [], false; rewrite app_nil_r; repeat split; try done; apply not_elem_of_nil].
  apply andb_true_iff in E as [Hdot Hst]. apply bool_decide_eq_true in Hdot.
  destruct H as [(_ & _ & ->)|(_ & Hn & _ & _ & _ & b & ->)]; [by apply list_elem_of_singleton in Hdot|].
  destruct (rsplit_once DOT name) as [[n1 ext]|] eqn:En; [|by apply rsplit_once_None in En].
  apply rsplit_once_Some in En as [-> Hext]. assert (rsplit_once DOT (b ++ n1 ++ DOT :: ext) = Some (b ++ n1, ext)) as ->.
  { apply rsplit_once_Some. by rewrite app_assoc. }
  apply not_elem_of_app in Hn as [Hn1 Hn2].
  exists (b ++ n1), ext, true. split; [done|]. rewrite app_assoc. split; [done|]. split; [done|].
  split; [set_solver|]. split; [done|]. intros _.
  assert (n1 ≠ []) as Hne.
  { intros ->. apply orb_true_iff in Hst as [Hst|Hst].
    - by rewrite (proj2 (elem_of_starts DOT _)) in Hst by by eexists.
    - by apply bool_decide_eq_true in Hst. }
  destruct n1 as [|c n1 _] using rev_ind; [done|]. split; [by destruct b; simpl; [destruct n1|]|].
  rewrite app_assoc, last_snoc. set_solver.
Qed.


(** The cases of the documentation and of the tests. *)
Example paths_of_the_tests :
  split_last_path_component (bytes_of "/a/b///") = (bytes_of "/a", bytes_of "b") ∧
  split_last_path_component (bytes_of "a//////") = ([], bytes_of "a") ∧
  split_path_components (bytes_of "a/b///") = [bytes_of "a"; bytes_of "b"; bytes_of "/"] ∧
  split_path_components (bytes_of "//") = [bytes_of "/"; bytes_of "/"] ∧
  split_path_extension (bytes_of "~/.ssh") = Ret (bytes_of "~/.ssh", []) ∧
  split_path_extension (bytes_of "a..png") = Ret (bytes_of "a.", bytes_of "png") ∧
  string_by_appending_path_component [] (bytes_of "///") = bytes_of "/".
Proof. vm_compute. done. Qed.
