(* ===== verification/NSString.v ===== *)
(** * NSString and NSCharacterSet ([frameworks/foundation/ns_string.rs], [ns_character_set.rs],
      [frameworks/core_foundation/cf_string.rs])

    Strings are objects whose host side is either a Rust string or a vector of UTF-16 code
    units; methods that need the units change the representation of the object in place.  The state
    holds the objects with their reference counts, the autorelease pool, the pool of static strings,
    the guest file system's home directory (inside [Fs]) and guest memory.  Messages go to the class's own method, as
    the dispatch does for the five string classes; subclasses by the app are not modelled. *)

From S2P Require Import Prelude SizeBucketed VMAllocator HeapAllocator GuestMem Semaphore Fs Text PathAlgorithms.

(** ** Encodings and options *)

Definition NSASCIIStringEncoding : Z := 1.
Definition NSUTF8StringEncoding : Z := 4.
Definition NSISOLatin1StringEncoding : Z := 5.
Definition NSShiftJISStringEncoding : Z := 8.
Definition NSUTF16StringEncoding : Z := 10.
Definition NSWindowsCP1252StringEncoding : Z := 12.
Definition NSMacOSRomanStringEncoding : Z := 30.
Definition NSUTF16BigEndianStringEncoding : Z := 0x90000100.
Definition NSUTF16LittleEndianStringEncoding : Z := 0x94000100.

Definition NSCaseInsensitiveSearch : Z := 1.
Definition NSLiteralSearch : Z := 2.
Definition NSBackwardsSearch : Z := 4.
Definition NSNumericSearch : Z := 64.

Definition C_STRING_FRIENDLY_ENCODINGS : list Z :=
  [NSASCIIStringEncoding; NSUTF8StringEncoding; NSWindowsCP1252StringEncoding; NSMacOSRomanStringEncoding; NSISOLatin1StringEncoding].
Definition NSMaximumStringLength : Z := 2147483646.

(** [NSNotFound] and [kCFNotFound]. *)
Definition ns_not_found : Z := 2147483647.
Definition kCFNotFound : Z := -1.

(** [NSComparisonResult]. *)
Definition NSOrderedAscending : Z := -1.
Definition NSOrderedSame : Z := 0.
Definition NSOrderedDescending : Z := 1.
Definition from_rust_ordering (o : comparison) : Z :=
  match o with Lt => NSOrderedAscending | Eq => NSOrderedSame | Gt => NSOrderedDescending end.

(** ** Host objects *)

Inductive StringHostObject := Utf8 (s : str) | Utf16 (u : list Z).

(** The classes of strings: [_touchHLE_NSString], [_touchHLE_NSMutableString], [_touchHLE_NSString_Static] and
    its two subclasses for the strings of the app binary. *)
Inductive StrClass := TouchString | TouchMutableString | StaticString | ConstantUtf8 | ConstantUtf16.
#[global] Instance StrClass_eq_dec : EqDecision StrClass.
Proof. solve_decision. Defined.

Inductive NsObj :=
| StrObj (c : StrClass) (h : StringHostObject)
| CharSetObj (is_mutable : bool) (set : gset Z) (inverted : bool)
| ArrObj (elements : list Z)
| DataObj (data_bytes data_length : Z).

(** The objects with their reference counts ([None]: static, never deallocated). *)
Record Ns := mkNs {
  ns_objs : gmap Z (option Z * NsObj); ns_pool : list Z; static_str_pool : gmap (list Z) Z; ns_fs : Fs; ns_mem : Mem }.
Definition set_ns_objs (x : gmap Z (option Z * NsObj)) (w : Ns) : Ns := mkNs x (ns_pool w) (static_str_pool w) (ns_fs w) (ns_mem w).
Definition set_ns_pool (x : list Z) (w : Ns) : Ns := mkNs (ns_objs w) x (static_str_pool w) (ns_fs w) (ns_mem w).
Definition set_static_str_pool (x : gmap (list Z) Z) (w : Ns) : Ns := mkNs (ns_objs w) (ns_pool w) x (ns_fs w) (ns_mem w).
Definition set_ns_mem (x : Mem) (w : Ns) : Ns := mkNs (ns_objs w) (ns_pool w) (static_str_pool w) (ns_fs w) x.

(** [env.objc.borrow::<StringHostObject>(o)], with the reference count and the class. *)
Definition borrow_str (o : Z) (w : Ns) : outcome (option Z * StrClass * StringHostObject) :=
  match ns_objs w !! o with Some (n, StrObj c h) => Ret (n, c, h) | _ => Panic end.
Definition put_str (o : Z) (n : option Z) (c : StrClass) (h : StringHostObject) (w : Ns) : Ns :=
  set_ns_objs (<[o := (n, StrObj c h)]> (ns_objs w)) w.
(** [*env.objc.borrow_mut(o) = h]. *)
Definition set_host_object (o : Z) (h : StringHostObject) (w : Ns) : outcome Ns :=
  '(n, c, _) ← borrow_str o w; Ret (put_str o n c h w).
Definition str_class_of (o : Z) (w : Ns) : outcome StrClass := '(_, c, _) ← borrow_str o w; Ret c.

(** [iter_code_units]. *)
Definition iter_code_units (h : StringHostObject) : list Z :=
  match h with Utf8 s => encode_utf16 s | Utf16 u => u end.
(** [to_utf8]: an error for ill-formed UTF-16. *)
Definition to_utf8 (h : StringHostObject) : option str :=
  match h with Utf8 s => Some s | Utf16 u => from_utf16 u end.
Definition is_utf16 (h : StringHostObject) : bool := match h with Utf16 _ => true | Utf8 _ => false end.
(** [host_object.convert_to_utf16_inplace()] on the host object of [o]. *)
Definition convert_to_utf16_inplace (o : Z) (w : Ns) : outcome (list Z * Ns) :=
  '(n, c, h) ← borrow_str o w;
  let u := iter_code_units h in
  Ret (u, if is_utf16 h then w else put_str o n c (Utf16 u) w).

(** [u16::from_be_bytes] and [from_le_bytes] of the chunks of two bytes. *)
Fixpoint u16_chunks (big_endian : bool) (l : list Z) : list Z :=
  match l with
  | a :: b :: l' => (if big_endian then a * 256 + b else b * 256 + a) :: u16_chunks big_endian l'
  | _ => []
  end.
(** [u16::to_le_bytes] of each unit. *)
Definition u16_le_bytes (u : list Z) : list Z := u ≫= le_bytes 2.

Section strings.
(** Addresses of new objects; [char::to_lowercase] and [to_uppercase] beyond ASCII; the decoders of the [encoding_rs] crate
    ([None]: there were errors); [str::to_lowercase] of a string with a capital sigma. *)
Context (fresh_id : Ns → Z) (unicode_lowercase unicode_uppercase : Z → list Z).
Context (sigma_lowercase : str → str) (WINDOWS_1252_decode SHIFT_JIS_decode : list Z → option str).

(** ** Characters *)

Definition char_to_lowercase (c : Z) : list Z :=
  if is_ascii c then [if (65 <=? c) && (c <=? 90) then c + 32 else c] else unicode_lowercase c.
Definition char_to_uppercase (c : Z) : list Z :=
  if is_ascii c then [if (97 <=? c) && (c <=? 122) then c - 32 else c] else unicode_uppercase c.

(** [|a, b| { ... a_c.to_lowercase().eq(b_c.to_lowercase()) }]. *)
Definition case_insensitive_eq (a b : Z) : outcome bool :=
  match char_from_u32 a, char_from_u32 b with
  | Some a_c, Some b_c => Ret (bool_decide (char_to_lowercase a_c = char_to_lowercase b_c))
  | _, _ => Panic
  end.

(** ** [StringHostObject::decode] *)

Definition decode (bytes : list Z) (encoding : Z) : outcome StringHostObject :=
  if decide (bytes = []) then Ret (Utf8 [])
  else if bool_decide (encoding ∈ [NSASCIIStringEncoding; NSMacOSRomanStringEncoding; NSISOLatin1StringEncoding]) then
    rassert (str_is_ascii bytes);; Ret (Utf8 bytes)
  else if encoding =? NSUTF8StringEncoding then
    s ← unwrap (from_utf8 bytes); Ret (Utf8 s)
  else if encoding =? NSWindowsCP1252StringEncoding then
    s ← unwrap (WINDOWS_1252_decode bytes); Ret (Utf8 s)
  else if encoding =? NSShiftJISStringEncoding then
    s ← unwrap (SHIFT_JIS_decode bytes); Ret (Utf8 s)
  else if bool_decide (encoding ∈ [NSUTF16StringEncoding; NSUTF16BigEndianStringEncoding; NSUTF16LittleEndianStringEncoding]) then
    rassert (Z.of_nat (length bytes) mod 2 =? 0);;
    let is_big_endian :=
      if encoding =? NSUTF16BigEndianStringEncoding then true
      else if encoding =? NSUTF16LittleEndianStringEncoding then false
      else bool_decide (take 2 bytes = [0xFE; 0xFF]) in
    Ret (Utf16 (u16_chunks is_big_endian bytes))
  else Panic.

(** ** [strip_prefix] of the iterators *)

Fixpoint iter_strip_prefix (self prefix : list Z) (case_insensitive : bool) : outcome (option (list Z)) :=
  match prefix with
  | [] => Ret (Some self)
  | prefix_c :: prefix' =>
      match self with
      | [] => Ret None
      | self_c :: self' =>
          same ← (if case_insensitive then case_insensitive_eq self_c prefix_c else Ret (self_c =? prefix_c));
          if same : bool then iter_strip_prefix self' prefix' case_insensitive else Ret None
      end
  end.

(** ** Objects *)

Definition is_static (o : Z) (w : Ns) : outcome bool :=
  '(n, _) ← unwrap (ns_objs w !! o); Ret (bool_decide (n = None)).
Definition ns_retain (o : Z) (w : Ns) : outcome (Z * Ns) :=
  if o =? 0 then Ret (o, w)
  else
    '(n, h) ← unwrap (ns_objs w !! o);
    match n with
    | None => Ret (o, w)
    | Some n => n ← u32 (n + 1); Ret (o, set_ns_objs (<[o := (Some n, h)]> (ns_objs w)) w)
    end.
Definition ns_autorelease (o : Z) (w : Ns) : outcome (Z * Ns) :=
  if o =? 0 then Ret (o, w)
  else
    '(n, _) ← unwrap (ns_objs w !! o);
    Ret (o, match n with None => w | Some _ => set_ns_pool (ns_pool w ++ [o]) w end).
(** [release] of a string: its deallocation releases nothing. *)
Definition release_str (o : Z) (w : Ns) : outcome Ns :=
  '(n, c, h) ← borrow_str o w;
  match n with
  | None => Ret w
  | Some n => if 1 <? n then Ret (put_str o (Some (n - 1)) c h w) else Ret (set_ns_objs (delete o (ns_objs w)) w)
  end.
Definition ns_alloc (n : option Z) (h : NsObj) (w : Ns) : outcome (Z * Ns) :=
  let o := fresh_id w in
  rassert (negb (o =? 0) && bool_decide (ns_objs w !! o = None));;
  Ret (o, set_ns_objs (<[o := (n, h)]> (ns_objs w)) w).

(** [[_touchHLE_NSString alloc]], [[_touchHLE_NSMutableString alloc]] (or [new]) and [[_touchHLE_NSString_Static alloc]]. *)
Definition string_alloc : Ns → outcome (Z * Ns) := ns_alloc (Some 1) (StrObj TouchString (Utf8 [])).
Definition mutable_string_alloc : Ns → outcome (Z * Ns) := ns_alloc (Some 1) (StrObj TouchMutableString (Utf8 [])).
Definition static_string_alloc : Ns → outcome (Z * Ns) := ns_alloc None (StrObj StaticString (Utf8 [])).

Definition string_with (alloc : Ns → outcome (Z * Ns)) (h : StringHostObject) (w : Ns) : outcome (Z * Ns) :=
  '(o, w) ← alloc w; w ← set_host_object o h w; Ret (o, w).
Definition from_rust_string (s : str) : Ns → outcome (Z * Ns) := string_with string_alloc (Utf8 s).
Definition mutable_from_rust_string (s : str) : Ns → outcome (Z * Ns) := string_with mutable_string_alloc (Utf8 s).
Definition from_u16_vec (u : list Z) : Ns → outcome (Z * Ns) := string_with string_alloc (Utf16 u).
Definition get_static_str (s : str) (w : Ns) : outcome (Z * Ns) :=
  match static_str_pool w !! s with
  | Some existing => Ret (existing, w)
  | None =>
      '(o, w) ← string_with static_string_alloc (Utf8 s) w;
      Ret (o, set_static_str_pool (<[s := o]> (static_str_pool w)) w)
  end.
(** [ns_array::from_vec]. *)
Definition array_from_vec (l : list Z) : Ns → outcome (Z * Ns) := ns_alloc (Some 1) (ArrObj l).
(** [[NSData dataWithBytesNoCopy:length:]]. *)
Definition dataWithBytesNoCopy (bytes length_ : Z) (w : Ns) : outcome (Z * Ns) :=
  '(o, w) ← ns_alloc (Some 1) (DataObj bytes length_) w; ns_autorelease o w.

(** The objects of a list of values, allocated in order. *)
Fixpoint alloc_each {A} (alloc : A → Ns → outcome (Z * Ns)) (l : list A) (w : Ns) : outcome (list Z * Ns) :=
  match l with
  | [] => Ret ([], w)
  | x :: l => '(o, w) ← alloc x w; '(os, w) ← alloc_each alloc l w; Ret (o :: os, w)
  end.
(** An autoreleased array of new strings. *)
Definition array_of {A} (alloc : A → Ns → outcome (Z * Ns)) (l : list A) (w : Ns) : outcome (Z * Ns) :=
  '(os, w) ← alloc_each alloc l w;
  '(array, w) ← array_from_vec os w;
  ns_autorelease array w.

(** [to_rust_string] and [for_each_code_unit]: an object that is no string panics, and so does [nil]. *)
Definition to_rust_string (o : Z) (w : Ns) : outcome str :=
  '(_, _, h) ← borrow_str o w; unwrap (to_utf8 h).
Definition code_units (o : Z) (w : Ns) : outcome (list Z) :=
  '(_, _, h) ← borrow_str o w; Ret (iter_code_units h).
(** A new string from a Rust string, autoreleased. *)
Definition autoreleased_str (s : str) (w : Ns) : outcome (Z * Ns) :=
  '(o, w) ← from_rust_string s w; ns_autorelease o w.

(** ** Code units *)

Definition ns_length (this : Z) (w : Ns) : outcome (Z * Ns) :=
  '(utf16, w) ← convert_to_utf16_inplace this w;
  n ← u32 (Z.of_nat (length utf16)); Ret (n, w).
Definition characterAtIndex (this index : Z) (w : Ns) : outcome (Z * Ns) :=
  '(utf16, w) ← convert_to_utf16_inplace this w;
  c ← unwrap (utf16 !! Z.to_nat index); Ret (c, w).
(** A message to [nil] gives zero. *)
Definition msg_length (o : Z) (w : Ns) : outcome (Z * Ns) := if o =? 0 then Ret (0, w) else ns_length o w.

Definition lengthOfBytesUsingEncoding (this encoding : Z) (w : Ns) : outcome Z :=
  rassert (bool_decide (encoding ∈ C_STRING_FRIENDLY_ENCODINGS));;
  string ← to_rust_string this w;
  rassert (str_is_ascii string);;
  u32 (str_len string).

(** ** Searching *)

Definition is_match_at_position (the_string search_string start len len_search : Z) (compare_fn : Z → Z → outcome bool) (w : Ns)
    : outcome (bool * Ns) :=
  r ← for_range len_search (λ j w,
        curr ← u32 (start + j);
        if curr <? len then
          '(a_c, w) ← characterAtIndex the_string curr w;
          '(b_c, w) ← characterAtIndex search_string j w;
          ok ← compare_fn a_c b_c;
          Ret (if ok : bool then inl w else inr w)
        else Ret (inr w)) w;
  Ret (match r with inl w => (true, w) | inr w => (false, w) end).

Definition unit_eq (a b : Z) : outcome bool := Ret (a =? b).
(** The positions in the order in which they are tried; the first that matches. *)
Definition search_positions (this search_string len len_search : Z) (backwards : bool) (compare_fn : Z → Z → outcome bool) (w : Ns)
    : outcome (Z * Z * Ns) :=
  r ← for_range len (λ k w,
        let i := if backwards then len - 1 - k else k in
        '(found, w) ← is_match_at_position this search_string i len len_search compare_fn w;
        Ret (if found : bool then inr (i, len_search, w) else inl w)) w;
  Ret (match r with inl w => (ns_not_found, 0, w) | inr x => x end).

Definition rangeOfString_options (this search_string options : Z) (w : Ns) : outcome (Z * Z * Ns) :=
  '(len, w) ← ns_length this w;
  '(len_search, w) ← msg_length search_string w;
  if len_search =? 0 then Ret (ns_not_found, 0, w)
  else if (options =? NSLiteralSearch) || (options =? 0) then search_positions this search_string len len_search false unit_eq w
  else if options =? NSCaseInsensitiveSearch then search_positions this search_string len len_search false case_insensitive_eq w
  else if options =? NSBackwardsSearch then search_positions this search_string len len_search true unit_eq w
  else Panic.
Definition rangeOfString (this search_string : Z) : Ns → outcome (Z * Z * Ns) := rangeOfString_options this search_string 0.

(** [NSCharacterSet]: [characterIsMember:]. *)
Definition borrow_set (o : Z) (w : Ns) : outcome (gset Z * bool) :=
  match ns_objs w !! o with Some (_, CharSetObj _ set inverted) => Ret (set, inverted) | _ => Panic end.
Definition characterIsMember (this code_unit : Z) (w : Ns) : outcome bool :=
  '(set, inverted) ← borrow_set this w;
  Ret (xorb (bool_decide (code_unit ∈ (set : gset Z))) inverted).
Definition msg_isMember (set c : Z) (w : Ns) : outcome bool := if set =? 0 then Ret false else characterIsMember set c w.

Definition rangeOfCharacterFromSet (this set : Z) (w : Ns) : outcome (Z * Z * Ns) :=
  '(length_, w) ← ns_length this w;
  r ← for_range length_ (λ idx w,
        '(c, w) ← characterAtIndex this idx w;
        is_member ← msg_isMember set c w;
        Ret (if is_member : bool then inr (idx, w) else inl w)) w;
  Ret (match r with inl w => (ns_not_found, 0, w) | inr (idx, w) => (idx, 1, w) end).

(** ** Comparing *)

Definition isEqualToString (this other : Z) (w : Ns) : outcome bool :=
  if this =? other then Ret true
  else if other =? 0 then Ret false
  else a ← to_rust_string this w; b ← to_rust_string other w; Ret (bool_decide (a = b)).
(** [isKindOfClass:] of an object that is no string, and of [nil], is false. *)
Definition is_string_object (o : Z) (w : Ns) : bool := match ns_objs w !! o with Some (_, StrObj _ _) => true | _ => false end.
Definition ns_isEqual (this other : Z) (w : Ns) : outcome bool :=
  if this =? other then Ret true
  else if negb (is_string_object other w) then Ret false
  else a ← to_rust_string this w; b ← to_rust_string other w; Ret (bool_decide (a = b)).
Definition hasPrefix (this s : Z) (w : Ns) : outcome bool :=
  s ← to_rust_string s w; t ← to_rust_string this w; Ret (starts_with s t).
Definition hasSuffix (this s : Z) (w : Ns) : outcome bool :=
  s ← to_rust_string s w; t ← to_rust_string this w; Ret (ends_with s t).

(** [Iterator::cmp]: lexicographic. *)
Fixpoint lex_cmp (a b : list Z) : comparison :=
  match a, b with
  | [], [] => Eq
  | [], _ :: _ => Lt
  | _ :: _, [] => Gt
  | x :: a, y :: b => match x ?= y with Eq => lex_cmp a b | o => o end
  end.
(** [a_next.cmp(&b_next)] when one of them is [None]. *)
Definition end_cmp (a b : list Z) : comparison :=
  match a, b with [], _ :: _ => Lt | _ :: _, [] => Gt | _, _ => Eq end.

Fixpoint case_insensitive_compare (a b : list Z) : outcome comparison :=
  match a, b with
  | a_unit :: a', b_unit :: b' =>
      match char_from_u32 a_unit, char_from_u32 b_unit with
      | Some a_c, Some b_c =>
          match lex_cmp (char_to_lowercase a_c) (char_to_lowercase b_c) with
          | Eq => case_insensitive_compare a' b'
          | o => Ret o
          end
      | _, _ => Panic
      end
  | _, _ => Ret (end_cmp a b)
  end.

(** [ascii_number]: the number that starts with the digit [leftmost_digit], and what is left of the iterator. *)
Fixpoint ascii_number (num : Z) (iter : list Z) : outcome (Z * list Z) :=
  match iter with
  | x :: iter' =>
      if is_ascii_digit x then n ← u32 (num * 10); n ← u32 (n + (x - 48)); ascii_number n iter'
      else Ret (num, iter)
  | [] => Ret (num, iter)
  end.
(** Each round takes a unit of each string: as many rounds as the first has units are enough. *)
Fixpoint numeric_compare (fuel : nat) (a b : list Z) : outcome comparison :=
  match a, b with
  | a_unit :: a', b_unit :: b' =>
      match fuel with
      | O => Panic
      | S fuel =>
          match char_from_u32 a_unit, char_from_u32 b_unit with
          | Some a_c, Some b_c =>
              if is_ascii_digit a_c && is_ascii_digit b_c then
                '(a_int, a') ← ascii_number (a_c - 48) a';
                '(b_int, b') ← ascii_number (b_c - 48) b';
                match a_int ?= b_int with Eq => numeric_compare fuel a' b' | o => Ret o end
              else
                match a_c ?= b_c with Eq => numeric_compare fuel a' b' | o => Ret o end
          | _, _ => Panic
          end
      end
  | _, _ => Ret (end_cmp a b)
  end.

Definition compare_options (this other mask : Z) (w : Ns) : outcome Z :=
  rassert (negb (other =? 0));;
  a ← code_units this w;
  b ← code_units other w;
  let mask := if mask =? 0 then NSLiteralSearch else mask in
  order ← (if mask =? NSCaseInsensitiveSearch then case_insensitive_compare a b
           else if mask =? NSLiteralSearch then Ret (lex_cmp a b)
           else if mask =? NSNumericSearch then numeric_compare (length a) a b
           else Panic);
  Ret (from_rust_ordering order).
Definition ns_compare (this other : Z) : Ns → outcome Z := compare_options this other NSLiteralSearch.
Definition caseInsensitiveCompare (this other : Z) : Ns → outcome Z := compare_options this other NSCaseInsensitiveSearch.
Definition localizedCompare (this other : Z) (w : Ns) : outcome Z :=
  a ← to_rust_string this w; rassert (str_is_ascii a);;
  b ← to_rust_string other w; rassert (str_is_ascii b);;
  ns_compare this other w.

(** ** Parts of strings *)

(** The units of [for_each_code_unit] whose index satisfies [p]. *)
Definition units_where (p : Z → bool) (u : list Z) : list Z :=
  (filter (λ x, p x.1 = true) (zip (seqZ 0 (Z.of_nat (length u))) u)).*2.

Definition substringToIndex (this to : Z) (w : Ns) : outcome (Z * Ns) :=
  u ← code_units this w;
  '(res, w) ← from_u16_vec (units_where (λ idx, idx <? to) u) w;
  ns_autorelease res w.
Definition substringFromIndex (this from : Z) (w : Ns) : outcome (Z * Ns) :=
  u ← code_units this w;
  '(res, w) ← from_u16_vec (units_where (λ idx, from <=? idx) u) w;
  ns_autorelease res w.
Definition substringWithRange (this location length_ : Z) (w : Ns) : outcome (Z * Ns) :=
  '(orig_string, w) ← convert_to_utf16_inplace this w;
  e ← u32 (location + length_);
  rassert (e <=? Z.of_nat (length orig_string));;
  '(res, w) ← from_u16_vec (take (Z.to_nat length_) (drop (Z.to_nat location) orig_string)) w;
  ns_autorelease res w.
Definition compare_options_range (this other options location length_ : Z) (w : Ns) : outcome (Z * Ns) :=
  '(substr, w) ← substringWithRange this location length_ w;
  r ← compare_options substr other options w; Ret (r, w).

(** [initWithString:] of an immutable string; [setString:] of a mutable one. *)
Definition initWithString (this string : Z) (w : Ns) : outcome (Z * Ns) :=
  c ← code_units string w; w ← set_host_object this (Utf16 c) w; Ret (this, w).
Definition setString (this a_string : Z) (w : Ns) : outcome Ns :=
  rassert (negb (a_string =? 0));;
  s ← to_rust_string a_string w;
  set_host_object this (Utf8 s) w.

(** [copy]: an immutable string is itself. *)
Definition ns_copy (this : Z) (w : Ns) : outcome (Z * Ns) :=
  c ← str_class_of this w;
  if decide (c = TouchMutableString) then '(new, w) ← string_alloc w; initWithString new this w
  else ns_retain this w.
Definition ns_mutableCopy (this : Z) (w : Ns) : outcome (Z * Ns) :=
  '(str_mut, w) ← mutable_string_alloc w;
  w ← setString str_mut this w; Ret (str_mut, w).
Definition stringWithString (this_is_mutable : bool) (string : Z) (w : Ns) : outcome (Z * Ns) :=
  '(new, w) ← (if this_is_mutable then mutable_string_alloc w else string_alloc w);
  '(new, w) ← (if this_is_mutable then w ← setString new string w; Ret (new, w) else initWithString new string w);
  ns_autorelease new w.

(** [stringByTrimmingCharactersInSet:]: the two loops count the characters of the set at the start and at the end. *)
Definition trim_start_loop (this set initial_length : Z) (w : Ns) : outcome (Z * Ns) :=
  r ← for_range initial_length (λ res_start w,
        '(c, w) ← characterAtIndex this res_start w;
        is_member ← msg_isMember set c w;
        Ret (if is_member : bool then inl w else inr (res_start, w))) w;
  Ret (match r with inl w => (initial_length, w) | inr x => x end).
Definition trim_end_loop (this set res_start initial_length : Z) (w : Ns) : outcome (Z * Ns) :=
  r ← for_range (initial_length - res_start) (λ k w,
        '(c, w) ← characterAtIndex this (initial_length - k - 1) w;
        is_member ← msg_isMember set c w;
        Ret (if is_member : bool then inl w else inr (initial_length - k, w))) w;
  Ret (match r with inl w => (res_start, w) | inr x => x end).
Definition stringByTrimmingCharactersInSet (this set : Z) (w : Ns) : outcome (Z * Ns) :=
  '(initial_length, w) ← ns_length this w;
  '(res_start, w) ← trim_start_loop this set initial_length w;
  '(res_end, w) ← trim_end_loop this set res_start initial_length w;
  rassert (res_start <=? res_end);;
  let res_length := res_end - res_start in
  if res_length =? initial_length then '(ret, w) ← ns_copy this w; ns_autorelease ret w
  else substringWithRange this res_start res_length w.

(** ** Building strings *)

(** The result is not autoreleased. *)
Definition stringByAppendingString (this other : Z) (w : Ns) : outcome (Z * Ns) :=
  rassert (negb (other =? 0));;
  '(this_len, w) ← ns_length this w;
  '(other_len, w) ← ns_length other w;
  _ ← u32 (this_len + other_len);
  a ← code_units this w;
  b ← code_units other w;
  ns_alloc (Some 1) (StrObj TouchString (Utf16 (a ++ b))) w.

(** The loop of [componentsSeparatedByString:]: each round takes at least one unit of the string, so one more
    than it has is enough. *)
Fixpoint split_loop (fuel : nat) (main sep : list Z) (components : list (list Z)) (current_component : list Z)
    : outcome (list (list Z)) :=
  match fuel with
  | O => Panic
  | S fuel =>
      new_main ← iter_strip_prefix main sep false;
      match new_main with
      | Some new_main => split_loop fuel new_main sep (components ++ [current_component]) []
      | None =>
          match main with
          | cur :: main' => split_loop fuel main' sep components (current_component ++ [cur])
          | [] => Ret (components ++ [current_component])
          end
      end
  end.
Definition componentsSeparatedByString (this separator : Z) (w : Ns) : outcome (Z * Ns) :=
  main ← code_units this w;
  sep ← code_units separator w;
  rassert (negb (bool_decide (sep = [])));;
  components ← split_loop (S (length main)) main sep [] [];
  array_of (λ utf16, ns_alloc (Some 1) (StrObj TouchString (Utf16 utf16))) components w.

Fixpoint replace_loop (fuel : nat) (main target replacement : list Z) (case_insensitive : bool) (result : list Z)
    : outcome (list Z) :=
  match fuel with
  | O => Panic
  | S fuel =>
      new_main ← iter_strip_prefix main target case_insensitive;
      match new_main with
      | Some new_main => replace_loop fuel new_main target replacement case_insensitive (result ++ replacement)
      | None =>
          match main with
          | cur :: main' => replace_loop fuel main' target replacement case_insensitive (result ++ [cur])
          | [] => Ret result
          end
      end
  end.
Definition string_by_replacing_occurrences_inner (source target replacement options : Z) (w : Ns) : outcome (Z * Ns) :=
  main ← code_units source w;
  target_units ← code_units target w;
  replacement_units ← code_units replacement w;
  if decide (target_units = []) then '(res, w) ← ns_copy source w; ns_autorelease res w
  else
    case_insensitive ← (if options =? 0 then Ret false else if options =? NSCaseInsensitiveSearch then Ret true else Panic);
    result ← replace_loop (S (length main)) main target_units replacement_units case_insensitive [];
    '(res, w) ← from_u16_vec result w;
    ns_autorelease res w.
Definition stringByReplacingOccurrences_range (this target replacement options loc len : Z) (w : Ns) : outcome (Z * Ns) :=
  '(left_, w) ← substringToIndex this loc w;
  '(middle, w) ← substringWithRange this loc len w;
  e ← u32 (loc + len);
  '(right_, w) ← substringFromIndex this e w;
  '(new_middle, w) ← string_by_replacing_occurrences_inner middle target replacement options w;
  '(res, w) ← stringByAppendingString left_ new_middle w;
  stringByAppendingString res right_ w.
Definition stringByReplacingOccurrencesOfString (this target replacement : Z) (w : Ns) : outcome (Z * Ns) :=
  '(length_, w) ← ns_length this w;
  stringByReplacingOccurrences_range this target replacement 0 0 length_ w.

(** [NSMutableString]. *)
Definition appendString (this a_string : Z) (w : Ns) : outcome Ns :=
  rassert (negb (a_string =? 0));;
  '(new, w) ← stringByAppendingString this a_string w;
  setString this new w.
Definition deleteCharactersInRange (this location length_ : Z) (w : Ns) : outcome Ns :=
  '(left_, w) ← (if location =? 0 then get_static_str [] w else substringWithRange this 0 location w);
  idx_after_removal ← u32 (location + length_);
  '(length_str, w) ← ns_length this w;
  '(right_, w) ← (if idx_after_removal =? length_str then get_static_str [] w
                 else n ← u32 (length_str - idx_after_removal); substringWithRange this idx_after_removal n w);
  '(res, w) ← stringByAppendingString left_ right_ w;
  setString this res w.

(** ** Bytes and C strings *)

Definition ascii_only_encodings : list Z := [NSASCIIStringEncoding; NSMacOSRomanStringEncoding; NSISOLatin1StringEncoding].

Definition initWithBytes (this bytes len encoding : Z) (w : Ns) : outcome (Z * Ns) :=
  slice ← bytes_at bytes len (ns_mem w);
  host_object ← decode slice encoding;
  w ← set_host_object this host_object w; Ret (this, w).
Definition initWithBytesNoCopy (this bytes len encoding : Z) (free_when_done : bool) (w : Ns) : outcome (Z * Ns) :=
  slice ← bytes_at bytes len (ns_mem w);
  host_object ← decode slice encoding;
  w ← set_host_object this host_object w;
  if free_when_done then '(_, m) ← mem_free bytes (ns_mem w); Ret (this, set_ns_mem m w) else Ret (this, w).
Definition initWithCString_encoding (this c_string encoding : Z) (w : Ns) : outcome (Z * Ns) :=
  rassert (bool_decide (encoding ∈ C_STRING_FRIENDLY_ENCODINGS));;
  s ← cstr_at c_string (ns_mem w);
  len ← u32 (Z.of_nat (length s));
  initWithBytes this c_string len encoding w.
(** [defaultCStringEncoding]. *)
Definition defaultCStringEncoding : Z := NSUTF8StringEncoding.
Definition initWithUTF8String (this utf8_string : Z) : Ns → outcome (Z * Ns) := initWithCString_encoding this utf8_string NSUTF8StringEncoding.
Definition initWithCString (this c_string : Z) : Ns → outcome (Z * Ns) := initWithCString_encoding this c_string defaultCStringEncoding.
Definition initWithCString_length (this c_string len : Z) : Ns → outcome (Z * Ns) := initWithBytes this c_string len defaultCStringEncoding.
(** The methods only the immutable class has. *)
Definition immutable_only (this : Z) (w : Ns) : outcome unit :=
  c ← str_class_of this w; rassert (negb (bool_decide (c = TouchMutableString))).
Definition initWithCharacters (this characters len : Z) (w : Ns) : outcome (Z * Ns) :=
  immutable_only this w;;
  rassert (negb (characters =? 0));;
  num_bytes ← u32 (len * 2);
  initWithBytes this characters num_bytes NSUTF16StringEncoding w.
(** [+stringWithUTF8String:] and the like: allocate, initialise, autorelease. *)
Definition class_string (this_is_mutable : bool) (init : Z → Ns → outcome (Z * Ns)) (w : Ns) : outcome (Z * Ns) :=
  '(new, w) ← (if this_is_mutable then mutable_string_alloc w else string_alloc w);
  '(new, w) ← init new w;
  ns_autorelease new w.
Definition stringWithUTF8String (this_is_mutable : bool) (utf8_string : Z) : Ns → outcome (Z * Ns) :=
  class_string this_is_mutable (λ new, initWithUTF8String new utf8_string).
Definition stringWithCString_encoding (this_is_mutable : bool) (c_string encoding : Z) : Ns → outcome (Z * Ns) :=
  class_string this_is_mutable (λ new, initWithCString_encoding new c_string encoding).
Definition stringWithCharacters (this_is_mutable : bool) (characters len : Z) : Ns → outcome (Z * Ns) :=
  class_string this_is_mutable (λ new, initWithCharacters new characters len).

Definition initWithData (this data encoding : Z) (w : Ns) : outcome (Z * Ns) :=
  immutable_only this w;;
  if data =? 0 then w ← release_str this w; Ret (0, w)
  else
    match ns_objs w !! data with
    | Some (_, DataObj bytes length_) => initWithBytes this bytes length_ encoding w
    | _ => Panic
    end.

(** The encodings that [getCString:], [CFStringGetBytes] and [CFStringGetPascalString] know. *)
Definition get_bytes_buffer_inner (s buffer buffer_size encoding : Z) (include_null_terminator : bool) (w : Ns) : outcome (bool * Ns) :=
  rassert (bool_decide (encoding ∈ NSUTF8StringEncoding :: ascii_only_encodings));;
  src ← to_rust_string s w;
  (if bool_decide (encoding ∈ ascii_only_encodings) then rassert (str_is_ascii src) else Ret ());;
  _ ← bytes_at buffer buffer_size (ns_mem w);
  let bytes := as_bytes src ++ (if include_null_terminator then [0] else []) in
  if buffer_size <? Z.of_nat (length bytes) then Ret (false, w)
  else
    m ← bytes_at_mut_copy buffer (Z.of_nat (length bytes)) bytes (ns_mem w);
    Ret (true, set_ns_mem m w).
Definition getCString_maxLength (this buffer buffer_size encoding : Z) : Ns → outcome (bool * Ns) :=
  get_bytes_buffer_inner this buffer buffer_size encoding true.
Definition getFileSystemRepresentation (this buffer buffer_size : Z) : Ns → outcome (bool * Ns) :=
  getCString_maxLength this buffer buffer_size NSUTF8StringEncoding.
Definition getCString (this buffer : Z) (w : Ns) : outcome Ns :=
  let length_ := Z.min (4294967295 - buffer) NSMaximumStringLength in
  '(res, w) ← getCString_maxLength this buffer length_ defaultCStringEncoding w;
  rassert res;; Ret w.

Definition getCharacters (this buffer : Z) (w : Ns) : outcome Ns :=
  '(utf16, w) ← convert_to_utf16_inplace this w;
  len ← u32 (2 * Z.of_nat (length utf16));
  m ← bytes_at_mut_copy buffer len (u16_le_bytes utf16) (ns_mem w);
  Ret (set_ns_mem m w).
Definition getCharacters_range (this buffer location length_ : Z) (w : Ns) : outcome Ns :=
  '(ranged, w) ← substringWithRange this location length_ w;
  getCharacters ranged buffer w.

Definition cStringUsingEncoding (this encoding : Z) (w : Ns) : outcome (Z * Ns) :=
  string ← to_rust_string this w;
  '(bytes, null_size) ←
    (if bool_decide (encoding ∈ ascii_only_encodings) then rassert (str_is_ascii string);; Ret (as_bytes string, 1)
     else if encoding =? NSUTF8StringEncoding then Ret (as_bytes string, 1)
     else if encoding =? NSUTF16LittleEndianStringEncoding then Ret (u16_le_bytes (encode_utf16 string), 2)
     else Panic);
  let bytes_size := Z.of_nat (length bytes) in
  total_size ← u32 (bytes_size + null_size);
  '(c_string, m) ← mem_alloc total_size (ns_mem w);
  m ← bytes_at_mut_copy c_string bytes_size bytes m;
  p ← ptr_add 1 c_string (total_size - 1);
  terminator ← read_u8 p m;
  rassert (terminator =? 0);;
  '(_, w) ← dataWithBytesNoCopy c_string total_size (set_ns_mem m w);
  Ret (c_string, w).
(** The bytes of a string of the app binary are the ones in its [cfstringStruct]. *)
Definition UTF8String (this : Z) (w : Ns) : outcome (Z * Ns) :=
  c ← str_class_of this w;
  if decide (c = ConstantUtf8) then
    p ← ptr_add 1 this 8; bytes ← read_u32 p (ns_mem w); Ret (bytes, w)
  else cStringUsingEncoding this NSUTF8StringEncoding w.

(** [dataUsingEncoding:]: the data ends with a zero byte that is no part of the string. *)
Definition dataUsingEncoding (this encoding : Z) (w : Ns) : outcome (Z * Ns) :=
  rassert (bool_decide (encoding ∈ [NSUTF8StringEncoding; NSASCIIStringEncoding; NSISOLatin1StringEncoding]));;
  string ← to_rust_string this w;
  (if negb (encoding =? NSUTF8StringEncoding) then rassert (str_is_ascii string) else Ret ());;
  '(c_string, m) ← alloc_and_write_cstr (as_bytes string) (ns_mem w);
  length_ ← u32 (str_len string + 1);
  dataWithBytesNoCopy c_string length_ (set_ns_mem m w).

(** ** Paths *)

Definition stringByDeletingLastPathComponent (this : Z) (w : Ns) : outcome (Z * Ns) :=
  string ← to_rust_string this w; autoreleased_str (split_last_path_component string).1 w.
Definition lastPathComponent (this : Z) (w : Ns) : outcome (Z * Ns) :=
  string ← to_rust_string this w; autoreleased_str (split_last_path_component string).2 w.
Definition pathComponents (this : Z) (w : Ns) : outcome (Z * Ns) :=
  string ← to_rust_string this w; array_of from_rust_string (split_path_components string) w.
Definition stringByDeletingPathExtension (this : Z) (w : Ns) : outcome (Z * Ns) :=
  string ← to_rust_string this w; '(res, _) ← split_path_extension string; autoreleased_str res w.
Definition pathExtension (this : Z) (w : Ns) : outcome (Z * Ns) :=
  string ← to_rust_string this w; '(_, res) ← split_path_extension string; autoreleased_str res w.
Definition stringByAppendingPathComponent (this component : Z) (w : Ns) : outcome (Z * Ns) :=
  base_str ← to_rust_string this w;
  component_str ← to_rust_string component w;
  autoreleased_str (string_by_appending_path_component base_str component_str) w.
Definition stringByAppendingPathExtension (this extension : Z) (w : Ns) : outcome (Z * Ns) :=
  combined ← to_rust_string this w;
  extension_string ← to_rust_string extension w;
  autoreleased_str (if bool_decide (extension_string = []) then combined else combined ++ DOT :: extension_string) w.
(** [+pathWithComponents:]; the enumerator goes over the elements of the array. *)
Definition append_component (next : Z) (x : Z * Ns) : outcome (Z * Ns) :=
  let '(res, w) := x in
  '(len, w) ← ns_length next w;
  if len =? 0 then Ret (res, w) else stringByAppendingPathComponent res next w.
Definition borrow_arr (o : Z) (w : Ns) : outcome (list Z) := match ns_objs w !! o with Some (_, ArrObj l) => Ret l | _ => Panic end.
Definition pathWithComponents (components : Z) (w : Ns) : outcome (Z * Ns) :=
  components ← (if components =? 0 then Ret [] else borrow_arr components w);
  if decide (components = []) then get_static_str [] w
  else '(res, w) ← string_alloc w; for_each append_component components (res, w).
Definition TILDE : Z := 126.
Definition expand_tilde (path : str) (w : Ns) : outcome str :=
  match strip_prefix_char TILDE path with
  | Some new_path =>
      let within_home_dir := match split_once SLASH new_path with Some (_, x) => x | None => [] end in
      resolved ← resolve_path (GuestPath_join (home_directory (ns_fs w)) within_home_dir) None;
      Ret (SLASH :: join_slash resolved)
  | None => Ret path
  end.
Definition stringByExpandingTildeInPath (this : Z) (w : Ns) : outcome (Z * Ns) :=
  path ← to_rust_string this w; new_path_str ← expand_tilde path w; autoreleased_str new_path_str w.
Definition stringByStandardizingPath (this : Z) (w : Ns) : outcome (Z * Ns) :=
  '(expanded, w) ← stringByExpandingTildeInPath this w;
  path ← to_rust_string expanded w;
  rassert (negb (starts_with (bytes_of "/private") path) && negb (starts_with (bytes_of "/var/automount") path));;
  rassert (negb (str_contains (bytes_of "//") path) && negb (str_contains (bytes_of "/./") path));;
  let path := trim_trailing_slashes path in
  new_path_str ←
    (if starts_with_slash path then
       rassert (negb (starts_with (bytes_of "/..") path));;
       resolved ← resolve_path path None;
       let new_path := SLASH :: join_slash resolved in
       rassert (negb (str_contains (bytes_of "..") new_path));; Ret new_path
     else Ret path);
  autoreleased_str new_path_str w.
Definition isAbsolutePath (this : Z) (w : Ns) : outcome bool :=
  immutable_only this w;;
  path ← to_rust_string this w; Ret (starts_with [SLASH] path || starts_with [TILDE] path).
Definition reserved_characters : list Z := Eval vm_compute in bytes_of "-_.~!*'();:@&=+$,/?%#".
Definition stringByAddingPercentEscapesUsingEncoding (this encoding : Z) (w : Ns) : outcome (Z * Ns) :=
  rassert ((encoding =? NSASCIIStringEncoding) || (encoding =? NSUTF8StringEncoding));;
  s ← to_rust_string this w;
  rassert (forallb (λ byte, is_ascii_alphanumeric byte || bool_decide (byte ∈ reserved_characters)) (as_bytes s));;
  '(new, w) ← ns_copy this w; ns_autorelease new w.

(** ** Values and case *)

Definition int_value (st : str) : Z :=
  default 0 (parse_i32 (take_while (λ c, is_ascii_digit c || (c =? 43) || (c =? 45)) (trim_start st))).
Definition intValue (this : Z) (w : Ns) : outcome Z := st ← to_rust_string this w; Ret (int_value st).
Definition matching_values : list Z := Eval vm_compute in bytes_of "YyTt123456789".
Definition bool_value (string : str) : bool :=
  match trim_start_matches (λ c, is_ascii_whitespace c || (c =? 45) || (c =? 43) || (c =? 48)) string with
  | c :: _ => bool_decide (c ∈ matching_values)
  | [] => false
  end.
Definition boolValue (this : Z) (w : Ns) : outcome bool :=
  immutable_only this w;; string ← to_rust_string this w; Ret (bool_value string).
(** [str::to_lowercase]: by character, unless there is a capital sigma, which has a form for the end of a word. *)
Definition str_to_lowercase (s : str) : str :=
  if bool_decide (0x3A3 ∈ s) then sigma_lowercase s else s ≫= char_to_lowercase.
Definition lowercaseString (this : Z) (w : Ns) : outcome (Z * Ns) :=
  s ← to_rust_string this w; autoreleased_str (str_to_lowercase s) w.
Definition uppercaseString (this : Z) (w : Ns) : outcome (Z * Ns) :=
  s ← to_rust_string this w; autoreleased_str (s ≫= char_to_uppercase) w.

(** ** Lines *)

Definition CR : Z := 0x0D.
Definition LF : Z := 0x0A.
(** NEXT LINE, LINE SEPARATOR, PARAGRAPH SEPARATOR. *)
Definition line_separator (c : Z) : bool := bool_decide (c ∈ [0x85; 0x2028; 0x2029]).

(** [start_pos]: back to the character after a delimiter. *)
Definition line_start_body (string : list Z) (r_start : Z) (start_pos : Z) : outcome (Z + Z) :=
  if 0 <? start_pos then
    c ← unwrap (string !! Z.to_nat (start_pos - 1));
    if (c =? LF) || line_separator c then Ret (inr start_pos)
    else if c =? CR then
      if (start_pos =? r_start) && (start_pos <? Z.of_nat (length string)) then
        after_cr ← unwrap (string !! Z.to_nat start_pos);
        Ret (if after_cr =? LF then inl (start_pos - 1) else inr start_pos)
      else Ret (inr start_pos)
    else Ret (inl (start_pos - 1))
  else Ret (inr start_pos).
(** [end_pos] and [cend_pos]: forward to a delimiter. *)
Definition line_end_body (string : list Z) (cend_pos : Z) : outcome (Z + (Z * Z)) :=
  let str_len := Z.of_nat (length string) in
  if cend_pos <? str_len then
    c ← unwrap (string !! Z.to_nat cend_pos);
    if line_separator c then Ret (inr (cend_pos + 1, cend_pos))
    else if c =? LF then
      if 0 <? cend_pos then
        before ← unwrap (string !! Z.to_nat (cend_pos - 1));
        Ret (inr (if before =? CR then (cend_pos + 1, cend_pos - 1) else (cend_pos + 1, cend_pos)))
      else Ret (inr (cend_pos + 1, cend_pos))
    else if c =? CR then
      if cend_pos <? str_len - 1 then
        after_cr ← unwrap (string !! Z.to_nat (cend_pos + 1));
        Ret (inr (if after_cr =? LF then (cend_pos + 2, cend_pos) else (cend_pos + 1, cend_pos)))
      else Ret (inr (cend_pos + 1, cend_pos))
    else Ret (inl (cend_pos + 1))
  else Ret (inr (cend_pos, cend_pos)).

(** The start, the end and the end of the contents. *)
Definition line_range_helper (string : list Z) (r_start length_ : Z) (get_start get_end : bool) : outcome (Z * Z * Z) :=
  r_end ← u32 (r_start + length_);
  let str_len := Z.of_nat (length string) in
  rassert (r_end <=? str_len);;
  start_pos ← (if get_start then loop_end (run_loop 33 (line_start_body string r_start) r_start) else Ret 0);
  '(end_pos, cend_pos) ←
    (if get_end then loop_end (run_loop 33 (line_end_body string) (if 0 <? length_ then r_end - 1 else r_start))
     else Ret (0, 0));
  Ret (start_pos, end_pos, cend_pos).

Definition lineRangeForRange (this location length_ : Z) (w : Ns) : outcome (Z * Z * Ns) :=
  immutable_only this w;;
  '(orig_string, w) ← convert_to_utf16_inplace this w;
  '(start, end_, _) ← line_range_helper orig_string location length_ true true;
  n ← u32 (end_ - start);
  Ret (start, n, w).
Definition write_unless_null (ptr v : Z) (m : Mem) : outcome Mem := if ptr =? 0 then Ret m else write_u32 ptr v m.
Definition getLineStart (this start_ptr end_ptr contents_end_ptr location length_ : Z) (w : Ns) : outcome Ns :=
  immutable_only this w;;
  '(orig_string, w) ← convert_to_utf16_inplace this w;
  let get_start := negb (start_ptr =? 0) in
  let get_end := negb (end_ptr =? 0) || negb (contents_end_ptr =? 0) in
  '(start, end_, contents_end) ← line_range_helper orig_string location length_ get_start get_end;
  m ← write_unless_null start_ptr start (ns_mem w);
  m ← write_unless_null end_ptr end_ m;
  m ← write_unless_null contents_end_ptr contents_end m;
  Ret (set_ns_mem m w).

(** ** Character sets *)

Definition WHITESPACE_CHARACTERS : list Z :=
  [0x20; 0xA0; 0x1680; 0x2000; 0x2001; 0x2002; 0x2003; 0x2004; 0x2005; 0x2006; 0x2007; 0x2008; 0x2009; 0x200A; 0x202F; 0x205F; 0x3000; 0x09].
Definition NEWLINE_CHARACTERS : list Z := [0x0A; 0x0B; 0x0C; 0x0D; 0x85; 0x2028; 0x2029].
Definition CONTROL_CHARACTERS : list Z := Eval vm_compute in
  seqZ 0 32 ++ seqZ 0x7F 33 ++ [0xAD; 0x600; 0x601; 0x602; 0x603; 0x6DD; 0x70F; 0x17B4; 0x17B5] ++ seqZ 0x200B 5 ++ seqZ 0x202A 5 ++
  seqZ 0x2060 5 ++ seqZ 0x206A 6 ++ [0xFEFF] ++ seqZ 0xFFF9 3.

Definition new_char_set (set : gset Z) (w : Ns) : outcome (Z * Ns) :=
  '(new, w) ← ns_alloc (Some 1) (CharSetObj false set false) w; ns_autorelease new w.
Definition characterSetWithCharactersInString (string : Z) (w : Ns) : outcome (Z * Ns) :=
  u ← code_units string w; new_char_set (list_to_set u) w.
Definition characterSetWithRange (location length_ : Z) (w : Ns) : outcome (Z * Ns) :=
  e ← u32 (location + length_);
  rassert ((length_ =? 0) || (e <=? 65536));;
  new_char_set (list_to_set (seqZ location length_)) w.
Definition newlineCharacterSet : Ns → outcome (Z * Ns) := new_char_set (list_to_set NEWLINE_CHARACTERS).
Definition whitespaceCharacterSet : Ns → outcome (Z * Ns) := new_char_set (list_to_set WHITESPACE_CHARACTERS).
Definition whitespaceAndNewlineCharacterSet : Ns → outcome (Z * Ns) :=
  new_char_set (list_to_set NEWLINE_CHARACTERS ∪ list_to_set WHITESPACE_CHARACTERS).
Definition controlCharacterSet : Ns → outcome (Z * Ns) := new_char_set (list_to_set CONTROL_CHARACTERS).
(** The methods of the immutable class; what [invertedSet] returns is not autoreleased. *)
Definition borrow_immutable_set (o : Z) (w : Ns) : outcome (gset Z * bool) :=
  match ns_objs w !! o with Some (_, CharSetObj false set inverted) => Ret (set, inverted) | _ => Panic end.
Definition invertedSet (this : Z) (w : Ns) : outcome (Z * Ns) :=
  '(set, inverted) ← borrow_immutable_set this w; ns_alloc (Some 1) (CharSetObj false set (negb inverted)) w.
Definition isSupersetOfSet (this other : Z) (w : Ns) : outcome bool :=
  '(this_chars, this_inverted) ← borrow_immutable_set this w;
  if other =? 0 then Ret true
  else
    '(other_chars, other_inverted) ← borrow_set other w;
    if negb this_inverted && negb other_inverted then Ret (bool_decide (other_chars ⊆ (this_chars : gset Z))) else Ret true.
Definition add_char (this string i : Z) (w : Ns) : outcome Ns :=
  '(c, w) ← characterAtIndex string i w;
  match ns_objs w !! this with
  | Some (n, CharSetObj is_mutable set inverted) => Ret (set_ns_objs (<[this := (n, CharSetObj is_mutable ({[c]} ∪ set) inverted)]> (ns_objs w)) w)
  | _ => Panic
  end.
(** Of a mutable set. *)
Definition addCharactersInString (this string : Z) (w : Ns) : outcome Ns :=
  match ns_objs w !! this with
  | Some (_, CharSetObj true _ false) => '(length_, w) ← msg_length string w; for_count length_ (add_char this string) w
  | _ => Panic
  end.

(** [slice::split]. *)
Fixpoint split_where (p : Z → bool) (u : list Z) : list (list Z) :=
  match u with
  | [] => [[]]
  | c :: u' => if p c then [] :: split_where p u'
               else match split_where p u' with w :: ws => (c :: w) :: ws | [] => [[c]] end
  end.
Definition componentsSeparatedByCharactersInSet (this cset : Z) (w : Ns) : outcome (Z * Ns) :=
  immutable_only this w;;
  '(string, w) ← convert_to_utf16_inplace this w;
  '(set, inverted) ← (if cset =? 0 then Ret (∅, false) else borrow_set cset w);
  array_of from_u16_vec (split_where (λ c, xorb (bool_decide (c ∈ (set : gset Z))) inverted) string) w.

(** ** Core Foundation: the same strings *)

Definition kCFStringEncodingMacRoman : Z := 0.
Definition kCFStringEncodingASCII : Z := 0x600.
Definition kCFStringEncodingUTF8 : Z := 0x8000100.
Definition kCFStringEncodingUTF16 : Z := 0x100.
Definition kCFStringEncodingUTF16BE : Z := 0x10000100.
Definition kCFStringEncodingUTF16LE : Z := 0x14000100.
Definition kCFStringEncodingISOLatin1 : Z := 0x201.

Definition CFStringConvertEncodingToNSStringEncoding (encoding : Z) : outcome Z :=
  if encoding =? kCFStringEncodingMacRoman then Ret NSMacOSRomanStringEncoding
  else if encoding =? kCFStringEncodingASCII then Ret NSASCIIStringEncoding
  else if encoding =? kCFStringEncodingUTF8 then Ret NSUTF8StringEncoding
  else if encoding =? kCFStringEncodingUTF16 then Ret NSUTF16StringEncoding
  else if encoding =? kCFStringEncodingUTF16BE then Ret NSUTF16BigEndianStringEncoding
  else if encoding =? kCFStringEncodingUTF16LE then Ret NSUTF16LittleEndianStringEncoding
  else if encoding =? kCFStringEncodingISOLatin1 then Ret NSISOLatin1StringEncoding
  else Panic.
Definition CFStringConvertNSStringEncodingToEncoding (encoding : Z) : outcome Z :=
  if encoding =? NSMacOSRomanStringEncoding then Ret kCFStringEncodingMacRoman
  else if encoding =? NSASCIIStringEncoding then Ret kCFStringEncodingASCII
  else if encoding =? NSUTF8StringEncoding then Ret kCFStringEncodingUTF8
  else if encoding =? NSUTF16StringEncoding then Ret kCFStringEncodingUTF16
  else if encoding =? NSUTF16BigEndianStringEncoding then Ret kCFStringEncodingUTF16BE
  else if encoding =? NSUTF16LittleEndianStringEncoding then Ret kCFStringEncodingUTF16LE
  else if encoding =? NSISOLatin1StringEncoding then Ret kCFStringEncodingISOLatin1
  else Panic.

(** [x.try_into().unwrap()] from a [CFIndex] to an [NSUInteger] and back. *)
Definition cf_index (x : Z) : outcome Z := rassert (0 <=? x);; Ret x.
Definition to_cf_index (x : Z) : outcome Z := i32 x.

Definition CFStringAppend : Z → Z → Ns → outcome Ns := appendString.
Definition CFStringAppendCString (string c_string encoding : Z) (w : Ns) : outcome Ns :=
  encoding ← CFStringConvertEncodingToNSStringEncoding encoding;
  '(to_append, w) ← stringWithCString_encoding false c_string encoding w;
  appendString string to_append w.
Definition CFStringCompare (a b flags : Z) : Ns → outcome Z := compare_options a b flags.
Definition CFStringCompareWithOptions (a b location length_ flags : Z) (w : Ns) : outcome (Z * Ns) :=
  location ← cf_index location; length_ ← cf_index length_;
  '(a_sub, w) ← substringWithRange a location length_ w;
  r ← compare_options a_sub b flags w; Ret (r, w).
Definition CFStringDelete (string location length_ : Z) (w : Ns) : outcome Ns :=
  location ← cf_index location; length_ ← cf_index length_;
  deleteCharactersInRange string location length_ w.
Definition CFStringGetCharacterAtIndex (the_string idx : Z) (w : Ns) : outcome (Z * Ns) :=
  idx ← cf_index idx; characterAtIndex the_string idx w.
Definition CFStringGetCharacters (string location length_ buffer : Z) (w : Ns) : outcome Ns :=
  location ← cf_index location; length_ ← cf_index length_;
  getCharacters_range string buffer location length_ w.
Definition CFStringGetCharactersPtr (the_string : Z) : Z := 0.
Definition CFStringGetCStringPtr (the_string encoding : Z) (w : Ns) : outcome (Z * Ns) :=
  encoding ← CFStringConvertEncodingToNSStringEncoding encoding; cStringUsingEncoding the_string encoding w.
(** [buffer_size as NSUInteger]. *)
Definition CFStringGetCString (a buffer buffer_size encoding : Z) (w : Ns) : outcome (bool * Ns) :=
  encoding ← CFStringConvertEncodingToNSStringEncoding encoding;
  getCString_maxLength a buffer (buffer_size mod U32_MOD) encoding w.
Definition CFStringGetLength (the_string : Z) (w : Ns) : outcome (Z * Ns) :=
  '(n, w) ← msg_length the_string w; n ← to_cf_index n; Ret (n, w).
Definition CFStringGetBytes (string location length_ encoding loss_byte : Z) (is_external : bool)
    (buffer max_buf_len used_buf_len : Z) (w : Ns) : outcome (Z * Ns) :=
  rassert (loss_byte =? 0);;
  rassert (negb is_external);;
  location ← cf_index location; length_ ← cf_index length_;
  '(substring, w) ← substringWithRange string location length_ w;
  encoding ← CFStringConvertEncodingToNSStringEncoding encoding;
  buffer_size ← cf_index max_buf_len;
  '(success, w) ← get_bytes_buffer_inner substring buffer buffer_size encoding false w;
  rassert success;;
  '(n, w) ← ns_length substring w;
  rassert (n =? length_);;
  w ← (if used_buf_len =? 0 then Ret w
       else
         result_bytes_length ← lengthOfBytesUsingEncoding substring encoding w;
         result_bytes_length ← to_cf_index result_bytes_length;
         m ← write_u32 used_buf_len result_bytes_length (ns_mem w); Ret (set_ns_mem m w));
  n ← to_cf_index n; Ret (n, w).
Definition CFStringGetFileSystemRepresentation (string buffer max_buflen : Z) (w : Ns) : outcome (bool * Ns) :=
  max_buflen ← cf_index max_buflen; getFileSystemRepresentation string buffer max_buflen w.
Definition CFStringGetIntValue : Z → Ns → outcome Z := intValue.
(** The two libraries have different numbers for what is not found. *)
Definition CFStringFind (string to_find options : Z) (w : Ns) : outcome (Z * Z * Ns) :=
  '(location, length_, w) ← rangeOfString_options string to_find options w;
  location ← (if location =? ns_not_found then Ret kCFNotFound else to_cf_index location);
  length_ ← to_cf_index length_;
  Ret (location, length_, w).
Definition CFStringHasSuffix : Z → Z → Ns → outcome bool := hasSuffix.
Definition CFStringUppercase (string : Z) (w : Ns) : outcome Ns :=
  '(uppercase, w) ← uppercaseString string w; setString string uppercase w.
Definition CFStringGetPascalString (the_string buffer buffer_size encoding : Z) (w : Ns) : outcome (bool * Ns) :=
  '(len, w) ← CFStringGetLength the_string w;
  n ← i32 (len + 1);
  rassert (n <=? buffer_size);;
  rassert (len <? 256);;
  m ← write_u8 buffer len (ns_mem w);
  encoding ← CFStringConvertEncodingToNSStringEncoding encoding;
  p ← ptr_add 1 buffer 1;
  get_bytes_buffer_inner the_string p len encoding false (set_ns_mem m w).
End strings.
