(* ===== verification/NSStringFacts.v ===== *)
(** * Strings as values: the facts

    What a string is, apart from its representation: its class and its code units ([abs]).  The
    methods that only read change representations at most ([view]); each method is described by what it returns
    and does on these values. *)

From S2P Require Import Prelude SizeBucketed VMAllocator HeapAllocator GuestMem Semaphore Fs Text PathAlgorithms NSString.

(** ** Values *)

Definition str_value (x : option Z * NsObj) : option (StrClass * list Z) :=
  match x with (_, StrObj c h) => Some (c, iter_code_units h) | _ => None end.
(** The strings: class and code units. *)
Definition abs (w : Ns) : gmap Z (StrClass * list Z) := omap str_value (ns_objs w).

(** The state, all strings in UTF-16. *)
Definition obj_view (x : option Z * NsObj) : option Z * NsObj :=
  match x with (n, StrObj c h) => (n, StrObj c (Utf16 (iter_code_units h))) | x => x end.
Definition view (w : Ns) : Ns := set_ns_objs (obj_view <$> ns_objs w) w.

Definition host_ok (h : StringHostObject) : Prop :=
  match h with Utf8 s => str_ok s | Utf16 u => Forall is_u16 u end.
(** Rust strings are well formed, units are 16 bits wide, and the static strings are where the pool says. *)
Definition ns_ok (w : Ns) : Prop :=
  (∀ o n c h, ns_objs w !! o = Some (n, StrObj c h) → o ≠ 0 ∧ host_ok h) ∧
  (∀ s o, static_str_pool w !! s = Some o → abs w !! o = Some (StaticString, encode_utf16 s)).

Lemma abs_lookup w o c u :
  abs w !! o = Some (c, u) ↔ ∃ n h, ns_objs w !! o = Some (n, StrObj c h) ∧ iter_code_units h = u.
Proof.
  unfold abs. rewrite lookup_omap. destruct (ns_objs w !! o) as [[n [c' h| | |]]|]; simpl; naive_solver.
Qed.
Lemma abs_view w w' : view w = view w' → abs w = abs w'.
Proof.
  intros H. assert (obj_view <$> ns_objs w = obj_view <$> ns_objs w') as E by apply (f_equal ns_objs H).
  assert (∀ x, abs x = omap str_value (obj_view <$> ns_objs x)) as Ha.
  { intros x. unfold abs. apply map_eq. intros o. rewrite !lookup_omap, lookup_fmap.
    destruct (ns_objs x !! o) as [[n [c' h| | |]]|]; done. }
  by rewrite !Ha, E.
Qed.

(** Fewer units than a [u32] counts, fewer references too. *)
Definition ns_small (w : Ns) : Prop :=
  (∀ o c u, abs w !! o = Some (c, u) → Z.of_nat (length u) < 2147483648) ∧
  (∀ o n h, ns_objs w !! o = Some (Some n, h) → 0 < n < 4294967295).

(** Old strings are the same, new ones may have been made. *)
Definition kept (w w' : Ns) : Prop := ns_ok w' ∧ abs w ⊆ abs w'.
(** The same objects, up to the representation of strings. *)
Definition same (w w' : Ns) : Prop := ns_ok w' ∧ view w' = view w.

Lemma same_abs w w' : same w w' → abs w' = abs w.
Proof. intros [_ H]. by apply abs_view. Qed.
Lemma same_kept w w' : same w w' → kept w w'.
Proof. intros H. split; [apply H|]. by rewrite (same_abs _ _ H). Qed.
Lemma same_ns_trans w w1 w2 : same w w1 → same w1 w2 → same w w2.
Proof. intros [_ H1] [Hok H2]. split; [done|]. by rewrite H2. Qed.
Lemma kept_ns_trans w w1 w2 : kept w w1 → kept w1 w2 → kept w w2.
Proof. intros [_ H1] [Hok H2]. split; [done|]. by etrans. Qed.
Lemma kept_lookup w w' o x : kept w w' → abs w !! o = Some x → abs w' !! o = Some x.
Proof. intros [_ H] Ho. by eapply lookup_weaken. Qed.

(** ** Reading *)

Lemma host_units h : host_ok h → Forall is_u16 (iter_code_units h).
Proof. destruct h; simpl; [apply encode_utf16_u16|done]. Qed.
Lemma to_utf8_units h : host_ok h → to_utf8 h = from_utf16 (iter_code_units h).
Proof. destruct h; simpl; [|done]. intros H. by rewrite from_encode_utf16. Qed.

Section facts.
Context (fresh_id : Ns → Z) (unicode_lowercase unicode_uppercase : Z → list Z).
Context (Hfresh : ∀ w, fresh_id w ≠ 0 ∧ ns_objs w !! fresh_id w = None).

Notation alloc := (ns_alloc fresh_id).

Lemma code_units_spec w o c u : abs w !! o = Some (c, u) → code_units o w = Ret u.
Proof. intros (n & h & Ho & <-)%abs_lookup. unfold code_units, borrow_str. by rewrite Ho. Qed.
Lemma str_class_spec w o c u : abs w !! o = Some (c, u) → str_class_of o w = Ret c.
Proof. intros (n & h & Ho & <-)%abs_lookup. unfold str_class_of, borrow_str. by rewrite Ho. Qed.
Lemma to_rust_string_spec w o c u : ns_ok w → abs w !! o = Some (c, u) → to_rust_string o w = unwrap (from_utf16 u).
Proof.
  intros [Hok _] (n & h & Ho & <-)%abs_lookup. unfold to_rust_string, borrow_str. rewrite Ho. cbn [mbind outcome_bind].
  by rewrite to_utf8_units by by eapply Hok.
Qed.
Lemma not_nil w o c u : ns_ok w → abs w !! o = Some (c, u) → o ≠ 0.
Proof. intros [Hok _] (n & h & Ho & _)%abs_lookup. by eapply Hok. Qed.
Lemma units_u16 w o c u : ns_ok w → abs w !! o = Some (c, u) → Forall is_u16 u.
Proof. intros [Hok _] (n & h & Ho & <-)%abs_lookup. apply host_units. by eapply Hok. Qed.

Lemma abs_put_str o n c h w : abs (put_str o n c h w) = <[o := (c, iter_code_units h)]> (abs w).
Proof.
  unfold abs, put_str, set_ns_objs. simpl. apply map_eq. intros o'. rewrite lookup_omap.
  destruct (decide (o = o')) as [->|]; [by rewrite !lookup_insert_eq|]. by rewrite !lookup_insert_ne, lookup_omap by done.
Qed.

(** Another value for a string that is not in the pool of static strings. *)
Lemma put_str_ok o n c h w :
  ns_ok w → o ≠ 0 → host_ok h → (∀ s, static_str_pool w !! s ≠ Some o) → ns_ok (put_str o n c h w).
Proof.
  intros [Hok Hst] Ho Hh Hs. split.
  - intros o' n' c' h'. unfold put_str, set_ns_objs. simpl. destruct (decide (o = o')) as [<-|].
    + rewrite lookup_insert_eq. intros [= <- <- <-]. done.
    + rewrite lookup_insert_ne by done. apply Hok.
  - intros s o' Hp. rewrite abs_put_str. simpl in Hp. assert (o ≠ o') by (intros <-; by eapply Hs).
    rewrite lookup_insert_ne by done. by apply Hst.
Qed.

Lemma convert_spec w o c u :
  ns_ok w → abs w !! o = Some (c, u) → ∃ w', convert_to_utf16_inplace o w = Ret (u, w') ∧ same w w'.
Proof.
  intros Hok Ho. pose proof Ho as (n & h & Hl & Hu)%abs_lookup. unfold convert_to_utf16_inplace, borrow_str. rewrite Hl.
  cbn [mbind outcome_bind]. rewrite Hu. eexists. split; [done|]. destruct h as [s|u']; simpl in *; [|by split]. subst u.
  assert (view (put_str o n c (Utf16 (encode_utf16 s)) w) = view w) as Hv.
  { unfold view, put_str, set_ns_objs. simpl. f_equal. apply map_eq. intros o'. rewrite !lookup_fmap.
    destruct (decide (o = o')) as [<-|]; [by rewrite lookup_insert_eq, Hl|by rewrite lookup_insert_ne]. }
  split; [|done]. destruct Hok as [Hok Hst]. split.
  - intros o' n' c' h'. unfold put_str, set_ns_objs. simpl. destruct (decide (o = o')) as [<-|].
    + rewrite lookup_insert_eq. intros [= <- <- <-]. destruct (Hok _ _ _ _ Hl). split; [done|]. by apply encode_utf16_u16.
    + rewrite lookup_insert_ne by done. apply Hok.
  - intros s' o' Hp. rewrite (abs_view _ _ Hv). by apply Hst.
Qed.

Lemma length_spec w o c u :
  ns_ok w → abs w !! o = Some (c, u) → Z.of_nat (length u) < U32_MOD →
  ∃ w', ns_length o w = Ret (Z.of_nat (length u), w') ∧ same w w'.
Proof.
  intros Hok Ho Hn. destruct (convert_spec _ _ _ _ Hok Ho) as (w' & E & Hs). exists w'. split; [|done].
  unfold ns_length. rewrite E. cbn [mbind outcome_bind]. by rewrite u32_ok by lia.
Qed.
Lemma msg_length_spec w o c u :
  ns_ok w → abs w !! o = Some (c, u) → Z.of_nat (length u) < U32_MOD →
  ∃ w', msg_length o w = Ret (Z.of_nat (length u), w') ∧ same w w'.
Proof.
  intros Hok Ho Hn. unfold msg_length. rewrite (proj2 (Z.eqb_neq _ _)) by (by eapply not_nil). by eapply length_spec.
Qed.
Lemma character_spec w o c u i x :
  ns_ok w → abs w !! o = Some (c, u) → u !! Z.to_nat i = Some x → ∃ w', characterAtIndex o i w = Ret (x, w') ∧ same w w'.
Proof.
  intros Hok Ho Hx. destruct (convert_spec _ _ _ _ Hok Ho) as (w' & E & Hs). exists w'. split; [|done].
  unfold characterAtIndex. rewrite E. cbn [mbind outcome_bind]. by rewrite Hx.
Qed.
Lemma character_panics w o c u i :
  ns_ok w → abs w !! o = Some (c, u) → u !! Z.to_nat i = None → characterAtIndex o i w = Panic.
Proof.
  intros Hok Ho Hx. destruct (convert_spec _ _ _ _ Hok Ho) as (w' & E & Hs).
  unfold characterAtIndex. rewrite E. cbn [mbind outcome_bind]. by rewrite Hx.
Qed.

(** ** New strings *)

(** [o] is a new string with class [c] and units [u]. *)
Definition made (w : Ns) (o : Z) (c : StrClass) (u : list Z) (w' : Ns) : Prop :=
  kept w w' ∧ abs w !! o = None ∧ abs w' !! o = Some (c, u).

Lemma alloc_eq n c h w : alloc n (StrObj c h) w = Ret (fresh_id w, put_str (fresh_id w) n c h w).
Proof.
  destruct (Hfresh w) as [Hz Hn]. unfold ns_alloc. by rewrite (proj2 (Z.eqb_neq _ _)), bool_decide_true.
Qed.
Lemma abs_fresh w : abs w !! fresh_id w = None.
Proof. unfold abs. by rewrite lookup_omap, (proj2 (Hfresh w)). Qed.

(** The state after a string was made. *)
Lemma put_fresh_spec n c h w :
  ns_ok w → host_ok h → made w (fresh_id w) c (iter_code_units h) (put_str (fresh_id w) n c h w).
Proof.
  intros Hok Hh. destruct (Hfresh w) as [Hz _]. unfold made, kept. rewrite abs_put_str. split; [|split; [apply abs_fresh|apply lookup_insert_eq]].
  split; [|apply insert_subseteq, abs_fresh]. apply put_str_ok; [done..|]. intros s Hs. apply Hok in Hs. by rewrite abs_fresh in Hs.
Qed.

Lemma string_with_eq n c h w :
  string_with (alloc n (StrObj c (Utf8 []))) h w = Ret (fresh_id w, put_str (fresh_id w) n c h w).
Proof.
  unfold string_with. rewrite alloc_eq. cbn [mbind outcome_bind]. unfold set_host_object, borrow_str.
  replace (ns_objs (put_str (fresh_id w) n c (Utf8 []) w) !! fresh_id w) with (Some (n, StrObj c (Utf8 [])))
    by (symmetry; apply lookup_insert_eq).
  cbn [mbind outcome_bind]. unfold put_str, set_ns_objs. simpl. by rewrite insert_insert_eq.
Qed.

Lemma autorelease_spec w o c u :
  ns_ok w → abs w !! o = Some (c, u) →
  ∃ w', ns_autorelease o w = Ret (o, w') ∧ ns_ok w' ∧ ns_objs w' = ns_objs w ∧ static_str_pool w' = static_str_pool w.
Proof.
  intros Hok Ho. pose proof Ho as (n & h & Hl & Hu)%abs_lookup. unfold ns_autorelease.
  rewrite (proj2 (Z.eqb_neq _ _)) by (by eapply not_nil). rewrite Hl. cbn [unwrap mbind outcome_bind].
  eexists. split; [done|]. by destruct n.
Qed.
Lemma made_autorelease w o c u w1 :
  made w o c u w1 → ∃ w', ns_autorelease o w1 = Ret (o, w') ∧ made w o c u w' ∧ ns_objs w' = ns_objs w1 ∧ static_str_pool w' = static_str_pool w1.
Proof.
  intros ([Hok Hk] & Hn & Ho). destruct (autorelease_spec _ _ _ _ Hok Ho) as (w' & E & Hok' & Hobj & Hp).
  assert (abs w' = abs w1) as Ha by (unfold abs; by rewrite Hobj).
  exists w'. split; [done|]. split; [|done]. unfold made, kept. rewrite Ha. done.
Qed.
Lemma made_same w w1 o c u w' : same w w1 → made w1 o c u w' → made w o c u w'.
Proof. intros Hs ([Hok Hk] & Hn & Ho). unfold made, kept. rewrite <- (same_abs _ _ Hs). done. Qed.
Lemma made_kept w w1 o c u w' : kept w w1 → made w1 o c u w' → made w o c u w'.
Proof.
  intros [Hok Hk] ([Hok' Hk'] & Hn & Ho). split; [split; [done|by etrans]|]. split; [|done]. by eapply lookup_weaken_None.
Qed.
Lemma made_then_kept w o c u w1 w' : made w o c u w1 → kept w1 w' → made w o c u w'.
Proof.
  intros (Hk & Hn & Ho) Hk'. split; [by eapply kept_ns_trans|]. split; [done|]. by eapply kept_lookup.
Qed.

(** A new string of code units, autoreleased. *)
Lemma new_units_spec u w :
  ns_ok w → Forall is_u16 u →
  ∃ o w1 w', from_u16_vec fresh_id u w = Ret (o, w1) ∧ ns_autorelease o w1 = Ret (o, w') ∧ made w o TouchString u w' ∧
    ns_objs w' !! o = Some (Some 1, StrObj TouchString (Utf16 u)).
Proof.
  intros Hok Hu. pose proof (put_fresh_spec (Some 1) TouchString (Utf16 u) w Hok Hu) as Hm. simpl in Hm.
  destruct (made_autorelease _ _ _ _ _ Hm) as (w' & E & Hm' & Hobj & _).
  exists (fresh_id w). eexists. exists w'. split; [apply string_with_eq|]. split; [done|]. split; [done|].
  rewrite Hobj. apply lookup_insert_eq.
Qed.

(** ** Parts *)

Lemma units_where_to n u : units_where (λ idx, idx <? n) u = take (Z.to_nat n) u.
Proof.
  unfold units_where. assert (∀ k, (filter (λ x, (x.1 <? n) = true) (zip (seqZ k (Z.of_nat (length u))) u)).*2 = take (Z.to_nat (n - k)) u) as H.
  { induction u as [|x u IH]; intros k; [by rewrite take_nil, zip_with_nil_r|].
    replace (Z.of_nat (length (x :: u))) with (Z.succ (Z.of_nat (length u))) by (simpl; lia). rewrite seqZ_cons by lia. rewrite Z.pred_succ. simpl.
    rewrite filter_cons. cbn [fst]. destruct (Z.ltb_spec k n).
    - rewrite decide_True by done. replace (Z.to_nat (n - k)) with (S (Z.to_nat (n - Z.succ k))) by lia. simpl. by rewrite IH.
    - rewrite decide_False by done. rewrite IH. by replace (Z.to_nat (n - Z.succ k)) with 0%nat by lia; replace (Z.to_nat (n - k)) with 0%nat by lia. }
  rewrite H. by rewrite Z.sub_0_r.
Qed.
Lemma units_where_from n u : 0 ≤ n → units_where (λ idx, n <=? idx) u = drop (Z.to_nat n) u.
Proof.
  unfold units_where. assert (∀ k, (filter (λ x, (n <=? x.1) = true) (zip (seqZ k (Z.of_nat (length u))) u)).*2 = drop (Z.to_nat (n - k)) u) as H.
  { induction u as [|x u IH]; intros k; [by rewrite drop_nil, zip_with_nil_r|].
    replace (Z.of_nat (length (x :: u))) with (Z.succ (Z.of_nat (length u))) by (simpl; lia). rewrite seqZ_cons by lia. rewrite Z.pred_succ. simpl.
    rewrite filter_cons. cbn [fst]. destruct (Z.leb_spec n k).
    - rewrite decide_True by done. cbn [fmap list_fmap snd]. rewrite IH. by replace (Z.to_nat (n - Z.succ k)) with 0%nat by lia; replace (Z.to_nat (n - k)) with 0%nat by lia.
    - rewrite decide_False by done. rewrite IH. by replace (Z.to_nat (n - k)) with (S (Z.to_nat (n - Z.succ k))) by lia. }
  intros Hn. rewrite H. by rewrite Z.sub_0_r.
Qed.

(** What a method that returns a new, autoreleased string of units [u] does. *)
Definition gives (m : Ns → outcome (Z * Ns)) (w : Ns) (u : list Z) : Prop :=
  ∃ o w', m w = Ret (o, w') ∧ made w o TouchString u w' ∧ ns_objs w' !! o = Some (Some 1, StrObj TouchString (Utf16 u)).

Lemma substringToIndex_spec w o c u n :
  ns_ok w → abs w !! o = Some (c, u) → gives (substringToIndex fresh_id o n) w (take (Z.to_nat n) u).
Proof.
  intros Hok Ho. unfold gives, substringToIndex. rewrite (code_units_spec _ _ _ _ Ho). cbn [mbind outcome_bind].
  rewrite units_where_to. destruct (new_units_spec (take (Z.to_nat n) u) w) as (r & w1 & w' & E1 & E2 & Hm & Hl); [done|by eapply Forall_take, units_u16|].
  exists r, w'. rewrite E1. cbn [mbind outcome_bind]. done.
Qed.
Lemma substringFromIndex_spec w o c u n :
  ns_ok w → abs w !! o = Some (c, u) → 0 ≤ n → gives (substringFromIndex fresh_id o n) w (drop (Z.to_nat n) u).
Proof.
  intros Hok Ho Hn. unfold gives, substringFromIndex. rewrite (code_units_spec _ _ _ _ Ho). cbn [mbind outcome_bind].
  rewrite units_where_from by done. destruct (new_units_spec (drop (Z.to_nat n) u) w) as (r & w1 & w' & E1 & E2 & Hm & Hl); [done|by eapply Forall_drop, units_u16|].
  exists r, w'. rewrite E1. cbn [mbind outcome_bind]. done.
Qed.
(** No object changes but the new one. *)
Lemma substringFromIndex_objs w o c u n r w' x y :
  abs w !! o = Some (c, u) → substringFromIndex fresh_id o n w = Ret (r, w') → ns_objs w !! x = Some y → ns_objs w' !! x = Some y.
Proof.
  intros Ho. unfold substringFromIndex, from_u16_vec. rewrite (code_units_spec _ _ _ _ Ho). cbn [mbind outcome_bind].
  unfold string_alloc. rewrite string_with_eq. cbn [mbind outcome_bind]. unfold ns_autorelease.
  rewrite (proj2 (Z.eqb_neq _ _)) by apply Hfresh. intros H Hx. bind_inv H. destruct a as [k h]. injection H as <- <-.
  assert (fresh_id w ≠ x) by (intros <-; by rewrite (proj2 (Hfresh w)) in Hx).
  destruct k; simpl; by rewrite lookup_insert_ne.
Qed.

Lemma substringWithRange_spec w o c u loc len :
  ns_ok w → abs w !! o = Some (c, u) → 0 ≤ loc → 0 ≤ len → Z.of_nat (length u) < U32_MOD →
  if loc + len <=? Z.of_nat (length u)
  then gives (substringWithRange fresh_id o loc len) w (take (Z.to_nat len) (drop (Z.to_nat loc) u))
  else substringWithRange fresh_id o loc len w = Panic.
Proof.
  intros Hok Ho Hloc Hlen Hu. destruct (convert_spec _ _ _ _ Hok Ho) as (w1 & E & Hs). unfold gives, substringWithRange. rewrite E.
  cbn [mbind outcome_bind]. destruct (Z.leb_spec (loc + len) (Z.of_nat (length u))).
  - rewrite u32_ok by lia. cbn [mbind outcome_bind]. rewrite (proj2 (Z.leb_le _ _)) by done. cbn [rassert mbind outcome_bind].
    destruct (new_units_spec (take (Z.to_nat len) (drop (Z.to_nat loc) u)) w1) as (r & w2 & w' & E1 & E2 & Hm & Hl);
      [apply Hs|by eapply Forall_take, Forall_drop, units_u16|].
    exists r, w'. rewrite E1. cbn [mbind outcome_bind]. split; [done|]. split; [|done]. by eapply made_same.
  - destruct (u32 (loc + len)) eqn:E1; [|done]. apply u32_inv in E1 as [-> _]. cbn [mbind outcome_bind].
    by rewrite (proj2 (Z.leb_gt _ _)) by done.
Qed.
End facts.
