(* ===== verification/NSStringSearch.v ===== *)
(** * Strings: searching, splitting and replacing

    References for the loops of [rangeOfString:options:], [componentsSeparatedByString:] and
    [stringByReplacingOccurrencesOfString:]: the list of all positions where a string occurs, and the
    cuts at its occurrences, from the left.  The comparison of units is any Boolean function the code's
    comparison agrees with, so that the case-insensitive searches are covered. *)

From S2P Require Import Prelude SizeBucketed VMAllocator HeapAllocator GuestMem Semaphore Fs Text PathAlgorithms NSString NSStringFacts.

Section search.
Context (eqb : Z → Z → bool).

(** The string starts with [p], up to the comparison. *)
Fixpoint prefix_by (p s : list Z) : bool :=
  match p, s with
  | [], _ => true
  | x :: p', c :: s' => eqb c x && prefix_by p' s'
  | _ :: _, [] => false
  end.

(** All positions where [s] occurs in [u]. *)
Definition occurrences (s u : list Z) : list Z :=
  filter (λ i, prefix_by s (drop (Z.to_nat i) u) = true) (seqZ 0 (Z.of_nat (length u))).
Fixpoint first_occurrence (s u : list Z) : option nat :=
  if prefix_by s u then Some 0%nat
  else match u with [] => None | _ :: u' => S <$> first_occurrence s u' end.

(** [u] cut at the occurrences of [sep], from the left. *)
Inductive cuts (sep : list Z) : list Z → list (list Z) → Prop :=
| cuts_none u : first_occurrence sep u = None → cuts sep u [u]
| cuts_some u i ws :
    first_occurrence sep u = Some i → cuts sep (drop (i + length sep) u) ws → cuts sep u (take i u :: ws).

Lemma prefix_by_spec p s :
  prefix_by p s = true ↔ ∀ k x, p !! k = Some x → ∃ y, s !! k = Some y ∧ eqb y x = true.
Proof.
  revert s. induction p as [|x p IH]; intros s; cbn [prefix_by]; [by split; [intros _ k y; rewrite lookup_nil|]|].
  destruct s as [|c s].
  - split; [done|]. intros H. by destruct (H 0%nat x eq_refl) as (y & ? & _).
  - rewrite andb_true_iff, IH. split.
    + intros [Hc H] [|k] y; simpl; [|by apply H]. intros [= <-]. by exists c.
    + intros H. split; [by destruct (H 0%nat x eq_refl) as (y & [= ->] & ?)|]. intros k y. apply (H (S k)).
Qed.
Lemma prefix_by_length p s : prefix_by p s = true → (length p ≤ length s)%nat.
Proof.
  revert s. induction p as [|x p IH]; intros [|c s]; simpl; try lia; try done. intros [_ H]%andb_true_iff. apply IH in H. lia.
Qed.

Lemma first_occurrence_None s u : first_occurrence s u = None → ∀ i, prefix_by s (drop i u) = false.
Proof.
  induction u as [|c u IH]; simpl.
  - destruct (prefix_by s []) eqn:E; [done|]. intros _ i. by rewrite drop_nil.
  - destruct (prefix_by s (c :: u)) eqn:E; [done|]. intros H [|i]; [done|]. simpl.
    destruct (first_occurrence s u); [done|]. by apply IH.
Qed.
Lemma first_occurrence_Some s u i :
  first_occurrence s u = Some i →
  (i ≤ length u)%nat ∧ prefix_by s (drop i u) = true ∧ ∀ j, (j < i)%nat → prefix_by s (drop j u) = false.
Proof.
  revert i. induction u as [|c u IH]; intros i; simpl.
  - destruct (prefix_by s []) eqn:E; [|done]. intros [= <-]. split; [done|]. split; [done|]. lia.
  - destruct (prefix_by s (c :: u)) eqn:E; [intros [= <-]; split; [lia|]; split; [done|lia]|].
    destruct (first_occurrence s u) as [k|]; [|done]. intros [= <-]. destruct (IH k eq_refl) as (Hl & Hk & Hj).
    split; [lia|]. split; [done|]. intros [|j] ?; [done|]. simpl. apply Hj. lia.
Qed.

Lemma first_occurrence_cons s c u :
  prefix_by s (c :: u) = false → first_occurrence s (c :: u) = S <$> first_occurrence s u.
Proof. simpl. by intros ->. Qed.

(** A unit that no occurrence starts at belongs to the first piece. *)
Lemma cuts_cons sep c u w ws : prefix_by sep (c :: u) = false → cuts sep u (w :: ws) → cuts sep (c :: u) ((c :: w) :: ws).
Proof.
  intros Hp H. inversion H as [u' Hf|u' i ws' Hf Hc]; subst.
  - apply cuts_none. by rewrite first_occurrence_cons, Hf.
  - apply (cuts_some sep (c :: u) (S i)); [by rewrite first_occurrence_cons, Hf|done].
Qed.
Lemma cuts_prefix sep u ws : prefix_by sep u = true → cuts sep (drop (length sep) u) ws → cuts sep u ([] :: ws).
Proof. intros Hp H. apply (cuts_some sep u 0); [destruct u; simpl; by rewrite Hp|done]. Qed.

(** The pieces with [r] between them. *)
Fixpoint join_with (r : list Z) (ws : list (list Z)) : list Z :=
  match ws with [] => [] | [w] => w | w :: ws => w ++ r ++ join_with r ws end.
Lemma join_with_cons r w ws : ws ≠ [] → join_with r (w :: ws) = w ++ r ++ join_with r ws.
Proof. by destruct ws. Qed.
Lemma cuts_nonempty sep u ws : cuts sep u ws → ws ≠ [].
Proof. by destruct 1. Qed.

(** ** The code's loops *)

Context (lower : Z → list Z) (case_insensitive : bool).

Lemma iter_strip_prefix_spec self prefix :
  (∀ a b, a ∈ self → b ∈ prefix →
     (if case_insensitive then case_insensitive_eq lower a b else Ret (a =? b)) = Ret (eqb a b)) →
  iter_strip_prefix lower self prefix case_insensitive =
    Ret (if prefix_by prefix self then Some (drop (length prefix) self) else None).
Proof.
  revert self. induction prefix as [|x p IH]; intros self H; simpl; [by destruct self|].
  destruct self as [|c s]; [done|]. cbn [iter_strip_prefix prefix_by length drop]. rewrite H by set_solver. cbn [mbind outcome_bind].
  destruct (eqb c x); [|done]. cbn [andb]. apply IH. intros a b Ha Hb. apply H; set_solver.
Qed.
End search.

(** ** Splitting and replacing *)

Section loops.
Context (lower : Z → list Z).

Lemma unit_eq_spec a b : (if false then case_insensitive_eq lower a b else Ret (a =? b)) = Ret (a =? b).
Proof. done. Qed.

Lemma split_loop_spec fuel main sep comps cur :
  sep ≠ [] → (length main < fuel)%nat →
  ∃ w ws, split_loop lower fuel main sep comps cur = Ret (comps ++ (cur ++ w) :: ws) ∧ cuts Z.eqb sep main (w :: ws).
Proof.
  intros Hsep. revert main comps cur. induction fuel as [|fuel IH]; intros main comps cur Hf; [lia|]. cbn [split_loop].
  rewrite (iter_strip_prefix_spec Z.eqb lower false) by (intros; apply unit_eq_spec). cbn [mbind outcome_bind].
  destruct (prefix_by Z.eqb sep main) eqn:Ep.
  - pose proof (prefix_by_length _ _ _ Ep). destruct sep as [|x sep]; [done|]. simpl in *.
    destruct (IH (drop (S (length sep)) main) (comps ++ [cur]) []) as (w & ws & E & Hc); [rewrite length_drop; lia|].
    exists [], (w :: ws). split; [rewrite E, app_nil_r, <- app_assoc; done|]. by apply cuts_prefix.
  - destruct main as [|c main].
    + exists [], []. split; [by rewrite app_nil_r|]. apply cuts_none. simpl. by rewrite Ep.
    + destruct (IH main comps (cur ++ [c])) as (w & ws & E & Hc); [simpl in *; lia|].
      exists (c :: w), ws. split; [rewrite E, <- app_assoc; done|]. by apply cuts_cons.
Qed.

Lemma replace_loop_spec eqb ci fuel main target replacement result :
  (∀ a b, a ∈ main → b ∈ target → (if ci : bool then case_insensitive_eq lower a b else Ret (a =? b)) = Ret (eqb a b)) →
  target ≠ [] → (length main < fuel)%nat →
  ∃ w ws, replace_loop lower fuel main target replacement ci result = Ret (result ++ join_with replacement (w :: ws)) ∧
    cuts eqb target main (w :: ws).
Proof.
  intros Heq Ht. revert main result Heq. induction fuel as [|fuel IH]; intros main result Heq Hf; [lia|]. cbn [replace_loop].
  rewrite (iter_strip_prefix_spec eqb lower ci) by done. cbn [mbind outcome_bind].
  destruct (prefix_by eqb target main) eqn:Ep.
  - pose proof (prefix_by_length _ _ _ Ep). destruct target as [|x target]; [done|]. simpl in *.
    destruct (IH (drop (S (length target)) main) (result ++ replacement)) as (w & ws & E & Hc).
    { intros a b Ha. apply Heq. rewrite <- (take_drop (S (length target)) main). set_solver. }
    { rewrite length_drop; lia. }
    exists [], (w :: ws). split; [rewrite E, <- app_assoc; done|]. by apply cuts_prefix.
  - destruct main as [|c main].
    + exists [], []. split; [by rewrite app_nil_r|]. apply cuts_none. simpl. by rewrite Ep.
    + destruct (IH main (result ++ [c])) as (w & ws & E & Hc); [intros; apply Heq; set_solver|simpl in *; lia|].
      exists (c :: w), ws. split; [|by apply cuts_cons]. rewrite E, <- app_assoc. do 2 f_equal.
      by destruct ws.
Qed.

(** The pieces, with the separator between them, are the string again. *)
Lemma prefix_eqb p s : prefix_by Z.eqb p s = true → s = p ++ drop (length p) s.
Proof.
  revert s. induction p as [|x p IH]; intros [|c s]; simpl; try done. intros [->%Z.eqb_eq H]%andb_true_iff. f_equal. by apply IH.
Qed.
Lemma cuts_join sep u ws : cuts Z.eqb sep u ws → join_with sep ws = u.
Proof.
  induction 1 as [u H|u i ws Hf Hc IH]; [done|]. rewrite join_with_cons by by eapply cuts_nonempty. rewrite IH.
  apply first_occurrence_Some in Hf as (_ & Hp & _). apply prefix_eqb in Hp. rewrite drop_drop in Hp.
  by rewrite <- Hp, take_drop.
Qed.
(** The separator occurs in none of them. *)
Lemma prefix_by_take eqb p s n : prefix_by eqb p (take n s) = true → prefix_by eqb p s = true.
Proof.
  revert s n. induction p as [|x p IH]; intros s n; simpl; [done|]. destruct s as [|c s]; [by rewrite take_nil|].
  destruct n; [done|]. simpl. intros [-> H]%andb_true_iff. by apply IH in H.
Qed.
Lemma cuts_free eqb sep u ws : sep ≠ [] → cuts eqb sep u ws → Forall (λ w, ∀ i, prefix_by eqb sep (drop i w) = false) ws.
Proof.
  intros Hsep. induction 1 as [u H|u i ws Hf Hc IH].
  - constructor; [|done]. by apply first_occurrence_None.
  - constructor; [|done]. intros j. apply first_occurrence_Some in Hf as (Hl & Hp & Hj).
    destruct (prefix_by eqb sep (drop j (take i u))) eqn:E; [|done]. exfalso.
    pose proof (prefix_by_length _ _ _ E) as Hlen. rewrite length_drop, length_take in Hlen.
    destruct sep; [done|]. simpl in Hlen. assert (j < i)%nat as Hji by lia. specialize (Hj j Hji).
    rewrite skipn_firstn_comm in E. apply prefix_by_take in E. congruence.
Qed.
End loops.
