(* ===== verification/NSStringMethods.v ===== *)
(** * Strings: what each method does

    The methods that search, cut, build and change strings, one by one, on the values of the strings. *)

From S2P Require Import Prelude SizeBucketed VMAllocator HeapAllocator GuestMem Semaphore Fs FsRuns Text PathAlgorithms NSString NSStringFacts NSStringSearch.

(** ** Positions *)

Lemma filter_none {A} (P : A → Prop) `{!∀ x, Decision (P x)} l : Forall (λ x, ¬ P x) l → filter P l = [].
Proof. induction 1 as [|x l Hx Hl IH]; [done|]. by rewrite filter_cons_False. Qed.
Lemma head_filter_seqZ (P : Z → Prop) `{!∀ i, Decision (P i)} n i :
  0 ≤ i < n → (∀ j, 0 ≤ j < i → ¬ P j) → P i → head (filter P (seqZ 0 n)) = Some i.
Proof.
  intros Hi Hj HP. replace n with (i + (n - i)) by lia. rewrite seqZ_app by lia. rewrite filter_app, Z.add_0_l.
  rewrite (filter_none P (seqZ 0 i)) by (apply Forall_seqZ; auto with lia).
  rewrite (seqZ_cons i) by lia. by rewrite filter_cons_True.
Qed.
Lemma last_filter_seqZ (P : Z → Prop) `{!∀ i, Decision (P i)} n i :
  0 ≤ i < n → (∀ j, i < j < n → ¬ P j) → P i → last (filter P (seqZ 0 n)) = Some i.
Proof.
  intros Hi Hj HP. replace n with (i + (n - i)) by lia. rewrite seqZ_app by lia. rewrite filter_app, Z.add_0_l.
  rewrite (seqZ_cons i) by lia. rewrite filter_cons_True by done.
  rewrite (filter_none P (seqZ (Z.succ i) _)) by (apply Forall_seqZ; intros; apply Hj; lia). apply last_snoc.
Qed.

Section methods.
Context (fresh_id : Ns → Z) (lower : Z → list Z).
Context (Hfresh : ∀ w, fresh_id w ≠ 0 ∧ ns_objs w !! fresh_id w = None).

(** ** Searching *)

Section searching.
Context (eqb : Z → Z → bool) (compare_fn : Z → Z → outcome bool).
Context (o p : Z) (c d : StrClass) (u s : list Z).
Context (Hcmp : ∀ a b, a ∈ u → b ∈ s → compare_fn a b = Ret (eqb a b)).
Context (Hu : Z.of_nat (length u) < 2147483648) (Hs : Z.of_nat (length s) < 2147483648).

Lemma is_match_spec w i :
  ns_ok w → abs w !! o = Some (c, u) → abs w !! p = Some (d, s) → 0 ≤ i < Z.of_nat (length u) →
  ∃ w', is_match_at_position o p i (Z.of_nat (length u)) (Z.of_nat (length s)) compare_fn w =
    Ret (prefix_by eqb s (drop (Z.to_nat i) u), w') ∧ same w w'.
Proof.
  intros Hok Ho Hp Hi. unfold is_match_at_position.
  match goal with |- ∃ w', (r ← for_range ?n ?body w; _) = _ ∧ _ =>
    destruct (for_range_spec n body
      (λ j w', same w w' ∧ ∀ k x, (k < Z.to_nat j)%nat → s !! k = Some x → ∃ y, drop (Z.to_nat i) u !! k = Some y ∧ eqb y x = true)
      (λ r, ∃ w', same w w' ∧ r = if prefix_by eqb s (drop (Z.to_nat i) u) then inl w' else inr w') w) as (r & -> & w' & Hsame & ->)
  end.
  - unfold U32_MOD. lia.
  - split; [by split|]. lia.
  - intros j w1 Hj [Hs1 Hk]. rewrite u32_ok by (unfold U32_MOD; lia). cbn [mbind outcome_bind].
    destruct (lookup_lt_is_Some_2 s (Z.to_nat j)) as [x Hx]; [lia|].
    destruct (Z.ltb_spec (i + j) (Z.of_nat (length u))) as [Hl|Hl].
    + destruct (lookup_lt_is_Some_2 u (Z.to_nat (i + j))) as [y Hy]; [lia|].
      rewrite <- (same_abs _ _ Hs1) in Ho, Hp.
      destruct (character_spec _ _ _ _ _ _ (proj1 Hs1) Ho Hy) as (w2 & -> & Hs2). cbn [mbind outcome_bind].
      rewrite <- (same_abs _ _ Hs2) in Hp. destruct (character_spec _ _ _ _ _ _ (proj1 Hs2) Hp Hx) as (w3 & -> & Hs3). cbn [mbind outcome_bind].
      rewrite Hcmp by by eapply list_elem_of_lookup_2. cbn [mbind outcome_bind].
      assert (same w w3) as Hsw by (by eapply same_ns_trans, same_ns_trans).
      assert (drop (Z.to_nat i) u !! Z.to_nat j = Some y) as Hyd by (rewrite lookup_drop; by replace (Z.to_nat i + Z.to_nat j)%nat with (Z.to_nat (i + j)) by lia).
      destruct (eqb y x) eqn:E.
      * left. exists w3. split; [done|]. split; [done|]. intros k x' Hk' Hx'. destruct (decide (k = Z.to_nat j)) as [->|]; [|apply Hk; [lia|done]].
        exists y. split; [done|congruence].
      * right. exists w3. split; [done|]. exists w3. split; [done|]. destruct (prefix_by _ _ _) eqn:Epre; [|done].
        exfalso. destruct (proj1 (prefix_by_spec eqb _ _) Epre _ _ Hx) as (y' & Hy' & Ey). congruence.
    + right. exists w1. split; [done|]. exists w1. split; [done|]. destruct (prefix_by _ _ _) eqn:Epre; [|done].
      exfalso. destruct (proj1 (prefix_by_spec eqb _ _) Epre _ _ Hx) as (y' & Hy' & Ey). rewrite lookup_drop in Hy'. apply lookup_lt_Some in Hy'. lia.
  - intros w1 [Hs1 Hk]. exists w1. split; [done|]. rewrite (proj2 (prefix_by_spec eqb _ _)); [done|].
    intros k x Hx. apply Hk; [|done]. apply lookup_lt_Some in Hx. lia.
  - cbn [mbind outcome_bind]. exists w'. split; [|done]. by destruct (prefix_by _ _ _).
Qed.

(** The first, or the last, of all the positions where the string occurs. *)
Definition found (backwards : bool) : Z * Z :=
  match (if backwards then last (occurrences eqb s u) else head (occurrences eqb s u)) with
  | Some i => (i, Z.of_nat (length s))
  | None => (ns_not_found, 0)
  end.

Lemma search_spec w backwards :
  ns_ok w → abs w !! o = Some (c, u) → abs w !! p = Some (d, s) →
  ∃ w', search_positions o p (Z.of_nat (length u)) (Z.of_nat (length s)) backwards compare_fn w = Ret (found backwards, w') ∧ same w w'.
Proof.
  intros Hok Ho Hp. unfold search_positions.
  match goal with |- ∃ w', (r ← for_range ?n ?body w; _) = _ ∧ _ =>
    destruct (for_range_spec n body
      (λ k w', same w w' ∧ ∀ j, 0 ≤ j < k → prefix_by eqb s (drop (Z.to_nat (if backwards then Z.of_nat (length u) - 1 - j else j)) u) = false)
      (λ r, ∃ w', same w w' ∧ match r with inl w => (ns_not_found, 0, w) | inr x => x end = (found backwards, w')) w) as (r & -> & w' & Hsame & E)
  end.
  - unfold U32_MOD. lia.
  - split; [by split|]. lia.
  - intros k w1 Hk [Hs1 Hj]. set (i := if backwards then _ else k). assert (0 ≤ i < Z.of_nat (length u)) as Hi by (destruct backwards; subst i; lia).
    rewrite <- (same_abs _ _ Hs1) in Ho, Hp. destruct (is_match_spec w1 i (proj1 Hs1) Ho Hp Hi) as (w2 & -> & Hs2). cbn [mbind outcome_bind].
    assert (same w w2) as Hsw by by eapply same_ns_trans. destruct (prefix_by eqb s (drop (Z.to_nat i) u)) eqn:E.
    + right. eexists. split; [done|]. exists w2. split; [done|]. f_equal. unfold found, occurrences.
      destruct backwards; subst i.
      * rewrite (last_filter_seqZ _ _ (Z.of_nat (length u) - 1 - k)); [done|lia| |done]. intros j Hj'. rewrite not_true_iff_false.
        replace j with (Z.of_nat (length u) - 1 - (Z.of_nat (length u) - 1 - j)) by lia. apply Hj. lia.
      * rewrite (head_filter_seqZ _ _ k); [done|lia| |done]. intros j Hj'. rewrite not_true_iff_false. by apply Hj.
    + left. exists w2. split; [done|]. split; [done|]. intros j Hj'. destruct (decide (j = k)) as [->|]; [done|]. apply Hj. lia.
  - intros w1 [Hs1 Hj]. exists w1. split; [done|]. f_equal. unfold found, occurrences. rewrite filter_none; [by destruct backwards|].
    apply Forall_seqZ. intros j Hj'. rewrite not_true_iff_false. destruct backwards; [|apply Hj; lia].
    replace j with (Z.of_nat (length u) - 1 - (Z.of_nat (length u) - 1 - j)) by lia. apply Hj. lia.
  - cbn [mbind outcome_bind]. exists w'. by rewrite E.
Qed.
End searching.

(** ** Building *)

Lemma append_spec w o p c d u v :
  ns_ok w → abs w !! o = Some (c, u) → abs w !! p = Some (d, v) → Z.of_nat (length u) + Z.of_nat (length v) < U32_MOD →
  ∃ r w', stringByAppendingString fresh_id o p w = Ret (r, w') ∧ made w r TouchString (u ++ v) w' ∧
    ns_objs w' !! r = Some (Some 1, StrObj TouchString (Utf16 (u ++ v))) ∧ ns_pool w' = ns_pool w.
Proof.
  intros Hok Ho Hp Hn. unfold stringByAppendingString.
  rewrite (proj2 (Z.eqb_neq _ _)) by (by eapply not_nil). cbn [negb rassert mbind outcome_bind].
  destruct (length_spec _ _ _ _ Hok Ho) as (w1 & -> & H1); [lia|]. cbn [mbind outcome_bind].
  rewrite <- (same_abs _ _ H1) in Ho, Hp. destruct (length_spec _ _ _ _ (proj1 H1) Hp) as (w2 & -> & H2); [lia|]. cbn [mbind outcome_bind].
  rewrite <- (same_abs _ _ H2) in Ho, Hp. rewrite u32_ok by lia. cbn [mbind outcome_bind].
  rewrite (code_units_spec _ _ _ _ Ho), (code_units_spec _ _ _ _ Hp). cbn [mbind outcome_bind].
  rewrite (alloc_eq fresh_id Hfresh). do 2 eexists. split; [done|]. split.
  - eapply made_same; [eapply same_ns_trans; [exact H1|exact H2]|].
    apply (put_fresh_spec fresh_id Hfresh (Some 1) TouchString (Utf16 (u ++ v))); [apply H2|].
    apply Forall_app. split; (eapply units_u16; [apply H2|done]).
  - split; [apply lookup_insert_eq|]. apply (same_ns_trans _ _ _ H1) in H2 as [_ Hv]. by apply (f_equal ns_pool) in Hv.
Qed.

(** A list of new strings. *)
Definition all_made (w : Ns) (os : list Z) (ws : list (list Z)) (w' : Ns) : Prop :=
  kept w w' ∧ NoDup os ∧ Forall2 (λ o u, abs w !! o = None ∧ abs w' !! o = Some (TouchString, u)) os ws.
Lemma alloc_each_spec ws w :
  ns_ok w → Forall (Forall is_u16) ws →
  ∃ os w', alloc_each (λ utf16, ns_alloc fresh_id (Some 1) (StrObj TouchString (Utf16 utf16))) ws w = Ret (os, w') ∧ all_made w os ws w'.
Proof.
  intros Hok Hws. revert w Hok. induction Hws as [|u ws Hu Hws IH]; intros w Hok.
  - exists [], w. split; [done|]. split; [by split|]. split; constructor.
  - cbn [alloc_each]. rewrite (alloc_eq fresh_id Hfresh). cbn [mbind outcome_bind].
    pose proof (put_fresh_spec fresh_id Hfresh (Some 1) TouchString (Utf16 u) w Hok Hu) as Hm. simpl in Hm.
    set (w1 := put_str _ _ _ _ w) in *. destruct (IH w1) as (os & w' & -> & Hk & Hnd & Hall); [apply Hm|]. cbn [mbind outcome_bind].
    eexists _, w'. split; [done|]. split; [eapply kept_ns_trans; [apply Hm|done]|]. split.
    + constructor; [|done]. intros Hin. apply list_elem_of_lookup in Hin as [k Hk'].
      destruct (Forall2_lookup_l _ _ _ _ _ Hall Hk') as (x & _ & Hx & _). destruct Hm as (_ & _ & Hm). congruence.
    + constructor; [split; [apply Hm|eapply kept_lookup; [done|apply Hm]]|].
      eapply Forall2_impl; [exact Hall|]. intros o x [Hn Ho]. split; [|done]. eapply lookup_weaken_None; [exact Hn|]. apply Hm.
Qed.

(** An object that is no string changes nothing for the strings. *)
Lemma alloc_other_spec n h w :
  ns_ok w → str_value (n, h) = None →
  ∃ w', ns_alloc fresh_id n h w = Ret (fresh_id w, w') ∧ ns_ok w' ∧ abs w' = abs w ∧ ns_objs w' !! fresh_id w = Some (n, h).
Proof.
  intros Hok Hh. destruct (Hfresh w) as [Hz Hn]. unfold ns_alloc. rewrite (proj2 (Z.eqb_neq _ _)), bool_decide_true by done.
  cbn [negb andb rassert mbind outcome_bind]. eexists. split; [done|].
  assert (abs (set_ns_objs (<[fresh_id w:=(n, h)]> (ns_objs w)) w) = abs w) as Ha.
  { unfold abs. apply map_eq. intros o. simpl. rewrite !lookup_omap. destruct (decide (fresh_id w = o)) as [<-|].
    - by rewrite lookup_insert_eq, Hn.
    - by rewrite lookup_insert_ne. }
  split; [|split; [done|apply lookup_insert_eq]]. destruct Hok as [Hok Hst]. split.
  - intros o n' c' h'. simpl. destruct (decide (fresh_id w = o)) as [<-|].
    + rewrite lookup_insert_eq. intros [= -> ->]. done.
    + rewrite lookup_insert_ne by done. apply Hok.
  - intros s' o' Hp. rewrite Ha. by apply Hst.
Qed.

Lemma array_of_spec ws w :
  ns_ok w → Forall (Forall is_u16) ws →
  ∃ a os w', array_of fresh_id (λ utf16, ns_alloc fresh_id (Some 1) (StrObj TouchString (Utf16 utf16))) ws w = Ret (a, w') ∧
    ns_objs w' !! a = Some (Some 1, ArrObj os) ∧ all_made w os ws w'.
Proof.
  intros Hok Hws. unfold array_of. destruct (alloc_each_spec ws w Hok Hws) as (os & w1 & -> & Hk & Hnd & Hall). cbn [mbind outcome_bind].
  unfold array_from_vec. destruct (alloc_other_spec (Some 1) (ArrObj os) w1) as (w2 & -> & Hok2 & Ha & Hl); [apply Hk|done|]. cbn [mbind outcome_bind].
  unfold ns_autorelease. rewrite (proj2 (Z.eqb_neq _ _)) by apply Hfresh. rewrite Hl. cbn [unwrap mbind outcome_bind].
  assert (∀ P, abs (set_ns_pool P w2) = abs w1) as Hp by done.
  do 3 eexists. split; [done|]. split; [exact Hl|]. split; [split; [done|rewrite Hp; apply Hk]|]. split; [done|].
  eapply Forall2_impl; [exact Hall|]. intros o u. by rewrite Hp.
Qed.

Lemma cuts_u16 sep u ws : Forall is_u16 u → cuts Z.eqb sep u ws → Forall (Forall is_u16) ws.
Proof.
  intros Hu H. induction H as [u H|u i ws Hf Hc IH]; [by repeat constructor|].
  constructor; [by apply Forall_take|]. apply IH. by apply Forall_drop.
Qed.

Lemma components_spec w o p c d u sep :
  ns_ok w → abs w !! o = Some (c, u) → abs w !! p = Some (d, sep) → sep ≠ [] →
  ∃ a os ws w', componentsSeparatedByString fresh_id lower o p w = Ret (a, w') ∧
    cuts Z.eqb sep u ws ∧ ns_objs w' !! a = Some (Some 1, ArrObj os) ∧ all_made w os ws w'.
Proof.
  intros Hok Ho Hp Hsep. unfold componentsSeparatedByString. rewrite (code_units_spec _ _ _ _ Ho), (code_units_spec _ _ _ _ Hp).
  cbn [mbind outcome_bind]. rewrite bool_decide_false by done. cbn [negb rassert mbind outcome_bind].
  destruct (split_loop_spec lower (S (length u)) u sep [] [] Hsep) as (x & ws & -> & Hc); [lia|]. cbn [mbind outcome_bind app].
  destruct (array_of_spec (x :: ws) w Hok) as (a & os & w' & E & Hl & Hm); [eapply (cuts_u16 sep u); [by eapply units_u16|done]|].
  by exists a, os, (x :: ws), w'.
Qed.

(** ** Changing *)

(** Setting a mutable string to a well-formed value. *)
Lemma setString_spec w o p u d v :
  ns_ok w → abs w !! o = Some (TouchMutableString, u) → abs w !! p = Some (d, v) →
  match from_utf16 v with
  | Some _ => ∃ w', setString o p w = Ret w' ∧ ns_ok w' ∧ abs w' = <[o := (TouchMutableString, v)]> (abs w)
  | None => setString o p w = Panic
  end.
Proof.
  intros Hok Ho Hp. unfold setString. rewrite (proj2 (Z.eqb_neq _ _)) by (by eapply not_nil). cbn [negb rassert mbind outcome_bind].
  rewrite (to_rust_string_spec _ _ _ _ Hok Hp). destruct (from_utf16 v) as [s|] eqn:E; [|done]. cbn [unwrap mbind outcome_bind].
  apply from_utf16_inv in E as [Hs Hv]; [|by eapply units_u16].
  pose proof Ho as (n & h & Hl & _)%abs_lookup. unfold set_host_object, borrow_str. rewrite Hl. cbn [mbind outcome_bind].
  eexists. split; [done|]. rewrite abs_put_str. cbn [iter_code_units]. rewrite Hv. split; [|done].
  apply put_str_ok; [done|by eapply not_nil|done|]. intros s' Hst. apply Hok in Hst. congruence.
Qed.
Lemma setString_kept w w1 o p u d v :
  abs w !! o = Some (TouchMutableString, u) → kept w w1 → abs w1 !! p = Some (d, v) →
  match from_utf16 v with
  | Some _ => ∃ w', setString o p w1 = Ret w' ∧ ns_ok w' ∧ <[o := (TouchMutableString, v)]> (abs w) ⊆ abs w'
  | None => setString o p w1 = Panic
  end.
Proof.
  intros Ho Hk Hp. pose proof (setString_spec w1 o p u d v (proj1 Hk) (kept_lookup _ _ _ _ Hk Ho) Hp) as H.
  destruct (from_utf16 v); [|done]. destruct H as (w' & E & Hok1 & Ha). exists w'. split; [done|]. split; [done|].
  rewrite Ha. by apply insert_mono, Hk.
Qed.

Lemma empty_static_spec w :
  ns_ok w → ∃ o w', get_static_str fresh_id [] w = Ret (o, w') ∧ kept w w' ∧ abs w' !! o = Some (StaticString, []).
Proof.
  intros Hok. unfold get_static_str. destruct (static_str_pool w !! []) as [o|] eqn:E.
  - exists o, w. split; [done|]. split; [by split|]. by apply Hok in E.
  - unfold static_string_alloc. rewrite (string_with_eq fresh_id Hfresh). cbn [mbind outcome_bind].
    pose proof (put_fresh_spec fresh_id Hfresh None StaticString (Utf8 []) w Hok) as Hm. destruct Hm as ([[Hok1 Hst] Hk] & Hn & Ho); [constructor|].
    do 2 eexists. split; [done|]. set (w1 := put_str _ _ _ _ w) in *.
    assert (abs (set_static_str_pool (<[[]:=fresh_id w]> (static_str_pool w1)) w1) = abs w1) as Ha by done.
    rewrite Ha. split; [|done]. split; [|by rewrite Ha]. split; [done|].
    intros s o. rewrite Ha. cbn [static_str_pool set_static_str_pool]. destruct (decide ([] = s)) as [<-|].
    + rewrite lookup_insert_eq. by intros [= <-].
    + rewrite lookup_insert_ne by done. apply Hst.
Qed.

(** A piece of a string, with the shortcut for an empty one. *)
Lemma piece_spec (empty : bool) w o c u loc len :
  ns_ok w → abs w !! o = Some (c, u) → 0 ≤ loc → 0 ≤ len → loc + len ≤ Z.of_nat (length u) → Z.of_nat (length u) < 2147483648 →
  (empty = true → len = 0) →
  ∃ l w' d, (if empty then get_static_str fresh_id [] w else substringWithRange fresh_id o loc len w) = Ret (l, w') ∧
    kept w w' ∧ abs w' !! l = Some (d, take (Z.to_nat len) (drop (Z.to_nat loc) u)).
Proof.
  intros Hok Ho Hloc Hlen Hn Hu He. destruct empty.
  - rewrite He by done. destruct (empty_static_spec w Hok) as (l & w1 & -> & Hk & Hl). by exists l, w1, StaticString.
  - pose proof (substringWithRange_spec fresh_id Hfresh w o _ u loc len Hok Ho) as H. rewrite (proj2 (Z.leb_le _ _)) in H by lia.
    destruct H as (l & w1 & -> & Hm & _); [lia..|unfold U32_MOD; lia|]. exists l, w1, TouchString. split; [done|]. split; apply Hm.
Qed.

(** Out of range, [deleteCharactersInRange:] panics. *)
Lemma delete_panics w o c u loc len :
  ns_ok w → abs w !! o = Some (c, u) → 0 ≤ loc → 0 ≤ len → Z.of_nat (length u) < loc + len → Z.of_nat (length u) < 2147483648 →
  deleteCharactersInRange fresh_id o loc len w = Panic.
Proof.
  intros Hok Ho Hloc Hlen Hn Hu. unfold deleteCharactersInRange. destruct (Z.leb_spec loc (Z.of_nat (length u))) as [Hll|Hll].
  - destruct (piece_spec (loc =? 0) w o c u 0 loc) as (l & w1 & d & -> & Hk & _); [done|done|lia..|]. cbn [mbind outcome_bind].
    destruct (u32 (loc + len)) eqn:E; [|done]. apply u32_inv in E as [-> _]. cbn [mbind outcome_bind].
    destruct (length_spec w1 o _ u (proj1 Hk) (kept_lookup _ _ _ _ Hk Ho)) as (w2 & -> & _); [unfold U32_MOD; lia|]. cbn [mbind outcome_bind].
    rewrite (proj2 (Z.eqb_neq _ _)) by lia. destruct (u32 (Z.of_nat (length u) - (loc + len))) eqn:E; [|done]. apply u32_inv in E. lia.
  - rewrite (proj2 (Z.eqb_neq _ _)) by lia.
    pose proof (substringWithRange_spec fresh_id Hfresh w o _ u 0 loc Hok Ho) as H. rewrite (proj2 (Z.leb_gt _ _)) in H by lia.
    by rewrite H by (unfold U32_MOD; lia).
Qed.

Lemma delete_spec w o u loc len :
  ns_ok w → abs w !! o = Some (TouchMutableString, u) → 0 ≤ loc → 0 ≤ len → loc + len ≤ Z.of_nat (length u) → Z.of_nat (length u) < 2147483648 →
  let v := take (Z.to_nat loc) u ++ drop (Z.to_nat (loc + len)) u in
  match from_utf16 v with
  | Some _ => ∃ w', deleteCharactersInRange fresh_id o loc len w = Ret w' ∧ ns_ok w' ∧ <[o := (TouchMutableString, v)]> (abs w) ⊆ abs w'
  | None => deleteCharactersInRange fresh_id o loc len w = Panic
  end.
Proof.
  intros Hok Ho Hloc Hlen Hn Hu v. unfold deleteCharactersInRange.
  destruct (piece_spec (loc =? 0) w o _ u 0 loc Hok Ho) as (l & w1 & cl & -> & Hk1 & Hl); [lia..|]. cbn [mbind outcome_bind].
  rewrite u32_ok by (unfold U32_MOD; lia). cbn [mbind outcome_bind].
  destruct (length_spec w1 o _ u (proj1 Hk1) (kept_lookup _ _ _ _ Hk1 Ho)) as (w2 & -> & Hs2); [unfold U32_MOD; lia|]. cbn [mbind outcome_bind].
  assert (kept w w2) as Hk2 by (eapply kept_ns_trans; [exact Hk1|by apply same_kept]).
  rewrite <- (same_abs _ _ Hs2) in Hl. pose proof (kept_lookup _ _ _ _ Hk2 Ho) as Ho2.
  rewrite (u32_ok (_ - _)) by (unfold U32_MOD; lia). cbn [mbind outcome_bind].
  destruct (piece_spec (loc + len =? Z.of_nat (length u)) w2 o _ u (loc + len) (Z.of_nat (length u) - (loc + len)) (proj1 Hk2) Ho2)
    as (r & w3 & cr & -> & Hk3 & Hr); [lia..|]. cbn [mbind outcome_bind].
  rewrite (take_ge (drop (Z.to_nat (loc + len)) u)) in Hr by (rewrite length_drop; lia).
  destruct (append_spec w3 l r _ _ _ _ (proj1 Hk3) (kept_lookup _ _ _ _ Hk3 Hl) Hr) as (x & w4 & -> & Hm & _).
  { rewrite length_take, !length_drop. unfold U32_MOD. lia. }
  cbn [mbind outcome_bind]. assert (kept w w4) as Hk4 by (eapply kept_ns_trans; [exact Hk2|eapply kept_ns_trans; [exact Hk3|apply Hm]]).
  exact (setString_kept w w4 o x u _ _ Ho Hk4 (proj2 (proj2 Hm))).
Qed.
Lemma appendString_spec w o p d u v :
  ns_ok w → abs w !! o = Some (TouchMutableString, u) → abs w !! p = Some (d, v) → Z.of_nat (length u) + Z.of_nat (length v) < U32_MOD →
  match from_utf16 (u ++ v) with
  | Some _ => ∃ w', appendString fresh_id o p w = Ret w' ∧ ns_ok w' ∧ <[o := (TouchMutableString, u ++ v)]> (abs w) ⊆ abs w'
  | None => appendString fresh_id o p w = Panic
  end.
Proof.
  intros Hok Ho Hp Hn. unfold appendString. rewrite (proj2 (Z.eqb_neq _ _)) by (by eapply not_nil). cbn [negb rassert mbind outcome_bind].
  destruct (append_spec w o p _ _ u v Hok Ho Hp Hn) as (r & w1 & -> & Hm & _). cbn [mbind outcome_bind].
  exact (setString_kept w w1 o r u _ _ Ho (proj1 Hm) (proj2 (proj2 Hm))).
Qed.

(** [copy]: the string itself, or a new immutable one when it is mutable. *)
Lemma copy_spec w o c u :
  ns_ok w → abs w !! o = Some (c, u) → (∀ n h, ns_objs w !! o = Some (Some n, h) → 0 < n < 4294967295) →
  ∃ r w', ns_copy fresh_id o w = Ret (r, w') ∧ kept w w' ∧
    (if decide (c = TouchMutableString) then abs w !! r = None ∧ abs w' !! r = Some (TouchString, u) else r = o).
Proof.
  intros Hok Ho Hn. unfold ns_copy. rewrite (str_class_spec _ _ _ _ Ho). cbn [mbind outcome_bind]. case_decide as Hc.
  - unfold string_alloc. rewrite (alloc_eq fresh_id Hfresh). cbn [mbind outcome_bind]. unfold initWithString.
    pose proof (put_fresh_spec fresh_id Hfresh (Some 1) TouchString (Utf8 []) w Hok) as Hm. specialize (Hm ltac:(constructor)).
    rewrite (code_units_spec _ _ _ _ (kept_lookup _ _ _ _ (proj1 Hm) Ho)). cbn [mbind outcome_bind].
    unfold set_host_object, borrow_str, put_str at 1. simpl. rewrite lookup_insert_eq. cbn [mbind outcome_bind].
    unfold put_str, set_ns_objs. simpl. rewrite insert_insert_eq. do 2 eexists. split; [done|].
    destruct (put_fresh_spec fresh_id Hfresh (Some 1) TouchString (Utf16 u) w Hok) as (Hk & Hf & Hl); [by eapply units_u16|]. done.
  - pose proof Ho as (n & h & Hl & Hu)%abs_lookup. unfold ns_retain. rewrite (proj2 (Z.eqb_neq _ _)) by (by eapply not_nil).
    rewrite Hl. cbn [unwrap mbind outcome_bind]. destruct n as [n|]; [|by exists o, w].
    apply Hn in Hl as Hr. rewrite u32_ok by (unfold U32_MOD; lia). cbn [mbind outcome_bind]. do 2 eexists. split; [done|].
    change (set_ns_objs _ w) with (put_str o (Some (n + 1)) c h w).
    assert (abs (put_str o (Some (n + 1)) c h w) = abs w) as Ha by (rewrite abs_put_str; apply insert_id; congruence).
    split; [|done]. split; [|by rewrite Ha]. split.
    + intros o' n' c' h'. unfold put_str, set_ns_objs. simpl. destruct (decide (o = o')) as [<-|].
      * rewrite lookup_insert_eq. intros [= <- <- <-]. by eapply Hok.
      * rewrite lookup_insert_ne by done. by apply Hok.
    + intros s o'. rewrite Ha. apply Hok.
Qed.
Lemma mutableCopy_spec w o c u :
  ns_ok w → abs w !! o = Some (c, u) →
  match from_utf16 u with
  | Some _ => ∃ r w', ns_mutableCopy fresh_id o w = Ret (r, w') ∧ kept w w' ∧ abs w !! r = None ∧ abs w' !! r = Some (TouchMutableString, u)
  | None => ns_mutableCopy fresh_id o w = Panic
  end.
Proof.
  intros Hok Ho. unfold ns_mutableCopy, mutable_string_alloc. rewrite (alloc_eq fresh_id Hfresh). cbn [mbind outcome_bind].
  destruct (put_fresh_spec fresh_id Hfresh (Some 1) TouchMutableString (Utf8 []) w Hok) as (Hk & Hf & Hl); [constructor|].
  set (w1 := put_str _ _ _ _ w) in *. pose proof (setString_spec w1 _ o _ _ u (proj1 Hk) Hl (kept_lookup _ _ _ _ Hk Ho)) as H.
  destruct (from_utf16 u); [|by rewrite H]. destruct H as (w' & -> & Hok' & Ha). cbn [mbind outcome_bind].
  do 2 eexists. split; [done|]. unfold kept. rewrite Ha. split; [|split; [done|apply lookup_insert_eq]]. split; [done|].
  unfold w1. rewrite abs_put_str, insert_insert_eq. by apply insert_subseteq.
Qed.

(** ** Replacing *)

(** The result of a replacement, which is not autoreleased. *)
Definition replaced (w : Ns) (m : outcome (Z * Ns)) (v : list Z) : Prop :=
  ∃ r w', m = Ret (r, w') ∧ kept w w' ∧ abs w !! r = None ∧ abs w' !! r = Some (TouchString, v).

(** [v] is [u] with every occurrence of the target replaced. *)
Definition replacement_of (eqb : Z → Z → bool) (target replacement u v : list Z) : Prop :=
  if decide (target = []) then v = u else ∃ ws, cuts eqb target u ws ∧ v = join_with replacement ws.

Lemma join_u16 eqb sep replacement u ws :
  Forall is_u16 replacement → Forall is_u16 u → cuts eqb sep u ws → Forall is_u16 (join_with replacement ws).
Proof.
  intros Hr Hu Hc. induction Hc as [v Hf|v i l Hf Hc IH]; [done|]. rewrite join_with_cons by by eapply cuts_nonempty.
  apply Forall_app. split; [by apply Forall_take|]. apply Forall_app. split; [done|]. apply IH. by apply Forall_drop.
Qed.

Section replacing.
Context (eqb : Z → Z → bool) (options : Z) (m target replacement : list Z).
Context (Hopt : options = 0 ∧ eqb = Z.eqb ∨
  options = NSCaseInsensitiveSearch ∧ ∀ a b, a ∈ m → b ∈ target → case_insensitive_eq lower a b = Ret (eqb a b)).

Lemma replacing_inner w o p r d e :
  ns_ok w → ns_objs w !! o = Some (Some 1, StrObj TouchString (Utf16 m)) → abs w !! p = Some (d, target) → abs w !! r = Some (e, replacement) →
  ∃ x w' f v, string_by_replacing_occurrences_inner fresh_id lower o p r options w = Ret (x, w') ∧ kept w w' ∧ abs w' !! x = Some (f, v) ∧
    replacement_of eqb target replacement m v.
Proof.
  intros Hok Hobj Hp Hr. assert (abs w !! o = Some (TouchString, m)) as Ho by (apply abs_lookup; by eexists _, _).
  unfold string_by_replacing_occurrences_inner.
  rewrite (code_units_spec _ _ _ _ Ho), (code_units_spec _ _ _ _ Hp), (code_units_spec _ _ _ _ Hr). cbn [mbind outcome_bind].
  unfold replacement_of. case_decide as Ht.
  - destruct (copy_spec w o _ m Hok Ho) as (x & w1 & -> & Hk & Hx); [intros n h; rewrite Hobj; intros [= <- _]; lia|].
    cbn [mbind outcome_bind]. rewrite decide_False in Hx by done. subst x.
    destruct (autorelease_spec w1 o _ m (proj1 Hk) (kept_lookup _ _ _ _ Hk Ho)) as (w2 & -> & Hok2 & Hobj2 & _).
    assert (abs w2 = abs w1) as Ha by (unfold abs; by rewrite Hobj2).
    exists o, w2, TouchString, m. split; [done|]. unfold kept. rewrite Ha. split; [split; [done|apply Hk]|]. split; [|done]. by apply (kept_lookup _ _ _ _ Hk).
  - assert (∃ ci : bool, (if options =? 0 then Ret false else if options =? NSCaseInsensitiveSearch then Ret true else Panic) = Ret ci ∧
      ∀ a b, a ∈ m → b ∈ target → (if ci then case_insensitive_eq lower a b else Ret (a =? b)) = Ret (eqb a b)) as (ci & -> & Heq).
    { destruct Hopt as [[-> ->]|[-> H]]; [by exists false|by exists true]. }
    cbn [mbind outcome_bind]. destruct (replace_loop_spec lower eqb ci (S (length m)) m target replacement [] Heq Ht) as (x & ws & -> & Hc); [lia|].
    cbn [mbind outcome_bind app].
    assert (Forall is_u16 (join_with replacement (x :: ws))) as Hv by (eapply join_u16; [by eapply units_u16|by eapply units_u16|exact Hc]).
    destruct (new_units_spec fresh_id Hfresh _ w Hok Hv) as (y & w1 & w2 & -> & E & Hm & _). cbn [mbind outcome_bind].
    exists y, w2, TouchString. eexists. split; [exact E|]. split; [apply Hm|]. split; [apply Hm|]. by eexists.
Qed.

(** The three pieces of the string, the one in the middle with its occurrences replaced, are appended to each other. *)
Lemma replacing_spec w o p r c d e u loc len :
  ns_ok w → abs w !! o = Some (c, u) → abs w !! p = Some (d, target) → abs w !! r = Some (e, replacement) →
  0 ≤ loc → 0 ≤ len → loc + len ≤ Z.of_nat (length u) → Z.of_nat (length u) < 2147483648 → m = take (Z.to_nat len) (drop (Z.to_nat loc) u) →
  ∃ v, replacement_of eqb target replacement m v ∧
    let x := take (Z.to_nat loc) u ++ v ++ drop (Z.to_nat (loc + len)) u in
    (Z.of_nat (length x) < U32_MOD → replaced w (stringByReplacingOccurrences_range fresh_id lower o p r options loc len w) x).
Proof.
  intros Hok Ho Hp Hr Hloc Hlen Hle Hu Hm. unfold stringByReplacingOccurrences_range.
  destruct (substringToIndex_spec fresh_id Hfresh w o c u loc Hok Ho) as (l & w1 & -> & (H1 & _ & Hl) & _). cbn [mbind outcome_bind].
  pose proof (λ o x, kept_lookup _ _ o x H1) as K1.
  pose proof (substringWithRange_spec fresh_id Hfresh w1 o c u loc len (proj1 H1) (K1 _ _ Ho)) as Hmid.
  rewrite (proj2 (Z.leb_le _ _)) in Hmid by lia. destruct Hmid as (mid & w2 & -> & (H2 & _ & _) & Hobj); [lia..|unfold U32_MOD; lia|]. cbn [mbind outcome_bind].
  pose proof (λ o x, kept_lookup _ _ o x H2) as K2. rewrite <- Hm in Hobj.
  rewrite u32_ok by (unfold U32_MOD; lia). cbn [mbind outcome_bind].
  destruct (substringFromIndex_spec fresh_id Hfresh w2 o c u (loc + len) (proj1 H2) (K2 _ _ (K1 _ _ Ho))) as (rt & w3 & E3 & (H3 & _ & Hrt) & _); [lia|].
  rewrite E3. cbn [mbind outcome_bind]. pose proof (λ o x, kept_lookup _ _ o x H3) as K3.
  apply (substringFromIndex_objs fresh_id Hfresh _ _ _ _ _ _ _ _ _ (K2 _ _ (K1 _ _ Ho)) E3) in Hobj.
  destruct (replacing_inner w3 mid p r d e (proj1 H3) Hobj) as (y & w4 & f & v & -> & H4 & Hy & Hrep); [auto..|]. cbn [mbind outcome_bind].
  pose proof (λ o x, kept_lookup _ _ o x H4) as K4. exists v. split; [done|]. intros Hx.
  rewrite !length_app in Hx.
  destruct (append_spec w4 l y _ _ _ _ (proj1 H4) (K4 _ _ (K3 _ _ (K2 _ _ Hl))) Hy) as (z & w5 & -> & (H5 & _ & Hz) & _); [lia|]. cbn [mbind outcome_bind].
  destruct (append_spec w5 z rt _ _ _ _ (proj1 H5) Hz (kept_lookup _ _ _ _ H5 (K4 _ _ Hrt))) as (q & w6 & -> & (H6 & Hq & Hqx) & _).
  { rewrite length_app. lia. }
  assert (kept w w5) as Hk5 by (do 4 (eapply kept_ns_trans; [eassumption|]); done).
  exists q, w6. split; [done|]. split; [by eapply kept_ns_trans|]. split; [eapply lookup_weaken_None; [exact Hq|apply Hk5]|].
  by rewrite Hqx, <- app_assoc.
Qed.
End replacing.
End methods.
