(* ===== verification/NSStringRuns.v ===== *)
(** * Strings: the methods refine an abstract specification

    A call of a string method is an element of [StrCall]; whether it returns and what it must answer and leave behind is
    stated on the values of the strings alone ([defined], [post]).  [ns_string_refines]: every
    call does that, whatever the representations of the strings are. *)

From S2P Require Import Prelude SizeBucketed VMAllocator HeapAllocator GuestMem Semaphore Fs FsRuns Text PathAlgorithms NSString NSStringFacts NSStringSearch NSStringMethods.

(** ** Calls and answers *)

Inductive StrCall :=
| Length (o : Z)
| CharacterAt (o i : Z)
| RangeOf (o s options : Z)
| SubstringTo (o n : Z)
| SubstringFrom (o n : Z)
| Substring (o loc len : Z)
| Appending (o p : Z)
| Components (o separator : Z)
| Replacing (o target replacement options loc len : Z)
| Compare (o p : Z)
| Equal (o p : Z)
| SetString (o p : Z)
| AppendString (o p : Z)
| Delete (o loc len : Z)
| Copy (o : Z)
| MutableCopy (o : Z).

Inductive StrAnswer := AUnit | AInt (n : Z) | ABool (b : bool) | ARange (location length_ : Z) | AObject (o : Z).

Definition with_answer {A} (f : A → StrAnswer) (m : outcome (A * Ns)) : outcome (StrAnswer * Ns) := '(x, w) ← m; Ret (f x, w).
Definition no_answer (m : outcome Ns) : outcome (StrAnswer * Ns) := w ← m; Ret (AUnit, w).
Definition only_answer {A} (f : A → StrAnswer) (w : Ns) (m : outcome A) : outcome (StrAnswer * Ns) := x ← m; Ret (f x, w).

Section calls.
Context (fresh_id : Ns → Z) (lower : Z → list Z).

Definition run_string (call : StrCall) (w : Ns) : outcome (StrAnswer * Ns) :=
  match call with
  | Length o => with_answer AInt (ns_length o w)
  | CharacterAt o i => with_answer AInt (characterAtIndex o i w)
  | RangeOf o s options => with_answer (λ x, ARange x.1 x.2) (rangeOfString_options lower o s options w)
  | SubstringTo o n => with_answer AObject (substringToIndex fresh_id o n w)
  | SubstringFrom o n => with_answer AObject (substringFromIndex fresh_id o n w)
  | Substring o loc len => with_answer AObject (substringWithRange fresh_id o loc len w)
  | Appending o p => with_answer AObject (stringByAppendingString fresh_id o p w)
  | Components o separator => with_answer AObject (componentsSeparatedByString fresh_id lower o separator w)
  | Replacing o target replacement options loc len =>
      with_answer AObject (stringByReplacingOccurrences_range fresh_id lower o target replacement options loc len w)
  | Compare o p => only_answer AInt w (ns_compare lower o p w)
  | Equal o p => only_answer ABool w (isEqualToString o p w)
  | SetString o p => no_answer (setString o p w)
  | AppendString o p => no_answer (appendString fresh_id o p w)
  | Delete o loc len => no_answer (deleteCharactersInRange fresh_id o loc len w)
  | Copy o => with_answer AObject (ns_copy fresh_id o w)
  | MutableCopy o => with_answer AObject (ns_mutableCopy fresh_id o w)
  end.
End calls.

(** ** The specification, on values *)

Section spec.
Context (lower : Z → list Z).
Implicit Types A : gmap Z (StrClass * list Z).

Definition is_str A (o : Z) : Prop := is_Some (A !! o).
Definition is_mutable_str A (o : Z) : Prop := fst <$> A !! o = Some TouchMutableString.
#[local] Instance is_mutable_dec A o : Decision (is_mutable_str A o).
Proof. unfold is_mutable_str. apply _. Defined.
Definition units A (o : Z) : list Z := default [] (snd <$> A !! o).
Definition well_formed (u : list Z) : bool := bool_decide (is_Some (from_utf16 u)).
(** The comparison of units that the options ask for. *)
Definition option_eqb (options a b : Z) : bool :=
  if options =? NSCaseInsensitiveSearch then bool_decide (char_to_lowercase lower a = char_to_lowercase lower b) else a =? b.

(** The receiver and the arguments are what the methods are for: strings, mutable ones to change; options that are
    implemented, and no surrogates when case is ignored; a replacement that does not make a string of 2^32 units. *)
Definition no_surrogates (u : list Z) : Prop := Forall (λ x, is_surrogate x = false) u.
Definition sensible A (call : StrCall) : Prop :=
  match call with
  | Length o | Copy o | MutableCopy o => is_str A o
  | CharacterAt o i => is_str A o ∧ 0 ≤ i
  | RangeOf o s options =>
      is_str A o ∧ is_str A s ∧
      (options ∈ [0; NSLiteralSearch; NSBackwardsSearch] ∨ options = NSCaseInsensitiveSearch ∧ no_surrogates (units A o) ∧ no_surrogates (units A s))
  | SubstringTo o n | SubstringFrom o n => is_str A o ∧ 0 ≤ n
  | Substring o loc len => is_str A o ∧ 0 ≤ loc ∧ 0 ≤ len
  | Appending o p | Components o p | Compare o p | Equal o p => is_str A o ∧ is_str A p
  | Replacing o target replacement options loc len =>
      is_str A o ∧ is_str A target ∧ is_str A replacement ∧ 0 ≤ loc ∧ 0 ≤ len ∧
      (options = 0 ∨ options = NSCaseInsensitiveSearch ∧ no_surrogates (units A o) ∧ no_surrogates (units A target)) ∧
      (Z.of_nat (length (units A o)) + 1) * (Z.of_nat (length (units A replacement)) + 1) < U32_MOD
  | SetString o p | AppendString o p => is_mutable_str A o ∧ is_str A p
  | Delete o loc len => is_mutable_str A o ∧ 0 ≤ loc ∧ 0 ≤ len
  end.

(** The calls that return; the others panic. *)
Definition delete_units (loc len : Z) (u : list Z) : list Z := take (Z.to_nat loc) u ++ drop (Z.to_nat (loc + len)) u.
Definition defined A (call : StrCall) : bool :=
  match call with
  | CharacterAt o i => i <? Z.of_nat (length (units A o))
  | Substring o loc len | Replacing o _ _ _ loc len => loc + len <=? Z.of_nat (length (units A o))
  | Components o separator => negb (bool_decide (units A separator = []))
  | Equal o p => (o =? p) || well_formed (units A o) && well_formed (units A p)
  | SetString o p => well_formed (units A p)
  | AppendString o p => well_formed (units A o ++ units A p)
  | Delete o loc len => (loc + len <=? Z.of_nat (length (units A o))) && well_formed (delete_units loc len (units A o))
  | MutableCopy o => well_formed (units A o)
  | _ => true
  end.

(** The answer is a new string; the string [o] has a new value. *)
Definition new_string A (r : StrAnswer) (c : StrClass) (u : list Z) (w' : Ns) : Prop :=
  ∃ x, r = AObject x ∧ A !! x = None ∧ abs w' !! x = Some (c, u) ∧ A ⊆ abs w'.
Definition changed A (r : StrAnswer) (o : Z) (v : list Z) (w' : Ns) : Prop :=
  r = AUnit ∧ <[o := (TouchMutableString, v)]> A ⊆ abs w'.
(** The answer is [r], and no string has changed. *)
Definition unchanged A (r r' : StrAnswer) (w' : Ns) : Prop := r = r' ∧ abs w' = A.

Definition post A (call : StrCall) (r : StrAnswer) (w' : Ns) : Prop :=
  match call with
  | Length o => unchanged A r (AInt (Z.of_nat (length (units A o)))) w'
  | CharacterAt o i => ∃ c, units A o !! Z.to_nat i = Some c ∧ unchanged A r (AInt c) w'
  | RangeOf o s options =>
      let '(l, n) := if decide (units A s = []) then (ns_not_found, 0)
                     else found (option_eqb options) (units A o) (units A s) (options =? NSBackwardsSearch) in
      unchanged A r (ARange l n) w'
  | SubstringTo o n => new_string A r TouchString (take (Z.to_nat n) (units A o)) w'
  | SubstringFrom o n => new_string A r TouchString (drop (Z.to_nat n) (units A o)) w'
  | Substring o loc len => new_string A r TouchString (take (Z.to_nat len) (drop (Z.to_nat loc) (units A o))) w'
  | Appending o p => new_string A r TouchString (units A o ++ units A p) w'
  | Components o separator =>
      ∃ a os ws n, r = AObject a ∧ ns_objs w' !! a = Some (n, ArrObj os) ∧ NoDup os ∧ A ⊆ abs w' ∧
        Forall2 (λ x u, A !! x = None ∧ abs w' !! x = Some (TouchString, u)) os ws ∧
        cuts Z.eqb (units A separator) (units A o) ws ∧
        (* hence: with the separator between them the parts are the string, and it occurs in none of them *)
        join_with (units A separator) ws = units A o ∧
        Forall (λ u, ∀ i, prefix_by Z.eqb (units A separator) (drop i u) = false) ws
  | Replacing o target replacement options loc len =>
      ∃ v, replacement_of (option_eqb options) (units A target) (units A replacement)
             (take (Z.to_nat len) (drop (Z.to_nat loc) (units A o))) v ∧
        new_string A r TouchString (take (Z.to_nat loc) (units A o) ++ v ++ drop (Z.to_nat (loc + len)) (units A o)) w'
  | Compare o p => unchanged A r (AInt (from_rust_ordering (lex_cmp (units A o) (units A p)))) w'
  | Equal o p => unchanged A r (ABool (bool_decide (units A o = units A p))) w'
  | SetString o p => changed A r o (units A p) w'
  | AppendString o p => changed A r o (units A o ++ units A p) w'
  | Delete o loc len => changed A r o (delete_units loc len (units A o)) w'
  | Copy o => if decide (is_mutable_str A o) then new_string A r TouchString (units A o) w' else r = AObject o ∧ A ⊆ abs w'
  | MutableCopy o => new_string A r TouchMutableString (units A o) w'
  end.
End spec.

(** ** Refinement *)

Section refinement.
Context (fresh_id : Ns → Z) (lower : Z → list Z).
Context (Hfresh : ∀ w, fresh_id w ≠ 0 ∧ ns_objs w !! fresh_id w = None).

(** What the specification asks of a run. *)
Definition refines (call : StrCall) (w : Ns) : Prop :=
  if defined (abs w) call
  then ∃ r w', run_string fresh_id lower call w = Ret (r, w') ∧ ns_ok w' ∧ post lower (abs w) call r w'
  else run_string fresh_id lower call w = Panic.

Lemma is_str_inv A o : is_str A o → ∃ c, A !! o = Some (c, units A o).
Proof. intros [[c u] H]. exists c. unfold units. by rewrite H. Qed.
Lemma is_mutable_inv A o : is_mutable_str A o → A !! o = Some (TouchMutableString, units A o).
Proof.
  unfold is_mutable_str, units. destruct (A !! o) as [[c u]|]; simpl; [|done]. by intros [= ->].
Qed.

(** Joining the pieces of a string with a replacement makes a string that is not much longer. *)
Lemma cuts_length eqb sep u ws r :
  sep ≠ [] → cuts eqb sep u ws → Z.of_nat (length (join_with r ws)) ≤ (Z.of_nat (length u) + 1) * (Z.of_nat (length r) + 1) - 1.
Proof.
  intros Hsep. induction 1 as [u Hf|u i ws Hf Hc IH]; [simpl; nia|].
  rewrite join_with_cons by by eapply cuts_nonempty. rewrite !length_app, length_take, !Nat2Z.inj_add.
  apply first_occurrence_Some in Hf as (Hi & Hp & _). apply prefix_by_length in Hp. rewrite length_drop in IH, Hp.
  destruct sep as [|x sep]; [done|]. simpl in *. nia.
Qed.
Lemma replacement_length eqb target r u v :
  replacement_of eqb target r u v → Z.of_nat (length v) ≤ (Z.of_nat (length u) + 1) * (Z.of_nat (length r) + 1) - 1.
Proof.
  unfold replacement_of. case_decide as Ht; [intros ->; nia|]. intros (ws & Hc & ->). by eapply cuts_length.
Qed.

Lemma case_insensitive_spec u s a b :
  Forall is_u16 u → Forall is_u16 s → no_surrogates u → no_surrogates s → a ∈ u → b ∈ s →
  case_insensitive_eq lower a b = Ret (option_eqb lower NSCaseInsensitiveSearch a b).
Proof.
  intros Hu Hs Hnu Hns Ha Hb. rewrite Forall_forall in Hu, Hs. unfold no_surrogates in *. rewrite Forall_forall in Hnu, Hns.
  assert (∀ x, is_u16 x → is_surrogate x = false → char_from_u32 x = Some x) as H.
  { intros x Hx Hn. unfold is_u16 in Hx. apply in_range_false in Hn. unfold char_from_u32. by rewrite (proj2 (scalar_range x)) by lia. }
  unfold case_insensitive_eq. by rewrite !H by auto.
Qed.

Lemma range_refines w o s options : ns_ok w → ns_small w → sensible (abs w) (RangeOf o s options) → refines (RangeOf o s options) w.
Proof.
  intros Hok [Hsm _] ((c & Ho)%is_str_inv & (d & Hs)%is_str_inv & Hopt). unfold refines. cbn [defined run_string post].
  set (u := units (abs w) o) in *. set (v := units (abs w) s) in *. pose proof (Hsm _ _ _ Ho) as Hlu. pose proof (Hsm _ _ _ Hs) as Hlv.
  unfold rangeOfString_options. destruct (length_spec w o c u Hok Ho) as (w1 & -> & H1); [unfold U32_MOD; lia|]. cbn [mbind outcome_bind].
  rewrite <- (same_abs _ _ H1) in Ho, Hs. destruct (msg_length_spec w1 s d v (proj1 H1) Hs) as (w2 & -> & H2); [unfold U32_MOD; lia|].
  cbn [mbind outcome_bind]. rewrite <- (same_abs _ _ H2) in Ho, Hs. pose proof (same_ns_trans _ _ _ H1 H2) as Hw2.
  case_decide as Hv.
  { rewrite Hv. exists (ARange ns_not_found 0), w2. split; [done|]. split; [apply H2|]. split; [done|]. by apply same_abs. }
  rewrite (proj2 (Z.eqb_neq _ _)) by (destruct v; [done|simpl; lia]).
  assert (∃ fn, (∀ a b, a ∈ u → b ∈ v → fn a b = Ret (option_eqb lower options a b)) ∧
    (if (options =? NSLiteralSearch) || (options =? 0) then search_positions o s (Z.of_nat (length u)) (Z.of_nat (length v)) false unit_eq w2
     else if options =? NSCaseInsensitiveSearch then search_positions o s (Z.of_nat (length u)) (Z.of_nat (length v)) false (case_insensitive_eq lower) w2
     else if options =? NSBackwardsSearch then search_positions o s (Z.of_nat (length u)) (Z.of_nat (length v)) true unit_eq w2 else Panic) =
    search_positions o s (Z.of_nat (length u)) (Z.of_nat (length v)) (options =? NSBackwardsSearch) fn w2) as (fn & Hfn & ->).
  { destruct Hopt as [Hopt|(-> & Hnu & Hnv)].
    - exists unit_eq. apply elem_of_cons in Hopt as [->|Hopt]; [done|]. apply elem_of_cons in Hopt as [->|Hopt]; [done|].
      by apply list_elem_of_singleton in Hopt as ->.
    - exists (case_insensitive_eq lower). split; [|done]. intros a b.
      apply (case_insensitive_spec u v); [exact (units_u16 _ _ _ _ (proj1 H2) Ho)|exact (units_u16 _ _ _ _ (proj1 H2) Hs)|done..]. }
  destruct (search_spec (option_eqb lower options) fn o s c d u v Hfn Hlu Hlv w2 (options =? NSBackwardsSearch) (proj1 H2) Ho Hs) as (w3 & -> & H3).
  pose proof (same_ns_trans _ _ _ Hw2 H3) as Hw3. cbn [with_answer mbind outcome_bind].
  destruct (found _ _ _ _) as [l n]. exists (ARange l n), w3. split; [done|]. split; [apply H3|]. split; [done|]. by apply same_abs.
Qed.

Lemma components_refines w o p : ns_ok w → sensible (abs w) (Components o p) → refines (Components o p) w.
Proof.
  intros Hok [(c & Ho)%is_str_inv (d & Hp)%is_str_inv]. unfold refines. cbn [defined run_string post].
  case_bool_decide as Hsep; cbn [negb].
  - unfold componentsSeparatedByString. rewrite (code_units_spec _ _ _ _ Ho), (code_units_spec _ _ _ _ Hp), Hsep. done.
  - destruct (components_spec fresh_id lower Hfresh w o p c d _ _ Hok Ho Hp Hsep) as (a & os & ws & w' & -> & Hc & Hl & Hk & Hnd & Hall).
    exists (AObject a), w'. split; [done|]. split; [apply Hk|]. exists a, os, ws, (Some 1).
    split; [done|]. split; [done|]. split; [done|]. split; [apply Hk|]. split; [done|]. split; [done|].
    split; [exact (cuts_join _ _ _ Hc)|exact (cuts_free _ _ _ _ Hsep Hc)].
Qed.

Lemma replacing_refines w o t r options loc len :
  ns_ok w → ns_small w → sensible (abs w) (Replacing o t r options loc len) → refines (Replacing o t r options loc len) w.
Proof.
  intros Hok [Hsm _] ((c & Ho)%is_str_inv & (d & Ht)%is_str_inv & (e & Hr)%is_str_inv & Hloc & Hlen & Hopt & Hsize).
  unfold refines. cbn [defined run_string post]. pose proof (Hsm _ _ _ Ho) as Hlu.
  set (u := units (abs w) o) in *. set (target := units (abs w) t) in *. set (rep := units (abs w) r) in *.
  destruct (Z.leb_spec (loc + len) (Z.of_nat (length u))) as [Hle|Hgt].
  - destruct (replacing_spec fresh_id lower Hfresh (option_eqb lower options) options (take (Z.to_nat len) (drop (Z.to_nat loc) u)) target rep)
      with (w := w) (o := o) (p := t) (r := r) (c := c) (d := d) (e := e) (u := u) (loc := loc) (len := len) as (v & Hv & Hx); [|done..|].
    + destruct Hopt as [->|(-> & Hnu & Hnt)]; [by left|right]. split; [done|]. intros a b Ha.
      apply (case_insensitive_spec u target); [exact (units_u16 _ _ _ _ Hok Ho)|exact (units_u16 _ _ _ _ Hok Ht)|done..|].
      rewrite <- (take_drop (Z.to_nat loc) u), elem_of_app. right.
      rewrite <- (take_drop (Z.to_nat len) (drop _ u)), elem_of_app. by left.
    + destruct Hx as (x & w' & -> & Hk & Hn & Hl).
      { apply replacement_length in Hv. rewrite !length_app, !length_take, !length_drop in *. nia. }
      exists (AObject x), w'. split; [done|]. split; [apply Hk|]. exists v. split; [done|]. exists x. split; [done|]. split; [done|]. split; [done|apply Hk].
  - unfold stringByReplacingOccurrences_range. destruct (substringToIndex_spec fresh_id Hfresh w o c u loc Hok Ho) as (l & w1 & -> & (H1 & _ & _) & _).
    cbn [mbind outcome_bind].
    pose proof (substringWithRange_spec fresh_id Hfresh w1 o c u loc len (proj1 H1) (kept_lookup _ _ _ _ H1 Ho)) as H.
    rewrite (proj2 (Z.leb_gt _ _)) in H by done. by rewrite H by (unfold U32_MOD; lia).
Qed.

(** Methods that only read, that return a new string, that change one. *)
Lemma unchanged_intro w w' r : same w w' → ns_ok w' ∧ unchanged (abs w) r r w'.
Proof. intros H. split; [apply H|]. split; [done|]. by apply same_abs. Qed.
Lemma new_string_intro w x c u w' : made w x c u w' → ns_ok w' ∧ new_string (abs w) (AObject x) c u w'.
Proof. intros ([Hok Hk] & Hn & Hx). split; [done|]. by exists x. Qed.
Lemma gives_refines m w u (P : StrAnswer → Ns → Prop) :
  gives m w u → (∀ r w', new_string (abs w) r TouchString u w' → P r w') →
  ∃ r w', with_answer AObject (m w) = Ret (r, w') ∧ ns_ok w' ∧ P r w'.
Proof.
  intros (x & w' & E & Hm & _) HP. exists (AObject x), w'. rewrite E. split; [done|].
  destruct (new_string_intro _ _ _ _ _ Hm) as [? ?]. split; [done|]. by apply HP.
Qed.
Lemma changes_refines w o v m :
  (match from_utf16 v with
   | Some _ => ∃ w', m = Ret w' ∧ ns_ok w' ∧ <[o := (TouchMutableString, v)]> (abs w) ⊆ abs w'
   | None => m = Panic end) →
  if well_formed v then ∃ r w', no_answer m = Ret (r, w') ∧ ns_ok w' ∧ changed (abs w) r o v w' else no_answer m = Panic.
Proof.
  unfold well_formed. destruct (from_utf16 v).
  - intros (w' & -> & Hok & Hk). rewrite bool_decide_true by by eexists. by exists AUnit, w'.
  - intros ->. by rewrite bool_decide_false by by intros [? ?].
Qed.

Lemma reading_refines w call :
  ns_ok w → ns_small w → sensible (abs w) call →
  match call with Length _ | CharacterAt _ _ | Compare _ _ | Equal _ _ => True | _ => False end → refines call w.
Proof.
  intros Hok [Hsm _] Hsens Hcall. unfold refines. destruct call as [o|o i| | | | | | | |o p|o p| | | | |]; try done; cbn [sensible defined run_string post] in *.
  - apply is_str_inv in Hsens as [c Ho]. pose proof (Hsm _ _ _ Ho). destruct (length_spec w o c _ Hok Ho) as (w' & -> & Hs); [unfold U32_MOD; lia|].
    do 2 eexists. split; [done|]. by apply unchanged_intro.
  - destruct Hsens as [[c Ho]%is_str_inv Hi]. destruct (Z.ltb_spec i (Z.of_nat (length (units (abs w) o)))) as [Hlt|Hge].
    + destruct (lookup_lt_is_Some_2 (units (abs w) o) (Z.to_nat i)) as [x Hx]; [lia|].
      destruct (character_spec w o c _ i x Hok Ho Hx) as (w' & -> & Hs). do 2 eexists. split; [done|].
      destruct (unchanged_intro _ _ (AInt x) Hs). split; [done|]. by exists x.
    + by rewrite (character_panics w o c _ i Hok Ho) by (apply lookup_ge_None_2; lia).
  - destruct Hsens as [[c Ho]%is_str_inv [d Hp]%is_str_inv]. unfold ns_compare, compare_options.
    rewrite (proj2 (Z.eqb_neq p 0)) by (by eapply not_nil). rewrite (code_units_spec _ _ _ _ Ho), (code_units_spec _ _ _ _ Hp).
    do 2 eexists. split; [done|]. apply unchanged_intro. by split.
  - destruct Hsens as [[c Ho]%is_str_inv [d Hp]%is_str_inv]. unfold isEqualToString.
    destruct (Z.eqb_spec o p) as [->|Hne]; cbn [orb].
    { exists (ABool true), w. split; [done|]. rewrite bool_decide_true by done. apply unchanged_intro. by split. }
    rewrite (proj2 (Z.eqb_neq p 0)) by (by eapply not_nil). rewrite (to_rust_string_spec _ _ _ _ Hok Ho), (to_rust_string_spec _ _ _ _ Hok Hp).
    unfold well_formed. destruct (from_utf16 (units (abs w) o)) as [s|] eqn:Es; [rewrite bool_decide_true by by eexists|by rewrite bool_decide_false by by intros [? ?]].
    destruct (from_utf16 (units (abs w) p)) as [t|] eqn:Et; [rewrite bool_decide_true by by eexists|by rewrite (bool_decide_false (is_Some None)) by by intros [? ?]].
    cbn [andb unwrap mbind outcome_bind only_answer]. do 2 eexists. split; [done|].
    rewrite (bool_decide_ext (s = t) (units (abs w) o = units (abs w) p)); [apply unchanged_intro; by split|].
    apply from_utf16_inv in Es as [Hs <-]; [|by eapply units_u16]. apply from_utf16_inv in Et as [Ht <-]; [|by eapply units_u16].
    split; [by intros ->|]. intros E. apply from_encode_utf16 in Hs, Ht. congruence.
Qed.

Lemma parts_refine w call :
  ns_ok w → ns_small w → sensible (abs w) call →
  match call with SubstringTo _ _ | SubstringFrom _ _ | Substring _ _ _ | Appending _ _ => True | _ => False end → refines call w.
Proof.
  intros Hok [Hsm _] Hsens Hcall. unfold refines. destruct call as [| | |o n|o n|o loc len|o p| | | | | | | | |]; try done; cbn [sensible defined run_string post] in *.
  - destruct Hsens as [[c Ho]%is_str_inv Hn]. by eapply gives_refines; [eapply (substringToIndex_spec fresh_id Hfresh)|].
  - destruct Hsens as [[c Ho]%is_str_inv Hn]. by eapply gives_refines; [eapply (substringFromIndex_spec fresh_id Hfresh)|].
  - destruct Hsens as ([c Ho]%is_str_inv & Hloc & Hlen). pose proof (Hsm _ _ _ Ho).
    pose proof (substringWithRange_spec fresh_id Hfresh w o c _ loc len Hok Ho Hloc Hlen) as H1.
    destruct (loc + len <=? _); [|by rewrite H1 by (unfold U32_MOD; lia)].
    eapply gives_refines; [apply H1; unfold U32_MOD; lia|done].
  - destruct Hsens as [[c Ho]%is_str_inv [d Hp]%is_str_inv]. pose proof (Hsm _ _ _ Ho). pose proof (Hsm _ _ _ Hp).
    destruct (append_spec fresh_id Hfresh w o p c d _ _ Hok Ho Hp) as (x & w' & -> & Hm & _); [unfold U32_MOD; lia|].
    do 2 eexists. split; [done|]. by apply new_string_intro.
Qed.

Lemma changing_refines w call :
  ns_ok w → ns_small w → sensible (abs w) call →
  match call with SetString _ _ | AppendString _ _ | Delete _ _ _ => True | _ => False end → refines call w.
Proof.
  intros Hok [Hsm _] Hsens Hcall. unfold refines. destruct call as [| | | | | | | | | | |o p|o p|o loc len| |]; try done; cbn [sensible defined run_string post] in *.
  - destruct Hsens as [Ho%is_mutable_inv [d Hp]%is_str_inv]. apply changes_refines.
    by apply (setString_kept w w o p (units (abs w) o) d).
  - destruct Hsens as [Ho%is_mutable_inv [d Hp]%is_str_inv]. pose proof (Hsm _ _ _ Ho). pose proof (Hsm _ _ _ Hp).
    apply changes_refines. eapply (appendString_spec fresh_id Hfresh); [done..|unfold U32_MOD; lia].
  - destruct Hsens as (Ho%is_mutable_inv & Hloc & Hlen). pose proof (Hsm _ _ _ Ho) as Hu.
    destruct (Z.leb_spec (loc + len) (Z.of_nat (length (units (abs w) o)))) as [Hle|Hgt]; cbn [andb].
    + apply changes_refines. by apply (delete_spec fresh_id Hfresh).
    + by rewrite (delete_panics fresh_id Hfresh w o _ _ loc len Hok Ho).
Qed.

Lemma copying_refines w call :
  ns_ok w → ns_small w → sensible (abs w) call →
  match call with Copy _ | MutableCopy _ => True | _ => False end → refines call w.
Proof.
  intros Hok [Hsm Hrc] Hsens Hcall. unfold refines. destruct call as [| | | | | | | | | | | | | |o|o]; try done; cbn [sensible defined run_string post] in *.
  - apply is_str_inv in Hsens as [c Ho]. destruct (copy_spec fresh_id Hfresh w o c _ Hok Ho (Hrc o)) as (r & w' & -> & Hk & Hr).
    do 2 eexists. split; [done|]. split; [apply Hk|].
    assert (is_mutable_str (abs w) o ↔ c = TouchMutableString) as Hm by (unfold is_mutable_str; rewrite Ho; simpl; split; congruence).
    destruct (decide (c = TouchMutableString)) as [Hc|Hc].
    + rewrite decide_True by by apply Hm. exists r. split; [done|]. split; [apply Hr|]. split; [apply Hr|apply Hk].
    + rewrite decide_False by by rewrite Hm. subst r. split; [done|apply Hk].
  - apply is_str_inv in Hsens as [c Ho]. pose proof (mutableCopy_spec fresh_id Hfresh w o c _ Hok Ho) as H. unfold well_formed.
    destruct (from_utf16 _); [rewrite bool_decide_true by by eexists|by rewrite bool_decide_false, H by by intros [? ?]].
    destruct H as (r & w' & -> & Hk & Hn & Hr). do 2 eexists. split; [done|]. by apply new_string_intro.
Qed.
End refinement.


(** ** A run *)

(** Addresses above all that are used. *)
Definition next_id (w : Ns) : Z := 1 + foldr Z.max 0 (map_to_list (ns_objs w)).*1.
Lemma next_id_fresh w : next_id w ≠ 0 ∧ ns_objs w !! next_id w = None.
Proof.
  assert (∀ l x, x ∈ l → x ≤ foldr Z.max 0 l ∧ 0 ≤ foldr Z.max 0 l) as Hmax.
  { intros l x. induction l as [|y l IH]; [by intros ?%not_elem_of_nil|]. intros [->|Hx]%elem_of_cons; simpl.
    - clear IH. assert (0 ≤ foldr Z.max 0 l) by (induction l; simpl; lia). lia.
    - apply IH in Hx. lia. }
  assert (0 ≤ foldr Z.max 0 (map_to_list (ns_objs w)).*1) by (generalize ((map_to_list (ns_objs w)).*1); intros l; induction l; simpl; lia).
  unfold next_id. split; [lia|]. destruct (ns_objs w !! _) as [x|] eqn:E; [|done].
  apply elem_of_map_to_list in E. apply (list_elem_of_fmap_2 fst) in E. apply Hmax in E. simpl in E. lia.
Qed.

(** A mutable string and a separator. *)
Definition demo_strings : Ns :=
  mkNs {[1 := (Some 1, StrObj TouchMutableString (Utf8 (bytes_of "a,b,,c"))); 2 := (Some 1, StrObj TouchString (Utf8 (bytes_of ",")))]}
    [] ∅ (mkFs (Directory ∅ None) [] []) empty_mem.
Lemma demo_strings_ok : ns_ok demo_strings ∧ ns_small demo_strings.
Proof.
  assert (∀ o x, ns_objs demo_strings !! o = Some x →
    o = 1 ∧ x = (Some 1, StrObj TouchMutableString (Utf8 (bytes_of "a,b,,c"))) ∨ o = 2 ∧ x = (Some 1, StrObj TouchString (Utf8 (bytes_of ",")))) as H.
  { intros o x. cbn [demo_strings ns_objs]. intros [[<- <-]|[_ [<- <-]%lookup_singleton_Some]]%lookup_insert_Some; [by left|by right]. }
  split; split.
  - intros o n c h [[-> [= -> -> ->]]|[-> [= -> -> ->]]]%H; (split; [done|]); repeat constructor.
  - done.
  - intros o c u (n & h & [[-> [= -> -> ->]]|[-> [= -> -> ->]]]%H & <-)%abs_lookup; vm_compute; reflexivity.
  - intros o n h [[-> [= -> ->]]|[-> [= -> ->]]]%H; lia.
Qed.

Definition no_lower (c : Z) : list Z := [c].


(** The strings an array holds. *)
Definition array_strings (a : Z) (w : Ns) : option (list (list Z)) :=
  match ns_objs w !! a with Some (_, ArrObj os) => mapM (λ o, snd <$> abs w !! o) os | _ => None end.
(** Cutting at commas; deleting from the mutable string; what is found and what is not. *)
Example cutting_at_commas :
  ∃ a w', run_string next_id no_lower (Components 1 2) demo_strings = Ret (AObject a, w') ∧
    array_strings a w' = Some [bytes_of "a"; bytes_of "b"; []; bytes_of "c"] ∧
    fst <$> (run_string next_id no_lower (RangeOf 1 2 NSBackwardsSearch) w') = Ret (ARange 4 1) ∧
    (λ x, abs x.2 !! 1) <$> run_string next_id no_lower (Delete 1 1 3) w' = Ret (Some (TouchMutableString, bytes_of "a,c")) ∧
    run_string next_id no_lower (Delete 1 4 3) w' = Panic.
Proof. do 2 eexists. split; [vm_compute; reflexivity|]. vm_compute. done. Qed.

(** [appendString:] makes a string that it neither releases nor puts into the autorelease pool: it stays for ever. *)
Example append_leaks :
  ∃ w' o, run_string next_id no_lower (AppendString 1 2) demo_strings = Ret (AUnit, w') ∧
    ns_objs w' !! o = Some (Some 1, StrObj TouchString (Utf16 (bytes_of "a,b,,c,"))) ∧ ns_pool w' = [] ∧ ns_objs demo_strings !! o = None.
Proof. eexists _, 3. split; [vm_compute; reflexivity|]. vm_compute. done. Qed.

(** Half of a character beyond the basic plane: the case-insensitive search panics, and so does cutting the character in two. *)
Definition emoji_strings : Ns := set_ns_objs (<[1 := (Some 1, StrObj TouchMutableString (Utf8 [0x1F600]))]> (ns_objs demo_strings)) demo_strings.
Example surrogates_panic :
  run_string next_id no_lower (RangeOf 1 2 NSCaseInsensitiveSearch) emoji_strings = Panic ∧
  fst <$> run_string next_id no_lower (RangeOf 1 2 0) emoji_strings = Ret (ARange ns_not_found 0) ∧
  run_string next_id no_lower (Delete 1 0 1) emoji_strings = Panic.
Proof. vm_compute. done. Qed.

(** The value of a string stops at the first character that is neither a digit nor a sign: a sign after
    the digits makes it zero; comparing numbers of ten digits overflows. *)
Example int_value_of_strings :
  int_value (bytes_of "  42abc") = 42 ∧ int_value (bytes_of "-7") = -7 ∧ int_value (bytes_of "12-3") = 0 ∧ int_value (bytes_of "4294967296") = 0 ∧
  numeric_compare 3 (bytes_of "a10") (bytes_of "a9") = Ret Gt ∧ numeric_compare 10 (bytes_of "9999999999") (bytes_of "1") = Panic.
Proof. vm_compute. done. Qed.
