(* ===== verification/NSStringLines.v ===== *)
(** * Strings: the lines of a range

    Where lines end, stated without loops: after a line feed or a separator, and after a carriage return that no line
    feed follows.  [line_range_helper] finds the last such place before a range and the first one after it, and the delimiter
    there. *)

From S2P Require Import Prelude SizeBucketed VMAllocator HeapAllocator GuestMem Semaphore Fs FsRuns Text PathAlgorithms NSString.

Definition unit_at (u : list Z) (i : Z) : option Z := if 0 <=? i then u !! Z.to_nat i else None.
(** A line ends at [i]. *)
Definition line_break (u : list Z) (i : Z) : bool :=
  match unit_at u (i - 1) with
  | Some c => (c =? LF) || line_separator c || (c =? CR) && negb (bool_decide (unit_at u i = Some LF))
  | None => false
  end.
(** The length of the delimiter before [i], where a line ends. *)
Definition delimiter_length (u : list Z) (i : Z) : Z :=
  if bool_decide (unit_at u (i - 1) = Some LF) && bool_decide (unit_at u (i - 2) = Some CR) then 2 else 1.

Lemma unit_at_lookup u i : 0 ≤ i → u !! Z.to_nat i = unit_at u i.
Proof. intros H. unfold unit_at. by rewrite (proj2 (Z.leb_le _ _)). Qed.
Lemma unit_at_Some u i : 0 ≤ i < Z.of_nat (length u) → ∃ c, unit_at u i = Some c.
Proof. intros H. unfold unit_at. rewrite (proj2 (Z.leb_le _ _)) by lia. apply lookup_lt_is_Some_2. lia. Qed.
Lemma unit_at_end u i : Z.of_nat (length u) ≤ i → unit_at u i = None.
Proof. intros H. unfold unit_at. destruct (0 <=? i); [|done]. apply lookup_ge_None_2. lia. Qed.
Lemma separators c : line_separator c = true → c ≠ LF ∧ c ≠ CR.
Proof. unfold line_separator. rewrite bool_decide_eq_true. intros H. split; intros ->; vm_compute in H; set_solver. Qed.

Section lines.
Context (u : list Z).
Notation len_u := (Z.of_nat (length u)).

(** The last place at or before [loc] where a line starts. *)
Definition is_line_start (loc s : Z) : Prop :=
  0 ≤ s ≤ loc ∧ (s = 0 ∨ line_break u s = true) ∧ ∀ i, s < i ≤ loc → line_break u i = false.
Lemma line_start_spec loc :
  0 ≤ loc ≤ len_u → len_u < 4294967296 →
  ∃ s, loop_end (run_loop 33 (line_start_body u loc) loc) = Ret s ∧ is_line_start loc s.
Proof.
  intros Hloc Hu.
  apply (loop_end_spec (λ s, 0 ≤ s ≤ loc ∧ ∀ i, s < i ≤ loc → line_break u i = false)
           (λ o, ∃ s, o = Ret s ∧ is_line_start loc s) (λ s, s)); [|split; [lia|intros; lia]|simpl; lia].
  intros s [Hs Hno]. unfold line_start_body. destruct (Z.ltb_spec 0 s) as [Hpos|]; [|exists s; split; [done|]; split; [lia|]; split; [left; lia|done]].
  destruct (unit_at_Some u (s - 1)) as [c Hc]; [lia|]. rewrite (unit_at_lookup u (s - 1)), Hc by lia. cbn [unwrap mbind outcome_bind].
  assert (line_break u s = (c =? LF) || line_separator c || (c =? CR) && negb (bool_decide (unit_at u s = Some LF))) as Hb
    by (unfold line_break; by rewrite Hc).
  assert (line_break u s = true → ∃ x, Ret s = Ret x ∧ is_line_start loc x) as Hstop by (intros ?; exists s; split; [done|]; split; [lia|]; split; [by right|done]).
  assert (line_break u s = false → (0 ≤ s - 1 ≤ loc ∧ ∀ i, s - 1 < i ≤ loc → line_break u i = false) ∧ 0 ≤ s - 1 < s) as Hgo.
  { intros Hb0. split; [|lia]. split; [lia|]. intros i Hi. destruct (decide (i = s)) as [->|]; [done|]. apply Hno. lia. }
  destruct ((c =? LF) || line_separator c) eqn:E1; [by apply Hstop|]. cbn [orb] in Hb.
  destruct (c =? CR) eqn:E2; [|by apply Hgo]. cbn [andb] in Hb.
  destruct (Z.eqb_spec s loc) as [->|Hne]; cbn [andb].
  - destruct (Z.ltb_spec loc len_u).
    + destruct (unit_at_Some u loc) as [d Hd]; [lia|]. rewrite (unit_at_lookup u loc), Hd by lia. cbn [unwrap mbind outcome_bind].
      rewrite Hd in Hb. destruct (Z.eqb_spec d LF) as [->|]; [by apply Hgo|]. apply Hstop. rewrite Hb. by rewrite bool_decide_false by congruence.
    + apply Hstop. rewrite Hb, unit_at_end by lia. by rewrite bool_decide_false.
  - apply Hstop. rewrite Hb. assert (line_break u (s + 1) = false) as Hn by (apply Hno; lia). unfold line_break in Hn.
    replace (s + 1 - 1) with s in Hn by lia. destruct (decide (unit_at u s = Some LF)) as [Hl|]; [|by rewrite bool_decide_false]. rewrite Hl in Hn. done.
Qed.

(** At a line feed: whether a carriage return is before it. *)
Lemma line_feed_step p :
  0 ≤ p < len_u →
  ∃ b : bool, (if 0 <? p then before ← unwrap (u !! Z.to_nat (p - 1)); Ret (inr (if before =? CR then (p + 1, p - 1) else (p + 1, p)))
               else Ret (inr (p + 1, p))) = Ret (@inr Z _ (p + 1, if b then p - 1 else p)) ∧
    bool_decide (unit_at u (p - 1) = Some CR) = b.
Proof.
  intros Hp. destruct (Z.ltb_spec 0 p).
  - destruct (unit_at_Some u (p - 1)) as [d Hd]; [lia|]. rewrite (unit_at_lookup u (p - 1)), Hd by lia. exists (d =? CR).
    cbn [unwrap mbind outcome_bind]. split; [by destruct (d =? CR)|].
    destruct (Z.eqb_spec d CR) as [->|]; [by rewrite bool_decide_true|rewrite bool_decide_false; congruence].
  - exists false. split; [done|]. unfold unit_at. by rewrite (proj2 (Z.leb_gt _ _)) by lia.
Qed.

(** The first place after [q] where a line ends, or the end, and where the delimiter before it starts. *)
Definition is_line_end (q e ce : Z) : Prop :=
  q ≤ e ≤ len_u ∧ (∀ i, q < i < e → line_break u i = false) ∧
  (if decide (q < e ∧ line_break u e = true) then ce = e - delimiter_length u e else e = len_u ∧ ce = e).
Lemma line_end_spec q :
  0 ≤ q ≤ len_u → len_u < 4294967296 →
  ∃ e ce, loop_end (run_loop 33 (line_end_body u) q) = Ret (e, ce) ∧ is_line_end q e ce.
Proof.
  intros Hq Hu.
  apply (loop_end_spec (λ p, q ≤ p ≤ len_u ∧ ∀ i, q < i ≤ p → line_break u i = false)
           (λ o, ∃ e ce, o = Ret (e, ce) ∧ is_line_end q e ce) (λ p, len_u - p)); [|split; [lia|intros; lia]|simpl; lia].
  intros p [Hp Hno]. unfold line_end_body. destruct (Z.ltb_spec p len_u) as [Hlt|Hge].
  2:{ exists p, p. split; [done|]. split; [lia|]. split; [intros; apply Hno; lia|].
      rewrite decide_False; [lia|]. intros [? Hb]. rewrite Hno in Hb by lia. done. }
  destruct (unit_at_Some u p) as [c Hc]; [lia|]. rewrite (unit_at_lookup u p), Hc by lia. cbn [unwrap mbind outcome_bind].
  assert (line_break u (p + 1) = (c =? LF) || line_separator c || (c =? CR) && negb (bool_decide (unit_at u (p + 1) = Some LF))) as Hb
    by (unfold line_break; replace (p + 1 - 1) with p by lia; by rewrite Hc).
  assert (∀ n, line_break u (p + 1) = true → n = delimiter_length u (p + 1) → is_line_end q (p + 1) (p + 1 - n)) as Hstop.
  { intros n Hb1 ->. split; [lia|]. split; [intros; apply Hno; lia|]. rewrite decide_True; [done|]. split; [lia|done]. }
  assert (delimiter_length u (p + 1) = if bool_decide (c = LF) && bool_decide (unit_at u (p - 1) = Some CR) then 2 else 1) as Hd.
  { unfold delimiter_length. replace (p + 1 - 1) with p by lia. replace (p + 1 - 2) with (p - 1) by lia. rewrite Hc.
    by rewrite (bool_decide_ext (Some c = Some LF) (c = LF)) by (split; congruence). }
  destruct (line_separator c) eqn:Es.
  { apply separators in Es as [HL HC]. exists (p + 1), p. split; [done|]. replace p with (p + 1 - 1) at 2 by lia. apply Hstop; [rewrite Hb; by rewrite orb_true_r|].
    rewrite Hd. by rewrite bool_decide_false. }
  destruct (Z.eqb_spec c LF) as [->|HL].
  { destruct (line_feed_step p) as (b & -> & Hbefore); [lia|].
    exists (p + 1), (if b then p - 1 else p). split; [done|].
    replace (if b then p - 1 else p) with (p + 1 - (if b then 2 else 1)) by (destruct b; lia). apply Hstop; [by rewrite Hb|].
    rewrite Hd, Hbefore. by rewrite bool_decide_true. }
  cbn [orb] in Hb. destruct (Z.eqb_spec c CR) as [->|HC]; cbn [andb] in Hb.
  2:{ split; [|lia]. split; [lia|]. intros i Hi. destruct (decide (i = p + 1)) as [->|]; [done|]. apply Hno. lia. }
  rewrite bool_decide_false in Hd by done. cbn [andb] in Hd.
  assert (unit_at u (p + 1) ≠ Some LF → ∃ e ce, Ret (p + 1, p) = Ret (e, ce) ∧ is_line_end q e ce) as Halone.
  { intros Hn. exists (p + 1), p. split; [done|]. replace p with (p + 1 - 1) at 2 by lia. apply Hstop; [|done]. rewrite Hb. by rewrite bool_decide_false. }
  destruct (Z.ltb_spec p (len_u - 1)).
  - destruct (unit_at_Some u (p + 1)) as [d Hd']; [lia|]. rewrite (unit_at_lookup u (p + 1)), Hd' by lia. cbn [unwrap mbind outcome_bind].
    destruct (Z.eqb_spec d LF) as [->|]; [|apply Halone; congruence].
    exists (p + 2), p. split; [done|]. split; [lia|]. rewrite Hd', bool_decide_true in Hb by done. split.
    + intros i Hi. destruct (decide (i = p + 1)) as [->|]; [done|]. apply Hno. lia.
    + assert (unit_at u (p + 2 - 1) = Some LF) as Hl by (by replace (p + 2 - 1) with (p + 1) by lia).
      rewrite decide_True by (split; [lia|]; unfold line_break; by rewrite Hl).
      unfold delimiter_length. replace (p + 2 - 2) with p by lia. rewrite Hl, Hc. rewrite !bool_decide_true by done. cbn [andb]. lia.
  - apply Halone. rewrite unit_at_end by lia. done.
Qed.
End lines.

(** C37: The lines of a range. A range that ends beyond the string panics. Otherwise the start is the last place at or before
    the range's start where a line starts, that is the start of the string or a place after a delimiter; the end is the first
    place after the range's last character (its start, if it is empty) where a line ends, or the end of the string; the end of the
    contents is that less the delimiter there, of one unit or of two for a carriage return with its line feed,
    which is never taken apart. All of the loops end. *)
Theorem line_range_correct u loc len :
  0 ≤ loc → 0 ≤ len → Z.of_nat (length u) < 4294967296 →
  if loc + len <=? Z.of_nat (length u)
  then ∃ s e ce, line_range_helper u loc len true true = Ret (s, e, ce) ∧ is_line_start u loc s ∧
         is_line_end u (if 0 <? len then loc + len - 1 else loc) e ce ∧ s ≤ e
  else line_range_helper u loc len true true = Panic.
Proof.
  intros Hloc Hlen Hu. unfold line_range_helper. destruct (Z.leb_spec (loc + len) (Z.of_nat (length u))) as [Hle|Hgt].
  - destruct (line_start_spec u loc) as (s & E1 & Hs); [lia..|].
    destruct (line_end_spec u (if 0 <? len then loc + len - 1 else loc)) as (e & ce & E2 & He); [destruct (Z.ltb_spec 0 len); lia|lia|].
    rewrite u32_ok by (unfold U32_MOD; lia). rewrite ret_bind, assert_bind by by apply Z.leb_le.
    rewrite E1, ret_bind, E2, ret_bind.
    exists s, e, ce. split; [done|]. split; [done|]. split; [done|]. destruct Hs as [Hs _], He as [He _]. destruct (Z.ltb_spec 0 len); lia.
  - destruct (u32 (loc + len)) eqn:E; [|done]. apply u32_inv in E as [-> _]. cbn [mbind outcome_bind]. by rewrite (proj2 (Z.leb_gt _ _)).
Qed.

(** "ab" and a carriage return with a line feed: a range of the line feed alone covers the whole line. *)
Lemma line_range_correct_witness :
  ∃ s e ce, line_range_helper [97; 98; CR; LF; 99] 3 1 true true = Ret (s, e, ce) ∧ is_line_start [97; 98; CR; LF; 99] 3 s ∧
    is_line_end [97; 98; CR; LF; 99] 3 e ce ∧ s ≤ e.
Proof. apply (line_range_correct [97; 98; CR; LF; 99] 3 1); [lia..|vm_compute; reflexivity]. Defined.

(** The cases of the tests. *)
Example lines_of_the_tests :
  line_range_helper (bytes_of "abcd" ++ [LF] ++ bytes_of "ab") 5 1 true true = Ret (5, 7, 7) ∧
  line_range_helper (bytes_of "abcd" ++ [LF] ++ bytes_of "ab") 4 1 true true = Ret (0, 5, 4) ∧
  line_range_helper (bytes_of "abc" ++ [CR]) 4 0 true true = Ret (4, 4, 4) ∧
  line_range_helper (bytes_of "abc" ++ [CR; LF] ++ bytes_of "ab") 4 1 true true = Ret (0, 5, 3) ∧
  line_range_helper (bytes_of "abc" ++ [CR; LF] ++ bytes_of "ab") 4 2 true true = Ret (0, 7, 7) ∧
  line_range_helper [CR; LF] 1 0 true true = Ret (0, 2, 0) ∧
  line_range_helper (bytes_of "abcd" ++ [LF] ++ bytes_of "a" ++ [LF]) 6 1 true true = Ret (5, 7, 6).
Proof. vm_compute. done. Qed.
