(* ===== verification/PosixIo.v ===== *)
(** * File descriptors ([libc/posix_io.rs], [GuestFile] of [fs.rs])

    The descriptor table and the calls on it, over the guest file system ([Fs])
    and the host it is backed by.  An open host file is known by its path, as in
    [Fs]: what the model says of it holds as long as the file has not been
    removed or renamed on the host since it was opened.  The host never runs out
    of space, and reads as much of a regular file as there is.  The contents of
    archive members and bundled resources are a parameter; they have a cursor of
    their own, which is kept with the descriptor. *)

From S2P Require Import Prelude ChunkMap SizeBucketed VMAllocator HeapAllocator GuestMem Env Scheduler Pthread Semaphore Fs.

Definition ENOENT : Z := 2.
Definition EINTR : Z := 4.
Definition EIO : Z := 5.
Definition EBADF : Z := 9.
Definition EACCES : Z := 13.
Definition EFAULT : Z := 14.
Definition EEXIST : Z := 17.
Definition ENOTDIR : Z := 20.
Definition EISDIR : Z := 21.
Definition ESPIPE : Z := 29.
Definition EOVERFLOW : Z := 84.

Definition STDIN_FILENO : Z := 0.
Definition STDOUT_FILENO : Z := 1.
Definition NORMAL_FILENO_BASE : Z := STDERR_FILENO + 1.

Definition O_RDONLY : Z := 0.
Definition O_WRONLY : Z := 1.
Definition O_RDWR : Z := 2.
Definition O_ACCMODE : Z := 3.
Definition O_NONBLOCK : Z := 4.
Definition O_APPEND : Z := 8.
Definition O_SHLOCK : Z := 16.
Definition O_NOFOLLOW : Z := 256.
Definition O_TRUNC : Z := 1024.

Definition SEEK_SET : Z := 0.
Definition SEEK_CUR : Z := 1.
Definition SEEK_END : Z := 2.

Definition F_GETFD : Z := 1.
Definition F_SETFD : Z := 2.
Definition F_GETLK : Z := 7.
Definition F_SETLK : Z := 8.
Definition F_RDADVISE : Z := 44.
Definition F_NOCACHE : Z := 48.
Definition FD_CLOEXEC : Z := 1.
Definition F_RDLCK : Z := 1.
Definition F_UNLCK : Z := 2.
Definition F_WRLCK : Z := 3.
Definition LOCK_SH : Z := 1.

(** [off_t::MAX], also the largest offset of a host file. *)
Definition OFF_MAX : Z := 9223372036854775807.

(** ** Open files of the host ([std::fs::File]) *)

Inductive ErrorKind := IsADirectory | InvalidInput | PermissionDenied | Unsupported | Interrupted | OtherError.

Definition file_content (f : HostFile) (h : Host) : option (list Z) :=
  match h !! hf_path f with Some (HFile c) => Some c | _ => None end.
Definition set_pos (p : Z) (f : HostFile) : HostFile := mkHostFile (hf_path f) (hf_options f) p.

(** The bytes a read of [n] at [pos] gives. *)
Definition read_at (c : list Z) (pos n : Z) : list Z := take (Z.to_nat n) (drop (Z.to_nat pos) c).
(** A write at [pos]: a gap behind the end is filled with zeros. *)
Definition write_at (c : list Z) (pos : Z) (l : list Z) : list Z :=
  let p := Z.to_nat pos in
  take p c ++ replicate (p - length c) 0 ++ l ++ drop (p + length l) c.
(** [set_len]. *)
Definition resize (c : list Z) (n : Z) : list Z :=
  take (Z.to_nat n) c ++ replicate (Z.to_nat n - length c) 0.

Definition File_read (n : Z) (f : HostFile) (h : Host) : result (list Z * HostFile) ErrorKind :=
  match file_content f h with
  | Some c =>
      if o_read (hf_options f) then
        let l := read_at c (hf_pos f) n in Ok (l, set_pos (hf_pos f + Z.of_nat (length l)) f)
      else Err OtherError
  | None => Err OtherError
  end.

(** Writing needs write or append access; with the latter every write goes to the end. *)
Definition File_write (l : list Z) (f : HostFile) (h : Host) : result (HostFile * Host) ErrorKind :=
  match file_content f h with
  | Some c =>
      if o_write (hf_options f) || o_append (hf_options f) then
        match l with
        | [] => Ok (f, h)
        | _ =>
            let pos := if o_append (hf_options f) then Z.of_nat (length c) else hf_pos f in
            if pos + Z.of_nat (length l) <=? OFF_MAX then
              Ok (set_pos (pos + Z.of_nat (length l)) f, <[hf_path f := HFile (write_at c pos l)]> h)
            else Err OtherError
        end
      else Err OtherError
  | None => Err OtherError
  end.

Definition File_set_len (n : Z) (f : HostFile) (h : Host) : result Host ErrorKind :=
  match file_content f h with
  | Some c =>
      if negb (o_write (hf_options f) || o_append (hf_options f)) then Err InvalidInput
      else if n <=? OFF_MAX then Ok (<[hf_path f := HFile (resize c n)]> h) else Err InvalidInput
  | None => Err OtherError
  end.

Inductive SeekFrom := SStart (p : Z) | SEnd (d : Z) | SCurrent (d : Z).
(** The target of a seek in a stream of [len] bytes at [pos]. *)
Definition seek_target (s : SeekFrom) (pos len : Z) : Z :=
  match s with SStart p => p | SEnd d => len + d | SCurrent d => pos + d end.
(** A host file seeks up to [OFF_MAX], a cursor over bytes in memory up to [u64::MAX]. *)
Definition seek_to (max t : Z) : result Z ErrorKind :=
  if (0 <=? t) && (t <=? max) then Ok t else Err InvalidInput.
Definition File_seek (s : SeekFrom) (f : HostFile) (h : Host) : result HostFile ErrorKind :=
  match file_content f h with
  | Some c =>
      match seek_to OFF_MAX (seek_target s (hf_pos f) (Z.of_nat (length c))) with
      | Ok p => Ok (set_pos p f)
      | Err e => Err e
      end
  | None => Err OtherError
  end.

(** ** [GuestFile] *)

Record PosixFileHostObject := mkPosixFile {
  pf_file : GuestFile;
  (** The cursor of an archive member or a resource. *)
  pf_cursor : Z;
  needs_flush : bool;
  reached_eof : bool;
  pf_flags : Z
}.
Definition set_file (g : GuestFile) (o : PosixFileHostObject) : PosixFileHostObject :=
  mkPosixFile g (pf_cursor o) (needs_flush o) (reached_eof o) (pf_flags o).
Definition set_cursor (c : Z) (o : PosixFileHostObject) : PosixFileHostObject :=
  mkPosixFile (pf_file o) c (needs_flush o) (reached_eof o) (pf_flags o).
Definition set_eof (b : bool) (o : PosixFileHostObject) : PosixFileHostObject :=
  mkPosixFile (pf_file o) (pf_cursor o) (needs_flush o) b (pf_flags o).
Definition set_fd_flags (n : Z) (o : PosixFileHostObject) : PosixFileHostObject :=
  mkPosixFile (pf_file o) (pf_cursor o) (needs_flush o) (reached_eof o) n.

Record IoState := mkIo {
  io_env : Environment;
  io_fs : Fs;
  io_host : Host;
  io_files : list (option PosixFileHostObject);
  (** The descriptors in the table of [libc/sys/socket.rs]. *)
  io_sockets : gset Z;
  (** What the app has written to the host's standard output and standard error. *)
  io_stdout : list Z;
  io_stderr : list Z
}.
Definition set_io_env (e : Environment) (s : IoState) : IoState := mkIo e (io_fs s) (io_host s) (io_files s) (io_sockets s) (io_stdout s) (io_stderr s).
Definition set_io_fs (x : Fs) (s : IoState) : IoState := mkIo (io_env s) x (io_host s) (io_files s) (io_sockets s) (io_stdout s) (io_stderr s).
Definition set_io_host (h : Host) (s : IoState) : IoState := mkIo (io_env s) (io_fs s) h (io_files s) (io_sockets s) (io_stdout s) (io_stderr s).
Definition set_io_files (l : list (option PosixFileHostObject)) (s : IoState) : IoState :=
  mkIo (io_env s) (io_fs s) (io_host s) l (io_sockets s) (io_stdout s) (io_stderr s).
Definition io_mem (s : IoState) : Mem := mem (io_env s).
Definition set_io_mem (m : Mem) (s : IoState) : IoState := set_io_env (set_mem m (io_env s)) s.
Definition io_errno (val : Z) (s : IoState) : outcome IoState := e ← set_errno val (io_env s); Ret (set_io_env e s).

Section posix_io.
(** The content of an archive member or a bundled resource. *)
Variable ro_content : GuestFile → list Z.

Definition GuestFile_sync_all (o : PosixFileHostObject) : result () ErrorKind :=
  match pf_file o with
  | GFile _ | IpaBundleFile _ | ResourceFile _ | GDirectory => Ok ()
  | Socket => Err Unsupported
  end.

Definition GuestFile_set_len (n : Z) (o : PosixFileHostObject) (h : Host) : outcome (result Host ErrorKind) :=
  match pf_file o with GFile f => Ret (File_set_len n f h) | _ => Panic end.

Definition GuestFile_is_seekable (o : PosixFileHostObject) : bool :=
  match pf_file o with Socket => false | _ => true end.

Definition GuestFile_read (n : Z) (o : PosixFileHostObject) (h : Host)
    : outcome (result (list Z * PosixFileHostObject) ErrorKind) :=
  match pf_file o with
  | GFile f => Ret (match File_read n f h with Ok (l, f) => Ok (l, set_file (GFile f) o) | Err e => Err e end)
  | IpaBundleFile _ | ResourceFile _ =>
      let l := read_at (ro_content (pf_file o)) (pf_cursor o) n in
      Ret (Ok (l, set_cursor (pf_cursor o + Z.of_nat (length l)) o))
  | GDirectory => Ret (Err IsADirectory)
  | Socket => Panic
  end.

Definition GuestFile_write (l : list Z) (o : PosixFileHostObject) (h : Host)
    : outcome (result (PosixFileHostObject * Host) ErrorKind) :=
  match pf_file o with
  | GFile f => Ret (match File_write l f h with Ok (f, h) => Ok (set_file (GFile f) o, h) | Err e => Err e end)
  | _ => Panic
  end.

Definition GuestFile_flush (o : PosixFileHostObject) : outcome (result () ErrorKind) :=
  match pf_file o with
  | GFile _ => Ret (Ok ())
  | IpaBundleFile _ => Ret (Err OtherError)
  | _ => Panic
  end.

Definition ro_max : Z := U64_MOD - 1.
Definition GuestFile_seek (s : SeekFrom) (o : PosixFileHostObject) (h : Host)
    : outcome (result (Z * PosixFileHostObject) ErrorKind) :=
  match pf_file o with
  | GFile f => Ret (match File_seek s f h with Ok f => Ok (hf_pos f, set_file (GFile f) o) | Err e => Err e end)
  | IpaBundleFile _ | ResourceFile _ =>
      Ret (match seek_to (match pf_file o with ResourceFile _ => OFF_MAX | _ => ro_max end)
                   (seek_target s (pf_cursor o) (Z.of_nat (length (ro_content (pf_file o))))) with
           | Ok p => Ok (p, set_cursor p o)
           | Err e => Err e
           end)
  | GDirectory => Ret (Err IsADirectory)
  | Socket => Panic
  end.

(** [Seek::stream_position] is [seek(Current(0))]. *)
Definition stream_position (o : PosixFileHostObject) (h : Host) := GuestFile_seek (SCurrent 0) o h.
Definition stream_len (o : PosixFileHostObject) (h : Host) : outcome (result (Z * PosixFileHostObject) ErrorKind) :=
  r ← stream_position o h;
  match r with
  | Err e => Ret (Err e)
  | Ok (old_position, o) =>
      r ← GuestFile_seek (SEnd 0) o h;
      match r with
      | Err e => Ret (Err e)
      | Ok (len, o) =>
          r ← GuestFile_seek (SStart old_position) o h;
          Ret (match r with Err e => Err e | Ok (_, o) => Ok (len, o) end)
      end
  end.

(** ** The descriptor table *)

Definition file_idx_to_fd (idx : nat) : outcome Z := i ← i32 (Z.of_nat idx); i32 (i + NORMAL_FILENO_BASE).
(** [as usize]: a descriptor below 3 gives an index no table has. *)
Definition fd_to_file_idx (fd : Z) : outcome Z := i ← i32 (fd - NORMAL_FILENO_BASE); Ret (if i <? 0 then i + U64_MOD else i).

(** [files.get(fd_to_file_idx(fd))]. *)
Definition file_slot (fd : Z) (s : IoState) : outcome (option (option PosixFileHostObject)) :=
  i ← fd_to_file_idx fd;
  Ret (if i <? Z.of_nat (length (io_files s)) then io_files s !! Z.to_nat i else None).
Definition file_for_fd (fd : Z) (s : IoState) : outcome (option PosixFileHostObject) :=
  f ← file_slot fd s; Ret (match f with Some (Some o) => Some o | _ => None end).
Definition is_fd_open (fd : Z) (s : IoState) : outcome bool :=
  f ← file_slot fd s; Ret (match f with Some _ => true | None => false end).
(** A write through the reference [file_for_fd] returned. *)
Definition put_fd (fd : Z) (o : option PosixFileHostObject) (s : IoState) : IoState :=
  set_io_files (<[Z.to_nat (fd - NORMAL_FILENO_BASE) := o]> (io_files s)) s.

Definition find_or_create_fd (o : PosixFileHostObject) (s : IoState) : outcome (Z * IoState) :=
  match list_find (λ f, f = None) (io_files s) with
  | Some (free_idx, _) => fd ← file_idx_to_fd free_idx; Ret (fd, set_io_files (<[free_idx := Some o]> (io_files s)) s)
  | None => fd ← file_idx_to_fd (length (io_files s)); Ret (fd, set_io_files (io_files s ++ [Some o]) s)
  end.
Definition find_or_create_socket (s : IoState) : outcome (Z * IoState) :=
  find_or_create_fd (mkPosixFile Socket 0 false false 0) s.
Definition is_socket (fd : Z) (s : IoState) : outcome bool :=
  f ← file_slot fd s;
  f ← unwrap f;
  o ← unwrap f;
  Ret (match pf_file o with Socket => true | _ => false end).

(** ** The calls *)

(** [flock] takes no lock. *)
Definition flock (fd operation : Z) (s : IoState) : outcome (Z * IoState) := s ← io_errno 0 s; Ret (0, s).

Definition OPEN_FLAGS : Z :=
  Z.lor O_ACCMODE (Z.lor O_NONBLOCK (Z.lor O_APPEND (Z.lor O_SHLOCK (Z.lor O_NOFOLLOW (Z.lor O_CREAT (Z.lor O_TRUNC O_EXCL)))))).
Definition has_flag (flags f : Z) : bool := negb (Z.land flags f =? 0).
(** The access mode: whether to read and to write. *)
Definition open_options (flags : Z) : outcome GuestOpenOptions :=
  let mode := Z.land flags O_ACCMODE in
  '(r, w) ← (if mode =? O_RDONLY then Ret (true, false) else if mode =? O_WRONLY then Ret (false, true)
             else if mode =? O_RDWR then Ret (true, true) else Panic);
  Ret (mkGuestOpenOptions r w (has_flag flags O_APPEND) (has_flag flags O_CREAT) (has_flag flags O_TRUNC) (has_flag flags O_EXCL)).
Definition open_errno (e : FsError) : outcome Z :=
  match e with
  | AccessDenied => Ret EACCES
  | AlreadyExist => Ret EEXIST
  | DoesNotExist => Ret ENOENT
  | InvalidParentDir => Ret ENOTDIR
  | IsDirectory => Ret EISDIR
  | NonexistentParentDir => Ret ENOENT
  | ReadonlyParentDir => Ret EACCES
  | IoError => Ret EIO
  | DirectoryNotEmpty => Panic
  end.

Definition open_direct (path flags : Z) (s : IoState) : outcome (Z * IoState) :=
  rassert (Z.land flags (Z.lnot OPEN_FLAGS) =? 0);;
  if path =? 0 then s ← io_errno EFAULT s; Ret (-1, s)
  else
    options ← open_options flags;
    path_string ← cstr_at path (io_mem s);
    if negb (utf8_valid path_string) then Ret (-1, s)
    else
      '(r, fs, h) ← open_with_options path_string options (io_fs s) (io_host s);
      let s := set_io_host h (set_io_fs fs s) in
      '(res, s) ← match r with
                  | Ok file => find_or_create_fd (mkPosixFile file 0 (g_write options) false 0) s
                  | Err error => errno ← open_errno error; s ← io_errno errno s; Ret (-1, s)
                  end;
      s ← (if negb (res =? -1) && has_flag flags O_SHLOCK then '(_, s) ← flock res LOCK_SH s; Ret s else Ret s);
      Ret (res, s).
Definition open (path flags : Z) (s : IoState) : outcome (Z * IoState) :=
  s ← io_errno 0 s; open_direct path flags s.

(** [bytes_at_mut(buffer, size)] filled by the read: the bytes read are put at its start. *)
Definition read (fd buffer size : Z) (s : IoState) : outcome (Z * IoState) :=
  s ← io_errno 0 s;
  if buffer =? 0 then Ret (-1, s)
  else
    f ← file_for_fd fd s;
    match f with
    | None => Ret (-1, s)
    | Some o =>
        rassert (in_bounds buffer size);;
        r ← GuestFile_read size o (io_host s);
        match r with
        | Ok (l, o) =>
            let n := Z.of_nat (length l) in
            let o := if (n =? 0) && negb (size =? 0) then set_eof true o else o in
            n ← i32 n;
            Ret (n, put_fd fd (Some o) (set_io_mem (set_bytes (store buffer l (bytes (io_mem s))) (io_mem s)) s))
        | Err IsADirectory => s ← io_errno EISDIR s; Ret (0, s)
        | Err _ => Ret (-1, s)
        end
    end.

Definition eof (fd : Z) (s : IoState) : outcome Z :=
  f ← file_for_fd fd s; o ← unwrap f; Ret (if reached_eof o then 1 else 0).
Definition clearerr (fd : Z) (s : IoState) : outcome IoState :=
  s ← io_errno 0 s; f ← file_for_fd fd s; o ← unwrap f; Ret (put_fd fd (Some (set_eof false o)) s).
Definition fflush (fd : Z) (s : IoState) : outcome (Z * IoState) :=
  s ← io_errno 0 s;
  f ← file_for_fd fd s;
  match f with
  | None => Ret (-1, s)
  | Some o => r ← GuestFile_flush o; Ret (match r with Ok _ => 0 | Err _ => -1 end, s)
  end.

Definition write (fd buffer size : Z) (s : IoState) : outcome (Z * IoState) :=
  s ← io_errno 0 s;
  f ← file_for_fd fd s;
  o ← unwrap f;
  l ← bytes_at buffer size (io_mem s);
  r ← GuestFile_write l o (io_host s);
  match r with
  | Ok (o, h) => n ← i32 (Z.of_nat (length l)); Ret (n, put_fd fd (Some o) (set_io_host h s))
  | Err _ => Ret (-1, s)
  end.

(** Where a seek starts from: the position and the file, or the result on an error. *)
Definition seek_error (r : outcome (result (Z * PosixFileHostObject) ErrorKind)) (s : IoState)
    (k : Z → PosixFileHostObject → outcome (Z * IoState)) : outcome (Z * IoState) :=
  r ← r;
  match r with
  | Ok (p, o) => k p o
  | Err IsADirectory => s ← io_errno EISDIR s; Ret (-1, s)
  | Err _ => Panic
  end.
(** From [start_position.checked_add_signed(offset)] on. *)
Definition lseek_from (fd offset start_position : Z) (o : PosixFileHostObject) (s : IoState) : outcome (Z * IoState) :=
  let s := put_fd fd (Some o) s in
  let seek_position := start_position + offset in
  if negb ((0 <=? seek_position) && (seek_position <? U64_MOD)) then
    s ← io_errno (if 0 <=? offset then EOVERFLOW else EINVAL) s; Ret (-1, s)
  else if OFF_MAX <? seek_position then s ← io_errno EOVERFLOW s; Ret (-1, s)
  else
    r ← GuestFile_seek (SStart seek_position) o (io_host s);
    match r with
    | Ok (new_offset, o) =>
        rassert (new_offset <=? OFF_MAX);;
        Ret (new_offset, put_fd fd (Some (set_eof false o)) s)
    | Err InvalidInput => s ← io_errno EINVAL s; Ret (-1, s)
    | Err IsADirectory => s ← io_errno EISDIR s; Ret (-1, s)
    | Err _ => Panic
    end.
Definition lseek (fd offset whence : Z) (s : IoState) : outcome (Z * IoState) :=
  f ← file_for_fd fd s;
  match f with
  | None => s ← io_errno EBADF s; Ret (-1, s)
  | Some o =>
      if negb (GuestFile_is_seekable o) then s ← io_errno ESPIPE s; Ret (-1, s)
      else if whence =? SEEK_SET then lseek_from fd offset 0 o s
      else if whence =? SEEK_CUR then seek_error (stream_position o (io_host s)) s (λ p o, lseek_from fd offset p o s)
      else if whence =? SEEK_END then seek_error (stream_len o (io_host s)) s (λ p o, lseek_from fd offset p o s)
      else s ← io_errno EINVAL s; Ret (-1, s)
  end.

(** [pread] and [pwrite] go to the position, work there, and go back. *)
Definition at_offset (fd offset : Z) (work : IoState → outcome (Z * IoState)) (s : IoState) : outcome (Z * IoState) :=
  '(original_position, s) ← lseek fd 0 SEEK_CUR s;
  if original_position =? -1 then Ret (-1, s)
  else
    '(p, s) ← lseek fd offset SEEK_SET s;
    if p =? -1 then Ret (-1, s)
    else
      '(n, s) ← work s;
      '(p, s) ← lseek fd original_position SEEK_SET s;
      rassert (negb (p =? -1));;
      Ret (n, s).
Definition pread (fd buffer size offset : Z) (s : IoState) : outcome (Z * IoState) :=
  at_offset fd offset (read fd buffer size) s.
Definition pwrite (fd buffer size offset : Z) (s : IoState) : outcome (Z * IoState) :=
  at_offset fd offset (write fd buffer size) s.

Definition close_socket (socket : Z) (s : IoState) : IoState :=
  mkIo (io_env s) (io_fs s) (io_host s) (io_files s) (io_sockets s ∖ {[socket]}) (io_stdout s) (io_stderr s).
Definition close (fd : Z) (s : IoState) : outcome (Z * IoState) :=
  s ← io_errno 0 s;
  if (fd =? STDIN_FILENO) || (fd =? STDOUT_FILENO) || (fd =? STDERR_FILENO) then Ret (0, s)
  else
    let bad := s ← io_errno EBADF s; Ret (-1, s) in
    if fd <? 0 then bad
    else
      f ← file_slot fd s;
      match f with
      | None => bad
      | Some None => bad
      | Some (Some o) =>
          let s := put_fd fd None s in
          match pf_file o with
          | GDirectory => Ret (0, s)
          | Socket => Ret (0, close_socket fd s)
          | _ =>
              if negb (needs_flush o) then Ret (0, s)
              else Ret (match GuestFile_sync_all o with Ok _ => 0 | Err _ => -1 end, s)
          end
      end.

Definition fsync (fd : Z) (s : IoState) : outcome (Z * IoState) :=
  f ← file_for_fd fd s;
  match f with
  | None => s ← io_errno EBADF s; Ret (-1, s)
  | Some o =>
      match GuestFile_sync_all o with
      | Ok _ => Ret (0, s)
      | Err PermissionDenied => Ret (0, s)
      | Err Unsupported => s ← io_errno EINVAL s; Ret (-1, s)
      | Err Interrupted => s ← io_errno EINTR s; Ret (-1, s)
      | Err _ => s ← io_errno EIO s; Ret (-1, s)
      end
  end.

(** [len as u64]. *)
Definition ftruncate (fd len : Z) (s : IoState) : outcome (Z * IoState) :=
  s ← io_errno 0 s;
  f ← file_for_fd fd s;
  o ← unwrap f;
  r ← GuestFile_set_len (len mod U64_MOD) o (io_host s);
  Ret (match r with Ok h => (0, set_io_host h s) | Err _ => (-1, s) end).
Definition truncate (path_ptr len : Z) (s : IoState) : outcome (Z * IoState) :=
  s ← io_errno 0 s;
  path_string ← cstr_at path_ptr (io_mem s);
  if negb (utf8_valid path_string) then Ret (-1, s)
  else
    '(fd, s) ← open_direct path_ptr O_WRONLY s;
    if fd <? 0 then Ret (-1, s)
    else
      '(res, s) ← ftruncate fd len s;
      '(_, s) ← close fd s;
      Ret (res, s).

Definition posix_rename (old new : Z) (s : IoState) : outcome (Z * IoState) :=
  s ← io_errno 0 s;
  old ← cstr_at_utf8_unwrap old (io_mem s);
  new ← cstr_at_utf8_unwrap new (io_mem s);
  '(r, fs, h) ← rename old new (io_fs s) (io_host s);
  Ret (match r with Ok _ => 0 | Err _ => -1 end, set_io_host h (set_io_fs fs s)).
Definition chdir (path_ptr : Z) (s : IoState) : outcome (Z * IoState) :=
  s ← io_errno 0 s;
  path ← cstr_at_utf8_unwrap path_ptr (io_mem s);
  '(r, fs) ← change_working_directory path (io_fs s);
  Ret (match r with Ok _ => 0 | Err _ => -1 end, set_io_fs fs s).
Definition getcwd (buf_ptr buf_size : Z) (s : IoState) : outcome (Z * IoState) :=
  let wd := working_directory (io_fs s) in
  d ← is_dir wd (io_fs s);
  if negb d then Ret (0, s)
  else if buf_ptr =? 0 then
    '(res, m) ← alloc_and_write_cstr wd (io_mem s); Ret (res, set_io_mem m s)
  else
    n ← u32 (Z.of_nat (length wd));
    res_size ← u32 (n + 1);
    if buf_size <? res_size then Ret (0, s)
    else
      m ← bytes_at_mut_copy buf_ptr res_size (wd ++ [0]) (io_mem s);
      Ret (buf_ptr, set_io_mem m s).

(** [struct flock]: [start] and [len] of eight bytes, [pid] of four, [lock_type] and
    [whence] of two. *)
Record flock_t := mkFlock { lk_start : Z; lk_len : Z; lk_pid : Z; lk_type : Z; lk_whence : Z }.
Definition signed (n v : Z) : Z := if v <? 2 ^ (n - 1) then v else v - 2 ^ n.
Definition read_flock (p : Z) (m : Mem) : outcome flock_t :=
  l ← mem_read 24 p m;
  Ret (mkFlock (signed 64 (from_le_bytes (take 8 l))) (signed 64 (from_le_bytes (take 8 (drop 8 l))))
         (signed 32 (from_le_bytes (take 4 (drop 16 l)))) (signed 16 (from_le_bytes (take 2 (drop 20 l))))
         (signed 16 (from_le_bytes (take 2 (drop 22 l))))).
Definition write_flock (p : Z) (lock : flock_t) (m : Mem) : outcome Mem :=
  mem_write 24 p (le_bytes 8 (lk_start lock) ++ le_bytes 8 (lk_len lock) ++ le_bytes 4 (lk_pid lock)
                    ++ le_bytes 2 (lk_type lock) ++ le_bytes 2 (lk_whence lock)) m.

Definition i64 (z : Z) : outcome Z := if (- OFF_MAX - 1 <=? z) && (z <=? OFF_MAX) then Ret z else Panic.
Definition validate_lock (fd : Z) (lock : flock_t) (s : IoState) : outcome (result () Z * IoState) :=
  if negb ((lk_type lock =? F_RDLCK) || (lk_type lock =? F_UNLCK) || (lk_type lock =? F_WRLCK)) then Ret (Err EINVAL, s)
  else
    let from (r : outcome (result (Z * PosixFileHostObject) ErrorKind)) :=
      r ← r;
      match r with
      | Ok (p, o) => p ← i64 p; lock_start ← i64 (p + lk_start lock); Ret (Some lock_start, put_fd fd (Some o) s)
      | Err _ => Panic
      end in
    '(lock_start, s) ←
      (if lk_whence lock =? SEEK_SET then Ret (Some (lk_start lock), s)
       else if lk_whence lock =? SEEK_CUR then f ← file_for_fd fd s; o ← unwrap f; from (stream_position o (io_host s))
       else if lk_whence lock =? SEEK_END then f ← file_for_fd fd s; o ← unwrap f; from (stream_len o (io_host s))
       else Ret (None, s));
    Ret (match lock_start with Some l => if l <? 0 then Err EINVAL else Ok () | None => Err EINVAL end, s).

(** [arg] is the first variadic argument, which the commands that take one read. *)
Definition fcntl (fd cmd arg : Z) (s : IoState) : outcome (Z * IoState) :=
  s ← io_errno 0 s;
  bad ← (if NORMAL_FILENO_BASE <=? fd then b ← is_fd_open fd s; Ret (negb b) else Ret false);
  if (bad : bool) then s ← io_errno EBADF s; Ret (-1, s)
  else if cmd =? F_GETFD then
    f ← file_for_fd fd s; o ← unwrap f; Ret (pf_flags o, s)
  else if cmd =? F_SETFD then
    rassert ((arg =? FD_CLOEXEC) || (arg =? 0));;
    f ← file_for_fd fd s; o ← unwrap f; Ret (0, put_fd fd (Some (set_fd_flags arg o)) s)
  else if (cmd =? F_GETLK) || (cmd =? F_SETLK) then
    lock ← read_flock arg (io_mem s);
    '(r, s) ← validate_lock fd lock s;
    match r with
    | Err error_code => s ← io_errno error_code s; Ret (-1, s)
    | Ok _ =>
        if cmd =? F_GETLK then
          m ← write_flock arg (mkFlock (lk_start lock) (lk_len lock) (lk_pid lock) F_UNLCK (lk_whence lock)) (io_mem s);
          Ret (0, set_io_mem m s)
        else Ret (0, s)
    end
  else if cmd =? F_NOCACHE then rassert (arg =? 1);; Ret (0, s)
  else if cmd =? F_RDADVISE then Ret (0, s)
  else Panic.
End posix_io.
