(* ===== verification/PosixIoFacts.v ===== *)
(** * What the calls on descriptors do

    The abstract file is its content, a position and the end-of-file mark.  The
    calls of [PosixIo] refine operations on it that say nothing of descriptor
    tables, cursors, [errno] or of the seeks that [pread] and [pwrite] are made
    of. *)

From S2P Require Import Prelude ChunkMap SizeBucketed VMAllocator HeapAllocator GuestMem Env Scheduler Pthread Semaphore Fs PosixIo Qsort.

(** ** The abstract file *)

Record AbsFile := mkAbs {
  a_content : list Z;
  a_pos : Z;
  a_eof : bool;
  (** The host file and how it was opened; none for a file of the app's bundle. *)
  a_host : option (list (list Z) * OpenOptions)
}.
Definition can_read (A : AbsFile) : bool := match a_host A with Some (_, o) => o_read o | None => true end.
Definition can_write (A : AbsFile) : bool := match a_host A with Some (_, o) => o_write o || o_append o | None => false end.
Definition appends (A : AbsFile) : bool := match a_host A with Some (_, o) => o_append o | None => false end.
Definition abs_ok (A : AbsFile) : Prop := 0 ≤ a_pos A ≤ OFF_MAX ∧ Z.of_nat (length (a_content A)) ≤ OFF_MAX.

Inductive op :=
| ORead (buffer size : Z) | OWrite (buffer size : Z) | OSeek (offset whence : Z)
| OPread (buffer size offset : Z) | OPwrite (buffer size offset : Z) | OTruncate (len : Z).

(** Bytes put into guest memory, and taken from it. *)
Definition put_bytes (buffer : Z) (l : list Z) (μ : Z → Z) : Z → Z := λ a,
  if decide (buffer ≤ a < buffer + Z.of_nat (length l)) then default 0 (l !! Z.to_nat (a - buffer)) else μ a.
Definition take_bytes (buffer size : Z) (μ : Z → Z) : list Z := μ <$> addr_range buffer size.

(** A read and a write at a position; [None] where they fail. *)
Definition spec_read (size pos : Z) (A : AbsFile) : option (list Z) :=
  if can_read A then Some (read_at (a_content A) pos size) else None.
Definition spec_write (l : list Z) (pos : Z) (A : AbsFile) : option (list Z * Z) :=
  if can_write A then
    match l with
    | [] => Some (a_content A, pos)
    | _ =>
        let pos := if appends A then Z.of_nat (length (a_content A)) else pos in
        if pos + Z.of_nat (length l) <=? OFF_MAX then Some (write_at (a_content A) pos l, pos + Z.of_nat (length l))
        else None
    end
  else None.
Definition spec_seek (offset whence : Z) (A : AbsFile) : option Z :=
  let base := if whence =? SEEK_SET then Some 0 else if whence =? SEEK_CUR then Some (a_pos A)
              else if whence =? SEEK_END then Some (Z.of_nat (length (a_content A))) else None in
  match base with
  | Some b => if (0 <=? b + offset) && (b + offset <=? OFF_MAX) then Some (b + offset) else None
  | None => None
  end.

Definition spec_op (o : op) (μ : Z → Z) (A : AbsFile) : Z * (Z → Z) * AbsFile :=
  match o with
  | ORead buffer size =>
      match spec_read size (a_pos A) A with
      | Some l =>
          let n := Z.of_nat (length l) in
          (n, put_bytes buffer l μ, mkAbs (a_content A) (a_pos A + n) (a_eof A || (n =? 0) && negb (size =? 0)) (a_host A))
      | None => (-1, μ, A)
      end
  | OWrite buffer size =>
      match spec_write (take_bytes buffer size μ) (a_pos A) A with
      | Some (c, pos) => (size, μ, mkAbs c pos (a_eof A) (a_host A))
      | None => (-1, μ, A)
      end
  | OSeek offset whence =>
      match spec_seek offset whence A with
      | Some p => (p, μ, mkAbs (a_content A) p false (a_host A))
      | None => (-1, μ, A)
      end
  | OPread buffer size offset =>
      let A := mkAbs (a_content A) (a_pos A) false (a_host A) in
      if offset <? 0 then (-1, μ, A)
      else match spec_read size offset A with
           | Some l => (Z.of_nat (length l), put_bytes buffer l μ, A)
           | None => (-1, μ, A)
           end
  | OPwrite buffer size offset =>
      let A := mkAbs (a_content A) (a_pos A) false (a_host A) in
      if offset <? 0 then (-1, μ, A)
      else match spec_write (take_bytes buffer size μ) offset A with
           | Some (c, _) => (size, μ, mkAbs c (a_pos A) false (a_host A))
           | None => (-1, μ, A)
           end
  | OTruncate len =>
      if can_write A && (0 <=? len) then (0, μ, mkAbs (resize (a_content A) len) (a_pos A) (a_eof A) (a_host A))
      else (-1, μ, A)
  end.
Fixpoint spec_run (os : list op) (μ : Z → Z) (A : AbsFile) : list Z * (Z → Z) * AbsFile :=
  match os with
  | [] => ([], μ, A)
  | o :: os =>
      let '(r, μ, A) := spec_op o μ A in
      let '(rs, μ, A) := spec_run os μ A in (r :: rs, μ, A)
  end.

(** The arguments the calls are specified for: the buffer is in guest memory and does not
    hold the thread's [errno] (at [p]), and only host files are written. *)
Definition buffer_ok (p buffer size : Z) : Prop :=
  0 < buffer ∧ 0 ≤ size < 2147483648 ∧ buffer + size ≤ U32_MOD ∧ (buffer + size ≤ p ∨ p + 4 ≤ buffer).
Definition op_ok (p : Z) (A : AbsFile) (o : op) : Prop :=
  match o with
  | ORead buffer size => buffer_ok p buffer size
  | OWrite buffer size => buffer_ok p buffer size ∧ is_Some (a_host A)
  | OSeek offset _ => - OFF_MAX ≤ offset ≤ OFF_MAX
  | OPread buffer size offset => buffer_ok p buffer size ∧ - OFF_MAX ≤ offset ≤ OFF_MAX
  | OPwrite buffer size offset => buffer_ok p buffer size ∧ - OFF_MAX ≤ offset ≤ OFF_MAX ∧ is_Some (a_host A)
  | OTruncate len => - OFF_MAX ≤ len ≤ OFF_MAX ∧ is_Some (a_host A)
  end.

(** ** The calls *)

Section refinement.
Variable ro_content : GuestFile → list Z.

Definition do_op (fd : Z) (o : op) : IoState → outcome (Z * IoState) :=
  match o with
  | ORead buffer size => read ro_content fd buffer size
  | OWrite buffer size => write fd buffer size
  | OSeek offset whence => lseek ro_content fd offset whence
  | OPread buffer size offset => pread ro_content fd buffer size offset
  | OPwrite buffer size offset => pwrite ro_content fd buffer size offset
  | OTruncate len => ftruncate fd len
  end.
Fixpoint run_ops (fd : Z) (os : list op) (s : IoState) : outcome (list Z * IoState) :=
  match os with
  | [] => Ret ([], s)
  | o :: os => '(r, s) ← do_op fd o s; '(rs, s) ← run_ops fd os s; Ret (r :: rs, s)
  end.

(** The abstract file a descriptor's object stands for. *)
Definition view (o : PosixFileHostObject) (h : gmap (list (list Z)) HostNode) : option AbsFile :=
  match pf_file o with
  | GFile f =>
      match file_content f h with
      | Some c => Some (mkAbs c (hf_pos f) (reached_eof o) (Some (hf_path f, hf_options f)))
      | None => None
      end
  | IpaBundleFile _ | ResourceFile _ => Some (mkAbs (ro_content (pf_file o)) (pf_cursor o) (reached_eof o) None)
  | _ => None
  end.

(** The thread's [errno] has its place in guest memory. *)
Definition errno_ready (p : Z) (e : Environment) : Prop :=
  errnos e !! current_thread e = Some p ∧ 0 ≤ p ∧ p + 4 < U32_MOD.

(** The table is small enough that no negative descriptor wraps around into it. *)
Definition table_ok (s : IoState) : Prop := Z.of_nat (length (io_files s)) ≤ 2147483648.

Record refines (p fd : Z) (s : IoState) (μ : Z → Z) (A : AbsFile) : Prop := {
  r_errno : errno_ready p (io_env s);
  r_mem : ∀ a, ¬ (p ≤ a < p + 4) → byte_at (io_mem s) a = μ a;
  r_file : ∃ o, file_for_fd fd s = Ret (Some o) ∧ view o (io_host s) = Some A;
  r_table : table_ok s;
  r_ok : abs_ok A
}.

(** What a call on [fd] leaves alone: the other descriptors, and the other files. *)
Record frame (fd : Z) (A : AbsFile) (s s' : IoState) : Prop := {
  f_files : ∀ fd', fd' ≠ fd → file_for_fd fd' s' = file_for_fd fd' s;
  f_host : ∀ q, fst <$> a_host A ≠ Some q → io_host s' !! q = io_host s !! q;
  f_fs : io_fs s' = io_fs s;
  f_env : ∃ m, io_env s' = set_mem m (io_env s)
}.

(** ** The table *)

Lemma file_for_fd_inv fd s o :
  file_for_fd fd s = Ret (Some o) →
  0 ≤ fd - NORMAL_FILENO_BASE < Z.of_nat (length (io_files s)) ∧ fd - NORMAL_FILENO_BASE < 2147483648 ∧
  io_files s !! Z.to_nat (fd - NORMAL_FILENO_BASE) = Some (Some o) ∨
  (∃ i, i32 (fd - NORMAL_FILENO_BASE) = Ret i ∧ i < 0 ∧ i + U64_MOD < Z.of_nat (length (io_files s))).
Proof.
  unfold file_for_fd, file_slot, fd_to_file_idx. destruct (i32 (fd - NORMAL_FILENO_BASE)) as [i|] eqn:E; [|done]. simpl.
  pose proof (i32_inv _ _ E) as [-> Hr].
  destruct (Z.ltb_spec (fd - NORMAL_FILENO_BASE) 0); zcase; intros Hf; simplify_eq.
  - right. eauto.
  - left. destruct (io_files s !! _) as [[o'|]|] eqn:El; simplify_eq. split_and!; [lia..|done].
Qed.

Lemma file_for_fd_eq fd s o :
  table_ok s → file_for_fd fd s = Ret (Some o) ↔
  0 ≤ fd - NORMAL_FILENO_BASE < 2147483648 ∧ io_files s !! Z.to_nat (fd - NORMAL_FILENO_BASE) = Some (Some o).
Proof.
  unfold table_ok. intros Ht. split.
  - intros [(?&?&?)|(i&?&?&?)]%file_for_fd_inv; [split; [lia|done]|].
    pose proof (i32_inv _ _ H) as [-> ?]. unfold U64_MOD in *. lia.
  - intros [Hr Hl]. unfold file_for_fd, file_slot, fd_to_file_idx. rewrite i32_ok by lia. simpl.
    destruct (Z.ltb_spec (fd - NORMAL_FILENO_BASE) 0); [lia|].
    pose proof (lookup_lt_Some _ _ _ Hl). destruct (Z.ltb_spec (fd - NORMAL_FILENO_BASE) (Z.of_nat (length (io_files s)))); [|lia].
    by rewrite Hl.
Qed.

Lemma file_for_fd_put fd o x s :
  table_ok s → file_for_fd fd s = Ret (Some o) → file_for_fd fd (put_fd fd (Some x) s) = Ret (Some x).
Proof.
  intros Ht Ho%file_for_fd_eq; [|done]. apply file_for_fd_eq; [unfold table_ok; simpl; by rewrite length_insert|].
  destruct Ho as [? Hl]. split; [done|]. simpl. apply list_lookup_insert_eq. eauto using lookup_lt_Some.
Qed.

Lemma file_for_fd_put_ne fd fd' o x s :
  table_ok s → file_for_fd fd s = Ret (Some o) → fd' ≠ fd → file_for_fd fd' (put_fd fd x s) = file_for_fd fd' s.
Proof.
  intros Ht [Hr _]%file_for_fd_eq Hne; [|done]. unfold file_for_fd, file_slot, fd_to_file_idx.
  destruct (i32 (fd' - NORMAL_FILENO_BASE)) as [i|] eqn:E; [|done]. apply i32_inv in E as [-> E]. simpl. rewrite length_insert.
  unfold table_ok, U64_MOD in *. repeat zcase; try done; try lia.
  rewrite list_lookup_insert_ne; [done|]. lia.
Qed.

(** ** [errno] *)

Lemma set_errno_ready p v e :
  errno_ready p e →
  ∃ m, set_errno v e = Ret (set_mem m e) ∧ errno_ready p (set_mem m e) ∧ ∀ a, ¬ (p ≤ a < p + 4) → byte_at m a = byte_at (mem e) a.
Proof.
  intros (Hp & ? & ?). unfold set_errno, errno_ptr_for_thread. rewrite Hp. simpl.
  unfold write_u32, write_u. rewrite mem_write_eq by (rewrite ?le_bytes_length; simpl; lia).
  eexists. split; [done|]. split; [by split_and!|]. intros a Ha. unfold set_mem. cbn [mem].
  rewrite byte_at_store, le_bytes_length. by rewrite decide_False by lia.
Qed.

(** Only the environment has changed. *)
Definition quiet (s s' : IoState) : Prop :=
  io_files s' = io_files s ∧ io_host s' = io_host s ∧ io_fs s' = io_fs s ∧ ∃ m, io_env s' = set_mem m (io_env s).
Lemma set_mem_mem e : set_mem (mem e) e = e.
Proof. by destruct e. Qed.
Lemma quiet_refl s : quiet s s.
Proof. split_and!; [done..|]. exists (mem (io_env s)). by rewrite set_mem_mem. Qed.

Lemma file_for_fd_files fd s s' : io_files s' = io_files s → file_for_fd fd s' = file_for_fd fd s.
Proof. intros H. unfold file_for_fd, file_slot. by rewrite H. Qed.

Lemma quiet_frame fd A s s' : quiet s s' → frame fd A s s'.
Proof. intros (? & Hh & ? & ?). split; [intros; by apply file_for_fd_files|by rewrite Hh|done|done]. Qed.

Lemma io_errno_refines p fd v s μ A :
  refines p fd s μ A → ∃ s', io_errno v s = Ret s' ∧ refines p fd s' μ A ∧ quiet s s'.
Proof.
  intros [He Hm (o & Ho & Hv) Ht Hok]. destruct (set_errno_ready p v (io_env s) He) as (m & He' & Hr & Hb).
  unfold io_errno. rewrite He'. simpl. eexists. split; [done|]. split; [|split_and!; [done..|by exists m]]. split; [done| |exists o; done|done|done].
  intros a Ha. unfold io_mem. simpl. rewrite Hb by done. by apply Hm.
Qed.

Lemma frame_host fd A A' s s' : a_host A' = a_host A → frame fd A s s' → frame fd A' s s'.
Proof. intros Ha [????]. split; [done|by rewrite Ha|done|done]. Qed.

Lemma frame_trans fd A A' s1 s2 s3 :
  a_host A' = a_host A → frame fd A s1 s2 → frame fd A' s2 s3 → frame fd A s1 s3.
Proof.
  intros Ha [F1 H1 S1 [m1 E1]] [F2 H2 S2 [m2 E2]].
  split; [intros; by rewrite F2, F1|intros; rewrite H2 by congruence; by apply H1|congruence|exists m2; by rewrite E2, E1].
Qed.

(** A change of the file, its host content and guest memory. *)
Lemma refines_update p fd s μ A o' h' l buffer A' :
  refines p fd s μ A → view o' h' = Some A' → abs_ok A' → a_host A' = a_host A →
  (∀ q, fst <$> a_host A ≠ Some q → h' !! q = io_host s !! q) →
  let m := io_mem s in
  let s' := put_fd fd (Some o') (set_io_host h' (set_io_mem (set_bytes (store buffer l (bytes m)) m) s)) in
  refines p fd s' (put_bytes buffer l μ) A' ∧ frame fd A s s'.
Proof.
  intros [He Hm (o & Ho & Hv) Ht Hok] Hv' Hok' Ha Hh. cbv zeta. split; [split|split].
  - exact He.
  - intros a Hna. unfold io_mem at 1. cbn [put_fd set_io_files set_io_host set_io_mem set_io_env io_env set_mem mem].
    rewrite byte_at_store. unfold put_bytes. case_decide; [done|by apply Hm].
  - exists o'. split; [|done]. by apply (file_for_fd_put _ o).
  - unfold table_ok. simpl. by rewrite length_insert.
  - done.
  - intros fd' Hne. rewrite (file_for_fd_put_ne _ _ o) by done. done.
  - done.
  - done.
  - by eexists.
Qed.

Lemma put_bytes_nil buffer μ a : put_bytes buffer [] μ a = μ a.
Proof. unfold put_bytes. simpl. by rewrite decide_False by lia. Qed.

Lemma refines_mem p fd s μ μ' A : (∀ a, μ' a = μ a) → refines p fd s μ A → refines p fd s μ' A.
Proof. intros H [? Hm ???]. split; try done. intros a Ha. rewrite H. by apply Hm. Qed.

(** The same without a change of guest memory. *)
Lemma refines_put p fd s μ A o' h' A' :
  refines p fd s μ A → view o' h' = Some A' → abs_ok A' → a_host A' = a_host A →
  (∀ q, fst <$> a_host A ≠ Some q → h' !! q = io_host s !! q) →
  refines p fd (put_fd fd (Some o') (set_io_host h' s)) μ A' ∧ frame fd A s (put_fd fd (Some o') (set_io_host h' s)).
Proof.
  intros [He Hm (o & Ho & Hv) Ht Hok] Hv' Hok' Ha Hh. split; [split|split]; try done.
  - exists o'. split; [|done]. by apply (file_for_fd_put _ o).
  - unfold table_ok. simpl. by rewrite length_insert.
  - intros fd' Hne. by rewrite (file_for_fd_put_ne _ _ o).
  - exists (io_mem s). symmetry. apply set_mem_mem.
Qed.

(** ** The file of a descriptor *)

Definition moved (A : AbsFile) (pos : Z) : AbsFile := mkAbs (a_content A) pos (a_eof A) (a_host A).

Lemma view_set_eof o h A b : view o h = Some A → view (set_eof b o) h = Some (mkAbs (a_content A) (a_pos A) b (a_host A)).
Proof. unfold view. simpl. destruct (pf_file o) as [|f| | |]; [done| |intros; by simplify_eq..|done]. destruct (file_content f h); intros; by simplify_eq. Qed.

Lemma seek_view sk o h A t :
  view o h = Some A → seek_target sk (a_pos A) (Z.of_nat (length (a_content A))) = t → 0 ≤ t ≤ OFF_MAX →
  ∃ o', GuestFile_seek ro_content sk o h = Ret (Ok (t, o')) ∧ view o' h = Some (moved A t).
Proof.
  assert (∀ max, OFF_MAX ≤ max → 0 ≤ t ≤ OFF_MAX → seek_to max t = Ok t) as Hs.
  { intros max ??. unfold seek_to. by repeat (zcase; try lia). }
  unfold view, GuestFile_seek, File_seek. intros Hv Ht Hr. destruct (pf_file o) as [|f|m|nm|] eqn:E; [done| | | |done].
  - destruct (file_content f h) as [c|] eqn:Ec; [|done]. simplify_eq. simpl in *. rewrite Hs by done.
    eexists. split; [done|]. simpl. unfold file_content in *. simpl. destruct (h !! hf_path f) as [[]|]; by simplify_eq.
  - simplify_eq. simpl in *. rewrite Hs by (done || (unfold ro_max, OFF_MAX, U64_MOD; lia)). eexists. split; [done|]. simpl. by rewrite E.
  - simplify_eq. simpl in *. rewrite Hs by done. eexists. split; [done|]. simpl. by rewrite E.
Qed.

Lemma position_view o h A :
  view o h = Some A → abs_ok A → ∃ o', stream_position ro_content o h = Ret (Ok (a_pos A, o')) ∧ view o' h = Some A.
Proof.
  intros Hv [??]. destruct (seek_view (SCurrent 0) o h A (a_pos A)) as (o' & ? & ?); [done|simpl; lia|done|].
  exists o'. split; [done|]. by destruct A.
Qed.

Lemma len_view o h A :
  view o h = Some A → abs_ok A →
  ∃ o', stream_len ro_content o h = Ret (Ok (Z.of_nat (length (a_content A)), o')) ∧ view o' h = Some A.
Proof.
  intros Hv Hok. destruct (position_view o h A Hv Hok) as (o1 & E1 & V1). destruct Hok as [Hp Hl].
  destruct (seek_view (SEnd 0) o1 h A (Z.of_nat (length (a_content A)))) as (o2 & E2 & V2); [done|simpl; lia|lia|].
  destruct (seek_view (SStart (a_pos A)) o2 h _ (a_pos A) V2) as (o3 & E3 & V3); [done|lia|].
  unfold stream_len. rewrite E1. simpl. rewrite E2. simpl. rewrite E3. simpl. eexists. split; [done|]. rewrite V3. by destruct A.
Qed.

Lemma read_view n o h A :
  view o h = Some A →
  match spec_read n (a_pos A) A with
  | Some l => ∃ o', GuestFile_read ro_content n o h = Ret (Ok (l, o')) ∧ view o' h = Some (moved A (a_pos A + Z.of_nat (length l)))
  | None => GuestFile_read ro_content n o h = Ret (Err OtherError)
  end.
Proof.
  unfold view, spec_read, can_read, GuestFile_read, File_read. destruct (pf_file o) as [|f|m|nm|] eqn:E; [done| | | |done].
  - destruct (file_content f h) as [c|] eqn:Ec; [|done]. intros. simplify_eq. simpl. destruct (o_read (hf_options f)); [|done].
    eexists. split; [done|]. simpl. unfold file_content in *. simpl. destruct (h !! hf_path f) as [[]|]; by simplify_eq.
  - intros. simplify_eq. simpl. eexists. split; [done|]. simpl. by rewrite E.
  - intros. simplify_eq. simpl. eexists. split; [done|]. simpl. by rewrite E.
Qed.

(** The host file of the abstract file has the content [c] now, and no other has changed. *)
Lemma file_content_insert f h c : file_content f (<[hf_path f := HFile c]> h) = Some c.
Proof. unfold file_content. by rewrite lookup_insert_eq. Qed.

Lemma write_view l o h A :
  view o h = Some A → is_Some (a_host A) →
  match spec_write l (a_pos A) A with
  | Some (c, pos) => ∃ o' h', GuestFile_write l o h = Ret (Ok (o', h')) ∧
      view o' h' = Some (mkAbs c pos (a_eof A) (a_host A)) ∧ ∀ q, fst <$> a_host A ≠ Some q → h' !! q = h !! q
  | None => GuestFile_write l o h = Ret (Err OtherError)
  end.
Proof.
  unfold view, spec_write, can_write, appends, GuestFile_write, File_write.
  destruct (pf_file o) as [|f|m|nm|] eqn:E; [done| |intros ? [??]; by simplify_eq..|done].
  destruct (file_content f h) as [c|] eqn:Ec; [|done]. intros ? _. simplify_eq. simpl.
  destruct (o_write (hf_options f) || o_append (hf_options f)); [|done]. destruct l as [|x l].
  { eexists o, h. split_and!; [by destruct o; simpl in *; subst|by rewrite E, Ec|done]. }
  destruct (_ <=? OFF_MAX); [|done]. do 2 eexists. split_and!; [done| |].
  - simpl. unfold file_content. simpl. by rewrite lookup_insert_eq.
  - intros q Hq. apply lookup_insert_ne. simpl in Hq. congruence.
Qed.

Lemma truncate_view n o h A :
  view o h = Some A → is_Some (a_host A) →
  if can_write A && (n <=? OFF_MAX)
  then ∃ h', GuestFile_set_len n o h = Ret (Ok h') ∧ view o h' = Some (mkAbs (resize (a_content A) n) (a_pos A) (a_eof A) (a_host A)) ∧
    ∀ q, fst <$> a_host A ≠ Some q → h' !! q = h !! q
  else ∃ e, GuestFile_set_len n o h = Ret (Err e).
Proof.
  unfold view, can_write, GuestFile_set_len, File_set_len.
  destruct (pf_file o) as [|f|m|nm|] eqn:E; [done| |intros ? [??]; by simplify_eq..|done].
  destruct (file_content f h) as [c|] eqn:Ec; [|done]. intros ? _. simplify_eq. simpl.
  destruct (o_write (hf_options f) || o_append (hf_options f)); simpl; [|eauto].
  destruct (n <=? OFF_MAX); [|eauto]. eexists. split_and!; [done|by rewrite file_content_insert|].
  intros q Hq. apply lookup_insert_ne. simpl in Hq. congruence.
Qed.

(** ** Each call *)

Lemma read_at_bounds c pos n :
  0 ≤ pos → 0 ≤ n → Z.of_nat (length (read_at c pos n)) ≤ n ∧ pos + Z.of_nat (length (read_at c pos n)) ≤ Z.max pos (Z.of_nat (length c)).
Proof. intros. unfold read_at. rewrite length_take, length_drop. lia. Qed.
Lemma write_at_length c pos l :
  0 ≤ pos → Z.of_nat (length (write_at c pos l)) = Z.max (Z.of_nat (length c)) (pos + Z.of_nat (length l)).
Proof. intros. unfold write_at. rewrite !length_app, length_take, length_replicate, length_drop. lia. Qed.
Lemma resize_length c n : 0 ≤ n → Z.of_nat (length (resize c n)) = n.
Proof. intros. unfold resize. rewrite length_app, length_take, length_replicate. lia. Qed.

(** A call on [fd] from [s] that behaves as the specification does on [A]. *)
Definition meets (p fd : Z) (s : IoState) (A : AbsFile) (m : outcome (Z * IoState)) (spec : Z * (Z → Z) * AbsFile) : Prop :=
  ∃ s', m = Ret (spec.1.1, s') ∧ refines p fd s' spec.1.2 spec.2 ∧ a_host spec.2 = a_host A ∧ frame fd A s s'.

(** A call that starts by setting [errno]. *)
Lemma meets_errno p fd v s μ A (k : IoState → outcome (Z * IoState)) spec :
  refines p fd s μ A → (∀ s1, refines p fd s1 μ A → meets p fd s1 A (k s1) spec) →
  meets p fd s A (s1 ← io_errno v s; k s1) spec.
Proof.
  intros Hr Hk. destruct (io_errno_refines p fd v s μ A Hr) as (s1 & E & R & Q). rewrite E. simpl.
  destruct (Hk s1 R) as (s' & Ek & R' & Ha & F). exists s'. split_and!; [done..|].
  by apply (frame_trans fd A A s s1 s'); [|apply quiet_frame|].
Qed.
Lemma meets_fail p fd s μ A : refines p fd s μ A → meets p fd s A (Ret (-1, s)) (-1, μ, A).
Proof. intros. exists s. split_and!; [done..|]. by apply quiet_frame, quiet_refl. Qed.

Lemma read_meets p fd buffer size s μ A :
  refines p fd s μ A → buffer_ok p buffer size →
  meets p fd s A (read ro_content fd buffer size s) (spec_op (ORead buffer size) μ A).
Proof.
  intros Hr (? & ? & ? & _). unfold read. apply (meets_errno p fd 0 s μ A); [done|]. clear s Hr. intros s Hr.
  destruct (Z.eqb_spec buffer 0); [lia|]. destruct (r_file _ _ _ _ _ Hr) as (o & -> & Hv). simpl.
  unfold in_bounds. destruct (Z.leb_spec (buffer + size) U32_MOD); [|lia]. simpl.
  pose proof (read_view size o (io_host s) A Hv) as Hrd. destruct (r_ok _ _ _ _ _ Hr) as [Hp Hl].
  destruct (spec_read size (a_pos A) A) as [l|] eqn:El; [|rewrite Hrd; simpl; by apply meets_fail].
  destruct Hrd as (o1 & -> & Hv1). simpl. unfold spec_read in El. destruct (can_read A); [|done]. simplify_eq.
  pose proof (read_at_bounds (a_content A) (a_pos A) size ltac:(lia) ltac:(lia)) as [Hb1 Hb2].
  set (l := read_at (a_content A) (a_pos A) size) in *. rewrite i32_ok by lia. simpl.
  set (b := (Z.of_nat (length l) =? 0) && negb (size =? 0)).
  assert (view (if b then set_eof true o1 else o1) (io_host s) =
    Some (mkAbs (a_content A) (a_pos A + Z.of_nat (length l)) (a_eof A || b) (a_host A))) as Hv2.
  { destruct b; [by rewrite (view_set_eof _ _ _ _ Hv1), orb_true_r|by rewrite orb_false_r]. }
  destruct (refines_update p fd s μ A _ (io_host s) l buffer _ Hr Hv2) as [R F];
    [by unfold abs_ok; simpl; lia|done|done|]. eexists. split_and!; [done|exact R|done|exact F].
Qed.

(** What a write of [l] that is possible does to the abstract file. *)
Lemma spec_write_ok l pos A c pos' :
  abs_ok A → 0 ≤ pos ≤ OFF_MAX → spec_write l pos A = Some (c, pos') → 0 ≤ pos' ≤ OFF_MAX ∧ Z.of_nat (length c) ≤ OFF_MAX.
Proof.
  intros [??] ?. unfold spec_write. destruct (can_write A); [|done]. destruct l as [|x l]; [intros; by simplify_eq|].
  destruct (Z.leb_spec ((if appends A then Z.of_nat (length (a_content A)) else pos) + Z.of_nat (length (x :: l))) OFF_MAX); [|done].
  intros. simplify_eq. split; [destruct (appends A); lia|]. rewrite write_at_length by (destruct (appends A); lia). lia.
Qed.

Lemma take_bytes_mem p fd s μ A buffer size :
  refines p fd s μ A → buffer_ok p buffer size → bytes_at buffer size (io_mem s) = Ret (take_bytes buffer size μ).
Proof.
  intros Hr (? & ? & ? & Hd). rewrite bytes_at_eq by lia. f_equal. unfold take_bytes.
  apply list_fmap_ext. intros i a [-> ?]%lookup_seqZ. apply (r_mem _ _ _ _ _ Hr). lia.
Qed.

Lemma write_meets p fd buffer size s μ A :
  refines p fd s μ A → buffer_ok p buffer size → is_Some (a_host A) →
  meets p fd s A (write fd buffer size s) (spec_op (OWrite buffer size) μ A).
Proof.
  intros Hr Hb Hh. unfold write. apply (meets_errno p fd 0 s μ A); [done|]. clear s Hr. intros s Hr.
  destruct (r_file _ _ _ _ _ Hr) as (o & -> & Hv). simpl. rewrite (take_bytes_mem _ _ _ _ _ _ _ Hr Hb). simpl.
  pose proof (write_view (take_bytes buffer size μ) o (io_host s) A Hv Hh) as Hw.
  assert (Z.of_nat (length (take_bytes buffer size μ)) = size) as Hlen.
  { unfold take_bytes, addr_range. rewrite length_fmap, length_seqZ. destruct Hb. lia. }
  set (l := take_bytes buffer size μ) in *. destruct (spec_write l (a_pos A) A) as [[c pos]|] eqn:El;
    [|rewrite Hw; simpl; by apply meets_fail].
  destruct Hw as (o' & h' & -> & Hv' & Hh'). destruct Hb as (? & ? & _). simpl. rewrite i32_ok by lia. simpl.
  destruct (refines_put p fd s μ A o' h' _ Hr Hv') as [R F]; [|done..|].
  { pose proof (r_ok _ _ _ _ _ Hr) as Hok. unfold abs_ok; simpl. by eapply (spec_write_ok _ (a_pos A)); [|destruct Hok|]. }
  eexists. split_and!; [by rewrite Hlen|exact R|done|exact F].
Qed.

(** [meets] after a step that keeps the abstract file. *)
Lemma meets_trans p fd s s1 A A1 m spec :
  a_host A1 = a_host A → frame fd A s s1 → meets p fd s1 A1 m spec → meets p fd s A m spec.
Proof.
  intros Ha F (s' & E & R & Hh & F'). exists s'. split_and!; [done..|congruence|]. by apply (frame_trans fd A A1 s s1 s').
Qed.

Lemma lseek_from_meets p fd offset start o s μ A :
  refines p fd s μ A → view o (io_host s) = Some A → 0 ≤ start ≤ OFF_MAX → - OFF_MAX ≤ offset ≤ OFF_MAX →
  meets p fd s A (lseek_from ro_content fd offset start o s)
    (if (0 <=? start + offset) && (start + offset <=? OFF_MAX)
     then (start + offset, μ, mkAbs (a_content A) (start + offset) false (a_host A)) else (-1, μ, A)).
Proof.
  intros Hr Hv Hs Ho. pose proof (r_ok _ _ _ _ _ Hr) as Hok.
  destruct (refines_put p fd s μ A o (io_host s) A Hr Hv Hok) as [R F]; [done..|].
  apply (meets_trans p fd s (put_fd fd (Some o) s) A A); [done|exact F|]. unfold lseek_from.
  assert (io_host (put_fd fd (Some o) s) = io_host s) as Hh by done.
  cbv zeta.
  assert (refines p fd (put_fd fd (Some o) s) μ A) as R' by exact R. clear R F. revert R' Hh.
  generalize (put_fd fd (Some o) s). intros s1 R1 Hh. unfold OFF_MAX, U64_MOD in *.
  destruct (Z.leb_spec 0 (start + offset)), (Z.ltb_spec (start + offset) 18446744073709551616); simpl; try lia.
  2: { apply (meets_errno p fd _ s1 μ A); [done|]. intros. by apply meets_fail. }
  destruct (Z.ltb_spec 9223372036854775807 (start + offset)), (Z.leb_spec (start + offset) 9223372036854775807); try lia.
  { apply (meets_errno p fd _ s1 μ A); [done|]. intros. by apply meets_fail. }
  rewrite Hh. destruct (seek_view (SStart (start + offset)) o (io_host s) A (start + offset) Hv) as (o' & -> & Hv');
    [done|unfold OFF_MAX; lia|]. simpl. destruct (Z.leb_spec (start + offset) 9223372036854775807); [|lia]. simpl.
  destruct (refines_put p fd s1 μ A (set_eof false o') (io_host s1) (mkAbs (a_content A) (start + offset) false (a_host A)) R1)
    as [R F]; [rewrite Hh; by apply (view_set_eof _ _ _ false) in Hv'|destruct Hok; unfold abs_ok, OFF_MAX in *; simpl; lia|done..|].
  eexists. split_and!; [done|exact R|done|exact F].
Qed.

Lemma lseek_meets p fd offset whence s μ A :
  refines p fd s μ A → - OFF_MAX ≤ offset ≤ OFF_MAX →
  meets p fd s A (lseek ro_content fd offset whence s) (spec_op (OSeek offset whence) μ A).
Proof.
  intros Hr Ho. pose proof (r_ok _ _ _ _ _ Hr) as Hok. destruct (r_file _ _ _ _ _ Hr) as (o & Hf & Hv).
  assert (GuestFile_is_seekable o = true) as Hseek.
  { unfold view in Hv. unfold GuestFile_is_seekable. by destruct (pf_file o). }
  assert (∀ start o', view o' (io_host s) = Some A → 0 ≤ start ≤ OFF_MAX →
    meets p fd s A (lseek_from ro_content fd offset start o' s)
      (match (if (0 <=? start + offset) && (start + offset <=? OFF_MAX) then Some (start + offset) else None) with
       | Some p => (p, μ, mkAbs (a_content A) p false (a_host A)) | None => (-1, μ, A) end)) as Hfrom.
  { intros start o' Hv' Hs. pose proof (lseek_from_meets p fd offset start o' s μ A Hr Hv' Hs Ho) as Hm.
    destruct (_ && _) in Hm |- *; done. }
  unfold lseek, spec_op, spec_seek. rewrite Hf. simpl. rewrite Hseek. simpl. destruct Hok as [Hp Hl].
  destruct (Z.eqb_spec whence SEEK_SET). { apply Hfrom; [done|]. unfold OFF_MAX. lia. }
  destruct (Z.eqb_spec whence SEEK_CUR).
  { destruct (position_view o (io_host s) A Hv) as (o' & -> & Hv'); [by split|]. simpl. by apply Hfrom. }
  destruct (Z.eqb_spec whence SEEK_END).
  { destruct (len_view o (io_host s) A Hv) as (o' & -> & Hv'); [by split|]. simpl. apply Hfrom; [done|lia]. }
  apply (meets_errno p fd _ s μ A); [done|]. intros. by apply meets_fail.
Qed.

(** The common part of [pread] and [pwrite]: the work is done at [offset] of the file as
    the first two seeks left it, and the position is put back. *)
Lemma at_offset_meets p fd offset work s μ A n μ' A' :
  refines p fd s μ A → - OFF_MAX ≤ offset ≤ OFF_MAX → a_host A' = a_host A →
  (∀ s1, refines p fd s1 μ (mkAbs (a_content A) offset false (a_host A)) →
     meets p fd s1 (mkAbs (a_content A) offset false (a_host A)) (work s1) (n, μ', A')) →
  meets p fd s A (at_offset ro_content fd offset work s)
    (if offset <? 0 then (-1, μ, mkAbs (a_content A) (a_pos A) false (a_host A))
     else (n, μ', mkAbs (a_content A') (a_pos A) false (a_host A))).
Proof.
  intros Hr Ho Ha Hw. destruct (r_ok _ _ _ _ _ Hr) as [Hp Hl]. unfold at_offset.
  pose proof (lseek_meets p fd 0 SEEK_CUR s μ A Hr ltac:(unfold OFF_MAX; lia)) as (s1 & E1 & R1 & _ & F1).
  unfold spec_op, spec_seek in E1, R1. simpl in E1, R1. rewrite Z.add_0_r in E1, R1.
  destruct (Z.leb_spec 0 (a_pos A)), (Z.leb_spec (a_pos A) OFF_MAX); try lia. simpl in E1, R1. rewrite E1. simpl.
  destruct (Z.eqb_spec (a_pos A) (-1)); [lia|]. set (A1 := mkAbs (a_content A) (a_pos A) false (a_host A)) in *.
  apply (meets_trans p fd s s1 A A1); [done|done|].
  pose proof (lseek_meets p fd offset SEEK_SET s1 μ A1 R1 Ho) as (s2 & E2 & R2 & _ & F2).
  unfold spec_op, spec_seek in E2, R2. simpl in E2, R2. rewrite !Z.add_0_l in E2, R2. destruct (Z.ltb_spec offset 0).
  { destruct (Z.leb_spec 0 offset); [lia|]. simpl in E2, R2. rewrite E2. simpl. exists s2. by split_and!. }
  destruct (Z.leb_spec 0 offset), (Z.leb_spec offset OFF_MAX); try lia. simpl in E2, R2. rewrite E2. simpl.
  destruct (Z.eqb_spec offset (-1)); [lia|]. apply (meets_trans p fd s1 s2 A1 A); [done|exact F2|].
  destruct (Hw s2 R2) as (s3 & E3 & R3 & _ & F3). rewrite E3. simpl in *.
  apply (meets_trans p fd s2 s3 A A'); [done|by eapply frame_host; [|exact F3]|].
  pose proof (lseek_meets p fd (a_pos A) SEEK_SET s3 μ' A' R3 ltac:(unfold OFF_MAX in *; lia)) as (s4 & E4 & R4 & _ & F4).
  unfold spec_op, spec_seek in E4, R4. simpl in E4, R4. rewrite !Z.add_0_l in E4, R4.
  destruct (Z.leb_spec 0 (a_pos A)), (Z.leb_spec (a_pos A) OFF_MAX); try lia. simpl in E4, R4. rewrite E4. simpl.
  destruct (Z.eqb_spec (a_pos A) (-1)); [lia|]. simpl. exists s4. rewrite <- Ha. by split_and!.
Qed.

Lemma meets_eta p fd s A m spec : meets p fd s A m spec → meets p fd s A m (spec.1.1, spec.1.2, spec.2).
Proof. by destruct spec as [[??]?]. Qed.

Lemma pread_meets p fd buffer size offset s μ A :
  refines p fd s μ A → buffer_ok p buffer size → - OFF_MAX ≤ offset ≤ OFF_MAX →
  meets p fd s A (pread ro_content fd buffer size offset s) (spec_op (OPread buffer size offset) μ A).
Proof.
  intros Hr Hb Ho. pose (spec := spec_op (ORead buffer size) μ (mkAbs (a_content A) offset false (a_host A))).
  pose proof (at_offset_meets p fd offset (read ro_content fd buffer size) s μ A spec.1.1 spec.1.2 spec.2 Hr Ho) as H.
  assert (a_host spec.2 = a_host A) as Ha.
  { subst spec. unfold spec_op. by destruct (spec_read _ _ _). }
  specialize (H Ha ltac:(intros; by apply meets_eta, read_meets)). unfold pread. subst spec. unfold spec_op in *. simpl in *.
  unfold spec_read, can_read in *. simpl in *. by destruct (offset <? 0), (match a_host A with Some (_, o) => o_read o | None => true end).
Qed.

Lemma pwrite_meets p fd buffer size offset s μ A :
  refines p fd s μ A → buffer_ok p buffer size → - OFF_MAX ≤ offset ≤ OFF_MAX → is_Some (a_host A) →
  meets p fd s A (pwrite ro_content fd buffer size offset s) (spec_op (OPwrite buffer size offset) μ A).
Proof.
  intros Hr Hb Ho Hh. pose (spec := spec_op (OWrite buffer size) μ (mkAbs (a_content A) offset false (a_host A))).
  pose proof (at_offset_meets p fd offset (write fd buffer size) s μ A spec.1.1 spec.1.2 spec.2 Hr Ho) as H.
  assert (a_host spec.2 = a_host A) as Ha.
  { subst spec. unfold spec_op. by destruct (spec_write _ _ _) as [[]|]. }
  specialize (H Ha ltac:(intros; by apply meets_eta, write_meets)). unfold pwrite. subst spec. unfold spec_op in *. simpl in *.
  unfold spec_write, can_write, appends in *. simpl in *. destruct (offset <? 0), (a_host A) as [[pth os]|]; try done.
  destruct (o_write os || o_append os); [|done]. destruct (take_bytes buffer size μ); [done|]. by destruct (_ <=? OFF_MAX).
Qed.

Lemma truncate_meets p fd len s μ A :
  refines p fd s μ A → - OFF_MAX ≤ len ≤ OFF_MAX → is_Some (a_host A) →
  meets p fd s A (ftruncate fd len s) (spec_op (OTruncate len) μ A).
Proof.
  intros Hr Hl Hh. unfold ftruncate. apply (meets_errno p fd 0 s μ A); [done|]. clear s Hr. intros s Hr.
  destruct (r_file _ _ _ _ _ Hr) as (o & Hf & Hv). rewrite Hf. simpl. pose proof (truncate_view (len mod U64_MOD) o (io_host s) A Hv Hh) as Ht.
  assert ((len mod U64_MOD <=? OFF_MAX) = (0 <=? len)) as Hm.
  { unfold OFF_MAX, U64_MOD in *. destruct (Z.leb_spec 0 len).
    - rewrite Z.mod_small by lia. apply Z.leb_le. lia.
    - rewrite <- (Z.mod_add _ 1), Z.mod_small by lia. apply Z.leb_gt. lia. }
  rewrite Hm in Ht. unfold spec_op. destruct (can_write A); simpl in *; [|destruct Ht as (e & ->); simpl; by apply meets_fail].
  destruct (Z.leb_spec 0 len); simpl in *; [|destruct Ht as (e & ->); simpl; by apply meets_fail].
  assert (len mod U64_MOD = len) as Hlen by (apply Z.mod_small; unfold OFF_MAX, U64_MOD in *; lia). rewrite Hlen in Ht |- *.
  destruct Ht as (h' & -> & Hv' & Hq). simpl. destruct Hr as [He Hm' _ Ht [Hp _]].
  eexists. split_and!; [done| |done|split; [done..|exists (io_mem s); symmetry; apply set_mem_mem]].
  split; [done|done|by exists o|done|split; [done|]; simpl; rewrite resize_length; lia].
Qed.

Lemma op_meets p fd o s μ A :
  refines p fd s μ A → op_ok p A o → meets p fd s A (do_op fd o s) (spec_op o μ A).
Proof.
  intros Hr. destruct o; simpl op_ok; [intros; by apply read_meets|intros []; by apply write_meets|intros; by apply lseek_meets
    |intros []; by apply pread_meets|intros (?&?&?); by apply pwrite_meets|intros []; by apply truncate_meets].
Qed.

Lemma op_ok_host p A A' o : a_host A' = a_host A → op_ok p A o → op_ok p A' o.
Proof. intros Ha. destruct o; simpl; by rewrite ?Ha. Qed.

(** C17: any sequence of reads, writes, seeks, positioned reads and writes and
    truncations on a descriptor refines the same sequence on the abstract file: the calls
    return (no panic, no loss), each with the result the specification has, guest memory ends up
    as specified (outside the word that holds [errno]), the file has the specified
    content and position, and no other descriptor and no other file is changed.
    In particular [pread] and [pwrite], which seek to and fro, leave the position alone. *)
Theorem posix_io_refines os p fd s μ A :
  refines p fd s μ A → Forall (op_ok p A) os →
  ∃ s', run_ops fd os s = Ret ((spec_run os μ A).1.1, s') ∧
    refines p fd s' (spec_run os μ A).1.2 (spec_run os μ A).2 ∧ frame fd A s s'.
Proof.
  revert s μ A. induction os as [|o os IH]; intros s μ A Hr Hok; simpl.
  { exists s. split_and!; [done..|]. by apply quiet_frame, quiet_refl. }
  apply Forall_cons in Hok as [Ho Hos]. destruct (op_meets p fd o s μ A Hr Ho) as (s1 & E1 & R1 & Ha & F1).
  rewrite E1. simpl. destruct (spec_op o μ A) as [[r μ1] A1]. simpl in *.
  destruct (IH s1 μ1 A1 R1) as (s2 & E2 & R2 & F2). { eapply Forall_impl; [exact Hos|]. intros ?. by apply op_ok_host. }
  rewrite E2. simpl. destruct (spec_run os μ1 A1) as [[rs μ2] A2]. simpl in *. exists s2. split_and!; [done..|].
  by apply (frame_trans fd A A1 s s1 s2).
Qed.
End refinement.

(** A descriptor of a host file with the content "hello", and a buffer at 8192 that holds "ab". *)
Definition demo_path : list (list Z) := [bytes_of "f"].
Definition demo_options : OpenOptions := mkOpenOptions true true false false false.
Definition demo_io (m : Mem) : IoState :=
  mkIo (set_errnos {[0%nat := 4096]} (idle_env m)) (mkFs FsNode_dir [] []) {[demo_path := HFile (bytes_of "hello")]}
    [Some (mkPosixFile (GFile (mkHostFile demo_path demo_options 0)) 0 true false 0)] ∅ [] [].
Definition demo_bytes : Mem := set_bytes {[8192 := 97; 8193 := 98]} empty_mem.
Definition demo_ops : list op := [OSeek 1 SEEK_SET; OWrite 8192 2; OPread 8200 9 0; ORead 8300 9; ORead 8300 9; OTruncate 1].

Lemma demo_refines :
  refines (λ _, []) 4096 3 (demo_io demo_bytes) (byte_at demo_bytes)
    (mkAbs (bytes_of "hello") 0 false (Some (demo_path, demo_options))).
Proof.
  split; [vm_compute; by split_and!|done| |by vm_compute|by vm_compute].
  eexists. split; vm_compute; reflexivity.
Qed.

Lemma posix_io_refines_witness :
  ∃ s', run_ops (λ _, []) 3 demo_ops (demo_io demo_bytes) = Ret ([1; 2; 5; 2; 0; 0], s') ∧
    io_host s' !! demo_path = Some (HFile (bytes_of "h")).
Proof.
  destruct (posix_io_refines (λ _, []) demo_ops 4096 3 (demo_io demo_bytes) (byte_at demo_bytes)
    (mkAbs (bytes_of "hello") 0 false (Some (demo_path, demo_options)))) as (s' & E & R & _).
  - exact demo_refines.
  - unfold demo_ops. repeat (apply Forall_cons; split); [..|apply Forall_nil; exact I]; unfold op_ok, buffer_ok, OFF_MAX, U32_MOD;
      split_and?; first [lia | eexists; reflexivity].
  - exists s'. split; [exact E|]. revert E. generalize s'. clear.
    intros s' E. assert (match run_ops (λ _, []) 3 demo_ops (demo_io demo_bytes) with
                         | Ret (_, s) => io_host s !! demo_path | Panic => None end = Some (HFile (bytes_of "h"))) as H
      by (vm_compute; reflexivity).
    rewrite E in H. exact H.
Defined.

(** ** Opening and closing *)

Lemma list_find_None_spec (l : list (option PosixFileHostObject)) i :
  list_find (λ f, f = None) l = Some (i, None) → l !! i = Some None ∧ ∀ k, (k < i)%nat → ∃ o, l !! k = Some (Some o).
Proof.
  intros (Hi & _ & Hlt)%list_find_Some. split; [done|]. intros k Hk.
  destruct (lookup_lt_is_Some_2 l k) as [[o|] Ho]; [apply lookup_lt_Some in Hi; lia|eauto|].
  exfalso. by apply (Hlt k None).
Qed.

(** The slot of a descriptor in a table that is not too long. *)
Lemma file_for_fd_table fd s :
  table_ok s → 0 ≤ fd - NORMAL_FILENO_BASE < 2147483648 →
  file_for_fd fd s = Ret (match io_files s !! Z.to_nat (fd - NORMAL_FILENO_BASE) with Some (Some o) => Some o | _ => None end).
Proof.
  intros Ht Hr. unfold file_for_fd, file_slot, fd_to_file_idx. rewrite i32_ok by lia. simpl.
  destruct (Z.ltb_spec (fd - NORMAL_FILENO_BASE) 0); [lia|]. zcase; [done|]. by rewrite lookup_ge_None_2 by lia.
Qed.

Lemma find_or_create_fd_spec o s :
  Z.of_nat (length (io_files s)) < 2147483644 →
  ∃ i l', find_or_create_fd o s = Ret (Z.of_nat i + NORMAL_FILENO_BASE, set_io_files l' s) ∧
    (i < length l')%nat ∧ (length l' ≤ S (length (io_files s)))%nat ∧ l' !! i = Some (Some o) ∧
    default None (io_files s !! i) = None ∧ (∀ k, (k < i)%nat → ∃ o', io_files s !! k = Some (Some o')) ∧
    ∀ k, k ≠ i → l' !! k = io_files s !! k.
Proof.
  intros Hlen. unfold find_or_create_fd. destruct (list_find (λ f, f = None) (io_files s)) as [[i x]|] eqn:E.
  - assert (x = None) as -> by (by apply list_find_Some in E as (_ & ? & _)).
    apply list_find_None_spec in E as [Hi Hlt]. pose proof (lookup_lt_Some _ _ _ Hi).
    unfold file_idx_to_fd. unfold NORMAL_FILENO_BASE, STDERR_FILENO in *. rewrite i32_ok by lia. simpl. rewrite i32_ok by lia. simpl.
    exists i, (<[i := Some o]> (io_files s)). rewrite length_insert, Hi. split_and!; [done|done|lia| |done|done|].
    + by apply list_lookup_insert_eq.
    + intros k Hk. by apply list_lookup_insert_ne.
  - unfold file_idx_to_fd. unfold NORMAL_FILENO_BASE, STDERR_FILENO in *. rewrite i32_ok by lia. simpl. rewrite i32_ok by lia. simpl.
    exists (length (io_files s)), (io_files s ++ [Some o]). rewrite length_app. cbn [length]. split_and!; [done|lia|lia| | | |].
    + by apply list_lookup_middle.
    + by rewrite lookup_ge_None_2 by lia.
    + intros k Hk. destruct (lookup_lt_is_Some_2 _ _ Hk) as [[o'|] Ho]; [eauto|]. exfalso.
      apply (Forall_lookup_1 _ _ _ _ (proj1 (list_find_None _ _) E) Ho). done.
    + intros k Hk. destruct (decide (k < length (io_files s))%nat); [by apply lookup_app_l|].
      rewrite !lookup_ge_None_2; [done|lia|rewrite length_app; simpl; lia].
Qed.

(** The errors of [close]: an empty slot, and one behind the table. *)
Lemma close_unused p fd s :
  errno_ready p (io_env s) → table_ok s → NORMAL_FILENO_BASE ≤ fd < 2147483647 → file_for_fd fd s = Ret None →
  ∃ s', close fd s = Ret (-1, s') ∧ io_files s' = io_files s ∧ read_u32 p (io_mem s') = Ret EBADF.
Proof.
  intros He Ht Hfd Hn. unfold close, io_errno. destruct (set_errno_ready p 0 (io_env s) He) as (m1 & -> & He1 & _). simpl.
  set (e1 := set_mem m1 (io_env s)) in *.
  unfold NORMAL_FILENO_BASE, STDERR_FILENO, STDIN_FILENO, STDOUT_FILENO in *.
  destruct (Z.eqb_spec fd 0), (Z.eqb_spec fd 1), (Z.eqb_spec fd 2); try lia. simpl. destruct (Z.ltb_spec fd 0); [lia|].
  assert (∃ s', (s0 ← (e ← set_errno EBADF e1; Ret (set_io_env e (set_io_env e1 s))); Ret (-1, s0)) = Ret (-1, s') ∧
    io_files s' = io_files s ∧ read_u32 p (io_mem s') = Ret EBADF) as Hbad.
  { destruct He1 as (Hp & ? & ?). clearbody e1. unfold set_errno, errno_ptr_for_thread. rewrite Hp. simpl. unfold write_u32, read_u32.
    destruct (write_read_spec 4 p EBADF (mem e1)) as (m' & Hw & Hrd & _); [lia..|]. rewrite Hw. simpl.
    eexists. split_and!; [done|done|]. unfold io_mem. simpl. exact Hrd. }
  unfold file_for_fd in Hn. change (file_slot fd (set_io_env e1 s)) with (file_slot fd s).
  destruct (file_slot fd s) as [[[o|]|]|]; simpl in *; simplify_eq; exact Hbad.
Qed.

Lemma close_open p fd s o :
  errno_ready p (io_env s) → table_ok s → file_for_fd fd s = Ret (Some o) →
  ∃ s', close fd s = Ret (0, s') ∧ io_files s' = <[Z.to_nat (fd - NORMAL_FILENO_BASE) := None]> (io_files s) ∧
    errno_ready p (io_env s').
Proof.
  intros He Ht Ho. unfold close, io_errno. destruct (set_errno_ready p 0 (io_env s) He) as (m1 & -> & He1 & _). simpl.
  set (e1 := set_mem m1 (io_env s)) in *.
  pose proof (proj1 (file_for_fd_eq fd s o Ht) Ho) as [Hr _]. unfold NORMAL_FILENO_BASE, STDERR_FILENO, STDIN_FILENO, STDOUT_FILENO in Hr.
  unfold STDERR_FILENO, STDIN_FILENO, STDOUT_FILENO.
  destruct (Z.eqb_spec fd 0), (Z.eqb_spec fd 1), (Z.eqb_spec fd 2); try lia. simpl. destruct (Z.ltb_spec fd 0); [lia|].
  change (file_slot fd (set_io_env e1 s)) with (file_slot fd s). unfold file_for_fd in Ho.
  destruct (file_slot fd s) as [[[o'|]|]|]; simpl in *; simplify_eq. unfold GuestFile_sync_all.
  destruct (pf_file o); simpl; try (destruct (needs_flush o)); simpl; eexists; (split_and!; [done|done|done]).
Qed.

(** A new descriptor is the lowest one that is not in use, it stands for the
    opened file, and no other descriptor changes.  Closing it succeeds whatever kind of
    file it is and leaves the table as it was; closing it once more fails with
    [EBADF]. *)
Theorem descriptor_lifecycle p o s :
  errno_ready p (io_env s) → Z.of_nat (length (io_files s)) < 2147483644 →
  ∃ fd s1, find_or_create_fd o s = Ret (fd, s1) ∧ file_for_fd fd s1 = Ret (Some o) ∧ file_for_fd fd s = Ret None ∧
    (∀ k, NORMAL_FILENO_BASE ≤ k < fd → ∃ o', file_for_fd k s = Ret (Some o')) ∧
    (∀ k, NORMAL_FILENO_BASE ≤ k < 2147483647 → k ≠ fd → file_for_fd k s1 = file_for_fd k s) ∧
    ∃ s2, close fd s1 = Ret (0, s2) ∧
      (∀ k, NORMAL_FILENO_BASE ≤ k < 2147483647 → file_for_fd k s2 = file_for_fd k s) ∧
      ∃ s3, close fd s2 = Ret (-1, s3) ∧ read_u32 p (io_mem s3) = Ret EBADF.
Proof.
  intros He Hlen. destruct (find_or_create_fd_spec o s Hlen) as (i & l' & E & Hi & Hl' & Hnew & Hfree & Hlow & Hother).
  set (fd := Z.of_nat i + NORMAL_FILENO_BASE) in *. set (s1 := set_io_files l' s) in *.
  assert (table_ok s ∧ table_ok s1) as [Ht Ht1] by (unfold table_ok; simpl; lia).
  assert (∀ k, NORMAL_FILENO_BASE ≤ k < 2147483647 → 0 ≤ k - NORMAL_FILENO_BASE < 2147483648) as Hk
    by (unfold NORMAL_FILENO_BASE, STDERR_FILENO; lia).
  assert (NORMAL_FILENO_BASE ≤ fd < 2147483647 ∧ Z.to_nat (fd - NORMAL_FILENO_BASE) = i) as [Hfd Hidx]
    by (subst fd; unfold NORMAL_FILENO_BASE, STDERR_FILENO; lia).
  assert (file_for_fd fd s1 = Ret (Some o)) as Ho.
  { rewrite file_for_fd_table by auto. rewrite Hidx. simpl. by rewrite Hnew. }
  assert (file_for_fd fd s = Ret None) as Hn.
  { rewrite file_for_fd_table by auto. rewrite Hidx. by destruct (io_files s !! i) as [[]|]. }
  assert (∀ k, NORMAL_FILENO_BASE ≤ k < 2147483647 → k ≠ fd → file_for_fd k s1 = file_for_fd k s) as Hne.
  { intros k Hr Hne. rewrite !file_for_fd_table by auto. simpl. by rewrite Hother by lia. }
  exists fd, s1. split_and!; [done|done|done| |done|].
  { intros k Hr. destruct (Hlow (Z.to_nat (k - NORMAL_FILENO_BASE))) as [o' Ho']; [lia|]. exists o'.
    rewrite file_for_fd_table by (try done; apply Hk; lia). by rewrite Ho'. }
  destruct (close_open p fd s1 o) as (s2 & E2 & Hf2 & He2); [done..|]. exists s2. split; [done|].
  assert (table_ok s2) as Ht2 by (unfold table_ok in *; rewrite Hf2, length_insert; done).
  assert (∀ k, NORMAL_FILENO_BASE ≤ k < 2147483647 → file_for_fd k s2 = file_for_fd k s) as Hs2.
  { intros k Hr. destruct (decide (k = fd)) as [->|Hkne].
    - rewrite Hn, file_for_fd_table, Hf2, list_lookup_insert_eq by (auto; simpl; lia). done.
    - rewrite <- (Hne k) by done. rewrite !file_for_fd_table, Hf2, list_lookup_insert_ne by (auto; lia). done. }
  split; [done|]. destruct (close_unused p fd s2) as (s3 & E3 & _ & Hr3); [done..|by rewrite Hs2|]. eauto.
Qed.

Lemma descriptor_lifecycle_witness :
  let o := mkPosixFile GDirectory 0 false false 0 in
  ∃ fd s1, find_or_create_fd o (demo_io demo_bytes) = Ret (fd, s1) ∧ file_for_fd fd s1 = Ret (Some o) ∧
    file_for_fd fd (demo_io demo_bytes) = Ret None.
Proof.
  intros o. destruct (descriptor_lifecycle 4096 o (demo_io demo_bytes)) as (fd & s1 & E & H1 & H2 & _).
  - vm_compute. by split_and!.
  - vm_compute. reflexivity.
  - exists fd, s1. by split_and!.
Defined.
