(* ===== verification/Socket.v ===== *)
(** * Sockets ([libc/sys/socket.rs])

    The socket table and the calls on it, over the descriptor table ([PosixIo]) and the host's
    network.  What the host's sockets do is an interface, [Network]: non-blocking TCP
    listeners, TCP streams and UDP sockets, known by handles. *)

From S2P Require Import Prelude ChunkMap SizeBucketed VMAllocator HeapAllocator GuestMem Env Scheduler Pthread Semaphore Fs PosixIo.

Definition EPROTONOSUPPORT : Z := 43.
Definition ECONNRESET : Z := 54.

Definition AF_INET : Z := 2.
Definition SOCK_STREAM : Z := 1.
Definition SOCK_DGRAM : Z := 2.
Definition SOL_SOCKET : Z := 0xffff.
Definition SO_DEBUG : Z := 0x1.
Definition SO_REUSEADDR : Z := 0x4.
Definition SO_BROADCAST : Z := 0x20.
Definition SO_ERROR : Z := 0x1007.
Definition IPPROTO_TCP : Z := 6.
Definition IPPROTO_UDP : Z := 17.
Definition FD_SETSIZE : Z := 1024.
Definition SHUT_RDWR : Z := 2.

(** ** Addresses *)

(** [SocketAddr]: four octets and a port, or an IPv6 address. *)
Inductive SocketAddr := V4 (octets : list Z) (port : Z) | V6.
Record sockaddr := mkSockaddr { sa_len : Z; sa_family : Z; sa_data : list Z }.
Definition SIZEOF_SOCKADDR : Z := 16.

Definition from_ipv4_parts (octets : list Z) (port : Z) : sockaddr :=
  mkSockaddr 16 AF_INET ([port / 256; port mod 256] ++ octets ++ replicate 8 0).
Definition to_ipv4_parts (a : sockaddr) : outcome (list Z * Z) :=
  rassert ((sa_len a =? 16) || (sa_len a =? 0));;
  rassert (sa_family a =? AF_INET);;
  match sa_data a with
  | p0 :: p1 :: i0 :: i1 :: i2 :: i3 :: _ => Ret ([i0; i1; i2; i3], p0 * 256 + p1)
  | _ => Panic
  end.
Definition from_sockaddr_v4 (addr : SocketAddr) : outcome sockaddr :=
  match addr with V4 octets port => Ret (from_ipv4_parts octets port) | V6 => Panic end.
Definition to_sockaddr_v4 (a : sockaddr) : outcome SocketAddr := '(ip, port) ← to_ipv4_parts a; Ret (V4 ip port).

(** The structure in guest memory. *)
Definition sockaddr_bytes (a : sockaddr) : list Z := sa_len a :: sa_family a :: sa_data a.
Definition sockaddr_of (l : list Z) : outcome sockaddr :=
  match l with len :: family :: data => Ret (mkSockaddr len family data) | _ => Panic end.
Definition read_sockaddr (p : Z) (m : Mem) : outcome sockaddr := l ← mem_read SIZEOF_SOCKADDR p m; sockaddr_of l.
Definition write_sockaddr (p : Z) (a : sockaddr) (m : Mem) : outcome Mem := mem_write SIZEOF_SOCKADDR p (sockaddr_bytes a) m.

Definition is_broadcast (a : SocketAddr) : bool := match a with V4 [255; 255; 255; 255] _ => true | _ => false end.
Definition is_unspecified (a : SocketAddr) : bool := match a with V4 [0; 0; 0; 0] _ => true | _ => false end.

(** ** The host's network *)

Inductive NetError := WouldBlock | ConnectionReset | WSAEMSGSIZE | NetOther.
Class Network (N : Type) := {
  (** [TcpListener::bind], [UdpSocket::bind], [TcpStream::connect], [accept]: new handles *)
  tcp_bind : SocketAddr → N → result Z NetError * N;
  udp_bind : SocketAddr → N → result Z NetError * N;
  tcp_connect : SocketAddr → N → result Z NetError * N;
  tcp_accept : Z → N → result (Z * SocketAddr) NetError * N;
  (** [peek] of one byte: how many there were *)
  tcp_peek : Z → N → result Z NetError * N;
  udp_peek : Z → N → result Z NetError * N;
  tcp_read : Z → Z → N → result (list Z) NetError * N;
  tcp_write : Z → list Z → N → result Z NetError * N;
  udp_recv_from : Z → Z → N → result (list Z * SocketAddr) NetError * N;
  udp_send_to : Z → list Z → SocketAddr → N → result Z NetError * N;
  set_broadcast : Z → N → result () NetError * N;
  broadcast : Z → N → result bool NetError;
  local_addr : Z → N → result SocketAddr NetError;
  peer_addr : Z → N → result SocketAddr NetError;
  take_error : Z → N → result (option NetError) NetError * N;
  (** dropping a handle closes it *)
  net_drop : Z → N → N
}.

(** [result.unwrap()]. *)
Definition unwrap_ok {A E} (r : result A E) : outcome A := match r with Ok a => Ret a | Err _ => Panic end.

(** ** State *)

Record SocketHostObject := mkSocket {
  so_type : Z;
  so_options : gset Z;
  tcp_listener : option Z;
  pending_tcp_stream : option Z;
  tcp_stream : option Z;
  udp_socket : option Z }.
Definition new_socket (type_ : Z) (stream : option Z) : SocketHostObject := mkSocket type_ ∅ None None stream None.
Definition set_options (x : gset Z) (o : SocketHostObject) : SocketHostObject :=
  mkSocket (so_type o) x (tcp_listener o) (pending_tcp_stream o) (tcp_stream o) (udp_socket o).
Definition set_listener (x : option Z) (o : SocketHostObject) : SocketHostObject :=
  mkSocket (so_type o) (so_options o) x (pending_tcp_stream o) (tcp_stream o) (udp_socket o).
Definition set_pending (x : option Z) (o : SocketHostObject) : SocketHostObject :=
  mkSocket (so_type o) (so_options o) (tcp_listener o) x (tcp_stream o) (udp_socket o).
Definition set_stream (x : option Z) (o : SocketHostObject) : SocketHostObject :=
  mkSocket (so_type o) (so_options o) (tcp_listener o) (pending_tcp_stream o) x (udp_socket o).
Definition set_udp (x : option Z) (o : SocketHostObject) : SocketHostObject :=
  mkSocket (so_type o) (so_options o) (tcp_listener o) (pending_tcp_stream o) (tcp_stream o) x.
(** The handles a socket owns. *)
Definition socket_handles (o : SocketHostObject) : list Z :=
  option_list (tcp_listener o) ++ option_list (pending_tcp_stream o) ++ option_list (tcp_stream o) ++ option_list (udp_socket o).

Section sockets.
Context {N : Type} `{!Network N}.

(** The descriptor table knows which descriptors are sockets ([io_sockets]); here is what they are. *)
Record SockState := mkSock { sk_io : IoState; sockets : gmap Z SocketHostObject; sk_net : N; network_access : bool }.
Definition set_sk_io (x : IoState) (s : SockState) : SockState := mkSock x (sockets s) (sk_net s) (network_access s).
Definition set_sockets (x : gmap Z SocketHostObject) (s : SockState) : SockState := mkSock (sk_io s) x (sk_net s) (network_access s).
Definition set_sk_net (x : N) (s : SockState) : SockState := mkSock (sk_io s) (sockets s) x (network_access s).
Definition sk_mem (s : SockState) : Mem := io_mem (sk_io s).
Definition set_sk_mem (m : Mem) (s : SockState) : SockState := set_sk_io (set_io_mem m (sk_io s)) s.
Definition put_socket (fd : Z) (o : SocketHostObject) (s : SockState) : SockState := set_sockets (<[fd := o]> (sockets s)) s.
Definition sk_errno (v : Z) (s : SockState) : outcome SockState := io ← io_errno v (sk_io s); Ret (set_sk_io io s).

(** [State::get_mut(env).sockets.insert(fd, host_object)], after the assertion that the key is new. *)
Definition insert_socket (fd : Z) (o : SocketHostObject) (s : SockState) : outcome SockState :=
  rassert (bool_decide (sockets s !! fd = None));;
  let io := sk_io s in
  let io := mkIo (io_env io) (io_fs io) (io_host io) (io_files io) ({[fd]} ∪ io_sockets io) (io_stdout io) (io_stderr io) in
  Ret (put_socket fd o (set_sk_io io s)).

(** The body of a call on a socket that is there; otherwise [EBADF]. *)
Definition on_socket (fd : Z) (k : SocketHostObject → SockState → outcome (Z * SockState)) (s : SockState) : outcome (Z * SockState) :=
  s ← sk_errno 0 s;
  match sockets s !! fd with
  | None => s ← sk_errno EBADF s; Ret (-1, s)
  | Some o => k o s
  end.

(** ** Opening and options *)

Definition socket (domain type_ protocol : Z) (s : SockState) : outcome (Z * SockState) :=
  s ← sk_errno 0 s;
  if negb (network_access s) then s ← sk_errno EPROTONOSUPPORT s; Ret (-1, s)
  else
    rassert (domain =? AF_INET);;
    rassert ((type_ =? SOCK_STREAM) || (type_ =? SOCK_DGRAM));;
    rassert ((protocol =? IPPROTO_TCP) || (protocol =? IPPROTO_UDP) || (protocol =? 0));;
    '(fd, io) ← find_or_create_socket (sk_io s);
    s ← insert_socket fd (new_socket type_ None) (set_sk_io io s);
    Ret (fd, s).

Definition ioctl (fd request : Z) (s : SockState) : outcome (Z * SockState) :=
  b ← is_socket fd (sk_io s); rassert b;; Ret (-1, s).

Definition getsockopt (socket level option_name option_value option_len : Z) (s : SockState) : outcome (Z * SockState) :=
  s ← sk_errno 0 s;
  rassert (level =? SOL_SOCKET);;
  rassert (option_name =? SO_ERROR);;
  option_len_val ← read_u32 option_len (sk_mem s);
  rassert (option_len_val =? 4);;
  m ← write_u32 option_value 0 (sk_mem s);
  Ret (0, set_sk_mem m s).

Definition setsockopt (socket level option_name option_value option_len : Z) (s : SockState) : outcome (Z * SockState) :=
  s ← sk_errno 0 s;
  if option_name =? SO_DEBUG then s ← sk_errno EINVAL s; Ret (-1, s)
  else
    match sockets s !! socket with
    | None => s ← sk_errno EBADF s; Ret (-1, s)
    | Some o =>
        rassert ((so_type o =? SOCK_STREAM) || (so_type o =? SOCK_DGRAM));;
        rassert (level =? SOL_SOCKET);;
        rassert ((option_name =? SO_REUSEADDR) || (option_name =? SO_BROADCAST));;
        rassert (option_len =? 4);;
        v ← read_u32 option_value (sk_mem s);
        rassert (v =? 1);;
        Ret (0, put_socket socket (set_options ({[option_name]} ∪ so_options o) o) s)
    end.

(** Write an address and its length for the guest; the length must be right before. *)
Definition write_peer (address address_len : Z) (addr : SocketAddr) (s : SockState) : outcome SockState :=
  guest_addr ← from_sockaddr_v4 addr;
  m ← write_sockaddr address guest_addr (sk_mem s);
  len ← read_u32 address_len m;
  rassert (len =? SIZEOF_SOCKADDR);;
  m ← write_u32 address_len SIZEOF_SOCKADDR m;
  Ret (set_sk_mem m s).

Definition getsockname (socket address address_len : Z) (s : SockState) : outcome (Z * SockState) :=
  on_socket socket (λ o s,
    rassert ((so_type o =? SOCK_STREAM) || (so_type o =? SOCK_DGRAM));;
    rassert (bool_decide (tcp_listener o = None));;
    rassert (bool_decide (pending_tcp_stream o = None));;
    if so_type o =? SOCK_DGRAM then
      h ← unwrap (udp_socket o);
      addr ← unwrap_ok (local_addr h (sk_net s));
      guest_addr ← from_sockaddr_v4 addr;
      len ← read_u32 address_len (sk_mem s);
      rassert (len =? SIZEOF_SOCKADDR);;
      m ← write_sockaddr address guest_addr (sk_mem s);
      Ret (0, set_sk_mem m s)
    else Panic) s.

(** [set_nonblocking] of a new socket cannot fail. *)
Definition set_options_of (h : Z) (options : gset Z) (n : N) : outcome N :=
  if decide (SO_BROADCAST ∈ options) then let '(r, n) := set_broadcast h n in _ ← unwrap_ok r; Ret n else Ret n.

Definition bind (socket address address_len : Z) (s : SockState) : outcome (Z * SockState) :=
  on_socket socket (λ o s,
    rassert ((so_type o =? SOCK_STREAM) || (so_type o =? SOCK_DGRAM));;
    rassert (address_len =? SIZEOF_SOCKADDR);;
    sockaddr_val ← read_sockaddr address (sk_mem s);
    socket_address ← to_sockaddr_v4 sockaddr_val;
    if so_type o =? SOCK_STREAM then
      rassert (bool_decide (tcp_listener o = None));;
      let '(r, n) := tcp_bind socket_address (sk_net s) in
      h ← unwrap_ok r;
      Ret (0, put_socket socket (set_listener (Some h) o) (set_sk_net n s))
    else
      rassert (bool_decide (udp_socket o = None));;
      let '(r, n) := udp_bind socket_address (sk_net s) in
      h ← unwrap_ok r;
      n ← set_options_of h (so_options o) n;
      Ret (0, put_socket socket (set_udp (Some h) o) (set_sk_net n s))) s.

Definition listen (socket backlog : Z) (s : SockState) : outcome (Z * SockState) :=
  on_socket socket (λ o s, rassert (so_type o =? SOCK_STREAM);; Ret (0, s)) s.

Definition connect (socket address address_len : Z) (s : SockState) : outcome (Z * SockState) :=
  on_socket socket (λ o s,
    rassert (so_type o =? SOCK_STREAM);;
    rassert (address_len =? SIZEOF_SOCKADDR);;
    sockaddr_val ← read_sockaddr address (sk_mem s);
    socket_address ← to_sockaddr_v4 sockaddr_val;
    rassert (bool_decide (tcp_stream o = None));;
    let '(r, n) := tcp_connect socket_address (sk_net s) in
    h ← unwrap_ok r;
    Ret (0, put_socket socket (set_stream (Some h) o) (set_sk_net n s))) s.

(** ** [select] *)

(** [process_set]: a set is its 32 words; [process_bit] answers whether a descriptor is ready.  Its callers clear the
    bit before they ask and set it again when it is. *)
Definition bit (bit_index : Z) : Z := Z.shiftl 1 bit_index.
Definition FdCheck := Z → SockState → outcome (bool * SockState).

(** The bits of one word, from [bit_index] on; [None]: beyond [n_fds], so that the loop ends. *)
Fixpoint process_bits (process_bit : FdCheck) (n_fds i : Z) (indices : list Z) (bits count : Z) (s : SockState)
    : outcome (bool * Z * Z * SockState) :=
  match indices with
  | [] => Ret (false, bits, count, s)
  | bit_index :: indices =>
      let fd := i * 32 + bit_index in
      if n_fds <? fd then Ret (true, bits, count, s)
      else if negb (Z.land bits (bit bit_index) =? 0) then
        '(ready, s) ← process_bit fd s;
        let bits := Z.ldiff bits (bit bit_index) in
        if ready : bool then process_bits process_bit n_fds i indices (Z.lor bits (bit bit_index)) (count + 1) s
        else process_bits process_bit n_fds i indices bits count s
      else process_bits process_bit n_fds i indices bits count s
  end.
Fixpoint process_words (process_bit : FdCheck) (n_fds i : Z) (words : list Z) (count : Z) (s : SockState)
    : outcome (list Z * Z * SockState) :=
  match words with
  | [] => Ret ([], count, s)
  | bits :: words =>
      '(stop, bits, count, s) ← process_bits process_bit n_fds i (seqZ 0 32) bits count s;
      if stop : bool then Ret (bits :: words, count, s)
      else '(words, count, s) ← process_words process_bit n_fds (i + 1) words count s; Ret (bits :: words, count, s)
  end.
Definition process_set (process_bit : FdCheck) (n_fds : Z) (set : list Z) (s : SockState) : outcome (list Z * Z * SockState) :=
  process_words process_bit n_fds 0 set 0 s.

(** The words of a set in guest memory. *)
Definition read_fd_set (p : Z) (m : Mem) : outcome (list Z) :=
  l ← mem_read 128 p m; Ret ((λ k, from_le_bytes (take 4 (drop (4 * k) l))) <$> seq 0 32).
Definition write_fd_set (p : Z) (set : list Z) (m : Mem) : outcome Mem := mem_write 128 p (set ≫= le_bytes 4) m.

(** The socket of a descriptor that is in a set. *)
Definition selected_socket (fd : Z) (s : SockState) : outcome SocketHostObject :=
  b ← is_socket fd (sk_io s); rassert b;; unwrap (sockets s !! fd).

Definition peek_result (should_block reset_ok : bool) (r : result Z NetError) : outcome bool :=
  match r with
  | Ok _ => Ret true
  | Err WSAEMSGSIZE => Ret true
  | Err WouldBlock => rassert (negb should_block);; Ret false
  | Err ConnectionReset => if reset_ok then Ret true else Panic
  | Err NetOther => Panic
  end.
Definition check_read (should_block : bool) : FdCheck := λ fd s,
  o ← selected_socket fd s;
  if so_type o =? SOCK_DGRAM then
    h ← unwrap (udp_socket o);
    let '(r, n) := udp_peek h (sk_net s) in
    ready ← peek_result should_block false r;
    Ret (ready, set_sk_net n s)
  else if so_type o =? SOCK_STREAM then
    match tcp_stream o with
    | None =>
        listener ← unwrap (tcp_listener o);
        let '(r, n) := tcp_accept listener (sk_net s) in
        match r with
        | Ok (stream, addr) =>
            rassert (bool_decide (pending_tcp_stream o = None));;
            Ret (true, put_socket fd (set_pending (Some stream) o) (set_sk_net n s))
        | Err WouldBlock => rassert (negb should_block);; Ret (false, set_sk_net n s)
        | Err _ => Panic
        end
    | Some h =>
        let '(r, n) := tcp_peek h (sk_net s) in
        ready ← peek_result should_block true r;
        Ret (ready, set_sk_net n s)
    end
  else Panic.
Definition check_write (should_block : bool) : FdCheck := λ fd s,
  o ← selected_socket fd s;
  if so_type o =? SOCK_STREAM then
    rassert (bool_decide (tcp_listener o = None));;
    if decide (tcp_stream o = None) then rassert (negb should_block);; Ret (false, s) else Ret (true, s)
  else if so_type o =? SOCK_DGRAM then
    if decide (udp_socket o = None) then rassert (negb should_block);; Ret (false, s) else Ret (true, s)
  else Panic.
Definition check_error : FdCheck := λ fd s,
  o ← selected_socket fd s;
  if so_type o =? SOCK_STREAM then
    rassert (bool_decide (tcp_listener o = None));;
    h ← unwrap (tcp_stream o);
    let '(r, n) := take_error h (sk_net s) in
    match r with Ok None => Ret (false, set_sk_net n s) | _ => Panic end
  else Panic.

(** One of the three sets, if it is given. *)
Definition select_set (fds n_fds : Z) (check : FdCheck) (s : SockState) : outcome (Z * SockState) :=
  if fds =? 0 then Ret (0, s)
  else
    set ← read_fd_set fds (sk_mem s);
    '(set, count, s) ← process_set check n_fds set s;
    m ← write_fd_set fds set (sk_mem s);
    Ret (count, set_sk_mem m s).

(** [select] answers, or sleeps for so many nanoseconds and answers 0 then. *)
Inductive SelectResult := Selected (count : Z) | Sleeps (duration : Z).
Definition select (n_fds read_fds write_fds error_fds timeout : Z) (s : SockState) : outcome (SelectResult * SockState) :=
  s ← sk_errno 0 s;
  if negb ((0 <=? n_fds) && (n_fds <=? FD_SETSIZE)) then s ← sk_errno EINVAL s; Ret (Selected (-1), s)
  else if n_fds =? 0 then
    rassert ((read_fds =? 0) && (write_fds =? 0) && (error_fds =? 0));;
    tv_sec ← read_u32 timeout (sk_mem s);
    p ← ptr_add 1 timeout 4;
    tv_usec ← read_u32 p (sk_mem s);
    rassert ((0 <=? to_i32 tv_sec) && (0 <=? to_i32 tv_usec));;
    Ret (Sleeps (tv_sec * 1000000000 + tv_usec * 1000), s)
  else
    should_block ←
      (if timeout =? 0 then Ret true
       else
         tv_sec ← read_u32 timeout (sk_mem s);
         p ← ptr_add 1 timeout 4;
         tv_usec ← read_u32 p (sk_mem s);
         Ret (negb ((tv_sec =? 0) && (tv_usec =? 0))));
    '(c1, s) ← select_set read_fds n_fds (check_read should_block) s;
    '(c2, s) ← select_set write_fds n_fds (check_write should_block) s;
    '(c3, s) ← select_set error_fds n_fds check_error s;
    Ret (Selected (c1 + c2 + c3), s).

(** ** Connections and data *)

Definition accept (socket address address_len : Z) (s : SockState) : outcome (Z * SockState) :=
  on_socket socket (λ o s,
    rassert (so_type o =? SOCK_STREAM);;
    match pending_tcp_stream o with
    | Some stream =>
        let s := put_socket socket (set_pending None o) s in
        addr ← unwrap_ok (peer_addr stream (sk_net s));
        '(new_fd, io) ← find_or_create_socket (sk_io s);
        s ← insert_socket new_fd (new_socket SOCK_STREAM (Some stream)) (set_sk_io io s);
        rassert (negb (address =? 0));;
        s ← write_peer address address_len addr s;
        Ret (new_fd, s)
    | None => Panic
    end) s.

Definition recvfrom (socket buffer length_ flags address address_len : Z) (s : SockState) : outcome (Z * SockState) :=
  on_socket socket (λ o s,
    rassert ((so_type o =? SOCK_STREAM) || (so_type o =? SOCK_DGRAM));;
    rassert (flags =? 0);;
    if so_type o =? SOCK_DGRAM then
      h ← unwrap (udp_socket o);
      _ ← bytes_at buffer length_ (sk_mem s);
      let '(r, n) := udp_recv_from h length_ (sk_net s) in
      '(data, addr) ← unwrap_ok r;
      m ← bytes_at_mut_copy buffer (Z.of_nat (length data)) data (sk_mem s);
      let s := set_sk_mem m (set_sk_net n s) in
      s ← (if address =? 0 then Ret s else write_peer address address_len addr s);
      k ← i32 (Z.of_nat (length data)); Ret (k, s)
    else
      rassert ((address =? 0) && (address_len =? 0));;
      h ← unwrap (tcp_stream o);
      _ ← bytes_at buffer length_ (sk_mem s);
      let '(r, n) := tcp_read h length_ (sk_net s) in
      let s := set_sk_net n s in
      match r with
      | Ok data =>
          m ← bytes_at_mut_copy buffer (Z.of_nat (length data)) data (sk_mem s);
          k ← i32 (Z.of_nat (length data)); Ret (k, set_sk_mem m s)
      | Err ConnectionReset => s ← sk_errno ECONNRESET s; Ret (-1, s)
      | Err _ => Panic
      end) s.
Definition recv (socket buffer length_ flags : Z) : SockState → outcome (Z * SockState) := recvfrom socket buffer length_ flags 0 0.

Definition send (socket buffer length_ flags : Z) (s : SockState) : outcome (Z * SockState) :=
  s ← sk_errno 0 s;
  o ← unwrap (sockets s !! socket);
  rassert (so_type o =? SOCK_STREAM);;
  rassert (flags =? 0);;
  h ← unwrap (tcp_stream o);
  buf ← bytes_at buffer length_ (sk_mem s);
  let '(r, n) := tcp_write h buf (sk_net s) in
  written ← unwrap_ok r;
  k ← i32 written; Ret (k, set_sk_net n s).

(** The host socket for a broadcast, made when it is first needed. *)
Definition lazy_broadcast_socket (fd : Z) (o : SocketHostObject) (socket_address : SocketAddr) (s : SockState) : outcome (Z * SockState) :=
  match udp_socket o with
  | Some h => Ret (h, s)
  | None =>
      rassert (is_broadcast socket_address);;
      let '(r, n) := udp_bind (V4 [0; 0; 0; 0] 0) (sk_net s) in
      h ← unwrap_ok r;
      addr ← unwrap_ok (local_addr h n);
      rassert (is_unspecified addr);;
      n ← set_options_of h (so_options o) n;
      b ← unwrap_ok (broadcast h n);
      rassert b;;
      Ret (h, put_socket fd (set_udp (Some h) o) (set_sk_net n s))
  end.
Definition sendto (socket buffer length_ flags dest_address dest_address_len : Z) (s : SockState) : outcome (Z * SockState) :=
  s ← sk_errno 0 s;
  o ← unwrap (sockets s !! socket);
  rassert (so_type o =? SOCK_DGRAM);;
  rassert (flags =? 0);;
  rassert (dest_address_len =? SIZEOF_SOCKADDR);;
  sockaddr_val ← read_sockaddr dest_address (sk_mem s);
  socket_address ← to_sockaddr_v4 sockaddr_val;
  '(h, s) ← lazy_broadcast_socket socket o socket_address s;
  (if is_broadcast socket_address then
     addr ← unwrap_ok (local_addr h (sk_net s)); rassert (is_unspecified addr)
   else Ret ());;
  buf ← bytes_at buffer length_ (sk_mem s);
  let '(r, n) := udp_send_to h buf socket_address (sk_net s) in
  written ← unwrap_ok r;
  k ← i32 written; Ret (k, set_sk_net n s).

(** [close] of [posix_io.rs], with what [close_socket] removes from the table: its host sockets are closed. *)
Definition close_fd (fd : Z) (s : SockState) : outcome (Z * SockState) :=
  '(r, io) ← close fd (sk_io s);
  let s := set_sk_io io s in
  if decide (fd ∈ io_sockets io) then Ret (r, s)
  else
    match sockets s !! fd with
    | Some o => Ret (r, set_sockets (delete fd (sockets s)) (set_sk_net (foldr net_drop (sk_net s) (socket_handles o)) s))
    | None => Ret (r, s)
    end.
Definition shutdown (socket how : Z) (s : SockState) : outcome (Z * SockState) :=
  rassert (how =? SHUT_RDWR);; close_fd socket s.
End sockets.
