(* ===== verification/SocketFacts.v ===== *)
(** * What the sockets keep

    The three tables agree: the sockets of [socket.rs], the descriptors of [posix_io.rs] that
    are sockets, and the host's open sockets, each of which belongs to one place of one
    socket.  [select] asks the descriptors of a set in their order and answers which are
    ready. *)

From S2P Require Import Prelude ChunkMap SizeBucketed VMAllocator HeapAllocator GuestMem Env Scheduler Pthread Semaphore Fs PosixIo PosixIoFacts Qsort Socket.

Lemma unwrap_ok_inv {A E} (r : result A E) a : unwrap_ok r = Ret a → r = Ok a.
Proof. destruct r; simpl; congruence. Qed.
Lemma unwrap_inv {A} (o : option A) a : unwrap o = Ret a → o = Some a.
Proof. destruct o; simpl; congruence. Qed.

(** Take a returned run apart, every step and every case of it. *)
Ltac run_inv H :=
  repeat (progress (cbv beta iota zeta in H) ||
    lazymatch type of H with
    | Ret _ = Ret _ => injection H; intros; subst
    | Panic = Ret _ => discriminate H
    | (Ret _, _) = _ => fail
    | Ret _ ≫= _ = Ret _ => rewrite ret_bind in H
    | unwrap _ ≫= _ = Ret _ =>
        let a := fresh "a" in let E := fresh "Hu" in apply bind_ret_inv in H as (a & E & H); apply unwrap_inv in E
    | unwrap_ok _ ≫= _ = Ret _ =>
        let a := fresh "a" in let E := fresh "Hu" in apply bind_ret_inv in H as (a & E & H); apply unwrap_ok_inv in E; subst
    | rassert _ ≫= _ = Ret _ =>
        let a := fresh "a" in let E := fresh "Ha" in apply bind_ret_inv in H as (a & E & H); apply rassert_inv in E
    | _ ≫= _ = Ret _ => bind_inv H
    | (if ?b then _ else _) = Ret _ => let E := fresh "Hc" in destruct b eqn:E
    | match ?x with _ => _ end = Ret _ => let E := fresh "Hm" in destruct x eqn:E
    end).

(** ** What the code relies on of the host *)

(** [live n]: the host's sockets that are open. *)
Class NetworkLaws (N : Type) `{!Network N} := {
  live : N → gset Z;
  tcp_bind_fresh a n h n' : tcp_bind a n = (Ok h, n') → h ∉ live n ∧ live n' = {[h]} ∪ live n;
  udp_bind_fresh a n h n' : udp_bind a n = (Ok h, n') → h ∉ live n ∧ live n' = {[h]} ∪ live n;
  tcp_connect_fresh a n h n' : tcp_connect a n = (Ok h, n') → h ∉ live n ∧ live n' = {[h]} ∪ live n;
  tcp_accept_fresh l n h a n' : tcp_accept l n = (Ok (h, a), n') → h ∉ live n ∧ live n' = {[h]} ∪ live n;
  tcp_accept_err l n e n' : tcp_accept l n = (Err e, n') → live n' = live n;
  tcp_peek_live h n : live (tcp_peek h n).2 = live n;
  udp_peek_live h n : live (udp_peek h n).2 = live n;
  tcp_read_live h k n : live (tcp_read h k n).2 = live n;
  tcp_write_live h l n : live (tcp_write h l n).2 = live n;
  udp_recv_from_live h k n : live (udp_recv_from h k n).2 = live n;
  udp_send_to_live h l a n : live (udp_send_to h l a n).2 = live n;
  set_broadcast_live h n : live (set_broadcast h n).2 = live n;
  take_error_live h n : live (take_error h n).2 = live n;
  net_drop_live h n : live (net_drop h n) = live n ∖ {[h]}
}.

(** ** Ownership of the host's sockets *)

(** The handles all sockets own, each as often as it is owned. *)
Definition owned (m : gmap Z SocketHostObject) : list Z := map_to_list m ≫= (socket_handles ∘ snd).

Lemma owned_insert_new m fd o : m !! fd = None → owned (<[fd := o]> m) ≡ₚ socket_handles o ++ owned m.
Proof. intros Hn. unfold owned. by rewrite map_to_list_insert by done. Qed.
Lemma owned_take m fd o : m !! fd = Some o → owned m ≡ₚ socket_handles o ++ owned (delete fd m).
Proof. intros Ho. rewrite <- (owned_insert_new _ fd o) by apply lookup_delete_eq. by rewrite insert_delete_id. Qed.
Lemma owned_put m fd o o' l :
  m !! fd = Some o → socket_handles o' ≡ₚ l ++ socket_handles o → owned (<[fd := o']> m) ≡ₚ l ++ owned m.
Proof.
  intros Ho Hl. rewrite <- insert_delete_eq, owned_insert_new by apply lookup_delete_eq.
  by rewrite Hl, (owned_take m fd o Ho), app_assoc.
Qed.
Lemma elem_of_owned m h : h ∈ owned m ↔ ∃ fd o, m !! fd = Some o ∧ h ∈ socket_handles o.
Proof.
  unfold owned. rewrite list_elem_of_bind. split.
  - intros ([fd o] & Hh & Hm%elem_of_map_to_list). eauto.
  - intros (fd & o & Hm & Hh). exists (fd, o). by rewrite elem_of_map_to_list.
Qed.

(** Every open host socket is owned, and once. *)
Definition owns (m : gmap Z SocketHostObject) (l : gset Z) : Prop := NoDup (owned m) ∧ ∀ h, h ∈ l ↔ h ∈ owned m.

Lemma owns_perm m m' l : owned m' ≡ₚ owned m → owns m l → owns m' l.
Proof. intros Hp [Hd Hl]. split; [by rewrite Hp|]. intros h. by rewrite Hp. Qed.
Lemma owns_opens m m' l h : owned m' ≡ₚ h :: owned m → h ∉ l → owns m l → owns m' ({[h]} ∪ l).
Proof.
  intros Hp Hn [Hd Hl]. split.
  - rewrite Hp. constructor; [by rewrite <- Hl|done].
  - intros k. rewrite Hp. set_solver.
Qed.
Lemma owns_closes m fd o l l' :
  m !! fd = Some o → l' = l ∖ list_to_set (socket_handles o) → owns m l → owns (delete fd m) l'.
Proof.
  intros Ho -> [Hd Hl]. setoid_rewrite (owned_take m fd o Ho) in Hl. rewrite (owned_take m fd o Ho) in Hd.
  apply NoDup_app in Hd as (_ & Hdis & Hd). split; [done|]. intros h. specialize (Hl h). specialize (Hdis h). set_solver.
Qed.

(** ** The invariant *)

(** A socket has only host sockets of its own kind, and a connection waits only at a listener. *)
Definition kind_ok (o : SocketHostObject) : Prop :=
  (so_type o = SOCK_STREAM ∧ udp_socket o = None ∧ (is_Some (pending_tcp_stream o) → is_Some (tcp_listener o))) ∨
  (so_type o = SOCK_DGRAM ∧ tcp_listener o = None ∧ pending_tcp_stream o = None ∧ tcp_stream o = None).

(** The slots of the descriptor table that are sockets. *)
Definition socket_slot (files : list (option PosixFileHostObject)) (fd : Z) : Prop :=
  ∃ i o, fd = Z.of_nat i + NORMAL_FILENO_BASE ∧ files !! i = Some (Some o) ∧ pf_file o = Socket.
Definition table_agrees (s : IoState) : Prop := ∀ fd, fd ∈ io_sockets s ↔ socket_slot (io_files s) fd.

Section facts.
Context {N : Type} `{!Network N} `{!NetworkLaws N}.
Implicit Types s : SockState (N := N).

Definition tables_ok s : Prop :=
  dom (sockets s) = io_sockets (sk_io s) ∧ table_agrees (sk_io s) ∧ map_Forall (λ _, kind_ok) (sockets s).
Definition sockets_ok s : Prop := tables_ok s ∧ owns (sockets s) (live (sk_net s)).

(** What a call that neither opens nor closes leaves as it was. *)
Definition same_tables s s' : Prop :=
  io_files (sk_io s') = io_files (sk_io s) ∧ io_sockets (sk_io s') = io_sockets (sk_io s) ∧ sockets s' = sockets s ∧
  live (sk_net s') = live (sk_net s).

#[global] Instance same_tables_preorder : PreOrder same_tables.
Proof.
  unfold same_tables. split; [by intros s|]. intros s1 s2 s3 (?&?&?&?) (?&?&?&?). split_and!; etrans; eauto.
Qed.
Lemma same_tables_ok s s' : same_tables s s' → sockets_ok s → sockets_ok s'.
Proof.
  intros (Ef & Es & Em & El) ((Hd & Ht & Hk) & Ho). unfold sockets_ok, tables_ok, table_agrees.
  rewrite Ef, Es, Em, El. done.
Qed.

(** A socket gets other contents, which own the same handles and perhaps a new one. *)
Lemma tables_ok_put fd o o' n s :
  tables_ok s → sockets s !! fd = Some o → kind_ok o' → tables_ok (put_socket fd o' (set_sk_net n s)).
Proof.
  intros (Hd & Ht & Hk) Ho Hk'. unfold tables_ok, put_socket, set_sockets, set_sk_net. simpl. split_and!.
  - rewrite dom_insert_lookup_L by eauto. done.
  - done.
  - by apply map_Forall_insert_2.
Qed.
Lemma sockets_ok_put fd o o' n s :
  sockets_ok s → sockets s !! fd = Some o → kind_ok o' → socket_handles o' ≡ₚ socket_handles o → live n = live (sk_net s) →
  sockets_ok (put_socket fd o' (set_sk_net n s)).
Proof.
  intros [Ht Hown] Ho Hk' Hp Hn. split; [by eapply tables_ok_put|]. simpl. rewrite Hn. eapply owns_perm; [|done].
  by apply (owned_put _ _ o o' []).
Qed.
Lemma sockets_ok_open fd o o' h n s :
  sockets_ok s → sockets s !! fd = Some o → kind_ok o' → socket_handles o' ≡ₚ h :: socket_handles o →
  h ∉ live (sk_net s) ∧ live n = {[h]} ∪ live (sk_net s) →
  sockets_ok (put_socket fd o' (set_sk_net n s)).
Proof.
  intros [Ht Hown] Ho Hk' Hp [Hh Hn]. split; [by eapply tables_ok_put|]. simpl. rewrite Hn. eapply owns_opens; [|done..].
  by apply (owned_put _ _ o o' [h]).
Qed.

(** ** The calls, one by one *)

Lemma io_errno_inv v io io' : io_errno v io = Ret io' → io_files io' = io_files io ∧ io_sockets io' = io_sockets io.
Proof. unfold io_errno. intros H. by run_inv H. Qed.
Lemma sk_errno_same v s s' : sk_errno v s = Ret s' → same_tables s s'.
Proof. unfold sk_errno. intros H. run_inv H. apply io_errno_inv in E as []. done. Qed.
Lemma write_peer_same a l addr s s' : write_peer a l addr s = Ret s' → same_tables s s'.
Proof. unfold write_peer. intros H. run_inv H. done. Qed.
Lemma set_options_of_live h x n n' : set_options_of h x n = Ret n' → live n' = live n.
Proof.
  unfold set_options_of. intros H. run_inv H; [|done].
  rewrite <- (set_broadcast_live h n), Hm. done.
Qed.

(** A call on a socket keeps the invariant if its body does. *)
Lemma on_socket_ok fd k s r s' :
  (∀ o s1 r s', sockets_ok s1 → sockets s1 !! fd = Some o → k o s1 = Ret (r, s') → sockets_ok s') →
  sockets_ok s → on_socket fd k s = Ret (r, s') → sockets_ok s'.
Proof.
  intros Hk Hs H. unfold on_socket in H. run_inv H.
  - eapply Hk; [|done..]. eapply same_tables_ok; [by eapply sk_errno_same|done].
  - apply sk_errno_same in E, E0. apply (same_tables_ok s); [by etrans|done].
Qed.

(** The table of descriptors: an empty slot is filled, a used one emptied. *)
Lemma find_or_create_fd_inv o io fd io' :
  find_or_create_fd o io = Ret (fd, io') →
  ∃ i l, fd = Z.of_nat i + NORMAL_FILENO_BASE ∧ io' = set_io_files l io ∧ l !! i = Some (Some o) ∧
    default None (io_files io !! i) = None ∧ ∀ k, k ≠ i → l !! k = io_files io !! k.
Proof.
  unfold find_or_create_fd. intros H.
  destruct (list_find _ _) as [[i x]|] eqn:E.
  - apply list_find_Some in E as (Hi & -> & _). unfold file_idx_to_fd in H. bind_inv H. bind_inv E.
    apply i32_inv in E0 as [-> _]. apply i32_inv in E as [-> _]. run_inv H. eexists _, _. split_and!; [done|done|..].
    + apply list_lookup_insert_eq. by eapply lookup_lt_Some.
    + by rewrite Hi.
    + intros k Hk. by apply list_lookup_insert_ne.
  - unfold file_idx_to_fd in H. bind_inv H. bind_inv E0.
    apply i32_inv in E1 as [-> _]. apply i32_inv in E0 as [-> _]. run_inv H. eexists _, _. split_and!; [done|done|..].
    + by apply list_lookup_middle.
    + by rewrite lookup_ge_None_2 by lia.
    + intros k Hk. destruct (decide (k < length (io_files io))%nat); [by apply lookup_app_l|].
      rewrite !lookup_ge_None_2; [done|lia|rewrite length_app; simpl; lia].
Qed.

(** The slots after a slot has changed. *)
Lemma socket_slot_insert l l' i x :
  l' !! i = Some x → (∀ k, k ≠ i → l' !! k = l !! k) →
  ∀ fd, fd ≠ Z.of_nat i + NORMAL_FILENO_BASE → socket_slot l' fd ↔ socket_slot l fd.
Proof.
  intros Hi Hk fd Hfd. unfold socket_slot. split; intros (k & o & -> & Ho & Hs); exists k, o; (split; [done|]); (split; [|done]);
    (destruct (decide (k = i)) as [->|Hne]; [done|]).
  - by rewrite <- Hk.
  - by rewrite Hk.
Qed.
Lemma socket_slot_at l i x :
  l !! i = Some x → socket_slot l (Z.of_nat i + NORMAL_FILENO_BASE) ↔ ∃ o, x = Some o ∧ pf_file o = Socket.
Proof.
  intros Hi. unfold socket_slot. split.
  - intros (k & o & Hk & Ho & Hs). assert (k = i) as -> by lia. rewrite Hi in Ho. simplify_eq. eauto.
  - intros (o & -> & Hs). eauto.
Qed.
Lemma socket_slot_none l i : default None (l !! i) = None → ¬ socket_slot l (Z.of_nat i + NORMAL_FILENO_BASE).
Proof. intros Hi (k & o & Hk & Ho & Hs). assert (k = i) as -> by lia. by rewrite Ho in Hi. Qed.

(** A new descriptor for a socket, and what is known of it. *)
Lemma insert_socket_ok fd io o s s' :
  tables_ok s → kind_ok o → find_or_create_socket (sk_io s) = Ret (fd, io) → insert_socket fd o (set_sk_io io s) = Ret s' →
  tables_ok s' ∧ sockets s !! fd = None ∧ sockets s' = <[fd := o]> (sockets s) ∧ sk_net s' = sk_net s.
Proof.
  intros (Hd & Ht & Hk) Hk' Hf Hi. apply find_or_create_fd_inv in Hf as (i & l & Hfd & -> & Hl & Hfree & Hother).
  unfold insert_socket in Hi. run_inv Hi. apply bool_decide_eq_true in Ha. simpl in Ha. split; [|done]. split_and!; simpl.
  - rewrite dom_insert_L, Hd. done.
  - intros k. simpl. destruct (decide (k = Z.of_nat i + NORMAL_FILENO_BASE)) as [->|Hne].
    + rewrite (socket_slot_at _ _ _ Hl). split; [eauto|set_solver].
    + rewrite (socket_slot_insert _ _ _ _ Hl Hother) by done. rewrite <- (Ht k). set_solver.
  - by apply map_Forall_insert_2.
Qed.

(** A descriptor for an opened file. *)
Lemma open_file_ok fd io o s :
  sockets_ok s → pf_file o ≠ Socket → find_or_create_fd o (sk_io s) = Ret (fd, io) → sockets_ok (set_sk_io io s).
Proof.
  intros ((Hd & Ht & Hk) & Hown) Hn Hf. apply find_or_create_fd_inv in Hf as (i & l & -> & -> & Hl & Hfree & Hother).
  split; [|done]. split_and!; [done| |done]. intros k. simpl.
  destruct (decide (k = Z.of_nat i + NORMAL_FILENO_BASE)) as [->|Hne].
  - rewrite (Ht _), (socket_slot_at _ _ _ Hl). pose proof (socket_slot_none _ _ Hfree). naive_solver.
  - rewrite (socket_slot_insert _ _ _ _ Hl Hother) by done. apply Ht.
Qed.

Lemma file_slot_inv fd io f : NORMAL_FILENO_BASE ≤ fd → file_slot fd io = Ret f → f = io_files io !! Z.to_nat (fd - NORMAL_FILENO_BASE).
Proof.
  intros Hfd. unfold file_slot, fd_to_file_idx. destruct (i32 (fd - NORMAL_FILENO_BASE)) as [i|] eqn:E; [|done].
  apply i32_inv in E as [-> _]. simpl. destruct (Z.ltb_spec (fd - NORMAL_FILENO_BASE) 0); [lia|].
  intros [= <-]. zcase; [done|]. by rewrite lookup_ge_None_2 by lia.
Qed.
Lemma close_inv fd io r io' :
  close fd io = Ret (r, io') →
  (io_files io' = io_files io ∧ io_sockets io' = io_sockets io) ∨
  ∃ i o, fd = Z.of_nat i + NORMAL_FILENO_BASE ∧ io_files io !! i = Some (Some o) ∧ io_files io' = <[i := None]> (io_files io) ∧
    io_sockets io' = match pf_file o with Socket => io_sockets io ∖ {[fd]} | _ => io_sockets io end.
Proof.
  unfold close. intros H. bind_inv H. apply io_errno_inv in E as [Ef Es]. rewrite <- Ef, <- Es. clear Ef Es. destruct (_ || _) eqn:Hstd; [run_inv H; by left|].
  assert ((s ← io_errno EBADF a; Ret (-1, s)) = Ret (r, io') →
    io_files io' = io_files a ∧ io_sockets io' = io_sockets a) as Hbad.
  { intros Hb. bind_inv Hb. run_inv Hb. by eapply io_errno_inv. }
  destruct (Z.ltb_spec fd 0); [by left; apply Hbad|]. bind_inv H.
  assert (NORMAL_FILENO_BASE ≤ fd) as Hfd.
  { unfold STDIN_FILENO, STDOUT_FILENO, STDERR_FILENO, NORMAL_FILENO_BASE, STDERR_FILENO in *. lia. }
  apply file_slot_inv in E; [|done]. destruct a0 as [[o|]|]; [|by left; apply Hbad..].
  right. exists (Z.to_nat (fd - NORMAL_FILENO_BASE)), o. split; [lia|]. split; [done|]. clear Hbad. by run_inv H.
Qed.

Lemma socket_ok d t p s r s' : sockets_ok s → socket d t p s = Ret (r, s') → sockets_ok s'.
Proof.
  unfold socket. intros Hs H. bind_inv H. apply sk_errno_same in E. apply (same_tables_ok _ _ E) in Hs. clear E.
  destruct (negb _); [bind_inv H; apply sk_errno_same in E; run_inv H; by eapply same_tables_ok|].
  bind_inv H. bind_inv H. apply rassert_inv in E0. bind_inv H. bind_inv H. destruct a3 as [fd io]. bind_inv H. run_inv H.
  destruct Hs as [Ht Hown].
  eapply insert_socket_ok in E3 as (Ht' & Hn & Em & En); [|done| |done].
  - split; [done|]. rewrite Em, En. eapply owns_perm; [|done]. by apply owned_insert_new.
  - unfold kind_ok. simpl. apply orb_prop in E0 as [E0|E0]; apply Z.eqb_eq in E0 as ->; [left|right]; split_and!; by try intros [].
Qed.

Lemma ioctl_ok fd q s r s' : sockets_ok s → ioctl fd q s = Ret (r, s') → sockets_ok s'.
Proof. unfold ioctl. intros Hs H. by run_inv H. Qed.
Lemma getsockopt_ok k l o v n s r s' : sockets_ok s → getsockopt k l o v n s = Ret (r, s') → sockets_ok s'.
Proof.
  unfold getsockopt. intros Hs H. bind_inv H. apply sk_errno_same in E. apply (same_tables_ok _ _ E) in Hs. by run_inv H.
Qed.
Lemma setsockopt_ok k l o v n s r s' : sockets_ok s → setsockopt k l o v n s = Ret (r, s') → sockets_ok s'.
Proof.
  unfold setsockopt. intros Hs H. bind_inv H. apply sk_errno_same in E. apply (same_tables_ok _ _ E) in Hs.
  run_inv H; try (by apply sk_errno_same in E0; eapply same_tables_ok).
  change (put_socket k ?o ?s) with (put_socket k o (set_sk_net (sk_net s) s)). destruct a.
  eapply sockets_ok_put; [done|exact Hm| |done..]. destruct Hs as [(_ & _ & Hk) _]. apply (Hk _ _ Hm).
Qed.
Lemma getsockname_ok k a l s r s' : sockets_ok s → getsockname k a l s = Ret (r, s') → sockets_ok s'.
Proof. apply on_socket_ok. intros o s1 r' s2 Hs Ho H. by run_inv H. Qed.
Lemma listen_ok k b s r s' : sockets_ok s → listen k b s = Ret (r, s') → sockets_ok s'.
Proof. apply on_socket_ok. intros o s1 r' s2 Hs Ho H. by run_inv H. Qed.

(** The kind of a socket that is there. *)
Lemma stream_kind s fd o :
  sockets_ok s → sockets s !! fd = Some o → so_type o = SOCK_STREAM →
  udp_socket o = None ∧ (is_Some (pending_tcp_stream o) → is_Some (tcp_listener o)).
Proof. intros [(_ & _ & Hk) _] Ho Ht. destruct (Hk _ _ Ho) as [(_ & ? & ?)|(Hd & _)]; [done|]. by rewrite Ht in Hd. Qed.
Lemma datagram_kind s fd o :
  sockets_ok s → sockets s !! fd = Some o → so_type o = SOCK_DGRAM →
  tcp_listener o = None ∧ pending_tcp_stream o = None ∧ tcp_stream o = None.
Proof. intros [(_ & _ & Hk) _] Ho Ht. destruct (Hk _ _ Ho) as [(Hd & _)|(_ & ?)]; [|done]. by rewrite Ht in Hd. Qed.

Lemma bind_ok k a l s r s' : sockets_ok s → bind k a l s = Ret (r, s') → sockets_ok s'.
Proof.
  apply on_socket_ok. intros o s1 r' s2 Hs Ho H. run_inv H; apply bool_decide_eq_true in Ha1.
  - apply Z.eqb_eq in Hc. destruct (stream_kind _ _ _ Hs Ho Hc) as [Hu Hp]. eapply sockets_ok_open; [done|done| | |by eapply tcp_bind_fresh].
    + left. simpl. split_and!; eauto.
    + unfold socket_handles. simpl. by rewrite Ha1.
  - assert (so_type o = SOCK_DGRAM) as Hd by (by apply Z.eqb_eq in Ha).
    destruct (datagram_kind _ _ _ Hs Ho Hd) as (Hl & Hp & Hst). eapply sockets_ok_open;
      [done|done| | |rewrite (set_options_of_live _ _ _ _ E1); by eapply udp_bind_fresh].
    + right. simpl. split_and!; eauto.
    + unfold socket_handles. simpl. by rewrite Ha1, Hl, Hp, Hst.
Qed.
Lemma connect_ok k a l s r s' : sockets_ok s → connect k a l s = Ret (r, s') → sockets_ok s'.
Proof.
  apply on_socket_ok. intros o s1 r' s2 Hs Ho H. run_inv H. apply bool_decide_eq_true in Ha1. apply Z.eqb_eq in Ha.
  destruct (stream_kind _ _ _ Hs Ho Ha) as [Hu Hp]. eapply sockets_ok_open; [done|done| | |by eapply tcp_connect_fresh].
  - left. simpl. split_and!; eauto.
  - unfold socket_handles. simpl. rewrite Ha1, Hu. simpl. solve_Permutation.
Qed.
Lemma accept_ok k a l s r s' : sockets_ok s → accept k a l s = Ret (r, s') → sockets_ok s'.
Proof.
  apply on_socket_ok. intros o s1 r' s2 Hs Ho H. bind_inv H. apply rassert_inv, Z.eqb_eq in E.
  destruct (pending_tcp_stream o) as [h|] eqn:Hpend; [|done]. bind_inv H. bind_inv H. destruct a2 as [fd io]. bind_inv H. run_inv H.
  apply write_peer_same in E3. eapply same_tables_ok; [exact E3|]. clear E3.
  destruct (stream_kind _ _ _ Hs Ho E) as [Hu Hp]. destruct Hs as [Ht Hown].
  change (put_socket k ?o ?s) with (put_socket k o (set_sk_net (sk_net s) s)) in *.
  eapply insert_socket_ok in E2 as (Ht' & Hn & Em & En); [| |left; simpl|exact E1].
  - split; [done|]. rewrite Em, En. simpl in Hn |- *. eapply owns_perm; [|exact Hown].
    rewrite owned_insert_new by exact Hn. simpl.
    rewrite <- insert_delete_eq, owned_insert_new by apply lookup_delete_eq. rewrite (owned_take _ _ _ Ho).
    unfold socket_handles. simpl. rewrite Hpend, Hu. simpl. solve_Permutation.
  - eapply tables_ok_put; [done..|]. left. simpl. split_and!; [done|done|by intros []].
  - split_and!; [done..|by intros []].
Qed.

(** A call of the host that keeps its sockets. *)
Lemma set_sk_net_same n s : live n = live (sk_net s) → same_tables s (set_sk_net n s).
Proof. done. Qed.
Lemma set_mem_net_same m n s : live n = live (sk_net s) → same_tables s (set_sk_mem m (set_sk_net n s)).
Proof. done. Qed.
Lemma live_pair {A} (c : N → A * N) n r n' : (live (c n).2 = live n) → c n = (r, n') → live n' = live n.
Proof. intros H E. by rewrite E in H. Qed.

Lemma selected_socket_inv fd s o : selected_socket fd s = Ret o → sockets s !! fd = Some o.
Proof. unfold selected_socket. intros H. bind_inv H. bind_inv H. by apply unwrap_inv in H. Qed.

Lemma check_read_ok b fd s r s' : sockets_ok s → check_read b fd s = Ret (r, s') → sockets_ok s'.
Proof.
  unfold check_read. intros Hs H. bind_inv H. apply selected_socket_inv in E. run_inv H.
  - eapply same_tables_ok, Hs. apply set_sk_net_same. eapply (live_pair (udp_peek _)), Hm. apply udp_peek_live.
  - eapply same_tables_ok, Hs. apply set_sk_net_same. eapply (live_pair (tcp_peek _)), Hm0. apply tcp_peek_live.
  - apply bool_decide_eq_true in Ha. apply Z.eqb_eq in Hc0. destruct (stream_kind _ _ _ Hs E Hc0) as [Hudp Hp].
    eapply sockets_ok_open; [done|done| | |by eapply tcp_accept_fresh].
    + left. simpl. split_and!; eauto.
    + unfold socket_handles. simpl. rewrite Ha, Hm, Hudp. simpl. solve_Permutation.
  - eapply same_tables_ok, Hs. apply set_sk_net_same. by eapply tcp_accept_err.
Qed.
Lemma check_write_ok b fd s r s' : sockets_ok s → check_write b fd s = Ret (r, s') → sockets_ok s'.
Proof. unfold check_write. intros Hs H. by run_inv H. Qed.
Lemma check_error_ok fd s r s' : sockets_ok s → check_error fd s = Ret (r, s') → sockets_ok s'.
Proof.
  unfold check_error. intros Hs H. run_inv H. eapply same_tables_ok, Hs. apply set_sk_net_same.
  eapply (live_pair (take_error _)), Hm. apply take_error_live.
Qed.

Lemma process_words_cons (check : FdCheck) n i w set c s :
  process_words check n i (w :: set) c s =
    ('(stop, bits, count, s) ← process_bits check n i (seqZ 0 32) w c s;
     if stop : bool then Ret (bits :: set, count, s)
     else '(words, count, s) ← process_words check n (i + 1) set count s; Ret (bits :: words, count, s)).
Proof. done. Qed.

(** What every question keeps, the pass over a set keeps. *)
Lemma process_bits_keeps (P : SockState → Prop) (check : FdCheck) n i l bits c s r :
  (∀ fd s b s', P s → check fd s = Ret (b, s') → P s') →
  P s → process_bits check n i l bits c s = Ret r → P r.2.
Proof.
  intros Hc. revert bits c s. induction l as [|k l IH]; intros bits c s Hs H; simpl in H; [by run_inv H|].
  destruct (_ <? _); [by run_inv H|]. destruct (negb _); [|by eapply IH].
  bind_inv H. destruct a as [ready s1]. apply (Hc _ _ _ _ Hs) in E. destruct ready; by eapply IH.
Qed.
Lemma process_set_keeps (P : SockState → Prop) (check : FdCheck) n set s r :
  (∀ fd s b s', P s → check fd s = Ret (b, s') → P s') →
  P s → process_set check n set s = Ret r → P r.2.
Proof.
  unfold process_set. generalize 0 at 1. generalize 0. intros c i Hc. revert c i s r.
  induction set as [|w set IH]; intros c i s r Hs H; [simpl in H; by run_inv H|]. rewrite process_words_cons in H.
  bind_inv H. destruct a as [[[stop bits] c'] s1]. apply (process_bits_keeps P) in E; [|done..]. destruct stop; [by run_inv H|].
  bind_inv H. destruct a as [[ws c''] s2]. apply IH in E0; [|done]. by run_inv H.
Qed.
Lemma select_set_ok p n check s r s' :
  (∀ fd s b s', sockets_ok s → check fd s = Ret (b, s') → sockets_ok s') →
  sockets_ok s → select_set p n check s = Ret (r, s') → sockets_ok s'.
Proof.
  unfold select_set. intros Hc Hs H. destruct (_ =? _); [by run_inv H|]. bind_inv H. bind_inv H.
  eapply (process_set_keeps sockets_ok) in E0; [|exact Hc|exact Hs]. destruct a0 as [[set c] s1]. bind_inv H.
  injection H; intros; subst. exact E0.
Qed.
Lemma select_ok n p q e t s r s' : sockets_ok s → select n p q e t s = Ret (r, s') → sockets_ok s'.
Proof.
  unfold select. intros Hs H. bind_inv H. apply sk_errno_same in E. apply (same_tables_ok _ _ E) in Hs. clear E.
  destruct (negb _); [bind_inv H; apply sk_errno_same in E; run_inv H; by eapply same_tables_ok|].
  destruct (_ =? 0); [by run_inv H|]. bind_inv H.
  bind_inv H. destruct a1 as [c1 s1]. apply select_set_ok in E0; [|by apply check_read_ok|done].
  bind_inv H. destruct a1 as [c2 s2]. apply select_set_ok in E1; [|by apply check_write_ok|done].
  bind_inv H. destruct a1 as [c3 s3]. apply select_set_ok in E2; [|by apply check_error_ok|done]. by run_inv H.
Qed.

Lemma write_peer_if_same (b : bool) a l addr s s' :
  (if b then Ret s else write_peer a l addr s) = Ret s' → same_tables s s'.
Proof. destruct b; [by intros [= ->]|apply write_peer_same]. Qed.
Lemma recvfrom_ok k b n f a l s r s' : sockets_ok s → recvfrom k b n f a l s = Ret (r, s') → sockets_ok s'.
Proof.
  apply on_socket_ok. intros o s1 r' s2 Hs Ho H. run_inv H.
  - apply write_peer_if_same in E1. eapply same_tables_ok; [exact E1|]. eapply same_tables_ok, Hs.
    apply set_mem_net_same. eapply (live_pair (udp_recv_from _ _)), Hm. apply udp_recv_from_live.
  - eapply same_tables_ok, Hs. apply set_mem_net_same. eapply (live_pair (tcp_read _ _)), Hm. apply tcp_read_live.
  - apply sk_errno_same in E0. eapply same_tables_ok; [exact E0|]. eapply same_tables_ok, Hs.
    apply set_sk_net_same. eapply (live_pair (tcp_read _ _)), Hm. apply tcp_read_live.
Qed.
Lemma send_ok k b n f s r s' : sockets_ok s → send k b n f s = Ret (r, s') → sockets_ok s'.
Proof.
  unfold send. intros Hs H. bind_inv H. apply sk_errno_same in E. apply (same_tables_ok _ _ E) in Hs. run_inv H.
  eapply same_tables_ok, Hs. apply set_sk_net_same. eapply (live_pair (tcp_write _ _)), Hm. apply tcp_write_live.
Qed.
Lemma lazy_broadcast_socket_ok fd o a s h s' :
  sockets_ok s → sockets s !! fd = Some o → so_type o = SOCK_DGRAM → lazy_broadcast_socket fd o a s = Ret (h, s') → sockets_ok s'.
Proof.
  unfold lazy_broadcast_socket. intros Hs Ho Hd H. destruct (udp_socket o) eqn:Hudp; [by run_inv H|]. run_inv H.
  destruct (datagram_kind _ _ _ Hs Ho Hd) as (Hl & Hp & Hst).
  eapply sockets_ok_open; [done|done| | |rewrite (set_options_of_live _ _ _ _ E); by eapply udp_bind_fresh].
  - right. simpl. split_and!; eauto.
  - unfold socket_handles. simpl. by rewrite Hudp, Hl, Hp, Hst.
Qed.
Lemma sendto_ok k b n f a l s r s' : sockets_ok s → sendto k b n f a l s = Ret (r, s') → sockets_ok s'.
Proof.
  unfold sendto. intros Hs H. bind_inv H. apply sk_errno_same in E. apply (same_tables_ok _ _ E) in Hs.
  bind_inv H. apply unwrap_inv in E0. bind_inv H. apply rassert_inv, Z.eqb_eq in E1. do 4 bind_inv H. bind_inv H.
  destruct a7 as [h s1]. apply lazy_broadcast_socket_ok in E6; [|done..]. bind_inv H. run_inv H.
  eapply same_tables_ok, E6. apply set_sk_net_same. eapply (live_pair (udp_send_to _ _ _)), Hm. apply udp_send_to_live.
Qed.

(** [close]: the descriptor, the socket and its host sockets go together. *)
Lemma live_drops l (n : N) : live (foldr net_drop n l) = live n ∖ list_to_set l.
Proof. induction l as [|h l IH]; simpl; [set_solver|]. rewrite net_drop_live, IH. set_solver. Qed.
Lemma close_table fd io r io' :
  table_agrees io → close fd io = Ret (r, io') →
  table_agrees io' ∧ (io_sockets io' = io_sockets io ∨ (fd ∈ io_sockets io ∧ io_sockets io' = io_sockets io ∖ {[fd]})).
Proof.
  intros Ht H. apply close_inv in H as [[Ef Es]|(i & o & -> & Ho & Ef & Es)].
  { split; [|by left]. unfold table_agrees. by rewrite Ef, Es. }
  assert (Z.of_nat i + NORMAL_FILENO_BASE ∈ io_sockets io ↔ pf_file o = Socket) as Hslot
    by (rewrite (Ht _), (socket_slot_at _ _ _ Ho); naive_solver).
  assert (<[i := None]> (io_files io) !! i = Some None) as Hi by (apply list_lookup_insert_eq; by eapply lookup_lt_Some).
  assert (∀ k, k ≠ i → <[i := None]> (io_files io) !! k = io_files io !! k) as Hother
    by (intros k Hne; by apply list_lookup_insert_ne).
  split.
  - intros k. rewrite Ef. destruct (decide (k = Z.of_nat i + NORMAL_FILENO_BASE)) as [->|Hne].
    + rewrite (socket_slot_at _ _ _ Hi), Es. split; [intros Hin; exfalso|by intros (? & [=] & _)].
      destruct (pf_file o) eqn:Hf; try (by apply Hslot in Hin). set_solver.
    + rewrite (socket_slot_insert _ _ _ _ Hi Hother) by done. rewrite <- (Ht k), Es. destruct (pf_file o); set_solver.
  - destruct (pf_file o) eqn:Hf; [by left..|right]. split; [by apply Hslot|done].
Qed.
Lemma close_fd_ok fd s r s' : sockets_ok s → close_fd fd s = Ret (r, s') → sockets_ok s'.
Proof.
  unfold close_fd. intros [(Hd & Ht & Hk) Hown] H. bind_inv H. destruct a as [r' io].
  apply close_table in E as [Ht' Es]; [|done]. cbn [set_sk_io sockets] in H. destruct Es as [Es|[Hin Es]]; rewrite Es in H.
  - assert (sockets_ok (set_sk_io io s)) as Hok by (split; [split_and!; [by simpl; rewrite Es|done..]|done]).
    destruct (decide _) as [Hin|Hni]; [by run_inv H|].
    destruct (sockets s !! fd) eqn:Ho; [|by run_inv H]. exfalso. apply Hni. rewrite <- Hd. by eapply elem_of_dom_2.
  - rewrite decide_False in H by set_solver. rewrite <- Hd in Hin. apply elem_of_dom in Hin as [o Ho]. rewrite Ho in H.
    run_inv H. split; [split_and!|]; simpl; [by rewrite dom_delete_L, Hd, Es|done|by apply map_Forall_delete|].
    eapply owns_closes; [done| |done]. apply live_drops.
Qed.

(** ** Runs *)

Inductive Call :=
| CSocket (domain type_ protocol : Z) | CIoctl (fd request : Z)
| CGetsockopt (fd level name value len : Z) | CSetsockopt (fd level name value len : Z)
| CGetsockname (fd address len : Z) | CBind (fd address len : Z) | CListen (fd backlog : Z) | CConnect (fd address len : Z)
| CSelect (n_fds read write error timeout : Z) | CAccept (fd address len : Z)
| CRecv (fd buffer len flags : Z) | CRecvfrom (fd buffer len flags address address_len : Z)
| CSend (fd buffer len flags : Z) | CSendto (fd buffer len flags address address_len : Z)
| CShutdown (fd how : Z) | CClose (fd : Z).

(** What [select] returns in the end. *)
Definition select_value (r : SelectResult) : Z := match r with Selected c => c | Sleeps _ => 0 end.
Definition select_call (n_fds read write error timeout : Z) (s : SockState) : outcome (Z * SockState) :=
  '(r, s) ← select n_fds read write error timeout s; Ret (select_value r, s).
Definition do_call (c : Call) (s : SockState) : outcome (Z * SockState) :=
  match c with
  | CSocket d t p => socket d t p s
  | CIoctl fd q => ioctl fd q s
  | CGetsockopt fd l o v n => getsockopt fd l o v n s
  | CSetsockopt fd l o v n => setsockopt fd l o v n s
  | CGetsockname fd a n => getsockname fd a n s
  | CBind fd a n => bind fd a n s
  | CListen fd b => listen fd b s
  | CConnect fd a n => connect fd a n s
  | CSelect n p q e t => select_call n p q e t s
  | CAccept fd a n => accept fd a n s
  | CRecv fd b n f => recv fd b n f s
  | CRecvfrom fd b n f a l => recvfrom fd b n f a l s
  | CSend fd b n f => send fd b n f s
  | CSendto fd b n f a l => sendto fd b n f a l s
  | CShutdown fd how => shutdown fd how s
  | CClose fd => close_fd fd s
  end.
Fixpoint run_calls (cs : list Call) (s : SockState) : outcome (list Z * SockState) :=
  match cs with
  | [] => Ret ([], s)
  | c :: cs => '(r, s) ← do_call c s; '(rs, s) ← run_calls cs s; Ret (r :: rs, s)
  end.

Lemma do_call_ok c s r s' : sockets_ok s → do_call c s = Ret (r, s') → sockets_ok s'.
Proof.
  intros Hs. destruct c; simpl.
  - by apply socket_ok.
  - by apply ioctl_ok.
  - by apply getsockopt_ok.
  - by apply setsockopt_ok.
  - by apply getsockname_ok.
  - by apply bind_ok.
  - by apply listen_ok.
  - by apply connect_ok.
  - unfold select_call. intros H. bind_inv H. destruct a as [x s1]. apply select_ok in E; [|done]. by run_inv H.
  - by apply accept_ok.
  - by apply recvfrom_ok.
  - by apply recvfrom_ok.
  - by apply send_ok.
  - by apply sendto_ok.
  - unfold shutdown. intros H. bind_inv H. by apply close_fd_ok in H.
  - by apply close_fd_ok.
Qed.

(** The program calls, files are opened, other calls change the memory and the files, and
    the network goes on. *)
Inductive sk_step : SockState → SockState → Prop :=
| step_call c r s s' : do_call c s = Ret (r, s') → sk_step s s'
| step_open o fd io s : pf_file o ≠ Socket → find_or_create_fd o (sk_io s) = Ret (fd, io) → sk_step s (set_sk_io io s)
| step_files io s :
    io_sockets io = io_sockets (sk_io s) → (∀ fd, socket_slot (io_files io) fd ↔ socket_slot (io_files (sk_io s)) fd) →
    sk_step s (set_sk_io io s)
| step_net n s : live n = live (sk_net s) → sk_step s (set_sk_net n s).

Lemma sk_step_ok s s' : sk_step s s' → sockets_ok s → sockets_ok s'.
Proof.
  intros [c r s1 s2 H|o fd io s1 Hn H|io s1 Es Ef|n s1 Hn] Hs.
  - by eapply do_call_ok.
  - by eapply open_file_ok.
  - destruct Hs as [(Hd & Ht & Hk) Hown]. split; [|done]. split_and!; [by simpl; rewrite Es| |done].
    intros k. simpl. by rewrite Es, Ef.
  - by apply (same_tables_ok s1).
Qed.
Lemma run_calls_steps cs s rs s' : run_calls cs s = Ret (rs, s') → rtc sk_step s s'.
Proof.
  revert s rs. induction cs as [|c cs IH]; intros s rs H; simpl in H; [by injection H as _ ->|].
  bind_inv H. destruct a as [r s1]. bind_inv H. destruct a as [rs' s2]. injection H as _ ->. eapply rtc_l; [by eapply step_call|by eapply IH].
Qed.

(** No socket yet. *)
Definition no_sockets s : Prop :=
  sockets s = ∅ ∧ io_sockets (sk_io s) = ∅ ∧ (∀ fd, ¬ socket_slot (io_files (sk_io s)) fd) ∧ live (sk_net s) = ∅.

(** C39: Whatever the program calls, and however files are opened and closed and the
    network goes on in between: the sockets are exactly the descriptors of the table that
    are sockets; each has only host sockets of its kind, with a connection waiting only
    where there is a listener; and the host's open sockets are exactly those the sockets
    own, each owned once.  So nothing is left open on the host when the last socket is
    closed. *)
Theorem sockets_in_sync s0 s :
  no_sockets s0 → rtc sk_step s0 s → sockets_ok s ∧ (sockets s = ∅ → live (sk_net s) = ∅).
Proof.
  intros (H1 & H2 & H3 & H4) Hr. assert (sockets_ok s0) as Hs0.
  { split; [split_and!|].
    - by rewrite H1, H2, dom_empty_L.
    - intros fd. rewrite H2. specialize (H3 fd). set_solver.
    - rewrite H1. apply map_Forall_empty.
    - rewrite H1, H4. unfold owns, owned. rewrite map_to_list_empty. simpl. split; [constructor|set_solver]. }
  assert (sockets_ok s) as Hs.
  { clear H1 H2 H3 H4. induction Hr as [|x y z Hxy _ IH]; [done|]. by apply IH, (sk_step_ok x). }
  split; [done|]. intros He. destruct Hs as [_ [_ Hl]]. rewrite He in Hl. apply set_eq. intros h. rewrite Hl.
  unfold owned. rewrite map_to_list_empty. simpl. set_solver.
Qed.
End facts.

(** ** A network where everything is there at once *)

Definition new_handle (l : gset Z) : Z := fresh l.
Definition opens (l : gset Z) : result Z NetError * gset Z := (Ok (new_handle l), {[new_handle l]} ∪ l).
Definition demo_address : SocketAddr := V4 [127; 0; 0; 1] 8080.
#[export] Instance demo_network : Network (gset Z) := {
  tcp_bind _ l := opens l;
  udp_bind _ l := opens l;
  tcp_connect _ l := opens l;
  tcp_accept _ l := (Ok (new_handle l, demo_address), {[new_handle l]} ∪ l);
  tcp_peek _ l := (Ok 1, l);
  udp_peek _ l := (Ok 1, l);
  tcp_read _ n l := (Ok (take (Z.to_nat n) [104; 105]), l);
  tcp_write _ b l := (Ok (Z.of_nat (length b)), l);
  udp_recv_from _ n l := (Ok (take (Z.to_nat n) [104; 105], demo_address), l);
  udp_send_to _ b _ l := (Ok (Z.of_nat (length b)), l);
  set_broadcast _ l := (Ok (), l);
  broadcast _ _ := Ok true;
  local_addr _ _ := Ok demo_address;
  peer_addr _ _ := Ok demo_address;
  take_error _ l := (Ok None, l);
  net_drop h l := l ∖ {[h]}
}.
#[export, refine] Instance demo_network_laws : NetworkLaws (gset Z) := { live l := l }.
Proof.
  all: try done; simpl; intros; unfold opens in *; simplify_eq; (split; [apply is_fresh|done]).
Defined.

(** A server: it makes a socket, binds it, finds a connection, accepts it, reads from it
    and closes both. *)
Definition demo_server : list Call :=
  [CSocket AF_INET SOCK_STREAM 0; CBind 4 8192 16; CListen 4 5; CSelect 5 8400 0 0 8600; CAccept 4 8300 8320;
   CRecv 5 8700 16 0; CClose 4; CSend 5 8700 2 0; CShutdown 5 SHUT_RDWR].
Definition demo_sockets : SockState (N := gset Z) :=
  mkSock (demo_io (set_bytes ({[8192 := 16; 8193 := 2; 8194 := 31; 8195 := 144; 8320 := 16; 8400 := 16]}) empty_mem))
    ∅ ∅ true.

Example demo_server_runs : fst <$> run_calls demo_server demo_sockets = Ret [4; 0; 0; 1; 5; 2; 0; 2; 0].
Proof. vm_compute. reflexivity. Qed.

Lemma demo_no_sockets : no_sockets demo_sockets.
Proof. split_and!; [done|done| |done]. intros fd ([|i] & o & _ & Ho & Hs); simpl in Ho; simplify_eq. Qed.
Lemma sockets_in_sync_witness :
  ∃ rs s, run_calls demo_server demo_sockets = Ret (rs, s) ∧ sockets_ok s ∧ live (sk_net s) = ∅.
Proof.
  destruct (is_ret_inv (run_calls demo_server demo_sockets)) as [[rs s] E]; [vm_compute; reflexivity|].
  destruct (sockets_in_sync demo_sockets s demo_no_sockets (run_calls_steps _ _ _ _ E)) as [Hok Hl].
  exists rs, s. split; [exact E|]. split; [exact Hok|]. apply Hl.
  assert (match run_calls demo_server demo_sockets with Ret (_, s) => sockets s | Panic => ∅ end = ∅) as Hs
    by (vm_compute; reflexivity).
  by rewrite E in Hs.
Defined.

(** ** The pass over a set *)

(** The descriptors in a set, in order: bit [j] of word [i] is descriptor [32 i + j]. *)
Definition word_fds (i w : Z) : list Z := (λ j, i * 32 + j) <$> filter (λ j, Z.testbit w j = true) (seqZ 0 32).
Fixpoint fds_from (i : Z) (words : list Z) : list Z :=
  match words with [] => [] | w :: words => word_fds i w ++ fds_from (i + 1) words end.
Definition fds_of (set : list Z) : list Z := fds_from 0 set.

Lemma land_bit_eqb bits k : 0 ≤ k → (Z.land bits (bit k) =? 0) = negb (Z.testbit bits k).
Proof.
  intros Hk. unfold bit. rewrite Z.shiftl_1_l. destruct (Z.testbit bits k) eqn:E; simpl.
  - apply Z.eqb_neq. intros H. apply (f_equal (λ z, Z.testbit z k)) in H.
    rewrite Z.land_spec, Z.pow2_bits_true, E, Z.bits_0 in H by done. done.
  - apply Z.eqb_eq. apply Z.bits_inj'. intros j Hj. rewrite Z.land_spec, Z.bits_0, Z.pow2_bits_eqb by done.
    destruct (Z.eqb_spec k j) as [->|]; [by rewrite E|apply andb_false_r].
Qed.
Lemma clear_bit_spec bits k j : 0 ≤ k → 0 ≤ j → Z.testbit (Z.ldiff bits (bit k)) j = Z.testbit bits j && negb (k =? j).
Proof. intros Hk Hj. unfold bit. by rewrite Z.ldiff_spec, Z.shiftl_1_l, Z.pow2_bits_eqb. Qed.
Lemma set_bit_spec bits k j : 0 ≤ k → 0 ≤ j → Z.testbit (Z.lor bits (bit k)) j = Z.testbit bits j || (k =? j).
Proof. intros Hk Hj. unfold bit. by rewrite Z.lor_spec, Z.shiftl_1_l, Z.pow2_bits_eqb. Qed.

Lemma elem_of_word_fds i w fd : fd ∈ word_fds i w ↔ 0 ≤ fd - i * 32 < 32 ∧ Z.testbit w (fd - i * 32) = true.
Proof.
  unfold word_fds. rewrite list_elem_of_fmap. setoid_rewrite list_elem_of_filter. setoid_rewrite elem_of_seqZ. split.
  - intros (j & -> & Hj & ?). replace (i * 32 + j - i * 32) with j by lia. split; [lia|done].
  - intros [Hr Hw]. exists (fd - i * 32). split_and!; [lia|done|lia|lia].
Qed.

Section pass.
Context {N : Type} `{!Network N}.
Implicit Types s : SockState (N := N).
Variable check : FdCheck (N := N).

(** The reference: ask each descriptor of a list and keep those that are ready. *)
Fixpoint ask (fds : list Z) (s : SockState) : outcome (list Z * SockState) :=
  match fds with
  | [] => Ret ([], s)
  | fd :: fds => '(b, s) ← check fd s; '(ready, s) ← ask fds s; Ret ((if b : bool then [fd] else []) ++ ready, s)
  end.

Lemma ask_app l1 l2 s : ask (l1 ++ l2) s = ('(r1, s) ← ask l1 s; '(r2, s) ← ask l2 s; Ret (r1 ++ r2, s)).
Proof.
  revert s. induction l1 as [|fd l1 IH]; intros s; simpl; [by destruct (ask l2 s) as [[]|]|].
  destruct (check fd s) as [[b s1]|]; [|done]. simpl. rewrite IH. destruct (ask l1 s1) as [[r1 s2]|]; [|done]. simpl.
  destruct (ask l2 s2) as [[r2 s3]|]; [|done]. simpl. by rewrite app_assoc.
Qed.
Lemma ask_among l s ready s' : ask l s = Ret (ready, s') → ∀ fd, fd ∈ ready → fd ∈ l.
Proof.
  revert s ready. induction l as [|k l IH]; intros s ready; simpl; [by intros [= <- _]|].
  destruct (check k s) as [[b s1]|]; [|done]. simpl. destruct (ask l s1) as [[r s2]|] eqn:E; [|done]. simpl.
  intros [= <- ->] fd. specialize (IH _ _ E fd). destruct b; set_solver.
Qed.

(** The descriptors of a word that are asked, from bit [k] on. *)
Definition asked (n i w k : Z) (m : nat) : list Z :=
  filter (λ fd, fd ≤ n) ((λ j, i * 32 + j) <$> filter (λ j, Z.testbit w j = true) (seqZ k (Z.of_nat m))).
Lemma asked_S n i w k m :
  asked n i w k (S m) = (if Z.testbit w k && (i * 32 + k <=? n) then [i * 32 + k] else []) ++ asked n i w (k + 1) m.
Proof.
  unfold asked. rewrite seqZ_cons by lia. replace (Z.pred (Z.of_nat (S m))) with (Z.of_nat m) by lia.
  change (Z.succ k) with (k + 1). rewrite filter_cons. destruct (Z.testbit w k); simpl; [|done].
  rewrite filter_cons. destruct (Z.leb_spec (i * 32 + k) n); [by rewrite decide_True by lia|by rewrite decide_False by lia].
Qed.
Lemma asked_ext n i w w' k m : (∀ j, k ≤ j → Z.testbit w j = Z.testbit w' j) → asked n i w k m = asked n i w' k m.
Proof.
  revert k. induction m as [|m IH]; intros k H; [done|]. rewrite !asked_S, (H k) by lia. f_equal. apply IH. intros j Hj. apply H. lia.
Qed.
Lemma asked_beyond n i w k m : n < i * 32 + k → asked n i w k m = [].
Proof.
  revert k. induction m as [|m IH]; intros k H; [done|]. rewrite asked_S, IH by lia.
  destruct (Z.leb_spec (i * 32 + k) n); [lia|]. by rewrite andb_false_r.
Qed.

(** One word: its bits are those of the ready descriptors, and what is behind [n_fds] stays. *)
Definition word_after (n i k : Z) (m : nat) (w w' : Z) (ready : list Z) : Prop :=
  ∀ j, 0 ≤ j → Z.testbit w' j = if bool_decide (k ≤ j < k + Z.of_nat m ∧ i * 32 + j ≤ n) then bool_decide (i * 32 + j ∈ ready) else Z.testbit w j.

Lemma elem_of_asked n i w k m fd : fd ∈ asked n i w k m → i * 32 + k ≤ fd.
Proof.
  unfold asked. rewrite list_elem_of_filter, list_elem_of_fmap. intros (_ & j & -> & Hj).
  apply list_elem_of_filter in Hj as [_ Hj%elem_of_seqZ]. lia.
Qed.
Lemma word_after_step n i k m w w1 w' (b : bool) r :
  0 ≤ k → i * 32 + k ≤ n → (∀ j, 0 ≤ j → j ≠ k → Z.testbit w1 j = Z.testbit w j) → Z.testbit w1 k = b →
  (∀ fd, fd ∈ r → i * 32 + k < fd) → word_after n i (k + 1) m w1 w' r →
  word_after n i k (S m) w w' ((if b then [i * 32 + k] else []) ++ r).
Proof.
  intros Hk Hn Hne Hb Hr Hw j Hj. rewrite (Hw j Hj). destruct (decide (j = k)) as [->|Hjk].
  - rewrite bool_decide_eq_false_2 by lia. rewrite bool_decide_eq_true_2 by lia. rewrite Hb. destruct b; symmetry.
    + apply bool_decide_eq_true. set_solver.
    + apply bool_decide_eq_false. simpl. intros H%Hr. lia.
  - rewrite (Hne j Hj Hjk). rewrite (bool_decide_ext (k + 1 ≤ j < k + 1 + Z.of_nat m ∧ i * 32 + j ≤ n)
      (k ≤ j < k + Z.of_nat (S m) ∧ i * 32 + j ≤ n)) by lia.
    destruct (bool_decide (k ≤ j < _ ∧ _)); [|done]. apply bool_decide_ext.
    rewrite elem_of_app. destruct b; [|set_solver]. rewrite list_elem_of_singleton. split; [by right|]. intros [?|?]; [lia|done].
Qed.

Lemma process_bits_asks n i m k w c s :
  0 ≤ k →
  match ask (asked n i w k m) s with
  | Ret (ready, s') => ∃ stop w', process_bits check n i (seqZ k (Z.of_nat m)) w c s = Ret (stop, w', c + Z.of_nat (length ready), s') ∧
      word_after n i k m w w' ready ∧ (if stop : bool then n < i * 32 + k + Z.of_nat m else i * 32 + k + Z.of_nat m ≤ n + 1 ∨ m = O)
  | Panic => process_bits check n i (seqZ k (Z.of_nat m)) w c s = Panic
  end.
Proof.
  revert k w c s. induction m as [|m IH]; intros k w c s Hk.
  { simpl. eexists false, w. rewrite Z.add_0_r. split_and!; [done| |by right]. intros j Hj. rewrite bool_decide_eq_false_2 by lia. done. }
  rewrite seqZ_cons by lia. replace (Z.pred (Z.of_nat (S m))) with (Z.of_nat m) by lia. change (Z.succ k) with (k + 1). cbn [process_bits].
  destruct (Z.ltb_spec n (i * 32 + k)) as [Hn|Hn].
  { rewrite asked_beyond by lia. simpl. eexists true, w. rewrite Z.add_0_r. split_and!; [done| |lia].
    intros j Hj. rewrite bool_decide_eq_false_2 by lia. done. }
  rewrite land_bit_eqb, negb_involutive, asked_S by done. destruct (Z.testbit w k) eqn:Ew; cbn [andb].
  - rewrite (proj2 (Z.leb_le _ _)) by lia. cbn [app ask]. destruct (check (i * 32 + k) s) as [[b s1]|]; [|done]. rewrite !ret_bind.
    set (w1 := if b then Z.lor (Z.ldiff w (bit k)) (bit k) else Z.ldiff w (bit k)).
    assert (∀ j, 0 ≤ j → j ≠ k → Z.testbit w1 j = Z.testbit w j) as Hne.
    { intros j Hj Hjk. unfold w1. destruct b; rewrite ?set_bit_spec, clear_bit_spec by lia;
        (destruct (Z.eqb_spec k j); [lia|]); simpl; by rewrite andb_true_r, ?orb_false_r. }
    assert (Z.testbit w1 k = b) as Hb.
    { unfold w1. destruct b; rewrite ?set_bit_spec, clear_bit_spec by lia; rewrite Z.eqb_refl; simpl; by rewrite andb_false_r. }
    rewrite (asked_ext n i w w1) by (intros j Hj; symmetry; apply Hne; lia).
    specialize (IH (k + 1) w1 (c + if b then 1 else 0) s1 ltac:(lia)).
    assert (∀ A (f : Z → Z → A),
      (if b then f (Z.lor (Z.ldiff w (bit k)) (bit k)) (c + 1) else f (Z.ldiff w (bit k)) c) = f w1 (c + if b then 1 else 0)) as Hf
      by (intros A f; unfold w1; destruct b; [done|by rewrite Z.add_0_r]).
    rewrite (Hf _ (λ w c, process_bits check n i (seqZ (k + 1) (Z.of_nat m)) w c s1)). clear Hf.
    destruct (ask (asked n i w1 (k + 1) m) s1) as [[r s2]|] eqn:Ea; [|done]. rewrite ret_bind.
    destruct IH as (stop & w' & E & Hw & Hs). exists stop, w'. rewrite E. split_and!.
    + do 3 f_equal. rewrite length_app. destruct b; simpl; lia.
    + eapply word_after_step; try done. intros fd Hfd. eapply ask_among, elem_of_asked in Hfd; [|done]. lia.
    + destruct stop; lia.
  - specialize (IH (k + 1) w c s ltac:(lia)). simpl.
    destruct (ask (asked n i w (k + 1) m) s) as [[r s2]|] eqn:Ea; [|done].
    destruct IH as (stop & w' & E & Hw & Hs). exists stop, w'. rewrite E. split_and!; [done| |destruct stop; lia].
    apply (word_after_step n i k m w w w' false); try done. intros fd Hfd. eapply ask_among, elem_of_asked in Hfd; [|done]. lia.
Qed.

Lemma fds_from_ge i ws fd : fd ∈ fds_from i ws → i * 32 ≤ fd.
Proof.
  revert i. induction ws as [|w ws IH]; intros i; simpl; [by intros ?%not_elem_of_nil|].
  rewrite elem_of_app, elem_of_word_fds. intros [[? _]|?%IH]; lia.
Qed.
Lemma filter_beyond n i ws : n < i * 32 → filter (λ fd, fd ≤ n) (fds_from i ws) = [].
Proof.
  intros Hn. apply elem_of_nil_inv. intros fd [? Hfd%fds_from_ge]%list_elem_of_filter. lia.
Qed.
Lemma word_after_fds n i w w' r :
  word_after n i 0 32 w w' r → (∀ fd, fd ∈ r → fd ∈ asked n i w 0 32) →
  ∀ fd, fd ∈ word_fds i w' ↔ fd ∈ r ∨ (fd ∈ word_fds i w ∧ n < fd).
Proof.
  intros Hw Hr fd. specialize (Hr fd). unfold asked in Hr. change (Z.of_nat 32) with 32 in Hr.
  change ((λ j, i * 32 + j) <$> _) with (word_fds i w) in Hr. rewrite list_elem_of_filter, elem_of_word_fds in Hr.
  rewrite !elem_of_word_fds. destruct (decide (0 ≤ fd - i * 32 < 32)) as [Hb|Hb]; [|naive_solver].
  rewrite Hw by lia. replace (i * 32 + (fd - i * 32)) with fd by lia. destruct (decide (fd ≤ n)).
  - rewrite bool_decide_eq_true_2 by lia. rewrite bool_decide_eq_true. naive_solver lia.
  - rewrite bool_decide_eq_false_2 by lia. naive_solver lia.
Qed.

Lemma process_words_asks n words i c s :
  match ask (filter (λ fd, fd ≤ n) (fds_from i words)) s with
  | Ret (ready, s') => ∃ words', process_words check n i words c s = Ret (words', c + Z.of_nat (length ready), s') ∧
      length words' = length words ∧ ∀ fd, fd ∈ fds_from i words' ↔ fd ∈ ready ∨ (fd ∈ fds_from i words ∧ n < fd)
  | Panic => process_words check n i words c s = Panic
  end.
Proof.
  revert i c s. induction words as [|w words IH]; intros i c s.
  { simpl. exists []. rewrite Z.add_0_r. split_and!; [done..|set_solver]. }
  rewrite process_words_cons. cbn [fds_from]. rewrite filter_app, ask_app.
  pose proof (process_bits_asks n i 32 0 w c s ltac:(lia)) as Hb.
  change (filter _ (word_fds i w)) with (asked n i w 0 32). change (seqZ 0 32) with (seqZ 0 (Z.of_nat 32)).
  destruct (ask (asked n i w 0 32) s) as [[r1 s1]|] eqn:E1; [|by rewrite Hb]. destruct Hb as (stop & w' & -> & Hw & Hs).
  pose proof (word_after_fds _ _ _ _ _ Hw (ask_among _ _ _ _ E1)) as Hm. rewrite !ret_bind. cbv beta iota. destruct stop.
  - rewrite filter_beyond by lia. cbn [ask]. rewrite ret_bind. cbv beta iota. rewrite app_nil_r. exists (w' :: words). split_and!; [done..|].
    intros fd. simpl. rewrite !elem_of_app, Hm. pose proof (fds_from_ge (i + 1) words fd). naive_solver lia.
  - specialize (IH (i + 1) (c + Z.of_nat (length r1)) s1).
    destruct (ask (filter _ (fds_from (i + 1) words)) s1) as [[r2 s2]|]; [|by rewrite IH].
    destruct IH as (words' & -> & Hl & Hm'). exists (w' :: words'). rewrite !ret_bind. cbv beta iota. split_and!.
    + rewrite length_app. do 3 f_equal. lia.
    + simpl. by rewrite Hl.
    + intros fd. simpl. rewrite !elem_of_app, Hm, Hm'. naive_solver.
Qed.

(** C40: [process_set] is its reference: it asks the descriptors of the set up to
    [n_fds], itself included, each once and in ascending order, answers how many are ready,
    and leaves in the set exactly those and what is beyond [n_fds]; it panics only where
    a question does. *)
Theorem process_set_asks n_fds set s :
  match ask (filter (λ fd, fd ≤ n_fds) (fds_of set)) s with
  | Ret (ready, s') =>
      ∃ set', process_set check n_fds set s = Ret (set', Z.of_nat (length ready), s') ∧ length set' = length set ∧
        ∀ fd, fd ∈ fds_of set' ↔ fd ∈ ready ∨ (fd ∈ fds_of set ∧ n_fds < fd)
  | Panic => process_set check n_fds set s = Panic
  end.
Proof. exact (process_words_asks n_fds set 0 0 s). Qed.
End pass.

(** ** Smaller facts *)

(** An address survives the way to the guest and back. *)
Lemma sockaddr_roundtrip octets port :
  length octets = 4%nat → 0 ≤ port < 65536 → to_ipv4_parts (from_ipv4_parts octets port) = Ret (octets, port).
Proof.
  intros Hl Hp. destruct octets as [|a [|b [|c [|d [|]]]]]; try done. unfold to_ipv4_parts. simpl.
  rewrite (Z.mul_comm (port / 256)), <- Z.div_mod by lia. done.
Qed.
Lemma sockaddr_v4_roundtrip octets port :
  length octets = 4%nat → 0 ≤ port < 65536 → (from_sockaddr_v4 (V4 octets port) ≫= to_sockaddr_v4) = Ret (V4 octets port).
Proof. intros Hl Hp. simpl. unfold to_sockaddr_v4. by rewrite sockaddr_roundtrip. Qed.

Section listeners.
Context {N : Type} `{!Network N}.
Implicit Types s : SockState (N := N).

(** [accept] after a [select] that found a connection: the waiting stream moves to the new socket. *)
Lemma select_then_accept fd o l h a n s :
  is_socket fd (sk_io s) = Ret true → sockets s !! fd = Some o → so_type o = SOCK_STREAM → tcp_stream o = None →
  tcp_listener o = Some l → pending_tcp_stream o = None → tcp_accept l (sk_net s) = (Ok (h, a), n) →
  check_read false fd s = Ret (true, put_socket fd (set_pending (Some h) o) (set_sk_net n s)).
Proof.
  intros Hf Ho Ht Hs Hl Hp Ha. unfold check_read, selected_socket. rewrite Hf, !ret_bind. simpl. rewrite Ho. simpl.
  rewrite Ht, Hs, Hl. simpl. by rewrite Ha, Hp.
Qed.

(** A connection that waits for [accept] does not make its listener readable: a further
    [select] answers that nothing is there, and panics if there is one more connection. *)
Lemma pending_not_readable fd o l h n r s :
  is_socket fd (sk_io s) = Ret true → sockets s !! fd = Some o → so_type o = SOCK_STREAM → tcp_stream o = None →
  tcp_listener o = Some l → pending_tcp_stream o = Some h → tcp_accept l (sk_net s) = (r, n) →
  check_read false fd s = match r with Err WouldBlock => Ret (false, set_sk_net n s) | _ => Panic end.
Proof.
  intros Hf Ho Ht Hs Hl Hp Ha. unfold check_read, selected_socket. rewrite Hf, !ret_bind. simpl. rewrite Ho. simpl.
  rewrite Ht, Hs, Hl. simpl. rewrite Ha, Hp. by destruct r as [[]|[]].
Qed.
End listeners.

(** [select] asks the descriptor [n_fds] too. *)
Example select_asks_n_fds : process_set (λ _ s, Ret (true, s)) 5 [32] demo_sockets = Ret ([32], 1, demo_sockets).
Proof. vm_compute. reflexivity. Qed.

(** [recv] of an unknown socket fails with [EBADF]; [send] panics. *)
Example unknown_socket : (fst <$> recv 7 8700 16 0 demo_sockets, send 7 8700 2 0 demo_sockets) = (Ret (-1), Panic).
Proof. vm_compute. reflexivity. Qed.
