(* ===== verification/Stdio.v ===== *)
(** * Streams ([libc/stdio.rs])

    [FILE] objects over the descriptors of [PosixIo].  A [FILE] in guest memory
    holds only the descriptor; the pushed-back characters and the lock are in
    [file_streams] of the environment.  What goes to the host's standard output
    and error is collected in the state. *)

From S2P Require Import Prelude ChunkMap SizeBucketed VMAllocator HeapAllocator GuestMem Env Scheduler Pthread Semaphore Fs GenericChar CString PosixIo.

Definition EOF : Z := -1.

Section stdio.
Variable ro_content : GuestFile → list Z.

(** [_touchHLE_check_file_object_lock], and [let FILE { fd } = env.mem.read(file_ptr)]. *)
Definition check_lock (file_ptr : Z) (s : IoState) : outcome IoState :=
  e ← check_file_object_lock file_ptr (io_env s); Ret (set_io_env e s).
Definition FILE_fd (file_ptr : Z) (s : IoState) : outcome Z := v ← read_u32 file_ptr (io_mem s); Ret (to_i32 v).

Definition get_pushbacks (file_ptr : Z) (s : IoState) : outcome (list Z * IoState) :=
  '(o, e) ← get_file_host_obj file_ptr (io_env s); Ret (pushbacks o, set_io_env e s).
Definition set_pushbacks (file_ptr : Z) (l : list Z) (s : IoState) : outcome IoState :=
  '(o, e) ← get_file_host_obj file_ptr (io_env s);
  Ret (set_io_env (put_file file_ptr (mkFILE l (lock_count o) (owning_thread o)) e) s).

(** The flags of a mode string: unknown flags after the first character are tolerated. *)
Definition fopen_flags (mode : list Z) : outcome Z :=
  match mode with
  | basic_mode :: flags =>
      let plus := existsb (Z.eqb 43) flags in
      if basic_mode =? 114 then Ret (if plus then O_RDWR else O_RDONLY)
      else if basic_mode =? 119 then Ret (Z.lor (if plus then O_RDWR else O_WRONLY) (Z.lor O_CREAT O_TRUNC))
      else if basic_mode =? 97 then Ret (Z.lor (if plus then O_RDWR else O_WRONLY) (Z.lor O_APPEND O_CREAT))
      else Panic
  | [] => Panic
  end.
Definition fopen (filename mode : Z) (s : IoState) : outcome (Z * IoState) :=
  mode ← cstr_at mode (io_mem s);
  flags ← fopen_flags mode;
  '(fd, s) ← open_direct filename flags s;
  if fd =? -1 then Ret (0, s)
  else
    '(res, m) ← alloc_and_write (le_bytes 4 fd) (io_mem s);
    let s := set_io_mem m s in
    rassert (negb (bool_decide (is_Some (file_streams (io_env s) !! res))));;
    Ret (res, set_io_env (put_file res (mkFILE [] 0 None) (io_env s)) s).

(** Pushed-back characters come first, the last one pushed back at the front.  The reads of
    the descriptor go on at its position, which [ungetc] has moved back. *)
Definition fread (buffer item_size n_items file_ptr : Z) (s : IoState) : outcome (Z * IoState) :=
  s ← io_errno 0 s;
  s ← check_lock file_ptr s;
  if item_size =? 0 then Ret (0, s)
  else
    total_size ← u32 (item_size * n_items);
    '(pb, s) ← get_pushbacks file_ptr s;
    let from_fd already_read buffer total_size s :=
      fd ← FILE_fd file_ptr s;
      '(n, s) ← read ro_content fd buffer total_size s;
      if n =? -1 then Ret (already_read / item_size, s)
      else
        n ← u32 n;
        t ← u32 (n + already_read);
        Ret (t / item_size, s) in
    match pb with
    | [] => from_fd 0 buffer total_size s
    | _ =>
        let to_copy := Z.min (Z.of_nat (length pb)) total_size in
        let offset := (length pb - Z.to_nat to_copy)%nat in
        m ← bytes_at_mut_copy buffer to_copy (rev (drop offset pb)) (io_mem s);
        s ← set_pushbacks file_ptr (take offset pb) (set_io_mem m s);
        if total_size =? to_copy then Ret (total_size, s)
        else
          p ← ptr_add 1 buffer to_copy;
          from_fd to_copy p (total_size - to_copy) s
    end.

Definition fgetc (file_ptr : Z) (s : IoState) : outcome (Z * IoState) :=
  s ← io_errno 0 s;
  s ← check_lock file_ptr s;
  fd ← FILE_fd file_ptr s;
  '(pb, s) ← get_pushbacks file_ptr s;
  match last pb with
  | Some c =>
      s ← set_pushbacks file_ptr (take (length pb - 1) pb) s;
      '(new_offset, s) ← lseek ro_content fd 1 SEEK_CUR s;
      rassert (0 <? new_offset);;
      Ret (c, s)
  | None =>
      '(buffer, m) ← mem_alloc 1 (io_mem s);
      '(n, s) ← read ro_content fd buffer 1 (set_io_mem m s);
      if n =? -1 then Ret (EOF, s)
      else
        n ← u32 n;
        if n <? 1 then Ret (EOF, s) else c ← read_u8 buffer (io_mem s); Ret (c, s)
  end.
Definition getc (file_ptr : Z) (s : IoState) : outcome (Z * IoState) := fgetc file_ptr s.
Definition __srget (file_ptr : Z) (s : IoState) : outcome (Z * IoState) := getc file_ptr s.

(** [c.try_into().unwrap()] to a byte. *)
Definition to_u8 (c : Z) : outcome Z := rassert ((0 <=? c) && (c <? 256));; Ret c.
Definition ungetc (c file_ptr : Z) (s : IoState) : outcome (Z * IoState) :=
  rassert (negb (c =? EOF));;
  s ← check_lock file_ptr s;
  fd ← FILE_fd file_ptr s;
  '(curr_offset, s) ← lseek ro_content fd 0 SEEK_CUR s;
  rassert (0 <? curr_offset);;
  '(new_offset, s) ← lseek ro_content fd (-1) SEEK_CUR s;
  rassert (0 <=? new_offset);;
  '(pb, s) ← get_pushbacks file_ptr s;
  b ← to_u8 c;
  s ← set_pushbacks file_ptr (pb ++ [b]) s;
  Ret (c, s).

(** The loop of [fgets]: the number of bytes read, and the pointer behind them. *)
Definition fgets_body (size stream : Z) (x : Z * Z * IoState) : outcome (Z * Z * IoState + Z * Z * IoState) :=
  let '(n, tmp, s) := x in
  if n <? size then
    '(r, s) ← fread tmp 1 1 stream s;
    if negb (r =? 0) then
      tmp ← ptr_add 1 tmp 1;
      n ← u32 (n + 1);
      q ← ptr_sub 1 tmp 1;
      c ← read_u8 q (io_mem s);
      Ret (if c =? 10 then inr (n, tmp, s) else inl (n, tmp, s))
    else Ret (inr (n, tmp, s))
  else Ret (inr (n, tmp, s)).
Definition fgets (str size stream : Z) (s : IoState) : outcome (Z * IoState) :=
  '(n, tmp, s) ← loop_end (run_loop 33 (fgets_body size stream) (0, str, s));
  if n =? 0 then Ret (0, s)
  else m ← write_u8 tmp 0 (io_mem s); Ret (str, set_io_mem m s).

Definition fwrite (buffer item_size n_items file_ptr : Z) (s : IoState) : outcome (Z * IoState) :=
  s ← io_errno 0 s;
  if (item_size =? 0) || (buffer =? 0) then Ret (0, s)
  else
    s ← check_lock file_ptr s;
    fd ← FILE_fd file_ptr s;
    total_size ← u32 (item_size * n_items);
    if (fd =? STDOUT_FILENO) || (fd =? STDERR_FILENO) then
      l ← bytes_at buffer total_size (io_mem s);
      Ret (total_size / item_size,
           if fd =? STDOUT_FILENO
           then mkIo (io_env s) (io_fs s) (io_host s) (io_files s) (io_sockets s) (io_stdout s ++ l) (io_stderr s)
           else mkIo (io_env s) (io_fs s) (io_host s) (io_files s) (io_sockets s) (io_stdout s) (io_stderr s ++ l))
    else
      '(n, s) ← write fd buffer total_size s;
      if n =? -1 then Ret (0, s) else n ← u32 n; Ret (n / item_size, s).

Definition fputs (str stream : Z) (s : IoState) : outcome (Z * IoState) :=
  s ← io_errno 0 s;
  str_len ← strlen str (io_mem s);
  '(n, s) ← fwrite str str_len 1 stream s;
  n ← i32 n;
  Ret (n, s).
Definition fputc (c stream : Z) (s : IoState) : outcome (Z * IoState) :=
  s ← io_errno 0 s;
  b ← to_u8 c;
  '(ptr, m) ← alloc_and_write (le_bytes 1 b) (io_mem s);
  '(n, s) ← fwrite ptr 1 1 stream (set_io_mem m s);
  res ← i32 n;
  '(_, m) ← mem_free ptr (io_mem s);
  Ret (res, set_io_mem m s).
Definition putc (c stream : Z) (s : IoState) : outcome (Z * IoState) := fputc c stream s.

Definition fseeko (file_ptr offset whence : Z) (s : IoState) : outcome (Z * IoState) :=
  s ← io_errno 0 s;
  s ← check_lock file_ptr s;
  fd ← FILE_fd file_ptr s;
  rassert ((whence =? SEEK_SET) || (whence =? SEEK_CUR) || (whence =? SEEK_END));;
  '(r, s) ← lseek ro_content fd offset whence s;
  if r =? -1 then Ret (-1, s) else s ← set_pushbacks file_ptr [] s; Ret (0, s).
Definition fseek (file_ptr offset whence : Z) (s : IoState) : outcome (Z * IoState) := fseeko file_ptr offset whence s.
Definition ftello (file_ptr : Z) (s : IoState) : outcome (Z * IoState) :=
  s ← io_errno 0 s;
  s ← check_lock file_ptr s;
  fd ← FILE_fd file_ptr s;
  lseek ro_content fd 0 SEEK_CUR s.
Definition ftell (file_ptr : Z) (s : IoState) : outcome (Z * IoState) :=
  '(r, s) ← ftello file_ptr s; r ← i32 r; Ret (r, s).
Definition rewind (file_ptr : Z) (s : IoState) : outcome IoState :=
  s ← io_errno 0 s; '(_, s) ← fseek file_ptr 0 SEEK_SET s; Ret s.

Definition fclose (file_ptr : Z) (s : IoState) : outcome (Z * IoState) :=
  s ← io_errno 0 s;
  if file_ptr =? 0 then Ret (EOF, s)
  else
    s ← check_lock file_ptr s;
    '(_, s) ← get_pushbacks file_ptr s;
    fd ← FILE_fd file_ptr s;
    rassert (bool_decide (is_Some (file_streams (io_env s) !! file_ptr)));;
    let s := set_io_env (set_file_streams (delete file_ptr (file_streams (io_env s))) (io_env s)) s in
    '(_, m) ← mem_free file_ptr (io_mem s);
    '(r, s) ← close fd (set_io_mem m s);
    if r =? 0 then Ret (0, s) else if r =? -1 then Ret (EOF, s) else Panic.

Definition ferror (file_ptr : Z) (s : IoState) : outcome (Z * IoState) :=
  s ← io_errno 0 s; s ← check_lock file_ptr s; Ret (0, s).
Definition fsetpos (file_ptr pos : Z) (s : IoState) : outcome (Z * IoState) :=
  s ← io_errno 0 s;
  s ← check_lock file_ptr s;
  fd ← FILE_fd file_ptr s;
  p ← read_u64 pos (io_mem s);
  '(r, s) ← lseek ro_content fd (signed 64 p) SEEK_SET s;
  if r =? -1 then Ret (-1, s) else s ← set_pushbacks file_ptr [] s; Ret (0, s).
Definition fgetpos (file_ptr pos : Z) (s : IoState) : outcome (Z * IoState) :=
  s ← io_errno 0 s;
  s ← check_lock file_ptr s;
  fd ← FILE_fd file_ptr s;
  '(r, s) ← lseek ro_content fd 0 SEEK_CUR s;
  if r =? -1 then Ret (-1, s) else m ← write_u64 pos r (io_mem s); Ret (0, set_io_mem m s).
Definition feof (file_ptr : Z) (s : IoState) : outcome (Z * IoState) :=
  s ← io_errno 0 s; s ← check_lock file_ptr s; fd ← FILE_fd file_ptr s; r ← eof fd s; Ret (r, s).
Definition stdio_clearerr (file_ptr : Z) (s : IoState) : outcome IoState :=
  s ← io_errno 0 s; s ← check_lock file_ptr s; fd ← FILE_fd file_ptr s; clearerr fd s.
Definition stdio_fflush (file_ptr : Z) (s : IoState) : outcome (Z * IoState) :=
  s ← io_errno 0 s; s ← check_lock file_ptr s; fd ← FILE_fd file_ptr s; fflush fd s.
Definition puts (str : Z) (s : IoState) : outcome (Z * IoState) :=
  s ← io_errno 0 s;
  l ← cstr_at str (io_mem s);
  Ret (0, mkIo (io_env s) (io_fs s) (io_host s) (io_files s) (io_sockets s) (io_stdout s ++ l ++ [10]) (io_stderr s)).
Definition putchar (c : Z) (s : IoState) : outcome (Z * IoState) :=
  s ← io_errno 0 s;
  Ret (0, mkIo (io_env s) (io_fs s) (io_host s) (io_files s) (io_sockets s) (io_stdout s ++ [c]) (io_stderr s)).
Definition stdio_remove (path : Z) (s : IoState) : outcome (Z * IoState) :=
  s ← io_errno 0 s;
  if path =? 0 then Ret (-1, s)
  else
    p ← cstr_at_utf8_unwrap path (io_mem s);
    '(r, fs, h) ← remove p (io_fs s) (io_host s);
    Ret (match r with Ok _ => 0 | Err _ => -1 end, set_io_host h (set_io_fs fs s)).
Definition setbuf (file_ptr buf : Z) (s : IoState) : outcome IoState :=
  s ← io_errno 0 s; s ← check_lock file_ptr s; rassert (buf =? 0);; Ret s.
Definition fileno (file_ptr : Z) (s : IoState) : outcome (Z * IoState) :=
  s ← check_lock file_ptr s; fd ← FILE_fd file_ptr s; Ret (fd, s).
End stdio.
