(* ===== verification/StdioFacts.v ===== *)
(** * What streams do

    [fread] on an unlocked stream without pushed-back characters reads the
    abstract file of its descriptor ([PosixIoFacts]); [fgets] reads a line of it. *)

From S2P Require Import Prelude ChunkMap SizeBucketed VMAllocator HeapAllocator GuestMem Env Scheduler Pthread Semaphore Fs GenericChar CString PosixIo Qsort PosixIoFacts Stdio.

Section streams.
Variable ro_content : GuestFile → list Z.

(** Whether the stream may be used by the running thread. *)
Definition usable (o : FILEHostObject) (e : Environment) : bool :=
  match owning_thread o with None => lock_count o =? 0 | Some t => bool_decide (t = current_thread e) end.

(** The [FILE] at [fp] is a stream on the descriptor [fd], which stands for the file [A]. *)
Record stream (p fp fd : Z) (s : IoState) (μ : Z → Z) (A : AbsFile) : Prop := {
  st_refines : refines ro_content p fd s μ A;
  st_fd : from_le_bytes (take_bytes fp 4 μ) = fd;
  st_normal : NORMAL_FILENO_BASE ≤ fd < 2147483648;
  st_ptr : 0 ≤ fp ∧ fp + 4 ≤ U32_MOD ∧ (fp + 4 ≤ p ∨ p + 4 ≤ fp);
  st_obj : ∃ o, file_streams (io_env s) !! fp = Some o ∧ pushbacks o = [] ∧ usable o (io_env s) = true
}.

Lemma set_io_env_env s : set_io_env (io_env s) s = s.
Proof. by destruct s. Qed.

Lemma stream_FILE p fp fd s μ A : stream p fp fd s μ A → read_u32 fp (mem (io_env s)) = Ret fd.
Proof.
  intros [Hr Hfd _ (? & ? & ?) _]. unfold read_u32, read_u. rewrite mem_read_eq by (unfold U32_MOD in *; lia).
  rewrite ret_bind, <- Hfd. unfold take_bytes. do 2 f_equal. apply list_fmap_ext. intros i a [-> ?]%lookup_seqZ.
  apply (r_mem _ _ _ _ _ _ Hr). lia.
Qed.

Lemma stream_object p fp fd s μ A :
  stream p fp fd s μ A →
  ∃ o, get_file_host_obj fp (io_env s) = Ret (o, io_env s) ∧ pushbacks o = [] ∧ usable o (io_env s) = true.
Proof.
  intros H. destruct (st_obj _ _ _ _ _ _ H) as (o & Ho & Hp & Hu). exists o. split; [|done].
  unfold get_file_host_obj. rewrite (stream_FILE _ _ _ _ _ _ H). simpl.
  pose proof (st_normal _ _ _ _ _ _ H). unfold NORMAL_FILENO_BASE in *. destruct (Z.leb_spec fd STDERR_FILENO); [lia|]. simpl. by rewrite Ho.
Qed.

Lemma check_lock_stream p fp fd s μ A : stream p fp fd s μ A → check_lock fp s = Ret s.
Proof.
  intros H. destruct (stream_object _ _ _ _ _ _ H) as (o & Ho & _ & Hu). unfold check_lock, check_file_object_lock. rewrite Ho. simpl.
  unfold usable in Hu. rewrite Hu. simpl. by rewrite set_io_env_env.
Qed.
Lemma get_pushbacks_stream p fp fd s μ A : stream p fp fd s μ A → get_pushbacks fp s = Ret ([], s).
Proof.
  intros H. destruct (stream_object _ _ _ _ _ _ H) as (o & Ho & Hp & _). unfold get_pushbacks. rewrite Ho. simpl.
  by rewrite Hp, set_io_env_env.
Qed.
Lemma FILE_fd_stream p fp fd s μ A : stream p fp fd s μ A → FILE_fd fp s = Ret fd.
Proof.
  intros H. unfold FILE_fd, io_mem. rewrite (stream_FILE _ _ _ _ _ _ H). simpl. f_equal.
  pose proof (st_normal _ _ _ _ _ _ H). unfold NORMAL_FILENO_BASE, STDERR_FILENO, to_i32, U32_MOD in *. rewrite Z.mod_small by lia. zcase; lia.
Qed.

(** Bytes elsewhere do not change the [FILE]. *)
Lemma take_bytes_put fp n buffer l μ :
  buffer + Z.of_nat (length l) ≤ fp ∨ fp + n ≤ buffer → take_bytes fp n (put_bytes buffer l μ) = take_bytes fp n μ.
Proof.
  intros Hd. unfold take_bytes. apply list_fmap_ext. intros i a [-> ?]%lookup_seqZ. unfold put_bytes. rewrite decide_False; [done|lia].
Qed.

(** A call on the descriptor keeps the stream. *)
Lemma stream_call p fp fd s s' μ μ' A A' :
  stream p fp fd s μ A → refines ro_content p fd s' μ' A' → frame fd A s s' → take_bytes fp 4 μ' = take_bytes fp 4 μ →
  stream p fp fd s' μ' A'.
Proof.
  intros [Hr Hfd Hn Hp (o & Ho & Hpb & Hu)] Hr' [_ _ _ [m Hm]] Hb. split; [done|by rewrite Hb|done|done|].
  exists o. rewrite Hm. simpl. by split_and!.
Qed.

Lemma stream_errno p fp fd v s μ A :
  stream p fp fd s μ A → ∃ s', io_errno v s = Ret s' ∧ stream p fp fd s' μ A ∧ frame fd A s s'.
Proof.
  intros H. destruct (io_errno_refines _ p fd v s μ A (st_refines _ _ _ _ _ _ H)) as (s' & E & R & Q).
  exists s'. split; [done|]. split; [|by apply quiet_frame]. by apply (stream_call _ _ _ s _ μ _ A); [..|apply quiet_frame|].
Qed.

(** [fread]: the bytes the descriptor has, counted in items. *)
Lemma fread_stream p fp fd buffer item_size n_items s μ A :
  stream p fp fd s μ A → 0 < item_size → buffer_ok p buffer (item_size * n_items) →
  (buffer + item_size * n_items ≤ fp ∨ fp + 4 ≤ buffer) →
  let '(r, μ', A') := spec_op (ORead buffer (item_size * n_items)) μ A in
  ∃ s', fread ro_content buffer item_size n_items fp s = Ret (Z.max 0 r / item_size, s') ∧
    stream p fp fd s' μ' A' ∧ a_host A' = a_host A ∧ frame fd A s s'.
Proof.
  intros H Hi Hb Hd. unfold fread. destruct (stream_errno p fp fd 0 s μ A H) as (s1 & -> & H1 & F1). simpl.
  rewrite (check_lock_stream _ _ _ _ _ _ H1). simpl. destruct (Z.eqb_spec item_size 0); [lia|]. pose proof Hb as (? & ? & ? & _).
  rewrite u32_ok by (unfold U32_MOD in *; lia). simpl. rewrite (get_pushbacks_stream _ _ _ _ _ _ H1). simpl.
  rewrite (FILE_fd_stream _ _ _ _ _ _ H1). simpl.
  destruct (read_meets ro_content p fd buffer (item_size * n_items) s1 μ A (st_refines _ _ _ _ _ _ H1) Hb) as (s2 & E & R & Ha & F2).
  destruct (r_ok _ _ _ _ _ _ (st_refines _ _ _ _ _ _ H1)) as [Hpos _].
  pose proof (read_at_bounds (a_content A) (a_pos A) (item_size * n_items) ltac:(lia) ltac:(lia)) as [Hl _].
  pose proof (frame_trans fd A A s s1 s2 eq_refl F1 F2) as F. unfold spec_op, spec_read in *.
  destruct (can_read A); simpl in *; rewrite E; simpl.
  - set (l := read_at _ _ _) in *. destruct (Z.eqb_spec (Z.of_nat (length l)) (-1)); [lia|].
    rewrite !u32_ok by (unfold U32_MOD in *; lia). simpl. rewrite u32_ok by (unfold U32_MOD in *; lia). simpl.
    rewrite Z.add_0_r, Z.max_r by lia. exists s2. split; [done|]. split; [|done].
    apply (stream_call _ _ _ s1 _ μ _ A); [done..|]. apply take_bytes_put. lia.
  - exists s2. split; [done|]. split; [|done]. by apply (stream_call _ _ _ s1 _ μ _ A).
Qed.

(** ** Lines *)

(** The bytes up to the first newline, with it. *)
Fixpoint line_of (l : list Z) : list Z :=
  match l with
  | [] => []
  | c :: l' => if c =? 10 then [c] else c :: line_of l'
  end.
Lemma line_of_length l : (length (line_of l) ≤ length l)%nat.
Proof. induction l as [|c l IH]; simpl; [done|]. destruct (c =? 10); simpl; lia. Qed.

Lemma put_bytes_cons q c l μ a : put_bytes (q + 1) l (put_bytes q [c] μ) a = put_bytes q (c :: l) μ a.
Proof.
  unfold put_bytes. cbn [length]. destruct (decide (q + 1 ≤ a < q + 1 + Z.of_nat (length l))).
  - rewrite decide_True by lia. by replace (Z.to_nat (a - q)) with (S (Z.to_nat (a - (q + 1)))) by lia.
  - destruct (decide (q ≤ a < q + Z.of_nat 1)).
    + rewrite decide_True by lia. by replace (Z.to_nat (a - q)) with 0%nat by lia.
    + by rewrite decide_False by lia.
Qed.

Lemma stream_mem p fp fd s μ μ' A : (∀ a, μ' a = μ a) → stream p fp fd s μ A → stream p fp fd s μ' A.
Proof.
  intros Hm [Hr Hfd ???]. split; [by apply (refines_mem _ _ _ _ μ)| |done..]. rewrite <- Hfd. f_equal.
  unfold take_bytes. by apply list_fmap_ext.
Qed.

(** Room for [n] bytes at [q], apart from [errno] and the [FILE]. *)
Definition line_room (p fp q n : Z) : Prop :=
  0 < q ∧ q + n < U32_MOD ∧ (q + n ≤ p ∨ p + 4 ≤ q) ∧ (q + n ≤ fp ∨ fp + 4 ≤ q).

Lemma read_at_step (c : list Z) pos n :
  0 ≤ pos → 0 < n →
  read_at c pos n = match read_at c pos 1 with [] => [] | x :: _ => x :: read_at c (pos + 1) (n - 1) end.
Proof.
  intros ??. unfold read_at. replace (Z.to_nat n) with (S (Z.to_nat (n - 1))) by lia.
  replace (Z.to_nat (pos + 1)) with (S (Z.to_nat pos)) by lia. change (Z.to_nat 1) with 1%nat.
  destruct (drop (Z.to_nat pos) c) as [|x l] eqn:E; [done|]. change (x :: take (Z.to_nat (n - 1)) l = x :: take (Z.to_nat (n - 1)) (drop (S (Z.to_nat pos)) c)). do 2 f_equal.
  transitivity (drop 1 (drop (Z.to_nat pos) c)); [by rewrite E|]. rewrite drop_drop. f_equal. lia.
Qed.

Lemma fgets_iterates p fp fd size n q s μ A :
  stream p fp fd s μ A → can_read A = true → 0 ≤ n ≤ size → size < U32_MOD → line_room p fp q (size - n) →
  let l := line_of (read_at (a_content A) (a_pos A) (size - n)) in
  ∃ k s' A', k ≤ size - n + 1 ∧
    iterates (fgets_body ro_content size fp) k (n, q, s) (Ret (n + Z.of_nat (length l), q + Z.of_nat (length l), s')) ∧
    stream p fp fd s' (put_bytes q l μ) A' ∧
    a_content A' = a_content A ∧ a_pos A' = a_pos A + Z.of_nat (length l) ∧ a_host A' = a_host A ∧ frame fd A s s'.
Proof.
  intros H Hc Hn Hs Hq. remember (Z.to_nat (size - n)) as r eqn:Hr. revert n q s μ A H Hc Hn Hq Hr.
  induction r as [|r IH]; intros n q s μ A H Hc Hn Hq Hr; cbv zeta.
  { replace (size - n) with 0 by lia. replace (read_at _ _ _) with (@nil Z) by done. simpl. rewrite !Z.add_0_r.
    exists 1, s, A. split_and!; [lia| | |done|lia|done|apply quiet_frame, quiet_refl].
    - apply iterates_stop. unfold fgets_body. by destruct (Z.ltb_spec n size); [lia|].
    - apply (stream_mem _ _ _ _ μ); [apply put_bytes_nil|done]. }
  destruct (r_ok _ _ _ _ _ _ (st_refines _ _ _ _ _ _ H)) as [Hpos _]. destruct Hq as (Hq0 & HqU & Hp & Hf).
  pose proof (fread_stream p fp fd q 1 1 s μ A H ltac:(lia)) as Hread. rewrite Z.mul_1_l in Hread.
  specialize (Hread ltac:(unfold buffer_ok, U32_MOD in *; lia) ltac:(lia)). unfold spec_op, spec_read in Hread. rewrite Hc in Hread.
  rewrite read_at_step by lia. assert (Hlen : (length (read_at (a_content A) (a_pos A) 1) ≤ 1)%nat) by (unfold read_at; rewrite length_take; lia).
  destruct (read_at (a_content A) (a_pos A) 1) as [|c [|??]] eqn:El; simpl in Hlen; [| |lia];
    simpl in Hread; rewrite ?Z.div_1_r in Hread; destruct Hread as (s1 & E1 & H1 & _ & F1).
  - rewrite Z.add_0_r in H1. eexists 1, s1, _. simpl. rewrite !Z.add_0_r. split_and!; [lia| |exact H1|done..].
    apply iterates_stop. unfold fgets_body. destruct (Z.ltb_spec n size); [|lia]. by rewrite E1.
  - set (A1 := mkAbs _ _ _ _) in H1.
    assert (byte_at (mem (io_env s1)) q = c) as Hq.
    { rewrite (r_mem _ _ _ _ _ _ (st_refines _ _ _ _ _ _ H1)) by lia. unfold put_bytes. simpl. rewrite decide_True by lia.
      by rewrite Z.sub_diag. }
    assert (fgets_body ro_content size fp (n, q, s) =
      Ret (if c =? 10 then inr (n + 1, q + 1, s1) else inl (n + 1, q + 1, s1))) as Hbody.
    { unfold fgets_body. destruct (Z.ltb_spec n size); [|lia]. rewrite E1, ret_bind. cbv beta iota. simpl negb. cbv iota.
      rewrite ptr_add_1, ret_bind by lia. rewrite u32_ok, ret_bind by lia. unfold ptr_sub. simpl rassert.
      rewrite ret_bind, u32_ok, ret_bind by (unfold U32_MOD; lia). rewrite Z.mul_1_l, u32_ok, ret_bind by lia.
      unfold io_mem. rewrite read_u8_eq, ret_bind by lia. replace (q + 1 - 1) with q by lia. by rewrite Hq. }
    cbn [line_of]. destruct (c =? 10) eqn:Ec.
    + exists 1, s1, A1. split_and!; [lia|by apply iterates_stop|done..].
    + destruct (IH (n + 1) (q + 1) s1 (put_bytes q [c] μ) A1) as (k & s2 & A2 & Hk & It & H2 & Hc2 & Hp2 & Hh2 & F2);
        [done|done|lia|unfold line_room; lia|lia|]. replace (size - (n + 1)) with (size - n - 1) in * by lia. cbn [a_content a_pos a_host A1] in *.
      set (l' := line_of _) in *. exists (k + 1), s2, A2. split_and!; [lia| | |done| |done|by apply (frame_trans fd A A1 s s1 s2)].
      * eapply iterates_step; [exact Hbody|]. cbn [length]. replace (n + Z.of_nat (S (length l'))) with (n + 1 + Z.of_nat (length l')) by lia.
        by replace (q + Z.of_nat (S (length l'))) with (q + 1 + Z.of_nat (length l')) by lia.
      * apply (stream_mem _ _ _ _ (put_bytes (q + 1) l' (put_bytes q [c] μ))); [|done]. intros a. by rewrite put_bytes_cons.
      * rewrite Hp2. cbn [length]. lia.
Qed.
End streams.

(** Writing the terminator behind the line. *)
Lemma stream_write_u8 ro p fp fd q v s μ A :
  stream ro p fp fd s μ A → 0 ≤ v < 256 → 0 ≤ q → q + 1 < U32_MOD → q + 1 ≤ fp ∨ fp + 4 ≤ q →
  ∃ m, write_u8 q v (io_mem s) = Ret m ∧ stream ro p fp fd (set_io_mem m s) (put_bytes q [v] μ) A.
Proof.
  intros [Hr Hfd Hn Hp (o & Ho & Hpb & Hu)] Hv ? ? Hd. destruct Hr as [He Hm Hf Ht Hok].
  unfold write_u8, write_u. change (Z.of_nat 1) with 1. rewrite mem_write_eq by (simpl; lia). eexists. split; [done|].
  split; [split; [done| |done..]| |done|done|by exists o].
  - intros a Ha. unfold io_mem at 1. cbn [set_io_mem set_io_env io_env set_mem mem]. rewrite byte_at_store.
    unfold put_bytes. simpl le_bytes. rewrite Z.mod_small by lia. case_decide; [done|by apply Hm].
  - rewrite <- Hfd. f_equal. apply take_bytes_put. simpl. lia.
Qed.

Lemma put_bytes_snoc q l c μ a : put_bytes (q + Z.of_nat (length l)) [c] (put_bytes q l μ) a = put_bytes q (l ++ [c]) μ a.
Proof.
  unfold put_bytes. rewrite length_app. cbn [length]. destruct (decide (_ ≤ a < q + Z.of_nat (length l) + _)).
  - rewrite decide_True by lia. rewrite lookup_app_r by lia. by replace (Z.to_nat (a - q) - length l)%nat with (Z.to_nat (a - (q + Z.of_nat (length l)))) by lia.
  - destruct (decide (q ≤ a < q + Z.of_nat (length l))).
    + rewrite decide_True by lia. by rewrite lookup_app_l by lia.
    + by rewrite decide_False by lia.
Qed.

(** [fgets] on a readable stream reads the next line, up to and including its
    newline, cut off at [size] bytes or at the end of the file, puts it into guest memory with a
    terminator, moves the position behind it and returns the buffer; it returns [NULL] and leaves guest
    memory alone if there is nothing to read.  It changes nothing else.  The line may have [size] bytes
    (C allows [size - 1]): the terminator is then written behind the buffer. *)
Theorem fgets_line ro p fp fd str size s μ A :
  stream ro p fp fd s μ A → can_read A = true → 0 ≤ size → line_room p fp str (size + 1) →
  let l := line_of (read_at (a_content A) (a_pos A) size) in
  ∃ s' A', fgets ro str size fp s = Ret (if decide (l = []) then 0 else str, s') ∧
    stream ro p fp fd s' (if decide (l = []) then μ else put_bytes str (l ++ [0]) μ) A' ∧
    a_content A' = a_content A ∧ a_pos A' = a_pos A + Z.of_nat (length l) ∧ frame fd A s s'.
Proof.
  intros H Hc Hs (Hq0 & HqU & Hqp & Hqf). cbv zeta.
  assert (size < U32_MOD) as Hsz by lia.
  destruct (fgets_iterates ro p fp fd size 0 str s μ A) as (k & s1 & A1 & Hk & It & H1 & Hc1 & Hp1 & Hh1 & F1);
    [done|done|lia|done|unfold line_room; lia|]. rewrite Z.sub_0_r in *. set (l := line_of _) in *.
  assert (Z.of_nat (length l) ≤ size) as Hll.
  { subst l. pose proof (line_of_length (read_at (a_content A) (a_pos A) size)).
    destruct (r_ok _ _ _ _ _ _ (st_refines _ _ _ _ _ _ _ H)) as [? _].
    pose proof (read_at_bounds (a_content A) (a_pos A) size ltac:(lia) ltac:(lia)). lia. }
  unfold fgets. rewrite (iterates_loop _ _ _ _ _ It), ret_bind by (unfold U32_MOD in *; lia). cbv beta iota. rewrite Z.add_0_l.
  case_decide as El.
  - rewrite El in *. simpl. exists s1, A1. split_and!; [done| |done|done|done].
    apply (stream_mem _ _ _ _ _ (put_bytes str [] μ)); [|done]. intros a. by rewrite put_bytes_nil.
  - destruct l as [|c l']; [done|]. destruct (Z.eqb_spec (Z.of_nat (length (c :: l'))) 0); [simpl in *; lia|].
    destruct (stream_write_u8 ro p fp fd (str + Z.of_nat (length (c :: l'))) 0 s1 _ A1 H1) as (m & Em & H2); [lia..|].
    rewrite Em. simpl mbind. eexists _, A1. split; [done|]. split_and!; [|done|done|].
    + eapply stream_mem; [|exact H2]. intros a. by rewrite put_bytes_snoc.
    + eapply (frame_trans fd A A); [done|exact F1|]. split; [done..|]. by exists m.
Qed.

(** A stream at 16384 on the descriptor 3 of a file with two lines. *)
Definition demo_stream : IoState :=
  mkIo (set_file_streams {[16384 := mkFILE [] 0 None]} (set_errnos {[0%nat := 4096]} (idle_env (set_bytes {[16384 := 3]} empty_mem))))
    (mkFs FsNode_dir [] []) {[demo_path := HFile [97; 98; 10; 99]]}
    [Some (mkPosixFile (GFile (mkHostFile demo_path demo_options 0)) 0 true false 0)] ∅ [] [].

Lemma fgets_line_witness :
  let ro := λ _ : GuestFile, @nil Z in
  ∃ s', fgets ro 8192 100 16384 demo_stream = Ret (8192, s') ∧ byte_at (io_mem s') 8194 = 10 ∧ byte_at (io_mem s') 8195 = 0.
Proof.
  intros ro. destruct (fgets_line ro 4096 16384 3 8192 100 demo_stream (byte_at (io_mem demo_stream))
    (mkAbs [97; 98; 10; 99] 0 false (Some (demo_path, demo_options)))) as (s' & A' & E & H & _ & _ & _).
  - split; [split; [vm_compute; by split_and!|done| |by vm_compute|by vm_compute]|by vm_compute|by vm_compute|unfold U32_MOD; lia|].
    + eexists. split; vm_compute; reflexivity.
    + eexists. split_and!; vm_compute; reflexivity.
  - reflexivity.
  - lia.
  - unfold line_room, U32_MOD. lia.
  - exists s'. split; [exact E|]. pose proof (r_mem _ _ _ _ _ _ (st_refines _ _ _ _ _ _ _ H)) as Hm.
    split; rewrite Hm by lia; vm_compute; reflexivity.
Defined.

(** Findings.  [ungetc] moves the descriptor back, and [fread] gives the pushed-back character without
    moving it forward again, so that the character is read twice: after "ab" has been read and pushed
    back, a read of three bytes of "ab\n" gives "aba".  And a read that pushed-back characters satisfy returns the number
    of bytes, not of items. *)
Definition after_ungetc (item_size n_items : Z) : outcome (Z * list Z) :=
  let ro := λ _ : GuestFile, @nil Z in
  '(_, s) ← fread ro 8192 1 2 16384 demo_stream;
  '(_, s) ← ungetc ro 98 16384 s;
  '(_, s) ← ungetc ro 97 16384 s;
  '(n, s) ← fread ro 8192 item_size n_items 16384 s;
  l ← bytes_at 8192 3 (io_mem s);
  Ret (n, l).
Example fread_repeats_pushed_back : after_ungetc 1 3 = Ret (3, [97; 98; 97]).
Proof. vm_compute. reflexivity. Qed.
Example fread_counts_bytes : after_ungetc 2 1 = Ret (2, [97; 98; 0]).
Proof. vm_compute. reflexivity. Qed.
