(* ===== verification/Abi.v ===== *)
(** * Calling conventions ([abi.rs], [stack.rs], parts of [cpu.rs])

    How host functions are called by the guest and guest functions by the host:
    the first four words of the arguments are in the registers r0 to r3, the others on
    the stack.  The values of all argument types (integers, booleans, pointers,
    floating point numbers as their bits) are integers here.  [run_call], which lets the
    emulated CPU run until the guest function returns, is a parameter. *)

From S2P Require Import Prelude ChunkMap SizeBucketed VMAllocator HeapAllocator GuestMem Env.

(** ** Registers ([cpu.rs]) *)

Definition SP : nat := 13.
Definition LR : nat := 14.
Definition PC : nat := 15.
Definition FRAME_POINTER : nat := 7.
Definition CPSR_THUMB : Z := 32.

Definition set_regs (r : list Z) (c : CpuContext) : CpuContext := mkCpuContext r (extregs c) (cpsr c) (fpscr c).
Definition set_cpsr (v : Z) (c : CpuContext) : CpuContext := mkCpuContext (regs c) (extregs c) v (fpscr c).
Definition get_reg (n : nat) (c : CpuContext) : outcome Z := unwrap (regs c !! n).
Definition set_reg (n : nat) (v : Z) (c : CpuContext) : CpuContext := set_regs (<[n := v]> (regs c)) c.

(** A guest function: an address whose lowest bit is set for Thumb code. *)
Notation GuestFunction := Z (only parsing).
Definition THUMB_BIT : Z := 1.
Definition from_addr_and_thumb_flag (pc : Z) (thumb : bool) : GuestFunction := Z.lor pc (Z.b2z thumb * THUMB_BIT).
Definition is_thumb (f : GuestFunction) : bool := Z.land f THUMB_BIT =? THUMB_BIT.
Definition addr_without_thumb_bit (f : GuestFunction) : Z := Z.land f (Z.lxor (U32_MOD - 1) THUMB_BIT).

Definition pc_with_thumb_bit (c : CpuContext) : outcome GuestFunction :=
  pc ← get_reg PC c;
  Ret (from_addr_and_thumb_flag pc (Z.land (cpsr c) CPSR_THUMB =? CPSR_THUMB)).
Definition branch (new_pc : GuestFunction) (c : CpuContext) : CpuContext :=
  let c := set_reg PC (addr_without_thumb_bit new_pc) c in
  let cpsr_without_thumb := Z.land (cpsr c) (Z.lxor (U32_MOD - 1) CPSR_THUMB) in
  set_cpsr (Z.lor cpsr_without_thumb (Z.b2z (is_thumb new_pc) * CPSR_THUMB)) c.
Definition branch_with_link (new_pc new_lr : GuestFunction) (c : CpuContext)
    : outcome (GuestFunction * GuestFunction * CpuContext) :=
  old_pc ← pc_with_thumb_bit c;
  old_lr ← get_reg LR c;
  Ret (old_pc, old_lr, set_reg LR new_lr (branch new_pc c)).

(** ** Argument types *)

(** [from_regs] and [to_regs] get the [REG_COUNT] words of the argument. *)
Record GuestArg := mkGuestArg {
  REG_COUNT : nat;
  from_regs : list Z → outcome Z;
  to_regs : Z → list Z
}.

(** [impl_GuestArg_with!]: the cast to [u32] and back, [as]. *)
Definition arg_u32 (cast : Z → Z) : GuestArg :=
  mkGuestArg 1 (λ regs, r ← unwrap (regs !! 0%nat); Ret (cast r)) (λ v, [v mod U32_MOD]).
(** Signed and unsigned casts to [n] bits. *)
Definition cast_u (n v : Z) : Z := v mod 2 ^ n.
Definition cast_i (n v : Z) : Z := let w := v mod 2 ^ n in if w <? 2 ^ (n - 1) then w else w - 2 ^ n.
Definition u32_arg : GuestArg := arg_u32 (λ v, v).
Definition i32_arg : GuestArg := arg_u32 (cast_i 32).
Definition u16_arg : GuestArg := arg_u32 (cast_u 16).
Definition i16_arg : GuestArg := arg_u32 (cast_i 16).
Definition u8_arg : GuestArg := arg_u32 (cast_u 8).
Definition i8_arg : GuestArg := arg_u32 (cast_i 8).
Definition bool_arg : GuestArg := arg_u32 (λ v, Z.b2z (negb (v =? 0))).
(** Pointers, guest functions and the bits of an [f32]. *)
Definition ptr_arg : GuestArg := u32_arg.

Definition arg_u64 (cast : Z → Z) : GuestArg :=
  mkGuestArg 2
    (λ regs, a ← unwrap (regs !! 0%nat); b ← unwrap (regs !! 1%nat); Ret (cast (from_le_bytes (le_bytes 4 a ++ le_bytes 4 b))))
    (λ v, let bytes := le_bytes 8 v in [from_le_bytes (take 4 bytes); from_le_bytes (drop 4 bytes)]).
Definition u64_arg : GuestArg := arg_u64 (λ v, v).
Definition i64_arg : GuestArg := arg_u64 (cast_i 64).
Definition f64_arg : GuestArg := u64_arg.

(** ** Arguments in registers and on the stack *)

(** The word at an offset: the loops of [read_next_arg] and [write_next_arg]. *)
Definition read_word (reg_offset : nat) (rs : list Z) (stack_ptr : Z) (m : Mem) : outcome Z :=
  if (reg_offset <? 4)%nat then unwrap (rs !! reg_offset)
  else p ← ptr_add 4 stack_ptr (Z.of_nat reg_offset - 4); read_u32 p m.
Fixpoint read_words (n reg_offset : nat) (rs : list Z) (stack_ptr : Z) (m : Mem) : outcome (list Z) :=
  match n with
  | O => Ret []
  | S n' =>
      w ← read_word reg_offset rs stack_ptr m;
      ws ← read_words n' (S reg_offset) rs stack_ptr m;
      Ret (w :: ws)
  end.
Definition read_next_arg (T : GuestArg) (reg_offset : nat) (rs : list Z) (stack_ptr : Z) (m : Mem) : outcome (Z * nat) :=
  rassert (REG_COUNT T <=? 16)%nat;;
  fake_regs ← read_words (REG_COUNT T) reg_offset rs stack_ptr m;
  v ← from_regs T fake_regs;
  Ret (v, (reg_offset + REG_COUNT T)%nat).

Fixpoint write_words (ws : list Z) (reg_offset : nat) (rs : list Z) (m : Mem) : outcome (list Z * Mem) :=
  match ws with
  | [] => Ret (rs, m)
  | w :: ws' =>
      if (reg_offset <? 4)%nat then write_words ws' (S reg_offset) (<[reg_offset := w]> rs) m
      else
        stack_ptr ← unwrap (rs !! SP);
        p ← ptr_add 4 stack_ptr (Z.of_nat reg_offset - 4);
        m ← write_u32 p w m;
        write_words ws' (S reg_offset) rs m
  end.
Definition write_next_arg (T : GuestArg) (reg_offset : nat) (rs : list Z) (m : Mem) (arg : Z) : outcome (nat * list Z * Mem) :=
  rassert (REG_COUNT T <=? 16)%nat;;
  '(rs, m) ← write_words (to_regs T arg) reg_offset rs m;
  Ret ((reg_offset + REG_COUNT T)%nat, rs, m).

(** The old stack pointer, and the registers. *)
Definition extend_stack_for_args (reg_count_sum : nat) (rs : list Z) : outcome (Z * list Z) :=
  old ← unwrap (rs !! SP);
  if (4 <? reg_count_sum)%nat then
    p ← ptr_sub 4 old (Z.of_nat reg_count_sum - 4); Ret (old, <[SP := p]> rs)
  else Ret (old, rs).

(** One after the other, as the macros expand. *)
Fixpoint read_args (sig : list GuestArg) (reg_offset : nat) (rs : list Z) (stack_ptr : Z) (m : Mem) : outcome (list Z * nat) :=
  match sig with
  | [] => Ret ([], reg_offset)
  | T :: sig =>
      '(v, off) ← read_next_arg T reg_offset rs stack_ptr m;
      '(vs, off) ← read_args sig off rs stack_ptr m;
      Ret (v :: vs, off)
  end.
Fixpoint write_args (sig : list GuestArg) (args : list Z) (reg_offset : nat) (rs : list Z) (m : Mem) : outcome (list Z * Mem) :=
  match sig, args with
  | T :: sig, v :: args =>
      '(off, rs, m) ← write_next_arg T reg_offset rs m v;
      write_args sig args off rs m
  | _, _ => Ret (rs, m)
  end.
Definition reg_count_sum (sig : list GuestArg) : nat := foldr (λ T n, (REG_COUNT T + n)%nat) 0%nat sig.

(** [va_list]: the offset of the next word, and where the stack starts. *)
Record VaList := mkVaList { va_reg_offset : nat; va_stack_pointer : Z }.
Definition VaList_next (T : GuestArg) (va : VaList) (e : Environment) : outcome (Z * VaList) :=
  '(v, off) ← read_next_arg T (va_reg_offset va) (regs (cpu e)) (va_stack_pointer va) (mem e);
  Ret (v, mkVaList off (va_stack_pointer va)).
(** A [va_list] passed as an argument: all its words are on the stack. *)
Definition VaList_from_regs (rs : list Z) : outcome VaList := p ← unwrap (rs !! 0%nat); Ret (mkVaList 4 p).

(** ** Return types *)

Class GuestRet (R : Type) := {
  SIZE_IN_MEM : option Z;
  ret_from_regs : list Z → outcome R;
  ret_to_regs : R → list Z → outcome (list Z);
  ret_from_mem : Z → Mem → outcome R;
  ret_to_mem : R → Z → Mem → outcome Mem
}.
#[global] Instance unit_ret : GuestRet () := {|
  SIZE_IN_MEM := None; ret_from_regs _ := Ret (); ret_to_regs _ rs := Ret rs; ret_from_mem _ _ := Panic; ret_to_mem _ _ _ := Panic
|}.
(** A type of one or two words, as an argument type has it. *)
Definition word_ret (T : GuestArg) : GuestRet Z := {|
  SIZE_IN_MEM := None;
  ret_from_regs rs := from_regs T rs;
  ret_to_regs v rs := Ret (to_regs T v ++ drop (REG_COUNT T) rs);
  ret_from_mem _ _ := Panic;
  ret_to_mem _ _ _ := Panic
|}.
(** [impl_GuestRet_for_large_struct!]: a structure of [size] bytes. *)
Definition large_struct_ret (size : Z) : GuestRet (list Z) := {|
  SIZE_IN_MEM := Some size;
  ret_from_regs _ := Panic;
  ret_to_regs _ _ := Panic;
  ret_from_mem p m := mem_read size p m;
  ret_to_mem v p m := mem_write size p v m
|}.

(** ** Calls *)

Definition set_env_regs (rs : list Z) (e : Environment) : Environment := set_cpu (set_regs rs (cpu e)) e.

Section calls.
Context {R : Type} `{GuestRet R}.

(** A host function called by the guest; one that is not variadic ignores the [VaList]. *)
Definition call_from_guest (sig : list GuestArg) (f : list Z → VaList → Environment → outcome (R * Environment))
    (e : Environment) : outcome Environment :=
  let rs := regs (cpu e) in
  sp ← unwrap (rs !! SP);
  '(retval_ptr, off) ← (match SIZE_IN_MEM with
                        | Some _ => '(p, off) ← read_next_arg ptr_arg 0 rs sp (mem e); Ret (Some p, off)
                        | None => Ret (None, 0%nat)
                        end);
  '(args, off) ← read_args sig off rs sp (mem e);
  '(retval, e) ← f args (mkVaList off sp) e;
  match retval_ptr with
  | Some p => m ← ret_to_mem retval p (mem e); Ret (set_mem m e)
  | None => rs ← ret_to_regs retval (regs (cpu e)); Ret (set_env_regs rs e)
  end.

(** Anything that can be called from the guest, called by the host with the guest's convention. *)
Definition call_from_host (sig : list GuestArg) (callee : Environment → outcome Environment) (args : list Z)
    (e : Environment) : outcome (R * Environment) :=
  '(retval_ptr, off, e) ←
    (match SIZE_IN_MEM with
     | Some size =>
         sp ← unwrap (regs (cpu e) !! SP);
         ptr ← u32 (sp - size);
         '(off, rs, m) ← write_next_arg ptr_arg 0 (<[SP := ptr]> (regs (cpu e))) (mem e) ptr;
         Ret (Some (ptr, size), off, set_mem m (set_env_regs rs e))
     | None => Ret (None, 0%nat, e)
     end);
  '(old_sp, rs) ← extend_stack_for_args (reg_count_sum sig) (regs (cpu e));
  '(rs, m) ← write_args sig args off rs (mem e);
  e ← callee (set_mem m (set_env_regs rs e));
  let e := set_env_regs (<[SP := old_sp]> (regs (cpu e))) e in
  match retval_ptr with
  | Some (ptr, size) =>
      sp ← unwrap (regs (cpu e) !! SP);
      sp ← u32 (sp + size);
      let e := set_env_regs (<[SP := sp]> (regs (cpu e))) e in
      r ← ret_from_mem ptr (mem e);
      Ret (r, e)
  | None => r ← ret_from_regs (regs (cpu e)); Ret (r, e)
  end.

(** [run_call], and the routine the guest returns to. *)
Variable run_call : Environment → outcome Environment.
Variable return_to_host_routine : GuestFunction.

(** A guest function called by the host: with a new stack frame. *)
Definition guest_call_from_host (self : GuestFunction) (sig : list GuestArg) (args : list Z) (e : Environment)
    : outcome (R * Environment) :=
  '(old_pc, old_lr, c) ← branch_with_link self return_to_host_routine (cpu e);
  old_sp ← get_reg SP c;
  old_fp ← get_reg FRAME_POINTER c;
  sp ← u32 (old_sp - 8);
  let c := set_reg FRAME_POINTER sp (set_reg SP sp c) in
  m ← write_u32 sp old_fp (mem e);
  q ← u32 (sp + 4);
  m ← write_u32 q old_lr m;
  rassert (match SIZE_IN_MEM with None => true | Some _ => false end);;
  '(_, rs) ← extend_stack_for_args (reg_count_sum sig) (regs c);
  '(rs, m) ← write_args sig args 0 rs m;
  e ← run_call (set_mem m (set_cpu (set_regs rs c) e));
  let c := branch old_pc (cpu e) in
  let c := set_reg FRAME_POINTER old_fp (set_reg SP old_sp (set_reg LR old_lr c)) in
  r ← ret_from_regs (regs c);
  Ret (r, set_cpu c e).

Definition call_without_pushing_stack_frame (self : GuestFunction) (e : Environment) : outcome Environment :=
  '(old_pc, old_lr, c) ← branch_with_link self return_to_host_routine (cpu e);
  e ← run_call (set_cpu c e);
  Ret (set_cpu (set_reg LR old_lr (branch old_pc (cpu e))) e).
End calls.

(** ** The stack of the main thread ([stack.rs]) *)

Definition MAIN_THREAD_STACK_SIZE : Z := 1048576.
Definition STACK_BASE : Z := U32_MOD.

(** [reversed_data] and [string_ptrs]. *)
Definition push_string (string : list Z) (x : list Z * list Z) : outcome (list Z * list Z) :=
  let '(reversed_data, string_ptrs) := x in
  let reversed_data := reversed_data ++ [0] ++ rev string in
  ptr ← u32 (STACK_BASE - Z.of_nat (length reversed_data));
  Ret (reversed_data, string_ptrs ++ [ptr]).
Definition push_word (w : Z) (x : list Z * list Z) : list Z * list Z := (x.1, x.2 ++ [w]).

Definition prep_stack_for_start (argv envp apple : list (list Z)) (m : Mem) (c : CpuContext) : outcome (Mem * CpuContext) :=
  argc ← i32 (Z.of_nat (length argv));
  x ← for_each push_string argv ([], [argc]);
  x ← for_each push_string envp x;
  let x := push_word 0 x in
  x ← for_each push_string apple x;
  let '(reversed_data, string_ptrs) := push_word 0 x in
  let misaligned_by := (length reversed_data mod 4)%nat in
  let pad_by := (if misaligned_by =? 0 then 0 else 4 - misaligned_by)%nat in
  let reversed_data := reversed_data ++ replicate pad_by 0 in
  let reversed_data := reversed_data ++ concat (map (λ p, rev (le_bytes 4 p)) (rev string_ptrs)) in
  stack_ptr ← u32 (STACK_BASE - Z.of_nat (length reversed_data));
  stack_height ← u32 (Z.of_nat (length reversed_data));
  rassert (stack_height <? MAIN_THREAD_STACK_SIZE);;
  m ← bytes_at_mut_copy stack_ptr stack_height (rev reversed_data) m;
  rassert (stack_height mod 4 =? 0);;
  Ret (m, set_reg SP stack_ptr c).
