(* ===== verification/AbiFacts.v ===== *)
(** * What is passed is what is received

    Arguments written by the host are read back by the callee, for every
    signature; calls of host functions with the guest's convention give what the function
    gives, calls of guest functions restore the registers; the main thread's stack holds the
    program's arguments. *)

From S2P Require Import Prelude ChunkMap SizeBucketed VMAllocator HeapAllocator GuestMem Env GenericChar GenericCharFacts CString CStringFacts Qsort Abi.

(** ** Argument types *)

(** What the conventions promise of an argument type: its values survive. *)
Class GuestArgLaws (T : GuestArg) := {
  arg_valid : Z → Prop;
  to_regs_length : ∀ v, length (to_regs T v) = REG_COUNT T;
  to_regs_words : ∀ v, arg_valid v → Forall is_u32 (to_regs T v);
  from_to_regs : ∀ v rest, arg_valid v → from_regs T (to_regs T v ++ rest) = Ret v;
  reg_count_small : (REG_COUNT T ≤ 16)%nat
}.

Lemma arg_u32_laws (cast : Z → Z) (valid : Z → Prop) :
  (∀ v, valid v → cast (v mod U32_MOD) = v) → GuestArgLaws (arg_u32 cast).
Proof.
  intros Hc. refine {| arg_valid := valid |}; [done| | |simpl; lia].
  - intros v _. apply Forall_singleton. unfold is_u32. apply Z.mod_pos_bound. unfold U32_MOD. lia.
  - intros v rest Hv. simpl. by rewrite Hc.
Defined.

Lemma cast_i_mod n v : 0 < n ≤ 32 → - 2 ^ (n - 1) ≤ v < 2 ^ (n - 1) → cast_i n (v mod U32_MOD) = v.
Proof.
  intros Hn Hv. unfold cast_i. assert (2 ^ n = 2 * 2 ^ (n - 1)) as Hp.
  { rewrite <- Z.pow_succ_r by lia. f_equal. lia. }
  assert (0 < 2 ^ (n - 1)) by (apply Z.pow_pos_nonneg; lia).
  assert ((v mod U32_MOD) mod 2 ^ n = v mod 2 ^ n) as ->.
  { symmetry. replace U32_MOD with (2 ^ n * 2 ^ (32 - n)); [|rewrite <- Z.pow_add_r by lia; by replace (n + (32 - n)) with 32 by lia].
    assert (0 < 2 ^ (32 - n)) by (apply Z.pow_pos_nonneg; lia).
    rewrite Z.rem_mul_r by lia. rewrite (Z.mul_comm (2 ^ n)), Z.mod_add by lia. by rewrite Z.mod_mod by lia. }
  destruct (Z.leb_spec 0 v).
  - rewrite Z.mod_small by lia. zcase; lia.
  - replace (v mod 2 ^ n) with (v + 2 ^ n); [zcase; lia|].
    rewrite <- (Z.mod_small (v + 2 ^ n) (2 ^ n)) by lia. rewrite <- (Z.mul_1_l (2 ^ n)) at 1. apply Z.mod_add. lia.
Qed.

#[global] Instance u32_laws : GuestArgLaws u32_arg.
Proof. apply (arg_u32_laws _ is_u32). intros v Hv. by apply Z.mod_small. Defined.
#[global] Instance i32_laws : GuestArgLaws i32_arg.
Proof. apply (arg_u32_laws _ (λ v, - 2 ^ 31 ≤ v < 2 ^ 31)). intros v Hv. apply cast_i_mod; lia. Defined.
#[global] Instance u16_laws : GuestArgLaws u16_arg.
Proof.
  apply (arg_u32_laws _ (λ v, 0 ≤ v < 2 ^ 16)). intros v Hv. unfold cast_u. rewrite (Z.mod_small v) by (unfold U32_MOD; lia).
  by apply Z.mod_small.
Defined.
#[global] Instance i16_laws : GuestArgLaws i16_arg.
Proof. apply (arg_u32_laws _ (λ v, - 2 ^ 15 ≤ v < 2 ^ 15)). intros v Hv. apply cast_i_mod; lia. Defined.
#[global] Instance u8_laws : GuestArgLaws u8_arg.
Proof.
  apply (arg_u32_laws _ (λ v, 0 ≤ v < 2 ^ 8)). intros v Hv. unfold cast_u. rewrite (Z.mod_small v) by (unfold U32_MOD; lia).
  by apply Z.mod_small.
Defined.
#[global] Instance i8_laws : GuestArgLaws i8_arg.
Proof. apply (arg_u32_laws _ (λ v, - 2 ^ 7 ≤ v < 2 ^ 7)). intros v Hv. apply cast_i_mod; lia. Defined.
#[global] Instance bool_laws : GuestArgLaws bool_arg.
Proof. apply (arg_u32_laws _ (λ v, v = 0 ∨ v = 1)). by intros v [-> | ->]. Defined.

Lemma le_bytes_app n k v : le_bytes (n + k) v = le_bytes n v ++ le_bytes k (v / 256 ^ Z.of_nat n).
Proof.
  revert v. induction n as [|n IH]; intros v; [by rewrite Z.div_1_r|]. cbn [Nat.add le_bytes app]. f_equal. rewrite IH. f_equal. f_equal.
  rewrite Nat2Z.inj_succ, Z.pow_succ_r by lia. by rewrite Z.div_div by lia.
Qed.
Lemma from_le_bytes_app l k : from_le_bytes (l ++ k) = from_le_bytes l + 256 ^ Z.of_nat (length l) * from_le_bytes k.
Proof.
  induction l as [|x l IH]; [cbn [app from_le_bytes length]; change (256 ^ Z.of_nat 0) with 1; lia|].
  cbn [app from_le_bytes length]. rewrite IH, Nat2Z.inj_succ, Z.pow_succ_r by lia. lia.
Qed.

Lemma arg_u64_laws (cast : Z → Z) (valid : Z → Prop) :
  (∀ v, valid v → cast (v mod U64_MOD) = v) → GuestArgLaws (arg_u64 cast).
Proof.
  intros Hc. refine {| arg_valid := valid |}; [done| | |simpl; lia].
  - intros v _. cbn [to_regs arg_u64]. cbv zeta. rewrite (le_bytes_app 4 4).
    rewrite take_app_length', drop_app_length' by (by rewrite le_bytes_length). rewrite !from_le_bytes_le_bytes. change (256 ^ Z.of_nat 4) with U32_MOD.
    repeat (apply Forall_cons; split); [..|by apply Forall_nil]; apply Z.mod_pos_bound; unfold U32_MOD; lia.
  - intros v rest Hv. rewrite <- (Hc v Hv) at 2. cbn [to_regs from_regs arg_u64]. cbv zeta. rewrite (le_bytes_app 4 4).
    rewrite take_app_length', drop_app_length' by (by rewrite le_bytes_length). rewrite !from_le_bytes_le_bytes. change (256 ^ Z.of_nat 4) with U32_MOD.
    cbn [app lookup list_lookup unwrap mbind outcome_bind]. do 2 f_equal. rewrite from_le_bytes_app, le_bytes_length, !from_le_bytes_le_bytes.
    change (256 ^ Z.of_nat 4) with U32_MOD. rewrite !Z.mod_mod by (unfold U32_MOD; lia).
    change U64_MOD with (U32_MOD * U32_MOD). by rewrite Z.rem_mul_r by (unfold U32_MOD; lia).
Defined.
#[global] Instance u64_laws : GuestArgLaws u64_arg.
Proof. apply (arg_u64_laws _ (λ v, 0 ≤ v < U64_MOD)). intros v Hv. by apply Z.mod_small. Defined.
#[global] Instance i64_laws : GuestArgLaws i64_arg.
Proof.
  apply (arg_u64_laws _ (λ v, - 2 ^ 63 ≤ v < 2 ^ 63)). intros v Hv. unfold cast_i. change U64_MOD with (2 ^ 64). rewrite Z.mod_mod by lia.
  destruct (Z.leb_spec 0 v); [rewrite Z.mod_small by lia; zcase; lia|].
  rewrite <- (Z.mod_add v 1), Z.mod_small by lia. zcase; lia.
Defined.

(** ** Words in registers and on the stack *)

(** The stack from [sp] on has room for the words before the offset [n]. *)
Definition stack_room (sp : Z) (n : nat) : Prop := 0 ≤ sp ∧ sp + 4 * (Z.of_nat n - 4) < U32_MOD.
Definition word_ptr (sp : Z) (k : nat) : Z := sp + 4 * (Z.of_nat k - 4).

Lemma word_ptr_eq sp k n : stack_room sp n → (4 ≤ k < n)%nat → ptr_add 4 sp (Z.of_nat k - 4) = Ret (word_ptr sp k).
Proof.
  intros [??] ?. unfold ptr_add. simpl rassert. rewrite ret_bind. unfold word_ptr.
  rewrite (u32_ok ((Z.of_nat k - 4) * 4)), ret_bind by lia. rewrite u32_ok by lia. f_equal. lia.
Qed.

Lemma write_words_spec ws off rs sp m :
  length rs = 16%nat → rs !! SP = Some sp → stack_room sp (off + length ws) → Forall is_u32 ws →
  ∃ rs' m', write_words ws off rs m = Ret (rs', m') ∧ length rs' = 16%nat ∧
    (∀ i w, ws !! i = Some w → read_word (off + i) rs' sp m' = Ret w) ∧
    (∀ k, (k < off ∨ 4 ≤ k)%nat → rs' !! k = rs !! k) ∧
    (∀ a, ¬ (word_ptr sp (Nat.max 4 off) ≤ a < word_ptr sp (off + length ws)) → byte_at m' a = byte_at m a).
Proof.
  revert off rs m. induction ws as [|w ws IH]; intros off rs m Hlen Hsp Hroom Hws.
  { exists rs, m. by split_and!. }
  apply Forall_cons in Hws as [Hw Hws]. cbn [length] in *. rewrite Nat.add_succ_r in Hroom.
  assert (∀ i x, (w :: ws) !! S i = Some x → ws !! i = Some x) as Htail by done.
  cbn [write_words]. destruct (Nat.ltb_spec off 4).
  - destruct (IH (S off) (<[off := w]> rs) m) as (rs' & m' & E & Hl' & Hr & Hrs & Hm);
      [by rewrite length_insert|rewrite list_lookup_insert_ne; [done|unfold SP; lia]|done|done|].
    exists rs', m'. split; [done|]. split; [done|]. split_and!.
    + intros [|i] x Hx; [|rewrite Nat.add_succ_r; by apply Hr]. simpl in Hx. simplify_eq. rewrite Nat.add_0_r. unfold read_word.
      destruct (Nat.ltb_spec off 4); [|lia]. rewrite Hrs by lia. by rewrite list_lookup_insert_eq by lia.
    + intros k Hk. rewrite Hrs by lia. apply list_lookup_insert_ne. lia.
    + intros a Ha. apply Hm. unfold word_ptr in *. lia.
  - rewrite Hsp. simpl unwrap. rewrite ret_bind, (word_ptr_eq sp off (S (off + length ws))), ret_bind by (done || lia).
    destruct Hroom as [? Hroom]. unfold write_u32.
    destruct (write_read_spec 4 (word_ptr sp off) w m) as (m1 & Ew & Er & Hf & _); [lia|unfold word_ptr; lia|unfold word_ptr; lia|].
    rewrite Ew, ret_bind. destruct (IH (S off) rs m1) as (rs' & m' & E & Hl' & Hr & Hrs & Hm); [done|done|done|done|].
    exists rs', m'. split; [done|]. split; [done|]. split_and!.
    + intros [|i] x Hx; [|rewrite Nat.add_succ_r; by apply Hr]. simpl in Hx. simplify_eq. rewrite Nat.add_0_r. unfold read_word.
      destruct (Nat.ltb_spec off 4); [lia|]. rewrite (word_ptr_eq sp off (S (off + length ws))), ret_bind by (done || lia).
      change (256 ^ Z.of_nat 4) with U32_MOD in Er. rewrite Z.mod_small in Er by done. rewrite <- Er. unfold read_u32, read_u.
      rewrite !mem_read_eq by (unfold word_ptr, U32_MOD in *; lia). f_equal. f_equal. apply list_fmap_ext.
      intros j a [-> ?]%lookup_seqZ. apply Hm. unfold word_ptr. lia.
    + intros k Hk. apply Hrs. lia.
    + intros a Ha. rewrite Hm by (unfold word_ptr in *; lia). apply Hf. unfold word_ptr in *. lia.
Qed.

Lemma read_words_eq ws off rs sp m :
  (∀ i w, ws !! i = Some w → read_word (off + i) rs sp m = Ret w) → read_words (length ws) off rs sp m = Ret ws.
Proof.
  revert off. induction ws as [|w ws IH]; intros off Hw; [done|]. cbn [length read_words].
  rewrite <- (Nat.add_0_r off) at 1. rewrite (Hw 0%nat w eq_refl), ret_bind, IH; [done|].
  intros i x Hx. rewrite Nat.add_succ_l, <- Nat.add_succ_r. by apply Hw.
Qed.

Lemma write_words_app ws1 ws2 off rs m :
  write_words (ws1 ++ ws2) off rs m = '(rs, m) ← write_words ws1 off rs m; write_words ws2 (off + length ws1) rs m.
Proof.
  revert off rs m. induction ws1 as [|w ws1 IH]; intros off rs m; [by rewrite Nat.add_0_r|].
  cbn [app write_words length]. rewrite Nat.add_succ_r. destruct (off <? 4)%nat; [by rewrite IH|].
  destruct (rs !! SP); [|done]. simpl. destruct (ptr_add 4 z _); [|done]. simpl. destruct (write_u32 _ _ _); [|done]. simpl. by rewrite IH.
Qed.

(** ** Argument lists *)

(** A signature with values of its types. *)
Inductive args_ok : list GuestArg → list Z → Prop :=
| args_nil : args_ok [] []
| args_cons T `{L : GuestArgLaws T} sig v args : arg_valid v → args_ok sig args → args_ok (T :: sig) (v :: args).

Fixpoint arg_words (sig : list GuestArg) (args : list Z) : list Z :=
  match sig, args with
  | T :: sig, v :: args => to_regs T v ++ arg_words sig args
  | _, _ => []
  end.
Lemma arg_words_length sig args : args_ok sig args → length (arg_words sig args) = reg_count_sum sig.
Proof. induction 1 as [|T L sig v args Hv Hok IH]; [done|]. simpl. by rewrite length_app, to_regs_length, IH. Qed.
Lemma arg_words_u32 sig args : args_ok sig args → Forall is_u32 (arg_words sig args).
Proof. induction 1 as [|T L sig v args Hv Hok IH]; [by apply Forall_nil|]. simpl. apply Forall_app. split; [by apply to_regs_words|done]. Qed.

Lemma write_args_words sig args off rs m :
  args_ok sig args → write_args sig args off rs m = write_words (arg_words sig args) off rs m.
Proof.
  intros Hok. revert off rs m. induction Hok as [|T L sig v args Hv Hok IH]; intros off rs m; [done|].
  cbn [write_args arg_words]. rewrite write_words_app, to_regs_length. unfold write_next_arg.
  destruct (Nat.leb_spec (REG_COUNT T) 16); [|pose proof reg_count_small; lia]. simpl rassert. rewrite ret_bind.
  destruct (write_words (to_regs T v) off rs m) as [[rs' m']|]; [|done]. simpl. by rewrite IH.
Qed.

Lemma read_args_words sig args off rs sp m :
  args_ok sig args → (∀ i w, arg_words sig args !! i = Some w → read_word (off + i) rs sp m = Ret w) →
  read_args sig off rs sp m = Ret (args, (off + reg_count_sum sig)%nat).
Proof.
  intros Hok. revert off. induction Hok as [|T L sig v args Hv Hok IH]; intros off Hw; [by rewrite Nat.add_0_r|].
  cbn [read_args arg_words] in *. unfold read_next_arg.
  destruct (Nat.leb_spec (REG_COUNT T) 16); [|pose proof reg_count_small; lia]. simpl rassert. rewrite ret_bind.
  rewrite <- (to_regs_length v), read_words_eq, ret_bind.
  - rewrite <- (app_nil_r (to_regs T v)), from_to_regs, !ret_bind by done. cbv beta iota. rewrite app_nil_r, to_regs_length.
    rewrite IH; [cbn [reg_count_sum foldr]; by rewrite ret_bind, Nat.add_assoc|]. intros i w Hi. rewrite <- Nat.add_assoc. apply Hw.
    rewrite lookup_app_r; rewrite to_regs_length; [|lia]. by replace (REG_COUNT T + i - REG_COUNT T)%nat with i by lia.
  - intros i w Hi. apply Hw. rewrite lookup_app_l; [done|by eapply lookup_lt_Some].
Qed.

(** ** Passing arguments *)

(** The stack pointer for [n] words of arguments. *)
Definition sp_for (sp : Z) (n : nat) : Z := sp - 4 * Z.max 0 (Z.of_nat n - 4).

Lemma extend_stack_spec n rs sp :
  rs !! SP = Some sp → sp < U32_MOD → 0 ≤ sp_for sp n → extend_stack_for_args n rs = Ret (sp, <[SP := sp_for sp n]> rs).
Proof.
  intros Hsp Hm Hs. unfold extend_stack_for_args, sp_for in *. rewrite Hsp. simpl. destruct (Nat.ltb_spec 4 n).
  - unfold ptr_sub. simpl rassert. rewrite ret_bind. rewrite (u32_ok ((Z.of_nat n - 4) * 4)), ret_bind by (unfold U32_MOD in *; lia).
    rewrite u32_ok, ret_bind by lia. do 3 f_equal. lia.
  - replace (sp - _) with sp by lia. by rewrite list_insert_id.
Qed.

(** What the callee finds: the arguments, the stack pointer below them, and all else as it was. *)
Record passed (sig : list GuestArg) (args : list Z) (sp : Z) (rs rs' : list Z) (m m' : Mem) : Prop := {
  p_length : length rs' = 16%nat;
  p_sp : rs' !! SP = Some (sp_for sp (reg_count_sum sig));
  p_args : read_args sig 0 rs' (sp_for sp (reg_count_sum sig)) m' = Ret (args, reg_count_sum sig);
  p_regs : ∀ k, (4 ≤ k)%nat → k ≠ SP → rs' !! k = rs !! k;
  p_mem : ∀ a, ¬ (sp_for sp (reg_count_sum sig) ≤ a < sp) → byte_at m' a = byte_at m a
}.

Lemma pass_args_spec sig args rs sp m :
  length rs = 16%nat → rs !! SP = Some sp → sp < U32_MOD → 0 ≤ sp_for sp (reg_count_sum sig) → args_ok sig args →
  ∃ rs1 rs' m', extend_stack_for_args (reg_count_sum sig) rs = Ret (sp, rs1) ∧ write_args sig args 0 rs1 m = Ret (rs', m') ∧
    passed sig args sp rs rs' m m'.
Proof.
  intros Hlen Hsp Hm Hs Hok. set (n := reg_count_sum sig) in *. set (sp' := sp_for sp n) in *.
  rewrite (extend_stack_spec n rs sp) by done. exists (<[SP := sp']> rs). rewrite write_args_words by done.
  pose proof (arg_words_length _ _ Hok) as Hwl. fold n in Hwl.
  destruct (write_words_spec (arg_words sig args) 0 (<[SP := sp']> rs) sp' m) as (rs' & m' & E & Hl & Hr & Hrs & Hmem).
  - by rewrite length_insert.
  - apply list_lookup_insert_eq. unfold SP. lia.
  - rewrite Hwl. split; [done|]. subst sp'. unfold sp_for. lia.
  - by apply arg_words_u32.
  - exists rs', m'. split; [done|]. split; [done|]. split.
    + done.
    + rewrite Hrs by (unfold SP; lia). apply list_lookup_insert_eq. unfold SP. lia.
    + by apply read_args_words.
    + intros k Hk Hne. rewrite Hrs by lia. by apply list_lookup_insert_ne.
    + intros a Ha. apply Hmem. rewrite Hwl. unfold word_ptr. fold n sp' in Ha. subst sp'. unfold sp_for in *. lia.
Qed.

(** ** Calls of host functions *)

Lemma insert_after {A} (i : nat) (x : A) (l k : list A) :
  (length l ≤ i)%nat → <[i := x]> (l ++ k) = l ++ <[(i - length l)%nat := x]> k.
Proof. intros. by apply insert_app_r_alt. Qed.

(** C18: calling a host function through the guest's calling convention, with any list of
    arguments of any types: the function gets exactly the arguments it was called with, in a state that
    differs only in the argument registers, the stack pointer and the stack below it; what it
    returns is what the caller gets, and the caller's stack pointer is restored. *)
Theorem host_call_roundtrip sig args T `{!GuestArgLaws T} f e sp :
  length (regs (cpu e)) = 16%nat → regs (cpu e) !! SP = Some sp → sp < U32_MOD → 0 ≤ sp_for sp (reg_count_sum sig) →
  args_ok sig args → (REG_COUNT T ≤ 4)%nat →
  ∃ rs m, passed sig args sp (regs (cpu e)) rs (mem e) m ∧
    let va := mkVaList (reg_count_sum sig) (sp_for sp (reg_count_sum sig)) in
    ∀ r e2, f args va (set_mem m (set_env_regs rs e)) = Ret (r, e2) → arg_valid r → length (regs (cpu e2)) = 16%nat →
    ∃ e3, call_from_host (H := word_ret T) sig (call_from_guest (H := word_ret T) sig f) args e = Ret (r, e3) ∧
      regs (cpu e3) !! SP = Some sp ∧ mem e3 = mem e2.
Proof.
  intros Hlen Hsp Hm Hs Hok HT. destruct (pass_args_spec sig args (regs (cpu e)) sp (mem e)) as (rs1 & rs & m & E1 & E2 & Hp); [done..|].
  exists rs, m. split; [done|]. cbv zeta. intros r e2 Hf Hr Hl2. unfold call_from_host. cbn [SIZE_IN_MEM word_ret]. rewrite ret_bind. cbv beta iota.
  rewrite E1, ret_bind. cbv beta iota. rewrite E2, ret_bind. cbv beta iota.
  unfold call_from_guest. cbn [SIZE_IN_MEM word_ret]. cbn [set_mem set_env_regs set_cpu cpu set_regs regs mem].
  rewrite (p_sp _ _ _ _ _ _ _ Hp). simpl unwrap. rewrite !ret_bind. cbv beta iota. rewrite (p_args _ _ _ _ _ _ _ Hp), ret_bind. cbv beta iota.
  cbn [set_mem set_env_regs set_cpu] in Hf. rewrite Hf, ret_bind. cbv beta iota. cbn [ret_to_regs ret_from_regs word_ret]. rewrite !ret_bind.
  cbn [set_env_regs set_cpu set_regs regs cpu mem].
  rewrite insert_after, from_to_regs, ret_bind by (try done; rewrite to_regs_length; unfold SP; lia).
  eexists. split; [done|]. cbn [set_env_regs set_cpu set_regs regs cpu mem]. split; [|done].
  rewrite lookup_app_r; rewrite to_regs_length; [|unfold SP; lia]. apply list_lookup_insert_eq. rewrite length_drop. unfold SP. lia.
Qed.

(** A function of an [i8], a [u64], a [u32], a [bool] and an [i32] (two words on the stack). *)
Definition demo_sig : list GuestArg := [i8_arg; u64_arg; u32_arg; bool_arg; i32_arg].
Definition demo_args : list Z := [-5; 10000000000; 7; 1; -9].
Definition demo_cpu : CpuContext := set_reg SP 65536 CpuContext_new.
Definition demo_env : Environment := set_cpu demo_cpu (idle_env empty_mem).
(** It adds its arguments up. *)
Definition demo_function (args : list Z) (_ : VaList) (e : Environment) : outcome (Z * Environment) :=
  Ret (foldr Z.add 0 args, e).

Lemma demo_args_ok : args_ok demo_sig demo_args.
Proof. repeat (eapply args_cons; [vm_compute; by auto|]). apply args_nil. Qed.

Lemma host_call_roundtrip_witness :
  ∃ e3, call_from_host (H := word_ret i64_arg) demo_sig (call_from_guest (H := word_ret i64_arg) demo_sig demo_function) demo_args demo_env
    = Ret (9999999994, e3) ∧ regs (cpu e3) !! SP = Some 65536.
Proof.
  destruct (host_call_roundtrip demo_sig demo_args i64_arg demo_function demo_env 65536) as (rs & m & Hp & H);
    [vm_compute; reflexivity|vm_compute; reflexivity|vm_compute; reflexivity|vm_compute; discriminate|exact demo_args_ok|vm_compute; lia|].
  destruct (H 9999999994 _ eq_refl) as (e3 & E & Hsp & _); [vm_compute; by split|exact (p_length _ _ _ _ _ _ _ Hp)|].
  exists e3. split; [exact E|exact Hsp].
Defined.

(** ** Calls of guest functions *)

Lemma branch_regs f c k : k ≠ PC → regs (branch f c) !! k = regs c !! k.
Proof. intros. unfold branch, set_reg. simpl. by apply list_lookup_insert_ne. Qed.
Lemma branch_length f c : length (regs (branch f c)) = length (regs c).
Proof. unfold branch, set_reg. simpl. apply length_insert. Qed.

(** Going back to a program counter: the address and the mode. *)
Lemma thumb_flag_roundtrip pc thumb :
  0 ≤ pc < U32_MOD → Z.land pc 1 = 0 →
  addr_without_thumb_bit (from_addr_and_thumb_flag pc thumb) = pc ∧ is_thumb (from_addr_and_thumb_flag pc thumb) = thumb.
Proof.
  intros Hpc H0. unfold addr_without_thumb_bit, from_addr_and_thumb_flag, is_thumb, THUMB_BIT. split.
  - change (Z.lxor (U32_MOD - 1) 1) with (Z.land (Z.ones 32) (Z.lnot 1)). rewrite Z.mul_1_r.
    rewrite (Z.land_comm (Z.ones 32)), Z.land_assoc, Z.land_lor_distr_l.
    replace (Z.land (Z.b2z thumb) (Z.lnot 1)) with 0 by (by destruct thumb). rewrite Z.lor_0_r.
    rewrite <- Z.ldiff_land. rewrite Z.land_ones by lia. replace (Z.ldiff pc 1) with pc.
    + by rewrite Z.mod_small.
    + apply Z.bits_inj'. intros n Hn. rewrite Z.ldiff_spec. destruct (Z.eqb_spec n 0) as [->|Hne].
      * assert (Z.testbit (Z.land pc 1) 0 = false) as Hb by (rewrite H0; apply Z.bits_0). rewrite Z.land_spec in Hb.
        change (Z.testbit 1 0) with true in *. by rewrite andb_true_r in Hb; rewrite Hb.
      * replace (Z.testbit 1 n) with false; [by rewrite andb_true_r|]. symmetry. apply (Z.pow2_bits_false 0). lia.
  - rewrite Z.land_lor_distr_l, H0, Z.lor_0_l. by destruct thumb.
Qed.

Lemma branch_pc f c : (15 < length (regs c))%nat → regs (branch f c) !! PC = Some (addr_without_thumb_bit f).
Proof. intros. unfold branch, set_reg. simpl. apply list_lookup_insert_eq. unfold PC. lia. Qed.
Lemma branch_thumb f c : (Z.land (cpsr (branch f c)) CPSR_THUMB =? CPSR_THUMB) = is_thumb f.
Proof.
  unfold branch. simpl. rewrite Z.land_lor_distr_l, <- Z.land_assoc. change (Z.land (Z.lxor (U32_MOD - 1) CPSR_THUMB) CPSR_THUMB) with 0.
  rewrite Z.land_0_r, Z.lor_0_l. by destruct (is_thumb f).
Qed.

(** The state in which the guest function starts: its program counter, the link register, the arguments, a
    frame with the caller's frame pointer and return address, and memory above the frame as it was. *)
Record guest_entry (self return_routine : Z) (sig : list GuestArg) (args : list Z) (sp fp lr : Z) (e e1 : Environment) : Prop := {
  g_pc : pc_with_thumb_bit (cpu e1) = Ret (from_addr_and_thumb_flag (addr_without_thumb_bit self) (is_thumb self));
  g_lr : regs (cpu e1) !! LR = Some return_routine;
  g_args : ∃ sp', regs (cpu e1) !! SP = Some sp' ∧ read_args sig 0 (regs (cpu e1)) sp' (mem e1) = Ret (args, reg_count_sum sig);
  g_frame : regs (cpu e1) !! FRAME_POINTER = Some (sp - 8) ∧ read_u32 (sp - 8) (mem e1) = Ret fp ∧ read_u32 (sp - 4) (mem e1) = Ret lr;
  g_mem : ∀ a, sp ≤ a → byte_at (mem e1) a = byte_at (mem e) a
}.

(** The words of the frame survive the writing of the arguments below it. *)
Lemma read_u32_frame m m' p v :
  (∀ a, p ≤ a < p + 4 → byte_at m' a = byte_at m a) → 0 ≤ p → p + 4 ≤ U32_MOD → read_u32 p m = Ret v → read_u32 p m' = Ret v.
Proof.
  intros Hb ?? <-. unfold read_u32, read_u. rewrite !mem_read_eq by (unfold U32_MOD in *; lia). do 2 f_equal.
  apply list_fmap_ext. intros i a [-> ?]%lookup_seqZ. apply Hb. lia.
Qed.

(** The frame: two words below the stack pointer. *)
Lemma push_frame_spec m sp fp lr :
  8 ≤ sp < U32_MOD → is_u32 fp → is_u32 lr →
  ∃ m1 m2, write_u32 (sp - 8) fp m = Ret m1 ∧ write_u32 (sp - 8 + 4) lr m1 = Ret m2 ∧
    read_u32 (sp - 8) m2 = Ret fp ∧ read_u32 (sp - 4) m2 = Ret lr ∧ ∀ a, sp ≤ a → byte_at m2 a = byte_at m a.
Proof.
  intros Hsp Hfp Hlr. unfold write_u32.
  destruct (write_read_spec 4 (sp - 8) fp m) as (m1 & E1 & R1 & F1 & _); [lia..|].
  destruct (write_read_spec 4 (sp - 8 + 4) lr m1) as (m2 & E2 & R2 & F2 & _); [lia..|].
  change (256 ^ Z.of_nat 4) with U32_MOD in *. rewrite Z.mod_small in R1, R2 by done. exists m1, m2. split_and!; [done|done| | |].
  - apply (read_u32_frame m1); [intros a Ha; apply F2; lia|lia|lia|done].
  - by replace (sp - 4) with (sp - 8 + 4) by lia.
  - intros a Ha. rewrite F2 by lia. apply F1. lia.
Qed.

Lemma to_regs_prefix T `{!GuestArgLaws T} r rs :
  take (REG_COUNT T) rs = to_regs T r → arg_valid r → from_regs T rs = Ret r.
Proof. intros Ht Hr. rewrite <- (take_drop (REG_COUNT T) rs), Ht. by apply from_to_regs. Qed.

(** The first half of a call: the state in which [run_call] starts. *)
Definition enter_guest (self routine : Z) (sig : list GuestArg) (args : list Z) (e : Environment) : outcome (Z * Z * Z * Z * Environment) :=
  '(old_pc, old_lr, c) ← branch_with_link self routine (cpu e);
  old_sp ← get_reg SP c;
  old_fp ← get_reg FRAME_POINTER c;
  sp ← u32 (old_sp - 8);
  let c := set_reg FRAME_POINTER sp (set_reg SP sp c) in
  m ← write_u32 sp old_fp (mem e);
  q ← u32 (sp + 4);
  m ← write_u32 q old_lr m;
  '(_, rs) ← extend_stack_for_args (reg_count_sum sig) (regs c);
  '(rs, m) ← write_args sig args 0 rs m;
  Ret (old_pc, old_lr, old_sp, old_fp, set_mem m (set_cpu (set_regs rs c) e)).

Lemma guest_call_enter T run_call routine self sig args e :
  guest_call_from_host (H := word_ret T) run_call routine self sig args e =
    '(old_pc, old_lr, old_sp, old_fp, e1) ← enter_guest self routine sig args e;
    e2 ← run_call e1;
    let c := set_reg FRAME_POINTER old_fp (set_reg SP old_sp (set_reg LR old_lr (branch old_pc (cpu e2)))) in
    r ← from_regs T (regs c);
    Ret (r, set_cpu c e2).
Proof.
  unfold guest_call_from_host, enter_guest. destruct (branch_with_link self routine (cpu e)) as [[[old_pc old_lr] c]|]; [|done]. simpl.
  destruct (get_reg SP c); [|done]. simpl. destruct (get_reg FRAME_POINTER c); [|done]. simpl. destruct (u32 (a - 8)); [|done]. simpl.
  destruct (write_u32 a1 a0 (mem e)); [|done]. simpl. destruct (u32 (a1 + 4)); [|done]. simpl. destruct (write_u32 a3 old_lr a2); [|done]. simpl.
  destruct (extend_stack_for_args _ _) as [[??]|]; [|done]. simpl. by destruct (write_args sig args 0 l a4) as [[??]|].
Qed.

(** A caller's state: sixteen registers, of which these are used. *)
Record caller (sp fp lr pc : Z) (e : Environment) : Prop := {
  c_length : length (regs (cpu e)) = 16%nat;
  c_sp : regs (cpu e) !! SP = Some sp;
  c_fp : regs (cpu e) !! FRAME_POINTER = Some fp;
  c_lr : regs (cpu e) !! LR = Some lr;
  c_pc : regs (cpu e) !! PC = Some pc;
  c_range : is_u32 fp ∧ is_u32 lr ∧ is_u32 pc ∧ Z.land pc 1 = 0 ∧ sp < U32_MOD
}.
Definition thumb_mode (e : Environment) : bool := Z.land (cpsr (cpu e)) CPSR_THUMB =? CPSR_THUMB.

Lemma enter_guest_spec self routine sig args sp fp lr pc e :
  caller sp fp lr pc e → 0 ≤ sp_for (sp - 8) (reg_count_sum sig) → args_ok sig args →
  ∃ e1, enter_guest self routine sig args e = Ret (from_addr_and_thumb_flag pc (thumb_mode e), lr, sp, fp, e1) ∧
    guest_entry self routine sig args sp fp lr e e1.
Proof.
  intros [Hlen Hsp Hfp Hlr Hpc (? & ? & ? & ? & Hm)] Hs Hok. unfold enter_guest, branch_with_link, pc_with_thumb_bit, get_reg.
  rewrite Hpc. simpl unwrap. rewrite !ret_bind. rewrite Hlr. simpl unwrap. rewrite !ret_bind. cbv beta iota.
  set (c := set_reg LR routine (branch self (cpu e))).
  assert (∀ k, k ≠ LR → k ≠ PC → regs c !! k = regs (cpu e) !! k) as Hc.
  { intros k ??. subst c. unfold set_reg. cbn [regs set_regs]. rewrite list_lookup_insert_ne by done. by apply branch_regs. }
  assert (length (regs c) = 16%nat) as Hcl by (subst c; unfold set_reg; cbn [regs set_regs]; by rewrite length_insert, branch_length).
  rewrite !Hc, Hsp, Hfp by done. simpl unwrap. rewrite !ret_bind.
  assert (8 ≤ sp) by (unfold sp_for in Hs; lia). rewrite u32_ok, ret_bind by lia. cbv zeta.
  destruct (push_frame_spec (mem e) sp fp lr) as (m1 & m2 & E1 & E2 & R1 & R2 & F); [lia|done|done|].
  rewrite E1, ret_bind, u32_ok, ret_bind by (unfold U32_MOD in *; lia). rewrite E2, ret_bind.
  set (c1 := set_reg FRAME_POINTER (sp - 8) (set_reg SP (sp - 8) c)).
  assert (length (regs c1) = 16%nat) as Hl1 by (subst c1; unfold set_reg; cbn [regs set_regs]; by rewrite !length_insert).
  destruct (pass_args_spec sig args (regs c1) (sp - 8) m2) as (rs1 & rs & m3 & E3 & E4 & Hp); [done| |lia|done|done|].
  { subst c1. unfold set_reg. cbn [regs set_regs]. rewrite list_lookup_insert_ne by done. apply list_lookup_insert_eq. rewrite Hcl. unfold SP. lia. }
  rewrite E3, ret_bind. cbv beta iota. rewrite E4, ret_bind. cbv beta iota. eexists. split; [done|].
  assert (∀ k, (4 ≤ k)%nat → k ≠ SP → k ≠ FRAME_POINTER → rs !! k = regs c !! k) as Hrs.
  { intros k ???. rewrite (p_regs _ _ _ _ _ _ _ Hp) by done. subst c1. unfold set_reg. cbn [regs set_regs]. by rewrite !list_lookup_insert_ne by done. }
  assert (sp_for (sp - 8) (reg_count_sum sig) ≤ sp - 8) by (unfold sp_for; lia).
  split; cbn [cpu set_mem set_cpu set_regs regs mem].
  - unfold pc_with_thumb_bit, get_reg. cbn [set_regs regs cpsr]. rewrite Hrs by (done || (unfold PC; lia)).
    change (cpsr c1) with (cpsr (branch self (cpu e))). rewrite branch_thumb. subst c. unfold set_reg. cbn [regs set_regs].
    by rewrite list_lookup_insert_ne, branch_pc by (done || lia).
  - rewrite Hrs by (done || (unfold LR; lia)). subst c. unfold set_reg. cbn [regs set_regs]. apply list_lookup_insert_eq. rewrite branch_length, Hlen. unfold LR. lia.
  - exists (sp_for (sp - 8) (reg_count_sum sig)). split; [apply (p_sp _ _ _ _ _ _ _ Hp)|apply (p_args _ _ _ _ _ _ _ Hp)].
  - split_and!.
    + rewrite (p_regs _ _ _ _ _ _ _ Hp) by (done || (unfold FRAME_POINTER; lia)). subst c1. unfold set_reg. cbn [regs set_regs].
      apply list_lookup_insert_eq. rewrite length_insert, Hcl. unfold FRAME_POINTER. lia.
    + apply (read_u32_frame m2); [intros a Ha; apply (p_mem _ _ _ _ _ _ _ Hp); lia|lia|lia|done].
    + apply (read_u32_frame m2); [intros a Ha; apply (p_mem _ _ _ _ _ _ _ Hp); lia|lia|lia|done].
  - intros a Ha. rewrite (p_mem _ _ _ _ _ _ _ Hp) by lia. by apply F.
Qed.

(** C19: a call of a guest function by the host, with any arguments: the function starts at its
    address in the right mode, with the return routine in the link register, its arguments in
    place and a stack frame that links to the caller's; whatever it does to the registers,
    afterwards the caller's program counter, mode, link register, stack pointer and frame
    pointer are as before the call, and the result is what the function left in the result
    registers. *)
Theorem guest_call_restores run_call routine self sig args T `{!GuestArgLaws T} e sp fp lr pc :
  caller sp fp lr pc e → 0 ≤ sp_for (sp - 8) (reg_count_sum sig) → args_ok sig args → (REG_COUNT T ≤ 4)%nat →
  ∃ e1, guest_entry self routine sig args sp fp lr e e1 ∧
    ∀ e2 r, run_call e1 = Ret e2 → length (regs (cpu e2)) = 16%nat →
      take (REG_COUNT T) (regs (cpu e2)) = to_regs T r → arg_valid r →
      ∃ e3, guest_call_from_host (H := word_ret T) run_call routine self sig args e = Ret (r, e3) ∧
        regs (cpu e3) !! SP = Some sp ∧ regs (cpu e3) !! FRAME_POINTER = Some fp ∧ regs (cpu e3) !! LR = Some lr ∧
        pc_with_thumb_bit (cpu e3) = pc_with_thumb_bit (cpu e) ∧ mem e3 = mem e2 ∧
        ∀ k, k ∉ [SP; FRAME_POINTER; LR; PC] → regs (cpu e3) !! k = regs (cpu e2) !! k.
Proof.
  intros Hc Hs Hok HT. destruct (enter_guest_spec self routine sig args sp fp lr pc e Hc Hs Hok) as (e1 & E & Hentry).
  exists e1. split; [done|]. intros e2 r Hrun Hlen Hret Hr. rewrite guest_call_enter, E, ret_bind. cbv beta iota. rewrite Hrun, ret_bind. cbv zeta.
  destruct Hc as [_ _ _ _ Hpc (_ & _ & Hpcr & Hpc0 & _)].
  destruct (thumb_flag_roundtrip pc (thumb_mode e)) as [Haddr Hthumb]; [done|done|].
  set (b := branch _ (cpu e2)).
  assert (length (regs b) = 16%nat) as Hbl by (subst b; by rewrite branch_length).
  set (c := set_reg FRAME_POINTER fp (set_reg SP sp (set_reg LR lr b))).
  assert (∀ k, k ∉ [SP; FRAME_POINTER; LR] → regs c !! k = regs b !! k) as Hcb.
  { intros k Hk. subst c. unfold set_reg. cbn [regs set_regs]. rewrite !not_elem_of_cons in Hk. by rewrite !list_lookup_insert_ne by naive_solver. }
  assert (∀ k, k ∉ [SP; FRAME_POINTER; LR; PC] → regs c !! k = regs (cpu e2) !! k) as Hce.
  { intros k Hk. rewrite !not_elem_of_cons in Hk. rewrite Hcb by (rewrite !not_elem_of_cons; naive_solver). apply branch_regs. naive_solver. }
  rewrite (to_regs_prefix T r), ret_bind; [| |done].
  2: { rewrite <- Hret. apply list_eq. intros i. destruct (decide (i < REG_COUNT T)%nat); [|by rewrite !lookup_take_ge by lia].
       rewrite !lookup_take_lt by lia. apply Hce. unfold SP, FRAME_POINTER, LR, PC. rewrite !not_elem_of_cons.
       split_and!; [lia..|apply not_elem_of_nil]. }
  exists (set_cpu c e2). split; [done|]. cbn [cpu set_cpu]. split_and!; [..|done|done].
  - subst c. unfold set_reg. cbn [regs set_regs]. rewrite list_lookup_insert_ne by done. apply list_lookup_insert_eq.
    rewrite length_insert, Hbl. unfold SP. lia.
  - subst c. unfold set_reg. cbn [regs set_regs]. apply list_lookup_insert_eq. rewrite !length_insert, Hbl. unfold FRAME_POINTER. lia.
  - subst c. unfold set_reg. cbn [regs set_regs]. rewrite !list_lookup_insert_ne by done. apply list_lookup_insert_eq.
    rewrite Hbl. unfold LR. lia.
  - unfold pc_with_thumb_bit, get_reg. rewrite Hpc, Hcb by (unfold SP, FRAME_POINTER, LR, PC; rewrite !not_elem_of_cons; split_and!; [lia..|apply not_elem_of_nil]).
    change (cpsr c) with (cpsr b). subst b. rewrite branch_pc, branch_thumb by (rewrite Hlen; lia). simpl unwrap. rewrite !ret_bind.
    by rewrite Haddr, Hthumb.
Qed.

(** A guest function that puts 42 into r0 and clobbers all other registers. *)
Definition demo_run_call (e : Environment) : outcome Environment :=
  Ret (set_env_regs (42 :: replicate 15 99) e).
Lemma guest_call_restores_witness :
  ∃ e3, guest_call_from_host (H := word_ret u32_arg) demo_run_call 256 32769 demo_sig demo_args demo_env = Ret (42, e3) ∧
    regs (cpu e3) !! SP = Some 65536 ∧ pc_with_thumb_bit (cpu e3) = Ret 0.
Proof.
  destruct (guest_call_restores demo_run_call 256 32769 demo_sig demo_args u32_arg demo_env 65536 0 0 0) as (e1 & _ & H).
  - split; [vm_compute; reflexivity..|vm_compute; by split_and!].
  - vm_compute. discriminate.
  - exact demo_args_ok.
  - vm_compute. lia.
  - destruct (H _ 42 eq_refl) as (e3 & E & Hsp & _ & _ & Hpc & _); [reflexivity|reflexivity|vm_compute; by split|].
    exists e3. split; [exact E|]. split; [exact Hsp|]. rewrite Hpc. reflexivity.
Defined.

(** ** The stack of the main thread *)

(** The bytes [l] at [p], in the reversed data and in memory: index [j] of the data is the [j]-th byte from the top. *)
Definition in_data (data : list Z) (p : Z) (l : list Z) : Prop :=
  0 ≤ p ∧ p + Z.of_nat (length l) ≤ U32_MOD ∧
  ∀ i x, l !! i = Some x → data !! Z.to_nat (U32_MOD - 1 - (p + Z.of_nat i)) = Some x.
Definition stored (m : Mem) (p : Z) (l : list Z) : Prop :=
  0 ≤ p ∧ p + Z.of_nat (length l) ≤ U32_MOD ∧ ∀ i x, l !! i = Some x → byte_at m (p + Z.of_nat i) = x.
Definition stored_string (m : Mem) (p : Z) (s : list Z) : Prop := stored m p (s ++ [0]).

Lemma in_data_prefix data data' p l : data `prefix_of` data' → in_data data p l → in_data data' p l.
Proof. intros Hp (? & ? & Hd). split_and!; [done..|]. intros i x Hx. by eapply prefix_lookup_Some; [apply Hd|]. Qed.

Lemma rev_reverse {A} (l : list A) : rev l = reverse l.
Proof. apply rev_alt. Qed.

(** Data whose reverse is stored up to the top of the address space. *)
Lemma in_data_stored data p l m m' :
  Z.of_nat (length data) ≤ U32_MOD →
  m' = set_bytes (store (U32_MOD - Z.of_nat (length data)) (rev data) (bytes m)) m → in_data data p l → stored m' p l.
Proof.
  intros Hlen -> (? & ? & Hd). split_and!; [done..|]. intros i x Hx. specialize (Hd i x Hx). pose proof (lookup_lt_Some _ _ _ Hd).
  pose proof (lookup_lt_Some _ _ _ Hx). rewrite byte_at_store, length_rev, decide_True by lia.
  rewrite rev_reverse, reverse_lookup by lia.
  replace (length data - S (Z.to_nat (p + Z.of_nat i - (U32_MOD - Z.of_nat (length data)))))%nat
    with (Z.to_nat (U32_MOD - 1 - (p + Z.of_nat i))) by lia. by rewrite Hd.
Qed.

Lemma push_string_spec s data ptrs :
  Z.of_nat (length data + S (length s)) ≤ U32_MOD →
  ∃ data' p, push_string s (data, ptrs) = Ret (data', ptrs ++ [p]) ∧ data `prefix_of` data' ∧
    length data' = (length data + S (length s))%nat ∧ in_data data' p (s ++ [0]) ∧ is_u32 p.
Proof.
  intros Hlen. unfold push_string. set (data' := data ++ [0] ++ rev s).
  assert (length data' = (length data + S (length s))%nat) as Hl by (subst data'; rewrite length_app; simpl; by rewrite length_rev).
  rewrite u32_ok, ret_bind by (unfold STACK_BASE, U32_MOD in *; lia). eexists data', _. split; [done|].
  split; [by apply prefix_app_r|]. split; [done|]. unfold STACK_BASE. split; [|unfold is_u32, U32_MOD in *; lia].
  split_and!; [lia|rewrite length_app; simpl; lia|]. intros i x Hx. pose proof (lookup_lt_Some _ _ _ Hx) as Hi. rewrite length_app in Hi. simpl in Hi.
  replace (Z.to_nat _) with (length data + (length s - i))%nat by lia. subst data'.
  rewrite lookup_app_r by lia. replace (length data + (length s - i) - length data)%nat with (length s - i)%nat by lia.
  replace ([0] ++ rev s) with (reverse (s ++ [0])) by (by rewrite reverse_app, rev_reverse). rewrite reverse_lookup; rewrite length_app; simpl; [|lia].
  by replace (length s + 1 - S (length s - i))%nat with i by lia.
Qed.

(** The space a list of strings takes. *)
Definition strings_size (l : list (list Z)) : nat := foldr (λ s n, (S (length s) + n)%nat) 0%nat l.

Lemma push_strings_spec l data ptrs :
  Z.of_nat (length data + strings_size l) ≤ U32_MOD →
  ∃ data' ps, for_each push_string l (data, ptrs) = Ret (data', ptrs ++ ps) ∧ data `prefix_of` data' ∧
    length data' = (length data + strings_size l)%nat ∧ Forall2 (λ p s, in_data data' p (s ++ [0])) ps l ∧ Forall is_u32 ps.
Proof.
  revert data ptrs. induction l as [|s l IH]; intros data ptrs Hlen; cbn [strings_size foldr] in *.
  { exists data, []. rewrite app_nil_r. split_and!; [done|done|lia|constructor|constructor]. }
  destruct (push_string_spec s data ptrs) as (d1 & p & E1 & Hp1 & Hl1 & Hd1 & Hu1); [lia|].
  destruct (IH d1 (ptrs ++ [p])) as (d2 & ps & E2 & Hp2 & Hl2 & Hd2 & Hu2); [unfold strings_size; lia|].
  exists d2, (p :: ps). cbn [for_each]. rewrite E1, ret_bind, E2. rewrite <- app_assoc. split_and!; [done|by etrans|unfold strings_size in *; lia| |by constructor].
  constructor; [by eapply in_data_prefix|done].
Qed.

(** The words in front of the data. *)
Lemma words_in_memory ws rest : rev (rest ++ concat (map (λ p, rev (le_bytes 4 p)) (rev ws))) = concat (map (le_bytes 4) ws) ++ rev rest.
Proof.
  rewrite rev_app_distr. f_equal. induction ws as [|w ws IH]; [done|]. cbn [rev map concat]. rewrite map_app, concat_app, rev_app_distr, IH.
  cbn [map concat]. by rewrite app_nil_r, rev_involutive.
Qed.
Lemma concat_words ws i w j b :
  ws !! i = Some w → le_bytes 4 w !! j = Some b → concat (map (le_bytes 4) ws) !! (4 * i + j)%nat = Some b.
Proof.
  revert i. induction ws as [|x ws IH]; intros i Hi Hj; [done|]. change (map (le_bytes 4) (x :: ws)) with (le_bytes 4 x :: map (le_bytes 4) ws).
  cbn [concat]. destruct i as [|i].
  - simpl in Hi. simplify_eq. rewrite Nat.mul_0_r, Nat.add_0_l. by apply lookup_app_l_Some.
  - rewrite lookup_app_r; rewrite le_bytes_length; [|lia]. replace (4 * S i + j - 4)%nat with (4 * i + j)%nat by lia. by apply IH.
Qed.
Lemma concat_words_length ws : length (concat (map (le_bytes 4) ws)) = (4 * length ws)%nat.
Proof.
  induction ws as [|w ws IH]; [done|]. change (map (le_bytes 4) (w :: ws)) with (le_bytes 4 w :: map (le_bytes 4) ws).
  cbn [concat length]. rewrite length_app, le_bytes_length, IH. lia.
Qed.

Definition words_at (m : Mem) (sp : Z) (ws : list Z) : Prop :=
  ∀ i w, ws !! i = Some w → read_u32 (sp + 4 * Z.of_nat i) m = Ret w.

Lemma words_at_store m sp ws rest :
  0 ≤ sp → sp + 4 * Z.of_nat (length ws) ≤ U32_MOD → Forall is_u32 ws →
  words_at (set_bytes (store sp (concat (map (le_bytes 4) ws) ++ rest) (bytes m)) m) sp ws.
Proof.
  intros Hsp Hlen Hws i w Hi. pose proof (lookup_lt_Some _ _ _ Hi). unfold read_u32, read_u. rewrite mem_read_eq by (unfold U32_MOD in *; lia).
  rewrite ret_bind. rewrite (bytes_of_range _ _ _ (le_bytes 4 w)).
  - f_equal. rewrite from_le_bytes_le_bytes. apply Z.mod_small. change (256 ^ Z.of_nat 4) with U32_MOD. by apply (Forall_lookup_1 _ _ _ _ Hws Hi).
  - by rewrite le_bytes_length.
  - intros j Hj. rewrite byte_at_store, length_app, concat_words_length, decide_True by lia.
    destruct (lookup_lt_is_Some_2 (le_bytes 4 w) (Z.to_nat j)) as [b Hb]; [rewrite le_bytes_length; lia|]. rewrite Hb. simpl default.
    replace (Z.to_nat _) with (4 * i + Z.to_nat j)%nat by lia.
    by rewrite (lookup_app_l_Some _ _ _ b) by (by eapply concat_words).
Qed.

(** The strings and words [prep_stack_for_start] collects. *)
Lemma collect_strings argv envp apple argc :
  Z.of_nat (strings_size argv + strings_size envp + strings_size apple) ≤ U32_MOD →
  ∃ data ps es xs,
    (x ← for_each push_string argv ([], [argc]); x ← for_each push_string envp x; for_each push_string apple (push_word 0 x))
      = Ret (data, argc :: ps ++ es ++ [0] ++ xs) ∧
    length data = (strings_size argv + strings_size envp + strings_size apple)%nat ∧
    Forall2 (λ p s, in_data data p (s ++ [0])) ps argv ∧ Forall2 (λ p s, in_data data p (s ++ [0])) es envp ∧
    Forall2 (λ p s, in_data data p (s ++ [0])) xs apple ∧ Forall is_u32 (ps ++ es ++ [0] ++ xs).
Proof.
  intros Hlen. destruct (push_strings_spec argv [] [argc]) as (d1 & ps & E1 & P1 & L1 & D1 & U1); [simpl; lia|].
  destruct (push_strings_spec envp d1 ([argc] ++ ps)) as (d2 & es & E2 & P2 & L2 & D2 & U2); [simpl in *; lia|].
  destruct (push_strings_spec apple d2 ((([argc] ++ ps) ++ es) ++ [0])) as (d3 & xs & E3 & P3 & L3 & D3 & U3); [simpl in *; lia|].
  exists d3, ps, es, xs. rewrite E1, ret_bind, E2, ret_bind. unfold push_word. cbn [fst snd]. rewrite E3.
  assert (∀ d l k, d `prefix_of` d3 → Forall2 (λ p s, in_data d p (s ++ [0])) l k → Forall2 (λ p s, in_data d3 p (s ++ [0])) l k) as Hmono.
  { intros d l k Hp H. eapply Forall2_impl; [exact H|]. intros p s. by apply in_data_prefix. }
  split_and!; [by rewrite <- !app_assoc|simpl in *; lia|apply (Hmono d1); [by trans d2|done]|by apply (Hmono d2)|done|].
  rewrite !Forall_app. split_and!; [done|done|apply Forall_singleton; unfold is_u32, U32_MOD; lia|done].
Qed.

(** [prep_stack_for_start] puts onto the main thread's stack what the program's entry point
    expects: the stack pointer is aligned and points to the number of arguments, followed by
    pointers to the arguments, each of which is stored as a C string, then by pointers to the
    environment and a zero, and by the strings for the system and a zero.  Nothing below the
    stack pointer is changed.  (There is no zero between the arguments and the environment.) *)
Theorem start_stack_layout argv envp apple m c :
  (13 < length (regs c))%nat →
  Z.of_nat (strings_size argv + strings_size envp + strings_size apple + 4 * (length argv + length envp + length apple + 4))
    < MAIN_THREAD_STACK_SIZE →
  ∃ m' c' sp ps es xs, prep_stack_for_start argv envp apple m c = Ret (m', c') ∧ regs c' !! SP = Some sp ∧ sp mod 4 = 0 ∧
    words_at m' sp (Z.of_nat (length argv) :: ps ++ es ++ [0] ++ xs ++ [0]) ∧
    Forall2 (stored_string m') ps argv ∧ Forall2 (stored_string m') es envp ∧ Forall2 (stored_string m') xs apple ∧
    ∀ a, a < sp → byte_at m' a = byte_at m a.
Proof.
  intros Hr Hsize. unfold MAIN_THREAD_STACK_SIZE in *. unfold prep_stack_for_start. rewrite i32_ok, ret_bind by lia.
  destruct (collect_strings argv envp apple (Z.of_nat (length argv))) as (data & ps & es & xs & E & Hdl & Da & De & Dx & Hu); [unfold U32_MOD; lia|].
  destruct (for_each push_string argv _) as [x1|] eqn:E1; [|done]. rewrite ?E1, ret_bind in E; rewrite ret_bind.
  destruct (for_each push_string envp x1) as [x2|] eqn:E2; [|done]. rewrite ?E2, ret_bind in E; rewrite ret_bind. cbv zeta. rewrite E, ret_bind.
  unfold push_word. cbn [fst snd]. set (ws := (_ :: _) ++ [0]).
  set (pad := (if length data mod 4 =? 0 then 0 else 4 - length data mod 4)%nat).
  set (F := (data ++ replicate pad 0) ++ concat (map (λ p, rev (le_bytes 4 p)) (rev ws))).
  assert (Forall is_u32 ws) as Hws.
  { subst ws. cbn [app]. constructor; [unfold is_u32, U32_MOD; lia|]. apply Forall_app. split; [done|]. apply Forall_singleton. unfold is_u32, U32_MOD. lia. }
  assert (length ws = (length argv + length envp + length apple + 3)%nat) as Hwl.
  { subst ws. rewrite length_app. cbn [length]. rewrite !length_app. cbn [length]. apply Forall2_length in Da, De, Dx. lia. }
  assert (length F = (length data + pad + 4 * length ws)%nat) as HF.
  { rewrite <- length_rev. subst F. rewrite words_in_memory, length_app, concat_words_length, length_rev, length_app, length_replicate. lia. }
  assert ((pad < 4)%nat ∧ ((length data + pad) mod 4 = 0)%nat) as [Hpad Hal].
  { subst pad. pose proof (Nat.mod_upper_bound (length data) 4 ltac:(lia)). destruct (Nat.eqb_spec (length data mod 4) 0); [rewrite Nat.add_0_r; lia|].
    split; [lia|]. pose proof (Nat.div_mod_eq (length data) 4).
    replace (length data + (4 - length data mod 4))%nat with ((length data / 4 + 1) * 4)%nat by lia. by apply Nat.Div0.mod_mul. }
  assert (Z.of_nat (length F) mod 4 = 0) as HF4.
  { rewrite HF, Nat2Z.inj_add, Nat2Z.inj_mul, Z.mul_comm, Z.mod_add, <- (Nat2Z.inj_mod _ 4), Hal by lia. done. }
  assert (0 < Z.of_nat (length F) < 1048576) as HFs by lia.
  rewrite (u32_ok (STACK_BASE - _)), ret_bind by (unfold STACK_BASE, U32_MOD; lia). rewrite u32_ok, ret_bind by (unfold U32_MOD; lia).
  unfold MAIN_THREAD_STACK_SIZE. rewrite assert_bind by (apply Z.ltb_lt; lia). unfold bytes_at_mut_copy, in_bounds, STACK_BASE.
  rewrite assert_bind by (apply Z.leb_le; lia). rewrite assert_bind by (rewrite length_rev; apply Z.eqb_refl). rewrite ret_bind.
  rewrite assert_bind by (by rewrite HF4).
  set (sp := U32_MOD - Z.of_nat (length F)). set (m' := set_bytes _ m).
  assert (∀ l k, Forall2 (λ p s, in_data data p (s ++ [0])) l k → Forall2 (stored_string m') l k) as Hst.
  { intros l k H0. eapply Forall2_impl; [exact H0|]. intros p s Hd. eapply (in_data_stored F); [unfold U32_MOD; lia|reflexivity|].
    eapply in_data_prefix; [|exact Hd]. subst F. rewrite <- app_assoc. by apply prefix_app_r. }
  eexists m', _, sp, ps, es, xs. split; [done|]. split; [unfold set_reg; simpl; apply list_lookup_insert_eq; unfold SP; lia|].
  split_and!; [| |by apply Hst|by apply Hst|by apply Hst|].
  - subst sp. unfold U32_MOD. replace (4294967296 - Z.of_nat (length F)) with (- Z.of_nat (length F) + 1073741824 * 4) by lia.
    rewrite Z.mod_add by lia. rewrite Z.mod_opp_l_z; [done|lia|done].
  - subst m' F. rewrite words_in_memory. replace (_ :: ps ++ es ++ [0] ++ xs ++ [0]) with ws by (subst ws; cbn [app]; by rewrite <- !app_assoc).
    apply words_at_store; [subst sp; unfold U32_MOD; lia|subst sp; lia|done].
  - intros a Ha. subst m'. rewrite byte_at_store, decide_False; [done|lia].
Qed.

Lemma start_stack_layout_witness :
  ∃ m' c' sp p, prep_stack_for_start [[97; 112; 112]] [] [] empty_mem CpuContext_new = Ret (m', c') ∧ regs c' !! SP = Some sp ∧
    read_u32 sp m' = Ret 1 ∧ read_u32 (sp + 4) m' = Ret p ∧ stored_string m' p [97; 112; 112].
Proof.
  destruct (start_stack_layout [[97; 112; 112]] [] [] empty_mem CpuContext_new) as (m' & c' & sp & ps & es & xs & E & Hsp & _ & Hw & Hps & _);
    [vm_compute; lia|vm_compute; reflexivity|].
  apply Forall2_cons_inv_r in Hps as (p & ps' & Hp & _ & ->). exists m', c', sp, p.
  split; [exact E|]. split; [exact Hsp|]. split; [|split; [exact (Hw 1%nat p eq_refl)|exact Hp]].
  rewrite <- (Z.add_0_r sp) at 1. exact (Hw 0%nat 1 eq_refl).
Defined.

(** Finding: the space for arguments on the stack is counted without the hidden pointer to a result in memory, so that
    the word that this pointer pushes out of the registers is put where the result will be: a callee that
    writes nothing returns it. *)
Example struct_result_overlaps_argument :
  (match call_from_host (H := large_struct_ret 8) [u32_arg; u32_arg; u32_arg; u32_arg] Ret [1; 2; 3; 4] demo_env with
   | Ret (r, _) => r | Panic => [] end) = [4; 0; 0; 0; 0; 0; 0; 0].
Proof. vm_compute. reflexivity. Qed.
