(* ===== verification/ObjcClasses.v ===== *)
(** * Objective-C selectors, classes and methods

    The tables of the Objective-C runtime that say what a message reaches: selectors
    ([objc/selectors.rs]), classes and metaclasses ([objc/classes.rs]), their methods
    ([objc/methods.rs]) and instance variables ([objc/properties.rs]).  The functions take
    the runtime's state and guest memory the way the source borrows them.  The host
    objects of classes are modelled here; those of other objects, and reference counts,
    which classes do not have, are in [Objects]. *)

From S2P Require Import Prelude ChunkMap SizeBucketed VMAllocator HeapAllocator GuestMem GuestAlloc Env Pthread Semaphore Fs.

(** ** Data *)

Definition nil : Z := 0.

(** A Rust function that implements a method: its address, and the [TypeId] of its signature. *)
Record HostIMP := mkHostIMP { imp_function : Z; imp_type : Z }.
Inductive IMP := IMP_Host (f : HostIMP) | IMP_Guest (f : Z).

Inductive InitializationStatus := NotInitialized | Initializing | Initialized.
#[global] Instance InitializationStatus_eq_dec : EqDecision InitializationStatus.
Proof. solve_decision. Defined.

(** [ClassHostObject].  An instance variable has a pointer to its offset, and an alignment. *)
Record Class := mkClass {
  cls_name : list Z;
  is_metaclass : bool;
  superclass : Z;
  methods : gmap Z IMP;
  guest_method_signatures : gmap Z Z;
  ivars : gmap (list Z) (Z * Z);
  instance_start : Z;
  instance_size : Z;
  is_initialized : InitializationStatus
}.

Inductive HostObject :=
| AClass (c : Class)
| UnimplementedClass (name : list Z) (is_metaclass : bool)
| FakeClass (name : list Z) (is_metaclass : bool)
| OtherObject.

Record ThreadInitializer := mkInitializer { init_mutex_ptr : Z; init_cond_ptr : Z; init_tid : nat; init_waiters : Z }.

Record Runtime := mkRuntime {
  selectors : gmap (list Z) Z;
  rt_objects : gmap Z HostObject;
  classes : gmap (list Z) Z;
  initializer_threads : gmap Z ThreadInitializer;
  message_type_info : option Z
}.
Definition set_selectors x (rt : Runtime) : Runtime := mkRuntime x (rt_objects rt) (classes rt) (initializer_threads rt) (message_type_info rt).
Definition set_rt_objects x (rt : Runtime) : Runtime := mkRuntime (selectors rt) x (classes rt) (initializer_threads rt) (message_type_info rt).
Definition set_classes x (rt : Runtime) : Runtime := mkRuntime (selectors rt) (rt_objects rt) x (initializer_threads rt) (message_type_info rt).
Definition set_initializers x (rt : Runtime) : Runtime := mkRuntime (selectors rt) (rt_objects rt) (classes rt) x (message_type_info rt).
Definition set_type_info x (rt : Runtime) : Runtime := mkRuntime (selectors rt) (rt_objects rt) (classes rt) (initializer_threads rt) x.

Definition Runtime_new : Runtime := mkRuntime ∅ ∅ ∅ ∅ None.

(** [ClassTemplate]; the host's libraries export a list of them with their names. *)
Record ClassTemplate := mkTemplate {
  template_name : list Z;
  template_superclass : option (list Z);
  class_methods : list (list Z * HostIMP);
  instance_methods : list (list Z * HostIMP)
}.
Notation ClassExports := (list (list Z * ClassTemplate)).

(** A packed struct of [n] words of guest memory. *)
Fixpoint words_of (n : nat) (l : list Z) : list Z :=
  match n with O => [] | S n => from_le_bytes (take 4 l) :: words_of n (drop 4 l) end.
Definition read_struct (n : nat) (ptr : Z) (m : Mem) : outcome (list Z) :=
  l ← mem_read (4 * Z.of_nat n) ptr m; Ret (words_of n l).
(** The [i]-th field. *)
Definition field (i : nat) (s : list Z) : Z := default 0 (s !! i).

(** ** Selectors *)

Definition lookup_selector (name : list Z) (rt : Runtime) : option Z := selectors rt !! name.

Definition register_host_selector (name : list Z) (rt : Runtime) (m : Mem) : outcome (Z * Runtime * Mem) :=
  match lookup_selector name rt with
  | Some existing => Ret (existing, rt, m)
  | None =>
      '(sel, m) ← alloc_and_write_cstr name m;
      Ret (sel, set_selectors (<[name := sel]> (selectors rt)) rt, m)
  end.

(** The names of the methods of all templates, in the order of the loops. *)
Definition template_selectors (exports : ClassExports) : list (list Z) :=
  '(_, t) ← exports; (class_methods t ++ instance_methods t).*1.
Definition register_host_selectors (exports : ClassExports) (rt : Runtime) (m : Mem) : outcome (Runtime * Mem) :=
  for_each (λ name '(rt, m), '(_, rt, m) ← register_host_selector name rt m; Ret (rt, m)) (template_selectors exports) (rt, m).

Definition register_bin_selector (sel_cstr : Z) (rt : Runtime) (m : Mem) : outcome (Z * Runtime) :=
  sel_str ← cstr_at_utf8_unwrap sel_cstr m;
  match lookup_selector sel_str rt with
  | Some existing_sel => Ret (existing_sel, rt)
  | None => Ret (sel_cstr, set_selectors (<[sel_str := sel_cstr]> (selectors rt)) rt)
  end.

(** A section of a binary: address and size. *)
Definition register_bin_selectors (selrefs : option (Z * Z)) (rt : Runtime) (m : Mem) : outcome (Runtime * Mem) :=
  match selrefs with
  | None => Ret (rt, m)
  | Some (addr, size) =>
      rassert (size mod 4 =? 0);;
      for_each (λ i '(rt, m),
        selref ← ptr_add 4 addr i;
        sel_cstr ← read_u32 selref m;
        '(sel, rt) ← register_bin_selector sel_cstr rt m;
        m ← write_u32 selref sel m;
        Ret (rt, m)) (seqZ 0 (size / 4)) (rt, m)
  end.

Definition sel_registerName (name : Z) (rt : Runtime) (m : Mem) : outcome (Z * Runtime * Mem) :=
  name ← cstr_at_utf8_unwrap name m;
  match lookup_selector name rt with
  | Some existing => Ret (existing, rt, m)
  | None => register_host_selector name rt m
  end.

(** ** Methods and instance variables of a class in a binary *)

(** [for i in 0..count] over entries of [entsize] bytes after the list's two-word head. *)
Definition list_entry (list_ptr entsize i : Z) : outcome Z :=
  base ← ptr_add 8 list_ptr 1;
  o ← u32 (i * entsize);
  u32 (base + o).

Definition add_method (sel types imp : Z) (c : Class) : Class :=
  mkClass (cls_name c) (is_metaclass c) (superclass c) (<[sel := IMP_Guest imp]> (methods c)) (<[sel := types]> (guest_method_signatures c))
    (ivars c) (instance_start c) (instance_size c) (is_initialized c).

Definition add_methods_from_bin (method_list_ptr : Z) (m : Mem) (c : Class) (rt : Runtime) : outcome (Class * Runtime) :=
  head ← read_struct 2 method_list_ptr m;
  let entsize := field 0 head in let count := field 1 head in
  rassert (12 <=? entsize);;
  for_each (λ i '(c, rt),
    method_ptr ← list_entry method_list_ptr entsize i;
    method ← read_struct 3 method_ptr m;
    '(sel, rt) ← register_bin_selector (field 0 method) rt m;
    Ret (add_method sel (field 1 method) (field 2 method) c, rt)) (seqZ 0 count) (c, rt).

Definition set_ivars (x : gmap (list Z) (Z * Z)) (c : Class) : Class :=
  mkClass (cls_name c) (is_metaclass c) (superclass c) (methods c) (guest_method_signatures c) x (instance_start c) (instance_size c) (is_initialized c).

Definition add_ivars_from_bin (ivar_list_ptr : Z) (m : Mem) (c : Class) : outcome Class :=
  head ← read_struct 2 ivar_list_ptr m;
  let entsize := field 0 head in let count := field 1 head in
  rassert (20 <=? entsize);;
  for_each (λ i c,
    ivar_ptr ← list_entry ivar_list_ptr entsize i;
    ivar ← read_struct 5 ivar_ptr m;
    name ← cstr_at_utf8_unwrap (field 1 ivar) m;
    Ret (set_ivars (<[name := (field 0 ivar, field 3 ivar)]> (ivars c)) c)) (seqZ 0 count) c.

(** ** Class objects *)

Definition borrow_cls (class : Z) (rt : Runtime) : outcome Class :=
  match rt_objects rt !! class with Some (AClass c) => Ret c | _ => Panic end.
Definition put_class (class : Z) (c : Class) (rt : Runtime) : Runtime := set_rt_objects (<[class := AClass c]> (rt_objects rt)) rt.

(** [HashMap::from_iter] over the methods; [objc.selectors[name]] panics for an unknown name. *)
Definition methods_from_template (l : list (list Z * HostIMP)) (rt : Runtime) : outcome (gmap Z IMP) :=
  for_each (λ '(name, imp) ms, sel ← unwrap (selectors rt !! name); Ret (<[sel := IMP_Host imp]> ms)) l ∅.

Definition from_template (template : ClassTemplate) (is_metaclass : bool) (superclass : Z) (rt : Runtime) : outcome Class :=
  ms ← methods_from_template (if is_metaclass then class_methods template else instance_methods template) rt;
  Ret (mkClass (template_name template) is_metaclass superclass ms ∅ ∅ 4 4 NotInitialized).

(** [class_t] has five words, [class_rw_t] ten. *)
Definition from_bin (class : Z) (is_metaclass : bool) (m : Mem) (rt : Runtime) : outcome (Class * Runtime) :=
  class_t ← read_struct 5 class m;
  class_rw_t ← read_struct 10 (field 4 class_t) m;
  name ← cstr_at_utf8_unwrap (field 4 class_rw_t) m;
  let c := mkClass name is_metaclass (field 1 class_t) ∅ ∅ ∅ (field 1 class_rw_t) (field 2 class_rw_t) NotInitialized in
  let base_methods := field 5 class_rw_t in
  '(c, rt) ← (if base_methods =? 0 then Ret (c, rt) else add_methods_from_bin base_methods m c rt);
  let ivars := field 7 class_rw_t in
  c ← (if ivars =? 0 then Ret c else add_ivars_from_bin ivars m c);
  Ret (c, rt).

Fixpoint starts_with (prefix name : list Z) : bool :=
  match prefix, name with
  | [], _ => true
  | x :: prefix, y :: name => (x =? y) && starts_with prefix name
  | _ :: _, [] => false
  end.

Definition faked_prefixes : list (list Z) := Eval vm_compute in
  bytes_of <$> ["AdMob"; "AltAds"; "Mobclix"; "FB"; "Flurry"; "OpenFeint"; "Tapjoy"; "AdWhirl"; "iSimulate"; "DMO"]%string.
Definition class_name_should_be_faked (name : list Z) : bool := existsb (λ p, starts_with p name) faked_prefixes.

(** The name of a class in a binary: the name field of its data. *)
Definition bin_class_name (class : Z) (m : Mem) : outcome (list Z) :=
  class_t ← read_struct 5 class m;
  class_rw_t ← read_struct 10 (field 4 class_t) m;
  cstr_at_utf8_unwrap (field 4 class_rw_t) m.

Definition substitute_classes (m : Mem) (class metaclass : Z) : outcome (option ((list Z * bool) * (list Z * bool))) :=
  name ← bin_class_name class m;
  if negb (class_name_should_be_faked name) then Ret None
  else
    metaclass_name ← bin_class_name metaclass m;
    rassert (bool_decide (name = metaclass_name));;
    Ret (Some ((name, false), (name, true))).

(** ** Objects of static lifetime ([objc/objects.rs]) *)

Definition isa_of (object : Z) (m : Mem) : outcome Z := read_u32 object m.

Definition alloc_static (isa : Z) (host : HostObject) (rt : Runtime) (m : Mem) : outcome (Z * Runtime * Mem) :=
  rassert (4 <=? 4);;
  '(ptr, m) ← mem_alloc 4 m;
  m ← write_u32 ptr isa m;
  rassert (bool_decide (rt_objects rt !! ptr = None));;
  Ret (ptr, set_rt_objects (<[ptr := host]> (rt_objects rt)) rt, m).

Definition register_static (object : Z) (host : HostObject) (rt : Runtime) : outcome Runtime :=
  rassert (bool_decide (rt_objects rt !! object = None));;
  Ret (set_rt_objects (<[object := host]> (rt_objects rt)) rt).

(** ** Linking *)

Definition NSObject_name : list Z := Eval vm_compute in bytes_of "NSObject"%string.

Definition get_class (name : list Z) (is_metaclass : bool) (rt : Runtime) (m : Mem) : outcome (option Z) :=
  match classes rt !! name with
  | None => Ret None
  | Some class => if is_metaclass then isa ← isa_of class m; Ret (Some isa) else Ret (Some class)
  end.

Fixpoint find_template (exports : ClassExports) (name : list Z) : option ClassTemplate :=
  match exports with
  | [] => None
  | (sym, t) :: exports => if decide (sym = name) then Some t else find_template exports name
  end.

Section link.
Variable exports : ClassExports.

(** What the class pair of [name] gets as host objects; [link] is the recursive call. *)
Definition host_objects_for (link : list Z → bool → Runtime → Mem → outcome (Z * Runtime * Mem)) (name : list Z) (use_placeholder : bool)
    (rt : Runtime) (m : Mem) : outcome (HostObject * HostObject * Runtime * Mem) :=
  match find_template exports name with
  | Some template =>
      rassert (match template_superclass template with
               | Some superclass_name => bool_decide (is_Some (find_template exports superclass_name))
               | None => true
               end);;
      let link_super (is_metaclass : bool) rt m :=
        match template_superclass template with
        | Some superclass_name => link superclass_name is_metaclass rt m
        | None => Ret (nil, rt, m)
        end in
      '(superclass, rt, m) ← link_super false rt m;
      class_host_object ← from_template template false superclass rt;
      '(superclass, rt, m) ← link_super true rt m;
      metaclass_host_object ← from_template template true superclass rt;
      Ret (AClass class_host_object, AClass metaclass_host_object, rt, m)
  | None =>
      if negb use_placeholder then
        if class_name_should_be_faked name then Ret (FakeClass name false, FakeClass name true, rt, m)
        else Panic
      else Ret (FakeClass name false, FakeClass name true, rt, m)
  end.

(** The metaclass object: that of [NSObject] is its own [isa]. *)
Definition make_metaclass (link : list Z → bool → Runtime → Mem → outcome (Z * Runtime * Mem)) (name : list Z) (host : HostObject)
    (rt : Runtime) (m : Mem) : outcome (Z * Runtime * Mem) :=
  if decide (name = NSObject_name) then
    '(metaclass, m) ← alloc_and_write (le_bytes 4 nil) m;
    m ← write_u32 metaclass metaclass m;
    rt ← register_static metaclass host rt;
    Ret (metaclass, rt, m)
  else
    '(isa, rt, m) ← link NSObject_name true rt m;
    alloc_static isa host rt m.

Definition set_superclass (x : Z) (c : Class) : Class :=
  mkClass (cls_name c) (is_metaclass c) x (methods c) (guest_method_signatures c) (ivars c) (instance_start c) (instance_size c) (is_initialized c).

(** The recursion goes from a template to its superclass and to [NSObject]; deeper than
    [fuel], it is taken not to return. *)
Fixpoint link_class_inner (fuel : nat) (name : list Z) (is_metaclass use_placeholder : bool) (rt : Runtime) (m : Mem)
    : outcome (Z * Runtime * Mem) :=
  match fuel with
  | O => Panic
  | S fuel =>
      let link_class name is_metaclass := link_class_inner fuel name is_metaclass true in
      found ← get_class name is_metaclass rt m;
      match found with
      | Some class => Ret (class, rt, m)
      | None =>
          '(class_host_object, metaclass_host_object, rt, m) ← host_objects_for link_class name use_placeholder rt m;
          '(metaclass, rt, m) ← make_metaclass link_class name metaclass_host_object rt m;
          '(class, rt, m) ← alloc_static metaclass class_host_object rt m;
          rt ← (if decide (name = NSObject_name)
                then c ← borrow_cls metaclass rt; Ret (put_class metaclass (set_superclass class c) rt)
                else Ret rt);
          let rt := set_classes (<[name := class]> (classes rt)) rt in
          Ret (if is_metaclass then metaclass else class, rt, m)
      end
  end.

(** A chain of superclasses has at most as many templates as there are. *)
Definition link_fuel : nat := S (S (length exports)).
Definition link_class (name : list Z) (is_metaclass : bool) : Runtime → Mem → outcome (Z * Runtime * Mem) :=
  link_class_inner link_fuel name is_metaclass true.
Definition get_known_class (name : list Z) : Runtime → Mem → outcome (Z * Runtime * Mem) :=
  link_class_inner link_fuel name false false.
End link.

(** ** Classes of a binary *)

(** One class of [__objc_classlist]. *)
Definition register_bin_class (class : Z) (rt : Runtime) (m : Mem) : outcome Runtime :=
  metaclass ← isa_of class m;
  fakes ← substitute_classes m class metaclass;
  match fakes with
  | Some ((name, is_meta), (metaclass_name, metaclass_is_meta)) =>
      rassert (bool_decide (name = metaclass_name));;
      rt ← register_static class (FakeClass name is_meta) rt;
      rt ← register_static metaclass (FakeClass metaclass_name metaclass_is_meta) rt;
      Ret (set_classes (<[name := class]> (classes rt)) rt)
  | None =>
      '(c, rt) ← from_bin class false m rt;
      '(mc, rt) ← from_bin metaclass true m rt;
      rassert (bool_decide (cls_name c = cls_name mc));;
      rt ← register_static class (AClass c) rt;
      rt ← register_static metaclass (AClass mc) rt;
      Ret (set_classes (<[cls_name c := class]> (classes rt)) rt)
  end.

(** The second pass, over [self.classes] in some order: roots, and subclasses by superclass. *)
Definition inherit_step (rt : Runtime) (x : list Z * Z) (s : list Z * gmap Z (list Z) * bool) : outcome (list Z * gmap Z (list Z) * bool) :=
  let '(name, class) := x in
  let '(queue, inverted_inheritance, found_ns_object) := s in
  let is_root := bool_decide (name = NSObject_name) in
  rassert (negb (is_root && found_ns_object));;
  let found_ns_object := is_root || found_ns_object in
  match rt_objects rt !! class with
  | None => Panic
  | Some (AClass c) =>
      if negb (superclass c =? nil) then
        Ret (queue, <[superclass c := default [] (inverted_inheritance !! superclass c) ++ [class]]> inverted_inheritance, found_ns_object)
      else
        rassert (negb (bool_decide (class ∈ queue)));;
        Ret (queue ++ [class], inverted_inheritance, found_ns_object)
  | Some _ => Ret (queue, inverted_inheritance, found_ns_object)
  end.

(** Whether a superclass has grown into the class, and by how much. *)
Definition need_ivar_reconciliation (class : Z) (rt : Runtime) : outcome (bool * Z) :=
  host ← unwrap (rt_objects rt !! class);
  match host with
  | AClass c =>
      if superclass c =? nil then Ret (false, 0)
      else
        superclass_host ← unwrap (rt_objects rt !! superclass c);
        match superclass_host with
        | AClass s =>
            let need := instance_start c <? instance_size s in
            diff ← (if need then u32 (instance_size s - instance_start c) else Ret 0);
            Ret (need, diff)
        | _ => Ret (false, 0)
        end
  | _ => Ret (false, 0)
  end.

(** [max_alignment] over the instance variables that are not anonymous bit-fields. *)
Definition max_alignment (l : list (Z * Z)) : Z :=
  foldr (λ '(offset, align) acc, if offset =? 0 then acc else Z.max acc align) 1 l.

(** [(diff + align_mask) & !align_mask]. *)
Definition align_diff (diff max_alignment : Z) : outcome Z :=
  align_mask ← u32 (max_alignment - 1);
  s ← u32 (diff + align_mask);
  Ret (Z.ldiff s align_mask).

(** [offset + diff] for every instance variable that has an offset: one that
    overflows panics, whatever the order. *)
Definition slide_ivar (diff : Z) (x : Z * Z) : Z * Z := if x.1 =? 0 then x else (x.1 + diff, x.2).
Definition slide_ivars (diff : Z) (l : gmap (list Z) (Z * Z)) : outcome (gmap (list Z) (Z * Z)) :=
  rassert (forallb (λ x, (x.1 =? 0) || (x.1 + diff <? U32_MOD)) (map_to_list l).*2);;
  Ret (slide_ivar diff <$> l).

Definition reconcile (diff : Z) (c : Class) : outcome Class :=
  '(diff, ivs) ← (if bool_decide (ivars c = ∅) then Ret (diff, ivars c)
                  else
                    diff ← align_diff diff (max_alignment (map_to_list (ivars c)).*2);
                    ivs ← slide_ivars diff (ivars c);
                    Ret (diff, ivs));
  start ← u32 (instance_start c + diff);
  size ← u32 (instance_size c + diff);
  Ret (mkClass (cls_name c) (is_metaclass c) (superclass c) (methods c) (guest_method_signatures c) ivs start size (is_initialized c)).

(** One iteration of the third pass, for the class at the front of the queue. *)
Definition reconcile_class (next : Z) (rt : Runtime) : outcome Runtime :=
  '(need, diff) ← need_ivar_reconciliation next rt;
  if (need : bool) then c ← borrow_cls next rt; c ← reconcile diff c; Ret (put_class next c rt) else Ret rt.

(** [while !queue.is_empty()]; a class enters the queue at most once. *)
Fixpoint reconcile_all (fuel : nat) (inverted_inheritance : gmap Z (list Z)) (queue : list Z) (rt : Runtime) : outcome Runtime :=
  match queue with
  | [] => Ret rt
  | next :: queue =>
      match fuel with
      | O => Panic
      | S fuel =>
          rt ← reconcile_class next rt;
          reconcile_all fuel inverted_inheritance (queue ++ default [] (inverted_inheritance !! next)) rt
      end
  end.

(** The second and the third pass; [order] is the order of iteration over [self.classes]. *)
Definition reconcile_ivars (order : list (list Z * Z)) (rt : Runtime) : outcome Runtime :=
  '(queue, inverted_inheritance, found_ns_object) ← for_each (inherit_step rt) order ([], ∅, false);
  rassert found_ns_object;;
  reconcile_all (length order) inverted_inheritance queue rt.

(** [iter_order] gives the order of iteration over the map of classes. *)
Definition register_bin_classes (iter_order : gmap (list Z) Z → list (list Z * Z)) (classlist : option (Z * Z)) (rt : Runtime) (m : Mem)
    : outcome Runtime :=
  match classlist with
  | None => Ret rt
  | Some (addr, size) =>
      rassert (size mod 4 =? 0);;
      rt ← for_each (λ i rt, p ← ptr_add 4 addr i; class ← read_u32 p m; register_bin_class class rt m) (seqZ 0 (size / 4)) rt;
      reconcile_ivars (iter_order (classes rt)) rt
  end.

(** The methods of one category for one class. *)
Definition add_category (class methods_ptr : Z) (rt : Runtime) (m : Mem) : outcome Runtime :=
  if methods_ptr =? 0 then Ret rt
  else
    host ← unwrap (rt_objects rt !! class);
    match host with
    | FakeClass _ _ | UnimplementedClass _ _ => Ret rt
    | OtherObject => Panic
    | AClass c =>
        '(c, rt) ← add_methods_from_bin methods_ptr m c rt;
        _ ← borrow_cls class rt;
        Ret (put_class class c rt)
    end.

(** [category_t] has six words: name, class, instance methods, class methods, ... *)
Definition register_bin_categories (catlist : option (Z * Z)) (rt : Runtime) (m : Mem) : outcome Runtime :=
  match catlist with
  | None => Ret rt
  | Some (addr, size) =>
      rassert (size mod 4 =? 0);;
      for_each (λ i rt,
        p ← ptr_add 4 addr i;
        cat_ptr ← read_u32 p m;
        data ← read_struct 6 cat_ptr m;
        _ ← cstr_at_utf8_unwrap (field 0 data) m;
        let class := field 1 data in
        metaclass ← isa_of class m;
        rt ← add_category class (field 2 data) rt m;
        add_category metaclass (field 3 data) rt m) (seqZ 0 (size / 4)) rt
  end.

(** ** Questions about classes *)

(** [loop { ... class = superclass; }]: [visit] is what an iteration returns, if it
    does, [at_end] what the loop returns at a class without a superclass.  A loop that
    goes through more classes than there are never ends. *)
Fixpoint superclass_walk {R} (fuel : nat) (visit : Class → option (outcome R)) (at_end : outcome R) (class : Z) (rt : Runtime) : outcome R :=
  match fuel with
  | O => Panic
  | S fuel =>
      c ← borrow_cls class rt;
      match visit c with
      | Some r => r
      | None => if superclass c =? nil then at_end else superclass_walk fuel visit at_end (superclass c) rt
      end
  end.
Definition superclass_loop {R} (visit : Class → option (outcome R)) (at_end : outcome R) (class : Z) (rt : Runtime) : outcome R :=
  superclass_walk (S (size (rt_objects rt))) visit at_end class rt.

Definition has_method (sel : Z) (c : Class) : bool := bool_decide (is_Some (methods c !! sel)).

Definition class_has_method (class sel : Z) (rt : Runtime) : outcome bool :=
  superclass_loop (λ c, if has_method sel c then Some (Ret true) else None) (Ret false) class rt.
Definition class_has_uninherited_method (class sel : Z) (rt : Runtime) : outcome bool :=
  c ← borrow_cls class rt; Ret (has_method sel c).
Definition class_get_guest_method_imp (class sel : Z) (rt : Runtime) : outcome (option Z) :=
  superclass_loop (λ c, match methods c !! sel with
                        | Some (IMP_Guest g) => Some (Ret (Some g))
                        | Some (IMP_Host _) => Some (Ret None)
                        | None => None
                        end) (Ret None) class rt.
Definition class_get_method_signature (class sel : Z) (rt : Runtime) : outcome (option Z) :=
  superclass_loop (λ c, if has_method sel c then Some (Ret (guest_method_signatures c !! sel)) else None) (Ret None) class rt.
Definition class_has_method_named (class : Z) (sel_name : list Z) (rt : Runtime) : outcome bool :=
  match lookup_selector sel_name rt with Some sel => class_has_method class sel rt | None => Ret false end.
Definition object_has_method (m : Mem) (obj sel : Z) (rt : Runtime) : outcome bool :=
  class ← isa_of obj m; class_has_method class sel rt.
Definition object_has_uninherited_method (m : Mem) (obj sel : Z) (rt : Runtime) : outcome bool :=
  class ← isa_of obj m; class_has_uninherited_method class sel rt.
Definition object_get_method_signature (m : Mem) (obj sel : Z) (rt : Runtime) : outcome (option Z) :=
  class ← isa_of obj m; class_get_method_signature class sel rt.
Definition object_has_method_named (m : Mem) (obj : Z) (sel_name : list Z) (rt : Runtime) : outcome bool :=
  match lookup_selector sel_name rt with Some sel => object_has_method m obj sel rt | None => Ret false end.

(** The loop compares the class before it looks at it. *)
Fixpoint overrides_walk (fuel : nat) (class sel target : Z) (rt : Runtime) : outcome bool :=
  match fuel with
  | O => Panic
  | S fuel =>
      if class =? target then Ret false
      else
        c ← borrow_cls class rt;
        if has_method sel c then Ret true
        else if superclass c =? nil then Panic
        else overrides_walk fuel (superclass c) sel target rt
  end.
Definition class_overrides_method_of_superclass (class sel superclass : Z) (rt : Runtime) : outcome bool :=
  overrides_walk (S (S (size (rt_objects rt)))) class sel superclass rt.

(** [next == nil] ends the loop before the comparison with the superclass. *)
Definition class_is_subclass_of (class target : Z) (rt : Runtime) : outcome bool :=
  if class =? target then Ret true
  else superclass_loop (λ c, if negb (superclass c =? nil) && (superclass c =? target) then Some (Ret true) else None) (Ret false) class rt.

Definition object_lookup_ivar (m : Mem) (obj : Z) (name : list Z) (rt : Runtime) : outcome (option Z) :=
  class ← isa_of obj m;
  superclass_loop (λ c, match ivars c !! name with
                        | Some (ivar_offset_ptr, _) =>
                            Some (ivar_offset ← read_u32 ivar_offset_ptr m; p ← u32 (obj + ivar_offset); Ret (Some p))
                        | None => None
                        end) (Ret None) class rt.

Definition try_get_class_name (class : Z) (rt : Runtime) : option (list Z) :=
  match rt_objects rt !! class with
  | Some (AClass c) => Some (cls_name c)
  | Some (UnimplementedClass name _) | Some (FakeClass name _) => Some name
  | _ => None
  end.
Definition get_class_name (class : Z) (rt : Runtime) : outcome (list Z) := unwrap (try_get_class_name class rt).
Definition get_superclass (class : Z) (rt : Runtime) : outcome Z := c ← borrow_cls class rt; Ret (superclass c).
Definition is_unimplemented_class (class : Z) (rt : Runtime) : outcome bool :=
  if class =? nil then Ret false
  else host ← unwrap (rt_objects rt !! class); Ret (match host with UnimplementedClass _ _ => true | _ => false end).
Definition is_fake_class (class : Z) (rt : Runtime) : outcome bool :=
  if class =? nil then Ret false
  else host ← unwrap (rt_objects rt !! class); Ret (match host with FakeClass _ _ => true | _ => false end).

(** *** Functions of the guest's runtime library *)

Definition objc_getClass (name : Z) (rt : Runtime) (m : Mem) : outcome Z :=
  name ← cstr_at_utf8_unwrap name m;
  class ← get_class name false rt m;
  unwrap class.
Definition class_getSuperclass (cls : Z) (rt : Runtime) : outcome Z :=
  if cls =? nil then Ret nil else c ← borrow_cls cls rt; Ret (superclass c).
Definition class_getInstanceSize (cls : Z) (rt : Runtime) : outcome Z :=
  if cls =? nil then Ret 0 else c ← borrow_cls cls rt; Ret (instance_size c).
Definition class_getProperty (cls name : Z) (rt : Runtime) (m : Mem) : outcome Z :=
  if cls =? nil then Ret 0
  else
    c_name ← cstr_at_utf8_unwrap name m;
    class_name_string ← get_class_name cls rt;
    if bool_decide (class_name_string = bytes_of "UIScreen"%string) && bool_decide (c_name = bytes_of "scale"%string) then Ret 0 else Panic.
Definition object_getClass (obj : Z) (m : Mem) : outcome Z := if obj =? nil then Ret nil else isa_of obj m.

(** [objc_getProperty] ([objc/properties.rs]): [checked_add_signed]. *)
Definition objc_getProperty (this offset : Z) (m : Mem) : outcome Z :=
  rassert (4 <=? offset);;
  ivar ← u32 (this + offset);
  read_u32 ivar m.
Definition objc_copyStruct (dest src size : Z) (m : Mem) : outcome Mem := memmove dest src size m.
