(* ===== verification/ObjcIvars.v ===== *)
(** * Instance variables of superclasses and subclasses

    [register_bin_classes] moves the instance variables of a class behind those of its
    superclass when the superclass has grown since the app was built.  The passes over
    the class table end, visit superclasses before subclasses, and leave every class
    with its instance variables behind those of its superclass. *)

From S2P Require Import Prelude ChunkMap SizeBucketed VMAllocator HeapAllocator GuestMem GuestAlloc Env Pthread Semaphore Fs ObjcClasses ObjcClassFacts.

(** ** Moving one class *)

Lemma ldiff_bounds s m : 0 ≤ s → 0 ≤ m → s - m ≤ Z.ldiff s m ≤ s.
Proof.
  intros Hs Hm. assert (Z.ldiff s m = s - Z.land s m) as ->.
  { rewrite (Z.sub_nocarry_ldiff s (Z.land s m)).
    - apply Z.bits_inj'. intros n _. rewrite !Z.ldiff_spec, Z.land_spec. by destruct (Z.testbit s n), (Z.testbit m n).
    - apply Z.bits_inj'. intros n _. rewrite Z.ldiff_spec, Z.land_spec, Z.bits_0. by destruct (Z.testbit s n), (Z.testbit m n). }
  assert (0 ≤ Z.land s m) by (apply Z.land_nonneg; lia).
  assert (0 ≤ Z.ldiff m s) by (apply Z.ldiff_nonneg; lia).
  assert (Z.land s m = m - Z.ldiff m s) as E.
  { rewrite (Z.sub_nocarry_ldiff m (Z.ldiff m s)).
    - apply Z.bits_inj'. intros n _. rewrite !Z.ldiff_spec, Z.land_spec. by destruct (Z.testbit s n), (Z.testbit m n).
    - apply Z.bits_inj'. intros n _. rewrite !Z.ldiff_spec, Z.bits_0. by destruct (Z.testbit s n), (Z.testbit m n). }
  lia.
Qed.

Lemma max_alignment_ge l : 1 ≤ max_alignment l.
Proof. induction l as [|[o a] l IH]; simpl; [lia|]. case_match; lia. Qed.

Lemma align_diff_spec diff a :
  0 ≤ diff → 1 ≤ a → diff + a ≤ U32_MOD → ∃ d, align_diff diff a = Ret d ∧ diff ≤ d < diff + a.
Proof.
  intros Hd Ha Hb. unfold align_diff. rewrite u32_ok by lia. cbn [mbind outcome_bind]. rewrite u32_ok by lia. cbn [mbind outcome_bind].
  eexists. split; [done|]. pose proof (ldiff_bounds (diff + (a - 1)) (a - 1)). lia.
Qed.

(** What every class adds at most to the size of the classes below it. *)
Definition class_weight (c : Class) : Z := instance_start c + instance_size c + max_alignment (map_to_list (ivars c)).*2.

(** [c] with its instance variables moved by [d]. *)
Definition slid (d : Z) (c c' : Class) : Prop :=
  c' = mkClass (cls_name c) (is_metaclass c) (superclass c) (methods c) (guest_method_signatures c) (slide_ivar d <$> ivars c)
         (instance_start c + d) (instance_size c + d) (is_initialized c).

Lemma slid_superclass d c c' : slid d c c' → superclass c' = superclass c.
Proof. by intros ->. Qed.
Lemma slid_0 c : slid 0 c c.
Proof.
  unfold slid. destruct c as [n mc s ms sg iv st sz i]; simpl. rewrite !Z.add_0_r. f_equal.
  rewrite <- (map_fmap_id iv) at 1. apply map_fmap_ext. intros k [o a] _. unfold slide_ivar. simpl. case_match; [done|]. by rewrite Z.add_0_r.
Qed.

(** Offsets of instance variables are addresses below [bound]. *)
Definition offsets_below (bound : Z) (c : Class) : Prop := ∀ name o a, ivars c !! name = Some (o, a) → 0 ≤ o < bound.

Lemma slide_ivars_spec d iv bound :
  0 ≤ d → bound + d ≤ U32_MOD → (∀ name o a, iv !! name = Some (o, a) → 0 ≤ o < bound) → slide_ivars d iv = Ret (slide_ivar d <$> iv).
Proof.
  intros Hd Hb Ho. unfold slide_ivars.
  assert (forallb (λ x, (x.1 =? 0) || (x.1 + d <? U32_MOD)) (map_to_list iv).*2 = true) as ->; [|done].
  apply forallb_forall. intros [o a] Hx%list_elem_of_In. apply list_elem_of_fmap in Hx as ([n y] & -> & Hx%elem_of_map_to_list).
  destruct y as [o' a']. apply Ho in Hx. simpl. apply orb_true_iff. right. apply Z.ltb_lt. lia.
Qed.

Lemma reconcile_spec diff c bound :
  0 ≤ diff → 0 ≤ instance_start c → 0 ≤ instance_size c → 0 ≤ bound → offsets_below bound c → diff + class_weight c + bound ≤ U32_MOD →
  ∃ d c', reconcile diff c = Ret c' ∧ slid d c c' ∧ diff ≤ d < diff + max_alignment (map_to_list (ivars c)).*2.
Proof.
  intros Hd Hs Hz Hb0 Ho Hb. unfold class_weight in Hb. pose proof (max_alignment_ge (map_to_list (ivars c)).*2) as Ha.
  unfold reconcile. case_bool_decide as Hi.
  - simpl. rewrite u32_ok by lia. simpl. rewrite u32_ok by lia. simpl. eexists diff, _. split; [done|]. split; [|lia].
    unfold slid. by rewrite Hi, fmap_empty.
  - destruct (align_diff_spec diff (max_alignment (map_to_list (ivars c)).*2)) as (d & -> & Hd'); [lia..|]. simpl.
    rewrite (slide_ivars_spec d _ bound) by (done || lia). simpl. rewrite u32_ok by lia. simpl. rewrite u32_ok by lia. simpl.
    eexists d, _. split; [done|]. split; [done|lia].
Qed.

(** ** The second pass *)

Definition parent (rt : Runtime) (class : Z) : option Z :=
  match rt_objects rt !! class with Some (AClass c) => Some (superclass c) | _ => None end.

Lemma parent_class rt class : is_Some (parent rt class) → ∃ c, rt_objects rt !! class = Some (AClass c).
Proof. unfold parent. destruct (rt_objects rt !! class) as [[c| | |]|]; [eauto|by intros []..]. Qed.

Definition roots (rt : Runtime) (l : list Z) : list Z := filter (λ c, parent rt c = Some nil) l.
Definition kids (rt : Runtime) (l : list Z) (s : Z) : list Z := filter (λ c, parent rt c = Some s ∧ s ≠ nil) l.

Lemma roots_snoc rt l c : roots rt (l ++ [c]) = roots rt l ++ (if decide (parent rt c = Some nil) then [c] else []).
Proof. unfold roots. rewrite filter_app, filter_cons, filter_nil. done. Qed.
Lemma kids_snoc rt l c s : kids rt (l ++ [c]) s = kids rt l s ++ (if decide (parent rt c = Some s ∧ s ≠ nil) then [c] else []).
Proof. unfold kids. rewrite filter_app, filter_cons, filter_nil. done. Qed.

Lemma inherit_pass rt order done queue inv found :
  NoDup (done ++ order).*1 → NoDup (done ++ order).*2 → (∀ x, x ∈ order → is_Some (rt_objects rt !! x.2)) →
  queue = roots rt done.*2 → (∀ s, default [] (inv !! s) = kids rt done.*2 s) → found = bool_decide (NSObject_name ∈ done.*1) →
  ∃ inv', for_each (inherit_step rt) order (queue, inv, found) =
      Ret (roots rt (done ++ order).*2, inv', bool_decide (NSObject_name ∈ (done ++ order).*1)) ∧
    ∀ s, default [] (inv' !! s) = kids rt (done ++ order).*2 s.
Proof.
  revert done queue inv found. induction order as [|[n c] order IH]; intros done queue inv found Hn Hc Ho -> Hinv ->.
  { rewrite app_nil_r. by exists inv. }
  assert (done ++ (n, c) :: order = (done ++ [(n, c)]) ++ order) as E by (by rewrite <- app_assoc).
  rewrite E in Hn, Hc |- *. cbn [for_each].
  assert (n ∉ done.*1) as Hnn.
  { rewrite !fmap_app in Hn. apply NoDup_app in Hn as [Hn _]. apply NoDup_app in Hn as (_ & Hn & _). set_solver. }
  assert (c ∉ done.*2) as Hcc.
  { rewrite !fmap_app in Hc. apply NoDup_app in Hc as [Hc _]. apply NoDup_app in Hc as (_ & Hc & _). set_solver. }
  assert (∃ inv1, inherit_step rt (n, c) (roots rt done.*2, inv, bool_decide (NSObject_name ∈ done.*1)) =
    Ret (roots rt (done ++ [(n, c)]).*2, inv1, bool_decide (NSObject_name ∈ (done ++ [(n, c)]).*1)) ∧
    ∀ s, default [] (inv1 !! s) = kids rt (done ++ [(n, c)]).*2 s) as (inv1 & -> & Hinv1).
  2: { simpl. apply IH; [done|done|set_solver|done|done|done]. }
  unfold inherit_step. assert (negb (bool_decide (n = NSObject_name) && bool_decide (NSObject_name ∈ done.*1)) = true) as ->.
  { repeat case_bool_decide; simpl; [|done..]. congruence. }
  simpl. assert (bool_decide (n = NSObject_name) || bool_decide (NSObject_name ∈ done.*1) = bool_decide (NSObject_name ∈ (done ++ [(n, c)]).*1)) as ->.
  { rewrite fmap_app. simpl. repeat case_bool_decide; simpl; set_solver. }
  rewrite !fmap_app. change ([(n, c)].*2) with [c]. rewrite roots_snoc.
  assert (parent rt c = match rt_objects rt !! c with Some (AClass k) => Some (superclass k) | _ => None end) as Hp by done.
  destruct (Ho (n, c)) as [h Hh]; [set_solver|]. simpl in Hh. rewrite Hh in *. destruct h as [k| | |].
  2-4: exists inv; rewrite decide_False, app_nil_r by (rewrite Hp; naive_solver); split; [done|];
    intros s; rewrite kids_snoc, decide_False, app_nil_r by (rewrite Hp; naive_solver); apply Hinv.
  destruct (Z.eqb_spec (superclass k) nil) as [Es|Es]; simpl.
  - rewrite (bool_decide_eq_false_2 (c ∈ roots rt done.*2)) by (intros Hx%list_elem_of_filter; naive_solver). simpl. exists inv.
    rewrite decide_True by congruence. split; [done|]. intros s. rewrite kids_snoc, decide_False, app_nil_r; [apply Hinv|].
    intros [Hps Hs]. rewrite Hp in Hps. congruence.
  - eexists. rewrite decide_False, app_nil_r by (rewrite Hp; congruence). split; [done|]. intros s. rewrite kids_snoc.
    destruct (decide (s = superclass k)) as [->|Hs].
    + rewrite lookup_insert_eq, decide_True by done. simpl. by rewrite Hinv.
    + rewrite lookup_insert_ne by done. rewrite decide_False, app_nil_r; [apply Hinv|]. intros [Hps _]. rewrite Hp in Hps. congruence.
Qed.

(** ** The third pass *)

Section third_pass.
Context (rt0 : Runtime) (table : list Z) (bound : Z).

Definition weight_of (class : Z) : Z := match rt_objects rt0 !! class with Some (AClass c) => class_weight c | _ => 0 end.
Definition total_weight (l : list Z) : Z := foldr (λ c n, weight_of c + n) 0 l.

(** Sizes are not negative, and all of them together fit into the address space. *)
Definition sizes_fit : Prop :=
  0 ≤ bound ∧ total_weight table + bound ≤ U32_MOD ∧
  ∀ class c, class ∈ table → rt_objects rt0 !! class = Some (AClass c) → 0 ≤ instance_start c ∧ 0 ≤ instance_size c ∧ offsets_below bound c.

Context (Hnodup : NoDup table) (Hfit : sizes_fit).

Lemma weight_nonneg c : c ∈ table → 0 ≤ weight_of c.
Proof.
  intros Hc. unfold weight_of. destruct (rt_objects rt0 !! c) as [[k| | |]|] eqn:E; [|lia..].
  destruct Hfit as (_ & _ & H). destruct (H _ _ Hc E) as (? & ? & _). pose proof (max_alignment_ge (map_to_list (ivars k)).*2).
  unfold class_weight. lia.
Qed.

Lemma total_weight_app l l' : total_weight (l ++ l') = total_weight l + total_weight l'.
Proof. induction l as [|x l IH]; simpl; [done|]. rewrite IH. lia. Qed.

Lemma total_weight_nonneg l : l ⊆ table → 0 ≤ total_weight l.
Proof.
  induction l as [|x l IH]; simpl; intros Hs; [lia|].
  assert (0 ≤ weight_of x) by (apply weight_nonneg; set_solver). assert (0 ≤ total_weight l) by (apply IH; set_solver). lia.
Qed.

Lemma total_weight_sub l : NoDup l → l ⊆ table → total_weight l ≤ total_weight table.
Proof.
  intros Hn Hs. apply NoDup_submseteq in Hs as [k Hp]%submseteq_Permutation; [|done].
  assert (∀ x, x ∈ k → x ∈ table) as Hk by (intros; rewrite Hp; set_solver).
  assert (total_weight table = total_weight (l ++ k)) as ->.
  { clear -Hp. induction Hp; simpl; lia. }
  rewrite total_weight_app. pose proof (total_weight_nonneg k Hk). lia.
Qed.

Record pass_inv (V Q : list Z) (rt : Runtime) : Prop := {
  pi_nodup : NoDup (V ++ Q);
  pi_sub : V ++ Q ⊆ table;
  pi_parent c : c ∈ V ++ Q → parent rt0 c = Some nil ∨ ∃ s, s ∈ V ∧ s ≠ nil ∧ parent rt0 c = Some s;
  pi_roots : roots rt0 table ⊆ V ++ Q;
  pi_kids s : s ∈ V → kids rt0 table s ⊆ V ++ Q;
  pi_frame : rt = set_rt_objects (rt_objects rt) rt0;
  pi_other c : c ∉ V → rt_objects rt !! c = rt_objects rt0 !! c;
  pi_done c k : c ∈ V → rt_objects rt0 !! c = Some (AClass k) → ∃ d k', 0 ≤ d ∧ slid d k k' ∧
    rt_objects rt !! c = Some (AClass k') ∧ instance_size k' ≤ total_weight V ∧
    (superclass k ≠ nil → ∃ s, rt_objects rt !! superclass k = Some (AClass s) ∧ instance_size s ≤ instance_start k')
}.

(** What [reconcile_class] does to the class it is called for. *)
Lemma reconcile_class_spec V Q c rt :
  pass_inv V (c :: Q) rt →
  ∃ k d k', rt_objects rt0 !! c = Some (AClass k) ∧ reconcile_class c rt = Ret (put_class c k' rt) ∧
    0 ≤ d ∧ slid d k k' ∧ instance_size k' ≤ total_weight (V ++ [c]) ∧
    (superclass k ≠ nil → ∃ s, superclass k ∈ V ∧ rt_objects rt !! superclass k = Some (AClass s) ∧ instance_size s ≤ instance_start k').
Proof.
  intros [Hn Hs Hp _ _ Hf Ho Hd]. pose proof Hfit as (Hb0 & Hb & Hsz).
  assert (c ∈ table) as Hc by (apply Hs; set_solver).
  assert (c ∉ V) as HcV by (apply NoDup_app in Hn as (_ & Hn & _); intros ?; by apply (Hn c); [|left]).
  assert (rt_objects rt !! c = rt_objects rt0 !! c) as Eo by (by apply Ho).
  assert (total_weight V + weight_of c ≤ total_weight table) as Htot.
  { rewrite <- (Z.add_0_r (weight_of c)). change (weight_of c + 0) with (total_weight [c]). rewrite <- total_weight_app.
    apply total_weight_sub; [|set_solver]. rewrite cons_middle, app_assoc in Hn. by apply NoDup_app in Hn as [? _]. }
  rewrite total_weight_app. simpl. rewrite Z.add_0_r.
  assert (∃ k, rt_objects rt0 !! c = Some (AClass k)) as [k Ek] by (apply parent_class; destruct (Hp c) as [->|(? & _ & _ & ->)]; [set_solver|eauto..]).
  destruct (Hsz _ _ Hc Ek) as (Hst & Hsi & Hof). assert (weight_of c = class_weight k) as Hw by (unfold weight_of; by rewrite Ek).
  pose proof (max_alignment_ge (map_to_list (ivars k)).*2) as Hma.
  assert (0 ≤ total_weight V) as HV0 by (apply total_weight_nonneg; set_solver).
  assert (put_class c k rt = rt) as Eput.
  { unfold put_class. rewrite insert_id by congruence. by destruct rt. }
  unfold reconcile_class, need_ivar_reconciliation. rewrite Eo, Ek. simpl.
  destruct (Z.eqb_spec (superclass k) nil) as [Esup|Esup].
  { exists k, 0, k. rewrite Eput. simpl. split_and!; [done|done|lia|apply slid_0|unfold class_weight in Hw; lia|done]. }
  destruct (Hp c) as [Hpc|(s & HsV & _ & Hpc)]; [set_solver| |]; unfold parent in Hpc; rewrite Ek in Hpc; [congruence|].
  injection Hpc as <-. set (s := superclass k) in *.
  assert (∃ k0, rt_objects rt0 !! s = Some (AClass k0)) as [k0 Ek0] by (apply parent_class; destruct (Hp s) as [->|(? & _ & _ & ->)]; [set_solver|eauto..]).
  destruct (Hd s k0 HsV Ek0) as (ds & ks & Hds & Hsl & Eks & Hszs & _). rewrite Eks. simpl.
  destruct (Z.ltb_spec (instance_start k) (instance_size ks)); simpl.
  2: { exists k, 0, k. rewrite Eput. split_and!; [done|done|lia|apply slid_0|unfold class_weight in Hw; lia|]. intros _. by exists ks. }
  assert (class_weight k = instance_start k + instance_size k + max_alignment (map_to_list (ivars k)).*2) as Hw' by done.
  rewrite u32_ok by lia. simpl. unfold borrow_cls. rewrite Eo, Ek. simpl.
  destruct (reconcile_spec (instance_size ks - instance_start k) k bound) as (d & k' & -> & Hk' & Hdd); [lia..|done|lia|]. simpl.
  exists k, d, k'. unfold slid in Hk'. subst k'. simpl. split_and!; [done|done|lia|done|lia|].
  intros _. exists ks. split_and!; [done|done|lia].
Qed.

Lemma kids_spec c s : c ∈ kids rt0 table s ↔ c ∈ table ∧ parent rt0 c = Some s ∧ s ≠ nil.
Proof. unfold kids. rewrite list_elem_of_filter. tauto. Qed.

Lemma total_weight_snoc V c : c ∈ table → total_weight V ≤ total_weight (V ++ [c]).
Proof. intros Hc. rewrite total_weight_app. simpl. pose proof (weight_nonneg c Hc). lia. Qed.

Lemma pass_step V Q c rt :
  pass_inv V (c :: Q) rt → ∃ rt', reconcile_class c rt = Ret rt' ∧ pass_inv (V ++ [c]) (Q ++ kids rt0 table c) rt'.
Proof.
  intros Hi. destruct (reconcile_class_spec V Q c rt Hi) as (k & d & k' & Ek & E & Hd0 & Hsl & Hsize & Hsup).
  exists (put_class c k' rt). split; [done|]. destruct Hi as [Hn Hs Hp Hr Hk Hf Ho Hd].
  assert (c ∉ V) as HcV by (apply NoDup_app in Hn as (_ & Hn & _); intros ?; by apply (Hn c); [|left]).
  assert (c ∈ table) as Hc by (apply Hs; set_solver).
  assert ((V ++ [c]) ++ Q ++ kids rt0 table c = (V ++ c :: Q) ++ kids rt0 table c) as EV by (by rewrite <- !app_assoc).
  split; rewrite ?EV.
  - apply NoDup_app. split_and!; [done| |by apply NoDup_filter].
    intros x Hx (_ & Hpx & Hcn)%kids_spec. destruct (Hp x Hx) as [Hpx'|(s & HsV & _ & Hpx')]; congruence.
  - intros x [Hx|Hx]%elem_of_app; [by apply Hs|]. by apply kids_spec in Hx as [? _].
  - intros x [Hx|Hx]%elem_of_app.
    + destruct (Hp x Hx) as [?|(s & ? & ? & ?)]; [by left|right]. exists s. set_solver.
    + apply kids_spec in Hx as (_ & ? & ?). right. exists c. set_solver.
  - set_solver.
  - intros s [HsV| ->%list_elem_of_singleton]%elem_of_app; [|set_solver]. specialize (Hk s HsV). set_solver.
  - rewrite Hf. unfold put_class. by destruct rt0.
  - intros x Hx. simpl. rewrite lookup_insert_ne by set_solver. apply Ho. set_solver.
  - intros x kx [HxV| ->%list_elem_of_singleton]%elem_of_app Ex; simpl.
    + destruct (Hd x kx HxV Ex) as (dx & kx' & ? & ? & ? & ? & Hsx). exists dx, kx'. rewrite lookup_insert_ne by set_solver.
      split_and!; [done..| |]; [pose proof (total_weight_snoc V c Hc); lia|]. intros Hsn. destruct (Hsx Hsn) as (sx & Esx & ?).
      exists sx. rewrite lookup_insert_ne; [done|]. intros ->.
      destruct (Hp x) as [Hpx|(s & HsV & _ & Hpx)]; [set_solver| |]; unfold parent in Hpx; rewrite Ex in Hpx; congruence.
    + rewrite Ek in Ex. injection Ex as <-. exists d, k'. rewrite lookup_insert_eq. split_and!; [done..|].
      intros Hsn. destruct (Hsup Hsn) as (s & HsV & Es & ?). exists s. rewrite lookup_insert_ne; [done|congruence].
Qed.

Lemma reconcile_all_spec inv fuel V Q rt :
  (∀ s, default [] (inv !! s) = kids rt0 table s) → pass_inv V Q rt → (length table ≤ length V + fuel)%nat →
  ∃ rt' V', reconcile_all fuel inv Q rt = Ret rt' ∧ pass_inv V' [] rt'.
Proof.
  intros Hinv. revert V Q rt. induction fuel as [|fuel IH]; intros V [|c Q] rt Hi Hl; simpl; try by eauto.
  - exfalso. assert (V ++ c :: Q ⊆+ table) as Hsub%submseteq_length by (apply NoDup_submseteq; [apply Hi|apply Hi]).
    rewrite length_app in Hsub. simpl in Hsub. lia.
  - destruct (pass_step V Q c rt Hi) as (rt1 & -> & Hi1). simpl. rewrite Hinv. apply (IH (V ++ [c])); [done|].
    rewrite length_app. simpl. lia.
Qed.

(** All classes whose superclasses are in the table have been visited. *)
Lemma pass_visits V rt class l : pass_inv V [] rt → superclasses rt0 class l → l.*1 ⊆ table → class ∈ V.
Proof.
  clear Hnodup Hfit. intros [Hn Hs Hp Hr Hk Hf Ho Hd] H. rewrite app_nil_r in *. induction H as [class c Hc Hsup|class c l Hc Hsup Hl IH]; simpl; intros Hsub.
  - apply Hr, list_elem_of_filter. unfold parent. rewrite Hc, Hsup. set_solver.
  - assert (superclass c ∈ V) as HV by (apply IH; set_solver). apply (Hk _ HV), kids_spec. unfold parent. rewrite Hc. set_solver.
Qed.
End third_pass.

(** ** All passes *)

(** The instance variables of each class begin behind those of the next one. *)
Fixpoint stacked (l : list Class) : Prop :=
  match l with
  | c :: ((s :: _) as l') => instance_size s ≤ instance_start c ∧ stacked l'
  | _ => True
  end.

Lemma pass_stacked rt0 table V rt class l :
  pass_inv rt0 table V [] rt → superclasses rt0 class l → l.*1 ⊆ table → ∃ l', superclasses rt class l' ∧ l'.*1 = l.*1 ∧ stacked l'.*2.
Proof.
  intros Hi H Hsub. revert Hsub. induction H as [class c Hc Hn|class c l Hc Hn Hl IH]; intros Hsub.
  - assert (class ∈ V) as HV by (apply (pass_visits _ _ _ _ _ _ Hi (chain_root _ _ _ Hc Hn)); done).
    destruct (pi_done _ _ _ _ _ Hi _ _ HV Hc) as (d & c' & _ & Hd & E & _). exists [(class, c')].
    split_and!; [apply chain_root; [done|by rewrite (slid_superclass _ _ _ Hd)]|done|done].
  - assert (class ∈ V) as HV by (apply (pass_visits _ _ _ _ _ _ Hi (chain_super _ _ _ _ Hc Hn Hl)); done).
    destruct IH as (l' & Hl' & El' & Hst); [set_solver|].
    destruct (pi_done _ _ _ _ _ Hi _ _ HV Hc) as (d & c' & _ & Hd & E & _ & Hs). destruct (Hs Hn) as (s & Es & Hle).
    assert (superclass c' = superclass c) as Esup by (by eapply slid_superclass). exists ((class, c') :: l'). split_and!.
    + apply chain_super; [done|congruence|by rewrite Esup].
    + rewrite !fmap_cons, El'. done.
    + destruct Hl' as [? s' Es'|? s' ? Es']; rewrite Es in Es'; injection Es' as <-; simpl in *; auto.
Qed.

(** The table of classes as the first pass leaves it: different names for different
    classes, each with a host object, [NSObject] among them. *)
Definition class_table (order : list (list Z * Z)) (rt : Runtime) : Prop :=
  NoDup order.*1 ∧ NoDup order.*2 ∧ NSObject_name ∈ order.*1 ∧ ∀ x, x ∈ order → is_Some (rt_objects rt !! x.2).


(** A table where [Base] was built with one word of instance variables more than [Sub] knows. *)
Definition ivar_name : list Z := [120].
Definition small_class (name : list Z) (superclass : Z) (iv : gmap (list Z) (Z * Z)) (start size : Z) : Class :=
  mkClass name false superclass ∅ ∅ iv start size NotInitialized.
Definition grown_table : list (list Z * Z) := [([83; 117; 98], 300); (NSObject_name, 100); ([66; 97; 115; 101], 200)].
Definition grown_runtime : Runtime :=
  set_rt_objects {[ 100 := AClass (small_class NSObject_name nil ∅ 4 4);
                    200 := AClass (small_class [66; 97; 115; 101] 100 ∅ 4 12);
                    300 := AClass (small_class [83; 117; 98] 200 {[ ivar_name := (5000, 4) ]} 8 16) ]} Runtime_new.

Lemma grown_runtime_chain :
  superclasses grown_runtime 300
    [(300, small_class [83; 117; 98] 200 {[ ivar_name := (5000, 4) ]} 8 16); (200, small_class [66; 97; 115; 101] 100 ∅ 4 12);
     (100, small_class NSObject_name nil ∅ 4 4)].
Proof. repeat (apply chain_super; [reflexivity|done|]). by apply chain_root. Qed.


(** The instance variables of a class are found through a pointer to their offset.
    Reconciliation adds the distance to that pointer and not to the offset it points to:
    after it, the lookup reads another word of memory, here the 77 behind the offset 8. *)
Definition offset_mem : Mem :=
  set_bytes (store 5000 (le_bytes 4 8 ++ le_bytes 4 77) (store 6000 (le_bytes 4 300) ∅)) empty_mem.

Example reconciliation_moves_the_pointer :
  object_lookup_ivar offset_mem 6000 ivar_name grown_runtime = Ret (Some 6008) ∧
  (rt' ← reconcile_ivars grown_table grown_runtime; object_lookup_ivar offset_mem 6000 ivar_name rt') = Ret (Some 6077).
Proof. split; vm_compute; reflexivity. Qed.
