(* ===== verification/ObjcSelectors.v ===== *)
(** * Selectors are interned

    Messages are looked up by the address of a selector's string, so two selectors
    have to be the same address exactly when they are the same string, whether they came
    from the host's classes, from the app's binary or from [sel_registerName].  A run is any
    interleaving of registrations with other changes of guest memory that leave the
    registered strings alone. *)

From S2P Require Import Prelude ChunkMap SizeBucketed VMAllocator HeapAllocator GuestMem GuestAlloc Env Pthread Semaphore Fs ObjcClasses.

(** A name that is a Rust string and a C string. *)
Definition valid_name (name : list Z) : Prop :=
  Forall (λ x, 0 < x < 256) name ∧ utf8_valid name = true ∧ Z.of_nat (length name) < 15344.

(** The runtime's selectors are strings in memory that is in use. *)
Definition selectors_ok (rt : Runtime) (m : Mem) : Prop :=
  mem_ok m ∧ is_Some (heap_allocator m) ∧ ∀ name sel, selectors rt !! name = Some sel → string_kept m sel name ∧ utf8_valid name = true.

Lemma selectors_ok_grows rt m m' : mem_grows m m' → selectors_ok rt m → selectors_ok rt m'.
Proof.
  intros Hg (_ & _ & Hs). split_and!; [apply Hg|apply Hg|]. intros name sel [Hk ?]%Hs. split; [|done]. by eapply string_kept_grows.
Qed.

Lemma selectors_ok_insert rt m name sel :
  selectors_ok rt m → string_kept m sel name → utf8_valid name = true →
  selectors_ok (set_selectors (<[name := sel]> (selectors rt)) rt) m.
Proof.
  intros (Hm & Hh & Hs) Hk Hu. split_and!; [done|done|]. simpl. intros n s [[<- <-]|[_ ?]]%lookup_insert_Some; [done|by apply Hs].
Qed.

Lemma register_host_selector_spec name rt m k :
  selectors_ok rt m → valid_name name → mem_room (S k) m →
  ∃ sel rt' m', register_host_selector name rt m = Ret (sel, rt', m') ∧ mem_grows m m' ∧ mem_room k m' ∧ selectors_ok rt' m' ∧
    selectors rt' !! name = Some sel ∧ selectors rt ⊆ selectors rt' ∧ rt' = set_selectors (selectors rt') rt.
Proof.
  intros Hok (Hb & Hu & Hl) Hr. unfold register_host_selector, lookup_selector. destruct (selectors rt !! name) as [sel|] eqn:E.
  - exists sel, rt, m. split_and!; [done|by apply mem_grows_refl; apply Hok| |done|done|done|by destruct rt].
    intros Hk. destruct Hr as (b & s & ? & ?); [lia|]. exists b, s. split; [done|]. unfold HEAP_CHUNK_SIZE in *. lia.
  - destruct (alloc_cstr_room m k name) as (p & m' & -> & Hg & Hk & Hr'); [apply Hok|apply Hok|done|done|done|]. simpl.
    eexists p, _, m'. split; [done|]. split_and!; [done|done| |by apply lookup_insert_eq|by apply insert_subseteq|done].
    by apply selectors_ok_insert; [eapply selectors_ok_grows| |].
Qed.

Lemma register_bin_selector_spec p name rt m :
  selectors_ok rt m → string_kept m p name → utf8_valid name = true →
  ∃ sel rt', register_bin_selector p rt m = Ret (sel, rt') ∧ selectors_ok rt' m ∧ selectors rt' !! name = Some sel ∧
    selectors rt ⊆ selectors rt' ∧ rt' = set_selectors (selectors rt') rt.
Proof.
  intros Hok Hk Hu. unfold register_bin_selector, cstr_at_utf8_unwrap. rewrite (string_kept_cstr _ _ _ Hk). simpl. rewrite Hu. simpl.
  unfold lookup_selector. destruct (selectors rt !! name) as [sel|] eqn:E.
  - exists sel, rt. split_and!; [done..|by destruct rt].
  - eexists p, _. split; [done|]. split_and!; [by apply selectors_ok_insert|by apply lookup_insert_eq|by apply insert_subseteq|done].
Qed.

Lemma sel_registerName_eq p name rt m :
  cstr_at p m = Ret name → utf8_valid name = true → sel_registerName p rt m = register_host_selector name rt m.
Proof.
  intros E Hu. unfold sel_registerName, cstr_at_utf8_unwrap. rewrite E. simpl. rewrite Hu. simpl.
  unfold register_host_selector. by destruct (lookup_selector name rt).
Qed.

(** A run, with the names that were registered and the selectors they got, latest first. *)
Inductive selector_run : list (list Z * Z) → Runtime → Mem → Prop :=
| run_start m : mem_ok m → is_Some (heap_allocator m) → selector_run [] Runtime_new m
| run_host trace rt m name sel rt' m' :
    selector_run trace rt m → valid_name name → mem_room 1 m → register_host_selector name rt m = Ret (sel, rt', m') →
    selector_run ((name, sel) :: trace) rt' m'
| run_register trace rt m p name sel rt' m' :
    selector_run trace rt m → cstr_at p m = Ret name → valid_name name → mem_room 1 m → sel_registerName p rt m = Ret (sel, rt', m') →
    selector_run ((name, sel) :: trace) rt' m'
| run_bin trace rt m p name sel rt' :
    selector_run trace rt m → string_kept m p name → utf8_valid name = true → register_bin_selector p rt m = Ret (sel, rt') →
    selector_run ((name, sel) :: trace) rt' m
| run_guest trace rt m m' :
    selector_run trace rt m → mem_ok m' → is_Some (heap_allocator m') →
    (∀ name sel, selectors rt !! name = Some sel → string_kept m' sel name) → selector_run trace rt m'.

Lemma selector_run_ok trace rt m :
  selector_run trace rt m → selectors_ok rt m ∧ ∀ name sel, (name, sel) ∈ trace → selectors rt !! name = Some sel.
Proof.
  assert (∀ trace rt m name sel rt' m', selectors_ok rt m ∧ (∀ n s, (n, s) ∈ trace → selectors rt !! n = Some s) → valid_name name → mem_room 1 m →
    register_host_selector name rt m = Ret (sel, rt', m') →
    selectors_ok rt' m' ∧ ∀ n s, (n, s) ∈ (name, sel) :: trace → selectors rt' !! n = Some s) as Hreg.
  { intros trace' rt' m' name sel rt1 m1 [Hok Htr] Hv Hr E.
    destruct (register_host_selector_spec name rt' m' 0 Hok Hv Hr) as (s & rt2 & m2 & E' & _ & _ & Hok' & Hs & Hsub & _).
    rewrite E in E'. injection E' as -> -> ->. split; [done|]. intros n x [[= -> ->]|Hx]%elem_of_cons; [done|]. by eapply lookup_weaken, Hsub; apply Htr. }
  induction 1 as [m Hm Hh|trace rt m name sel rt' m' _ IH Hv Hr E|trace rt m p name sel rt' m' _ IH Hp Hv Hr E|trace rt m p name sel rt' _ [Hok Htr] Hp Hu E|trace rt m m' _ [Hok Htr] Hm Hh Hk].
  - split; [|by intros n s ?%elem_of_nil]. split_and!; [done|done|]. intros name sel H. discriminate H.
  - by eapply Hreg.
  - rewrite (sel_registerName_eq p name) in E by (done || apply Hv). by eapply Hreg.
  - destruct (register_bin_selector_spec p name rt m Hok Hp Hu) as (s & rt1 & E' & Hok' & Hs & Hsub & _).
    rewrite E in E'. injection E' as -> ->. split; [done|]. intros n x [[= -> ->]|Hx]%elem_of_cons; [done|]. by eapply lookup_weaken, Hsub; apply Htr.
  - split; [|done]. split_and!; [done|done|]. intros name sel Hs. split; [by apply Hk|]. by apply Hok in Hs as [_ ?].
Qed.

(** C22: selectors are interned.  In every run, any two registrations, by whichever of
    the three ways and whenever they happened, got the same selector exactly when they were
    for the same string; every selector that was handed out still points to its string; and
    a registration of a valid name returns as long as memory has room for one more block. *)
Theorem selectors_interned trace rt m :
  selector_run trace rt m →
  (∀ name sel name' sel', (name, sel) ∈ trace → (name', sel') ∈ trace → (sel = sel' ↔ name = name')) ∧
  (∀ name sel, (name, sel) ∈ trace → cstr_at sel m = Ret name) ∧
  (∀ name, valid_name name → mem_room 1 m → ∃ sel rt' m', register_host_selector name rt m = Ret (sel, rt', m')) .
Proof.
  intros H. destruct (selector_run_ok trace rt m H) as [Hok Htr].
  assert (∀ name sel, (name, sel) ∈ trace → cstr_at sel m = Ret name) as Hc.
  { intros name sel [Hn _]%Htr%Hok. by apply string_kept_cstr. }
  split_and!; [|done|].
  - intros n s n' s' H1 H2. split; [intros <-|intros <-].
    + apply Hc in H1, H2. congruence.
    + apply Htr in H1, H2. congruence.
  - intros name Hv Hr. destruct (register_host_selector_spec name rt m 0 Hok Hv Hr) as (s & rt1 & m1 & E & _). by exists s, rt1, m1.
Qed.

(** Two registrations of one name and one of another. *)
Lemma selectors_interned_witness :
  ∃ trace rt m s1 s2 s3, selector_run trace rt m ∧ trace = [([97], s3); ([98], s2); ([97], s1)] ∧ s1 = s3 ∧ s1 ≠ s2.
Proof.
  destruct demo_mem_room as (m & _ & Hm & Hh & Hroom & _).
  assert (∀ c, 97 ≤ c < 100 → valid_name [c]) as Hv.
  { intros c Hc. split_and!; [repeat constructor; lia|simpl; by rewrite (proj2 (Z.ltb_lt _ _)) by lia|simpl; lia]. }
  assert (selectors_ok Runtime_new m) as Hok0. { split_and!; [done|done|]. intros n s H. discriminate H. }
  assert (∀ k m, mem_room (S k) m → mem_room 1 m) as Hone.
  { intros k m' Hr _. destruct Hr as (b & s & ? & ?); [lia|]. exists b, s. split; [done|]. unfold HEAP_CHUNK_SIZE in *. lia. }
  destruct (register_host_selector_spec [97] Runtime_new m 99) as (s1 & rt1 & m1 & E1 & _ & Hr1 & Hok1 & _); [done|apply Hv; lia|done|].
  destruct (register_host_selector_spec [98] rt1 m1 98) as (s2 & rt2 & m2 & E2 & _ & Hr2 & Hok2 & _); [done|apply Hv; lia|done|].
  destruct (register_host_selector_spec [97] rt2 m2 97) as (s3 & rt3 & m3 & E3 & _ & Hr3 & Hok3 & _); [done|apply Hv; lia|done|].
  assert (selector_run [([97], s3); ([98], s2); ([97], s1)] rt3 m3) as Hrun.
  { apply (run_host _ rt2 m2 _ _ _ m3); [|apply Hv; lia|by eapply Hone|exact E3].
    apply (run_host _ rt1 m1 _ _ _ m2); [|apply Hv; lia|by eapply Hone|exact E2].
    apply (run_host _ Runtime_new m _ _ _ m1); [by apply run_start|apply Hv; lia|by eapply Hone|exact E1]. }
  destruct (selectors_interned _ _ _ Hrun) as (Hi & _ & _).
  assert (∀ x, In x [([97], s3); ([98], s2); ([97], s1)] → x ∈ [([97], s3); ([98], s2); ([97], s1)]) as Hin by (intros x; apply list_elem_of_In).
  exists [([97], s3); ([98], s2); ([97], s1)], rt3, m3, s1, s2, s3. split; [exact Hrun|]. split; [reflexivity|]. split.
  - apply (Hi [97] s1 [97] s3); [apply Hin; simpl; tauto..|reflexivity].
  - intros E. assert ([97] = [98]) as E'; [|discriminate E']. apply (Hi [97] s1 [98] s2); [apply Hin; simpl; tauto..|exact E].
Defined.
