(* ===== verification/ObjcLink.v ===== *)
(** * Linking host classes

    [link_class] creates classes on demand from the templates of the host's libraries:
    class and metaclass together, superclasses first, with the special case of [NSObject],
    whose metaclass is its own [isa] and a subclass of [NSObject].  The theorem says that the
    result is the hierarchy the templates describe, and that what was linked before stays as
    it was.  Classes that the app's binary brought along ([Bin]) may be in the table too. *)

From S2P Require Import Prelude ChunkMap SizeBucketed VMAllocator HeapAllocator GuestMem GuestAlloc Env Pthread Semaphore Fs ObjcClasses.

(** ** New objects *)

(** Objects are in memory that is in use, and [nil] is not one of them. *)
Record objects_kept (rt : Runtime) (m : Mem) : Prop := {
  ok_mem : mem_ok m;
  ok_heap : is_Some (heap_allocator m);
  ok_nil : mem_kept m 0;
  ok_objects o : is_Some (rt_objects rt !! o) → mem_kept m o
}.

Lemma objects_kept_grows rt m m' : objects_kept rt m → mem_grows m m' → objects_kept rt m'.
Proof. intros [? ? ? Ho] Hg. split; [apply Hg|apply Hg|by apply (grows_kept _ _ Hg)|]. intros o H%Ho. by apply (grows_kept _ _ Hg). Qed.

Lemma fresh_not_nil m p size m' : mem_kept m 0 → fresh_block m p size m' → 0 < size → 0 < p.
Proof. intros H0 Hf Hs. destruct (fresh_range _ _ _ _ Hf). pose proof (fresh_kept _ _ _ _ Hf 0 H0). lia. Qed.

(** [p] is a new block of one word that holds [v]. *)
Lemma alloc_word rt m k v :
  objects_kept rt m → mem_room (S k) m → 0 ≤ v < U32_MOD →
  ∃ p m1 m2, mem_alloc 4 m = Ret (p, m1) ∧ write_u32 p v m1 = Ret m2 ∧ mem_grows m m2 ∧ mem_room k m2 ∧ word_kept m2 p v ∧
    rt_objects rt !! p = None ∧ (∀ v', 0 ≤ v' < U32_MOD → ∃ m3, write_u32 p v' m2 = Ret m3 ∧ mem_grows m m3 ∧ mem_room k m3 ∧ word_kept m3 p v').
Proof.
  intros [Hm Hh H0 Ho] Hr Hv. destruct (mem_alloc_room m k 4) as (p & m1 & E & Hg & Hf & Hr1); [done|done|lia|done|].
  pose proof (fresh_not_nil _ _ _ _ H0 Hf ltac:(lia)) as Hp. destruct (fresh_range _ _ _ _ Hf) as [_ Hp4].
  assert (∀ m1 v, 0 ≤ v < U32_MOD → mem_grows m m1 → fresh_block m p 4 m1 → mem_room k m1 →
    ∃ m2, write_u32 p v m1 = Ret m2 ∧ mem_grows m m2 ∧ mem_room k m2 ∧ fresh_block m p 4 m2 ∧ word_kept m2 p v) as Hw.
  { intros m1' v' Hv' Hg' Hf' Hr'. destruct (write_read_spec 4 p v' m1') as (m2 & E2 & Er & Hb & Eh & Ev & En); [lia|lia|simpl; lia|].
    destruct (mem_grows_fill m m1' m2 p 4 k Hg' Hf' Hr' Eh Ev En Hb) as (Hg2 & Hf2 & Hr2). exists m2. split_and!; [done..|].
    split_and!; [done|done| |].
    - intros a Ha. right. destruct (fresh_live _ _ _ _ Hf2) as (n & ? & ?). exists p, n. split; [done|lia].
    - unfold read_u32. rewrite Er. f_equal. apply Z.mod_small. done. }
  destruct (Hw m1 v Hv Hg Hf Hr1) as (m2 & E2 & Hg2 & Hr2 & Hf2 & Hk2). exists p, m1, m2. split_and!; [done..| |].
  - destruct (rt_objects rt !! p) eqn:Ep; [|done]. exfalso. apply (fresh_kept _ _ _ _ Hf p); [|lia]. apply Ho. by rewrite Ep.
  - intros v' Hv'. destruct (Hw m2 v' Hv' Hg2 Hf2 Hr2) as (m3 & ? & ? & ? & _ & ?). by exists m3.
Qed.

Lemma word_kept_self m p v : word_kept m p v → mem_kept m p ∧ 0 ≤ p < U32_MOD.
Proof. intros (? & ? & Hk & _). split; [apply Hk; lia|lia]. Qed.

Lemma objects_kept_insert rt m p host v : objects_kept rt m → word_kept m p v → objects_kept (set_rt_objects (<[p := host]> (rt_objects rt)) rt) m.
Proof.
  intros [Hm Hh H0 Ho] Hk. split; [done..|]. simpl. intros o. destruct (decide (o = p)) as [->|Hne]; [intros _; by eapply word_kept_self|].
  rewrite lookup_insert_ne by done. apply Ho.
Qed.

Lemma alloc_static_spec rt m k isa host :
  objects_kept rt m → mem_room (S k) m → 0 ≤ isa < U32_MOD →
  ∃ p m', alloc_static isa host rt m = Ret (p, set_rt_objects (<[p := host]> (rt_objects rt)) rt, m') ∧
    mem_grows m m' ∧ mem_room k m' ∧ word_kept m' p isa ∧ rt_objects rt !! p = None ∧
    objects_kept (set_rt_objects (<[p := host]> (rt_objects rt)) rt) m'.
Proof.
  intros Hok Hr Hi. destruct (alloc_word rt m k isa Hok Hr Hi) as (p & m1 & m2 & E1 & E2 & Hg & Hr2 & Hk & Hn & _).
  exists p, m2. unfold alloc_static. simpl. rewrite E1. simpl. rewrite E2. simpl. rewrite bool_decide_eq_true_2 by done. simpl.
  split_and!; [done..|]. eapply objects_kept_insert; [by eapply objects_kept_grows|done].
Qed.

(** ** The hierarchy *)

Section link.
Context (exports : ClassExports) (Bin : Z → Prop).

(** A class made from a template. *)
Definition host_class (t : ClassTemplate) (is_metaclass : bool) (superclass : Z) (ms : gmap Z IMP) (st : InitializationStatus) : Class :=
  mkClass (template_name t) is_metaclass superclass ms ∅ ∅ 4 4 st.

(** The class pair [class], [mc] is what [name] stands for: made from its template, below
    the pair of its superclass, or fake; the [isa] of a metaclass is the metaclass of [NSObject]. *)
Definition made (rt : Runtime) (m : Mem) (name : list Z) (class mc : Z) : Prop :=
  (∃ root rootmeta, classes rt !! NSObject_name = Some root ∧ word_kept m root rootmeta ∧ word_kept m mc rootmeta) ∧
  match find_template exports name with
  | None => rt_objects rt !! class = Some (FakeClass name false) ∧ rt_objects rt !! mc = Some (FakeClass name true)
  | Some t => ∃ sup supmeta ims cms st mst,
      methods_from_template (instance_methods t) rt = Ret ims ∧ methods_from_template (class_methods t) rt = Ret cms ∧
      rt_objects rt !! class = Some (AClass (host_class t false sup ims st)) ∧
      rt_objects rt !! mc = Some (AClass (host_class t true supmeta cms mst)) ∧
      match template_superclass t with
      | Some s => classes rt !! s = Some sup ∧ word_kept m sup supmeta
      | None => sup = nil ∧ supmeta = if decide (name = NSObject_name) then class else nil
      end
  end.

(** Templates name selectors that are registered. *)
Definition templates_registered (rt : Runtime) : Prop :=
  ∀ name t x, find_template exports name = Some t → x ∈ class_methods t ++ instance_methods t → is_Some (selectors rt !! x.1).

Record link_ok (rt : Runtime) (m : Mem) : Prop := {
  lk_kept : objects_kept rt m;
  lk_selectors : templates_registered rt;
  lk_classes name class : classes rt !! name = Some class → ∃ mc, word_kept m class mc ∧ 0 ≤ mc < U32_MOD ∧
    (Bin class ∨ made rt m name class mc)
}.

(** What linking leaves as it was. *)
Record rt_grows (rt rt' : Runtime) : Prop := {
  rg_selectors : selectors rt' = selectors rt;
  rg_objects : rt_objects rt ⊆ rt_objects rt';
  rg_classes : classes rt ⊆ classes rt'
}.
#[global] Instance rt_grows_refl : Reflexive rt_grows.
Proof. by split. Qed.
#[global] Instance rt_grows_trans : Transitive rt_grows.
Proof. intros r1 r2 r3 [? ? ?] [? ? ?]. split; [congruence|by etrans..]. Qed.

Lemma methods_from_template_same rt rt' l : selectors rt' = selectors rt → methods_from_template l rt' = methods_from_template l rt.
Proof. intros E. unfold methods_from_template. by rewrite E. Qed.

Lemma made_grows rt rt' m m' name class mc : rt_grows rt rt' → mem_grows m m' → made rt m name class mc → made rt' m' name class mc.
Proof.
  intros [Hs Ho Hc] Hg [(r & rm & Hr & Hk & Hkm) H]. split.
  { exists r, rm. split_and!; [by eapply lookup_weaken|by eapply word_kept_grows..]. }
  destruct (find_template exports name) as [t|]; [|destruct H; split; by eapply lookup_weaken].
  destruct H as (sup & sm & ims & cms & st & mst & H1 & H2 & H3 & H4 & H5). exists sup, sm, ims, cms, st, mst.
  split_and!; [by erewrite methods_from_template_same..|by eapply lookup_weaken|by eapply lookup_weaken|].
  destruct (template_superclass t); [|done]. destruct H5. split; [by eapply lookup_weaken|by eapply word_kept_grows].
Qed.

(** Methods can be looked up. *)
Lemma methods_from_template_ok rt l : (∀ x, x ∈ l → is_Some (selectors rt !! x.1)) → ∃ ms, methods_from_template l rt = Ret ms.
Proof.
  unfold methods_from_template. generalize (∅ : gmap Z IMP). induction l as [|[n i] l IH]; intros ms Hl; simpl; [by eexists|].
  destruct (Hl (n, i)) as [s E]; [by left|]. simpl in E. rewrite E. simpl. apply IH. intros x Hx. apply Hl. by right.
Qed.

(** A new pair in the table. *)
Lemma link_ok_add rt rt' m m' name class mc :
  link_ok rt m → rt_grows rt rt' → mem_grows m m' → objects_kept rt' m' →
  classes rt' = <[name := class]> (classes rt) → word_kept m' class mc → 0 ≤ mc < U32_MOD → made rt' m' name class mc → link_ok rt' m'.
Proof.
  intros [Hk Hs Hc] Hg Hmg Hk' Ec Hw Hmc Hmade. split; [done| |].
  - intros n t x. rewrite (rg_selectors _ _ Hg). apply Hs.
  - intros n c. rewrite Ec. intros [[<- <-]|[_ Hn]]%lookup_insert_Some; [exists mc; split_and!; [done|lia|lia|by right]|].
    destruct (Hc n c Hn) as (mc' & Hw' & ? & H). exists mc'. split_and!; [by eapply word_kept_grows|lia|lia|].
    destruct H as [?|H]; [by left|right]. by eapply made_grows.
Qed.

(** [fuel] is enough for linking [name]: the templates from it up to a root. *)
Inductive template_depth : list Z → nat → Prop :=
| depth_fake name : find_template exports name = None → template_depth name 1
| depth_root name t : find_template exports name = Some t → template_superclass t = None → template_depth name 1
| depth_super name t s n :
    find_template exports name = Some t → template_superclass t = Some s → is_Some (find_template exports s) →
    template_depth s n → template_depth name (S n).

Lemma template_depth_unique name n n' : template_depth name n → template_depth name n' → n = n'.
Proof.
  intros H. revert n'. induction H as [name E|name t E Es|name t s n E Es Hs H IH]; intros n' H'; inversion H' as [? E'|? t' E' Es'|? t' s' n2 E' Es' Hs' H2]; subst;
    rewrite E in E'; simplify_eq; try congruence; [done..|]. f_equal. by apply IH.
Qed.

(** What a call for [name] comes to; the names it adds are those of at most [d] templates
    in a row, and [NSObject]. *)
Definition link_post (d : nat) (rt : Runtime) (m : Mem) (k : nat) (name : list Z) (is_metaclass : bool) (r : Z) (rt' : Runtime) (m' : Mem) : Prop :=
  link_ok rt' m' ∧ rt_grows rt rt' ∧ mem_grows m m' ∧ mem_room k m' ∧
  (∀ n, is_Some (classes rt' !! n) → is_Some (classes rt !! n) ∨ n = NSObject_name ∨ ∃ j, template_depth n j ∧ (j ≤ d)%nat) ∧
  ∃ class mc, classes rt' !! name = Some class ∧ word_kept m' class mc ∧ 0 ≤ mc < U32_MOD ∧ r = if is_metaclass then mc else class.

Lemma mem_room_le k j m : mem_room k m → (j ≤ k)%nat → mem_room j m.
Proof.
  intros Hr Hj H0. destruct Hr as (b & s & ? & ?); [lia|]. exists b, s. split; [done|]. unfold HEAP_CHUNK_SIZE in *. lia.
Qed.

Lemma get_class_found rt m name class is_meta :
  link_ok rt m → classes rt !! name = Some class →
  ∃ mc, word_kept m class mc ∧ 0 ≤ mc < U32_MOD ∧ get_class name is_meta rt m = Ret (Some (if is_meta then mc else class)).
Proof.
  intros Hok Hc. destruct (lk_classes _ _ Hok _ _ Hc) as (mc & Hk & ? & _). exists mc. split_and!; [done|lia|lia|].
  unfold get_class, isa_of. rewrite Hc. destruct is_meta; [|done]. destruct Hk as (_ & _ & _ & ->). done.
Qed.

(** The equation of the recursion for a name that is not in the table. *)
Lemma link_class_inner_new fuel name is_meta ph rt m :
  classes rt !! name = None →
  link_class_inner exports (S fuel) name is_meta ph rt m =
    ('(hc, hmc, rt, m) ← host_objects_for exports (λ n b, link_class_inner exports fuel n b true) name ph rt m;
     '(metaclass, rt, m) ← make_metaclass (λ n b, link_class_inner exports fuel n b true) name hmc rt m;
     '(class, rt, m) ← alloc_static metaclass hc rt m;
     rt ← (if decide (name = NSObject_name)
           then c ← borrow_cls metaclass rt; Ret (put_class metaclass (set_superclass class c) rt) else Ret rt);
     Ret (if is_meta then metaclass else class, set_classes (<[name := class]> (classes rt)) rt, m)).
Proof. intros E. cbn [link_class_inner]. unfold get_class at 1. by rewrite E. Qed.

Lemma link_found d fuel rt m k name class is_meta ph :
  link_ok rt m → mem_room k m → classes rt !! name = Some class →
  ∃ r, link_class_inner exports (S fuel) name is_meta ph rt m = Ret (r, rt, m) ∧ link_post d rt m k name is_meta r rt m.
Proof.
  intros Hok Hr Hc. destruct (get_class_found rt m name class is_meta Hok Hc) as (mc & Hk & ? & E). eexists.
  cbn [link_class_inner]. rewrite E. simpl. split; [done|]. split_and!; [done|done|apply mem_grows_refl; apply Hok|done|by left|].
  exists class, mc. split_and!; [done|done|lia|lia|done].
Qed.

Context (root_template : ClassTemplate).
Hypothesis Hroot : find_template exports NSObject_name = Some root_template.
Hypothesis Hroot_super : template_superclass root_template = None.

Lemma from_template_ok rt t name (is_meta : bool) sup :
  templates_registered rt → find_template exports name = Some t →
  ∃ ms, methods_from_template (if is_meta then class_methods t else instance_methods t) rt = Ret ms ∧
    from_template t is_meta sup rt = Ret (host_class t is_meta sup ms NotInitialized).
Proof.
  intros Hs Ht. destruct (methods_from_template_ok rt (if is_meta then class_methods t else instance_methods t)) as [ms E].
  { intros x Hx. eapply (Hs name t x Ht). destruct is_meta; set_solver. }
  exists ms. split; [done|]. unfold from_template. by rewrite E.
Qed.

(** The metaclass of [NSObject] is its own [isa]. *)
Lemma make_root_metaclass rt m k host link :
  objects_kept rt m → mem_room (S k) m →
  ∃ p m', make_metaclass link NSObject_name host rt m = Ret (p, set_rt_objects (<[p := host]> (rt_objects rt)) rt, m') ∧
    mem_grows m m' ∧ mem_room k m' ∧ word_kept m' p p ∧ rt_objects rt !! p = None ∧
    objects_kept (set_rt_objects (<[p := host]> (rt_objects rt)) rt) m'.
Proof.
  intros Hok Hr. destruct (alloc_word rt m k nil Hok Hr) as (p & m1 & m2 & E1 & E2 & Hg & Hr2 & Hk & Hn & Hw); [done|].
  destruct (word_kept_self _ _ _ Hk) as [_ Hp]. destruct (Hw p Hp) as (m3 & E3 & Hg3 & Hr3 & Hk3). exists p, m3.
  assert (alloc_and_write (le_bytes 4 nil) m = Ret (p, m2)) as Ea.
  { unfold alloc_and_write. rewrite le_bytes_length. change (Z.of_nat 4) with 4. rewrite E1. cbn [mbind outcome_bind].
    change (mem_write 4 p (le_bytes 4 nil) m1) with (write_u32 p nil m1). by rewrite E2. }
  unfold make_metaclass. rewrite decide_True by done. rewrite Ea. cbn [mbind outcome_bind]. rewrite E3. cbn [mbind outcome_bind].
  unfold register_static. rewrite bool_decide_eq_true_2 by done. simpl.
  split_and!; [done..|]. eapply objects_kept_insert; [by eapply objects_kept_grows|done].
Qed.

Lemma link_root d fuel rt m k is_meta ph :
  link_ok rt m → mem_room (2 + k) m →
  ∃ r rt' m', link_class_inner exports (S fuel) NSObject_name is_meta ph rt m = Ret (r, rt', m') ∧ link_post d rt m k NSObject_name is_meta r rt' m'.
Proof.
  intros Hok Hr. destruct (classes rt !! NSObject_name) as [class|] eqn:Ec.
  { destruct (link_found d fuel rt m k NSObject_name class is_meta ph Hok) as (r & ? & ?); [apply (mem_room_le (2 + k)); [done|lia]|done|].
    by exists r, rt, m. }
  rewrite link_class_inner_new by done. unfold host_objects_for. rewrite Hroot, Hroot_super. cbn [rassert mbind outcome_bind].
  destruct (from_template_ok rt root_template NSObject_name false nil) as (ims & Ei & ->); [apply Hok|done|]. cbn [mbind outcome_bind].
  destruct (from_template_ok rt root_template NSObject_name true nil) as (cms & Em & ->); [apply Hok|done|]. cbn [mbind outcome_bind].
  edestruct (make_root_metaclass rt m (S k)) as (mc & m1 & -> & Hg1 & Hr1 & Hk1 & Hn1 & Hok1); [apply Hok|done|]. cbn [mbind outcome_bind].
  destruct (word_kept_self _ _ _ Hk1) as [_ Hmc].
  destruct (alloc_static_spec _ m1 k mc (AClass (host_class root_template false nil ims NotInitialized)) Hok1 Hr1 Hmc)
    as (class & m2 & -> & Hg2 & Hr2 & Hk2 & Hn2 & Hok2). cbn [mbind outcome_bind].
  rewrite decide_True by done. cbn [rt_objects set_rt_objects] in Hn2. apply lookup_insert_None in Hn2 as [Hn2 Hne].
  unfold borrow_cls. cbn [rt_objects set_rt_objects]. rewrite lookup_insert_ne, lookup_insert_eq by done. cbn [mbind outcome_bind].
  unfold put_class. cbn [rt_objects set_rt_objects classes selectors set_classes initializer_threads message_type_info].
  eexists _, _, m2. split; [done|]. set (rt' := set_classes _ _).
  assert (mem_grows m m2) as Hg by (by eapply mem_grows_trans).
  assert (rt_grows rt rt') as Hrg.
  { split; [done| |by apply insert_subseteq]. apply map_subseteq_spec. simpl. intros o h Eo.
    rewrite !lookup_insert_ne; [done|intros ->; congruence..]. }
  pose proof (word_kept_grows _ _ _ _ Hg2 Hk1) as Hk1'.
  assert (objects_kept rt' m2) as Hok'.
  { destruct Hok2 as [H1 H2 H3 H4]. split; [done..|]. intros o. simpl. destruct (decide (o = mc)) as [->|Ho]; [intros _; by eapply word_kept_self|].
    rewrite lookup_insert_ne by done. apply H4. }
  split_and!; [|done|done|done| |].
  - eapply (link_ok_add rt rt' m m2 NSObject_name class mc); [done..|lia|]. split.
    + exists class, mc. split_and!; [apply lookup_insert_eq|done|done].
    + rewrite Hroot, Hroot_super. exists nil, class, ims, cms, NotInitialized, NotInitialized. simpl.
      split_and!; [done|done|by rewrite lookup_insert_ne, lookup_insert_eq|by rewrite lookup_insert_eq|done|done].
  - intros n. simpl. destruct (decide (n = NSObject_name)) as [->|Hn]; [by right; left|]. rewrite lookup_insert_ne by done. by left.
  - exists class, mc. split_and!; [apply lookup_insert_eq|done|lia|lia|done].
Qed.

(** The host objects of a new pair, and what they were made from. *)
Definition pair_for (rt : Runtime) (m : Mem) (name : list Z) (hc hmc : HostObject) : Prop :=
  match find_template exports name with
  | None => hc = FakeClass name false ∧ hmc = FakeClass name true
  | Some t => ∃ sup supmeta ims cms,
      methods_from_template (instance_methods t) rt = Ret ims ∧ methods_from_template (class_methods t) rt = Ret cms ∧
      hc = AClass (host_class t false sup ims NotInitialized) ∧ hmc = AClass (host_class t true supmeta cms NotInitialized) ∧
      match template_superclass t with
      | Some s => classes rt !! s = Some sup ∧ word_kept m sup supmeta
      | None => sup = nil ∧ supmeta = nil
      end
  end.

(** The superclass of the template of [name], if there is one, can be linked. *)
Definition super_links (fuel d : nat) (rt : Runtime) (m : Mem) (k : nat) (name : list Z) (ph : bool) : Prop :=
  match find_template exports name with
  | Some t =>
      match template_superclass t with
      | Some s => is_Some (find_template exports s) ∧
          ∃ r rt' m', link_class_inner exports (S fuel) s false true rt m = Ret (r, rt', m') ∧ link_post d rt m k s false r rt' m'
      | None => True
      end
  | None => ph = true ∨ class_name_should_be_faked name = true
  end.

Lemma host_objects_spec fuel d rt m k name ph :
  link_ok rt m → mem_room k m → super_links fuel d rt m k name ph →
  ∃ hc hmc rt' m', host_objects_for exports (λ n b, link_class_inner exports (S fuel) n b true) name ph rt m = Ret (hc, hmc, rt', m') ∧
    link_ok rt' m' ∧ rt_grows rt rt' ∧ mem_grows m m' ∧ mem_room k m' ∧ pair_for rt' m' name hc hmc ∧
    (∀ n, is_Some (classes rt' !! n) → is_Some (classes rt !! n) ∨ n = NSObject_name ∨ ∃ j, template_depth n j ∧ (j ≤ d)%nat).
Proof.
  intros Hok Hr. unfold super_links, host_objects_for, pair_for. destruct (find_template exports name) as [t|] eqn:Et.
  2: { intros Hp. exists (FakeClass name false), (FakeClass name true), rt, m.
       assert ((if negb ph then if class_name_should_be_faked name then Ret (FakeClass name false, FakeClass name true, rt, m) else Panic
                else Ret (FakeClass name false, FakeClass name true, rt, m)) = Ret (FakeClass name false, FakeClass name true, rt, m)) as ->.
       { destruct ph; [done|]. destruct Hp as [?| ->]; done. }
       split_and!; [done|done|done|apply mem_grows_refl; apply Hok|done|done|done|by left]. }
  destruct (template_superclass t) as [s|] eqn:Es.
  - intros [Hs (r & rt1 & m1 & E1 & Hok1 & Hg1 & Hmg1 & Hr1 & Hnew & sup & smc & Hsup & Hk & Hsm & ->)].
    rewrite bool_decide_eq_true_2 by done. cbn [rassert mbind outcome_bind]. rewrite E1. cbn [mbind outcome_bind].
    destruct (from_template_ok rt1 t name false sup) as (ims & Ei & ->); [apply Hok1|done|]. cbn [mbind outcome_bind].
    destruct (get_class_found rt1 m1 s sup true Hok1 Hsup) as (smc' & Hk' & _ & Eg). cbn [link_class_inner]. rewrite Eg. cbn [mbind outcome_bind].
    destruct (from_template_ok rt1 t name true smc') as (cms & Em & ->); [apply Hok1|done|]. cbn [mbind outcome_bind].
    eexists _, _, rt1, m1. split; [done|]. split_and!; [done..| |done]. exists sup, smc', ims, cms. by split_and!.
  - intros _. cbn [rassert mbind outcome_bind].
    destruct (from_template_ok rt t name false nil) as (ims & Ei & ->); [apply Hok|done|]. cbn [mbind outcome_bind].
    destruct (from_template_ok rt t name true nil) as (cms & Em & ->); [apply Hok|done|]. cbn [mbind outcome_bind].
    eexists _, _, rt, m. split; [done|]. split_and!; [done|done|apply mem_grows_refl; apply Hok|done| |by left].
    exists nil, nil, ims, cms. by split_and!.
Qed.

(** Any other name, once its superclass can be linked. *)
Lemma link_other fuel d rt m k name is_meta ph :
  name ≠ NSObject_name → link_ok rt m → classes rt !! name = None → mem_room (4 + k) m → template_depth name (S d) →
  super_links fuel d rt m (4 + k) name ph →
  ∃ r rt' m', link_class_inner exports (S (S fuel)) name is_meta ph rt m = Ret (r, rt', m') ∧ link_post (S d) rt m k name is_meta r rt' m'.
Proof.
  intros Hname Hok Hnone Hr Hdepth Hsl.
  destruct (host_objects_spec fuel d rt m (4 + k) name ph Hok Hr Hsl) as (hc & hmc & rt1 & m1 & E1 & Hok1 & Hg1 & Hmg1 & Hr1 & Hpair & Hnew1).
  destruct (link_root d fuel rt1 m1 (2 + k) true true Hok1 Hr1) as (rootmeta & rt2 & m2 & E2 & Hok2 & Hg2 & Hmg2 & Hr2 & Hnew2 & root & rm & Hroot2 & Hkr & Hrm & ->).
  assert (classes rt2 !! name = None) as Hnone2.
  { apply eq_None_not_Some. intros Hs. destruct (Hnew2 name Hs) as [Hs1|[?|(j & Hj & ?)]]; [|done|]; last first.
    { pose proof (template_depth_unique _ _ _ Hdepth Hj). lia. }
    destruct (Hnew1 name Hs1) as [Hs0|[?|(j & Hj & ?)]]; [rewrite Hnone in Hs0; by destruct Hs0|done|].
    pose proof (template_depth_unique _ _ _ Hdepth Hj). lia. }
  destruct (alloc_static_spec rt2 m2 (S k) rm hmc (lk_kept _ _ Hok2) Hr2 Hrm) as (mc & m3 & E3 & Hmg3 & Hr3 & Hk3 & Hn3 & Hok3).
  destruct (word_kept_self _ _ _ Hk3) as [_ Hmc].
  destruct (alloc_static_spec _ m3 k mc hc Hok3 Hr3 Hmc) as (class & m4 & E4 & Hmg4 & Hr4 & Hk4 & Hn4 & Hok4).
  rewrite link_class_inner_new by done. rewrite E1. cbn [mbind outcome_bind]. unfold make_metaclass. rewrite decide_False by done.
  rewrite E2. cbn [mbind outcome_bind]. rewrite E3. cbn [mbind outcome_bind]. rewrite E4. cbn [mbind outcome_bind].
  rewrite decide_False by done. cbn [mbind outcome_bind]. eexists _, _, m4. split; [done|]. set (rt' := set_classes _ _).
  cbn [rt_objects set_rt_objects] in Hn4. apply lookup_insert_None in Hn4 as [Hn4 Hne].
  assert (mem_grows m2 m4) as Hmg24 by (by eapply mem_grows_trans).
  assert (rt_grows rt2 rt') as Hrg.
  { split; [done| |by apply insert_subseteq]. apply map_subseteq_spec. simpl. intros o h Eo. rewrite !lookup_insert_ne; [done|intros ->; congruence..]. }
  assert (rt_grows rt1 rt') as Hrg1 by (by transitivity rt2). assert (mem_grows m1 m4) as Hmg14 by (by eapply mem_grows_trans).
  pose proof (word_kept_grows _ _ _ _ Hmg4 Hk3) as Hk3'. assert (objects_kept rt' m4) as Hok' by (by destruct Hok4).
  split_and!; [|by transitivity rt1|by eapply mem_grows_trans|done| |].
  - eapply (link_ok_add rt2 rt' m2 m4 name class mc); [done..|lia|]. split.
    + exists root, rm. split_and!; [by eapply lookup_weaken, Hrg|exact (word_kept_grows _ _ _ _ Hmg24 Hkr)|done].
    + unfold pair_for in Hpair. destruct (find_template exports name) as [t|]; simpl.
      2: { destruct Hpair as [-> ->]. split; [apply lookup_insert_eq|]. by rewrite lookup_insert_ne, lookup_insert_eq. }
      destruct Hpair as (sup & sm & ims & cms & Ei & Em & -> & -> & Hs). exists sup, sm, ims, cms, NotInitialized, NotInitialized.
      split_and!; [by rewrite (methods_from_template_same rt1) by apply Hrg1..|apply lookup_insert_eq|by rewrite lookup_insert_ne, lookup_insert_eq|].
      destruct (template_superclass t); [|by rewrite decide_False]. destruct Hs.
      split; [by eapply lookup_weaken, (rg_classes _ _ Hrg1)|by eapply word_kept_grows].
  - intros n. simpl. destruct (decide (n = name)) as [->|Hnn]; [intros _; right; right; by exists (S d)|].
    rewrite lookup_insert_ne by done. intros [H|[H|(j & Hj & ?)]]%Hnew2; [|by right; left|right; right; exists j; split; [done|lia]].
    apply Hnew1 in H as [H|[H|(j & Hj & ?)]]; [by left|by right; left|right; right; exists j; split; [done|lia]].
  - exists class, mc. split_and!; [apply lookup_insert_eq|done|lia|lia|done].
Qed.

(** Linking [name] returns whenever the memory has room for its classes, and keeps the hierarchy. *)
Lemma link_class_inner_spec name d fuel rt m k is_meta ph :
  template_depth name d → (d < fuel)%nat → link_ok rt m → mem_room (4 * d + k) m →
  ph = true ∨ is_Some (find_template exports name) ∨ class_name_should_be_faked name = true →
  ∃ r rt' m', link_class_inner exports fuel name is_meta ph rt m = Ret (r, rt', m') ∧ link_post d rt m k name is_meta r rt' m'.
Proof.
  intros Hd. revert fuel rt m k is_meta ph. induction Hd as [name E|name t E Es|name t s d E Es Hs Hd IH]; intros [|[|fuel]] rt m k is_meta ph Hf Hok Hr Hph; try lia.
  all: destruct (decide (name = NSObject_name)) as [->|Hne]; [apply link_root; [done|apply (mem_room_le _ _ _ Hr); lia]|].
  all: destruct (classes rt !! name) as [class|] eqn:Ec;
    [lazymatch goal with |- context [link_post ?d _ _ _ _ _ _ _ _] =>
       destruct (link_found d (S fuel) rt m k name class is_meta ph Hok) as (r & ? & ?); [apply (mem_room_le _ _ _ Hr); lia|done|]; by exists r, rt, m end|].
  - apply link_other; [done..|apply (mem_room_le _ _ _ Hr); lia|by apply depth_fake|]. unfold super_links. rewrite E. rewrite E in Hph. by destruct Hph as [?|[[? ?]|?]]; [left| |right].
  - apply link_other; [done..|apply (mem_room_le _ _ _ Hr); lia|by eapply depth_root|]. unfold super_links. by rewrite E, Es.
  - apply link_other; [done..|apply (mem_room_le _ _ _ Hr); lia|by eapply depth_super|]. unfold super_links. rewrite E, Es. split; [done|].
    apply IH; [lia|done|apply (mem_room_le _ _ _ Hr); lia|by left].
Qed.

(** There are at most as many templates in a row as there are templates. *)
Lemma find_template_in name t l : find_template l name = Some t → name ∈ l.*1.
Proof. induction l as [|[n u] l IH]; simpl; [done|]. case_decide; [subst; intros _; left|intros Hf; right; by apply IH]. Qed.

Lemma template_depth_names name d :
  template_depth name d → is_Some (find_template exports name) →
  ∃ l, length l = d ∧ NoDup l ∧ l ⊆ exports.*1 ∧ ∀ x, x ∈ l → ∃ j, template_depth x j ∧ (j ≤ d)%nat.
Proof.
  induction 1 as [name E|name t E Es|name t s d E Es Hs Hd IH]; intros Hn; [rewrite E in Hn; by destruct Hn|..].
  - exists [name]. split_and!; [done|apply NoDup_singleton|intros x ->%list_elem_of_singleton; by eapply find_template_in|].
    intros x ->%list_elem_of_singleton. exists 1%nat. split; [by eapply depth_root|lia].
  - destruct (IH Hs) as (l & Hl & Hnd & Hsub & Hdl). exists (name :: l). split_and!.
    + simpl. lia.
    + apply NoDup_cons. split; [|done]. intros (j & Hj & ?)%Hdl.
      assert (S d = j) by (eapply template_depth_unique; [by eapply depth_super|done]). lia.
    + intros x [->|Hx]%elem_of_cons; [by eapply find_template_in|by apply Hsub].
    + intros x [->|Hx]%elem_of_cons; [exists (S d); split; [by eapply depth_super|lia]|].
      destruct (Hdl x Hx) as (j & ? & ?). exists j. split; [done|lia].
Qed.

Lemma template_depth_fuel name d : template_depth name d → (d < link_fuel exports)%nat.
Proof.
  intros Hd. unfold link_fuel. destruct (find_template exports name) as [t|] eqn:E.
  - destruct (template_depth_names name d Hd) as (l & <- & Hn & Hs & _); [by rewrite E|].
    apply NoDup_submseteq, submseteq_length in Hs; [|done]. rewrite length_fmap in Hs. lia.
  - destruct Hd; [lia|congruence..].
Qed.
End link.

(** C23: linking builds the hierarchy of the templates.  With [NSObject] a root
    template and the methods' selectors registered, linking a name whose templates lead up to a
    root returns as long as memory has room for its classes.  The table then has a class
    and a metaclass for the name ([made]): the class has the template's instance methods and the
    superclass's class as superclass, the metaclass its class methods and the superclass's
    metaclass; [NSObject]'s metaclass is a subclass of [NSObject] and the [isa] of every
    metaclass; a name without a template gets a fake pair.  All that for every class of
    the table ([link_ok]); classes, objects and memory that were there stay as they were, and
    linking the name again, as class or metaclass, finds the same pair and changes nothing. *)
Theorem link_class_builds_hierarchy exports Bin t0 name d is_meta rt m k :
  find_template exports NSObject_name = Some t0 → template_superclass t0 = None →
  template_depth exports name d → link_ok exports Bin rt m → mem_room (4 * d + k) m →
  ∃ r rt' m', link_class exports name is_meta rt m = Ret (r, rt', m') ∧
    link_ok exports Bin rt' m' ∧ rt_grows rt rt' ∧ mem_grows m m' ∧ mem_room k m' ∧
    ∃ class mc, classes rt' !! name = Some class ∧ isa_of class m' = Ret mc ∧ r = (if is_meta then mc else class) ∧
      (Bin class ∨ made exports rt' m' name class mc) ∧
      ∀ b, link_class exports name b rt' m' = Ret (if b then mc else class, rt', m').
Proof.
  intros Ht0 Hs0 Hd Hok Hr. pose proof (template_depth_fuel _ _ _ Hd) as Hf. unfold link_class.
  destruct (link_class_inner_spec exports Bin t0 Ht0 Hs0 name d (link_fuel exports) rt m k is_meta true) as (r & rt' & m' & E & Hok' & Hg & Hmg & Hr' & _ & class & mc & Hc & Hk & Hmc & Er);
    [done|done|done|done|by left|].
  exists r, rt', m'. split_and!; [done..|]. exists class, mc. pose proof Hk as (_ & _ & _ & Eisa). split_and!; [done..| |].
  - destruct (lk_classes _ _ _ _ Hok' _ _ Hc) as (mc' & (_ & _ & _ & Eisa') & _ & H). rewrite Eisa in Eisa'. by injection Eisa' as <-.
  - intros b. destruct (get_class_found exports Bin rt' m' name class b Hok' Hc) as (mc' & (_ & _ & _ & Eisa') & _ & Eg).
    rewrite Eisa in Eisa'. injection Eisa' as <-. unfold link_fuel. cbn [link_class_inner]. by rewrite Eg.
Qed.

(** Two templates, one below the other. *)
Definition two_templates : ClassExports :=
  [(NSObject_name, mkTemplate NSObject_name None [] [([105], mkHostIMP 1 0)]); ([65], mkTemplate [65] (Some NSObject_name) [] [])].
Definition fresh_runtime : Runtime := set_selectors {[ [105] := 5000 ]} Runtime_new.

Lemma fresh_runtime_ok m : mem_ok m → is_Some (heap_allocator m) → mem_kept m 0 → link_ok two_templates (λ _, False) fresh_runtime m.
Proof.
  intros Hm Hh H0. split; [split; [done..|intros o [x Hx]; discriminate Hx]| |intros n c Hc; discriminate Hc].
  intros n t x. simpl. repeat case_decide; intros [= <-]; simpl; [|by intros ?%elem_of_nil].
  intros ->%list_elem_of_singleton. by exists 5000.
Qed.

Lemma link_class_builds_hierarchy_witness :
  ∃ m r rt' m', demo_mem = Ret (4096, None, m) ∧ link_class two_templates [65] false fresh_runtime m = Ret (r, rt', m') ∧
    ∃ c, rt_objects rt' !! r = Some (AClass c) ∧ classes rt' !! NSObject_name = Some (superclass c).
Proof.
  destruct demo_mem_room as (m & E & Hm & Hh & Hroom & _ & Hnull).
  destruct (link_class_builds_hierarchy two_templates (λ _, False) (mkTemplate NSObject_name None [] [([105], mkHostIMP 1 0)]) [65] 2 false fresh_runtime m 92)
    as (r & rt' & m' & El & _ & _ & _ & _ & class & mc & _ & _ & Er & [[]|[_ Hmade]] & _).
  - reflexivity.
  - reflexivity.
  - eapply depth_super; [reflexivity|reflexivity|eexists; reflexivity|]. eapply depth_root; reflexivity.
  - apply fresh_runtime_ok; [exact Hm|exact Hh|left; apply Hnull; lia].
  - exact Hroom.
  - exists m, r, rt', m'. split; [exact E|]. split; [exact El|]. simpl in Hmade, Er. subst r.
    destruct Hmade as (sup & sm & ims & cms & st & mst & _ & _ & Hc & _ & Hs & _). eexists. split; [exact Hc|exact Hs].
Defined.
