(* ===== verification/ObjcMessages.v ===== *)
(** * Sending messages ([objc/messages.rs])

    [objc_msgSend_inner], the function behind every message: it finds the implementation
    of a selector along the receiver's classes and calls it.  Calling host and guest functions
    is a parameter; so is the sending of [+initialize], which is itself a message.  The ring
    of recent messages is kept for crash reports only and not modelled, except that the
    selector has to be a string.  Of [maybe_initialize_class], a thread that has to wait for
    another one's [+initialize] is followed up to where it waits. *)

From S2P Require Import Prelude ChunkMap SizeBucketed VMAllocator HeapAllocator GuestMem GuestAlloc Env Pthread Semaphore Fs Abi ObjcClasses ObjcClassFacts.

(** The environment with its Objective-C runtime. *)
Record World := mkWorld { env : Environment; objc : Runtime }.
Definition set_env (e : Environment) (w : World) : World := mkWorld e (objc w).
Definition set_objc (rt : Runtime) (w : World) : World := mkWorld (env w) rt.

(** [env.cpu.regs_mut()[0..2].fill(0)], and the receiver as the result. *)
Definition return_nil (w : World) : World := set_env (set_env_regs (<[0%nat := 0]> (<[1%nat := 0]> (regs (cpu (env w))))) (env w)) w.
Definition return_receiver (receiver : Z) (w : World) : World := set_env (set_env_regs (<[0%nat := receiver]> (regs (cpu (env w)))) (env w)) w.

Section messages.
Context (call_host : HostIMP → World → outcome World) (call_guest : Z → World → outcome World).

(** [sent] is the [TypeId] of the message, if the host sent it. *)
Definition call_imp (imp : IMP) (sent : option Z) (tolerate_type_mismatch : bool) (w : World) : outcome World :=
  match imp with
  | IMP_Host host_imp =>
      rassert (match sent with
               | Some sent_type => (sent_type =? imp_type host_imp) || tolerate_type_mismatch
               | None => true
               end);;
      call_host host_imp w
  | IMP_Guest guest_imp => call_guest guest_imp w
  end.

(** The loop over the superclasses; longer than the number of classes, it never ends. *)
Fixpoint dispatch (fuel : nat) (receiver selector orig_class : Z) (super2 : bool) (sent : option Z) (tolerate_type_mismatch : bool)
    (class : Z) (w : World) : outcome World :=
  match fuel with
  | O => Panic
  | S fuel =>
      if class =? nil then
        rassert (negb (class =? orig_class));;
        _ ← borrow_cls orig_class (objc w);
        Ret (return_nil w)
      else
        match rt_objects (objc w) !! class with
        | None => Ret (return_nil w)
        | Some (AClass c) =>
            if super2 && (class =? orig_class) then
              dispatch fuel receiver selector orig_class super2 sent tolerate_type_mismatch (superclass c) w
            else
              match methods c !! selector with
              | Some imp => call_imp imp sent tolerate_type_mismatch w
              | None => dispatch fuel receiver selector orig_class super2 sent tolerate_type_mismatch (superclass c) w
              end
        | Some (UnimplementedClass _ _) => Panic
        | Some (FakeClass _ _) => Ret (return_receiver receiver w)
        | Some OtherObject => Panic
        end
  end.

(** [super2] is the class whose superclass a super-call starts at; [initialize] is
    [maybe_initialize_class], or nothing for a message that must not trigger it. *)
Definition objc_msgSend_inner (initialize : Z → World → outcome World) (receiver selector : Z) (super2 : option Z)
    (tolerate_type_mismatch skip_initialize : bool) (w : World) : outcome World :=
  _ ← (if receiver =? nil then Ret nil else isa_of receiver (mem (env w)));
  _ ← cstr_at_utf8_unwrap selector (mem (env w));
  let message_type_info := message_type_info (objc w) in
  let w := set_objc (set_type_info None (objc w)) w in
  if (receiver =? nil) || (receiver <? null_segment_size (mem (env w))) then Ret (return_nil w)
  else
    orig_class ← (match super2 with Some class => Ret class | None => isa_of receiver (mem (env w)) end);
    if orig_class =? nil then Ret (return_nil w)
    else
      w ← (if skip_initialize then Ret w else initialize receiver w);
      dispatch (S (S (size (rt_objects (objc w))))) receiver selector orig_class (bool_decide (is_Some super2))
        message_type_info tolerate_type_mismatch orig_class w.

Definition objc_msgSend (initialize : Z → World → outcome World) (receiver selector : Z) : World → outcome World :=
  objc_msgSend_inner initialize receiver selector None false false.
Definition touchHLE_objc_msgSend_tolerant (initialize : Z → World → outcome World) (receiver selector : Z) : World → outcome World :=
  objc_msgSend_inner initialize receiver selector None true false.
Definition touchHLE_objc_msgSend_no_initialize (initialize : Z → World → outcome World) (receiver selector : Z) : World → outcome World :=
  objc_msgSend_inner initialize receiver selector None false true.
(** The pointer for the result is the first argument and is only passed on. *)
Definition objc_msgSend_stret (initialize : Z → World → outcome World) (stret receiver selector : Z) : World → outcome World :=
  objc_msgSend_inner initialize receiver selector None false false.
Definition touchHLE_objc_msgSend_stret_tolerant (initialize : Z → World → outcome World) (stret receiver selector : Z) : World → outcome World :=
  objc_msgSend_inner initialize receiver selector None true false.
(** [objc_super] has two words, the receiver and the class; the receiver takes the
    place of the pointer in the first argument. *)
Definition objc_msgSendSuper2 (initialize : Z → World → outcome World) (super_ptr selector : Z) (w : World) : outcome World :=
  objc_super ← read_struct 2 super_ptr (mem (env w));
  let receiver := field 0 objc_super in
  '(_, rs, m) ← write_next_arg ptr_arg 0 (regs (cpu (env w))) (mem (env w)) receiver;
  objc_msgSend_inner initialize receiver selector (Some (field 1 objc_super)) false false (set_env (set_mem m (set_env_regs rs (env w))) w).

(** ** Class initialisation *)

(** What a call comes to: it returns, having sent [+initialize] to some classes, or
    its thread waits for another one. *)
Inductive init_result := InitDone (sent_to : list Z) (w : World) | InitWaits (sent_to : list Z) (w : World).

(** Continue if the call returned. *)
Definition init_bind (x : outcome init_result) (f : World → outcome init_result) : outcome init_result :=
  r ← x;
  match r with
  | InitDone l w =>
      r' ← f w;
      Ret (match r' with InitDone l' w => InitDone (l ++ l') w | InitWaits l' w => InitWaits (l ++ l') w end)
  | InitWaits l w => Ret (InitWaits l w)
  end.

Definition set_status (st : InitializationStatus) (c : Class) : Class :=
  mkClass (cls_name c) (is_metaclass c) (superclass c) (methods c) (guest_method_signatures c) (ivars c) (instance_start c) (instance_size c) st.
Definition mark_class (class : Z) (st : InitializationStatus) (w : World) : outcome World :=
  c ← borrow_cls class (objc w);
  Ret (set_objc (put_class class (set_status st c) (objc w)) w).

Section initialize.
(** [msg![env; receiver initialize]], with what nested sends did. *)
Context (send_initialize : Z → World → outcome (list Z * World)).

(** The branch that sends the message. *)
Definition initialize_class (receiver : Z) (w : World) : outcome init_result :=
  let saved := regs (cpu (env w)) in
  '(mutex, m) ← mem_alloc 12 (mem (env w));
  '(cond, m) ← mem_alloc 28 m;
  '(_, e) ← pthread_mutex_init mutex 0 (set_mem m (env w));
  '(_, e) ← pthread_cond_init cond 0 e;
  let w := set_env e w in
  let w := set_objc (set_initializers (<[receiver := mkInitializer mutex cond (current_thread e) 0]> (initializer_threads (objc w))) (objc w)) w in
  w ← mark_class receiver Initializing w;
  '(nested, w) ← send_initialize receiver w;
  w ← mark_class receiver Initialized w;
  let w := set_env (set_env_regs saved (env w)) w in
  init ← unwrap (initializer_threads (objc w) !! receiver);
  if init_waiters init =? 0 then
    '(_, e) ← pthread_cond_destroy cond (env w);
    '(_, e) ← pthread_mutex_destroy mutex e;
    Ret (InitDone (receiver :: nested) (mkWorld e (set_initializers (delete receiver (initializer_threads (objc w))) (objc w))))
  else
    x ← pthread_mutex_lock mutex (env w);
    match x with
    | Finished _ e =>
        '(_, e) ← pthread_cond_broadcast cond e;
        '(_, e) ← pthread_mutex_unlock mutex e;
        Ret (InitDone (receiver :: nested) (set_env e w))
    | Yielded e _ => Ret (InitWaits (receiver :: nested) (set_env e w))
    end.

(** The branch for a class that is being initialised: [waiters] counts the caller first. *)
Definition join_initializer (receiver : Z) (w : World) : outcome init_result :=
  init ← unwrap (initializer_threads (objc w) !! receiver);
  waiters ← u32 (init_waiters init + 1);
  let w := set_objc (set_initializers (<[receiver := mkInitializer (init_mutex_ptr init) (init_cond_ptr init) (init_tid init) waiters]>
                       (initializer_threads (objc w))) (objc w)) w in
  if decide (init_tid init = current_thread (env w)) then Ret (InitDone [] w) else Ret (InitWaits [] w).

(** The recursion goes to the superclass; [is_initialized] was read before it. *)
Fixpoint maybe_initialize_class (fuel : nat) (receiver : Z) (w : World) : outcome init_result :=
  match fuel with
  | O => Panic
  | S fuel =>
      match rt_objects (objc w) !! receiver with
      | Some (AClass c) =>
          if is_metaclass c || bool_decide (is_initialized c = Initialized) then Ret (InitDone [] w)
          else
            init_bind (if superclass c =? nil then Ret (InitDone [] w) else maybe_initialize_class fuel (superclass c) w)
              (λ w, match is_initialized c with
                    | Initializing => join_initializer receiver w
                    | _ => initialize_class receiver w
                    end)
      | _ => Ret (InitDone [] w)
      end
  end.
End initialize.
End messages.
