(* ===== verification/ObjcMessageFacts.v ===== *)
(** * What a message reaches

    [objc_msgSend_inner] against a reference definition: the list of the receiver's
    classes, and the first of them that has the method.  Then two behaviours of class
    initialisation that it is not meant to have. *)

From S2P Require Import Prelude ChunkMap SizeBucketed VMAllocator HeapAllocator GuestMem GuestAlloc Env Qsort Pthread Semaphore Fs Abi ObjcClasses ObjcClassFacts ObjcMessages.

(** ** The classes a message goes through *)

(** How the walk along the superclasses ends: no superclass, a class without host object,
    a fake class, or something that is not a class with methods. *)
Inductive ChainEnd := EndNil | EndUntracked | EndFake | EndBad.

Inductive class_chain (rt : Runtime) : Z → list (Z * Class) → ChainEnd → Prop :=
| chain_nil : class_chain rt nil [] EndNil
| chain_untracked class : class ≠ nil → rt_objects rt !! class = None → class_chain rt class [] EndUntracked
| chain_fake class name b : class ≠ nil → rt_objects rt !! class = Some (FakeClass name b) → class_chain rt class [] EndFake
| chain_unimplemented class name b : class ≠ nil → rt_objects rt !! class = Some (UnimplementedClass name b) → class_chain rt class [] EndBad
| chain_other class : class ≠ nil → rt_objects rt !! class = Some OtherObject → class_chain rt class [] EndBad
| chain_class class c l e :
    class ≠ nil → rt_objects rt !! class = Some (AClass c) → class_chain rt (superclass c) l e → class_chain rt class ((class, c) :: l) e.

Lemma superclasses_chain rt class l : class ≠ nil → superclasses rt class l → class_chain rt class l EndNil.
Proof.
  intros Hn H. induction H as [class c Hc Hs|class c l Hc Hs Hl IH]; eapply chain_class; try done; [rewrite Hs; apply chain_nil|by apply IH].
Qed.

Section chains.
Context (rt : Runtime).

Lemma class_chain_unique class l e l' e' : class_chain rt class l e → class_chain rt class l' e' → l = l' ∧ e = e'.
Proof.
  intros H. revert l' e'. induction H; intros l' e' H'; inversion H'; simplify_eq; try done. destruct (IHclass_chain _ _ ltac:(eassumption)) as [-> ->]. done.
Qed.

Lemma class_chain_suffix class l e x c :
  class_chain rt class l e → (x, c) ∈ l → ∃ l1 l2, l = l1 ++ l2 ∧ class_chain rt x l2 e ∧ is_Some (rt_objects rt !! x).
Proof.
  induction 1 as [| | | | |class c' l e Hn Hc Hl IH]; intros Hx; try by apply elem_of_nil in Hx.
  apply elem_of_cons in Hx as [[= -> ->]|Hx].
  - exists [], ((class, c') :: l). split_and!; [done|by eapply chain_class|by eexists].
  - destruct (IH Hx) as (l1 & l2 & -> & ? & ?). by exists ((class, c') :: l1), l2.
Qed.

Lemma class_chain_keys class l e : class_chain rt class l e → NoDup l.*1 ∧ ∀ x, x ∈ l.*1 → is_Some (rt_objects rt !! x).
Proof.
  induction 1 as [| | | | |class c l e Hn Hc Hl [IH IHs]]; simpl; try (by split; [constructor|intros x ?%elem_of_nil]). split.
  - apply NoDup_cons. split; [|done]. intros ([x c'] & Ex & Hx)%list_elem_of_fmap. simpl in Ex. subst x.
    destruct (class_chain_suffix _ _ _ _ _ Hl Hx) as (l1 & l2 & -> & H2 & _).
    destruct (class_chain_unique class l2 e ((class, c) :: l1 ++ l2) e H2) as [E _]; [by eapply chain_class|].
    apply (f_equal length) in E. simpl in E. rewrite length_app in E. lia.
  - intros x [->|Hx]%elem_of_cons; [by rewrite Hc|by apply IHs].
Qed.

Lemma class_chain_length class l e : class_chain rt class l e → (length l ≤ size (rt_objects rt))%nat.
Proof.
  intros H. destruct (class_chain_keys _ _ _ H) as [Hn Hs].
  assert (l.*1 ⊆+ (map_to_list (rt_objects rt)).*1) as Hsub.
  { apply NoDup_submseteq; [done|]. intros x Hx. destruct (Hs x Hx) as [h Hh]. apply list_elem_of_fmap.
    exists (x, h). split; [done|]. by apply elem_of_map_to_list. }
  apply submseteq_length in Hsub. by rewrite !length_fmap, length_map_to_list in Hsub.
Qed.
End chains.

(** ** The reference *)

Section reference.
Context (call_host : HostIMP → World → outcome World) (call_guest : Z → World → outcome World).

(** What a message does that goes through the classes [l], ending with [e]. *)
Definition deliver (receiver selector : Z) (sent : option Z) (tolerate : bool) (l : list Class) (e : ChainEnd) (w : World) : outcome World :=
  match lookup_method selector l with
  | Some (_, imp) => call_imp call_host call_guest imp sent tolerate w
  | None =>
      match e with
      | EndNil | EndUntracked => Ret (return_nil w)
      | EndFake => Ret (return_receiver receiver w)
      | EndBad => Panic
      end
  end.

Lemma dispatch_spec receiver selector orig super2 sent tolerate class l e w fuel :
  class_chain (objc w) class l e → (length l < fuel)%nat → orig ∉ l.*1 ∨ super2 = false → orig ≠ nil →
  is_Some (lookup_method selector l.*2) ∨ e ≠ EndNil ∨ (∃ c, rt_objects (objc w) !! orig = Some (AClass c)) →
  dispatch call_host call_guest fuel receiver selector orig super2 sent tolerate class w = deliver receiver selector sent tolerate l.*2 e w.
Proof.
  intros H. revert fuel. induction H as [|class Hn Ho|class name b Hn Ho|class name b Hn Ho|class Hn Ho|class c l e Hn Hc Hl IH];
    intros [|fuel] Hf Hs Ho' He; cbn [length] in Hf; try lia; cbn [dispatch].
  - change (nil =? nil) with true. rewrite (proj2 (Z.eqb_neq nil orig)) by done. simpl.
    destruct He as [[? ?]|[?|[c Hc]]]; [done|done|]. unfold borrow_cls. by rewrite Hc.
  - by rewrite (proj2 (Z.eqb_neq class nil)), Ho by done.
  - by rewrite (proj2 (Z.eqb_neq class nil)), Ho by done.
  - by rewrite (proj2 (Z.eqb_neq class nil)), Ho by done.
  - by rewrite (proj2 (Z.eqb_neq class nil)), Ho by done.
  - rewrite (proj2 (Z.eqb_neq class nil)), Hc by done. simpl in He |- *.
    assert (super2 && (class =? orig) = false) as ->.
    { destruct Hs as [Hs| ->]; [|done]. rewrite (proj2 (Z.eqb_neq _ _)), andb_false_r; [done|]. intros ->. apply Hs. left. }
    unfold deliver. simpl. destruct (methods c !! selector) as [imp|]; [done|]. apply IH; [lia| |done|done].
    destruct Hs as [Hs| ->]; [left|by right]. intros Hx. apply Hs. by right.
Qed.

(** A super-call skips the class it starts at. *)
Lemma dispatch_from receiver selector super2 sent tolerate class l e w :
  class ≠ nil → class_chain (objc w) class l e →
  dispatch call_host call_guest (S (S (size (rt_objects (objc w))))) receiver selector class super2 sent tolerate class w =
    deliver receiver selector sent tolerate (if super2 then tail l.*2 else l.*2) e w.
Proof.
  intros Hn H. pose proof (class_chain_length _ _ _ _ H) as Hlen. pose proof (class_chain_keys _ _ _ _ H) as [Hnd _].
  assert (e = EndNil → ∃ c, rt_objects (objc w) !! class = Some (AClass c)) as He.
  { intros ->. inversion H; subst; [done|by eexists]. }
  assert (∀ l', is_Some (lookup_method selector l') ∨ e ≠ EndNil ∨ ∃ c, rt_objects (objc w) !! class = Some (AClass c)) as He'.
  { intros l'. right. destruct e; [right; by apply He|by left..]. }
  destruct super2; [|apply dispatch_spec; [done|lia|by right|done|apply He']].
  destruct H as [|? ? Ho|? ? ? ? Ho|? ? ? ? Ho|? ? Ho|class c l e _ Hc Hl]; [done| | | | |].
  1-4: by cbn [dispatch]; rewrite (proj2 (Z.eqb_neq class nil)), Ho by done.
  simpl in Hlen, Hnd. apply NoDup_cons in Hnd as [Hnd _].
  transitivity (dispatch call_host call_guest (S (size (rt_objects (objc w)))) receiver selector class true sent tolerate (superclass c) w).
  - cbn [dispatch]. by rewrite (proj2 (Z.eqb_neq class nil)), Hc, Z.eqb_refl by done.
  - apply (dispatch_spec receiver selector class true sent tolerate (superclass c)); [done|lia|by left|done|apply He'].
Qed.
End reference.

(** The world in which the receiver's class is looked at. *)
Definition untyped (w : World) : World := set_objc (set_type_info None (objc w)) w.

(** C24: a message reaches the first implementation along the receiver's classes.
    For a receiver outside the null page and a selector that is a string: once the receiver's
    class has been initialised, the message is delivered to the first class of the chain that
    starts at the receiver's [isa], or above the given class for a super-call, and that has a
    method for the selector; when no class has, the result is [nil] if the chain ends or leaves the
    known classes, the receiver if it reaches a fake class, and a panic otherwise.  The walk
    ends, and [class_has_method] says beforehand whether an implementation will be found.  A
    message to [nil] or into the null page changes nothing but the result registers. *)
Theorem message_dispatch call_host call_guest initialize receiver selector super2 tolerate (skip : bool) w w' isa l e name :
  isa_of receiver (mem (env w)) = Ret isa → cstr_at_utf8_unwrap selector (mem (env w)) = Ret name →
  (if skip then w' = untyped w else initialize receiver (untyped w) = Ret w') →
  class_chain (objc w') (default isa super2) l e →
  objc_msgSend_inner call_host call_guest initialize receiver selector super2 tolerate skip w =
    (if (receiver =? nil) || (receiver <? null_segment_size (mem (env w))) || (default isa super2 =? nil) then Ret (return_nil (untyped w))
     else deliver call_host call_guest receiver selector (message_type_info (objc w)) tolerate
            (match super2 with Some _ => tail l.*2 | None => l.*2 end) e w') ∧
  (superclasses (objc w') isa l → class_has_method isa selector (objc w') = Ret (bool_decide (is_Some (lookup_method selector l.*2)))).
Proof.
  intros Hisa Hsel Hinit Hchain. split; [|apply class_has_method_spec].
  unfold objc_msgSend_inner. rewrite Hisa, Hsel.
  assert ((if receiver =? nil then Ret nil else Ret isa) = Ret (if receiver =? nil then nil else isa)) as -> by (by destruct (receiver =? nil)).
  cbn [mbind outcome_bind]. fold (untyped w). change (mem (env (untyped w))) with (mem (env w)).
  destruct (receiver =? nil); [done|]. destruct (receiver <? null_segment_size (mem (env w))); [done|]. cbn [orb].
  assert ((match super2 with Some class => Ret class | None => isa_of receiver (mem (env w)) end) = Ret (default isa super2)) as -> by (by destruct super2).
  cbn [mbind outcome_bind]. destruct (Z.eqb_spec (default isa super2) nil) as [|Hn]; [done|].
  assert ((if skip then Ret (untyped w) else initialize receiver (untyped w)) = Ret w') as -> by (destruct skip; congruence).
  cbn [mbind outcome_bind]. rewrite (dispatch_from _ _ _ _ _ _ _ _ l e) by done. by destruct super2.
Qed.

(** An object at 6000 of a class that inherits its method from the root class. *)
Definition inherit_runtime : Runtime :=
  set_rt_objects {[ 100 := AClass (mkClass [82] false nil {[ 5000 := IMP_Guest 77 ]} ∅ ∅ 4 4 Initialized);
                    200 := AClass (mkClass [83] false 100 ∅ ∅ ∅ 4 4 Initialized) ]} Runtime_new.
Definition inherit_world : World :=
  mkWorld (idle_env (set_bytes (store 6000 (le_bytes 4 200) (store 5000 [105; 0] ∅)) empty_mem)) inherit_runtime.
(** Guest functions that leave their address in the result register. *)
Definition answer_address (g : Z) (w : World) : outcome World := Ret (return_receiver g w).

Lemma message_dispatch_witness :
  ∃ w', objc_msgSend (λ _ _, Panic) answer_address (λ _ w, Ret w) 6000 5000 inherit_world = Ret w' ∧ regs (cpu (env w')) !! 0%nat = Some 77.
Proof.
  assert (superclasses inherit_runtime 200
    [(200, mkClass [83] false 100 ∅ ∅ ∅ 4 4 Initialized); (100, mkClass [82] false nil {[ 5000 := IMP_Guest 77 ]} ∅ ∅ 4 4 Initialized)]) as Hs.
  { apply chain_super; [reflexivity|discriminate|]. apply chain_root; reflexivity. }
  destruct (message_dispatch (λ _ _, Panic) answer_address (λ _ w, Ret w) 6000 5000 None false false inherit_world (untyped inherit_world) 200
    [(200, mkClass [83] false 100 ∅ ∅ ∅ 4 4 Initialized); (100, mkClass [82] false nil {[ 5000 := IMP_Guest 77 ]} ∅ ∅ 4 4 Initialized)] EndNil [105])
    as [E _]; [vm_compute; reflexivity|vm_compute; reflexivity|reflexivity|apply superclasses_chain; [discriminate|exact Hs]|].
  eexists. split; [etransitivity; [exact E|]; vm_compute; reflexivity|reflexivity].
Defined.

(** ** Class initialisation *)

(** Two classes that are not initialised, [200] below [100], in memory with a heap. *)
Definition init_runtime : Runtime :=
  set_rt_objects {[ 100 := AClass (mkClass [82] false nil ∅ ∅ ∅ 4 4 NotInitialized);
                    200 := AClass (mkClass [83] false 100 ∅ ∅ ∅ 4 4 NotInitialized) ]} Runtime_new.
Definition init_world : outcome World := '(_, _, m) ← demo_mem; Ret (mkWorld (idle_env m) init_runtime).

(** [+initialize] implementations: that of [100] sends a message to [200], that of [200] sends none. *)
Definition quiet_initialize (receiver : Z) (w : World) : outcome (list Z * World) := Ret ([], w).
Definition nosy_initialize (receiver : Z) (w : World) : outcome (list Z * World) :=
  if receiver =? 100 then
    r ← maybe_initialize_class quiet_initialize 3 200 w;
    match r with InitDone l w => Ret (l, w) | InitWaits _ _ => Panic end
  else Ret ([], w).
(** An implementation that sends a message to its own class. *)
Definition self_initialize (receiver : Z) (w : World) : outcome (list Z * World) :=
  r ← maybe_initialize_class quiet_initialize 3 receiver w;
  match r with InitDone l w => Ret (l, w) | InitWaits _ _ => Panic end.

Definition sent_to (x : outcome init_result) : option (list Z) :=
  match x with Ret (InitDone l _) => Some l | _ => None end.
Definition left_initializers (x : outcome init_result) : option nat :=
  match x with Ret (InitDone _ w) => Some (size (initializer_threads (objc w))) | _ => None end.

(** Superclasses are initialised first, each class once. *)
Example initialize_order : (w ← init_world; unwrap (sent_to (maybe_initialize_class quiet_initialize 3 200 w))) = Ret [100; 200].
Proof. vm_compute. reflexivity. Qed.

(** The status of a class is read before its superclass is initialised: when the superclass's
    [+initialize] sends a message to the class, the class is initialised twice. *)
Example initialize_sent_twice : (w ← init_world; unwrap (sent_to (maybe_initialize_class nosy_initialize 3 200 w))) = Ret [100; 200; 200].
Proof. vm_compute. reflexivity. Qed.

(** A thread that messages the class from its own [+initialize] is counted as a waiter and
    never leaves: the initializer with its mutex and condition variable stays for ever. *)
Example initializer_never_removed :
  (w ← init_world; unwrap (left_initializers (maybe_initialize_class self_initialize 3 100 w))) = Ret 1%nat ∧
  (w ← init_world; unwrap (left_initializers (maybe_initialize_class quiet_initialize 3 100 w))) = Ret 0%nat.
Proof. vm_compute. by split. Qed.
