(* ===== verification/Gdb.v ===== *)
(** * The debugger's server ([gdb.rs])

    The GDB remote protocol: packets with checksums on a socket, and the commands that
    read and write registers and memory until the debugger lets the program go on.  The
    socket is a list of what its reads will give; writes succeed.  [BufReader] is modelled
    with its documented behaviour: [fill_buf] reads from the socket only when its buffer is
    empty. *)

From S2P Require Import Prelude ChunkMap SizeBucketed VMAllocator HeapAllocator GuestMem Env Pthread Semaphore StrToInt Fs Abi.

(** ** Hexadecimal numbers *)

(** [{v:0nx}] of a number with at most [n] digits. *)
Definition hex_digit (d : Z) : Z := if d <? 10 then 48 + d else 87 + d.
Fixpoint hex_fixed (n : nat) (v : Z) : list Z :=
  match n with O => [] | S n => hex_fixed n (v / 16) ++ [hex_digit (v mod 16)] end.

(** [from_str_radix(s, 16)] of an unsigned type with the maximum [hi]: a plus sign may
    come first, no digit at all is an error. *)
Definition hex_char (c : Z) : bool := match to_digit c with Some d => d <? 16 | None => false end.
Definition parse_hex (hi : Z) (s : list Z) : option Z :=
  let digits := match s with c :: d :: l => if c =? 43 then d :: l else s | _ => s end in
  match digits with
  | [] => None
  | _ => if forallb hex_char digits then from_str_radix 0 hi digits 16 else None
  end.

Definition U8_MAX : Z := 255.

(** [u32::from_be_bytes(v.to_le_bytes())] and [u32::from_le_bytes(v.to_be_bytes())]. *)
Definition swap_bytes (v : Z) : Z := from_le_bytes (rev (le_bytes 4 v)).

(** ** Strings *)

(** [split_once]: before and after the first occurrence. *)
Fixpoint split_once (c : Z) (s : list Z) : option (list Z * list Z) :=
  match s with
  | [] => None
  | x :: s => if x =? c then Some ([], s) else '(a, b) ← split_once c s; Some (x :: a, b)
  end.
Fixpoint strip_prefix (prefix s : list Z) : option (list Z) :=
  match prefix, s with
  | [], s => Some s
  | x :: prefix, y :: s => if x =? y then strip_prefix prefix s else None
  | _ :: _, [] => None
  end.

Definition ascii (s : string) : list Z := bytes_of s.

(** ** The connection *)

(** What a read of the socket gives: at most 4096 bytes (none when the peer has closed
    it), an error that is ignored, such as a timeout, or the loss of the connection. *)
Inductive Incoming := Bytes (l : list Z) | TimedOut | ConnectionLost.

Record GdbServer := mkGdb {
  gdb_buffer : list Z;
  gdb_incoming : list Incoming;
  gdb_sent : list Z;
  first_halt : bool
}.
Definition set_gdb_buffer x (g : GdbServer) : GdbServer := mkGdb x (gdb_incoming g) (gdb_sent g) (first_halt g).
Definition CAPACITY : Z := 4096.

(** [write_all]. *)
Definition gdb_write (l : list Z) (g : GdbServer) : GdbServer := mkGdb (gdb_buffer g) (gdb_incoming g) (gdb_sent g ++ l) (first_halt g).

(** [fill_buf]; an error that is ignored gives nothing, and so does every read when nothing is left. *)
Definition fill_buf (g : GdbServer) : outcome (option GdbServer) :=
  match gdb_buffer g with
  | _ :: _ => Ret (Some g)
  | [] =>
      match gdb_incoming g with
      | [] => Ret None
      | Bytes l :: rest => Ret (Some (mkGdb l rest (gdb_sent g) (first_halt g)))
      | TimedOut :: rest => Ret (Some (mkGdb [] rest (gdb_sent g) (first_halt g)))
      | ConnectionLost :: _ => Panic
      end
  end.

Definition checksum (body : list Z) : Z := fold_left (λ a b, (a + b) mod 256) body 0.

Fixpoint byte_position (c : Z) (l : list Z) : option nat :=
  match l with [] => None | x :: l => if x =? c then Some O else S <$> byte_position c l end.

(** [GdbServer::new]: one byte of greeting each way. *)
Definition GdbServer_new (hello_byte : Z) (incoming : list Incoming) : outcome GdbServer :=
  rassert (hello_byte =? 43);;
  Ret (mkGdb [] incoming [43] true).

(** The packet at the front of the buffer, [$body#xx]. *)
Definition read_packet (g : GdbServer) : outcome (option (list Z) * GdbServer) :=
  filled ← fill_buf g;
  match filled with
  | None => Ret (None, g)
  | Some g =>
      match gdb_buffer g with
      | [] => Ret (None, g)
      | c :: _ =>
          if c =? 43 then Ret (None, set_gdb_buffer (drop 1 (gdb_buffer g)) g)
          else
            rassert (c =? 36);;
            match byte_position 35 (gdb_buffer g) with
            | None =>
                rassert (negb (Z.of_nat (length (gdb_buffer g)) =? CAPACITY));;
                Ret (None, g)
            | Some body_end =>
                let body := take (body_end - 1) (drop 1 (gdb_buffer g)) in
                let checksum1 := take 2 (drop (body_end + 1) (gdb_buffer g)) in
                if negb (length checksum1 =? 2)%nat then Ret (None, g)
                else
                  rassert (utf8_valid checksum1);;
                  checksum1 ← unwrap (parse_hex U8_MAX checksum1);
                  rassert (checksum1 =? checksum body);;
                  rassert (utf8_valid body);;
                  Ret (Some body, gdb_write [43] (set_gdb_buffer (drop (body_end + 3) (gdb_buffer g)) g))
            end
      end
  end.

Definition framed (body : list Z) : list Z := [36] ++ body ++ [35] ++ hex_fixed 2 (checksum body).
Definition send_packet (body : list Z) (g : GdbServer) : GdbServer := gdb_write (framed body) g.

(** ** Commands *)

(** The CPU and the memory that the debugger works on. *)
Notation Target := (CpuContext * Mem)%type.

Definition read_registers (c : CpuContext) : list Z := r ← regs c; hex_fixed 8 (swap_bytes r).

(** [data[i * 4 * 2..][..4 * 2]] for each register. *)
Fixpoint parse_registers (n : nat) (data : list Z) : outcome (list Z) :=
  match n with
  | O => Ret []
  | S n => word ← unwrap (parse_hex (U32_MOD - 1) (take 8 data)); rest ← parse_registers n (drop 8 data); Ret (swap_bytes word :: rest)
  end.
Definition write_registers (data : list Z) (c : CpuContext) : outcome CpuContext :=
  rassert (length data =? length (regs c) * 4 * 2)%nat;;
  rs ← parse_registers (length (regs c)) data;
  Ret (set_regs rs c).

Definition read_register (text : list Z) (c : CpuContext) : outcome (option Z) :=
  num ← unwrap (parse_hex (U64_MOD - 1) text);
  if num <? 16 then r ← unwrap (regs c !! Z.to_nat num); Ret (Some r)
  else if num =? 25 then Ret (Some (cpsr c))
  else Ret None.

(** The reply, and the CPU afterwards. *)
Definition write_register (text : list Z) (c : CpuContext) : outcome (list Z * CpuContext) :=
  '(num, word) ← unwrap (split_once 61 text);
  num ← unwrap (parse_hex (U64_MOD - 1) num);
  word ← unwrap (parse_hex (U32_MOD - 1) word);
  let word := swap_bytes word in
  if num <? 16 then rassert (num <? Z.of_nat (length (regs c)));; Ret (ascii "OK", set_reg (Z.to_nat num) word c)
  else if num =? 25 then Ret (ascii "OK", set_cpsr word c)
  else Ret (ascii "E00", c).

Definition read_memory (text : list Z) (m : Mem) : outcome (list Z) :=
  '(addr, length) ← unwrap (split_once 44 text);
  addr ← unwrap (parse_hex (U32_MOD - 1) addr);
  length ← unwrap (parse_hex (U32_MOD - 1) length);
  Ret (match get_bytes_fallible addr length m with
       | Some data => b ← data; hex_fixed 2 b
       | None => ascii "E00"
       end).

Fixpoint parse_bytes (n : nat) (data : list Z) : outcome (list Z) :=
  match n with
  | O => Ret []
  | S n => byte ← unwrap (parse_hex U8_MAX (take 2 data)); rest ← parse_bytes n (drop 2 data); Ret (byte :: rest)
  end.
Definition write_memory (text : list Z) (m : Mem) : outcome (list Z * Mem) :=
  '(header, data) ← unwrap (split_once 58 text);
  '(addr, len) ← unwrap (split_once 44 header);
  addr ← unwrap (parse_hex (U32_MOD - 1) addr);
  len ← unwrap (parse_hex (U32_MOD - 1) len);
  rassert (Z.of_nat (length data) =? len * 2);;
  match get_bytes_fallible addr len m with
  | Some _ =>
      bytes ← parse_bytes (Z.to_nat len) data;
      m ← unwrap (get_bytes_fallible_mut_copy addr len bytes m);
      Ret (ascii "OK", m)
  | None => Ret (ascii "E00", m)
  end.

(** [TARGET_XML], whose quotation marks are character 34. *)
Definition TARGET_XML : list Z := Eval vm_compute in
  [10] ++ ascii "<target version=" ++ [34] ++ ascii "1.0" ++ [34] ++ ascii ">" ++ [10] ++
  ascii "    <architecture>armv6</architecture>" ++ [10] ++ ascii "    <osabi>Darwin</osabi>" ++ [10] ++ ascii "</target>" ++ [10].

(** Queries, and everything that is not known. *)
Definition answer_query (p : list Z) : outcome (list Z) :=
  if bool_decide (p = ascii "qAttached") then Ret (ascii "0")
  else if bool_decide (p = ascii "qSupported") || bool_decide (is_Some (strip_prefix (ascii "qSupported:") p)) then Ret (ascii "qXfer:features:read+")
  else
    match strip_prefix (ascii "qXfer:features:read:") p with
    | Some params =>
        '(annex, params) ← unwrap (split_once 58 params);
        '(offset, len) ← unwrap (split_once 44 params);
        offset ← unwrap (parse_hex (U64_MOD - 1) offset);
        len ← unwrap (parse_hex (U64_MOD - 1) len);
        if bool_decide (annex = ascii "target.xml") && (offset <=? Z.of_nat (length TARGET_XML)) then
          let bytes := drop (Z.to_nat offset) TARGET_XML in
          let length_read := Z.min len (Z.of_nat (length bytes)) in
          Ret ((if length_read <? len then 108 else 109) :: take (Z.to_nat length_read) bytes)
        else Ret (ascii "E00")
    | None => Ret []
    end.

(** One packet: whether it resumes the program, stepping or not, and the reply. *)
Inductive Action := Reply (body : list Z) | Resume (step : bool).

Definition handle_packet (stop_reason : option CpuError) (p : list Z) (t : Target) : outcome (Action * Target) :=
  let '(c, m) := t in
  match p with
  | [] => Panic
  | x :: args =>
      if x =? 63 then rassert (match stop_reason with None => true | Some _ => false end);; Ret (Reply (ascii "S00"), (c, m))
      else if x =? 103 then Ret (Reply (read_registers c), (c, m))
      else if x =? 71 then c ← write_registers args c; Ret (Reply (ascii "OK"), (c, m))
      else if x =? 112 then
        r ← read_register args c;
        Ret (Reply (match r with Some reg => hex_fixed 8 (swap_bytes reg) | None => ascii "E00" end), (c, m))
      else if x =? 80 then '(r, c) ← write_register args c; Ret (Reply r, (c, m))
      else if x =? 109 then r ← read_memory args m; Ret (Reply r, (c, m))
      else if x =? 77 then '(r, m) ← write_memory args m; Ret (Reply r, (c, m))
      else if (x =? 99) || (x =? 115) then rassert (match args with [] => true | _ => false end);; Ret (Resume (x =? 115), (c, m))
      else if (x =? 67) || (x =? 83) then
        rassert (match split_once 59 args with None => true | Some _ => false end);; Ret (Resume (x =? 83), (c, m))
      else if x =? 107 then Panic
      else r ← answer_query p; Ret (Reply r, (c, m))
  end.

(** The loop, for [fuel] iterations: [None] when the debugger has not resumed the program yet. *)
Fixpoint wait_loop (fuel : nat) (stop_reason : option CpuError) (t : Target) (g : GdbServer) : outcome (option bool * Target * GdbServer) :=
  match fuel with
  | O => Ret (None, t, g)
  | S fuel =>
      '(p, g) ← read_packet g;
      match p with
      | None | Some [] => wait_loop fuel stop_reason t g
      | Some p =>
          '(action, t) ← handle_packet stop_reason p t;
          match action with
          | Reply body => wait_loop fuel stop_reason t (send_packet body g)
          | Resume step => Ret (Some step, t, g)
          end
      end
  end.

(** The reply to the command that let the program run before. *)
Definition stop_reply (stop_reason : option CpuError) (g : GdbServer) : GdbServer :=
  match stop_reason with
  | None => if first_halt g then mkGdb (gdb_buffer g) (gdb_incoming g) (gdb_sent g) false else send_packet (ascii "S05") g
  | Some UndefinedInstruction | Some Breakpoint => send_packet (ascii "S05") g
  | Some MemoryError => send_packet (ascii "S0b") g
  end.
Definition wait_for_debugger (fuel : nat) (stop_reason : option CpuError) (t : Target) (g : GdbServer) : outcome (option bool * Target * GdbServer) :=
  wait_loop fuel stop_reason t (stop_reply stop_reason g).
