(* ===== verification/GdbFacts.v ===== *)
(** * Facts about the debugger's server

    Packets come out as they were framed, and a session of commands does to the
    registers and to memory what the commands say: the server refines an abstract target.
    A packet that arrives in two pieces is never read. *)

From S2P Require Import Prelude ChunkMap SizeBucketed VMAllocator HeapAllocator GuestMem Env Pthread Semaphore StrToInt Fs Abi Gdb.

(** ** Hexadecimal numbers *)

Lemma hex_fixed_length n v : length (hex_fixed n v) = n.
Proof. revert v. induction n as [|n IH]; intros v; simpl; [done|]. rewrite length_app, IH. simpl. lia. Qed.

Lemma hex_digit_ok d : 0 ≤ d < 16 → to_digit (hex_digit d) = Some d ∧ 48 ≤ hex_digit d ≤ 102.
Proof.
  intros Hd. unfold hex_digit, to_digit. destruct (Z.ltb_spec d 10).
  - rewrite !(proj2 (Z.leb_le _ _)) by lia. simpl. split; [f_equal|]; lia.
  - rewrite (proj2 (Z.leb_gt (87 + d) 57)) by lia. rewrite andb_false_r, !(proj2 (Z.leb_le _ _)) by lia. simpl. split; [f_equal|]; lia.
Qed.

Lemma digits_value_snoc base l c : digits_value base (l ++ [c]) = digits_value base l * base + default 0 (to_digit c).
Proof. unfold digits_value. by rewrite fold_left_app. Qed.

(** The characters [s] are hexadecimal digits of [v]. *)
Definition spells (s : list Z) (v : Z) : Prop := s ≠ [] ∧ Forall (λ c, hex_char c = true) s ∧ digits_value 16 s = v.

Lemma hex_char_range c : hex_char c = true → 48 ≤ c ≤ 57 ∨ 65 ≤ c ≤ 70 ∨ 97 ≤ c ≤ 102.
Proof.
  unfold hex_char, to_digit. destruct (Z.leb_spec 48 c), (Z.leb_spec c 57); simpl; [lia|..];
    destruct (Z.leb_spec 97 c), (Z.leb_spec c 122); simpl; try (intros ?%Z.ltb_lt; lia);
    destruct (Z.leb_spec 65 c), (Z.leb_spec c 90); simpl; try done; intros ?%Z.ltb_lt; lia.
Qed.

Lemma hex_fixed_spells n v : 0 ≤ v < 16 ^ Z.of_nat (S n) → spells (hex_fixed (S n) v) v.
Proof.
  intros Hv. split; [intros E%(f_equal length); rewrite hex_fixed_length in E; done|].
  assert (∀ n v, 0 ≤ v < 16 ^ Z.of_nat n → Forall (λ c, hex_char c = true) (hex_fixed n v) ∧ digits_value 16 (hex_fixed n v) = v) as H; [|by apply H].
  clear. induction n as [|n IH]; intros v Hv; simpl.
  { split; [constructor|]. unfold digits_value. simpl in *. lia. }
  pose proof (Z.mod_pos_bound v 16). destruct (hex_digit_ok (v mod 16)) as [Hd _]; [lia|].
  destruct (IH (v / 16)) as [IH1 IH2].
  { rewrite Nat2Z.inj_succ, Z.pow_succ_r in Hv by lia. split; [apply Z.div_pos; lia|apply Z.div_lt_upper_bound; lia]. }
  split.
  - apply Forall_app. split; [done|]. constructor; [|done]. unfold hex_char. rewrite Hd. apply Z.ltb_lt. lia.
  - rewrite digits_value_snoc, IH2, Hd. simpl. pose proof (Z.div_mod v 16). lia.
Qed.

Lemma parse_hex_spells hi s v : spells s v → 0 ≤ v ≤ hi → parse_hex hi s = Some v.
Proof.
  intros (Hne & Hs & Hv) Hb. unfold parse_hex.
  assert (match s with c :: d :: l => if c =? 43 then d :: l else s | _ => s end = s) as ->.
  { destruct s as [|c [|c' s]]; [done..|]. assert (c ≠ 43) by (inversion Hs as [|? ? Hc]; apply hex_char_range in Hc; lia).
    rewrite (proj2 (Z.eqb_neq c 43)) by done. done. }
  destruct s as [|c s]; [done|]. rewrite (proj2 (forallb_forall _ _)).
  2: { intros x Hx%list_elem_of_In. rewrite Forall_forall in Hs. by apply Hs. }
  unfold from_str_radix. rewrite Hv, !(proj2 (Z.leb_le _ _)) by lia. done.
Qed.

(** ** Bytes of words *)

Lemma le_bytes_from l : Forall (λ b, 0 ≤ b < 256) l → le_bytes (length l) (from_le_bytes l) = l.
Proof.
  induction 1 as [|b l Hb Hl IH]; simpl; [done|]. f_equal.
  - rewrite (Z.mul_comm 256), Z.mod_add by lia. apply Z.mod_small. lia.
  - rewrite (Z.mul_comm 256), Z.div_add, Z.div_small, Z.add_0_l by lia. done.
Qed.

Lemma le_bytes_range n v : Forall (λ b, 0 ≤ b < 256) (le_bytes n v).
Proof. revert v. induction n as [|n IH]; intros v; simpl; constructor; [apply Z.mod_pos_bound; lia|apply IH]. Qed.

Lemma from_le_bytes_range l : Forall (λ b, 0 ≤ b < 256) l → 0 ≤ from_le_bytes l < 256 ^ Z.of_nat (length l).
Proof.
  induction 1 as [|b l Hb Hl IH]; simpl; [lia|]. rewrite Nat2Z.inj_succ, Z.pow_succ_r by lia. lia.
Qed.

Lemma swap_bytes_range v : 0 ≤ swap_bytes v < U32_MOD.
Proof.
  unfold swap_bytes. pose proof (from_le_bytes_range (rev (le_bytes 4 v))) as H. rewrite length_rev, le_bytes_length in H.
  change (256 ^ Z.of_nat 4) with U32_MOD in H. apply H. apply Forall_rev, le_bytes_range.
Qed.

Lemma swap_bytes_involutive v : 0 ≤ v < U32_MOD → swap_bytes (swap_bytes v) = v.
Proof.
  intros Hv. unfold swap_bytes at 1. assert (le_bytes 4 (swap_bytes v) = rev (le_bytes 4 v)) as ->.
  { unfold swap_bytes. rewrite <- (le_bytes_length 4 v) at 1. rewrite <- length_rev. apply le_bytes_from, Forall_rev, le_bytes_range. }
  rewrite rev_involutive, from_le_bytes_le_bytes. apply Z.mod_small. done.
Qed.

(** ** Packets *)

Lemma position_spec c l r : c ∉ l → byte_position c (l ++ c :: r) = Some (length l).
Proof.
  induction l as [|x l IH]; simpl; intros Hc; [by rewrite Z.eqb_refl|].
  rewrite (proj2 (Z.eqb_neq x c)) by set_solver. rewrite IH by set_solver. done.
Qed.

Lemma split_once_spec c a b : c ∉ a → split_once c (a ++ c :: b) = Some (a, b).
Proof.
  induction a as [|x a IH]; simpl; intros Hc; [by rewrite Z.eqb_refl|].
  rewrite (proj2 (Z.eqb_neq x c)) by set_solver. rewrite IH by set_solver. done.
Qed.

Lemma utf8_ascii l : Forall (λ c, 0 ≤ c < 128) l → utf8_valid l = true.
Proof. induction 1 as [|c l Hc Hl IH]; simpl; [done|]. by rewrite (proj2 (Z.ltb_lt _ _)) by lia. Qed.

Lemma checksum_range body : 0 ≤ checksum body < 256.
Proof.
  unfold checksum. assert (∀ a, 0 ≤ a < 256 → 0 ≤ fold_left (λ a b, (a + b) mod 256) body a < 256) as H; [|apply H; lia].
  induction body as [|b body IH]; intros a Ha; simpl; [done|]. apply IH, Z.mod_pos_bound. lia.
Qed.

(** What may be in a packet: ASCII, and not the character that ends it. *)
Definition plain (body : list Z) : Prop := Forall (λ c, 0 ≤ c < 128 ∧ c ≠ 35) body.

Lemma plain_end body : plain body → 35 ∉ body.
Proof. unfold plain. rewrite Forall_forall. intros H Hx. by apply H in Hx as [_ ?]. Qed.

Lemma read_frame body rest inc sent fh :
  plain body → read_packet (mkGdb (framed body ++ rest) inc sent fh) = Ret (Some body, mkGdb rest inc (sent ++ [43]) fh).
Proof.
  intros Hp. pose proof (checksum_range body) as Hc. destruct (hex_fixed_spells 1 (checksum body)) as (Hne & Hhex & Hv); [done|].
  set (cs := hex_fixed 2 (checksum body)) in *. assert (length cs = 2%nat) as Hcs by apply hex_fixed_length.
  unfold read_packet, framed. fold cs. replace (([36] ++ body ++ [35] ++ cs) ++ rest) with (36 :: body ++ 35 :: cs ++ rest) by (by simpl; rewrite <- app_assoc).
  cbn [fill_buf gdb_buffer mbind outcome_bind]. change (36 =? 43) with false. change (36 =? 36) with true. cbn [rassert mbind outcome_bind].
  assert (byte_position 35 (36 :: body ++ 35 :: cs ++ rest) = Some (S (length body))) as ->.
  { change (36 :: body ++ 35 :: cs ++ rest) with ((36 :: body) ++ 35 :: cs ++ rest). apply position_spec.
    intros [?|Hx]%elem_of_cons; [done|]. by apply (plain_end body). }
  assert (take (S (length body) - 1) (drop 1 (36 :: body ++ 35 :: cs ++ rest)) = body) as ->.
  { replace (S (length body) - 1)%nat with (length body) by lia. cbn [drop]. apply take_app_length. }
  assert (drop (S (length body) + 1) (36 :: body ++ 35 :: cs ++ rest) = cs ++ rest) as ->.
  { replace (S (length body) + 1)%nat with (S (length body + 1))%nat by lia. cbn [drop]. rewrite drop_app_add'. done. done. }
  assert (take 2 (cs ++ rest) = cs) as -> by (rewrite <- Hcs; apply take_app_length). rewrite Hcs. simpl (negb _). cbn iota.
  rewrite (utf8_ascii cs) by (eapply Forall_impl; [exact Hhex|]; intros x Hx%hex_char_range; lia). cbn [rassert mbind outcome_bind].
  rewrite (parse_hex_spells U8_MAX cs (checksum body)); [|by split_and!|unfold U8_MAX; lia].
  cbn [unwrap mbind outcome_bind].
  rewrite Z.eqb_refl. cbn [rassert mbind outcome_bind].
  rewrite (utf8_ascii body) by (eapply Forall_impl; [exact Hp|]; naive_solver). cbn [rassert mbind outcome_bind].
  unfold gdb_write, set_gdb_buffer. cbn [gdb_buffer gdb_incoming gdb_sent first_halt]. do 4 f_equal.
  replace (S (length body) + 3)%nat with (S (length body + (1 + 2)))%nat by lia. cbn [drop].
  rewrite drop_app_add', <- Hcs by done. cbn [drop Nat.add]. by rewrite drop_app_length.
Qed.

(** ** The target as the debugger sees it *)

(** What the debugger may ask. *)
Inductive Cmd := Why | GetRegs | SetRegs (ws : list Z) | GetReg (n : Z) | SetReg (n w : Z) | GetMem (a n : Z) | SetMem (a : Z) (l : list Z) | Unsupported.
Inductive Answer := Halted | Data (l : list Z) | Done | Refused | NotSupported.

(** The bytes [a] to [a + n - 1] may be accessed. *)
Definition accessible (a n : Z) (m : Mem) : bool := (null_segment_size m <=? a) && in_bounds a n.

(** Words are sent as their bytes, in the order of memory. *)
Definition words_bytes (ws : list Z) : list Z := w ← ws; le_bytes 4 w.

Definition exec (cmd : Cmd) (t : Target) : Answer * Target :=
  let '(c, m) := t in
  match cmd with
  | Why => (Halted, t)
  | GetRegs => (Data (words_bytes (regs c)), t)
  | SetRegs ws => (Done, (mkCpuContext ws (extregs c) (cpsr c) (fpscr c), m))
  | GetReg n =>
      (if n <? 16 then Data (le_bytes 4 (nth (Z.to_nat n) (regs c) 0)) else if n =? 25 then Data (le_bytes 4 (cpsr c)) else Refused, t)
  | SetReg n w =>
      if n <? 16 then (Done, (mkCpuContext (<[Z.to_nat n := w]> (regs c)) (extregs c) (cpsr c) (fpscr c), m))
      else if n =? 25 then (Done, (mkCpuContext (regs c) (extregs c) w (fpscr c), m))
      else (Refused, t)
  | GetMem a n => (if accessible a n m then Data (byte_at m <$> addr_range a n) else Refused, t)
  | SetMem a l => if accessible a (Z.of_nat (length l)) m then (Done, (c, set_bytes (store a l (bytes m)) m)) else (Refused, t)
  | Unsupported => (NotSupported, t)
  end.

(** Two hexadecimal digits for each byte. *)
Inductive hex_text : list Z → list Z → Prop :=
  | hex_text_nil : hex_text [] []
  | hex_text_cons b c d l s : spells [c; d] b → hex_text l s → hex_text (b :: l) (c :: d :: s).

Definition u32_word (w : Z) : Prop := 0 ≤ w < U32_MOD.

(** The text of a command, in any spelling of its numbers; the halt reason may be asked
    for only when there is none. *)
Inductive cmd_text (stop_reason : option CpuError) : Cmd → list Z → Prop :=
  | text_why : stop_reason = None → cmd_text stop_reason Why (ascii "?")
  | text_get_regs : cmd_text stop_reason GetRegs (ascii "g")
  | text_set_regs ws s : length ws = 16%nat → Forall u32_word ws → hex_text (words_bytes ws) s → cmd_text stop_reason (SetRegs ws) (ascii "G" ++ s)
  | text_get_reg n s : spells s n → 0 ≤ n < U64_MOD → cmd_text stop_reason (GetReg n) (ascii "p" ++ s)
  | text_set_reg n w s s' : spells s n → 0 ≤ n < U64_MOD → u32_word w → hex_text (le_bytes 4 w) s' → cmd_text stop_reason (SetReg n w) (ascii "P" ++ s ++ ascii "=" ++ s')
  | text_get_mem a n s s' : spells s a → u32_word a → spells s' n → u32_word n → cmd_text stop_reason (GetMem a n) (ascii "m" ++ s ++ ascii "," ++ s')
  | text_set_mem a l s s' s'' :
      spells s a → u32_word a → spells s' (Z.of_nat (length l)) → Z.of_nat (length l) < U32_MOD → hex_text l s'' →
      cmd_text stop_reason (SetMem a l) (ascii "M" ++ s ++ ascii "," ++ s' ++ ascii ":" ++ s'')
  | text_unsupported c s : c ∉ ascii "?gGpPmMcsCSkq" → cmd_text stop_reason Unsupported (c :: s).

Definition hex_bytes (l : list Z) : list Z := b ← l; hex_fixed 2 b.
Definition answer_text (a : Answer) : list Z :=
  match a with Halted => ascii "S00" | Data l => hex_bytes l | Done => ascii "OK" | Refused => ascii "E00" | NotSupported => [] end.

(** *** Spellings of bytes and words *)

Lemma hex_fixed_step n v : hex_fixed (2 + n) v = hex_fixed n (v / 256) ++ hex_fixed 2 (v mod 256).
Proof.
  change (2 + n)%nat with (S (S n)). cbn [hex_fixed]. rewrite Z.div_div by lia. change (16 * 16) with 256. rewrite <- app_assoc. f_equal. simpl.
  assert ((v mod 256) mod 16 = v mod 16) as -> by (apply Z.mod_mod_divide; by exists 16).
  assert (v mod 256 / 16 = (v / 16) mod 16) as ->.
  { change 256 with (16 * 16). rewrite Z.rem_mul_r, Z.mul_comm, Z.div_add, (Z.div_small (v mod 16)) by (lia || apply Z.mod_pos_bound; lia). lia. }
  by rewrite Z.mod_mod by lia.
Qed.

Lemma hex_fixed_bytes l : Forall (λ b, 0 ≤ b < 256) l → hex_fixed (2 * length l) (from_le_bytes (rev l)) = hex_bytes l.
Proof.
  induction l as [|b l IH] using rev_ind; [done|]. intros [Hl Hb]%Forall_app. apply Forall_inv in Hb.
  rewrite rev_app_distr, length_app. cbn [rev app from_le_bytes length]. replace (2 * (length l + 1))%nat with (2 + 2 * length l)%nat by lia.
  rewrite hex_fixed_step. unfold hex_bytes. rewrite bind_app. cbn [mbind list_bind]. rewrite app_nil_r. f_equal.
  - rewrite (Z.mul_comm 256), Z.div_add, Z.div_small by lia. apply IH, Hl.
  - f_equal. rewrite (Z.mul_comm 256), Z.mod_add by lia. by apply Z.mod_small.
Qed.

Lemma hex_word w : hex_fixed 8 (swap_bytes w) = hex_bytes (le_bytes 4 w).
Proof. unfold swap_bytes. change 8%nat with (2 * length (le_bytes 4 w))%nat. apply hex_fixed_bytes, le_bytes_range. Qed.

Lemma hex_words ws : (r ← ws; hex_fixed 8 (swap_bytes r)) = hex_bytes (words_bytes ws).
Proof.
  induction ws as [|w ws IH]; [done|]. unfold words_bytes, hex_bytes in *. cbn [mbind list_bind]. rewrite bind_app, <- IH. f_equal. apply hex_word.
Qed.

Lemma from_le_bytes_concat l l' : from_le_bytes (l ++ l') = from_le_bytes l + 256 ^ Z.of_nat (length l) * from_le_bytes l'.
Proof.
  induction l as [|b l IH]; cbn [from_le_bytes app length]; [lia|]. rewrite IH, Nat2Z.inj_succ, Z.pow_succ_r by lia. lia.
Qed.

Lemma hex_text_chars l s : hex_text l s → length s = (2 * length l)%nat ∧ Forall (λ c, hex_char c = true) s.
Proof.
  induction 1 as [|b c d l s (_ & Hcd & _) _ [IH1 IH2]]; [by split|]. simpl. split; [lia|]. inversion_clear Hcd as [|? ? Hc Hd]. inversion_clear Hd. by repeat constructor.
Qed.

Lemma hex_text_value l s : hex_text l s → digits_value 16 s = from_le_bytes (rev l).
Proof.
  assert (hex_text l s → ∀ acc, fold_left (λ a c, a * 16 + default 0 (to_digit c)) s acc = acc * 256 ^ Z.of_nat (length l) + from_le_bytes (rev l)) as H; cycle 1.
  { intros Hl. unfold digits_value. rewrite (H Hl). lia. }
  induction 1 as [|b c d l s (_ & _ & Hv) _ IH]; intros acc; cbn [fold_left rev from_le_bytes length]; [lia|].
  rewrite IH, from_le_bytes_concat, length_rev, Nat2Z.inj_succ, Z.pow_succ_r by lia. cbn [from_le_bytes].
  unfold digits_value in Hv. cbn [fold_left] in Hv. rewrite <- Hv. lia.
Qed.

Lemma parse_hex_word w s : u32_word w → hex_text (le_bytes 4 w) s → parse_hex (U32_MOD - 1) s = Some (swap_bytes w).
Proof.
  intros Hw Hs. apply parse_hex_spells; [|pose proof (swap_bytes_range w); lia]. destruct (hex_text_chars _ _ Hs) as [Hl Hc].
  split_and!; [|done|by rewrite (hex_text_value _ _ Hs)]. intros ->. by rewrite le_bytes_length in Hl.
Qed.

Lemma hex_text_app l l' s : hex_text (l ++ l') s → ∃ s1 s2, s = s1 ++ s2 ∧ hex_text l s1 ∧ hex_text l' s2.
Proof.
  revert s. induction l as [|b l IH]; intros s Hs; [exists [], s; by repeat constructor|].
  inversion_clear Hs as [|? ? ? ? s' Hb Hs']. destruct (IH _ Hs') as (s1 & s2 & -> & H1 & H2). exists (c :: d :: s1), s2. split_and!; [done|by apply hex_text_cons|done].
Qed.

Lemma parse_registers_ok ws s : Forall u32_word ws → hex_text (words_bytes ws) s → parse_registers (length ws) s = Ret ws.
Proof.
  intros Hws. revert s. induction Hws as [|w ws Hw Hws IH]; intros s Hs; [done|]. unfold words_bytes in Hs. cbn [mbind list_bind] in Hs.
  apply hex_text_app in Hs as (s1 & s2 & -> & H1 & H2). cbn [length parse_registers].
  assert (8%nat = length s1) as -> by (destruct (hex_text_chars _ _ H1) as [-> _]; by rewrite le_bytes_length).
  rewrite take_app_length, drop_app_length, (parse_hex_word w) by done. cbn [unwrap mbind outcome_bind]. unfold mbind in IH. rewrite IH by done.
  cbn [mbind outcome_bind]. by rewrite swap_bytes_involutive.
Qed.

Lemma hex_char_digit c : hex_char c = true → 0 ≤ default 0 (to_digit c) < 16.
Proof.
  intros Hc. pose proof (hex_char_range c Hc) as Hr. unfold hex_char in Hc. destruct (to_digit c) as [x|] eqn:E; [|done]. simpl.
  apply Z.ltb_lt in Hc. unfold to_digit in E. repeat case_match; simplify_eq; lia.
Qed.

Lemma spells_byte c d b : spells [c; d] b → 0 ≤ b < 256.
Proof.
  intros (_ & Hcd & <-). inversion_clear Hcd as [|? ? Hc Hd]. inversion_clear Hd as [|? ? Hd' _].
  apply hex_char_digit in Hc, Hd'. unfold digits_value. cbn [fold_left]. lia.
Qed.

Lemma parse_bytes_ok l s : hex_text l s → parse_bytes (length l) s = Ret l.
Proof.
  intros Hs. induction Hs as [|b c d l s Hb Hs IH]; [done|]. cbn [length parse_bytes take drop].
  rewrite (parse_hex_spells U8_MAX _ b) by (done || pose proof (spells_byte _ _ _ Hb); unfold U8_MAX; lia). cbn [unwrap mbind outcome_bind]. by rewrite drop_0, IH.
Qed.

(** *** One command *)

Lemma spells_without s v c : spells s v → ¬ (48 ≤ c ≤ 57 ∨ 65 ≤ c ≤ 70 ∨ 97 ≤ c ≤ 102) → c ∉ s.
Proof. intros (_ & Hs & _) Hc Hin. rewrite Forall_forall in Hs. by apply Hs, hex_char_range in Hin. Qed.

(** A number in a packet. *)
Lemma parse_u32 s v : spells s v → u32_word v → parse_hex (U32_MOD - 1) s = Some v.
Proof. unfold u32_word. intros Hs Hv. apply parse_hex_spells; [done|lia]. Qed.
Lemma parse_u64 s v : spells s v → 0 ≤ v < U64_MOD → parse_hex (U64_MOD - 1) s = Some v.
Proof. intros Hs Hv. apply parse_hex_spells; [done|lia]. Qed.

Lemma write_registers_exec ws s c :
  length (regs c) = 16%nat → length ws = 16%nat → Forall u32_word ws → hex_text (words_bytes ws) s → write_registers s c = Ret (set_regs ws c).
Proof.
  intros Hc Hl Hws Hs. unfold write_registers. destruct (hex_text_chars _ _ Hs) as [-> _].
  assert (length (words_bytes ws) = (length ws * 4)%nat) as ->.
  { clear. induction ws as [|w ws IH]; [done|]. unfold words_bytes in *. cbn [mbind list_bind]. rewrite length_app, IH, le_bytes_length. simpl. lia. }
  rewrite Hc, Hl. simpl (_ =? _)%nat. cbn [rassert mbind outcome_bind]. rewrite <- Hl, parse_registers_ok by done. done.
Qed.

Lemma read_memory_exec a n s s' m :
  spells s a → u32_word a → spells s' n → u32_word n →
  read_memory (s ++ 44 :: s') m = Ret (answer_text (if accessible a n m then Data (byte_at m <$> addr_range a n) else Refused)).
Proof.
  intros Hs Ha Hs' Hn. unfold read_memory. rewrite split_once_spec by (eapply spells_without; [done|lia]). cbn [unwrap mbind outcome_bind].
  rewrite (parse_u32 s a), (parse_u32 s' n) by done. cbn [unwrap mbind outcome_bind]. unfold get_bytes_fallible, accessible.
  destruct (Z.ltb_spec a (null_segment_size m)), (Z.leb_spec (null_segment_size m) a); try lia; [done|]. by destruct (in_bounds a n).
Qed.

Lemma write_memory_exec a l s s' s'' c m :
  spells s a → u32_word a → spells s' (Z.of_nat (length l)) → Z.of_nat (length l) < U32_MOD → hex_text l s'' →
  write_memory (s ++ 44 :: s' ++ 58 :: s'') m = Ret (answer_text (exec (SetMem a l) (c, m)).1, (exec (SetMem a l) (c, m)).2.2).
Proof.
  intros Hs Ha Hs' Hn Hl. unfold write_memory. replace (s ++ 44 :: s' ++ 58 :: s'') with ((s ++ 44 :: s') ++ 58 :: s'') by (by rewrite <- app_assoc).
  rewrite split_once_spec; cycle 1.
  { intros [Hx|[Hx|Hx]%elem_of_cons]%elem_of_app; [|done|]; revert Hx; eapply spells_without; done || lia. }
  cbn [unwrap mbind outcome_bind]. rewrite split_once_spec by (eapply spells_without; [done|lia]). cbn [unwrap mbind outcome_bind].
  rewrite (parse_u32 s a), (parse_u32 s' (Z.of_nat (length l))) by (done || split; lia). cbn [unwrap mbind outcome_bind].
  destruct (hex_text_chars _ _ Hl) as [-> _]. rewrite (proj2 (Z.eqb_eq _ _)) by lia. cbn [rassert mbind outcome_bind].
  unfold get_bytes_fallible, get_bytes_fallible_mut_copy. cbn [exec]. unfold accessible.
  destruct (Z.ltb_spec a (null_segment_size m)), (Z.leb_spec (null_segment_size m) a); try lia; [done|]. cbn [andb].
  destruct (in_bounds a (Z.of_nat (length l))); [|done]. rewrite Nat2Z.id, parse_bytes_ok by done. done.
Qed.

Lemma read_register_exec n s c :
  length (regs c) = 16%nat → spells s n → 0 ≤ n < U64_MOD →
  read_register s c = Ret (if n <? 16 then Some (nth (Z.to_nat n) (regs c) 0) else if n =? 25 then Some (cpsr c) else None).
Proof.
  intros Hc Hs Hn. unfold read_register. rewrite (parse_u64 s n) by done. cbn [unwrap mbind outcome_bind]. destruct (Z.ltb_spec n 16).
  - destruct (lookup_lt_is_Some_2 (regs c) (Z.to_nat n)) as [r Hr]; [lia|]. by rewrite Hr, (nth_lookup_Some _ _ 0 r Hr).
  - by destruct (n =? 25).
Qed.

Lemma write_register_exec n w s s' c m :
  length (regs c) = 16%nat → spells s n → 0 ≤ n < U64_MOD → u32_word w → hex_text (le_bytes 4 w) s' →
  write_register (s ++ 61 :: s') c = Ret (answer_text (exec (SetReg n w) (c, m)).1, (exec (SetReg n w) (c, m)).2.1).
Proof.
  intros Hc Hs Hn Hw Hs'. unfold write_register. rewrite split_once_spec by (eapply spells_without; [done|lia]). cbn [unwrap mbind outcome_bind].
  rewrite (parse_u64 s n), (parse_hex_word w s') by done. cbn [unwrap mbind outcome_bind exec]. rewrite swap_bytes_involutive, Hc by done.
  change (Z.of_nat 16) with 16. destruct (n <? 16); [done|]. by destruct (n =? 25).
Qed.

Lemma handle_unsupported sr c s t : c ∉ ascii "?gGpPmMcsCSkq" → handle_packet sr (c :: s) t = Ret (Reply [], t).
Proof.
  intros Hc. destruct t as [cpu m]. unfold handle_packet.
  assert (∀ x, x ∈ ascii "?gGpPmMcsCSkq" → (c =? x) = false) as Hx by (intros x Hx; apply Z.eqb_neq; by intros ->).
  rewrite !Hx by (apply list_elem_of_In; simpl; tauto). cbn [orb]. unfold answer_query.
  assert (c ≠ 113) by (apply Z.eqb_neq, Hx, list_elem_of_In; simpl; tauto).
  assert (∀ l, strip_prefix (113 :: l) (c :: s) = None) as Hq by (intros l; cbn [strip_prefix]; by rewrite (proj2 (Z.eqb_neq 113 c)) by done).
  rewrite !(bool_decide_eq_false_2 (c :: s = _)) by (intros E; vm_compute in E; by simplify_eq).
  change (ascii "qSupported:") with (113 :: ascii "Supported:"). change (ascii "qXfer:features:read:") with (113 :: ascii "Xfer:features:read:").
  rewrite !Hq. by rewrite bool_decide_eq_false_2 by (by intros []).
Qed.

Lemma handle_cmd sr cmd p c m :
  length (regs c) = 16%nat → cmd_text sr cmd p →
  handle_packet sr p (c, m) = Ret (Reply (answer_text (exec cmd (c, m)).1), (exec cmd (c, m)).2).
Proof.
  intros Hc [ -> | |ws s Hl Hws Hs|n s Hs Hn|n w s s' Hs Hn Hw Hs'|a n s s' Hs Ha Hs' Hn|a l s s' s'' Hs Ha Hs' Hn Hl|x s Hx].
  - done.
  - simpl. unfold read_registers. by rewrite <- hex_words.
  - simpl. rewrite (write_registers_exec ws) by done. done.
  - change (handle_packet sr (ascii "p" ++ s) (c, m)) with (r ← read_register s c; Ret (Reply (match r with Some reg => hex_fixed 8 (swap_bytes reg) | None => ascii "E00" end), (c, m))).
    rewrite (read_register_exec n) by done. cbn [mbind outcome_bind exec fst snd]. destruct (n <? 16); [by rewrite hex_word|]. destruct (n =? 25); [by rewrite hex_word|done].
  - change (handle_packet sr (ascii "P" ++ s ++ ascii "=" ++ s') (c, m)) with ('(r, c) ← write_register (s ++ 61 :: s') c; Ret (Reply r, (c, m))).
    rewrite (write_register_exec n w s s' c m) by done. cbn [mbind outcome_bind exec]. destruct (n <? 16), (n =? 25); done.
  - change (handle_packet sr (ascii "m" ++ s ++ ascii "," ++ s') (c, m)) with (r ← read_memory (s ++ 44 :: s') m; Ret (Reply r, (c, m))).
    rewrite (read_memory_exec a n) by done. done.
  - change (handle_packet sr (ascii "M" ++ s ++ ascii "," ++ s' ++ ascii ":" ++ s'') (c, m)) with ('(r, m) ← write_memory (s ++ 44 :: s' ++ 58 :: s'') m; Ret (Reply r, (c, m))).
    rewrite (write_memory_exec a l s s' s'' c) by done. cbn [mbind outcome_bind exec]. by destruct (accessible _ _ _).
  - by apply handle_unsupported.
Qed.

(** ** Sessions *)

Inductive resume_text : bool → list Z → Prop :=
  | text_continue : resume_text false (ascii "c")
  | text_step : resume_text true (ascii "s")
  | text_continue_signal s : 59 ∉ s → resume_text false (ascii "C" ++ s)
  | text_step_signal s : 59 ∉ s → resume_text true (ascii "S" ++ s).

(** What the debugger sends: acknowledgments, commands, and the packet that resumes the program. *)
Inductive Item := IAck | ICmd (cmd : Cmd) (text : list Z) | IResume (step : bool) (text : list Z).
Definition item_ok (sr : option CpuError) (i : Item) : Prop :=
  match i with IAck => True | ICmd cmd text => cmd_text sr cmd text ∧ plain text | IResume step text => resume_text step text ∧ plain text end.
Definition wire (i : Item) : list Z := match i with IAck => [43] | ICmd _ text | IResume _ text => framed text end.

(** The specification: the commands one after the other, up to the one that resumes the
    program: whether it steps, the target then, what is sent, and the items that are left. *)
Fixpoint serve (items : list Item) (t : Target) : option bool * Target * list Z * list Item :=
  match items with
  | [] => (None, t, [], [])
  | IAck :: items => serve items t
  | ICmd cmd _ :: items =>
      let '(r, t', sent, rest) := serve items (exec cmd t).2 in
      (r, t', [43] ++ framed (answer_text (exec cmd t).1) ++ sent, rest)
  | IResume step _ :: items => (Some step, t, [43], items)
  end.

(** The reads of the socket: each gives some whole items, or times out. *)
Definition deliver (chunks : list (list Item)) : list Incoming :=
  (λ chunk, match chunk with [] => TimedOut | _ => Bytes (chunk ≫= wire) end) <$> chunks.
Definition incoming_bytes (l : list Incoming) : list Z := i ← l; match i with Bytes b => b | _ => [] end.

Lemma handle_resume sr step text t : resume_text step text → handle_packet sr text t = Ret (Resume step, t).
Proof.
  assert (∀ s, 59 ∉ s → split_once 59 s = None) as Hs.
  { induction s as [|x s IH]; intros Hx; [done|]. simpl. rewrite (proj2 (Z.eqb_neq x 59)) by set_solver. rewrite IH by set_solver. done. }
  destruct t as [c m]. intros [| |s Hn|s Hn]; [done|done|..]; simpl; by rewrite Hs.
Qed.

Lemma exec_registers sr cmd text c m : cmd_text sr cmd text → length (regs c) = 16%nat → length (regs (exec cmd (c, m)).2.1) = 16%nat.
Proof.
  intros H Hc. destruct H; simpl; try done.
  - destruct (n <? 16); simpl; [by rewrite length_insert|]. by destruct (n =? 25).
  - by destruct (accessible _ _ _).
Qed.

Lemma cmd_text_cons sr cmd text : cmd_text sr cmd text → text ≠ [].
Proof. by intros []. Qed.

(** One item at the front of the buffer. *)
Lemma wait_item sr i items fuel c m inc sent fh :
  item_ok sr i → length (regs c) = 16%nat →
  wait_loop (S fuel) sr (c, m) (mkGdb (wire i ++ items) inc sent fh) =
    match i with
    | IAck => wait_loop fuel sr (c, m) (mkGdb items inc sent fh)
    | ICmd cmd _ => wait_loop fuel sr (exec cmd (c, m)).2 (mkGdb items inc (sent ++ [43] ++ framed (answer_text (exec cmd (c, m)).1)) fh)
    | IResume step _ => Ret (Some step, (c, m), mkGdb items inc (sent ++ [43]) fh)
    end.
Proof.
  intros Hi Hc. destruct i as [|cmd text|step text]; cbn [wait_loop wire]; [done|..]; destruct Hi as [Ht Hp];
    rewrite read_frame by done; cbn [mbind outcome_bind].
  - pose proof (cmd_text_cons _ _ _ Ht). destruct text as [|x text]; [done|]. rewrite (handle_cmd sr cmd) by done. cbn [mbind outcome_bind].
    unfold send_packet, gdb_write. cbn [gdb_buffer gdb_incoming gdb_sent first_halt]. by rewrite <- app_assoc.
  - rewrite (handle_resume sr step) by done. cbn [mbind outcome_bind]. by destruct Ht.
Qed.

(** A read fills an empty buffer. *)
Lemma wait_fill fuel sr t b inc sent fh :
  b ≠ [] → wait_loop (S fuel) sr t (mkGdb [] (Bytes b :: inc) sent fh) = wait_loop (S fuel) sr t (mkGdb b inc sent fh).
Proof. intros Hb. by destruct b. Qed.
Lemma wait_timeout fuel sr t inc sent fh : wait_loop (S fuel) sr t (mkGdb [] (TimedOut :: inc) sent fh) = wait_loop fuel sr t (mkGdb [] inc sent fh).
Proof. done. Qed.
Lemma wait_idle fuel sr t sent fh : wait_loop fuel sr t (mkGdb [] [] sent fh) = Ret (None, t, mkGdb [] [] sent fh).
Proof. induction fuel as [|fuel IH]; [done|]. exact IH. Qed.

Lemma wire_nonempty i items : wire i ++ items ≠ [].
Proof. by destruct i. Qed.

(** What the loop has done is what [serve] says. *)
Definition served (pending : list Item) (chunks : list (list Item)) (fuel : nat) (sr : option CpuError) (t : Target) (sent : list Z) (fh : bool) : Prop :=
  let '(r, t', out, rest) := serve (pending ++ concat chunks) t in
  ∃ buffer inc, wait_loop fuel sr t (mkGdb (pending ≫= wire) (deliver chunks) sent fh) = Ret (r, t', mkGdb buffer inc (sent ++ out) fh) ∧
    buffer ++ incoming_bytes inc = rest ≫= wire.

Lemma incoming_deliver chunks : incoming_bytes (deliver chunks) = concat chunks ≫= wire.
Proof.
  induction chunks as [|[|i chunk] chunks IH]; [done|done|]. unfold incoming_bytes, deliver in *. cbn [fmap list_fmap concat].
  cbn [mbind list_bind] in *. rewrite IH. symmetry. apply (bind_app wire (i :: chunk)).
Qed.

Lemma serve_item i pending chunks fuel sr c m sent fh :
  item_ok sr i → length (regs c) = 16%nat →
  (∀ c' m' sent', length (regs c') = 16%nat → served pending chunks fuel sr (c', m') sent' fh) →
  served (i :: pending) chunks (S fuel) sr (c, m) sent fh.
Proof.
  intros Hi Hc IH. unfold served. cbn [mbind list_bind app]. rewrite wait_item by done. destruct i as [|cmd text|step text]; cbn [serve].
  - apply (IH c m sent Hc).
  - pose proof (exec_registers sr cmd text c m (proj1 Hi) Hc) as Hc'. destruct (exec cmd (c, m)) as [a [c' m']]. simpl in Hc'. cbn [fst snd].
    specialize (IH c' m' (sent ++ [43] ++ framed (answer_text a)) Hc'). unfold served in IH.
    destruct (serve (pending ++ concat chunks) (c', m')) as [[[r t'] out] rest]. destruct IH as (b & inc & -> & E).
    exists b, inc. split; [|done]. by rewrite <- !app_assoc.
  - exists (pending ≫= wire), (deliver chunks). split; [done|]. by rewrite incoming_deliver, bind_app.
Qed.

Lemma wait_loop_serves sr chunks pending fuel c m sent fh :
  length (regs c) = 16%nat → Forall (item_ok sr) (pending ++ concat chunks) →
  (length (pending ++ concat chunks) + length chunks ≤ fuel)%nat → served pending chunks fuel sr (c, m) sent fh.
Proof.
  revert pending fuel c m sent. induction chunks as [|chunk chunks IH].
  - intros pending. induction pending as [|i pending IHp]; intros fuel c m sent Hc Hok Hf.
    + exists [], []. by rewrite wait_idle, app_nil_r.
    + destruct fuel as [|fuel]; [simpl in Hf; lia|]. inversion_clear Hok. apply serve_item; [done|done|]. intros. apply IHp; [done|done|simpl in *; lia].
  - intros pending. induction pending as [|i pending IHp]; intros fuel c m sent Hc Hok Hf; (destruct fuel as [|fuel]; [simpl in Hf; lia|]).
    + destruct chunk as [|i chunk].
      * specialize (IH [] fuel c m sent Hc Hok). unfold served in *. cbn [concat app deliver fmap list_fmap mbind list_bind] in *. rewrite wait_timeout.
        apply IH. simpl in *. lia.
      * assert (served (i :: chunk) chunks (S fuel) sr (c, m) sent fh) as H.
        { apply IH; [done|done|]. revert Hf. cbn [app concat length]. lia. }
        unfold served in *. cbn [app concat] in *. cbn [deliver fmap list_fmap]. rewrite wait_fill by apply wire_nonempty. exact H.
    + inversion_clear Hok. apply serve_item; [done|done|]. intros. apply IHp; [done|done|]. revert Hf. cbn [app length]. lia.
Qed.

(** What tells the debugger why the program stopped. *)
Definition stop_text (sr : option CpuError) (first : bool) : list Z :=
  match sr with
  | None => if first then [] else framed (ascii "S05")
  | Some MemoryError => framed (ascii "S0b")
  | Some _ => framed (ascii "S05")
  end.

Lemma stop_reply_sent sr b inc sent fh :
  stop_reply sr (mkGdb b inc sent fh) = mkGdb b inc (sent ++ stop_text sr fh) (match sr with None => false | Some _ => fh end).
Proof. destruct sr as [[]|], fh; try done. simpl. by rewrite app_nil_r. Qed.

(** Concrete texts are checked by evaluation. *)
Lemma plain_check body : forallb (λ c, (0 <=? c) && (c <? 128) && negb (c =? 35)) body = true → plain body.
Proof. rewrite forallb_forall. intros H. apply Forall_forall. intros x Hx%list_elem_of_In%H. lia. Qed.
Lemma spells_check s v : match s with [] => false | _ => true end && forallb hex_char s && (digits_value 16 s =? v) = true → spells s v.
Proof.
  intros [[Hne Hs]%andb_prop Hv%Z.eqb_eq]%andb_prop. split_and!; [by destruct s| |done]. rewrite forallb_forall in Hs.
  apply Forall_forall. intros x Hx%list_elem_of_In. by apply Hs.
Qed.
Ltac hex_check := repeat first [apply hex_text_nil | apply hex_text_cons]; apply spells_check; reflexivity.

(** C20: when the debugger's packets arrive whole, several in one read or after timeouts,
    the server does what an abstract target does with the same commands: the registers
    and the memory afterwards, every byte sent (the reason of the stop, then an
    acknowledgment and a reply with the checksum for each command) and the answer to
    "step or continue" are those of [serve]; what arrived after the packet that resumes
    the program is still there for the next stop. One iteration for each item and each
    read is enough. *)
Theorem gdb_session_refines sr chunks pending fuel c m sent fh :
  length (regs c) = 16%nat → Forall (item_ok sr) (pending ++ concat chunks) →
  (length (pending ++ concat chunks) + length chunks ≤ fuel)%nat →
  let '(r, t, out, rest) := serve (pending ++ concat chunks) (c, m) in
  ∃ buffer inc fh',
    wait_for_debugger fuel sr (c, m) (mkGdb (pending ≫= wire) (deliver chunks) sent fh) =
      Ret (r, t, mkGdb buffer inc (sent ++ stop_text sr fh ++ out) fh') ∧
    buffer ++ incoming_bytes inc = rest ≫= wire.
Proof.
  intros Hc Hok Hf. unfold wait_for_debugger. rewrite stop_reply_sent.
  pose proof (wait_loop_serves sr chunks pending fuel c m (sent ++ stop_text sr fh) (match sr with None => false | Some _ => fh end) Hc Hok Hf) as H.
  unfold served in H. destruct (serve _ _) as [[[r t] out] rest]. destruct H as (b & inc & -> & E). exists b, inc. eexists. split; [|done].
  by rewrite <- app_assoc.
Qed.

Lemma gdb_session_refines_witness :
  let m := empty_mem in
  let chunks := [[ICmd (SetReg 15 32768) (ascii "Pf=00800000")]; []; [IAck; ICmd (SetMem 8192 [190; 0]) (ascii "M2000,2:bE00"); ICmd (GetMem 8191 3) (ascii "m1fff,3"); IResume true (ascii "s"); IAck]] in
  let '(r, t, out, rest) := serve (concat chunks) (CpuContext_new, m) in
  (∃ buffer inc fh', wait_for_debugger 20 None (CpuContext_new, m) (mkGdb [] (deliver chunks) [] false) =
    Ret (r, t, mkGdb buffer inc (framed (ascii "S05") ++ out) fh') ∧ buffer ++ incoming_bytes inc = rest ≫= wire) ∧
  r = Some true ∧ rest = [IAck] ∧ regs t.1 !! 15%nat = Some 32768 ∧ byte_at t.2 8192 = 190 ∧
  out = ascii "+$OK#9a+$OK#9a+$00be00#87+".
Proof.
  cbv zeta. set (chunks := [_; _; _]).
  pose proof (gdb_session_refines None chunks [] 20 CpuContext_new empty_mem [] false) as H.
  assert (Forall (item_ok None) ([] ++ concat chunks)) as Hok.
  { unfold chunks. cbn [concat app].
    repeat first [apply List.Forall_nil | apply List.Forall_cons; [first [exact I | (split; [|apply plain_check; reflexivity])]|]].
    - apply (text_set_reg None 15 32768 (ascii "f") (ascii "00800000")); [hex_check|done|done|hex_check].
    - apply (text_set_mem None 8192 [190; 0] (ascii "2000") (ascii "2") (ascii "bE00")); [hex_check|done|hex_check|done|hex_check].
    - apply (text_get_mem None 8191 3 (ascii "1fff") (ascii "3")); [hex_check|done|hex_check|done].
    - apply text_step. }
  specialize (H eq_refl Hok ltac:(vm_compute; lia)). change ([] ++ concat chunks) with (concat chunks) in H.
  destruct (serve (concat chunks) (CpuContext_new, empty_mem)) as [[[r t] out] rest] eqn:E. split; [exact H|].
  vm_compute in E. injection E as <- <- <- <-. by vm_compute.
Defined.

(** *** A packet in two pieces *)

Lemma position_none c l : c ∉ l → byte_position c l = None.
Proof. induction l as [|x l IH]; intros Hc; [done|]. simpl. rewrite (proj2 (Z.eqb_neq x c)) by set_solver. by rewrite IH by set_solver. Qed.

(** The beginning of a packet, when it fits into the buffer, stays there as it is. *)
Lemma read_partial body k inc sent fh :
  plain body → (0 < k < length (framed body))%nat → Z.of_nat (length (framed body)) ≤ CAPACITY →
  read_packet (mkGdb (take k (framed body)) inc sent fh) = Ret (None, mkGdb (take k (framed body)) inc sent fh).
Proof.
  intros Hp Hk Hcap. pose proof (plain_end body Hp) as H35. set (cs := hex_fixed 2 (checksum body)). assert (length cs = 2%nat) as Hcs by apply hex_fixed_length.
  assert (framed body = 36 :: body ++ 35 :: cs) as Hf by done. assert (length (framed body) = length body + 4)%nat as Hl.
  { rewrite Hf. simpl. rewrite length_app. simpl. lia. }
  destruct k as [|k]; [lia|]. rewrite Hf. rewrite firstn_cons. unfold read_packet. cbn [fill_buf gdb_buffer mbind outcome_bind].
  change (36 =? 43) with false. change (36 =? 36) with true. cbn [rassert mbind outcome_bind]. destruct (decide (k ≤ length body)%nat).
  - rewrite take_app_le by done. rewrite position_none.
    2: { intros [?|Hx]%elem_of_cons; [done|]. apply H35. by apply elem_of_take in Hx as (? & Hx%list_elem_of_lookup_2 & _). }
    rewrite (proj2 (Z.eqb_neq _ _)); [done|]. cbn [length]. rewrite length_take. lia.
  - rewrite take_app_ge by lia. destruct (k - length body)%nat as [|j] eqn:Ej; [lia|]. rewrite firstn_cons.
    change (36 :: body ++ 35 :: take j cs) with ((36 :: body) ++ 35 :: take j cs). rewrite position_spec.
    2: { by intros [?|Hx]%elem_of_cons. }
    rewrite drop_app_add' by done. cbn [drop]. rewrite drop_0, take_take, length_take, Hcs.
    rewrite (proj2 (Nat.eqb_neq _ 2)) by lia. done.
Qed.

(** A packet that arrives in two pieces is never read: as long as there is something in
    its buffer, [BufReader::fill_buf] does not read, so that the loop goes round without
    ever seeing the second piece, whatever arrives. *)
Theorem split_packet_hangs fuel sr t body k inc sent fh :
  plain body → (0 < k < length (framed body))%nat → Z.of_nat (length (framed body)) ≤ CAPACITY →
  wait_loop fuel sr t (mkGdb (take k (framed body)) inc sent fh) = Ret (None, t, mkGdb (take k (framed body)) inc sent fh).
Proof. intros Hp Hk Hcap. induction fuel as [|fuel IH]; [done|]. cbn [wait_loop]. rewrite read_partial by done. exact IH. Qed.
