(* ===== verification/MachO.v ===== *)
(** * The loader of Mach-O files ([mach_o.rs])

    What [MachO::load_from_bytes] does with a file that the [mach_object] crate has taken
    apart: it puts the segments into guest memory, applies the relocations that need no
    other binary, and collects the symbols, sections and relocations that the dynamic linker
    uses.  The crate is a group of parameters: [OFile_parse] gives the header and the load
    commands, [SymbolIter] the symbols that start at a position of the file, [Rebase_parse]
    and [Bind_parse] the operations of the compressed tables. *)

From S2P Require Import Prelude ChunkMap SizeBucketed VMAllocator HeapAllocator GuestMem Env Fs Abi.

(** ** What the crate gives *)

Record ParsedSection := mkParsedSection {
  ps_sectname : list Z;
  ps_addr : Z;
  ps_size : Z;
  ps_type : Z;
  ps_reserved1 : Z;
  ps_reserved2 : Z
}.

Inductive Symbol :=
| Symbol_Undefined (name : option (list Z))
| Symbol_Prebound (name : option (list Z))
| Symbol_Defined (name : option (list Z)) (entry desc : Z)
| Symbol_Debug
| Symbol_Other.

(** An operation of the rebase or of the bind table. *)
Record BindSymbol := mkBindSymbol {
  bind_is_pointer : bool;
  bind_segment_index : nat;
  bind_symbol_offset : Z;
  bind_name : list Z
}.

Inductive LoadCommand :=
| Segment (segname : list Z) (vmaddr vmsize fileoff filesize initprot : Z) (sections : list ParsedSection)
| SymTab (symoff nsyms stroff strsize : Z)
| DySymTab (indirectsymoff nindirectsyms extreloff nextrel : Z)
| EncryptionInfo (id : Z)
| LoadDyLib (name : list Z)
| UnixThread (zeroed : bool) (pc : Z)  (** all registers but the program counter are zero *)
| EntryPoint (entryoff stacksize : Z)
| DyldInfo (rebase_off rebase_size bind_off bind_size : Z)
| OtherCommand.

Record MachHeader := mkHeader { cputype : Z; cpusubtype : Z; hdr_is_bigend : bool; hdr_is_64bit : bool; hdr_split_segs : bool }.
Record FatArch := mkFatArch { fat_cputype : Z; fat_cpusubtype : Z; fat_offset : Z; fat_size : Z }.
Inductive OFile := MachFile (header : MachHeader) (commands : list LoadCommand) | FatFile (files : list FatArch) | ArFile | SymDef.

Definition CPU_TYPE_ARM : Z := 12.
Definition CPU_SUBTYPE_ARM_V6 : Z := 6.
Definition CPU_SUBTYPE_ARM_V7 : Z := 9.
Definition N_ARM_THUMB_DEF : Z := 8.
Definition S_NON_LAZY_SYMBOL_POINTERS : Z := 6.
Definition S_LAZY_SYMBOL_POINTERS : Z := 7.
Definition S_SYMBOL_STUBS : Z := 8.
Definition S_MOD_INIT_FUNC_POINTERS : Z := 9.

(** ** What the loader keeps *)

Definition VM_PROT_READ : Z := 1.
Definition VM_PROT_WRITE : Z := 2.

Inductive SectionType := Normal | SymbolStubs | LazySymbolPointers | NonLazySymbolPointers | ModInitFuncPointers.
#[global] Instance SectionType_eq_dec : EqDecision SectionType.
Proof. solve_decision. Defined.

Record DyldIndirectSymbolInfo := mkIndirectInfo { entry_size : Z; info_symbols : list (option (list Z)) }.
Record MachSection := mkSection {
  sec_name : list Z;
  sec_addr : Z;
  sec_size : Z;
  sec_type : SectionType;
  dyld_indirect_symbol_info : option DyldIndirectSymbolInfo
}.
Definition next_section_addr (s : MachSection) : outcome Z := u32 (sec_addr s + sec_size s).

Record MachO := mkMachO {
  bin_name : list Z;
  dynamic_libraries : list (list Z);
  sections : list MachSection;
  exported_symbols : gmap (list Z) Z;
  external_relocations : list (Z * list Z);
  entry_point_pc : option Z;
  last_segment_end : Z
}.

(** [get_section], by type and by name. *)
Definition get_section_by_type (type : SectionType) (b : MachO) : option MachSection :=
  head (filter (λ s, sec_type s = type) (sections b)).
Definition get_section_by_name (n : list Z) (b : MachO) : option MachSection :=
  head (filter (λ s, sec_name s = n) (sections b)).

(** ** Relocation entries *)

Inductive Reloc :=
| Reloc_External (addr sym_idx : Z) (is_pc_relative : bool) (size type_ : Z)
| Reloc_Local (addr section_idx : Z) (is_pc_relative : bool) (size type_ : Z)
| Reloc_Scattered (offset value : Z) (is_pc_relative : bool) (size type_ : Z).

Definition Reloc_parse (entry : list Z) : Reloc :=
  let word1 := from_le_bytes (take 4 entry) in
  let word2 := from_le_bytes (take 4 (drop 4 entry)) in
  if negb (Z.land word1 2147483648 =? 0) then
    let bitfield := word1 in
    let value := word2 in
    let offset := Z.land bitfield 16777215 in
    let type_ := Z.land (Z.shiftr bitfield 24) 15 in
    let size := Z.shiftl 1 (Z.land (Z.shiftr bitfield 28) 3) in
    let is_pc_relative := Z.land (Z.shiftr bitfield 30) 1 =? 1 in
    Reloc_Scattered offset value is_pc_relative size type_
  else
    let addr := word1 in
    let bitfield := word2 in
    let sym_or_section_idx := Z.land bitfield 16777215 in
    let is_pc_relative := Z.land (Z.shiftr bitfield 24) 1 =? 1 in
    let size := Z.shiftl 1 (Z.land (Z.shiftr bitfield 25) 3) in
    let is_external := Z.land (Z.shiftr bitfield 27) 1 in
    let type_ := Z.land (Z.shiftr bitfield 28) 15 in
    if is_external =? 1 then Reloc_External addr sym_or_section_idx is_pc_relative size type_
    else Reloc_Local addr sym_or_section_idx is_pc_relative size type_.

(** ** Slices *)

(** [&l[off..][..n]]. *)
Definition slice (off n : Z) (l : list Z) : outcome (list Z) :=
  rassert (off + n <=? Z.of_nat (length l));;
  Ret (take (Z.to_nat n) (drop (Z.to_nat off) l)).

(** [chunks(k)] of a slice of [n] chunks. *)
Fixpoint chunks_of (k n : nat) (l : list Z) : list (list Z) :=
  match n with O => [] | S n => take k l :: chunks_of k n (drop k l) end.

(** [cpu_subtype_to_str]: the subtypes it has a name for. *)
Definition known_subtypes : list Z := [0; 5; 6; 7; 8; 9; 10; 11; 12; 13].
Definition cpu_subtype_to_str (ty : Z) : outcome unit := rassert (bool_decide (ty ∈ known_subtypes)).

(** ** Loading *)

Section loader.
Context (OFile_parse : list Z → option OFile).
Context (SymbolIter : list Z → Z → list ParsedSection → Z → Z → Z → list Symbol).
Context (Rebase_parse Bind_parse : list Z → list BindSymbol).

Definition get_sym_by_idx (bytes : list Z) (idx : Z) (info : Z * Z * Z * Z) : outcome (option Symbol) :=
  let '(symoff, nsyms, stroff, strsize) := info in
  if nsyms <=? idx then Ret None
  else
    off ← u32 (idx * 12);
    symoff ← u32 (symoff + off);
    Ret (head (SymbolIter bytes symoff [] 1 stroff strsize)).

(** The variables of the loop over the load commands. *)
Record LoadState := mkLoad {
  l_first_segment_base : option Z;
  l_first_read_write_segment_base : option Z;
  l_text_segment_base : option Z;
  l_all_sections : list ParsedSection;
  l_sym_tab_info : option (Z * Z * Z * Z);
  l_segment_offsets : list Z;
  l_last_segment_end : Z;
  l_dynamic_libraries : list (list Z);
  l_exported_symbols : gmap (list Z) Z;
  l_indirect_undef_symbols : list (option (list Z));
  l_external_relocations : list (Z * list Z);
  l_entry_point_pc : option Z
}.
Definition LoadState_new : LoadState := mkLoad None None None [] None [] 0 [] ∅ [] [] None.

(** Segments that are put into memory. *)
Definition seg_name (s : string) : list Z := bytes_of s.

(** Whether the segment is loaded, with what its name does. *)
Definition segment_load_me (segname : list Z) (vmaddr vmsize filesize slide : Z) (text_segment_base : option Z) (m : Mem)
    : outcome (bool * option Z * Mem) :=
  if bool_decide (segname = seg_name "__LINKEDIT") then Ret (false, text_segment_base, m)
  else if bool_decide (segname = seg_name "__PAGEZERO") then
    rassert (vmaddr =? 0);;
    rassert (filesize =? 0);;
    m ← set_null_segment_size vmsize m;
    Ret (false, text_segment_base, m)
  else if bool_decide (segname = seg_name "__TEXT") then
    rassert (bool_decide (text_segment_base = None));;
    base ← u32 (vmaddr + slide);
    Ret (true, Some base, m)
  else Ret (true, text_segment_base, m).

Definition load_segment (bytes : list Z) (slide : Z) (segname : list Z) (vmaddr vmsize fileoff filesize initprot : Z)
    (secs : list ParsedSection) (s : LoadState) (m : Mem) : outcome (LoadState * Mem) :=
  vmaddr ← u32 vmaddr;
  vmsize ← u32 vmsize;
  filesize ← u32 filesize;
  first ← match l_first_segment_base s with None => b ← u32 (vmaddr + slide); Ret (Some b) | b => Ret b end;
  first_rw ←
    match l_first_read_write_segment_base s with
    | None =>
        if negb (Z.land initprot VM_PROT_READ =? 0) && negb (Z.land initprot VM_PROT_WRITE =? 0)
        then b ← u32 (vmaddr + slide); Ret (Some b) else Ret None
    | b => Ret b
    end;
  '(load_me, text, m) ← segment_load_me segname vmaddr vmsize filesize slide (l_text_segment_base s) m;
  m ←
    (if load_me : bool then
       base ← u32 (vmaddr + slide);
       m ← reserve base vmsize m;
       if 0 <? filesize then
         rassert (filesize <=? vmsize);;
         src ← slice fileoff filesize bytes;
         bytes_at_mut_copy base filesize src m
       else Ret m
     else Ret m);
  e ← u32 (vmaddr + vmsize);
  e ← u32 (e + slide);
  Ret (mkLoad first first_rw text (l_all_sections s ++ secs) (l_sym_tab_info s) (l_segment_offsets s ++ [vmaddr]) (Z.max (l_last_segment_end s) e)
         (l_dynamic_libraries s) (l_exported_symbols s) (l_indirect_undef_symbols s) (l_external_relocations s) (l_entry_point_pc s), m).

(** The symbols a binary defines: an address, with the Thumb bit where it belongs. *)
Definition symbol_address (entry desc : Z) : Z :=
  if negb (Z.land desc N_ARM_THUMB_DEF =? 0) then Z.lor entry THUMB_BIT else entry.
Definition export_symbol (slide : Z) (symbol : Symbol) (exported : gmap (list Z) Z) : outcome (gmap (list Z) Z) :=
  match symbol with
  | Symbol_Defined (Some name) entry desc =>
      entry ← u32 entry;
      addr ← u32 (slide + symbol_address entry desc);
      Ret (<[name := addr]> exported)
  | _ => Ret exported
  end.
Definition load_symtab (bytes : list Z) (slide symoff nsyms stroff strsize : Z) (s : LoadState) : outcome LoadState :=
  exported ← for_each (export_symbol slide) (SymbolIter bytes symoff (l_all_sections s) nsyms stroff strsize) (l_exported_symbols s);
  Ret (mkLoad (l_first_segment_base s) (l_first_read_write_segment_base s) (l_text_segment_base s) (l_all_sections s)
         (Some (symoff, nsyms, stroff, strsize)) (l_segment_offsets s) (l_last_segment_end s)
         (l_dynamic_libraries s) exported (l_indirect_undef_symbols s) (l_external_relocations s) (l_entry_point_pc s)).

(** One entry of the indirect symbol table. *)
Definition indirect_symbol (bytes : list Z) (info : option (Z * Z * Z * Z)) (idx : list Z) : outcome (option (list Z)) :=
  info ← unwrap info;
  sym ← get_sym_by_idx bytes (from_le_bytes idx) info;
  match sym with
  | Some (Symbol_Undefined (Some n)) | Some (Symbol_Prebound (Some n)) | Some (Symbol_Defined (Some n) _ _) => Ret (Some n)
  | None => Ret None
  | _ => Panic
  end.
Definition load_indirect_symbol (bytes : list Z) (info : option (Z * Z * Z * Z)) (idx : list Z) (l : list (option (list Z))) : outcome (list (option (list Z))) :=
  n ← indirect_symbol bytes info idx; Ret (l ++ [n]).

(** One external relocation. *)
Definition external_relocation (bytes : list Z) (split_segs : bool) (slide : Z) (s : LoadState) (entry : list Z) (x : list (Z * list Z) * Mem)
    : outcome (list (Z * list Z) * Mem) :=
  let '(rels, m) := x in
  match Reloc_parse entry with
  | Reloc_External addr sym_idx false 4 0 =>
      base ← unwrap (if split_segs then l_first_read_write_segment_base s else l_first_segment_base s);
      addr ← u32 (addr + base);
      info ← unwrap (l_sym_tab_info s);
      sym ← get_sym_by_idx bytes sym_idx info;
      rassert (slide =? 0);;
      match sym with
      | Some (Symbol_Undefined (Some n)) => Ret (rels ++ [(addr, n)], m)
      | Some (Symbol_Defined _ entry desc) =>
          addend ← read_u32 addr m;
          m ← write_u32 addr ((symbol_address (entry mod U32_MOD) desc + addend) mod U32_MOD) m;
          Ret (rels, m)
      | Some (Symbol_Prebound (Some n)) => m ← write_u32 addr 0 m; Ret (rels ++ [(addr, n)], m)
      | _ => Panic
      end
  | _ => Panic
  end.
Definition load_dysymtab (bytes : list Z) (split_segs : bool) (slide indirectsymoff nindirectsyms extreloff nextrel : Z) (s : LoadState) (m : Mem)
    : outcome (LoadState * Mem) :=
  indirectsyms ← slice indirectsymoff (nindirectsyms * 4) bytes;
  indirect ← for_each (load_indirect_symbol bytes (l_sym_tab_info s)) (chunks_of 4 (Z.to_nat nindirectsyms) indirectsyms) (l_indirect_undef_symbols s);
  extrels ← slice extreloff (nextrel * 8) bytes;
  '(rels, m) ← for_each (external_relocation bytes split_segs slide s) (chunks_of 8 (Z.to_nat nextrel) extrels) (l_external_relocations s, m);
  Ret (mkLoad (l_first_segment_base s) (l_first_read_write_segment_base s) (l_text_segment_base s) (l_all_sections s)
         (l_sym_tab_info s) (l_segment_offsets s) (l_last_segment_end s)
         (l_dynamic_libraries s) (l_exported_symbols s) indirect rels (l_entry_point_pc s), m).

(** The address an operation of the compressed tables is about. *)
Definition bind_address (slide : Z) (segment_offsets : list Z) (symb : BindSymbol) : outcome Z :=
  base ← unwrap (segment_offsets !! bind_segment_index symb);
  a ← u32 (base + bind_symbol_offset symb mod U32_MOD);
  u32 (a + slide).
Definition rebase_pointer (slide : Z) (segment_offsets : list Z) (symb : BindSymbol) (m : Mem) : outcome Mem :=
  rassert (bind_is_pointer symb);;
  addr ← bind_address slide segment_offsets symb;
  old ← read_u32 addr m;
  new ← u32 (old + slide);
  write_u32 addr new m.
Definition bind_pointer (slide : Z) (segment_offsets : list Z) (symb : BindSymbol) (l : list (Z * list Z)) : outcome (list (Z * list Z)) :=
  rassert (bind_is_pointer symb);;
  addr ← bind_address slide segment_offsets symb;
  Ret (l ++ [(addr, bind_name symb)]).
Definition load_dyld_info (bytes : list Z) (slide rebase_off rebase_size bind_off bind_size : Z) (s : LoadState) (m : Mem) : outcome (LoadState * Mem) :=
  rebase ← slice rebase_off rebase_size bytes;
  m ← for_each (rebase_pointer slide (l_segment_offsets s)) (Rebase_parse rebase) m;
  bind ← slice bind_off bind_size bytes;
  rels ← for_each (bind_pointer slide (l_segment_offsets s)) (Bind_parse bind) (l_external_relocations s);
  Ret (mkLoad (l_first_segment_base s) (l_first_read_write_segment_base s) (l_text_segment_base s) (l_all_sections s)
         (l_sym_tab_info s) (l_segment_offsets s) (l_last_segment_end s)
         (l_dynamic_libraries s) (l_exported_symbols s) (l_indirect_undef_symbols s) rels (l_entry_point_pc s), m).

Definition set_entry_point (pc : Z) (s : LoadState) : outcome LoadState :=
  rassert (bool_decide (l_entry_point_pc s = None));;
  Ret (mkLoad (l_first_segment_base s) (l_first_read_write_segment_base s) (l_text_segment_base s) (l_all_sections s)
         (l_sym_tab_info s) (l_segment_offsets s) (l_last_segment_end s)
         (l_dynamic_libraries s) (l_exported_symbols s) (l_indirect_undef_symbols s) (l_external_relocations s) (Some pc)).
Definition add_dylib (name : list Z) (s : LoadState) : LoadState :=
  mkLoad (l_first_segment_base s) (l_first_read_write_segment_base s) (l_text_segment_base s) (l_all_sections s)
    (l_sym_tab_info s) (l_segment_offsets s) (l_last_segment_end s)
    (l_dynamic_libraries s ++ [name]) (l_exported_symbols s) (l_indirect_undef_symbols s) (l_external_relocations s) (l_entry_point_pc s).

(** Why a file is refused. *)
Inductive LoadError := CouldNotParse | NoSupportedArchitecture | NotAnExecutable | NotForArm | NotLittleEndian | Not32Bit | Encrypted | CouldNotRead.

Definition load_command (bytes : list Z) (split_segs : bool) (slide : Z) (command : LoadCommand) (s : LoadState) (m : Mem)
    : outcome (result (LoadState * Mem) LoadError) :=
  match command with
  | Segment segname vmaddr vmsize fileoff filesize initprot secs =>
      x ← load_segment bytes slide segname vmaddr vmsize fileoff filesize initprot secs s m; Ret (Ok x)
  | SymTab symoff nsyms stroff strsize => s ← load_symtab bytes slide symoff nsyms stroff strsize s; Ret (Ok (s, m))
  | DySymTab indirectsymoff nindirectsyms extreloff nextrel =>
      x ← load_dysymtab bytes split_segs slide indirectsymoff nindirectsyms extreloff nextrel s m; Ret (Ok x)
  | EncryptionInfo id => if negb (id =? 0) then Ret (Err Encrypted) else Ret (Ok (s, m))
  | LoadDyLib name => Ret (Ok (add_dylib name s, m))
  | UnixThread zeroed pc => rassert zeroed;; s ← set_entry_point pc s; Ret (Ok (s, m))
  | EntryPoint entryoff stacksize =>
      rassert (bool_decide (l_entry_point_pc s = None));;
      entryoff ← u32 entryoff;
      base ← unwrap (l_text_segment_base s);
      pc ← u32 (base + entryoff);
      s ← set_entry_point pc s;
      Ret (Ok (s, m))
  | DyldInfo rebase_off rebase_size bind_off bind_size =>
      x ← load_dyld_info bytes slide rebase_off rebase_size bind_off bind_size s m; Ret (Ok x)
  | OtherCommand => Ret (Ok (s, m))
  end.

Fixpoint load_commands (bytes : list Z) (split_segs : bool) (slide : Z) (commands : list LoadCommand) (s : LoadState) (m : Mem)
    : outcome (result (LoadState * Mem) LoadError) :=
  match commands with
  | [] => Ret (Ok (s, m))
  | c :: commands =>
      r ← load_command bytes split_segs slide c s m;
      match r with Ok (s, m) => load_commands bytes split_segs slide commands s m | Err e => Ret (Err e) end
  end.

(** The sections for the dynamic linker; each takes its symbols out of the indirect table. *)
Definition section_type (type_ reserved2 : Z) : SectionType * option Z :=
  if type_ =? S_MOD_INIT_FUNC_POINTERS then (ModInitFuncPointers, None)
  else if type_ =? S_SYMBOL_STUBS then (SymbolStubs, Some reserved2)
  else if type_ =? S_LAZY_SYMBOL_POINTERS then (LazySymbolPointers, Some 4)
  else if type_ =? S_NON_LAZY_SYMBOL_POINTERS then (NonLazySymbolPointers, Some 4)
  else (Normal, None).

Definition take_symbols (start count : Z) (l : list (option (list Z))) : outcome (list (option (list Z)) * list (option (list Z))) :=
  rassert (start + count <=? Z.of_nat (length l));;
  let a := Z.to_nat start in
  let n := Z.to_nat count in
  Ret (take n (drop a l), take a l ++ replicate n None ++ drop (a + n) l).

Definition finish_section (slide : Z) (p : ParsedSection) (x : list MachSection * list (option (list Z)))
    : outcome (list MachSection * list (option (list Z))) :=
  let '(done, indirect) := x in
  a ← u32 (ps_addr p);
  addr ← u32 (a + slide);
  size ← u32 (ps_size p);
  let '(type_, dyld_entry_size) := section_type (ps_type p) (ps_reserved2 p) in
  '(info, indirect) ←
    match dyld_entry_size with
    | None => Ret (None, indirect)
    | Some entry_size =>
        rassert (negb (entry_size =? 0));;
        rassert (is_multiple_of size entry_size);;
        '(syms, indirect) ← take_symbols (ps_reserved1 p) (size / entry_size) indirect;
        Ret (Some (mkIndirectInfo entry_size syms), indirect)
    end;
  Ret (done ++ [mkSection (ps_sectname p) addr size type_ info], indirect).

Definition finish (name : list Z) (slide : Z) (s : LoadState) : outcome MachO :=
  '(secs, _) ← for_each (finish_section slide) (l_all_sections s) ([], l_indirect_undef_symbols s);
  Ret (mkMachO name (l_dynamic_libraries s) secs (l_exported_symbols s) (l_external_relocations s) (l_entry_point_pc s) (l_last_segment_end s)).

(** The best slice of a fat file: ARMv7, else ARMv6, else the first ARM slice. *)
Definition better_slice (bytes : list Z) (arch : FatArch) (best : option (list Z * Z)) : outcome (option (list Z * Z)) :=
  if negb (fat_cputype arch =? CPU_TYPE_ARM) then Ret best
  else if (fat_cpusubtype arch =? CPU_SUBTYPE_ARM_V7)
          || ((fat_cpusubtype arch =? CPU_SUBTYPE_ARM_V6) && negb (bool_decide (snd <$> best = Some CPU_SUBTYPE_ARM_V7)))
          || bool_decide (best = None)
  then sub ← slice (fat_offset arch) (fat_size arch) bytes; Ret (Some (sub, fat_cpusubtype arch))
  else Ret best.

Definition load_mach_file (bytes : list Z) (header : MachHeader) (commands : list LoadCommand) (name : list Z) (slide : Z) (m : Mem)
    : outcome (result (MachO * Mem) LoadError) :=
  if negb (cputype header =? CPU_TYPE_ARM) then Ret (Err NotForArm)
  else
    cpu_subtype_to_str (cpusubtype header);;
    if hdr_is_bigend header then Ret (Err NotLittleEndian)
    else if hdr_is_64bit header then Ret (Err Not32Bit)
    else
      r ← load_commands bytes (hdr_split_segs header) slide commands LoadState_new m;
      match r with
      | Err e => Ret (Err e)
      | Ok (s, m) => o ← finish name slide s; Ret (Ok (o, m))
      end.

(** A fat file may hold another one: [depth] bounds how deep the recursion goes. *)
Fixpoint load_from_bytes (depth : nat) (bytes : list Z) (m : Mem) (name : list Z) (slide : Z) : outcome (result (MachO * Mem) LoadError) :=
  match depth with
  | O => Panic
  | S depth =>
      match OFile_parse bytes with
      | None => Ret (Err CouldNotParse)
      | Some (MachFile header commands) => load_mach_file bytes header commands name slide m
      | Some (FatFile files) =>
          best ← for_each (better_slice bytes) files None;
          match best with
          | Some (subslice, _) => load_from_bytes depth subslice m name slide
          | None => Ret (Err NoSupportedArchitecture)
          end
      | Some ArFile | Some SymDef => Ret (Err NotAnExecutable)
      end
  end.
End loader.
