(* ===== verification/MachOFacts.v ===== *)
(** * Facts about the loader

    The segments of a binary end up in guest memory as they are in the file, in memory that
    was free and is in use afterwards; relocation entries are read as they are laid out. *)

From S2P Require Import Prelude ChunkMap SizeBucketed VMAllocator HeapAllocator GuestMem Env Fs Abi MachO.

(** ** Reserving memory *)

(** [v'] has the range in use, which was free in [v]. *)
Record grabbed (base size : Z) (v v' : VMAllocator) : Prop := {
  grabbed_ok : vm_ok v';
  grabbed_free a : base ≤ a < base + size → ¬ vm_used v a;
  grabbed_used a : vm_used v' a ↔ vm_used v a ∨ base ≤ a < base + round_up size
}.

Lemma allocate_grabs base size v v' c :
  vm_ok v → (PAGE_SIZE | base) → 0 ≤ base → 0 < size → base + round_up size < U32_MOD →
  VMAllocator_allocate (Some base) size v = Ret (Ok c, v') → grabbed base size v v'.
Proof.
  intros Hv Hal Hb Hs Hr E. destruct (round_up_spec size) as [Hd Hru]. unfold VMAllocator_allocate in E.
  destruct (next_multiple_of_round_up size) as [En|]; [lia| |lia]. rewrite En in E.
  rewrite u32_ok in E by lia. cbn [mbind outcome_bind] in E. rewrite page_base_id in E by (done || lia).
  destruct (allocate_at_spec v base (round_up size)) as (r & v1 & E1 & Hres); [done|done|done|unfold chunk_ok; simpl; lia|].
  rewrite E1 in E. injection E as -> ->. destruct Hres as (Hv' & Hg & -> & _). split; [done| |].
  - intros a Ha Hu. apply (vm_ok_disjoint v Hv a Hu). apply (granted_free _ _ _ Hg). unfold chunk_in. simpl. lia.
  - intros a. rewrite (granted_used _ _ _ Hg). done.
Qed.

Lemma reserve_inv base size m m' :
  vm_ok (vm_allocator m) → (PAGE_SIZE | base) → 0 ≤ base → 0 < size → base + round_up size < U32_MOD → reserve base size m = Ret m' →
  grabbed base size (vm_allocator m) (vm_allocator m') ∧ bytes m' = bytes m.
Proof.
  intros Hv Hal Hb Hs Hr E. unfold reserve in E. apply bind_ret_inv in E as ([r v'] & E1 & E). apply bind_ret_inv in E as (c & E2 & E).
  injection E as <-. destruct r as [c'|]; [|done]. split; [by eapply allocate_grabs|done].
Qed.

Lemma null_segment_inv size m m' :
  vm_ok (vm_allocator m) → 0 < size → round_up size < U32_MOD → set_null_segment_size size m = Ret m' →
  grabbed 0 size (vm_allocator m) (vm_allocator m') ∧ bytes m' = bytes m.
Proof.
  intros Hv Hs Hr E. unfold set_null_segment_size in E. apply bind_ret_inv in E as (? & _ & E). apply bind_ret_inv in E as (? & _ & E).
  apply bind_ret_inv in E as ([r v'] & E1 & E). apply bind_ret_inv in E as (c & E2 & E).
  injection E as <-. destruct r as [c'|]; [|done]. split; [eapply allocate_grabs; [done|by exists 0|done|done|lia|done]|done].
Qed.

(** ** The image of a binary *)

Section image.
Context (OFile_parse : list Z → option OFile).
Context (SymbolIter : list Z → Z → list ParsedSection → Z → Z → Z → list Symbol).
Context (Rebase_parse Bind_parse : list Z → list BindSymbol).
Variables (file : list Z) (slide : Z).

(** Segments that are put into memory. *)
Definition loaded_segment (segname : list Z) : Prop := segname ≠ seg_name "__LINKEDIT" ∧ segname ≠ seg_name "__PAGEZERO".

(** What the theorem asks of the commands: segments at pages of the address space, and no relocations. *)
Definition command_ok (c : LoadCommand) : Prop :=
  match c with
  | Segment segname vmaddr vmsize fileoff filesize _ _ =>
      (PAGE_SIZE | vmaddr + slide) ∧ 0 ≤ vmaddr ∧ 0 ≤ slide ∧ 0 < vmsize ∧ vmaddr + slide + round_up vmsize < U32_MOD ∧ 0 ≤ fileoff ∧ 0 ≤ filesize
  | DySymTab _ _ _ nextrel => nextrel = 0
  | DyldInfo rebase_off rebase_size _ _ => ∀ l, slice rebase_off rebase_size file = Ret l → Rebase_parse l = []
  | _ => True
  end.

(** The segment's bytes are those of the file, and what was there after them. *)
Definition segment_image (m m' : Mem) (c : LoadCommand) : Prop :=
  match c with
  | Segment segname vmaddr vmsize fileoff filesize _ _ =>
      loaded_segment segname → ∀ i, 0 ≤ i < vmsize →
        vm_used (vm_allocator m') (vmaddr + slide + i) ∧ ¬ vm_used (vm_allocator m) (vmaddr + slide + i) ∧
        byte_at m' (vmaddr + slide + i) = if i <? filesize then default 0 (file !! Z.to_nat (fileoff + i)) else byte_at m (vmaddr + slide + i)
  | _ => True
  end.

(** What a command leaves alone. *)
Record loads (m m' : Mem) : Prop := {
  loads_ok : vm_ok (vm_allocator m');
  loads_used a : vm_used (vm_allocator m) a → vm_used (vm_allocator m') a;
  loads_bytes a : vm_used (vm_allocator m) a ∨ ¬ vm_used (vm_allocator m') a → byte_at m' a = byte_at m a
}.
Lemma loads_refl m : vm_ok (vm_allocator m) → loads m m.
Proof. by split. Qed.

Lemma grabbed_loads base size m m' : 0 ≤ size → grabbed base size (vm_allocator m) (vm_allocator m') → bytes m' = bytes m → loads m m'.
Proof. intros Hs [Hok Hf Hu] Hb. split; [done|intros a Ha; apply Hu; by left|]. intros a _. unfold byte_at. by rewrite Hb. Qed.

(** Writing the file's bytes into the range that was reserved. *)
Lemma copy_into base size filesize src m m1 m2 :
  vm_ok (vm_allocator m) → 0 ≤ filesize ≤ size → grabbed base size (vm_allocator m) (vm_allocator m1) → bytes m1 = bytes m → Z.of_nat (length src) = filesize →
  bytes_at_mut_copy base filesize src m1 = Ret m2 →
  loads m m2 ∧ vm_allocator m2 = vm_allocator m1 ∧
  ∀ a, byte_at m2 a = if decide (base ≤ a < base + filesize) then default 0 (src !! Z.to_nat (a - base)) else byte_at m a.
Proof.
  intros Hv Hs [Hok Hf Hu] Hb Hl E. unfold bytes_at_mut_copy in E. apply bind_ret_inv in E as (? & _ & E). apply bind_ret_inv in E as (? & _ & E). injection E as <-.
  destruct (round_up_spec size) as [_ Hru].
  assert (∀ a, byte_at (set_bytes (store base src (bytes m1)) m1) a = if decide (base ≤ a < base + filesize) then default 0 (src !! Z.to_nat (a - base)) else byte_at m a) as Hby.
  { intros a. rewrite byte_at_store, Hl. case_decide; [done|]. unfold byte_at. by rewrite Hb. }
  split_and!; [|done|done]. split; [done|intros a Ha; apply Hu; by left|]. intros a Ha. rewrite Hby, decide_False; [done|]. intros Hin.
  destruct Ha as [Ha|Ha]; [apply (Hf a); [lia|done]|]. apply Ha. simpl. apply Hu. right. lia.
Qed.

Lemma slice_inv off n l r : 0 ≤ off → 0 ≤ n → slice off n l = Ret r → Z.of_nat (length r) = n ∧ ∀ i, 0 ≤ i < n → r !! Z.to_nat i = l !! Z.to_nat (off + i).
Proof.
  intros Ho Hn E. unfold slice in E. apply bind_ret_inv in E as (? & Ha%rassert_inv%Z.leb_le & [= <-]). split.
  - rewrite length_take, length_drop. lia.
  - intros i Hi. rewrite lookup_take_lt by lia. rewrite lookup_drop. f_equal. lia.
Qed.

Lemma loads_trans m1 m2 m3 : loads m1 m2 → loads m2 m3 → loads m1 m3.
Proof.
  intros [H1 U1 B1] [H2 U2 B2]. split; [done|auto|]. intros a [Ha|Ha].
  - rewrite B2, B1; [done|by left|left; by apply U1].
  - rewrite B2, B1; [done|right; intros ?; by apply Ha, U2|by right].
Qed.
Lemma image_later m1 m2 m3 c : segment_image m1 m2 c → loads m2 m3 → segment_image m1 m3 c.
Proof.
  intros Hi [_ U B]. destruct c; try done. intros Hl i Hr. destruct (Hi Hl i Hr) as (H1 & H2 & H3).
  split_and!; [by apply U|done|]. rewrite <- H3. apply B. by left.
Qed.
Lemma image_earlier m1 m2 m3 c : loads m1 m2 → segment_image m2 m3 c → segment_image m1 m3 c.
Proof.
  intros [_ U B] Hi. destruct c; try done. intros Hl i Hr. destruct (Hi Hl i Hr) as (H1 & H2 & H3).
  split_and!; [done|intros ?; by apply H2, U|]. rewrite H3. case_match; [done|]. apply B. by right.
Qed.

Lemma segment_load_me_inv segname vmaddr vmsize filesize text m load_me text' m' :
  vm_ok (vm_allocator m) → 0 < vmsize → round_up vmsize < U32_MOD →
  segment_load_me segname vmaddr vmsize filesize slide text m = Ret (load_me, text', m') →
  loads m m' ∧ (loaded_segment segname → load_me = true ∧ m' = m) ∧ (¬ loaded_segment segname → load_me = false).
Proof.
  intros Hv Hs Hr E. unfold segment_load_me in E. unfold loaded_segment.
  case_bool_decide as H1. { injection E as <- <- <-. split_and!; [by apply loads_refl|by intros []|done]. }
  case_bool_decide as H2.
  { apply bind_ret_inv in E as (? & _ & E). apply bind_ret_inv in E as (? & _ & E). apply bind_ret_inv in E as (m1 & E1 & E). injection E as <- <- <-.
    destruct (null_segment_inv vmsize m m1) as [Hg Hb]; [done..|]. split_and!; [eapply grabbed_loads; [|done|done]; lia|by intros []|done]. }
  assert (loads m m ∧ (segname ≠ seg_name "__LINKEDIT" ∧ segname ≠ seg_name "__PAGEZERO" → true = true ∧ m = m) ∧ (¬ (segname ≠ seg_name "__LINKEDIT" ∧ segname ≠ seg_name "__PAGEZERO") → true = false)) as H.
  { split_and!; [by apply loads_refl|done|]. intros H. by destruct H. }
  case_bool_decide as H3.
  - apply bind_ret_inv in E as (? & _ & E). apply bind_ret_inv in E as (? & _ & E). by injection E as <- <- <-.
  - by injection E as <- <- <-.
Qed.

Lemma load_segment_spec segname vmaddr vmsize fileoff filesize initprot secs s m s' m' :
  vm_ok (vm_allocator m) → command_ok (Segment segname vmaddr vmsize fileoff filesize initprot secs) →
  load_segment file slide segname vmaddr vmsize fileoff filesize initprot secs s m = Ret (s', m') →
  loads m m' ∧ segment_image m m' (Segment segname vmaddr vmsize fileoff filesize initprot secs).
Proof.
  intros Hv (Hal & H0 & Hsl & Hs & Hr & Hoff & Hfs) E. unfold load_segment in E.
  apply bind_ret_inv in E as (a1 & [-> _]%u32_inv & E). apply bind_ret_inv in E as (a2 & [-> _]%u32_inv & E). apply bind_ret_inv in E as (a3 & [-> _]%u32_inv & E).
  apply bind_ret_inv in E as (first & _ & E). apply bind_ret_inv in E as (first_rw & _ & E). apply bind_ret_inv in E as ([[load_me text] m1] & Eme & E).
  apply bind_ret_inv in E as (m2 & Eload & E). apply bind_ret_inv in E as (? & _ & E). apply bind_ret_inv in E as (? & _ & E). injection E as _ <-.
  destruct (segment_load_me_inv _ _ _ _ _ _ _ _ _ Hv Hs ltac:(lia) Eme) as (Hl & Hyes & Hno).
  destruct (decide (segname ≠ seg_name "__LINKEDIT" ∧ segname ≠ seg_name "__PAGEZERO")) as [Hseg|Hseg]; last first.
  { rewrite (Hno Hseg) in Eload. injection Eload as <-. split; [done|]. by intros ?. }
  destruct (Hyes Hseg) as [-> ->]. apply bind_ret_inv in Eload as (base & [-> _]%u32_inv & Eload). apply bind_ret_inv in Eload as (m1 & Eres & Eload).
  destruct (reserve_inv (vmaddr + slide) vmsize m m1) as [Hg Hb]; [done|done|lia|done|done|done|]. destruct (round_up_spec vmsize) as [_ Hru].
  destruct (Z.ltb_spec 0 filesize) as [Hpos|Hzero].
  - apply bind_ret_inv in Eload as (? & Hle%rassert_inv%Z.leb_le & Eload). apply bind_ret_inv in Eload as (src & Esrc & Eload).
    destruct (slice_inv fileoff filesize file src) as [Hlen Hsrc]; [done|done|done|].
    destruct (copy_into (vmaddr + slide) vmsize filesize src m m1 m2) as (Hl2 & Ev & Hby); [done|lia|done|done|done|done|].
    split; [done|]. intros _ i Hi. split_and!; [rewrite Ev; apply Hg; right; lia|apply (grabbed_free _ _ _ _ Hg); lia|].
    rewrite Hby. destruct (Z.ltb_spec i filesize); [rewrite decide_True by lia|by rewrite decide_False by lia].
    rewrite <- Hsrc by lia. do 3 f_equal. lia.
  - injection Eload as <-. split; [eapply grabbed_loads; [|done|done]; lia|]. intros _ i Hi.
    split_and!; [apply Hg; right; lia|apply (grabbed_free _ _ _ _ Hg); lia|]. rewrite (proj2 (Z.ltb_ge i filesize)) by lia. unfold byte_at. by rewrite Hb.
Qed.

Lemma load_command_spec split_segs c s m s' m' :
  vm_ok (vm_allocator m) → command_ok c → load_command SymbolIter Rebase_parse Bind_parse file split_segs slide c s m = Ret (Ok (s', m')) →
  loads m m' ∧ segment_image m m' c.
Proof.
  intros Hv Hc E. destruct c; cbn [load_command] in E.
  - apply bind_ret_inv in E as (x & E1 & E). injection E as ->. by eapply load_segment_spec.
  - apply bind_ret_inv in E as (x & E1 & E). injection E as _ ->. by split; [apply loads_refl|].
  - apply bind_ret_inv in E as ([s1 m1] & E1 & E). injection E as -> ->. simpl in Hc. subst nextrel. unfold load_dysymtab in E1.
    apply bind_ret_inv in E1 as (? & _ & E1). apply bind_ret_inv in E1 as (? & _ & E1). apply bind_ret_inv in E1 as (? & _ & E1). simpl in E1. injection E1 as _ ->. by split; [apply loads_refl|].
  - destruct (negb _); [done|]. injection E as _ ->. by split; [apply loads_refl|].
  - injection E as _ ->. by split; [apply loads_refl|].
  - apply bind_ret_inv in E as (? & _ & E). apply bind_ret_inv in E as (? & _ & E). injection E as _ ->. by split; [apply loads_refl|].
  - do 5 (apply bind_ret_inv in E as (? & _ & E)). injection E as _ ->. by split; [apply loads_refl|].
  - apply bind_ret_inv in E as ([s1 m1] & E1 & E). injection E as -> ->. unfold load_dyld_info in E1.
    apply bind_ret_inv in E1 as (rebase & Er & E1). rewrite (Hc _ Er) in E1. cbn [for_each mbind outcome_bind] in E1.
    apply bind_ret_inv in E1 as (? & _ & E1). apply bind_ret_inv in E1 as (? & _ & E1). injection E1 as _ ->. by split; [apply loads_refl|].
  - injection E as _ ->. by split; [apply loads_refl|].
Qed.

Lemma load_commands_spec split_segs commands s m s' m' :
  vm_ok (vm_allocator m) → Forall command_ok commands →
  load_commands SymbolIter Rebase_parse Bind_parse file split_segs slide commands s m = Ret (Ok (s', m')) →
  loads m m' ∧ Forall (segment_image m m') commands.
Proof.
  intros Hv Hok. revert s m Hv. induction Hok as [|c commands Hc Hok IH]; intros s m Hv E; cbn [load_commands] in E.
  { injection E as _ <-. split; [by apply loads_refl|constructor]. }
  apply bind_ret_inv in E as (r & E1 & E). destruct r as [[s1 m1]|e]; [|done].
  destruct (load_command_spec split_segs c s m s1 m1 Hv Hc E1) as [Hl Hi]. destruct (IH s1 m1 (loads_ok _ _ Hl) E) as [Hl2 Hi2].
  split; [by eapply loads_trans|]. constructor; [by eapply image_later|]. eapply Forall_impl; [exact Hi2|]. intros c' Hi'. by eapply image_earlier.
Qed.

(** C27: loading a binary that has no relocations, if it succeeds, leaves every segment that
    is to be loaded in guest memory as it is in the file, at its address moved by the slide,
    with the rest of the segment as it was (zero in new memory): in memory that was free
    before and is in use afterwards. All other memory is unchanged. *)
Theorem segments_loaded depth header commands name m o m' :
  OFile_parse file = Some (MachFile header commands) → vm_ok (vm_allocator m) → Forall command_ok commands →
  load_from_bytes OFile_parse SymbolIter Rebase_parse Bind_parse (S depth) file m name slide = Ret (Ok (o, m')) →
  Forall (segment_image m m') commands ∧ vm_ok (vm_allocator m') ∧
  ∀ a, vm_used (vm_allocator m) a ∨ ¬ vm_used (vm_allocator m') a → byte_at m' a = byte_at m a.
Proof.
  intros Hp Hv Hok E. cbn [load_from_bytes] in E. rewrite Hp in E. unfold load_mach_file in E. destruct (negb _); [done|].
  apply bind_ret_inv in E as (? & _ & E). destruct (hdr_is_bigend header); [done|]. destruct (hdr_is_64bit header); [done|].
  apply bind_ret_inv in E as (r & E1 & E). destruct r as [[s1 m1]|e]; [|done]. apply bind_ret_inv in E as (o' & _ & E). injection E as _ ->.
  destruct (load_commands_spec _ _ _ _ _ _ Hv Hok E1) as [Hl Hi]. split_and!; [done|apply Hl|]. intros a Ha. by apply (loads_bytes _ _ Hl).
Qed.
End image.

(** ** An example *)

Definition demo_file : list Z := [1; 2; 3; 4; 5; 6; 7].
Definition demo_commands : list LoadCommand :=
  [Segment (seg_name "__PAGEZERO") 0 4096 0 0 0 []; Segment (seg_name "__TEXT") 4096 4096 0 4 5 []; Segment (seg_name "__DATA") 8192 8192 4 3 3 []].
Definition demo_parse (l : list Z) : option OFile := if bool_decide (l = demo_file) then Some (MachFile (mkHeader 12 9 false false false) demo_commands) else None.
Definition demo_load (m : Mem) : outcome (result (MachO * Mem) LoadError) :=
  load_from_bytes demo_parse (λ _ _ _ _ _ _, []) (λ _, []) (λ _, []) 1 demo_file m [] 0.

Lemma segments_loaded_witness :
  ∃ m o m', Mem_new = Ret m ∧ demo_load m = Ret (Ok (o, m')) ∧
    byte_at m' 4096 = 1 ∧ byte_at m' 4099 = 4 ∧ byte_at m' 8192 = 5 ∧ byte_at m' 8194 = 7 ∧ byte_at m' 12288 = byte_at m 12288 ∧ vm_used (vm_allocator m') 12288.
Proof.
  destruct Mem_new_ok as (m & Em & Hm & Eh & _). exists m.
  assert (∃ o m', demo_load m = Ret (Ok (o, m'))) as (o & m' & E).
  { clear -Em. vm_compute in Em. injection Em as <-. eexists _, _. vm_compute. reflexivity. }
  exists o, m'. split; [exact Em|]. split; [exact E|]. unfold mem_ok in Hm. rewrite Eh in Hm.
  destruct (segments_loaded demo_parse (λ _ _ _ _ _ _, []) (λ _, []) (λ _, []) demo_file 0 0 (mkHeader 12 9 false false false) demo_commands [] m o m') as (Hi & _ & _).
  - reflexivity.
  - exact Hm.
  - unfold demo_commands.
    repeat (apply List.Forall_cons; [simpl; split_and!; [first [by exists 0|by exists 1|by exists 2]|vm_compute; intuition discriminate..]|]). apply List.Forall_nil.
  - exact E.
  - apply Forall_cons in Hi as [_ Hi]. apply Forall_cons in Hi as [Ht Hi]. apply Forall_cons in Hi as [Hd _]. simpl in Ht, Hd.
    assert (loaded_segment (seg_name "__TEXT")) as Lt by (split; discriminate). assert (loaded_segment (seg_name "__DATA")) as Ld by (split; discriminate).
    destruct (Ht Lt 0 ltac:(lia)) as (_ & _ & H1). destruct (Ht Lt 3 ltac:(lia)) as (_ & _ & H2).
    destruct (Hd Ld 0 ltac:(lia)) as (_ & _ & H3). destruct (Hd Ld 2 ltac:(lia)) as (_ & _ & H4). destruct (Hd Ld 4096 ltac:(lia)) as (H5 & _ & H6).
    split_and!; [exact H1|exact H2|exact H3|exact H4|exact H6|exact H5].
Defined.
