(* ===== verification/Dyld.v ===== *)
(** * The dynamic linker ([dyld.rs])

    Host functions are called by the guest through supervisor call (SVC) instructions: each
    linked function has a number, the index into [linked_host_functions] plus
    [SVC_LINKED_FUNCTIONS_BASE].  Lazy symbols of a binary are reached through stubs that are
    rewritten when they are first called; other references to symbols are resolved before the
    program starts.  The list of the host's libraries, [DYLIB_LIST], is an argument.  A host
    function is known by its address, and invalidating the instruction cache has no effect
    here. *)

From S2P Require Import Prelude ChunkMap SizeBucketed VMAllocator HeapAllocator GuestMem Env Pthread Semaphore Fs Abi ObjcClasses MachO.

(** ** The host's libraries *)

Inductive HostFunction := HostFn (address : Z) | UNIMPLEMENTED_FUNCTION_STUB.

(** [Custom]: a Rust function, known by its address. *)
Inductive HostConstant := NSString (s : list Z) | NullPtr | Custom (f : Z).

Record HostDylib := mkDylib {
  path : list Z;
  aliases : list (list Z);
  class_exports : list ClassExports;
  constant_exports : list (list (list Z * HostConstant));
  function_exports : list (list (list Z * HostFunction))
}.

Definition search_lists {T} (lists : list (list (list Z * T))) (symbol : list Z) : option (list Z * T) :=
  head (filter (λ e, e.1 = symbol) (concat lists)).

(** [find_map] over the libraries. *)
Fixpoint search_host_dylibs {T} (get_exports : HostDylib → list (list (list Z * T))) (dylibs : list HostDylib) (symbol : list Z) : option (list Z * T) :=
  match dylibs with
  | [] => None
  | d :: dylibs =>
      match search_lists (get_exports d) symbol with Some e => Some e | None => search_host_dylibs get_exports dylibs symbol end
  end.

(** ** Instructions *)

Definition encode_a32_svc (imm : Z) : outcome Z :=
  rassert (Z.land imm 4278190080 =? 0);;
  Ret (Z.lor imm 4009754624).
Definition encode_a32_ret : Z := 3778019102.
Definition encode_a32_trap : Z := 3892305662.

Definition SVC_LAZY_LINK : Z := 0.
Definition SVC_THREAD_EXIT : Z := 1.
Definition SVC_RETURN_TO_HOST : Z := 2.
Definition SVC_LINKED_FUNCTIONS_BASE : Z := SVC_RETURN_TO_HOST + 1.
Definition SVC_LAZY_LINK_RET_FLAG : Z := 8388608.

Definition SYMBOL_STUB1_INSTRUCTIONS : list Z := [3852464128].
Definition SYMBOL_STUB_INSTRUCTIONS : list Z := [3852451840; 3852267520].
Definition PIC_SYMBOL_STUB_INSTRUCTIONS : list Z := [3852451844; 3767517196; 3852267520].

(** [mem.write(ptr + i, instr)] for a list of instructions. *)
Fixpoint write_instrs (ptr : Z) (l : list Z) (m : Mem) : outcome Mem :=
  match l with
  | [] => Ret m
  | w :: l => m ← write_u32 ptr w m; match l with [] => Ret m | _ => next ← ptr_add 4 ptr 1; write_instrs next l m end
  end.

Definition write_return_to_host_routine (svc : Z) (m : Mem) : outcome (Z * Mem) :=
  instr ← encode_a32_svc svc;
  '(ptr, m) ← mem_alloc (4 * 2) m;
  m ← write_instrs ptr [instr; encode_a32_trap] m;
  rassert (negb (is_thumb ptr));;
  Ret (ptr, m).

(** ** The linker's state *)

Record Dyld := mkDyld {
  linked_host_functions : list (list Z * HostFunction);
  return_to_host_routine : option Z;
  thread_exit_routine : option Z;
  constants_to_link_later : list (Z * HostConstant);
  non_lazy_host_functions : gmap (list Z) Z
}.
Definition Dyld_new : Dyld := mkDyld [] None None [] ∅.
Definition set_routines (r t : Z) (d : Dyld) : Dyld :=
  mkDyld (linked_host_functions d) (Some r) (Some t) (constants_to_link_later d) (non_lazy_host_functions d).
Definition push_function (symbol : list Z) (f : HostFunction) (d : Dyld) : Dyld :=
  mkDyld (linked_host_functions d ++ [(symbol, f)]) (return_to_host_routine d) (thread_exit_routine d) (constants_to_link_later d) (non_lazy_host_functions d).
Definition push_constant (ptr : Z) (c : HostConstant) (d : Dyld) : Dyld :=
  mkDyld (linked_host_functions d) (return_to_host_routine d) (thread_exit_routine d) (constants_to_link_later d ++ [(ptr, c)]) (non_lazy_host_functions d).
Definition insert_non_lazy (symbol : list Z) (f : Z) (d : Dyld) : Dyld :=
  mkDyld (linked_host_functions d) (return_to_host_routine d) (thread_exit_routine d) (constants_to_link_later d) (<[symbol := f]> (non_lazy_host_functions d)).

(** [idx + SVC_LINKED_FUNCTIONS_BASE] of the function that is linked next. *)
Definition next_svc (d : Dyld) : outcome Z :=
  idx ← u32 (Z.of_nat (length (linked_host_functions d)));
  u32 (idx + SVC_LINKED_FUNCTIONS_BASE).

Definition create_guest_function (symbol : list Z) (f : HostFunction) (d : Dyld) (m : Mem) : outcome (Z * Dyld * Mem) :=
  svc ← next_svc d;
  let d := push_function symbol f d in
  '(function_ptr, m) ← mem_alloc 8 m;
  instr ← encode_a32_svc svc;
  m ← write_instrs function_ptr [instr; encode_a32_ret] m;
  Ret (function_ptr, d, m).

Section dylibs.
Variable dylibs : list HostDylib.

(** [None] when there is no such function. *)
Definition create_proc_address_no_inval (symbol : list Z) (d : Dyld) (m : Mem) : outcome (option Z * Dyld * Mem) :=
  match search_host_dylibs function_exports dylibs symbol with
  | None => Ret (None, d, m)
  | Some (symbol, f) =>
      match non_lazy_host_functions d !! symbol with
      | Some cached_fn => Ret (Some cached_fn, d, m)
      | None =>
          '(function_ptr, d, m) ← create_guest_function symbol f d m;
          Ret (Some function_ptr, insert_non_lazy symbol function_ptr d, m)
      end
  end.
Definition create_proc_address : list Z → Dyld → Mem → outcome (option Z * Dyld * Mem) := create_proc_address_no_inval.
Definition create_function_address (name : list Z) : Dyld → Mem → outcome (option Z * Dyld * Mem) := create_proc_address (95 :: name).

(** ** Lazy linking *)

Definition stub_instructions (entry_size : Z) : option (list Z) :=
  if entry_size =? 4 then Some []
  else if entry_size =? 12 then Some SYMBOL_STUB_INSTRUCTIONS
  else if entry_size =? 16 then Some PIC_SYMBOL_STUB_INSTRUCTIONS
  else None.

(** The stub holds the instructions it should. *)
Fixpoint check_instrs (ptr : Z) (l : list Z) (m : Mem) : outcome unit :=
  match l with
  | [] => Ret ()
  | w :: l =>
      x ← read_u32 ptr m;
      rassert (x =? w);;
      match l with [] => Ret () | _ => next ← ptr_add 4 ptr 1; check_instrs next l m end
  end.

Definition setup_stub (addr entry_size : Z) (expected : list Z) (i : Z) (m : Mem) : outcome Mem :=
  off ← u32 (i * entry_size);
  ptr ← u32 (addr + off);
  check_instrs ptr expected m;;
  m ←
    (if entry_size =? 4 then instr ← encode_a32_svc SVC_LAZY_LINK_RET_FLAG; write_u32 ptr instr m
     else instr ← encode_a32_svc SVC_LAZY_LINK; write_instrs ptr [instr; encode_a32_ret] m);
  if entry_size =? 16 then p ← ptr_add 4 ptr 2; write_u32 p encode_a32_trap m else Ret m.

Definition setup_lazy_linking (bin : MachO) (m : Mem) : outcome Mem :=
  match get_section_by_type SymbolStubs bin with
  | None => Ret m
  | Some stubs =>
      info ← unwrap (dyld_indirect_symbol_info stubs);
      expected ← unwrap (stub_instructions (entry_size info));
      rassert (sec_size stubs mod entry_size info =? 0);;
      for_each (setup_stub (sec_addr stubs) (entry_size info) expected) (seqZ 0 (sec_size stubs / entry_size info)) m
  end.

(** Puts the original stub back and points its pointer to the function; gives the pointer's address. *)
Definition link_by_restoring_stub (linked_function svc_pc entry_size pic_offset : Z) (m : Mem) : outcome (Z * Mem) :=
  if entry_size =? 4 then
    instr ← unwrap (SYMBOL_STUB1_INSTRUCTIONS !! 0%nat);
    m ← write_u32 svc_pc (Z.lor instr pic_offset) m;
    x ← read_u32 svc_pc m;
    let offset := Z.land x 4095 in
    a ← u32 (svc_pc + offset);
    la_symbol_ptr ← u32 (a + 8);
    m ← write_u32 la_symbol_ptr linked_function m;
    Ret (la_symbol_ptr, m)
  else if entry_size =? 12 then
    m ← write_instrs svc_pc SYMBOL_STUB_INSTRUCTIONS m;
    p ← ptr_add 4 svc_pc 2;
    la_symbol_ptr ← read_u32 p m;
    m ← write_u32 la_symbol_ptr linked_function m;
    Ret (la_symbol_ptr, m)
  else if entry_size =? 16 then
    m ← write_instrs svc_pc PIC_SYMBOL_STUB_INSTRUCTIONS m;
    p ← ptr_add 4 svc_pc 3;
    offset ← read_u32 p m;
    a ← u32 (svc_pc + offset);
    la_symbol_ptr ← u32 (a + 12);
    m ← write_u32 la_symbol_ptr linked_function m;
    Ret (la_symbol_ptr, m)
  else Panic.

(** The stub section that [svc_pc] is in, and the distance of the binary's lazy pointers from it. *)
Fixpoint find_stubs (bins : list MachO) (svc_pc : Z) : outcome (option (MachSection * Z)) :=
  match bins with
  | [] => Ret None
  | bin :: bins =>
      match get_section_by_type SymbolStubs bin with
      | None => find_stubs bins svc_pc
      | Some stubs =>
          e ← u32 (sec_addr stubs + sec_size stubs);
          if (sec_addr stubs <=? svc_pc) && (svc_pc <? e) then
            pic_offset ← match get_section_by_type LazySymbolPointers bin with
                         | None => Ret 0
                         | Some lazy_ptrs => u32 (sec_addr lazy_ptrs - sec_addr stubs)
                         end;
            Ret (Some (stubs, pic_offset))
          else find_stubs bins svc_pc
      end
  end.

(** The first binary that defines [symbol]. *)
Definition exported_address (bins : list MachO) (symbol : list Z) : option Z :=
  head (omap (λ b, exported_symbols b !! symbol) bins).

(** A stub that calls a host function from now on. *)
Definition link_host_function (symbol : list Z) (f : HostFunction) (svc_pc entry_size : Z) (d : Dyld) (m : Mem) : outcome (Dyld * Mem) :=
  svc ← next_svc d;
  svc ← (if entry_size =? 4 then rassert (svc <? SVC_LAZY_LINK_RET_FLAG);; Ret (Z.lor svc SVC_LAZY_LINK_RET_FLAG) else Ret svc);
  let d := push_function symbol f d in
  instr ← encode_a32_svc svc;
  m ← write_u32 svc_pc instr m;
  (if negb (entry_size =? 4) then p ← ptr_add 4 svc_pc 1; x ← read_u32 p m; rassert (x =? encode_a32_ret) else Ret ());;
  Ret (d, m).

Definition NORETURN_FUNCS : list (list Z) := Eval vm_compute in
  bytes_of <$> ["___cxa_pure_virtual"; "__ZSt9terminatev"; "_abort_report_np"; "___cxa_call_unexpected"]%string.
Definition unimplemented_symbol : list Z := Eval vm_compute in bytes_of "_touchHLE_unimplemented_function".

(** [None]: execution goes on at [svc_pc]. *)
Definition do_lazy_link (bins : list MachO) (svc_pc : Z) (d : Dyld) (m : Mem) : outcome (option HostFunction * Dyld * Mem) :=
  found ← find_stubs bins svc_pc;
  '(stubs, pic_offset) ← unwrap found;
  info ← unwrap (dyld_indirect_symbol_info stubs);
  let offset := svc_pc - sec_addr stubs in
  rassert (is_multiple_of offset (entry_size info));;
  symbol ← unwrap (info_symbols info !! Z.to_nat (offset / entry_size info));
  symbol ← unwrap symbol;
  match non_lazy_host_functions d !! symbol with
  | Some addr =>
      '(_, m) ← link_by_restoring_stub addr svc_pc (entry_size info) pic_offset m;
      Ret (None, d, m)
  | None =>
      match search_host_dylibs function_exports dylibs symbol with
      | Some (symbol, f) =>
          '(d, m) ← link_host_function symbol f svc_pc (entry_size info) d m;
          Ret (Some f, d, m)
      | None =>
          match exported_address bins symbol with
          | Some addr =>
              '(_, m) ← link_by_restoring_stub addr svc_pc (entry_size info) pic_offset m;
              Ret (None, d, m)
          | None =>
              rassert (negb (bool_decide (symbol ∈ NORETURN_FUNCS)));;
              '(d, m) ← link_host_function unimplemented_symbol UNIMPLEMENTED_FUNCTION_STUB svc_pc (entry_size info) d m;
              Ret (Some UNIMPLEMENTED_FUNCTION_STUB, d, m)
          end
      end
  end.

Definition get_svc_handler (bins : list MachO) (svc_pc svc : Z) (d : Dyld) (m : Mem) : outcome (option HostFunction * Dyld * Mem) :=
  if (svc =? SVC_LAZY_LINK) || (svc =? SVC_LAZY_LINK_RET_FLAG) then do_lazy_link bins svc_pc d m
  else if (svc =? SVC_THREAD_EXIT) || (svc =? SVC_RETURN_TO_HOST) then Panic
  else
    i ← u32 (Z.land svc (Z.lxor (U32_MOD - 1) SVC_LAZY_LINK_RET_FLAG) - SVC_LINKED_FUNCTIONS_BASE);
    '(_, f) ← unwrap (linked_host_functions d !! Z.to_nat i);
    Ret (Some f, d, m).

(** ** Linking before the program starts *)

Definition exports_of_dylibs : ClassExports := d ← dylibs; concat (class_exports d).

Definition CLASS_PREFIX : list Z := Eval vm_compute in bytes_of "_OBJC_CLASS_$_".
Definition METACLASS_PREFIX : list Z := Eval vm_compute in bytes_of "_OBJC_METACLASS_$_".
Definition CFSTRING_CLASS : list Z := Eval vm_compute in bytes_of "___CFConstantStringClassReference".

Fixpoint without_prefix (prefix s : list Z) : option (list Z) :=
  match prefix, s with
  | [], s => Some s
  | x :: prefix, y :: s => if x =? y then without_prefix prefix s else None
  | _ :: _, [] => None
  end.

Notation State := (Dyld * Runtime * Mem)%type.

(** What an external relocation refers to: [None] when it is skipped. *)
Definition relocation_target (bins : list MachO) (name : list Z) (st : State) : outcome (option Z * State) :=
  let '(d, rt, m) := st in
  match without_prefix CLASS_PREFIX name with
  | Some class => '(c, rt, m) ← link_class exports_of_dylibs class false rt m; Ret (Some c, (d, rt, m))
  | None =>
      match without_prefix METACLASS_PREFIX name with
      | Some class => '(c, rt, m) ← link_class exports_of_dylibs class true rt m; Ret (Some c, (d, rt, m))
      | None =>
          if bool_decide (name = CFSTRING_CLASS) then Ret (Some nil, st)
          else
            match exported_address bins name with
            | Some external_addr => Ret (Some external_addr, st)
            | None =>
                match search_host_dylibs function_exports dylibs name with
                | Some (symbol, _) =>
                    '(f, d, m) ← create_proc_address_no_inval symbol d m;
                    f ← unwrap f;
                    Ret (Some f, (d, rt, m))
                | None => Ret (None, st)
                end
            end
      end
  end.

Definition link_relocation (bins : list MachO) (r : Z * list Z) (st : State) : outcome State :=
  offset ← read_u32 r.1 st.2;
  '(target, st) ← relocation_target bins r.2 st;
  match target with
  | None => Ret st
  | Some target => m ← write_u32 r.1 ((target + offset) mod U32_MOD) st.2; Ret (st.1, m)
  end.

(** One entry of the non-lazy symbol pointers. *)
Definition link_pointer (bins : list MachO) (addr : Z) (symbols : list (option (list Z))) (i : Z) (st : State) : outcome State :=
  symbol ← unwrap (symbols !! Z.to_nat i);
  match symbol with
  | None => Ret st
  | Some symbol =>
      off ← u32 (i * 4);
      ptr_ptr ← u32 (addr + off);
      let '(d, rt, m) := st in
      match exported_address bins symbol with
      | Some a => m ← write_u32 ptr_ptr a m; Ret (d, rt, m)
      | None =>
          match search_host_dylibs function_exports dylibs symbol with
          | Some (symbol, _) =>
              '(f, d, m) ← create_proc_address_no_inval symbol d m;
              f ← unwrap f;
              m ← write_u32 ptr_ptr f m;
              Ret (d, rt, m)
          | None =>
              match search_host_dylibs constant_exports dylibs symbol with
              | Some (_, template) => Ret (push_constant ptr_ptr template d, rt, m)
              | None => Ret (push_constant ptr_ptr (NSString []) d, rt, m)
              end
          end
      end
  end.

Definition do_non_lazy_linking (bin : MachO) (bins : list MachO) (st : State) : outcome State :=
  st ← for_each (link_relocation bins) (external_relocations bin) st;
  match get_section_by_type NonLazySymbolPointers bin with
  | None => Ret st
  | Some ptrs =>
      info ← unwrap (dyld_indirect_symbol_info ptrs);
      rassert (entry_size info =? 4);;
      rassert (sec_size ptrs mod 4 =? 0);;
      for_each (link_pointer bins (sec_addr ptrs) (info_symbols info)) (seqZ 0 (sec_size ptrs / 4)) st
  end.

Definition section_range (name : string) (bin : MachO) : option (Z * Z) :=
  (λ s, (sec_addr s, sec_size s)) <$> get_section_by_name (bytes_of name) bin.

(** [ns_string::register_constant_strings]: the structs of [__cfstring] have four words. *)
Definition register_constant_string (base i : Z) (x : Runtime * Mem) : outcome (Runtime * Mem) :=
  let '(rt, m) := x in
  cfstr_ptr ← ptr_add 16 base i;
  s ← read_struct 4 cfstr_ptr m;
  let flags := field 1 s in
  let length := field 3 s in
  class_name ←
    (if flags =? 1992 then
       l ← bytes_at (field 2 s) length m;
       rassert (utf8_valid l);;
       Ret (bytes_of "_touchHLE_NSString_CFConstantString_UTF8")
     else if flags =? 2000 then
       n ← u32 (length * 2);
       _ ← bytes_at (field 2 s) n m;
       Ret (bytes_of "_touchHLE_NSString_CFConstantString_UTF16")
     else Panic);
  rt ← register_static cfstr_ptr OtherObject rt;
  '(new_isa, rt, m) ← get_known_class exports_of_dylibs class_name rt m;
  m ← write_u32 cfstr_ptr new_isa m;
  Ret (rt, m).
Definition register_constant_strings (bin : MachO) (rt : Runtime) (m : Mem) : outcome (Runtime * Mem) :=
  match get_section_by_name (bytes_of "__cfstring") bin with
  | None => Ret (rt, m)
  | Some cfstrings =>
      rassert (sec_size cfstrings mod 16 =? 0);;
      for_each (register_constant_string (sec_addr cfstrings)) (seqZ 0 (sec_size cfstrings / 16)) (rt, m)
  end.

Definition make_routines (d : Dyld) (m : Mem) : outcome (Dyld * Mem) :=
  rassert (bool_decide (return_to_host_routine d = None));;
  rassert (bool_decide (thread_exit_routine d = None));;
  '(r, m) ← write_return_to_host_routine SVC_RETURN_TO_HOST m;
  '(t, m) ← write_return_to_host_routine SVC_THREAD_EXIT m;
  Ret (set_routines r t d, m).

Definition do_initial_linking_with_no_bins (st : State) : outcome State :=
  let '(d, rt, m) := st in
  '(d, m) ← make_routines d m;
  '(rt, m) ← register_host_selectors exports_of_dylibs rt m;
  Ret (d, rt, m).

(** [iter_order] is the order of iteration over the classes when instance variables are moved. *)
Definition do_initial_linking (iter_order : gmap (list Z) Z → list (list Z * Z)) (bins : list MachO) (st : State) : outcome State :=
  let '(d, rt, m) := st in
  '(d, m) ← make_routines d m;
  bin0 ← unwrap (bins !! 0%nat);
  '(rt, m) ← register_bin_selectors (section_range "__objc_selrefs" bin0) rt m;
  '(rt, m) ← register_host_selectors exports_of_dylibs rt m;
  '(d, rt, m) ←
    for_each (λ bin '(d, rt, m), m ← setup_lazy_linking bin m; do_non_lazy_linking bin bins (d, rt, m)) bins (d, rt, m);
  rt ← register_bin_classes iter_order (section_range "__objc_classlist" bin0) rt m;
  rt ← register_bin_categories (section_range "__objc_catlist" bin0) rt m;
  '(rt, m) ← register_constant_strings bin0 rt m;
  Ret (d, rt, m).

(** ** Late linking *)

(** [get_static_str] and the functions of [Custom] constants work on the whole
    environment, of which the memory is a part. *)
Section late.
Context {World : Type} (world_mem : World → Mem) (set_world_mem : Mem → World → World).
Context (get_static_str : list Z → World → outcome (Z * World)) (custom : Z → World → outcome (Z * World)).

Definition alloc_pointer (p : Z) (w : World) : outcome (Z * World) :=
  '(ptr, m) ← alloc_and_write (le_bytes 4 p) (world_mem w); Ret (ptr, set_world_mem m w).
Definition link_constant (x : Z * HostConstant) (w : World) : outcome World :=
  '(symbol_ptr, w) ←
    match x.2 with
    | NSString s => '(string_ptr, w) ← get_static_str s w; alloc_pointer string_ptr w
    | NullPtr => alloc_pointer 0 w
    | Custom f => custom f w
    end;
  m ← write_u32 x.1 symbol_ptr (world_mem w);
  Ret (set_world_mem m w).
Definition do_late_linking (d : Dyld) (w : World) : outcome (Dyld * World) :=
  w ← for_each link_constant (constants_to_link_later d) w;
  Ret (mkDyld (linked_host_functions d) (return_to_host_routine d) (thread_exit_routine d) [] (non_lazy_host_functions d), w).
End late.
End dylibs.
