(* ===== verification/DyldFacts.v ===== *)
(** * Facts about the dynamic linker

    Stubs, and functions made for pointers, call what their symbol means: in every state that
    calls, requests for addresses and the guest's own work can lead to, a stub that was called
    once goes on calling the function it was linked to, and all pointers to a symbol are the
    same. *)

From S2P Require Import Prelude ChunkMap SizeBucketed VMAllocator HeapAllocator GuestMem GuestAlloc Env Fs Abi ObjcClasses MachO Dyld.

Lemma ptr_add_4 p n : 0 ≤ n → 0 ≤ p → p + n * 4 < U32_MOD → ptr_add 4 p n = Ret (p + n * 4).
Proof. intros. unfold ptr_add. simpl. rewrite !u32_ok by lia. simpl. apply u32_ok. lia. Qed.

Lemma write_instrs_spec l m p :
  l ≠ [] → 0 ≤ p → p + 4 * Z.of_nat (length l) < U32_MOD → Forall is_u32 l →
  ∃ m', write_instrs p l m = Ret m' ∧ patched (λ a, p ≤ a < p + 4 * Z.of_nat (length l)) m m' ∧
    ∀ i w, l !! i = Some w → word_at m' (p + 4 * Z.of_nat i) = w.
Proof.
  intros Hne H0 Hp Hl. revert p m Hne H0 Hp. induction Hl as [|w l Hw Hl IH]; intros p m Hne H0 Hp; [done|].
  cbn [length] in Hp. destruct (write_u32_word m p w) as (m1 & E1 & P1 & W1); [lia|lia|done|].
  cbn [write_instrs]. rewrite E1. cbn [mbind outcome_bind]. destruct l as [|w' l].
  { exists m1. split; [done|]. split; [exact P1|]. intros [|i] x [= <-]. by rewrite Z.add_0_r. }
  rewrite ptr_add_4 by (cbn [length] in Hp; lia). cbn [mbind outcome_bind].
  destruct (IH (p + 1 * 4) m1) as (m2 & E2 & P2 & W2); [done|lia|cbn [length] in *; lia|]. exists m2. split; [exact E2|]. split.
  - eapply patched_trans; [|exact P1|exact P2]. cbn [length]. intros a. lia.
  - intros [|i] x Hx.
    + injection Hx as <-. rewrite Z.add_0_r. rewrite (patched_word _ _ _ _ P2); [done|]. intros a Ha. lia.
    + rewrite <- (W2 i x Hx). f_equal. lia.
Qed.

(** ** Supervisor calls *)

Lemma land_high n k c : 0 ≤ n < 2 ^ k → 0 ≤ k → Z.land n (c * 2 ^ k) = 0.
Proof.
  intros Hn Hk. apply Z.bits_inj'. intros i Hi. rewrite Z.land_spec, Z.bits_0, <- Z.shiftl_mul_pow2 by done.
  destruct (Z.ltb_spec i k); [rewrite Z.shiftl_spec_low by done; apply andb_false_r|].
  rewrite <- (Z.mod_small n (2 ^ k)) by done. by rewrite Z.mod_pow2_bits_high by lia.
Qed.

Definition SVC_OPCODE : Z := 4009754624.

Lemma svc_word n : 0 ≤ n < 16777216 → encode_a32_svc n = Ret (Z.lor n SVC_OPCODE) ∧ Z.lor n SVC_OPCODE = n + SVC_OPCODE.
Proof.
  intros Hn. split.
  - unfold encode_a32_svc. change 4278190080 with (255 * 2 ^ 24). by rewrite land_high by (simpl; lia).
  - assert (Z.land n SVC_OPCODE = 0) as E by (change SVC_OPCODE with (239 * 2 ^ 24); apply land_high; simpl; lia).
    rewrite <- Z.lxor_lor by done. symmetry. by apply Z.add_nocarry_lxor.
Qed.

(** The assertion on the number leaves 24 bits. *)
Lemma encode_svc_inv n w : is_u32 n → encode_a32_svc n = Ret w → 0 ≤ n < 16777216 ∧ w = Z.lor n SVC_OPCODE.
Proof.
  intros Hn E. unfold encode_a32_svc in E. apply bind_ret_inv in E as (? & Ha%rassert_inv%Z.eqb_eq & [= <-]). split; [|done].
  assert (Z.land (Z.shiftr n 24) 255 = 0) as H.
  { change 255 with (Z.shiftr 4278190080 24). rewrite <- Z.shiftr_land, Ha. done. }
  change 255 with (Z.ones 8) in H. rewrite Z.land_ones, Z.shiftr_div_pow2 in H by lia. unfold is_u32, U32_MOD in Hn.
  rewrite Z.mod_small in H; [apply Z.div_small_iff in H; simpl in *; lia|].
  split; [apply Z.div_pos; simpl; lia|apply Z.div_lt_upper_bound; simpl; lia].
Qed.

Lemma svc_index n : 0 ≤ n < 8388608 → Z.land n (Z.lxor (U32_MOD - 1) SVC_LAZY_LINK_RET_FLAG) = n.
Proof.
  intros Hn. assert (n = Z.land n (Z.ones 23)) as E by (rewrite Z.land_ones by lia; symmetry; apply Z.mod_small; simpl; lia).
  rewrite E at 1. rewrite <- Z.land_assoc. change (Z.land (Z.ones 23) _) with (Z.ones 23). done.
Qed.

Lemma lor_svc_inj n n' : 0 ≤ n < 16777216 → 0 ≤ n' < 16777216 → Z.lor n SVC_OPCODE = Z.lor n' SVC_OPCODE → n = n'.
Proof. intros Hn Hn' E. rewrite (proj2 (svc_word n Hn)), (proj2 (svc_word n' Hn')) in E. lia. Qed.

(** ** What symbols mean, and how code calls it *)

Section linking.
Variable dylibs : list HostDylib.
Variable bins : list MachO.

(** A symbol is a host function when a host library has it, else what the first binary that
    defines it says, else the function that does nothing. *)
Inductive Meaning := HostMeaning (f : HostFunction) | GuestMeaning (addr : Z).
Definition meaning (symbol : list Z) : Meaning :=
  match search_host_dylibs function_exports dylibs symbol with
  | Some (_, f) => HostMeaning f
  | None => match exported_address bins symbol with Some a => GuestMeaning a | None => HostMeaning UNIMPLEMENTED_FUNCTION_STUB end
  end.

Lemma search_symbol {T} (get : HostDylib → list (list (list Z * T))) l symbol e : search_host_dylibs get l symbol = Some e → e.1 = symbol.
Proof.
  induction l as [|d l IH]; [done|]. simpl. unfold search_lists. destruct (filter _ _) as [|x xs] eqn:E; [done|]. simpl. intros [= <-].
  assert (x ∈ filter (λ e, e.1 = symbol) (concat (get d))) as H by (rewrite E; left). by apply list_elem_of_filter in H as [? _].
Qed.

(** The code at [pc] calls [f] and returns. *)
Definition host_call (d : Dyld) (m : Mem) (pc : Z) (f : HostFunction) : Prop :=
  ∃ n symbol, SVC_LINKED_FUNCTIONS_BASE ≤ n < SVC_LAZY_LINK_RET_FLAG ∧ word_at m pc = Z.lor n SVC_OPCODE ∧ word_at m (pc + 4) = encode_a32_ret ∧
    linked_host_functions d !! Z.to_nat (n - SVC_LINKED_FUNCTIONS_BASE) = Some (symbol, f).

(** That is what the handler of supervisor calls finds. *)
Lemma host_call_handler d m pc f n :
  host_call d m pc f → 0 ≤ n < 16777216 → word_at m pc = Z.lor n SVC_OPCODE → get_svc_handler dylibs bins pc n d m = Ret (Some f, d, m).
Proof.
  intros (n' & symbol & Hn & Hw & _ & Hf) Hb E. unfold get_svc_handler.
  unfold SVC_LINKED_FUNCTIONS_BASE, SVC_LAZY_LINK_RET_FLAG, SVC_LAZY_LINK, SVC_THREAD_EXIT, SVC_RETURN_TO_HOST in *.
  assert (n' = n) as -> by (rewrite E in Hw; symmetry; apply lor_svc_inj; [lia|lia|done]).
  rewrite !(proj2 (Z.eqb_neq n _)) by lia. cbn [orb]. fold SVC_LAZY_LINK_RET_FLAG. rewrite svc_index by lia.
  rewrite u32_ok by (unfold U32_MOD; lia). cbn [mbind outcome_bind]. by rewrite Hf.
Qed.

(** A stub: where it is, how long it is, its symbol, and where its pointer is. *)
Record Stub := mkStub { st_pc : Z; st_size : Z; st_symbol : list Z; st_la : Z }.
Definition code_in (s : Stub) (a : Z) : Prop := st_pc s ≤ a < st_pc s + st_size s ∨ st_la s ≤ a < st_la s + 4.

(** The original instructions load the pointer and jump there. *)
Definition jumps (m : Mem) (s : Stub) (t : Z) : Prop :=
  (st_size s = 12 ∧ (∀ i w, SYMBOL_STUB_INSTRUCTIONS !! i = Some w → word_at m (st_pc s + 4 * Z.of_nat i) = w) ∧
     word_at m (word_at m (st_pc s + 8)) = t) ∨
  (st_size s = 16 ∧ (∀ i w, PIC_SYMBOL_STUB_INSTRUCTIONS !! i = Some w → word_at m (st_pc s + 4 * Z.of_nat i) = w) ∧
     word_at m (st_pc s + 12 + word_at m (st_pc s + 12)) = t).

(** The word of the stub that says where its pointer is. *)
Definition stub_data (m : Mem) (s : Stub) : Prop :=
  if st_size s =? 12 then word_at m (st_pc s + 8) = st_la s else word_at m (st_pc s + 12) = st_la s - st_pc s - 12.

(** The stubs of the binaries that have 12 or 16 bytes. *)
Record stub_ok (s : Stub) : Prop := {
  stub_size : st_size s = 12 ∨ st_size s = 16;
  stub_range : 0 ≤ st_pc s ∧ st_pc s + st_size s < U32_MOD ∧ 0 ≤ st_la s ∧ st_la s + 4 < U32_MOD;
  stub_apart : st_pc s + st_size s ≤ st_la s ∨ st_la s + 4 ≤ st_pc s;
  stub_forward : st_size s = 16 → st_pc s + 12 ≤ st_la s;
  stub_found : ∃ sec pic info, find_stubs bins (st_pc s) = Ret (Some (sec, pic)) ∧ dyld_indirect_symbol_info sec = Some info ∧
    entry_size info = st_size s ∧ is_multiple_of (st_pc s - sec_addr sec) (st_size s) = true ∧
    info_symbols info !! Z.to_nat ((st_pc s - sec_addr sec) / st_size s) = Some (Some (st_symbol s));
  stub_target : ∀ a, exported_address bins (st_symbol s) = Some a → is_u32 a
}.

Inductive stub_state (d : Dyld) (m : Mem) (s : Stub) : Prop :=
  | stub_fresh : word_at m (st_pc s) = SVC_OPCODE → word_at m (st_pc s + 4) = encode_a32_ret → stub_state d m s
  | stub_host f : meaning (st_symbol s) = HostMeaning f → host_call d m (st_pc s) f → stub_state d m s
  | stub_trampoline f t : meaning (st_symbol s) = HostMeaning f → non_lazy_host_functions d !! st_symbol s = Some t → jumps m s t → stub_state d m s
  | stub_guest t : meaning (st_symbol s) = GuestMeaning t → jumps m s t → stub_state d m s.

Record stub_inv (d : Dyld) (m : Mem) (s : Stub) : Prop := {
  stub_static a : code_in s a → mem_static m a;
  stub_has_data : stub_data m s;
  stub_has_state : stub_state d m s
}.

(** Functions made for pointers, in blocks of the heap. *)
Definition trampolines (d : Dyld) (m : Mem) : Prop :=
  ∀ symbol p, non_lazy_host_functions d !! symbol = Some p →
    is_u32 p ∧ is_thumb p = false ∧
    (∃ f, search_host_dylibs function_exports dylibs symbol = Some (symbol, f) ∧ host_call d m p f) ∧
    ∃ n, 8 ≤ n ∧ mem_live m p n.

Variable stubs : list Stub.

Record layout_ok : Prop := {
  layout_stubs : Forall stub_ok stubs;
  layout_apart s s' a : s ∈ stubs → s' ∈ stubs → s ≠ s' → code_in s a → ¬ code_in s' a
}.

Record linker_inv (d : Dyld) (m : Mem) : Prop := {
  linker_mem : mem_ok m;
  linker_heap : is_Some (heap_allocator m);
  linker_trampolines : trampolines d m;
  linker_stubs s : s ∈ stubs → stub_inv d m s
}.

(** *** Frames *)

Definition extends (d d' : Dyld) : Prop :=
  linked_host_functions d `prefix_of` linked_host_functions d' ∧ non_lazy_host_functions d ⊆ non_lazy_host_functions d'.

Lemma host_call_same d d' m m' pc f :
  extends d d' → (∀ a, pc ≤ a < pc + 8 → byte_at m' a = byte_at m a) → host_call d m pc f → host_call d' m' pc f.
Proof.
  intros [[k Hk] _] Hb (n & symbol & Hn & Hw & Hr & Hf). exists n, symbol. split_and!; [lia|lia| | |].
  - rewrite <- Hw. apply word_at_same. intros a ?. apply Hb. lia.
  - rewrite <- Hr. apply word_at_same. intros a ?. apply Hb. lia.
  - rewrite Hk. by apply lookup_app_l_Some.
Qed.

Lemma stub_data_same m m' s :
  st_size s = 12 ∨ st_size s = 16 → (∀ a, code_in s a → byte_at m' a = byte_at m a) → stub_data m s → stub_data m' s.
Proof.
  unfold stub_data. intros Hs Hb. destruct (Z.eqb_spec (st_size s) 12); intros H; rewrite <- H; apply word_at_same; intros a Ha; apply Hb; left; lia.
Qed.

Lemma jumps_same m m' s t : stub_data m s → (∀ a, code_in s a → byte_at m' a = byte_at m a) → jumps m s t → jumps m' s t.
Proof.
  unfold stub_data. intros Hd Hb [(Hs & Hi & Ht)|(Hs & Hi & Ht)]; [left|right]; rewrite Hs in Hd; simpl in Hd; split; [done| |done|].
  - split.
    + intros i w Hw. rewrite <- (Hi i w Hw). apply word_at_same. intros a Ha. apply Hb. left. apply lookup_lt_Some in Hw. simpl in Hw. lia.
    + assert (word_at m' (st_pc s + 8) = word_at m (st_pc s + 8)) as -> by (apply word_at_same; intros a Ha; apply Hb; left; lia).
      rewrite <- Ht. apply word_at_same. intros a Ha. apply Hb. right. by rewrite Hd in Ha.
  - split.
    + intros i w Hw. rewrite <- (Hi i w Hw). apply word_at_same. intros a Ha. apply Hb. left. apply lookup_lt_Some in Hw. simpl in Hw. lia.
    + assert (word_at m' (st_pc s + 12) = word_at m (st_pc s + 12)) as -> by (apply word_at_same; intros a Ha; apply Hb; left; lia).
      rewrite <- Ht. apply word_at_same. intros a Ha. apply Hb. right. rewrite Hd in Ha. lia.
Qed.

Lemma stub_inv_same d d' m m' s :
  stub_ok s → extends d d' → (∀ a, code_in s a → mem_static m' a) → (∀ a, code_in s a → byte_at m' a = byte_at m a) →
  stub_inv d m s → stub_inv d' m' s.
Proof.
  intros Hok Hext Hst Hb [_ Hd Hs]. pose proof (stub_size s Hok) as Hsz. split; [done|by eapply stub_data_same|].
  destruct Hs as [Hf Hr|f Hm Hc|f t Hm Ht Hj|t Hm Hj].
  - apply stub_fresh; [rewrite <- Hf|rewrite <- Hr]; apply word_at_same; intros a Ha; apply Hb; left; lia.
  - apply (stub_host _ _ _ f Hm). apply (host_call_same d d' m m'); [done| |done]. intros a Ha. apply Hb. left. lia.
  - apply (stub_trampoline _ _ _ f t Hm); [|by eapply jumps_same]. eapply lookup_weaken; [done|apply Hext].
  - apply (stub_guest _ _ _ t Hm). by eapply jumps_same.
Qed.

Lemma trampolines_same d d' m m' :
  extends d d' → non_lazy_host_functions d' = non_lazy_host_functions d → trampolines d m →
  (∀ b n, mem_live m b n → mem_live m' b n) →
  (∀ symbol p a, non_lazy_host_functions d !! symbol = Some p → p ≤ a < p + 8 → byte_at m' a = byte_at m a) → trampolines d' m'.
Proof.
  intros Hext E Ht Hl Hb symbol p Hp. rewrite E in Hp. destruct (Ht symbol p Hp) as (Hu & Hth & (f & Hf & Hc) & n & Hn & Hln).
  split_and!; [done|done| |exists n; split; [done|by apply Hl]].
  exists f. split; [done|]. apply (host_call_same d d' m m'); [done| |done]. intros a Ha. by apply (Hb symbol p).
Qed.

(** *** Rewriting a stub *)

(** The instructions [l], the word after them, and the pointer at [la]. *)
Lemma rewrite_stub_words l m pc la target v :
  l ≠ [] → Forall is_u32 l → 0 ≤ pc → pc + 4 * Z.of_nat (length l) + 4 < U32_MOD → 0 ≤ la → la + 4 < U32_MOD →
  pc + 4 * Z.of_nat (length l) + 4 ≤ la ∨ la + 4 ≤ pc → is_u32 target → word_at m (pc + 4 * Z.of_nat (length l)) = v →
  ∃ m1 m2, write_instrs pc l m = Ret m1 ∧ read_u32 (pc + 4 * Z.of_nat (length l)) m1 = Ret v ∧ write_u32 la target m1 = Ret m2 ∧
    patched (λ a, pc ≤ a < pc + 4 * Z.of_nat (length l) + 4 ∨ la ≤ a < la + 4) m m2 ∧
    (∀ i w, l !! i = Some w → word_at m2 (pc + 4 * Z.of_nat i) = w) ∧ word_at m2 (pc + 4 * Z.of_nat (length l)) = v ∧ word_at m2 la = target.
Proof.
  intros Hne Hl H0 H1 H2 H3 Hap Ht Hv. destruct (write_instrs_spec l m pc) as (m1 & E1 & P1 & W1); [done|lia|lia|done|].
  assert (word_at m1 (pc + 4 * Z.of_nat (length l)) = v) as Hv1 by (rewrite <- Hv; apply (patched_word _ _ _ _ P1); intros a Ha; lia).
  destruct (write_u32_word m1 la target) as (m2 & E2 & P2 & W2); [lia|lia|done|].
  exists m1, m2. split_and!; [done|rewrite read_u32_word, Hv1 by lia; done|done| | | |done].
  - eapply patched_trans; [|exact P1|exact P2]. intros a. simpl. lia.
  - intros i w Hw. rewrite <- (W1 i w Hw). apply (patched_word _ _ _ _ P2). intros a Ha. apply lookup_lt_Some in Hw. lia.
  - rewrite <- Hv1. apply (patched_word _ _ _ _ P2). intros a Ha. lia.
Qed.

Lemma restore_stub s m target pic :
  stub_ok s → stub_data m s → is_u32 target →
  ∃ m', link_by_restoring_stub target (st_pc s) (st_size s) pic m = Ret (st_la s, m') ∧
    patched (code_in s) m m' ∧ jumps m' s target ∧ stub_data m' s.
Proof.
  intros [Hs (H0 & H1 & H2 & H3) Hap Hfw _ _] Hd Ht. unfold stub_data in Hd. unfold link_by_restoring_stub.
  destruct Hs as [Hs|Hs]; rewrite Hs in *.
  - change (12 =? 12) with true in *. change (12 =? 4) with false. cbv iota in Hd |- *.
    destruct (rewrite_stub_words SYMBOL_STUB_INSTRUCTIONS m (st_pc s) (st_la s) target (st_la s)) as (m1 & m2 & E1 & R & E2 & P & W & D & T);
      [done|repeat constructor; done|done|cbn [length SYMBOL_STUB_INSTRUCTIONS]; lia..|done|exact Hd|].
    rewrite E1. cbn [mbind outcome_bind]. rewrite ptr_add_4 by lia. cbn [mbind outcome_bind].
    change (read_u32 (st_pc s + 2 * 4) m1) with (read_u32 (st_pc s + 4 * Z.of_nat (length SYMBOL_STUB_INSTRUCTIONS)) m1). rewrite R. cbn [mbind outcome_bind].
    rewrite E2. exists m2. split; [done|]. split_and!; [|left; split_and!; [done|exact W|]|unfold stub_data; rewrite Hs; exact D].
    + eapply patched_weaken; [|exact P]. unfold code_in. rewrite Hs. cbn [length SYMBOL_STUB_INSTRUCTIONS]. intros a. lia.
    + change (st_pc s + 8) with (st_pc s + 4 * Z.of_nat (length SYMBOL_STUB_INSTRUCTIONS)). by rewrite D.
  - change (16 =? 12) with false in *. change (16 =? 4) with false. change (16 =? 16) with true. cbv iota in Hd |- *. specialize (Hfw eq_refl).
    destruct (rewrite_stub_words PIC_SYMBOL_STUB_INSTRUCTIONS m (st_pc s) (st_la s) target (st_la s - st_pc s - 12)) as (m1 & m2 & E1 & R & E2 & P & W & D & T);
      [done|repeat constructor; done|done|cbn [length PIC_SYMBOL_STUB_INSTRUCTIONS]; lia..|done|exact Hd|].
    rewrite E1. cbn [mbind outcome_bind]. rewrite ptr_add_4 by lia. cbn [mbind outcome_bind].
    change (read_u32 (st_pc s + 3 * 4) m1) with (read_u32 (st_pc s + 4 * Z.of_nat (length PIC_SYMBOL_STUB_INSTRUCTIONS)) m1). rewrite R. cbn [mbind outcome_bind].
    rewrite !u32_ok by lia. cbn [mbind outcome_bind]. rewrite u32_ok by lia. cbn [mbind outcome_bind].
    replace (st_pc s + (st_la s - st_pc s - 12) + 12) with (st_la s) by lia. rewrite E2.
    exists m2. split; [done|]. split_and!; [|right; split_and!; [done|exact W|]|unfold stub_data; rewrite Hs; exact D].
    + eapply patched_weaken; [|exact P]. unfold code_in. rewrite Hs. cbn [length PIC_SYMBOL_STUB_INSTRUCTIONS]. intros a. lia.
    + change (word_at m2 (st_pc s + 12)) with (word_at m2 (st_pc s + 4 * Z.of_nat (length PIC_SYMBOL_STUB_INSTRUCTIONS))). rewrite D, <- T. f_equal. lia.
Qed.

(** Room in the table of functions for one more. *)
Definition table_room (d : Dyld) : Prop := Z.of_nat (length (linked_host_functions d)) + SVC_LINKED_FUNCTIONS_BASE < SVC_LAZY_LINK_RET_FLAG.

Lemma next_svc_eq d : table_room d → next_svc d = Ret (Z.of_nat (length (linked_host_functions d)) + SVC_LINKED_FUNCTIONS_BASE).
Proof.
  unfold table_room, next_svc, SVC_LINKED_FUNCTIONS_BASE, SVC_LAZY_LINK_RET_FLAG, SVC_RETURN_TO_HOST. intros H.
  rewrite u32_ok by (unfold U32_MOD; lia). cbn [mbind outcome_bind]. rewrite u32_ok by (unfold U32_MOD; lia). done.
Qed.

Lemma linked_last d symbol f : linked_host_functions (push_function symbol f d) !! length (linked_host_functions d) = Some (symbol, f).
Proof. simpl. by rewrite lookup_app_r, Nat.sub_diag. Qed.

Lemma push_extends symbol f d : extends d (push_function symbol f d).
Proof. split; [by exists [(symbol, f)]|done]. Qed.

Lemma link_host_spec s m d symbol f :
  stub_ok s → stub_data m s → word_at m (st_pc s + 4) = encode_a32_ret → table_room d →
  ∃ m', link_host_function symbol f (st_pc s) (st_size s) d m = Ret (push_function symbol f d, m') ∧
    patched (code_in s) m m' ∧ host_call (push_function symbol f d) m' (st_pc s) f ∧ stub_data m' s.
Proof.
  intros Hok Hd Hret Hroom. pose proof (stub_size s Hok) as Hs. destruct (stub_range s Hok) as (H0 & H1 & _).
  set (n := Z.of_nat (length (linked_host_functions d)) + SVC_LINKED_FUNCTIONS_BASE).
  assert (SVC_LINKED_FUNCTIONS_BASE ≤ n < SVC_LAZY_LINK_RET_FLAG) as Hn by (unfold table_room in Hroom; unfold n; lia).
  pose proof Hn as Hn'. unfold SVC_LINKED_FUNCTIONS_BASE, SVC_LAZY_LINK_RET_FLAG, SVC_RETURN_TO_HOST in Hn'.
  destruct (svc_word n) as [En Ew]; [lia|]. unfold link_host_function. rewrite next_svc_eq by done. fold n. cbn [mbind outcome_bind].
  rewrite (proj2 (Z.eqb_neq (st_size s) 4)) by lia. cbn [mbind outcome_bind negb]. rewrite En. cbn [mbind outcome_bind].
  destruct (write_u32_word m (st_pc s) (Z.lor n SVC_OPCODE)) as (m1 & -> & P1 & W1); [lia|lia|rewrite Ew; unfold SVC_OPCODE, U32_MOD; lia|]. cbn [mbind outcome_bind].
  rewrite ptr_add_4 by lia. cbn [mbind outcome_bind]. rewrite read_u32_word by lia. cbn [mbind outcome_bind].
  assert (word_at m1 (st_pc s + 1 * 4) = encode_a32_ret) as Er by (rewrite <- Hret; apply (patched_word _ _ _ _ P1); intros a Ha; lia).
  rewrite Er, Z.eqb_refl. cbn [mbind outcome_bind rassert]. exists m1. split; [done|]. split_and!.
  - eapply patched_weaken; [|exact P1]. intros a Ha. left. simpl in Ha. lia.
  - exists n, symbol. split_and!; [lia|lia|done|exact Er|]. replace (Z.to_nat (n - SVC_LINKED_FUNCTIONS_BASE)) with (length (linked_host_functions d)) by (unfold n; lia).
    apply linked_last.
  - unfold stub_data in *. destruct (Z.eqb_spec (st_size s) 12); rewrite <- Hd; apply (patched_word _ _ _ _ P1); intros a Ha; lia.
Qed.

(** *** The invariant *)

(** After stub [s] alone was rewritten. *)
Lemma relinked d d' m m' s :
  layout_ok → linker_inv d m → s ∈ stubs → extends d d' → non_lazy_host_functions d' = non_lazy_host_functions d →
  patched (code_in s) m m' → stub_data m' s → stub_state d' m' s → linker_inv d' m'.
Proof.
  intros [Hok Hap] [Hm Hh Ht Hst] Hs Hext En P Hd Hstate. rewrite Forall_forall in Hok. split.
  - by eapply patched_ok.
  - by rewrite (patched_heap _ _ _ P).
  - apply (trampolines_same d d' m m'); [done|done|done|intros b n; by apply (patched_live _ _ _ _ _ P)|].
    intros symbol p a Hp Ha. apply (patched_bytes _ _ _ P). intros Hin. destruct (Ht symbol p Hp) as (_ & _ & _ & n & Hn & Hl).
    apply (static_not_live m a p n Hm (stub_static _ _ _ (Hst s Hs) a Hin) Hl). lia.
  - intros s' Hs'. destruct (decide (st_pc s = st_pc s' ∧ st_size s = st_size s' ∧ st_symbol s = st_symbol s' ∧ st_la s = st_la s')) as [E|Hne].
    + assert (s = s') as <- by (destruct s, s'; simpl in E; naive_solver).
      split; [|done|done]. intros a Ha. apply (patched_static _ _ _ _ P). by apply (stub_static _ _ _ (Hst s Hs)).
    + assert (s ≠ s') as Hne' by (intros ->; by apply Hne).
      apply (stub_inv_same d d' m m'); [by apply Hok|done| | |by apply Hst].
      * intros a Ha. apply (patched_static _ _ _ _ P). by apply (stub_static _ _ _ (Hst s' Hs')).
      * intros a Ha. apply (patched_bytes _ _ _ P). intros Ha'. by apply (Hap s s' a Hs Hs' Hne' Ha').
Qed.

(** What calling the stub does. *)
Definition linked_to (d : Dyld) (m : Mem) (s : Stub) (r : option HostFunction) : Prop :=
  match r with
  | Some f => meaning (st_symbol s) = HostMeaning f ∧ host_call d m (st_pc s) f
  | None =>
      ∃ t, jumps m s t ∧
        (meaning (st_symbol s) = GuestMeaning t ∨ ∃ f, meaning (st_symbol s) = HostMeaning f ∧ host_call d m t f)
  end.

(** A function that never returns must be there. *)
Definition returns_ok (symbol : list Z) : Prop :=
  search_host_dylibs function_exports dylibs symbol = None → exported_address bins symbol = None → symbol ∉ NORETURN_FUNCS.

Lemma lazy_link_spec d m s :
  layout_ok → linker_inv d m → s ∈ stubs → table_room d → returns_ok (st_symbol s) → word_at m (st_pc s + 4) = encode_a32_ret →
  ∃ r d' m', do_lazy_link dylibs bins (st_pc s) d m = Ret (r, d', m') ∧ linked_to d' m' s r ∧ extends d d' ∧ patched (code_in s) m m' ∧ linker_inv d' m'.
Proof.
  intros HL Hinv Hs Hroom Hret Hword. pose proof (proj1 (Forall_forall _ _) (layout_stubs HL) s Hs) as Hok.
  pose proof (stub_has_data _ _ _ (linker_stubs _ _ Hinv s Hs)) as Hd.
  destruct (stub_found s Hok) as (sec & pic & info & Ef & Ei & Ee & Em & Es). unfold do_lazy_link. rewrite Ef. cbn [mbind outcome_bind unwrap].
  rewrite Ei. cbn [mbind outcome_bind unwrap]. rewrite Ee, Em. cbn [mbind outcome_bind rassert]. rewrite Es. cbn [mbind outcome_bind unwrap].
  destruct (non_lazy_host_functions d !! st_symbol s) as [t|] eqn:Et.
  { destruct (linker_trampolines _ _ Hinv _ _ Et) as (Htu & _ & (f & Hf & Hc) & _).
    assert (meaning (st_symbol s) = HostMeaning f) as Hmean by (unfold meaning; by rewrite Hf).
    destruct (restore_stub s m t pic Hok Hd Htu) as (m' & -> & P & J & D). cbn [mbind outcome_bind].
    assert (linker_inv d m') as Hinv'.
    { apply (relinked d d m m' s); [done..| |done|done|done|]. { by split. } by apply (stub_trampoline _ _ _ f t). }
    exists None, d, m'. split_and!; [done| |by split|done|done]. exists t. split; [done|]. right. exists f. split; [done|].
    destruct (linker_trampolines _ _ Hinv' _ _ Et) as (_ & _ & (f' & Hf' & Hc') & _). rewrite Hf in Hf'. by injection Hf' as <-. }
  destruct (search_host_dylibs function_exports dylibs (st_symbol s)) as [[sym f]|] eqn:Esearch.
  { assert (meaning (st_symbol s) = HostMeaning f) as Hmean by (unfold meaning; by rewrite Esearch).
    destruct (link_host_spec s m d sym f Hok Hd Hword Hroom) as (m' & -> & P & C & D). cbn [mbind outcome_bind].
    exists (Some f), (push_function sym f d), m'. split_and!; [done|by split|apply push_extends|done|].
    apply (relinked d _ m m' s); [done..|apply push_extends|done|done|done|]. by apply (stub_host _ _ _ f). }
  destruct (exported_address bins (st_symbol s)) as [t|] eqn:Ex.
  { assert (meaning (st_symbol s) = GuestMeaning t) as Hmean by (unfold meaning; by rewrite Esearch, Ex).
    destruct (restore_stub s m t pic Hok Hd (stub_target s Hok t Ex)) as (m' & -> & P & J & D). cbn [mbind outcome_bind].
    exists None, d, m'. split_and!; [done|exists t; by split; [|left]|by split|done|].
    apply (relinked d d m m' s); [done..| |done|done|done|]. { by split. } by apply (stub_guest _ _ _ t). }
  assert (meaning (st_symbol s) = HostMeaning UNIMPLEMENTED_FUNCTION_STUB) as Hmean by (unfold meaning; by rewrite Esearch, Ex).
  rewrite bool_decide_eq_false_2 by (by apply Hret). cbn [negb rassert mbind outcome_bind].
  destruct (link_host_spec s m d unimplemented_symbol UNIMPLEMENTED_FUNCTION_STUB Hok Hd Hword Hroom) as (m' & -> & P & C & D). cbn [mbind outcome_bind].
  exists (Some UNIMPLEMENTED_FUNCTION_STUB), (push_function unimplemented_symbol UNIMPLEMENTED_FUNCTION_STUB d), m'.
  split_and!; [done|by split|apply push_extends|done|].
  apply (relinked d _ m m' s); [done..|apply push_extends|done|done|done|]. by apply (stub_host _ _ _ UNIMPLEMENTED_FUNCTION_STUB).
Qed.

(** *** Functions for pointers *)

Lemma patched_fill m m1 m2 p size :
  mem_grows m m1 → fresh_block m p size m1 → patched (λ a, p ≤ a < p + size) m1 m2 → mem_grows m m2 ∧ fresh_block m p size m2.
Proof.
  intros Hg Hf [Eh Ev En Hb]. destruct (mem_grows_fill m m1 m2 p size 0) as (? & ? & _); [done|done| |done|done|done|done|done].
  intros H. lia.
Qed.

Lemma create_guest_function_spec symbol f d m p d' m' :
  mem_ok m → is_Some (heap_allocator m) → table_room d → create_guest_function symbol f d m = Ret (p, d', m') →
  d' = push_function symbol f d ∧ mem_grows m m' ∧ fresh_block m p 8 m' ∧ host_call d' m' p f.
Proof.
  intros Hm Hh Hroom E. unfold create_guest_function in E. rewrite next_svc_eq in E by done. cbn [mbind outcome_bind] in E.
  set (n := Z.of_nat (length (linked_host_functions d)) + SVC_LINKED_FUNCTIONS_BASE) in *.
  assert (SVC_LINKED_FUNCTIONS_BASE ≤ n < SVC_LAZY_LINK_RET_FLAG) as Hn by (unfold table_room in Hroom; unfold n; lia).
  pose proof Hn as Hn'. unfold SVC_LINKED_FUNCTIONS_BASE, SVC_LAZY_LINK_RET_FLAG, SVC_RETURN_TO_HOST in Hn'.
  apply bind_ret_inv in E as ([p0 m1] & Ea & E). destruct (svc_word n) as [En Ew]; [lia|]. rewrite En in E. cbn [mbind outcome_bind] in E.
  destruct (mem_alloc_grows m 8 p0 m1) as (Hg & Hf & _); [done|done|lia|done|]. destruct (fresh_range _ _ _ _ Hf) as [Hp0 Hp1].
  destruct (write_instrs_spec [Z.lor n SVC_OPCODE; encode_a32_ret] m1 p0) as (m2 & E2 & P2 & W2); [done|lia|simpl; lia| |].
  { constructor; [rewrite Ew; unfold is_u32, SVC_OPCODE, U32_MOD; lia|by repeat constructor]. }
  rewrite E2 in E. cbn [mbind outcome_bind] in E. injection E as <- <- <-.
  destruct (patched_fill m m1 m2 p0 8) as [Hg2 Hf2]; [done|done|exact P2|]. split_and!; [done|done|done|].
  exists n, symbol. split_and!; [lia|lia|rewrite <- (W2 0%nat _ eq_refl); f_equal; lia|apply (W2 1%nat _ eq_refl)|].
  replace (Z.to_nat (n - SVC_LINKED_FUNCTIONS_BASE)) with (length (linked_host_functions d)) by (unfold n; lia). apply linked_last.
Qed.

(** Memory that only grows keeps every stub and every function. *)
Lemma linker_grows d d' m m' :
  layout_ok → linker_inv d m → mem_grows m m' → extends d d' → non_lazy_host_functions d' = non_lazy_host_functions d → linker_inv d' m'.
Proof.
  intros [Hok _] [Hm Hh Ht Hst] Hg Hext En. rewrite Forall_forall in Hok. split; [apply Hg|apply Hg| |].
  - apply (trampolines_same d d' m m'); [done|done|done|apply Hg|]. intros symbol p a Hp Ha. apply (grows_kept _ _ Hg).
    destruct (Ht symbol p Hp) as (_ & _ & _ & n & Hn & Hl). right. exists p, n. split; [done|lia].
  - intros s Hs. apply (stub_inv_same d d' m m'); [by apply Hok|done| | |by apply Hst].
    + intros a Ha. by apply (grows_static _ _ Hg), (stub_static _ _ _ (Hst s Hs)).
    + intros a Ha. apply (grows_kept _ _ Hg). left. by apply (stub_static _ _ _ (Hst s Hs)).
Qed.

Lemma insert_trampoline d m symbol p f n :
  linker_inv d m → non_lazy_host_functions d !! symbol = None → is_u32 p → is_thumb p = false →
  search_host_dylibs function_exports dylibs symbol = Some (symbol, f) → host_call d m p f → mem_live m p n → 8 ≤ n →
  layout_ok → linker_inv (insert_non_lazy symbol p d) m.
Proof.
  intros [Hm Hh Ht Hst] Hnone Hu Hth Hf Hc Hl Hn [Hok _]. rewrite Forall_forall in Hok.
  assert (extends d (insert_non_lazy symbol p d)) as Hext by (split; [done|by apply insert_subseteq]).
  split; [done|done| |].
  - intros symbol' p' Hp'. simpl in Hp'. destruct (decide (symbol' = symbol)) as [->|Hne].
    + rewrite lookup_insert_eq in Hp'. injection Hp' as <-. split_and!; [done|done|exists f; split; [done|exact Hc]|by exists n].
    + rewrite lookup_insert_ne in Hp' by done. exact (Ht symbol' p' Hp').
  - intros s Hs. apply (stub_inv_same d _ m m); [by apply Hok|done| |done|by apply Hst]. apply (stub_static _ _ _ (Hst s Hs)).
Qed.

Lemma aligned_not_thumb p : (MIN_CHUNK_SIZE | p) → is_thumb p = false.
Proof.
  intros [k ->]. unfold is_thumb, MIN_CHUNK_SIZE, THUMB_BIT. change 1 with (Z.ones 1) at 1. rewrite Z.land_ones by lia.
  replace (k * 16) with (0 + (k * 8) * 2 ^ 1) by (simpl; lia). rewrite Z.mod_add by done. done.
Qed.

Lemma create_proc_spec d m symbol r d' m' :
  layout_ok → linker_inv d m → table_room d → create_proc_address dylibs symbol d m = Ret (r, d', m') →
  linker_inv d' m' ∧ extends d d' ∧ mem_grows m m' ∧
  match r with
  | None => search_host_dylibs function_exports dylibs symbol = None
  | Some p => non_lazy_host_functions d' !! symbol = Some p
  end.
Proof.
  intros HL Hinv Hroom E. unfold create_proc_address, create_proc_address_no_inval in E.
  destruct (search_host_dylibs function_exports dylibs symbol) as [[sym f]|] eqn:Es; [|injection E as <- <- <-; split_and!; [done|by split|by apply mem_grows_refl; apply Hinv|done]].
  pose proof (search_symbol _ _ _ _ Es) as Hsym. simpl in Hsym. subst sym.
  destruct (non_lazy_host_functions d !! symbol) as [p|] eqn:Ep; [injection E as <- <- <-; split_and!; [done|by split|by apply mem_grows_refl; apply Hinv|done]|].
  apply bind_ret_inv in E as ([[p d1] m1] & Ec & E). injection E as <- <- <-.
  destruct (create_guest_function_spec symbol f d m p d1 m1) as (-> & Hg & Hf & Hc); [apply Hinv|apply Hinv|done|done|].
  destruct (fresh_live _ _ _ _ Hf) as (n & Hn & Hl). destruct (fresh_range _ _ _ _ Hf).
  split_and!.
  - apply (insert_trampoline _ _ _ _ f n); [|done|split; lia| |done|done|done|done|done].
    + apply (linker_grows d _ m m1); [done|done|done|apply push_extends|done].
    + apply aligned_not_thumb. eapply mem_live_aligned; [apply Hg|done].
  - split; [by exists [(symbol, f)]|]. simpl. by apply insert_subseteq.
  - done.
  - simpl. by rewrite lookup_insert_eq.
Qed.

(** ** Runs *)

(** What the guest and the rest of the host do to memory: code stays as it is. *)
Record guest_work (d : Dyld) (m m' : Mem) : Prop := {
  work_ok : mem_ok m';
  work_heap : is_Some (heap_allocator m');
  work_stubs s a : s ∈ stubs → code_in s a → mem_static m' a ∧ byte_at m' a = byte_at m a;
  work_functions symbol p : non_lazy_host_functions d !! symbol = Some p →
    (∀ a, p ≤ a < p + 8 → byte_at m' a = byte_at m a) ∧ ∀ n, mem_live m p n → mem_live m' p n
}.

(** A call of a stub that is a supervisor call, a request for the address of a function, or other work. *)
Inductive linker_step : Dyld * Mem → Dyld * Mem → Prop :=
  | step_call s n r d m d' m' :
      s ∈ stubs → table_room d → 0 ≤ n < 16777216 → word_at m (st_pc s) = Z.lor n SVC_OPCODE →
      get_svc_handler dylibs bins (st_pc s) n d m = Ret (r, d', m') → linker_step (d, m) (d', m')
  | step_address symbol r d m d' m' :
      table_room d → create_proc_address dylibs symbol d m = Ret (r, d', m') → linker_step (d, m) (d', m')
  | step_work d m m' : guest_work d m m' → linker_step (d, m) (d, m').

Lemma jumps_not_svc m s t n : 0 ≤ n < 16777216 → jumps m s t → word_at m (st_pc s) ≠ Z.lor n SVC_OPCODE.
Proof.
  intros Hn Hj. rewrite (proj2 (svc_word n Hn)). unfold SVC_OPCODE.
  destruct Hj as [(_ & Hi & _)|(_ & Hi & _)]; specialize (Hi 0%nat _ eq_refl); rewrite Z.add_0_r in Hi; rewrite Hi; lia.
Qed.

(** A lazy link that returns did not look for a function that never returns. *)
Lemma lazy_link_returns d m s x :
  stub_ok s → trampolines d m → do_lazy_link dylibs bins (st_pc s) d m = Ret x → returns_ok (st_symbol s).
Proof.
  intros Hok Ht E Hs Hx. destruct (stub_found s Hok) as (sec & pic & info & Ef & Ei & Ee & Em & Es). unfold do_lazy_link in E. rewrite Ef in E. cbn [mbind outcome_bind unwrap] in E.
  rewrite Ei in E. cbn [mbind outcome_bind unwrap] in E. rewrite Ee, Em in E. cbn [mbind outcome_bind rassert] in E. rewrite Es in E. cbn [mbind outcome_bind unwrap] in E.
  destruct (non_lazy_host_functions d !! st_symbol s) as [t|] eqn:Et.
  { destruct (Ht _ _ Et) as (_ & _ & (f & Hf & _) & _). by rewrite Hs in Hf. }
  rewrite Hs, Hx in E. apply bind_ret_inv in E as (? & Ha%rassert_inv & _). by apply negb_true_iff, bool_decide_eq_false in Ha.
Qed.

Definition unlinked (m : Mem) (s : Stub) : Prop := word_at m (st_pc s) = SVC_OPCODE.

Lemma linked_not_fresh d m s r : linked_to d m s r → ¬ unlinked m s.
Proof.
  unfold unlinked. change SVC_OPCODE with (Z.lor 0 SVC_OPCODE) at 1. destruct r as [f|].
  - intros [_ (n & symbol & Hn & Hw & _)] E. rewrite Hw in E. apply lor_svc_inj in E; [|revert Hn; unfold SVC_LINKED_FUNCTIONS_BASE, SVC_LAZY_LINK_RET_FLAG, SVC_RETURN_TO_HOST; lia..].
    subst n. unfold SVC_LINKED_FUNCTIONS_BASE, SVC_RETURN_TO_HOST in Hn. lia.
  - intros (t & Hj & _). by apply (jumps_not_svc _ _ t).
Qed.

(** A call through a stub leaves the others alone, and the called one linked. *)
Lemma call_spec d m s n r d' m' :
  layout_ok → linker_inv d m → s ∈ stubs → table_room d → 0 ≤ n < 16777216 → word_at m (st_pc s) = Z.lor n SVC_OPCODE →
  get_svc_handler dylibs bins (st_pc s) n d m = Ret (r, d', m') →
  linker_inv d' m' ∧ extends d d' ∧ patched (code_in s) m m' ∧ linked_to d' m' s r.
Proof.
  intros HL Hinv Hs Hroom Hn Hw E. pose proof (linker_stubs _ _ Hinv s Hs) as [_ _ Hstate].
  destruct Hstate as [Hf Hr|f Hm Hc|f t Hm Ht Hj|t Hm Hj].
  - assert (n = 0) as -> by (rewrite Hf in Hw; symmetry; apply lor_svc_inj; [lia|lia|done]).
    change (do_lazy_link dylibs bins (st_pc s) d m = Ret (r, d', m')) in E.
    assert (returns_ok (st_symbol s)) as Hret.
    { eapply lazy_link_returns; [|apply Hinv|done]. by apply (proj1 (Forall_forall _ _) (layout_stubs HL)). }
    destruct (lazy_link_spec d m s HL Hinv Hs Hroom Hret Hr) as (r1 & d1 & m1 & E1 & H1 & H2 & H3 & H4). rewrite E1 in E. by injection E as -> -> ->.
  - rewrite (host_call_handler d m _ f n Hc Hn Hw) in E. injection E as <- <- <-. split_and!; [done|by split|by split|by split].
  - by destruct (jumps_not_svc m s t n Hn Hj).
  - by destruct (jumps_not_svc m s t n Hn Hj).
Qed.

Lemma step_spec d m d' m' :
  layout_ok → linker_inv d m → linker_step (d, m) (d', m') →
  linker_inv d' m' ∧ extends d d' ∧ ∀ s, s ∈ stubs → ¬ unlinked m s → ¬ unlinked m' s.
Proof.
  intros HL Hinv Hstep. inversion Hstep as [s n r ? ? ? ? Hs Hroom Hn Hw E|symbol r ? ? ? ? Hroom E|? ? ? Hg]; subst.
  - destruct (call_spec d m s n r d' m') as (H1 & H2 & H3 & H4); [done..|]. split_and!; [done|done|]. intros s' Hs' Hl.
    destruct (decide (st_pc s' = st_pc s)) as [Ep|Hne]; [unfold unlinked; rewrite Ep; by apply (linked_not_fresh d' m' s r)|].
    unfold unlinked in *. rewrite (patched_word _ _ _ _ H3); [done|]. intros a Ha Hin.
    apply (layout_apart HL s s' a Hs Hs'); [by intros <-|done|]. left. pose proof (stub_size s' (proj1 (Forall_forall _ _) (layout_stubs HL) s' Hs')). lia.
  - destruct (create_proc_spec d m symbol r d' m') as (H1 & H2 & H3 & _); [done..|]. split_and!; [done|done|]. intros s Hs Hl.
    unfold unlinked in *. rewrite (word_at_same m m'); [done|]. intros a Ha. apply (grows_kept _ _ H3). left. apply (stub_static _ _ _ (linker_stubs _ _ Hinv s Hs)).
    left. pose proof (stub_size s (proj1 (Forall_forall _ _) (layout_stubs HL) s Hs)). lia.
  - destruct Hg as [Hok Hh Hst Hf]. assert (extends d' d') as Hext by by split. split_and!; [|done|].
    + split; [done|done| |].
      * intros symbol p Hp. destruct (linker_trampolines _ _ Hinv symbol p Hp) as (H1 & H2 & (f & H3 & H4) & n & H5 & H6). destruct (Hf symbol p Hp) as [Hb Hl].
        split_and!; [done|done|exists f; split; [done|by apply (host_call_same d' d' m m')]|exists n; split; [done|by apply Hl]].
      * intros s Hs. apply (stub_inv_same d' d' m m'); [by apply (proj1 (Forall_forall _ _) (layout_stubs HL))|done| | |by apply Hinv]; intros a Ha; by apply (Hst s a Hs).
    + intros s Hs. unfold unlinked. rewrite (word_at_same m m'); [done|]. intros a Ha. apply (Hst s a Hs). left.
      pose proof (stub_size s (proj1 (Forall_forall _ _) (layout_stubs HL) s Hs)). lia.
Qed.

Lemma run_spec x y :
  layout_ok → linker_inv x.1 x.2 → rtc linker_step x y →
  linker_inv y.1 y.2 ∧ extends x.1 y.1 ∧ ∀ s, s ∈ stubs → ¬ unlinked x.2 s → ¬ unlinked y.2 s.
Proof.
  intros HL Hinv Hrun. induction Hrun as [x|[d m] [d' m'] z Hstep _ IH]; [split_and!; [done|by split|done]|].
  destruct (step_spec d m d' m' HL Hinv Hstep) as (H1 & H2 & H3). destruct (IH H1) as (H4 & H5 & H6). split_and!; [done| |auto].
  destruct H2, H5. split; [by etransitivity|by etransitivity].
Qed.

(** The stub calls what its symbol means: it is linked, or it is linked by its first call. *)
Definition stub_right (d : Dyld) (m : Mem) (s : Stub) : Prop :=
  (∃ r, linked_to d m s r) ∨
  (unlinked m s ∧ (table_room d → returns_ok (st_symbol s) →
     ∃ r d' m', get_svc_handler dylibs bins (st_pc s) SVC_LAZY_LINK d m = Ret (r, d', m') ∧ linked_to d' m' s r)).

Lemma inv_stub_right d m s : layout_ok → linker_inv d m → s ∈ stubs → stub_right d m s.
Proof.
  intros HL Hinv Hs. destruct (linker_stubs _ _ Hinv s Hs) as [_ _ [Hf Hr|f Hm Hc|f t Hm Ht Hj|t Hm Hj]].
  - right. split; [done|]. intros Hroom Hret. destruct (lazy_link_spec d m s HL Hinv Hs Hroom Hret Hr) as (r & d' & m' & E & Hl & _). by exists r, d', m'.
  - left. by exists (Some f).
  - left. exists None, t. split; [done|]. right. exists f. split; [done|].
    destruct (linker_trampolines _ _ Hinv _ _ Ht) as (_ & _ & (f' & Hf' & Hc) & _). unfold meaning in Hm. rewrite Hf' in Hm. by injection Hm as <-.
  - left. exists None, t. by split; [|left].
Qed.

(** ** Setting up *)

Lemma check_instrs_ok l m p :
  0 ≤ p → p + 4 * Z.of_nat (length l) < U32_MOD → (∀ i w, l !! i = Some w → word_at m (p + 4 * Z.of_nat i) = w) → check_instrs p l m = Ret ().
Proof.
  revert p. induction l as [|w l IH]; intros p H0 Hp Hw; [done|]. cbn [check_instrs length] in *.
  rewrite read_u32_word by lia. cbn [mbind outcome_bind]. rewrite <- (Hw 0%nat w eq_refl), Z.add_0_r, Z.eqb_refl. cbn [mbind outcome_bind rassert].
  destruct l as [|w' l]; [done|]. rewrite ptr_add_4 by (cbn [length] in Hp; lia). cbn [mbind outcome_bind].
  apply IH; [lia|lia|]. intros i x Hx. rewrite <- (Hw (S i) x Hx). f_equal. lia.
Qed.

(** A stub as it is in the file. *)
Definition original (m : Mem) (s : Stub) : Prop :=
  ∀ i w, default [] (stub_instructions (st_size s)) !! i = Some w → word_at m (st_pc s + 4 * Z.of_nat i) = w.

Lemma setup_stub_spec m s addr i :
  stub_ok s → st_pc s = addr + i * st_size s → 0 ≤ i → 0 ≤ addr → original m s → stub_data m s →
  ∃ m', setup_stub addr (st_size s) (default [] (stub_instructions (st_size s))) i m = Ret m' ∧
    patched (λ a, st_pc s ≤ a < st_pc s + st_size s) m m' ∧
    word_at m' (st_pc s) = SVC_OPCODE ∧ word_at m' (st_pc s + 4) = encode_a32_ret ∧ stub_data m' s.
Proof.
  intros Hok Epc Hi Haddr Horig Hd. pose proof (stub_size s Hok) as Hs. destruct (stub_range s Hok) as (H0 & H1 & _). unfold setup_stub.
  rewrite (u32_ok (i * st_size s)) by nia. cbn [mbind outcome_bind]. rewrite <- Epc, u32_ok by lia. cbn [mbind outcome_bind].
  rewrite check_instrs_ok; [|done| |exact Horig]; cycle 1. { destruct Hs as [E|E]; rewrite E; simpl; lia. }
  cbn [mbind outcome_bind]. rewrite (proj2 (Z.eqb_neq (st_size s) 4)) by lia. change (encode_a32_svc SVC_LAZY_LINK) with (@Ret Z SVC_OPCODE). cbn [mbind outcome_bind].
  destruct (write_instrs_spec [SVC_OPCODE; encode_a32_ret] m (st_pc s)) as (m1 & -> & P1 & W1); [done|lia|simpl; lia|by repeat constructor|]. cbn [mbind outcome_bind length] in P1 |- *.
  pose proof (W1 0%nat _ eq_refl) as Wa. pose proof (W1 1%nat _ eq_refl) as Wb. rewrite Z.add_0_r in Wa. change (4 * Z.of_nat 1) with 4 in Wb.
  unfold stub_data in *. destruct Hs as [Hs|Hs]; rewrite Hs in *.
  - change (12 =? 16) with false. change (12 =? 12) with true in *. cbv iota in *. exists m1. split; [done|]. split_and!; [|done|done|].
    + eapply patched_weaken; [|exact P1]. intros a. simpl. lia.
    + rewrite <- Hd. apply (patched_word _ _ _ _ P1). intros a Ha. simpl. lia.
  - change (16 =? 16) with true. change (16 =? 12) with false in *. cbv iota in *. rewrite ptr_add_4 by lia. cbn [mbind outcome_bind].
    destruct (write_u32_word m1 (st_pc s + 2 * 4) encode_a32_trap) as (m2 & -> & P2 & _); [lia|lia|done|]. exists m2. split; [done|]. split_and!.
    + eapply patched_trans; [|exact P1|exact P2]. intros a. simpl. lia.
    + rewrite <- Wa. apply (patched_word _ _ _ _ P2). intros a Ha. simpl. lia.
    + rewrite <- Wb. apply (patched_word _ _ _ _ P2). intros a Ha. simpl. lia.
    + rewrite <- Hd. etransitivity; [apply (patched_word _ _ _ _ P2)|apply (patched_word _ _ _ _ P1)]; intros a Ha; simpl; lia.
Qed.

(** The stubs from number [k] on, one behind the other. *)
Definition in_row (addr size : Z) (k : nat) (l : list Stub) : Prop :=
  ∀ i s, l !! i = Some s → st_pc s = addr + Z.of_nat (k + i) * size ∧ st_size s = size.

Lemma setup_row l addr size k m :
  Forall stub_ok l → in_row addr size k l → 0 ≤ addr → (∀ s s' a, s ∈ l → s' ∈ l → s ≠ s' → code_in s a → ¬ code_in s' a) → NoDup l →
  (∀ s, s ∈ l → original m s ∧ stub_data m s) →
  ∃ m', for_each (setup_stub addr size (default [] (stub_instructions size))) (seqZ (Z.of_nat k) (Z.of_nat (length l))) m = Ret m' ∧
    patched (λ a, ∃ s, s ∈ l ∧ st_pc s ≤ a < st_pc s + st_size s) m m' ∧
    ∀ s, s ∈ l → word_at m' (st_pc s) = SVC_OPCODE ∧ word_at m' (st_pc s + 4) = encode_a32_ret ∧ stub_data m' s.
Proof.
  revert k m. induction l as [|s l IH]; intros k m Hok Hrow Haddr Hap Hnd Horig.
  { exists m. split_and!; [done|by split|]. intros s Hs. by apply not_elem_of_nil in Hs. }
  apply Forall_cons in Hok as [Hs Hok]. apply NoDup_cons in Hnd as [Hni Hnd]. destruct (Horig s) as [Ho Hd]; [left|].
  destruct (Hrow 0%nat s eq_refl) as [Epc Esz]. rewrite Nat.add_0_r in Epc.
  destruct (setup_stub_spec m s addr (Z.of_nat k)) as (m1 & E1 & P1 & Wa & Wb & Hd1); [done|by rewrite Esz|lia|lia|done|done|].
  assert (∀ s', s' ∈ l → ∀ a, code_in s' a → byte_at m1 a = byte_at m a) as Hsame.
  { intros s' Hs' a Ha. apply (patched_bytes _ _ _ P1). intros Hin. apply (Hap s s' a); [left|by right|by intros ->|by left|done]. }
  destruct (IH (S k) m1) as (m' & E2 & P2 & H2); [done| |done| |done| |].
  { intros i s' Hi. destruct (Hrow (S i) s' Hi) as [Ep Es]. split; [rewrite Ep; f_equal; lia|done]. }
  { intros s1 s2 a H1 H2'. apply Hap; by right. }
  { intros s' Hs'. destruct (Horig s') as [Ho' Hd']; [by right|]. assert (stub_ok s') as Hok' by (by apply (proj1 (Forall_forall _ _) Hok)).
    split; [|eapply stub_data_same; [apply Hok'|by apply Hsame|done]]. intros i w Hw. rewrite <- (Ho' i w Hw). apply word_at_same. intros a Ha.
    apply (Hsame s' Hs'). left. apply lookup_lt_Some in Hw. destruct (stub_size s' Hok') as [Es|Es]; rewrite Es in Hw |- *; simpl in Hw; lia. }
  exists m'. cbn [length]. rewrite Nat2Z.inj_succ, seqZ_cons by lia. rewrite Z.pred_succ. replace (Z.succ (Z.of_nat k)) with (Z.of_nat (S k)) by lia.
  cbn [for_each]. rewrite Esz in E1. rewrite E1. cbn [mbind outcome_bind]. split; [exact E2|].
  assert (∀ a, code_in s a → byte_at m' a = byte_at m1 a) as Hsame2.
  { intros a Ha. apply (patched_bytes _ _ _ P2). intros (s' & Hs' & Hin). apply (Hap s s' a); [left|by right|by intros ->|done|by left]. }
  split.
  - eapply patched_trans; [|exact P1|exact P2]. intros a [Ha|(s' & Hs' & Ha)]; [exists s; split; [left|done]|exists s'; split; [by right|done]].
  - intros s' [-> |Hs']%elem_of_cons; [|by apply H2]. pose proof (stub_size s Hs). split_and!; [rewrite <- Wa|rewrite <- Wb|by eapply stub_data_same]; apply word_at_same; intros a Ha; apply Hsame2; left; lia.
Qed.

(** Setting up the stubs of a binary establishes the invariant for a new linker. *)
Lemma setup_establishes bin sec info m :
  layout_ok → NoDup stubs → mem_ok m → is_Some (heap_allocator m) →
  get_section_by_type SymbolStubs bin = Some sec → dyld_indirect_symbol_info sec = Some info → (entry_size info = 12 ∨ entry_size info = 16) →
  0 ≤ sec_addr sec → sec_size sec = Z.of_nat (length stubs) * entry_size info → in_row (sec_addr sec) (entry_size info) 0 stubs →
  (∀ s, s ∈ stubs → original m s ∧ stub_data m s ∧ ∀ a, code_in s a → mem_static m a) →
  ∃ m', setup_lazy_linking bin m = Ret m' ∧ linker_inv Dyld_new m' ∧ ∀ s, s ∈ stubs → unlinked m' s ∧ word_at m' (st_pc s + 4) = encode_a32_ret.
Proof.
  intros [Hok Hap] Hnd Hm Hh Esec Einfo Hsz Haddr Hsize Hrow Horig. unfold setup_lazy_linking. rewrite Esec, Einfo. cbn [unwrap mbind outcome_bind].
  destruct (setup_row stubs (sec_addr sec) (entry_size info) 0 m) as (m' & E & P & H); [done|done|done|done|done|intros s Hs; by split; apply Horig|].
  assert (stub_instructions (entry_size info) = Some (default [] (stub_instructions (entry_size info)))) as -> by (by destruct Hsz as [-> | ->]).
  cbn [unwrap mbind outcome_bind]. rewrite Hsize, Z.mod_mul, Z.div_mul by lia. cbn [rassert mbind outcome_bind Z.eqb].
  exists m'. split; [exact E|]. split; [|intros s Hs; split; by apply H]. split; [by eapply patched_ok|by rewrite (patched_heap _ _ _ P)| |].
  - intros symbol p Hp. simpl in Hp. by rewrite lookup_empty in Hp.
  - intros s Hs. destruct (H s Hs) as (Ha & Hb & Hd). split; [|done|by apply stub_fresh]. intros a Hin. apply (patched_static _ _ _ _ P). by apply (Horig s Hs).
Qed.

End linking.

(** ** An example *)

(** A host library with one function; a binary with two stubs of 12 bytes, for that function and for one of its own. *)
Definition demo_dylib : HostDylib := mkDylib [] [] [] [] [[([95; 112], HostFn 7)]].
Definition demo_stub_section : MachSection :=
  mkSection (bytes_of "__symbol_stub4") 1024 24 SymbolStubs (Some (mkIndirectInfo 12 [Some [95; 112]; Some [95; 113]])).
Definition demo_bin : MachO := mkMachO [] [] [demo_stub_section] {[ [95; 113] := 3000 ]} [] None 0.
Definition demo_stubs : list Stub := [mkStub 1024 12 [95; 112] 2048; mkStub 1036 12 [95; 113] 2052].
Definition demo_words : list Z := SYMBOL_STUB_INSTRUCTIONS ++ [2048] ++ SYMBOL_STUB_INSTRUCTIONS ++ [2052].

Lemma demo_layout : layout_ok [demo_bin] demo_stubs.
Proof.
  split.
  - apply List.Forall_cons; [|apply List.Forall_cons; [|apply List.Forall_nil]]; split; simpl;
      [lia|unfold U32_MOD; lia|lia|lia|do 3 eexists; split_and!; reflexivity|intros a Ha; vm_compute in Ha; by simplify_eq
      |lia|unfold U32_MOD; lia|lia|lia|do 3 eexists; split_and!; reflexivity|intros a Ha; vm_compute in Ha; by simplify_eq].
  - intros s s' a Hs Hs' Hne. apply list_elem_of_In in Hs, Hs'. simpl in Hs, Hs'.
    destruct Hs as [<-|[<-|[]]], Hs' as [<-|[<-|[]]]; try done; unfold code_in; simpl; lia.
Qed.

Lemma demo_linker : ∃ m, setup_lazy_linking demo_bin m ≠ Panic ∧
  ∃ m', setup_lazy_linking demo_bin m = Ret m' ∧ linker_inv [demo_dylib] [demo_bin] demo_stubs Dyld_new m' ∧ ∀ s, s ∈ demo_stubs → unlinked m' s ∧ word_at m' (st_pc s + 4) = encode_a32_ret.
Proof.
  destruct demo_mem_room as (m & _ & Hm & Hh & _ & _ & Hst).
  destruct (write_instrs_spec demo_words m 1024) as (m1 & _ & P & W); [done|lia|simpl; unfold U32_MOD; lia|repeat constructor; done|].
  destruct (setup_establishes [demo_dylib] [demo_bin] demo_stubs demo_bin demo_stub_section (mkIndirectInfo 12 [Some [95; 112]; Some [95; 113]]) m1) as (m' & E & Hinv & Hun).
  - exact demo_layout.
  - repeat constructor; rewrite list_elem_of_In; simpl; [intros [[=]|[]]|intros []].
  - by eapply patched_ok.
  - by rewrite (patched_heap _ _ _ P).
  - reflexivity.
  - reflexivity.
  - by left.
  - simpl; lia.
  - reflexivity.
  - intros [|[|i]] s; [intros [= <-]; by split|intros [= <-]; by split|intros H; discriminate H].
  - intros s Hs. apply list_elem_of_In in Hs. simpl in Hs. destruct Hs as [<-|[<-|[]]]; split_and!.
    + intros [|[|i]] w; [intros [= <-]; apply (W 0%nat _ eq_refl)|intros [= <-]; apply (W 1%nat _ eq_refl)|intros H; discriminate H].
    + apply (W 2%nat _ eq_refl).
    + unfold code_in. simpl. intros a Ha. apply (patched_static _ _ _ _ P). apply Hst. lia.
    + intros [|[|i]] w; [intros [= <-]; apply (W 3%nat _ eq_refl)|intros [= <-]; apply (W 4%nat _ eq_refl)|intros H; discriminate H].
    + apply (W 5%nat _ eq_refl).
    + unfold code_in. simpl. intros a Ha. apply (patched_static _ _ _ _ P). apply Hst. lia.
  - exists m1. split; [by rewrite E|]. by exists m'.
Qed.


(** *** Stubs of one instruction *)

Lemma stub1_offset p : 0 ≤ p < 4096 → Z.land (Z.lor 3852464128 p) 4095 = p.
Proof.
  intros Hp. rewrite Z.land_lor_distr_l. change (Z.land 3852464128 4095) with 0. rewrite Z.lor_0_l. change 4095 with (Z.ones 12).
  rewrite Z.land_ones by lia. apply Z.mod_small. simpl. lia.
Qed.

(** A stub of four bytes, [ldr pc, [pc, #offset]], reads from eight bytes behind itself plus
    the offset; what is put into the instruction is the distance from the stub to its pointer
    without the eight.  The instruction and the linker agree, so that the call gets to the
    function, but the pointer they use is the second one after the stub's own: for the last
    two stubs of a binary, it is outside of the section of pointers, and other data there
    is overwritten. *)
Lemma stub1_uses_a_later_pointer m pc pic target :
  0 ≤ pc → 0 ≤ pic < 4096 → pc + pic + 12 < U32_MOD → is_u32 target →
  ∃ m', link_by_restoring_stub target pc 4 pic m = Ret (pc + pic + 8, m') ∧ word_at m' (pc + pic + 8) = target.
Proof.
  intros H0 Hpic H1 Ht. unfold link_by_restoring_stub. change (4 =? 4) with true. cbv iota. cbn [SYMBOL_STUB1_INSTRUCTIONS lookup list_lookup unwrap mbind outcome_bind].
  assert (is_u32 (Z.lor 3852464128 pic)) as Hu.
  { rewrite Z.lor_comm.
    assert (0 ≤ Z.lor pic 3852464128) by (apply Z.lor_nonneg; lia). split; [done|].
    destruct (decide (pic = 0)) as [-> |]; [done|]. apply Z.log2_lt_pow2 with (b := 32); [|].
    - assert (Z.lor pic 3852464128 ≠ 0) by (intros Hz; apply Z.lor_eq_0_iff in Hz; lia). lia.
    - rewrite Z.log2_lor by lia. apply Z.max_lub_lt; [|done]. apply Z.log2_lt_pow2; simpl; lia. }
  destruct (write_u32_word m pc (Z.lor 3852464128 pic)) as (m1 & -> & P1 & W1); [lia|lia|done|]. cbn [mbind outcome_bind].
  rewrite read_u32_word by lia. cbn [mbind outcome_bind]. rewrite W1, stub1_offset by lia. rewrite u32_ok by lia. cbn [mbind outcome_bind].
  rewrite u32_ok by lia. cbn [mbind outcome_bind]. destruct (write_u32_word m1 (pc + pic + 8) target) as (m2 & -> & _ & W2); [lia|lia|done|]. by exists m2.
Qed.
