(* ===== verification/Printf.v ===== *)
(** * Formatted output and input ([libc/stdio/printf.rs])

    [printf_inner] goes through a format string and takes its arguments from a [va_list];
    the [sprintf] family puts the result into guest memory.  [sscanf_common_generic] reads
    from a string or a stream.  Conversions of floating-point numbers ([%f], [%e], [%g]), of
    objects ([%@]) and of wide strings ([%S], [%ls]) are an argument, [other]: they are
    formatted by the standard library, by code of the guest, and with the locale. *)

From S2P Require Import Prelude ChunkMap SizeBucketed VMAllocator HeapAllocator GuestMem GenericChar CString Env Pthread Semaphore StrToInt Fs Abi.

(** ** Rust's formatting of integers and strings *)

Definition digit_char (upper : bool) (d : Z) : Z := if d <? 10 then 48 + d else if upper then 55 + d else 87 + d.
(** The digits of a number below [2 ^ 64], which has at most 64 of them. *)
Fixpoint radix_digits (fuel : nat) (base : Z) (upper : bool) (v : Z) : list Z :=
  match fuel with
  | O => []
  | S fuel => (if v <? base then [] else radix_digits fuel base upper (v / base)) ++ [digit_char upper (v mod base)]
  end.
Definition radix_text (base : Z) (upper : bool) (v : Z) : list Z := radix_digits 64 base upper v.
Definition minus_sign (v : Z) : list Z := if v <? 0 then [45] else [].
(** [{v}]. *)
Definition dec_text (v : Z) : list Z := minus_sign v ++ radix_text 10 false (Z.abs v).

(** Alignment counts characters, not bytes. *)
Definition char_count (s : list Z) : Z := Z.of_nat (length (filter (λ b, ¬ (128 ≤ b < 192)) s)).
Definition fill (c : Z) (n : Z) : list Z := replicate (Z.to_nat n) c.
(** [{s:c>w$}] and [{s:<w$}]. *)
Definition align_right (c w : Z) (s : list Z) : list Z := fill c (w - char_count s) ++ s.
Definition align_left (w : Z) (s : list Z) : list Z := s ++ fill 32 (w - char_count s).
(** [{v:0w$}]: zeros between the sign and the digits, up to the width in all. *)
Definition zero_flag (w : Z) (sign digits : list Z) : list Z := sign ++ fill 48 (w - Z.of_nat (length (sign ++ digits))) ++ digits.

(** [char::from_u32(c).unwrap()] of a [u16], in UTF-8. *)
Definition utf8_char (c : Z) : outcome (list Z) :=
  rassert (negb ((55296 <=? c) && (c <? 57344)));;
  Ret (if c <? 128 then [c]
       else if c <? 2048 then [192 + c / 64; 128 + c mod 64]
       else [224 + c / 4096; 128 + c / 64 mod 64; 128 + c mod 64]).

(** ** Conversion specifications *)

Definition ALL_SPECIFIERS : list Z := Eval vm_compute in bytes_of "dioux" ++ bytes_of "XfFeEgGaAcspnCS%@DUO".
Definition INTEGER_SPECIFIERS : list Z := Eval vm_compute in bytes_of "diouxX".
Definition FLOAT_SPECIFIERS : list Z := Eval vm_compute in bytes_of "feg".

Inductive LengthModifier := Mod_hh | Mod_h | Mod_l | Mod_ll.
#[global] Instance LengthModifier_eq_dec : EqDecision LengthModifier.
Proof. solve_decision. Defined.

Record Conversion := mkConversion {
  prepend_sign : bool;
  pad_char : Z;
  left_justified : bool;
  pad_width : Z;
  precision : option Z;
  length_modifier : option LengthModifier
}.

Section format.
(** The byte of the format string at an index. *)
Variable get_format_char : Mem → Z → outcome Z.

(** [if get_format_char(idx) == c { idx += 1; true } else { false }]. *)
Definition parse_flag (c : Z) (m : Mem) (idx : Z) : outcome (bool * Z) :=
  x ← get_format_char m idx;
  if x =? c then idx ← u32 (idx + 1); Ret (true, idx) else Ret (false, idx).

(** A decimal number in the format; [check] is the width of its type. *)
Definition number_body (check : Z → outcome Z) (m : Mem) (s : Z * Z) : outcome (Z * Z + Z * Z) :=
  let '(n, idx) := s in
  c ← get_format_char m idx;
  if (48 <=? c) && (c <=? 57) then
    n ← check (n * 10);
    n ← check (n + (c - 48));
    idx ← u32 (idx + 1);
    Ret (inl (n, idx))
  else Ret (inr (n, idx)).
Definition parse_number (check : Z → outcome Z) (m : Mem) (idx : Z) : outcome (Z * Z) :=
  loop_end (run_loop 33 (number_body check m) (0, idx)).

Definition parse_width (va : VaList) (e : Environment) (idx : Z) : outcome (Z * VaList * Z) :=
  x ← get_format_char (mem e) idx;
  if x =? 42 then '(w, va) ← VaList_next i32_arg va e; idx ← u32 (idx + 1); Ret (w, va, idx)
  else '(w, idx) ← parse_number i32 (mem e) idx; Ret (w, va, idx).

Definition parse_precision (va : VaList) (e : Environment) (idx : Z) : outcome (option Z * VaList * Z) :=
  '(dot, idx) ← parse_flag 46 (mem e) idx;
  if dot : bool then
    x ← get_format_char (mem e) idx;
    if x =? 42 then
      '(p, va) ← VaList_next i32_arg va e;
      rassert (0 <=? p);;
      idx ← u32 (idx + 1);
      Ret (Some p, va, idx)
    else '(p, idx) ← parse_number u64 (mem e) idx; Ret (Some p, va, idx)
  else Ret (None, va, idx).

Definition parse_length (m : Mem) (idx : Z) : outcome (option LengthModifier * Z) :=
  x ← get_format_char m idx;
  if x =? 104 then
    idx ← u32 (idx + 1);
    '(again, idx) ← parse_flag 104 m idx;
    Ret (Some (if again : bool then Mod_hh else Mod_h), idx)
  else if x =? 108 then
    idx ← u32 (idx + 1);
    '(again, idx) ← parse_flag 108 m idx;
    Ret (Some (if again : bool then Mod_ll else Mod_l), idx)
  else if x =? 113 then idx ← u32 (idx + 1); Ret (Some Mod_ll, idx)
  else if (x =? 106) || (x =? 122) || (x =? 116) || (x =? 76) then Panic
  else Ret (None, idx).

Definition parse_alternative (m : Mem) (idx : Z) : outcome Z :=
  '(alt, idx) ← parse_flag 35 m idx;
  if alt : bool then
    x ← get_format_char m idx;
    rassert (x =? 46);;
    i ← u32 (idx + 2);
    x ← get_format_char m i;
    rassert (x =? 100);;
    Ret idx
  else Ret idx.

(** Everything between the percent sign and the specifier. *)
Definition parse_conversion (va : VaList) (e : Environment) (idx : Z) : outcome (Conversion * VaList * Z) :=
  '(sign, idx) ← parse_flag 43 (mem e) idx;
  idx ← parse_alternative (mem e) idx;
  '(zero, idx) ← parse_flag 48 (mem e) idx;
  '(ljust, idx) ← parse_flag 45 (mem e) idx;
  '(width, va, idx) ← parse_width va e idx;
  rassert (0 <=? width);;
  '(prec, va, idx) ← parse_precision va e idx;
  '(len, idx) ← parse_length (mem e) idx;
  Ret (mkConversion sign (if zero : bool then 48 else 32) ljust width prec len, va, idx).

(** ** Conversions *)

Definition convert_char (c : Conversion) (va : VaList) (e : Environment) : outcome (list Z * VaList) :=
  rassert (negb (prepend_sign c));;
  rassert (negb (left_justified c));;
  rassert (bool_decide (length_modifier c = None));;
  '(x, va) ← VaList_next u8_arg va e;
  rassert ((pad_char c =? 32) && (pad_width c =? 0));;
  Ret ([x], va).

Definition convert_unichar (c : Conversion) (va : VaList) (e : Environment) : outcome (list Z * VaList) :=
  rassert (negb (prepend_sign c));;
  rassert (negb (left_justified c));;
  rassert (bool_decide (length_modifier c = None));;
  '(x, va) ← VaList_next u16_arg va e;
  rassert ((pad_char c =? 32) && (pad_width c =? 0));;
  text ← utf8_char x;
  Ret (text, va).

Definition NULL_TEXT : list Z := Eval vm_compute in bytes_of "(null)".

Definition convert_string (c : Conversion) (va : VaList) (e : Environment) : outcome (list Z * VaList) :=
  rassert (negb (prepend_sign c));;
  rassert (bool_decide (length_modifier c = None));;
  '(c_string, va) ← VaList_next ptr_arg va e;
  rassert (pad_char c =? 32);;
  if negb (c_string =? 0) then
    text ←
      match precision c with
      | Some precision =>
          rassert (negb (left_justified c));;
          str_len ← CString.strlen c_string (mem e);
          bytes_at c_string (Z.min str_len (precision mod U32_MOD)) (mem e)
      | None =>
          if 0 <? pad_width c then
            str ← cstr_at_utf8_unwrap c_string (mem e);
            Ret (if left_justified c then align_left (pad_width c) str else align_right 32 (pad_width c) str)
          else cstr_at c_string (mem e)
      end;
    Ret (text, va)
  else
    rassert (negb (left_justified c));;
    rassert (bool_decide (precision c = None));;
    Ret (NULL_TEXT, va).

(** The argument of an integer conversion, as an [i64]. *)
Definition next_unsigned (c : Conversion) (hi : Z) (va : VaList) (e : Environment) : outcome (Z * VaList) :=
  match length_modifier c with
  | Some Mod_ll => '(x, va) ← VaList_next u64_arg va e; rassert (x <=? hi);; Ret (x, va)
  | Some Mod_hh => VaList_next u8_arg va e
  | Some Mod_h => VaList_next u16_arg va e
  | None | Some Mod_l => VaList_next u32_arg va e
  end.
Definition next_signed (c : Conversion) (va : VaList) (e : Environment) : outcome (Z * VaList) :=
  match length_modifier c with
  | Some Mod_ll => VaList_next i64_arg va e
  | Some Mod_hh => VaList_next i8_arg va e
  | Some Mod_h => VaList_next i16_arg va e
  | None | Some Mod_l => VaList_next i32_arg va e
  end.

(** The text of [%d], [%i] and [%u], after the argument has been read. *)
Definition int_conversion (c : Conversion) (int : Z) : outcome (list Z) :=
  let int_with_precision :=
    match precision c with
    | Some p => if 0 <? p then zero_flag p (minus_sign int) (radix_text 10 false (Z.abs int)) else dec_text int
    | None => dec_text int
    end in
  if 0 <? pad_width c then
    if (pad_char c =? 48) && bool_decide (precision c = None) then
      if prepend_sign c then
        rassert (negb (int =? 0));;
        if 0 <? int then Ret (43 :: align_right 48 (pad_width c - 1) (dec_text int))
        else rassert (negb (int =? I64_MIN));; Ret (45 :: align_right 48 (pad_width c - 1) (dec_text (Z.abs int)))
      else Ret (align_right 48 (pad_width c) (dec_text int))
    else
      rassert (negb (prepend_sign c));;
      Ret (align_right 32 (pad_width c) int_with_precision)
  else
    rassert (negb (prepend_sign c));;
    Ret int_with_precision.
Definition convert_int (specifier : Z) (c : Conversion) (va : VaList) (e : Environment) : outcome (list Z * VaList) :=
  rassert (negb (left_justified c));;
  '(int, va) ← (if specifier =? 117 then next_unsigned c I64_MAX va e else next_signed c va e);
  text ← int_conversion c int;
  Ret (text, va).

(** The text of [%x], after the argument has been read. *)
Definition hex_conversion (c : Conversion) (uint : Z) : outcome (list Z) :=
  if 0 <? pad_width c then
    rassert (bool_decide (precision c = None));;
    Ret (align_right (if pad_char c =? 48 then 48 else 32) (pad_width c) (radix_text 16 false uint))
  else
    match precision c with
    | Some p =>
        if 0 <? p then Ret (zero_flag p [] (radix_text 16 false uint))
        else rassert ((p =? 0) && negb (uint =? 0));; Ret (radix_text 16 false uint)
    | None => Ret (radix_text 16 false uint)
    end.
Definition convert_hex (c : Conversion) (va : VaList) (e : Environment) : outcome (list Z * VaList) :=
  rassert (negb (prepend_sign c));;
  rassert (negb (left_justified c));;
  '(uint, va) ← next_unsigned c U32_MAX va e;
  text ← hex_conversion c uint;
  Ret (text, va).

Definition convert_hex_upper (c : Conversion) (va : VaList) (e : Environment) : outcome (list Z * VaList) :=
  rassert (negb (prepend_sign c));;
  rassert (negb (left_justified c));;
  rassert (bool_decide (precision c = None));;
  '(uint, va) ← next_unsigned c U32_MAX va e;
  if 0 <? pad_width c then Ret (align_right (if pad_char c =? 48 then 48 else 32) (pad_width c) (radix_text 16 true uint), va)
  else Ret (radix_text 16 true uint, va).

Definition convert_pointer (c : Conversion) (va : VaList) (e : Environment) : outcome (list Z * VaList) :=
  rassert (negb (prepend_sign c));;
  rassert (negb (left_justified c));;
  rassert (bool_decide (length_modifier c = None));;
  '(ptr, va) ← VaList_next ptr_arg va e;
  let tmp := [48; 120] ++ radix_text 16 false ptr in
  if 0 <? pad_width c then rassert (pad_char c =? 32);; Ret (align_right 32 (pad_width c) tmp, va)
  else Ret (tmp, va).

(** Conversions that are not modelled: they may do anything to the environment. *)
Variable other : Z → Conversion → VaList → Environment → outcome (list Z * VaList * Environment).

Definition convert (specifier : Z) (c : Conversion) (va : VaList) (e : Environment) : outcome (list Z * VaList * Environment) :=
  let pure (x : outcome (list Z * VaList)) := '(text, va) ← x; Ret (text, va, e) in
  if specifier =? 99 then pure (convert_char c va e)
  else if specifier =? 67 then pure (convert_unichar c va e)
  else if (specifier =? 115) && negb (bool_decide (length_modifier c = Some Mod_l)) then pure (convert_string c va e)
  else if (specifier =? 100) || (specifier =? 105) || (specifier =? 117) then pure (convert_int specifier c va e)
  else if specifier =? 120 then pure (convert_hex c va e)
  else if specifier =? 88 then pure (convert_hex_upper c va e)
  else if specifier =? 112 then pure (convert_pointer c va e)
  else other specifier c va e.

(** One iteration of the loop over the format. *)
Definition printf_body (s : list Z * Z * VaList * Environment) : outcome (list Z * Z * VaList * Environment + list Z * Environment) :=
  let '(res, idx, va, e) := s in
  c ← get_format_char (mem e) idx;
  idx ← u32 (idx + 1);
  if c =? 0 then Ret (inr (res, e))
  else if negb (c =? 37) then Ret (inl (res ++ [c], idx, va, e))
  else
    '(conv, va, idx) ← parse_conversion va e idx;
    specifier ← get_format_char (mem e) idx;
    next ← u32 (idx + 1);
    if negb (bool_decide (specifier ∈ ALL_SPECIFIERS)) then Ret (inl (res, idx, va, e))
    else if specifier =? 37 then Ret (inl (res ++ [37], next, va, e))
    else
      rassert (bool_decide (precision conv = None) || bool_decide (specifier ∈ INTEGER_SPECIFIERS) || bool_decide (specifier ∈ FLOAT_SPECIFIERS) || (specifier =? 115));;
      '(text, va, e) ← convert specifier conv va e;
      Ret (inl (res ++ text, next, va, e)).
Definition printf_inner (va : VaList) (e : Environment) : outcome (list Z * Environment) :=
  loop_end (run_loop 33 printf_body ([], 0, va, e)).
End format.

(** ** The functions *)

Section output.
Variable other : Z → Conversion → VaList → Environment → outcome (list Z * VaList * Environment).

(** [|mem, idx| mem.read(format + idx)]. *)
Definition format_at (format : Z) (m : Mem) (idx : Z) : outcome Z := p ← ptr_add 1 format idx; read_u8 p m.

(** [res.len().try_into().unwrap()] to an [i32]. *)
Definition result_len (res : list Z) : outcome Z := i32 (Z.of_nat (length res)).

(** The loop that stores bytes at the start of a slice of [n] bytes. *)
Definition store_text (dest n : Z) (text : list Z) (e : Environment) : outcome Environment :=
  rassert (in_bounds dest n);;
  rassert (Z.of_nat (length text) <=? n);;
  Ret (set_mem (set_bytes (store dest text (bytes (mem e))) (mem e)) e).

Definition vsnprintf (dest n format : Z) (arg : VaList) (e : Environment) : outcome (Z * Environment) :=
  e ← set_errno 0 e;
  '(res, e) ← printf_inner (format_at format) other arg e;
  if n =? 0 then len ← result_len res; Ret (len, e)
  else
    let middle := if n - 1 <? Z.of_nat (length res) then take (Z.to_nat (n - 1)) res else res in
    e ← store_text dest n (middle ++ [0]) e;
    len ← result_len res;
    Ret (len, e).
Definition snprintf (dest n format : Z) (args : VaList) (e : Environment) : outcome (Z * Environment) :=
  e ← set_errno 0 e;
  vsnprintf dest n format args e.

Definition vsprintf (dest format : Z) (arg : VaList) (e : Environment) : outcome (Z * Environment) :=
  e ← set_errno 0 e;
  '(res, e) ← printf_inner (format_at format) other arg e;
  n ← u32 (Z.of_nat (length res) + 1);
  e ← store_text dest n (res ++ [0]) e;
  len ← result_len res;
  Ret (len, e).
Definition sprintf (dest format : Z) (args : VaList) (e : Environment) : outcome (Z * Environment) := vsprintf dest format args e.
Definition __sprintf_chk (dest _flags strlen format : Z) (args : VaList) (e : Environment) : outcome (Z * Environment) :=
  rassert (negb (strlen =? 0));;
  sprintf dest format args e.

Definition vasprintf (ret format : Z) (arg : VaList) (e : Environment) : outcome (Z * Environment) :=
  '(res, e) ← printf_inner (format_at format) other arg e;
  count ← u32 (Z.of_nat (length res) + 1);
  '(dest, m) ← mem_alloc count (mem e);
  e ← store_text dest count (res ++ [0]) (set_mem m e);
  m ← write_u32 ret dest (mem e);
  len ← result_len res;
  Ret (len, set_mem m e).

(** What is written to the host's standard output is part of the result. *)
Definition vprintf (format : Z) (arg : VaList) (e : Environment) : outcome (Z * list Z * Environment) :=
  e ← set_errno 0 e;
  '(res, e) ← printf_inner (format_at format) other arg e;
  len ← result_len res;
  Ret (len, res, e).
Definition printf (format : Z) (args : VaList) (e : Environment) : outcome (Z * list Z * Environment) := vprintf format args e.
End output.
