(* ===== verification/PrintfFacts.v ===== *)
(** * Formatted output writes what C says

    A format made of literal characters and conversion specifications is taken apart as it was
    put together, and each conversion gives the text that the C standard gives, for the
    flags, widths and precisions where the program follows it; the exceptions are examples at
    the end.  [vsnprintf] stores as much of the text as fits. *)

From S2P Require Import Prelude ChunkMap SizeBucketed VMAllocator HeapAllocator GuestMem GenericChar GenericCharFacts GenericCharWrites CString CStringFacts Env Qsort Pthread Semaphore StrToInt StrToIntFacts Fs Abi AbiFacts Printf.

(** ** Digits *)

Lemma digit_char_digit upper d : 0 ≤ d < 16 → to_digit (digit_char upper d) = Some d.
Proof.
  intros Hd. unfold digit_char. assert (d ∈ seqZ 0 16) as He by (apply elem_of_seqZ; lia).
  repeat (apply elem_of_cons in He as [->|He]; [by destruct upper|]). by apply elem_of_nil in He.
Qed.
Lemma digit_char_byte upper d : 0 ≤ d < 16 → 48 ≤ digit_char upper d < 128 ∧ (d < 10 → digit_char upper d = 48 + d).
Proof. intros Hd. unfold digit_char. destruct (Z.ltb_spec d 10), upper; lia. Qed.

Lemma digits_value_app base l k : digits_value base (l ++ [k]) = digits_value base l * base + default 0 (to_digit k).
Proof. unfold digits_value. by rewrite fold_left_app. Qed.

Section radix.
Variables (base : Z) (upper : bool).
Hypothesis Hbase : 2 ≤ base ≤ 16.

Lemma radix_step v : base ≤ v → 0 ≤ v / base < v ∧ 0 ≤ v mod base < base.
Proof.
  intros. split; [|apply Z.mod_pos_bound; lia]. split; [apply Z.div_pos; lia|apply Z.div_lt; lia].
Qed.

Lemma radix_digits_digits fuel v : 0 ≤ v → Forall (λ c, digitb base c = true ∧ 48 ≤ c < 128) (radix_digits fuel base upper v).
Proof.
  revert v. induction fuel as [|fuel IH]; intros v Hv; [by apply Forall_nil|]. cbn [radix_digits].
  pose proof (Z.mod_pos_bound v base). apply Forall_app. split.
  - zcase; [by apply Forall_nil|]. apply IH, Z.div_pos; lia.
  - apply Forall_singleton. split; [|apply (digit_char_byte upper (v mod base)); lia].
    unfold digitb. rewrite digit_char_digit by lia. apply Z.ltb_lt. lia.
Qed.
Lemma radix_digits_value fuel v : 0 ≤ v < base ^ Z.of_nat fuel → digits_value base (radix_digits fuel base upper v) = v.
Proof.
  revert v. induction fuel as [|fuel IH]; intros v Hv; [change (base ^ Z.of_nat 0) with 1 in Hv; simpl; unfold digits_value; simpl; lia|].
  cbn [radix_digits]. pose proof (Z.mod_pos_bound v base). rewrite digits_value_app, digit_char_digit by lia. simpl default.
  rewrite Nat2Z.inj_succ, Z.pow_succ_r in Hv by lia. pose proof (Z.div_mod v base). zcase.
  - rewrite Z.mod_small by lia. unfold digits_value. simpl. lia.
  - rewrite IH; [lia|]. split; [apply Z.div_pos; lia|]. apply Z.div_lt_upper_bound; lia.
Qed.
Lemma radix_digits_ne fuel v : radix_digits (S fuel) base upper v ≠ [].
Proof. cbn [radix_digits]. by destruct (if v <? base then _ else _). Qed.
(** No leading zeros. *)
Lemma radix_digits_head fuel v : 0 < v < base ^ Z.of_nat fuel → head0 (radix_digits fuel base upper v) ≠ 48.
Proof.
  revert v. induction fuel as [|fuel IH]; intros v Hv; [change (base ^ Z.of_nat 0) with 1 in Hv; lia|]. cbn [radix_digits].
  rewrite Nat2Z.inj_succ, Z.pow_succ_r in Hv by lia. zcase.
  - simpl. rewrite Z.mod_small by lia. unfold digit_char. destruct (Z.ltb_spec v 10), upper; lia.
  - assert (0 < v / base < base ^ Z.of_nat fuel) as Hd.
    { split; [apply Z.div_str_pos; lia|apply Z.div_lt_upper_bound; lia]. }
    pose proof (IH _ Hd) as Hh. destruct fuel as [|fuel]; [change (base ^ Z.of_nat 0) with 1 in Hd; lia|].
    pose proof (radix_digits_ne fuel (v / base)). by destruct (radix_digits (S fuel) base upper (v / base)).
Qed.
End radix.

Lemma pow_64_bound base v : 2 ≤ base → 0 ≤ v < U64_MOD → 0 ≤ v < base ^ Z.of_nat 64.
Proof. intros Hb Hv. split; [lia|]. apply Z.lt_le_trans with (2 ^ Z.of_nat 64); [unfold U64_MOD in Hv; lia|]. apply Z.pow_le_mono_l. lia. Qed.

Lemma radix_text_value base upper v : 2 ≤ base ≤ 16 → 0 ≤ v < U64_MOD → digits_value base (radix_text base upper v) = v.
Proof. intros. apply radix_digits_value; [lia|]. apply pow_64_bound; lia. Qed.
Lemma radix_text_digits base upper v : 2 ≤ base ≤ 16 → 0 ≤ v → Forall (λ c, digitb base c = true ∧ 48 ≤ c < 128) (radix_text base upper v).
Proof. intros. by apply radix_digits_digits. Qed.

(** ** Formats *)

(** A number as it is written in a format; nothing for 0. *)
Definition num_text (v : Z) : list Z := if v =? 0 then [] else radix_text 10 false v.

Lemma num_text_digits v : 0 ≤ v → Forall (λ c, 48 ≤ c ≤ 57) (num_text v).
Proof.
  intros Hv. unfold num_text. zcase; [by apply Forall_nil|]. eapply Forall_impl; [by apply (radix_text_digits 10 false v)|].
  intros c [Hc ?]. unfold digitb, to_digit in Hc. destruct (Z.leb_spec 48 c), (Z.leb_spec c 57); simpl in Hc; try lia.
  destruct (Z.leb_spec 97 c), (Z.leb_spec c 122), (Z.leb_spec 65 c), (Z.leb_spec c 90); simpl in Hc; try lia; zcase; lia.
Qed.
Lemma num_text_value v : 0 ≤ v < U64_MOD → digits_value 10 (num_text v) = v.
Proof. intros Hv. unfold num_text. zcase; [by subst|]. apply radix_text_value; lia. Qed.
Lemma num_text_head v : 0 < v < U64_MOD → 49 ≤ head0 (num_text v) ≤ 57.
Proof.
  intros Hv. pose proof (num_text_digits v) as Hd. assert (head0 (num_text v) ≠ 48).
  { unfold num_text. zcase; [lia|]. apply radix_digits_head; [lia|]. pose proof (pow_64_bound 10 v). lia. }
  assert (num_text v ≠ []) as Hn by (unfold num_text; zcase; [lia|apply radix_digits_ne]).
  destruct (num_text v) as [|c l]; [done|]. specialize (Hd ltac:(lia)). apply Forall_cons in Hd as [Hc _]. simpl in *. lia.
Qed.

Definition length_text (l : option LengthModifier) : list Z :=
  match l with None => [] | Some Mod_hh => [104; 104] | Some Mod_h => [104] | Some Mod_l => [108] | Some Mod_ll => [108; 108] end.
Definition precision_text (p : option Z) : list Z := match p with None => [] | Some p => 46 :: num_text p end.
Definition flag_text (b : bool) (c : Z) : list Z := if b then [c] else [].
(** A conversion specification, without the percent sign and the specifier. *)
Definition conversion_text (c : Conversion) : list Z :=
  flag_text (prepend_sign c) 43 ++ flag_text (pad_char c =? 48) 48 ++ flag_text (left_justified c) 45 ++
  num_text (pad_width c) ++ precision_text (precision c) ++ length_text (length_modifier c).
Definition conversion_ok (c : Conversion) : Prop :=
  (pad_char c = 48 ∨ pad_char c = 32) ∧ 0 ≤ pad_width c ≤ I32_MAX ∧ match precision c with Some p => 0 ≤ p ≤ I64_MAX | None => True end.

(** The place of a character in a conversion specification. *)
Definition rank (c : Z) : Z :=
  if c =? 43 then 0 else if c =? 35 then 1 else if c =? 48 then 2 else if c =? 45 then 3
  else if ((49 <=? c) && (c <=? 57)) || (c =? 42) then 4 else if c =? 46 then 5
  else if bool_decide (c ∈ [104; 108; 113; 106; 122; 116; 76]) then 6 else 7.

Lemma rank_digit c : 49 ≤ c ≤ 57 → rank c = 4.
Proof.
  intros. unfold rank. rewrite !(proj2 (Z.eqb_neq c _)) by lia. by rewrite (proj2 (Z.leb_le 49 c)), (proj2 (Z.leb_le c 57)) by lia.
Qed.
Lemma rank_ne c k : rank c ≠ rank k → c ≠ k.
Proof. congruence. Qed.

Section ranks.
Variables (spec : Z) (l : list Z).
Hypothesis Hspec : rank spec = 7.
Lemma rank_length m : 6 ≤ rank (head0 (length_text m ++ spec :: l)).
Proof. destruct m as [[]|]; simpl; rewrite ?Hspec; done. Qed.
Lemma rank_precision p m : 5 ≤ rank (head0 (precision_text p ++ length_text m ++ spec :: l)).
Proof. destruct p; [done|]. pose proof (rank_length m). cbn [precision_text app]. lia. Qed.
Lemma rank_width w p m : 0 ≤ w < U64_MOD → 4 ≤ rank (head0 (num_text w ++ precision_text p ++ length_text m ++ spec :: l)).
Proof.
  intros Hw. destruct (Z.eq_dec w 0) as [->|Hne]; [pose proof (rank_precision p m); cbn [num_text Z.eqb app]; lia|].
  pose proof (num_text_head w) as Hh. destruct (num_text w) as [|c t]; simpl in *; [lia|]. rewrite rank_digit; lia.
Qed.
Lemma rank_left b w p m : 0 ≤ w < U64_MOD → 3 ≤ rank (head0 (flag_text b 45 ++ num_text w ++ precision_text p ++ length_text m ++ spec :: l)).
Proof. intros Hw. destruct b; [done|]. pose proof (rank_width w p m Hw). cbn [flag_text app]. lia. Qed.
Lemma rank_zero z b w p m :
  0 ≤ w < U64_MOD → 2 ≤ rank (head0 (flag_text z 48 ++ flag_text b 45 ++ num_text w ++ precision_text p ++ length_text m ++ spec :: l)).
Proof. intros Hw. destruct z; [done|]. pose proof (rank_left b w p m Hw). cbn [flag_text app]. cbn [app] in *. lia. Qed.
End ranks.

(** ** Taking a format apart *)

Lemma digits_fold_ge acc ds : 0 ≤ acc → Forall (λ c, 48 ≤ c ≤ 57) ds → acc ≤ fold_left (λ acc c, acc * 10 + default 0 (to_digit c)) ds acc.
Proof.
  revert acc. induction ds as [|c ds IH]; intros acc Hacc Hds; simpl; [lia|]. apply Forall_cons in Hds as [Hc Hds].
  assert (to_digit c = Some (c - 48)) as ->.
  { unfold to_digit. by rewrite (proj2 (Z.leb_le 48 c)), (proj2 (Z.leb_le c 57)) by lia. }
  simpl. etransitivity; [|apply IH; [lia|done]]. lia.
Qed.
Lemma decimal_to_digit c : 48 ≤ c ≤ 57 → to_digit c = Some (c - 48).
Proof. intros. unfold to_digit. by rewrite (proj2 (Z.leb_le 48 c)), (proj2 (Z.leb_le c 57)) by lia. Qed.

Section parsing.
Variables (get : Mem → Z → outcome Z) (m : Mem) (fmt : list Z).
(** The format is [fmt], followed by 0. *)
Definition format_is : Prop :=
  Z.of_nat (length fmt) + 2 < U32_MOD ∧ ∀ l1 l2, fmt = l1 ++ l2 → get m (Z.of_nat (length l1)) = Ret (head0 l2).
Hypothesis Hfmt : format_is.

Lemma get_eq l1 l2 : fmt = l1 ++ l2 → get m (Z.of_nat (length l1)) = Ret (head0 l2).
Proof. apply Hfmt. Qed.
Lemma index_step l1 c l2 : fmt = l1 ++ c :: l2 → u32 (Z.of_nat (length l1) + 1) = Ret (Z.of_nat (length (l1 ++ [c]))).
Proof. intros E. destruct Hfmt as [Hb _]. rewrite E, length_app in Hb. simpl in Hb. rewrite length_snoc_Z. apply u32_ok. lia. Qed.

Lemma parse_flag_eq b c l1 l2 :
  fmt = l1 ++ flag_text b c ++ l2 → (b = false → head0 l2 ≠ c) →
  parse_flag get c m (Z.of_nat (length l1)) = Ret (b, Z.of_nat (length (l1 ++ flag_text b c))).
Proof.
  intros E Hb. unfold parse_flag. mrun (get_eq _ _ E). destruct b; cbn [flag_text app] in *.
  - cbn [head0]. rewrite Z.eqb_refl. by rewrite (index_step _ _ _ E), ret_bind.
  - rewrite (proj2 (Z.eqb_neq _ _)) by auto. by rewrite app_nil_r.
Qed.

Lemma number_iterates check l1 ds l2 acc v :
  fmt = l1 ++ ds ++ l2 → Forall (λ c, 48 ≤ c ≤ 57) ds → ¬ (48 ≤ head0 l2 ≤ 57) → 0 ≤ acc →
  (∀ x, 0 ≤ x ≤ v → check x = Ret x) → fold_left (λ acc c, acc * 10 + default 0 (to_digit c)) ds acc = v →
  iterates (number_body get check m) (Z.of_nat (length ds) + 1) (acc, Z.of_nat (length l1)) (Ret (v, Z.of_nat (length (l1 ++ ds)))).
Proof.
  intros E Hds Hend Hacc Hcheck. revert l1 acc E Hacc. induction ds as [|c ds IH]; intros l1 acc E Hacc Hv.
  - simpl in Hv. subst. apply iterates_stop. unfold number_body. mrun (get_eq _ _ E). rewrite app_nil_r. cbn [app].
    destruct (Z.leb_spec 48 (head0 l2)), (Z.leb_spec (head0 l2) 57); simpl; done || lia.
  - apply Forall_cons in Hds as [Hc Hds]. cbn [length fold_left] in *. rewrite Nat2Z.inj_succ, <- Z.add_1_r. rewrite decimal_to_digit in Hv by done. simpl default in Hv.
    eapply iterates_step; [|rewrite (cons_middle c l1), app_assoc; apply IH; [done|by rewrite E, <- app_assoc| |exact Hv]; lia].
    pose proof (digits_fold_ge (acc * 10 + (c - 48)) ds) as Hge. unfold number_body. mrun (get_eq _ _ E). cbn [app head0].
    rewrite (proj2 (Z.leb_le 48 c)), (proj2 (Z.leb_le c 57)) by lia. cbn [andb].
    rewrite Hcheck, ret_bind by (specialize (Hge ltac:(lia) Hds); lia). rewrite Hcheck, ret_bind by (specialize (Hge ltac:(lia) Hds); lia).
    by rewrite (index_step _ _ _ E), ret_bind.
Qed.

Lemma parse_number_eq check l1 v l2 :
  fmt = l1 ++ num_text v ++ l2 → 0 ≤ v < U64_MOD → ¬ (48 ≤ head0 l2 ≤ 57) → (∀ x, 0 ≤ x ≤ v → check x = Ret x) →
  parse_number get check m (Z.of_nat (length l1)) = Ret (v, Z.of_nat (length (l1 ++ num_text v))).
Proof.
  intros E Hv Hend Hcheck. unfold parse_number. eapply iterates_loop.
  - eapply number_iterates; [done|apply num_text_digits; lia|done|done|done|by apply num_text_value].
  - destruct Hfmt as [Hb _]. rewrite E, !length_app in Hb. unfold U32_MOD in Hb. lia.
Qed.

Lemma rank_not_digit c k : 5 ≤ k → k ≤ rank c → ¬ (48 ≤ c ≤ 57).
Proof. intros ? Hr Hc. destruct (Z.eq_dec c 48) as [->|]; [by change (rank 48) with 2 in Hr; lia|]. rewrite rank_digit in Hr; lia. Qed.

Lemma parse_length_eq len spec l1 l2 :
  fmt = l1 ++ length_text len ++ spec :: l2 → rank spec = 7 →
  parse_length get m (Z.of_nat (length l1)) = Ret (len, Z.of_nat (length (l1 ++ length_text len))).
Proof.
  intros E Hs. assert (∀ c, rank c ≠ 7 → (spec =? c) = false) as Hne by (intros c Hc; apply Z.eqb_neq; congruence).
  unfold parse_length. mrun (get_eq _ _ E). destruct len as [[]|]; cbn [length_text app head0] in *; cbn [Z.eqb Pos.eqb orb].
  - mrun (index_step _ _ _ E). rewrite (parse_flag_eq true 104 (l1 ++ [104]) (spec :: l2)), ret_bind by (by rewrite ?E, <- ?app_assoc). by rewrite <- app_assoc.
  - mrun (index_step _ _ _ E). rewrite (parse_flag_eq false 104 (l1 ++ [104]) (spec :: l2)), ret_bind; [by rewrite app_nil_r|by rewrite E, <- app_assoc|].
    intros _. apply Z.eqb_neq. by apply Hne.
  - mrun (index_step _ _ _ E). rewrite (parse_flag_eq false 108 (l1 ++ [108]) (spec :: l2)), ret_bind; [by rewrite app_nil_r|by rewrite E, <- app_assoc|].
    intros _. apply Z.eqb_neq. by apply Hne.
  - mrun (index_step _ _ _ E). rewrite (parse_flag_eq true 108 (l1 ++ [108]) (spec :: l2)), ret_bind by (by rewrite ?E, <- ?app_assoc). by rewrite <- app_assoc.
  - rewrite !Hne by done. by rewrite app_nil_r.
Qed.
End parsing.

Lemma parse_precision_eq get fmt p va e l1 l2 :
  format_is get (mem e) fmt → fmt = l1 ++ precision_text p ++ l2 → 6 ≤ rank (head0 l2) →
  match p with Some p => 0 ≤ p ≤ I64_MAX | None => True end →
  parse_precision get va e (Z.of_nat (length l1)) = Ret (p, va, Z.of_nat (length (l1 ++ precision_text p))).
Proof.
  intros Hf E Hr Hp. unfold parse_precision. destruct p as [p|]; cbn [precision_text] in *.
  - rewrite (parse_flag_eq _ _ _ Hf true 46 l1 (num_text p ++ l2)), ret_bind by done. cbv beta iota. cbn [flag_text].
    assert (fmt = (l1 ++ [46]) ++ num_text p ++ l2) as E' by (by rewrite E, <- app_assoc). mrun (get_eq _ _ _ Hf _ _ E').
    destruct (Z.eqb_spec (head0 (num_text p ++ l2)) 42) as [H42|_].
    { destruct (Z.eq_dec p 0) as [->|]; [change (head0 l2 = 42) in H42; rewrite H42 in Hr; by vm_compute in Hr|].
      pose proof (num_text_head p) as Hh. destruct (num_text p); simpl in *; unfold I64_MAX, U64_MOD in *; lia. }
    rewrite (parse_number_eq _ _ _ Hf u64 _ p l2 E'), ret_bind; [by rewrite <- app_assoc| | |].
    + unfold I64_MAX, U64_MOD in *. lia.
    + by apply (rank_not_digit _ 6).
    + intros x Hx. apply u64_ok. unfold I64_MAX, U64_MOD in *. lia.
  - rewrite (parse_flag_eq _ _ _ Hf false 46 l1 l2), ret_bind; [done|done|]. intros _ H46. rewrite H46 in Hr. by vm_compute in Hr.
Qed.

Lemma parse_width_eq get fmt w va e l1 l2 :
  format_is get (mem e) fmt → fmt = l1 ++ num_text w ++ l2 → 5 ≤ rank (head0 l2) → 0 ≤ w ≤ I32_MAX →
  parse_width get va e (Z.of_nat (length l1)) = Ret (w, va, Z.of_nat (length (l1 ++ num_text w))).
Proof.
  intros Hf E Hr Hw. unfold parse_width. mrun (get_eq _ _ _ Hf _ _ E). assert (0 ≤ w < U64_MOD) by (unfold I32_MAX, U64_MOD in *; lia).
  destruct (Z.eqb_spec (head0 (num_text w ++ l2)) 42) as [H42|_].
  { destruct (Z.eq_dec w 0) as [->|]; [change (head0 l2 = 42) in H42; rewrite H42 in Hr; by vm_compute in Hr|].
    pose proof (num_text_head w) as Hh. destruct (num_text w); simpl in *; lia. }
  rewrite (parse_number_eq _ _ _ Hf i32 _ w l2 E), ret_bind; [done|done|by apply (rank_not_digit _ 5)|].
  intros x Hx. apply i32_ok. unfold I32_MAX in *. lia.
Qed.

(** Reading a conversion specification gives what was written. *)
Lemma parse_conversion_eq get fmt c spec va e l1 l2 :
  format_is get (mem e) fmt → fmt = l1 ++ conversion_text c ++ spec :: l2 → rank spec = 7 → conversion_ok c →
  parse_conversion get va e (Z.of_nat (length l1)) = Ret (c, va, Z.of_nat (length (l1 ++ conversion_text c))).
Proof.
  intros Hf E Hs (Hpad & Hw & Hp). unfold parse_conversion, conversion_text in *. rewrite <- !app_assoc in E. destruct c as [sign pad left w p len]. simpl in *.
  assert (0 ≤ w < U64_MOD) as Hw' by (unfold I32_MAX, U64_MOD in *; lia).
  pose proof (rank_zero spec l2 Hs (pad =? 48) left w p len Hw') as R2. pose proof (rank_left spec l2 Hs left w p len Hw') as R3.
  pose proof (rank_width spec l2 Hs w p len Hw') as R4. pose proof (rank_precision spec l2 Hs p len) as R5. pose proof (rank_length spec l2 Hs len) as R6.
  assert (∀ k c x, k ≤ rank x → rank c < k → x ≠ c) as Rne by (intros k c x ?? ->; lia).
  rewrite (parse_flag_eq _ _ _ Hf sign 43 l1 _ E), ret_bind by (intros _; by apply (Rne 2)). cbv beta iota.
  rewrite app_assoc in E. unfold parse_alternative. rewrite (parse_flag_eq _ _ _ Hf false 35 _ _ E), !ret_bind by (intros _; by apply (Rne 2)).
  cbv beta iota. cbn [flag_text]. rewrite app_nil_r.
  rewrite (parse_flag_eq _ _ _ Hf (pad =? 48) 48 _ _ E), !ret_bind by (intros _; by apply (Rne 3)). cbv beta iota. rewrite app_assoc in E.
  rewrite (parse_flag_eq _ _ _ Hf left 45 _ _ E), !ret_bind by (intros _; by apply (Rne 4)). cbv beta iota. rewrite app_assoc in E.
  rewrite (parse_width_eq _ _ w va e _ _ Hf E), ret_bind by done. cbv beta iota. rewrite app_assoc in E.
  rewrite assert_bind by (apply Z.leb_le; lia). rewrite (parse_precision_eq _ _ p va e _ _ Hf E), ret_bind by done. cbv beta iota. rewrite app_assoc in E.
  rewrite (parse_length_eq _ _ _ Hf len spec _ _ E Hs), ret_bind. rewrite <- !app_assoc. do 4 f_equal.
  destruct Hpad as [-> | ->]; done.
Qed.

(** ** What the C standard says *)

(** An argument with the specifier it is for. *)
Inductive value :=
| IntValue (v : Z)
| UintValue (v : Z)
| HexValue (upper : bool) (v : Z)
| CharValue (c : Z)
| StringValue (p : Z) (s : list Z)
| PointerValue (p : Z).

Definition specifier_of (v : value) : Z :=
  match v with
  | IntValue _ => 100 | UintValue _ => 117 | HexValue upper _ => if upper then 88 else 120
  | CharValue _ => 99 | StringValue _ _ => 115 | PointerValue _ => 112
  end.

Definition text_len (t : list Z) : Z := Z.of_nat (length t).
(** Spaces up to the width of the field. *)
Definition pad_to (left : bool) (w : Z) (t : list Z) : list Z := if left then t ++ fill 32 (w - text_len t) else fill 32 (w - text_len t) ++ t.
(** The precision is the least number of digits; with a precision of 0, the number 0 has none. *)
Definition c_digits (p : option Z) (digits : list Z) : list Z :=
  match p with
  | None => digits
  | Some p => if (p =? 0) && bool_decide (digits = [48]) then [] else fill 48 (p - text_len digits) ++ digits
  end.
(** The flag [0] fills the field with zeros after the sign; it is ignored with [-] and with a precision. *)
Definition c_number (c : Conversion) (sign digits : list Z) : list Z :=
  let digits := c_digits (precision c) digits in
  let digits :=
    if (pad_char c =? 48) && negb (left_justified c) && bool_decide (precision c = None)
    then fill 48 (pad_width c - text_len (sign ++ digits)) ++ digits else digits in
  pad_to (left_justified c) (pad_width c) (sign ++ digits).
Definition c_text (c : Conversion) (v : value) : list Z :=
  match v with
  | IntValue v => c_number c (if v <? 0 then [45] else flag_text (prepend_sign c) 43) (radix_text 10 false (Z.abs v))
  | UintValue v => c_number c [] (radix_text 10 false v)
  | HexValue upper v => c_number c [] (radix_text 16 upper v)
  | CharValue x => pad_to (left_justified c) (pad_width c) [x]
  | StringValue _ s => pad_to (left_justified c) (pad_width c) (match precision c with Some p => take (Z.to_nat p) s | None => s end)
  | PointerValue p => pad_to (left_justified c) (pad_width c) ([48; 120] ++ radix_text 16 false p)
  end.

(** The type of an argument, by length modifier, and its value. *)
Definition signed_type (l : option LengthModifier) : GuestArg :=
  match l with Some Mod_ll => i64_arg | Some Mod_hh => i8_arg | Some Mod_h => i16_arg | _ => i32_arg end.
Definition unsigned_type (l : option LengthModifier) : GuestArg :=
  match l with Some Mod_ll => u64_arg | Some Mod_hh => u8_arg | Some Mod_h => u16_arg | _ => u32_arg end.
Definition value_type (c : Conversion) (v : value) : GuestArg :=
  match v with
  | IntValue _ => signed_type (length_modifier c)
  | UintValue _ | HexValue _ _ => unsigned_type (length_modifier c)
  | CharValue _ => u8_arg
  | StringValue _ _ | PointerValue _ => ptr_arg
  end.
Definition value_arg (v : value) : Z :=
  match v with IntValue v | UintValue v | HexValue _ v | CharValue v | StringValue v _ | PointerValue v => v end.
Lemma signed_laws l : GuestArgLaws (signed_type l).
Proof. destruct l as [[]|]; apply _. Defined.
Lemma unsigned_laws l : GuestArgLaws (unsigned_type l).
Proof. destruct l as [[]|]; apply _. Defined.
Lemma value_laws c v : GuestArgLaws (value_type c v).
Proof. destruct v; first [apply signed_laws | apply unsigned_laws | apply _]. Defined.

(** ** The conversions that follow it *)

Definition int_supported (c : Conversion) (v : Z) : bool :=
  negb (left_justified c) &&
  if prepend_sign c then (0 <? pad_width c) && (pad_char c =? 48) && bool_decide (precision c = None) && negb (v =? 0) && negb (v =? I64_MIN)
  else match precision c with
       | None => (0 <=? v) || (pad_char c =? 32) || (pad_width c =? 0)
       | Some p => if p =? 0 then negb (v =? 0) else 0 <=? v
       end.
Definition hex_supported (c : Conversion) (upper : bool) (v : Z) : bool :=
  negb (prepend_sign c) && negb (left_justified c) && (v <=? U32_MAX) &&
  match precision c with None => true | Some p => negb upper && (pad_width c =? 0) && negb ((p =? 0) && (v =? 0)) end.
Definition string_supported (c : Conversion) (p : Z) (s : list Z) : bool :=
  negb (prepend_sign c) && bool_decide (length_modifier c = None) && (pad_char c =? 32) && negb (p =? 0) &&
  match precision c with
  | Some p => negb (left_justified c) && (pad_width c =? 0) && (p <? U32_MOD)
  | None => (pad_width c =? 0) || (utf8_valid s && (char_count s =? text_len s))
  end.
Definition supported (c : Conversion) (v : value) : bool :=
  match v with
  | IntValue v => int_supported c v
  | UintValue v => int_supported c v && negb (prepend_sign c) && (v <=? I64_MAX)
  | HexValue upper v => hex_supported c upper v
  | CharValue _ =>
      negb (prepend_sign c) && negb (left_justified c) && bool_decide (length_modifier c = None) && (pad_char c =? 32) && (pad_width c =? 0) &&
      bool_decide (precision c = None)
  | StringValue p s => string_supported c p s
  | PointerValue _ =>
      negb (prepend_sign c) && negb (left_justified c) && bool_decide (length_modifier c = None) && bool_decide (precision c = None) &&
      ((pad_char c =? 32) || (pad_width c =? 0))
  end.

(** ** Conversions *)

Lemma fill_le c n : n ≤ 0 → fill c n = [].
Proof. intros. unfold fill. by replace (Z.to_nat n) with 0%nat by lia. Qed.
Lemma fill_length c n : text_len (fill c n) = Z.max 0 n.
Proof. unfold text_len, fill. rewrite length_replicate. lia. Qed.
Lemma text_len_app s t : text_len (s ++ t) = text_len s + text_len t.
Proof. unfold text_len. rewrite length_app. lia. Qed.
Lemma pad_to_done left w t : w ≤ text_len t → pad_to left w t = t.
Proof. intros. unfold pad_to. rewrite fill_le by lia. destruct left; [by rewrite app_nil_r|done]. Qed.

Lemma char_count_ascii s : Forall (λ c, c < 128) s → char_count s = text_len s.
Proof.
  intros Hs. unfold char_count, text_len. induction Hs as [|c s Hc Hs IH]; [done|].
  rewrite filter_cons_True by lia. simpl length. lia.
Qed.
Lemma radix_ascii base upper v : 2 ≤ base ≤ 16 → 0 ≤ v → Forall (λ c, c < 128) (radix_text base upper v).
Proof. intros. eapply Forall_impl; [by apply radix_text_digits|]. simpl. lia. Qed.
Lemma align_right_ascii f w s : Forall (λ c, c < 128) s → align_right f w s = fill f (w - text_len s) ++ s.
Proof. intros. unfold align_right. by rewrite char_count_ascii. Qed.

Lemma c_number_zeros c sign digits :
  pad_char c = 48 → left_justified c = false → precision c = None →
  c_number c sign digits = sign ++ fill 48 (pad_width c - text_len (sign ++ digits)) ++ digits.
Proof.
  intros Hp Hl Hn. unfold c_number. rewrite Hp, Hl, Hn. apply pad_to_done. cbn [c_digits]. rewrite !text_len_app, fill_length. lia.
Qed.
Lemma c_number_spaces c sign digits :
  pad_char c = 32 ∨ precision c ≠ None → left_justified c = false →
  c_number c sign digits = pad_to false (pad_width c) (sign ++ c_digits (precision c) digits).
Proof.
  intros Hp Hl. unfold c_number. rewrite Hl. destruct Hp as [-> | Hn]; [done|]. by rewrite (bool_decide_false _ Hn), andb_false_r.
Qed.

Lemma radix_text_ne0 base upper v : 2 ≤ base ≤ 16 → 0 < v < U64_MOD → radix_text base upper v ≠ [48].
Proof. intros Hb Hv E. assert (digits_value base [48] = v) as H by (rewrite <- E; apply radix_text_value; lia). unfold digits_value in H. simpl in H. lia. Qed.
Lemma c_digits_zero_flag p digits :
  0 ≤ p → (p = 0 → digits ≠ [48]) → c_digits (Some p) digits = if 0 <? p then zero_flag p [] digits else digits.
Proof.
  intros Hp H0. unfold c_digits, zero_flag. destruct (Z.eqb_spec p 0) as [->|].
  - rewrite bool_decide_false by auto. simpl. rewrite fill_le; [done|]. unfold text_len. lia.
  - by rewrite (proj2 (Z.ltb_lt 0 p)) by lia.
Qed.
Lemma zero_flag_ascii p s : Forall (λ c, c < 128) s → Forall (λ c, c < 128) (zero_flag p [] s).
Proof. intros Hs. unfold zero_flag. simpl. apply Forall_app. split; [|done]. unfold fill. by apply Forall_replicate. Qed.
Lemma dec_text_nonneg v : 0 ≤ v → dec_text v = radix_text 10 false (Z.abs v).
Proof. intros. unfold dec_text, minus_sign. by rewrite (proj2 (Z.ltb_ge v 0)). Qed.
Lemma dec_text_ascii v : Forall (λ c, c < 128) (dec_text v).
Proof.
  unfold dec_text, minus_sign. apply Forall_app. split; [zcase; [by apply Forall_singleton|by apply Forall_nil]|].
  apply radix_ascii; lia.
Qed.

(** A text that fills the field by itself. *)
Lemma align_right_pad w s : Forall (λ c, c < 128) s → align_right 32 w s = pad_to false w s.
Proof. intros. unfold pad_to. by apply align_right_ascii. Qed.

Lemma int_conversion_eq c v :
  int_supported c v = true → conversion_ok c → I64_MIN ≤ v ≤ I64_MAX → int_conversion c v = Ret (c_text c (IntValue v)).
Proof.
  intros Hs (Hpad & Hw & Hprec) Hv. unfold int_supported in Hs. apply andb_true_iff in Hs as [Hl Hs]. apply negb_true_iff in Hl.
  assert (0 < Z.abs v < U64_MOD ∨ v = 0) as Hr by (unfold I64_MIN, I64_MAX, U64_MOD in *; lia).
  assert (v ≠ 0 → radix_text 10 false (Z.abs v) ≠ [48]) as Hne by (intros; apply radix_text_ne0; lia).
  unfold int_conversion, c_text. destruct (prepend_sign c) eqn:Hp.
  - rewrite !andb_true_iff, Z.ltb_lt, Z.eqb_eq, !negb_true_iff, !Z.eqb_neq, bool_decide_eq_true in Hs. destruct Hs as [[[[? H48] Hn] H0] Hmin].
    rewrite c_number_zeros by done. rewrite Hn, H48, (proj2 (Z.ltb_lt 0 (pad_width c))), (proj2 (Z.eqb_neq v 0)) by lia. simpl andb. cbv iota. simpl rassert. rewrite ret_bind.
    rewrite !align_right_ascii by apply dec_text_ascii. destruct (Z.ltb_spec 0 v), (Z.ltb_spec v 0); try lia.
    + rewrite dec_text_nonneg by lia. rewrite text_len_app. cbn [app flag_text text_len length]. do 4 f_equal. unfold text_len. simpl. lia.
    + rewrite assert_bind by (by apply negb_true_iff, Z.eqb_neq). rewrite dec_text_nonneg by lia. rewrite Z.abs_eq, text_len_app by lia.
      cbn [app]. do 4 f_equal. unfold text_len. simpl. lia.
  - destruct (precision c) as [p|] eqn:Hpr.
    + rewrite c_number_spaces, Hpr by (rewrite ?Hpr; auto).
      assert (c_digits (Some p) (radix_text 10 false (Z.abs v)) = (if 0 <? p then zero_flag p [] (radix_text 10 false (Z.abs v)) else radix_text 10 false (Z.abs v))) as ->.
      { apply c_digits_zero_flag; [lia|]. intros ->. simpl in Hs. apply Hne. by apply negb_true_iff, Z.eqb_neq in Hs. }
      assert ((if 0 <? p then zero_flag p (minus_sign v) (radix_text 10 false (Z.abs v)) else dec_text v) =
        (if v <? 0 then [45] else flag_text false 43) ++ (if 0 <? p then zero_flag p [] (radix_text 10 false (Z.abs v)) else radix_text 10 false (Z.abs v))) as ->.
      { destruct (Z.eqb_spec p 0) as [->|]; [done|]. rewrite (proj2 (Z.ltb_lt 0 p)) by lia. apply Z.leb_le in Hs.
        unfold minus_sign. by rewrite (proj2 (Z.ltb_ge v 0)). }
      rewrite andb_false_r. simpl rassert. rewrite !ret_bind. destruct (Z.ltb_spec 0 (pad_width c)); [|by rewrite pad_to_done by (unfold text_len; lia)].
      f_equal. apply align_right_pad. apply Forall_app. split; [zcase; [by apply Forall_singleton|by apply Forall_nil]|].
      destruct (0 <? p); [apply zero_flag_ascii|]; apply radix_ascii; lia.
    + rewrite bool_decide_true, andb_true_r by done. simpl rassert. rewrite !ret_bind.
      assert (dec_text v = (if v <? 0 then [45] else flag_text false 43) ++ c_digits (precision c) (radix_text 10 false (Z.abs v))) as Ed by (by rewrite Hpr).
      destruct (Z.ltb_spec 0 (pad_width c)).
      * rewrite !orb_true_iff, Z.leb_le, !Z.eqb_eq in Hs. destruct (Z.eqb_spec (pad_char c) 48) as [H48|H48].
        -- rewrite c_number_zeros by done. assert (0 ≤ v) by lia. rewrite (proj2 (Z.ltb_ge v 0)) by done. cbn [flag_text app].
           rewrite align_right_ascii by apply dec_text_ascii. by rewrite dec_text_nonneg.
        -- rewrite c_number_spaces by (try done; left; lia). f_equal. rewrite <- Ed. apply align_right_pad, dec_text_ascii.
      * f_equal. rewrite Ed. unfold c_number. rewrite Hl, Hpr. cbn [c_digits negb andb]. rewrite !(fill_le 48) by (unfold text_len; lia).
        destruct (_ && _); cbn [app]; by rewrite pad_to_done by (unfold text_len; lia).
Qed.

Lemma hex_conversion_eq c v :
  hex_supported c false v = true → conversion_ok c → 0 ≤ v → hex_conversion c v = Ret (c_text c (HexValue false v)).
Proof.
  intros Hs (Hpad & Hw & Hprec) Hv. unfold hex_supported in Hs. rewrite !andb_true_iff, !negb_true_iff, Z.leb_le in Hs. destruct Hs as [[[Hp Hl] Hmax] Hs].
  pose proof (radix_ascii 16 false v ltac:(lia) Hv) as Ha. unfold hex_conversion, c_text.
  destruct (precision c) as [p|] eqn:Hpr.
  - rewrite !andb_true_iff, negb_true_iff, Z.eqb_eq in Hs. destruct Hs as [[_ H0] Hs]. rewrite H0. change (0 <? 0) with false. cbv iota. rewrite c_number_spaces by (auto; right; by rewrite Hpr).
    rewrite pad_to_done by (unfold text_len; lia). rewrite Hpr, c_digits_zero_flag; [|lia|].
    + destruct (Z.ltb_spec 0 p); [done|]. rewrite assert_bind; [done|]. assert (p = 0) as -> by lia. exact Hs.
    + intros ->. apply radix_text_ne0; [lia|]. apply negb_true_iff, Z.eqb_neq in Hs. unfold U32_MAX, U32_MOD, U64_MOD in *. lia.
  - rewrite bool_decide_true by done. simpl rassert. rewrite ret_bind. destruct (Z.ltb_spec 0 (pad_width c)).
    + destruct (Z.eqb_spec (pad_char c) 48).
      * rewrite c_number_zeros by done. by rewrite align_right_ascii.
      * rewrite c_number_spaces by (auto; left; lia). rewrite Hpr. cbn [c_digits app]. by rewrite align_right_pad.
    + unfold c_number. rewrite Hl, Hpr. cbn [c_digits negb andb]. rewrite !(fill_le 48) by (unfold text_len; lia).
      destruct (_ && _); cbn [app]; by rewrite pad_to_done by (unfold text_len; lia).
Qed.

(** The next argument, when its words are the next ones. *)
Definition words_at (words : list Z) (va : VaList) (e : Environment) : Prop :=
  ∀ i w, words !! i = Some w → read_word (va_reg_offset va + i) (regs (cpu e)) (va_stack_pointer va) (mem e) = Ret w.
Definition va_skip (n : nat) (va : VaList) : VaList := mkVaList (va_reg_offset va + n) (va_stack_pointer va).
Lemma va_next_eq T `{!GuestArgLaws T} v va e :
  arg_valid v → words_at (to_regs T v) va e → VaList_next T va e = Ret (v, va_skip (length (to_regs T v)) va).
Proof.
  intros Hv Hw. unfold VaList_next, read_next_arg. destruct (Nat.leb_spec (REG_COUNT T) 16); [|pose proof reg_count_small; lia].
  simpl rassert. rewrite ret_bind. rewrite <- (to_regs_length v). rewrite (read_words_eq (to_regs T v)), ret_bind by done.
  rewrite <- (app_nil_r (to_regs T v)) at 1. by rewrite from_to_regs, !ret_bind.
Qed.
Lemma words_at_app l k va e : words_at (l ++ k) va e → words_at l va e ∧ words_at k (va_skip (length l) va) e.
Proof.
  intros H. split; intros i w Hi.
  - apply H. by apply lookup_app_l_Some.
  - simpl. rewrite <- Nat.add_assoc. apply H. rewrite lookup_app_r by lia. by replace (length l + i - length l)%nat with i by lia.
Qed.

(** What a directive needs of memory and of its argument. *)
Definition value_ok (m : Mem) (c : Conversion) (v : value) : Prop :=
  arg_valid (GuestArgLaws := value_laws c v) (value_arg v) ∧
  match v with StringValue p s => byte_string m p s | _ => True end.

Lemma next_signed_eq c v va e :
  arg_valid (GuestArgLaws := signed_laws (length_modifier c)) v → words_at (to_regs (signed_type (length_modifier c)) v) va e →
  next_signed c va e = Ret (v, va_skip (length (to_regs (signed_type (length_modifier c)) v)) va) ∧ I64_MIN ≤ v ≤ I64_MAX.
Proof.
  intros Hv Hw. pose proof (@va_next_eq _ (signed_laws _) v va e Hv Hw) as E. unfold next_signed. 
  destruct (length_modifier c) as [[]|]; (split; [exact E|]); simpl in Hv; unfold I64_MIN, I64_MAX; lia.
Qed.
Lemma next_unsigned_eq c hi v va e :
  arg_valid (GuestArgLaws := unsigned_laws (length_modifier c)) v → words_at (to_regs (unsigned_type (length_modifier c)) v) va e → v ≤ hi →
  next_unsigned c hi va e = Ret (v, va_skip (length (to_regs (unsigned_type (length_modifier c)) v)) va) ∧ 0 ≤ v.
Proof.
  intros Hv Hw Hhi. pose proof (@va_next_eq _ (unsigned_laws _) v va e Hv Hw) as E. unfold next_unsigned.
  destruct (length_modifier c) as [[]|]; (split; [|simpl in Hv; unfold is_u32 in Hv; lia]); try exact E.
  cbn [unsigned_type] in E. rewrite E, ret_bind. by rewrite assert_bind by (by apply Z.leb_le).
Qed.

Lemma convert_char_eq c x va e :
  supported c (CharValue x) = true → 0 ≤ x < 2 ^ 8 → words_at (to_regs u8_arg x) va e →
  convert_char c va e = Ret (c_text c (CharValue x), va_skip 1 va).
Proof.
  cbn [supported]. rewrite !andb_true_iff, !bool_decide_eq_true, !negb_true_iff, !Z.eqb_eq. intros [[[[[Hp Hl] Hm] Hc] Hw] _] Hx Hr. unfold convert_char, c_text.
  rewrite Hp, Hl, Hc, Hw, bool_decide_true by done. simpl rassert. rewrite !ret_bind. rewrite (@va_next_eq u8_arg u8_laws x va e Hx Hr), !ret_bind. done.
Qed.

Lemma u8_char_val m p : 0 ≤ byte_at m p < 256 → char_val (T := u8_char) m p = byte_at m p.
Proof.
  intros H. unfold char_val, addr_range, guest_size. simpl.
  replace (Z.of_nat 0 + p) with p by lia. rewrite Z.mod_small; lia.
Qed.
Lemma byte_string_cstring m p s : byte_string m p s → cstring (T := u8_char) m p s.
Proof.
  intros (? & ? & Hl & Hz & Hf). split; [|eapply Forall_impl; [done|simpl; lia]]. rewrite Forall_lookup in Hf.
  split; [lia|]. split; [unfold guest_size; simpl; rewrite length_app; simpl; lia|]. intros i c Hi. unfold guest_size. simpl Z.of_nat at 1. rewrite Z.mul_1_l.
  apply lookup_app_Some in Hi as [Hi|[Hge Hi]].
  - pose proof (Hf _ _ Hi) as Hc. simpl in Hc. rewrite <- (Hl _ _ Hi) in Hc |- *. apply u8_char_val. lia.
  - apply list_lookup_singleton_Some in Hi as [? <-]. replace i with (length s) by lia. rewrite u8_char_val; [done|lia].
Qed.
Lemma strlen_byte_string m p s : byte_string m p s → CString.strlen p m = Ret (Z.of_nat (length s)).
Proof. intros H. by apply strlen_spec, byte_string_cstring. Qed.

Lemma bytes_at_prefix m p s n : byte_string m p s → bytes_at p (Z.min (Z.of_nat (length s)) (Z.of_nat n)) m = Ret (take n s).
Proof.
  intros (? & ? & Hl & _). unfold bytes_at. rewrite assert_bind by (unfold in_bounds; rewrite Z.leb_le; lia). f_equal.
  apply list_eq. intros i. unfold addr_range. rewrite list_lookup_fmap. destruct (decide (i < n)%nat) as [Hn|Hn].
  - rewrite lookup_take_lt by done. destruct (s !! i) as [c|] eqn:Hi.
    + pose proof (lookup_lt_Some _ _ _ Hi). rewrite lookup_seqZ_lt by lia. simpl. by rewrite (Hl _ _ Hi).
    + apply lookup_ge_None in Hi. by rewrite lookup_seqZ_ge by lia.
  - rewrite lookup_take_ge by lia. by rewrite lookup_seqZ_ge by lia.
Qed.

Lemma convert_string_eq c p s va e :
  supported c (StringValue p s) = true → conversion_ok c → is_u32 p → byte_string (mem e) p s → words_at (to_regs ptr_arg p) va e →
  convert_string c va e = Ret (c_text c (StringValue p s), va_skip 1 va).
Proof.
  cbn [supported]. unfold string_supported. rewrite !andb_true_iff, !bool_decide_eq_true, !negb_true_iff, !Z.eqb_eq. intros [[[[Hp Hm] Hc] H0] Hs] (_ & Hw & Hpr) Hu Hstr Hr.
  unfold convert_string. rewrite Hp, Hc, (bool_decide_true _ Hm). simpl rassert. rewrite !ret_bind. rewrite (@va_next_eq ptr_arg u32_laws p va e Hu Hr), !ret_bind.
  cbv beta iota. rewrite H0. cbn [negb]. unfold c_text. destruct (precision c) as [n|].
  - rewrite !andb_true_iff, negb_true_iff, Z.eqb_eq, Z.ltb_lt in Hs. destruct Hs as [[-> ->] Hn]. simpl rassert. rewrite ret_bind.
    rewrite (strlen_byte_string _ _ _ Hstr), ret_bind. rewrite Z.mod_small by lia. rewrite <- (Z2Nat.id n) at 1 by lia.
    rewrite (bytes_at_prefix _ _ _ _ Hstr), ret_bind. by rewrite pad_to_done by (unfold text_len; lia).
  - destruct (Z.ltb_spec 0 (pad_width c)).
    + rewrite orb_true_iff, andb_true_iff, !Z.eqb_eq in Hs. destruct Hs as [|[Hu8 Hcc]]; [lia|].
      unfold cstr_at_utf8_unwrap. rewrite (byte_string_cstr _ _ _ Hstr), ret_bind, assert_bind, ret_bind by done.
      unfold align_left, align_right, pad_to. rewrite Hcc. by destruct (left_justified c).
    + rewrite (byte_string_cstr _ _ _ Hstr), ret_bind. by rewrite pad_to_done by (unfold text_len; lia).
Qed.

Lemma convert_pointer_eq c p va e :
  supported c (PointerValue p) = true → conversion_ok c → is_u32 p → words_at (to_regs ptr_arg p) va e →
  convert_pointer c va e = Ret (c_text c (PointerValue p), va_skip 1 va).
Proof.
  cbn [supported]. rewrite !andb_true_iff, !bool_decide_eq_true, !negb_true_iff, orb_true_iff, !Z.eqb_eq. intros [[[[Hp Hl] Hm] Hpr] Hc] (_ & Hw & _) Hu Hr.
  unfold convert_pointer. rewrite Hp, Hl, bool_decide_true by done. simpl rassert. rewrite !ret_bind. rewrite (@va_next_eq ptr_arg u32_laws p va e Hu Hr), !ret_bind.
  cbv beta iota. unfold c_text. rewrite Hl. destruct (Z.ltb_spec 0 (pad_width c)).
  - destruct Hc as [->|]; [|lia]. simpl rassert. rewrite ret_bind, align_right_pad; [done|]. apply List.Forall_cons; [lia|]. apply List.Forall_cons; [lia|].
    apply radix_ascii; unfold is_u32 in *; lia.
  - by rewrite pad_to_done by (unfold text_len; lia).
Qed.

Lemma convert_hex_upper_eq c v va e :
  supported c (HexValue true v) = true → conversion_ok c → arg_valid (GuestArgLaws := unsigned_laws (length_modifier c)) v →
  words_at (to_regs (unsigned_type (length_modifier c)) v) va e →
  convert_hex_upper c va e = Ret (c_text c (HexValue true v), va_skip (length (to_regs (unsigned_type (length_modifier c)) v)) va).
Proof.
  cbn [supported]. unfold hex_supported. rewrite !andb_true_iff, !negb_true_iff, Z.leb_le. intros [[[Hp Hl] Hmax] Hs] (Hpad & Hw & _) Hv Hr.
  destruct (precision c) eqn:Hpr; [done|]. destruct (next_unsigned_eq c U32_MAX v va e Hv Hr Hmax) as [E H0].
  unfold convert_hex_upper. rewrite Hp, Hl, bool_decide_true by done. simpl rassert. rewrite !ret_bind, E, ret_bind. cbv beta iota. unfold c_text.
  pose proof (radix_ascii 16 true v ltac:(lia) H0) as Ha. destruct (Z.ltb_spec 0 (pad_width c)).
  - do 2 f_equal. destruct (Z.eqb_spec (pad_char c) 48).
    + rewrite c_number_zeros by done. by rewrite align_right_ascii.
    + rewrite c_number_spaces by (auto; left; lia). rewrite Hpr. cbn [c_digits app]. by rewrite align_right_pad.
  - unfold c_number. rewrite Hl, Hpr. cbn [c_digits negb andb]. rewrite !(fill_le 48) by (unfold text_len; lia).
    destruct (_ && _); cbn [app]; by rewrite pad_to_done by (unfold text_len; lia).
Qed.

(** A conversion gives the text of the standard, and takes its argument's words. *)
Lemma convert_eq other c v va e :
  supported c v = true → conversion_ok c → value_ok (mem e) c v → words_at (to_regs (value_type c v) (value_arg v)) va e →
  convert other (specifier_of v) c va e = Ret (c_text c v, va_skip (length (to_regs (value_type c v) (value_arg v))) va, e).
Proof.
  intros Hs Hc [Hv Hm] Hr. unfold convert. destruct v as [v|v|upper v|x|p s|p]; cbn [specifier_of value_arg value_type] in *.
  - cbn [Z.eqb Pos.eqb andb orb]. destruct (next_signed_eq c v va e Hv Hr) as [E Hb]. unfold convert_int.
    assert (left_justified c = false) as -> by (cbn [supported] in Hs; unfold int_supported in Hs; by apply andb_true_iff in Hs as [?%negb_true_iff _]).
    cbn [negb rassert Z.eqb Pos.eqb]. rewrite ret_bind. mrun E. rewrite int_conversion_eq, !ret_bind by done. done.
  - cbn [Z.eqb Pos.eqb andb orb]. cbn [supported] in Hs. rewrite !andb_true_iff, Z.leb_le, negb_true_iff in Hs. destruct Hs as [[Hs Hp] Hmax].
    destruct (next_unsigned_eq c I64_MAX v va e Hv Hr Hmax) as [E H0]. unfold convert_int.
    assert (left_justified c = false) as -> by (unfold int_supported in Hs; by apply andb_true_iff in Hs as [?%negb_true_iff _]).
    cbn [negb rassert Z.eqb Pos.eqb]. rewrite ret_bind. mrun E. rewrite int_conversion_eq, !ret_bind by (try done; unfold I64_MIN; lia). cbv beta iota.
    unfold c_text. rewrite (proj2 (Z.ltb_ge v 0)), Hp, Z.abs_eq by done. done.
  - destruct upper; cbn [Z.eqb Pos.eqb andb orb].
    + by rewrite (convert_hex_upper_eq c v va e Hs Hc Hv Hr), ret_bind.
    + pose proof Hs as Hs'. cbn [supported] in Hs. unfold hex_supported in Hs. rewrite !andb_true_iff, !negb_true_iff, Z.leb_le in Hs. destruct Hs as [[[Hp Hl] Hmax] _].
      destruct (next_unsigned_eq c U32_MAX v va e Hv Hr Hmax) as [E H0]. unfold convert_hex. rewrite Hp, Hl. cbn [negb rassert]. rewrite !ret_bind. mrun E.
      by rewrite hex_conversion_eq, !ret_bind by done.
  - cbn [Z.eqb Pos.eqb]. by rewrite (convert_char_eq c x va e Hs Hv Hr), ret_bind.
  - cbn [Z.eqb Pos.eqb andb]. pose proof Hs as Hs'. cbn [supported] in Hs. unfold string_supported in Hs. rewrite !andb_true_iff, !bool_decide_eq_true in Hs.
    destruct Hs as [[[[_ Hlen] _] _] _]. rewrite Hlen. rewrite bool_decide_false by done. cbn [negb].
    by rewrite (convert_string_eq c p s va e Hs' Hc Hv Hm Hr), ret_bind.
  - cbn [Z.eqb Pos.eqb andb orb]. by rewrite (convert_pointer_eq c p va e Hs Hc Hv Hr), ret_bind.
Qed.

(** ** Formats as lists of directives *)

Inductive directive :=
| Literal (c : Z)
| Percent
| Convert (c : Conversion) (v : value).

Definition directive_format (d : directive) : list Z :=
  match d with Literal c => [c] | Percent => [37; 37] | Convert c v => 37 :: conversion_text c ++ [specifier_of v] end.
Definition directive_output (d : directive) : list Z := match d with Literal c => [c] | Percent => [37] | Convert c v => c_text c v end.
Definition directive_words (d : directive) : list Z := match d with Convert c v => to_regs (value_type c v) (value_arg v) | _ => [] end.
Definition directive_ok (m : Mem) (d : directive) : Prop :=
  match d with
  | Literal c => c ≠ 0 ∧ c ≠ 37
  | Percent => True
  | Convert c v => conversion_ok c ∧ supported c v = true ∧ value_ok m c v
  end.
Definition format_of (ds : list directive) : list Z := concat (directive_format <$> ds).
Definition output_of (ds : list directive) : list Z := concat (directive_output <$> ds).
Definition words_of (ds : list directive) : list Z := concat (directive_words <$> ds).

Lemma specifier_rank v : rank (specifier_of v) = 7 ∧ specifier_of v ∈ ALL_SPECIFIERS ∧ specifier_of v ≠ 37.
Proof. destruct v as [| |[]| | |]; (split; [done|]); split; try done; apply (bool_decide_unpack _); by vm_compute. Qed.
Lemma precision_supported c v :
  supported c v = true →
  bool_decide (precision c = None) || bool_decide (specifier_of v ∈ INTEGER_SPECIFIERS) || bool_decide (specifier_of v ∈ FLOAT_SPECIFIERS) || (specifier_of v =? 115) = true.
Proof.
  intros Hs. destruct v as [| |[]|x|p s|p]; rewrite !orb_true_iff; [left; left; right; by vm_compute..| | |].
  - cbn [supported] in Hs. rewrite !andb_true_iff in Hs. left; left; left. by destruct Hs as [_ ?].
  - by right.
  - cbn [supported] in Hs. rewrite !andb_true_iff in Hs. left; left; left. by destruct Hs as [[_ ?] _].
Qed.

Section printing.
Variables (get : Mem → Z → outcome Z) (other : Z → Conversion → VaList → Environment → outcome (list Z * VaList * Environment)).
Variables (e : Environment) (fmt : list Z).
Hypothesis Hfmt : format_is get (mem e) fmt.

Lemma printf_step d l1 l2 res va :
  fmt = l1 ++ directive_format d ++ l2 → directive_ok (mem e) d → words_at (directive_words d) va e →
  printf_body get other (res, Z.of_nat (length l1), va, e) =
    Ret (inl (res ++ directive_output d, Z.of_nat (length (l1 ++ directive_format d)), va_skip (length (directive_words d)) va, e)).
Proof.
  intros E Hd Hw. assert (∀ va, va_skip 0 va = va) as Hskip by (intros []; unfold va_skip; simpl; by rewrite Nat.add_0_r).
  unfold printf_body. mrun (get_eq _ _ _ Hfmt _ _ E). destruct d as [c| |c v]; cbn [directive_format directive_output directive_words length] in *.
  - destruct Hd as [H0 H37]. mrun (index_step _ _ _ Hfmt _ _ _ E). cbn [app head0]. rewrite !(proj2 (Z.eqb_neq c _)) by done. cbn [negb]. by rewrite Hskip.
  - mrun (index_step _ _ _ Hfmt _ _ _ E). cbn [app head0 Z.eqb Pos.eqb negb].
    pose (c0 := mkConversion false 32 false 0 None None).
    assert (fmt = (l1 ++ [37]) ++ conversion_text c0 ++ 37 :: l2) as E' by (by rewrite E, <- app_assoc).
    rewrite (parse_conversion_eq get fmt c0 37 va e (l1 ++ [37]) l2 Hfmt E'), ret_bind; [|done|split_and!; [by right|done|unfold I32_MAX; simpl; lia|done]].
    cbv beta iota. rewrite app_assoc in E'. rewrite (get_eq _ _ _ Hfmt _ _ E'), ret_bind. mrun (index_step _ _ _ Hfmt _ _ _ E'). rewrite bool_decide_true by (apply (bool_decide_unpack _); by vm_compute).
    cbn [negb head0 Z.eqb Pos.eqb]. rewrite Hskip. cbn [conversion_text c0]. by rewrite <- !app_assoc.
  - destruct Hd as (Hc & Hs & Hv). destruct (specifier_rank v) as (Hr & Hin & H37). mrun (index_step _ _ _ Hfmt _ _ _ E). cbn [app head0 Z.eqb Pos.eqb negb].
    assert (fmt = (l1 ++ [37]) ++ conversion_text c ++ specifier_of v :: l2) as E' by (rewrite E, <- !app_assoc; simpl; by rewrite <- app_assoc).
    rewrite (parse_conversion_eq get fmt c _ va e (l1 ++ [37]) l2 Hfmt E'), ret_bind by done. cbv beta iota. rewrite app_assoc in E'.
    rewrite (get_eq _ _ _ Hfmt _ _ E'), ret_bind. mrun (index_step _ _ _ Hfmt _ _ _ E'). rewrite bool_decide_true by done. cbn [negb head0].
    rewrite (proj2 (Z.eqb_neq _ 37)) by done. rewrite assert_bind by (by apply precision_supported). rewrite (convert_eq other c v va e Hs Hc Hv Hw), ret_bind.
    cbv beta iota. do 6 f_equal. rewrite !length_app. simpl. rewrite length_app. simpl. lia.
Qed.

Lemma printf_iterates ds l1 res va :
  fmt = l1 ++ format_of ds → Forall (directive_ok (mem e)) ds → words_at (words_of ds) va e →
  iterates (printf_body get other) (Z.of_nat (length ds) + 1) (res, Z.of_nat (length l1), va, e) (Ret (res ++ output_of ds, e)).
Proof.
  revert l1 res va. induction ds as [|d ds IH]; intros l1 res va E Hds Hw.
  - apply iterates_stop. unfold printf_body. mrun (get_eq _ _ _ Hfmt _ _ E). destruct Hfmt as [Hb _].
    rewrite E, length_app in Hb. rewrite u32_ok, ret_bind by lia. cbn. by rewrite app_nil_r.
  - apply Forall_cons in Hds as [Hd Hds]. unfold format_of, words_of, output_of in *. cbn [fmap list_fmap concat] in *. apply words_at_app in Hw as [Hw1 Hw2].
    cbn [length]. rewrite Nat2Z.inj_succ, <- Z.add_1_r. eapply iterates_step; [by eapply printf_step|]. rewrite app_assoc. apply IH; [by rewrite E, <- app_assoc|done|done].
Qed.

Lemma format_of_length ds : (length ds ≤ length (format_of ds))%nat.
Proof.
  induction ds as [|d ds IH]; [simpl; lia|]. unfold format_of in *. cbn [fmap list_fmap concat]. rewrite length_app. cbn [length].
  assert (1 ≤ length (directive_format d))%nat by (destruct d; simpl; lia). unfold format_of in IH. lia.
Qed.
Lemma printf_inner_eq ds va :
  fmt = format_of ds → Forall (directive_ok (mem e)) ds → words_at (words_of ds) va e →
  printf_inner get other va e = Ret (output_of ds, e).
Proof.
  intros E Hds Hw. unfold printf_inner. eapply iterates_loop; [by apply (printf_iterates ds [] [])|].
  pose proof (format_of_length ds). destruct Hfmt as [Hb _]. rewrite E in Hb. unfold U32_MOD in *. lia.
Qed.
End printing.

(** ** Formatting into memory *)

Lemma byte_string_format m format fmt : byte_string m format fmt → format_is (format_at format) m fmt.
Proof.
  intros H. pose proof H as (? & ? & _). split; [lia|]. intros l1 l2 ->. pose proof (byte_string_suffix _ _ _ _ H) as H2. rewrite length_app in *.
  unfold format_at. rewrite ptr_add_1, ret_bind by lia. by destruct (byte_string_head _ _ _ H2) as [-> _].
Qed.

(** What is stored of a text in a buffer of [n] bytes. *)
Definition stored_text (n : Z) (text : list Z) : list Z := if n =? 0 then [] else take (Z.to_nat (n - 1)) text ++ [0].


(** A check for a string in memory. *)
Lemma byte_string_check m p l :
  (0 <? p) && (p + Z.of_nat (length l) + 1 <? U32_MOD) && forallb (λ c, (0 <? c) && (c <? 256)) l &&
    bool_decide ((λ i, byte_at m (p + Z.of_nat i)) <$> seq 0 (S (length l)) = l ++ [0]) = true → byte_string m p l.
Proof.
  rewrite !andb_true_iff, !Z.ltb_lt, bool_decide_eq_true, forallb_forall. intros [[[Hp Hb] Hl] Hm].
  assert (∀ i c, (l ++ [0]) !! i = Some c → byte_at m (p + Z.of_nat i) = c) as Hi.
  { intros i c Hi. rewrite <- Hm in Hi. rewrite list_lookup_fmap in Hi. destruct (seq 0 (S (length l)) !! i) as [j|] eqn:Hj; [|done].
    apply lookup_seq in Hj as [-> _]. by simplify_option_eq. }
  split_and!; [done|done| | |].
  - intros i c Hc. apply Hi. by apply lookup_app_l_Some.
  - apply Hi. by rewrite list_lookup_middle.
  - apply Forall_forall. intros c Hc. specialize (Hl c ltac:(by apply list_elem_of_In)). rewrite andb_true_iff, !Z.ltb_lt in Hl. exact Hl.
Qed.

(** The format ["n=%5d %.2s %06lx%%"], with the arguments -42, "hello" and 48879 in registers. *)
Definition demo_directives : list directive :=
  [Literal 110; Literal 61; Convert (mkConversion false 32 false 5 None None) (IntValue (-42)); Literal 32;
   Convert (mkConversion false 32 false 0 (Some 2) None) (StringValue 8192 (bytes_of "hello")); Literal 32;
   Convert (mkConversion false 48 false 6 None (Some Mod_l)) (HexValue false 48879); Percent].
(** An environment with a format at 4096, "hello" at 8192, and words in the registers from [r1] on. *)
Definition printf_env (format words : list Z) : Environment :=
  let m := set_bytes (store 4096 (format ++ [0]) (store 8192 (bytes_of "hello" ++ [0]) ∅)) empty_mem in
  let e := set_errnos {[0%nat := 16]} (idle_env m) in
  set_cpu (foldr (λ '(i, w) c, set_reg (S i) w c) CpuContext_new (imap pair words)) e.
Definition after_errno (e : Environment) : Environment := match set_errno 0 e with Ret e => e | Panic => e end.
Definition no_other : Z → Conversion → VaList → Environment → outcome (list Z * VaList * Environment) := λ _ _ _ _, Panic.


(** ** Where the program differs from the standard *)

Definition printed (format : list Z) (words : list Z) : outcome (list Z) :=
  '(t, _) ← printf_inner (format_at 4096) no_other (mkVaList 1 0) (printf_env format words); Ret t.

(** ["%05d"] of -5 puts the zeros before the sign: the standard says ["-0005"]. *)
Example zeros_before_the_sign : printed (bytes_of "%05d") [U32_MOD - 5] = Ret (bytes_of "000-5").
Proof. vm_compute. reflexivity. Qed.
(** ["%.3d"] of -5 counts the sign as a digit: the standard says ["-005"]. *)
Example sign_counted_as_digit : printed (bytes_of "%.3d") [U32_MOD - 5] = Ret (bytes_of "-05").
Proof. vm_compute. reflexivity. Qed.
(** ["%.0d"] of 0: the standard says that there are no characters. *)
Example zero_with_no_precision : printed (bytes_of "%.0d") [0] = Ret (bytes_of "0").
Proof. vm_compute. reflexivity. Qed.
(** ["%7.2s"] has no padding: the standard says ["     he"]. *)
Example precision_without_width : printed (bytes_of "%7.2s") [8192] = Ret (bytes_of "he").
Proof. vm_compute. reflexivity. Qed.
