(* ===== verification/Scanf.v ===== *)
(** * Formatted input ([libc/stdio/printf.rs])

    [sscanf_common_generic] reads characters through callbacks, from a string ([sscanf],
    [vsscanf]) or from a stream ([fscanf]).  The state of the callbacks, of which the
    environment is a part, is a parameter; so is the conversion of floating-point numbers. *)

From S2P Require Import Prelude ChunkMap SizeBucketed VMAllocator HeapAllocator GuestMem Env Pthread StrToInt Fs Abi Printf.

Section scan.
Context {S : Type} (get_env : S → Environment) (set_env : Environment → S → S).
Variable getc_fn : Z → S → outcome (option Z * S).
Variable ungetc_fn : Z → S → outcome S.
(** [%f] and [%g]: where the number ends, or an error. *)
Variable scan_float : option LengthModifier → Z → VaList → S → outcome (option (Z * VaList) * S).
Variable format : Z.

Definition read_format (idx : Z) (s : S) : outcome Z := p ← ptr_add 1 format idx; read_u8 p (mem (get_env s)).
Definition getc_unwrap (idx : Z) (s : S) : outcome (Z * S) := '(c, s) ← getc_fn idx s; c ← unwrap c; Ret (c, s).
Definition write_value (n : nat) (ptr v : Z) (s : S) : outcome S :=
  m ← write_u n ptr v (mem (get_env s)); Ret (set_env (set_mem m (get_env s)) s).

(** Skips white space; [cc] is the character read last. The end of the input is an error, or a panic. *)
Definition skip_body (x : Z * Z * S) : outcome (Z * Z * S + option (Z * Z) * S) :=
  let '(src, cc, s) := x in
  if is_c_space cc then
    src ← u32 (src + 1);
    '(c, s) ← getc_fn src s;
    match c with Some cc => Ret (inl (src, cc, s)) | None => Ret (inr (None, s)) end
  else Ret (inr (Some (src, cc), s)).
Definition skip_spaces (src cc : Z) (s : S) : outcome (option (Z * Z) * S) := loop_end (run_loop 33 skip_body (src, cc, s)).

(** A character of the format that is not a conversion: [None] ends the scan. *)
Definition match_literal (c src : Z) (s : S) : outcome (option Z * S) :=
  '(cc, s) ← getc_unwrap src s;
  if is_c_space c then
    '(r, s) ← skip_spaces src cc s;
    '(src, cc) ← unwrap r;
    s ← ungetc_fn cc s;
    Ret (Some src, s)
  else if negb (c =? cc) then Ret (None, s)
  else src ← u32 (src + 1); Ret (Some src, s).

(** The white space before a conversion: [None] at the end of the input. *)
Definition skip_before (src : Z) (s : S) : outcome (option Z * S) :=
  '(c, s) ← getc_fn src s;
  match c with
  | None => Ret (None, s)
  | Some cc =>
      '(r, s) ← skip_spaces src cc s;
      match r with
      | None => Ret (None, s)
      | Some (src, cc) => s ← ungetc_fn cc s; Ret (Some src, s)
      end
  end.

Definition max_or_all (max_width : Z) : Z := if 0 <? max_width then max_width else U32_MAX.

(** The bytes of a value, by length modifier; [long] is not implemented. *)
Definition value_size (len : option LengthModifier) : option nat :=
  match len with Some Mod_hh => Some 1%nat | Some Mod_h => Some 2%nat | None => Some 4%nat | _ => None end.
Definition store_value (len : option LengthModifier) (v : Z) (va : VaList) (s : S) : outcome (VaList * S) :=
  n ← unwrap (value_size len);
  '(ptr, va) ← VaList_next ptr_arg va (get_env s);
  s ← write_value n ptr v s;
  Ret (va, s).

(** [%d], [%i]; [%x], [%X], [%u].  [None]: no number there. *)
Definition scan_signed (base max_width : Z) (len : option LengthModifier) (src : Z) (va : VaList) (s : S) : outcome (option (Z * VaList) * S) :=
  '(r, s) ← str_to_int_inner_generic getc_fn ungetc_fn src (max_or_all max_width) base
              (λ l base, unwrap (from_str_radix I64_MIN I64_MAX l base)) (λ num, rassert (negb (num =? I64_MIN));; Ret (- num)) s;
  match r with
  | Ok (val, n) => src ← u32 (src + n); '(va, s) ← store_value len val va s; Ret (Some (src, va), s)
  | Err _ => Ret (None, s)
  end.
Definition scan_unsigned (base max_width : Z) (len : option LengthModifier) (src : Z) (va : VaList) (s : S) : outcome (option (Z * VaList) * S) :=
  '(r, s) ← str_to_int_inner_generic getc_fn ungetc_fn src (max_or_all max_width) base
              (λ l base, unwrap (from_str_radix 0 U64_MAX l base)) (λ num, Ret ((- num) mod U64_MOD)) s;
  match r with
  | Ok (val, n) => src ← u32 (src + n); '(va, s) ← store_value len val va s; Ret (Some (src, va), s)
  | Err _ => Ret (None, s)
  end.

(** The set of [%[...]], a list of characters. *)
Definition set_body (x : list Z * Z * Z * S) : outcome (list Z * Z * Z * S + list Z * Z * S) :=
  let '(set, c, idx, s) := x in
  if c =? 93 then Ret (inr (set, idx, s))
  else
    d ← read_format idx s;
    '(set, idx) ←
      (if d =? 45 then
         i ← u32 (idx + 1);
         cc ← read_format i s;
         rassert (negb (cc =? 93));;
         idx ← u32 (idx + 2);
         Ret (set ++ seqZ c (cc - c + 1), idx)
       else Ret (set ++ [c], idx));
    c ← read_format idx s;
    idx ← u32 (idx + 1);
    Ret (inl (set, c, idx, s)).
(** Whether it is inverted, the set, and where the format goes on. *)
Definition parse_set (idx : Z) (s : S) : outcome (bool * list Z * Z) :=
  c ← read_format idx s;
  rassert (negb (c =? 93));;
  '(inverted, idx) ←
    (if c =? 94 then
       idx ← u32 (idx + 1);
       c ← read_format idx s;
       rassert (negb (c =? 93));;
       Ret (true, idx)
     else Ret (false, idx));
  c ← read_format idx s;
  idx ← u32 (idx + 1);
  '(set, idx, _) ← loop_end (run_loop 33 set_body ([], c, idx, s));
  Ret (inverted, set, idx).

Definition in_set (set : list Z) (inverted : bool) (cc : Z) : bool := xorb (bool_decide (cc ∈ set)) inverted && negb (cc =? 0).
(** The loop over the characters that match: the source's position, the character read
    last, where the next one is stored, and how many there were. *)
Definition take_body (set : list Z) (inverted : bool) (max_width : Z) (x : Z * Z * Z * Z * S) : outcome (Z * Z * Z * Z * S + Z * Z * Z * Z * S) :=
  let '(src, cc, dst, count, s) := x in
  if in_set set inverted cc then
    s ← write_value 1 dst cc s;
    dst ← ptr_add 1 dst 1;
    count ← u32 (count + 1);
    if (0 <? max_width) && (count =? max_width) then Ret (inr (src, cc, dst, count, s))
    else
      '(cc, s) ← getc_unwrap src s;
      src ← u32 (src + 1);
      Ret (inl (src, cc, dst, count, s))
  else Ret (inr (src, cc, dst, count, s)).
(** Whether anything matched is part of the result. *)
Definition scan_set (set : list Z) (inverted : bool) (max_width src : Z) (va : VaList) (s : S) : outcome (bool * Z * VaList * S) :=
  '(dst_ptr, va) ← VaList_next ptr_arg va (get_env s);
  '(cc, s) ← getc_unwrap src s;
  src ← u32 (src + 1);
  '(src, cc, dst_ptr, count, s) ← loop_end (run_loop 33 (take_body set inverted max_width) (src, cc, dst_ptr, 0, s));
  '(src, s) ← (if negb (in_set set inverted cc) then s ← ungetc_fn cc s; src ← u32 (src - 1); Ret (src, s) else Ret (src, s));
  if 0 <? count then s ← write_value 1 dst_ptr 0 s; Ret (true, src, va, s)
  else Ret (false, src, va, s).

Definition word_body (max_width : Z) (x : Z * Z * Z * S) : outcome (Z * Z * Z * S + Z * Z * S) :=
  let '(src, dst, written, s) := x in
  '(c, s) ← getc_fn src s;
  match c with
  | None => Ret (inr (src, dst, s))
  | Some cc =>
      if negb (is_c_space cc) then
        if cc =? 0 then Ret (inr (src, dst, s))
        else if (0 <? max_width) && (max_width <=? written) then s ← ungetc_fn cc s; Ret (inr (src, dst, s))
        else
          s ← write_value 1 dst cc s;
          src ← u32 (src + 1);
          dst ← ptr_add 1 dst 1;
          written ← u32 (written + 1);
          Ret (inl (src, dst, written, s))
      else s ← ungetc_fn cc s; Ret (inr (src, dst, s))
  end.
Definition scan_word (max_width src : Z) (va : VaList) (s : S) : outcome (Z * VaList * S) :=
  '(dst_ptr, va) ← VaList_next ptr_arg va (get_env s);
  '(src, dst_ptr, s) ← loop_end (run_loop 33 (word_body max_width) (src, dst_ptr, 0, s));
  s ← write_value 1 dst_ptr 0 s;
  Ret (src, va, s).

(** The width and the length modifier of a conversion. *)
Definition scan_conversion (m : Mem) (idx : Z) : outcome (Z * option LengthModifier * Z) :=
  '(max_width, idx) ← parse_number (format_at format) u32 m idx;
  x ← format_at format m idx;
  '(len, idx) ←
    (if (x =? 104) || (x =? 108) || (x =? 113) then parse_length (format_at format) m idx else Ret (None, idx));
  Ret (max_width, len, idx).

(** A conversion: [None] stops the scan; else the positions, the change of the number of
    matches, and the arguments. *)
Definition scan_specifier (specifier max_width : Z) (len : option LengthModifier) (src idx : Z) (va : VaList) (s : S)
    : outcome (option (Z * Z * Z * VaList) * S) :=
  let number (x : outcome (option (Z * VaList) * S)) : outcome (option (Z * Z * Z * VaList) * S) :=
    '(r, s) ← x; Ret (match r with Some (src, va) => Some (src, idx, 1, va) | None => None end, s) in
  if specifier =? 100 then number (scan_signed 10 max_width len src va s)
  else if specifier =? 105 then number (scan_signed 0 max_width len src va s)
  else if (specifier =? 102) || (specifier =? 103) then rassert (max_width =? 0);; number (scan_float len src va s)
  else if (specifier =? 120) || (specifier =? 88) then number (scan_unsigned 16 max_width len src va s)
  else if specifier =? 117 then number (scan_unsigned 10 max_width len src va s)
  else if specifier =? 91 then
    rassert (bool_decide (len = None));;
    '(inverted, set, idx) ← parse_set idx s;
    '(matched, src, va, s) ← scan_set set inverted max_width src va s;
    Ret (Some (src, idx, if matched : bool then 1 else 0, va), s)
  else if specifier =? 115 then
    rassert (bool_decide (len = None));;
    '(src, va, s) ← scan_word max_width src va s;
    Ret (Some (src, idx, 1, va), s)
  else Panic.

Definition scan_body (x : Z * Z * Z * VaList * S) : outcome (Z * Z * Z * VaList * S + Z * S) :=
  let '(src, idx, matched_args, va, s) := x in
  c ← read_format idx s;
  idx ← u32 (idx + 1);
  if c =? 0 then Ret (inr (matched_args, s))
  else if negb (c =? 37) then
    '(r, s) ← match_literal c src s;
    match r with None => Ret (inr (matched_args, s)) | Some src => Ret (inl (src, idx, matched_args, va, s)) end
  else
    '(max_width, len, idx) ← scan_conversion (mem (get_env s)) idx;
    specifier ← read_format idx s;
    idx ← u32 (idx + 1);
    '(r, s) ← (if negb (bool_decide (specifier ∈ [91; 99; 110])) then skip_before src s else Ret (Some src, s));
    match r with
    | None => Ret (inr (matched_args, s))
    | Some src =>
        '(r, s) ← scan_specifier specifier max_width len src idx va s;
        match r with
        | None => Ret (inr (matched_args, s))
        | Some (src, idx, n, va) => Ret (inl (src, idx, matched_args + n, va, s))
        end
    end.
(** The number of conversions that were matched. *)
Definition sscanf_common_generic (args : VaList) (s : S) : outcome (Z * S) :=
  loop_end (run_loop 33 scan_body (0, 0, 0, args, s)).
End scan.

(** ** Strings *)

Section strings.
Variable scan_float : option LengthModifier → Z → VaList → Environment → outcome (option (Z * VaList) * Environment).

Definition env_getc (src idx : Z) (e : Environment) : outcome (option Z * Environment) :=
  p ← ptr_add 1 src idx; c ← read_u8 p (mem e); Ret (Some c, e).
Definition env_ungetc (_ : Z) (e : Environment) : outcome Environment := Ret e.
Definition sscanf_common (src format : Z) (args : VaList) (e : Environment) : outcome (Z * Environment) :=
  sscanf_common_generic (λ e, e) (λ e _, e) (env_getc src) env_ungetc scan_float format args e.
Definition sscanf (src format : Z) (args : VaList) (e : Environment) : outcome (Z * Environment) :=
  e ← set_errno 0 e;
  sscanf_common src format args e.
Definition vsscanf (src format : Z) (arg : VaList) (e : Environment) : outcome (Z * Environment) :=
  e ← set_errno 0 e;
  sscanf_common src format arg e.
End strings.
