(* ===== verification/ScanfFacts.v ===== *)
(** * Formatted input reads back what was written

    [sscanf] with a format of [%d] conversions gives back the integers whose decimal texts are in
    the source, whatever the white space between them, and stores each where its argument
    points to. *)

From S2P Require Import Prelude ChunkMap SizeBucketed VMAllocator HeapAllocator GuestMem GenericChar GenericCharFacts GenericCharWrites CString CStringFacts Env Qsort Pthread Semaphore StrToInt StrToIntFacts Fs Abi AbiFacts Printf PrintfFacts Scanf.

Section scanning.
Variable scan_float : option LengthModifier → Z → VaList → Environment → outcome (option (Z * VaList) * Environment).
Variables (src format : Z) (text fmt : list Z).

Let body := scan_body (λ e, e) (λ e _, e) (env_getc src) env_ungetc scan_float format.

(** The source and the format are in memory. *)
Definition strings_in (e : Environment) : Prop := byte_string (mem e) src text ∧ byte_string (mem e) format fmt.

Lemma env_getc_eq e l1 l2 : strings_in e → text = l1 ++ l2 → env_getc src (Z.of_nat (length l1)) e = Ret (Some (head0 l2), e).
Proof.
  intros [H _] E. rewrite E in H. pose proof H as (? & ? & _). rewrite length_app in *. unfold env_getc. rewrite ptr_add_1, ret_bind by lia.
  apply byte_string_suffix in H. by destruct (byte_string_head _ _ _ H) as [-> _].
Qed.
Lemma text_bound e : strings_in e → Z.of_nat (length text) + 2 < U32_MOD.
Proof. intros [(? & ? & _) _]. lia. Qed.

Lemma skip_spaces_iterates e l1 ws l2 :
  strings_in e → text = l1 ++ ws ++ l2 → Forall (λ c, is_c_space c = true) ws → is_c_space (head0 l2) = false →
  iterates (skip_body (env_getc src)) (Z.of_nat (length ws) + 1) (Z.of_nat (length l1), head0 (ws ++ l2), e)
    (Ret (Some (Z.of_nat (length (l1 ++ ws)), head0 l2), e)).
Proof.
  intros He. revert l1. induction ws as [|c ws IH]; intros l1 E Hws Hl2.
  - apply iterates_stop. unfold skip_body. cbn [app] in *. by rewrite Hl2, app_nil_r.
  - apply Forall_cons in Hws as [Hc Hws]. cbn [length]. rewrite Nat2Z.inj_succ, <- Z.add_1_r.
    assert (text = (l1 ++ [c]) ++ ws ++ l2) as E' by (by rewrite E, <- app_assoc).
    eapply iterates_step; [|rewrite (cons_middle c l1), app_assoc; apply IH; done]. unfold skip_body. cbn [app head0]. rewrite Hc.
    pose proof (text_bound e He) as Hb. rewrite E, length_app in Hb. cbn [app length] in Hb. rewrite u32_ok, ret_bind by lia.
    rewrite <- (length_snoc_Z l1 c). mrun (env_getc_eq e _ _ He E'). done.
Qed.
Lemma skip_spaces_eq e l1 ws l2 :
  strings_in e → text = l1 ++ ws ++ l2 → Forall (λ c, is_c_space c = true) ws → is_c_space (head0 l2) = false →
  skip_spaces (env_getc src) (Z.of_nat (length l1)) (head0 (ws ++ l2)) e = Ret (Some (Z.of_nat (length (l1 ++ ws)), head0 l2), e).
Proof.
  intros He E Hws Hl2. eapply iterates_loop; [by apply skip_spaces_iterates|]. pose proof (text_bound e He) as Hb. rewrite E, !length_app in Hb.
  unfold U32_MOD in *. lia.
Qed.
Lemma skip_before_eq e l1 ws l2 :
  strings_in e → text = l1 ++ ws ++ l2 → Forall (λ c, is_c_space c = true) ws → is_c_space (head0 l2) = false →
  skip_before (env_getc src) env_ungetc (Z.of_nat (length l1)) e = Ret (Some (Z.of_nat (length (l1 ++ ws))), e).
Proof.
  intros He E Hws Hl2. unfold skip_before. mrun (env_getc_eq e _ _ He E). mrun (skip_spaces_eq e _ _ _ He E Hws Hl2). done.
Qed.

(** The text of an integer: a sign, digits. *)
Lemma dec_text_parts v :
  - 2 ^ 31 ≤ v < 2 ^ 31 → let sg := minus_sign v in let ds := radix_text 10 false (Z.abs v) in
  (sg = [] ∨ sg = [43] ∨ sg = [45]) ∧ Forall (λ c, digitb 10 c = true) ds ∧ ds ≠ [] ∧ digits_value 10 ds = Z.abs v ∧
  bool_decide (sg = [45]) = (v <? 0) ∧ is_c_space (head0 (sg ++ ds)) = false.
Proof.
  intros Hv sg ds. assert (Forall (λ c, digitb 10 c = true) ds) as Hd by (eapply Forall_impl; [by apply (radix_text_digits 10 false (Z.abs v)); lia|]; by intros ? []).
  assert (ds ≠ []) as Hne by apply radix_digits_ne. split_and!; [| done|done|apply radix_text_value; unfold U64_MOD; lia| |].
  - unfold sg, minus_sign. destruct (v <? 0); auto.
  - unfold sg, minus_sign. by destruct (v <? 0).
  - unfold sg, minus_sign. destruct (v <? 0); [done|]. destruct ds as [|d ds']; [done|]. apply Forall_cons in Hd as [Hd _]. by apply digitb_char in Hd as (_ & ? & _).
Qed.

Lemma scan_signed_eq e va l1 v l2 ptr :
  strings_in e → text = l1 ++ dec_text v ++ l2 → digitb 10 (head0 l2) = false → - 2 ^ 31 ≤ v < 2 ^ 31 →
  words_at [ptr] va e → 0 ≤ ptr → ptr + 4 < U32_MOD → is_u32 ptr →
  ∃ m', scan_signed (λ e, e) (λ e _, e) (env_getc src) env_ungetc 10 0 None (Z.of_nat (length l1)) va e =
      Ret (Some (Z.of_nat (length (l1 ++ dec_text v)), va_skip 1 va), set_mem m' e) ∧
    read_u32 ptr m' = Ret (v mod U32_MOD) ∧ (∀ a, ¬ (ptr ≤ a < ptr + 4) → byte_at m' a = byte_at (mem e) a).
Proof.
  intros He E Hend Hv Hw Hp Hp4 Hu. pose proof (dec_text_parts v Hv) as (Hsg & Hds & Hne & Hval & Hneg & _).
  pose proof (text_bound e He) as Hb. unfold scan_signed. change (max_or_all 0) with U32_MAX.
  assert (∀ neg, str_to_int_inner_generic (env_getc src) env_ungetc (Z.of_nat (length l1)) U32_MAX 10
      (λ l base, unwrap (from_str_radix I64_MIN I64_MAX l base)) neg e =
    (res ← (if v <? 0 then neg (Z.abs v) else Ret (Z.abs v)); Ret (Ok (res, Z.of_nat (length (dec_text v))), e))) as Es.
  { intros neg. rewrite <- Hneg. apply (str_to_int_eq _ _ _ _ 10 [] (minus_sign v) (radix_text 10 false (Z.abs v)) l2); try done || lia.
    - intros k1 k2 Ek. rewrite <- Nat2Z.inj_add, <- length_app. apply env_getc_eq; [done|]. rewrite E, <- app_assoc, <- Ek. unfold dec_text. by rewrite <- app_assoc.
    - unfold dec_text in E. rewrite E, !length_app in Hb. cbn [app]. rewrite !length_app. lia.
    - rewrite from_str_radix_eq by (done || (unfold I64_MIN, I64_MAX; lia)). rewrite Hval. unfold I64_MAX. by rewrite (proj2 (Z.leb_le _ _)) by lia. }
  rewrite Es. assert ((if v <? 0 then (rassert (negb (Z.abs v =? I64_MIN));; Ret (- Z.abs v)) else Ret (Z.abs v)) = Ret v) as ->.
  { destruct (Z.ltb_spec v 0); [|f_equal; lia]. rewrite assert_bind by (apply negb_true_iff, Z.eqb_neq; unfold I64_MIN; lia). f_equal. lia. }
  rewrite ret_bind, ret_bind. cbv beta iota.
  rewrite <- Nat2Z.inj_add, <- length_app. rewrite E, !length_app in Hb. rewrite u32_ok, ret_bind by (rewrite length_app; lia).
  unfold store_value. cbn [value_size unwrap]. rewrite ret_bind. assert (to_regs ptr_arg ptr = [ptr]) as Et by (simpl; by rewrite Z.mod_small).
  rewrite (@va_next_eq ptr_arg u32_laws ptr va e Hu), ret_bind by (by rewrite Et).
  cbv beta iota. unfold write_value. destruct (write_read_spec 4 ptr v (mem e)) as (m' & Ew & Er & Hf & _); [lia|lia|lia|].
  exists m'. rewrite Ew, !ret_bind. split; [done|]. split; [exact Er|exact Hf].
Qed.

(** ** Steps over the format *)

Lemma scan_format e : strings_in e → format_is (format_at format) (mem e) fmt.
Proof. intros [_ H]. by apply byte_string_format. Qed.
Lemma read_format_eq e l1 l2 : strings_in e → fmt = l1 ++ l2 → read_format (λ e, e) format (Z.of_nat (length l1)) e = Ret (head0 l2).
Proof. intros He E. apply (get_eq _ _ _ (scan_format e He) _ _ E). Qed.

(** A space in the format. *)
Lemma scan_space_step e va k f1 f2 l1 ws l2 :
  strings_in e → fmt = f1 ++ 32 :: f2 → text = l1 ++ ws ++ l2 → Forall (λ c, is_c_space c = true) ws → is_c_space (head0 l2) = false →
  body (Z.of_nat (length l1), Z.of_nat (length f1), k, va, e) =
    Ret (inl (Z.of_nat (length (l1 ++ ws)), Z.of_nat (length (f1 ++ [32])), k, va, e)).
Proof.
  intros He Ef E Hws Hl2. unfold body, scan_body. mrun (read_format_eq e _ _ He Ef). mrun (index_step _ _ _ (scan_format e He) _ _ _ Ef). cbn [head0 Z.eqb Pos.eqb negb].
  unfold match_literal, getc_unwrap. mrun (env_getc_eq e _ _ He E). cbn [unwrap]. rewrite !ret_bind. cbv beta iota. change (is_c_space 32) with true. cbv iota.
  mrun (skip_spaces_eq e _ _ _ He E Hws Hl2). done.
Qed.

(** A conversion. *)
Lemma scan_int_step e va k f1 f2 l1 ws v l2 ptr :
  strings_in e → fmt = f1 ++ 37 :: 100 :: f2 → text = l1 ++ ws ++ dec_text v ++ l2 → Forall (λ c, is_c_space c = true) ws →
  digitb 10 (head0 l2) = false → - 2 ^ 31 ≤ v < 2 ^ 31 → words_at [ptr] va e → 0 ≤ ptr → ptr + 4 < U32_MOD →
  ∃ m', body (Z.of_nat (length l1), Z.of_nat (length f1), k, va, e) =
      Ret (inl (Z.of_nat (length (l1 ++ ws ++ dec_text v)), Z.of_nat (length (f1 ++ [37; 100])), k + 1, va_skip 1 va, set_mem m' e)) ∧
    read_u32 ptr m' = Ret (v mod U32_MOD) ∧ (∀ a, ¬ (ptr ≤ a < ptr + 4) → byte_at m' a = byte_at (mem e) a).
Proof.
  intros He Ef E Hws Hend Hv Hw Hp Hp4. pose proof (scan_format e He) as Hfm. assert (fmt = (f1 ++ [37]) ++ 100 :: f2) as Ef' by (by rewrite Ef, <- app_assoc).
  pose proof (dec_text_parts v Hv) as (_ & _ & Hne & _ & _ & Hsp). fold (dec_text v) in Hsp.
  assert (is_c_space (head0 (dec_text v ++ l2)) = false) as Hsp'.
  { unfold dec_text in *. destruct (minus_sign v); [|done]. by destruct (radix_text 10 false (Z.abs v)). }
  destruct (scan_signed_eq e va (l1 ++ ws) v l2 ptr) as (m' & Es & Hr & Hf); [done|by rewrite E, <- app_assoc|done|done|done|lia|lia|unfold is_u32; lia|].
  exists m'. split; [|done]. unfold body, scan_body. mrun (read_format_eq e _ _ He Ef). mrun (index_step _ _ _ Hfm _ _ _ Ef). cbn [head0 Z.eqb Pos.eqb negb].
  assert (scan_conversion format (mem e) (Z.of_nat (length (f1 ++ [37]))) = Ret (0, None, Z.of_nat (length (f1 ++ [37])))) as ->.
  { unfold scan_conversion. pose proof (parse_number_eq _ _ _ Hfm u32 (f1 ++ [37]) 0 (100 :: f2) Ef') as En. cbn [num_text Z.eqb] in En. rewrite app_nil_r in En.
    rewrite En, ret_bind; [|unfold U64_MOD; lia|simpl; lia|intros x ?; apply u32_ok; unfold U32_MOD; lia]. cbv beta iota. mrun (get_eq _ _ _ Hfm _ _ Ef'). done. }
  rewrite ret_bind. cbv beta iota. mrun (read_format_eq e _ _ He Ef'). mrun (index_step _ _ _ Hfm _ _ _ Ef'). cbn [head0].
  rewrite bool_decide_false by (apply (bool_decide_unpack (100 ∉ [91; 99; 110])); by vm_compute). cbn [negb].
  mrun (skip_before_eq e _ _ _ He E Hws Hsp'). unfold scan_specifier. cbn [Z.eqb Pos.eqb]. rewrite Es, !ret_bind. cbv beta iota. by rewrite <- !app_assoc.
Qed.
End scanning.

(** ** Lists of integers *)

(** An integer in the source, the white space before it, and whether the format has a space there. *)
Record item := mkItem { item_space : bool; item_white : list Z; item_value : Z }.
Definition item_format (i : item) : list Z := flag_text (item_space i) 32 ++ [37; 100].
Definition item_text (i : item) : list Z := item_white i ++ dec_text (item_value i).
Definition items_format (xs : list item) : list Z := concat (item_format <$> xs).
Definition items_text (xs : list item) : list Z := concat (item_text <$> xs).
Definition item_ok (i : item) : Prop := Forall (λ c, is_c_space c = true) (item_white i) ∧ - 2 ^ 31 ≤ item_value i < 2 ^ 31.

Definition in_targets (ptrs : list Z) (a : Z) : Prop := ∃ p, p ∈ ptrs ∧ p ≤ a < p + 4.
(** The targets are four bytes each, apart from one another. *)
Fixpoint targets_ok (ptrs : list Z) : Prop :=
  match ptrs with
  | [] => True
  | p :: ptrs => 0 ≤ p ∧ p + 4 < U32_MOD ∧ Forall (λ q, p + 4 ≤ q ∨ q + 4 ≤ p) ptrs ∧ targets_ok ptrs
  end.
(** The pointers are arguments, in registers or on the stack, where no target is. *)
Definition pointers_in (ptrs : list Z) (va : VaList) (e : Environment) (targets : Z → Prop) : Prop :=
  words_at ptrs va e ∧ stack_room (va_stack_pointer va) (va_reg_offset va + length ptrs) ∧
  ∀ a, targets a → ¬ (va_stack_pointer va ≤ a < word_ptr (va_stack_pointer va) (va_reg_offset va + length ptrs)).

Lemma pointers_in_frame ptrs va e m (P : Z → Prop) :
  pointers_in ptrs va e P → (∀ a, ¬ P a → byte_at m a = byte_at (mem e) a) → pointers_in ptrs va (set_mem m e) P.
Proof.
  intros (Hw & Hroom & Hdisj) Hm. split; [|done]. intros i w Hi. pose proof (lookup_lt_Some _ _ _ Hi). rewrite <- (Hw i w Hi). unfold read_word. cbn [mem cpu set_mem].
  destruct (Nat.ltb_spec (va_reg_offset va + i) 4); [done|]. rewrite (word_ptr_eq _ _ (va_reg_offset va + length ptrs)), !ret_bind by (done || lia).
  destruct Hroom. unfold read_u32, read_u. rewrite !mem_read_eq by (unfold word_ptr, U32_MOD in *; lia). do 2 f_equal. apply list_fmap_ext.
  intros j a [-> ?]%lookup_seqZ. apply Hm. intros HP. apply (Hdisj _ HP). unfold word_ptr. lia.
Qed.
Lemma pointers_in_tail p ptrs va e (P : Z → Prop) : pointers_in (p :: ptrs) va e P → words_at [p] va e ∧ pointers_in ptrs (va_skip 1 va) e P.
Proof.
  intros (Hw & Hroom & Hdisj). cbn [length] in *. apply (words_at_app [p] ptrs) in Hw as [Hp Hw]. split; [done|]. split; [done|].
  simpl. rewrite <- Nat.add_assoc. by split.
Qed.
Lemma strings_in_frame src format text fmt e m (P : Z → Prop) :
  strings_in src format text fmt e → (∀ a, ¬ P a → byte_at m a = byte_at (mem e) a) →
  (∀ a, P a → ¬ (src ≤ a ≤ src + Z.of_nat (length text)) ∧ ¬ (format ≤ a ≤ format + Z.of_nat (length fmt))) → strings_in src format text fmt (set_mem m e).
Proof.
  intros [Hs Hf] Hm HP. split; (eapply byte_string_frame; [|eassumption]); intros a Ha; cbn [mem set_mem]; apply Hm; intros Hin; by destruct (HP a Hin).
Qed.
Lemma targets_value p ptrs m m' v :
  targets_ok (p :: ptrs) → (∀ a, ¬ in_targets ptrs a → byte_at m' a = byte_at m a) → read_u32 p m = Ret v → read_u32 p m' = Ret v.
Proof.
  intros (Hp & Hb & Hd & _) Hm <-. unfold read_u32, read_u. rewrite !mem_read_eq by (unfold U32_MOD in *; lia). do 2 f_equal. apply list_fmap_ext.
  intros j a [-> ?]%lookup_seqZ. apply Hm. intros (q & Hq & ?). rewrite Forall_forall in Hd. specialize (Hd q Hq). lia.
Qed.

Section items.
Variable scan_float : option LengthModifier → Z → VaList → Environment → outcome (option (Z * VaList) * Environment).
Variables (src format : Z) (text fmt rest : list Z).
Let body := scan_body (λ e, e) (λ e _, e) (env_getc src) env_ungetc scan_float format.
(** Where the scan may write, apart from the strings. *)
Variable P : Z → Prop.
Hypothesis HP : ∀ a, P a → ¬ (src ≤ a ≤ src + Z.of_nat (length text)) ∧ ¬ (format ≤ a ≤ format + Z.of_nat (length fmt)).
Hypothesis Hrest : digitb 10 (head0 rest) = false.

(** The items that follow one start with white space, or there are none. *)
Definition separated (xs : list item) : Prop := Forall (λ i, item_white i ≠ []) xs.
Lemma separated_end xs : separated xs → Forall item_ok xs → digitb 10 (head0 (items_text xs ++ rest)) = false.
Proof.
  destruct xs as [|i xs]; [done|]. intros [Hi _]%Forall_cons [[Hw _] _]%Forall_cons. unfold items_text, item_text. cbn [fmap list_fmap concat].
  destruct (item_white i) as [|c w]; [done|]. apply Forall_cons in Hw as [Hc _]. cbn [app head0]. destruct (digitb 10 c) eqn:Hd; [|done].
  apply digitb_char in Hd as (_ & Hs & _). congruence.
Qed.

(** One item: at most two iterations. *)
Lemma scan_item i xs f1 l1 k va e ptr :
  strings_in src format text fmt e → fmt = f1 ++ item_format i ++ items_format xs → text = l1 ++ item_text i ++ items_text xs ++ rest →
  item_ok i → digitb 10 (head0 (items_text xs ++ rest)) = false → words_at [ptr] va e → 0 ≤ ptr → ptr + 4 < U32_MOD →
  ∃ m', read_u32 ptr m' = Ret (item_value i mod U32_MOD) ∧ (∀ a, ¬ (ptr ≤ a < ptr + 4) → byte_at m' a = byte_at (mem e) a) ∧
    (∀ n r, iterates body n (Z.of_nat (length (l1 ++ item_text i)), Z.of_nat (length (f1 ++ item_format i)), k + 1, va_skip 1 va, set_mem m' e) r →
     ∃ n', n' ≤ n + 2 ∧ iterates body n' (Z.of_nat (length l1), Z.of_nat (length f1), k, va, e) r).
Proof.
  intros He Ef E [Hw Hv] Hend Hptr Hp Hp4. unfold item_format, item_text in *. rewrite <- ?app_assoc in *. destruct i as [[] ws v]; cbn [item_space item_white item_value flag_text] in *.
  - cbn [app] in Ef. assert (is_c_space (head0 (dec_text v ++ items_text xs ++ rest)) = false) as Hsp.
    { pose proof (dec_text_parts v Hv) as (_ & _ & Hne & _ & _ & Hsp). unfold dec_text in *. destruct (minus_sign v); [|done]. by destruct (radix_text 10 false (Z.abs v)). }
    destruct (scan_int_step scan_float src format text fmt e va k (f1 ++ [32]) (items_format xs) (l1 ++ ws) [] v (items_text xs ++ rest) ptr)
      as (m' & Es & Hr & Hf); [done|by rewrite Ef, <- app_assoc|by rewrite E, <- app_assoc|by apply Forall_nil|done..|].
    exists m'. split; [done|]. split; [done|]. intros n r H. exists (n + 1 + 1). split; [lia|].
    eapply iterates_step; [by eapply (scan_space_step scan_float src format text fmt e va k f1 (37 :: 100 :: items_format xs) l1 ws)|].
    eapply iterates_step; [exact Es|]. cbn [app] in *. by rewrite <- !app_assoc.
  - destruct (scan_int_step scan_float src format text fmt e va k f1 (items_format xs) l1 ws v (items_text xs ++ rest) ptr)
      as (m' & Es & Hr & Hf); [done..|]. exists m'. split; [done|]. split; [done|]. intros n r H. exists (n + 1). split; [lia|].
    eapply iterates_step; [exact Es|done].
Qed.

Lemma scan_items xs f1 l1 k va e ptrs :
  strings_in src format text fmt e → fmt = f1 ++ items_format xs → text = l1 ++ items_text xs ++ rest → Forall item_ok xs → separated (tail xs) →
  length ptrs = length xs → pointers_in ptrs va e P → targets_ok ptrs → (∀ a, in_targets ptrs a → P a) →
  ∃ n m', n ≤ 2 * Z.of_nat (length xs) + 1 ∧
    iterates body n (Z.of_nat (length l1), Z.of_nat (length f1), k, va, e) (Ret (k + Z.of_nat (length xs), set_mem m' e)) ∧
    (∀ i p, ptrs !! i = Some p → ∃ x, xs !! i = Some x ∧ read_u32 p m' = Ret (item_value x mod U32_MOD)) ∧
    (∀ a, ¬ in_targets ptrs a → byte_at m' a = byte_at (mem e) a).
Proof.
  revert f1 l1 k va e ptrs. induction xs as [|i xs IH]; intros f1 l1 k va e [|p ptrs] He Ef E His Hsep Hlen Hptrs Ht HinP; try done.
  - exists 1, (mem e). split; [lia|]. split; [|by split]. replace (set_mem (mem e) e) with e by (by destruct e). rewrite Z.add_0_r. apply iterates_stop.
    unfold body, scan_body. mrun (read_format_eq src format text fmt e _ _ He Ef). destruct He as [_ (? & Hb & _)]. rewrite Ef, length_app in Hb. by rewrite u32_ok, ret_bind by lia.
  - apply Forall_cons in His as [Hi His]. cbn [tail] in Hsep. pose proof Ht as (Hp & Hp4 & Hd & Ht'). apply pointers_in_tail in Hptrs as [Hw Hptrs].
    unfold items_format, items_text in Ef, E. cbn [fmap list_fmap concat] in Ef, E. rewrite <- app_assoc in E.
    assert (separated (tail xs)) as Hsep' by (destruct xs; [done|]; by apply Forall_cons in Hsep as [_ ?]).
    assert (∀ m', (∀ a, ¬ (p ≤ a < p + 4) → byte_at m' a = byte_at (mem e) a) → ∀ a, ¬ P a → byte_at m' a = byte_at (mem e) a) as HmP.
    { intros m' Hm' a Ha. apply Hm'. intros Hin. apply Ha, HinP. exists p. split; [apply elem_of_cons; by left|done]. }
    destruct (scan_item i xs f1 l1 k va e p He Ef E Hi (separated_end xs Hsep His) Hw Hp Hp4) as (m1 & Hr1 & Hf1 & Hstep).
    destruct (IH (f1 ++ item_format i) (l1 ++ item_text i) (k + 1) (va_skip 1 va) (set_mem m1 e) ptrs) as (n & m' & Hn & Hit & Hv & Hf).
    + eapply strings_in_frame; [done|by apply HmP|done].
    + by rewrite Ef, <- app_assoc.
    + by rewrite E, <- app_assoc.
    + done.
    + done.
    + by injection Hlen.
    + eapply pointers_in_frame; [done|by apply HmP].
    + done.
    + intros a (q & Hq & ?). apply HinP. exists q. split; [apply elem_of_cons; by right|done].
    + destruct (Hstep _ _ Hit) as (n' & Hn' & Hit'). exists n', m'. split; [cbn [length]; lia|]. split_and!.
      * cbn [length]. replace (k + Z.of_nat (S (length xs))) with (k + 1 + Z.of_nat (length xs)) by lia. by destruct e.
      * intros [|j] q Hq; [|by apply Hv]. simpl in Hq. simplify_eq. exists i. split; [done|]. by eapply targets_value.
      * intros a Ha. rewrite Hf; [apply Hf1|]; intros Hin; apply Ha.
        -- exists p. split; [apply elem_of_cons; by left|done].
        -- destruct Hin as (q & Hq & ?). exists q. split; [apply elem_of_cons; by right|done].
Qed.
End items.

(** C29: [sscanf] reads back what decimal formatting wrote.  For a source made of the decimal texts of any
    32-bit integers, with white space before each (none is needed before the first), followed by anything that is
    not a digit, and a format of as many [%d], each with or without a space before it, it returns the number
    of integers and stores each one where its argument points to, and nothing else changes. *)
Theorem sscanf_reads_integers scan_float src format xs rest ptrs va e e0 :
  set_errno 0 e = Ret e0 → byte_string (mem e0) src (items_text xs ++ rest) → byte_string (mem e0) format (items_format xs) →
  Forall item_ok xs → separated (tail xs) → digitb 10 (head0 rest) = false →
  length ptrs = length xs → pointers_in ptrs va e0 (in_targets ptrs) → targets_ok ptrs →
  (∀ a, in_targets ptrs a → ¬ (src ≤ a ≤ src + text_len (items_text xs ++ rest)) ∧ ¬ (format ≤ a ≤ format + text_len (items_format xs))) →
  ∃ m', sscanf scan_float src format va e = Ret (Z.of_nat (length xs), set_mem m' e0) ∧
    (∀ i p, ptrs !! i = Some p → ∃ x, xs !! i = Some x ∧ read_u32 p m' = Ret (item_value x mod U32_MOD)) ∧
    (∀ a, ¬ in_targets ptrs a → byte_at m' a = byte_at (mem e0) a).
Proof.
  intros He Hs Hf Hxs Hsep Hrest Hlen Hptrs Ht HP. unfold sscanf. mrun He. unfold sscanf_common, sscanf_common_generic.
  destruct (scan_items scan_float src format _ _ rest (in_targets ptrs) HP Hrest xs [] [] 0 va e0 ptrs) as (n & m' & Hn & Hit & Hv & Hframe); [by split|done..|].
  exists m'. split; [|done]. rewrite Z.add_0_l in Hit. apply (iterates_loop _ _ _ _ _ Hit). destruct Hf as (? & Hb & _).
  assert (2 * length xs ≤ length (items_format xs))%nat as Hl.
  { clear. induction xs as [|i xs IH]; [simpl; lia|]. unfold items_format in *. cbn [fmap list_fmap concat length]. rewrite length_app.
    assert (2 ≤ length (item_format i))%nat by (unfold item_format; rewrite length_app; simpl; lia). lia. }
  unfold U32_MOD in *. lia.
Qed.

(** The source ["12 -7\n\n2147483647;"] and the format ["%d %d%d"]. *)
Definition demo_items : list item := [mkItem false [] 12; mkItem true [32] (-7); mkItem false [10; 10] 2147483647].
Definition scanf_env : Environment :=
  let m := set_bytes (store 4096 (items_format demo_items ++ [0]) (store 8192 (items_text demo_items ++ [59; 0]) ∅)) empty_mem in
  set_cpu (set_reg 1 12288 (set_reg 2 12304 (set_reg 3 12296 CpuContext_new))) (set_errnos {[0%nat := 16]} (idle_env m)).

Lemma sscanf_reads_integers_witness :
  ∃ m', sscanf (λ _ _ _ _, Panic) 8192 4096 (mkVaList 1 0) scanf_env = Ret (3, set_mem m' (after_errno scanf_env)) ∧ read_u32 12304 m' = Ret 4294967289.
Proof.
  destruct (sscanf_reads_integers (λ _ _ _ _, Panic) 8192 4096 demo_items [59] [12288; 12304; 12296] (mkVaList 1 0) scanf_env (after_errno scanf_env))
    as (m' & E & Hv & _).
  - reflexivity.
  - apply byte_string_check. vm_compute. reflexivity.
  - apply byte_string_check. vm_compute. reflexivity.
  - repeat (apply List.Forall_cons); [..|apply List.Forall_nil]; (split; [repeat (apply List.Forall_cons; [reflexivity|]); apply List.Forall_nil|simpl; lia]).
  - repeat (apply List.Forall_cons; [discriminate|]). apply List.Forall_nil.
  - reflexivity.
  - reflexivity.
  - split; [|split].
    + intros i w Hi. destruct i as [|[|[|i]]]; vm_compute in Hi; simplify_eq; vm_compute; reflexivity.
    + split; vm_compute; [discriminate|reflexivity].
    + intros a (p & Hp & Ha) H. unfold word_ptr in H. simpl in H. lia.
  - repeat split; try (vm_compute; discriminate || reflexivity); repeat (apply List.Forall_cons; [lia|]); apply List.Forall_nil.
  - intros a (p & Hp & Ha). assert (12288 ≤ a < 12308) by (repeat (apply elem_of_cons in Hp as [->|Hp]; [lia|]); by apply elem_of_nil in Hp).
    change (text_len (items_text demo_items ++ [59])) with 18. change (text_len (items_format demo_items)) with 7. lia.
  - exists m'. split; [exact E|]. destruct (Hv 1%nat 12304 eq_refl) as (x & Hx & Hr). vm_compute in Hx. injection Hx as <-. exact Hr.
Defined.
