(* ===== verification/Unwind.v ===== *)
(** * C++ exceptions ([libc/unwind_sjlj.rs])

    The unwinder for the setjmp/longjmp exception model.  Functions with handlers or cleanups put a
    context record on a chain in guest memory; a throw walks the chain twice, asking the frames'
    personality routines (guest code), and resumes in a landing pad.  A call of a guest function
    ([call_from_host]) is an argument; what it does to the registers is in [Abi]. *)

From S2P Require Import Prelude GuestMem Env Abi MachO.

Definition FC_PREV : Z := 0.
Definition FC_CALL_SITE : Z := 4.
Definition FC_DATA : Z := 8.
Definition FC_PERSONALITY : Z := 24.
Definition FC_LSDA : Z := 28.
Definition FC_JBUF : Z := 32.
Definition JBUF_FP : Z := FC_JBUF.
Definition JBUF_PC : Z := FC_JBUF + 4.
Definition JBUF_SP : Z := FC_JBUF + 8.

Definition UA_SEARCH_PHASE : Z := 1.
Definition UA_CLEANUP_PHASE : Z := 2.
Definition UA_HANDLER_FRAME : Z := 4.

Definition URC_FATAL_PHASE2_ERROR : Z := 2.
Definition URC_FATAL_PHASE1_ERROR : Z := 3.
Definition URC_END_OF_STACK : Z := 5.
Definition URC_HANDLER_FOUND : Z := 6.
Definition URC_INSTALL_CONTEXT : Z := 7.
Definition URC_CONTINUE_UNWIND : Z := 8.

(** The environment with the chains' heads by thread. *)
Record UState := mkU { u_env : Environment; heads : gmap ThreadId Z }.
Definition u_mem (s : UState) : Mem := mem (u_env s).
Definition set_u_mem (m : Mem) (s : UState) : UState := mkU (set_mem m (u_env s)) (heads s).

Definition chain_head (s : UState) : Z := default 0 (heads s !! current_thread (u_env s)).
Definition set_head (fc : Z) (s : UState) : UState := mkU (u_env s) (<[current_thread (u_env s) := fc]> (heads s)).
Definition r32 (addr : Z) (s : UState) : outcome Z := read_u32 addr (u_mem s).
Definition w32 (addr val : Z) (s : UState) : outcome UState := m ← write_u32 addr val (u_mem s); Ret (set_u_mem m s).
(** [r32(env, base + offset)]. *)
Definition field (base offset : Z) (s : UState) : outcome Z := a ← u32 (base + offset); r32 a s.
Definition set_field (base offset val : Z) (s : UState) : outcome UState := a ← u32 (base + offset); w32 a val s.

(** ** The chain *)

Definition Unwind_SjLj_Register (fc : Z) (s : UState) : outcome UState :=
  let prev := chain_head s in
  s ← set_field fc FC_PREV prev s;
  Ret (set_head fc s).
Definition Unwind_SjLj_Unregister (fc : Z) (s : UState) : outcome UState :=
  prev ← field fc FC_PREV s;
  Ret (set_head prev s).
Definition Unwind_SjLj_GetContext (s : UState) : Z := chain_head s.
Definition Unwind_SjLj_SetContext (fc : Z) (s : UState) : UState := set_head fc s.

(** ** What the personality routine calls back *)

Definition Unwind_GetLanguageSpecificData (ctx : Z) (s : UState) : outcome Z := field ctx FC_LSDA s.
Definition Unwind_GetIP (ctx : Z) (s : UState) : outcome Z := x ← field ctx FC_CALL_SITE s; Ret ((x + 1) mod U32_MOD).
Definition Unwind_GetIPInfo (ctx ip_before : Z) (s : UState) : outcome (Z * UState) :=
  s ← (if negb (ip_before =? 0) then w32 ip_before 1 s else Ret s);
  x ← field ctx FC_CALL_SITE s;
  Ret ((x + 1) mod U32_MOD, s).
Definition Unwind_SetIP (ctx ip : Z) (s : UState) : outcome UState := set_field ctx FC_CALL_SITE ((ip - 1) mod U32_MOD) s.
(** The index is an [i32] cast to [u32]. *)
Definition gr_offset (index : Z) : outcome Z := u32 (index mod U32_MOD * 4).
Definition Unwind_GetGR (ctx index : Z) (s : UState) : outcome Z :=
  a ← u32 (ctx + FC_DATA); o ← gr_offset index; field a o s.
Definition Unwind_SetGR (ctx index value : Z) (s : UState) : outcome UState :=
  a ← u32 (ctx + FC_DATA); o ← gr_offset index; set_field a o value s.
Definition Unwind_GetRegionStart (ctx : Z) : Z := 0.
Definition Unwind_GetCFA (ctx : Z) (s : UState) : outcome Z := field ctx JBUF_SP s.
Definition Unwind_GetDataRelBase (ctx : Z) (s : UState) : outcome Z := field ctx FC_DATA s.
Definition Unwind_GetTextRelBase (ctx : Z) (s : UState) : outcome Z := a ← u32 (ctx + FC_DATA); field a 4 s.

Section unwinder.
(** A guest function called by the host. *)
Context (call_from_host : GuestFunction → list Z → UState → outcome (Z * UState)).

Definition Unwind_DeleteException (exc : Z) (s : UState) : outcome UState :=
  cleanup ← field exc 8 s;
  if negb (cleanup =? 0) then '(_, s) ← call_from_host cleanup [1; exc] s; Ret s else Ret s.

(** ** The unwinder *)

Definition call_personality (personality actions exc ctx : Z) (s : UState) : outcome (Z * UState) :=
  ecl ← r32 exc s;
  ech ← field exc 4 s;
  call_from_host personality [1; actions; ecl; ech; exc; ctx] s.

(** The landing pad of [fc] is resumed. *)
Definition install_and_longjmp (fc : Z) (s : UState) : outcome UState :=
  new_fp ← field JBUF_FP fc s;
  new_pc ← field JBUF_PC fc s;
  new_sp ← field JBUF_SP fc s;
  let c := cpu (u_env s) in
  let c := set_reg LR new_pc (set_reg SP new_sp (set_reg FRAME_POINTER new_fp (set_reg 0 1 c))) in
  Ret (mkU (set_cpu (branch new_pc c) (u_env s)) (heads s)).

(** An iteration of phase 1: [inr (Ok fc)] is the handler's frame, [inr (Err code)] a return. *)
Definition phase1_body (exc : Z) (x : Z * UState) : outcome ((Z * UState) + (result Z Z * UState)) :=
  let '(fc, s) := x in
  if fc =? 0 then Ret (inr (Err URC_END_OF_STACK, s))
  else
    personality ← field fc FC_PERSONALITY s;
    let continue s := fc ← field fc FC_PREV s; Ret (inl (fc, s)) in
    if negb (personality =? 0) then
      _ ← field fc FC_CALL_SITE s;
      _ ← field fc FC_LSDA s;
      '(code, s) ← call_personality personality UA_SEARCH_PHASE exc fc s;
      if code =? URC_HANDLER_FOUND then Ret (inr (Ok fc, s))
      else if negb (code =? URC_CONTINUE_UNWIND) then Ret (inr (Err URC_FATAL_PHASE1_ERROR, s))
      else continue s
    else continue s.

(** An iteration of phase 2; the result is the return value. *)
Definition phase2_body (exc handler_fc : Z) (x : Z * UState) : outcome ((Z * UState) + (Z * UState)) :=
  let '(fc, s) := x in
  personality ← field fc FC_PERSONALITY s;
  let continue s :=
    if fc =? handler_fc then Ret (inr (URC_FATAL_PHASE2_ERROR, s))
    else fc ← field fc FC_PREV s; Ret (inl (fc, s)) in
  if negb (personality =? 0) then
    let actions := if fc =? handler_fc then Z.lor UA_CLEANUP_PHASE UA_HANDLER_FRAME else UA_CLEANUP_PHASE in
    '(code, s) ← call_personality personality actions exc fc s;
    if code =? URC_INSTALL_CONTEXT then
      let s := Unwind_SjLj_SetContext fc s in
      s ← install_and_longjmp fc s;
      Ret (inr (0, s))
    else if negb (code =? URC_CONTINUE_UNWIND) then Ret (inr (URC_FATAL_PHASE2_ERROR, s))
    else continue s
  else continue s.

Definition Unwind_SjLj_RaiseException (exc : Z) (s : UState) : outcome (Z * UState) :=
  '(r, s) ← loop_end (run_loop 32 (phase1_body exc) (chain_head s, s));
  match r with
  | Err code => Ret (code, s)
  | Ok handler_fc => loop_end (run_loop 32 (phase2_body exc handler_fc) (chain_head s, s))
  end.

Definition Unwind_SjLj_Resume (exc : Z) (s : UState) : outcome UState :=
  '(_, s) ← Unwind_SjLj_RaiseException exc s; Ret s.
Definition Unwind_SjLj_Resume_or_Rethrow (exc : Z) (s : UState) : outcome (Z * UState) := Unwind_SjLj_RaiseException exc s.
Definition Unwind_SjLj_ForcedUnwind (exc stop stop_arg : Z) (s : UState) : Z * UState := (URC_END_OF_STACK, s).

(** [w32(env, obj - offset, val)]. *)
Definition set_before (obj offset val : Z) (s : UState) : outcome UState := a ← u32 (obj - offset); w32 a val s.
(** An exception that nothing catches is a panic. *)
Definition cxa_throw (thrown_object tinfo : Z) (dtor : GuestFunction) (s : UState) : outcome UState :=
  let obj := thrown_object in
  s ← set_before obj 64 tinfo s;
  s ← set_before obj 60 dtor s;
  s ← set_before obj 20 1129664071 s;
  s ← set_before obj 16 2829123 s;
  s ← set_before obj 12 0 s;
  s ← set_before obj 8 0 s;
  s ← set_before obj 4 0 s;
  exc ← u32 (obj - 20);
  '(code, s) ← Unwind_SjLj_RaiseException exc s;
  if negb (code =? 0) then Panic else Ret s.

(** ** Constructors of [std::string] that tolerate what the app should not pass *)

Context (bins : list MachO).

Definition resolve_guest_export (symbol : list Z) : outcome GuestFunction :=
  unwrap (head (omap (λ b, exported_symbols b !! symbol) bins)).

Definition forward (symbol args : list Z) (s : UState) : outcome UState :=
  real ← resolve_guest_export symbol; '(_, s) ← call_from_host real args s; Ret s.
Definition string_from_cstr_nullsafe (this str alloc : Z) (symbol : list Z) (s : UState) : outcome UState :=
  '(str, s) ← (if str =? 0 then '(p, m) ← alloc_and_write_cstr [] (u_mem s); Ret (p, set_u_mem m s) else Ret (str, s));
  forward symbol [this; str; alloc] s.

Definition ZNSsC1EPKcRKSaIcE : list Z := [95; 95; 90; 78; 83; 115; 67; 49; 69; 80; 75; 99; 82; 75; 83; 97; 73; 99; 69].
(** The representation of a string starts 12 bytes before its characters, with the length. *)
Definition corrupted (other : Z) (s : UState) : outcome bool :=
  data_ptr ← r32 other s;
  if data_ptr <? 4096 then Ret true
  else length ← r32 ((data_ptr - 12) mod U32_MOD) s; Ret (256 * 1024 * 1024 <? length).
Definition string_copy_ctor_safe (this other : Z) (symbol : list Z) (s : UState) : outcome UState :=
  bad ← corrupted other s;
  if (bad : bool) then
    '(empty_cstr, m) ← alloc_and_write_cstr [] (u_mem s);
    '(dummy_alloc, m) ← mem_alloc 1 m;
    forward ZNSsC1EPKcRKSaIcE [this; empty_cstr; dummy_alloc] (set_u_mem m s)
  else forward symbol [this; other] s.
Definition ZNSs6appendERKSs (symbol : list Z) (this other : Z) (s : UState) : outcome UState :=
  bad ← corrupted other s;
  if (bad : bool) then Ret s else forward symbol [this; other] s.
Definition ZNSs7reserveEm (symbol : list Z) (this n : Z) (s : UState) : outcome UState :=
  if 256 * 1024 * 1024 <? n then Ret s else forward symbol [this; n] s.
End unwinder.
