(* ===== verification/UnwindFacts.v ===== *)
(** * Exceptions land in the right frame

    A chain of contexts in guest memory is a list of frames.  For personality routines that do as the C++ ABI
    says, a throw finds the nearest frame with a handler, and resumes the first frame, from the top
    down to it, that has something to do. *)

From S2P Require Import Prelude ChunkMap SizeBucketed VMAllocator HeapAllocator GuestMem GuestAlloc Env Qsort Abi AbiFacts MachO Unwind.

(** ** Chains *)

(** A context record that is inside of memory. *)
Definition frame (f : Z) : Prop := 0 < f ∧ f + 44 < U32_MOD.
(** The frames from [fc] to the end of the chain. *)
Fixpoint chain (fc : Z) (fs : list Z) (m : Mem) : Prop :=
  match fs with
  | [] => fc = 0
  | f :: fs => fc = f ∧ frame f ∧ chain (word_at m f) fs m
  end.

Lemma field_word f o s : frame f → 0 ≤ o ≤ 40 → field f o s = Ret (word_at (u_mem s) (f + o)).
Proof.
  intros [H0 Hf] Ho. unfold field, r32. rewrite u32_ok by lia. cbn [mbind outcome_bind]. apply read_u32_word; lia.
Qed.

Lemma chain_same fc fs m m' : (∀ f, f ∈ fs → word_at m' f = word_at m f) → chain fc fs m → chain fc fs m'.
Proof.
  revert fc. induction fs as [|f fs IH]; intros fc Hw; [done|]. intros (-> & Hf & Hc). cbn [chain]. split; [done|]. split; [done|].
  rewrite Hw by by left. apply IH; [|done]. intros g Hg. apply Hw. by right.
Qed.
Lemma chain_det fc fs fs' m : chain fc fs m → chain fc fs' m → fs = fs'.
Proof.
  revert fc fs'. induction fs as [|f fs IH]; intros fc [|f' fs']; cbn [chain].
  - done.
  - intros -> (<- & [? _] & _). lia.
  - intros (-> & [? _] & _) ->. lia.
  - intros (-> & _ & Hc) (<- & _ & Hc'). f_equal. by eapply IH.
Qed.
Lemma chain_suffix fc fs1 f fs2 m : chain fc (fs1 ++ f :: fs2) m → chain f (f :: fs2) m.
Proof. revert fc. induction fs1 as [|g fs1 IH]; intros fc; [by intros (-> & H); split|]. intros (_ & _ & Hc). by eapply IH. Qed.
Lemma chain_nodup fc fs m : chain fc fs m → NoDup fs.
Proof.
  revert fc. induction fs as [|f fs IH]; intros fc Hc; [constructor|]. pose proof Hc as (-> & Hf & Hc'). apply NoDup_cons. split; [|by eapply IH].
  intros (l1 & l2 & ->)%list_elem_of_split. apply chain_suffix in Hc'. pose proof (chain_det _ _ _ _ Hc Hc') as E.
  apply (f_equal length) in E. rewrite !length_cons, length_app, length_cons in E. lia.
Qed.
Lemma chain_frames fc fs m : chain fc fs m → Forall frame fs.
Proof. revert fc. induction fs as [|f fs IH]; intros fc; [constructor|]. intros (_ & Hf & Hc). apply List.Forall_cons; [done|by eapply IH]. Qed.

Lemma nodup_below (l : list Z) n : NoDup l → Forall (λ x, 0 < x < n) l → 0 < n → Z.of_nat (length l) < n.
Proof.
  intros Hnd Hr Hn. assert (Hs : l ⊆+ seqZ 1 (n - 1)).
  { apply NoDup_submseteq; [done|]. intros x Hx. rewrite Forall_forall in Hr. apply Hr in Hx. apply elem_of_seqZ. lia. }
  apply submseteq_length in Hs. rewrite length_seqZ in Hs. lia.
Qed.
Lemma chain_short fc fs m : chain fc fs m → Z.of_nat (length fs) < U32_MOD.
Proof.
  intros Hc. apply nodup_below; [by eapply chain_nodup| |done]. eapply Forall_impl; [by eapply chain_frames|].
  intros f [? ?]. lia.
Qed.

(** ** What the personality routines do *)

Section raise.
Context (call_from_host : GuestFunction → list Z → UState → outcome (Z * UState)) (claims cleans : Z → bool) (exc : Z) (fs : list Z).

(** The parts of the contexts that belong to the unwinder, and the chain's head, stay as they are. *)
Record keeps (s s' : UState) : Prop := {
  kp_thread : current_thread (u_env s') = current_thread (u_env s);
  kp_head : heads s' !! current_thread (u_env s) = heads s !! current_thread (u_env s);
  kp_words f o : f ∈ fs → o ∈ [0; 24; 32; 36; 40] → word_at (u_mem s') (f + o) = word_at (u_mem s) (f + o);
  kp_regs : length (regs (cpu (u_env s'))) = length (regs (cpu (u_env s))) }.

(** The answer for the frame [f]: whether it has a handler in the search phase; in the cleanup phase, that
    it wants control if it is the handler's or has a cleanup. *)
Definition answer (f actions : Z) : Z :=
  if actions =? UA_SEARCH_PHASE then (if claims f then URC_HANDLER_FOUND else URC_CONTINUE_UNWIND)
  else if (actions =? Z.lor UA_CLEANUP_PHASE UA_HANDLER_FRAME) || cleans f then URC_INSTALL_CONTEXT else URC_CONTINUE_UNWIND.
Definition personality_of (s : UState) (f : Z) : Z := word_at (u_mem s) (f + FC_PERSONALITY).

(** The contract of personality routines. *)
Definition personalities_ok : Prop := ∀ s f actions ecl ech,
  f ∈ fs → personality_of s f ≠ 0 →
  ∃ s', call_from_host (personality_of s f) [1; actions; ecl; ech; exc; f] s = Ret (answer f actions, s') ∧ keeps s s'.

Lemma keeps_refl s : keeps s s.
Proof. by split. Qed.
Lemma kept_trans s1 s2 s3 : keeps s1 s2 → keeps s2 s3 → keeps s1 s3.
Proof.
  intros [T1 H1 W1 R1] [T2 H2 W2 R2]. split; [congruence|by rewrite <-T1, H2, T1, H1| |congruence].
  intros f o Hf Ho. by rewrite W2, W1.
Qed.
Lemma keeps_head s s' : keeps s s' → chain_head s' = chain_head s.
Proof. intros [T H _ _]. unfold chain_head. by rewrite T, H. Qed.
Lemma keeps_personality s s' f : keeps s s' → f ∈ fs → personality_of s' f = personality_of s f.
Proof using fs. intros K Hf. apply (kp_words _ _ K); [done|]. refine (bool_decide_unpack _ _). exact I. Qed.
Lemma keeps_prev s s' f : keeps s s' → f ∈ fs → word_at (u_mem s') f = word_at (u_mem s) f.
Proof. intros K Hf. rewrite <-(Z.add_0_r f). apply (kp_words _ _ K); [done|]. refine (bool_decide_unpack _ _). exact I. Qed.

Hypothesis Hpers : personalities_ok.
Hypothesis Hexc : 0 ≤ exc ∧ exc + 8 ≤ U32_MOD.

Lemma call_personality_eq s f actions :
  f ∈ fs → personality_of s f ≠ 0 →
  ∃ s', call_personality call_from_host (personality_of s f) actions exc f s = Ret (answer f actions, s') ∧ keeps s s'.
Proof.
  intros Hf Hp. unfold call_personality, field, r32. rewrite read_u32_word by lia. cbn [mbind outcome_bind].
  rewrite u32_ok by lia. cbn [mbind outcome_bind]. rewrite read_u32_word by lia. cbn [mbind outcome_bind]. by apply Hpers.
Qed.

(** A frame with a handler; a frame that wants control in the cleanup phase. *)
Definition catches (s : UState) (f : Z) : bool := negb (personality_of s f =? 0) && claims f.
Definition wants (s : UState) (h f : Z) : bool := negb (personality_of s f =? 0) && ((f =? h) || cleans f).
Definition first (P : Z → bool) (l : list Z) : option Z := head (filter (λ f, P f = true) l).

Lemma first_cons P f l : first P (f :: l) = if P f then Some f else first P l.
Proof. unfold first. rewrite filter_cons. destruct (P f) eqn:E; [by rewrite decide_True|by rewrite decide_False]. Qed.
Lemma first_ext P Q l : (∀ f, f ∈ l → P f = Q f) → first P l = first Q l.
Proof.
  induction l as [|f l IH]; intros H; [done|]. rewrite !first_cons, H by by left. destruct (Q f); [done|]. apply IH. intros. apply H. by right.
Qed.
Lemma first_Some P l f : first P l = Some f → ∃ l1 l2, l = l1 ++ f :: l2 ∧ P f = true ∧ Forall (λ g, P g = false) l1.
Proof.
  induction l as [|g l IH]; [done|]. rewrite first_cons. destruct (P g) eqn:E.
  - intros [= ->]. by exists [], l.
  - intros (l1 & l2 & -> & Hf & Hl)%IH. exists (g :: l1), l2. split; [done|]. split; [done|]. by apply List.Forall_cons.
Qed.
Lemma first_None P l : first P l = None → Forall (λ g, P g = false) l.
Proof. induction l as [|g l IH]; [constructor|]. rewrite first_cons. destruct (P g) eqn:E; [done|]. intros ?. apply List.Forall_cons; auto. Qed.

Lemma keeps_catches s s' f : keeps s s' → f ∈ fs → catches s' f = catches s f.
Proof using claims fs. intros K Hf. unfold catches. by rewrite (keeps_personality _ _ _ K Hf). Qed.
Lemma keeps_wants s s' h f : keeps s s' → f ∈ fs → wants s' h f = wants s h f.
Proof using cleans fs. intros K Hf. unfold wants. by rewrite (keeps_personality _ _ _ K Hf). Qed.
Lemma keeps_chain s s' fc l : keeps s s' → (∀ f, f ∈ l → f ∈ fs) → chain fc l (u_mem s) → chain fc l (u_mem s').
Proof. intros K Hl. apply chain_same. intros f Hf. apply (keeps_prev _ _ _ K). by apply Hl. Qed.

Notation phase1 := (phase1_body call_from_host exc).
Notation phase2 := (phase2_body call_from_host exc).

(** One frame in phase 1. *)
Lemma phase1_frame s f l :
  f ∈ fs → chain f (f :: l) (u_mem s) →
  ∃ s', keeps s s' ∧ phase1 (f, s) = Ret (if catches s f then inr (Ok f, s') else inl (word_at (u_mem s) f, s')).
Proof.
  intros Hf (_ & Hfr & _). unfold phase1_body. destruct (Z.eqb_spec f 0) as [->|_]; [destruct Hfr; lia|].
  unfold FC_PERSONALITY, FC_CALL_SITE, FC_LSDA, FC_PREV. rewrite (field_word f 24) by (done || lia). cbn [mbind outcome_bind].
  change (word_at (u_mem s) (f + 24)) with (personality_of s f). unfold catches.
  destruct (Z.eqb_spec (personality_of s f) 0) as [Ep|Ep]; cbn [negb andb].
  { exists s. split; [apply keeps_refl|]. rewrite (field_word f 0) by (done || lia). cbn [mbind outcome_bind]. by rewrite Z.add_0_r. }
  rewrite (field_word f 4), (field_word f 28) by (done || lia). cbn [mbind outcome_bind].
  destruct (call_personality_eq s f UA_SEARCH_PHASE Hf Ep) as (s' & -> & K). cbn [mbind outcome_bind]. exists s'. split; [done|].
  unfold answer. cbn [Z.eqb UA_SEARCH_PHASE Pos.eqb]. destruct (claims f); [done|]. cbn. rewrite field_word by (done || lia).
  cbn [mbind outcome_bind]. by rewrite Z.add_0_r, (keeps_prev _ _ _ K Hf).
Qed.

Lemma phase1_chain l : ∀ fc s, (∀ f, f ∈ l → f ∈ fs) → chain fc l (u_mem s) →
  ∃ n s', keeps s s' ∧ n ≤ Z.of_nat (length l) + 1 ∧
    iterates phase1 n (fc, s) (Ret (match first (catches s) l with Some h => Ok h | None => Err URC_END_OF_STACK end, s')).
Proof.
  induction l as [|f l IH]; intros fc s Hl Hc.
  - cbn [chain] in Hc. subst fc. exists 1, s. split; [apply keeps_refl|]. split; [simpl; lia|]. by constructor.
  - pose proof Hc as (-> & _ & Hc'). assert (Hf : f ∈ fs) by (apply Hl; by left). rewrite first_cons.
    destruct (phase1_frame s f l Hf Hc) as (s1 & K1 & E1). destruct (catches s f).
    + exists 1, s1. split; [done|]. split; [lia|]. by constructor.
    + destruct (IH (word_at (u_mem s) f) s1) as (n & s2 & K2 & Hn & It).
      { intros g Hg. apply Hl. by right. } { eapply keeps_chain; [done| |done]. intros g Hg. apply Hl. by right. }
      exists (n + 1), s2. split; [by eapply kept_trans|]. split; [rewrite length_cons; lia|].
      eapply iterates_step; [done|]. rewrite (first_ext (catches s) (catches s1)); [done|].
      intros g Hg. symmetry. apply keeps_catches; [done|]. apply Hl. by right.
Qed.

(** *** Phase 2 *)

(** The frame [t] has control: its landing pad is next, with its stack, and it is the top of the chain. *)
Record landed (s s' : UState) (t : Z) : Prop := {
  ld_head : chain_head s' = t;
  ld_mem : u_mem s' = u_mem s;
  ld_r0 : regs (cpu (u_env s')) !! 0%nat = Some 1;
  ld_fp : regs (cpu (u_env s')) !! FRAME_POINTER = Some (word_at (u_mem s) (t + JBUF_FP));
  ld_sp : regs (cpu (u_env s')) !! SP = Some (word_at (u_mem s) (t + JBUF_SP));
  ld_lr : regs (cpu (u_env s')) !! LR = Some (word_at (u_mem s) (t + JBUF_PC));
  ld_pc : regs (cpu (u_env s')) !! PC = Some (addr_without_thumb_bit (word_at (u_mem s) (t + JBUF_PC)));
  ld_thumb : (Z.land (cpsr (cpu (u_env s'))) CPSR_THUMB =? CPSR_THUMB) = is_thumb (word_at (u_mem s) (t + JBUF_PC)) }.

Ltac reg_written :=
  unfold branch, set_reg; cbn [regs set_regs set_cpsr]; unfold PC, LR, SP, FRAME_POINTER;
  rewrite !list_lookup_insert_ne by lia; apply list_lookup_insert_eq; rewrite ?length_insert; lia.
Lemma install_landed s f :
  frame f → length (regs (cpu (u_env s))) = 16%nat →
  ∃ s', install_and_longjmp f (Unwind_SjLj_SetContext f s) = Ret s' ∧ landed s s' f.
Proof.
  intros Hf Hr. unfold install_and_longjmp, Unwind_SjLj_SetContext.
  assert (Hfield : ∀ o, 0 ≤ o ≤ 40 → field o f (set_head f s) = Ret (word_at (u_mem s) (f + o))).
  { intros o Ho. unfold field. rewrite Z.add_comm. exact (field_word f o (set_head f s) Hf Ho). }
  rewrite !Hfield by (unfold JBUF_FP, JBUF_PC, JBUF_SP, FC_JBUF; lia). cbn [mbind outcome_bind].
  eexists. split; [done|]. cbn [set_head u_env].
  set (c := cpu (u_env s)) in *. split; cbn [u_env cpu set_cpu].
  - unfold chain_head, set_head. cbn [u_env heads set_cpu current_thread]. by rewrite lookup_insert_eq.
  - done.
  - reg_written.
  - reg_written.
  - reg_written.
  - reg_written.
  - apply branch_pc. unfold set_reg. cbn [regs set_regs]. rewrite !length_insert. lia.
  - apply branch_thumb.
Qed.

(** One frame in phase 2. *)
Lemma phase2_frame s h f l :
  f ∈ fs → chain f (f :: l) (u_mem s) → length (regs (cpu (u_env s))) = 16%nat → personality_of s h ≠ 0 →
  ∃ s1, keeps s s1 ∧
    if wants s h f then ∃ s', phase2 h (f, s) = Ret (inr (0, s')) ∧ landed s1 s' f
    else phase2 h (f, s) = Ret (inl (word_at (u_mem s) f, s1)).
Proof.
  intros Hf (_ & Hfr & _) Hr Hh. unfold phase2_body, FC_PERSONALITY, FC_PREV. rewrite (field_word f 24) by (done || lia).
  cbn [mbind outcome_bind]. change (word_at (u_mem s) (f + 24)) with (personality_of s f). unfold wants.
  destruct (Z.eqb_spec (personality_of s f) 0) as [Ep|Ep]; cbn [negb andb].
  { exists s. split; [apply keeps_refl|]. destruct (Z.eqb_spec f h) as [->|_]; [done|].
    rewrite (field_word f 0) by (done || lia). cbn [mbind outcome_bind]. by rewrite Z.add_0_r. }
  destruct (call_personality_eq s f (if f =? h then Z.lor UA_CLEANUP_PHASE UA_HANDLER_FRAME else UA_CLEANUP_PHASE) Hf Ep) as (s1 & -> & K).
  cbn [mbind outcome_bind]. exists s1. split; [done|].
  assert (Ea : answer f (if f =? h then Z.lor UA_CLEANUP_PHASE UA_HANDLER_FRAME else UA_CLEANUP_PHASE) =
    if (f =? h) || cleans f then URC_INSTALL_CONTEXT else URC_CONTINUE_UNWIND) by (unfold answer; by destruct (f =? h), (cleans f)).
  rewrite Ea. destruct ((f =? h) || cleans f) eqn:Ew.
  - destruct (install_landed s1 f Hfr) as (s' & E & Hl); [by rewrite (kp_regs _ _ K)|].
    exists s'. split; [|done]. change (URC_INSTALL_CONTEXT =? URC_INSTALL_CONTEXT) with true. cbv iota. by rewrite E.
  - apply orb_false_iff in Ew as [Efh _]. rewrite Efh. cbn. rewrite (field_word f 0) by (done || lia). cbn [mbind outcome_bind].
    by rewrite Z.add_0_r, (keeps_prev _ _ _ K Hf).
Qed.

Lemma phase2_chain h l : ∀ fc s, (∀ f, f ∈ l → f ∈ fs) → chain fc l (u_mem s) → length (regs (cpu (u_env s))) = 16%nat →
  h ∈ l → personality_of s h ≠ 0 →
  ∃ n s1 s' t, first (wants s h) l = Some t ∧ keeps s s1 ∧ n ≤ Z.of_nat (length l) ∧
    iterates (phase2 h) n (fc, s) (Ret (0, s')) ∧ landed s1 s' t.
Proof.
  induction l as [|f l IH]; intros fc s Hl Hc Hr Hh Hp; [by apply elem_of_nil in Hh|].
  pose proof Hc as (-> & _ & Hc'). assert (Hf : f ∈ fs) by (apply Hl; by left). rewrite first_cons.
  destruct (phase2_frame s h f l Hf Hc Hr Hp) as (s1 & K1 & E1). destruct (wants s h f) eqn:Ew.
  - destruct E1 as (s' & E1 & Hld). exists 1, s1, s', f. split; [done|]. split; [done|]. split; [rewrite length_cons; lia|].
    split; [by constructor|done].
  - apply elem_of_cons in Hh as [->|Hh].
    { exfalso. unfold wants in Ew. rewrite Z.eqb_refl in Ew. by rewrite (proj2 (Z.eqb_neq _ _) Hp) in Ew. }
    assert (Hl' : ∀ g, g ∈ l → g ∈ fs) by (intros g Hg; apply Hl; by right).
    destruct (IH (word_at (u_mem s) f) s1) as (n & s2 & s' & t & Ht & K2 & Hn & It & Hld); [done|by eapply keeps_chain| |done| |].
    { by rewrite (kp_regs _ _ K1). } { rewrite (keeps_personality _ _ _ K1); [done|by apply Hl']. }
    exists (n + 1), s2, s', t. split_and!; [|by eapply kept_trans|rewrite length_cons; lia|by eapply iterates_step|done].
    rewrite <-Ht. apply first_ext. intros g Hg. symmetry. apply keeps_wants; [done|by apply Hl'].
Qed.

(** What a throw does: with [h] the nearest frame that has a handler, [t] is the first frame of the
    chain that has a cleanup or is [h]; it has control. *)
Definition unwound (s s' : UState) : Prop :=
  ∃ h s1 t above below,
    first (catches s) fs = Some h ∧ fs = above ++ t :: below ∧ h ∈ t :: below ∧
    Forall (λ f, wants s h f = false) above ∧ wants s h t = true ∧
    keeps s s1 ∧ landed s1 s' t ∧ chain (chain_head s') (t :: below) (u_mem s').

Lemma unwound_intro s s1 s' h t :
  chain (chain_head s) fs (u_mem s) → first (catches s) fs = Some h → first (wants s h) fs = Some t → keeps s s1 → landed s1 s' t → unwound s s'.
Proof.
  intros Hc Hh Ht K Hld. destruct (first_Some _ _ _ Ht) as (above & below & E & Hw & Hab).
  destruct (first_Some _ _ _ Hh) as (l1 & l2 & E' & Hcat & _).
  exists h, s1, t, above, below. split_and!; try done.
  - assert (Hin : h ∈ fs) by (rewrite E'; apply elem_of_app; right; by left). rewrite E, elem_of_app in Hin.
    destruct Hin as [Hin|]; [|done]. rewrite Forall_forall in Hab. apply Hab in Hin. exfalso.
    unfold wants, catches in *. rewrite Z.eqb_refl in Hin. apply andb_true_iff in Hcat as [Hcat _]. by rewrite Hcat in Hin.
  - rewrite (ld_head _ _ _ Hld), (ld_mem _ _ _ Hld). eapply keeps_chain; [done| |].
    + intros f Hf. rewrite E. apply elem_of_app. by right.
    + rewrite E in Hc. by eapply chain_suffix.
Qed.

Lemma raise_spec s :
  chain (chain_head s) fs (u_mem s) → length (regs (cpu (u_env s))) = 16%nat →
  ∃ s', match first (catches s) fs with
        | None => Unwind_SjLj_RaiseException call_from_host exc s = Ret (URC_END_OF_STACK, s') ∧ keeps s s'
        | Some _ => Unwind_SjLj_RaiseException call_from_host exc s = Ret (0, s') ∧ unwound s s'
        end.
Proof.
  intros Hc Hr. pose proof (chain_short _ _ _ Hc) as Hlen.
  destruct (phase1_chain fs (chain_head s) s (λ f Hf, Hf) Hc) as (n & s1 & K1 & Hn & It).
  assert (E1 := iterates_loop _ 32 _ _ _ It ltac:(unfold U32_MOD in Hlen; lia)).
  unfold Unwind_SjLj_RaiseException. rewrite E1. cbn [mbind outcome_bind]. clear E1 It.
  destruct (first (catches s) fs) as [h|] eqn:Eh; [|by exists s1].
  destruct (first_Some _ _ _ Eh) as (l1 & l2 & E & Hcat & _). apply andb_true_iff in Hcat as [Hp%negb_true_iff%Z.eqb_neq _].
  assert (Hin : h ∈ fs) by (rewrite E; apply elem_of_app; right; by left).
  destruct (phase2_chain h fs (chain_head s1) s1 (λ f Hf, Hf)) as (k & s2 & s' & t & Ht & K2 & Hk & It & Hld); try done.
  { rewrite (keeps_head _ _ K1). by eapply keeps_chain. } { by rewrite (kp_regs _ _ K1). } { by rewrite (keeps_personality _ _ _ K1). }
  assert (E2 := iterates_loop _ 32 _ _ _ It ltac:(unfold U32_MOD in Hlen; lia)).
  exists s'. split; [exact E2|]. eapply (unwound_intro s s2); [done|done| |by eapply kept_trans|done].
  rewrite <-Ht. apply first_ext. intros f Hf. symmetry. by apply keeps_wants.
Qed.
End raise.

(** ** Entering and leaving functions *)

Lemma w32_word s p v :
  0 ≤ p → p + 4 < U32_MOD → 0 ≤ v < U32_MOD →
  ∃ m, w32 p v s = Ret (set_u_mem m s) ∧ patched (λ a, p ≤ a < p + 4) (u_mem s) m ∧ word_at m p = v.
Proof.
  intros H0 Hp Hv. destruct (write_u32_word (u_mem s) p v H0 Hp Hv) as (m & E & Hm). exists m. unfold w32. by rewrite E.
Qed.
Lemma chain_head_range fc fs m : chain fc fs m → 0 ≤ fc < U32_MOD.
Proof. destruct fs as [|f fs]; cbn [chain]; [intros ->; done|]. intros (-> & [? ?] & _). lia. Qed.

(** [_Unwind_SjLj_Register] pushes a frame that is apart from the others, [_Unwind_SjLj_Unregister] pops it. *)
Lemma register_chain s fc fs :
  chain (chain_head s) fs (u_mem s) → frame fc → (∀ f, f ∈ fs → f + 4 ≤ fc ∨ fc + 4 ≤ f) →
  ∃ s', Unwind_SjLj_Register fc s = Ret s' ∧ chain_head s' = fc ∧ chain fc (fc :: fs) (u_mem s') ∧
    ∃ s'', Unwind_SjLj_Unregister fc s' = Ret s'' ∧ chain_head s'' = chain_head s ∧ chain (chain_head s'') fs (u_mem s'').
Proof.
  intros Hc Hf Hd. pose proof Hf as [Hf0 Hf1]. unfold Unwind_SjLj_Register, set_field, FC_PREV. rewrite Z.add_0_r, u32_ok by lia.
  cbn [mbind outcome_bind]. destruct (w32_word s fc (chain_head s)) as (m & E & Hp & Hw); [lia|lia|by eapply chain_head_range|].
  rewrite E. cbn [mbind outcome_bind]. set (s' := set_head fc (set_u_mem m s)).
  assert (Hc' : chain (chain_head s) fs m).
  { eapply chain_same; [|done]. intros f Hf'. apply (patched_word _ _ _ _ Hp). intros a Ha Hin. specialize (Hd f Hf'). lia. }
  assert (Hh : chain_head s' = fc) by (unfold chain_head, s', set_head; cbn; by rewrite lookup_insert_eq).
  exists s'. split; [done|]. split; [done|]. assert (Hm : u_mem s' = m) by done. split; [cbn [chain]; by rewrite Hm, Hw|].
  unfold Unwind_SjLj_Unregister, FC_PREV. rewrite field_word by (done || lia). cbn [mbind outcome_bind]. rewrite Z.add_0_r, Hm, Hw.
  eexists. split; [done|]. assert (E' : chain_head (set_head (chain_head s) s') = chain_head s).
  { unfold chain_head at 1, set_head. cbn. by rewrite lookup_insert_eq. }
  by rewrite E'.
Qed.

(** ** Throwing *)

(** The header that [__cxa_throw] writes before the object. *)
Record thrown (obj tinfo dtor : Z) (s s0 : UState) : Prop := {
  th_type : word_at (u_mem s0) (obj - 64) = tinfo;
  th_dtor : word_at (u_mem s0) (obj - 60) = dtor;
  th_class : word_at (u_mem s0) (obj - 20) = 1129664071 ∧ word_at (u_mem s0) (obj - 16) = 2829123;
  th_private : Forall (λ o, word_at (u_mem s0) (obj - o) = 0) [12; 8; 4];
  th_frame : ∃ m, s0 = set_u_mem m s ∧ patched (λ a, obj - 64 ≤ a < obj) (u_mem s) m }.

Lemma set_before_word s obj o v :
  4 ≤ o ≤ obj → obj < U32_MOD → 0 ≤ v < U32_MOD →
  ∃ m, set_before obj o v s = Ret (set_u_mem m s) ∧ patched (λ a, obj - o ≤ a < obj - o + 4) (u_mem s) m ∧ word_at m (obj - o) = v.
Proof.
  intros Ho Hobj Hv. unfold set_before. rewrite u32_ok by lia. cbn [mbind outcome_bind]. apply w32_word; [lia| |done]. lia.
Qed.
(** The words already written and the new one. *)
Lemma written_app obj (l : list (Z * Z)) o v m m' :
  Forall (λ x, word_at m (obj - x.1) = x.2) l → patched (λ a, obj - o ≤ a < obj - o + 4) m m' → word_at m' (obj - o) = v →
  Forall (λ x, o + 4 ≤ x.1) l → Forall (λ x, word_at m' (obj - x.1) = x.2) ((o, v) :: l).
Proof.
  intros Hl Hp Hv Ho. apply List.Forall_cons; [done|]. rewrite Forall_forall in *. intros x Hx. rewrite <-(Hl x Hx).
  apply (patched_word _ _ _ _ Hp). intros a Ha. specialize (Ho x Hx). lia.
Qed.

Definition throw_header (obj tinfo dtor : Z) (s : UState) : outcome UState :=
  s ← set_before obj 64 tinfo s;
  s ← set_before obj 60 dtor s;
  s ← set_before obj 20 1129664071 s;
  s ← set_before obj 16 2829123 s;
  s ← set_before obj 12 0 s;
  s ← set_before obj 8 0 s;
  set_before obj 4 0 s.
Lemma cxa_throw_header call obj tinfo dtor s :
  cxa_throw call obj tinfo dtor s =
  (s ← throw_header obj tinfo dtor s; exc ← u32 (obj - 20); '(code, s) ← Unwind_SjLj_RaiseException call exc s;
   if negb (code =? 0) then Panic else Ret s).
Proof.
  unfold cxa_throw, throw_header. repeat (destruct (set_before obj _ _ _) as [?|]; [cbn [mbind outcome_bind]|done]). done.
Qed.

Ltac header_step Hw Hp :=
  match goal with
  | |- context [set_before ?obj ?o ?v ?s] =>
      let m := fresh "m" in let E := fresh "E" in let P := fresh "P" in let W := fresh "W" in
      destruct (set_before_word s obj o v) as (m & E & P & W); [lia|lia|first [assumption|unfold U32_MOD; lia]|];
      rewrite E; cbn [mbind outcome_bind]; clear E;
      apply (written_app _ _ _ _ _ _ Hw P) in W; [|repeat (apply List.Forall_cons || apply List.Forall_nil); simpl; lia];
      clear Hw; rename W into Hw;
      let Q := fresh "Q" in
      match type of Hp with patched ?R ?m0 _ =>
        assert (Q : patched R m0 m) by (eapply patched_trans; [|exact Hp|exact P]; intros a; cbv beta; lia)
      end; clear Hp P; rename Q into Hp
  end.

Lemma throw_header_spec obj tinfo dtor s :
  64 ≤ obj < U32_MOD → 0 ≤ tinfo < U32_MOD → 0 ≤ dtor < U32_MOD →
  ∃ s0, throw_header obj tinfo dtor s = Ret s0 ∧ thrown obj tinfo dtor s s0.
Proof.
  intros Hobj Ht Hd. unfold throw_header.
  assert (Hw : Forall (λ x, word_at (u_mem s) (obj - x.1) = x.2) []) by constructor.
  assert (Hp : patched (λ a, obj - 64 ≤ a < obj) (u_mem s) (u_mem s)) by by split.
  do 7 header_step Hw Hp. eexists. split; [done|]. rewrite !List.Forall_cons_iff in Hw. cbn [fst snd] in Hw.
  destruct Hw as (W4 & W8 & W12 & W16 & W20 & W60 & W64 & _). split; [done|done|done| |by eexists].
  repeat (apply List.Forall_cons || apply List.Forall_nil); done.
Qed.

Lemma thrown_keeps fs obj tinfo dtor s s0 :
  thrown obj tinfo dtor s s0 → (∀ f, f ∈ fs → f + 44 ≤ obj - 64 ∨ obj ≤ f) → keeps fs s s0.
Proof.
  intros [_ _ _ _ (m & -> & Hp)] Hd. split; try done. intros f o Hf Ho. apply (patched_word _ _ _ _ Hp).
  intros a Ha. specialize (Hd f Hf). rewrite !elem_of_cons, elem_of_nil in Ho. lia.
Qed.

(** C33: a C++ exception lands in the right frame.  [__cxa_throw] writes the exception's header (type,
    destructor, class) and nothing else; then, for personality routines that keep to the C++ ABI, let
    [h] be the nearest frame of the thread's chain with a handler for the exception.  The first frame,
    from the top of the chain down to [h], that is [h] or has a cleanup gets control: its saved stack
    and frame pointers are restored, execution goes on in its landing pad in the right instruction set, and it
    is the top of the chain, so that frames above it are gone and those below are as before.  When no
    frame has a handler, the app is stopped. *)
Theorem throw_lands call claims cleans fs s obj tinfo dtor :
  personalities_ok call claims cleans (obj - 20) fs →
  chain (chain_head s) fs (u_mem s) → length (regs (cpu (u_env s))) = 16%nat →
  64 ≤ obj < U32_MOD → 0 ≤ tinfo < U32_MOD → 0 ≤ dtor < U32_MOD → (∀ f, f ∈ fs → f + 44 ≤ obj - 64 ∨ obj ≤ f) →
  ∃ s0, thrown obj tinfo dtor s s0 ∧ keeps fs s s0 ∧
    match first (catches claims s0) fs with
    | Some _ => ∃ s', cxa_throw call obj tinfo dtor s = Ret s' ∧ unwound claims cleans fs s0 s'
    | None => cxa_throw call obj tinfo dtor s = Panic
    end.
Proof.
  intros Hpers Hc Hr Hobj Ht Hd Hap. destruct (throw_header_spec obj tinfo dtor s Hobj Ht Hd) as (s0 & E0 & Hth).
  pose proof (thrown_keeps fs _ _ _ _ _ Hth Hap) as K. exists s0. split; [done|]. split; [done|].
  destruct (raise_spec call claims cleans (obj - 20) fs Hpers ltac:(lia) s0) as (s' & Hs').
  { rewrite (keeps_head _ _ _ K). by eapply keeps_chain. } { by rewrite (kp_regs _ _ _ K). }
  rewrite cxa_throw_header, E0, ret_bind, u32_ok, ret_bind by lia.
  destruct (first (catches claims s0) fs) as [h|]; destruct Hs' as [E Hs']; rewrite E, ret_bind; [by exists s'|done].
Qed.

(** Two frames: at 1000 with a handler, and above it at 2000 with neither; the object is at 5000. *)
Definition demo_personality (f : GuestFunction) (args : list Z) (s : UState) : outcome (Z * UState) :=
  Ret (answer (λ f, f =? 1000) (λ _, false) (default 0 (args !! 5%nat)) (default 0 (args !! 1%nat)), s).
Lemma demo_personality_ok exc fs : personalities_ok demo_personality (λ f, f =? 1000) (λ _, false) exc fs.
Proof. intros s f actions ecl ech _ _. exists s. split; [done|apply keeps_refl]. Qed.
Definition demo_unwind : UState :=
  let r :=
    s ← Unwind_SjLj_Register 1000 (mkU (idle_env empty_mem) ∅);
    s ← set_field 1000 FC_PERSONALITY 77 s;
    s ← set_field 1000 JBUF_PC 4097 s;
    s ← set_field 1000 JBUF_SP 60000 s;
    s ← Unwind_SjLj_Register 2000 s;
    set_field 2000 FC_PERSONALITY 77 s in
  match r with Ret s => s | Panic => mkU (idle_env empty_mem) ∅ end.
Lemma throw_lands_witness :
  ∃ s', cxa_throw demo_personality 5000 300 0 demo_unwind = Ret s' ∧
    chain_head s' = 1000 ∧ regs (cpu (u_env s')) !! SP = Some 60000 ∧ regs (cpu (u_env s')) !! PC = Some 4096.
Proof.
  destruct (throw_lands demo_personality (λ f, f =? 1000) (λ _, false) [2000; 1000] demo_unwind 5000 300 0) as (s0 & Hth & K & Hl).
  - apply demo_personality_ok.
  - vm_compute. done.
  - vm_compute. reflexivity.
  - done.
  - done.
  - done.
  - intros f Hf. rewrite !elem_of_cons, elem_of_nil in Hf. lia.
  - rewrite (first_ext _ (catches (λ f, f =? 1000) demo_unwind)) in Hl by (intros f Hf; by eapply keeps_catches).
    assert (E1 : first (catches (λ f, f =? 1000) demo_unwind) [2000; 1000] = Some 1000) by (vm_compute; reflexivity).
    rewrite E1 in Hl. destruct Hl as (s' & E & h & s1 & t & above & below & Hh & _ & _ & _ & Hw & K' & Hld & _).
    rewrite (first_ext _ (catches (λ f, f =? 1000) demo_unwind)), E1 in Hh by (intros f Hf; by eapply keeps_catches).
    injection Hh as <-. unfold wants in Hw. rewrite orb_false_r in Hw. apply andb_true_iff in Hw as [_ ->%Z.eqb_eq].
    assert (Hword : ∀ o, o ∈ [0; 24; 32; 36; 40] → word_at (u_mem s1) (1000 + o) = word_at (u_mem demo_unwind) (1000 + o)).
    { intros o Ho. assert (Hin : 1000 ∈ [2000; 1000]) by (refine (bool_decide_unpack _ _); exact I).
      exact (eq_trans (kp_words _ _ _ K' 1000 o Hin Ho) (kp_words _ _ _ K 1000 o Hin Ho)). }
    exists s'. split; [exact E|]. split; [apply (ld_head _ _ _ Hld)|]. rewrite (ld_sp _ _ _ Hld), (ld_pc _ _ _ Hld).
    unfold JBUF_SP, JBUF_PC, FC_JBUF. rewrite !Hword by (refine (bool_decide_unpack _ _); exact I).
    split; vm_compute; reflexivity.
Defined.
