(* ===== verification/Ima4.v ===== *)
(** * Apple IMA4 sound packets ([audio/ima4.rs])

    The decoder, and that it stays inside of its tables and of 16 bits. *)

From S2P Require Import Prelude.

Definition INDEX_TABLE : list Z := [-1; -1; -1; -1; 2; 4; 6; 8; -1; -1; -1; -1; 2; 4; 6; 8].
Definition STEP_SIZE_TABLE : list Z :=
  [7; 8; 9; 10; 11; 12; 13; 14; 16; 17; 19; 21; 23; 25; 28; 31; 34; 37; 41; 45; 50; 55; 60; 66;
   73; 80; 88; 97; 107; 118; 130; 143; 157; 173; 190; 209; 230; 253; 279; 307; 337; 371; 408; 449;
   494; 544; 598; 658; 724; 796; 876; 963; 1060; 1166; 1282; 1411; 1552; 1707; 1878; 2066; 2272;
   2499; 2749; 3024; 3327; 3660; 4026; 4428; 4871; 5358; 5894; 6484; 7132; 7845; 8630; 9493;
   10442; 11487; 12635; 13899; 15289; 16818; 18500; 20350; 22385; 24623; 27086; 29794; 32767].

Definition u16_add (a b : Z) : outcome Z := if a + b <? 65536 then Ret (a + b) else Panic.
Definition to_i16 (z : Z) : Z := let w := z mod 65536 in if w <? 32768 then w else w - 65536.
(** [i16::saturating_add_unsigned], [saturating_sub_unsigned]. *)
Definition clamp_i16 (z : Z) : Z := Z.max (-32768) (Z.min 32767 z).
Definition bit_set (nibble mask : Z) : bool := negb (Z.land nibble mask =? 0).

(** What a nibble adds to the sample, without its sign. *)
Definition ima4_difference (nibble step_size : Z) : outcome Z :=
  d ← (if bit_set nibble 4 then u16_add 0 step_size else Ret 0);
  d ← (if bit_set nibble 2 then u16_add d (Z.shiftr step_size 1) else Ret d);
  d ← (if bit_set nibble 1 then u16_add d (Z.shiftr step_size 2) else Ret d);
  u16_add d (Z.shiftr step_size 3).
(** A nibble: the state is the index, the sample and the step size. *)
Definition ima4_nibble (nibble : Z) (s : Z * Z * Z) : outcome (Z * Z * Z) :=
  let '(index, predicted_sample, step_size) := s in
  difference ← ima4_difference nibble step_size;
  let predicted_sample :=
    clamp_i16 (if bit_set nibble 8 then predicted_sample - difference else predicted_sample + difference) in
  change ← unwrap (INDEX_TABLE !! Z.to_nat nibble);
  let index := Z.min (Z.max 0 (index + change)) (Z.of_nat (length STEP_SIZE_TABLE) - 1) in
  step_size ← unwrap (STEP_SIZE_TABLE !! Z.to_nat index);
  Ret (index, predicted_sample, step_size).

Fixpoint ima4_bytes (bytes : list Z) (s : Z * Z * Z) : outcome (list Z) :=
  match bytes with
  | [] => Ret []
  | byte :: bytes =>
      s ← ima4_nibble (Z.land byte 15) s;
      let a := s.1.2 in
      s ← ima4_nibble (Z.land (Z.shiftr byte 4) 15) s;
      let b := s.1.2 in
      out ← ima4_bytes bytes s;
      Ret (a :: b :: out)
  end.
(** The samples of a packet of 34 bytes. *)
Definition decode_ima4 (in_packet : list Z) : outcome (list Z) :=
  match in_packet with
  | b0 :: b1 :: bytes =>
      let header := b0 * 256 + b1 in
      let index := Z.min (Z.land header 127) (Z.of_nat (length STEP_SIZE_TABLE) - 1) in
      let predicted_sample := to_i16 (Z.shiftl (Z.shiftr header 7) 7) in
      step_size ← unwrap (STEP_SIZE_TABLE !! Z.to_nat index);
      ima4_bytes bytes (index, predicted_sample, step_size)
  | _ => Panic
  end.

(** ** The decoder is total *)

Definition ima4_ok (s : Z * Z * Z) : Prop :=
  let '(index, sample, step) := s in
  0 ≤ index ≤ 88 ∧ -32768 ≤ sample < 32768 ∧ STEP_SIZE_TABLE !! Z.to_nat index = Some step.

Lemma step_bounds i x : STEP_SIZE_TABLE !! i = Some x → 7 ≤ x ≤ 32767.
Proof.
  intros Hx. assert (H : Forall (λ x, 7 ≤ x ≤ 32767) STEP_SIZE_TABLE) by (unfold STEP_SIZE_TABLE; repeat (apply List.Forall_cons; [lia|]); constructor).
  rewrite Forall_lookup in H. by eapply H.
Qed.
Lemma step_there i : 0 ≤ i ≤ 88 → ∃ x, STEP_SIZE_TABLE !! Z.to_nat i = Some x.
Proof. intros Hi. apply lookup_lt_is_Some. change (length STEP_SIZE_TABLE) with 89%nat. lia. Qed.

(** The sum of step, step/2, step/4 and step/8 selected by a nibble fits in 16 bits. *)
Definition ima4_value (nibble step : Z) : Z :=
  (if bit_set nibble 4 then step else 0) + (if bit_set nibble 2 then step / 2 else 0) +
  (if bit_set nibble 1 then step / 4 else 0) + step / 8.
Lemma ima4_difference_eq nibble step : 7 ≤ step ≤ 32767 → ima4_difference nibble step = Ret (ima4_value nibble step).
Proof.
  intros Hs. unfold ima4_difference, ima4_value, u16_add. rewrite !Z.shiftr_div_pow2 by lia.
  change (2 ^ 1) with 2. change (2 ^ 2) with 4. change (2 ^ 3) with 8.
  pose proof (Z.div_mod step 2). pose proof (Z.div_mod step 4). pose proof (Z.div_mod step 8).
  pose proof (Z.mod_pos_bound step 2). pose proof (Z.mod_pos_bound step 4). pose proof (Z.mod_pos_bound step 8).
  destruct (bit_set nibble 4), (bit_set nibble 2), (bit_set nibble 1); cbn [mbind outcome_bind];
    repeat (rewrite (proj2 (Z.ltb_lt _ _)) by lia; cbn [mbind outcome_bind]); f_equal; lia.
Qed.

Lemma ima4_nibble_ok nibble s : 0 ≤ nibble < 16 → ima4_ok s → ∃ s', ima4_nibble nibble s = Ret s' ∧ ima4_ok s'.
Proof.
  destruct s as [[index sample] step]. intros Hn (Hi & Hs & Hst). unfold ima4_nibble.
  rewrite ima4_difference_eq by (by eapply step_bounds). cbn [mbind outcome_bind].
  destruct (lookup_lt_is_Some_2 INDEX_TABLE (Z.to_nat nibble)) as [c Hc]; [change (length INDEX_TABLE) with 16%nat; lia|].
  rewrite Hc. cbn [unwrap mbind outcome_bind]. change (Z.of_nat (length STEP_SIZE_TABLE) - 1) with 88.
  destruct (step_there (Z.min (Z.max 0 (index + c)) 88)) as [x Hx]; [lia|]. rewrite Hx. cbn [unwrap mbind outcome_bind].
  eexists. split; [done|]. split; [lia|]. split; [unfold clamp_i16; lia|done].
Qed.
Lemma land_nibble z : 0 ≤ Z.land z 15 < 16.
Proof. change 15 with (Z.ones 4). rewrite Z.land_ones by lia. apply Z.mod_pos_bound. lia. Qed.
Lemma ima4_bytes_ok bytes s : ima4_ok s →
  ∃ out, ima4_bytes bytes s = Ret out ∧ length out = (2 * length bytes)%nat ∧ Forall (λ x, -32768 ≤ x < 32768) out.
Proof.
  revert s. induction bytes as [|b bytes IH]; intros s Hs; cbn [ima4_bytes]; [by exists []|].
  destruct (ima4_nibble_ok (Z.land b 15) s (land_nibble _) Hs) as (s1 & E1 & H1). rewrite E1. cbn [mbind outcome_bind].
  destruct (ima4_nibble_ok (Z.land (Z.shiftr b 4) 15) s1 (land_nibble _) H1) as (s2 & E2 & H2). rewrite E2. cbn [mbind outcome_bind].
  destruct (IH s2 H2) as (out & E & Hl & Ho). rewrite E. cbn [mbind outcome_bind]. eexists. split; [done|].
  destruct s1 as [[? ?] ?], s2 as [[? ?] ?]. destruct H1 as (_ & ? & _), H2 as (_ & ? & _). simpl. split; [lia|].
  by repeat (apply List.Forall_cons; [done|]).
Qed.

Lemma decode_ima4_ok packet : length packet = 34%nat →
  ∃ out, decode_ima4 packet = Ret out ∧ length out = 64%nat ∧ Forall (λ x, -32768 ≤ x < 32768) out.
Proof.
  intros Hl. destruct packet as [|b0 [|b1 bytes]]; [done|done|]. unfold decode_ima4. change (Z.of_nat (length STEP_SIZE_TABLE) - 1) with 88.
  assert (Hi : 0 ≤ Z.min (Z.land (b0 * 256 + b1) 127) 88 ≤ 88).
  { assert (0 ≤ Z.land (b0 * 256 + b1) 127) by (apply Z.land_nonneg; lia). lia. }
  destruct (step_there _ Hi) as [x Hx]. rewrite Hx. cbn [unwrap mbind outcome_bind].
  destruct (ima4_bytes_ok bytes (Z.min (Z.land (b0 * 256 + b1) 127) 88, to_i16 (Z.shiftl (Z.shiftr (b0 * 256 + b1) 7) 7), x)) as (out & E & Ho & Hr).
  - split; [done|]. split; [|done]. unfold to_i16. pose proof (Z.mod_pos_bound (Z.shiftl (Z.shiftr (b0 * 256 + b1) 7) 7) 65536).
    cbv zeta. destruct (Z.ltb_spec (Z.shiftl (Z.shiftr (b0 * 256 + b1) 7) 7 mod 65536) 32768); lia.
  - exists out. split; [done|]. split; [|done]. simpl in Hl. lia.
Qed.
