(* ===== verification/AudioQueue.v ===== *)
(** * Audio queues ([frameworks/audio_toolbox/audio_queue.rs])

    An app enqueues buffers of sound; they are decoded into OpenAL buffers, which a source plays in
    order, and are given back to the app's callback when they were played.  OpenAL is a library: its
    operations are a class ([OpenAL]), with the laws its specification gives in [AudioQueueFacts].
    The app's callbacks are guest functions, and an argument. *)

From S2P Require Import Prelude GuestMem Ima4.

(** ** OpenAL *)

Inductive ALState := AL_INITIAL | AL_PLAYING | AL_PAUSED | AL_STOPPED.
(** A source: its queue of buffers, how many of them it has played, its state. *)
Record ALSource := mkSource { queued : list Z; processed : nat; source_state : ALState }.
(** Format, frequency and bytes of a buffer. *)
Definition ALData : Type := Z * Z * list Z.

(** The calls; [None] is an error of [GetError], which the code asserts not to happen. [GetSource]
    stands for [GetSourcei] of [AL_BUFFERS_QUEUED], [AL_BUFFERS_PROCESSED] and [AL_SOURCE_STATE]. *)
Class OpenAL (A : Type) := {
  GetSource : Z → A → option ALSource;
  GetBuffer : Z → A → option ALData;
  GenSources : A → option (Z * A);
  GenBuffers : A → option (Z * A);
  Sourcef : Z → Z → A → option A;
  BufferData : Z → ALData → A → option A;
  SourceQueueBuffers : Z → Z → A → option A;
  SourceUnqueueBuffers : Z → A → option (Z * A);
  SourcePlay : Z → A → option A;
  SourcePause : Z → A → option A;
  SourceStop : Z → A → option A;
  DeleteBuffers : list Z → A → option A }.

(** ** Formats *)

Record AudioStreamBasicDescription := mkFormat {
  sample_rate : Z; format_id : Z; format_flags : Z; bytes_per_packet : Z; frames_per_packet : Z;
  bytes_per_frame : Z; channels_per_frame : Z; bits_per_channel : Z }.

Definition kAudioFormatAppleIMA4 : Z := 1768775988.
Definition kAudioFormatLinearPCM : Z := 1819304813.
Definition fourcc_mp3 : Z := 778924083.
Definition kAudioQueueProperty_IsRunning : Z := 1634824814.
Definition kAudioFormatFlagIsFloat : Z := 1.
Definition kAudioFormatFlagIsBigEndian : Z := 2.
Definition kAudioFormatFlagIsSignedInteger : Z := 4.
Definition kAudioFormatFlagIsPacked : Z := 8.
Definition AL_FORMAT_MONO8 : Z := 4352.
Definition AL_FORMAT_MONO16 : Z := 4353.
Definition AL_FORMAT_STEREO8 : Z := 4354.
Definition AL_FORMAT_STEREO16 : Z := 4355.
Definition paramErr : Z := -50.
Definition kAudioQueueErr_InvalidBuffer : Z := -66687.
Definition kAudioQueueErr_InvalidPropertySize : Z := -66683.
Definition kAudioQueueErr_BufferInQueue : Z := -66679.
Definition kAudioQueueErr_CannotStart : Z := -66681.
Definition kAudioQueueParam_Volume : Z := 1.
(** The bits of the [f32] 1.0. *)
Definition VOLUME_ONE : Z := 1065353216.

Definition flag_set (flags mask : Z) : bool := negb (Z.land flags mask =? 0).
Definition is_supported_audio_format (f : AudioStreamBasicDescription) : bool :=
  let channels := channels_per_frame f in
  let bits := bits_per_channel f in
  if format_id f =? kAudioFormatAppleIMA4 then (channels =? 1) || (channels =? 2)
  else if format_id f =? kAudioFormatLinearPCM then
    ((channels =? 1) || (channels =? 2)) && ((bits =? 8) || (bits =? 16) || (bits =? 32)) &&
    (flag_set (format_flags f) kAudioFormatFlagIsPacked || (bits / 8 * channels =? bytes_per_frame f)) &&
    negb (flag_set (format_flags f) kAudioFormatFlagIsBigEndian) && negb (flag_set (format_flags f) kAudioFormatFlagIsFloat)
  else false.

(** [slice.chunks(n)]. *)
Fixpoint slice_chunks_rec (fuel n : nat) (l : list Z) : list (list Z) :=
  match fuel, l with
  | S fuel, _ :: _ => take n l :: slice_chunks_rec fuel n (drop n l)
  | _, _ => []
  end.
Definition slice_chunks (n : nat) (l : list Z) : list (list Z) := slice_chunks_rec (length l) n l.

(** [try]s for every element. *)
Fixpoint concat_map {B} (f : B → outcome (list Z)) (l : list B) : outcome (list Z) :=
  match l with
  | [] => Ret []
  | x :: l => y ← f x; ys ← concat_map f l; Ret (y ++ ys)
  end.

Section decode.
(** [sample_rate as ALsizei]: the float is kept as its bits. *)
Context (as_ALsizei : Z → Z).

Definition interleave (l r : list Z) : list Z := mjoin (zip_with (λ a b, le_bytes 2 a ++ le_bytes 2 b) l r).
Fixpoint decode_stereo (packets : list (list Z)) : outcome (list Z) :=
  match packets with
  | [] => Ret []
  | packet :: packets =>
      l ← decode_ima4 packet;
      match packets with
      | [] => Panic
      | packet :: packets => r ← decode_ima4 packet; out ← decode_stereo packets; Ret (interleave l r ++ out)
      end
  end.
Definition decode_mono (packet : list Z) : outcome (list Z) := pcm ← decode_ima4 packet; Ret (mjoin (le_bytes 2 <$> pcm)).

(** A frame of an inconsistent format: its last bytes, in the other order. *)
Definition process_frame (bpf : Z) (frame : list Z) : outcome (list Z) :=
  rassert (bpf <=? Z.of_nat (length frame));;
  let frame_bytes := drop (length frame - Z.to_nat bpf) frame in
  rassert ((bpf =? 1) || (bpf =? 2) || (bpf =? 4) || (bpf =? 8) || (bpf =? 16));;
  Ret (rev frame_bytes).
(** 32-bit samples become 16-bit ones. *)
Definition narrow_sample (chunk : list Z) : list Z := le_bytes 2 (Z.shiftr (from_le_bytes chunk) 16).

Definition decode_pcm (f : AudioStreamBasicDescription) (data_slice : list Z) : outcome ALData :=
  rassert (negb (bytes_per_frame f =? 0));;
  let misaligned_by := Z.of_nat (length data_slice) mod bytes_per_frame f in
  let data_slice := take (length data_slice - Z.to_nat misaligned_by) data_slice in
  let bytes_per_channel := bits_per_channel f / 8 in
  actual_bytes_per_frame ← u32 (channels_per_frame f * bytes_per_channel);
  let actual_channels_per_frame := bytes_per_frame f / bytes_per_channel in
  processed_data ←
    (if actual_bytes_per_frame =? bytes_per_frame f then Ret data_slice
     else concat_map (process_frame (bytes_per_frame f)) (slice_chunks (Z.to_nat actual_bytes_per_frame) data_slice));
  let c := actual_channels_per_frame in
  let b := bits_per_channel f in
  if (c =? 1) && (b =? 8) then Ret (AL_FORMAT_MONO8, as_ALsizei (sample_rate f), processed_data)
  else if (c =? 1) && (b =? 16) then Ret (AL_FORMAT_MONO16, as_ALsizei (sample_rate f), processed_data)
  else if (c =? 2) && (b =? 8) then Ret (AL_FORMAT_STEREO8, as_ALsizei (sample_rate f), processed_data)
  else if (c =? 2) && (b =? 16) then Ret (AL_FORMAT_STEREO16, as_ALsizei (sample_rate f), processed_data)
  else if (c =? 2) && (b =? 32) then
    rassert (flag_set (format_flags f) kAudioFormatFlagIsSignedInteger);;
    rassert (Z.of_nat (length processed_data) mod 4 =? 0);;
    Ret (AL_FORMAT_STEREO16, as_ALsizei (sample_rate f), mjoin (narrow_sample <$> slice_chunks 4 processed_data))
  else Panic.

Definition decode_buffer (f : AudioStreamBasicDescription) (audio_data audio_data_byte_size : Z) (m : Mem) : outcome ALData :=
  data_slice ← bytes_at audio_data audio_data_byte_size m;
  rassert (is_supported_audio_format f);;
  if format_id f =? kAudioFormatAppleIMA4 then
    rassert (Z.of_nat (length data_slice) mod 34 =? 0);;
    let packets := slice_chunks 34 data_slice in
    if channels_per_frame f =? 1 then
      out_pcm ← concat_map decode_mono packets; Ret (AL_FORMAT_MONO16, as_ALsizei (sample_rate f), out_pcm)
    else out_pcm ← decode_stereo packets; Ret (AL_FORMAT_STEREO16, as_ALsizei (sample_rate f), out_pcm)
  else decode_pcm f data_slice.

(** What the bytes of an [AudioQueueBuffer] decode to. *)
Definition decode_guest (f : AudioStreamBasicDescription) (buffer : Z) (m : Mem) : outcome ALData :=
  b ← mem_read 28 buffer m;
  decode_buffer f (from_le_bytes (take 4 (drop 4 b))) (from_le_bytes (take 4 (drop 8 b))) m.
End decode.

(** ** Queues *)

Inductive AudioQueueIsRunning := Running | Stopping | Stopped.
#[global] Instance AudioQueueIsRunning_eq_dec : EqDecision AudioQueueIsRunning.
Proof. solve_decision. Defined.
#[global] Instance ALState_eq_dec : EqDecision ALState.
Proof. solve_decision. Defined.

Record AudioQueueHostObject := mkAQ {
  aq_format : AudioStreamBasicDescription; callback_proc : Z; callback_user_data : Z; aq_run_loop : Z; volume : Z;
  aq_buffers : list Z; buffer_queue : list Z; is_running : AudioQueueIsRunning; al_source : option Z;
  al_unused_buffers : list Z; aq_is_running_proc : option Z; aq_is_running_user_data : option Z; is_running_handler : bool }.
Definition set_volume (v : Z) (h : AudioQueueHostObject) : AudioQueueHostObject :=
  mkAQ (aq_format h) (callback_proc h) (callback_user_data h) (aq_run_loop h) v (aq_buffers h) (buffer_queue h) (is_running h)
    (al_source h) (al_unused_buffers h) (aq_is_running_proc h) (aq_is_running_user_data h) (is_running_handler h).
Definition set_aq_buffers (l : list Z) (h : AudioQueueHostObject) : AudioQueueHostObject :=
  mkAQ (aq_format h) (callback_proc h) (callback_user_data h) (aq_run_loop h) (volume h) l (buffer_queue h) (is_running h)
    (al_source h) (al_unused_buffers h) (aq_is_running_proc h) (aq_is_running_user_data h) (is_running_handler h).
Definition set_buffer_queue (l : list Z) (h : AudioQueueHostObject) : AudioQueueHostObject :=
  mkAQ (aq_format h) (callback_proc h) (callback_user_data h) (aq_run_loop h) (volume h) (aq_buffers h) l (is_running h)
    (al_source h) (al_unused_buffers h) (aq_is_running_proc h) (aq_is_running_user_data h) (is_running_handler h).
Definition set_is_running (r : AudioQueueIsRunning) (h : AudioQueueHostObject) : AudioQueueHostObject :=
  mkAQ (aq_format h) (callback_proc h) (callback_user_data h) (aq_run_loop h) (volume h) (aq_buffers h) (buffer_queue h) r
    (al_source h) (al_unused_buffers h) (aq_is_running_proc h) (aq_is_running_user_data h) (is_running_handler h).
Definition set_al (src : option Z) (unused : list Z) (h : AudioQueueHostObject) : AudioQueueHostObject :=
  mkAQ (aq_format h) (callback_proc h) (callback_user_data h) (aq_run_loop h) (volume h) (aq_buffers h) (buffer_queue h) (is_running h)
    src unused (aq_is_running_proc h) (aq_is_running_user_data h) (is_running_handler h).
Definition set_listener (p d : option Z) (h : AudioQueueHostObject) : AudioQueueHostObject :=
  mkAQ (aq_format h) (callback_proc h) (callback_user_data h) (aq_run_loop h) (volume h) (aq_buffers h) (buffer_queue h) (is_running h)
    (al_source h) (al_unused_buffers h) p d (is_running_handler h).
Definition set_running_handler (b : bool) (h : AudioQueueHostObject) : AudioQueueHostObject :=
  mkAQ (aq_format h) (callback_proc h) (callback_user_data h) (aq_run_loop h) (volume h) (aq_buffers h) (buffer_queue h) (is_running h)
    (al_source h) (al_unused_buffers h) (aq_is_running_proc h) (aq_is_running_user_data h) b.

(** Guest memory, OpenAL, the queues, and the audio queues of the run loops ([NSRunLoopHostObject]). *)
Record World (A : Type) := mkWorld { w_mem : Mem; w_al : A; audio_queues : gmap Z AudioQueueHostObject; loop_queues : gmap Z (list Z) }.
Arguments mkWorld {A}.
Arguments w_mem {A}.
Arguments w_al {A}.
Arguments audio_queues {A}.
Arguments loop_queues {A}.

Section queues.
Context {A : Type} `{OpenAL A} (as_ALsizei clamp_volume : Z → Z).
(** A guest function called by the host. *)
Context (call_guest : Z → list Z → World A → outcome (World A)).
Notation W := (World A).

Definition set_w_mem (m : Mem) (w : W) : W := mkWorld m (w_al w) (audio_queues w) (loop_queues w).
Definition set_w_al (a : A) (w : W) : W := mkWorld (w_mem w) a (audio_queues w) (loop_queues w).
Definition put_aq (q : Z) (h : AudioQueueHostObject) (w : W) : W := mkWorld (w_mem w) (w_al w) (<[q := h]> (audio_queues w)) (loop_queues w).
Definition set_loop (l : Z) (qs : list Z) (w : W) : W := mkWorld (w_mem w) (w_al w) (audio_queues w) (<[l := qs]> (loop_queues w)).
Definition get_aq (q : Z) (w : W) : outcome AudioQueueHostObject := unwrap (audio_queues w !! q).

(** [ns_run_loop::add_audio_queue] and [remove_audio_queue]. *)
Definition add_audio_queue (l q : Z) (w : W) : outcome W := qs ← unwrap (loop_queues w !! l); Ret (set_loop l (qs ++ [q]) w).
Definition remove_audio_queue (l q : Z) (w : W) : outcome W :=
  qs ← unwrap (loop_queues w !! l);
  i ← unwrap (fst <$> list_find (q =.) qs);
  Ret (set_loop l (delete i qs) w).

Definition read_description (p : Z) (m : Mem) : outcome AudioStreamBasicDescription :=
  b ← mem_read 40 p m;
  let word n := from_le_bytes (take 4 (drop n b)) in
  Ret (mkFormat (from_le_bytes (take 8 b)) (word 8%nat) (word 12%nat) (word 16%nat) (word 20%nat) (word 24%nat) (word 28%nat) (word 32%nat)).

(** [mode_ok]: whether the mode is null or the common modes; [is_candcra]: the app that a format is replaced for;
    [rate_44100] are the bits of its sample rate. *)
Definition AudioQueueNewOutput (in_format proc user_data run_loop main_run_loop : Z) (mode_ok is_candcra : bool) (rate_44100 in_flags out_aq : Z)
    (w : W) : outcome (Z * W) :=
  rassert (in_flags =? 0);;
  rassert mode_ok;;
  let run_loop := if run_loop =? 0 then main_run_loop else run_loop in
  format ← read_description in_format (w_mem w);
  let format := if is_candcra && (format_id format =? fourcc_mp3)
                then mkFormat rate_44100 kAudioFormatLinearPCM 12 4 1 4 2 16 else format in
  '(aq_ref, m) ← alloc_and_write [0] (w_mem w);
  let w := put_aq aq_ref (mkAQ format proc user_data run_loop VOLUME_ONE [] [] Stopped None [] None None false) (set_w_mem m w) in
  m ← write_u32 out_aq aq_ref (w_mem w);
  w ← add_audio_queue run_loop aq_ref (set_w_mem m w);
  Ret (0, w).

Definition AudioQueueSetParameter (in_aq param value : Z) (w : W) : outcome (Z * W) :=
  if in_aq =? 0 then Ret (paramErr, w)
  else
    rassert (param =? kAudioQueueParam_Volume);;
    h ← get_aq in_aq w;
    let w := put_aq in_aq (set_volume value h) w in
    match al_source h with
    | Some x => a ← unwrap (Sourcef x (clamp_volume value) (w_al w)); Ret (0, set_w_al a w)
    | None => Ret (0, w)
    end.
Definition AudioQueueGetParameter (in_aq param out_value : Z) (w : W) : outcome (Z * W) :=
  if in_aq =? 0 then Ret (paramErr, w)
  else
    rassert (param =? kAudioQueueParam_Volume);;
    h ← get_aq in_aq w;
    m ← write_u32 out_value (volume h) (w_mem w);
    Ret (0, set_w_mem m w).

Definition AudioQueueAllocateBuffer (is_candcra : bool) (in_aq in_buffer_byte_size out_buffer : Z) (w : W) : outcome (Z * W) :=
  if in_aq =? 0 then Ret (paramErr, w)
  else
    h ← get_aq in_aq w;
    let packet_description_capacity := if is_candcra then 1024 else 0 in
    '(audio_data, m) ← mem_alloc in_buffer_byte_size (w_mem w);
    '(buffer_ptr, m) ← alloc_and_write (mjoin (le_bytes 4 <$> [in_buffer_byte_size; audio_data; 0; 0; packet_description_capacity; 0; 0])) m;
    let w := put_aq in_aq (set_aq_buffers (aq_buffers h ++ [buffer_ptr]) h) (set_w_mem m w) in
    m ← write_u32 out_buffer buffer_ptr (w_mem w);
    Ret (0, set_w_mem m w).
Definition AudioQueueAllocateBufferWithPacketDescriptions (is_candcra : bool) (in_aq in_buffer_byte_size in_number_packet_desc out_buffer : Z) (w : W) : outcome (Z * W) :=
  AudioQueueAllocateBuffer is_candcra in_aq in_buffer_byte_size out_buffer w.

Definition AudioQueueEnqueueBuffer (in_aq in_buffer : Z) (w : W) : outcome (Z * W) :=
  if in_aq =? 0 then Ret (paramErr, w)
  else
    h ← get_aq in_aq w;
    if negb (bool_decide (in_buffer ∈ aq_buffers h)) then Ret (kAudioQueueErr_InvalidBuffer, w)
    else Ret (0, put_aq in_aq (set_buffer_queue (buffer_queue h ++ [in_buffer]) h) w).
Definition AudioQueueEnqueueBufferWithParameters (in_aq in_buffer in_trim_frames_at_start in_trim_frames_at_end in_num_param_values in_param_values
    in_start_time out_actual_start_time : Z) (w : W) : outcome (Z * W) :=
  rassert (in_trim_frames_at_start =? 0);;
  rassert (in_trim_frames_at_end =? 0);;
  rassert (in_num_param_values =? 0);;
  rassert (in_param_values =? 0);;
  rassert (in_start_time =? 0);;
  rassert (out_actual_start_time =? 0);;
  AudioQueueEnqueueBuffer in_aq in_buffer w.

Definition AudioQueueAddPropertyListener (in_aq in_id proc user_data : Z) (w : W) : outcome (Z * W) :=
  if in_aq =? 0 then Ret (paramErr, w)
  else if in_id =? kAudioQueueProperty_IsRunning then
    h ← get_aq in_aq w; Ret (0, put_aq in_aq (set_listener (Some proc) (Some user_data) h) w)
  else Ret (0, w).
Definition AudioQueueRemovePropertyListener (in_aq in_id : Z) (w : W) : outcome (Z * W) :=
  if in_aq =? 0 then Ret (paramErr, w)
  else if in_id =? kAudioQueueProperty_IsRunning then
    h ← get_aq in_aq w; Ret (0, put_aq in_aq (set_listener None None h) w)
  else Ret (0, w).
Definition property_size (id : Z) : outcome Z := if id =? kAudioQueueProperty_IsRunning then Ret 4 else Panic.
Definition AudioQueueGetPropertySize (in_aq id out_data_size : Z) (w : W) : outcome (Z * W) :=
  if in_aq =? 0 then Ret (paramErr, w)
  else n ← property_size id; m ← write_u32 out_data_size n (w_mem w); Ret (0, set_w_mem m w).
Definition AudioQueueGetProperty (in_aq id out_property_data io_data_size : Z) (w : W) : outcome (Z * W) :=
  if in_aq =? 0 then Ret (paramErr, w)
  else
    required_size ← property_size id;
    n ← read_u32 io_data_size (w_mem w);
    if negb (n =? required_size) then Ret (kAudioQueueErr_InvalidPropertySize, w)
    else
      h ← get_aq in_aq w;
      let running := match is_running h with Running => 1 | Stopping => 1 | Stopped => 0 end in
      m ← write_u32 out_property_data running (w_mem w);
      Ret (0, set_w_mem m w).

(** ** Playing *)

(** An iteration of the loop of [prime_audio_queue]: the next buffer is decoded and queued. *)
Definition prime_step (x : Z) (h : AudioQueueHostObject) (m : Mem) (a : A) : outcome (option (AudioQueueHostObject * A)) :=
  s ← unwrap (GetSource x a);
  let al_buffers_queued := length (queued s) in
  rassert (al_buffers_queued <=? length (buffer_queue h))%nat;;
  rassert (processed s <=? al_buffers_queued)%nat;;
  let unprocessed_buffers := (al_buffers_queued - processed s)%nat in
  if (1 <? unprocessed_buffers)%nat || (al_buffers_queued =? length (buffer_queue h))%nat then Ret None
  else
    next_buffer_ref ← unwrap (buffer_queue h !! al_buffers_queued);
    '(next_al_buffer, unused, a) ←
      (match last (al_unused_buffers h) with
       | Some b => Ret (b, removelast (al_unused_buffers h), a)
       | None => '(b, a) ← unwrap (GenBuffers a); Ret (b, [], a)
       end);
    data ← decode_guest as_ALsizei (aq_format h) next_buffer_ref m;
    a ← unwrap (BufferData next_al_buffer data a);
    a ← unwrap (SourceQueueBuffers x next_al_buffer a);
    Ret (Some (set_al (al_source h) unused h, a)).
Fixpoint prime_loop (fuel : nat) (x : Z) (h : AudioQueueHostObject) (m : Mem) (a : A) : outcome (AudioQueueHostObject * A) :=
  match fuel with
  | O => Panic
  | S fuel =>
      r ← prime_step x h m a;
      match r with
      | None => Ret (h, a)
      | Some (h, a) => prime_loop fuel x h m a
      end
  end.
Definition prime_audio_queue (in_aq : Z) (w : W) : outcome (bool * W) :=
  h ← get_aq in_aq w;
  if negb (is_supported_audio_format (aq_format h)) then Ret (false, w)
  else
    '(x, h, a) ←
      (match al_source h with
       | Some x => Ret (x, h, w_al w)
       | None =>
           '(x, a) ← unwrap (GenSources (w_al w));
           a ← unwrap (Sourcef x (clamp_volume (volume h)) a);
           Ret (x, set_al (Some x) (al_unused_buffers h) h, a)
       end);
    '(h, a) ← prime_loop (S (length (buffer_queue h))) x h (w_mem w) a;
    Ret (true, put_aq in_aq h (set_w_al a w)).

(** [unqueue_buffers]: the played buffers are taken off the source. *)
Fixpoint unqueue_loop {B} (fuel : nat) (x : Z) (f : Z → B → outcome B) (a : A) (b : B) : outcome (A * B) :=
  match fuel with
  | O => Panic
  | S fuel =>
      s ← unwrap (GetSource x a);
      if (processed s =? 0)%nat then Ret (a, b)
      else
        '(al_buffer, a) ← unwrap (SourceUnqueueBuffers x a);
        b ← f al_buffer b;
        unqueue_loop fuel x f a b
  end.
Definition unqueue_buffers {B} (x : Z) (f : Z → B → outcome B) (a : A) (b : B) : outcome (A * B) :=
  s ← unwrap (GetSource x a);
  unqueue_loop (S (processed s)) x f a b.

Definition notify_aq_is_running (in_aq : Z) (w : W) : outcome W :=
  h ← get_aq in_aq w;
  match aq_is_running_proc h, aq_is_running_user_data h with
  | Some proc, Some user_data => call_guest proc [user_data; in_aq; kAudioQueueProperty_IsRunning] w
  | _, _ => Ret w
  end.

(** A played buffer goes back to the unused ones, and is not in the queue any more. *)
Definition recycle (al_buffer : Z) (x : AudioQueueHostObject * list Z) : outcome (AudioQueueHostObject * list Z) :=
  let '(h, reuse) := x in
  match buffer_queue h with
  | [] => Panic
  | b :: q => Ret (set_buffer_queue q (set_al (al_source h) (al_unused_buffers h ++ [al_buffer]) h), reuse ++ [b])
  end.

Definition AudioQueueReset (in_aq : Z) (w : W) : outcome (Z * W) :=
  if in_aq =? 0 then Ret (paramErr, w)
  else
    h ← get_aq in_aq w;
    '(h, a) ←
      (match al_source h with
       | Some x =>
           s ← unwrap (GetSource x (w_al w));
           a ← (if decide (source_state s = AL_STOPPED) then Ret (w_al w) else unwrap (SourceStop x (w_al w)));
           '(a, (h, _)) ← unqueue_buffers x recycle a (h, []);
           Ret (h, a)
       | None => Ret (h, w_al w)
       end);
    Ret (0, put_aq in_aq (set_buffer_queue [] h) (set_w_al a w)).

Definition finish_stopping_audio_queue (in_aq : Z) (w : W) : outcome W :=
  '(_, w) ← AudioQueueReset in_aq w;
  h ← get_aq in_aq w;
  notify_aq_is_running in_aq (put_aq in_aq (set_is_running Stopped h) w).

Definition handle_audio_queue (in_aq : Z) (w : W) : outcome W :=
  h ← get_aq in_aq w;
  match al_source h with
  | None => Ret w
  | Some x =>
      if negb (is_supported_audio_format (aq_format h)) then Ret w
      else if is_running_handler h then Ret w
      else
        '(a, (h, buffers_to_reuse)) ← unqueue_buffers x recycle (w_al w) (set_running_handler true h, []);
        let w := put_aq in_aq h (set_w_al a w) in
        w ← for_each (λ buffer_ref w, call_guest (callback_proc h) [callback_user_data h; in_aq; buffer_ref] w) buffers_to_reuse w;
        '(_, w) ← prime_audio_queue in_aq w;
        w ← (if decide (is_running h = Stopped) then Ret w
             else
               s ← unwrap (GetSource x (w_al w));
               if decide (source_state s = AL_STOPPED) then a ← unwrap (SourcePlay x (w_al w)); Ret (set_w_al a w) else Ret w);
        w ← (if decide (is_running h = Stopping) then
               s ← unwrap (GetSource x (w_al w));
               if decide (source_state s = AL_STOPPED) then finish_stopping_audio_queue in_aq w else Ret w
             else Ret w);
        match audio_queues w !! in_aq with
        | Some h => Ret (put_aq in_aq (set_running_handler false h) w)
        | None => Ret w
        end
  end.

Definition AudioQueuePrime (in_aq out_number_of_frames_prepared : Z) (w : W) : outcome (Z * W) :=
  if in_aq =? 0 then Ret (paramErr, w)
  else
    '(ok, w) ← prime_audio_queue in_aq w;
    if (ok : bool) then rassert (out_number_of_frames_prepared =? 0);; Ret (0, w)
    else Ret (kAudioQueueErr_CannotStart, w).

Definition AudioQueueStart (in_aq in_device_start_time : Z) (w : W) : outcome (Z * W) :=
  if in_aq =? 0 then Ret (paramErr, w)
  else
    rassert (in_device_start_time =? 0);;
    '(_, w) ← prime_audio_queue in_aq w;
    h ← get_aq in_aq w;
    let w := put_aq in_aq (set_is_running Running h) w in
    w ← (if is_supported_audio_format (aq_format h) then
           x ← unwrap (al_source h);
           a ← unwrap (SourcePlay x (w_al w));
           Ret (set_w_al a w)
         else Ret w);
    w ← notify_aq_is_running in_aq w;
    Ret (0, w).

Definition AudioQueuePause (in_aq : Z) (w : W) : outcome (Z * W) :=
  if in_aq =? 0 then Ret (paramErr, w)
  else
    h ← get_aq in_aq w;
    let w := put_aq in_aq (set_is_running Stopped h) w in
    match al_source h with
    | Some x => a ← unwrap (SourcePause x (w_al w)); Ret (0, set_w_al a w)
    | None => Ret (0, w)
    end.

Definition AudioQueueStop (in_aq : Z) (in_immediate : bool) (w : W) : outcome (Z * W) :=
  if in_aq =? 0 then Ret (paramErr, w)
  else if in_immediate then
    h ← get_aq in_aq w;
    w ← (match al_source h with
         | Some x => a ← unwrap (SourceStop x (w_al w)); Ret (set_w_al a w)
         | None => Ret w
         end);
    w ← finish_stopping_audio_queue in_aq w;
    Ret (0, w)
  else
    h ← get_aq in_aq w;
    if decide (is_running h = Stopped) then Ret (0, w)
    else Ret (0, put_aq in_aq (set_is_running Stopping h) w).

Definition AudioQueueFlush (in_aq : Z) (w : W) : outcome (Z * W) := if in_aq =? 0 then Ret (paramErr, w) else Ret (0, w).

(** A buffer's data and the buffer itself are freed. *)
Definition free_buffer (buffer : Z) (m : Mem) : outcome Mem :=
  b ← mem_read 28 buffer m;
  '(_, m) ← mem_free (from_le_bytes (take 4 (drop 4 b))) m;
  '(_, m) ← mem_free buffer m;
  Ret m.
Definition AudioQueueFreeBuffer (in_aq in_buffer : Z) (w : W) : outcome (Z * W) :=
  if in_aq =? 0 then Ret (paramErr, w)
  else
    h ← get_aq in_aq w;
    if bool_decide (in_buffer ∈ buffer_queue h) then Ret (kAudioQueueErr_BufferInQueue, w)
    else
      match fst <$> list_find (in_buffer =.) (aq_buffers h) with
      | Some index =>
          let w := put_aq in_aq (set_aq_buffers (delete index (aq_buffers h)) h) w in
          m ← free_buffer in_buffer (w_mem w);
          Ret (0, set_w_mem m w)
      | None => Ret (kAudioQueueErr_InvalidBuffer, w)
      end.

Definition AudioQueueDispose (in_aq : Z) (in_immediate : bool) (w : W) : outcome (Z * W) :=
  if in_aq =? 0 then Ret (paramErr, w)
  else
    rassert in_immediate;;
    h ← get_aq in_aq w;
    let w := mkWorld (w_mem w) (w_al w) (delete in_aq (audio_queues w)) (loop_queues w) in
    '(_, m) ← mem_free in_aq (w_mem w);
    m ← for_each free_buffer (aq_buffers h) m;
    let w := set_w_mem m w in
    w ← (match al_source h with
         | Some x =>
             a ← unwrap (SourceStop x (w_al w));
             '(a, unused) ← unqueue_buffers x (λ b l, Ret (l ++ [b])) a (al_unused_buffers h);
             a ← unwrap (DeleteBuffers unused a);
             Ret (set_w_al a w)
         | None => Ret w
         end);
    w ← remove_audio_queue (aq_run_loop h) in_aq w;
    Ret (0, w).
End queues.
