(* ===== verification/AudioQueueFacts.v ===== *)
(** * Audio queues and OpenAL stay in step

    [OpenALLaws] is what the OpenAL specification promises.  On top of it, in every world that can be
    reached the buffers queued on an OpenAL source are decodings of the first buffers of the audio
    queue, in order; none of the code's assertions fails; and buffers come back to the app in the order in which it
    enqueued them. *)

From S2P Require Import Prelude GuestMem Ima4 AudioQueue.

(** ** What OpenAL promises *)

(** [SourceQueueBuffers], [SourcePlay], [SourcePause] and [SourceStop] on a source.  All buffers of a stopped
    source count as played. *)
Definition queue_on (b : Z) (s : ALSource) : ALSource :=
  mkSource (queued s ++ [b]) (if decide (source_state s = AL_STOPPED) then S (processed s) else processed s) (source_state s).
Definition play_source (s : ALSource) : ALSource :=
  if decide (queued s = []) then mkSource [] 0 AL_STOPPED
  else mkSource (queued s) (if decide (source_state s = AL_PAUSED) then processed s else 0) AL_PLAYING.
Definition pause_source (s : ALSource) : ALSource :=
  mkSource (queued s) (processed s) (if decide (source_state s = AL_PLAYING) then AL_PAUSED else source_state s).
Definition stop_source (s : ALSource) : ALSource :=
  if decide (source_state s = AL_INITIAL) then s else mkSource (queued s) (length (queued s)) AL_STOPPED.

(** At most the buffers of the queue were played, and all of them when the source has stopped. *)
Definition source_wf (s : ALSource) : Prop :=
  (processed s ≤ length (queued s))%nat ∧ (source_state s = AL_STOPPED → processed s = length (queued s)).
Lemma queue_on_wf b s : source_wf s → source_wf (queue_on b s).
Proof. intros [??]. unfold source_wf, queue_on. cbn [processed queued source_state]. rewrite length_app. simpl. case_decide; split; naive_solver lia. Qed.
Lemma play_wf s : source_wf s → source_wf (play_source s) ∧ queued (play_source s) = queued s.
Proof. intros [??]. unfold source_wf, play_source. repeat case_decide; simpl; repeat split; try done; lia. Qed.
Lemma pause_wf s : source_wf s → source_wf (pause_source s) ∧ queued (pause_source s) = queued s.
Proof. intros [??]. unfold source_wf, pause_source. case_decide; simpl; repeat split; try done; naive_solver. Qed.
Lemma stop_wf s : source_wf s → source_wf (stop_source s) ∧ queued (stop_source s) = queued s.
Proof. intros [??]. unfold source_wf, stop_source. case_decide; simpl; repeat split; try done; lia. Qed.

Section laws.
Context {A : Type} `{OpenAL A}.
(** Only the source [x] changes, to [s]; buffers stay as they are. *)
Definition source_now (x : Z) (s : ALSource) (a a' : A) : Prop :=
  GetSource x a' = Some s ∧ (∀ y, y ≠ x → GetSource y a' = GetSource y a) ∧ ∀ b, GetBuffer b a' = GetBuffer b a.
(** Only the buffer [b] changes, to [d]. *)
Definition buffer_now (b : Z) (d : ALData) (a a' : A) : Prop :=
  GetBuffer b a' = Some d ∧ (∀ c, c ≠ b → GetBuffer c a' = GetBuffer c a) ∧ ∀ x, GetSource x a' = GetSource x a.
Definition not_queued (b : Z) (a : A) : Prop := ∀ x s, GetSource x a = Some s → b ∉ queued s.
End laws.

Class OpenALLaws (A : Type) `{OpenAL A} : Prop := {
  gen_sources a : ∃ x a', GenSources a = Some (x, a') ∧ GetSource x a = None ∧ source_now x (mkSource [] 0 AL_INITIAL) a a';
  gen_buffers a : ∃ b a' d, GenBuffers a = Some (b, a') ∧ GetBuffer b a = None ∧ not_queued b a ∧ buffer_now b d a a';
  sourcef x v a s : GetSource x a = Some s → ∃ a', Sourcef x v a = Some a' ∧ source_now x s a a';
  buffer_data b d a : is_Some (GetBuffer b a) → not_queued b a → ∃ a', BufferData b d a = Some a' ∧ buffer_now b d a a';
  (** The buffers of a source have the same format. *)
  source_queue x b a s d : GetSource x a = Some s → GetBuffer b a = Some d →
    (∀ c e, c ∈ queued s → GetBuffer c a = Some e → e.1 = d.1) → ∃ a', SourceQueueBuffers x b a = Some a' ∧ source_now x (queue_on b s) a a';
  source_unqueue x a b q n st : GetSource x a = Some (mkSource (b :: q) (S n) st) →
    ∃ a', SourceUnqueueBuffers x a = Some (b, a') ∧ source_now x (mkSource q n st) a a';
  source_play x a s : GetSource x a = Some s → ∃ a', SourcePlay x a = Some a' ∧ source_now x (play_source s) a a';
  source_pause x a s : GetSource x a = Some s → ∃ a', SourcePause x a = Some a' ∧ source_now x (pause_source s) a a';
  source_stop x a s : GetSource x a = Some s → ∃ a', SourceStop x a = Some a' ∧ source_now x (stop_source s) a a';
  delete_buffers l a : (∀ b, b ∈ l → is_Some (GetBuffer b a) ∧ not_queued b a) →
    ∃ a', DeleteBuffers l a = Some a' ∧ (∀ b, b ∉ l → GetBuffer b a' = GetBuffer b a) ∧ ∀ x, GetSource x a' = GetSource x a }.

(** ** Formats *)

Definition al_format (f : AudioStreamBasicDescription) : Z :=
  if format_id f =? kAudioFormatAppleIMA4 then (if channels_per_frame f =? 1 then AL_FORMAT_MONO16 else AL_FORMAT_STEREO16)
  else
    let c := bytes_per_frame f / (bits_per_channel f / 8) in
    if c =? 1 then (if bits_per_channel f =? 8 then AL_FORMAT_MONO8 else AL_FORMAT_MONO16)
    else if bits_per_channel f =? 8 then AL_FORMAT_STEREO8 else AL_FORMAT_STEREO16.

Ltac step_bind :=
  match goal with
  | |- (mbind _ ?x = Ret _ → _) => destruct x as [?|]; [cbn [mbind outcome_bind]|done]
  end.
Lemma decode_pcm_format conv f l d : decode_pcm conv f l = Ret d → format_id f ≠ kAudioFormatAppleIMA4 → d.1 = (al_format f, conv (sample_rate f)).
Proof.
  unfold decode_pcm, al_format. intros E Hf. rewrite (proj2 (Z.eqb_neq _ _) Hf). revert E. do 3 step_bind.
  generalize (bytes_per_frame f / (bits_per_channel f / 8)). generalize (bits_per_channel f). intros b c.
  destruct (Z.eqb_spec c 1), (Z.eqb_spec c 2), (Z.eqb_spec b 8), (Z.eqb_spec b 16);
    cbn [andb]; try (by intros [= <-]); try lia; destruct (b =? 32); cbn [andb]; try done; do 2 step_bind; by intros [= <-].
Qed.
Lemma decode_guest_format conv f g m d : decode_guest conv f g m = Ret d → d.1 = (al_format f, conv (sample_rate f)).
Proof.
  unfold decode_guest, decode_buffer. do 3 step_bind. destruct (Z.eqb_spec (format_id f) kAudioFormatAppleIMA4) as [E|E].
  - unfold al_format. rewrite E, Z.eqb_refl. step_bind. destruct (channels_per_frame f =? 1); step_bind; by intros [= <-].
  - intros Hd. by eapply decode_pcm_format.
Qed.

(** ** One queue *)

Section sync.
Context {A : Type} `{OpenALLaws A} (conv clamp : Z → Z).
Implicit Types (a : A) (h : AudioQueueHostObject).

Definition source_queue_of (h : AudioQueueHostObject) (a : A) : list Z :=
  match al_source h with Some x => match GetSource x a with Some s => queued s | None => [] end | None => [] end.
(** The OpenAL buffers of a queue. *)
Definition owned (h : AudioQueueHostObject) (a : A) : list Z := al_unused_buffers h ++ source_queue_of h a.
(** The OpenAL buffer [b] has what the guest's buffer [g] decodes to. *)
Definition decoded (f : AudioStreamBasicDescription) (a : A) (b g : Z) : Prop :=
  ∃ m d, GetBuffer b a = Some d ∧ decode_guest conv f g m = Ret d.

Record aq_ok (a : A) (h : AudioQueueHostObject) : Prop := {
  ao_nodup : NoDup (owned h a);
  ao_there b : b ∈ owned h a → is_Some (GetBuffer b a);
  ao_source x : al_source h = Some x → ∃ s, GetSource x a = Some s ∧ source_wf s ∧
    (length (queued s) ≤ length (buffer_queue h))%nat ∧
    Forall2 (decoded (aq_format h) a) (queued s) (take (length (queued s)) (buffer_queue h)) }.

Lemma source_queue_at h a x s : al_source h = Some x → GetSource x a = Some s → source_queue_of h a = queued s.
Proof. intros Hx Hs. unfold source_queue_of. by rewrite Hx, Hs. Qed.

Lemma Forall2_decoded_ext f a a' bs gs :
  (∀ b, b ∈ bs → GetBuffer b a' = GetBuffer b a) → Forall2 (decoded f a) bs gs → Forall2 (decoded f a') bs gs.
Proof.
  intros Hb. induction 1 as [|b g bs gs (m & d & Hd & E) _ IH]; constructor.
  - exists m, d. by rewrite Hb by by left.
  - apply IH. intros c Hc. apply Hb. by right.
Qed.

(** What an operation on a queue leaves alone: other sources, and buffers of others. *)
Record al_frame (h h' : AudioQueueHostObject) (a a' : A) : Prop := {
  fr_source y : al_source h' ≠ Some y → GetSource y a' = GetSource y a;
  fr_buffer b : b ∉ owned h a → is_Some (GetBuffer b a) → GetBuffer b a' = GetBuffer b a;
  fr_owned b : b ∈ owned h' a' → b ∈ owned h a ∨ GetBuffer b a = None;
  fr_same x : al_source h = Some x → al_source h' = Some x;
  fr_fresh x : al_source h' = Some x → al_source h = Some x ∨ GetSource x a = None;
  fr_format : aq_format h' = aq_format h;
  fr_some x : is_Some (GetSource x a) → is_Some (GetSource x a');
  fr_bsome b : is_Some (GetBuffer b a) → is_Some (GetBuffer b a') }.

(** A source whose queue stays the same may change its state. *)
Lemma aq_ok_source h a a' x s s' :
  aq_ok a h → al_source h = Some x → GetSource x a = Some s → source_now x s' a a' → queued s' = queued s →
  source_wf s' → aq_ok a' h ∧ al_frame h h a a'.
Proof.
  intros Hok Hx Hs (Hs' & Ho & Hb) Hq Hp. assert (Eo : owned h a' = owned h a).
  { unfold owned. by rewrite (source_queue_at _ _ _ _ Hx Hs), (source_queue_at _ _ _ _ Hx Hs'), Hq. }
  split.
  - split; [rewrite Eo; apply Hok|intros b; rewrite Eo, Hb; apply Hok|]. intros y Hy. simplify_eq.
    destruct (ao_source _ _ Hok _ Hx) as (s0 & ? & _ & Hl & Hd). simplify_eq. exists s'. rewrite Hq in *. split_and!; try done.
    eapply Forall2_decoded_ext; [|done]. intros b _. apply Hb.
  - split; try done; [|rewrite Eo; by left|by left| |].
    + intros y Hy. apply Ho. congruence.
    + intros y Hy. destruct (decide (y = x)) as [->|]; [by rewrite Hs'|by rewrite Ho].
    + intros b. by rewrite Hb.
Qed.

(** *** Priming *)

(** The unused buffers are on no source. *)
Definition unused_free (h : AudioQueueHostObject) (a : A) : Prop := ∀ b, b ∈ al_unused_buffers h → not_queued b a.
Definition data_ok (h : AudioQueueHostObject) (m : Mem) : Prop := ∀ g, g ∈ buffer_queue h → ∃ d, decode_guest conv (aq_format h) g m = Ret d.

Lemma pick_buffer h a :
  aq_ok a h → unused_free h a →
  ∃ b unused a1,
    (match last (al_unused_buffers h) with
     | Some b => Ret (b, removelast (al_unused_buffers h), a)
     | None => '(b, a) ← unwrap (GenBuffers a); Ret (b, [], a)
     end) = Ret (b, unused, a1) ∧
    NoDup (unused ++ source_queue_of h a ++ [b]) ∧ is_Some (GetBuffer b a1) ∧ not_queued b a1 ∧
    (∀ c, c ≠ b → GetBuffer c a1 = GetBuffer c a) ∧ (∀ x, GetSource x a1 = GetSource x a) ∧
    (∀ c, c ∈ unused → c ∈ al_unused_buffers h) ∧ (b ∈ al_unused_buffers h ∨ GetBuffer b a = None).
Proof.
  intros Hok Hun. pose proof (ao_nodup _ _ Hok) as Hnd. unfold owned in Hnd.
  destruct (last (al_unused_buffers h)) as [b|] eqn:El.
  - apply last_Some in El as (l & El). rewrite El in *. rewrite removelast_last. exists b, l, a. split; [done|].
    assert (Hb : b ∈ l ++ [b]) by (apply elem_of_app; right; by left). split_and!; try done.
    + by rewrite <-app_assoc, (Permutation_app_comm [b]) in Hnd.
    + apply (ao_there _ _ Hok). unfold owned. rewrite El. apply elem_of_app. by left.
    + apply Hun. by rewrite El.
    + intros c Hc. apply elem_of_app. by left.
    + by left.
  - apply last_None in El. destruct (gen_buffers a) as (b & a1 & d & E & Hnone & Hnq & Hb1 & Hb2 & Hs). rewrite E.
    cbn [unwrap mbind outcome_bind]. exists b, [], a1. rewrite El in Hnd. cbn [app] in *. split; [done|]. split_and!; try done.
    + apply NoDup_app. split; [done|]. split; [|apply NoDup_singleton]. intros c Hc ->%list_elem_of_singleton.
      destruct (ao_there _ _ Hok b) as [? Hbb]; [unfold owned; apply elem_of_app; by right|congruence].
    + intros x s' Hs'. rewrite Hs in Hs'. by eapply Hnq.
    + by intros c ?%elem_of_nil.
    + by right.
Qed.

(** One more buffer is on the source. *)
Lemma queued_one h a a' x s b g d m unused :
  aq_ok a h → al_source h = Some x → GetSource x a = Some s → unused_free h a →
  NoDup (unused ++ queued s ++ [b]) → (∀ c, c ∈ unused → c ∈ al_unused_buffers h) → (b ∈ al_unused_buffers h ∨ GetBuffer b a = None) →
  buffer_queue h !! length (queued s) = Some g → decode_guest conv (aq_format h) g m = Ret d → not_queued b a →
  GetBuffer b a' = Some d → (∀ c, c ≠ b → GetBuffer c a' = GetBuffer c a) →
  GetSource x a' = Some (queue_on b s) → (∀ y, y ≠ x → GetSource y a' = GetSource y a) →
  let h' := set_al (al_source h) unused h in aq_ok a' h' ∧ al_frame h h' a a' ∧ unused_free h' a'.
Proof.
  intros Hok Hx Hs Hun Hnd Hu Hbo Hg Hdg Hnq Hb Hb' Hsx Hs' h'. destruct (ao_source _ _ Hok _ Hx) as (s0 & ? & Hp & Hl & Hd). simplify_eq.
  assert (Hx' : al_source h' = Some x) by done. pose proof (source_queue_at _ _ _ _ Hx Hs) as Eq.
  pose proof (source_queue_at h' a' x _ Hx' Hsx) as Eq'. cbn [queue_on queued] in Eq'.
  assert (Eo : owned h' a' = unused ++ queued s ++ [b]) by (unfold owned; by rewrite Eq').
  assert (Hin : ∀ c, c ∈ owned h' a' → c = b ∨ c ∈ owned h a).
  { intros c. rewrite Eo. unfold owned. rewrite Eq, !elem_of_app, list_elem_of_singleton. naive_solver. }
  assert (Hqb : ∀ c, c ∈ queued s → c ≠ b) by (intros c Hc ->; by eapply Hnq).
  assert (Hub : ∀ c, c ∈ unused → c ≠ b).
  { intros c Hc ->. apply NoDup_app in Hnd as (_ & Hnd & _). apply (Hnd b Hc). rewrite elem_of_app, list_elem_of_singleton. by right. }
  split_and!.
  - split; [by rewrite Eo| |].
    + intros c [->|Hc]%Hin; [by rewrite Hb|]. destruct (decide (c = b)) as [->|]; [by rewrite Hb|]. rewrite Hb' by done. by apply Hok.
    + intros y Hy. assert (y = x) as -> by congruence. exists (queue_on b s). split; [done|]. split; [by apply queue_on_wf|].
      cbn [queue_on queued]. rewrite length_app. pose proof (lookup_lt_Some _ _ _ Hg). cbn [buffer_queue h' set_al length]. split; [lia|].
      rewrite Nat.add_1_r, (take_S_r _ _ _ Hg). apply Forall2_app.
      * eapply Forall2_decoded_ext; [|done]. intros c Hc. apply Hb'. by apply Hqb.
      * constructor; [|constructor]. by exists m, d.
  - split; try done.
    + intros y Hy. apply Hs'. congruence.
    + intros c Hc [e He]. apply Hb'. intros ->. destruct Hbo as [Hbo|]; [|congruence]. apply Hc. unfold owned. apply elem_of_app. by left.
    + intros c [->|Hc]%Hin; [|by left]. destruct Hbo as [Hbo|]; [|by right]. left. unfold owned. apply elem_of_app. by left.
    + intros y Hy. left. congruence.
    + intros y Hy. destruct (decide (y = x)) as [->|]; [by rewrite Hsx|by rewrite Hs'].
    + intros c Hc. destruct (decide (c = b)) as [->|]; [by rewrite Hb|by rewrite Hb'].
  - intros c Hc y sy Hy. destruct (decide (y = x)) as [->|].
    + rewrite Hsx in Hy. injection Hy as <-. cbn [queue_on queued]. rewrite elem_of_app, list_elem_of_singleton.
      intros [Hq|Hq]; [by apply (Hun c (Hu c Hc) x s)|by apply (Hub c)].
    + rewrite Hs' in Hy by done. by apply (Hun c (Hu c Hc) y sy).
Qed.

(** The other fields of a queue. *)
Definition same_aq (h h' : AudioQueueHostObject) : Prop := h' = set_al (al_source h') (al_unused_buffers h') h.

Lemma prime_step_spec x h m a :
  aq_ok a h → al_source h = Some x → unused_free h a → data_ok h m →
  prime_step conv x h m a = Ret None ∨
  ∃ h' a', prime_step conv x h m a = Ret (Some (h', a')) ∧ aq_ok a' h' ∧ al_frame h h' a a' ∧ same_aq h h' ∧ unused_free h' a' ∧
    al_source h' = Some x ∧ length (source_queue_of h' a') = S (length (source_queue_of h a)) ∧
    (length (source_queue_of h a) < length (buffer_queue h))%nat.
Proof.
  intros Hok Hx Hun Hdata. destruct (ao_source _ _ Hok _ Hx) as (s & Hs & Hp & Hl & Hd).
  unfold prime_step. rewrite Hs. cbn [unwrap mbind outcome_bind]. rewrite (proj2 (Nat.leb_le _ _) Hl), (proj2 (Nat.leb_le _ _) (proj1 Hp)).
  cbn [rassert mbind outcome_bind]. destruct (_ || _) eqn:Eb; [by left|right]. apply orb_false_iff in Eb as [_ Hlt%Nat.eqb_neq].
  destruct (lookup_lt_is_Some_2 (buffer_queue h) (length (queued s))) as [g Hg]; [lia|]. rewrite Hg. cbn [unwrap mbind outcome_bind].
  pose proof (source_queue_at _ _ _ _ Hx Hs) as Eq.
  destruct (pick_buffer h a Hok Hun) as (b & unused & a1 & E & Hnd & Hb & Hnq & Hb1 & Hs1 & Hu & Hbo). rewrite E. cbn [mbind outcome_bind].
  destruct (Hdata g) as [d Hdg]; [by eapply list_elem_of_lookup_2|]. rewrite Hdg. cbn [mbind outcome_bind].
  destruct (buffer_data b d a1 Hb Hnq) as (a2 & E2 & Hb2 & Hb2' & Hs2). rewrite E2. cbn [unwrap mbind outcome_bind].
  assert (Hq : ∀ c, c ∈ queued s → c ≠ b ∧ GetBuffer c a2 = GetBuffer c a).
  { intros c Hc. assert (c ≠ b) by (intros ->; by apply (Hnq x s); [rewrite Hs1|]). rewrite Hb2', Hb1 by done. done. }
  destruct (source_queue x b a2 s d) as (a3 & E3 & Hs3 & Hs3' & Hb3); [by rewrite Hs2, Hs1|done| |].
  { intros c e Hc He. rewrite (proj2 (Hq c Hc)) in He. apply list_elem_of_lookup_1 in Hc as [i Hi].
    destruct (Forall2_lookup_l _ _ _ _ _ Hd Hi) as (g' & _ & m' & d' & Hd' & Hdec). simplify_eq.
    by rewrite (decode_guest_format _ _ _ _ _ Hdec), (decode_guest_format _ _ _ _ _ Hdg). }
  rewrite E3. cbn [unwrap mbind outcome_bind]. do 2 eexists. split; [done|].
  rewrite Eq in Hnd. destruct (queued_one h a a3 x s b g d m unused) as (Hok' & Hfr & Hun'); try done.
  - intros y sy Hy. apply (Hnq y). by rewrite Hs1.
  - by rewrite Hb3.
  - intros c Hc. by rewrite Hb3, Hb2', Hb1.
  - intros y Hy. by rewrite Hs3', Hs2, Hs1.
  - split_and!; try done; [|rewrite Eq; lia].
    rewrite Eq. erewrite source_queue_at by done. cbn [queue_on queued]. rewrite length_app. simpl. lia.
Qed.

Lemma al_frame_refl h a : al_frame h h a a.
Proof. split; try done; by left. Qed.
Lemma al_frame_trans h1 h2 h3 a1 a2 a3 : al_frame h1 h2 a1 a2 → al_frame h2 h3 a2 a3 → al_frame h1 h3 a1 a3.
Proof.
  intros F G. split.
  - intros y Hy. rewrite (fr_source _ _ _ _ G) by done. apply (fr_source _ _ _ _ F). intros ?. by apply Hy, (fr_same _ _ _ _ G).
  - intros b Hb Hs. rewrite (fr_buffer _ _ _ _ G); [by apply (fr_buffer _ _ _ _ F)| |by apply (fr_bsome _ _ _ _ F)].
    intros [?|E]%(fr_owned _ _ _ _ F); [done|]. rewrite E in Hs. by destruct Hs.
  - intros b [Hb|Hb]%(fr_owned _ _ _ _ G); [by apply (fr_owned _ _ _ _ F)|right]. destruct (GetBuffer b a1) eqn:E; [|done].
    destruct (fr_bsome _ _ _ _ F b) as [? E']; [by eexists|congruence].
  - intros x Hx. by apply (fr_same _ _ _ _ G), (fr_same _ _ _ _ F).
  - intros x [Hx|Hx]%(fr_fresh _ _ _ _ G); [by apply (fr_fresh _ _ _ _ F)|right]. destruct (GetSource x a1) eqn:E; [|done].
    destruct (fr_some _ _ _ _ F x) as [? E']; [by eexists|congruence].
  - by rewrite (fr_format _ _ _ _ G), (fr_format _ _ _ _ F).
  - intros x Hx. by apply (fr_some _ _ _ _ G), (fr_some _ _ _ _ F).
  - intros b Hb. by apply (fr_bsome _ _ _ _ G), (fr_bsome _ _ _ _ F).
Qed.

Lemma same_aq_trans h1 h2 h3 : same_aq h1 h2 → same_aq h2 h3 → same_aq h1 h3.
Proof. unfold same_aq. intros -> ->. done. Qed.

Lemma prime_loop_spec fuel x m : ∀ h a,
  aq_ok a h → al_source h = Some x → unused_free h a → data_ok h m →
  (length (buffer_queue h) < fuel + length (source_queue_of h a))%nat → (length (source_queue_of h a) ≤ length (buffer_queue h))%nat →
  ∃ h' a', prime_loop conv fuel x h m a = Ret (h', a') ∧ aq_ok a' h' ∧ al_frame h h' a a' ∧ same_aq h h' ∧ al_source h' = Some x.
Proof.
  induction fuel as [|fuel IH]; intros h a Hok Hx Hun Hd Hf Hl; [lia|]. cbn [prime_loop].
  destruct (prime_step_spec x h m a Hok Hx Hun Hd) as [E|(h1 & a1 & E & Hok1 & F1 & S1 & Hun1 & Hx1 & Hlen & Hlt)]; rewrite E; cbn [mbind outcome_bind].
  - exists h, a. split_and!; try done; [apply al_frame_refl|by destruct h].
  - assert (Eb : buffer_queue h1 = buffer_queue h ∧ aq_format h1 = aq_format h) by by rewrite S1. destruct Eb as [Eb Ef].
    destruct (IH h1 a1) as (h2 & a2 & E2 & Hok2 & F2 & S2 & Hx2); try done.
    + unfold data_ok. by rewrite Eb, Ef.
    + rewrite Eb, Hlen. lia.
    + rewrite Eb, Hlen. lia.
    + exists h2, a2. split_and!; try done; [by eapply al_frame_trans|by eapply same_aq_trans].
Qed.

(** *** Unqueueing *)

(** The queue after its first [n] buffers were played. *)
Definition recycled (n : nat) (bs : list Z) (h : AudioQueueHostObject) : AudioQueueHostObject :=
  set_buffer_queue (drop n (buffer_queue h)) (set_al (al_source h) (al_unused_buffers h ++ bs) h).

Lemma unqueued_one h a a' x b q n st g gs :
  aq_ok a h → al_source h = Some x → GetSource x a = Some (mkSource (b :: q) (S n) st) → buffer_queue h = g :: gs →
  source_now x (mkSource q n st) a a' → aq_ok a' (recycled 1 [b] h) ∧ al_frame h (recycled 1 [b] h) a a'.
Proof.
  intros Hok Hx Hs Hg (Hs' & Ho & Hb). destruct (ao_source _ _ Hok _ Hx) as (s0 & ? & [Hp1 Hp2] & Hl & Hd). simplify_eq.
  cbn [processed queued source_state length] in *. set (h' := recycled 1 [b] h).
  assert (Eo : owned h' a' = owned h a).
  { unfold owned. rewrite (source_queue_at h' a' x _ Hx Hs'), (source_queue_at _ _ _ _ Hx Hs). unfold h', recycled. cbn [queued al_unused_buffers set_buffer_queue set_al]. by rewrite <-app_assoc. }
  assert (Eb : buffer_queue h' = gs) by (unfold h', recycled; by rewrite Hg). split.
  - split; [rewrite Eo; apply Hok|intros c; rewrite Eo, Hb; apply Hok|]. intros y Hy. assert (y = x) as -> by (cbn in Hy; congruence).
    exists (mkSource q n st). split; [done|]. rewrite Eb. rewrite Hg in Hl, Hd. cbn [queued length take] in *.
    split; [split; cbn [processed queued source_state]; [lia|intros ?%Hp2; lia]|]. split; [lia|].
    inversion Hd; subst. eapply Forall2_decoded_ext; [|done]. intros c _. apply Hb.
  - split; try done; [|rewrite Eo; by left|by left| |intros c; by rewrite Hb].
    + intros y Hy. apply Ho. cbn in Hy. congruence.
    + intros y Hy. destruct (decide (y = x)) as [->|]; [by rewrite Hs'|by rewrite Ho].
Qed.

Lemma unqueue_loop_spec x n st : ∀ fuel h a q reuse,
  aq_ok a h → al_source h = Some x → GetSource x a = Some (mkSource q n st) → (n < fuel)%nat →
  ∃ a', unqueue_loop fuel x recycle a (h, reuse) = Ret (a', (recycled n (take n q) h, reuse ++ take n (buffer_queue h))) ∧
    aq_ok a' (recycled n (take n q) h) ∧ al_frame h (recycled n (take n q) h) a a' ∧ GetSource x a' = Some (mkSource (drop n q) 0 st).
Proof.
  induction n as [|n IH]; intros [|fuel] h a q reuse Hok Hx Hs Hf; try lia; cbn [unqueue_loop]; rewrite Hs; cbn [unwrap mbind outcome_bind processed].
  - exists a. assert (E : recycled 0 [] h = h) by (unfold recycled; rewrite app_nil_r; by destruct h).
    rewrite !take_0, drop_0, E, app_nil_r. split_and!; try done. apply al_frame_refl.
  - destruct (ao_source _ _ Hok _ Hx) as (s0 & ? & [Hp _] & Hl & _). simplify_eq. cbn [processed queued] in Hp, Hl.
    destruct q as [|b q]; [simpl in Hp; lia|]. destruct (buffer_queue h) as [|g gs] eqn:Eg; [simpl in Hl; lia|].
    destruct (source_unqueue x a b q n st Hs) as (a1 & E1 & Hnow). rewrite E1. cbn [Nat.eqb unwrap mbind outcome_bind].
    destruct (unqueued_one h a a1 x b q n st g gs Hok Hx Hs Eg Hnow) as [Hok1 F1].
    assert (Er : recycle b (h, reuse) = Ret (recycled 1 [b] h, reuse ++ [g])) by (unfold recycle, recycled; by rewrite Eg).
    rewrite Er. cbn [mbind outcome_bind].
    destruct (IH fuel (recycled 1 [b] h) a1 q (reuse ++ [g])) as (a2 & E2 & Hok2 & F2 & Hs2); [done|done|apply Hnow|lia|].
    assert (Err : recycled n (take n q) (recycled 1 [b] h) = recycled (S n) (take (S n) (b :: q)) h).
    { unfold recycled. rewrite Eg. cbn [buffer_queue set_buffer_queue al_source set_al al_unused_buffers drop take]. by rewrite <-app_assoc, drop_0. }
    assert (Et : take n (buffer_queue (recycled 1 [b] h)) = take n gs) by (unfold recycled; by rewrite Eg).
    rewrite Err in *. rewrite Et, <-app_assoc in E2. exists a2. split_and!; try done. by eapply al_frame_trans.
Qed.

Lemma unqueue_spec x h a s reuse :
  aq_ok a h → al_source h = Some x → GetSource x a = Some s →
  let n := processed s in
  ∃ a', unqueue_buffers x recycle a (h, reuse) = Ret (a', (recycled n (take n (queued s)) h, reuse ++ take n (buffer_queue h))) ∧
    aq_ok a' (recycled n (take n (queued s)) h) ∧ al_frame h (recycled n (take n (queued s)) h) a a' ∧
    GetSource x a' = Some (mkSource (drop n (queued s)) 0 (source_state s)).
Proof.
  intros Hok Hx Hs n. unfold unqueue_buffers. rewrite Hs. cbn [unwrap mbind outcome_bind]. destruct s as [q k st]. apply unqueue_loop_spec; try done. unfold n. cbn [processed]. lia.
Qed.

(** ** All queues *)

Record world_ok (w : World A) : Prop := {
  wo_ok q h : audio_queues w !! q = Some h → aq_ok (w_al w) h;
  wo_source q q' h h' x : audio_queues w !! q = Some h → audio_queues w !! q' = Some h' →
    al_source h = Some x → al_source h' = Some x → q = q';
  wo_owned q q' h h' b : audio_queues w !! q = Some h → audio_queues w !! q' = Some h' →
    b ∈ owned h (w_al w) → b ∈ owned h' (w_al w) → q = q';
  wo_known y s : GetSource y (w_al w) = Some s → queued s = [] ∨ ∃ q h, audio_queues w !! q = Some h ∧ al_source h = Some y;
  wo_data q h : audio_queues w !! q = Some h → is_supported_audio_format (aq_format h) = true → data_ok h (w_mem w) }.

Lemma world_unused_free w q h : world_ok w → audio_queues w !! q = Some h → unused_free h (w_al w).
Proof.
  intros Hw Hq b Hb y s Hs Hin. destruct (wo_known _ Hw _ _ Hs) as [E|(q' & h' & Hq' & Hy)]; [rewrite E in Hin; by apply elem_of_nil in Hin|].
  assert (Hown : b ∈ owned h (w_al w)) by (unfold owned; apply elem_of_app; by left).
  assert (Hown' : b ∈ owned h' (w_al w)) by (unfold owned; rewrite (source_queue_at _ _ _ _ Hy Hs); apply elem_of_app; by right).
  pose proof (wo_owned _ Hw _ _ _ _ _ Hq Hq' Hown Hown') as <-. simplify_eq.
  pose proof (ao_nodup _ _ (wo_ok _ Hw _ _ Hq)) as Hnd. unfold owned in Hnd. rewrite (source_queue_at _ _ _ _ Hy Hs) in Hnd.
  apply NoDup_app in Hnd as (_ & Hnd & _). by apply (Hnd b).
Qed.

(** Another queue does not see a change of this one. *)
Lemma others_kept w q h h' a' q0 h0 :
  world_ok w → audio_queues w !! q = Some h → al_frame h h' (w_al w) a' → audio_queues w !! q0 = Some h0 → q0 ≠ q →
  (∀ x, al_source h0 = Some x → al_source h' ≠ Some x) ∧ owned h0 a' = owned h0 (w_al w) ∧ aq_ok a' h0.
Proof.
  intros Hw Hq F Hq0 Hne. pose proof (wo_ok _ Hw _ _ Hq0) as Hok.
  assert (Hx : ∀ x, al_source h0 = Some x → al_source h' ≠ Some x).
  { intros x Hx0 Hx'. destruct (fr_fresh _ _ _ _ F x Hx') as [Hx|Hx].
    - by apply Hne, (wo_source _ Hw _ _ _ _ x Hq0 Hq).
    - destruct (ao_source _ _ Hok _ Hx0) as (s & Hs & _). congruence. }
  assert (Hs : source_queue_of h0 a' = source_queue_of h0 (w_al w)).
  { unfold source_queue_of. destruct (al_source h0) as [x|] eqn:E; [|done]. by rewrite (fr_source _ _ _ _ F) by by apply Hx. }
  assert (Ho : owned h0 a' = owned h0 (w_al w)) by (unfold owned; by rewrite Hs).
  assert (Hb : ∀ b, b ∈ owned h0 (w_al w) → GetBuffer b a' = GetBuffer b (w_al w)).
  { intros b Hb. apply (fr_buffer _ _ _ _ F); [|by apply Hok]. intros Hb'. by apply Hne, (wo_owned _ Hw _ _ _ _ b Hq0 Hq). }
  split_and!; try done. split.
  - rewrite Ho. apply Hok.
  - intros b. rewrite Ho. intros Hin. rewrite Hb by done. by apply Hok.
  - intros x Hx0. destruct (ao_source _ _ Hok _ Hx0) as (s & Hsx & Hwf & Hl & Hd). exists s.
    rewrite (fr_source _ _ _ _ F) by by apply Hx. split_and!; try done. eapply Forall2_decoded_ext; [|done].
    intros b Hin. apply Hb. unfold owned. rewrite (source_queue_at _ _ _ _ Hx0 Hsx). apply elem_of_app. by right.
Qed.

(** A queue may change as [aq_ok] and [al_frame] say. *)
Lemma world_put w q h h' a' :
  world_ok w → audio_queues w !! q = Some h → aq_ok a' h' → al_frame h h' (w_al w) a' →
  (is_supported_audio_format (aq_format h') = true → data_ok h' (w_mem w)) → world_ok (put_aq q h' (set_w_al a' w)).
Proof.
  intros Hw Hq Hok F Hd. pose proof (others_kept w q h h' a') as Hoth.
  split; cbn [put_aq set_w_al audio_queues w_al w_mem].
  - intros q0 h0 [[<- <-]|[Hne Hq0]]%lookup_insert_Some; [done|]. by apply (Hoth q0 h0).
  - intros q1 q2 h1 h2 x Hq1 Hq2 Hx1 Hx2. apply lookup_insert_Some in Hq1 as [[<- <-]|[Hne1 Hq1]], Hq2 as [[<- <-]|[Hne2 Hq2]]; try done.
    + by destruct (proj1 (Hoth q2 h2 Hw Hq F Hq2 (not_eq_sym Hne2)) x Hx2).
    + by destruct (proj1 (Hoth q1 h1 Hw Hq F Hq1 (not_eq_sym Hne1)) x Hx1).
    + by eapply (wo_source _ Hw).
  - assert (Hnew : ∀ q0 h0 b, audio_queues w !! q0 = Some h0 → q0 ≠ q → b ∈ owned h' a' → b ∈ owned h0 a' → False).
    { intros q0 h0 b Hq0 Hne Hb Hb0. destruct (Hoth q0 h0 Hw Hq F Hq0 Hne) as (_ & Eo & _). rewrite Eo in Hb0.
      destruct (fr_owned _ _ _ _ F b Hb) as [Hb'|Hb']; [by apply Hne, (wo_owned _ Hw _ _ _ _ b Hq0 Hq)|].
      destruct (ao_there _ _ (wo_ok _ Hw _ _ Hq0) b Hb0). congruence. }
    intros q1 q2 h1 h2 b Hq1 Hq2 Hb1 Hb2. apply lookup_insert_Some in Hq1 as [[<- <-]|[Hne1 Hq1]], Hq2 as [[<- <-]|[Hne2 Hq2]]; try done.
    + by destruct (Hnew q2 h2 b).
    + by destruct (Hnew q1 h1 b).
    + destruct (Hoth q1 h1) as (_ & E1 & _); try done. destruct (Hoth q2 h2) as (_ & E2 & _); try done.
      rewrite E1 in Hb1. rewrite E2 in Hb2. by eapply (wo_owned _ Hw).
  - intros y s Hy. destruct (decide (al_source h' = Some y)) as [Hy'|Hy'].
    { right. exists q, h'. by rewrite lookup_insert_eq. }
    rewrite (fr_source _ _ _ _ F) in Hy by done. destruct (wo_known _ Hw _ _ Hy) as [?|(q0 & h0 & Hq0 & Hx0)]; [by left|right].
    destruct (decide (q0 = q)) as [->|]; [simplify_eq; by apply (fr_same _ _ _ _ F) in Hx0|]. exists q0, h0. by rewrite lookup_insert_ne.
  - intros q0 h0 [[<- <-]|[Hne Hq0]]%lookup_insert_Some Hsup; [by apply Hd|]. by eapply (wo_data _ Hw).
Qed.

(** Queues stay there with their sources and formats. *)
Definition keeps (w w' : World A) : Prop := ∀ q h, audio_queues w !! q = Some h →
  ∃ h', audio_queues w' !! q = Some h' ∧ aq_format h' = aq_format h ∧ ∀ x, al_source h = Some x → al_source h' = Some x.
#[global] Instance keeps_preorder : PreOrder keeps.
Proof.
  split; [intros w q h Hq; by exists h|]. intros w1 w2 w3 K1 K2 q h Hq. destruct (K1 q h Hq) as (h2 & Hq2 & E2 & X2).
  destruct (K2 q h2 Hq2) as (h3 & Hq3 & E3 & X3). exists h3. split_and!; [done|by rewrite E3|]. intros x Hx. by apply X3, X2.
Qed.
Definition good (w w' : World A) : Prop := world_ok w' ∧ keeps w w'.
Lemma good_trans w1 w2 w3 : good w1 w2 → good w2 w3 → good w1 w3.
Proof. intros [??] [??]. split; [done|by etrans]. Qed.

Lemma good_put w q h h' a' :
  world_ok w → audio_queues w !! q = Some h → aq_ok a' h' → al_frame h h' (w_al w) a' →
  (is_supported_audio_format (aq_format h') = true → data_ok h' (w_mem w)) → good w (put_aq q h' (set_w_al a' w)).
Proof.
  intros Hw Hq Hok F Hd. split; [by eapply world_put|]. intros q0 h0 Hq0. cbn [put_aq set_w_al audio_queues].
  destruct (decide (q0 = q)) as [->|]; [|exists h0; by rewrite lookup_insert_ne]. simplify_eq. exists h'. rewrite lookup_insert_eq.
  split_and!; [done|apply F|apply F].
Qed.

(** The fields that have nothing to do with OpenAL. *)
Lemma aq_ok_same a h h' :
  aq_ok a h → al_source h' = al_source h → al_unused_buffers h' = al_unused_buffers h → aq_format h' = aq_format h →
  buffer_queue h `prefix_of` buffer_queue h' → aq_ok a h' ∧ al_frame h h' a a.
Proof.
  intros Hok Ex Eu Ef [l El]. assert (Eo : owned h' a = owned h a) by (unfold owned, source_queue_of; by rewrite Ex, Eu). split.
  - split; [rewrite Eo; apply Hok|intros b; rewrite Eo; apply Hok|]. intros x. rewrite Ex, Ef, El. intros Hx.
    destruct (ao_source _ _ Hok _ Hx) as (s & Hs & Hwf & Hl & Hd). exists s. rewrite length_app, take_app_le by done. split_and!; try done. lia.
  - clear clamp. split; try done; rewrite ?Ex, ?Eo; naive_solver.
Qed.
Lemma good_same w q h h' :
  world_ok w → audio_queues w !! q = Some h → al_source h' = al_source h → al_unused_buffers h' = al_unused_buffers h →
  aq_format h' = aq_format h → buffer_queue h' = buffer_queue h → good w (put_aq q h' w).
Proof.
  intros Hw Hq Ex Eu Ef Eb. destruct (aq_ok_same (w_al w) h h') as [Hok F]; try done; [by eapply wo_ok|by rewrite Eb|].
  destruct w as [m a qs ls]. apply (good_put (mkWorld m a qs ls) q h h' a); try done. unfold data_ok. rewrite Ef, Eb. by apply (wo_data _ Hw q).
Qed.

Lemma enqueue_good w q h g :
  world_ok w → audio_queues w !! q = Some h →
  (is_supported_audio_format (aq_format h) = true → ∃ d, decode_guest conv (aq_format h) g (w_mem w) = Ret d) →
  good w (put_aq q (set_buffer_queue (buffer_queue h ++ [g]) h) w).
Proof.
  intros Hw Hq Hg. destruct (aq_ok_same (w_al w) h (set_buffer_queue (buffer_queue h ++ [g]) h)) as [Hok F]; try done; [by eapply wo_ok|by apply prefix_app_r|].
  destruct w as [m a qs ls]. apply (good_put (mkWorld m a qs ls) q h _ a); try done. intros Hs c. cbn [buffer_queue set_buffer_queue aq_format].
  intros [Hc| ->%list_elem_of_singleton]%elem_of_app; [by apply (wo_data _ Hw q)|by apply Hg].
Qed.

(** The state of the source of a queue changes. *)
Lemma source_good w q h x s s' a' :
  world_ok w → audio_queues w !! q = Some h → al_source h = Some x → GetSource x (w_al w) = Some s →
  source_now x s' (w_al w) a' → source_wf s' ∧ queued s' = queued s → good w (set_w_al a' w).
Proof.
  intros Hw Hq Hx Hs Hnow [Hwf Eq]. destruct (aq_ok_source h (w_al w) a' x s s') as [Hok F]; try done; [by eapply wo_ok|].
  pose proof (good_put w q h h a' Hw Hq Hok F (wo_data _ Hw q h Hq)) as Hg. unfold put_aq, set_w_al in *. cbn [audio_queues w_mem w_al loop_queues] in Hg.
  by rewrite insert_id in Hg.
Qed.

(** *** The operations *)

(** The source of a queue is made when it is first primed. *)
Lemma source_made h a :
  aq_ok a h → unused_free h a → al_source h = None →
  ∃ x a1 a2, GenSources a = Some (x, a1) ∧ Sourcef x (clamp (volume h)) a1 = Some a2 ∧
    let h' := set_al (Some x) (al_unused_buffers h) h in aq_ok a2 h' ∧ al_frame h h' a a2 ∧ unused_free h' a2 ∧ source_queue_of h' a2 = [].
Proof.
  intros Hok Hun Hx. destruct (gen_sources a) as (x & a1 & E1 & Hnone & Hs1 & Ho1 & Hb1).
  destruct (sourcef x (clamp (volume h)) a1 _ Hs1) as (a2 & E2 & Hs2 & Ho2 & Hb2). exists x, a1, a2. split; [done|]. split; [done|]. intros h'.
  assert (Hb : ∀ b, GetBuffer b a2 = GetBuffer b a) by (intros b; by rewrite Hb2, Hb1).
  assert (Ho : ∀ y, y ≠ x → GetSource y a2 = GetSource y a) by (intros y Hy; by rewrite Ho2, Ho1).
  pose proof (source_queue_at h' a2 x _ eq_refl Hs2) as Eq. cbn [queued] in Eq.
  assert (Eo : owned h' a2 = owned h a) by (unfold owned; rewrite Eq; unfold source_queue_of; by rewrite Hx).
  split_and!; [split|split|..]; try done.
  - rewrite Eo. apply Hok.
  - intros b. rewrite Eo, Hb. apply Hok.
  - intros y [= <-]. eexists. split; [done|]. cbn [queued length take]. split_and!; [done|lia|done].
  - intros y Hy. apply Ho. intros ->. by apply Hy.
  - rewrite Eo. by left.
  - intros y. rewrite Hx. done.
  - intros y [= <-]. by right.
  - intros y Hy. destruct (decide (y = x)) as [->|]; [by rewrite Hs2|by rewrite Ho].
  - intros b. by rewrite Hb.
  - intros b Hb' y s Hy. destruct (decide (y = x)) as [->|]; [|rewrite Ho in Hy by done; by eapply Hun].
    rewrite Hs2 in Hy. injection Hy as <-. apply not_elem_of_nil.
Qed.

Lemma prime_good w q h :
  world_ok w → audio_queues w !! q = Some h →
  ∃ w', prime_audio_queue conv clamp q w = Ret (is_supported_audio_format (aq_format h), w') ∧ good w w' ∧
    (is_supported_audio_format (aq_format h) = true → ∃ h', audio_queues w' !! q = Some h' ∧ same_aq h h' ∧ is_Some (al_source h')) ∧
    (is_supported_audio_format (aq_format h) = false → w' = w).
Proof.
  intros Hw Hq. unfold prime_audio_queue, get_aq. rewrite Hq. cbn [unwrap mbind outcome_bind].
  destruct (is_supported_audio_format (aq_format h)) eqn:Es; cbn [negb]; [|exists w; split_and!; try done; by split].
  pose proof (wo_ok _ Hw _ _ Hq) as Hok. pose proof (world_unused_free _ _ _ Hw Hq) as Hun. pose proof (wo_data _ Hw _ _ Hq Es) as Hd.
  assert (Hpre : ∃ x h1 a1,
    (match al_source h with
     | Some x => Ret (x, h, w_al w)
     | None => '(x, a) ← unwrap (GenSources (w_al w)); a ← unwrap (Sourcef x (clamp (volume h)) a); Ret (x, set_al (Some x) (al_unused_buffers h) h, a)
     end) = Ret (x, h1, a1) ∧ aq_ok a1 h1 ∧ al_frame h h1 (w_al w) a1 ∧ unused_free h1 a1 ∧ same_aq h h1 ∧ al_source h1 = Some x).
  { destruct (al_source h) as [x|] eqn:Hx.
    - exists x, h, (w_al w). split_and!; try done; [apply al_frame_refl|by destruct h].
    - destruct (source_made h (w_al w) Hok Hun Hx) as (x & a1 & a2 & E1 & E2 & Hok' & F & Hun' & _). rewrite E1. cbn [unwrap mbind outcome_bind].
      rewrite E2. cbn [unwrap mbind outcome_bind]. do 3 eexists. done. }
  destruct Hpre as (x & h1 & a1 & E & Hok1 & F1 & Hun1 & S1 & Hx1). rewrite E. cbn [mbind outcome_bind].
  assert (Eb : buffer_queue h1 = buffer_queue h ∧ aq_format h1 = aq_format h) by by rewrite S1. destruct Eb as [Eb Ef].
  destruct (ao_source _ _ Hok1 _ Hx1) as (s & Hs & _ & Hl & _). rewrite <-(source_queue_at _ _ _ _ Hx1 Hs) in Hl.
  destruct (prime_loop_spec (S (length (buffer_queue h1))) x (w_mem w) h1 a1) as (h2 & a2 & E2 & Hok2 & F2 & S2 & Hx2); try done; [|lia|].
  { unfold data_ok. by rewrite Eb, Ef. }
  rewrite E2. cbn [mbind outcome_bind]. eexists. split; [done|]. pose proof (same_aq_trans _ _ _ S1 S2) as S3. split_and!; [|intros _|done].
  - eapply good_put; try done; [by eapply al_frame_trans|]. intros _. unfold data_ok. rewrite S3. exact Hd.
  - exists h2. cbn [put_aq set_w_al audio_queues]. rewrite lookup_insert_eq, Hx2. done.
Qed.

(** A source that has played nothing yet has nothing queued; see [stop_before_start]. *)
Definition was_started (w : World A) (h : AudioQueueHostObject) : Prop :=
  ∀ x s, al_source h = Some x → GetSource x (w_al w) = Some s → source_state s = AL_INITIAL → queued s = [].

(** When everything was taken off the source, the queue may be cleared. *)
Lemma cleared_ok a h : aq_ok a h → source_queue_of h a = [] → aq_ok a (set_buffer_queue [] h) ∧ al_frame h (set_buffer_queue [] h) a a.
Proof.
  intros Hok Hn. split; [split|split]; try done; try apply Hok; [|by left..].
  intros x Hx. destruct (ao_source _ _ Hok x Hx) as (s & Hs & Hwf & _). rewrite (source_queue_at h a x s Hx Hs) in Hn.
  exists s. rewrite Hn. split_and!; try done.
Qed.

(** [AudioQueueReset] after the source was stopped: everything is taken off it. *)
Lemma reset_emptied h a a1 x s s1 :
  aq_ok a h → al_source h = Some x → GetSource x a = Some s → source_now x s1 a a1 → source_wf s1 → queued s1 = queued s → processed s1 = length (queued s) →
  ∃ a' h' r, unqueue_buffers x recycle a1 (h, []) = Ret (a', (h', r)) ∧
    aq_ok a' (set_buffer_queue [] h') ∧ al_frame h (set_buffer_queue [] h') a a' ∧ GetSource x a' = Some (mkSource [] 0 (source_state s1)).
Proof.
  intros Hok Hx Hs Hnow Hwf Eq Ep. destruct (aq_ok_source h a a1 x s s1 Hok Hx Hs Hnow Eq Hwf) as [Hok1 F1].
  destruct (unqueue_spec x h a1 s1 [] Hok1 Hx (proj1 Hnow)) as (a' & E & Hok2 & F2 & Hs2). rewrite Ep, Eq, drop_all in Hs2.
  destruct (cleared_ok _ _ Hok2) as [Hok3 F3]; [by rewrite (source_queue_at (recycled _ _ h) a' x _ Hx Hs2)|].
  do 3 eexists. split; [exact E|]. split_and!; [done| |done]. eapply al_frame_trans; [exact F1|]. by eapply al_frame_trans.
Qed.

Lemma stop_empties w h x s :
  was_started w h → al_source h = Some x → GetSource x (w_al w) = Some s → source_wf s → processed (stop_source s) = length (queued s).
Proof.
  intros Hst Hx Hs [Hle _]. unfold stop_source. case_decide as Ei; [|done]. specialize (Hst x s Hx Hs Ei). rewrite Hst in *. simpl in *. lia.
Qed.

Lemma reset_good w q h :
  world_ok w → q ≠ 0 → audio_queues w !! q = Some h → was_started w h →
  ∃ w' h', AudioQueueReset q w = Ret (0, w') ∧ good w w' ∧ audio_queues w' !! q = Some h' ∧ buffer_queue h' = [].
Proof.
  intros Hw Hq0 Hq Hst. unfold AudioQueueReset, get_aq. rewrite (proj2 (Z.eqb_neq _ _) Hq0), Hq. cbn [unwrap mbind outcome_bind].
  pose proof (wo_ok _ Hw _ _ Hq) as Hok. destruct (al_source h) as [x|] eqn:Hx; cbn [mbind outcome_bind].
  - destruct (ao_source _ _ Hok _ Hx) as (s & Hs & Hwf & _). rewrite Hs. cbn [unwrap mbind outcome_bind].
    assert (Hstop : ∃ a1 s1, (if decide (source_state s = AL_STOPPED) then Ret (w_al w) else unwrap (SourceStop x (w_al w))) = Ret a1 ∧
      source_now x s1 (w_al w) a1 ∧ source_wf s1 ∧ queued s1 = queued s ∧ processed s1 = length (queued s)).
    { case_decide as Est; [exists (w_al w), s; split_and!; try done; by apply Hwf|].
      destruct (source_stop x (w_al w) s Hs) as (a1 & E1 & Hn1). rewrite E1. exists a1, (stop_source s). destruct (stop_wf s Hwf).
      split_and!; try done. by eapply stop_empties. }
    destruct Hstop as (a1 & s1 & E1 & Hn1 & Hwf1 & Eq1 & Ep1). rewrite E1. cbn [mbind outcome_bind].
    destruct (reset_emptied h (w_al w) a1 x s s1) as (a2 & h2 & r & E2 & Hok2 & F2 & _); try done. rewrite E2. cbn [mbind outcome_bind].
    do 2 eexists. split; [done|]. split; [eapply good_put; try done; by intros _ c ?%elem_of_nil|]. cbn [put_aq set_w_al audio_queues]. by rewrite lookup_insert_eq.
  - destruct (cleared_ok _ _ Hok) as [Hok3 F3]; [unfold source_queue_of; by rewrite Hx|].
    do 2 eexists. split; [done|]. split; [eapply good_put; try done; by intros _ c ?%elem_of_nil|]. cbn [put_aq set_w_al audio_queues]. by rewrite lookup_insert_eq.
Qed.
End sync.
