(* ===== verification/AudioQueueRuns.v ===== *)
(** * Runs of audio queues

    The requests of an app, the callbacks it gets, the progress OpenAL makes and the app's writes to
    memory, in any order: [world_ok] holds throughout, and no request on a queue that is there panics. *)

From S2P Require Import Prelude SizeBucketed VMAllocator GuestMem Ima4 AudioQueue AudioQueueFacts.

Section runs.
Context {A : Type} `{OpenALLaws A} (conv clamp : Z → Z).
Notation W := (World A).
Implicit Types (w : W) (h : AudioQueueHostObject).

(** ** Requests that call no callback *)

Inductive request := Enqueue (buffer : Z) | Prime | Pause | Reset | StopLater | SetVolume (v : Z) | AddListener (proc user_data : Z) | RemoveListener.
Definition run (r : request) (q : Z) (w : W) : outcome (Z * W) :=
  match r with
  | Enqueue g => AudioQueueEnqueueBuffer q g w
  | Prime => AudioQueuePrime conv clamp q 0 w
  | Pause => AudioQueuePause q w
  | Reset => AudioQueueReset q w
  | StopLater => AudioQueueStop (λ _ _ w, Ret w) q false w
  | SetVolume v => AudioQueueSetParameter clamp q kAudioQueueParam_Volume v w
  | AddListener p d => AudioQueueAddPropertyListener q kAudioQueueProperty_IsRunning p d w
  | RemoveListener => AudioQueueRemovePropertyListener q kAudioQueueProperty_IsRunning w
  end.
(** An app enqueues buffers that can be decoded, and resets a primed queue only after it was started. *)
Definition enabled (r : request) (w : W) (h : AudioQueueHostObject) : Prop :=
  match r with
  | Enqueue g => is_supported_audio_format (aq_format h) = true → ∃ d, decode_guest conv (aq_format h) g (w_mem w) = Ret d
  | Reset => was_started w h
  | _ => True
  end.

Lemma run_good r q w h :
  world_ok conv w → q ≠ 0 → audio_queues w !! q = Some h → enabled r w h → ∃ st w', run r q w = Ret (st, w') ∧ good conv w w'.
Proof.
  intros Hw Hq0 Hq Hen. pose proof (proj2 (Z.eqb_neq _ _) Hq0) as Ez. assert (Hr : good conv w w) by (split; [done|reflexivity]).
  assert (Hput : ∀ h', al_source h' = al_source h → al_unused_buffers h' = al_unused_buffers h →
    aq_format h' = aq_format h → buffer_queue h' = buffer_queue h → good conv w (put_aq q h' w)) by (intros; by eapply good_same).
  destruct r as [g| | | | |v|p d|]; cbn [run].
  - unfold AudioQueueEnqueueBuffer, get_aq. rewrite Ez, Hq. cbn [unwrap mbind outcome_bind]. case_bool_decide; cbn [negb]; [|by eauto].
    do 2 eexists. split; [done|]. by apply enqueue_good.
  - destruct (prime_good conv clamp w q h Hw Hq) as (w' & E & Hg & _). unfold AudioQueuePrime. rewrite Ez, E. cbn [mbind outcome_bind].
    destruct (is_supported_audio_format _); cbn; eauto.
  - unfold AudioQueuePause, get_aq. rewrite Ez, Hq. cbn [unwrap mbind outcome_bind].
    pose proof (Hput (set_is_running Stopped h) eq_refl eq_refl eq_refl eq_refl) as [Hw1 K1]. set (w1 := put_aq q (set_is_running Stopped h) w) in *.
    assert (Hq1 : audio_queues w1 !! q = Some (set_is_running Stopped h)) by apply lookup_insert_eq.
    destruct (al_source h) as [x|] eqn:Hx; [|by do 2 eexists].
    destruct (ao_source _ _ _ (wo_ok _ _ Hw1 _ _ Hq1) x Hx) as (s & Hs & Hwf & _).
    destruct (source_pause x (w_al w1) s Hs) as (a' & E & Hn). rewrite E. do 2 eexists. split; [done|]. eapply good_trans; [by split|].
    exact (source_good conv _ _ _ _ _ _ _ Hw1 Hq1 Hx Hs Hn (pause_wf s Hwf)).
  - destruct (reset_good conv w q h Hw Hq0 Hq Hen) as (w' & h' & E & Hg & _). by eauto.
  - unfold AudioQueueStop, get_aq. rewrite Ez, Hq. cbn [unwrap mbind outcome_bind]. case_decide; [by eauto|]. do 2 eexists. split; [done|by apply Hput].
  - unfold AudioQueueSetParameter, get_aq. rewrite Ez, Hq. cbn [Z.eqb kAudioQueueParam_Volume Pos.eqb rassert unwrap mbind outcome_bind].
    pose proof (Hput (set_volume v h) eq_refl eq_refl eq_refl eq_refl) as [Hw1 K1]. set (w1 := put_aq q (set_volume v h) w) in *.
    assert (Hq1 : audio_queues w1 !! q = Some (set_volume v h)) by apply lookup_insert_eq.
    destruct (al_source h) as [x|] eqn:Hx; [|by do 2 eexists].
    destruct (ao_source _ _ _ (wo_ok _ _ Hw1 _ _ Hq1) x Hx) as (s & Hs & Hwf & _).
    destruct (sourcef x (clamp v) (w_al w1) s Hs) as (a' & E & Hn). rewrite E. do 2 eexists. split; [done|]. eapply good_trans; [by split|].
    exact (source_good conv _ _ _ _ _ _ _ Hw1 Hq1 Hx Hs Hn (conj Hwf eq_refl)).
  - unfold AudioQueueAddPropertyListener, get_aq. rewrite Ez, Hq. do 2 eexists. split; [done|by apply Hput].
  - unfold AudioQueueRemovePropertyListener, get_aq. rewrite Ez, Hq. do 2 eexists. split; [done|by apply Hput].
Qed.

(** ** What the app and OpenAL do by themselves *)

(** OpenAL plays: buffers stay queued, their number played and the states change. *)
Definition played (a a' : A) : Prop :=
  (∀ b, GetBuffer b a' = GetBuffer b a) ∧
  ∀ x, match GetSource x a, GetSource x a' with
       | Some s, Some s' => queued s' = queued s ∧ source_wf s'
       | None, None => True
       | _, _ => False
       end.
(** Memory is written, but the buffers that are enqueued can still be decoded. *)
Definition keeps_data (w : W) (m : Mem) : Prop :=
  ∀ q h, audio_queues w !! q = Some h → is_supported_audio_format (aq_format h) = true → data_ok conv h m.

Inductive guest_step (w : W) : W → Prop :=
| step_request r q h st w' : q ≠ 0 → audio_queues w !! q = Some h → enabled r w h → run r q w = Ret (st, w') → guest_step w w'
| step_played a : played (w_al w) a → guest_step w (set_w_al a w)
| step_memory m : keeps_data w m → guest_step w (set_w_mem m w).

Lemma played_queue a a' h : played a a' → source_queue_of h a' = source_queue_of h a.
Proof.
  intros [_ Hp]. unfold source_queue_of. destruct (al_source h) as [x|]; [|done]. specialize (Hp x).
  destruct (GetSource x a), (GetSource x a'); try done. apply Hp.
Qed.
Lemma played_ok a a' h : played a a' → aq_ok conv a h → aq_ok conv a' h.
Proof.
  intros Hp Hok. assert (Eo : owned h a' = owned h a) by (unfold owned; by rewrite (played_queue _ _ _ Hp)). destruct Hp as [Hb Hp].
  split; [rewrite Eo; apply Hok|intros b; rewrite Eo, Hb; apply Hok|]. intros x Hx. destruct (ao_source _ _ _ Hok _ Hx) as (s & Hs & _ & Hl & Hd).
  specialize (Hp x). rewrite Hs in Hp. destruct (GetSource x a') as [s'|]; [|done]. destruct Hp as [Eq Hwf]. exists s'. rewrite Eq. split_and!; try done.
  eapply Forall2_decoded_ext; [|done]. intros b _. apply Hb.
Qed.
Lemma played_world w a : world_ok conv w → played (w_al w) a → world_ok conv (set_w_al a w).
Proof.
  intros Hw Hp. split; cbn [set_w_al audio_queues w_al w_mem]; try apply Hw.
  - intros q h Hq. eapply played_ok; [done|]. by eapply wo_ok.
  - intros q q' h h' b. unfold owned. rewrite !(played_queue _ _ _ Hp). apply (wo_owned _ _ Hw).
  - intros y s' Hy. destruct Hp as [_ Hp]. specialize (Hp y). rewrite Hy in Hp. destruct (GetSource y (w_al w)) as [s|] eqn:Hs; [|done].
    destruct Hp as [-> _]. by apply (wo_known _ _ Hw _ _ Hs).
Qed.
Lemma memory_world w m : world_ok conv w → keeps_data w m → world_ok conv (set_w_mem m w).
Proof. intros Hw Hm. split; cbn [set_w_mem audio_queues w_al w_mem]; [apply Hw..|]. exact Hm. Qed.

Lemma guest_step_good w w' : world_ok conv w → guest_step w w' → good conv w w'.
Proof.
  intros Hw [r q h st w1 Hq0 Hq Hen E|a Hp|m Hm].
  - destruct (run_good r q w h Hw Hq0 Hq Hen) as (st' & w2 & E' & Hg). congruence.
  - split; [by apply played_world|]. intros q h Hq. by exists h.
  - split; [by apply memory_world|]. intros q h Hq. by exists h.
Qed.
Lemma guest_steps_good w w' : rtc guest_step w w' → world_ok conv w → good conv w w'.
Proof.
  induction 1 as [w|w1 w2 w3 Hs _ IH]; intros Hw; [split; [done|reflexivity]|].
  destruct (guest_step_good _ _ Hw Hs) as [Hw2 K]. eapply good_trans; [by split|by apply IH].
Qed.

(** ** Queues and buffers come and go *)

Lemma world_new w q h :
  world_ok conv w → audio_queues w !! q = None → al_source h = None → al_unused_buffers h = [] → buffer_queue h = [] → world_ok conv (put_aq q h w).
Proof.
  intros Hw Hq Hx Hu Hb. assert (Eo : ∀ a : A, owned h a = []) by (intros a; unfold owned, source_queue_of; by rewrite Hu, Hx).
  split; cbn [put_aq audio_queues w_al w_mem].
  - intros q0 h0 [[<- <-]|[_ Hq0]]%lookup_insert_Some; [|by eapply wo_ok]. split; [rewrite Eo; constructor|intros b; rewrite Eo; by intros ?%elem_of_nil|].
    intros x. by rewrite Hx.
  - intros q1 q2 h1 h2 x Hq1 Hq2 Hx1 Hx2. apply lookup_insert_Some in Hq1 as [[<- <-]|[_ Hq1]], Hq2 as [[<- <-]|[_ Hq2]]; try congruence.
    by eapply (wo_source _ _ Hw).
  - intros q1 q2 h1 h2 b Hq1 Hq2 Hb1 Hb2. apply lookup_insert_Some in Hq1 as [[<- <-]|[_ Hq1]]; [rewrite Eo in Hb1; by apply elem_of_nil in Hb1|].
    apply lookup_insert_Some in Hq2 as [[<- <-]|[_ Hq2]]; [rewrite Eo in Hb2; by apply elem_of_nil in Hb2|]. by eapply (wo_owned _ _ Hw).
  - intros y s Hy. destruct (wo_known _ _ Hw _ _ Hy) as [?|(q0 & h0 & Hq0 & Hx0)]; [by left|right]. exists q0, h0.
    rewrite lookup_insert_ne by congruence. done.
  - intros q0 h0 [[<- <-]|[_ Hq0]]%lookup_insert_Some; [|by eapply wo_data]. intros _ g. rewrite Hb. by intros ?%elem_of_nil.
Qed.

(** A queue with nothing on its source goes, with its OpenAL buffers. *)
Lemma world_drop w q h a' :
  world_ok conv w → audio_queues w !! q = Some h → source_queue_of h (w_al w) = [] →
  (∀ b, b ∉ al_unused_buffers h → GetBuffer b a' = GetBuffer b (w_al w)) → (∀ x, GetSource x a' = GetSource x (w_al w)) →
  world_ok conv (mkWorld (w_mem w) a' (delete q (audio_queues w)) (loop_queues w)).
Proof.
  intros Hw Hq Hn Hb Hs. assert (Eo : ∀ h0, owned h0 a' = owned h0 (w_al w)) by (intros h0; unfold owned, source_queue_of; destruct (al_source h0); by rewrite ?Hs).
  split; cbn [audio_queues w_al w_mem].
  - intros q0 h0 [Hne Hq0]%lookup_delete_Some. pose proof (wo_ok _ _ Hw _ _ Hq0) as Hok.
    assert (Hb0 : ∀ b, b ∈ owned h0 (w_al w) → GetBuffer b a' = GetBuffer b (w_al w)).
    { intros b Hin. apply Hb. intros Hin'. apply Hne, (wo_owned _ _ Hw q q0 h h0 b Hq Hq0); [|done]. unfold owned. apply elem_of_app. by left. }
    split; [rewrite Eo; apply Hok|intros b; rewrite Eo; intros Hin; rewrite Hb0 by done; by apply Hok|].
    intros x Hx. destruct (ao_source _ _ _ Hok x Hx) as (s & Hsx & Hwf & Hl & Hd). exists s. rewrite Hs. split_and!; try done.
    eapply Forall2_decoded_ext; [|done]. intros b Hin. apply Hb0. unfold owned. rewrite (source_queue_at _ _ _ _ Hx Hsx). apply elem_of_app. by right.
  - intros q1 q2 h1 h2 x [_ Hq1]%lookup_delete_Some [_ Hq2]%lookup_delete_Some. by eapply (wo_source _ _ Hw).
  - intros q1 q2 h1 h2 b [_ Hq1]%lookup_delete_Some [_ Hq2]%lookup_delete_Some. rewrite !Eo. by eapply (wo_owned _ _ Hw).
  - intros y s. rewrite Hs. intros Hy. destruct (wo_known _ _ Hw _ _ Hy) as [?|(q0 & h0 & Hq0 & Hx0)]; [by left|].
    destruct (decide (q0 = q)) as [->|]; [|right; exists q0, h0; by rewrite lookup_delete_ne]. left. simplify_eq. by rewrite <-Hn, (source_queue_at _ _ _ _ Hx0 Hy).
  - intros q0 h0 [_ Hq0]%lookup_delete_Some. by eapply (wo_data _ _ Hw).
Qed.

(** [AudioQueueDispose] collects the same buffers as [recycle]. *)
Lemma unqueue_collects x fuel : ∀ (a : A) h r a' h' r',
  unqueue_loop fuel x recycle a (h, r) = Ret (a', (h', r')) → unqueue_loop fuel x (λ b l, Ret (l ++ [b])) a (al_unused_buffers h) = Ret (a', al_unused_buffers h').
Proof.
  induction fuel as [|fuel IH]; intros a h r a' h' r'; cbn [unqueue_loop]; [done|]. step_bind. destruct (_ =? 0)%nat; [by intros [= <- <- <-]|].
  destruct (SourceUnqueueBuffers x a) as [[b a1]|]; cbn [unwrap mbind outcome_bind]; [|done].
  destruct (recycle b (h, r)) as [[h1 r1]|] eqn:Er; cbn [mbind outcome_bind]; [|done]. unfold recycle in Er.
  destruct (buffer_queue h) as [|g gs]; [done|]. injection Er as <- <-. apply IH.
Qed.

Inductive mem_op :=
| NewOutput (in_format proc user_data run_loop main_run_loop : Z) (mode_ok is_candcra : bool) (rate_44100 out_aq : Z)
| AllocateBuffer (is_candcra : bool) (q size out_buffer : Z)
| FreeBuffer (q buffer : Z)
| Dispose (q : Z).
Definition run_mem (o : mem_op) (w : W) : outcome (Z * W) :=
  match o with
  | NewOutput f p u l ml mode app rate out => AudioQueueNewOutput f p u l ml mode app rate 0 out w
  | AllocateBuffer app q n out => AudioQueueAllocateBuffer app q n out w
  | FreeBuffer q b => AudioQueueFreeBuffer q b w
  | Dispose q => AudioQueueDispose q true w
  end.
(** The allocator gives a new queue an address that is no queue's; a primed queue was started before it is disposed of. *)
Definition mem_enabled (o : mem_op) (w w' : W) : Prop :=
  match o with
  | NewOutput _ _ _ _ _ _ _ _ _ => ∃ q h, audio_queues w !! q = None ∧ audio_queues w' = <[q := h]> (audio_queues w)
  | Dispose q => ∀ h, audio_queues w !! q = Some h → was_started w h
  | _ => True
  end.

Lemma insert_new_key {V} (m : gmap Z V) q q' v v' : m !! q = None → <[q' := v']> m = <[q := v]> m → m !! q' = None ∨ m !! q' = Some v'.
Proof.
  intros Hq E. destruct (decide (q' = q)) as [->|]; [by left|]. right. pose proof (f_equal (lookup q') E) as E'.
  rewrite lookup_insert_eq, lookup_insert_ne in E' by done. done.
Qed.
Lemma new_output_world w f p u l ml mode app rate fl out st w' :
  world_ok conv w → AudioQueueNewOutput f p u l ml mode app rate fl out w = Ret (st, w') →
  (∃ q h, audio_queues w !! q = None ∧ audio_queues w' = <[q := h]> (audio_queues w)) → keeps_data w' (w_mem w') → world_ok conv w'.
Proof.
  intros Hw E (q & h & Hq & Eq) Hd. revert E Eq Hd. unfold AudioQueueNewOutput. do 3 step_bind. destruct (alloc_and_write _ _) as [[q' m1]|]; [|done].
  cbn [mbind outcome_bind]. step_bind. unfold add_audio_queue. destruct (unwrap _) as [ls|]; [|done]. cbn [mbind outcome_bind]. intros [= <- <-].
  cbn [audio_queues set_loop set_w_mem put_aq w_mem]. set (h' := mkAQ _ _ _ _ _ _ _ _ _ _ _ _ _). intros Eq Hd.
  assert (Hw' : world_ok conv (put_aq q' h' w)).
  { destruct (insert_new_key _ _ _ _ _ Hq Eq) as [Hn|Hn]; [by apply world_new|]. destruct w as [m0 al qs ls0]. unfold put_aq. cbn [audio_queues]. by rewrite insert_id. }
  destruct (memory_world _ _ Hw' Hd). by split.
Qed.
Lemma allocate_world w app q n out st w' :
  world_ok conv w → AudioQueueAllocateBuffer app q n out w = Ret (st, w') → keeps_data w' (w_mem w') → world_ok conv w'.
Proof.
  intros Hw E Hd. revert E Hd. unfold AudioQueueAllocateBuffer, get_aq. destruct (q =? 0); [by intros [= <- <-]|].
  destruct (audio_queues w !! q) as [h|] eqn:Hq; [|done]. cbn [unwrap mbind outcome_bind]. destruct (mem_alloc _ _) as [[d m1]|]; [|done]. cbn [mbind outcome_bind].
  destruct (alloc_and_write _ _) as [[b m2]|]; [|done]. cbn [mbind outcome_bind]. step_bind. intros [= <- <-] Hd.
  set (h' := set_aq_buffers (aq_buffers h ++ [b]) h) in *. destruct (good_same conv w q h h') as [Hw' _]; try done.
  destruct (memory_world _ _ Hw' Hd). by split.
Qed.
Lemma free_world w q b st w' : world_ok conv w → AudioQueueFreeBuffer q b w = Ret (st, w') → keeps_data w' (w_mem w') → world_ok conv w'.
Proof.
  intros Hw E Hd. revert E Hd. unfold AudioQueueFreeBuffer, get_aq. destruct (q =? 0); [by intros [= <- <-]|].
  destruct (audio_queues w !! q) as [h|] eqn:Hq; [|done]. cbn [unwrap mbind outcome_bind]. case_bool_decide; [by intros [= <- <-]|].
  destruct (fst <$> _) as [i|]; [|by intros [= <- <-]]. step_bind. intros [= <- <-] Hd.
  set (h' := set_aq_buffers (delete i (aq_buffers h)) h) in *. destruct (good_same conv w q h h') as [Hw' _]; try done.
  destruct (memory_world _ _ Hw' Hd). by split.
Qed.

(** What [AudioQueueDispose] does to OpenAL. *)
Lemma dispose_al w q h x :
  world_ok conv w → audio_queues w !! q = Some h → al_source h = Some x → was_started w h →
  ∃ a1 a2 a3 unused, SourceStop x (w_al w) = Some a1 ∧ unqueue_buffers x (λ b l, Ret (l ++ [b])) a1 (al_unused_buffers h) = Ret (a2, unused) ∧
    DeleteBuffers unused a2 = Some a3 ∧ world_ok conv (mkWorld (w_mem w) a3 (delete q (audio_queues w)) (loop_queues w)).
Proof.
  intros Hw Hq Hx Hst. pose proof (wo_ok _ _ Hw _ _ Hq) as Hok. destruct (ao_source _ _ _ Hok x Hx) as (s & Hs & Hwf & _).
  destruct (source_stop x (w_al w) s Hs) as (a1 & E1 & Hn1). destruct (stop_wf s Hwf) as [Hwf1 Eq1].
  destruct (reset_emptied conv h (w_al w) a1 x s (stop_source s)) as (a2 & h2 & r & E2 & Hok2 & F2 & Hs2); try done; [by eapply stop_empties|].
  assert (E2' : unqueue_buffers x (λ b l, Ret (l ++ [b])) a1 (al_unused_buffers h) = Ret (a2, al_unused_buffers h2)).
  { revert E2. unfold unqueue_buffers. step_bind. apply unqueue_collects. }
  set (h3 := set_buffer_queue [] h2) in *. set (w2 := put_aq q h3 (set_w_al a2 w)).
  assert (Hw2 : world_ok conv w2) by (eapply world_put; try done; by intros _ c ?%elem_of_nil).
  assert (Hq2 : audio_queues w2 !! q = Some h3) by apply lookup_insert_eq.
  destruct (delete_buffers (al_unused_buffers h2) a2) as (a3 & E3 & Hb3 & Hs3).
  { intros b Hb. split; [|by eapply (world_unused_free conv w2 q h3)]. apply (ao_there _ _ _ Hok2). unfold owned. apply elem_of_app. by left. }
  exists a1, a2, a3, (al_unused_buffers h2). split_and!; try done.
  assert (Hx3 : al_source h3 = Some x) by by apply (fr_same _ _ _ _ F2).
  pose proof (world_drop w2 q h3 a3 Hw2 Hq2 (source_queue_at _ _ _ _ Hx3 Hs2) Hb3 Hs3) as Hdrop. unfold w2 in Hdrop.
  cbn [put_aq set_w_al audio_queues w_mem loop_queues] in Hdrop. by rewrite delete_insert_eq in Hdrop.
Qed.

Lemma remove_same l q w w' : remove_audio_queue l q w = Ret w' → w' = mkWorld (w_mem w) (w_al w) (audio_queues w) (loop_queues w').
Proof. unfold remove_audio_queue. do 2 step_bind. by intros [= <-]. Qed.

Lemma dispose_world w q st w' :
  world_ok conv w → AudioQueueDispose q true w = Ret (st, w') → (∀ h, audio_queues w !! q = Some h → was_started w h) →
  keeps_data w' (w_mem w') → world_ok conv w'.
Proof.
  intros Hw E Hst Hd. revert E Hd. unfold AudioQueueDispose, get_aq. destruct (q =? 0); [by intros [= <- <-]|]. cbn [rassert mbind outcome_bind].
  destruct (audio_queues w !! q) as [h|] eqn:Hq; [|done]. specialize (Hst h eq_refl). cbn [unwrap mbind outcome_bind w_mem w_al set_w_mem audio_queues loop_queues].
  destruct (mem_free q (w_mem w)) as [[? m1]|]; [|done]. cbn [mbind outcome_bind]. destruct (for_each _ _ _) as [m2|]; [|done]. cbn [mbind outcome_bind].
  destruct (al_source h) as [x|] eqn:Hx.
  - destruct (dispose_al w q h x Hw Hq Hx Hst) as (a1 & a2 & a3 & un & E1 & E2 & E3 & Hw'). rewrite E1. cbn [unwrap mbind outcome_bind]. rewrite E2.
    cbn [mbind outcome_bind]. rewrite E3. cbn [unwrap mbind outcome_bind]. destruct (remove_audio_queue _ _ _) as [w3|] eqn:Er; [|done].
    intros [= <- <-] Hd. rewrite (remove_same _ _ _ _ Er) in Hd |- *. destruct (memory_world _ _ Hw' Hd). by split.
  - cbn [mbind outcome_bind]. destruct (remove_audio_queue _ _ _) as [w3|] eqn:Er; [|done]. intros [= <- <-] Hd. rewrite (remove_same _ _ _ _ Er) in Hd |- *.
    assert (Hn : source_queue_of h (w_al w) = []) by (unfold source_queue_of; by rewrite Hx).
    pose proof (world_drop w q h (w_al w) Hw Hq Hn (λ _ _, eq_refl) (λ _, eq_refl)) as Hw'. destruct (memory_world _ _ Hw' Hd). by split.
Qed.

Lemma mem_op_world o w st w' : world_ok conv w → run_mem o w = Ret (st, w') → mem_enabled o w w' → keeps_data w' (w_mem w') → world_ok conv w'.
Proof.
  destruct o; cbn [run_mem mem_enabled]; intros Hw E Hen Hd;
    [by eapply new_output_world|by eapply allocate_world|by eapply free_world|by eapply dispose_world].
Qed.

(** ** Callbacks *)

Section callbacks.
(** A callback of the app returns, and makes requests that call no callback themselves. *)
Context (call_guest : Z → list Z → W → outcome W).
Hypothesis guest_runs : ∀ f args w, world_ok conv w → ∃ w', call_guest f args w = Ret w' ∧ rtc guest_step w w'.

Lemma call_good f args w : world_ok conv w → ∃ w', call_guest f args w = Ret w' ∧ good conv w w'.
Proof. intros Hw. destruct (guest_runs f args w Hw) as (w' & E & Hs). exists w'. split; [done|by apply guest_steps_good]. Qed.
Lemma calls_good f args (l : list Z) : ∀ w, world_ok conv w → ∃ w', for_each (λ b w, call_guest f (args b) w) l w = Ret w' ∧ good conv w w'.
Proof.
  induction l as [|b l IH]; intros w Hw; cbn [for_each]; [exists w; split; [done|split; [done|reflexivity]]|].
  destruct (call_good f (args b) w Hw) as (w1 & E1 & Hw1 & K1). rewrite E1. cbn [mbind outcome_bind]. destruct (IH w1 Hw1) as (w2 & E2 & Hg2).
  exists w2. split; [done|]. eapply good_trans; [by split|done].
Qed.
Lemma notify_good w q h : world_ok conv w → audio_queues w !! q = Some h → ∃ w', notify_aq_is_running call_guest q w = Ret w' ∧ good conv w w'.
Proof.
  intros Hw Hq. unfold notify_aq_is_running, get_aq. rewrite Hq. cbn [unwrap mbind outcome_bind]. assert (Hr : good conv w w) by (split; [done|reflexivity]).
  destruct (aq_is_running_proc h), (aq_is_running_user_data h); [by apply call_good|by eauto..].
Qed.
Lemma finish_stopping_good w q h :
  world_ok conv w → q ≠ 0 → audio_queues w !! q = Some h → was_started w h → ∃ w', finish_stopping_audio_queue call_guest q w = Ret w' ∧ good conv w w'.
Proof.
  intros Hw Hq0 Hq Hst. unfold finish_stopping_audio_queue, get_aq. destruct (reset_good conv w q h Hw Hq0 Hq Hst) as (w1 & h1 & E1 & [Hw1 K1] & Hq1 & _).
  rewrite E1. cbn [mbind outcome_bind]. rewrite Hq1. cbn [unwrap mbind outcome_bind].
  destruct (good_same conv w1 q h1 (set_is_running Stopped h1)) as [Hw2 K2]; try done.
  destruct (notify_good (put_aq q (set_is_running Stopped h1) w1) q (set_is_running Stopped h1) Hw2) as (w3 & E3 & Hg3); [apply lookup_insert_eq|].
  exists w3. split; [done|]. by eapply good_trans; [exact (conj Hw1 K1)|eapply good_trans; [exact (conj Hw2 K2)|]].
Qed.

(** ** Operations that call back *)

Inductive op := Simple (r : request) | Start | StopNow | Handle.
Definition perform (o : op) (q : Z) (w : W) : outcome W :=
  match o with
  | Simple r => '(_, w) ← run r q w; Ret w
  | Start => '(_, w) ← AudioQueueStart conv clamp call_guest q 0 w; Ret w
  | StopNow => '(_, w) ← AudioQueueStop call_guest q true w; Ret w
  | Handle => handle_audio_queue conv clamp call_guest q w
  end.
Definition op_enabled (o : op) (w : W) (h : AudioQueueHostObject) : Prop :=
  match o with Simple r => enabled r w h | StopNow => was_started w h | _ => True end.

(** The source of a queue changes its state; the queue is found again. *)
Lemma source_step w q h x (f : ALSource → ALSource) (call : Z → A → option A) :
  (∀ s, source_wf s → source_wf (f s) ∧ queued (f s) = queued s) → (∀ a s, GetSource x a = Some s → ∃ a', call x a = Some a' ∧ source_now x (f s) a a') →
  world_ok conv w → audio_queues w !! q = Some h → al_source h = Some x →
  ∃ a' s, call x (w_al w) = Some a' ∧ GetSource x (w_al w) = Some s ∧ GetSource x a' = Some (f s) ∧ good conv w (set_w_al a' w).
Proof.
  intros Hf Hc Hw Hq Hx. destruct (ao_source _ _ _ (wo_ok _ _ Hw _ _ Hq) x Hx) as (s & Hs & Hwf & _). destruct (Hc (w_al w) s Hs) as (a' & E & Hn).
  exists a', s. split_and!; try done; [apply Hn|]. exact (source_good conv _ _ _ _ _ _ _ Hw Hq Hx Hs Hn (Hf s Hwf)).
Qed.

Lemma start_good w q h : world_ok conv w → q ≠ 0 → audio_queues w !! q = Some h → ∃ w', AudioQueueStart conv clamp call_guest q 0 w = Ret (0, w') ∧ good conv w w'.
Proof.
  intros Hw Hq0 Hq. unfold AudioQueueStart, get_aq. rewrite (proj2 (Z.eqb_neq _ _) Hq0). cbn [Z.eqb rassert mbind outcome_bind].
  destruct (prime_good conv clamp w q h Hw Hq) as (w1 & E1 & [Hw1 K1] & Hsup & Huns). rewrite E1. cbn [mbind outcome_bind].
  destruct (K1 q h Hq) as (h1 & Hq1 & Ef1 & _). rewrite Hq1. cbn [unwrap mbind outcome_bind].
  destruct (good_same conv w1 q h1 (set_is_running Running h1)) as [Hw2 K2]; try done. set (w2 := put_aq q (set_is_running Running h1) w1) in *.
  assert (Hq2 : audio_queues w2 !! q = Some (set_is_running Running h1)) by apply lookup_insert_eq.
  assert (Hplay : ∃ w3, (if is_supported_audio_format (aq_format h1) then x ← unwrap (al_source h1); a ← unwrap (SourcePlay x (w_al w2)); Ret (set_w_al a w2)
    else Ret w2) = Ret w3 ∧ good conv w2 w3).
  { destruct (is_supported_audio_format (aq_format h1)) eqn:Es; [|exists w2; split; [done|split; [done|reflexivity]]].
    destruct Hsup as (h1' & Hq1' & _ & [x Hx]); [by rewrite <-Ef1|]. rewrite Hq1 in Hq1'. injection Hq1' as <-. rewrite Hx. cbn [unwrap mbind outcome_bind].
    destruct (source_step w2 q (set_is_running Running h1) x play_source SourcePlay play_wf (source_play x) Hw2 Hq2 Hx) as (a' & s & E & _ & _ & Hg).
    rewrite E. by eexists. }
  destruct Hplay as (w3 & E3 & [Hw3 K3]). rewrite E3. cbn [mbind outcome_bind]. destruct (K3 q _ Hq2) as (h3 & Hq3 & _).
  destruct (notify_good w3 q h3 Hw3 Hq3) as (w4 & E4 & Hg4). rewrite E4. exists w4. split; [done|].
  by eapply good_trans; [exact (conj Hw1 K1)|eapply good_trans; [exact (conj Hw2 K2)|eapply good_trans; [exact (conj Hw3 K3)|]]].
Qed.

Lemma stop_now_good w q h :
  world_ok conv w → q ≠ 0 → audio_queues w !! q = Some h → was_started w h → ∃ w', AudioQueueStop call_guest q true w = Ret (0, w') ∧ good conv w w'.
Proof.
  intros Hw Hq0 Hq Hst. unfold AudioQueueStop, get_aq. rewrite (proj2 (Z.eqb_neq _ _) Hq0), Hq. cbn [unwrap mbind outcome_bind].
  destruct (al_source h) as [x|] eqn:Hx; cbn [mbind outcome_bind].
  - destruct (source_step w q h x stop_source SourceStop stop_wf (source_stop x) Hw Hq Hx) as (a' & s & E & Hs & Hs' & [Hw1 K1]).
    rewrite E. cbn [unwrap mbind outcome_bind]. destruct (finish_stopping_good (set_w_al a' w) q h Hw1 Hq0 Hq) as (w2 & E2 & Hg2).
    { intros y s' Hy Hgs Hi. simplify_eq. cbn [w_al set_w_al] in Hgs. rewrite Hs' in Hgs. injection Hgs as <-. revert Hi. unfold stop_source.
      case_decide as Hi; [|done]. by apply (Hst x s). }
    rewrite E2. exists w2. split; [done|]. by eapply good_trans; [exact (conj Hw1 K1)|].
  - destruct (finish_stopping_good w q h Hw Hq0 Hq Hst) as (w2 & E2 & Hg2). rewrite E2. by exists w2.
Qed.

(** The played buffers are taken off the source and the queue, and the flag is set. *)
Lemma handle_unqueue w q h x :
  world_ok conv w → audio_queues w !! q = Some h → al_source h = Some x →
  ∃ s a' h', GetSource x (w_al w) = Some s ∧ unqueue_buffers x recycle (w_al w) (set_running_handler true h, []) = Ret (a', (h', take (processed s) (buffer_queue h))) ∧
    good conv w (put_aq q h' (set_w_al a' w)) ∧ al_source h' = Some x.
Proof.
  intros Hw Hq Hx. pose proof (wo_ok _ _ Hw _ _ Hq) as Hok. destruct (ao_source _ _ _ Hok x Hx) as (s & Hs & Hwf & _).
  destruct (aq_ok_same conv (w_al w) h (set_running_handler true h)) as [Hok1 F1]; try done.
  destruct (unqueue_spec conv x (set_running_handler true h) (w_al w) s [] Hok1 Hx Hs) as (a' & E & Hok2 & F2 & _).
  exists s, a'. eexists. split; [done|]. split; [exact E|]. split; [|done]. eapply good_put; try done; [by eapply al_frame_trans|].
  intros Hsup g Hg. apply (wo_data _ _ Hw _ _ Hq Hsup). cbn [recycled buffer_queue set_buffer_queue] in Hg. by eapply subseteq_drop.
Qed.

(** A stopped source of a running queue is started again. *)
Lemma restart_good w q h x (running : AudioQueueIsRunning) :
  world_ok conv w → audio_queues w !! q = Some h → al_source h = Some x →
  ∃ w', (if decide (running = Stopped) then Ret w
         else s ← unwrap (GetSource x (w_al w)); if decide (source_state s = AL_STOPPED) then a ← unwrap (SourcePlay x (w_al w)); Ret (set_w_al a w) else Ret w)
        = Ret w' ∧ good conv w w'.
Proof.
  intros Hw Hq Hx. assert (Hr : good conv w w) by (split; [done|reflexivity]). case_decide; [by eauto|].
  destruct (source_step w q h x play_source SourcePlay play_wf (source_play x) Hw Hq Hx) as (a' & s & E & Hs & _ & Hg).
  rewrite Hs. cbn [unwrap mbind outcome_bind]. case_decide; [|by eauto]. rewrite E. by eexists.
Qed.
(** A stopping queue whose source has stopped is stopped. *)
Lemma complete_stop_good w q h x (running : AudioQueueIsRunning) :
  world_ok conv w → q ≠ 0 → audio_queues w !! q = Some h → al_source h = Some x →
  ∃ w', (if decide (running = Stopping)
         then s ← unwrap (GetSource x (w_al w)); if decide (source_state s = AL_STOPPED) then finish_stopping_audio_queue call_guest q w else Ret w
         else Ret w) = Ret w' ∧ good conv w w'.
Proof.
  intros Hw Hq0 Hq Hx. assert (Hr : good conv w w) by (split; [done|reflexivity]). case_decide; [|by eauto].
  destruct (ao_source _ _ _ (wo_ok _ _ Hw _ _ Hq) x Hx) as (s & Hs & _). rewrite Hs. cbn [unwrap mbind outcome_bind]. case_decide; [|by eauto].
  apply (finish_stopping_good w q h); try done. intros y s' Hy Hs'. simplify_eq. congruence.
Qed.

Lemma handle_good w q h : world_ok conv w → q ≠ 0 → audio_queues w !! q = Some h → ∃ w', handle_audio_queue conv clamp call_guest q w = Ret w' ∧ good conv w w'.
Proof.
  intros Hw Hq0 Hq. unfold handle_audio_queue, get_aq. rewrite Hq. cbn [unwrap mbind outcome_bind].
  assert (Hr : good conv w w) by (split; [done|reflexivity]).
  destruct (al_source h) as [x|] eqn:Hx; [|by eauto]. destruct (is_supported_audio_format (aq_format h)); cbn [negb]; [|by eauto].
  destruct (is_running_handler h); [by eauto|].
  destruct (handle_unqueue w q h x Hw Hq Hx) as (s & a1 & h1 & _ & E1 & [Hw1 K1] & Hx1). rewrite E1. cbn [mbind outcome_bind].
  set (w1 := put_aq q h1 (set_w_al a1 w)) in *. assert (Hq1 : audio_queues w1 !! q = Some h1) by apply lookup_insert_eq.
  destruct (calls_good (callback_proc h1) (λ b, [callback_user_data h1; q; b]) (take (processed s) (buffer_queue h)) w1 Hw1) as (w2 & E2 & [Hw2 K2]).
  rewrite E2. cbn [mbind outcome_bind]. destruct (K2 q h1 Hq1) as (h2 & Hq2 & _ & X2).
  destruct (prime_good conv clamp w2 q h2 Hw2 Hq2) as (w3 & E3 & [Hw3 K3] & _). rewrite E3. cbn [mbind outcome_bind].
  destruct (K3 q h2 Hq2) as (h3 & Hq3 & _ & X3).
  destruct (restart_good w3 q h3 x (is_running h1) Hw3 Hq3 (X3 x (X2 x Hx1))) as (w4 & E4 & [Hw4 K4]). rewrite E4. cbn [mbind outcome_bind].
  destruct (K4 q h3 Hq3) as (h4 & Hq4 & _ & X4).
  destruct (complete_stop_good w4 q h4 x (is_running h1) Hw4 Hq0 Hq4 (X4 x (X3 x (X2 x Hx1)))) as (w5 & E5 & [Hw5 K5]). rewrite E5. cbn [mbind outcome_bind].
  destruct (K5 q h4 Hq4) as (h5 & Hq5 & _). rewrite Hq5. eexists. split; [done|].
  destruct (good_same conv w5 q h5 (set_running_handler false h5)) as [Hw6 K6]; try done. split; [done|].
  etrans; [exact K1|]. etrans; [exact K2|]. etrans; [exact K3|]. etrans; [exact K4|]. by etrans.
Qed.

Lemma perform_good o q w h :
  world_ok conv w → q ≠ 0 → audio_queues w !! q = Some h → op_enabled o w h → ∃ w', perform o q w = Ret w' ∧ good conv w w'.
Proof.
  intros Hw Hq0 Hq Hen. destruct o as [r| | |]; cbn [perform].
  - destruct (run_good r q w h Hw Hq0 Hq Hen) as (st & w' & E & Hg). rewrite E. by eexists.
  - destruct (start_good w q h Hw Hq0 Hq) as (w' & E & Hg). rewrite E. by eexists.
  - destruct (stop_now_good w q h Hw Hq0 Hq Hen) as (w' & E & Hg). rewrite E. by eexists.
  - by apply (handle_good w q h).
Qed.

(** ** Everything that can happen *)

Inductive world_step (w : W) : W → Prop :=
| step_op o q h w' : q ≠ 0 → audio_queues w !! q = Some h → op_enabled o w h → perform o q w = Ret w' → world_step w w'
| step_mem o st w' : run_mem o w = Ret (st, w') → mem_enabled o w w' → keeps_data w' (w_mem w') → world_step w w'
| step_guest w' : guest_step w w' → world_step w w'.
(** No queue was made yet, and nothing is queued on a source. *)
Definition initial (w : W) : Prop := audio_queues w = ∅ ∧ ∀ x s, GetSource x (w_al w) = Some s → queued s = [].

Lemma initial_ok w : initial w → world_ok conv w.
Proof.
  intros [E Hs]. split; try (intros *; rewrite E; by rewrite lookup_empty). intros y s Hy. left. by eapply Hs.
Qed.
Lemma world_steps_ok w w' : rtc world_step w w' → world_ok conv w → world_ok conv w'.
Proof.
  induction 1 as [w|w1 w2 w3 [o q h w2' Hq0 Hq Hen E|o st w2' E Hen Hd|w2' Hs] _ IH]; intros Hw; [done|apply IH..].
  - destruct (perform_good o q w1 h Hw Hq0 Hq Hen) as (w4 & E4 & [Hw4 _]). congruence.
  - by eapply mem_op_world.
  - by apply (guest_step_good w1).
Qed.

End callbacks.
End runs.

(** ** A small OpenAL, and a run *)

Record SimAL := mkSim { sim_sources : gmap Z ALSource; sim_buffers : gmap Z ALData }.
Definition sim_fresh_buffer (a : SimAL) : Z := infinite_fresh ((map_to_list (sim_buffers a)).*1 ++ concat (queued <$> (map_to_list (sim_sources a)).*2)).
Definition on_source (x : Z) (f : ALSource → ALSource) (a : SimAL) : option SimAL :=
  match sim_sources a !! x with Some s => Some (mkSim (<[x := f s]> (sim_sources a)) (sim_buffers a)) | None => None end.
#[global] Instance sim_al : OpenAL SimAL := {
  GetSource x a := sim_sources a !! x;
  GetBuffer b a := sim_buffers a !! b;
  GenSources a := let x := infinite_fresh (map_to_list (sim_sources a)).*1 in
    Some (x, mkSim (<[x := mkSource [] 0 AL_INITIAL]> (sim_sources a)) (sim_buffers a));
  GenBuffers a := let b := sim_fresh_buffer a in Some (b, mkSim (sim_sources a) (<[b := (0, 0, [])]> (sim_buffers a)));
  Sourcef x _ a := on_source x id a;
  BufferData b d a := if sim_buffers a !! b then Some (mkSim (sim_sources a) (<[b := d]> (sim_buffers a))) else None;
  SourceQueueBuffers x b a := if sim_buffers a !! b then on_source x (queue_on b) a else None;
  SourceUnqueueBuffers x a :=
    match sim_sources a !! x with
    | Some (mkSource (b :: q) (S n) st) => Some (b, mkSim (<[x := mkSource q n st]> (sim_sources a)) (sim_buffers a))
    | _ => None
    end;
  SourcePlay x a := on_source x play_source a;
  SourcePause x a := on_source x pause_source a;
  SourceStop x a := on_source x stop_source a;
  DeleteBuffers l a := Some (mkSim (sim_sources a) (foldr delete (sim_buffers a) l)) }.

Lemma on_source_now x f a s : sim_sources a !! x = Some s → ∃ a', on_source x f a = Some a' ∧ source_now x (f s) a a'.
Proof.
  intros Hs. unfold on_source. rewrite Hs. eexists. split; [done|]. split_and!; cbn; [by rewrite lookup_insert_eq| |done].
  intros y Hy. by rewrite lookup_insert_ne.
Qed.
Lemma fresh_key {V} (m : gmap Z V) (l : list Z) : (∀ k v, m !! k = Some v → k ∈ l) → m !! infinite_fresh l = None.
Proof. intros Hm. destruct (m !! infinite_fresh l) eqn:E; [|done]. destruct (infinite_is_fresh l). by eapply Hm. Qed.
Lemma in_keys {V} (m : gmap Z V) k v : m !! k = Some v → k ∈ (map_to_list m).*1.
Proof. intros Hk. apply list_elem_of_fmap. exists (k, v). by rewrite elem_of_map_to_list. Qed.
Lemma lookup_deletes l : ∀ (m : gmap Z ALData) b, b ∉ l → foldr delete m l !! b = m !! b.
Proof.
  induction l as [|c l IH]; intros m b Hb; [done|]. cbn [foldr]. apply not_elem_of_cons in Hb as [??]. rewrite lookup_delete_ne by done. by apply IH.
Qed.
#[global] Instance sim_laws : OpenALLaws SimAL.
Proof.
  split; cbn [GenSources GenBuffers Sourcef BufferData SourceQueueBuffers SourceUnqueueBuffers SourcePlay SourcePause SourceStop DeleteBuffers sim_al].
  - intros a. do 2 eexists. split; [done|]. split; [apply fresh_key, in_keys|]. split_and!; cbn; [by rewrite lookup_insert_eq| |done].
    intros y Hy. by rewrite lookup_insert_ne.
  - intros a. exists (sim_fresh_buffer a). do 2 eexists. split; [done|].
    split; [apply fresh_key; intros k v Hk; apply elem_of_app; left; by eapply in_keys|]. split.
    + intros x s Hs Hin. apply (infinite_is_fresh ((map_to_list (sim_buffers a)).*1 ++ concat (queued <$> (map_to_list (sim_sources a)).*2))).
      apply elem_of_app. right. apply list_elem_of_In, in_concat. exists (queued s). split; apply list_elem_of_In; [|done].
      apply list_elem_of_fmap. exists s. split; [done|]. apply list_elem_of_fmap. exists (x, s). by rewrite elem_of_map_to_list.
    + split_and!; cbn; [by rewrite lookup_insert_eq| |done]. intros c Hc. by rewrite lookup_insert_ne.
  - intros x v a s Hs. by apply (on_source_now x id).
  - intros b d a [e He] _. cbn in He. rewrite He. eexists. split; [done|]. split_and!; cbn; [by rewrite lookup_insert_eq| |done].
    intros c Hc. by rewrite lookup_insert_ne.
  - intros x b a s d Hs Hb _. cbn in Hb. rewrite Hb. by apply on_source_now.
  - intros x a b q n st Hs. cbn in Hs. rewrite Hs. eexists. split; [done|]. split_and!; cbn; [by rewrite lookup_insert_eq| |done].
    intros y Hy. by rewrite lookup_insert_ne.
  - intros x a s Hs. by apply on_source_now.
  - intros x a s Hs. by apply on_source_now.
  - intros x a s Hs. by apply on_source_now.
  - intros l a _. eexists. split; [done|]. split; [|done]. intros b Hb. cbn. by apply lookup_deletes.
Qed.

Definition keeps_datab (conv : Z → Z) {A} (w : World A) (m : Mem) : bool :=
  forallb (λ '(q, h), negb (is_supported_audio_format (aq_format h)) ||
    forallb (λ g, match decode_guest conv (aq_format h) g m with Ret _ => true | _ => false end) (buffer_queue h)) (map_to_list (audio_queues w)).
Lemma keeps_datab_ok conv {A} (w : World A) m : keeps_datab conv w m = true → keeps_data conv w m.
Proof.
  unfold keeps_datab. rewrite forallb_forall. intros Hb q h Hq Hs g Hg.
  specialize (Hb (q, h)). cbn beta iota in Hb. rewrite Hs in Hb. cbn [negb orb] in Hb. rewrite forallb_forall in Hb.
  assert (Hin : In (q, h) (map_to_list (audio_queues w))) by by apply list_elem_of_In, elem_of_map_to_list.
  specialize (Hb Hin g (proj1 (list_elem_of_In _ _) Hg)). destruct (decode_guest _ _ _ _) as [d|]; [by exists d|done].
Qed.

(** Memory with a format (16-bit stereo) at [fmt]. *)
Definition ex_format : list Z :=
  le_bytes 8 44100 ++ mjoin (le_bytes 4 <$> [kAudioFormatLinearPCM; 12; 4; 1; 4; 2; 16; 0]).
Definition ex_setup : outcome (Z * World SimAL) :=
  m ← Mem_new; m ← set_null_segment_size 4096 m; '(fmt, m) ← alloc_and_write ex_format m;
  Ret (fmt, mkWorld m (mkSim ∅ ∅) ∅ {[7 := []]}).
Definition ret_snd {B C} (d : C) (o : outcome (B * C)) : C := match o with Ret (_, c) => c | _ => d end.
Definition ret_fst {B C} (d : B) (o : outcome (B * C)) : B := match o with Ret (b, _) => b | _ => d end.
Definition ex_none : World SimAL := mkWorld (mkMem ∅ 0 None (mkVMAllocator ∅ (SizeBucketed_new 4096)) true 0) (mkSim ∅ ∅) ∅ ∅.
Definition ex_w0 : World SimAL := ret_snd ex_none ex_setup.
Definition ex_fmt : Z := ret_fst 0 ex_setup.
Definition ex_guest (f : Z) (args : list Z) (w : World SimAL) : outcome (World SimAL) := Ret w.
Definition ex_w1 := ret_snd ex_none (run_mem (NewOutput ex_fmt 100 200 0 7 true false 0 ex_fmt) ex_w0).
Definition ex_q : Z := hd 0 (map_to_list (audio_queues ex_w1)).*1.
Definition ex_w2 := ret_snd ex_none (run_mem (AllocateBuffer false ex_q 8 ex_fmt) ex_w1).
Definition ex_buf : Z := hd 0 (match audio_queues ex_w2 !! ex_q with Some h => aq_buffers h | None => [] end).
(** The app says that the buffer has 8 bytes, enqueues it and starts the queue; OpenAL plays it. *)
Definition ret_or {B} (d : B) (o : outcome B) : B := match o with Ret b => b | _ => d end.
Definition ex_w3 := set_w_mem (ret_or (w_mem ex_none) (write_u32 (ex_buf + 8) 8 (w_mem ex_w2))) ex_w2.
Definition ex_do (o : op) (w : World SimAL) : outcome (World SimAL) := perform id id ex_guest o ex_q w.
Definition ex_w4 := ret_or ex_none (ex_do (Simple (Enqueue ex_buf)) ex_w3).
Definition ex_w5 := ret_or ex_none (ex_do Start ex_w4).
Definition ex_end (s : ALSource) : ALSource := mkSource (queued s) (length (queued s)) AL_STOPPED.
Definition ex_played (w : World SimAL) : World SimAL := set_w_al (mkSim (ex_end <$> sim_sources (w_al w)) (sim_buffers (w_al w))) w.
Definition ex_w6 := ex_played ex_w5.
Definition ex_w7 := ret_or ex_none (ex_do Handle ex_w6).

Lemma sim_plays w : guest_step id id w (ex_played w).
Proof.
  apply step_played. split; [done|]. intros x. cbn [GetSource sim_al sim_sources]. rewrite lookup_fmap. by destruct (sim_sources (w_al w) !! x) as [s|].
Qed.
Lemma ex_step_op o w w' :
  match audio_queues w !! ex_q with Some h => op_enabled id o w h | None => False end → perform id id ex_guest o ex_q w = Ret w' → world_step id id ex_guest w w'.
Proof. destruct (audio_queues w !! ex_q) as [h|] eqn:E; [|done]. intros Hen Ep. eapply step_op; [|exact E|exact Hen|exact Ep]. vm_compute. discriminate. Qed.


(** Priming a queue and resetting it before it was started leaves the OpenAL buffer on the source, since OpenAL does not stop a source
    that was never played: the next priming asserts. *)
Example stop_before_start :
  (w ← ex_do (Simple Prime) ex_w4; w ← ex_do (Simple Reset) w; ex_do (Simple Prime) w) = Panic.
Proof. vm_compute. reflexivity. Qed.
(** A supported format whose buffers cannot be decoded: mono samples of 32 bits. *)
Example mono_32_panics :
  let f := mkFormat 44100 kAudioFormatLinearPCM 12 4 1 4 1 32 in is_supported_audio_format f = true ∧ decode_guest id f ex_buf (w_mem ex_w3) = Panic.
Proof. split; vm_compute; reflexivity. Qed.
