(* ===== verification/RunLoop.v ===== *)
(** * Run loops, timers and notifications ([frameworks/foundation/ns_run_loop.rs], [ns_timer.rs],
      [ns_notification.rs], [ns_notification_center.rs])

    The host objects of these classes, the references they hold, and the autorelease pools that the code makes around
    callbacks.  Messages to the app's objects run guest code, which is an argument, as are the other parts of the
    emulator that a run loop polls.  [f64] values are [spec_float]s, with their arithmetic. *)

From Stdlib Require Import SpecFloat.
From S2P Require Import Prelude.

(** ** Time *)

Abbreviation f64 := spec_float.
Definition f64_one : f64 := S754_finite false 4503599627370496 (-52).
Definition f64_billion : f64 := S754_finite false 8388608000000000 (-23).
(** 0.0001 and 1e15. *)
Definition f64_min_interval : f64 := S754_finite false 7378697629483821 (-66).
Definition f64_long : f64 := S754_finite false 8000000000000000 (-3).
(** [f64::max], [as f64], [/]. *)
Definition f64_max (a b : f64) : f64 :=
  match a, b with
  | S754_nan, _ => b
  | _, S754_nan => a
  | _, _ => if SFltb a b then b else a
  end.
Definition f64_of (n : Z) : f64 := binary_normalize 53 1024 n 0 false.
Definition f64_div : f64 → f64 → f64 := SFdiv 53 1024.

(** Times and durations are in nanoseconds. *)
Definition second : Z := 1000000000.
Definition DURATION_END : Z := 2 ^ 64 * second.
Definition INSTANT_END : Z := 2 ^ 63 * second.
Definition instant_add (t d : Z) : option Z := if t + d <? INSTANT_END then Some (t + d) else None.
Definition duration_mul (d n : Z) : option Z := if d * n <? DURATION_END then Some (d * n) else None.
(** [n / d], rounded to the nearest integer, to an even one when there are two. *)
Definition div_nearest (n d : Z) : Z :=
  let q := n / d in
  let r := n mod d in
  if 2 * r <? d then q else if d <? 2 * r then q + 1 else if Z.even q then q else q + 1.
(** [Duration::from_secs_f64]. *)
Definition from_secs_f64 (secs : f64) : outcome Z :=
  match secs with
  | S754_zero _ => Ret 0
  | S754_finite false m e =>
      let d := if 0 <=? e then Z.pos m * 2 ^ e * second else div_nearest (Z.pos m * second) (2 ^ (- e)) in
      if d <? DURATION_END then Ret d else Panic
  | _ => Panic
  end.
(** [Duration::as_secs_f64]. *)
Definition as_secs_f64 (d : Z) : f64 := SFadd 53 1024 (f64_of (d / second)) (f64_div (f64_of (d mod second)) f64_billion).

Definition safe_duration (secs : f64) : outcome Z :=
  match secs with
  | S754_nan => Ret 0
  | _ =>
      if SFleb secs (S754_zero false) then Ret 0
      else if SFltb f64_long secs then Ret (1000000 * second)
      else from_secs_f64 secs
  end.

(** The smallest integer not below a number. *)
Definition f64_ceil (x : f64) : option Z :=
  match x with
  | S754_zero _ => Some 0
  | S754_finite s m e =>
      let n := if s then Z.neg m else Z.pos m in
      Some (if 0 <=? e then n * 2 ^ e else - ((- n) / 2 ^ (- e)))
  | _ => None
  end.
(** By how many intervals a repeating timer advances: [.max(1.0).ceil()], asserted to be a [u32]. *)
Definition advance_by (overdue_by : Z) (ns_interval : f64) : outcome Z :=
  match f64_ceil (f64_max (f64_div (as_secs_f64 overdue_by) ns_interval) f64_one) with
  | Some n => if (0 <=? n) && (n <? 2 ^ 32) then Ret n else Panic
  | None => Panic
  end.

(** ** Host objects *)

Record NSTimerHostObject := mkTimer {
  ns_interval : f64; rust_interval : Z; tm_target : Z; tm_selector : Z; tm_user_info : Z; repeats : bool;
  tm_due_by : option Z; is_running_callback : bool; tm_run_loop : Z }.
Definition set_due_by (d : option Z) (t : NSTimerHostObject) : NSTimerHostObject :=
  mkTimer (ns_interval t) (rust_interval t) (tm_target t) (tm_selector t) (tm_user_info t) (repeats t) d (is_running_callback t) (tm_run_loop t).
Definition set_running_callback (b : bool) (t : NSTimerHostObject) : NSTimerHostObject :=
  mkTimer (ns_interval t) (rust_interval t) (tm_target t) (tm_selector t) (tm_user_info t) (repeats t) (tm_due_by t) b (tm_run_loop t).
Definition set_tm_run_loop (l : Z) (t : NSTimerHostObject) : NSTimerHostObject :=
  mkTimer (ns_interval t) (rust_interval t) (tm_target t) (tm_selector t) (tm_user_info t) (repeats t) (tm_due_by t) (is_running_callback t) l.
Definition set_intervals (f : f64) (d : Z) (t : NSTimerHostObject) : NSTimerHostObject :=
  mkTimer f d (tm_target t) (tm_selector t) (tm_user_info t) (repeats t) (tm_due_by t) (is_running_callback t) (tm_run_loop t).

Record ObjectSelectorSource := mkOss { oss_target : Z; oss_selector : Z; oss_argument : Z; oss_due_by : option Z; oss_semaphore : Z }.
Record NSRunLoopHostObject := mkLoop { audio_units : list Z; rl_audio_queues : list Z; selector_objects : list ObjectSelectorSource; timers : list Z }.
Definition set_selector_objects (x : list ObjectSelectorSource) (l : NSRunLoopHostObject) : NSRunLoopHostObject :=
  mkLoop (audio_units l) (rl_audio_queues l) x (timers l).
Definition set_timers (x : list Z) (l : NSRunLoopHostObject) : NSRunLoopHostObject := mkLoop (audio_units l) (rl_audio_queues l) (selector_objects l) x.
Definition set_audio_units (x : list Z) (l : NSRunLoopHostObject) : NSRunLoopHostObject := mkLoop x (rl_audio_queues l) (selector_objects l) (timers l).

Record NSNotificationHostObject := mkNote { nt_name : Z; nt_object : Z; nt_user_info : Z }.
Record Observer := mkObserver { ob_observer : Z; ob_selector : Z; ob_object : Z }.
Abbreviation Observers := (gmap (option (list Z)) (list Observer)).

Inductive HostObj := TimerObj (t : NSTimerHostObject) | NoteObj (n : NSNotificationHostObject) | CenterObj (o : Observers) | PlainObj.

(** The objects with their reference counts; objects that are not counted (classes and run loops); the run loops; the
    autorelease pools of the thread, the newest first; how often the clock was read; the semaphores posted. *)
Record Rt := mkRt {
  objs : gmap Z (Z * HostObj); statics : gset Z; run_loops : gmap Z NSRunLoopHostObject; pools : list (list Z); ticks : nat; posted : list Z }.
Definition set_objs (x : gmap Z (Z * HostObj)) (w : Rt) : Rt := mkRt x (statics w) (run_loops w) (pools w) (ticks w) (posted w).
Definition put_loop (l : Z) (x : NSRunLoopHostObject) (w : Rt) : Rt := mkRt (objs w) (statics w) (<[l := x]> (run_loops w)) (pools w) (ticks w) (posted w).
Definition set_rl_pools (x : list (list Z)) (w : Rt) : Rt := mkRt (objs w) (statics w) (run_loops w) x (ticks w) (posted w).
Definition set_ticks (x : nat) (w : Rt) : Rt := mkRt (objs w) (statics w) (run_loops w) (pools w) x (posted w).
Definition rl_sem_post (s : Z) (w : Rt) : Rt := mkRt (objs w) (statics w) (run_loops w) (pools w) (ticks w) (posted w ++ [s]).
Definition put_obj (o n : Z) (h : HostObj) (w : Rt) : Rt := set_objs (<[o := (n, h)]> (objs w)) w.

Definition borrow_timer (o : Z) (w : Rt) : outcome (Z * NSTimerHostObject) :=
  match objs w !! o with Some (n, TimerObj t) => Ret (n, t) | _ => Panic end.
Definition borrow_note (o : Z) (w : Rt) : outcome NSNotificationHostObject := match objs w !! o with Some (_, NoteObj n) => Ret n | _ => Panic end.
Definition borrow_center (o : Z) (w : Rt) : outcome (Z * Observers) := match objs w !! o with Some (n, CenterObj c) => Ret (n, c) | _ => Panic end.
Definition borrow_loop (l : Z) (w : Rt) : outcome NSRunLoopHostObject := unwrap (run_loops w !! l).
Definition change_timer (o : Z) (f : NSTimerHostObject → NSTimerHostObject) (w : Rt) : outcome Rt :=
  '(n, t) ← borrow_timer o w; Ret (put_obj o n (TimerObj (f t)) w).

Section foundation.
(** The readings of the clock; addresses of new objects; the order in which a hash map's values come. *)
Context (clock : nat → Z) (fresh_id : Rt → Z) (values : Observers → list (list Observer)).
(** A message to an object of the app. *)
Context (send : Z → Z → list Z → Rt → outcome Rt).

Definition instant_now (w : Rt) : Z * Rt := (clock (ticks w), set_ticks (S (ticks w)) w).

(** ** References *)

Definition uncounted (o : Z) (w : Rt) : bool := (o =? 0) || bool_decide (o ∈ statics w).
Definition rl_retain (o : Z) (w : Rt) : outcome Rt :=
  if uncounted o w then Ret w
  else '(n, h) ← unwrap (objs w !! o); n ← u32 (n + 1); Ret (put_obj o n h w).
(** What [dealloc] of an object releases. *)
Definition obj_refs (h : HostObj) : list Z :=
  match h with
  | TimerObj t => [tm_target t; tm_user_info t]
  | NoteObj n => [nt_name n; nt_object n; nt_user_info n]
  | CenterObj c => ob_object <$> mjoin (values c)
  | PlainObj => []
  end.
(** An object that is deallocated is gone: releases nest at most as deep as there are objects. *)
Fixpoint rl_release_rec (fuel : nat) (o : Z) (w : Rt) : outcome Rt :=
  match fuel with
  | O => Panic
  | S fuel =>
      if uncounted o w then Ret w
      else
        '(n, h) ← unwrap (objs w !! o);
        if 1 <? n then Ret (put_obj o (n - 1) h w)
        else for_each (rl_release_rec fuel) (obj_refs h) (set_objs (delete o (objs w)) w)
  end.
Definition rl_release (o : Z) (w : Rt) : outcome Rt := rl_release_rec (S (size (objs w))) o w.
Definition rl_alloc (h : HostObj) (w : Rt) : outcome (Z * Rt) :=
  let o := fresh_id w in
  rassert (negb (uncounted o w) && bool_decide (objs w !! o = None));; Ret (o, put_obj o 1 h w).
Definition rl_autorelease (o : Z) (w : Rt) : Rt :=
  match pools w with p :: ps => set_rl_pools ((p ++ [o]) :: ps) w | [] => w end.
(** [[NSAutoreleasePool new]]: the pool is known by how many there were before it. *)
Definition rl_pool_new (w : Rt) : nat * Rt := (length (pools w), set_rl_pools ([] :: pools w) w).
(** The pool and those made after it are emptied. *)
Definition rl_pool_release (depth : nat) (w : Rt) : outcome Rt :=
  let n := (length (pools w) - depth)%nat in
  for_each rl_release (mjoin (take n (pools w))) (set_rl_pools (drop n (pools w)) w).

(** ** Run loops *)

Definition remove_audio_unit (l unit : Z) (w : Rt) : outcome (bool * Rt) :=
  r ← borrow_loop l w;
  match fst <$> list_find (unit =.) (audio_units r) with
  | Some i => Ret (true, put_loop l (set_audio_units (delete i (audio_units r)) r) w)
  | None => Ret (false, w)
  end.
Definition add_audio_unit (l unit : Z) (w : Rt) : outcome Rt := r ← borrow_loop l w; Ret (put_loop l (set_audio_units (audio_units r ++ [unit]) r) w).

Definition set_run_loop (timer l : Z) (w : Rt) : outcome Rt :=
  '(n, t) ← borrow_timer timer w;
  rassert (tm_run_loop t =? 0);;
  Ret (put_obj timer n (TimerObj (set_tm_run_loop l t)) w).
(** [mode_ok]: the mode is the default or the common modes. *)
Definition addTimer_forMode (this timer : Z) (mode_ok : bool) (w : Rt) : outcome Rt :=
  rassert mode_ok;;
  w ← rl_retain timer w;
  r ← borrow_loop this w;
  rassert (negb (bool_decide (timer ∈ timers r)));;
  set_run_loop timer this (put_loop this (set_timers (timers r ++ [timer]) r) w).

(** The loops that go over a vector from its start and [swap_remove] the elements with [p]. *)
Fixpoint swap_remove_where {X} (p : X → bool) (fuel i : nat) (l removed : list X) : outcome (list X * list X) :=
  match fuel with
  | O => Panic
  | S fuel =>
      match l !! i with
      | None => Ret (l, removed)
      | Some x =>
          if p x then '(x, l) ← swap_remove i l; swap_remove_where p fuel i l (removed ++ [x])
          else swap_remove_where p fuel (S i) l removed
      end
  end.
Definition remove_timer (l timer : Z) (w : Rt) : outcome Rt :=
  r ← borrow_loop l w;
  '(ts, removed) ← swap_remove_where (Z.eqb timer) (S (length (timers r))) 0 (timers r) [];
  let w := put_loop l (set_timers ts r) w in
  rassert (length removed =? 1)%nat;;
  for_each (λ _, rl_release timer) removed w.

(** [semaphore]: the one made for a caller that waits, or null. *)
Definition add_perform_request (l target selector argument : Z) (delay : option f64) (semaphore : Z) (w : Rt) : outcome Rt :=
  w ← rl_retain target w;
  w ← rl_retain argument w;
  r ← borrow_loop l w;
  '(due_by, w) ←
    (match delay with
     | None => Ret (None, w)
     | Some dur =>
         let '(now, w) := instant_now w in
         d ← from_secs_f64 (f64_max dur (S754_zero false));
         t ← unwrap (instant_add now d);
         Ret (Some t, w)
     end);
  Ret (put_loop l (set_selector_objects (selector_objects r ++ [mkOss target selector argument due_by semaphore]) r) w).

(** A request is dropped: its references are released, and who waits for it is woken. *)
Definition finish_request (o : ObjectSelectorSource) (w : Rt) : outcome Rt :=
  w ← rl_release (oss_target o) w;
  w ← rl_release (oss_argument o) w;
  Ret (if oss_semaphore o =? 0 then w else rl_sem_post (oss_semaphore o) w).

Section cancelling.
(** [isEqual:] *)
Context (isEqual : Z → Z → Rt → outcome (bool * Rt)).
Fixpoint cancel_loop (target selector argument : Z) (l : list ObjectSelectorSource) (w : Rt) : outcome (list ObjectSelectorSource * Rt) :=
  match l with
  | [] => Ret ([], w)
  | o :: l =>
      if negb (oss_target o =? target) || negb (oss_selector o =? selector) then
        '(rest, w) ← cancel_loop target selector argument l w; Ret (o :: rest, w)
      else
        '(eq, w) ← (if oss_argument o =? 0 then Ret (argument =? 0, w) else isEqual (oss_argument o) argument w);
        if eq : bool then w ← finish_request o w; cancel_loop target selector argument l w
        else '(rest, w) ← cancel_loop target selector argument l w; Ret (o :: rest, w)
  end.
Definition cancel_perform_requests (l target selector argument : Z) (w : Rt) : outcome Rt :=
  r ← borrow_loop l w;
  '(rest, w) ← cancel_loop target selector argument (selector_objects r) (put_loop l (set_selector_objects [] r) w);
  r ← borrow_loop l w;
  Ret (put_loop l (set_selector_objects rest r) w).
End cancelling.

(** ** Timers *)

Definition timer_alloc : Rt → outcome (Z * Rt) := rl_alloc (TimerObj (mkTimer (S754_zero false) 0 0 0 0 false None false 0)).
Definition timerWithTimeInterval (interval : f64) (target selector user_info : Z) (rep : bool) (w : Rt) : outcome (Z * Rt) :=
  let interval := f64_max interval f64_min_interval in
  rust_interval ← safe_duration interval;
  w ← rl_retain target w;
  w ← rl_retain user_info w;
  let '(now, w) := instant_now w in
  due ← unwrap (instant_add now rust_interval);
  '(new, w) ← rl_alloc (TimerObj (mkTimer interval rust_interval target selector user_info rep (Some due) false 0)) w;
  Ret (new, rl_autorelease new w).
Definition scheduledTimerWithTimeInterval (current_run_loop : Z) (interval : f64) (target selector user_info : Z) (rep : bool) (w : Rt) : outcome (Z * Rt) :=
  '(timer, w) ← timerWithTimeInterval interval target selector user_info rep w;
  w ← addTimer_forMode current_run_loop timer true w;
  Ret (timer, w).
(** [until]: what [timeIntervalSinceNow] gives for the date, or nothing for [nil]. *)
Definition initWithFireDate (this : Z) (until : option f64) (interval : f64) (target selector user_info : Z) (rep : bool) (w : Rt) : outcome Rt :=
  let interval := f64_max interval f64_min_interval in
  rust_interval ← safe_duration interval;
  w ← rl_retain target w;
  w ← rl_retain user_info w;
  let '(now, w) := instant_now w in
  d ← safe_duration (default (S754_zero false) until);
  change_timer this (λ t, mkTimer interval rust_interval target selector user_info rep (instant_add now d) (is_running_callback t) (tm_run_loop t)) w.
Definition timeInterval (this : Z) (w : Rt) : outcome f64 := '(_, t) ← borrow_timer this w; Ret (if repeats t then ns_interval t else S754_zero false).
Definition timer_userInfo (this : Z) (w : Rt) : outcome Z := '(_, t) ← borrow_timer this w; Ret (tm_user_info t).
Definition isValid (this : Z) (w : Rt) : outcome bool := '(_, t) ← borrow_timer this w; Ret (bool_decide (is_Some (tm_due_by t))).
Definition invalidate (this : Z) (w : Rt) : outcome Rt :=
  '(n, t) ← borrow_timer this w;
  let w := put_obj this n (TimerObj (set_due_by None t)) w in
  if decide (is_Some (tm_due_by t)) then remove_timer (tm_run_loop t) this w else Ret w.
Definition fire (this : Z) (w : Rt) : outcome Rt :=
  '(_, t) ← borrow_timer this w;
  let '(pool, w) := rl_pool_new w in
  w ← send (tm_target t) (tm_selector t) [this] w;
  w ← rl_pool_release pool w;
  if repeats t then Ret w else invalidate this w.
Definition set_time_interval (timer : Z) (interval : f64) (w : Rt) : outcome Rt :=
  '(_, _) ← borrow_timer timer w;
  d ← safe_duration interval;
  change_timer timer (set_intervals interval d) w.

(** When a timer that is due at [due] and handled at [now] is due again. *)
Definition next_due (t : NSTimerHostObject) (due now : Z) : outcome Z :=
  n ← advance_by (now - due) (ns_interval t);
  d ← unwrap (duration_mul (rust_interval t) n);
  unwrap (instant_add due d).
Definition handle_timer (timer : Z) (w : Rt) : outcome (option Z * Rt) :=
  '(_, t) ← borrow_timer timer w;
  if is_running_callback t then Ret (None, w)
  else
    match tm_due_by t with
    | None => Ret (None, w)
    | Some due =>
        let '(now, w) := instant_now w in
        if now <? due then Ret (Some due, w)
        else
          w ← rl_retain timer w;
          '(new_due_by, w) ←
            (if repeats t then d ← next_due t due now; Ret (Some d, w)
             else w ← remove_timer (tm_run_loop t) timer w; Ret (None, w));
          w ← change_timer timer (set_due_by new_due_by) w;
          w ← change_timer timer (set_running_callback true) w;
          let '(pool, w) := rl_pool_new w in
          w ← send (tm_target t) (tm_selector t) [timer] w;
          w ← change_timer timer (set_running_callback false) w;
          w ← rl_release timer w;
          w ← rl_pool_release pool w;
          Ret (new_due_by, w)
    end.

(** ** Running *)

Definition limit_sleep_time (current new : option Z) : option Z :=
  match new with
  | Some n => Some (match current with Some c => Z.min c n | None => n end)
  | None => current
  end.

(** The timers of a pass: each was retained. *)
Fixpoint handle_timers (l : list Z) (sleep : option Z) (w : Rt) : outcome (option Z * Rt) :=
  match l with
  | [] => Ret (sleep, w)
  | timer :: l =>
      '(next_due, w) ← handle_timer timer w;
      w ← rl_release timer w;
      handle_timers l (limit_sleep_time sleep next_due) w
  end.

(** The first request that is due; the clock is read for every request that has a time. *)
Fixpoint find_due (l : list ObjectSelectorSource) (w : Rt) : option nat * Rt :=
  match l with
  | [] => (None, w)
  | o :: l =>
      let '(due, w) := (match oss_due_by o with
                        | None => (true, w)
                        | Some d => let '(now, w) := instant_now w in (d <=? now, w)
                        end) in
      if due : bool then (Some O, w) else let '(r, w) := find_due l w in (S <$> r, w)
  end.

(** [takes_argument]: the selector's name ends with a colon. *)
Context (takes_argument : Z → bool).
Definition run_request (o : ObjectSelectorSource) (w : Rt) : outcome Rt :=
  w ← (if takes_argument (oss_selector o) then send (oss_target o) (oss_selector o) [oss_argument o] w
       else rassert (oss_argument o =? 0);; send (oss_target o) (oss_selector o) [] w);
  finish_request o w.
(** The loop over the requests; nothing when it does not end within [fuel] steps. *)
Fixpoint run_requests (fuel : nat) (l : Z) (sleep : option Z) (w : Rt) : outcome (option (option Z * Rt)) :=
  match fuel with
  | O => Ret None
  | S fuel =>
      r ← borrow_loop l w;
      let '(to_run, w) := find_due (selector_objects r) w in
      match to_run with
      | Some index =>
          o ← unwrap (selector_objects r !! index);
          let w := put_loop l (set_selector_objects (delete index (selector_objects r)) r) w in
          w ← run_request o w;
          run_requests fuel l sleep w
      | None => Ret (Some (foldl limit_sleep_time sleep (oss_due_by <$> selector_objects r), w))
      end
  end.

(** The parts of the emulator that are polled, and sleeping. *)
Context (commit_implicit_transaction handle_players : Rt → outcome Rt) (handle_events recomposite_if_necessary : Rt → outcome (option Z * Rt)).
Context (poll_audio_queue poll_audio_unit : Z → Rt → outcome Rt) (env_sleep : Z → Rt → outcome Rt).
Definition POLL_LIMIT : Z := 16000000.
Definition run_loop_pass (fuel : nat) (l : Z) (is_main : bool) (w : Rt) : outcome (option Rt) :=
  w ← commit_implicit_transaction w;
  '(sleep, w) ←
    (if is_main then
       '(d1, w) ← handle_events w;
       '(d2, w) ← recomposite_if_necessary w;
       Ret (limit_sleep_time (limit_sleep_time None d1) d2, w)
     else Ret (None, w));
  r ← borrow_loop l w;
  w ← for_each rl_retain (timers r) w;
  '(sleep, w) ← handle_timers (timers r) sleep w;
  r ← borrow_loop l w;
  w ← for_each poll_audio_queue (rl_audio_queues r) w;
  r ← borrow_loop l w;
  w ← for_each poll_audio_unit (audio_units r) w;
  x ← run_requests fuel l sleep w;
  match x with
  | None => Ret None
  | Some (sleep, w) =>
      w ← (if is_main then handle_players w else Ret w);
      match sleep with
      | None => w ← env_sleep POLL_LIMIT w; Ret (Some w)
      | Some t =>
          let '(now, w) := instant_now w in
          w ← env_sleep (Z.min (Z.max 0 (t - now)) POLL_LIMIT) w; Ret (Some w)
      end
  end.
(** [past_limit]: whether the wall clock is past the limit, when there is one. *)
Context (past_limit : Rt → bool).
Fixpoint run_run_loop (passes fuel : nat) (l : Z) (is_main single_iteration : bool) (w : Rt) : outcome (option Rt) :=
  match passes with
  | O => Ret None
  | S passes =>
      x ← run_loop_pass fuel l is_main w;
      match x with
      | None => Ret None
      | Some w => if single_iteration || past_limit w then Ret (Some w) else run_run_loop passes fuel l is_main single_iteration w
      end
  end.

(** ** Notifications *)

(** [copy]: the message to the user info. *)
Context (copy : Z → Rt → outcome (Z * Rt)).
Definition initWithName (this name object user_info : Z) (w : Rt) : outcome Rt :=
  w ← rl_retain name w;
  w ← rl_retain object w;
  '(user_info, w) ← (if user_info =? 0 then Ret (0, w) else copy user_info w);
  match objs w !! this with
  | Some (n, NoteObj _) => Ret (put_obj this n (NoteObj (mkNote name object user_info)) w)
  | _ => Panic
  end.
(** [string_of]: [to_rust_string]. *)
Context (string_of : Z → Rt → list Z).
Definition name_of (name : Z) (w : Rt) : option (list Z) := if name =? 0 then None else Some (string_of name w).
Definition addObserver (this observer selector name object : Z) (w : Rt) : outcome Rt :=
  let key := name_of name w in
  w ← rl_retain object w;
  '(n, c) ← borrow_center this w;
  Ret (put_obj this n (CenterObj (<[key := default [] (c !! key) ++ [mkObserver observer selector object]]> c)) w).
Definition observer_matches (observer object : Z) (o : Observer) : bool := (ob_observer o =? observer) && ((object =? 0) || (object =? ob_object o)).
Definition remove_observers_internal (observers removed : list Observer) (observer object : Z) : outcome (list Observer * list Observer) :=
  swap_remove_where (observer_matches observer object) (S (length observers)) 0 observers removed.
(** Over all names, in the order of the hash map. *)
Fixpoint remove_from_all (keys : list (option (list Z))) (observer object : Z) (c : Observers) (removed : list Observer) : outcome (Observers * list Observer) :=
  match keys with
  | [] => Ret (c, removed)
  | k :: keys =>
      '(l, removed) ← remove_observers_internal (default [] (c !! k)) removed observer object;
      remove_from_all keys observer object (<[k := l]> c) removed
  end.
Context (keys : Observers → list (option (list Z))).
Definition removeObserver_name_object (this observer name object : Z) (w : Rt) : outcome Rt :=
  rassert (negb (observer =? 0));;
  let key := name_of name w in
  '(n, c) ← borrow_center this w;
  match key with
  | Some _ =>
      match c !! key with
      | None => Ret w
      | Some l =>
          '(l, removed) ← remove_observers_internal l [] observer object;
          for_each (λ o, rl_release (ob_object o)) removed (put_obj this n (CenterObj (<[key := l]> c)) w)
      end
  | None =>
      '(c, removed) ← remove_from_all (keys c) observer object c [];
      for_each (λ o, rl_release (ob_object o)) removed (put_obj this n (CenterObj c) w)
  end.
Definition removeObserver (this observer : Z) : Rt → outcome Rt := removeObserver_name_object this observer 0 0.

(** An observer that is interested in the poster gets the message, and is retained for its time. *)
Definition notify (notification poster : Z) (o : Observer) (w : Rt) : outcome Rt :=
  if negb (ob_object o =? 0) && negb (poster =? ob_object o) then Ret w
  else
    w ← rl_retain (ob_observer o) w;
    w ← send (ob_observer o) (ob_selector o) [notification] w;
    rl_release (ob_observer o) w.
Definition postNotification (this notification : Z) (w : Rt) : outcome Rt :=
  n ← borrow_note notification w;
  let name := string_of (nt_name n) w in
  '(_, c) ← borrow_center this w;
  let observers := default [] (c !! Some name) ++ default [] (c !! None) in
  for_each (notify notification (nt_object n)) observers w.
Definition postNotificationName (this name object user_info : Z) (w : Rt) : outcome Rt :=
  '(notification, w) ← rl_alloc (NoteObj (mkNote 0 0 0)) w;
  w ← initWithName notification name object user_info w;
  w ← postNotification this notification w;
  rl_release notification w.
End foundation.
