(* ===== verification/RunLoopFacts.v ===== *)
(** * References and timers are in order

    The invariant of run loops and timers: every reference that a host object, a run loop, an autorelease pool or the
    running host code holds is counted; the timers of a run loop are distinct and its own; a valid timer that was
    scheduled is in its run loop.  Each operation keeps it. *)

From Stdlib Require Import SpecFloat.
From S2P Require Import Prelude RunLoop.

(** ** Repeating timers do not drift *)

Lemma ceil_at_least_one x n : f64_ceil (f64_max x f64_one) = Some n → 1 ≤ n.
Proof.
  assert (H1 : ∀ n, f64_ceil f64_one = Some n → 1 ≤ n) by (intros k Hk; vm_compute in Hk; injection Hk as <-; lia).
  destruct x as [s|s| |s m e]; cbn [f64_max f64_one]; [by apply H1| |by apply H1|].
  - destruct s; [by apply H1|done].
  - destruct (SFltb _ _) eqn:E; [by apply H1|]. destruct s; [vm_compute in E; discriminate|]. cbn [f64_ceil]. intros [= <-].
    destruct (Z.leb_spec 0 e) as [He|He].
    + pose proof (Z.pow_pos_nonneg 2 e). nia.
    + assert (0 < 2 ^ (- e)) by (apply Z.pow_pos_nonneg; lia). assert (- Z.pos m / 2 ^ (- e) < 0) by (apply Z.div_lt_upper_bound; lia). lia.
Qed.
Lemma next_due_spec t due now d : next_due t due now = Ret d → ∃ k, 1 ≤ k < 2 ^ 32 ∧ d = due + rust_interval t * k.
Proof.
  unfold next_due, advance_by. destruct (f64_ceil _) as [n|] eqn:En; [|done]. pose proof (ceil_at_least_one _ _ En).
  destruct ((0 <=? n) && (n <? 2 ^ 32)) eqn:Eb; [|done]. apply andb_true_iff in Eb as [_ ?%Z.ltb_lt]. cbn [mbind outcome_bind].
  unfold duration_mul, instant_add. destruct (_ <? _); [|done]. cbn [unwrap mbind outcome_bind]. destruct (_ <? _); [|done]. intros [= <-]. by exists n.
Qed.
(** What [handle_timer] says about when the timer is due next. *)
Definition timer_next (t : NSTimerHostObject) (now : Z) : outcome (option Z) :=
  if is_running_callback t then Ret None
  else match tm_due_by t with
       | None => Ret None
       | Some due => if now <? due then Ret (Some due) else if repeats t then d ← next_due t due now; Ret (Some d) else Ret None
       end.

(** ** References as lists *)

Abbreviation cnt o l := (count_occ Z.eq_dec l o).
Lemma cnt_app o l k : cnt o (l ++ k) = (cnt o l + cnt o k)%nat.
Proof. apply count_occ_app. Qed.
Lemma cnt_cons o x l : cnt o (x :: l) = ((if decide (x = o) then 1 else 0) + cnt o l)%nat.
Proof. simpl. destruct (Z.eq_dec x o), (decide (x = o)); done. Qed.
#[global] Instance cnt_perm : Proper ((≡ₚ) ==> (=) ==> (=)) (count_occ Z.eq_dec).
Proof. intros l k Hp o ? <-. by apply (Permutation_count_occ Z.eq_dec). Qed.
Lemma cnt_in o l : o ∈ l → (0 < cnt o l)%nat.
Proof. intros Ho. by apply count_occ_In, list_elem_of_In. Qed.

(** What the values of a map hold. *)
Definition total {K V} `{Countable K} (g : V → list Z) (m : gmap K V) : list Z := mjoin (g <$> (map_to_list m).*2).
#[global] Instance total_mjoin_perm : Proper ((≡ₚ) ==> (≡ₚ)) (mjoin : list (list Z) → list Z).
Proof. intros l k Hp. induction Hp; simpl; [done|by f_equiv|by rewrite !app_assoc, (Permutation_app_comm y)|by etrans]. Qed.
Section total.
Context {K V : Type} `{Countable K} (g : V → list Z).
Lemma total_insert_new (m : gmap K V) k v : m !! k = None → total g (<[k := v]> m) ≡ₚ g v ++ total g m.
Proof. intros Hk. unfold total. by rewrite (map_to_list_insert _ _ _ Hk). Qed.
Lemma total_delete (m : gmap K V) k v : m !! k = Some v → total g m ≡ₚ g v ++ total g (delete k m).
Proof. intros Hk. rewrite <-(insert_delete_id m k v Hk) at 1. apply total_insert_new, lookup_delete_eq. Qed.
Lemma total_insert (m : gmap K V) k v v' : m !! k = Some v → g v ++ total g (<[k := v']> m) ≡ₚ g v' ++ total g m.
Proof.
  intros Hk. rewrite (total_delete m k v Hk), <-insert_delete_eq, (total_insert_new (delete k m)) by apply lookup_delete_eq.
  by rewrite Permutation_app_swap_app.
Qed.
Lemma total_same (m : gmap K V) k v v' : m !! k = Some v → g v' ≡ₚ g v → total g (<[k := v']> m) ≡ₚ total g m.
Proof. intros Hk Hg. pose proof (total_insert m k v v' Hk) as Hp. rewrite Hg in Hp. by apply Permutation_app_inv_l in Hp. Qed.
Lemma total_in (m : gmap K V) k v o : m !! k = Some v → o ∈ g v → o ∈ total g m.
Proof. intros Hk Ho. rewrite (total_delete m k v Hk). apply elem_of_app. by left. Qed.
End total.

(** ** [swap_remove_where] *)

Lemma swap_remove_where_spec {X} (p : X → bool) fuel : ∀ i l removed,
  (i ≤ length l < fuel + i)%nat → (∀ j x, (j < i)%nat → l !! j = Some x → p x = false) →
  ∃ l' r, swap_remove_where p fuel i l removed = Ret (l', removed ++ r) ∧ l ≡ₚ r ++ l' ∧ Forall (λ x, p x = true) r ∧ Forall (λ x, p x = false) l'.
Proof.
  induction fuel as [|fuel IH]; intros i l removed Hf Hd; cbn [swap_remove_where].
  - lia.
  - destruct (l !! i) as [x|] eqn:Hi.
    + destruct (p x) eqn:Hp.
      * destruct (swap_remove_spec i l x Hi) as (l' & E & Hl'). rewrite E. cbn [mbind outcome_bind]. pose proof (Permutation_length Hl') as Hlen. simpl in Hlen.
        pose proof (lookup_lt_Some _ _ _ Hi). destruct (IH i l' (removed ++ [x])) as (l2 & r & E2 & Hp2 & Hr & Hl2); [lia| |].
        { intros j y Hj Hy. apply (Hd j y Hj). revert E Hy. unfold swap_remove. rewrite Hi. cbn [unwrap mbind outcome_bind].
          destruct (last l) as [z|]; [|done]. cbn [unwrap mbind outcome_bind]. intros [= <-].
          rewrite lookup_take_Some. intros [Hy _]. by rewrite list_lookup_insert_ne in Hy by lia. }
        exists l2, (x :: r). rewrite E2, <-app_assoc. split_and!; [done| |by apply List.Forall_cons|done]. by rewrite Hl', Hp2.
      * pose proof (lookup_lt_Some _ _ _ Hi). destruct (IH (S i) l removed) as (l2 & r & E2 & Hp2 & Hr & Hl2); [lia| |by exists l2, r].
        intros j y Hj Hy. destruct (decide (j = i)) as [->|]; [congruence|]. apply (Hd j); [lia|done].
    + exists l, []. rewrite app_nil_r. split_and!; try done. apply Forall_lookup. intros j x Hj. apply (Hd j); [|done].
      pose proof (lookup_lt_Some _ _ _ Hj). pose proof (lookup_ge_None_1 _ _ Hi). lia.
Qed.

(** ** The invariant *)

Section facts.
Context (clock : nat → Z) (fresh_id : Rt → Z) (values : Observers → list (list Observer)).
Hypothesis values_perm : ∀ c, values c ≡ₚ (map_to_list c).*2.
Implicit Types (w : Rt) (held ex : list Z).

Definition loop_refs (r : NSRunLoopHostObject) : list Z := timers r ++ mjoin ((λ o, [oss_target o; oss_argument o]) <$> selector_objects r).
Definition entry_refs (e : Z * HostObj) : list Z := obj_refs values e.2.
Definition internal (w : Rt) : list Z := total entry_refs (objs w) ++ total loop_refs (run_loops w) ++ mjoin (pools w).

(** [held]: references of the running host code; [ex]: timers that are just taken off their loop. *)
Record rl_ok (ex held : list Z) (w : Rt) : Prop := {
  ok_count o : uncounted o w = false →
    match objs w !! o with Some (n, _) => 1 ≤ n ∧ Z.of_nat (cnt o (held ++ internal w)) ≤ n | None => cnt o (held ++ internal w) = 0%nat end;
  ok_static o : uncounted o w = true → objs w !! o = None;
  ok_loop l r : run_loops w !! l = Some r → l ≠ 0 ∧ l ∈ statics w ∧ NoDup (timers r) ∧
    ∀ t, t ∈ timers r → ∃ n tm, objs w !! t = Some (n, TimerObj tm) ∧ tm_run_loop tm = l;
  ok_timer t n tm : objs w !! t = Some (n, TimerObj tm) → t ∉ ex → is_Some (tm_due_by tm) → tm_run_loop tm ≠ 0 →
    ∃ r, run_loops w !! tm_run_loop tm = Some r ∧ t ∈ timers r }.

Lemma ok_alive ex held w o : rl_ok ex held w → o ∈ held ++ internal w → uncounted o w = false → is_Some (objs w !! o).
Proof.
  intros Hok Ho Hu. pose proof (ok_count _ _ _ Hok o Hu) as Hc. destruct (objs w !! o); [done|]. apply cnt_in in Ho. lia.
Qed.

(** References move between the host code and the objects. *)
Lemma ok_move ex held held' w : rl_ok ex held w → (∀ o, uncounted o w = false → cnt o (held' ++ internal w) = cnt o (held ++ internal w)) → rl_ok ex held' w.
Proof. intros Hok Hc. split; try apply Hok. intros o Hu. rewrite Hc by done. by apply Hok. Qed.
Lemma ok_perm ex held held' w : rl_ok ex held w → held ≡ₚ held' → rl_ok ex held' w.
Proof. intros Hok Hp. apply (ok_move _ held); [done|]. intros o _. by rewrite Hp. Qed.

(** An object changes: its count, what it holds, and what the host code holds. *)
Lemma ok_put_obj ex ex' held held' w o n h n' h' :
  rl_ok ex held w → objs w !! o = Some (n, h) → 1 ≤ n' →
  (∀ x, uncounted x w = false →
    Z.of_nat (cnt x (held' ++ obj_refs values h')) ≤ Z.of_nat (cnt x (held ++ obj_refs values h)) + (if decide (x = o) then n' - n else 0)) →
  (∀ tm, h = TimerObj tm → ∃ tm', h' = TimerObj tm' ∧ (tm_run_loop tm' = tm_run_loop tm ∨ ∀ r, run_loops w !! tm_run_loop tm = Some r → o ∉ timers r)) →
  (∀ tm', h' = TimerObj tm' → o ∉ ex' → is_Some (tm_due_by tm') → tm_run_loop tm' ≠ 0 → ∃ r, run_loops w !! tm_run_loop tm' = Some r ∧ o ∈ timers r) →
  (∀ x, x ∈ ex → x = o ∨ x ∈ ex') → rl_ok ex' held' (put_obj o n' h' w).
Proof.
  intros Hok Ho Hn Hc Ht Hv Hex. pose proof (total_insert entry_refs (objs w) o (n, h) (n', h') Ho) as Hp. split; cbn [put_obj set_objs objs run_loops statics pools].
  - intros x Hu. change (uncounted x (put_obj o n' h' w)) with (uncounted x w) in Hu. specialize (Hc x Hu). pose proof (ok_count _ _ _ Hok x Hu) as Hx.
    apply (Permutation_count_occ Z.eq_dec) with (x := x) in Hp. unfold internal in *. cbn [objs run_loops pools set_objs put_obj] in *. rewrite !cnt_app in *.
    unfold entry_refs at 1 3 in Hp. cbn [snd] in Hp. destruct (decide (x = o)) as [->|].
    + rewrite lookup_insert_eq. rewrite Ho in Hx. lia.
    + rewrite lookup_insert_ne by done. destruct (objs w !! x) as [[m ?]|]; lia.
  - intros x Hu. change (uncounted x (put_obj o n' h' w)) with (uncounted x w) in Hu. pose proof (ok_static _ _ _ Hok x Hu) as Hx.
    rewrite lookup_insert_ne by congruence. done.
  - intros l r Hr. destruct (ok_loop _ _ _ Hok l r Hr) as (Hl0 & Hls & Hnd & Hts). split_and!; try done. intros t Hin.
    destruct (Hts t Hin) as (m & tm & Htm & Hrl). destruct (decide (t = o)) as [->|]; [|exists m, tm; by rewrite lookup_insert_ne].
    simplify_eq. destruct (Ht tm eq_refl) as (tm' & -> & [Hrl'|Hno]); [|by destruct (Hno r Hr)]. exists n', tm'. by rewrite lookup_insert_eq.
  - intros t m tm Htm Hex' Hd Hrl. apply lookup_insert_Some in Htm as [[<- [= <- ->]]|[Hne Htm]]; [by apply Hv|].
    apply (ok_timer _ _ _ Hok t m tm); try done. intros [?|?]%Hex; congruence.
Qed.

(** A run loop changes. *)
Lemma ok_put_loop ex ex' held held' w l r r' :
  rl_ok ex held w → run_loops w !! l = Some r →
  (∀ x, uncounted x w = false → (cnt x (held' ++ loop_refs r') ≤ cnt x (held ++ loop_refs r))%nat) → NoDup (timers r') →
  (∀ t, t ∈ timers r' → ∃ n tm, objs w !! t = Some (n, TimerObj tm) ∧ tm_run_loop tm = l) → (∀ t, t ∈ timers r → t ∈ timers r' ∨ t ∈ ex') →
  (∀ x, x ∈ ex → x ∈ ex' ∨ x ∈ timers r') → rl_ok ex' held' (put_loop l r' w).
Proof.
  intros Hok Hr Hc Hnd Hts Hlost Hex. pose proof (total_insert loop_refs (run_loops w) l r r' Hr) as Hp. split; cbn [put_loop objs run_loops statics pools].
  - intros x Hu. change (uncounted x (put_loop l r' w)) with (uncounted x w) in Hu. specialize (Hc x Hu). pose proof (ok_count _ _ _ Hok x Hu) as Hx.
    apply (Permutation_count_occ Z.eq_dec) with (x := x) in Hp. unfold internal in *. cbn [objs run_loops pools put_loop] in *. rewrite !cnt_app in *.
    destruct (objs w !! x) as [[m ?]|]; lia.
  - intros x Hu. by apply (ok_static _ _ _ Hok x).
  - intros k s Hs. apply lookup_insert_Some in Hs as [[<- <-]|[Hne Hs]]; [|by apply (ok_loop _ _ _ Hok)].
    destruct (ok_loop _ _ _ Hok l r Hr) as (? & ? & _). done.
  - intros t n tm Htm Hex' Hd Hrl. destruct (decide (tm_run_loop tm = l)) as [<-|Hne].
    + rewrite lookup_insert_eq. exists r'. split; [done|]. destruct (decide (t ∈ ex)) as [Hin|Hin]; [by destruct (Hex t Hin)|].
      destruct (ok_timer _ _ _ Hok t n tm Htm Hin Hd Hrl) as (r0 & Hr0 & Hin0). simplify_eq. by destruct (Hlost t Hin0).
    + rewrite lookup_insert_ne by done. destruct (decide (t ∈ ex)) as [Hin|Hin]; [|by apply (ok_timer _ _ _ Hok t n)].
      destruct (Hex t Hin) as [?|Hin']; [done|]. destruct (Hts t Hin') as (? & tm0 & Htm0 & Hrl0). simplify_eq.
Qed.
Lemma ok_set_pools ex held held' w ps :
  rl_ok ex held w → (∀ x, uncounted x w = false → (cnt x (held' ++ mjoin ps) ≤ cnt x (held ++ mjoin (pools w)))%nat) → rl_ok ex held' (set_rl_pools ps w).
Proof.
  intros Hok Hc. split; cbn [set_rl_pools objs run_loops statics pools]; try apply Hok.
  intros x Hu. change (uncounted x (set_rl_pools ps w)) with (uncounted x w) in Hu. specialize (Hc x Hu). pose proof (ok_count _ _ _ Hok x Hu) as Hx.
  unfold internal in *. cbn [objs run_loops pools set_rl_pools] in *. rewrite !cnt_app in *. destruct (objs w !! x) as [[m ?]|]; lia.
Qed.
Lemma ok_now ex held w : rl_ok ex held w → rl_ok ex held (instant_now clock w).2.
Proof. intros Hok. by split; apply Hok. Qed.
Lemma ok_post ex held w s : rl_ok ex held w → rl_ok ex held (rl_sem_post s w).
Proof. intros Hok. by split; apply Hok. Qed.

(** ** Retaining and releasing *)

Definition host (w : Rt) (o : Z) : option HostObj := snd <$> objs w !! o.
(** Objects may have gone, and counts changed, but nothing else. *)
Record shrinks (w w' : Rt) : Prop := {
  sh_loops : run_loops w' = run_loops w; sh_statics : statics w' = statics w; sh_pools : pools w' = pools w; sh_ticks : ticks w' = ticks w;
  sh_posted : posted w' = posted w; sh_host o h : host w' o = Some h → host w o = Some h; sh_size : (size (objs w') ≤ size (objs w))%nat }.
#[global] Instance shrinks_preorder : PreOrder shrinks.
Proof.
  split; [by split|]. intros w1 w2 w3 S1 S2. split; [etrans; [apply S2|apply S1]..| |].
  - intros o h Ho. by apply (sh_host _ _ S1), (sh_host _ _ S2).
  - etrans; [apply S2|apply S1].
Qed.
Lemma shrinks_put w o n h n' : objs w !! o = Some (n, h) → shrinks w (put_obj o n' h w).
Proof.
  intros Ho. split; try done; unfold host; cbn [put_obj set_objs objs].
  - intros x k. destruct (decide (x = o)) as [->|]; [rewrite lookup_insert_eq, Ho; done|by rewrite lookup_insert_ne].
  - rewrite map_size_insert_Some; [done|by rewrite Ho].
Qed.

Lemma ok_uncounted ex held w o : rl_ok ex (o :: held) w → uncounted o w = true → rl_ok ex held w.
Proof.
  intros Hok Hu. apply (ok_move _ (o :: held)); [done|]. intros x Hx. cbn [app]. rewrite cnt_cons. destruct (decide (o = x)) as [->|]; [congruence|done].
Qed.
Lemma ok_hold_uncounted ex held w o : rl_ok ex held w → uncounted o w = true → rl_ok ex (o :: held) w.
Proof.
  intros Hok Hu. apply (ok_move _ held); [done|]. intros x Hx. cbn [app]. rewrite cnt_cons. destruct (decide (o = x)) as [->|]; [congruence|done].
Qed.

Definition there (o : Z) (w : Rt) : Prop := uncounted o w = true ∨ ∃ n h, objs w !! o = Some (n, h) ∧ n < 2 ^ 32 - 1.
Lemma retain_ok ex held w o :
  rl_ok ex held w → there o w → ∃ w', rl_retain o w = Ret w' ∧ rl_ok ex (o :: held) w' ∧ shrinks w w' ∧ ∀ x, host w' x = host w x.
Proof.
  intros Hok Ho. unfold rl_retain. destruct (uncounted o w) eqn:Hu; [exists w; split_and!; try done; by apply ok_hold_uncounted|].
  destruct Ho as [?|(n & h & Ho & Hn)]; [congruence|]. rewrite Ho. cbn [unwrap mbind outcome_bind]. pose proof (ok_count _ _ _ Hok o Hu) as Hc. rewrite Ho in Hc.
  unfold u32, U32_MOD. rewrite (proj2 (Z.leb_le 0 (n + 1))), (proj2 (Z.ltb_lt (n + 1) _)) by lia. cbn [andb mbind outcome_bind].
  eexists. split; [done|]. split_and!; [|by eapply shrinks_put|].
  - eapply ok_put_obj; try done; [lia| |intros tm ->; by eauto| |by auto].
    + intros x _. cbn [app]. rewrite cnt_cons. destruct (decide (o = x)), (decide (x = o)); subst; try done; lia.
    + intros tm -> Hex Hd Hrl. by apply (ok_timer _ _ _ Hok o n).
  - intros x. unfold host. cbn [put_obj set_objs objs]. destruct (decide (x = o)) as [->|]; [by rewrite lookup_insert_eq, Ho|by rewrite lookup_insert_ne].
Qed.

(** The last reference to an object goes: it leaves what it held to the host code. *)
Lemma ok_delete ex held w o n h :
  rl_ok ex (o :: held) w → uncounted o w = false → objs w !! o = Some (n, h) → n ≤ 1 →
  rl_ok ex (obj_refs values h ++ held) (set_objs (delete o (objs w)) w).
Proof.
  intros Hok Hu Ho Hn. pose proof (ok_count _ _ _ Hok o Hu) as Hc. rewrite Ho in Hc. destruct Hc as [_ Hc]. cbn [app] in Hc. rewrite cnt_cons, decide_True in Hc by done.
  assert (Hni : o ∉ internal w) by (intros Hin%cnt_in; rewrite cnt_app in Hc; lia).
  assert (Hnt : ∀ l r, run_loops w !! l = Some r → o ∉ timers r).
  { intros l r Hr Hin. apply Hni. unfold internal. apply elem_of_app. right. apply elem_of_app. left. eapply total_in; [done|].
    unfold loop_refs. apply elem_of_app. by left. }
  pose proof (total_delete entry_refs (objs w) o (n, h) Ho) as Hp. split; cbn [set_objs objs run_loops statics pools].
  - intros x Hux. change (uncounted x (set_objs (delete o (objs w)) w)) with (uncounted x w) in Hux. pose proof (ok_count _ _ _ Hok x Hux) as Hx.
    apply (Permutation_count_occ Z.eq_dec) with (x := x) in Hp. unfold internal in *. cbn [objs run_loops pools set_objs] in *. cbn [app] in Hx. rewrite cnt_cons in Hx. rewrite !cnt_app in *.
    unfold entry_refs at 2 in Hp. cbn [snd] in Hp. destruct (decide (x = o)) as [->|].
    + rewrite lookup_delete_eq. rewrite decide_True in Hx by done. lia.
    + rewrite lookup_delete_ne by done. rewrite decide_False in Hx by done. destruct (objs w !! x) as [[m ?]|]; lia.
  - intros x Hux. pose proof (ok_static _ _ _ Hok x Hux) as Hx. by rewrite lookup_delete_None; right.
  - intros l r Hr. destruct (ok_loop _ _ _ Hok l r Hr) as (Hl0 & Hls & Hnd & Hts). split_and!; try done. intros t Hin.
    rewrite lookup_delete_ne by (intros <-; by eapply Hnt). by apply Hts.
  - intros t m tm [_ Htm]%lookup_delete_Some. by apply (ok_timer _ _ _ Hok t m).
Qed.

Lemma release_rec_ok fuel : ∀ ex held o w, rl_ok ex (o :: held) w → (size (objs w) < fuel)%nat →
  ∃ w', rl_release_rec values fuel o w = Ret w' ∧ rl_ok ex held w' ∧ shrinks w w'.
Proof.
  induction fuel as [|fuel IH]; intros ex held o w Hok Hf; [lia|]. cbn [rl_release_rec].
  destruct (uncounted o w) eqn:Hu; [exists w; split_and!; [done|by apply (ok_uncounted _ _ _ o)|done]|].
  destruct (ok_alive _ _ _ o Hok) as [[n h] Ho]; [by left|done|]. rewrite Ho. cbn [unwrap mbind outcome_bind].
  destruct (Z.ltb_spec 1 n) as [Hn|Hn].
  - eexists. split; [done|]. split; [|by eapply shrinks_put]. eapply ok_put_obj; try done; [lia| |intros tm ->; by eauto| |by auto].
    + intros x _. cbn [app]. rewrite cnt_cons. destruct (decide (o = x)), (decide (x = o)); subst; try done; lia.
    + intros tm -> Hex Hd Hrl. by apply (ok_timer _ _ _ Hok o n).
  - pose proof (ok_delete _ _ _ _ _ _ Hok Hu Ho Hn) as Hok'. set (w1 := set_objs (delete o (objs w)) w) in *.
    assert (Hsz : (S (size (objs w1)) = size (objs w))%nat) by (unfold w1; cbn [set_objs objs]; rewrite (map_size_delete_Some o) by (by rewrite Ho); pose proof (map_size_ne_0_lookup_2 (objs w) o); destruct (size (objs w)); [by destruct H; [rewrite Ho|]|done]).
    assert (Hall : ∀ l w1, rl_ok ex (l ++ held) w1 → (size (objs w1) < fuel)%nat →
      ∃ w', for_each (rl_release_rec values fuel) l w1 = Ret w' ∧ rl_ok ex held w' ∧ shrinks w1 w').
    { intros l. induction l as [|x l IHl]; intros w2 Hok2 Hf2; cbn [for_each]; [by exists w2|].
      destruct (IH ex (l ++ held) x w2 Hok2 Hf2) as (w3 & E3 & Hok3 & S3). rewrite E3. cbn [mbind outcome_bind].
      destruct (IHl w3 Hok3) as (w4 & E4 & Hok4 & S4); [pose proof (sh_size _ _ S3); lia|]. exists w4. split_and!; try done. by etrans. }
    destruct (Hall (obj_refs values h) w1 Hok') as (w2 & E2 & Hok2 & S2); [lia|]. exists w2. split_and!; try done. etrans; [|exact S2].
    split; try done; [|lia]. intros x k. unfold host, w1. cbn [set_objs objs]. destruct (decide (x = o)) as [->|]; [by rewrite lookup_delete_eq|by rewrite lookup_delete_ne].
Qed.
Lemma release_ok ex held o w : rl_ok ex (o :: held) w → ∃ w', rl_release values o w = Ret w' ∧ rl_ok ex held w' ∧ shrinks w w'.
Proof. intros Hok. apply release_rec_ok; [done|lia]. Qed.
Lemma releases_ok ex held l : ∀ w, rl_ok ex (l ++ held) w → ∃ w', for_each (rl_release values) l w = Ret w' ∧ rl_ok ex held w' ∧ shrinks w w'.
Proof.
  induction l as [|o l IH]; intros w Hok; cbn [for_each]; [by exists w|]. destruct (release_ok ex (l ++ held) o w Hok) as (w1 & E1 & Hok1 & S1).
  rewrite E1. cbn [mbind outcome_bind]. destruct (IH w1 Hok1) as (w2 & E2 & Hok2 & S2). exists w2. split_and!; try done. by etrans.
Qed.
Lemma pool_release_ok ex held depth w : rl_ok ex held w → ∃ w', rl_pool_release values depth w = Ret w' ∧ rl_ok ex held w' ∧ ∃ ps, shrinks (set_rl_pools ps w) w'.
Proof.
  intros Hok. unfold rl_pool_release. set (n := (length (pools w) - depth)%nat).
  destruct (releases_ok ex held (mjoin (take n (pools w))) (set_rl_pools (drop n (pools w)) w)) as (w' & E & Hok' & S); [|by eauto].
  apply (ok_set_pools _ held); [done|]. intros x _. rewrite <-(take_drop n (pools w)) at 3. rewrite join_app, !cnt_app. lia.
Qed.

(** ** What operations keep *)

(** Run loops stay, and timers that the host code holds stay timers of their loop. *)
Record kept (held : list Z) (w w' : Rt) : Prop := {
  kp_statics : statics w' = statics w;
  kp_loops l : is_Some (run_loops w !! l) → is_Some (run_loops w' !! l);
  kp_timer t tm : t ∈ held → host w t = Some (TimerObj tm) → ∃ tm', host w' t = Some (TimerObj tm') ∧ (tm_run_loop tm ≠ 0 → tm_run_loop tm' = tm_run_loop tm) }.
#[global] Instance kept_preorder held : PreOrder (kept held).
Proof.
  split; [intros w; split; [done|done|intros t tm _ Ht; by exists tm]|]. intros w1 w2 w3 K1 K2. split.
  - etrans; [apply K2|apply K1].
  - intros l Hl. by apply K2, K1.
  - intros t tm Hin Ht. destruct (kp_timer _ _ _ K1 t tm Hin Ht) as (tm2 & Ht2 & E2). destruct (kp_timer _ _ _ K2 t tm2 Hin Ht2) as (tm3 & Ht3 & E3).
    exists tm3. split; [done|]. intros Hn. rewrite E3, E2; [done..|]. by rewrite E2.
Qed.
Definition good (held : list Z) (w w' : Rt) : Prop := rl_ok [] held w' ∧ kept held w w'.
Lemma rl_good_trans held w1 w2 w3 : good held w1 w2 → good held w2 w3 → good held w1 w3.
Proof. intros [? K1] [? K2]. split; [done|]. by etrans. Qed.

Lemma ok_host_alive ex held w t : rl_ok ex held w → t ∈ held → uncounted t w = false → is_Some (host w t).
Proof. intros Hok Ht Hu. destruct (ok_alive _ _ _ t Hok) as [[n h] Ho]; [apply elem_of_app; by left|done|]. unfold host. by rewrite Ho. Qed.
Lemma host_counted ex held w t h : rl_ok ex held w → host w t = Some h → uncounted t w = false.
Proof. intros Hok Ht. destruct (uncounted t w) eqn:Hu; [|done]. unfold host in Ht. by rewrite (ok_static _ _ _ Hok t Hu) in Ht. Qed.
Lemma shrinks_kept ex ex' held held' w w' : rl_ok ex held w → rl_ok ex' held' w' → shrinks w w' → kept held' w w'.
Proof.
  intros Hok Hok' S. split; [apply S|by rewrite (sh_loops _ _ S)|]. intros t tm Hin Ht. pose proof (host_counted _ _ _ _ _ Hok Ht) as Hu.
  destruct (ok_host_alive _ _ _ t Hok' Hin) as [h Hh]; [unfold uncounted in *; by rewrite (sh_statics _ _ S)|].
  pose proof (sh_host _ _ S t h Hh) as Hh'. rewrite Ht in Hh'. injection Hh' as <-. by exists tm.
Qed.
(** Only the parts of the state that no one holds differ. *)
Lemma kept_eq held w w' : statics w' = statics w → (∀ t, host w' t = host w t) → (∀ l, is_Some (run_loops w !! l) → is_Some (run_loops w' !! l)) → kept held w w'.
Proof. intros Es Eh El. split; [done|done|]. intros t tm _ Ht. exists tm. by rewrite Eh. Qed.
Lemma kept_weaken held held' w w' : kept held w w' → (∀ t, t ∈ held' → t ∈ held) → kept held' w w'.
Proof. intros K Hs. split; [apply K|apply K|]. intros t tm Ht. by apply (kp_timer _ _ _ K), Hs. Qed.

Lemma retain_inv o w w' : rl_retain o w = Ret w' → (∀ n h, objs w !! o = Some (n, h) → 0 ≤ n) → there o w.
Proof.
  unfold rl_retain, there. destruct (uncounted o w); [by left|]. intros E Hn. right. destruct (objs w !! o) as [[n h]|]; [|done]. revert E. cbn [unwrap mbind outcome_bind].
  unfold u32, U32_MOD. destruct (_ && _) eqn:Eb; [|done]. intros _. apply andb_true_iff in Eb as [_ ?%Z.ltb_lt]. exists n, h. split; [done|]. lia.
Qed.
Lemma retain_ret ex held w o w' : rl_ok ex held w → rl_retain o w = Ret w' → rl_ok ex (o :: held) w' ∧ shrinks w w' ∧ ∀ x, host w' x = host w x.
Proof.
  intros Hok E. destruct (retain_ok ex held w o Hok) as (w1 & E1 & Hr); [|rewrite E in E1; by injection E1 as <-]. apply (retain_inv _ _ _ E).
  intros n h Ho. pose proof (ok_count _ _ _ Hok o) as Hc. rewrite Ho in Hc. destruct (uncounted o w) eqn:Hu; [|lia]. by rewrite (ok_static _ _ _ Hok o Hu) in Ho.
Qed.

(** ** Timers in run loops *)

Lemma remove_timer_ok ex ex' held w l r t :
  rl_ok ex held w → run_loops w !! l = Some r → t ∈ timers r → t ∈ ex' → (∀ x, x ∈ ex → x ∈ ex') →
  ∃ w' ts, remove_timer values l t w = Ret w' ∧ rl_ok ex' held w' ∧ timers r ≡ₚ t :: ts ∧ shrinks (put_loop l (set_timers ts r) w) w'.
Proof.
  intros Hok Hr Hin Hex Hsub. unfold remove_timer, borrow_loop. rewrite Hr. cbn [unwrap mbind outcome_bind].
  destruct (swap_remove_where_spec (Z.eqb t) (S (length (timers r))) 0 (timers r) []) as (ts & rem & E & Hp & Hrem & Hts); [lia|intros; lia|].
  rewrite E. cbn [mbind outcome_bind app]. destruct (ok_loop _ _ _ Hok l r Hr) as (_ & _ & Hnd & Htm).
  assert (Hnts : t ∉ ts) by (intros Ht; rewrite Forall_forall in Hts; specialize (Hts t Ht); by rewrite Z.eqb_refl in Hts).
  assert (Hall : ∀ x, x ∈ rem → x = t) by (intros x Hx; rewrite Forall_forall in Hrem; specialize (Hrem x Hx); symmetry; by apply Z.eqb_eq).
  assert (Er : rem = [t]).
  { destruct rem as [|x [|y rem]].
    - rewrite Hp in Hin. by destruct (Hnts Hin).
    - by rewrite (Hall x) by by left.
    - rewrite Hp in Hnd. rewrite (Hall x), (Hall y) in Hnd by (by (left + (right; left))). cbn [app] in Hnd. apply NoDup_cons in Hnd as [Hnd _]. destruct Hnd. by left. }
  subst rem. cbn [length Nat.eqb rassert mbind outcome_bind for_each]. cbn [app] in Hp.
  assert (Hok1 : rl_ok ex' (t :: held) (put_loop l (set_timers ts r) w)).
  { eapply ok_put_loop; try done.
    - intros x _. unfold loop_refs. cbn [timers set_timers selector_objects]. rewrite Hp. cbn [app]. rewrite !cnt_app, !cnt_cons, !cnt_app. lia.
    - cbn [timers set_timers]. rewrite Hp in Hnd. by apply NoDup_cons in Hnd as [_ ?].
    - intros x Hx. apply Htm. rewrite Hp. by right.
    - cbn [timers set_timers]. intros x. rewrite Hp. intros [->|Hx]%elem_of_cons; [by right|by left].
    - intros x Hx. left. by apply Hsub. }
  destruct (release_ok ex' held t _ Hok1) as (w' & E' & Hok' & S). rewrite E'. exists w', ts. done.
Qed.

(** A timer that is not valid need not be in its loop. *)
Lemma ok_unex ex held w t : rl_ok (t :: ex) held w → (∀ n tm, objs w !! t = Some (n, TimerObj tm) → tm_due_by tm = None) → rl_ok ex held w.
Proof.
  intros Hok Ht. split; try apply Hok. intros x n tm Hx Hex Hd. apply (ok_timer _ _ _ Hok x n); try done. intros [->|?]%elem_of_cons; [|done].
  rewrite (Ht _ _ Hx) in Hd. by destruct Hd.
Qed.

(** The fields of a timer change. *)
Lemma change_timer_ok ex ex' held w t n tm f :
  rl_ok ex held w → objs w !! t = Some (n, TimerObj tm) → tm_target (f tm) = tm_target tm → tm_user_info (f tm) = tm_user_info tm →
  tm_run_loop (f tm) = tm_run_loop tm →
  (t ∉ ex' → is_Some (tm_due_by (f tm)) → tm_run_loop tm ≠ 0 → ∃ r, run_loops w !! tm_run_loop tm = Some r ∧ t ∈ timers r) → (∀ x, x ∈ ex → x = t ∨ x ∈ ex') →
  ∃ w', change_timer t f w = Ret w' ∧ w' = put_obj t n (TimerObj (f tm)) w ∧ rl_ok ex' held w' ∧ kept held w w'.
Proof.
  intros Hok Ht Et Eu El Hd Hex. unfold change_timer, borrow_timer. rewrite Ht. cbn [mbind outcome_bind]. eexists. split; [done|]. split; [done|].
  assert (Hn : 1 ≤ n).
  { pose proof (ok_count _ _ _ Hok t) as Hc. rewrite Ht in Hc. destruct (uncounted t w) eqn:Hu; [by rewrite (ok_static _ _ _ Hok t Hu) in Ht|]. by apply Hc. }
  split.
  - eapply ok_put_obj; try done.
    + intros x _. cbn [obj_refs]. rewrite Et, Eu. destruct (decide (x = t)); lia.
    + intros tm0 [= <-]. exists (f tm). split; [done|]. by left.
    + intros tm' [= <-] Hne Hdd Hl. rewrite El in *. by apply Hd.
  - split; [done|done|]. intros x tmx _. unfold host. cbn [put_obj set_objs objs]. destruct (decide (x = t)) as [->|].
    + rewrite lookup_insert_eq, Ht. intros [= <-]. exists (f tm). split; [done|]. by intros _.
    + rewrite lookup_insert_ne by done. intros Hx. by exists tmx.
Qed.

(** ** The operations of the app *)

Lemma no_loop_zero ex held w : rl_ok ex held w → run_loops w !! 0 = None.
Proof. intros Hok. destruct (run_loops w !! 0) as [r|] eqn:E; [|done]. by destruct (ok_loop _ _ _ Hok 0 r E). Qed.
Lemma borrow_timer_inv t w n tm : borrow_timer t w = Ret (n, tm) → objs w !! t = Some (n, TimerObj tm).
Proof. unfold borrow_timer. destruct (objs w !! t) as [[? []]|]; try done. by intros [= <- <-]. Qed.

Lemma addTimer_good held w l t mode w' : rl_ok [] held w → addTimer_forMode l t mode w = Ret w' → good held w w'.
Proof.
  intros Hok E. unfold addTimer_forMode in E. bind_inv E. bind_inv E. rename a0 into w1. destruct (retain_ret _ _ _ _ _ Hok E1) as (Hok1 & S1 & Hh1).
  bind_inv E. rename a0 into r. bind_inv E. unfold borrow_loop in E2. destruct (run_loops w1 !! l) as [r'|] eqn:Hr; [|done]. injection E2 as ->.
  apply rassert_inv, negb_true_iff, bool_decide_eq_false in E3. unfold set_run_loop in E. bind_inv E. destruct a1 as [n tm]. apply borrow_timer_inv in E2.
  bind_inv E. apply rassert_inv, Z.eqb_eq in E4. injection E as <-. cbn [put_loop objs] in E2.
  destruct (ok_loop _ _ _ Hok1 l r Hr) as (Hl0 & _ & Hnd & Hts). set (h' := TimerObj (set_tm_run_loop l tm)).
  assert (Hok2 : rl_ok [t] (t :: held) (put_obj t n h' w1)).
  { eapply ok_put_obj; try done.
    - pose proof (ok_count _ _ _ Hok1 t) as Hc. rewrite E2 in Hc. destruct (uncounted t w1) eqn:Hu; [by rewrite (ok_static _ _ _ Hok1 t Hu) in E2|]. by apply Hc.
    - intros x _. cbn. destruct (decide (x = t)); lia.
    - intros tm0 [= <-]. eexists. split; [done|]. right. rewrite E4, (no_loop_zero _ _ _ Hok1). done.
    - intros tm' _ Ht. destruct Ht. by left.
    - intros x Hx. by apply elem_of_nil in Hx. }
  change (put_obj t n h' (put_loop l (set_timers (timers r ++ [t]) r) w1)) with (put_loop l (set_timers (timers r ++ [t]) r) (put_obj t n h' w1)).
  assert (Hok3 : rl_ok [] held (put_loop l (set_timers (timers r ++ [t]) r) (put_obj t n h' w1))).
  { eapply ok_put_loop; try done.
    - intros x _. unfold loop_refs. cbn [timers set_timers selector_objects app]. rewrite ?cnt_cons, !cnt_app, !cnt_cons. simpl. lia.
    - cbn [timers set_timers]. apply NoDup_app. split; [done|]. split; [|apply NoDup_singleton]. intros x Hx ->%list_elem_of_singleton. done.
    - cbn [timers set_timers put_obj set_objs objs]. intros x [Hx| ->%list_elem_of_singleton]%elem_of_app.
      + rewrite lookup_insert_ne by (intros <-; done). by apply Hts.
      + rewrite lookup_insert_eq. by do 2 eexists.
    - cbn [timers set_timers]. intros x Hx. left. apply elem_of_app. by left.
    - cbn [timers set_timers]. intros x ->%list_elem_of_singleton. right. apply elem_of_app. right. by left. }
  split; [done|]. split; [by apply S1| |].
  - intros k Hk. cbn [put_loop run_loops]. destruct (decide (k = l)) as [->|]; [by rewrite lookup_insert_eq|]. rewrite lookup_insert_ne by done.
    cbn [put_obj set_objs run_loops]. by rewrite (sh_loops _ _ S1).
  - intros x tmx _ Hx. rewrite <-Hh1 in Hx. unfold host. cbn [put_loop put_obj set_objs objs]. destruct (decide (x = t)) as [->|].
    + unfold host in Hx. rewrite E2 in Hx. injection Hx as <-. rewrite lookup_insert_eq. eexists. split; [done|]. by rewrite E4.
    + rewrite lookup_insert_ne by done. by exists tmx.
Qed.

Lemma shrinks_put_loop_kept ex held w l r r' w' : rl_ok ex held w → rl_ok [] held w' → run_loops w !! l = Some r → shrinks (put_loop l r' w) w' → kept held w w'.
Proof.
  intros Hok Hok' Hr S. split; [apply S| |].
  - intros k Hk. rewrite (sh_loops _ _ S). cbn [put_loop run_loops]. destruct (decide (k = l)) as [->|]; [by rewrite lookup_insert_eq|by rewrite lookup_insert_ne].
  - intros t tm Hin Ht. pose proof (host_counted _ _ _ _ _ Hok Ht) as Hu.
    destruct (ok_host_alive _ _ _ t Hok' Hin) as [h Hh]; [unfold uncounted in *; by rewrite (sh_statics _ _ S)|].
    pose proof (sh_host _ _ S t h Hh) as Hh'. change (host (put_loop l r' w) t) with (host w t) in Hh'. rewrite Ht in Hh'. injection Hh' as <-. by exists tm.
Qed.

(** A valid timer that was never scheduled has no run loop to be taken off: [invalidate] panics. *)
Lemma invalidate_ok held w t n tm :
  rl_ok [] held w → objs w !! t = Some (n, TimerObj tm) → (is_Some (tm_due_by tm) → tm_run_loop tm ≠ 0) →
  ∃ w', invalidate values t w = Ret w' ∧ good held w w' ∧ ∀ m tm', objs w' !! t = Some (m, TimerObj tm') → tm_due_by tm' = None.
Proof.
  intros Hok Ht Hs. unfold invalidate, borrow_timer. rewrite Ht. cbn [mbind outcome_bind].
  destruct (change_timer_ok [] [] held w t n tm (set_due_by None) Hok Ht) as (w1 & _ & E1 & Hok1 & K1); try done; [by intros _ [? [=]]|by intros x ?%elem_of_nil|].
  assert (H1 : ∀ m tm', objs w1 !! t = Some (m, TimerObj tm') → tm_due_by tm' = None).
  { intros m tm'. rewrite E1. cbn [put_obj set_objs objs]. rewrite lookup_insert_eq. by intros [= _ <-]. }
  rewrite <-E1. case_decide as Hd; [|by exists w1].
  destruct (ok_timer _ _ _ Hok t n tm Ht) as (r & Hr & Hin); [by intros ?%elem_of_nil|done|by apply Hs|].
  destruct (remove_timer_ok [] [t] held w1 (tm_run_loop tm) r t) as (w2 & ts & E2 & Hok2 & _ & S2); [done|by rewrite E1|done|by left|by intros x ?%elem_of_nil|].
  rewrite E2. exists w2. split; [done|]. assert (H2 : ∀ m tm', objs w2 !! t = Some (m, TimerObj tm') → tm_due_by tm' = None).
  { intros m tm' Ht'. assert (Hh : host w2 t = Some (TimerObj tm')) by (unfold host; by rewrite Ht').
    apply (sh_host _ _ S2) in Hh. unfold host in Hh. rewrite E1 in Hh. cbn [put_loop put_obj set_objs objs] in Hh. rewrite lookup_insert_eq in Hh. by injection Hh as <-. }
  assert (Hok2' : rl_ok [] held w2) by exact (ok_unex _ _ _ t Hok2 H2). split; [|done]. split; [done|]. etrans; [exact K1|]. eapply (shrinks_put_loop_kept _ _ _ _ r); try done. by rewrite E1.
Qed.
Lemma invalidate_good held w t w' : rl_ok [] held w → invalidate values t w = Ret w' → good held w w'.
Proof.
  intros Hok E. assert (E' := E). unfold invalidate in E'. bind_inv E'. destruct a as [n tm]. apply borrow_timer_inv in E0.
  destruct (invalidate_ok held w t n tm Hok E0) as (w1 & E1 & Hg & _); [|rewrite E in E1; by injection E1 as ->].
  intros Hd Hz. rewrite decide_True, Hz in E' by done. unfold remove_timer, borrow_loop in E'. cbn [put_obj set_objs run_loops] in E'.
  by rewrite (no_loop_zero _ _ _ Hok) in E'.
Qed.

Lemma ok_weaken ex held held' w : rl_ok ex held w → (∀ o, uncounted o w = false → (cnt o held' ≤ cnt o held)%nat) → rl_ok ex held' w.
Proof.
  intros Hok Hc. split; try apply Hok. intros o Hu. specialize (Hc o Hu). pose proof (ok_count _ _ _ Hok o Hu) as Ho. rewrite cnt_app in *.
  destruct (objs w !! o) as [[n ?]|]; lia.
Qed.
Lemma shrinks_good held held0 w w' : rl_ok [] held0 w → rl_ok [] held w' → shrinks w w' → good held w w'.
Proof. intros Hok Hok' S. split; [done|by eapply shrinks_kept]. Qed.

(** A new object, which takes over references of the host code. *)
Lemma alloc_good held w h o w' :
  rl_ok [] (obj_refs values h ++ held) w → rl_alloc fresh_id h w = Ret (o, w') → (∀ tm, h = TimerObj tm → tm_run_loop tm = 0) →
  rl_ok [] (o :: held) w' ∧ kept held w w' ∧ host w' o = Some h.
Proof.
  intros Hok E Hl. unfold rl_alloc in E. bind_inv E. injection E as <- <-. apply rassert_inv, andb_true_iff in E0 as [Hu Ho].
  apply negb_true_iff in Hu. apply bool_decide_eq_true in Ho. set (o := fresh_id w) in *. pose proof (ok_count _ _ _ Hok o Hu) as Hc0. rewrite Ho in Hc0.
  pose proof (total_insert_new entry_refs (objs w) o (1, h) Ho) as Hp. split; [split|split].
  - intros x Hux. change (uncounted x (put_obj o 1 h w)) with (uncounted x w) in Hux. pose proof (ok_count _ _ _ Hok x Hux) as Hx.
    apply (Permutation_count_occ Z.eq_dec) with (x := x) in Hp. unfold internal in *. cbn [put_obj objs run_loops pools set_objs] in *. cbn [app]. rewrite cnt_cons. rewrite !cnt_app in *.
    unfold entry_refs at 2 in Hp. cbn [snd] in Hp. destruct (decide (x = o)) as [->|].
    + rewrite lookup_insert_eq, decide_True by done. lia.
    + rewrite lookup_insert_ne, decide_False by done. destruct (objs w !! x) as [[m ?]|]; lia.
  - intros x Hux. change (uncounted x (put_obj o 1 h w)) with (uncounted x w) in Hux. pose proof (ok_static _ _ _ Hok x Hux) as Hx.
    cbn [put_obj set_objs objs]. rewrite lookup_insert_ne by congruence. done.
  - intros l r Hr. destruct (ok_loop _ _ _ Hok l r Hr) as (Hl0 & Hls & Hnd & Hts). split_and!; try done. intros t Hin.
    destruct (Hts t Hin) as (m & tm & Htm & Hrl). exists m, tm. cbn [put_obj set_objs objs]. rewrite lookup_insert_ne by congruence. done.
  - intros t m tm Htm Hex Hd Hrl. cbn [put_obj set_objs objs] in Htm. apply lookup_insert_Some in Htm as [[<- [= <- Eh]]|[Hne Htm]].
    + by rewrite (Hl tm Eh) in Hrl.
    + by apply (ok_timer _ _ _ Hok t m tm).
  - split; [done|done|]. intros t tm _ Ht. exists tm. unfold host in *. cbn [put_obj set_objs objs].
    destruct (decide (t = o)) as [->|]; [by rewrite Ho in Ht|by rewrite lookup_insert_ne].
  - unfold host. cbn [put_obj set_objs objs]. by rewrite lookup_insert_eq.
Qed.
Lemma autorelease_good held w o : rl_ok [] (o :: held) w → good held w (rl_autorelease o w).
Proof.
  intros Hok. unfold rl_autorelease. destruct (pools w) as [|p ps] eqn:Ep.
  - split; [|done]. apply (ok_weaken _ (o :: held)); [done|]. intros x _. rewrite cnt_cons. lia.
  - split; [|by apply kept_eq]. apply (ok_set_pools _ (o :: held)); [done|]. intros x _. rewrite Ep. simpl. rewrite !cnt_app, cnt_cons. simpl.
    destruct (Z.eq_dec o x), (decide (o = x)); try done; lia.
Qed.

(** Retaining what an operation will hold. *)
Lemma retain_good held w o w' : rl_ok [] held w → rl_retain o w = Ret w' → rl_ok [] (o :: held) w' ∧ kept held w w' ∧ shrinks w w'.
Proof.
  intros Hok E. destruct (retain_ret _ _ _ _ _ Hok E) as (Hok' & S & Hh). split_and!; [done| |done]. apply kept_eq; [apply S|done|by rewrite (sh_loops _ _ S)].
Qed.
Lemma retain2_good held w o o' w1 w' : rl_ok [] held w → rl_retain o w = Ret w1 → rl_retain o' w1 = Ret w' →
  rl_ok [] (o :: o' :: held) w' ∧ kept held w w' ∧ shrinks w w'.
Proof.
  intros Hok E1 E2. destruct (retain_good held w o w1 Hok E1) as (Hok1 & K1 & S1). destruct (retain_good _ _ _ _ Hok1 E2) as (Hok2 & K2 & S2).
  split_and!; [by eapply ok_perm; [|apply Permutation_swap]| |by etrans]. etrans; [done|]. eapply kept_weaken; [done|]. by right.
Qed.

Lemma timer_good held w f tg sel ui rep t w' : rl_ok [] held w → timerWithTimeInterval clock fresh_id f tg sel ui rep w = Ret (t, w') → good held w w'.
Proof.
  intros Hok E. unfold timerWithTimeInterval in E. bind_inv E. bind_inv E. bind_inv E. destruct (retain2_good _ _ _ _ _ _ Hok E1 E2) as (Hok2 & K2 & S2).
  pose proof (ok_now _ _ _ Hok2) as Hok3. cbn [instant_now] in E. cbn [instant_now snd] in Hok3. bind_inv E. bind_inv E. destruct a3 as [new w3]. injection E as <- <-.
  destruct (λ Hk, alloc_good held _ _ _ _ Hk E4) as (Hok4 & K4 & _); [exact Hok3|by intros tm [= <-]|].
  destruct (autorelease_good held _ _ Hok4) as [Hok5 K5]. split; [done|]. etrans; [exact K2|]. etrans; [|exact K5]. etrans; [|exact K4]. by apply kept_eq.
Qed.
Lemma scheduled_timer_good held w l f tg sel ui rep t w' :
  rl_ok [] held w → scheduledTimerWithTimeInterval clock fresh_id l f tg sel ui rep w = Ret (t, w') → good held w w'.
Proof.
  intros Hok E. unfold scheduledTimerWithTimeInterval in E. bind_inv E. destruct a as [t1 w1]. pose proof (timer_good _ _ _ _ _ _ _ _ _ Hok E0) as [Hok1 K1].
  bind_inv E. injection E as <- <-. eapply rl_good_trans; [exact (conj Hok1 K1)|]. by eapply addTimer_good.
Qed.

(** A timer is initialized before it is scheduled. *)
Definition unscheduled (t : Z) (w : Rt) : Prop := ∀ tm, host w t = Some (TimerObj tm) → tm_run_loop tm = 0.
Lemma init_timer_good held w t until f tg sel ui rep w' :
  rl_ok [] held w → initWithFireDate clock t until f tg sel ui rep w = Ret w' → unscheduled t w → good held w w'.
Proof.
  intros Hok E Hs. unfold initWithFireDate in E. bind_inv E. bind_inv E. bind_inv E. destruct (retain2_good _ _ _ _ _ _ Hok E1 E2) as (Hok2 & K2 & S2).
  cbn [instant_now] in E. bind_inv E. unfold change_timer in E. bind_inv E. destruct a3 as [n tm]. apply borrow_timer_inv in E4. injection E as <-.
  pose proof (ok_now _ _ _ Hok2) as Hok3. cbn [instant_now snd] in Hok3. set (w3 := set_ticks _ a1) in *.
  assert (Hz : tm_run_loop tm = 0) by (apply Hs; apply (sh_host _ _ S2); unfold host; unfold w3 in E4; cbn [set_ticks objs] in E4; by rewrite E4).
  split.
  - eapply ok_put_obj; [exact Hok3|exact E4| | | | |].
    + pose proof (ok_count _ _ _ Hok3 t) as Hc. rewrite E4 in Hc. destruct (uncounted t w3) eqn:Hu; [by rewrite (ok_static _ _ _ Hok3 t Hu) in E4|]. by apply Hc.
    + intros x _. cbn [obj_refs tm_target tm_user_info]. rewrite !cnt_app. cbn [app]. rewrite !cnt_cons. destruct (decide (x = t)); simpl; lia.
    + intros tm0 [= <-]. eexists. split; [done|]. by left.
    + intros tm' [= <-] _ _. cbn [tm_run_loop]. by rewrite Hz.
    + intros x ?%elem_of_nil. done.
  - etrans; [exact K2|]. split; [done|done|]. intros x tmx _. unfold host. cbn [put_obj set_objs objs]. destruct (decide (x = t)) as [->|].
    + unfold w3 in E4. cbn [set_ticks objs] in E4. rewrite E4. intros [= <-]. rewrite lookup_insert_eq. eexists. split; [done|]. by rewrite Hz.
    + rewrite lookup_insert_ne by done. intros Hx. by exists tmx.
Qed.
Lemma interval_good held w t f w' : rl_ok [] held w → set_time_interval t f w = Ret w' → good held w w'.
Proof.
  intros Hok E. unfold set_time_interval in E. bind_inv E. destruct a as [n tm]. apply borrow_timer_inv in E0. bind_inv E.
  destruct (change_timer_ok [] [] held w t n tm (set_intervals f a) Hok E0) as (w1 & E2 & _ & Hok1 & K1); try done; [|by intros x ?%elem_of_nil|].
  - intros Hex Hd Hl. by apply (ok_timer _ _ _ Hok t n tm).
  - rewrite E in E2. by injection E2 as ->.
Qed.

(** ** Requests *)

Lemma request_good held w l tg sel arg delay sem w' : rl_ok [] held w → add_perform_request clock l tg sel arg delay sem w = Ret w' → good held w w'.
Proof.
  intros Hok E. unfold add_perform_request in E. bind_inv E. bind_inv E. destruct (retain2_good _ _ _ _ _ _ Hok E0 E1) as (Hok2 & K2 & _).
  bind_inv E. unfold borrow_loop in E2. destruct (run_loops a0 !! l) as [r|] eqn:Hr; [|done]. injection E2 as <-. bind_inv E. destruct a1 as [due w3]. injection E as <-.
  assert (Hw3 : rl_ok [] (tg :: arg :: held) w3 ∧ kept held a0 w3 ∧ run_loops w3 = run_loops a0).
  { destruct delay as [dur|]; [|injection E2 as <- <-; done]. cbn [instant_now] in E2. bind_inv E2. bind_inv E2. injection E2 as <- <-.
    split; [exact (ok_now _ _ _ Hok2)|]. split; [by apply kept_eq|done]. }
  destruct Hw3 as (Hok3 & K3 & El). rewrite <-El in Hr. split.
  - destruct (ok_loop _ _ _ Hok3 l r Hr) as (_ & _ & Hnd & Hts). eapply ok_put_loop; try done.
    + intros x _. unfold loop_refs. cbn [timers set_selector_objects selector_objects]. rewrite fmap_app, join_app. simpl. rewrite !cnt_app. simpl.
      repeat destruct (Z.eq_dec _ x); lia.
    + intros x Hx. by left.
    + intros x ?%elem_of_nil. done.
  - etrans; [exact K2|]. etrans; [exact K3|]. apply kept_eq; [done|done|]. intros k Hk. cbn [put_loop run_loops].
    destruct (decide (k = l)) as [->|]; [by rewrite lookup_insert_eq|by rewrite lookup_insert_ne].
Qed.
Lemma finish_ok held w o : rl_ok [] (oss_target o :: oss_argument o :: held) w → ∃ w', finish_request values o w = Ret w' ∧ good held w w'.
Proof.
  intros Hok. unfold finish_request. destruct (release_ok _ _ _ _ Hok) as (w1 & E1 & Hok1 & S1). rewrite E1. cbn [mbind outcome_bind].
  destruct (release_ok _ _ _ _ Hok1) as (w2 & E2 & Hok2 & S2). rewrite E2. cbn [mbind outcome_bind]. eexists. split; [done|].
  assert (Hg : good held w w2) by (eapply shrinks_good; [exact Hok|done|by etrans]).
  case_match; [done|]. destruct Hg as [Hg K]. split; [by apply ok_post|]. etrans; [exact K|]. by apply kept_eq.
Qed.

(** ** Observers *)

Definition ob_objects (l : list Observer) : list Z := ob_object <$> l.
#[local] Instance ob_mjoin_perm : Proper ((≡ₚ) ==> (≡ₚ)) (mjoin : list (list Observer) → list Observer).
Proof. intros l k Hp. induction Hp; simpl; [done|by f_equiv|by rewrite !app_assoc, (Permutation_app_comm y)|by etrans]. Qed.
Lemma center_refs c : obj_refs values (CenterObj c) ≡ₚ total ob_objects c.
Proof.
  assert (Hj : ∀ l : list (list Observer), ob_object <$> mjoin l ≡ₚ mjoin (ob_objects <$> l)).
  { intros l. induction l as [|x l IH]; simpl; [constructor|]. rewrite fmap_app. by f_equiv. }
  cbn [obj_refs]. rewrite values_perm. apply Hj.
Qed.
Lemma borrow_center_inv o w n c : borrow_center o w = Ret (n, c) → objs w !! o = Some (n, CenterObj c).
Proof. unfold borrow_center. destruct (objs w !! o) as [[? []]|]; try done. by intros [= <- <-]. Qed.
Lemma ok_positive ex held w o n h : rl_ok ex held w → objs w !! o = Some (n, h) → 1 ≤ n.
Proof.
  intros Hok Ho. pose proof (ok_count _ _ _ Hok o) as Hc. rewrite Ho in Hc. destruct (uncounted o w) eqn:Hu; [by rewrite (ok_static _ _ _ Hok o Hu) in Ho|]. by apply Hc.
Qed.
Lemma put_center_ok held held' w o n c c' :
  rl_ok [] held w → objs w !! o = Some (n, CenterObj c) → held' ++ total ob_objects c' ≡ₚ held ++ total ob_objects c →
  rl_ok [] held' (put_obj o n (CenterObj c') w) ∧ kept held w (put_obj o n (CenterObj c') w).
Proof.
  intros Hok Ho Hp. split.
  - eapply ok_put_obj; try done; [by eapply ok_positive| |by intros x ?%elem_of_nil].
    intros x _. rewrite !cnt_app, !center_refs, <-!cnt_app, Hp. destruct (decide (x = o)); lia.
  - split; [done|done|]. intros t tm _. unfold host. cbn [put_obj set_objs objs]. destruct (decide (t = o)) as [->|]; [by rewrite Ho|].
    rewrite lookup_insert_ne by done. intros Ht. by exists tm.
Qed.
Lemma add_observer_total (c : Observers) (key : option (list Z)) o : total ob_objects (<[key := default [] (c !! key) ++ [o]]> c) ≡ₚ ob_object o :: total ob_objects c.
Proof.
  destruct (c !! key) as [l|] eqn:E; cbn [default from_option id].
  - pose proof (total_insert ob_objects c key l (l ++ [o]) E) as Hp. unfold ob_objects at 3 in Hp. rewrite fmap_app in Hp. cbn [fmap list_fmap] in Hp.
    rewrite <-app_assoc in Hp. by apply Permutation_app_inv_l in Hp.
  - rewrite (total_insert_new ob_objects c key _ E). done.
Qed.
Context (string_of : Z → Rt → list Z) (keys : Observers → list (option (list Z))).
Hypothesis keys_perm : ∀ c, keys c ≡ₚ (map_to_list c).*1.

Lemma add_observer_good held w this ob sel name obj w' : rl_ok [] held w → addObserver string_of this ob sel name obj w = Ret w' → good held w w'.
Proof.
  intros Hok E. unfold addObserver in E. bind_inv E. destruct (retain_good _ _ _ _ Hok E0) as (Hok1 & K1 & _). bind_inv E. destruct a0 as [n c]. apply borrow_center_inv in E1.
  injection E as <-. destruct (put_center_ok (obj :: held) held a this n c (<[name_of string_of name w := default [] (c !! name_of string_of name w) ++ [mkObserver ob sel obj]]> c) Hok1 E1) as [Hok2 K2].
  - rewrite add_observer_total. cbn [ob_object app]. by rewrite Permutation_middle.
  - split; [done|]. etrans; [exact K1|]. eapply kept_weaken; [exact K2|]. by right.
Qed.

Lemma remove_internal_spec l removed ob obj :
  ∃ l' r, remove_observers_internal l removed ob obj = Ret (l', removed ++ r) ∧ l ≡ₚ r ++ l' ∧
    Forall (λ x, observer_matches ob obj x = true) r ∧ Forall (λ x, observer_matches ob obj x = false) l'.
Proof. apply swap_remove_where_spec; [lia|intros; lia]. Qed.
Lemma remove_from_all_spec ob obj ks : ∀ c removed, NoDup ks → (∀ k, k ∈ ks → is_Some (c !! k)) →
  ∃ c' r, remove_from_all ks ob obj c removed = Ret (c', removed ++ r) ∧ total ob_objects c ≡ₚ ob_objects r ++ total ob_objects c'.
Proof.
  induction ks as [|k ks IH]; intros c removed Hnd Hk; cbn [remove_from_all]; [exists c, []; by rewrite app_nil_r|].
  destruct (Hk k) as [l Hl]; [by left|]. rewrite Hl. cbn [default from_option id].
  destruct (remove_internal_spec l removed ob obj) as (l' & r & E & Hp & _). rewrite E. cbn [mbind outcome_bind]. apply NoDup_cons in Hnd as [Hnk Hnd].
  destruct (IH (<[k := l']> c) (removed ++ r) Hnd) as (c' & r' & E' & Hp').
  { intros k' Hk'. rewrite lookup_insert_ne by (intros <-; done). apply Hk. by right. }
  exists c', (r ++ r'). rewrite E', app_assoc. split; [done|]. pose proof (total_insert ob_objects c k l l' Hl) as Ht. rewrite Hp' in Ht.
  assert (Hr : ob_objects l ≡ₚ ob_objects r ++ ob_objects l') by (unfold ob_objects; by rewrite Hp, fmap_app). rewrite Hr in Ht. 
  apply (Permutation_app_inv_l (ob_objects l')). rewrite <-Ht.
  replace (ob_objects (r ++ r')) with (ob_objects r ++ ob_objects r') by (unfold ob_objects; by rewrite fmap_app). rewrite <-!app_assoc. apply Permutation_app_swap_app.
Qed.
Lemma release_objects l w : for_each (λ o, rl_release values (ob_object o)) l w = for_each (rl_release values) (ob_objects l) w.
Proof. revert w. induction l as [|o l IH]; intros w; [done|]. cbn [for_each ob_objects fmap list_fmap]. destruct (rl_release values (ob_object o) w); [apply IH|done]. Qed.

Lemma remove_observer_ok held w this ob name obj n c :
  rl_ok [] held w → objs w !! this = Some (n, CenterObj c) → ob ≠ 0 → ∃ w', removeObserver_name_object values string_of keys this ob name obj w = Ret w' ∧ good held w w'.
Proof.
  intros Hok Ho Hob. unfold removeObserver_name_object, borrow_center. rewrite (proj2 (Z.eqb_neq _ _) Hob), Ho. cbn [negb rassert mbind outcome_bind].
  assert (Hrel : ∀ c' r, total ob_objects c ≡ₚ ob_objects r ++ total ob_objects c' →
    ∃ w', for_each (λ o, rl_release values (ob_object o)) r (put_obj this n (CenterObj c') w) = Ret w' ∧ good held w w').
  { intros c' r Hp. destruct (put_center_ok held (ob_objects r ++ held) w this n c c' Hok Ho) as [Hok1 K1]; [rewrite Hp; by rewrite <-app_assoc, Permutation_app_swap_app|].
    rewrite release_objects. destruct (releases_ok _ _ _ _ Hok1) as (w' & E & Hok' & S). exists w'. split; [done|]. split; [done|]. etrans; [exact K1|]. by eapply shrinks_kept. }
  destruct (name_of string_of name w) as [k|].
  - destruct (c !! Some k) as [l|] eqn:El; [|by exists w].
    destruct (remove_internal_spec l [] ob obj) as (l' & r & E & Hp & _). rewrite E. cbn [mbind outcome_bind app]. apply Hrel.
    pose proof (total_insert ob_objects c (Some k) l l' El) as Ht. assert (Hr : ob_objects l ≡ₚ ob_objects r ++ ob_objects l') by (unfold ob_objects; by rewrite Hp, fmap_app).
    rewrite Hr in Ht. apply (Permutation_app_inv_l (ob_objects l')). rewrite <-Ht, <-app_assoc. apply Permutation_app_swap_app.
  - destruct (remove_from_all_spec ob obj (keys c) c []) as (c' & r & E & Hp).
    + rewrite keys_perm. apply NoDup_fst_map_to_list.
    + intros k. rewrite keys_perm. intros ([k' l] & -> & Hin)%list_elem_of_fmap. apply elem_of_map_to_list in Hin. by eexists.
    + rewrite E. cbn [mbind outcome_bind app]. by apply Hrel.
Qed.
End facts.
