(* ===== verification/RunLoopRuns.v ===== *)
(** * Runs of run loops

    The app's calls, in its callbacks and outside of them, timers, requests and notifications, in any order:
    the invariant [rl_ok] holds throughout. *)

From Stdlib Require Import SpecFloat.
From S2P Require Import Prelude RunLoop RunLoopFacts.

Section runs.
Context (clock : nat → Z) (fresh_id : Rt → Z) (values : Observers → list (list Observer)).
Hypothesis values_perm : ∀ c, values c ≡ₚ (map_to_list c).*2.
Context (string_of : Z → Rt → list Z) (keys : Observers → list (option (list Z))).
Hypothesis keys_perm : ∀ c, keys c ≡ₚ (map_to_list c).*1.
Notation rl_ok := (rl_ok values).
Notation good := (good values).
Implicit Types (w : Rt) (held : list Z).

(** ** What the app does *)

Inductive guest_op :=
| GNew (h : HostObj) | GRetain (o : Z) | GRelease (o : Z) | GAutorelease (o : Z) | GNow
| GTimer (f : f64) (target selector user_info : Z) (rep : bool)
| GSchedule (l : Z) (f : f64) (target selector user_info : Z) (rep : bool)
| GInit (t : Z) (until : option f64) (f : f64) (target selector user_info : Z) (rep : bool)
| GAddTimer (l t : Z) (mode_ok : bool) | GInvalidate (t : Z) | GInterval (t : Z) (f : f64)
| GPerform (l target selector argument : Z) (delay : option f64) (semaphore : Z)
| GObserve (center observer selector name object : Z) | GUnobserve (center observer name object : Z).
Definition run_guest (op : guest_op) (w : Rt) : outcome Rt :=
  match op with
  | GNew h => '(_, w) ← rl_alloc fresh_id h w; Ret w
  | GRetain o => rl_retain o w
  | GRelease o => rl_release values o w
  | GAutorelease o => Ret (rl_autorelease o w)
  | GNow => Ret (instant_now clock w).2
  | GTimer f tg sel ui rep => '(_, w) ← timerWithTimeInterval clock fresh_id f tg sel ui rep w; Ret w
  | GSchedule l f tg sel ui rep => '(_, w) ← scheduledTimerWithTimeInterval clock fresh_id l f tg sel ui rep w; Ret w
  | GInit t until f tg sel ui rep => initWithFireDate clock t until f tg sel ui rep w
  | GAddTimer l t mode => addTimer_forMode l t mode w
  | GInvalidate t => invalidate values t w
  | GInterval t f => set_time_interval t f w
  | GPerform l tg sel arg delay sem => add_perform_request clock l tg sel arg delay sem w
  | GObserve c ob sel name obj => addObserver string_of c ob sel name obj w
  | GUnobserve c ob name obj => removeObserver_name_object values string_of keys c ob name obj w
  end.
(** The app has a reference of its own, beyond those of the host code and of the host objects. *)
Definition spare (held : list Z) (o : Z) (w : Rt) : Prop :=
  uncounted o w = true ∨ ∃ n h, objs w !! o = Some (n, h) ∧ Z.of_nat (cnt o (held ++ internal values w)) < n.
Definition blank (h : HostObj) : Prop :=
  h = PlainObj ∨ h = CenterObj ∅ ∨ h = NoteObj (mkNote 0 0 0) ∨ h = TimerObj (mkTimer (S754_zero false) 0 0 0 0 false None false 0).
(** The app releases what it owns, and initializes timers before it schedules them. *)
Definition guest_enabled (held : list Z) (op : guest_op) (w : Rt) : Prop :=
  match op with
  | GNew h => blank h
  | GRelease o | GAutorelease o => spare held o w
  | GInit t _ _ _ _ _ _ => unscheduled t w
  | _ => True
  end.
Definition guest_step (held : list Z) (w w' : Rt) : Prop := ∃ op, guest_enabled held op w ∧ run_guest op w = Ret w'.

Lemma spare_hold held o w : rl_ok [] held w → spare held o w → rl_ok [] (o :: held) w.
Proof.
  intros Hok [Hu|(n & h & Ho & Hn)]; [by apply ok_hold_uncounted|]. split; try apply Hok. intros x Hu. pose proof (ok_count _ _ _ _ Hok x Hu) as Hx.
  cbn [app]. rewrite cnt_cons. destruct (decide (o = x)) as [->|]; [|done]. rewrite Ho in *. lia.
Qed.
Lemma blank_refs held h w : rl_ok [] held w → blank h → rl_ok [] (obj_refs values h ++ held) w ∧ ∀ tm, h = TimerObj tm → tm_run_loop tm = 0.
Proof.
  assert (Hz : ∀ l, rl_ok [] l w → rl_ok [] (0 :: l) w) by (intros; by apply ok_hold_uncounted).
  intros Hok [->|[->|[->| ->]]]; (split; [|try done; by intros ? [= <-]]); [done| |by repeat apply Hz|by repeat apply Hz].
  apply (ok_perm _ _ held); [done|]. rewrite (center_refs values values_perm). done.
Qed.
Lemma app_step_good held w w' : rl_ok [] held w → guest_step held w w' → good held w w'.
Proof.
  intros Hok (op & Hen & E). destruct op; cbn [run_guest guest_enabled] in *.
  - bind_inv E. destruct a as [o w1]. injection E as <-. destruct (blank_refs held h w Hok Hen) as [Hok1 Hl].
    destruct (alloc_good fresh_id values held w h o w1 Hok1 E0 Hl) as (Hok2 & K & _). split; [|done]. apply (ok_weaken _ _ (o :: held)); [done|]. intros x _. rewrite cnt_cons. lia.
  - destruct (retain_good values _ _ _ _ Hok E) as (Hok1 & K & _). split; [|done]. apply (ok_weaken _ _ (o :: held)); [done|]. intros x _. rewrite cnt_cons. lia.
  - destruct (release_ok values [] held o w) as (w1 & E1 & Hok1 & S1); [by apply spare_hold|]. rewrite E in E1. injection E1 as <-. by eapply shrinks_good.
  - injection E as <-. by apply autorelease_good, spare_hold.
  - injection E as <-. split; [exact (ok_now clock values _ _ _ Hok)|by apply kept_eq].
  - bind_inv E. destruct a as [o w1]. injection E as <-. by eapply timer_good.
  - bind_inv E. destruct a as [o w1]. injection E as <-. by eapply scheduled_timer_good.
  - by eapply init_timer_good.
  - by eapply addTimer_good.
  - by eapply invalidate_good.
  - by eapply interval_good.
  - by eapply request_good.
  - by eapply add_observer_good.
  - assert (E' := E). unfold removeObserver_name_object in E'. bind_inv E'. apply rassert_inv, negb_true_iff, Z.eqb_neq in E0. bind_inv E'. destruct a0 as [n c].
    apply borrow_center_inv in E1. destruct (remove_observer_ok values values_perm string_of keys keys_perm held w center observer name object n c Hok E1 E0) as (w1 & E2 & Hg).
    rewrite E in E2. by injection E2 as <-.
Qed.
Lemma app_steps_good held w w' : rtc (guest_step held) w w' → rl_ok [] held w → good held w w'.
Proof.
  induction 1 as [w|w1 w2 w3 Hs _ IH]; intros Hok; [by split|]. destruct (app_step_good _ _ _ Hok Hs) as [Hok2 K]. eapply rl_good_trans; [exact (conj Hok2 K)|by apply IH].
Qed.

(** ** Callbacks *)

Section callbacks.
(** A message to an object of the app returns, after calls of the app. *)
Context (send : Z → Z → list Z → Rt → outcome Rt).
Hypothesis send_runs : ∀ held target selector args w, rl_ok [] held w → ∃ w', send target selector args w = Ret w' ∧ rtc (guest_step held) w w'.

Lemma send_good held tg sel args w : rl_ok [] held w → ∃ w', send tg sel args w = Ret w' ∧ good held w w'.
Proof. intros Hok. destruct (send_runs held tg sel args w Hok) as (w' & E & Hs). exists w'. split; [done|by apply app_steps_good]. Qed.

Lemma pool_new_good held w : rl_ok [] held w → good held w (rl_pool_new w).2.
Proof. intros Hok. split; [|by apply kept_eq]. apply (ok_set_pools _ _ held); [done|]. intros x _. done. Qed.
Lemma pool_release_good held depth w : rl_ok [] held w → ∃ w', rl_pool_release values depth w = Ret w' ∧ good held w w'.
Proof.
  intros Hok. destruct (pool_release_ok values [] held depth w Hok) as (w' & E & Hok' & ps & S). exists w'. split; [done|]. split; [done|].
  split; [apply S|by rewrite (sh_loops _ _ S)|]. intros t tm Hin Ht. pose proof (host_counted _ _ _ _ _ _ Hok Ht) as Hu.
  destruct (ok_host_alive _ _ _ _ t Hok' Hin) as [h Hh]; [unfold uncounted in *; by rewrite (sh_statics _ _ S)|].
  pose proof (sh_host _ _ S t h Hh) as Hh'. change (host (set_rl_pools ps w) t) with (host w t) in Hh'. rewrite Ht in Hh'. injection Hh' as <-. by exists tm.
Qed.

(** A timer that is held is still a timer after the callback. *)
Lemma held_timer held w w' t n tm :
  rl_ok [] held w' → kept held w w' → t ∈ held → objs w !! t = Some (n, TimerObj tm) → ∃ n' tm', objs w' !! t = Some (n', TimerObj tm').
Proof.
  intros Hok K Hin Ht. destruct (kp_timer _ _ _ K t tm Hin) as (tm' & Ht' & _); [unfold host; by rewrite Ht|].
  unfold host in Ht'. destruct (objs w' !! t) as [[n' h]|]; [|done]. injection Ht' as ->. by exists n', tm'.
Qed.
Lemma set_running_good held w t n tm b :
  rl_ok [] held w → objs w !! t = Some (n, TimerObj tm) → ∃ w', change_timer t (set_running_callback b) w = Ret w' ∧ w' = put_obj t n (TimerObj (set_running_callback b tm)) w ∧ good held w w'.
Proof.
  intros Hok Ht. destruct (change_timer_ok values [] [] held w t n tm (set_running_callback b) Hok Ht) as (w' & E & Ew & Hok' & K); try done; [|by intros x ?%elem_of_nil|exists w'; split; [done|split; [done|by split]]].
  intros Hex Hd Hl. by apply (ok_timer _ _ _ _ Hok t n tm).
Qed.

(** The callback of a timer that was advanced or taken off its loop. *)
Lemma timer_callback held w t n tm (d : option Z) :
  rl_ok [] (t :: held) w → objs w !! t = Some (n, TimerObj tm) →
  ∃ w', (w ← change_timer t (set_running_callback true) w;
         let '(pool, w) := rl_pool_new w in
         w ← send (tm_target tm) (tm_selector tm) [t] w;
         w ← change_timer t (set_running_callback false) w;
         w ← rl_release values t w;
         w ← rl_pool_release values pool w;
         Ret (d, w)) = Ret (d, w') ∧ good held w w'.
Proof.
  intros Hok Ht. destruct (set_running_good _ _ _ _ _ true Hok Ht) as (w1 & E1 & Ew1 & [Hok1 K1]). rewrite E1. cbn [mbind outcome_bind].
  assert (Ht1 : objs w1 !! t = Some (n, TimerObj (set_running_callback true tm))) by (rewrite Ew1; cbn [put_obj set_objs objs]; by rewrite lookup_insert_eq).
  pose proof (pool_new_good _ w1 Hok1) as [Hok2 K2]. unfold rl_pool_new in *. cbn [snd] in *. set (w2 := set_rl_pools ([] :: pools w1) w1) in *.
  destruct (send_good _ (tm_target tm) (tm_selector tm) [t] w2 Hok2) as (w3 & E3 & [Hok3 K3]). rewrite E3. cbn [mbind outcome_bind].
  destruct (held_timer _ w2 w3 t n _ Hok3 K3 ltac:(by left) Ht1) as (n3 & tm3 & Ht3).
  destruct (set_running_good _ _ _ _ _ false Hok3 Ht3) as (w4 & E4 & _ & [Hok4 K4]). rewrite E4. cbn [mbind outcome_bind].
  destruct (release_ok values [] held t w4 Hok4) as (w5 & E5 & Hok5 & S5). rewrite E5. cbn [mbind outcome_bind].
  destruct (pool_release_good held (length (pools w1)) w5 Hok5) as (w6 & E6 & [Hok6 K6]). rewrite E6. exists w6. split; [done|]. split; [done|].
  assert (Hsub : ∀ x, x ∈ held → x ∈ t :: held) by (intros; by right).
  etrans; [exact (kept_weaken _ _ _ _ K1 Hsub)|]. etrans; [exact (kept_weaken _ _ _ _ K2 Hsub)|]. etrans; [exact (kept_weaken _ _ _ _ K3 Hsub)|].
  etrans; [exact (kept_weaken _ _ _ _ K4 Hsub)|]. etrans; [|exact K6]. by eapply shrinks_kept.
Qed.

(** The timer is advanced, or taken off its loop. *)
Lemma advance_good held w t n tm due now :
  rl_ok [] (t :: held) w → objs w !! t = Some (n, TimerObj tm) → tm_due_by tm = Some due →
  (if repeats tm then ∃ d, next_due tm due now = Ret d else tm_run_loop tm ≠ 0) →
  ∃ d w1 w', (if repeats tm then d ← next_due tm due now; Ret (Some d, w) else w ← remove_timer values (tm_run_loop tm) t w; Ret (None, w)) = Ret (d, w1) ∧
    change_timer t (set_due_by d) w1 = Ret w' ∧ good (t :: held) w w' ∧ (∃ n', objs w' !! t = Some (n', TimerObj (set_due_by d tm))) ∧
    (if repeats tm then ∃ x, d = Some x ∧ next_due tm due now = Ret x else d = None).
Proof.
  intros Hok Ht Hd Hc. assert (Hsc : tm_run_loop tm ≠ 0 → ∃ r, run_loops w !! tm_run_loop tm = Some r ∧ t ∈ timers r).
  { intros Hl. apply (ok_timer _ _ _ _ Hok t n tm); [done|apply not_elem_of_nil|by rewrite Hd|done]. }
  destruct (repeats tm).
  - destruct Hc as [d Ed]. rewrite Ed. cbn [mbind outcome_bind].
    destruct (change_timer_ok values [] [] (t :: held) w t n tm (set_due_by (Some d)) Hok Ht) as (w' & E & Ew & Hok' & K); try done; [by intros x ?%elem_of_nil|].
    exists (Some d), w, w'. split_and!; try done; [|by exists d]. exists n. rewrite Ew. cbn [put_obj set_objs objs]. by rewrite lookup_insert_eq.
  - destruct (Hsc Hc) as (r & Hr & Hin).
    destruct (remove_timer_ok values [] [t] (t :: held) w _ r t Hok Hr Hin) as (w1 & ts & E1 & Hok1 & _ & S1); [by left|by intros x ?%elem_of_nil|].
    rewrite E1. cbn [mbind outcome_bind].
    assert (Hu : uncounted t w1 = false) by (unfold uncounted; rewrite (sh_statics _ _ S1); change (uncounted t w = false); eapply host_counted; [exact Hok|unfold host; by rewrite Ht]).
    destruct (ok_alive _ _ _ _ t Hok1) as [[n1 h1] Ht1]; [by left|done|].
    assert (h1 = TimerObj tm) as ->.
    { assert (Hh : host w1 t = Some h1) by (unfold host; by rewrite Ht1). apply (sh_host _ _ S1) in Hh. unfold host in Hh. cbn [put_loop objs] in Hh. rewrite Ht in Hh. by injection Hh. }
    destruct (change_timer_ok values [t] [] (t :: held) w1 t n1 tm (set_due_by None) Hok1 Ht1) as (w2 & E2 & Ew2 & Hok2 & K2); try done;
      [by intros _ [? [=]]|intros x ->%list_elem_of_singleton; by left|].
    exists None, w1, w2. split; [done|]. split; [done|]. split; [|split; [|done]].
    + split; [done|]. etrans; [|exact K2]. split; [apply S1| |].
      * intros k Hk. rewrite (sh_loops _ _ S1). cbn [put_loop run_loops]. destruct (decide (k = tm_run_loop tm)) as [->|]; [by rewrite lookup_insert_eq|by rewrite lookup_insert_ne].
      * intros x tmx Hx Hxt. pose proof (host_counted _ _ _ _ _ _ Hok Hxt) as Hux.
        destruct (ok_host_alive _ _ _ _ x Hok1 Hx) as [h Hh]; [unfold uncounted in *; by rewrite (sh_statics _ _ S1)|].
        pose proof (sh_host _ _ S1 x h Hh) as Hh'. change (host (put_loop (tm_run_loop tm) (set_timers ts r) w) x) with (host w x) in Hh'. rewrite Hxt in Hh'. injection Hh' as <-. by exists tmx.
    + exists n1. rewrite Ew2. cbn [put_obj set_objs objs]. by rewrite lookup_insert_eq.
Qed.

(** What a repeating timer does when it is due: the time it is due again is its old one and a number of intervals. *)
Lemma handle_timer_ok held w t n tm :
  rl_ok [] held w → objs w !! t = Some (n, TimerObj tm) → n < 2 ^ 32 - 1 →
  (is_running_callback tm = false → ∀ due, tm_due_by tm = Some due → due ≤ clock (ticks w) →
    if repeats tm then ∃ d, next_due tm due (clock (ticks w)) = Ret d else tm_run_loop tm ≠ 0) →
  ∃ r w', handle_timer clock values send t w = Ret (r, w') ∧ timer_next tm (clock (ticks w)) = Ret r ∧ good held w w'.
Proof.
  intros Hok Ht Hn Hadv. unfold handle_timer, borrow_timer, timer_next. rewrite Ht. cbn [mbind outcome_bind instant_now]. assert (Hr : good held w w) by by split.
  destruct (is_running_callback tm); [by eauto|]. destruct (tm_due_by tm) as [due|] eqn:Hd; [|by eauto].
  pose proof (ok_now clock values _ _ _ Hok) as Hok0. cbn [instant_now snd] in Hok0. set (w0 := set_ticks (S (ticks w)) w) in *. assert (K0 : kept held w w0) by by apply kept_eq.
  destruct (Z.ltb_spec (clock (ticks w)) due) as [Hlt|Hge]; [by eexists _, _|].
  destruct (retain_ok values [] held w0 t Hok0) as (w1 & E1 & Hok1 & S1 & Hh1); [right; by exists n, (TimerObj tm)|]. rewrite E1. cbn [mbind outcome_bind].
  assert (Ht1 : ∃ n1, objs w1 !! t = Some (n1, TimerObj tm)).
  { specialize (Hh1 t). unfold host in Hh1. change (objs w0) with (objs w) in Hh1. rewrite Ht in Hh1. destruct (objs w1 !! t) as [[n1 ?]|]; [|done]. injection Hh1 as ->. by exists n1. }
  destruct Ht1 as [n1 Ht1].
  destruct (advance_good held w1 t n1 tm due (clock (ticks w)) Hok1 Ht1 Hd (Hadv eq_refl due eq_refl Hge)) as (d & w2 & w3 & E2 & E3 & [Hok3 K3] & (n3 & Ht3) & Hd3).
  rewrite E2. cbn [mbind outcome_bind]. rewrite E3. cbn [mbind outcome_bind].
  destruct (timer_callback held w3 t n3 (set_due_by d tm) d Hok3 Ht3) as (w4 & E4 & [Hok4 K4]).
  exists d, w4. split; [exact E4|]. split; [destruct (repeats tm); [destruct Hd3 as (x & -> & ->); done|by subst d]|]. split; [done|]. etrans; [exact K0|]. etrans; [apply (kept_eq held w0 w1); [apply S1|done|by rewrite (sh_loops _ _ S1)]|].
  etrans; [|exact K4]. eapply kept_weaken; [exact K3|]. by right.
Qed.
Lemma handle_timer_good held w t r w' : rl_ok [] held w → handle_timer clock values send t w = Ret (r, w') → good held w w'.
Proof.
  intros Hok E. assert (E' := E). unfold handle_timer in E'. bind_inv E'. destruct a as [n tm]. apply borrow_timer_inv in E0. cbn [instant_now] in E'.
  assert (Hr : good held w w) by by split.
  destruct (is_running_callback tm); [by injection E' as <- <-|]. destruct (tm_due_by tm) as [due|] eqn:Hd; [|by injection E' as <- <-].
  destruct (Z.ltb_spec (clock (ticks w)) due) as [Hlt|Hge].
  { injection E' as <- <-. split; [exact (ok_now clock values _ _ _ Hok)|by apply kept_eq]. }
  bind_inv E'. pose proof (ok_now clock values _ _ _ Hok) as Hok0. cbn [instant_now snd] in Hok0.
  assert (Hth : there t (set_ticks (S (ticks w)) w)).
  { apply (retain_inv _ _ _ E1). intros m h Hm. pose proof (ok_positive values _ _ _ _ _ _ Hok0 Hm). lia. }
  destruct Hth as [Hu|(m & h & Hm & Hlt)].
  { pose proof (ok_static values _ _ _ Hok0 t Hu) as Hs. cbn [set_ticks objs] in Hs. congruence. }
  cbn [set_ticks objs] in Hm. rewrite E0 in Hm. injection Hm as <- <-.
  destruct (handle_timer_ok held w t n tm Hok E0 Hlt) as (r1 & w1 & E2 & _ & Hg); [|rewrite E in E2; by injection E2 as <- <-].
  intros _ due' Hd' _. rewrite Hd in Hd'. injection Hd' as <-. bind_inv E'. destruct (repeats tm).
  - bind_inv E2. by eexists.
  - intros Hz. rewrite Hz in E2. unfold remove_timer, borrow_loop in E2. destruct (retain_ret _ _ _ _ _ _ Hok0 E1) as (Hok1 & _). by rewrite (no_loop_zero _ _ _ _ Hok1) in E2.
Qed.

Lemma retains_good l : ∀ held w w', rl_ok [] held w → for_each rl_retain l w = Ret w' → rl_ok [] (l ++ held) w' ∧ kept held w w'.
Proof.
  induction l as [|o l IH]; intros held w w' Hok E; cbn [for_each] in E; [by injection E as <-|]. bind_inv E.
  destruct (retain_good values _ _ _ _ Hok E0) as (Hok1 & K1 & S1). destruct (IH _ _ _ Hok1 E) as [Hok2 K2]. split.
  - eapply ok_perm; [exact Hok2|]. cbn [app]. by rewrite Permutation_middle.
  - etrans; [exact K1|]. eapply kept_weaken; [exact K2|]. by right.
Qed.
Lemma release_good held o w w' : rl_ok [] (o :: held) w → rl_release values o w = Ret w' → good held w w'.
Proof.
  intros Hok E. destruct (release_ok values [] held o w Hok) as (w1 & E1 & Hok1 & S1). rewrite E in E1. injection E1 as <-. by eapply shrinks_good.
Qed.
Lemma good_held held held' w w' : good held w w' → (∀ x, x ∈ held' → x ∈ held) → kept held' w w'.
Proof. intros [_ K] Hs. by eapply kept_weaken. Qed.

Lemma handle_timers_good held l : ∀ sleep w s w', rl_ok [] (l ++ held) w → handle_timers clock values send l sleep w = Ret (s, w') → good held w w'.
Proof.
  induction l as [|t l IH]; intros sleep w s w' Hok E; cbn [handle_timers] in E; [injection E as <- <-; by split|].
  bind_inv E. destruct a as [d w1]. destruct (handle_timer_good _ _ _ _ _ Hok E0) as [Hok1 K1]. bind_inv E. destruct (release_good _ _ _ _ Hok1 E1) as [Hok2 K2].
  destruct (IH _ _ _ _ Hok2 E) as [Hok3 K3]. split; [done|]. etrans; [eapply kept_weaken; [exact K1|]|]; [intros x Hx; right; apply elem_of_app; by right|].
  etrans; [eapply kept_weaken; [exact K2|]|exact K3]. intros x Hx. apply elem_of_app. by right.
Qed.

(** *** Requests *)

Definition oss_refs (l : list ObjectSelectorSource) : list Z := mjoin ((λ o, [oss_target o; oss_argument o]) <$> l).
Lemma oss_refs_cons o l : oss_refs (o :: l) = oss_target o :: oss_argument o :: oss_refs l.
Proof. done. Qed.
Lemma oss_refs_perm l k : l ≡ₚ k → oss_refs l ≡ₚ oss_refs k.
Proof. intros Hp. unfold oss_refs. by rewrite Hp. Qed.
Lemma put_requests_ok held held' w l r x :
  rl_ok [] held w → run_loops w !! l = Some r → (∀ o, (cnt o (held' ++ oss_refs x) ≤ cnt o (held ++ oss_refs (selector_objects r)))%nat) →
  rl_ok [] held' (put_loop l (set_selector_objects x r) w) ∧ kept held w (put_loop l (set_selector_objects x r) w).
Proof.
  intros Hok Hr Hc. destruct (ok_loop _ _ _ _ Hok l r Hr) as (_ & _ & Hnd & Hts). split.
  - eapply ok_put_loop; try done; [|intros t Ht; by left|intros t ?%elem_of_nil; done]. intros o _. specialize (Hc o). unfold loop_refs, oss_refs in *.
    cbn [timers set_selector_objects selector_objects]. rewrite !cnt_app in *. lia.
  - apply kept_eq; [done|done|]. intros k Hk. cbn [put_loop run_loops]. destruct (decide (k = l)) as [->|]; [by rewrite lookup_insert_eq|by rewrite lookup_insert_ne].
Qed.
Lemma find_due_spec l : ∀ w, ∃ i k, find_due clock l w = (i, set_ticks k w) ∧ ∀ j, i = Some j → is_Some (l !! j).
Proof.
  induction l as [|o l IH]; intros w; cbn [find_due]; [exists None, (ticks w); split; [by destruct w|done]|].
  destruct (oss_due_by o) as [d|]; [|exists (Some O), (ticks w); split; [by destruct w|by intros ? [= <-]]]. cbn [instant_now].
  destruct (d <=? clock (ticks w)); [exists (Some O), (S (ticks w)); split; [done|by intros ? [= <-]]|].
  destruct (IH (set_ticks (S (ticks w)) w)) as (i & k & E & Hi). rewrite E. exists (S <$> i), k. split; [done|]. intros j.
  destruct i as [i|]; [|done]. intros [= <-]. by apply Hi.
Qed.
Lemma ok_set_ticks held w k : rl_ok [] held w → good held w (set_ticks k w).
Proof. intros Hok. split; [by split; apply Hok|by apply kept_eq]. Qed.
Lemma run_request_good (takes_argument : Z → bool) held w o w' :
  rl_ok [] (oss_target o :: oss_argument o :: held) w → run_request values send takes_argument o w = Ret w' → good held w w'.
Proof.
  intros Hok E. unfold run_request in E. bind_inv E.
  assert (Hg : good (oss_target o :: oss_argument o :: held) w a).
  { destruct (takes_argument (oss_selector o)).
    - destruct (send_good _ (oss_target o) (oss_selector o) [oss_argument o] w Hok) as (w1 & E1 & Hg). rewrite E0 in E1. by injection E1 as <-.
    - bind_inv E0. destruct (send_good _ (oss_target o) (oss_selector o) [] w Hok) as (w1 & E2 & Hg). rewrite E0 in E2. by injection E2 as <-. }
  destruct Hg as [Hok1 K1]. destruct (finish_ok values held a o Hok1) as (w2 & E2 & [Hok2 K2]). rewrite E in E2. injection E2 as <-.
  split; [done|]. etrans; [|exact K2]. eapply kept_weaken; [exact K1|]. intros x Hx. by do 2 right.
Qed.
Lemma run_requests_good (takes_argument : Z → bool) held l fuel : ∀ sleep w s w',
  rl_ok [] held w → run_requests clock values send takes_argument fuel l sleep w = Ret (Some (s, w')) → good held w w'.
Proof.
  induction fuel as [|fuel IH]; intros sleep w s w' Hok E; cbn [run_requests] in E; [done|]. bind_inv E. rename a into r.
  unfold borrow_loop in E0. destruct (run_loops w !! l) as [r'|] eqn:Hr; [|done]. injection E0 as ->.
  destruct (find_due_spec (selector_objects r) w) as (i & k & Ef & Hi). rewrite Ef in E. destruct (ok_set_ticks held w k Hok) as [Hok1 K1].
  destruct i as [i|]; [|by injection E as <- <-]. destruct (Hi i eq_refl) as [o Ho]. rewrite Ho in E. cbn [unwrap mbind outcome_bind] in E. bind_inv E.
  destruct (put_requests_ok held (oss_target o :: oss_argument o :: held) (set_ticks k w) l r (delete i (selector_objects r)) Hok1 Hr) as [Hok2 K2].
  { intros x. rewrite (oss_refs_perm (selector_objects r) (o :: delete i (selector_objects r))) by by apply delete_Permutation. rewrite oss_refs_cons. cbn [app].
    rewrite !cnt_cons, !cnt_app, !cnt_cons. lia. }
  destruct (run_request_good _ _ _ _ _ Hok2 E0) as [Hok3 K3]. destruct (IH _ _ _ _ Hok3 E) as [Hok4 K4]. split; [done|].
  etrans; [exact K1|]. etrans; [exact K2|]. by etrans.
Qed.

Section cancelling.
Context (isEqual : Z → Z → Rt → outcome (bool * Rt)).
Hypothesis isEqual_runs : ∀ held a b w, rl_ok [] held w → ∃ x w', isEqual a b w = Ret (x, w') ∧ rtc (guest_step held) w w'.

Lemma cancel_loop_good tg sel arg l : ∀ held w,
  rl_ok [] (oss_refs l ++ held) w → ∃ rest w', cancel_loop values isEqual tg sel arg l w = Ret (rest, w') ∧ rl_ok [] (oss_refs rest ++ held) w' ∧ kept held w w'.
Proof.
  induction l as [|o l IH]; intros held w Hok; cbn [cancel_loop]; [by exists [], w|]. rewrite oss_refs_cons in Hok. cbn [app] in Hok.
  assert (Hin : ∀ x, x ∈ held → x ∈ oss_target o :: oss_argument o :: oss_refs l ++ held) by (intros x Hx; do 2 right; apply elem_of_app; by right).
  assert (Hskip : ∀ w1, good (oss_target o :: oss_argument o :: oss_refs l ++ held) w w1 →
    ∃ rest w', ('(rest, w) ← cancel_loop values isEqual tg sel arg l w1; Ret (o :: rest, w)) = Ret (rest, w') ∧ rl_ok [] (oss_refs rest ++ held) w' ∧ kept held w w').
  { intros w1 [Hok1 K1]. destruct (IH (oss_target o :: oss_argument o :: held) w1) as (rest & w2 & E2 & Hok2 & K2).
    - eapply ok_perm; [exact Hok1|]. solve_Permutation.
    - rewrite E2. cbn [mbind outcome_bind]. exists (o :: rest), w2. split; [done|]. split; [eapply ok_perm; [exact Hok2|]; rewrite oss_refs_cons; cbn [app]; solve_Permutation|].
      etrans; [by eapply kept_weaken|]. eapply kept_weaken; [exact K2|]. intros x Hx. by do 2 right. }
  destruct (_ || _); [apply Hskip; by split|].
  assert (Heq : ∃ eq w1, (if oss_argument o =? 0 then Ret (arg =? 0, w) else isEqual (oss_argument o) arg w) = Ret (eq, w1) ∧
    good (oss_target o :: oss_argument o :: oss_refs l ++ held) w w1).
  { destruct (oss_argument o =? 0); [by eexists _, w|]. destruct (isEqual_runs _ (oss_argument o) arg w Hok) as (x & w1 & E1 & Hs). exists x, w1. split; [done|by apply app_steps_good]. }
  destruct Heq as (eq & w1 & E1 & Hg1). rewrite E1. cbn [mbind outcome_bind]. destruct eq; [|by apply Hskip].
  destruct Hg1 as [Hok1 K1]. destruct (finish_ok values _ w1 o Hok1) as (w2 & E2 & [Hok2 K2]). rewrite E2. cbn [mbind outcome_bind].
  destruct (IH held w2 Hok2) as (rest & w3 & E3 & Hok3 & K3). exists rest, w3. split_and!; try done.
  etrans; [by eapply kept_weaken|]. etrans; [|exact K3]. eapply kept_weaken; [exact K2|]. intros x Hx. apply elem_of_app. by right.
Qed.
Lemma cancel_good held w l tg sel arg :
  rl_ok [] held w → is_Some (run_loops w !! l) → ∃ w', cancel_perform_requests values isEqual l tg sel arg w = Ret w' ∧ good held w w'.
Proof.
  intros Hok [r Hr]. unfold cancel_perform_requests, borrow_loop. rewrite Hr. cbn [unwrap mbind outcome_bind].
  destruct (put_requests_ok held (oss_refs (selector_objects r) ++ held) w l r [] Hok Hr) as [Hok1 K1].
  { intros x. rewrite !cnt_app. simpl. lia. }
  set (w1 := put_loop l (set_selector_objects [] r) w) in *. assert (Hl1 : is_Some (run_loops w1 !! l)) by (unfold w1; cbn [put_loop run_loops]; by rewrite lookup_insert_eq).
  destruct (cancel_loop_good tg sel arg (selector_objects r) held w1 Hok1) as (rest & w2 & E2 & Hok2 & K2). rewrite E2. cbn [mbind outcome_bind].
  destruct (kp_loops _ _ _ K2 l Hl1) as [r2 Hr2]. rewrite Hr2. cbn [unwrap mbind outcome_bind]. eexists. split; [done|].
  destruct (put_requests_ok (oss_refs rest ++ held) held w2 l r2 rest Hok2 Hr2) as [Hok3 K3].
  { intros x. rewrite !cnt_app. lia. }
  split; [done|]. etrans; [exact K1|]. etrans; [exact K2|]. eapply kept_weaken; [exact K3|]. intros x Hx. apply elem_of_app. by right.
Qed.
End cancelling.

(** *** Notifications *)

Lemma notify_observer_good held note poster o w w' : rl_ok [] held w → notify values send note poster o w = Ret w' → good held w w'.
Proof.
  intros Hok E. unfold notify in E. destruct (_ && _); [injection E as <-; by split|]. bind_inv E. bind_inv E.
  destruct (retain_good values _ _ _ _ Hok E0) as (Hok1 & K1 & _). destruct (send_good _ (ob_observer o) (ob_selector o) [note] a Hok1) as (w2 & E2 & [Hok2 K2]).
  rewrite E1 in E2. injection E2 as <-. destruct (release_good _ _ _ _ Hok2 E) as [Hok3 K3]. split; [done|].
  etrans; [exact K1|]. etrans; [eapply kept_weaken; [exact K2|by right]|exact K3].
Qed.
Lemma post_good held w this note w' : rl_ok [] held w → postNotification values send string_of this note w = Ret w' → good held w w'.
Proof.
  intros Hok E. unfold postNotification in E. bind_inv E. bind_inv E. destruct a0 as [n c]. revert E. generalize (default [] (c !! Some (string_of (nt_name a) w)) ++ default [] (c !! None)).
  intros l E. clear E0 E1 c n. revert w Hok E. induction l as [|o l IH]; intros w Hok E; cbn [for_each] in E; [injection E as <-; by split|].
  bind_inv E. destruct (notify_observer_good _ _ _ _ _ _ Hok E0) as [Hok1 K1]. eapply rl_good_trans; [exact (conj Hok1 K1)|by apply IH].
Qed.
Lemma fire_good held w t w' : rl_ok [] (t :: held) w → fire values send t w = Ret w' → good (t :: held) w w'.
Proof.
  intros Hok E. unfold fire in E. bind_inv E. destruct a as [n tm]. pose proof (pool_new_good _ w Hok) as [Hok1 K1]. unfold rl_pool_new in *. cbn [snd] in *.
  bind_inv E. destruct (send_good _ (tm_target tm) (tm_selector tm) [t] _ Hok1) as (w2 & E2 & [Hok2 K2]). rewrite E1 in E2. injection E2 as <-.
  bind_inv E. destruct (pool_release_good _ (length (pools w)) a Hok2) as (w3 & E3 & [Hok3 K3]). rewrite E2 in E3. injection E3 as <-.
  assert (Hg : good (t :: held) w a0) by (split; [done|]; etrans; [exact K1|]; by etrans).
  destruct (repeats tm); [by injection E as <-|]. eapply rl_good_trans; [exact Hg|]. by eapply invalidate_good.
Qed.
Section posting.
(** [copy] of an object gives the caller a reference. *)
Context (copy : Z → Rt → outcome (Z * Rt)).
Hypothesis copy_runs : ∀ held o w, rl_ok [] held w → ∃ u w', copy o w = Ret (u, w') ∧ rtc (guest_step held) w w' ∧ spare held u w'.
Lemma init_note_good held w this name obj ui w' : rl_ok [] held w → initWithName copy this name obj ui w = Ret w' → good held w w'.
Proof.
  intros Hok E. unfold initWithName in E. bind_inv E. bind_inv E. destruct (retain2_good values _ _ _ _ _ _ Hok E0 E1) as (Hok1 & K1 & _). bind_inv E. destruct a1 as [u w2].
  assert (Hg : rl_ok [] (u :: name :: obj :: held) w2 ∧ kept (name :: obj :: held) a0 w2).
  { destruct (Z.eqb_spec ui 0); [injection E2 as <- <-; split; [by apply ok_hold_uncounted|done]|].
    destruct (copy_runs _ ui a0 Hok1) as (u' & w2' & E3 & Hs & Hsp). rewrite E2 in E3. injection E3 as <- <-. destruct (app_steps_good _ _ _ Hs Hok1) as [Hok2 K2].
    split; [by apply spare_hold|done]. }
  destruct Hg as [Hok2 K2]. destruct (objs w2 !! this) as [[n [| | |]]|] eqn:Ho; try done. injection E as <-. split.
  - eapply ok_put_obj; [exact Hok2|exact Ho|by eapply ok_positive| |done|done|by intros x ?%elem_of_nil].
    intros x _. cbn [obj_refs nt_name nt_object nt_user_info app]. rewrite !cnt_app, !cnt_cons, !cnt_app. simpl. repeat destruct (Z.eq_dec _ x); repeat case_decide; subst; try done; lia.
  - etrans; [exact K1|]. etrans; [eapply kept_weaken; [exact K2|intros x Hx; by do 2 right]|]. split; [done|done|]. intros x tmx _. unfold host. cbn [put_obj set_objs objs].
    destruct (decide (x = this)) as [->|]; [by rewrite Ho|]. rewrite lookup_insert_ne by done. intros Hx. by exists tmx.
Qed.
Lemma post_name_good held w this name obj ui w' :
  rl_ok [] held w → postNotificationName fresh_id values send copy string_of this name obj ui w = Ret w' → good held w w'.
Proof.
  intros Hok E. unfold postNotificationName in E. bind_inv E. destruct a as [note w1].
  destruct (blank_refs held (NoteObj (mkNote 0 0 0)) w Hok) as [Hok0 Hl]; [by right; right; left|].
  destruct (alloc_good fresh_id values held w _ note w1 Hok0 E0 Hl) as (Hok1 & K1 & _). bind_inv E. destruct (init_note_good _ _ _ _ _ _ _ Hok1 E1) as [Hok2 K2].
  bind_inv E. destruct (post_good _ _ _ _ _ Hok2 E2) as [Hok3 K3]. destruct (release_good _ _ _ _ Hok3 E) as [Hok4 K4]. split; [done|].
  etrans; [exact K1|]. etrans; [eapply kept_weaken; [exact K2|by right]|]. etrans; [eapply kept_weaken; [exact K3|by right]|exact K4].
Qed.
End posting.

(** ** Passes of a run loop *)

Section passes.
Context (takes_argument : Z → bool).
Context (commit_implicit_transaction handle_players : Rt → outcome Rt) (handle_events recomposite_if_necessary : Rt → outcome (option Z * Rt)).
Context (poll_audio_queue poll_audio_unit : Z → Rt → outcome Rt) (env_sleep : Z → Rt → outcome Rt).
(** What else a run loop polls does nothing to timers and references but by calls of the app. *)
Definition polls (f : Rt → outcome Rt) : Prop := ∀ held w w', rl_ok [] held w → f w = Ret w' → rtc (guest_step held) w w'.
Hypothesis commit_polls : polls commit_implicit_transaction.
Hypothesis players_polls : polls handle_players.
Hypothesis events_polls : ∀ held w d w', rl_ok [] held w → handle_events w = Ret (d, w') → rtc (guest_step held) w w'.
Hypothesis recomposite_polls : ∀ held w d w', rl_ok [] held w → recomposite_if_necessary w = Ret (d, w') → rtc (guest_step held) w w'.
Hypothesis audio_queue_polls : ∀ q, polls (poll_audio_queue q).
Hypothesis audio_unit_polls : ∀ q, polls (poll_audio_unit q).
Hypothesis sleep_polls : ∀ d, polls (env_sleep d).

Lemma polls_good f held w w' : polls f → rl_ok [] held w → f w = Ret w' → good held w w'.
Proof. intros Hf Hok E. apply app_steps_good; [by eapply Hf|done]. Qed.
Lemma polls_all_good (f : Z → Rt → outcome Rt) held l : (∀ q, polls (f q)) → ∀ w w', rl_ok [] held w → for_each f l w = Ret w' → good held w w'.
Proof.
  intros Hf. induction l as [|q l IH]; intros w w' Hok E; cbn [for_each] in E; [injection E as <-; by split|]. bind_inv E.
  destruct (polls_good _ _ _ _ (Hf q) Hok E0) as [Hok1 K1]. eapply rl_good_trans; [exact (conj Hok1 K1)|by apply IH].
Qed.

Lemma pass_good held fuel l is_main w w' :
  rl_ok [] held w →
  run_loop_pass clock values send takes_argument commit_implicit_transaction handle_players handle_events recomposite_if_necessary
    poll_audio_queue poll_audio_unit env_sleep fuel l is_main w = Ret (Some w') → good held w w'.
Proof.
  intros Hok E. unfold run_loop_pass in E. bind_inv E. destruct (polls_good _ _ _ _ commit_polls Hok E0) as [Hok1 K1]. bind_inv E. destruct a0 as [sleep w2].
  assert (Hg2 : good held a w2).
  { destruct is_main; [|injection E1 as <- <-; by split]. bind_inv E1. destruct a0 as [d1 w1]. bind_inv E1. destruct a0 as [d2 w3]. injection E1 as <- <-.
    destruct (app_steps_good _ _ _ (events_polls _ _ _ _ Hok1 E2) Hok1) as [Hok3 K3]. eapply rl_good_trans; [exact (conj Hok3 K3)|].
    apply app_steps_good; [by eapply recomposite_polls|done]. }
  destruct Hg2 as [Hok2 K2]. bind_inv E. bind_inv E. destruct (retains_good _ _ _ _ Hok2 E3) as [Hok3 K3]. bind_inv E. destruct a2 as [sleep4 w4].
  destruct (handle_timers_good _ _ _ _ _ _ Hok3 E4) as [Hok4 K4]. bind_inv E. bind_inv E. destruct (polls_all_good _ _ _ audio_queue_polls _ _ Hok4 E6) as [Hok5 K5].
  bind_inv E. bind_inv E. destruct (polls_all_good _ _ _ audio_unit_polls _ _ Hok5 E8) as [Hok6 K6]. bind_inv E. destruct a6 as [[sleep7 w7]|]; [|done].
  destruct (run_requests_good _ _ _ _ _ _ _ _ Hok6 E9) as [Hok7 K7]. bind_inv E.
  assert (Hg8 : good held w7 a6) by (destruct is_main; [by eapply polls_good|injection E10 as <-; by split]). destruct Hg8 as [Hok8 K8].
  assert (Hg9 : good held a6 w').
  { destruct sleep7 as [t|]; cbn [instant_now] in E; bind_inv E; injection E as <-.
    - eapply rl_good_trans; [apply (ok_set_ticks _ _ (S (ticks a6))); exact Hok8|]. eapply polls_good; [apply sleep_polls|by apply ok_set_ticks|exact E11].
    - eapply polls_good; [apply sleep_polls|exact Hok8|exact E11]. }
  destruct Hg9 as [Hok9 K9]. split; [done|]. do 8 (etrans; [eassumption|]). done.
Qed.

(** ** Everything that can happen *)

Context (isEqual : Z → Z → Rt → outcome (bool * Rt)) (copy : Z → Rt → outcome (Z * Rt)).
Hypothesis isEqual_runs : ∀ held a b w, rl_ok [] held w → ∃ x w', isEqual a b w = Ret (x, w') ∧ rtc (guest_step held) w w'.
Hypothesis copy_runs : ∀ held o w, rl_ok [] held w → ∃ u w', copy o w = Ret (u, w') ∧ rtc (guest_step held) w w' ∧ spare held u w'.

Inductive world_step (w : Rt) : Rt → Prop :=
| step_app w' : guest_step [] w w' → world_step w w'
| step_pass fuel l is_main w' :
    run_loop_pass clock values send takes_argument commit_implicit_transaction handle_players handle_events recomposite_if_necessary
      poll_audio_queue poll_audio_unit env_sleep fuel l is_main w = Ret (Some w') → world_step w w'
| step_handle t r w' : handle_timer clock values send t w = Ret (r, w') → world_step w w'
| step_fire t w' : spare [] t w → fire values send t w = Ret w' → world_step w w'
| step_cancel l target selector argument w' : cancel_perform_requests values isEqual l target selector argument w = Ret w' → world_step w w'
| step_post center note w' : postNotification values send string_of center note w = Ret w' → world_step w w'
| step_post_name center name object user_info w' :
    postNotificationName fresh_id values send copy string_of center name object user_info w = Ret w' → world_step w w'.

Lemma world_step_ok w w' : rl_ok [] [] w → world_step w w' → rl_ok [] [] w'.
Proof.
  intros Hok [w1 Hs|fuel l is_main w1 E|t r w1 E|t w1 Hsp E|l tg sel arg w1 E|c note w1 E|c name obj ui w1 E].
  - by apply (app_step_good [] w).
  - by eapply pass_good.
  - by eapply handle_timer_good.
  - destruct (fire_good [] w t w1) as [Hok1 _]; [by apply spare_hold|done|]. apply (ok_weaken _ _ [t]); [done|]. intros x _. simpl. lia.
  - assert (Hl : is_Some (run_loops w !! l)).
    { unfold cancel_perform_requests, borrow_loop in E. destruct (run_loops w !! l); [done|discriminate]. }
    destruct (cancel_good isEqual isEqual_runs [] w l tg sel arg Hok Hl) as (w2 & E2 & Hok2 & _). rewrite E in E2. by injection E2 as <-.
  - by eapply post_good.
  - by eapply post_name_good.
Qed.
(** At the start there are run loops and classes, but no other objects. *)
Definition initial_rt (w : Rt) : Prop :=
  objs w = ∅ ∧ pools w = [] ∧ ∀ l r, run_loops w !! l = Some r → l ≠ 0 ∧ l ∈ statics w ∧ timers r = [] ∧ selector_objects r = [].
Lemma initial_rt_ok w : initial_rt w → rl_ok [] [] w.
Proof.
  intros (Eo & Ep & Hl). assert (Ei : internal values w ≡ₚ []).
  { unfold internal. rewrite Eo, Ep. cbn [mjoin list_join foldr]. rewrite app_nil_r. unfold total at 1. rewrite map_to_list_empty. cbn.
    assert (Hall : ∀ r, r ∈ (map_to_list (run_loops w)).*2 → loop_refs r = []).
    { intros r ([k r'] & -> & Hin)%list_elem_of_fmap. apply elem_of_map_to_list in Hin. destruct (Hl _ _ Hin) as (_ & _ & Et & Es). unfold loop_refs. cbn [snd]. by rewrite Et, Es. }
    unfold total. revert Hall. generalize ((map_to_list (run_loops w)).*2). intros rs Hall. induction rs as [|r rs IH]; [done|]. cbn.
    rewrite (Hall r) by by left. apply IH. intros r' Hr'. apply Hall. by right. }
  split.
  - intros o _. rewrite Eo, lookup_empty. cbn [app]. by rewrite Ei.
  - intros o _. by rewrite Eo, lookup_empty.
  - intros l r Hr. destruct (Hl l r Hr) as (? & ? & -> & _). split_and!; try done; [constructor|]. by intros t ?%elem_of_nil.
  - intros t n tm. by rewrite Eo, lookup_empty.
Qed.

End passes.
End callbacks.
End runs.

(** ** A run, and defects *)

(** A clock that ticks once a second; object 5 is the run loop, 9 a class. *)
Definition ex_clock (i : nat) : Z := Z.of_nat i * second.
Definition ex_fresh (w : Rt) : Z := 16 * (Z.of_nat (size (objs w)) + 1).
Definition ex_values (c : Observers) : list (list Observer) := (map_to_list c).*2.
Definition ex_keys (c : Observers) : list (option (list Z)) := (map_to_list c).*1.
Definition ex_string (_ : Z) (_ : Rt) : list Z := [].
Definition ex_send (_ _ : Z) (_ : list Z) (w : Rt) : outcome Rt := Ret w.
Definition ex_poll (w : Rt) : outcome Rt := Ret w.
Definition ex_events (w : Rt) : outcome (option Z * Rt) := Ret (None, w).
Definition ex_rt0 : Rt := mkRt ∅ {[5; 9]} {[5 := mkLoop [] [] [] []]} [] 0 [].
Definition ex_schedule : guest_op := GSchedule 5 f64_one 9 77 0 true.
Definition ex_or (d : Rt) (o : outcome Rt) : Rt := match o with Ret w => w | _ => d end.
Definition ex_rt1 : Rt := ex_or ex_rt0 (run_guest ex_clock ex_fresh ex_values ex_string ex_keys ex_schedule ex_rt0).


(** The example of the comment in [handle_timer]: a timer of 60 seconds that is due at 60 and handled at 150 is due at 180. *)
Example no_catching_up : next_due (mkTimer (f64_of 60) (60 * second) 9 77 0 true (Some (60 * second)) false 5) (60 * second) (150 * second) = Ret (180 * second).
Proof. vm_compute. reflexivity. Qed.

(** A timer that was never scheduled cannot be invalidated. *)
Example unscheduled_invalidate :
  ('(t, w) ← timerWithTimeInterval ex_clock ex_fresh f64_one 9 77 0 false ex_rt0; invalidate ex_values t w) = Panic.
Proof. vm_compute. reflexivity. Qed.
(** A request with an infinite delay. *)
Example infinite_delay : add_perform_request ex_clock 5 9 77 0 (Some (S754_infinity false)) 0 ex_rt0 = Panic.
Proof. vm_compute. reflexivity. Qed.
(** A request that is made while the arguments of others are compared is lost. *)
Example cancel_loses_requests :
  let isEqual a b w := w ← add_perform_request ex_clock 5 9 78 0 None 0 w; Ret (true, w) in
  (w ← add_perform_request ex_clock 5 9 77 9 None 0 ex_rt0; w ← cancel_perform_requests ex_values isEqual 5 9 77 9 w; Ret (selector_objects <$> run_loops w !! 5)) = Ret (Some []).
Proof. vm_compute. reflexivity. Qed.

(** An app that in its callback asks for the next call, with no delay, is called for ever: the run loop does nothing else. *)
Definition repost (_ _ : Z) (_ : list Z) (w : Rt) : outcome Rt := add_perform_request (λ _, 0) 5 9 77 0 (Some (S754_zero false)) 0 w.
Lemma repost_never_ends fuel : ∀ w r,
  9 ∈ statics w → run_loops w !! 5 = Some r → selector_objects r = [mkOss 9 77 0 (Some 0) 0] →
  run_requests (λ _, 0) ex_values repost (λ _, false) fuel 5 None w = Ret None.
Proof.
  induction fuel as [|fuel IH]; intros w r H9 Hr Hs; [done|]. cbn [run_requests]. unfold borrow_loop. rewrite Hr. cbn [unwrap mbind outcome_bind]. rewrite Hs.
  assert (Hu : ∀ w', statics w' = statics w → uncounted 9 w' = true) by (intros w' Ew; unfold uncounted; rewrite Ew, bool_decide_true by done; done).
  cbn [find_due oss_due_by instant_now Z.leb Z.compare lookup list_lookup unwrap mbind outcome_bind delete list_delete].
  set (w1 := put_loop 5 (set_selector_objects [] r) (set_ticks (S (ticks w)) w)). unfold run_request, repost. cbn [oss_selector oss_argument oss_target Z.eqb rassert mbind outcome_bind].
  unfold add_perform_request, rl_retain. rewrite (Hu w1 eq_refl). cbn [uncounted Z.eqb orb mbind outcome_bind]. unfold borrow_loop, w1. cbn [put_loop run_loops].
  rewrite lookup_insert_eq. cbn [unwrap mbind outcome_bind instant_now f64_max SFltb SFcompare from_secs_f64].
  replace (instant_add 0 0) with (Some 0) by (vm_compute; reflexivity). cbn [unwrap mbind outcome_bind selector_objects set_selector_objects app].
  unfold finish_request, rl_release. cbn [oss_target oss_argument oss_semaphore rl_release_rec]. rewrite Hu by done. cbn [mbind outcome_bind uncounted Z.eqb orb].
  eapply IH; [done|cbn [run_loops put_loop]; apply lookup_insert_eq|done].
Qed.
(** An observer that is removed, and deallocated, by an earlier observer of the same notification is used after it is gone. *)
Example post_to_removed_observer :
  let send tg (_ : Z) (_ : list Z) w :=
    if tg =? 32 then w ← removeObserver ex_values ex_string ex_keys 16 48 w; rl_release ex_values 48 w else Ret w in
  ('(center, w) ← rl_alloc ex_fresh (CenterObj ∅) ex_rt0; '(a, w) ← rl_alloc ex_fresh PlainObj w; '(b, w) ← rl_alloc ex_fresh PlainObj w;
   '(note, w) ← rl_alloc ex_fresh (NoteObj (mkNote 9 0 0)) w;
   w ← addObserver ex_string center a 77 9 0 w; w ← addObserver ex_string center b 77 9 0 w;
   Ret (objs w !! b, postNotification ex_values send ex_string center note w)) = Ret (Some (1, PlainObj), Panic).
Proof. vm_compute. reflexivity. Qed.
