(* ===== verification/Collections.v ===== *)
(** * Arrays, dictionaries and sets ([frameworks/foundation/ns_array.rs],
      [ns_dictionary.rs], [ns_set.rs])

    The host side of the Foundation collections.  They send messages to their elements
    ([hash], [isEqual:], [copy], [retain], [release]), which run guest code; what those do is an
    interface, [ObjOps], over the whole state.  A collection's host object is taken out of
    the runtime's table while messages are sent to its elements, as the code does. *)

From S2P Require Import Prelude Qsort.

Definition nil_object : Z := 0.
Definition NSNotFound : Z := 2147483647.

(** ** Host objects *)

(** [DictionaryHostObject]: lists of key-value pairs by hash. *)
Record DictionaryHostObject := mkDict { dict_map : gmap Z (list (Z * Z)); dict_count : Z }.
Definition DictionaryHostObject_default : DictionaryHostObject := mkDict ∅ 0.

(** The host objects of this module's classes, by object. *)
Record Tables := mkTables {
  arrays : gmap Z (list Z);
  dictionaries : gmap Z DictionaryHostObject;
  set_dicts : gmap Z DictionaryHostObject;
  enumerators : gmap Z (Z * list Z)
}.
Definition set_arrays (x : gmap Z (list Z)) (t : Tables) : Tables := mkTables x (dictionaries t) (set_dicts t) (enumerators t).
Definition set_dictionaries (x : gmap Z DictionaryHostObject) (t : Tables) : Tables := mkTables (arrays t) x (set_dicts t) (enumerators t).
Definition set_set_dicts (x : gmap Z DictionaryHostObject) (t : Tables) : Tables := mkTables (arrays t) (dictionaries t) x (enumerators t).
Definition set_enumerators (x : gmap Z (Z * list Z)) (t : Tables) : Tables := mkTables (arrays t) (dictionaries t) (set_dicts t) x.

(** What the collections use of the runtime and of their elements. *)
Class ObjOps (S : Type) := {
  tables : S → Tables;
  set_tables : Tables → S → S;
  obj_hash : Z → S → outcome (Z * S);
  obj_isEqual : Z → Z → S → outcome (bool * S);
  obj_copy : Z → S → outcome (Z * S);
  obj_retain : Z → S → outcome (Z * S);
  obj_release : Z → S → outcome S;
  obj_autorelease : Z → S → outcome (Z * S);
  (** [alloc_object], [dealloc_object] *)
  obj_alloc : S → outcome (Z * S);
  obj_dealloc : Z → S → outcome S;
  (** [[NSNull null]] *)
  obj_null : S → outcome (Z * S)
}.

(** Messages to each of a list of objects. *)
Definition retain_all {S} `{ObjOps S} : list Z → S → outcome S := for_each (λ o s, '(_, s) ← obj_retain o s; Ret s).
Definition release_all {S} `{ObjOps S} : list Z → S → outcome S := for_each obj_release.

(** ** Dictionaries *)

Section dictionaries.
Context {S : Type} `{!ObjOps S}.
(** The order in which the lists of a hash map come is not specified. *)
Variable values : gmap Z (list (Z * Z)) → list (list (Z * Z)).

(** The position and the value of the first pair with a key that is, or is equal to, [key]. *)
Fixpoint find_key (key : Z) (collisions : list (Z * Z)) (s : S) : outcome (option (nat * (Z * Z)) * S) :=
  match collisions with
  | [] => Ret (None, s)
  | (candidate_key, value) :: rest =>
      '(eq, s) ← (if candidate_key =? key then Ret (true, s) else obj_isEqual candidate_key key s);
      if eq : bool then Ret (Some (0%nat, (candidate_key, value)), s)
      else '(r, s) ← find_key key rest s; Ret (match r with Some (i, x) => Some (Datatypes.S i, x) | None => None end, s)
  end.

Definition dict_lookup (d : DictionaryHostObject) (key : Z) (s : S) : outcome (Z * S) :=
  '(hash, s) ← obj_hash key s;
  match dict_map d !! hash with
  | None => Ret (nil_object, s)
  | Some collisions =>
      '(r, s) ← find_key key collisions s;
      Ret (match r with Some (_, (_, value)) => value | None => nil_object end, s)
  end.

Definition dict_insert (d : DictionaryHostObject) (key value : Z) (copy_key : bool) (s : S) : outcome (DictionaryHostObject * S) :=
  '(key, s) ← (if copy_key then obj_copy key s else obj_retain key s);
  '(hash, s) ← obj_hash key s;
  '(value, s) ← obj_retain value s;
  match dict_map d !! hash with
  | None =>
      count ← u32 (dict_count d + 1);
      Ret (mkDict (<[hash := [(key, value)]]> (dict_map d)) count, s)
  | Some collisions =>
      '(r, s) ← find_key key collisions s;
      match r with
      | Some (i, (candidate_key, existing_value)) =>
          s ← obj_release existing_value s;
          Ret (mkDict (<[hash := <[i := (candidate_key, value)]> collisions]> (dict_map d)) (dict_count d), s)
      | None =>
          count ← u32 (dict_count d + 1);
          Ret (mkDict (<[hash := collisions ++ [(key, value)]]> (dict_map d)) count, s)
      end
  end.

Definition dict_remove (d : DictionaryHostObject) (key : Z) (s : S) : outcome (DictionaryHostObject * S) :=
  '(hash, s) ← obj_hash key s;
  match dict_map d !! hash with
  | None => Ret (d, s)
  | Some collisions =>
      '(r, s) ← find_key key collisions s;
      match r with
      | None => Ret (d, s)
      | Some (idx, (existing_key, value)) =>
          s ← obj_release existing_key s;
          s ← obj_release value s;
          count ← u32 (dict_count d - 1);
          Ret (mkDict (<[hash := delete idx collisions]> (dict_map d)) count, s)
      end
  end.

Definition dict_entries (d : DictionaryHostObject) : list (Z * Z) := concat (values (dict_map d)).
Definition dict_release (d : DictionaryHostObject) (s : S) : outcome S :=
  for_each (λ '(key, value) s, s ← obj_release key s; obj_release value s) (dict_entries d) s.
Definition iter_keys (d : DictionaryHostObject) : list Z := (dict_entries d).*1.

Definition insert_all (copy_key : bool) (l : list (Z * Z)) (x : DictionaryHostObject * S) : outcome (DictionaryHostObject * S) :=
  for_each (λ '(key, value) '(d, s), dict_insert d key value copy_key s) l x.

(** ** [NSDictionary], [NSMutableDictionary] *)

(** [std::mem::take(env.objc.borrow_mut(this))], and putting a host object back. *)
Definition take_dict (this : Z) (s : S) : outcome (DictionaryHostObject * S) :=
  d ← unwrap (dictionaries (tables s) !! this);
  Ret (d, set_tables (set_dictionaries (<[this := DictionaryHostObject_default]> (dictionaries (tables s))) (tables s)) s).
Definition put_dict (this : Z) (d : DictionaryHostObject) (s : S) : outcome S :=
  _ ← unwrap (dictionaries (tables s) !! this);
  Ret (set_tables (set_dictionaries (<[this := d]> (dictionaries (tables s))) (tables s)) s).
Definition alloc_dict (s : S) : outcome (Z * S) :=
  '(this, s) ← obj_alloc s;
  Ret (this, set_tables (set_dictionaries (<[this := DictionaryHostObject_default]> (dictionaries (tables s))) (tables s)) s).

Definition dict_from_keys_and_objects (keys_and_objects : list (Z * Z)) (s : S) : outcome (Z * S) :=
  '(dict, s) ← alloc_dict s;
  '(host_object, s) ← insert_all true keys_and_objects (DictionaryHostObject_default, s);
  s ← put_dict dict host_object s;
  Ret (dict, s).

(** [initWithObjectsAndKeys:]: the objects and keys up to the first [nil] object. *)
Definition init_with_objects_and_keys (this first_object first_key : Z) (rest : list (Z * Z)) (s : S) : outcome (Z * S) :=
  rassert (negb (first_key =? nil_object));;
  '(d, s) ← dict_insert DictionaryHostObject_default first_key first_object true s;
  '(d, s) ← for_each (λ '(object, key) '(d, s), rassert (negb (key =? nil_object));; dict_insert d key object true s) rest (d, s);
  s ← put_dict this d s;
  Ret (this, s).

Definition init_with_dictionary_common (this other_dict : Z) (s : S) : outcome (Z * S) :=
  '(other, s) ← take_dict other_dict s;
  '(d, s) ← for_each (λ key '(d, s), '(object, s) ← dict_lookup other key s; dict_insert d key object true s) (iter_keys other)
              (DictionaryHostObject_default, s);
  s ← put_dict this d s;
  s ← put_dict other_dict other s;
  Ret (this, s).

Definition dict_objectForKey (this key : Z) (s : S) : outcome (Z * S) :=
  '(host_obj, s) ← take_dict this s;
  '(res, s) ← dict_lookup host_obj key s;
  s ← put_dict this host_obj s;
  Ret (res, s).
Definition dict_count_method (this : Z) (s : S) : outcome Z :=
  d ← unwrap (dictionaries (tables s) !! this); Ret (dict_count d).
Definition dict_setObject_forKey (this object key : Z) (s : S) : outcome S :=
  rassert (negb (object =? nil_object));;
  rassert (negb (key =? nil_object));;
  '(host_obj, s) ← take_dict this s;
  '(host_obj, s) ← dict_insert host_obj key object true s;
  put_dict this host_obj s.
Definition dict_removeObjectForKey (this key : Z) (s : S) : outcome S :=
  rassert (negb (key =? nil_object));;
  '(host_obj, s) ← take_dict this s;
  '(host_obj, s) ← dict_remove host_obj key s;
  put_dict this host_obj s.
Definition dict_setValue_forKey (this value key : Z) (s : S) : outcome S :=
  if value =? nil_object then dict_removeObjectForKey this key s else dict_setObject_forKey this value key s.
Definition dict_removeAllObjects (this : Z) (s : S) : outcome S :=
  '(old_host_obj, s) ← take_dict this s;
  dict_release old_host_obj s.
Definition dict_addEntriesFromDictionary (this other : Z) (s : S) : outcome S :=
  '(host_obj, s) ← take_dict other s;
  s ← for_each (λ '(k, v), dict_setObject_forKey this v k) (dict_entries host_obj) s;
  put_dict other host_obj s.
(** An immutable dictionary is its own copy; a mutable one has its entries copied. *)
Definition dict_copyWithZone (this : Z) (s : S) : outcome (Z * S) := obj_retain this s.
Definition mutable_dict_copyWithZone (this : Z) (s : S) : outcome (Z * S) :=
  d ← unwrap (dictionaries (tables s) !! this);
  dict_from_keys_and_objects (dict_entries d) s.
Definition dict_mutableCopyWithZone (this : Z) (s : S) : outcome (Z * S) :=
  '(mut_dict, s) ← alloc_dict s;
  '(host_obj, s) ← take_dict this s;
  s ← for_each (λ '(k, v), dict_setObject_forKey mut_dict v k) (dict_entries host_obj) s;
  s ← put_dict this host_obj s;
  Ret (mut_dict, s).
Definition dict_dealloc (this : Z) (s : S) : outcome S :=
  '(d, s) ← take_dict this s;
  s ← dict_release d s;
  s ← obj_dealloc this s;
  Ret (set_tables (set_dictionaries (delete this (dictionaries (tables s))) (tables s)) s).
End dictionaries.

(** ** [NSArray], [NSMutableArray] *)

Section arrays.
Context {S : Type} `{!ObjOps S}.

Definition borrow_array (this : Z) (s : S) : outcome (list Z) := unwrap (arrays (tables s) !! this).
Definition put_array (this : Z) (l : list Z) (s : S) : outcome S :=
  _ ← borrow_array this s;
  Ret (set_tables (set_arrays (<[this := l]> (arrays (tables s))) (tables s)) s).
Definition alloc_array (s : S) : outcome (Z * S) :=
  '(this, s) ← obj_alloc s;
  Ret (this, set_tables (set_arrays (<[this := []]> (arrays (tables s))) (tables s)) s).

(** The elements are already retained. *)
Definition from_vec (objects : list Z) (s : S) : outcome (Z * S) :=
  '(array, s) ← alloc_array s;
  s ← put_array array objects s;
  Ret (array, s).

Definition array_count (this : Z) (s : S) : outcome Z := l ← borrow_array this s; u32 (Z.of_nat (length l)).
Definition objectAtIndex (this index : Z) (s : S) : outcome Z := l ← borrow_array this s; unwrap (l !! Z.to_nat index).

Definition firstObject (this : Z) (s : S) : outcome Z :=
  size ← array_count this s;
  if size =? 0 then Ret nil_object else objectAtIndex this 0 s.
Definition lastObject (this : Z) (s : S) : outcome Z :=
  size ← array_count this s;
  if size =? 0 then Ret nil_object else objectAtIndex this (size - 1) s.

(** [for i in 0..count] with a result for the first element that is equal. *)
Definition index_body (this object : Z) (i : Z) (s : S) : outcome (S + Z * S) :=
  curr_object ← objectAtIndex this i s;
  '(equal, s) ← obj_isEqual object curr_object s;
  Ret (if equal : bool then inr (i, s) else inl s).
Definition indexOfObject (this object : Z) (s : S) : outcome (Z * S) :=
  count ← array_count this s;
  r ← for_range count (index_body this object) s;
  match r with inl s => Ret (NSNotFound, s) | inr x => Ret x end.
Definition array_containsObject (this object : Z) (s : S) : outcome (bool * S) :=
  '(idx, s) ← indexOfObject this object s;
  Ret (negb (idx =? NSNotFound), s).

Definition isEqualToArray (this other : Z) (s : S) : outcome (bool * S) :=
  if other =? nil_object then Ret (false, s)
  else
    count ← array_count this s;
    other_count ← array_count other s;
    if negb (count =? other_count) then Ret (false, s)
    else
      r ← for_range count (λ i s,
        curr_object ← objectAtIndex this i s;
        curr_other_object ← objectAtIndex other i s;
        '(equal, s) ← obj_isEqual curr_object curr_other_object s;
        Ret (if equal : bool then inl s else inr (false, s))) s;
      match r with inl s => Ret (true, s) | inr x => Ret x end.

Definition insertObject_atIndex (this object index : Z) (s : S) : outcome S :=
  '(_, s) ← obj_retain object s;
  l ← borrow_array this s;
  rassert (index <=? Z.of_nat (length l));;
  put_array this (take (Z.to_nat index) l ++ object :: drop (Z.to_nat index) l) s.
Definition array_addObject (this object : Z) (s : S) : outcome S :=
  '(_, s) ← obj_retain object s;
  l ← borrow_array this s;
  put_array this (l ++ [object]) s.
Definition removeObjectAtIndex (this index : Z) (s : S) : outcome S :=
  l ← borrow_array this s;
  object ← unwrap (l !! Z.to_nat index);
  s ← put_array this (delete (Z.to_nat index) l) s;
  obj_release object s.
Definition replaceObjectAtIndex_withObject (this index obj : Z) (s : S) : outcome S :=
  '(_, s) ← obj_retain obj s;
  l ← borrow_array this s;
  object ← unwrap (l !! Z.to_nat index);
  s ← put_array this (<[Z.to_nat index := obj]> l) s;
  obj_release object s.
Definition removeLastObject (this : Z) (s : S) : outcome S :=
  l ← borrow_array this s;
  object ← unwrap (last l);
  s ← put_array this (removelast l) s;
  obj_release object s.
Definition array_removeAllObjects (this : Z) (s : S) : outcome S :=
  l ← borrow_array this s;
  s ← put_array this [] s;
  s ← release_all l s;
  put_array this [] s.

(** The indices of equal elements are found first, then removed one after the other. *)
Definition equal_indices (this object : Z) (s : S) : outcome (list Z * S) :=
  count ← array_count this s;
  r ← for_range (R := list Z * S) count (λ i '(to_remove, s),
    curr_object ← objectAtIndex this i s;
    '(equal, s) ← obj_isEqual object curr_object s;
    Ret (inl (if equal : bool then to_remove ++ [i] else to_remove, s))) ([], s);
  match r with inl x | inr x => Ret x end.
Definition array_removeObject (this object : Z) (s : S) : outcome S :=
  '(to_remove, s) ← equal_indices this object s;
  for_each (removeObjectAtIndex this) to_remove s.

Definition array_dealloc (this : Z) (s : S) : outcome S :=
  l ← borrow_array this s;
  s ← put_array this [] s;
  s ← release_all l s;
  s ← obj_dealloc this s;
  Ret (set_tables (set_arrays (delete this (arrays (tables s))) (tables s)) s).

Definition mutable_copy_inner (arr : Z) (s : S) : outcome (Z * S) :=
  '(mut_arr, s) ← alloc_array s;
  array ← borrow_array arr s;
  s ← retain_all array s;
  s ← put_array mut_arr array s;
  Ret (mut_arr, s).
(** An immutable array is its own copy. *)
Definition array_copyWithZone (this : Z) (s : S) : outcome (Z * S) := obj_retain this s.
Definition mutable_array_copyWithZone (this : Z) (s : S) : outcome (Z * S) := mutable_copy_inner this s.

Definition subarrayWithRange (this location length_ : Z) (s : S) : outcome (Z * S) :=
  l ← borrow_array this s;
  end_ ← u32 (location + length_);
  rassert ((location <=? end_) && (end_ <=? Z.of_nat (length l)));;
  let tmp := take (Z.to_nat length_) (drop (Z.to_nat location) l) in
  s ← retain_all tmp s;
  '(res, s) ← from_vec tmp s;
  obj_autorelease res s.

(** Enumerators have a copy of the elements, and keep the array. *)
Definition object_enumerator_inner_helper (arr : Z) (vec : list Z) (s : S) : outcome (Z * S) :=
  '(_, s) ← obj_retain arr s;
  '(enumerator, s) ← obj_alloc s;
  obj_autorelease enumerator (set_tables (set_enumerators (<[enumerator := (arr, vec)]> (enumerators (tables s))) (tables s)) s).
Definition object_enumerator_inner (arr : Z) (s : S) : outcome (Z * S) :=
  l ← borrow_array arr s; object_enumerator_inner_helper arr l s.
Definition reverse_object_enumerator_inner (arr : Z) (s : S) : outcome (Z * S) :=
  l ← borrow_array arr s; object_enumerator_inner_helper arr (reverse l) s.
Definition nextObject (this : Z) (s : S) : outcome (Z * S) :=
  '(arr, it) ← unwrap (enumerators (tables s) !! this);
  match it with
  | [] => Ret (nil_object, s)
  | o :: rest => Ret (o, set_tables (set_enumerators (<[this := (arr, rest)]> (enumerators (tables s))) (tables s)) s)
  end.
Definition enumerator_dealloc (this : Z) (s : S) : outcome S :=
  '(arr, _) ← unwrap (enumerators (tables s) !! this);
  s ← obj_release arr s;
  s ← obj_dealloc this s;
  Ret (set_tables (set_enumerators (delete this (enumerators (tables s))) (tables s)) s).

(** The loop over an enumerator, for as many steps as it has elements and one more. *)
Fixpoint enumerate_objects (fuel : nat) (enumerator : Z) (f : Z → S → outcome S) (s : S) : outcome S :=
  match fuel with
  | O => Panic
  | Datatypes.S fuel =>
      '(next, s) ← nextObject enumerator s;
      if next =? nil_object then Ret s else s ← f next s; enumerate_objects fuel enumerator f s
  end.
Definition over_objects (array : Z) (f : Z → S → outcome S) (s : S) : outcome S :=
  '(enumerator, s) ← object_enumerator_inner array s;
  '(_, it) ← unwrap (enumerators (tables s) !! enumerator);
  enumerate_objects (Datatypes.S (length it)) enumerator f s.
Definition addObjectsFromArray (this other : Z) (s : S) : outcome S := over_objects other (array_addObject this) s.

(** [initWithObjects:]: the objects up to the first [nil]. *)
Definition initWithObjects (this firstObj : Z) (rest : list Z) (s : S) : outcome (Z * S) :=
  s ← retain_all (firstObj :: rest) s;
  s ← put_array this (firstObj :: rest) s;
  Ret (this, s).
Definition arrayWithObject (object : Z) (s : S) : outcome (Z * S) :=
  '(_, s) ← obj_retain object s;
  '(array, s) ← from_vec [object] s;
  obj_autorelease array s.

(** [sortUsingFunction:context:] and [sortUsingSelector:]: the elements are out of the table meanwhile. *)
Definition sort_compare (comparator : Z → Z → S → outcome (Z * S)) (l r : Z) (x : S * list Z) : outcome (Z * (S * list Z)) :=
  let '(s, array) := x in
  a ← unwrap (array !! Z.to_nat l);
  b ← unwrap (array !! Z.to_nat r);
  '(c, s) ← comparator a b s;
  Ret (c, (s, array)).
Definition sort_swap (l r : Z) (x : S * list Z) : outcome (S * list Z) :=
  let '(s, array) := x in
  a ← unwrap (array !! Z.to_nat l);
  b ← unwrap (array !! Z.to_nat r);
  Ret (s, <[Z.to_nat r := a]> (<[Z.to_nat l := b]> array)).
Definition sortUsingFunction (comparator : Z → Z → S → outcome (Z * S)) (this : Z) (s : S) : outcome S :=
  array ← borrow_array this s;
  s ← put_array this [] s;
  len ← u32 (Z.of_nat (length array));
  '(s, array) ← qsort_generic (sort_compare comparator) sort_swap len (s, array);
  put_array this array s.

(** The subclass for [CFArray] without callbacks overrides four methods. *)
Definition non_retaining_addObject (this object : Z) (s : S) : outcome S :=
  l ← borrow_array this s; put_array this (l ++ [object]) s.
Definition non_retaining_removeObjectAtIndex (this index : Z) (s : S) : outcome S :=
  l ← borrow_array this s;
  _ ← unwrap (l !! Z.to_nat index);
  put_array this (delete (Z.to_nat index) l) s.
Definition non_retaining_removeLastObject (this : Z) (s : S) : outcome S :=
  l ← borrow_array this s;
  _ ← unwrap (last l);
  put_array this (removelast l) s.
End arrays.

(** ** [NSSet], [NSMutableSet]: dictionaries from objects to [NSNull] *)

Section sets.
Context {S : Type} `{!ObjOps S}.
Variable values : gmap Z (list (Z * Z)) → list (list (Z * Z)).

Definition take_set (this : Z) (s : S) : outcome (DictionaryHostObject * S) :=
  d ← unwrap (set_dicts (tables s) !! this);
  Ret (d, set_tables (set_set_dicts (<[this := DictionaryHostObject_default]> (set_dicts (tables s))) (tables s)) s).
Definition put_set (this : Z) (d : DictionaryHostObject) (s : S) : outcome S :=
  _ ← unwrap (set_dicts (tables s) !! this);
  Ret (set_tables (set_set_dicts (<[this := d]> (set_dicts (tables s))) (tables s)) s).

Definition set_addObject (this object : Z) (s : S) : outcome S :=
  '(null, s) ← obj_null s;
  '(d, s) ← take_set this s;
  '(d, s) ← dict_insert d object null false s;
  put_set this d s.
Definition set_removeObject (this object : Z) (s : S) : outcome S :=
  '(d, s) ← take_set this s;
  '(d, s) ← dict_remove d object s;
  put_set this d s.
Definition set_removeAllObjects (this : Z) (s : S) : outcome S :=
  '(d, s) ← take_set this s;
  dict_release values d s.
Definition set_count (this : Z) (s : S) : outcome Z := d ← unwrap (set_dicts (tables s) !! this); Ret (dict_count d).
Definition anyObject (this : Z) (s : S) : outcome Z :=
  d ← unwrap (set_dicts (tables s) !! this);
  Ret (default nil_object (head (iter_keys values d))).
Definition allObjects (this : Z) (s : S) : outcome (Z * S) :=
  d ← unwrap (set_dicts (tables s) !! this);
  from_vec (iter_keys values d) s.
Definition set_from_objects (first_obj : Z) (rest : list Z) (s : S) : outcome (DictionaryHostObject * S) :=
  '(null, s) ← obj_null s;
  insert_all false ((λ o, (o, null)) <$> (first_obj :: rest)) (DictionaryHostObject_default, s).
Definition set_from_array (array : Z) (s : S) : outcome (DictionaryHostObject * S) :=
  '(null, s) ← obj_null s;
  count ← array_count array s;
  r ← for_range (R := DictionaryHostObject * S) count (λ i '(d, s),
    next ← objectAtIndex array i s;
    x ← dict_insert d next null false s;
    Ret (inl x)) (DictionaryHostObject_default, s);
  match r with inl x | inr x => Ret x end.
(** The loop over the objects of another set. *)
Definition over_set (other : Z) (f : Z → S → outcome S) (s : S) : outcome S :=
  '(array, s) ← allObjects other s;
  over_objects array f s.
Definition unionSet (this other : Z) (s : S) : outcome S := over_set other (set_addObject this) s.
Definition set_dealloc (this : Z) (s : S) : outcome S :=
  '(d, s) ← take_set this s;
  s ← dict_release values d s;
  s ← obj_dealloc this s;
  Ret (set_tables (set_set_dicts (delete this (set_dicts (tables s))) (tables s)) s).

(** ** The rest of [NSDictionary], which needs arrays *)

Definition all_keys_common (this : Z) (s : S) : outcome (Z * S) :=
  d ← unwrap (dictionaries (tables s) !! this);
  let keys := iter_keys values d in
  s ← retain_all keys s;
  '(res, s) ← from_vec keys s;
  obj_autorelease res s.
Definition allValues (this : Z) (s : S) : outcome (Z * S) :=
  d ← unwrap (dictionaries (tables s) !! this);
  let vals := (dict_entries values d).*2 in
  s ← retain_all vals s;
  '(res, s) ← from_vec vals s;
  obj_autorelease res s.
Definition allKeysForObject (this obj : Z) (s : S) : outcome (Z * S) :=
  '(res, s) ← alloc_array s;
  '(host_obj, s) ← take_dict this s;
  s ← for_each (λ '(key, value) s,
        '(equal, s) ← obj_isEqual obj value s;
        if equal : bool then array_addObject res key s else Ret s) (dict_entries values host_obj) s;
  s ← put_dict this host_obj s;
  '(res_imm, s) ← mutable_array_copyWithZone res s;
  s ← obj_release res s;
  obj_autorelease res_imm s.
Definition isEqualToDictionary (this other : Z) (s : S) : outcome (bool * S) :=
  if other =? nil_object then Ret (false, s)
  else
    count ← dict_count_method this s;
    other_count ← dict_count_method other s;
    if negb (count =? other_count) then Ret (false, s)
    else
      '(keys_arr, s) ← all_keys_common this s;
      keys_count ← array_count keys_arr s;
      r ← for_range keys_count (λ i s,
        key ← objectAtIndex keys_arr i s;
        '(value, s) ← dict_objectForKey this key s;
        '(other_value, s) ← dict_objectForKey other key s;
        '(equal, s) ← obj_isEqual value other_value s;
        Ret (if equal : bool then inl s else inr (false, s))) s;
      match r with inl s => Ret (true, s) | inr x => Ret x end.
End sets.

(** ** [CFDictionary] *)

Section cf_dictionary.
Context {S : Type} `{!ObjOps S}.
Variable values : gmap Z (list (Z * Z)) → list (list (Z * Z)).
(** A call of a guest function: [GuestFunction::call_from_host]. *)
Variable call_guest : Z → list Z → S → outcome (Z * S).

(** The callbacks the code uses; 0 is the null function. *)
Record CFDictionaryCallBacks := mkCFCallBacks {
  cb_key_retain : Z; cb_key_release : Z; cb_key_equal : Z; cb_key_hash : Z; cb_value_retain : Z; cb_value_release : Z
}.
Record CFDictionaryHostObject := mkCFDict { cf_superclass : DictionaryHostObject; cf_callbacks : CFDictionaryCallBacks }.
Definition CFDictionaryHostObject_default : CFDictionaryHostObject := mkCFDict DictionaryHostObject_default (mkCFCallBacks 0 0 0 0 0 0).
Definition set_cf_superclass (x : DictionaryHostObject) (d : CFDictionaryHostObject) : CFDictionaryHostObject := mkCFDict x (cf_callbacks d).

Definition cf_hash (d : CFDictionaryHostObject) (key : Z) (s : S) : outcome (Z * S) :=
  let hash_func := cb_key_hash (cf_callbacks d) in
  if hash_func =? 0 then Ret (key, s) else call_guest hash_func [key] s.
Definition cf_equal_keys (d : CFDictionaryHostObject) (key1 key2 : Z) (s : S) : outcome (bool * S) :=
  let equal_func := cb_key_equal (cf_callbacks d) in
  if equal_func =? 0 then Ret (key1 =? key2, s) else '(r, s) ← call_guest equal_func [key1; key2] s; Ret (negb (r =? 0), s).
Definition cf_retain (func x : Z) (s : S) : outcome (Z * S) := if func =? 0 then Ret (x, s) else call_guest func [nil_object; x] s.
Definition cf_release (func x : Z) (s : S) : outcome S := if func =? 0 then Ret s else '(_, s) ← call_guest func [nil_object; x] s; Ret s.

Fixpoint cf_position (d : CFDictionaryHostObject) (key : Z) (collisions : list (Z * Z)) (s : S) : outcome (option (nat * (Z * Z)) * S) :=
  match collisions with
  | [] => Ret (None, s)
  | (candidate_key, value) :: rest =>
      '(eq, s) ← cf_equal_keys d candidate_key key s;
      if eq : bool then Ret (Some (0%nat, (candidate_key, value)), s)
      else '(r, s) ← cf_position d key rest s; Ret (match r with Some (i, x) => Some (Datatypes.S i, x) | None => None end, s)
  end.

Definition cf_lookup (d : CFDictionaryHostObject) (key : Z) (s : S) : outcome (Z * S) :=
  '(hash, s) ← cf_hash d key s;
  match dict_map (cf_superclass d) !! hash with
  | None => Ret (nil_object, s)
  | Some collisions =>
      '(r, s) ← cf_position d key collisions s;
      Ret (match r with Some (_, (_, value)) => value | None => nil_object end, s)
  end.
(** Whether the key was there is part of the result. *)
Definition cf_remove (d : CFDictionaryHostObject) (key : Z) (s : S) : outcome (bool * CFDictionaryHostObject * S) :=
  '(hash, s) ← cf_hash d key s;
  match dict_map (cf_superclass d) !! hash with
  | None => Ret (false, d, s)
  | Some collisions =>
      '(r, s) ← cf_position d key collisions s;
      match r with
      | None => Ret (false, d, s)
      | Some (pos, (existing_key, existing_value)) =>
          let map := <[hash := delete pos collisions]> (dict_map (cf_superclass d)) in
          s ← cf_release (cb_key_release (cf_callbacks d)) existing_key s;
          s ← cf_release (cb_value_release (cf_callbacks d)) existing_value s;
          count ← u32 (dict_count (cf_superclass d) - 1);
          Ret (true, set_cf_superclass (mkDict map count) d, s)
      end
  end.
Definition cf_insert (d : CFDictionaryHostObject) (key value : Z) (s : S) : outcome (CFDictionaryHostObject * S) :=
  '(hash, s) ← cf_hash d key s;
  '(key, s) ← cf_retain (cb_key_retain (cf_callbacks d)) key s;
  '(value, s) ← cf_retain (cb_value_retain (cf_callbacks d)) value s;
  count ← u32 (dict_count (cf_superclass d) + 1);
  match dict_map (cf_superclass d) !! hash with
  | None => Ret (set_cf_superclass (mkDict (<[hash := [(key, value)]]> (dict_map (cf_superclass d))) count) d, s)
  | Some _ =>
      '(_, d, s) ← cf_remove (set_cf_superclass (mkDict (dict_map (cf_superclass d)) count) d) key s;
      collisions ← unwrap (dict_map (cf_superclass d) !! hash);
      Ret (set_cf_superclass (mkDict (<[hash := collisions ++ [(key, value)]]> (dict_map (cf_superclass d))) (dict_count (cf_superclass d))) d, s)
  end.

(** The functions on a dictionary's host object. *)
Definition CFDictionarySetValue (d : CFDictionaryHostObject) (key value : Z) (s : S) : outcome (CFDictionaryHostObject * S) :=
  rassert (negb (key =? nil_object));; cf_insert d key value s.
Definition CFDictionaryAddValue (d : CFDictionaryHostObject) (key value : Z) (s : S) : outcome (CFDictionaryHostObject * S) :=
  '(res, s) ← cf_lookup d key s;
  if res =? nil_object then CFDictionarySetValue d key value s else Ret (d, s).
Definition CFDictionaryRemoveValue (d : CFDictionaryHostObject) (key : Z) (s : S) : outcome (CFDictionaryHostObject * S) :=
  rassert (negb (key =? nil_object));; '(_, d, s) ← cf_remove d key s; Ret (d, s).
Definition CFDictionaryGetValue (d : CFDictionaryHostObject) (key : Z) (s : S) : outcome (Z * S) := cf_lookup d key s.
Definition CFDictionaryGetCount (d : CFDictionaryHostObject) : outcome Z := i32 (dict_count (cf_superclass d)).
(** The keys are collected first; a key that is [nil] would end the loop. *)
Definition CFDictionaryRemoveAllValues (d : CFDictionaryHostObject) (s : S) : outcome (CFDictionaryHostObject * S) :=
  for_each (λ key '(d, s), CFDictionaryRemoveValue d key s) (iter_keys values (cf_superclass d)) (d, s).
End cf_dictionary.
