(* ===== verification/DictionaryFacts.v ===== *)
(** * Dictionaries are finite maps

    The elements' messages are assumed to do what [NSObject] documents ([ObjLaws]): equal objects have
    equal hashes, a copy is equal to its original, [retain] and [release] change the
    object's reference count by one.  Any sequence of calls on a dictionary then gives the
    results of a finite map from keys up to [isEqual:], and the dictionary owns a reference for each
    key and value in it. *)

From S2P Require Import Prelude Qsort Collections.

(** ** The interface of elements *)

Class ObjLaws (S : Type) `{!ObjOps S} (K : Type) `{!EqDecision K, !Countable K} := {
  (** Objects are equal when they are of the same kind. *)
  kind : Z → K;
  hash_of : K → Z;
  refs : S → Z → Z;
  hash_law s o : 0 < refs s o → ∃ s', obj_hash o s = Ret (hash_of (kind o), s') ∧ tables s' = tables s ∧ ∀ x, refs s' x = refs s x;
  isEqual_law s a b : 0 < refs s a → 0 < refs s b →
    ∃ s', obj_isEqual a b s = Ret (bool_decide (kind a = kind b), s') ∧ tables s' = tables s ∧ ∀ x, refs s' x = refs s x;
  copy_law s o : 0 < refs s o →
    ∃ o' s', obj_copy o s = Ret (o', s') ∧ kind o' = kind o ∧ o' ≠ nil_object ∧ 0 ≤ refs s o' ∧ tables s' = tables s ∧
      ∀ x, refs s' x = refs s x + (if decide (x = o') then 1 else 0);
  retain_law s o : 0 < refs s o →
    ∃ s', obj_retain o s = Ret (o, s') ∧ tables s' = tables s ∧ ∀ x, refs s' x = refs s x + (if decide (x = o) then 1 else 0);
  release_law s o : 0 < refs s o →
    ∃ s', obj_release o s = Ret s' ∧ tables s' = tables s ∧ ∀ x, refs s' x = refs s x - (if decide (x = o) then 1 else 0);
  tables_law t s : tables (set_tables t s) = t;
  tables_refs t s x : refs (set_tables t s) x = refs s x
}.

(** ** Entries *)

(** How often an object is in a list. *)
Definition times (x : Z) (l : list Z) : Z := Z.of_nat (length (filter (x =.) l)).
Lemma times_nil x : times x [] = 0.
Proof. done. Qed.
Lemma times_cons x y l : times x (y :: l) = (if decide (x = y) then 1 else 0) + times x l.
Proof. unfold times. rewrite filter_cons. case_decide; simpl; lia. Qed.
Lemma times_app x l k : times x (l ++ k) = times x l + times x k.
Proof. unfold times. rewrite filter_app, length_app. lia. Qed.
Lemma times_nonneg x l : 0 ≤ times x l.
Proof. unfold times. lia. Qed.
Lemma times_elem x l : x ∈ l → 1 ≤ times x l.
Proof. intros H. apply elem_of_Permutation in H as (k & E). unfold times. rewrite E, filter_cons_True by done. simpl. lia. Qed.
#[global] Instance times_proper x : Proper ((≡ₚ) ==> eq) (times x).
Proof. intros l k E. unfold times. by rewrite E. Qed.

(** The key-value pairs of a hash map, in some order. *)
Definition pairs (m : gmap Z (list (Z * Z))) : list (Z * Z) := concat (map_to_list m).*2.
Definition objects (l : list (Z * Z)) : list Z := l.*1 ++ l.*2.

Lemma concat_perm {A} (l k : list (list A)) : l ≡ₚ k → concat l ≡ₚ concat k.
Proof.
  induction 1 as [|x l k H IH|x y l|l k j H1 IH1 H2 IH2]; simpl; [done|by rewrite IH| |by etransitivity].
  rewrite !app_assoc. apply Permutation_app_tail, Permutation_app_comm.
Qed.
Lemma pairs_insert m h l : pairs (<[h := l]> m) ≡ₚ l ++ pairs (delete h m).
Proof.
  unfold pairs. rewrite <- insert_delete_eq. rewrite (concat_perm _ ((h, l) :: map_to_list (delete h m)).*2); [done|].
  apply fmap_Permutation, map_to_list_insert, lookup_delete_eq.
Qed.
Lemma pairs_lookup m h l : m !! h = Some l → pairs m ≡ₚ l ++ pairs (delete h m).
Proof. intros Hl. rewrite <- (insert_id m h l Hl) at 1. apply pairs_insert. Qed.
Lemma pairs_lookup_None m h : m !! h = None → pairs (delete h m) = pairs m.
Proof. intros Hl. by rewrite delete_id. Qed.
Lemma elem_of_pairs m p : p ∈ pairs m ↔ ∃ h l, m !! h = Some l ∧ p ∈ l.
Proof.
  unfold pairs. rewrite list_elem_of_In, in_concat. split.
  - intros (l & Hl & Hp). apply list_elem_of_In in Hl, Hp. apply list_elem_of_fmap in Hl as ([h l'] & -> & Hl). apply elem_of_map_to_list in Hl. eauto.
  - intros (h & l & Hl & Hp). exists l. split; [|by apply list_elem_of_In]. apply list_elem_of_In. apply list_elem_of_fmap. exists (h, l). by rewrite elem_of_map_to_list.
Qed.

Section dictionary.
Context {S : Type} {O : ObjOps S} {K : Type} `{!EqDecision K, !Countable K} {L : ObjLaws S K}.
Implicit Types (s : S) (d : DictionaryHostObject) (l : list (Z * Z)).

(** Messages that change neither counts nor tables. *)
Definition same (s s' : S) : Prop := tables s' = tables s ∧ ∀ x, refs s' x = refs s x.
Lemma same_refl s : same s s.
Proof. by split. Qed.
Lemma same_trans s1 s2 s3 : same s1 s2 → same s2 s3 → same s1 s3.
Proof. intros [E1 H1] [E2 H2]. split; [congruence|]. intros x. by rewrite H2. Qed.

Definition key_kind (p : Z * Z) : K := kind p.1.

(** ** The shape of a dictionary *)

Record dict_ok (d : DictionaryHostObject) : Prop := {
  ok_buckets : ∀ h l p, dict_map d !! h = Some l → p ∈ l → hash_of (key_kind p) = h;
  ok_distinct : NoDup (key_kind <$> pairs (dict_map d));
  ok_count : dict_count d = Z.of_nat (length (pairs (dict_map d)));
  ok_values : Forall (λ p, p.2 ≠ nil_object) (pairs (dict_map d))
}.
Definition dict_model (d : DictionaryHostObject) : gmap K Z := list_to_map ((λ p, (key_kind p, p.2)) <$> pairs (dict_map d)).
(** The references that the dictionary owns. *)
Definition held (d : DictionaryHostObject) (x : Z) : Z := times x (objects (pairs (dict_map d))).
Definition owned (d : DictionaryHostObject) (s : S) : Prop := ∀ x, held d x ≤ refs s x.

Lemma model_perm (l k : list (Z * Z)) :
  NoDup (key_kind <$> l) → l ≡ₚ k → (list_to_map ((λ p, (key_kind p, p.2)) <$> l) : gmap K Z) = list_to_map ((λ p, (key_kind p, p.2)) <$> k).
Proof.
  intros Hn E. apply list_to_map_proper; [|by rewrite E]. rewrite <- list_fmap_compose. exact Hn.
Qed.
Lemma objects_perm l k : l ≡ₚ k → objects l ≡ₚ objects k.
Proof. intros E. unfold objects. by rewrite E. Qed.
Lemma objects_cons p l x : times x (objects (p :: l)) = (if decide (x = p.1) then 1 else 0) + (if decide (x = p.2) then 1 else 0) + times x (objects l).
Proof. change (objects (p :: l)) with (p.1 :: l.*1 ++ p.2 :: l.*2). unfold objects. rewrite times_cons, !times_app, times_cons. lia. Qed.
Lemma elem_of_objects p l : p ∈ l → p.1 ∈ objects l ∧ p.2 ∈ objects l.
Proof. intros H. unfold objects. rewrite !elem_of_app. split; [left|right]; apply list_elem_of_fmap; eauto. Qed.

(** The lookup in one list of collisions. *)
Lemma find_key_spec key l s :
  0 < refs s key → Forall (λ p, 0 < refs s p.1) l →
  ∃ s' r, find_key key l s = Ret (r, s') ∧ same s s' ∧
    match r with
    | Some (i, p) => l !! i = Some p ∧ key_kind p = kind key
    | None => Forall (λ p, key_kind p ≠ kind key) l
    end.
Proof.
  intros Hk. revert s Hk. induction l as [|[ck v] l IH]; intros s Hk Hl.
  { exists s, None. split; [done|]. split; [apply same_refl|by apply Forall_nil]. }
  apply Forall_cons in Hl as [Hc Hl]. simpl in Hc. cbn [find_key].
  assert (∃ s1, (if ck =? key then Ret (true, s) else obj_isEqual ck key s) = Ret (bool_decide (kind ck = kind key), s1) ∧ same s s1) as (s1 & E1 & Hs1).
  { destruct (Z.eqb_spec ck key) as [->|]; [exists s; rewrite bool_decide_true by done; by split|].
    destruct (isEqual_law s ck key) as (s1 & -> & ? & ?); [done..|]. by exists s1. }
  mrun E1. case_bool_decide as Hkind.
  - exists s1, (Some (0%nat, (ck, v))). by split_and!.
  - destruct (IH s1) as (s2 & r & E2 & Hs2 & Hr); [by rewrite (proj2 Hs1)|eapply Forall_impl; [done|]; intros p; by rewrite (proj2 Hs1)|].
    rewrite E2, ret_bind. eexists s2, _. split; [done|]. split; [by eapply same_trans|]. destruct r as [[i p]|]; [done|]. by apply Forall_cons.
Qed.

(** Where a key is: in the list of its hash, with the rest of the pairs apart from it. *)
Lemma bucket_spec d key :
  dict_ok d → let h := hash_of (kind key) in let l := default [] (dict_map d !! h) in let rest := pairs (delete h (dict_map d)) in
  pairs (dict_map d) ≡ₚ l ++ rest ∧ Forall (λ p, key_kind p ≠ kind key) rest.
Proof.
  intros Hd h l rest. split.
  - unfold l, rest. destruct (dict_map d !! h) as [c|] eqn:E; simpl; [by apply pairs_lookup|by rewrite pairs_lookup_None].
  - apply Forall_forall. intros p Hp Hk. apply elem_of_pairs in Hp as (h' & l' & Hl' & Hp). apply lookup_delete_Some in Hl' as [Hne Hl'].
    apply Hne. rewrite <- (ok_buckets _ Hd _ _ _ Hl' Hp). unfold key_kind in Hk. by unfold h, key_kind; rewrite Hk.
Qed.
Lemma owned_live d s p : owned d s → p ∈ pairs (dict_map d) → 0 < refs s p.1 ∧ 0 < refs s p.2.
Proof.
  intros Ho Hp. destruct (elem_of_objects _ _ Hp) as [H1 H2]. pose proof (Ho p.1). pose proof (Ho p.2). unfold held in *.
  pose proof (times_elem _ _ H1). pose proof (times_elem _ _ H2). lia.
Qed.

(** The entry of a key, if there is one. *)
Lemma dict_find d key s :
  dict_ok d → owned d s → 0 < refs s key →
  ∃ s' r, find_key key (default [] (dict_map d !! hash_of (kind key))) s = Ret (r, s') ∧ same s s' ∧
    match r with
    | Some (i, p) => ∃ l, dict_map d !! hash_of (kind key) = Some l ∧ l !! i = Some p ∧ key_kind p = kind key
    | None => Forall (λ p, key_kind p ≠ kind key) (pairs (dict_map d))
    end.
Proof.
  intros Hd Ho Hk. destruct (bucket_spec d key Hd) as [HP Hrest].
  destruct (find_key_spec key (default [] (dict_map d !! hash_of (kind key))) s) as (s' & r & E & Hs & Hr); [done| |].
  { apply Forall_forall. intros p Hp. apply (owned_live d s p Ho). rewrite HP. apply elem_of_app. by left. }
  exists s', r. split; [done|]. split; [done|]. destruct r as [[i p]|].
  - destruct Hr as [Hi Hp]. destruct (dict_map d !! hash_of (kind key)) as [l|]; [|done]. by exists l.
  - rewrite HP. by apply Forall_app.
Qed.
Lemma model_None d k : Forall (λ p, key_kind p ≠ k) (pairs (dict_map d)) → dict_model d !! k = None.
Proof.
  intros H. apply not_elem_of_list_to_map_1. rewrite <- list_fmap_compose. intros Hin. apply list_elem_of_fmap in Hin as (p & -> & Hp).
  rewrite Forall_forall in H. by apply (H p).
Qed.
Lemma model_Some d p : dict_ok d → p ∈ pairs (dict_map d) → dict_model d !! key_kind p = Some p.2.
Proof.
  intros Hd Hp. apply elem_of_list_to_map_1; [rewrite <- list_fmap_compose; apply (ok_distinct _ Hd)|]. apply list_elem_of_fmap. by exists p.
Qed.

(** ** Operations *)

Lemma dict_lookup_spec d key s :
  dict_ok d → owned d s → 0 < refs s key →
  ∃ s', dict_lookup d key s = Ret (default nil_object (dict_model d !! kind key), s') ∧ same s s'.
Proof.
  intros Hd Ho Hk. unfold dict_lookup. destruct (hash_law s key Hk) as (s1 & E1 & Ht1 & Hr1). mrun E1.
  destruct (dict_find d key s1) as (s2 & r & E2 & Hs2 & Hr); [done|intros x; rewrite Hr1; apply Ho|by rewrite Hr1|].
  assert (same s s1) as Hs1 by (by split). destruct (dict_map d !! hash_of (kind key)) as [l|] eqn:El.
  - cbn [default from_option id] in E2. mrun E2. exists s2. split; [|by eapply same_trans]. do 2 f_equal. destruct r as [[i [ck v]]|].
    + destruct Hr as (l' & [= <-] & Hi & Hp). rewrite <- Hp. rewrite (model_Some d (ck, v)); [done|done|]. apply elem_of_pairs. exists (hash_of (kind key)), l.
      split; [done|]. by eapply list_elem_of_lookup_2.
    + by rewrite model_None.
  - exists s1. split; [|done]. do 2 f_equal. cbn in E2. injection E2 as <- <-. by rewrite model_None.
Qed.

(** A dictionary whose pairs are [p] and [E]. *)
Lemma model_cons d p E :
  dict_ok d → pairs (dict_map d) ≡ₚ p :: E → dict_model d = <[key_kind p := p.2]> (list_to_map ((λ p, (key_kind p, p.2)) <$> E)).
Proof. intros Hd HE. unfold dict_model. by rewrite (model_perm _ _ (ok_distinct _ Hd) HE). Qed.
Lemma held_cons d p E x :
  pairs (dict_map d) ≡ₚ p :: E → held d x = (if decide (x = p.1) then 1 else 0) + (if decide (x = p.2) then 1 else 0) + times x (objects E).
Proof. intros HE. unfold held. rewrite (objects_perm _ _ HE). apply objects_cons. Qed.

(** Replacing the list of a hash. *)
Lemma dict_update_ok d h l E n :
  dict_ok d → (∀ p, p ∈ l → hash_of (key_kind p) = h) → l ++ pairs (delete h (dict_map d)) ≡ₚ E → NoDup (key_kind <$> E) →
  n = Z.of_nat (length E) → Forall (λ p, p.2 ≠ nil_object) E →
  dict_ok (mkDict (<[h := l]> (dict_map d)) n) ∧ pairs (<[h := l]> (dict_map d)) ≡ₚ E.
Proof.
  intros Hd Hl HE Hnd Hn Hv. assert (pairs (<[h := l]> (dict_map d)) ≡ₚ E) as HE' by (by rewrite pairs_insert). split; [|done]. split; simpl.
  - intros h' l' p Hl' Hp. apply lookup_insert_Some in Hl' as [[<- <-]|[_ Hl']]; [by apply Hl|by eapply ok_buckets].
  - by rewrite HE'.
  - by rewrite HE'.
  - by rewrite HE'.
Qed.

(** The lists of a bucket before and after a change at a position. *)
Lemma insert_delete_perm {A} (l : list A) i x y : l !! i = Some x → <[i := y]> l ≡ₚ y :: delete i l.
Proof.
  intros Hi. pose proof (lookup_lt_Some _ _ _ Hi). rewrite insert_take_drop, delete_take_drop by done. symmetry. apply Permutation_middle.
Qed.
Lemma bucket_entry d key l i p :
  dict_ok d → dict_map d !! hash_of (kind key) = Some l → l !! i = Some p → key_kind p = kind key →
  pairs (dict_map d) ≡ₚ p :: delete i l ++ pairs (delete (hash_of (kind key)) (dict_map d)) ∧
  (∀ q, q ∈ l → hash_of (key_kind q) = hash_of (kind key)).
Proof.
  intros Hd Hl Hi Hp. split; [|intros q Hq; by eapply ok_buckets]. rewrite (pairs_lookup _ _ _ Hl), (delete_Permutation _ _ _ Hi) at 1. done.
Qed.

(** The key that goes into the dictionary. *)
Lemma copy_or_retain copy key s :
  0 < refs s key → key ≠ nil_object →
  ∃ key' s', (if copy : bool then obj_copy key s else obj_retain key s) = Ret (key', s') ∧ kind key' = kind key ∧ 0 ≤ refs s key' ∧ tables s' = tables s ∧
    ∀ x, refs s' x = refs s x + (if decide (x = key') then 1 else 0).
Proof.
  intros Hk Hn. destruct copy.
  - destruct (copy_law s key Hk) as (key' & s' & E & ? & ? & ? & ? & ?). exists key', s'. by split_and!.
  - destruct (retain_law s key Hk) as (s' & E & ? & ?). exists key, s'. split_and!; try done. lia.
Qed.

(** What every operation keeps: the references beyond those of the dictionary. *)
Definition slack (d : DictionaryHostObject) (s : S) (x : Z) : Z := refs s x - held d x.
Lemma owned_slack d s : owned d s ↔ ∀ x, 0 ≤ slack d s x.
Proof. unfold owned, slack. split; intros H x; specialize (H x); lia. Qed.

Lemma dict_insert_new d key value hash n s1 s2 :
  dict_ok d → Forall (λ p, key_kind p ≠ kind key) (pairs (dict_map d)) → hash = hash_of (kind key) → value ≠ nil_object → n = dict_count d + 1 →
  (∀ x, refs s2 x = refs s1 x + (if decide (x = key) then 1 else 0) + (if decide (x = value) then 1 else 0)) →
  let d' := mkDict (<[hash := default [] (dict_map d !! hash) ++ [(key, value)]]> (dict_map d)) n in
  dict_ok d' ∧ dict_model d' = <[kind key := value]> (dict_model d) ∧ ∀ x, slack d' s2 x = slack d s1 x.
Proof.
  intros Hd Hnone -> Hv Hn Hrefs d'. destruct (bucket_spec d key Hd) as [HP _].
  destruct (dict_update_ok d (hash_of (kind key)) (default [] (dict_map d !! hash_of (kind key)) ++ [(key, value)]) ((key, value) :: pairs (dict_map d)) n) as [Hd' HE'].
  - done.
  - intros p Hp. apply elem_of_app in Hp as [Hp|Hp]; [|by apply list_elem_of_singleton in Hp as ->].
    destruct (dict_map d !! hash_of (kind key)) as [l|] eqn:El; [by eapply ok_buckets|by apply elem_of_nil in Hp].
  - rewrite HP. by rewrite <- app_assoc, (Permutation_app_comm [_]), app_assoc, <- Permutation_cons_append.
  - rewrite fmap_cons. apply NoDup_cons. split; [|apply (ok_distinct _ Hd)]. intros Hin. apply list_elem_of_fmap in Hin as (p & Hp & Hin).
    rewrite Forall_forall in Hnone. by apply (Hnone p).
  - rewrite Hn, (ok_count _ Hd). simpl. lia.
  - apply List.Forall_cons; [done|apply (ok_values _ Hd)].
  - split; [done|]. split; [by apply (model_cons d' (key, value))|]. intros x. unfold slack. rewrite (held_cons d' (key, value) _ x HE'), Hrefs. unfold held. simpl. lia.
Qed.

Lemma dict_insert_spec d key value copy s :
  dict_ok d → owned d s → 0 < refs s key → 0 < refs s value → key ≠ nil_object → value ≠ nil_object → dict_count d + 1 < U32_MOD →
  ∃ d' s', dict_insert d key value copy s = Ret (d', s') ∧ dict_ok d' ∧ dict_model d' = <[kind key := value]> (dict_model d) ∧ tables s' = tables s ∧
    (∀ x, slack d s x ≤ slack d' s' x) ∧ (dict_model d !! kind key = None → ∀ x, slack d' s' x = slack d s x).
Proof.
  intros Hd Ho Hk Hv Hkn Hvn Hc. unfold dict_insert. destruct (copy_or_retain copy key s Hk Hkn) as (key' & s1 & E1 & Hkind & Hk' & Ht1 & Hr1). mrun E1.
  destruct (hash_law s1 key') as (s2 & E2 & Ht2 & Hr2); [rewrite Hr1, decide_True by done; lia|]. mrun E2. rewrite Hkind.
  destruct (retain_law s2 value) as (s3 & E3 & Ht3 & Hr3); [rewrite Hr2, Hr1; case_decide; lia|]. mrun E3.
  assert (∀ x, refs s3 x = refs s x + (if decide (x = key') then 1 else 0) + (if decide (x = value) then 1 else 0)) as Hr by (intros x; by rewrite Hr3, Hr2, Hr1).
  assert (tables s3 = tables s) as Ht by congruence. assert (0 ≤ dict_count d) by (rewrite (ok_count _ Hd); lia).
  destruct (dict_find d key' s3) as (s4 & r & E4 & [Ht4 Hr4] & Hfound); [done|intros x; rewrite Hr; specialize (Ho x); repeat case_decide; lia|rewrite Hr, decide_True by done; case_decide; lia|].
  rewrite Hkind in E4, Hfound. destruct (dict_map d !! hash_of (kind key)) as [l|] eqn:El; cbn [default from_option id] in E4.
  - mrun E4. destruct r as [[i [ck old]]|].
    + destruct Hfound as (l' & [= <-] & Hi & Hck). destruct (bucket_entry d key l i _ Hd El Hi Hck) as [HE Hh]. set (E := delete i l ++ _) in HE.
      assert (0 < refs s4 old) as Hold.
      { rewrite Hr4, Hr. destruct (owned_live d s (ck, old) Ho) as [_ H2]; [rewrite HE; apply elem_of_cons; by left|]. simpl in H2. repeat case_decide; lia. }
      destruct (release_law s4 old Hold) as (s5 & E5 & Ht5 & Hr5). mrun E5.
      destruct (dict_update_ok d (hash_of (kind key)) (<[i := (ck, value)]> l) ((ck, value) :: E) (dict_count d)) as [Hd' HE'].
      * done.
      * intros p Hp. rewrite (insert_delete_perm _ _ _ _ Hi) in Hp. apply elem_of_cons in Hp as [->|Hp]; [by apply (Hh (ck, old)), (list_elem_of_lookup_2 _ i)|].
        apply Hh. rewrite (delete_Permutation _ _ _ Hi). apply elem_of_cons. by right.
      * by rewrite (insert_delete_perm _ _ _ _ Hi).
      * pose proof (ok_distinct _ Hd) as Hnd. rewrite HE in Hnd. exact Hnd.
      * rewrite (ok_count _ Hd), HE. done.
      * pose proof (ok_values _ Hd) as Hvs. rewrite HE in Hvs. apply Forall_cons in Hvs as [_ Hvs]. by apply List.Forall_cons.
      * set (d' := mkDict _ _) in Hd'. exists d', s5. split; [done|]. split; [done|]. rewrite (model_cons d' (ck, value) E Hd' HE'), (model_cons d (ck, old) E Hd HE).
        cbn [fst snd]. change (key_kind (ck, value)) with (key_kind (ck, old)). rewrite Hck, insert_insert_eq. split; [done|]. split; [congruence|]. split; [|by rewrite lookup_insert_eq].
        intros x. unfold slack. rewrite (held_cons d' (ck, value) E x HE'), (held_cons d (ck, old) E x HE), Hr5, Hr4, Hr. simpl. repeat case_decide; lia.
    + rewrite u32_ok, ret_bind by lia. rewrite <- Hkind in Hfound.
      destruct (dict_insert_new d key' value (hash_of (kind key)) (dict_count d + 1) s s4) as (Hd' & Hm & Hsl); [done|done|by rewrite Hkind|done|done|intros x; by rewrite Hr4|].
      rewrite El in Hd', Hm, Hsl. cbn [default from_option id] in *. eexists _, s4. split; [done|]. split; [done|]. rewrite Hm, Hkind. split; [done|].
      split; [congruence|]. split; intros; rewrite Hsl; lia.
  - rewrite u32_ok, ret_bind by lia. cbn in E4. injection E4 as <- <-. rewrite <- Hkind in Hfound.
    destruct (dict_insert_new d key' value (hash_of (kind key)) (dict_count d + 1) s s3) as (Hd' & Hm & Hsl); [done|done|by rewrite Hkind|done|done|done|].
    rewrite El in Hd', Hm, Hsl. cbn [default from_option id app] in *. eexists _, s3. split; [done|]. split; [done|]. rewrite Hm, Hkind. split; [done|].
    split; [congruence|]. split; intros; rewrite Hsl; lia.
Qed.

Lemma dict_remove_spec d key s :
  dict_ok d → owned d s → 0 < refs s key → dict_count d < U32_MOD →
  ∃ d' s', dict_remove d key s = Ret (d', s') ∧ dict_ok d' ∧ dict_model d' = delete (kind key) (dict_model d) ∧ tables s' = tables s ∧
    (∀ x, slack d' s' x = slack d s x).
Proof.
  intros Hd Ho Hk Hc. unfold dict_remove. destruct (hash_law s key Hk) as (s1 & E1 & Ht1 & Hr1). mrun E1.
  destruct (dict_find d key s1) as (s2 & r & E2 & [Ht2 Hr2] & Hfound); [done|intros x; rewrite Hr1; apply Ho|by rewrite Hr1|].
  assert (∀ s', tables s' = tables s → (∀ x, refs s' x = refs s x) → Forall (λ p, key_kind p ≠ kind key) (pairs (dict_map d)) →
    ∃ d' s'', Ret (d, s') = Ret (d', s'') ∧ dict_ok d' ∧ dict_model d' = delete (kind key) (dict_model d) ∧ tables s'' = tables s ∧ ∀ x, slack d' s'' x = slack d s x) as Habsent.
  { intros s' Ht' Hr' Hnone. exists d, s'. split; [done|]. split; [done|]. rewrite delete_id by (by apply model_None). split; [done|]. split; [done|].
    intros x. unfold slack. by rewrite Hr'. }
  destruct (dict_map d !! hash_of (kind key)) as [l|] eqn:El; cbn [default from_option id] in E2; [|cbn in E2; injection E2 as <- <-; by apply Habsent].
  mrun E2. destruct r as [[i [ck v]]|]; [|apply Habsent; [congruence|intros x; by rewrite Hr2|done]].
  destruct Hfound as (l' & [= <-] & Hi & Hck). destruct (bucket_entry d key l i _ Hd El Hi Hck) as [HE Hh]. set (E := delete i l ++ _) in HE.
  assert (∀ x, times x (objects E) + (if decide (x = ck) then 1 else 0) + (if decide (x = v) then 1 else 0) ≤ refs s x) as Hown.
  { intros x. specialize (Ho x). rewrite (held_cons d (ck, v) E x HE) in Ho. simpl in Ho. lia. }
  destruct (release_law s2 ck) as (s3 & E3 & Ht3 & Hr3).
  { rewrite Hr2, Hr1. specialize (Hown ck). pose proof (times_nonneg ck (objects E)). rewrite decide_True in Hown by done. case_decide; lia. }
  mrun E3. destruct (release_law s3 v) as (s4 & E4 & Ht4 & Hr4).
  { rewrite Hr3, Hr2, Hr1. specialize (Hown v). pose proof (times_nonneg v (objects E)). rewrite (decide_True (P := v = v)) in Hown by done. repeat case_decide; lia. }
  mrun E4. assert (dict_count d = 1 + Z.of_nat (length E)) as Hcnt by (rewrite (ok_count _ Hd), HE; simpl; lia). rewrite u32_ok, ret_bind by lia.
  pose proof (ok_distinct _ Hd) as Hnd. rewrite HE, fmap_cons in Hnd. apply NoDup_cons in Hnd as [Hfresh Hnd].
  destruct (dict_update_ok d (hash_of (kind key)) (delete i l) E (dict_count d - 1)) as [Hd' HE'].
  - done.
  - intros p Hp. apply Hh. rewrite (delete_Permutation _ _ _ Hi). apply elem_of_cons. by right.
  - done.
  - done.
  - lia.
  - pose proof (ok_values _ Hd) as Hvs. rewrite HE in Hvs. by apply Forall_cons in Hvs as [_ ?].
  - set (d' := mkDict _ _) in Hd'. exists d', s4. split; [done|]. split; [done|]. rewrite (model_cons d (ck, v) E Hd HE).
    assert (dict_model d' = list_to_map ((λ p, (key_kind p, p.2)) <$> E)) as -> by (apply (model_perm _ _ (ok_distinct _ Hd') HE')).
    cbn [fst snd]. rewrite <- Hck, delete_insert_id; [|apply not_elem_of_list_to_map_1; by rewrite <- list_fmap_compose]. split; [done|].
    split; [congruence|]. intros x. unfold slack, held. assert (objects (pairs (dict_map d')) ≡ₚ objects E) as -> by exact (objects_perm _ _ HE').
    rewrite (objects_perm _ _ HE), objects_cons, Hr4, Hr3, Hr2, Hr1. simpl. lia.
Qed.

Lemma model_size d : dict_ok d → dict_count d = Z.of_nat (size (dict_model d)).
Proof.
  intros Hd. rewrite (ok_count _ Hd). f_equal. unfold dict_model. rewrite <- length_map_to_list, map_to_list_to_map; [by rewrite length_fmap|].
  rewrite <- list_fmap_compose. apply (ok_distinct _ Hd).
Qed.

(** ** The methods *)

Variable values : gmap Z (list (Z * Z)) → list (list (Z * Z)).
Hypothesis Hvalues : ∀ m, values m ≡ₚ (map_to_list m).*2.

Lemma release_pairs_spec (l : list (Z * Z)) s :
  (∀ x, times x (objects l) ≤ refs s x) →
  ∃ s', for_each (λ '(key, value) s, s ← obj_release key s; obj_release value s) l s = Ret s' ∧ tables s' = tables s ∧
    ∀ x, refs s' x = refs s x - times x (objects l).
Proof.
  revert s. induction l as [|[k v] l IH]; intros s Hs.
  { exists s. split; [done|]. split; [done|]. intros x. rewrite times_nil. lia. }
  assert (∀ x, times x (objects ((k, v) :: l)) = (if decide (x = k) then 1 else 0) + (if decide (x = v) then 1 else 0) + times x (objects l)) as Ho
    by (intros x; apply objects_cons).
  assert (∀ x, 0 ≤ times x (objects l)) as Hnn by (intros; apply times_nonneg). cbn [for_each].
  destruct (release_law s k) as (s1 & E1 & Ht1 & Hr1); [specialize (Hs k); rewrite Ho, decide_True in Hs by done; specialize (Hnn k); case_decide; lia|].
  rewrite E1, ret_bind. destruct (release_law s1 v) as (s2 & E2 & Ht2 & Hr2).
  { specialize (Hs v). rewrite Ho, (decide_True (P := v = v)) in Hs by done. specialize (Hnn v). rewrite Hr1. case_decide; lia. }
  rewrite E2, ret_bind. destruct (IH s2) as (s3 & E3 & Ht3 & Hr3).
  { intros x. specialize (Hs x). rewrite Ho in Hs. rewrite Hr2, Hr1. lia. }
  exists s3. split; [done|]. split; [congruence|]. intros x. rewrite Hr3, Hr2, Hr1, Ho. lia.
Qed.
Lemma dict_release_spec d s :
  owned d s → ∃ s', dict_release values d s = Ret s' ∧ tables s' = tables s ∧ ∀ x, refs s' x = refs s x - held d x.
Proof.
  intros Ho. assert (dict_entries values d ≡ₚ pairs (dict_map d)) as HP by (apply concat_perm, Hvalues).
  assert (∀ x, times x (objects (dict_entries values d)) = held d x) as Hocc by (intros x; unfold held; by rewrite (objects_perm _ _ HP)).
  destruct (release_pairs_spec (dict_entries values d) s) as (s' & E & Ht & Hr); [intros x; rewrite Hocc; apply Ho|].
  exists s'. split; [done|]. split; [done|]. intros x. by rewrite Hr, Hocc.
Qed.

Definition represents (this : Z) (s : S) (m : gmap K Z) : Prop :=
  ∃ d, dictionaries (tables s) !! this = Some d ∧ dict_ok d ∧ dict_model d = m ∧ owned d s.
(** The references to an object that are not the dictionary's. *)
Definition foreign (this : Z) (s : S) (x : Z) : Z :=
  refs s x - match dictionaries (tables s) !! this with Some d => held d x | None => 0 end.
Lemma foreign_slack this s d x : dictionaries (tables s) !! this = Some d → foreign this s x = slack d s x.
Proof. intros E. unfold foreign. by rewrite E. Qed.
Lemma foreign_live this s m x : represents this s m → 1 ≤ foreign this s x → 0 < refs s x.
Proof. intros (d & E & _ & _ & Ho) Hf. rewrite (foreign_slack _ _ _ _ E) in Hf. unfold slack, held in Hf. pose proof (times_nonneg x (objects (pairs (dict_map d)))). lia. Qed.

(** Putting a host object back. *)
Lemma put_dict_represents this d s s0 :
  dict_ok d → owned d s → is_Some (dictionaries (tables s) !! this) → (∀ x, slack d s x = slack d s0 x) →
  ∃ s', put_dict this d s = Ret s' ∧ represents this s' (dict_model d) ∧ ∀ x, foreign this s' x = slack d s0 x.
Proof.
  intros Hd Ho [d0 E0] Hs. unfold put_dict. rewrite E0. cbn [unwrap]. rewrite ret_bind. eexists. split; [done|].
  assert (dictionaries (tables (set_tables (set_dictionaries (<[this := d]> (dictionaries (tables s))) (tables s)) s)) !! this = Some d) as E
    by (rewrite tables_law; simpl; by rewrite lookup_insert_eq).
  assert (∀ x, slack d (set_tables (set_dictionaries (<[this := d]> (dictionaries (tables s))) (tables s)) s) x = slack d s x) as Hsl by (intros x; unfold slack; by rewrite tables_refs).
  split.
  - exists d. split; [done|]. split; [done|]. split; [done|]. apply owned_slack. intros x. rewrite Hsl. by apply owned_slack.
  - intros x. by rewrite (foreign_slack _ _ _ _ E), Hsl.
Qed.
Lemma take_dict_spec this s d :
  dictionaries (tables s) !! this = Some d →
  ∃ s', take_dict this s = Ret (d, s') ∧ (∀ x, refs s' x = refs s x) ∧ dictionaries (tables s') !! this = Some DictionaryHostObject_default.
Proof.
  intros E. unfold take_dict. rewrite E. eexists. split; [done|]. split; [intros x; apply tables_refs|]. rewrite tables_law. simpl. by rewrite lookup_insert_eq.
Qed.

(** ** Sequences of calls *)

Inductive dict_call :=
| SetObject (object key : Z)
| SetValue (value key : Z)
| RemoveObject (key : Z)
| ObjectForKey (key : Z)
| Count
| RemoveAll.

Definition dict_do (this : Z) (c : dict_call) (s : S) : outcome (Z * S) :=
  match c with
  | SetObject object key => s ← dict_setObject_forKey this object key s; Ret (0, s)
  | SetValue value key => s ← dict_setValue_forKey this value key s; Ret (0, s)
  | RemoveObject key => s ← dict_removeObjectForKey this key s; Ret (0, s)
  | ObjectForKey key => dict_objectForKey this key s
  | Count => n ← dict_count_method this s; Ret (n, s)
  | RemoveAll => s ← dict_removeAllObjects values this s; Ret (0, s)
  end.
(** The same on a finite map. *)
Definition map_do (c : dict_call) (m : gmap K Z) : Z * gmap K Z :=
  match c with
  | SetObject object key => (0, <[kind key := object]> m)
  | SetValue value key => (0, if value =? nil_object then delete (kind key) m else <[kind key := value]> m)
  | RemoveObject key => (0, delete (kind key) m)
  | ObjectForKey key => (default nil_object (m !! kind key), m)
  | Count => (Z.of_nat (size m), m)
  | RemoveAll => (0, ∅)
  end.
Definition call_args (c : dict_call) : list Z :=
  match c with
  | SetObject object key => [object; key]
  | SetValue value key => if value =? nil_object then [key] else [value; key]
  | RemoveObject key | ObjectForKey key => [key]
  | Count | RemoveAll => []
  end.
(** The caller owns the objects it passes. *)
Definition call_ok (f : Z → Z) (c : dict_call) : Prop := Forall (λ x, x ≠ nil_object ∧ 1 ≤ f x) (call_args c).
(** A key that is there gets another value. *)
Definition replaces (c : dict_call) (m : gmap K Z) : bool :=
  match c with
  | SetObject _ key => bool_decide (is_Some (m !! kind key))
  | SetValue value key => negb (value =? nil_object) && bool_decide (is_Some (m !! kind key))
  | _ => false
  end.

Lemma set_object_spec this object key s m :
  represents this s m → call_ok (foreign this s) (SetObject object key) → Z.of_nat (size m) + 1 < U32_MOD →
  ∃ s', dict_setObject_forKey this object key s = Ret s' ∧ represents this s' (<[kind key := object]> m) ∧
    (∀ x, foreign this s x ≤ foreign this s' x) ∧ (replaces (SetObject object key) m = false → ∀ x, foreign this s' x = foreign this s x).
Proof.
  intros Hrep Hargs Hsize. apply Forall_cons in Hargs as [[Hon Hof] Hargs]. apply Forall_cons in Hargs as [[Hkn Hkf] _].
  pose proof (foreign_live _ _ _ _ Hrep Hof) as Hol. pose proof (foreign_live _ _ _ _ Hrep Hkf) as Hkl. destruct Hrep as (d & E & Hd & Hm & Ho).
  unfold dict_setObject_forKey. rewrite !(proj2 (Z.eqb_neq _ _)) by done. cbn [negb rassert]. rewrite !ret_bind.
  destruct (take_dict_spec this s d E) as (s1 & E1 & Hr1 & Ht1). mrun E1.
  destruct (dict_insert_spec d key object true s1) as (d' & s2 & E2 & Hd' & Hm' & Ht2 & Hsl & Heq);
    [done|intros x; rewrite Hr1; apply Ho|by rewrite Hr1..|done|done|rewrite (model_size d Hd), Hm; lia|].
  assert (∀ x, slack d s1 x = foreign this s x) as Hsf by (intros x; rewrite (foreign_slack _ _ _ _ E); unfold slack; by rewrite Hr1).
  mrun E2. destruct (put_dict_represents this d' s2 s2) as (s3 & E3 & Hrep3 & Hf3).
  - done.
  - apply owned_slack. intros x. specialize (Hsl x). rewrite Hsf, (foreign_slack _ _ _ _ E) in Hsl. pose proof (proj1 (owned_slack d s) Ho x). lia.
  - rewrite Ht2, Ht1. done.
  - done.
  - exists s3. split; [done|]. split; [by rewrite Hm', Hm in Hrep3|]. split.
    + intros x. rewrite Hf3, <- Hsf. apply Hsl.
    + intros Hno x. rewrite Hf3, Heq, Hsf; [done|]. simpl in Hno. apply bool_decide_eq_false in Hno. rewrite Hm. by apply eq_None_not_Some.
Qed.

Lemma remove_object_spec this key s m :
  represents this s m → key ≠ nil_object → 1 ≤ foreign this s key → Z.of_nat (size m) < U32_MOD →
  ∃ s', dict_removeObjectForKey this key s = Ret s' ∧ represents this s' (delete (kind key) m) ∧ ∀ x, foreign this s' x = foreign this s x.
Proof.
  intros Hrep Hkn Hkf Hsize. pose proof (foreign_live _ _ _ _ Hrep Hkf) as Hkl. destruct Hrep as (d & E & Hd & Hm & Ho).
  unfold dict_removeObjectForKey. rewrite (proj2 (Z.eqb_neq _ _)) by done. cbn [negb rassert]. rewrite ret_bind.
  destruct (take_dict_spec this s d E) as (s1 & E1 & Hr1 & Ht1). mrun E1.
  destruct (dict_remove_spec d key s1) as (d' & s2 & E2 & Hd' & Hm' & Ht2 & Hsl); [done|intros x; rewrite Hr1; apply Ho|by rewrite Hr1|rewrite (model_size d Hd), Hm; lia|].
  assert (∀ x, slack d s1 x = foreign this s x) as Hsf by (intros x; rewrite (foreign_slack _ _ _ _ E); unfold slack; by rewrite Hr1).
  mrun E2. destruct (put_dict_represents this d' s2 s2) as (s3 & E3 & Hrep3 & Hf3).
  - done.
  - apply owned_slack. intros x. rewrite Hsl, Hsf, (foreign_slack _ _ _ _ E). by apply owned_slack.
  - rewrite Ht2, Ht1. done.
  - done.
  - exists s3. split; [done|]. split; [by rewrite Hm', Hm in Hrep3|]. intros x. by rewrite Hf3, Hsl.
Qed.

Lemma object_for_key_spec this key s m :
  represents this s m → 1 ≤ foreign this s key →
  ∃ s', dict_objectForKey this key s = Ret (default nil_object (m !! kind key), s') ∧ represents this s' m ∧ ∀ x, foreign this s' x = foreign this s x.
Proof.
  intros Hrep Hkf. pose proof (foreign_live _ _ _ _ Hrep Hkf) as Hkl. destruct Hrep as (d & E & Hd & Hm & Ho). unfold dict_objectForKey.
  destruct (take_dict_spec this s d E) as (s1 & E1 & Hr1 & Ht1). mrun E1.
  destruct (dict_lookup_spec d key s1) as (s2 & E2 & Ht2 & Hr2); [done|intros x; rewrite Hr1; apply Ho|by rewrite Hr1|]. mrun E2.
  destruct (put_dict_represents this d s2 s) as (s3 & E3 & Hrep3 & Hf3).
  - done.
  - intros x. rewrite Hr2, Hr1. apply Ho.
  - rewrite Ht2, Ht1. done.
  - intros x. unfold slack. by rewrite Hr2, Hr1.
  - exists s3. rewrite E3, ret_bind, Hm. split; [done|]. rewrite Hm in Hrep3. split; [done|]. intros x. rewrite Hf3. symmetry. by apply foreign_slack.
Qed.

Lemma default_ok : dict_ok DictionaryHostObject_default.
Proof.
  split; simpl; unfold pairs.
  - intros h l p Hl. by rewrite lookup_empty in Hl.
  - rewrite map_to_list_empty. apply NoDup_nil_2.
  - by rewrite map_to_list_empty.
  - rewrite map_to_list_empty. apply List.Forall_nil.
Qed.
Lemma remove_all_spec this s m :
  represents this s m →
  ∃ s', dict_removeAllObjects values this s = Ret s' ∧ represents this s' ∅ ∧ ∀ x, foreign this s' x = foreign this s x.
Proof.
  intros (d & E & Hd & Hm & Ho). unfold dict_removeAllObjects. destruct (take_dict_spec this s d E) as (s1 & E1 & Hr1 & Ht1). mrun E1.
  destruct (dict_release_spec d s1) as (s2 & E2 & Ht2 & Hr2); [intros x; rewrite Hr1; apply Ho|]. exists s2. split; [done|].
  assert (dictionaries (tables s2) !! this = Some DictionaryHostObject_default) as E' by (by rewrite Ht2).
  assert (∀ x, slack DictionaryHostObject_default s2 x = slack d s x) as Hsl.
  { intros x. unfold slack. rewrite Hr2, Hr1. unfold held at 2. unfold pairs. simpl. rewrite map_to_list_empty, times_nil. lia. }
  split.
  - exists DictionaryHostObject_default. split; [done|]. split; [apply default_ok|]. split.
    + unfold dict_model, pairs. simpl. by rewrite map_to_list_empty.
    + apply owned_slack. intros x. rewrite Hsl. by apply owned_slack.
  - intros x. by rewrite (foreign_slack _ _ _ _ E'), Hsl, (foreign_slack _ _ _ _ E).
Qed.

Lemma dict_do_spec this c s m :
  represents this s m → call_ok (foreign this s) c → Z.of_nat (size m) + 1 < U32_MOD →
  ∃ s', dict_do this c s = Ret ((map_do c m).1, s') ∧ represents this s' (map_do c m).2 ∧
    (∀ x, foreign this s x ≤ foreign this s' x) ∧ (replaces c m = false → ∀ x, foreign this s' x = foreign this s x).
Proof.
  intros Hrep Hok Hsize. destruct c as [o k|v k|k|k| |]; cbn [dict_do map_do fst snd].
  - destruct (set_object_spec this o k s m) as (s' & E & ? & ? & ?); [done..|]. exists s'. by rewrite E.
  - unfold dict_setValue_forKey, call_ok in *. cbn [call_args replaces] in *. destruct (Z.eqb_spec v nil_object) as [->|Hv].
    + apply Forall_cons in Hok as [[Hn Hf] _]. destruct (remove_object_spec this k s m) as (s' & E & ? & Hs); [done..|lia|]. exists s'. rewrite E. split; [done|].
      split; [done|]. split; intros; rewrite Hs; lia.
    + destruct (set_object_spec this v k s m) as (s' & E & ? & ? & ?); [done..|]. exists s'. by rewrite E.
  - apply Forall_cons in Hok as [[Hn Hf] _]. destruct (remove_object_spec this k s m) as (s' & E & ? & Hs); [done..|lia|]. exists s'. rewrite E. split; [done|].
    split; [done|]. split; intros; rewrite Hs; lia.
  - apply Forall_cons in Hok as [[Hn Hf] _]. destruct (object_for_key_spec this k s m) as (s' & E & ? & Hs); [done..|]. exists s'. split; [done|]. split; [done|].
    split; intros; rewrite Hs; lia.
  - pose proof Hrep as (d & E & Hd & Hm & _). unfold dict_count_method. rewrite E. cbn [unwrap]. rewrite !ret_bind. exists s.
    rewrite (model_size d Hd), Hm. split; [done|]. by split.
  - destruct (remove_all_spec this s m Hrep) as (s' & E & ? & Hs). exists s'. rewrite E. split; [done|]. split; [done|]. split; intros; rewrite Hs; lia.
Qed.

Fixpoint dict_calls (this : Z) (cs : list dict_call) (s : S) : outcome (list Z * S) :=
  match cs with
  | [] => Ret ([], s)
  | c :: cs => '(r, s) ← dict_do this c s; '(rs, s) ← dict_calls this cs s; Ret (r :: rs, s)
  end.
Fixpoint map_calls (cs : list dict_call) (m : gmap K Z) : list Z * gmap K Z :=
  match cs with
  | [] => ([], m)
  | c :: cs => let '(r, m) := map_do c m in let '(rs, m) := map_calls cs m in (r :: rs, m)
  end.
Fixpoint replaces_any (cs : list dict_call) (m : gmap K Z) : bool :=
  match cs with [] => false | c :: cs => replaces c m || replaces_any cs (map_do c m).2 end.

Lemma map_do_size c m : (size (map_do c m).2 ≤ size m + 1)%nat.
Proof.
  assert (∀ k v, size (<[k := v]> m) ≤ size m + 1)%nat as Hi by (intros k v; rewrite map_size_insert; destruct (m !! k); simpl; lia).
  assert (∀ k, size (delete k m) ≤ size m + 1)%nat as Hd by (intros k; rewrite map_size_delete; destruct (m !! k); simpl; lia).
  destruct c as [| | | | |]; simpl; try apply Hi; try apply Hd; [destruct (_ =? _); auto| | |]; rewrite ?map_size_empty; lia.
Qed.

Lemma dict_calls_spec this cs : ∀ s m,
  represents this s m → Forall (call_ok (foreign this s)) cs → Z.of_nat (size m + length cs) < U32_MOD →
  ∃ s', dict_calls this cs s = Ret ((map_calls cs m).1, s') ∧ represents this s' (map_calls cs m).2 ∧
    (∀ x, foreign this s x ≤ foreign this s' x) ∧ (replaces_any cs m = false → ∀ x, foreign this s' x = foreign this s x).
Proof.
  induction cs as [|c cs IH]; intros s m Hrep Hok Hsize; [exists s; by split_and!|].
  apply Forall_cons in Hok as [Hc Hok]. cbn [length] in Hsize. destruct (dict_do_spec this c s m) as (s1 & E1 & Hrep1 & Hle1 & Heq1); [done|done|lia|].
  pose proof (map_do_size c m) as Hsz. destruct (IH s1 (map_do c m).2) as (s2 & E2 & Hrep2 & Hle2 & Heq2); [done| |lia|].
  { eapply Forall_impl; [done|]. intros c' Hc'. eapply Forall_impl; [done|]. intros x [??]. split; [done|]. specialize (Hle1 x). lia. }
  cbn [dict_calls map_calls replaces_any]. rewrite E1, ret_bind. cbv beta iota. rewrite E2, ret_bind. destruct (map_do c m) as [r m1]. cbn [fst snd] in *.
  destruct (map_calls cs m1) as [rs m2]. cbn [fst snd] in *. exists s2. split; [done|]. split; [done|]. split.
  - intros x. specialize (Hle1 x). specialize (Hle2 x). lia.
  - intros [H1 H2]%orb_false_iff x. by rewrite Heq2, Heq1.
Qed.
End dictionary.

(** C30: a dictionary is a finite map from keys up to equality.  For objects whose [hash], [isEqual:], [copy],
    [retain] and [release] do what [NSObject] documents, and any order of the hash map's lists, every sequence of
    calls ([setObject:forKey:], [setValue:forKey:], [removeObjectForKey:], [objectForKey:], [count],
    [removeAllObjects]) returns what the map returns, whatever the collisions.  The dictionary owns one reference
    to each of its keys and values: no call releases a reference that is not the dictionary's, and the others'
    references are exactly as many as before unless a key that is present is set again. *)
Theorem dictionary_refines {S} {O : ObjOps S} {K} `{!EqDecision K, !Countable K} {L : ObjLaws S K} values this cs (s : S) (m : gmap K Z) :
  (∀ m, values m ≡ₚ (map_to_list m).*2) → represents this s m → Forall (call_ok (foreign this s)) cs → Z.of_nat (size m + length cs) < U32_MOD →
  ∃ s', dict_calls values this cs s = Ret ((map_calls cs m).1, s') ∧ represents this s' (map_calls cs m).2 ∧
    (∀ x, foreign this s x ≤ foreign this s' x) ∧ (replaces_any cs m = false → ∀ x, foreign this s' x = foreign this s x).
Proof. intros Hv. by apply dict_calls_spec. Qed.

(** ** Objects with contents *)

(** A state with reference counts; objects are equal when they are congruent modulo 10, hashes collide. *)
Record demo_heap := mkDemoHeap { demo_counts : gmap Z Z; demo_tables : Tables }.
Definition add_refs (n x : Z) (s : demo_heap) : demo_heap :=
  mkDemoHeap (<[x := default 0 (demo_counts s !! x) + n]> (demo_counts s)) (demo_tables s).
#[global] Instance demo_ops : ObjOps demo_heap := {|
  tables := demo_tables;
  set_tables t s := mkDemoHeap (demo_counts s) t;
  obj_hash o s := Ret (o mod 10 mod 2, s);
  obj_isEqual a b s := Ret (bool_decide (a mod 10 = b mod 10), s);
  obj_copy o s := Ret (o, add_refs 1 o s);
  obj_retain o s := Ret (o, add_refs 1 o s);
  obj_release o s := Ret (add_refs (-1) o s);
  obj_autorelease o s := Ret (o, s);
  obj_alloc s := let o := 1000 + Z.of_nat (size (demo_counts s)) in Ret (o, add_refs 1 o s);
  obj_dealloc o s := Ret s;
  obj_null s := Ret (999, s)
|}.
Lemma add_refs_lookup n x s y : default 0 (demo_counts (add_refs n x s) !! y) = default 0 (demo_counts s !! y) + (if decide (y = x) then n else 0).
Proof. unfold add_refs. simpl. case_decide; [subst; by rewrite lookup_insert_eq|]. rewrite lookup_insert_ne by done. lia. Qed.
#[global, refine] Instance demo_laws : ObjLaws demo_heap Z := {|
  kind o := o mod 10; hash_of k := k mod 2; refs s x := if decide (x = 0) then 0 else default 0 (demo_counts s !! x)
|}.
Proof.
  - intros s o _. by exists s.
  - intros s a b _ _. by exists s.
  - intros s o Ho. exists o, (add_refs 1 o s). case_decide as H0; [lia|]. split_and!; try done; [lia|]. intros x. rewrite add_refs_lookup. repeat case_decide; lia.
  - intros s o Ho. exists (add_refs 1 o s). case_decide as H0; [lia|]. split_and!; try done. intros x. rewrite add_refs_lookup. repeat case_decide; lia.
  - intros s o Ho. exists (add_refs (-1) o s). case_decide as H0; [lia|]. split_and!; try done. intros x. rewrite add_refs_lookup. repeat case_decide; lia.
  - done.
  - done.
Defined.

(** An empty dictionary, and objects 11 to 25 with a reference each. *)
Definition demo_state : demo_heap :=
  mkDemoHeap (list_to_map ((λ x, (x, 1)) <$> seqZ 11 15)) (mkTables ∅ {[5 := DictionaryHostObject_default]} ∅ ∅).
Definition demo_calls : list dict_call := [SetObject 20 11; SetObject 25 13; SetObject 22 12; ObjectForKey 23; RemoveObject 21; Count; ObjectForKey 11].

Lemma demo_state_refs x : 0 ≤ refs demo_state x.
Proof.
  change (refs demo_state x) with (if decide (x = 0) then 0 else default 0 (demo_counts demo_state !! x)). case_decide; [done|].
  destruct (demo_counts demo_state !! x) as [n|] eqn:E; [|done]. unfold demo_state in E. cbn [demo_counts] in E.
  apply elem_of_list_to_map_2, list_elem_of_fmap in E as (y & [= _ ->] & _). cbn [default from_option id]. lia.
Qed.

Lemma dictionary_refines_witness :
  ∃ s', dict_calls (λ m, (map_to_list m).*2) 5 demo_calls demo_state = Ret ([0; 0; 0; 25; 0; 2; 0], s') ∧ represents 5 s' {[3 := 25; 2 := 22]}.
Proof.
  destruct (dictionary_refines (λ m, (map_to_list m).*2) 5 demo_calls demo_state ∅) as (s' & E & Hrep & _).
  - intros m. reflexivity.
  - exists DictionaryHostObject_default. split; [reflexivity|]. split; [apply default_ok|]. split; [reflexivity|]. intros x. change (held DictionaryHostObject_default x) with 0. apply demo_state_refs.
  - apply (bool_decide_unpack _). vm_compute. reflexivity.
  - vm_compute. reflexivity.
  - exists s'. split; [exact E|]. exact Hrep.
Defined.

(** Setting a key that is present leaks a reference to the new key (11 has three references,
    one of the caller and one of the dictionary). *)
Example replaced_key_leaks :
  (s ← dict_setObject_forKey 5 20 11 demo_state; s ← dict_setObject_forKey 5 25 11 s; Ret (default 0 (demo_counts s !! 11), default 0 (demo_counts s !! 20)))
  = Ret (3, 1).
Proof. vm_compute. reflexivity. Qed.

(** ** [CFDictionary] without callbacks: pointers as keys, nothing retained *)

Section cf.
Context {S : Type} (call_guest : Z → list Z → S → outcome (Z * S)).
Implicit Types (s : S).

(** The key-value pairs are by pointer, one per list; lists that were emptied stay. *)
Definition cf_shape (d : CFDictionaryHostObject) (m : gmap Z Z) : Prop :=
  cf_callbacks d = mkCFCallBacks 0 0 0 0 0 0 ∧
  ∀ k, match m !! k with
       | Some v => dict_map (cf_superclass d) !! k = Some [(k, v)]
       | None => dict_map (cf_superclass d) !! k = None ∨ dict_map (cf_superclass d) !! k = Some []
       end.
Definition cf_ok (d : CFDictionaryHostObject) (m : gmap Z Z) : Prop := cf_shape d m ∧ dict_count (cf_superclass d) = Z.of_nat (size m).

Lemma cf_shape_insert d m k n l m' :
  cf_shape d m → (∀ j, j ≠ k → m' !! j = m !! j) → match m' !! k with Some v => l = [(k, v)] | None => l = [] end →
  cf_shape (set_cf_superclass (mkDict (<[k := l]> (dict_map (cf_superclass d))) n) d) m'.
Proof.
  intros [Hn Hb] Hm Hk. split; [done|]. intros j. cbn [cf_superclass set_cf_superclass dict_map]. destruct (decide (j = k)) as [->|].
  - rewrite lookup_insert_eq. destruct (m' !! k); subst; auto.
  - rewrite Hm, lookup_insert_ne by done. apply Hb.
Qed.

Lemma cf_position_found d m key v s : cf_shape d m → m !! key = Some v → cf_position call_guest d key [(key, v)] s = Ret (Some (0%nat, (key, v)), s).
Proof. intros [Hn _] E. cbn [cf_position]. unfold cf_equal_keys. rewrite Hn. cbn [cb_key_equal Z.eqb]. by rewrite Z.eqb_refl. Qed.

Lemma cf_lookup_spec d m key s : cf_shape d m → cf_lookup call_guest d key s = Ret (default nil_object (m !! key), s).
Proof.
  intros Hs. pose proof Hs as [Hn Hb]. unfold cf_lookup, cf_hash. rewrite Hn. cbn [cb_key_hash Z.eqb]. rewrite ret_bind. specialize (Hb key).
  destruct (m !! key) as [v|] eqn:E; [|by destruct Hb as [-> | ->]]. rewrite Hb. by rewrite (cf_position_found d m key v s Hs E).
Qed.
Lemma cf_remove_spec d m key s :
  cf_shape d m → 1 ≤ dict_count (cf_superclass d) < U32_MOD →
  ∃ d', cf_remove call_guest d key s = Ret (bool_decide (is_Some (m !! key)), d', s) ∧ cf_shape d' (delete key m) ∧
    dict_count (cf_superclass d') = dict_count (cf_superclass d) - (if decide (is_Some (m !! key)) then 1 else 0) ∧
    (is_Some (dict_map (cf_superclass d) !! key) → dict_map (cf_superclass d') !! key = Some []).
Proof.
  intros Hs Hc. pose proof Hs as [Hn Hb]. unfold cf_remove, cf_hash. rewrite Hn. cbn [cb_key_hash Z.eqb]. rewrite ret_bind. specialize (Hb key).
  destruct (m !! key) as [v|] eqn:E.
  - rewrite Hb, (cf_position_found d m key v s Hs E), ret_bind. unfold cf_release. cbn [cb_key_release cb_value_release Z.eqb]. rewrite !ret_bind, u32_ok, ret_bind by lia.
    eexists. rewrite bool_decide_true, decide_True by eauto. split; [done|]. split; [|by split; [|intros _; simpl; rewrite lookup_insert_eq]].
    apply (cf_shape_insert d m); [done|intros j ?; by rewrite lookup_delete_ne|by rewrite lookup_delete_eq].
  - exists d. rewrite bool_decide_false, decide_False by (by intros []). rewrite delete_id by done. destruct Hb as [E' | E']; rewrite E'; cbn [cf_position]; rewrite ?ret_bind;
      (split; [done|]); (split; [done|]); (split; [lia|]); [by intros []|done].
Qed.
Lemma cf_insert_spec d m key value s :
  cf_ok d m → Z.of_nat (size m) + 1 < U32_MOD →
  ∃ d', cf_insert call_guest d key value s = Ret (d', s) ∧ cf_ok d' (<[key := value]> m).
Proof.
  intros [Hs Hc] Hsz. pose proof Hs as [Hn Hb]. unfold cf_insert, cf_hash, cf_retain. rewrite Hn. cbn [cb_key_hash cb_key_retain cb_value_retain Z.eqb]. rewrite !ret_bind. cbv beta iota.
  rewrite u32_ok, ret_bind by lia. specialize (Hb key). destruct (dict_map (cf_superclass d) !! key) as [l|] eqn:E.
  - set (d1 := set_cf_superclass _ d). assert (cf_shape d1 m) as Hs1 by exact Hs.
    destruct (cf_remove_spec d1 m key s Hs1) as (d2 & E2 & Hs2 & Hc2 & Hl2); [simpl; lia|]. rewrite E2, ret_bind. cbv beta iota.
    rewrite Hl2 by (simpl; rewrite E; eauto). cbn [unwrap]. rewrite ret_bind. eexists. split; [done|]. split.
    + apply (cf_shape_insert d2 (delete key m)); [done|intros j ?; by rewrite lookup_insert_ne, lookup_delete_ne|by rewrite lookup_insert_eq].
    + cbn [cf_superclass set_cf_superclass dict_count]. rewrite Hc2, map_size_insert. destruct (m !! key); cbn [dict_count cf_superclass set_cf_superclass d1]; repeat case_decide; simpl; try lia; [by destruct H; eauto|by destruct H].
  - destruct (m !! key) as [v|] eqn:Em; [done|]. eexists. split; [done|]. split.
    + apply (cf_shape_insert d m); [done|intros j ?; by rewrite lookup_insert_ne|by rewrite lookup_insert_eq].
    + cbn [cf_superclass set_cf_superclass dict_count]. rewrite map_size_insert, Em. simpl. lia.
Qed.
End cf.
