(* ===== verification/ArrayFacts.v ===== *)
(** * Arrays are lists

    Any sequence of calls on a mutable array gives the results of a list, or panics where an
    index is out of range; the array owns a reference for each occurrence of an object in
    it.  Sorting gives a sorted permutation, from the theorem on [qsort_generic]. *)

From S2P Require Import Prelude Qsort Collections DictionaryFacts.

Section array.
Context {S : Type} {O : ObjOps S} {K : Type} `{!EqDecision K, !Countable K} {L : ObjLaws S K}.
Implicit Types (s : S) (l : list Z).

Definition array_is (this : Z) (s : S) (l : list Z) : Prop :=
  arrays (tables s) !! this = Some l ∧ (∀ x, times x l ≤ refs s x) ∧ Z.of_nat (length l) < U32_MOD.
(** The references to an object that are not the array's. *)
Definition others (this : Z) (s : S) (x : Z) : Z := refs s x - times x (default [] (arrays (tables s) !! this)).

Lemma array_live this s l x : array_is this s l → x ∈ l → 0 < refs s x.
Proof. intros (_ & Ho & _) Hx. specialize (Ho x). pose proof (times_elem _ _ Hx). lia. Qed.
Lemma others_live this s x : 1 ≤ others this s x → 0 < refs s x.
Proof. unfold others. pose proof (times_nonneg x (default [] (arrays (tables s) !! this))). lia. Qed.

(** Storing another list, with the references changed accordingly. *)
Lemma put_array_spec this l l' s :
  arrays (tables s) !! this = Some l →
  ∃ s', put_array this l' s = Ret s' ∧ arrays (tables s') !! this = Some l' ∧ (∀ x, refs s' x = refs s x).
Proof.
  intros E. unfold put_array, borrow_array. rewrite E. eexists. split; [done|]. split; [|intros x; apply tables_refs]. rewrite tables_law. simpl. by rewrite lookup_insert_eq.
Qed.
Lemma array_is_intro this s s' l l' :
  array_is this s l → arrays (tables s') !! this = Some l' → (∀ x, refs s' x = refs s x + times x l' - times x l) → Z.of_nat (length l') < U32_MOD →
  array_is this s' l' ∧ ∀ x, others this s' x = others this s x.
Proof.
  intros (E & Ho & _) E' Hr Hl. split.
  - split; [done|]. split; [|done]. intros x. rewrite Hr. specialize (Ho x). lia.
  - intros x. unfold others. rewrite E, E', Hr. simpl. lia.
Qed.
Lemma array_is_same this s s' l : array_is this s l → same s s' → array_is this s' l ∧ ∀ x, others this s' x = others this s x.
Proof.
  intros Ha [Ht Hr]. apply (array_is_intro this s s' l l Ha); [rewrite Ht; apply Ha|intros x; rewrite Hr; lia|apply Ha].
Qed.
Lemma array_count_eq this s l : array_is this s l → array_count this s = Ret (Z.of_nat (length l)).
Proof. intros (E & _ & Hl). unfold array_count, borrow_array. rewrite E. cbn [unwrap]. rewrite ret_bind. apply u32_ok. lia. Qed.
Lemma objectAtIndex_eq this s l i : array_is this s l → objectAtIndex this i s = unwrap (l !! Z.to_nat i).
Proof. intros (E & _). unfold objectAtIndex, borrow_array. by rewrite E. Qed.

(** ** Searching *)

(** The first object equal to the given one. *)
Definition index_of (o : Z) (l : list Z) : Z :=
  match list_find (λ x, kind o = kind x) l with Some (i, _) => Z.of_nat i | None => NSNotFound end.
Lemma indexOfObject_spec this s l o :
  array_is this s l → 0 < refs s o →
  ∃ s', indexOfObject this o s = Ret (index_of o l, s') ∧ same s s'.
Proof.
  intros Ha Ho. unfold indexOfObject. rewrite (array_count_eq this s l Ha), ret_bind.
  destruct (for_range_spec (R := Z * S) (Z.of_nat (length l)) (index_body this o) (λ i t, same s t ∧ Forall (λ x, kind o ≠ kind x) (take (Z.to_nat i) l))
    (λ y, match y with inl t => same s t ∧ index_of o l = NSNotFound | inr (i, t) => same s t ∧ index_of o l = i end) s) as (y & -> & Hy).
  - destruct Ha as (_ & _ & ?). lia.
  - split; [apply same_refl|by apply Forall_nil].
  - intros i t Hi [Ht Hnone]. destruct (array_is_same _ _ _ _ Ha Ht) as [Hat _]. unfold index_body. rewrite (objectAtIndex_eq this t l i Hat).
    destruct (lookup_lt_is_Some_2 l (Z.to_nat i)) as [x Hx]; [lia|]. rewrite Hx. cbn [unwrap]. rewrite ret_bind.
    destruct (isEqual_law t o x) as (t' & E & Htt & Hrt); [by rewrite (proj2 Ht)|eapply array_live; [done|by eapply list_elem_of_lookup_2]|].
    rewrite E, ret_bind. case_bool_decide as Hk; [right|left]; eexists; (split; [done|]); (split; [eapply same_trans; [done|by split]|]).
    + unfold index_of. assert (list_find (λ x, kind o = kind x) l = Some (Z.to_nat i, x)) as ->; [|simpl; lia].
      apply list_find_Some. split; [done|]. split; [done|]. intros j y Hj Hlt. rewrite Forall_forall in Hnone. apply Hnone.
      apply (list_elem_of_lookup_2 _ j). by rewrite lookup_take_lt by lia.
    + replace (Z.to_nat (i + 1)) with (Datatypes.S (Z.to_nat i)) by lia. rewrite (take_S_r _ _ _ Hx). apply Forall_app. split; [done|]. by apply Forall_singleton.
  - intros t [Ht Hnone]. split; [done|]. unfold index_of. assert (list_find (λ x, kind o = kind x) l = None) as ->; [|done].
    apply list_find_None. rewrite take_ge in Hnone by lia. done.
  - rewrite ret_bind. destruct y as [t|[i t]]; destruct Hy as [Ht Hi]; [rewrite Hi; eauto|]. exists t. by rewrite Hi.
Qed.

(** ** Calls *)

Inductive array_call :=
| AddObject (object : Z)
| InsertObject (object index : Z)
| RemoveAt (index : Z)
| ReplaceAt (index object : Z)
| RemoveLast
| RemoveEvery
| IndexOf (object : Z)
| ObjectAt (index : Z)
| FirstObject
| LastObject
| CountObjects.

Definition array_do (this : Z) (c : array_call) (s : S) : outcome (Z * S) :=
  match c with
  | AddObject o => s ← array_addObject this o s; Ret (0, s)
  | InsertObject o i => s ← insertObject_atIndex this o i s; Ret (0, s)
  | RemoveAt i => s ← removeObjectAtIndex this i s; Ret (0, s)
  | ReplaceAt i o => s ← replaceObjectAtIndex_withObject this i o s; Ret (0, s)
  | RemoveLast => s ← removeLastObject this s; Ret (0, s)
  | RemoveEvery => s ← array_removeAllObjects this s; Ret (0, s)
  | IndexOf o => indexOfObject this o s
  | ObjectAt i => x ← objectAtIndex this i s; Ret (x, s)
  | FirstObject => x ← firstObject this s; Ret (x, s)
  | LastObject => x ← lastObject this s; Ret (x, s)
  | CountObjects => n ← array_count this s; Ret (n, s)
  end.
(** The same on a list; [None] where an index is out of range. *)
Definition list_do (c : array_call) (l : list Z) : option (Z * list Z) :=
  match c with
  | AddObject o => Some (0, l ++ [o])
  | InsertObject o i => if i <=? Z.of_nat (length l) then Some (0, take (Z.to_nat i) l ++ o :: drop (Z.to_nat i) l) else None
  | RemoveAt i => _ ← l !! Z.to_nat i; Some (0, delete (Z.to_nat i) l)
  | ReplaceAt i o => _ ← l !! Z.to_nat i; Some (0, <[Z.to_nat i := o]> l)
  | RemoveLast => _ ← last l; Some (0, removelast l)
  | RemoveEvery => Some (0, [])
  | IndexOf o => Some (index_of o l, l)
  | ObjectAt i => x ← l !! Z.to_nat i; Some (x, l)
  | FirstObject => Some (default nil_object (head l), l)
  | LastObject => Some (default nil_object (last l), l)
  | CountObjects => Some (Z.of_nat (length l), l)
  end.
Definition array_args (c : array_call) : list Z :=
  match c with AddObject o | InsertObject o _ | ReplaceAt _ o | IndexOf o => [o] | _ => [] end.
Definition array_call_ok (f : Z → Z) (c : array_call) : Prop := Forall (λ x, 1 ≤ f x) (array_args c).

(** What a call does: as the list, or a panic. *)
Definition array_result (this : Z) (s : S) (r : option (Z * list Z)) (x : outcome (Z * S)) : Prop :=
  match r with
  | None => x = Panic
  | Some (v, l') => ∃ s', x = Ret (v, s') ∧ array_is this s' l' ∧ ∀ o, others this s' o = others this s o
  end.

Lemma times_delete l i x o : l !! i = Some o → times x (delete i l) = times x l - (if decide (x = o) then 1 else 0).
Proof. intros Hi. pose proof (delete_Permutation _ _ _ Hi) as HP. rewrite HP at 2. rewrite times_cons. lia. Qed.
Lemma times_insert l i x o o' : l !! i = Some o → times x (<[i := o']> l) = times x l - (if decide (x = o) then 1 else 0) + (if decide (x = o') then 1 else 0).
Proof. intros Hi. rewrite (insert_delete_perm _ _ _ o' Hi), times_cons, (times_delete _ _ _ _ Hi). lia. Qed.

(** Storing a list from which an object has been taken, and releasing that object. *)
Lemma put_release this s s1 l l' o :
  array_is this s l → arrays (tables s1) !! this = Some l → Z.of_nat (length l') < U32_MOD → o ∈ l →
  (∀ x, refs s1 x - (if decide (x = o) then 1 else 0) = refs s x + times x l' - times x l) → (∀ x, refs s x ≤ refs s1 x) →
  ∃ s', (s ← put_array this l' s1; obj_release o s) = Ret s' ∧ array_is this s' l' ∧ ∀ x, others this s' x = others this s x.
Proof.
  intros Ha E Hlen Ho Hr Hle. destruct (put_array_spec this l l' s1 E) as (s2 & E2 & Ht2 & Hr2). rewrite E2, ret_bind.
  destruct (release_law s2 o) as (s3 & E3 & Ht3 & Hr3); [rewrite Hr2; pose proof (array_live _ _ _ _ Ha Ho); specialize (Hle o); lia|].
  exists s3. split; [done|]. apply (array_is_intro this s s3 l l' Ha); [by rewrite Ht3|intros x; by rewrite Hr3, Hr2, Hr|done].
Qed.

Lemma release_all_spec (k : list Z) s :
  (∀ x, times x k ≤ refs s x) → ∃ s', release_all k s = Ret s' ∧ tables s' = tables s ∧ ∀ x, refs s' x = refs s x - times x k.
Proof.
  revert s. induction k as [|o k IH]; intros s Hs; [exists s; split; [done|]; split; [done|]; intros x; rewrite times_nil; lia|].
  unfold release_all. cbn [for_each]. destruct (release_law s o) as (s1 & E1 & Ht1 & Hr1).
  { specialize (Hs o). rewrite times_cons, decide_True in Hs by done. pose proof (times_nonneg o k). lia. }
  rewrite E1, ret_bind. destruct (IH s1) as (s2 & E2 & Ht2 & Hr2); [intros x; specialize (Hs x); rewrite times_cons in Hs; rewrite Hr1; lia|].
  exists s2. split; [done|]. split; [congruence|]. intros x. rewrite Hr2, Hr1, times_cons. lia.
Qed.
Lemma last_removelast l o : last l = Some o → l = removelast l ++ [o].
Proof. intros H. apply last_Some in H as (k & ->). by rewrite removelast_last. Qed.

Lemma retain_in_array this s l o :
  array_is this s l → 1 ≤ others this s o →
  ∃ s1, obj_retain o s = Ret (o, s1) ∧ borrow_array this s1 = Ret l ∧ arrays (tables s1) !! this = Some l ∧ ∀ x, refs s1 x = refs s x + (if decide (x = o) then 1 else 0).
Proof.
  intros (E & _) Ho. destruct (retain_law s o (others_live _ _ _ Ho)) as (s1 & E1 & Ht1 & Hr1). exists s1. unfold borrow_array. rewrite Ht1, E. by split_and!.
Qed.
(** Storing a list to which an object has been added. *)
Lemma retain_put this s l l' o :
  array_is this s l → 1 ≤ others this s o → Z.of_nat (length l') < U32_MOD → (∀ x, times x l' = times x l + (if decide (x = o) then 1 else 0)) →
  ∃ s1 s', obj_retain o s = Ret (o, s1) ∧ borrow_array this s1 = Ret l ∧ put_array this l' s1 = Ret s' ∧ array_is this s' l' ∧ ∀ x, others this s' x = others this s x.
Proof.
  intros Ha Ho Hlen Hocc. destruct (retain_in_array this s l o Ha Ho) as (s1 & E1 & Eb & Et & Hr1). destruct (put_array_spec this l l' s1 Et) as (s2 & E2 & Ht2 & Hr2).
  exists s1, s2. split; [done|]. split; [done|]. split; [done|]. apply (array_is_intro this s s2 l l' Ha); [done| |done]. intros x. rewrite Hr2, Hr1, Hocc. lia.
Qed.

Lemma array_remove_at this s l i :
  array_is this s l → array_result this s (list_do (RemoveAt i) l) (array_do this (RemoveAt i) s).
Proof.
  intros Ha. pose proof Ha as (E & _ & Hl). cbn [list_do array_do]. unfold removeObjectAtIndex, borrow_array. rewrite E. cbn [unwrap]. rewrite ret_bind.
  destruct (l !! Z.to_nat i) as [o|] eqn:Hi; [|done]. cbn [unwrap mbind option_bind array_result]. rewrite ret_bind.
  destruct (put_release this s s l (delete (Z.to_nat i) l) o) as (s' & E' & Ha' & Hs'); [done|done| |by eapply list_elem_of_lookup_2| |done|].
  - pose proof (length_delete l (Z.to_nat i) ltac:(eauto)). lia.
  - intros x. rewrite (times_delete _ _ _ _ Hi). lia.
  - rewrite E', ret_bind. by exists s'.
Qed.
Lemma array_remove_last this s l : array_is this s l → array_result this s (list_do RemoveLast l) (array_do this RemoveLast s).
Proof.
  intros Ha. pose proof Ha as (E & _ & Hl). cbn [list_do array_do]. unfold removeLastObject, borrow_array. rewrite E. cbn [unwrap]. rewrite ret_bind.
  destruct (last l) as [o|] eqn:Ho; [|done]. cbn [unwrap mbind option_bind array_result]. rewrite ret_bind. pose proof (last_removelast l o Ho) as El.
  destruct (put_release this s s l (removelast l) o) as (s' & E' & Ha' & Hs'); [done|done| | | |done|].
  - rewrite El, length_app in Hl. lia.
  - rewrite El. apply elem_of_app. right. by apply list_elem_of_singleton.
  - intros x. rewrite El at 2. rewrite times_app, times_cons, times_nil. lia.
  - rewrite E', ret_bind. by exists s'.
Qed.
Lemma array_replace_at this s l i o :
  array_is this s l → 1 ≤ others this s o → array_result this s (list_do (ReplaceAt i o) l) (array_do this (ReplaceAt i o) s).
Proof.
  intros Ha Ho. pose proof Ha as (E & _ & Hl). cbn [list_do array_do]. unfold replaceObjectAtIndex_withObject.
  destruct (retain_in_array this s l o Ha Ho) as (s1 & E1 & Eb & Et & Hr1). rewrite E1, ret_bind. cbv beta iota. rewrite Eb, ret_bind.
  destruct (l !! Z.to_nat i) as [old|] eqn:Hi; [|done]. cbn [unwrap mbind option_bind array_result]. rewrite ret_bind.
  destruct (put_release this s s1 l (<[Z.to_nat i := o]> l) old) as (s' & E' & Ha' & Hs'); [done|done|by rewrite length_insert|by eapply list_elem_of_lookup_2| | |].
  - intros x. rewrite (times_insert _ _ _ _ o Hi), Hr1. lia.
  - intros x. rewrite Hr1. case_decide; lia.
  - rewrite E', ret_bind. by exists s'.
Qed.
Lemma array_remove_every this s l : array_is this s l → array_result this s (list_do RemoveEvery l) (array_do this RemoveEvery s).
Proof.
  intros Ha. pose proof Ha as (E & Ho & Hl). cbn [list_do array_do array_result]. unfold array_removeAllObjects, borrow_array. rewrite E. cbn [unwrap]. rewrite ret_bind.
  destruct (put_array_spec this l [] s E) as (s1 & E1 & Ht1 & Hr1). rewrite E1, ret_bind.
  destruct (release_all_spec l s1) as (s2 & E2 & Ht2 & Hr2); [intros x; rewrite Hr1; apply Ho|]. rewrite E2, ret_bind.
  destruct (put_array_spec this [] [] s2) as (s3 & E3 & Ht3 & Hr3); [by rewrite Ht2|]. rewrite E3, ret_bind. exists s3. split; [done|].
  apply (array_is_intro this s s3 l [] Ha); [done| |simpl; unfold U32_MOD; lia]. intros x. rewrite Hr3, Hr2, Hr1, times_nil. lia.
Qed.
Lemma array_insert this s l o i :
  array_is this s l → 1 ≤ others this s o → Z.of_nat (length l) + 1 < U32_MOD → 0 ≤ i →
  array_result this s (list_do (InsertObject o i) l) (array_do this (InsertObject o i) s).
Proof.
  intros Ha Ho Hl Hi. cbn [list_do array_do]. unfold insertObject_atIndex.
  destruct (retain_put this s l (take (Z.to_nat i) l ++ o :: drop (Z.to_nat i) l) o) as (s1 & s' & E1 & Eb & Ep & Ha' & Hs'); [done|done| | |].
  - rewrite length_app. simpl. rewrite length_take, length_drop. lia.
  - intros x. rewrite times_app, times_cons. rewrite <- (take_drop (Z.to_nat i) l) at 3. rewrite times_app. lia.
  - rewrite E1, ret_bind. cbv beta iota. rewrite Eb, ret_bind. destruct (Z.leb_spec i (Z.of_nat (length l))); [|done]. cbn [rassert array_result]. rewrite ret_bind, Ep, ret_bind.
    by exists s'.
Qed.

Lemma array_do_spec this c s l :
  array_is this s l → array_call_ok (others this s) c → Z.of_nat (length l) + 1 < U32_MOD → match c with InsertObject _ i => 0 ≤ i | _ => True end →
  array_result this s (list_do c l) (array_do this c s).
Proof.
  intros Ha Hok Hl Hidx. pose proof Ha as (E & _). unfold array_call_ok in Hok.
  destruct c as [o|o i|i|i o| | |o|i| | |]; cbn [array_args] in Hok; try (apply List.Forall_inv in Hok; cbv beta in Hok).
  - cbn [list_do array_do array_result]. unfold array_addObject.
    destruct (retain_put this s l (l ++ [o]) o) as (s1 & s' & E1 & Eb & Ep & Ha' & Hs'); [done|done|rewrite length_app; simpl; lia|intros x; rewrite times_app, times_cons, times_nil; lia|].
    rewrite E1, ret_bind. cbv beta iota. rewrite Eb, ret_bind, Ep, ret_bind. by exists s'.
  - by apply array_insert.
  - by apply array_remove_at.
  - by apply array_replace_at.
  - by apply array_remove_last.
  - by apply array_remove_every.
  - cbn [list_do array_do array_result]. destruct (indexOfObject_spec this s l o Ha) as (s' & -> & Hs); [by eapply others_live|]. exists s'. split; [done|].
    by apply (array_is_same _ _ _ _ Ha).
  - cbn [list_do array_do]. rewrite (objectAtIndex_eq this s l i Ha). destruct (l !! Z.to_nat i); [|done]. by exists s.
  - cbn [list_do array_do array_result]. unfold firstObject. rewrite (array_count_eq this s l Ha), ret_bind, (objectAtIndex_eq this s l 0 Ha). exists s.
    destruct l as [|x l]; [done|]. rewrite (proj2 (Z.eqb_neq _ _)) by (simpl; lia). done.
  - cbn [list_do array_do array_result]. unfold lastObject. rewrite (array_count_eq this s l Ha), ret_bind, (objectAtIndex_eq this s l _ Ha). exists s.
    destruct (last l) as [o|] eqn:Hlast.
    + pose proof (last_lookup l) as Hlk. rewrite Hlast in Hlk. assert (0 < length l)%nat by (destruct l; [done|simpl; lia]).
      rewrite (proj2 (Z.eqb_neq _ _)) by lia. replace (Z.to_nat (Z.of_nat (length l) - 1)) with (pred (length l)) by lia. by rewrite <- Hlk.
    + apply last_None in Hlast as ->. done.
  - cbn [list_do array_do array_result]. rewrite (array_count_eq this s l Ha). by exists s.
Qed.

Fixpoint array_calls (this : Z) (cs : list array_call) (s : S) : outcome (list Z * S) :=
  match cs with
  | [] => Ret ([], s)
  | c :: cs => '(r, s) ← array_do this c s; '(rs, s) ← array_calls this cs s; Ret (r :: rs, s)
  end.
Fixpoint list_calls (cs : list array_call) (l : list Z) : option (list Z * list Z) :=
  match cs with
  | [] => Some ([], l)
  | c :: cs => '(r, l) ← list_do c l; '(rs, l) ← list_calls cs l; Some (r :: rs, l)
  end.
Definition index_ok (c : array_call) : Prop := match c with InsertObject _ i => 0 ≤ i | _ => True end.

Lemma list_do_length c l r l' : list_do c l = Some (r, l') → (length l' ≤ length l + 1)%nat.
Proof.
  destruct c; cbn [list_do]; intros E; try (injection E as <- <-; rewrite ?length_app; simpl; lia).
  - destruct (_ <=? _); [|done]. injection E as <- <-. rewrite length_app. simpl. rewrite length_take, length_drop. lia.
  - destruct (l !! _) eqn:Hi; [|done]. injection E as <- <-. pose proof (length_delete l _ (ltac:(eauto) : is_Some (l !! _))). lia.
  - destruct (l !! _) eqn:Hi; [|done]. injection E as <- <-. rewrite length_insert. lia.
  - destruct (last l) eqn:Hi; [|done]. injection E as <- <-. rewrite (last_removelast l _ Hi) at 2. rewrite length_app. simpl. lia.
  - destruct (l !! _) eqn:Hi; [|done]. injection E as <- <-. lia.
Qed.

Lemma array_calls_spec this cs : ∀ s l,
  array_is this s l → Forall (array_call_ok (others this s)) cs → Forall index_ok cs → Z.of_nat (length l + length cs) < U32_MOD →
  match list_calls cs l with
  | None => array_calls this cs s = Panic
  | Some (rs, l') => ∃ s', array_calls this cs s = Ret (rs, s') ∧ array_is this s' l' ∧ ∀ x, others this s' x = others this s x
  end.
Proof.
  induction cs as [|c cs IH]; intros s l Ha Hok Hidx Hlen; [by exists s|]. apply Forall_cons in Hok as [Hc Hok]. apply Forall_cons in Hidx as [Hi Hidx].
  cbn [length] in Hlen. pose proof (array_do_spec this c s l Ha Hc ltac:(lia) Hi) as Hres. cbn [list_calls array_calls].
  destruct (list_do c l) as [[r l1]|] eqn:El; cbn [array_result mbind option_bind] in *; [|by rewrite Hres].
  destruct Hres as (s1 & -> & Ha1 & Ho1). rewrite ret_bind. cbv beta iota. pose proof (list_do_length _ _ _ _ El).
  assert (Forall (array_call_ok (others this s1)) cs) as Hok1.
  { eapply Forall_impl; [exact Hok|]. intros c' Hc'. eapply Forall_impl; [exact Hc'|]. intros x. simpl. by rewrite Ho1. }
  specialize (IH s1 l1 Ha1 Hok1 Hidx ltac:(lia)). destruct (list_calls cs l1) as [[rs l2]|].
  - destruct IH as (s2 & -> & Ha2 & Ho2). exists s2. split; [done|]. split; [done|]. intros x. by rewrite Ho2.
  - by rewrite IH.
Qed.

(** ** Sorting *)

Section sorting.
Variables (comparator : Z → Z → S → outcome (Z * S)) (lt : Z → Z → Prop).
Hypothesis Hcmp : ∀ s a b, 0 < refs s a → 0 < refs s b → ∃ c s', comparator a b s = Ret (c, s') ∧ same s s' ∧ (c < 0 ↔ lt a b).

Definition sort_ok (s0 : S) (x : S * list Z) : Prop := same s0 x.1 ∧ Forall (λ o, 0 < refs s0 o) x.2.
Lemma vec_sortable s0 : Sortable (sort_compare comparator) sort_swap (sort_ok s0) snd lt.
Proof.
  split.
  - intros [s l] i j x y [Hs Hl] Hi Hj. cbn [snd fst] in *. unfold sort_compare. rewrite !Nat2Z.id, Hi, Hj. cbn [unwrap]. rewrite !ret_bind. rewrite Forall_forall in Hl.
    destruct (Hcmp s x y) as (c & s' & E & Hs' & Hc); [rewrite (proj2 Hs); apply Hl; by eapply list_elem_of_lookup_2..|].
    rewrite E, ret_bind. exists c, (s', l). split; [done|]. split; [|by split]. split; [by eapply same_trans|]. by apply Forall_forall.
  - intros [s l] i j [Hs Hl] Hi Hj. cbn [snd fst] in *. destruct (lookup_lt_is_Some_2 _ _ Hi) as [x Hx]. destruct (lookup_lt_is_Some_2 _ _ Hj) as [y Hy].
    assert (list_swap i j l = <[j := x]> (<[i := y]> l)) as El by (rewrite list_swap_comm; unfold list_swap; by rewrite Hx, Hy).
    exists (s, list_swap i j l). split; [unfold sort_swap; rewrite !Nat2Z.id, Hx, Hy, El; done|]. split; [|done]. split; [done|]. cbn [snd].
    rewrite El. rewrite Forall_forall in Hl. apply Forall_insert; [apply Forall_insert; [by apply Forall_forall|]|]; apply Hl; by eapply list_elem_of_lookup_2.
Qed.

Lemma sortUsingFunction_sorts `{!Comparison lt} this s l :
  array_is this s l →
  ∃ l' s', sortUsingFunction comparator this s = Ret s' ∧ array_is this s' l' ∧ l' ≡ₚ l ∧ in_order (lt := lt) l' ∧ ∀ x, others this s' x = others this s x.
Proof.
  intros Ha. pose proof Ha as (E & Ho & Hl). unfold sortUsingFunction, borrow_array. rewrite E. cbn [unwrap]. rewrite ret_bind.
  destruct (put_array_spec this l [] s E) as (s1 & E1 & Ht1 & Hr1). rewrite E1, ret_bind. rewrite u32_ok, ret_bind by lia.
  pose proof (vec_sortable s1) as Hsort. destruct (qsort_generic_spec (lt := lt) (s1, l) (Z.of_nat (length l))) as ([s2 l'] & E2 & [[Ht2 Hr2] _] & HP & Hord).
  - split; [apply same_refl|]. apply Forall_forall. intros x Hx. rewrite Hr1. by eapply array_live.
  - done.
  - done.
  - cbn [fst snd] in *. rewrite E2, ret_bind. destruct (put_array_spec this [] l' s2) as (s3 & E3 & Ht3 & Hr3); [by rewrite Ht2|].
    exists l', s3. split; [done|]. destruct (array_is_intro this s s3 l l' Ha) as [Ha3 Ho3]; [done|intros x; rewrite Hr3, Hr2, Hr1, HP; lia|by rewrite HP|].
    by split_and!.
Qed.
End sorting.


End array.


Definition demo_array : demo_heap :=
  mkDemoHeap (list_to_map ((λ x, (x, 2)) <$> seqZ 11 15)) (mkTables {[7 := [11; 12]]} ∅ ∅ ∅).
Definition demo_array_calls : list array_call := [AddObject 13; InsertObject 14 0; IndexOf 22; RemoveAt 1; LastObject; CountObjects].


(** [removeObject:] of an object that is in the array twice: the second index is from before the first
    removal.  Here it is past the end. *)
Example remove_object_twice : array_removeObject 7 11 (set_tables (mkTables {[7 := [11; 12; 11]]} ∅ ∅ ∅) demo_array) = Panic.
Proof. vm_compute. reflexivity. Qed.
(** Here another object, 14, is removed instead. *)
Example remove_object_wrong :
  (s ← array_removeObject 7 11 (set_tables (mkTables {[7 := [11; 12; 11; 14]]} ∅ ∅ ∅) demo_array); borrow_array 7 s) = Ret [12; 11].
Proof. vm_compute. reflexivity. Qed.
(** The array of a set's objects does not own them. *)
Example set_objects_not_retained :
  let s := set_tables (mkTables ∅ ∅ {[8 := mkDict {[1 := [(11, 999)]]} 1]} ∅) demo_array in
  ('(a, s) ← allObjects (λ m, (map_to_list m).*2) 8 s; s ← array_dealloc a s; Ret (default 0 (demo_counts s !! 11))) = Ret 1.
Proof. vm_compute. reflexivity. Qed.
