(* ===== verification/Hierarchy.v ===== *)
(** * Views and layers ([frameworks/uikit/ui_view.rs], [frameworks/core_animation/ca_layer.rs])

    The two hierarchies: views with their subviews, and the layers that draw them with their
    sublayers.  A view or layer owns its children; the reference to the parent is weak.
    Geometry (floating-point rectangles and matrices) is an argument. *)

From S2P Require Import Prelude.

(** [CALayerHostObject] and [UIViewHostObject], the fields of the hierarchy. *)
Record CALayer := mkLayer { sublayers : list Z; superlayer : Z }.
Record UIView := mkView { view_layer : Z; subviews : list Z; superview : Z; view_controller : Z; view_tag : Z }.
Definition set_sublayers (x : list Z) (l : CALayer) : CALayer := mkLayer x (superlayer l).
Definition set_superlayer (x : Z) (l : CALayer) : CALayer := mkLayer (sublayers l) x.
Definition set_subviews (x : list Z) (v : UIView) : UIView := mkView (view_layer v) x (superview v) (view_controller v) (view_tag v).
Definition set_superview (x : Z) (v : UIView) : UIView := mkView (view_layer v) (subviews v) x (view_controller v) (view_tag v).
Definition set_tag (x : Z) (v : UIView) : UIView := mkView (view_layer v) (subviews v) (superview v) (view_controller v) x.

(** The objects and their reference counts; [all_views] is the non-retaining list of [State]. *)
Record Scene := mkScene { scene_layers : gmap Z CALayer; scene_views : gmap Z UIView; ref_counts : gmap Z Z; all_views : list Z }.
Definition put_layer (x : Z) (l : CALayer) (s : Scene) : Scene := mkScene (<[x := l]> (scene_layers s)) (scene_views s) (ref_counts s) (all_views s).
Definition put_view (x : Z) (v : UIView) (s : Scene) : Scene := mkScene (scene_layers s) (<[x := v]> (scene_views s)) (ref_counts s) (all_views s).
Definition set_ref_counts (c : gmap Z Z) (s : Scene) : Scene := mkScene (scene_layers s) (scene_views s) c (all_views s).
Definition set_all_views (l : list Z) (s : Scene) : Scene := mkScene (scene_layers s) (scene_views s) (ref_counts s) l.
Definition borrow_layer (x : Z) (s : Scene) : outcome CALayer := unwrap (scene_layers s !! x).
Definition borrow_view (x : Z) (s : Scene) : outcome UIView := unwrap (scene_views s !! x).

(** [vec.iter().position(|&y| y == x)]. *)
Definition index_in (x : Z) (l : list Z) : option nat := fst <$> list_find (x =.) l.
(** [vec.insert(i, x)]. *)
Definition vec_insert (i : nat) (x : Z) (l : list Z) : outcome (list Z) :=
  rassert (i <=? length l)%nat;; Ret (take i l ++ x :: drop i l).
(** [vec.swap_remove(i)]. *)
Definition swap_remove (i : nat) (l : list Z) : list Z :=
  match last l with Some x => if decide (S i = length l) then removelast l else <[i := x]> (removelast l) | None => l end.

(** ** Reference counts *)

Definition hretain (x : Z) (s : Scene) : outcome Scene :=
  n ← unwrap (ref_counts s !! x); n ← u32 (n + 1); Ret (set_ref_counts (<[x := n]> (ref_counts s)) s).

(** The last reference: [dealloc].  What has been deallocated is deleted, so that the
    recursion is at most as deep as there are objects. *)
Fixpoint release_rec (fuel : nat) (x : Z) (s : Scene) : outcome Scene :=
  match fuel with
  | O => Panic
  | S fuel =>
      n ← unwrap (ref_counts s !! x);
      if 1 <? n then Ret (set_ref_counts (<[x := n - 1]> (ref_counts s)) s)
      else
        match scene_views s !! x with
        | Some v =>
            let s := put_view x (mkView 0 [] 0 0 0) s in
            s ← release_rec fuel (view_layer v) s;
            rassert (view_controller v =? 0);;
            rassert (superview v =? 0);;
            s ← for_each (λ subview s,
                  w ← borrow_view subview s;
                  release_rec fuel subview (put_view subview (set_superview 0 w) s)) (subviews v) s;
            i ← unwrap (index_in x (all_views s));
            let s := set_all_views (swap_remove i (all_views s)) s in
            Ret (mkScene (scene_layers s) (delete x (scene_views s)) (delete x (ref_counts s)) (all_views s))
        | None =>
            l ← borrow_layer x s;
            let s := put_layer x (set_sublayers [] l) s in
            rassert (superlayer l =? 0);;
            s ← for_each (λ sublayer s,
                  k ← borrow_layer sublayer s;
                  release_rec fuel sublayer (put_layer sublayer (set_superlayer 0 k) s)) (sublayers l) s;
            Ret (mkScene (delete x (scene_layers s)) (scene_views s) (delete x (ref_counts s)) (all_views s))
        end
  end.
Definition hrelease (x : Z) (s : Scene) : outcome Scene := release_rec (S (size (ref_counts s))) x s.

(** ** Layers *)

Definition removeFromSuperlayer (this : Z) (s : Scene) : outcome Scene :=
  l ← borrow_layer this s;
  let s := put_layer this (set_superlayer 0 l) s in
  if superlayer l =? 0 then Ret s
  else
    p ← borrow_layer (superlayer l) s;
    idx ← unwrap (index_in this (sublayers p));
    let s := put_layer (superlayer l) (set_sublayers (delete idx (sublayers p)) p) s in
    hrelease this s.

(** For a layer that is a sublayer already the code sends [bringSublayerToFront:], which no class has. *)
Definition addSublayer (this layer : Z) (s : Scene) : outcome Scene :=
  l ← borrow_layer layer s;
  if superlayer l =? this then Panic
  else
    s ← hretain layer s;
    s ← removeFromSuperlayer layer s;
    l ← borrow_layer layer s;
    let s := put_layer layer (set_superlayer this l) s in
    p ← borrow_layer this s;
    Ret (put_layer this (set_sublayers (sublayers p ++ [layer]) p) s).
Definition insertSublayer_atIndex (this layer idx : Z) (s : Scene) : outcome Scene :=
  s ← hretain layer s;
  s ← removeFromSuperlayer layer s;
  l ← borrow_layer layer s;
  let s := put_layer layer (set_superlayer this l) s in
  p ← borrow_layer this s;
  ls ← vec_insert (Z.to_nat idx) layer (sublayers p);
  Ret (put_layer this (set_sublayers ls p) s).
Definition insertSublayer_below (this layer sibling : Z) (s : Scene) : outcome Scene :=
  s ← hretain layer s;
  s ← removeFromSuperlayer layer s;
  l ← borrow_layer layer s;
  let s := put_layer layer (set_superlayer this l) s in
  p ← borrow_layer this s;
  idx ← unwrap (index_in sibling (sublayers p));
  ls ← vec_insert idx layer (sublayers p);
  Ret (put_layer this (set_sublayers ls p) s).

(** ** Views *)

(** [+ alloc] of a layer and [+ allocWithZone:] of a view: a new object with one reference. *)
Definition layer_alloc (layer : Z) (s : Scene) : Scene := set_ref_counts (<[layer := 1]> (ref_counts s)) (put_layer layer (mkLayer [] 0) s).
Definition view_alloc (this : Z) (s : Scene) : Scene := set_ref_counts (<[this := 1]> (ref_counts s)) (put_view this (mkView 0 [] 0 0 0) s).
(** [init_common]: the view gets a new layer. *)
Definition init_common (this layer : Z) (s : Scene) : outcome Scene :=
  let s := layer_alloc layer s in
  v ← borrow_view this s;
  let s := put_view this (mkView layer (subviews v) (superview v) (view_controller v) (view_tag v)) s in
  Ret (set_all_views (all_views s ++ [this]) s).
Definition set_view_controller (view controller : Z) (s : Scene) : outcome Scene :=
  v ← borrow_view view s;
  Ret (put_view view (mkView (view_layer v) (subviews v) (superview v) controller (view_tag v)) s).
Definition setTag (this tag : Z) (s : Scene) : outcome Scene := v ← borrow_view this s; Ret (put_view this (set_tag tag v) s).

Definition viewWithTag (this tag : Z) (s : Scene) : outcome Z :=
  v ← borrow_view this s;
  if view_tag v =? tag then Ret this
  else
    (fix find (l : list Z) : outcome Z :=
       match l with
       | [] => Ret 0
       | view :: l => w ← borrow_view view s; if view_tag w =? tag then Ret view else find l
       end) (subviews v).

Definition bringSubviewToFront (this subview : Z) (s : Scene) : outcome Scene :=
  if subview =? 0 then Ret s
  else
    v ← borrow_view this s;
    match index_in subview (subviews v) with
    | None => Ret s
    | Some idx =>
        let s := put_view this (set_subviews (delete idx (subviews v) ++ [subview]) v) s in
        w ← borrow_view subview s;
        s ← removeFromSuperlayer (view_layer w) s;
        addSublayer (view_layer v) (view_layer w) s
    end.
Definition sendSubviewToBack (this subview : Z) (s : Scene) : outcome Scene :=
  if subview =? 0 then Ret s
  else
    v ← borrow_view this s;
    match index_in subview (subviews v) with
    | None => Ret s
    | Some idx =>
        let s := put_view this (set_subviews (subview :: delete idx (subviews v)) v) s in
        w ← borrow_view subview s;
        s ← removeFromSuperlayer (view_layer w) s;
        insertSublayer_atIndex (view_layer v) (view_layer w) 0 s
    end.

Definition removeFromSuperview (this : Z) (s : Scene) : outcome Scene :=
  v ← borrow_view this s;
  let s := put_view this (set_superview 0 v) s in
  if superview v =? 0 then Ret s
  else
    s ← removeFromSuperlayer (view_layer v) s;
    p ← borrow_view (superview v) s;
    idx ← unwrap (index_in this (subviews p));
    let s := put_view (superview v) (set_subviews (delete idx (subviews p)) p) s in
    hrelease this s.

Definition addSubview (this view : Z) (s : Scene) : outcome Scene :=
  if view =? 0 then Ret s
  else
    w ← borrow_view view s;
    if superview w =? this then bringSubviewToFront this view s
    else
      s ← hretain view s;
      s ← removeFromSuperview view s;
      w ← borrow_view view s;
      let s := put_view view (set_superview this w) s in
      v ← borrow_view this s;
      let s := put_view this (set_subviews (subviews v ++ [view]) v) s in
      addSublayer (view_layer v) (view_layer w) s.
Definition insertSubview_atIndex (this view index : Z) (s : Scene) : outcome Scene :=
  rassert (negb (view =? 0));;
  s ← hretain view s;
  s ← removeFromSuperview view s;
  w ← borrow_view view s;
  let s := put_view view (set_superview this w) s in
  v ← borrow_view this s;
  rassert (0 <=? index);;
  vs ← vec_insert (Z.to_nat index) view (subviews v);
  let s := put_view this (set_subviews vs v) s in
  insertSublayer_atIndex (view_layer v) (view_layer w) index s.
Definition insertSubview_belowSubview (this view sibling : Z) (s : Scene) : outcome Scene :=
  s ← hretain view s;
  s ← removeFromSuperview view s;
  w ← borrow_view view s;
  let s := put_view view (set_superview this w) s in
  b ← borrow_view sibling s;
  v ← borrow_view this s;
  idx ← unwrap (index_in sibling (subviews v));
  vs ← vec_insert idx view (subviews v);
  let s := put_view this (set_subviews vs v) s in
  insertSublayer_below (view_layer v) (view_layer w) (view_layer b) s.

(** [window]: the nearest superview that is a window. *)
Definition window_body (is_window : Z → bool) (s : Scene) (window : Z) : outcome (Z + Z) :=
  if window =? 0 then Ret (inr 0)
  else if is_window window then Ret (inr window)
  else v ← borrow_view window s; Ret (inl (superview v)).
Definition view_window (is_window : Z → bool) (this : Z) (s : Scene) : outcome Z :=
  v ← borrow_view this s;
  loop_end (run_loop 33 (window_body is_window s) (superview v)).

Definition nextResponder (this : Z) (s : Scene) : outcome Z :=
  v ← borrow_view this s;
  Ret (if negb (view_controller v =? 0) then view_controller v else superview v).

(** ** Conversion between layers *)

Section conversion.
(** Matrices, and the matrix of a layer's geometry ([superlayer_to_layer_transform]). *)
Context {T : Type} (identity : T) (concat_t : T → T → T) (invert : T → T) (layer_transform : Z → T).

(** One side of the loop: the map of the layers that were seen, where it is, and its matrix. *)
Record Side := mkSide { side_map : gmap Z T; side_layer : Z; side_transform : T }.
Definition Side_new (layer : Z) : Side := mkSide {[layer := identity]} layer identity.
(** A step up; [inr] is the common ancestor with this side's and the other side's matrices. *)
Definition side_step (need : bool) (mine other : Side) (s : Scene) : outcome (Side + Z * T * T) :=
  if side_layer mine =? 0 then Ret (inl mine)
  else
    l ← borrow_layer (side_layer mine) s;
    let next := superlayer l in
    let next_transform := concat_t (side_transform mine) (layer_transform (side_layer mine)) in
    if need && negb (next =? 0) then
      match side_map other !! next with
      | Some other_transform => Ret (inr (next, next_transform, other_transform))
      | None => Ret (inl (mkSide (<[next := next_transform]> (side_map mine)) next next_transform))
      end
    else Ret (inl (mkSide (side_map mine) next next_transform)).

Definition conversion_body (need : bool) (s : Scene) (x : Side * Side) : outcome (Side * Side + Z * T * T) :=
  let '(this, other) := x in
  r ← side_step need this other s;
  match r with
  | inr y => Ret (inr y)
  | inl this =>
      r ← side_step need other this s;
      match r with
      | inr (next, other_transform, this_transform) => Ret (inr (next, this_transform, other_transform))
      | inl other =>
          if (side_layer this =? 0) && (side_layer other =? 0) then Ret (inr (0, side_transform this, side_transform other))
          else Ret (inl (this, other))
      end
  end.
Definition transform_for_conversion (this other : Z) (s : Scene) : outcome T :=
  let need_common_ancestor := negb (this =? 0) && negb (other =? 0) in
  rassert (negb ((this =? 0) && (other =? 0)));;
  '(_, this_transform, other_transform) ← loop_end (run_loop 33 (conversion_body need_common_ancestor s) (Side_new this, Side_new other));
  Ret (concat_t other_transform (invert this_transform)).
End conversion.
