(* ===== verification/HierarchyFacts.v ===== *)
(** * The view and layer hierarchies are forests that mirror each other

    [Node] is what a view and a layer have in common.  [forest_ok] says that children and parent
    pointers agree and that every node is below a root; [detach] and [place] are the two steps every
    operation is made of.  The operations on views are shown to compute an ordered tree, to keep
    the layers in the same shape as the views, and to hold one reference to each child. *)

From S2P Require Import Prelude Hierarchy.

(** ** Nodes and forests *)

Class Node (N : Type) := {
  kids : N → list Z;
  parent : N → Z;
  set_kids : list Z → N → N;
  set_parent : Z → N → N;
  kids_set_kids l n : kids (set_kids l n) = l;
  kids_set_parent p n : kids (set_parent p n) = kids n;
  parent_set_kids l n : parent (set_kids l n) = parent n;
  parent_set_parent p n : parent (set_parent p n) = p;
  set_kids_twice l l' n : set_kids l (set_kids l' n) = set_kids l n;
  set_kids_same n : set_kids (kids n) n = n;
  set_parent_twice p p' n : set_parent p (set_parent p' n) = set_parent p n;
  set_parent_same n : set_parent (parent n) n = n }.

#[export] Instance layer_node : Node CALayer.
Proof.
  refine {| kids := sublayers; parent := superlayer; set_kids := set_sublayers; set_parent := set_superlayer |};
    try done; by intros [].
Defined.
#[export] Instance view_node : Node UIView.
Proof.
  refine {| kids := subviews; parent := superview; set_kids := set_subviews; set_parent := set_superview |};
    try done; by intros [].
Defined.

Create HintDb node.
#[export] Hint Rewrite @kids_set_kids @kids_set_parent @parent_set_kids @parent_set_parent @set_kids_twice @set_kids_same @set_parent_same : node.

Section forest.
Context {N : Type} `{Node N}.
Implicit Types (m : gmap Z N) (n : N).

Inductive rooted m : Z → Prop :=
| rooted_nil : rooted m 0
| rooted_up x n : m !! x = Some n → rooted m (parent n) → rooted m x.
Inductive ancestor m (a : Z) : Z → Prop :=
| ancestor_refl : ancestor m a a
| ancestor_up x n : m !! x = Some n → ancestor m a (parent n) → ancestor m a x.

Record forest_ok m : Prop := {
  fo_nil : m !! 0 = None;
  fo_nodup p n : m !! p = Some n → NoDup (kids n);
  fo_kids p n c : m !! p = Some n → c ∈ kids n ↔ ∃ k, m !! c = Some k ∧ parent k = p;
  fo_parent c k : m !! c = Some k → parent k = 0 ∨ is_Some (m !! parent k);
  fo_rooted c k : m !! c = Some k → rooted m c }.

(** The list without a node, and the forest with a node cut off. *)
Definition without (x : Z) (l : list Z) : list Z := filter (λ y, y ≠ x) l.
Definition cut (x : Z) (y : Z) (n : N) : N :=
  set_kids (without x (kids n)) (if decide (y = x) then set_parent 0 n else n).
Definition detach (x : Z) m : gmap Z N := map_imap (λ y n, Some (cut x y n)) m.
(** A node without parent becomes a child of [p], whose children are then [l]. *)
Definition place (p x : Z) (l : list Z) m : gmap Z N := alter (set_kids l) p (alter (set_parent p) x m).

Lemma detach_lookup x y m : detach x m !! y = cut x y <$> m !! y.
Proof. unfold detach. rewrite map_lookup_imap. by destruct (m !! y). Qed.

Lemma without_absent x l : x ∉ l → without x l = l.
Proof.
  unfold without. induction l as [|y l IH]; intros Hx; [done|]. apply not_elem_of_cons in Hx as [??].
  rewrite filter_cons_True by done. f_equal. by apply IH.
Qed.
Lemma elem_of_without x y l : y ∈ without x l ↔ y ≠ x ∧ y ∈ l.
Proof. unfold without. rewrite list_elem_of_filter. naive_solver. Qed.
Lemma without_nodup x l : NoDup l → NoDup (without x l).
Proof. apply NoDup_filter. Qed.

Lemma index_in_Some x l : x ∈ l → ∃ i, index_in x l = Some i ∧ l !! i = Some x ∧ (i < length l)%nat.
Proof.
  intros Hx. unfold index_in. destruct (list_find_elem_of (x =.) l x Hx eq_refl) as [[i y] E].
  rewrite E. apply list_find_Some in E as (Hl & <- & _). eauto using lookup_lt_Some.
Qed.
Lemma index_in_None x l : x ∉ l → index_in x l = None.
Proof.
  intros Hx. unfold index_in. destruct (list_find (x =.) l) as [[i y]|] eqn:E; [|done].
  apply list_find_Some in E as (Hl & <- & _). by apply list_elem_of_lookup_2 in Hl.
Qed.
Lemma delete_without i x l : NoDup l → l !! i = Some x → delete i l = without x l.
Proof.
  intros Hd Hi. rewrite <-(take_drop_middle l i x Hi) in Hd |- *.
  assert (Hlen : length (take i l) = i) by (apply lookup_lt_Some in Hi; rewrite length_take; lia).
  rewrite <-Hlen at 1. rewrite delete_middle.
  apply NoDup_app in Hd as (Hd1 & Hd2 & Hd3). apply NoDup_cons in Hd3 as [Hd3 _].
  unfold without. rewrite filter_app, filter_cons_False by naive_solver.
  fold (without x (take i l)) (without x (drop (S i) l)).
  rewrite !without_absent; [done|done|]. intros Hin. apply (Hd2 x Hin). by left.
Qed.

Lemma detach_free m x : (∀ n, m !! x = Some n → parent n = 0) → forest_ok m → detach x m = m.
Proof.
  intros Hp Hm. apply map_eq. intros y. rewrite detach_lookup. destruct (m !! y) as [n|] eqn:Ey; [|done].
  simpl. f_equal. unfold cut. rewrite without_absent.
  - destruct (decide (y = x)) as [->|]; [|by autorewrite with node].
    rewrite <-(Hp _ Ey). by autorewrite with node.
  - rewrite (fo_kids _ Hm _ _ x Ey). intros (k & Hk & Hpk). rewrite (Hp _ Hk) in Hpk. subst. by rewrite (fo_nil _ Hm) in Ey.
Qed.

(** What [removeFromSuperlayer] and [removeFromSuperview] do to the maps. *)
Lemma detach_eq m x n p np :
  forest_ok m → m !! x = Some n → parent n = p → p ≠ 0 → m !! p = Some np → x ≠ p →
  <[p := set_kids (without x (kids np)) np]> (<[x := set_parent 0 n]> m) = detach x m.
Proof.
  intros Hm Hx Hp Hp0 Hnp Hne. apply map_eq. intros y. rewrite detach_lookup. unfold cut.
  destruct (decide (y = p)) as [->|Hyp].
  { rewrite lookup_insert_eq, Hnp. simpl. by destruct (decide (p = x)) as [->|]. }
  rewrite lookup_insert_ne by done. destruct (decide (y = x)) as [->|Hyx].
  - rewrite lookup_insert_eq, Hx. simpl. rewrite without_absent.
    + f_equal. rewrite <-(kids_set_parent 0 n). by rewrite set_kids_same.
    + rewrite (fo_kids _ Hm _ _ x Hx). intros (k & Hk & ?). simplify_eq.
  - rewrite lookup_insert_ne by done. destruct (m !! y) as [k|] eqn:Ey; [|done]. simpl.
    rewrite without_absent, set_kids_same; [done|].
    rewrite (fo_kids _ Hm _ _ x Ey). intros (k' & ? & ?). simplify_eq.
Qed.

Lemma parent_cut x y n : parent (cut x y n) = if decide (y = x) then 0 else parent n.
Proof. unfold cut. rewrite parent_set_kids. destruct (decide _); by autorewrite with node. Qed.
Lemma kids_cut x y n : kids (cut x y n) = without x (kids n).
Proof. unfold cut. by rewrite kids_set_kids. Qed.

Lemma rooted_detach m x y : rooted m y → rooted (detach x m) y.
Proof.
  induction 1 as [|y n Hy _ IH]; [constructor|]. apply (rooted_up _ _ (cut x y n)).
  - by rewrite detach_lookup, Hy.
  - rewrite parent_cut. destruct (decide _); [constructor|done].
Qed.

Lemma detach_ok m x : forest_ok m → forest_ok (detach x m).
Proof.
  intros Hm. split.
  - by rewrite detach_lookup, (fo_nil _ Hm).
  - intros p n. rewrite detach_lookup. destruct (m !! p) as [k|] eqn:Ek; [|done]. intros [= <-].
    rewrite kids_cut. apply without_nodup, (fo_nodup _ Hm _ _ Ek).
  - intros p n c. rewrite detach_lookup. destruct (m !! p) as [k|] eqn:Ek; [|done]. intros [= <-].
    assert (p ≠ 0) by (intros ->; by rewrite (fo_nil _ Hm) in Ek).
    rewrite kids_cut, elem_of_without, (fo_kids _ Hm _ _ c Ek). setoid_rewrite detach_lookup. split.
    + intros (Hc & k' & Hk' & Hp). exists (cut x c k'). rewrite Hk', parent_cut. by destruct (decide _).
    + intros (k' & Hk' & Hp). destruct (m !! c) as [n|]; [|done]. simpl in Hk'. simplify_eq.
      rewrite parent_cut in *. destruct (decide (c = x)); [done|eauto].
  - intros c k. rewrite detach_lookup. destruct (m !! c) as [n|] eqn:En; [|done]. intros [= <-].
    rewrite parent_cut. destruct (decide _); [by left|].
    destruct (fo_parent _ Hm _ _ En) as [?|[n' Hn']]; [by left|right]. rewrite detach_lookup, Hn'. by eexists.
  - intros c k. rewrite detach_lookup. destruct (m !! c) as [n|] eqn:En; [|done]. intros _.
    apply rooted_detach, (fo_rooted _ Hm _ _ En).
Qed.

Lemma detach_parent m x n : detach x m !! x = Some n → parent n = 0.
Proof.
  rewrite detach_lookup. destruct (m !! x); [|done]. intros [= <-]. rewrite parent_cut. by rewrite decide_True.
Qed.

(** Cutting a node off adds no ancestors. *)
Lemma ancestor_nil m a : m !! 0 = None → ancestor m a 0 → a = 0.
Proof. intros Hm Ha. inversion Ha; simplify_eq; done. Qed.
Lemma ancestor_detach m x a y : m !! 0 = None → a ≠ 0 → ancestor (detach x m) a y → ancestor m a y.
Proof.
  intros Hm Ha. induction 1 as [|y n Hy Hanc IH]; [constructor|].
  rewrite detach_lookup in Hy. destruct (m !! y) as [k|] eqn:Ek; [|done]. injection Hy as <-.
  rewrite parent_cut in IH, Hanc. destruct (decide _) as [->|].
  - exfalso. apply Ha, (ancestor_nil (detach x m)); [|done]. by rewrite detach_lookup, Hm.
  - apply (ancestor_up _ _ _ k); auto.
Qed.

Lemma place_lookup p x l m y n :
  p ≠ x → place p x l m !! y = Some n ↔
  ∃ k, m !! y = Some k ∧ n = (if decide (y = p) then set_kids l k else if decide (y = x) then set_parent p k else k).
Proof.
  intros Hpx. unfold place. destruct (decide (y = p)) as [->|].
  - rewrite lookup_alter_eq, lookup_alter_ne by done. destruct (m !! p); simpl; naive_solver.
  - rewrite lookup_alter_ne by done. destruct (decide (y = x)) as [->|].
    + rewrite lookup_alter_eq. destruct (m !! x); simpl; naive_solver.
    + rewrite lookup_alter_ne by done. naive_solver.
Qed.

Lemma place_parent p x l m y n : p ≠ x → place p x l m !! y = Some n →
  ∃ k, m !! y = Some k ∧ parent n = (if decide (y = x) then p else parent k) ∧ kids n = (if decide (y = p) then l else kids k).
Proof.
  intros Hpx. rewrite place_lookup by done. intros (k & Hk & ->). exists k. split; [done|].
  repeat case_decide; subst; autorewrite with node; done.
Qed.
Lemma place_some p x l m y k : m !! y = Some k → is_Some (place p x l m !! y).
Proof. intros Hk. unfold place. apply lookup_alter_is_Some, lookup_alter_is_Some. by eexists. Qed.

Lemma rooted_place_off p x l m y : p ≠ x → rooted m y → ¬ ancestor m x y → rooted (place p x l m) y.
Proof.
  intros Hpx. induction 1 as [|y n Hy Hr IH]; intros Ha; [constructor|].
  destruct (place_some p x l m y n Hy) as [n' Hn']. destruct (place_parent _ _ _ _ _ _ Hpx Hn') as (k & ? & Hp & _). simplify_eq.
  apply (rooted_up _ _ n' Hn'). rewrite Hp. case_decide as Hyx; [subst; destruct Ha; constructor|].
  apply IH. intros ?. apply Ha. by eapply ancestor_up.
Qed.
Lemma rooted_place p x l m y : p ≠ x → rooted m y → rooted (place p x l m) p → rooted (place p x l m) y.
Proof.
  intros Hpx Hy Hp. induction Hy as [|y n Hy _ IH]; [constructor|].
  destruct (place_some p x l m y n Hy) as [n' Hn']. destruct (place_parent _ _ _ _ _ _ Hpx Hn') as (k & ? & Hpn & _). simplify_eq.
  apply (rooted_up _ _ n' Hn'). rewrite Hpn. by case_decide.
Qed.

Lemma place_ok m p x l np nx :
  forest_ok m → m !! p = Some np → m !! x = Some nx → parent nx = 0 → l ≡ₚ x :: kids np → ¬ ancestor m x p →
  forest_ok (place p x l m).
Proof.
  intros Hm Hnp Hnx Hpx Hl Ha. assert (Hne : p ≠ x) by (intros ->; apply Ha; constructor).
  assert (Hx : x ∉ kids np).
  { rewrite (fo_kids _ Hm _ _ x Hnp). intros (k & Hk & ?). simplify_eq. by rewrite Hpx, (fo_nil _ Hm) in Hnp. }
  split.
  - destruct (place p x l m !! 0) as [n|] eqn:E; [|done]. apply place_lookup in E as (k & E & _); [|done].
    by rewrite (fo_nil _ Hm) in E.
  - intros q n Hn. apply place_parent in Hn as (k & Hk & _ & ->); [|done]. case_decide as Hqp; subst; simplify_eq.
    + rewrite Hl. apply NoDup_cons; split; [done|]. by eapply fo_nodup.
    + by eapply fo_nodup.
  - intros q n c Hn. apply place_parent in Hn as (k & Hk & _ & ->); [|done]. case_decide as Hqp; subst; simplify_eq.
    + rewrite Hl, elem_of_cons, (fo_kids _ Hm _ _ c Hnp). split.
      * intros [->|(kc & Hkc & Hpc)];
          [destruct (place_some p x l m _ _ Hnx) as [n' Hn']|destruct (place_some p x l m _ _ Hkc) as [n' Hn']];
          exists n'; (split; [done|]); apply place_parent in Hn' as (k' & ? & -> & _); simplify_eq; try done; by case_decide.
      * intros (n' & Hn' & Hp). apply place_parent in Hn' as (k' & Hk' & Hp' & _); [|done]. rewrite Hp in Hp'.
        case_decide; [by left|right; eauto].
    + rewrite (fo_kids _ Hm _ _ c Hk). split.
      * intros (kc & Hkc & Hpc). destruct (place_some p x l m _ _ Hkc) as [n' Hn']. exists n'. split; [done|].
        apply place_parent in Hn' as (k' & ? & -> & _); [|done]. simplify_eq. case_decide; [|done]. subst.
        simplify_eq. rewrite Hpx in Hk. by rewrite (fo_nil _ Hm) in Hk.
      * intros (n' & Hn' & Hp). apply place_parent in Hn' as (k' & Hk' & Hp' & _); [|done]. rewrite Hp in Hp'.
        case_decide; [done|eauto].
  - intros c n Hn. apply place_parent in Hn as (k & Hk & -> & _); [|done]. case_decide.
    + right. by eapply place_some.
    + destruct (fo_parent _ Hm _ _ Hk) as [?|[q Hq]]; [by left|right]. by eapply place_some.
  - intros c n Hn. apply place_parent in Hn as (k & Hk & _); [|done]. apply rooted_place; [done|by eapply fo_rooted|].
    apply rooted_place_off; [done| |done]. by eapply fo_rooted.
Qed.

Lemma parent_ne m x n : forest_ok m → m !! x = Some n → parent n ≠ x.
Proof.
  intros Hm Hx. pose proof (fo_rooted _ Hm _ _ Hx) as Hr. revert n Hx.
  induction Hr as [|x k Hk _ IH]; intros n Hx Hp; [by rewrite (fo_nil _ Hm) in Hx|].
  assert (k = n) as -> by congruence. rewrite Hp in IH. by eapply IH.
Qed.
Lemma ancestor_trans m a b c : ancestor m a b → ancestor m b c → ancestor m a c.
Proof. intros Hab. induction 1 as [|c n Hc _ IH]; [done|]. by eapply ancestor_up. Qed.
Lemma no_cycle m x n : forest_ok m → m !! x = Some n → ¬ ancestor m x (parent n).
Proof.
  intros Hm Hx. pose proof (fo_rooted _ Hm _ _ Hx) as Hr. revert n Hx.
  induction Hr as [|x k Hk _ IH]; intros n Hx Ha; [by rewrite (fo_nil _ Hm) in Hx|].
  assert (k = n) as -> by congruence. inversion Ha as [E|q j Hq Hj]; subst.
  - by apply (parent_ne _ _ _ Hm Hx).
  - apply (IH j Hq). apply (ancestor_trans _ _ x); [|done]. apply (ancestor_up _ _ _ n Hx). constructor.
Qed.
Lemma place_eq m p x l n np :
  m !! x = Some n → m !! p = Some np → p ≠ x →
  <[p := set_kids l np]> (<[x := set_parent p n]> m) = place p x l m.
Proof.
  intros Hx Hp Hne. apply map_eq. intros y. unfold place. destruct (decide (y = p)) as [->|].
  - by rewrite lookup_insert_eq, lookup_alter_eq, lookup_alter_ne, Hp.
  - rewrite lookup_insert_ne, lookup_alter_ne by done. destruct (decide (y = x)) as [->|].
    + by rewrite lookup_insert_eq, lookup_alter_eq, Hx.
    + by rewrite lookup_insert_ne, lookup_alter_ne.
Qed.
(** The node and its new parent after the node was cut off. *)
Lemma detach_at m x n : forest_ok m → m !! x = Some n → detach x m !! x = Some (set_parent 0 n).
Proof.
  intros Hm Hx. rewrite detach_lookup, Hx. simpl. unfold cut. rewrite decide_True by done.
  rewrite without_absent; [by rewrite <-(kids_set_parent 0 n), set_kids_same|].
  rewrite (fo_kids _ Hm _ _ x Hx). intros (k & Hk & ?). simplify_eq. by eapply parent_ne.
Qed.
Lemma detach_other m x p n : p ≠ x → m !! p = Some n → detach x m !! p = Some (set_kids (without x (kids n)) n).
Proof. intros Hne Hp. rewrite detach_lookup, Hp. simpl. unfold cut. by rewrite decide_False. Qed.
End forest.

(** ** Layers *)

Definition set_layers (L : gmap Z CALayer) (R : gmap Z Z) (s : Scene) : Scene := mkScene L (scene_views s) R (all_views s).

Lemma hretain_eq x n s : ref_counts s !! x = Some n → 0 ≤ n < U32_MOD - 1 →
  hretain x s = Ret (set_ref_counts (<[x := n + 1]> (ref_counts s)) s).
Proof. intros Hn Hr. unfold hretain. rewrite Hn. cbn [unwrap mbind outcome_bind]. by rewrite u32_ok by lia. Qed.
Lemma hrelease_shared x n s : ref_counts s !! x = Some n → 1 < n →
  hrelease x s = Ret (set_ref_counts (<[x := n - 1]> (ref_counts s)) s).
Proof.
  intros Hn H1. unfold hrelease. cbn [release_rec]. rewrite Hn. cbn [unwrap mbind outcome_bind].
  by rewrite (proj2 (Z.ltb_lt _ _)).
Qed.

Lemma set_superlayer_free l : superlayer l = 0 → set_superlayer 0 l = l.
Proof. destruct l. simpl. by intros ->. Qed.
Lemma set_superview_free v : superview v = 0 → set_superview 0 v = v.
Proof. destruct v. simpl. by intros ->. Qed.

(** The parent's reference is dropped when there is a parent. *)
Definition drop_ref (parent x n : Z) (R : gmap Z Z) : gmap Z Z := if parent =? 0 then R else <[x := n - 1]> R.

Lemma removeFromSuperlayer_eq s x l n :
  forest_ok (scene_layers s) → scene_layers s !! x = Some l → ref_counts s !! x = Some n → (superlayer l ≠ 0 → 1 < n) →
  removeFromSuperlayer x s = Ret (set_layers (detach x (scene_layers s)) (drop_ref (superlayer l) x n (ref_counts s)) s).
Proof.
  intros Hf Hx Hn H1. unfold removeFromSuperlayer, borrow_layer, drop_ref. rewrite Hx. cbn [unwrap mbind outcome_bind].
  destruct (Z.eqb_spec (superlayer l) 0) as [E|E].
  { rewrite detach_free; [|by intros ? [= <-]%(eq_trans (eq_sym Hx))|done].
    unfold put_layer, set_layers. destruct s; simpl in *. do 2 f_equal.
    rewrite (set_superlayer_free l E). by apply insert_id. }
  destruct (fo_parent _ Hf _ _ Hx) as [?|[p Hp]]; [done|]. simpl in Hp.
  pose proof (parent_ne _ _ _ Hf Hx) as Hne. simpl in Hne.
  cbn [put_layer scene_layers]. rewrite lookup_insert_ne by done. rewrite Hp. cbn [unwrap mbind outcome_bind].
  destruct (index_in_Some x (sublayers p)) as (i & Hi & Hl & _).
  { apply (fo_kids _ Hf _ _ x Hp). by exists l. }
  rewrite Hi. cbn [unwrap mbind outcome_bind].
  rewrite (hrelease_shared x n) by (try done; by apply H1).
  unfold put_layer, set_ref_counts, set_layers. cbn [scene_layers scene_views ref_counts all_views]. do 2 f_equal.
  rewrite (delete_without i x) by (try done; by eapply (fo_nodup _ Hf)).
  exact (detach_eq _ x l (superlayer l) p Hf Hx eq_refl E Hp (not_eq_sym Hne)).
Qed.

Lemma removeFromSuperlayer_free s x l :
  forest_ok (scene_layers s) → scene_layers s !! x = Some l → superlayer l = 0 → removeFromSuperlayer x s = Ret s.
Proof.
  intros Hf Hx E. unfold removeFromSuperlayer, borrow_layer. rewrite Hx. cbn [unwrap mbind outcome_bind].
  rewrite E. simpl. unfold put_layer. destruct s; simpl in *. do 2 f_equal.
  rewrite (set_superlayer_free l E). by apply insert_id.
Qed.

(** A node has the references [e] from elsewhere and its parent's. *)
Definition refs_with (e parent : Z) : Z := e + (if parent =? 0 then 0 else 1).
Definition refs_fit (e : Z) : Prop := 1 ≤ e < U32_MOD - 2.

Lemma moved_refs e parent x R : drop_ref parent x (refs_with e parent + 1) (<[x := refs_with e parent + 1]> R) = <[x := e + 1]> R.
Proof. unfold drop_ref, refs_with. destruct (parent =? 0); [by rewrite Z.add_0_r|]. rewrite insert_insert_eq. f_equal. lia. Qed.
Lemma refs_with_bounds e parent : refs_fit e → 0 ≤ refs_with e parent < U32_MOD - 1.
Proof. unfold refs_fit, refs_with. destruct (parent =? 0); lia. Qed.
Lemma refs_with_shared e parent : refs_fit e → parent ≠ 0 → 1 < refs_with e parent.
Proof. unfold refs_fit, refs_with. intros ? ?%Z.eqb_neq. rewrite H0. lia. Qed.

Section move_layer.
Context (s : Scene) (x p : Z) (l np : CALayer) (e : Z).
Hypothesis Hf : forest_ok (scene_layers s).
Hypothesis Hx : scene_layers s !! x = Some l.
Hypothesis Hp : scene_layers s !! p = Some np.
Hypothesis Hr : ref_counts s !! x = Some (refs_with e (superlayer l)).
Hypothesis He : refs_fit e.
Hypothesis Hne : p ≠ x.

Definition moved_layer (ks : list Z) : Scene :=
  set_layers (place p x ks (detach x (scene_layers s))) (<[x := e + 1]> (ref_counts s)) s.

Lemma take_out_layer : (s ← hretain x s; removeFromSuperlayer x s) = Ret (set_layers (detach x (scene_layers s)) (<[x := e + 1]> (ref_counts s)) s).
Proof.
  rewrite (hretain_eq _ _ _ Hr) by by apply refs_with_bounds. cbn [mbind outcome_bind].
  rewrite (removeFromSuperlayer_eq _ x l (refs_with e (superlayer l) + 1)); try done.
  - cbn [ref_counts set_ref_counts scene_layers]. by rewrite moved_refs.
  - cbn [ref_counts set_ref_counts]. by rewrite lookup_insert_eq.
  - intros ?%(refs_with_shared e); [lia|done].
Qed.

Lemma put_in_layer (f : list Z → outcome (list Z)) ks :
  f (without x (sublayers np)) = Ret ks →
  (s ← hretain x s; s ← removeFromSuperlayer x s;
   l ← borrow_layer x s;
   let s := put_layer x (set_superlayer p l) s in
   q ← borrow_layer p s;
   ls ← f (sublayers q);
   Ret (put_layer p (set_sublayers ls q) s)) = Ret (moved_layer ks).
Proof.
  intros Hk. pose proof take_out_layer as Ht. destruct (hretain x s) as [s1|]; [|done]. cbn [mbind outcome_bind] in Ht |- *.
  rewrite Ht. cbn [mbind outcome_bind]. unfold borrow_layer. cbn [set_layers scene_layers].
  rewrite (detach_at _ _ _ Hf Hx). cbn [unwrap mbind outcome_bind put_layer set_layers scene_layers].
  rewrite lookup_insert_ne, (detach_other _ _ _ _ Hne Hp) by done.
  cbn [unwrap mbind outcome_bind put_layer scene_layers kids set_kids layer_node set_sublayers sublayers]. rewrite Hk.
  cbn [mbind outcome_bind]. unfold moved_layer, put_layer, set_layers. cbn [scene_layers scene_views ref_counts all_views]. do 2 f_equal.
  erewrite <-(place_eq (detach x (scene_layers s)) p x); [done|exact (detach_at _ _ _ Hf Hx)|exact (detach_other _ _ _ _ Hne Hp)|done].
Qed.
End move_layer.

Definition insert_nth (i : nat) (x : Z) (l : list Z) : list Z := take i l ++ x :: drop i l.
Lemma insert_nth_perm i x l : insert_nth i x l ≡ₚ x :: l.
Proof. unfold insert_nth. by rewrite <-Permutation_middle, take_drop. Qed.
Lemma vec_insert_ok i x l : (i ≤ length l)%nat → vec_insert i x l = Ret (insert_nth i x l).
Proof. intros Hi. unfold vec_insert. by rewrite (proj2 (Nat.leb_le _ _)). Qed.
Lemma insert_nth_fmap i x l (f : Z → Z) : insert_nth i (f x) (f <$> l) = f <$> insert_nth i x l.
Proof. unfold insert_nth. by rewrite fmap_app, fmap_cons, fmap_take, fmap_drop. Qed.

(** ** Views *)

Definition layer_of (V : gmap Z UIView) (v : Z) : Z := match V !! v with Some w => view_layer w | None => 0 end.

(** Every view's layer has the layers of its subviews as sublayers, in their order. *)
Record mirror (V : gmap Z UIView) (L : gmap Z CALayer) : Prop := {
  mi_layer v w : V !! v = Some w → ∃ l, L !! view_layer w = Some l ∧
    sublayers l = layer_of V <$> subviews w ∧ superlayer l = layer_of V (superview w);
  mi_inj v w v' w' : V !! v = Some w → V !! v' = Some w' → view_layer w = view_layer w' → v = v' }.

Lemma view_layer_set_kids ks (w : UIView) : view_layer (set_kids ks w) = view_layer w.
Proof. done. Qed.
Lemma view_layer_cut x y (w : UIView) : view_layer (cut x y w) = view_layer w.
Proof. unfold cut. rewrite view_layer_set_kids. by case_decide. Qed.
Lemma layer_of_detach x V v : layer_of (detach x V) v = layer_of V v.
Proof. unfold layer_of. rewrite detach_lookup. destruct (V !! v); [|done]. apply view_layer_cut. Qed.
Lemma layer_of_place p x ks V v : layer_of (place p x ks V) v = layer_of V v.
Proof.
  unfold layer_of, place. destruct (decide (v = p)) as [->|]; [rewrite lookup_alter_eq|rewrite lookup_alter_ne by done];
    (destruct (decide (p = x)) as [->|]; [try rewrite lookup_alter_eq|try rewrite lookup_alter_ne by done]);
    try (destruct (decide (v = x)) as [->|]; [try rewrite lookup_alter_eq|try rewrite lookup_alter_ne by done]);
    by destruct (V !! _).
Qed.

Lemma layers_of_place p x ks V (l : list Z) : layer_of (place p x ks V) <$> l = layer_of V <$> l.
Proof. apply list_fmap_ext. intros. apply layer_of_place. Qed.

Lemma without_fmap (f : Z → Z) x l : (∀ y, y ∈ l → f y = f x → y = x) → without (f x) (f <$> l) = f <$> without x l.
Proof.
  unfold without. induction l as [|y l IH]; intros Hinj; [done|]. rewrite fmap_cons.
  assert (IH' : filter (λ z, z ≠ f x) (f <$> l) = f <$> filter (λ z, z ≠ x) l) by (apply IH; intros; apply Hinj; [by right|done]).
  destruct (decide (y = x)) as [->|Hy].
  - by rewrite !filter_cons_False by naive_solver.
  - rewrite !filter_cons_True; [by rewrite fmap_cons, IH'| |]; [done|]. intros E. apply Hy, Hinj; [by left|done].
Qed.
Lemma layer_of_view V v w : V !! v = Some w → layer_of V v = view_layer w.
Proof. unfold layer_of. by intros ->. Qed.
Lemma layer_of_nil V : forest_ok V → layer_of V 0 = 0.
Proof. intros Hf. unfold layer_of. by rewrite (fo_nil _ Hf). Qed.

Lemma subview_layer_inj V L p u x w y :
  forest_ok V → mirror V L → V !! p = Some u → V !! x = Some w → y ∈ subviews u → layer_of V y = layer_of V x → y = x.
Proof.
  intros Hf Hm Hp Hx Hy E. apply (fo_kids _ Hf _ _ _ Hp) in Hy as (k & Hk & _).
  rewrite (layer_of_view _ _ _ Hk), (layer_of_view _ _ _ Hx) in E. by eapply mi_inj.
Qed.
Lemma without_layer V L p u x w :
  forest_ok V → mirror V L → V !! p = Some u → V !! x = Some w →
  without (layer_of V x) (layer_of V <$> subviews u) = layer_of V <$> without x (subviews u).
Proof. intros. apply without_fmap. eauto using subview_layer_inj. Qed.

Lemma mirror_detach V L x w :
  forest_ok V → mirror V L → V !! x = Some w → mirror (detach x V) (detach (view_layer w) L).
Proof.
  intros Hf Hm Hx. split.
  - intros v w' Hv. rewrite detach_lookup in Hv. destruct (V !! v) as [w0|] eqn:Ev; [|done].
    assert (w' = cut x v w0) as -> by (cbn [fmap option_fmap option_map] in Hv; congruence).
    destruct (mi_layer _ _ Hm _ _ Ev) as (l & Hl & Hs & Hp). rewrite view_layer_cut. eexists.
    rewrite detach_lookup, Hl. split; [done|].
    change (sublayers ?a) with (kids a). change (superlayer ?a) with (parent a).
    change (subviews ?a) with (kids a). change (superview ?a) with (parent a).
    rewrite !kids_cut, !parent_cut. cbn [kids parent layer_node view_node]. rewrite Hs, Hp. split.
    + rewrite <-(layer_of_view _ _ _ Hx), (without_layer V L v w0 x w) by done.
      apply list_fmap_ext. intros. by rewrite layer_of_detach.
    + rewrite layer_of_detach. destruct (decide (v = x)) as [->|Hvx].
      * simplify_eq. rewrite decide_True by done. by rewrite layer_of_nil.
      * rewrite decide_False; [done|]. intros E. apply Hvx. by eapply mi_inj.
  - intros v v1 v' v1'. rewrite !detach_lookup. destruct (V !! v) as [w0|] eqn:Ev, (V !! v') as [w0'|] eqn:Ev'; try done.
    cbn [fmap option_fmap option_map]. intros E1 E2. apply Some_inj in E1 as <-, E2 as <-. rewrite !view_layer_cut. by apply (mi_inj _ _ Hm).
Qed.

Lemma mirror_place V L p x u w ks :
  mirror V L → V !! p = Some u → V !! x = Some w → p ≠ x →
  mirror (place p x ks V) (place (view_layer u) (view_layer w) (layer_of V <$> ks) L).
Proof.
  intros Hm Hp Hx Hne.
  assert (Hne' : view_layer u ≠ view_layer w) by (intros E; apply Hne; by eapply mi_inj).
  assert (Hlk : ∀ v w', place p x ks V !! v = Some w' → ∃ w0, V !! v = Some w0 ∧ view_layer w' = view_layer w0 ∧
    parent w' = (if decide (v = x) then p else parent w0) ∧ kids w' = (if decide (v = p) then ks else kids w0)).
  { intros v w' Hv. destruct (place_parent _ _ _ _ _ _ Hne Hv) as (w0 & Hw0 & ? & ?). exists w0. repeat split; [done| |done|done].
    pose proof (layer_of_place p x ks V v) as E. by rewrite (layer_of_view _ _ _ Hv), (layer_of_view _ _ _ Hw0) in E. }
  split.
  - intros v w' Hv. apply Hlk in Hv as (w0 & Hv & -> & Epar & Ekids). cbn [parent kids view_node] in Epar, Ekids.
    destruct (mi_layer _ _ Hm _ _ Hv) as (l & Hl & Hs & Hsup).
    destruct (place_some (view_layer u) (view_layer w) (layer_of V <$> ks) _ _ _ Hl) as [l' Hl'].
    exists l'. split; [done|]. apply place_parent in Hl' as (l0 & ? & Ep & Ek); [|done]. simplify_eq.
    cbn [parent kids layer_node] in Ep, Ek. rewrite Ep, Ek, Epar, Ekids.
    rewrite layers_of_place, layer_of_place. split.
    + destruct (decide (v = p)) as [->|Hv']; simplify_eq; [by rewrite decide_True|].
      rewrite decide_False; [done|]. intros E. apply Hv'. by eapply mi_inj.
    + destruct (decide (v = x)) as [->|Hv']; simplify_eq.
      * rewrite decide_True by done. by rewrite (layer_of_view _ _ _ Hp).
      * rewrite decide_False; [done|]. intros E. apply Hv'. by eapply mi_inj.
  - intros v w1 v' w1' Hv Hv' E. apply Hlk in Hv as (w0 & Hv & E0 & _). apply Hlk in Hv' as (w0' & Hv' & E0' & _).
    eapply (mi_inj _ _ Hm); try done. congruence.
Qed.

(** *** The layer of a view that was taken out of its superview is put into another *)

Section put_layer_back.
Context (L : gmap Z CALayer) (V : gmap Z UIView) (R : gmap Z Z) (A : list Z) (x p : Z) (l np : CALayer) (e : Z).
Hypothesis Hf : forest_ok L.
Hypothesis Hx : L !! x = Some l.
Hypothesis Hp : L !! p = Some np.
Hypothesis Hr : R !! x = Some e.
Hypothesis He : refs_fit e.
Hypothesis Hne : p ≠ x.
Definition free_layer : Scene := mkScene (detach x L) V R A.
Definition hung_layer (ks : list Z) : Scene := mkScene (place p x ks (detach x L)) V (<[x := e + 1]> R) A.

Lemma put_back_layer (f : list Z → outcome (list Z)) ks :
  f (without x (sublayers np)) = Ret ks →
  (s ← hretain x free_layer; s ← removeFromSuperlayer x s;
   l ← borrow_layer x s;
   let s := put_layer x (set_superlayer p l) s in
   q ← borrow_layer p s;
   ls ← f (sublayers q);
   Ret (put_layer p (set_sublayers ls q) s)) = Ret (hung_layer ks).
Proof.
  intros Hk. rewrite (put_in_layer free_layer x p (set_superlayer 0 l) (set_kids (without x (kids np)) np) e) with (ks := ks).
  - unfold moved_layer, hung_layer, free_layer, set_layers. cbn [scene_layers scene_views ref_counts all_views].
    rewrite (detach_free (detach x L)); [done|apply detach_parent|by apply detach_ok].
  - by apply detach_ok.
  - exact (detach_at _ _ _ Hf Hx).
  - exact (detach_other _ _ _ _ Hne Hp).
  - unfold refs_with. cbn [superlayer set_superlayer ref_counts free_layer]. simpl. by rewrite Z.add_0_r.
  - done.
  - done.
  - cbn [set_kids kids layer_node sublayers set_sublayers]. rewrite (without_absent x (without _ _)); [done|].
    rewrite elem_of_without. naive_solver.
Qed.

Lemma addSublayer_free : addSublayer p x free_layer = Ret (hung_layer (without x (sublayers np) ++ [x])).
Proof.
  assert (E : borrow_layer x free_layer = Ret (set_superlayer 0 l)).
  { unfold borrow_layer, free_layer. cbn [scene_layers]. by rewrite (detach_at _ _ _ Hf Hx). }
  unfold addSublayer. rewrite E. cbn [mbind outcome_bind superlayer set_superlayer].
  destruct (Z.eqb_spec 0 p) as [<-|_]; [by rewrite (fo_nil _ Hf) in Hp|].
  exact (put_back_layer (λ ls, Ret (ls ++ [x])) _ eq_refl).
Qed.
Lemma insertSublayer_atIndex_free i :
  (i ≤ length (without x (sublayers np)))%nat →
  insertSublayer_atIndex p x (Z.of_nat i) free_layer = Ret (hung_layer (insert_nth i x (without x (sublayers np)))).
Proof.
  intros Hi. unfold insertSublayer_atIndex. rewrite Nat2Z.id. apply (put_back_layer (vec_insert i x)). by apply vec_insert_ok.
Qed.
Lemma insertSublayer_below_free sibling i :
  index_in sibling (without x (sublayers np)) = Some i → (i ≤ length (without x (sublayers np)))%nat →
  insertSublayer_below p x sibling free_layer = Ret (hung_layer (insert_nth i x (without x (sublayers np)))).
Proof.
  intros Hs Hi. unfold insertSublayer_below.
  rewrite <-(put_back_layer (λ ls, idx ← unwrap (index_in sibling ls); vec_insert idx x ls) (insert_nth i x (without x (sublayers np)))).
  - destruct (hretain x free_layer) as [s1|]; [|done]. cbn [mbind outcome_bind]. destruct (removeFromSuperlayer x s1) as [s2|]; [|done].
    cbn [mbind outcome_bind]. destruct (borrow_layer x s2) as [l2|]; [|done]. cbn [mbind outcome_bind].
    destruct (borrow_layer p _) as [q|]; [|done]. cbn [mbind outcome_bind]. by destruct (index_in sibling (sublayers q)).
  - rewrite Hs. cbn [unwrap mbind outcome_bind]. by apply vec_insert_ok.
Qed.
End put_layer_back.

(** ** The scene *)

(** [ext] counts the references from elsewhere: the app's to its views, the views' to their layers. *)
Record scene_ok (ext : Z → Z) (s : Scene) : Prop := {
  so_views : forest_ok (scene_views s);
  so_layers : forest_ok (scene_layers s);
  so_mirror : mirror (scene_views s) (scene_layers s);
  so_view_refs v w : scene_views s !! v = Some w → ref_counts s !! v = Some (refs_with (ext v) (superview w));
  so_layer_refs x l : scene_layers s !! x = Some l → ref_counts s !! x = Some (refs_with (ext x) (superlayer l));
  so_fit x : refs_fit (ext x);
  so_apart v w : scene_views s !! v = Some w → scene_layers s !! v = None }.

Lemma place_reorder {N} `{Node N} (m : gmap Z N) p x n np ks :
  forest_ok m → m !! x = Some n → parent n = p → m !! p = Some np →
  <[p := set_kids ks np]> m = place p x ks (detach x m).
Proof.
  intros Hm Hx Hpar Hp. pose proof (parent_ne _ _ _ Hm Hx) as Hne. rewrite Hpar in Hne.
  assert (Hp0 : p ≠ 0) by (intros ->; by rewrite (fo_nil _ Hm) in Hp).
  rewrite <-(place_eq (detach x m) p x ks _ _ (detach_at _ _ _ Hm Hx) (detach_other _ _ _ _ Hne Hp) Hne).
  rewrite <-(detach_eq m x n p np) by done. rewrite set_kids_twice, set_parent_twice, <-Hpar, set_parent_same, Hpar.
  rewrite (insert_insert_ne _ x p) by done. rewrite insert_insert_eq, insert_insert_eq. by rewrite (insert_id m x n).
Qed.

Section one_view.
Context (ext : Z → Z) (s : Scene).
Hypothesis Hok : scene_ok ext s.

Lemma view_layer_there v w : scene_views s !! v = Some w →
  ∃ l, scene_layers s !! view_layer w = Some l ∧ sublayers l = layer_of (scene_views s) <$> subviews w ∧
       superlayer l = layer_of (scene_views s) (superview w) ∧ view_layer w ≠ v.
Proof.
  intros Hv. destruct (mi_layer _ _ (so_mirror _ _ Hok) _ _ Hv) as (l & Hl & ? & ?). exists l. repeat split; try done.
  intros E. by rewrite E, (so_apart _ _ Hok _ _ Hv) in Hl.
Qed.

Lemma layer_of_zero v : v = 0 ∨ is_Some (scene_views s !! v) → layer_of (scene_views s) v = 0 ↔ v = 0.
Proof.
  intros [->|[w Hw]]; [by rewrite (layer_of_nil _ (so_views _ _ Hok))|]. rewrite (layer_of_view _ _ _ Hw).
  destruct (view_layer_there _ _ Hw) as (l & Hl & _). split; intros E.
  - by rewrite E, (fo_nil _ (so_layers _ _ Hok)) in Hl.
  - by rewrite E, (fo_nil _ (so_views _ _ Hok)) in Hw.
Qed.

Definition taken_out (x n : Z) : Scene :=
  mkScene (detach (layer_of (scene_views s) x) (scene_layers s)) (detach x (scene_views s))
    (<[layer_of (scene_views s) x := ext (layer_of (scene_views s) x)]> (<[x := n]> (ref_counts s))) (all_views s).

(** [removeFromSuperview], with the references [n] of a view that may be retained for the time being. *)
Lemma removeFromSuperview_eq x w n m :
  scene_views s !! x = Some w → (superview w ≠ 0 → 1 < n) → m = (if superview w =? 0 then n else n - 1) →
  removeFromSuperview x (set_ref_counts (<[x := n]> (ref_counts s)) s) = Ret (taken_out x m).
Proof.
  intros Hx H1 ->. pose proof (so_views _ _ Hok) as HV. pose proof (so_layers _ _ Hok) as HL.
  destruct (view_layer_there _ _ Hx) as (l & Hl & Hsub & Hsup & Hlx).
  pose proof (so_layer_refs _ _ Hok _ _ Hl) as Hrl. pose proof (layer_of_zero (superview w) (fo_parent _ HV _ _ Hx)) as Hz.
  unfold removeFromSuperview, borrow_view, taken_out. cbn [scene_views set_ref_counts]. rewrite Hx, (layer_of_view _ _ _ Hx).
  cbn [unwrap mbind outcome_bind]. destruct (Z.eqb_spec (superview w) 0) as [E|E].
  { assert (El : superlayer l = 0) by (rewrite Hsup; by apply Hz). rewrite (set_superview_free w E).
    unfold put_view. cbn [set_ref_counts scene_views scene_layers ref_counts all_views]. rewrite (insert_id (scene_views s)) by done.
    rewrite (detach_free (scene_views s)) by (try done; by intros ? [= <-]%(eq_trans (eq_sym Hx))).
    rewrite (detach_free (scene_layers s)) by (try done; by intros ? [= <-]%(eq_trans (eq_sym Hl))).
    do 2 f_equal. symmetry. apply insert_id. rewrite lookup_insert_ne, Hrl by done. unfold refs_with. rewrite El. simpl. f_equal. lia. }
  assert (El : superlayer l ≠ 0) by (rewrite Hsup; naive_solver).
  rewrite (removeFromSuperlayer_eq _ (view_layer w) l (refs_with (ext (view_layer w)) (superlayer l))); cycle 1.
  { done. } { done. } { cbn [put_view set_ref_counts ref_counts]. by rewrite lookup_insert_ne. } { intros. apply refs_with_shared; [apply (so_fit _ _ Hok)|done]. }
  cbn [mbind outcome_bind set_layers scene_views scene_layers ref_counts all_views put_view set_ref_counts].
  destruct (fo_parent _ HV _ _ Hx) as [?|[u Hu]]; [done|]. cbn [parent view_node] in Hu.
  pose proof (parent_ne _ _ _ HV Hx) as Hne. cbn [parent view_node] in Hne.
  rewrite lookup_insert_ne, Hu by done. cbn [unwrap mbind outcome_bind].
  destruct (index_in_Some x (subviews u)) as (i & Hi & Hil & _); [apply (fo_kids _ HV _ _ x Hu); by exists w|].
  rewrite Hi. cbn [unwrap mbind outcome_bind put_view scene_views scene_layers ref_counts all_views].
  rewrite (delete_without i x) by (try done; by eapply (fo_nodup _ HV)).
  unfold drop_ref. rewrite (proj2 (Z.eqb_neq _ _) El).
  rewrite (hrelease_shared x n); [|unfold set_layers, put_view, set_ref_counts; cbn [ref_counts]; by rewrite lookup_insert_ne, lookup_insert_eq|by apply H1].
  unfold set_layers, put_view, set_ref_counts. cbn [scene_views scene_layers ref_counts all_views]. do 2 f_equal.
  - exact (detach_eq _ x w (superview w) u HV Hx eq_refl E Hu (not_eq_sym Hne)).
  - rewrite insert_insert_ne by done. rewrite insert_insert_eq. f_equal.
    unfold refs_with. rewrite (proj2 (Z.eqb_neq _ _) El). lia.
Qed.

Lemma taken_out_ok x w n :
  scene_views s !! x = Some w → n = ext x → scene_ok ext (taken_out x n).
Proof.
  intros Hx ->. unfold taken_out. rewrite (layer_of_view _ _ _ Hx).
  destruct (view_layer_there _ _ Hx) as (l & Hl & _ & _ & Hlx).
  split; cbn [scene_views scene_layers ref_counts all_views].
  - apply detach_ok, (so_views _ _ Hok).
  - apply detach_ok, (so_layers _ _ Hok).
  - apply mirror_detach; [apply (so_views _ _ Hok)|apply (so_mirror _ _ Hok)|done].
  - intros v w' Hv. rewrite detach_lookup in Hv. destruct (scene_views s !! v) as [w0|] eqn:Ev; [|done].
    apply Some_inj in Hv as <-. change (superview (cut x v w0)) with (parent (cut x v w0)). rewrite parent_cut.
    assert (v ≠ view_layer w) by (intros ->; by rewrite (so_apart _ _ Hok _ _ Ev) in Hl).
    rewrite lookup_insert_ne by done. destruct (decide (v = x)) as [->|].
    + rewrite lookup_insert_eq. unfold refs_with. simpl. f_equal. lia.
    + rewrite lookup_insert_ne by done. by apply (so_view_refs _ _ Hok).
  - intros y l' Hy. rewrite detach_lookup in Hy. destruct (scene_layers s !! y) as [l0|] eqn:Ey; [|done].
    apply Some_inj in Hy as <-. change (superlayer (cut ?a y l0)) with (parent (cut a y l0)). rewrite parent_cut.
    destruct (decide (y = view_layer w)) as [->|].
    + rewrite lookup_insert_eq. unfold refs_with. simpl. f_equal. lia.
    + rewrite !lookup_insert_ne by (try done; intros ->; by rewrite (so_apart _ _ Hok _ _ Hx) in Ey).
      by apply (so_layer_refs _ _ Hok).
  - apply (so_fit _ _ Hok).
  - intros v w'. rewrite !detach_lookup. destruct (scene_views s !! v) as [w0|] eqn:Ev; [|done].
    by rewrite (so_apart _ _ Hok _ _ Ev).
Qed.

(** The view and its layer at their new places. *)
Definition placed (p x : Z) (ks : list Z) : Scene :=
  let V := scene_views s in
  mkScene (place (layer_of V p) (layer_of V x) (layer_of V <$> ks) (detach (layer_of V x) (scene_layers s)))
    (place p x ks (detach x V)) (<[layer_of V x := ext (layer_of V x) + 1]> (<[x := ext x + 1]> (ref_counts s))) (all_views s).

(** A layer above another belongs to a view above the other's view. *)
Lemma layer_ancestor x w y v k :
  scene_views s !! x = Some w → scene_views s !! v = Some k → ancestor (scene_layers s) (view_layer w) y →
  y = view_layer k → ancestor (scene_views s) x v.
Proof.
  intros Hx Hv Ha. revert v k Hv. induction Ha as [|y l Hl Ha IH]; intros v k Hv Ey.
  - assert (v = x) as -> by (by eapply (mi_inj _ _ (so_mirror _ _ Hok))). constructor.
  - destruct (view_layer_there _ _ Hv) as (l' & Hl' & _ & Hsup & _). simplify_eq. cbn [parent layer_node] in *.
    destruct (fo_parent _ (so_views _ _ Hok) _ _ Hv) as [E|[u Hu]]; cbn [parent view_node] in *.
    + exfalso. rewrite Hsup, E, (layer_of_nil _ (so_views _ _ Hok)) in Ha.
      apply ancestor_nil in Ha; [|apply (fo_nil _ (so_layers _ _ Hok))].
      destruct (view_layer_there _ _ Hx) as (lw & Hlw & _). by rewrite Ha, (fo_nil _ (so_layers _ _ Hok)) in Hlw.
    + apply (ancestor_up _ _ _ k Hv). cbn [parent view_node]. apply (IH _ _ Hu). by rewrite Hsup, (layer_of_view _ _ _ Hu).
Qed.

Lemma hung_refs {N} `{Node N} (m : gmap Z N) (R : gmap Z Z) p x ks y n :
  p ≠ x → p ≠ 0 → place p x ks m !! y = Some n →
  (∀ y n, m !! y = Some n → R !! y = Some (refs_with (ext y) (parent n))) →
  <[x := ext x + 1]> R !! y = Some (refs_with (ext y) (parent n)).
Proof.
  intros Hne Hp0 Hy HR. apply place_parent in Hy as (k & Hk & -> & _); [|done].
  destruct (decide (y = x)) as [->|]; [|rewrite lookup_insert_ne by done; by apply HR].
  rewrite lookup_insert_eq. unfold refs_with. by rewrite (proj2 (Z.eqb_neq _ _) Hp0).
Qed.

Lemma hung_ok p x u w ks :
  scene_views s !! p = Some u → scene_views s !! x = Some w → superview w = 0 → ¬ ancestor (scene_views s) x p →
  ks ≡ₚ x :: subviews u →
  scene_ok ext (mkScene (place (view_layer u) (view_layer w) (layer_of (scene_views s) <$> ks) (scene_layers s))
    (place p x ks (scene_views s)) (<[view_layer w := ext (view_layer w) + 1]> (<[x := ext x + 1]> (ref_counts s))) (all_views s)).
Proof.
  intros Hp Hx H0 Ha Hks. pose proof (so_views _ _ Hok) as HV. pose proof (so_layers _ _ Hok) as HL.
  destruct (view_layer_there _ _ Hx) as (lx & Hlx & _ & Hsx & Hnx). destruct (view_layer_there _ _ Hp) as (lp & Hlp & Hsp & _).
  assert (Hne : p ≠ x) by (intros ->; apply Ha; constructor).
  assert (Ha' : ¬ ancestor (scene_layers s) (view_layer w) (view_layer u)).
  { intros ?. apply Ha. by eapply layer_ancestor. }
  assert (Hne' : view_layer u ≠ view_layer w) by (intros E; apply Ha'; rewrite E; constructor).
  assert (Hdj : ∀ v k, scene_views s !! v = Some k → v ≠ view_layer w).
  { intros v k Hv ->. by rewrite (so_apart _ _ Hok _ _ Hv) in Hlx. }
  split; cbn [scene_views scene_layers ref_counts all_views].
  - by eapply place_ok.
  - eapply place_ok; try done.
    + cbn [parent layer_node]. rewrite Hsx, H0. by apply layer_of_nil.
    + cbn [kids layer_node]. rewrite Hks, fmap_cons, Hsp. by rewrite (layer_of_view _ _ _ Hx).
  - apply mirror_place; try done. apply (so_mirror _ _ Hok).
  - intros v k Hv. pose proof Hv as Hv'. apply place_parent in Hv' as (k' & Hk' & _); [|done].
    rewrite lookup_insert_ne by (apply not_eq_sym; by eapply Hdj). change (superview k) with (parent k).
    eapply (hung_refs (scene_views s)); [done|intros ->; by rewrite (fo_nil _ HV) in Hp|done|apply (so_view_refs _ _ Hok)].
  - intros y l Hy. change (superlayer l) with (parent l).
    eapply (hung_refs (scene_layers s)); [done|intros E; by rewrite E, (fo_nil _ HL) in Hlp|done|].
    intros z n Hz. rewrite lookup_insert_ne; [by apply (so_layer_refs _ _ Hok)|].
    intros ->. by rewrite (so_apart _ _ Hok _ _ Hx) in Hz.
  - apply (so_fit _ _ Hok).
  - intros v k Hv. apply place_parent in Hv as (k' & Hk' & _); [|done].
    destruct (place _ _ _ (scene_layers s) !! v) eqn:E; [|done]. apply place_parent in E as (? & E & _); [|done].
    by rewrite (so_apart _ _ Hok _ _ Hk') in E.
Qed.
End one_view.

Lemma placed_ok ext s p x u w ks :
  scene_ok ext s → scene_views s !! p = Some u → scene_views s !! x = Some w → ¬ ancestor (scene_views s) x p →
  ks ≡ₚ x :: without x (subviews u) → scene_ok ext (placed ext s p x ks).
Proof.
  intros Hok Hp Hx Ha Hks. pose proof (so_views _ _ Hok) as HV.
  assert (Hne : p ≠ x) by (intros ->; apply Ha; constructor).
  assert (Hx0 : x ≠ 0) by (intros ->; by rewrite (fo_nil _ HV) in Hx).
  pose proof (taken_out_ok ext s Hok x w (ext x) Hx eq_refl) as Ht.
  pose proof (hung_ok ext _ Ht p x (set_kids (without x (kids u)) u) (set_parent 0 w) ks (detach_other _ _ _ _ Hne Hp)
    (detach_at _ _ _ HV Hx) eq_refl) as Hh.
  cbn [taken_out scene_views scene_layers ref_counts all_views] in Hh.
  unfold placed. rewrite (layer_of_view _ _ _ Hp), (layer_of_view _ _ _ Hx) in *.
  cbn [view_layer set_kids set_parent view_node set_subviews set_superview kids subviews] in Hh.
  rewrite (insert_insert_ne (<[x := ext x]> (ref_counts s)) x) in Hh.
  - rewrite insert_insert_eq, insert_insert_eq in Hh.
    rewrite (list_fmap_ext _ (layer_of (scene_views s)) ks) in Hh by (intros; apply layer_of_detach).
    apply Hh; [|done]. intros Hd. apply Ha. eapply ancestor_detach; [apply (fo_nil _ HV)|done|done].
  - destruct (view_layer_there _ _ Hok _ _ Hx) as (l & Hl & _ & _ & Hlx). done.
Qed.

Lemma index_in_cons x y l : index_in x (y :: l) = if decide (x = y) then Some O else S <$> index_in x l.
Proof. unfold index_in. cbn [list_find]. case_decide; [done|]. by destruct (list_find _ l) as [[]|]. Qed.
Lemma index_in_fmap (f : Z → Z) x l : (∀ y, y ∈ l → f y = f x → y = x) → index_in (f x) (f <$> l) = index_in x l.
Proof.
  induction l as [|y l IH]; intros Hinj; [done|]. rewrite fmap_cons, !index_in_cons, IH by (intros; apply Hinj; [by right|done]).
  destruct (decide (x = y)) as [<-|Hn]; [by rewrite decide_True|].
  rewrite decide_False; [done|]. intros E. apply Hn. symmetry. apply Hinj; [by left|done].
Qed.

Section move_view.
Context (ext : Z → Z) (s : Scene) (p x : Z) (u w : UIView).
Hypothesis Hok : scene_ok ext s.
Hypothesis Hp : scene_views s !! p = Some u.
Hypothesis Hx : scene_views s !! x = Some w.
Hypothesis Hne : p ≠ x.
Let V := scene_views s.

Lemma retained_out : (s ← hretain x s; removeFromSuperview x s) = Ret (taken_out ext s x (ext x + 1)).
Proof.
  rewrite (hretain_eq _ _ _ (so_view_refs _ _ Hok _ _ Hx)) by (apply refs_with_bounds, (so_fit _ _ Hok)).
  cbn [mbind outcome_bind]. apply (removeFromSuperview_eq ext s Hok x w _ _ Hx).
  - intros ?%(refs_with_shared (ext x)); [lia|apply (so_fit _ _ Hok)].
  - unfold refs_with. destruct (superview w =? 0); lia.
Qed.

(** The steps that [addSubview:] and the two [insertSubview:]s share. *)
Lemma put_in_view {B I : Type} (h : Scene → outcome B) (f : UIView → outcome I) (f' : I → UIView → outcome (list Z))
    (g : B → Z → Z → Scene → outcome Scene) b i ks s' :
  h (put_view x (set_superview p w) (taken_out ext s x (ext x + 1))) = Ret b →
  f (set_subviews (without x (subviews u)) u) = Ret i →
  f' i (set_subviews (without x (subviews u)) u) = Ret ks →
  g b (layer_of V p) (layer_of V x)
    (free_layer (scene_layers s) (place p x ks (detach x V))
       (<[layer_of V x := ext (layer_of V x)]> (<[x := ext x + 1]> (ref_counts s))) (all_views s) (layer_of V x)) = s' →
  (s ← hretain x s; s ← removeFromSuperview x s;
   w ← borrow_view x s;
   let s := put_view x (set_superview p w) s in
   b ← h s;
   v ← borrow_view p s;
   i ← f v; vs ← f' i v;
   let s := put_view p (set_subviews vs v) s in
   g b (view_layer v) (view_layer w) s) = s'.
Proof.
  intros Hh Hf Hf' Hg. pose proof retained_out as Ht. destruct (hretain x s) as [s1|]; [|done]. cbn [mbind outcome_bind] in Ht |- *.
  rewrite Ht. cbn [mbind outcome_bind]. unfold borrow_view. cbn [taken_out scene_views].
  rewrite (detach_at _ _ _ (so_views _ _ Hok) Hx). cbn [unwrap mbind outcome_bind].
  change (set_superview p (set_parent 0 w)) with (set_superview p w).
  rewrite Hh. cbn [mbind outcome_bind put_view scene_views taken_out]. rewrite lookup_insert_ne, (detach_other _ _ _ _ Hne Hp) by done.
  cbn [unwrap mbind outcome_bind set_kids set_parent kids view_node]. rewrite Hf. cbn [mbind outcome_bind]. rewrite Hf'. cbn [mbind outcome_bind].
  rewrite <-Hg. unfold V. rewrite (layer_of_view _ _ _ Hp), (layer_of_view _ _ _ Hx).
  unfold put_view, free_layer, taken_out. cbn [scene_views scene_layers ref_counts all_views view_layer set_superview set_subviews].
  rewrite (layer_of_view _ _ _ Hx). f_equal. f_equal.
  rewrite <-(place_eq (detach x (scene_views s)) p x ks _ _ (detach_at _ _ _ (so_views _ _ Hok) Hx) (detach_other _ _ _ _ Hne Hp) Hne).
  done.
Qed.

(** What is left to do with the layers, for each way to put the view in. *)
Definition between (ks : list Z) (R : gmap Z Z) : Scene :=
  free_layer (scene_layers s) (place p x ks (detach x V)) (<[layer_of V x := ext (layer_of V x)]> R) (all_views s) (layer_of V x).

Lemma layers_ready : ∃ l np,
  scene_layers s !! layer_of V x = Some l ∧ scene_layers s !! layer_of V p = Some np ∧ layer_of V p ≠ layer_of V x ∧
  without (layer_of V x) (sublayers np) = layer_of V <$> without x (subviews u).
Proof.
  destruct (view_layer_there _ _ Hok _ _ Hx) as (l & Hl & _). destruct (view_layer_there _ _ Hok _ _ Hp) as (np & Hnp & Hs & _).
  exists l, np. unfold V. rewrite !(layer_of_view _ _ _ Hx), (layer_of_view _ _ _ Hp), Hs. repeat split; try done.
  - intros E. apply Hne. by eapply (mi_inj _ _ (so_mirror _ _ Hok)).
  - rewrite <-(layer_of_view _ _ _ Hx).
    apply (without_layer _ (scene_layers s) p u x w (so_views _ _ Hok) (so_mirror _ _ Hok) Hp Hx).
Qed.

Lemma between_hung ks R np :
  <[x := ext x + 1]> (ref_counts s) = R →
  hung_layer (scene_layers s) (place p x ks (detach x V)) (<[layer_of V x := ext (layer_of V x)]> R) (all_views s)
    (layer_of V x) (layer_of V p) (ext (layer_of V x)) np = mkScene (place (layer_of V p) (layer_of V x) np (detach (layer_of V x) (scene_layers s)))
    (place p x ks (detach x V)) (<[layer_of V x := ext (layer_of V x) + 1]> (<[x := ext x + 1]> (ref_counts s))) (all_views s).
Proof. intros <-. unfold hung_layer. by rewrite insert_insert_eq. Qed.

Lemma add_layer_between :
  addSublayer (layer_of V p) (layer_of V x) (between (without x (subviews u) ++ [x]) (<[x := ext x + 1]> (ref_counts s)))
  = Ret (placed ext s p x (without x (subviews u) ++ [x])).
Proof.
  destruct layers_ready as (l & np & Hl & Hnp & Hnl & Hw). unfold between.
  rewrite (addSublayer_free (scene_layers s) _ _ _ (layer_of V x) (layer_of V p) l np (ext (layer_of V x)));
    [|apply (so_layers _ _ Hok)|done|done|by rewrite lookup_insert_eq|apply (so_fit _ _ Hok)|done].
  rewrite between_hung by done. unfold placed. fold V. by rewrite Hw, fmap_app.
Qed.
Lemma insert_layer_between i : (i ≤ length (without x (subviews u)))%nat →
  insertSublayer_atIndex (layer_of V p) (layer_of V x) (Z.of_nat i)
    (between (insert_nth i x (without x (subviews u))) (<[x := ext x + 1]> (ref_counts s)))
  = Ret (placed ext s p x (insert_nth i x (without x (subviews u)))).
Proof.
  intros Hi. destruct layers_ready as (l & np & Hl & Hnp & Hnl & Hw). unfold between.
  rewrite (insertSublayer_atIndex_free (scene_layers s) _ _ _ (layer_of V x) (layer_of V p) l np (ext (layer_of V x)));
    [|apply (so_layers _ _ Hok)|done|done|by rewrite lookup_insert_eq|apply (so_fit _ _ Hok)|done|by rewrite Hw, length_fmap].
  rewrite between_hung by done. unfold placed. fold V. by rewrite Hw, insert_nth_fmap.
Qed.
Lemma below_layer_between sibling i : sibling ∈ subviews u → index_in sibling (without x (subviews u)) = Some i →
  (i ≤ length (without x (subviews u)))%nat →
  insertSublayer_below (layer_of V p) (layer_of V x) (layer_of V sibling)
    (between (insert_nth i x (without x (subviews u))) (<[x := ext x + 1]> (ref_counts s)))
  = Ret (placed ext s p x (insert_nth i x (without x (subviews u)))).
Proof.
  intros Hsib Hidx Hi. destruct layers_ready as (l & np & Hl & Hnp & Hnl & Hw). unfold between.
  pose proof (proj1 (fo_kids _ (so_views _ _ Hok) _ _ _ Hp) Hsib) as (b & Hb & _).
  rewrite (insertSublayer_below_free (scene_layers s) _ _ _ (layer_of V x) (layer_of V p) l np (ext (layer_of V x))) with (i := i);
    [|apply (so_layers _ _ Hok)|done|done|by rewrite lookup_insert_eq|apply (so_fit _ _ Hok)|done| |by rewrite Hw, length_fmap].
  - rewrite between_hung by done. unfold placed. fold V. by rewrite Hw, insert_nth_fmap.
  - rewrite Hw, index_in_fmap; [done|]. intros y Hy. apply elem_of_without in Hy as [_ Hy].
    by apply (subview_layer_inj _ (scene_layers s) p u sibling b y (so_views _ _ Hok) (so_mirror _ _ Hok)).
Qed.

(** *** The operations that move a view *)

Lemma insertSubview_atIndex_eq i : (i ≤ length (without x (subviews u)))%nat →
  insertSubview_atIndex p x (Z.of_nat i) s = Ret (placed ext s p x (insert_nth i x (without x (subviews u)))).
Proof.
  intros Hi. unfold insertSubview_atIndex.
  destruct (Z.eqb_spec x 0) as [->|_]; [by rewrite (fo_nil _ (so_views _ _ Hok)) in Hx|].
  rewrite (proj2 (Z.leb_le 0 (Z.of_nat i))) by lia. rewrite Nat2Z.id. cbn [negb rassert mbind outcome_bind].
  apply (put_in_view (λ _, Ret tt) (λ _, Ret tt) (λ _ v, vec_insert i x (subviews v))
    (λ _ a b, insertSublayer_atIndex a b (Z.of_nat i)) tt tt (insert_nth i x (without x (subviews u)))); try done.
  - by apply vec_insert_ok.
  - by apply insert_layer_between.
Qed.
Lemma insertSubview_belowSubview_eq sibling : sibling ∈ subviews u → sibling ≠ x →
  ∃ i, index_in sibling (without x (subviews u)) = Some i ∧
  insertSubview_belowSubview p x sibling s = Ret (placed ext s p x (insert_nth i x (without x (subviews u)))).
Proof.
  intros Hs Hsx. destruct (index_in_Some sibling (without x (subviews u))) as (i & Hi & _ & Hl); [by apply elem_of_without|].
  exists i. split; [done|]. pose proof (proj1 (fo_kids _ (so_views _ _ Hok) _ _ _ Hp) Hs) as (b & Hb & _).
  apply (put_in_view (borrow_view sibling) (λ v, unwrap (index_in sibling (subviews v))) (λ i v, vec_insert i x (subviews v))
    (λ b a c, insertSublayer_below a c (view_layer b)) (set_kids (without x (kids b)) b) i (insert_nth i x (without x (subviews u)))).
  - unfold borrow_view, put_view, taken_out. cbn [scene_views]. rewrite lookup_insert_ne by done.
    by rewrite (detach_other _ _ _ _ Hsx Hb).
  - cbn [subviews set_subviews]. by rewrite Hi.
  - apply vec_insert_ok. cbn [subviews set_subviews]. lia.
  - cbn [view_layer set_kids view_node set_subviews]. rewrite <-(layer_of_view _ _ _ Hb).
    apply below_layer_between; [done|done|lia].
Qed.

(** The order of the subviews was changed: the layer is taken out, and has to be put back. *)
Lemma reordered ks : superview w = p →
  removeFromSuperlayer (view_layer w) (put_view p (set_subviews ks u) s) = Ret (between ks (<[x := ext x + 1]> (ref_counts s))).
Proof.
  intros Hsup. pose proof (so_views _ _ Hok) as HV.
  destruct (view_layer_there _ _ Hok _ _ Hx) as (l & Hl & _ & Hsl & _).
  assert (Hl0 : superlayer l ≠ 0).
  { rewrite Hsl, Hsup, (layer_of_zero _ _ Hok) by (right; by eexists). intros ->. by rewrite (fo_nil _ HV) in Hp. }
  rewrite (removeFromSuperlayer_eq _ _ l (refs_with (ext (view_layer w)) (superlayer l)));
    [|apply (so_layers _ _ Hok)|done|by apply (so_layer_refs _ _ Hok)|intros; by apply refs_with_shared, Hl0; apply (so_fit _ _ Hok)].
  unfold set_layers, put_view, between, free_layer, V. cbn [scene_views scene_layers ref_counts all_views].
  rewrite (layer_of_view _ _ _ Hx). do 2 f_equal.
  - exact (place_reorder _ p x w u ks HV Hx Hsup Hp).
  - rewrite (insert_id (ref_counts s) x).
    + unfold drop_ref, refs_with. rewrite (proj2 (Z.eqb_neq _ _) Hl0). f_equal. lia.
    + rewrite (so_view_refs _ _ Hok _ _ Hx), Hsup. unfold refs_with.
      destruct (Z.eqb_spec p 0) as [->|]; [by rewrite (fo_nil _ HV) in Hp|done].
Qed.

Lemma child_index : superview w = p → ∃ i, index_in x (subviews u) = Some i ∧ delete i (subviews u) = without x (subviews u).
Proof.
  intros Hsup. destruct (index_in_Some x (subviews u)) as (i & Hi & Hl & _).
  { apply (fo_kids _ (so_views _ _ Hok) _ _ x Hp). by exists w. }
  exists i. split; [done|]. apply delete_without; [|done]. by apply (fo_nodup _ (so_views _ _ Hok) _ _ Hp).
Qed.

Lemma bringSubviewToFront_eq : superview w = p →
  bringSubviewToFront p x s = Ret (placed ext s p x (without x (subviews u) ++ [x])).
Proof.
  intros Hsup. destruct (child_index Hsup) as (i & Hi & Hd). unfold bringSubviewToFront.
  destruct (Z.eqb_spec x 0) as [->|_]; [by rewrite (fo_nil _ (so_views _ _ Hok)) in Hx|].
  unfold borrow_view. rewrite Hp. cbn [unwrap mbind outcome_bind]. rewrite Hi, Hd. cbn [put_view scene_views].
  rewrite lookup_insert_ne, Hx by done. cbn [unwrap mbind outcome_bind].
  rewrite (reordered _ Hsup). cbn [mbind outcome_bind]. rewrite <-add_layer_between. unfold V.
  by rewrite (layer_of_view _ _ _ Hp), (layer_of_view _ _ _ Hx).
Qed.
Lemma sendSubviewToBack_eq : superview w = p →
  sendSubviewToBack p x s = Ret (placed ext s p x (insert_nth 0 x (without x (subviews u)))).
Proof.
  intros Hsup. destruct (child_index Hsup) as (i & Hi & Hd). unfold sendSubviewToBack.
  destruct (Z.eqb_spec x 0) as [->|_]; [by rewrite (fo_nil _ (so_views _ _ Hok)) in Hx|].
  unfold borrow_view. rewrite Hp. cbn [unwrap mbind outcome_bind]. rewrite Hi, Hd. cbn [put_view scene_views].
  rewrite lookup_insert_ne, Hx by done. cbn [unwrap mbind outcome_bind].
  rewrite (reordered _ Hsup). cbn [mbind outcome_bind]. rewrite <-(insert_layer_between 0) by lia. unfold V.
  by rewrite (layer_of_view _ _ _ Hp), (layer_of_view _ _ _ Hx).
Qed.
Lemma addSubview_eq : addSubview p x s = Ret (placed ext s p x (without x (subviews u) ++ [x])).
Proof.
  unfold addSubview. destruct (Z.eqb_spec x 0) as [->|_]; [by rewrite (fo_nil _ (so_views _ _ Hok)) in Hx|].
  assert (E : borrow_view x s = Ret w) by (unfold borrow_view; by rewrite Hx).
  rewrite E. cbn [mbind outcome_bind]. destruct (Z.eqb_spec (superview w) p) as [Hsup|_]; [by apply bringSubviewToFront_eq|].
  apply (put_in_view (λ _, Ret tt) (λ _, Ret tt) (λ _ v, Ret (subviews v ++ [x])) (λ _, addSublayer) tt tt
    (without x (subviews u) ++ [x])); try done. apply add_layer_between.
Qed.
End move_view.

Lemma bringSubviewToFront_other s p x u :
  scene_views s !! p = Some u → x ∉ subviews u → bringSubviewToFront p x s = Ret s ∧ sendSubviewToBack p x s = Ret s.
Proof.
  intros Hp Hx. unfold bringSubviewToFront, sendSubviewToBack, borrow_view. rewrite Hp. cbn [unwrap mbind outcome_bind].
  rewrite (index_in_None _ _ Hx). by destruct (x =? 0).
Qed.
Lemma removeFromSuperview_plain ext s x w :
  scene_ok ext s → scene_views s !! x = Some w → removeFromSuperview x s = Ret (taken_out ext s x (ext x)).
Proof.
  intros Hok Hx. pose proof (so_view_refs _ _ Hok _ _ Hx) as Hr.
  pose proof (removeFromSuperview_eq ext s Hok x w (refs_with (ext x) (superview w)) (ext x) Hx) as E.
  rewrite (insert_id (ref_counts s)) in E by done. destruct s. apply E.
  - intros. apply refs_with_shared; [apply (so_fit _ _ Hok)|done].
  - unfold refs_with. destruct (superview w =? 0); lia.
Qed.

(** ** Specification: a tree of ordered subviews *)

Inductive ViewOp :=
| AddSubview (this view : Z)
| InsertAt (this view : Z) (index : nat)
| InsertBelow (this view sibling : Z)
| BringToFront (this view : Z)
| SendToBack (this view : Z)
| RemoveFromSuper (view : Z).

Definition run_view_op (op : ViewOp) (s : Scene) : outcome Scene :=
  match op with
  | AddSubview this view => addSubview this view s
  | InsertAt this view index => insertSubview_atIndex this view (Z.of_nat index) s
  | InsertBelow this view sibling => insertSubview_belowSubview this view sibling s
  | BringToFront this view => bringSubviewToFront this view s
  | SendToBack this view => sendSubviewToBack this view s
  | RemoveFromSuper view => removeFromSuperview view s
  end.

Definition view_tree (s : Scene) : gmap Z (list Z) := subviews <$> scene_views s.

Fixpoint put_before (sibling x : Z) (l : list Z) : list Z :=
  match l with
  | [] => []
  | y :: l => if decide (y = sibling) then x :: y :: l else y :: put_before sibling x l
  end.
Definition take_out (x : Z) (t : gmap Z (list Z)) : gmap Z (list Z) := without x <$> t.
Definition children (t : gmap Z (list Z)) (p : Z) : list Z := default [] (t !! p).
Definition tree_op (op : ViewOp) (t : gmap Z (list Z)) : gmap Z (list Z) :=
  match op with
  | AddSubview p x => alter (λ l, l ++ [x]) p (take_out x t)
  | InsertAt p x i => alter (insert_nth i x) p (take_out x t)
  | InsertBelow p x sibling => alter (put_before sibling x) p (take_out x t)
  | BringToFront p x => if decide (x ∈ children t p) then alter (λ l, l ++ [x]) p (take_out x t) else t
  | SendToBack p x => if decide (x ∈ children t p) then alter (cons x) p (take_out x t) else t
  | RemoveFromSuper x => take_out x t
  end.

(** [a] is [v] or above it. *)
Inductive above (t : gmap Z (list Z)) (a : Z) : Z → Prop :=
| above_refl : above t a a
| above_child p v : v ∈ children t p → above t a p → above t a v.

(** The arguments an app may use: views that exist, no view put below itself, an index in range, a
    sibling that is one. *)
Definition valid_view_op (t : gmap Z (list Z)) (op : ViewOp) : Prop :=
  match op with
  | AddSubview p x => p ∈ dom t ∧ x ∈ dom t ∧ ¬ above t x p
  | InsertAt p x i => p ∈ dom t ∧ x ∈ dom t ∧ ¬ above t x p ∧ (i ≤ length (without x (children t p)))%nat
  | InsertBelow p x sibling => p ∈ dom t ∧ x ∈ dom t ∧ ¬ above t x p ∧ sibling ∈ children t p ∧ sibling ≠ x
  | BringToFront p x | SendToBack p x => p ∈ dom t
  | RemoveFromSuper x => x ∈ dom t
  end.
Fixpoint valid_view_ops (t : gmap Z (list Z)) (ops : list ViewOp) : Prop :=
  match ops with
  | [] => True
  | op :: ops => valid_view_op t op ∧ valid_view_ops (tree_op op t) ops
  end.

Lemma put_before_nth sibling x l i : index_in sibling l = Some i → put_before sibling x l = insert_nth i x l.
Proof.
  revert i. induction l as [|y l IH]; intros i; [done|]. rewrite index_in_cons. cbn [put_before].
  destruct (decide (sibling = y)) as [<-|Hn]; [intros [= <-]; by rewrite decide_True|].
  rewrite decide_False by done. destruct (index_in sibling l) as [j|]; [|done]. intros [= <-]. by rewrite (IH j).
Qed.

Lemma children_tree s p u : scene_views s !! p = Some u → children (view_tree s) p = subviews u.
Proof. intros Hp. unfold children, view_tree. by rewrite lookup_fmap, Hp. Qed.
Lemma view_in_tree s x : x ∈ dom (view_tree s) ↔ ∃ w, scene_views s !! x = Some w.
Proof. unfold view_tree. rewrite dom_fmap, elem_of_dom. done. Qed.
Lemma ancestor_above ext s x v : scene_ok ext s → ancestor (scene_views s) x v → x ≠ 0 → above (view_tree s) x v.
Proof.
  intros Hok Ha Hx. induction Ha as [|v k Hk Ha IH]; [constructor|]. pose proof (so_views _ _ Hok) as HV.
  apply (above_child _ _ (parent k)); [|done].
  destruct (fo_parent _ HV _ _ Hk) as [E|[u Hu]].
  - exfalso. apply Hx. apply (ancestor_nil (scene_views s)); [apply (fo_nil _ HV)|by rewrite <-E].
  - rewrite (children_tree _ _ _ Hu). apply (fo_kids _ HV _ _ v Hu). by exists k.
Qed.

Lemma tree_taken_out ext s x n : view_tree (taken_out ext s x n) = take_out x (view_tree s).
Proof.
  unfold view_tree, take_out, taken_out. cbn [scene_views]. apply map_eq. intros y.
  rewrite !lookup_fmap, detach_lookup. destruct (scene_views s !! y) as [w|]; [|done].
  done.
Qed.
Lemma tree_placed ext s p x ks u f :
  p ≠ x → scene_views s !! p = Some u → f (without x (subviews u)) = ks →
  view_tree (placed ext s p x ks) = alter f p (take_out x (view_tree s)).
Proof.
  intros Hne Hp <-. rewrite <-(tree_taken_out ext s x 0). unfold view_tree, placed, taken_out. cbn [scene_views].
  apply map_eq. intros y. rewrite lookup_fmap. unfold place. destruct (decide (y = p)) as [->|].
  - rewrite !lookup_alter_eq, lookup_alter_ne, lookup_fmap, (detach_other _ _ _ _ Hne Hp) by done. done.
  - rewrite lookup_alter_ne, (lookup_alter_ne f), lookup_fmap by done. destruct (decide (y = x)) as [->|].
    + rewrite lookup_alter_eq. by destruct (detach x (scene_views s) !! x).
    + by rewrite lookup_alter_ne.
Qed.


Lemma moved_refines ext s p x u w ks f :
  scene_ok ext s → scene_views s !! p = Some u → scene_views s !! x = Some w → ¬ ancestor (scene_views s) x p →
  f (without x (subviews u)) = ks → ks ≡ₚ x :: without x (subviews u) →
  scene_ok ext (placed ext s p x ks) ∧ view_tree (placed ext s p x ks) = alter f p (take_out x (view_tree s)).
Proof.
  intros Hok Hp Hx Ha Hf Hks. split; [by eapply placed_ok|]. eapply tree_placed; [|done|done].
  intros ->. apply Ha. constructor.
Qed.

Lemma perm_end (x : Z) l : l ++ [x] ≡ₚ x :: l.
Proof. by rewrite Permutation_app_comm. Qed.

(** The views that an operation names, with what the proofs need of them. *)
Lemma valid_views ext s p x :
  scene_ok ext s → p ∈ dom (view_tree s) → x ∈ dom (view_tree s) → ¬ above (view_tree s) x p →
  ∃ u w, scene_views s !! p = Some u ∧ scene_views s !! x = Some w ∧ p ≠ x ∧ ¬ ancestor (scene_views s) x p ∧
    children (view_tree s) p = subviews u.
Proof.
  intros Hok [u Hu]%view_in_tree [w Hw]%view_in_tree Ha. exists u, w.
  assert (x ≠ 0) by (intros ->; by rewrite (fo_nil _ (so_views _ _ Hok)) in Hw).
  repeat split; eauto using children_tree, ancestor_above. intros ->. apply Ha. constructor.
Qed.
Lemma child_views ext s p x :
  scene_ok ext s → p ∈ dom (view_tree s) → x ∈ children (view_tree s) p →
  ∃ u w, scene_views s !! p = Some u ∧ scene_views s !! x = Some w ∧ p ≠ x ∧ ¬ ancestor (scene_views s) x p ∧ superview w = p.
Proof.
  intros Hok [u Hu]%view_in_tree Hx. pose proof (so_views _ _ Hok) as HV. rewrite (children_tree _ _ _ Hu) in Hx.
  apply (fo_kids _ HV _ _ _ Hu) in Hx as (w & Hw & Hsup). exists u, w. pose proof (no_cycle _ _ _ HV Hw) as Hc. rewrite Hsup in Hc.
  repeat split; try done. intros ->. apply Hc. constructor.
Qed.

Lemma view_op_refines ext s op :
  scene_ok ext s → valid_view_op (view_tree s) op →
  ∃ s', run_view_op op s = Ret s' ∧ scene_ok ext s' ∧ view_tree s' = tree_op op (view_tree s).
Proof.
  intros Hok. destruct op as [p x|p x i|p x b|p x|p x|x]; cbn [valid_view_op run_view_op tree_op].
  - intros (Hp & Hx & Ha). destruct (valid_views ext s p x Hok Hp Hx Ha) as (u & w & Hu & Hw & Hne & Hc & _).
    eexists. split; [by apply (addSubview_eq ext s p x u w)|]. by apply (moved_refines ext s p x u w); [..|apply perm_end].
  - intros (Hp & Hx & Ha & Hi). destruct (valid_views ext s p x Hok Hp Hx Ha) as (u & w & Hu & Hw & Hne & Hc & Hk). rewrite Hk in Hi.
    eexists. split; [by apply (insertSubview_atIndex_eq ext s p x u w)|].
    by apply (moved_refines ext s p x u w); [..|apply insert_nth_perm].
  - intros (Hp & Hx & Ha & Hb & Hbx). destruct (valid_views ext s p x Hok Hp Hx Ha) as (u & w & Hu & Hw & Hne & Hc & Hk). rewrite Hk in Hb.
    destruct (insertSubview_belowSubview_eq ext s p x u w Hok Hu Hw Hne b Hb Hbx) as (i & Hi & E).
    eexists. split; [done|]. apply (moved_refines ext s p x u w); [..|apply insert_nth_perm]; try done. by apply put_before_nth.
  - intros Hp. destruct (decide (x ∈ children (view_tree s) p)) as [Hx|Hx].
    + destruct (child_views ext s p x Hok Hp Hx) as (u & w & Hu & Hw & Hne & Hc & Hsup).
      eexists. split; [by apply (bringSubviewToFront_eq ext s p x u w)|]. by apply (moved_refines ext s p x u w); [..|apply perm_end].
    + apply view_in_tree in Hp as [u Hu]. rewrite (children_tree _ _ _ Hu) in Hx.
      exists s. split; [by eapply bringSubviewToFront_other|done].
  - intros Hp. destruct (decide (x ∈ children (view_tree s) p)) as [Hx|Hx].
    + destruct (child_views ext s p x Hok Hp Hx) as (u & w & Hu & Hw & Hne & Hc & Hsup).
      eexists. split; [by apply (sendSubviewToBack_eq ext s p x u w)|]. by apply (moved_refines ext s p x u w); [..|apply insert_nth_perm].
    + apply view_in_tree in Hp as [u Hu]. rewrite (children_tree _ _ _ Hu) in Hx.
      exists s. split; [by eapply bringSubviewToFront_other|done].
  - intros [w Hw]%view_in_tree. eexists. split; [by eapply removeFromSuperview_plain|].
    split; [by eapply taken_out_ok|apply tree_taken_out].
Qed.

(** ** The hierarchies *)

Lemma loners_ok {N} `{Node N} (m : gmap Z N) :
  m !! 0 = None → (∀ x n, m !! x = Some n → kids n = [] ∧ parent n = 0) → forest_ok m.
Proof.
  intros H0 Hl. split; try done.
  - intros p n Hp. destruct (Hl _ _ Hp) as [-> _]. constructor.
  - intros p n c Hp. destruct (Hl _ _ Hp) as [-> _]. split; [by intros ?%elem_of_nil|].
    intros (k & Hk & E). destruct (Hl _ _ Hk) as [_ E']. rewrite E' in E. by subst p; rewrite H0 in Hp.
  - intros c k Hk. left. by apply Hl in Hk as [_ ->].
  - intros c k Hk. apply (rooted_up _ _ k Hk). apply Hl in Hk as [_ ->]. constructor.
Qed.

Lemma forest_new {N} `{Node N} (m : gmap Z N) x n :
  forest_ok m → m !! x = None → x ≠ 0 → kids n = [] → parent n = 0 → forest_ok (<[x := n]> m).
Proof.
  intros Hm Hx H0 Hk Hp. assert (Hr : ∀ y, rooted m y → rooted (<[x := n]> m) y).
  { induction 1 as [|y k Hy _ IH]; [constructor|]. apply (rooted_up _ _ k); [|done].
    rewrite lookup_insert_ne; [done|]. intros ->. congruence. }
  split.
  - rewrite lookup_insert_ne by done. apply (fo_nil _ Hm).
  - intros p k [[<- <-]|[_ ?]]%lookup_insert_Some; [rewrite Hk; constructor|by eapply fo_nodup].
  - intros p k c Hpk. setoid_rewrite lookup_insert_Some. apply lookup_insert_Some in Hpk as [[<- <-]|[Hne Hpk]].
    + rewrite Hk. split; [by intros ?%elem_of_nil|]. intros (k & [[_ <-]|[_ Hc]] & E); [congruence|].
      destruct (fo_parent _ Hm _ _ Hc) as [?|[? Hy]]; [congruence|]. by rewrite E, Hx in Hy.
    + rewrite (fo_kids _ Hm _ _ c Hpk). split.
      * intros (k' & Hc & ?). exists k'. split; [right; split; [intros ->; congruence|done]|done].
      * intros (k' & [[<- <-]|[_ Hc]] & E); [|by exists k']. by rewrite <-E, Hp, (fo_nil _ Hm) in Hpk.
  - intros c k [[<- <-]|[_ Hc]]%lookup_insert_Some; [by left|].
    destruct (fo_parent _ Hm _ _ Hc) as [?|[q Hq]]; [by left|right]. rewrite lookup_insert_ne by (intros E; congruence). by eexists.
  - intros c k [[<- <-]|[_ Hc]]%lookup_insert_Some; [|by apply Hr, (fo_rooted _ Hm _ _ Hc)].
    apply (rooted_up _ _ n); [by rewrite lookup_insert_eq|]. rewrite Hp. constructor.
Qed.

(** The references from elsewhere, changed at one object. *)
Definition ext_set (ext : Z → Z) (x e : Z) : Z → Z := λ y, if decide (y = x) then e else ext y.

Lemma app_refs_ok ext s x w e :
  scene_ok ext s → scene_views s !! x = Some w → refs_fit e →
  scene_ok (ext_set ext x e) (set_ref_counts (<[x := refs_with e (superview w)]> (ref_counts s)) s).
Proof.
  intros Hok Hx He. split; cbn [set_ref_counts scene_views scene_layers ref_counts]; try apply Hok; unfold ext_set.
  - intros v k Hv. destruct (decide (v = x)) as [->|]; [rewrite lookup_insert_eq; by simplify_eq|].
    rewrite lookup_insert_ne by done. by apply Hok.
  - intros y l Hy. destruct (decide (y = x)) as [->|]; [by rewrite (so_apart _ _ Hok _ _ Hx) in Hy|].
    rewrite lookup_insert_ne by done. by apply Hok.
  - intros y. case_decide; [done|apply Hok].
Qed.

(** A new view with its layer. *)
Definition new_view (this layer : Z) (s : Scene) : outcome Scene := init_common this layer (view_alloc this s).
Definition fresh (x : Z) (s : Scene) : Prop := x ≠ 0 ∧ scene_views s !! x = None ∧ scene_layers s !! x = None.
Definition with_new (this layer : Z) (s : Scene) : Scene :=
  mkScene (<[layer := mkLayer [] 0]> (scene_layers s)) (<[this := mkView layer [] 0 0 0]> (scene_views s))
    (<[layer := 1]> (<[this := 1]> (ref_counts s))) (all_views s ++ [this]).

Lemma new_view_eq this layer s : new_view this layer s = Ret (with_new this layer s).
Proof.
  unfold new_view, init_common, borrow_view, layer_alloc, view_alloc, put_layer, put_view, set_ref_counts.
  cbn [scene_views scene_layers ref_counts all_views]. rewrite lookup_insert_eq. cbn [unwrap mbind outcome_bind].
  unfold with_new, set_all_views. cbn [scene_views scene_layers ref_counts all_views]. by rewrite insert_insert_eq.
Qed.

Lemma layer_of_new V this w v : v ≠ this → layer_of (<[this := w]> V) v = layer_of V v.
Proof. intros Hne. unfold layer_of. by rewrite lookup_insert_ne. Qed.

Lemma mirror_new V L this layer :
  forest_ok V → mirror V L → V !! this = None → L !! layer = None → this ≠ 0 →
  mirror (<[this := mkView layer [] 0 0 0]> V) (<[layer := mkLayer [] 0]> L).
Proof.
  intros HV Hm Ht Hl H0. split.
  - intros v w [[<- <-]|[Hne Hv]]%lookup_insert_Some.
    + exists (mkLayer [] 0). cbn [view_layer subviews superview]. rewrite lookup_insert_eq. split; [done|]. split; [done|].
      cbn [superlayer]. by rewrite layer_of_new, layer_of_nil.
    + destruct (mi_layer _ _ Hm _ _ Hv) as (l & Hl' & Hs & Hp). exists l.
      rewrite lookup_insert_ne by (intros E; congruence). split; [done|]. rewrite Hs, Hp. split.
      * apply list_fmap_ext. intros i y Hy%list_elem_of_lookup_2. symmetry. apply layer_of_new. intros ->.
        apply (fo_kids _ HV _ _ this Hv) in Hy as (k & Hk & _). congruence.
      * symmetry. apply layer_of_new. intros E. destruct (fo_parent _ HV _ _ Hv) as [E'|[k Hk]]; cbn [parent view_node] in *; congruence.
  - intros v w v' w' Hv Hv' E. apply lookup_insert_Some in Hv as [[<- <-]|[_ Hv]], Hv' as [[<- <-]|[_ Hv']]; cbn [view_layer] in E.
    + done.
    + destruct (mi_layer _ _ Hm _ _ Hv') as (l & Hl' & _). congruence.
    + destruct (mi_layer _ _ Hm _ _ Hv) as (l & Hl' & _). congruence.
    + by eapply (mi_inj _ _ Hm).
Qed.

Lemma with_new_ok ext s this layer :
  scene_ok ext s → fresh this s → fresh layer s → this ≠ layer →
  scene_ok (ext_set (ext_set ext this 1) layer 1) (with_new this layer s).
Proof.
  intros Hok (Ht0 & Htv & Htl) (Hl0 & Hlv & Hll) Hne. unfold with_new, ext_set.
  split; cbn [scene_views scene_layers ref_counts all_views].
  - apply forest_new; try done. apply Hok.
  - apply forest_new; try done. apply Hok.
  - apply mirror_new; try done; apply Hok.
  - intros v w [[<- <-]|[Hv Hw]]%lookup_insert_Some.
    + rewrite lookup_insert_ne, lookup_insert_eq by done. rewrite decide_False, decide_True by done. done.
    + assert (v ≠ layer) by congruence. rewrite !lookup_insert_ne by done. rewrite !decide_False by done. by apply Hok.
  - intros y l [[<- <-]|[Hy Hw]]%lookup_insert_Some.
    + rewrite lookup_insert_eq. by rewrite decide_True.
    + assert (y ≠ this) by congruence. rewrite !lookup_insert_ne by done. rewrite !decide_False by done. by apply Hok.
  - intros y. repeat case_decide; try apply Hok; done.
  - intros v w [[<- <-]|[Hv Hw]]%lookup_insert_Some; [by rewrite lookup_insert_ne|].
    rewrite lookup_insert_ne by congruence. by eapply Hok.
Qed.

(** ** Reachable scenes *)

Definition empty_scene : Scene := mkScene ∅ ∅ ∅ [].
(** [scene_run s t]: an app came to the scene [s] by making views, retaining and releasing them (a
    release that is not the last) and moving them, where a tree of ordered lists came to [t]. *)
Inductive scene_run : (Z → Z) → Scene → gmap Z (list Z) → Prop :=
| run_start : scene_run (λ _, 1) empty_scene ∅
| run_new ext s t this layer s' :
    scene_run ext s t → fresh this s → fresh layer s → this ≠ layer → new_view this layer s = Ret s' →
    scene_run (ext_set (ext_set ext this 1) layer 1) s' (<[this := []]> t)
| run_retain ext s t x s' :
    scene_run ext s t → x ∈ dom t → refs_fit (ext x + 1) → hretain x s = Ret s' → scene_run (ext_set ext x (ext x + 1)) s' t
| run_release ext s t x s' :
    scene_run ext s t → x ∈ dom t → 1 < ext x → hrelease x s = Ret s' → scene_run (ext_set ext x (ext x - 1)) s' t
| run_move ext s t op s' :
    scene_run ext s t → valid_view_op t op → run_view_op op s = Ret s' → scene_run ext s' (tree_op op t).

Lemma view_tree_new this layer s : view_tree (with_new this layer s) = <[this := []]> (view_tree s).
Proof. unfold view_tree, with_new. cbn [scene_views]. by rewrite fmap_insert. Qed.

Lemma scene_run_ok ext s t : scene_run ext s t → scene_ok ext s ∧ view_tree s = t.
Proof.
  induction 1 as [|ext s t this layer s' _ [Hok Ht] H1 H2 Hne E|ext s t x s' _ [Hok Ht] Hx Hf E|ext s t x s' _ [Hok Ht] Hx Hf E
    |ext s t op s' _ [Hok Ht] Hv E].
  - split; [|apply fmap_empty]. by split.
  - rewrite new_view_eq in E. injection E as <-. split; [by apply with_new_ok|]. by rewrite view_tree_new, Ht.
  - subst t. apply view_in_tree in Hx as [w Hw]. pose proof (so_view_refs _ _ Hok _ _ Hw) as Hr.
    rewrite (hretain_eq _ _ _ Hr) in E by apply refs_with_bounds, Hok. injection E as <-. split; [|done].
    pose proof (app_refs_ok ext s x w (ext x + 1) Hok Hw Hf) as H.
    by replace (refs_with (ext x) (superview w) + 1) with (refs_with (ext x + 1) (superview w)) by (unfold refs_with; lia).
  - subst t. apply view_in_tree in Hx as [w Hw]. pose proof (so_view_refs _ _ Hok _ _ Hw) as Hr. pose proof (so_fit _ _ Hok x) as Hfit.
    rewrite (hrelease_shared _ _ _ Hr) in E by (unfold refs_with; destruct (superview w =? 0); lia). injection E as <-. split; [|done].
    pose proof (app_refs_ok ext s x w (ext x - 1) Hok Hw) as H.
    replace (refs_with (ext x) (superview w) - 1) with (refs_with (ext x - 1) (superview w)) by (unfold refs_with; lia).
    apply H. unfold refs_fit in *. lia.
  - subst t. destruct (view_op_refines ext s op Hok Hv) as (s1 & E1 & Hok1 & Ht1). rewrite E1 in E. by injection E as <-.
Qed.

Lemma not_above_root t x p : map_Forall (λ _ l, p ∉ l) t → x ≠ p → ¬ above t x p.
Proof.
  intros Hr Hne Ha. inversion Ha as [|q v Hq]; subst; [done|]. unfold children in Hq.
  destruct (t !! q) as [l|] eqn:El; [by apply (Hr _ _ El)|by apply elem_of_nil in Hq].
Qed.
Ltac valid_op :=
  repeat split; try (apply elem_of_dom; eexists; vm_compute; reflexivity);
  try (apply not_above_root; [refine (bool_decide_unpack _ _); vm_compute; exact I|lia]); try lia;
  try (refine (bool_decide_unpack _ _); vm_compute; exact I).

(** Three views; 2 and 3 become subviews of 1, and 3 is put behind 2. *)
Definition example_scene : Scene := with_new 3 13 (with_new 2 12 (with_new 1 11 empty_scene)).
Lemma example_scene_run : ∃ ext, scene_run ext example_scene (<[3 := []]> (<[2 := []]> (<[1 := []]> ∅))).
Proof.
  eexists. unfold example_scene.
  do 3 (eapply run_new; cycle 4; [apply new_view_eq| |split; [lia|split; reflexivity]|split; [lia|split; reflexivity]|lia]).
  apply run_start.
Qed.

(** A layer that is a sublayer already is sent [bringSublayerToFront:], which [CALayer] does not have. *)
Lemma addSublayer_again s p x l : scene_layers s !! x = Some l → superlayer l = p → addSublayer p x s = Panic.
Proof. intros Hx Hp. unfold addSublayer, borrow_layer. rewrite Hx. cbn [unwrap mbind outcome_bind]. by rewrite Hp, Z.eqb_refl. Qed.
