(* ===== verification/LayerConversion.v ===== *)
(** * Conversion between the coordinates of two layers ([frameworks/core_animation/ca_layer.rs])

    [transform_for_conversion] climbs from both layers in turn until one side gets to a layer the
    other has been at.  The matrices are those of the layers' geometry, with any product. *)

From S2P Require Import Prelude Hierarchy HierarchyFacts.

Section heights.
Context {N : Type} `{Node N} (m : gmap Z N).
(** [x] has [n] nodes from it up to the root. *)
Inductive height : Z → nat → Prop :=
| height_nil : height 0 0
| height_up x n k : m !! x = Some n → height (parent n) k → height x (S k).

Lemma height_zero x : height x 0 → x = 0.
Proof. by inversion 1. Qed.
Lemma rooted_height x : rooted m x → ∃ n, height x n.
Proof. induction 1 as [|x n Hx _ [k IH]]; eauto using height. Qed.

Lemma height_path x n : forest_ok m → height x n →
  ∃ l, length l = n ∧ NoDup l ∧ ∀ y, y ∈ l → y ∈ dom m ∧ ancestor m y x.
Proof.
  intros Hm. induction 1 as [|x k n Hx _ (l & Hl & Hnd & Hin)].
  - exists []. split; [done|]. split; [constructor|]. by intros y ?%elem_of_nil.
  - exists (x :: l). split; [simpl; by rewrite Hl|]. split.
    + apply NoDup_cons. split; [|done]. intros [_ Ha]%Hin. by apply (no_cycle _ _ _ Hm Hx).
    + intros y [->|Hy]%elem_of_cons.
      * split; [by apply elem_of_dom|constructor].
      * apply Hin in Hy as [??]. split; [done|]. by eapply ancestor_up.
Qed.
Lemma height_size x n : forest_ok m → height x n → (n ≤ size m)%nat.
Proof.
  intros Hm Hx. destruct (height_path _ _ Hm Hx) as (l & <- & Hnd & Hin).
  rewrite <-size_dom, <-(size_list_to_set (C := gset Z) l) by done. apply subseteq_size. intros y Hy%elem_of_list_to_set.
  by apply Hin.
Qed.

(** A way to see that a map is a forest: the parent of a node lists it, and has a smaller rank. *)
Definition node_check (rank : Z → nat) (p : Z) (n : N) : Prop :=
  NoDup (kids n) ∧ Forall (λ c, parent <$> m !! c = Some p) (kids n) ∧
  (parent n = 0 ∨ p ∈ default [] (kids <$> m !! parent n) ∧ (rank (parent n) < rank p)%nat).
#[global] Instance node_check_dec rank p n : Decision (node_check rank p n).
Proof. unfold node_check. apply _. Defined.
Lemma forest_by_rank rank : m !! 0 = None → map_Forall (node_check rank) m → forest_ok m.
Proof.
  intros H0 Hc. split; [done| | | |].
  - intros p n Hn. by apply Hc in Hn as [? _].
  - intros p n c Hn. split.
    + intros Hk. destruct (Hc _ _ Hn) as (_ & Hf & _). rewrite Forall_forall in Hf. apply Hf, fmap_Some in Hk as (k & ? & ->). eauto.
    + intros (k & Hk & <-). destruct (Hc _ _ Hk) as (_ & _ & [E|[Hin _]]); [by rewrite E, H0 in Hn|]. by rewrite Hn in Hin.
  - intros c k Hk. destruct (Hc _ _ Hk) as (_ & _ & [E|[Hin _]]); [by left|right].
    destruct (m !! parent k); [by eexists|by apply elem_of_nil in Hin].
  - assert (Hr : ∀ r c k, (rank c < r)%nat → m !! c = Some k → rooted m c).
    { induction r as [|r IH]; intros c k Hlt Hk; [lia|]. apply (rooted_up _ _ k Hk).
      destruct (Hc _ _ Hk) as (_ & _ & [->|[Hin Hlt']]); [constructor|].
      destruct (m !! parent k) as [q|] eqn:Eq; [|by apply elem_of_nil in Hin]. apply (IH _ q); [lia|done]. }
    intros c k. apply (Hr (S (rank c))). lia.
Qed.
End heights.

Section conversion.
Context {T : Type} (identity : T) (concat_t : T → T → T) (layer_transform : Z → T) (s : Scene).
Let L := scene_layers s.
Hypothesis HL : forest_ok L.

(** [t] is the product of the matrices of the layers from [x] up to, and without, [a]. *)
Inductive climbs (x : Z) : Z → T → Prop :=
| climbs_start : climbs x x identity
| climbs_up y l t : climbs x y t → L !! y = Some l → climbs x (superlayer l) (concat_t t (layer_transform y)).

(** What a side knows: the map has what was climbed, the rest is above. *)
Record side_ok (x : Z) (d : Side (T := T)) : Prop := {
  sd_here : climbs x (side_layer d) (side_transform d);
  sd_valid : side_layer d = 0 ∨ is_Some (L !! side_layer d);
  sd_map y t : side_map d !! y = Some t → climbs x y t }.
(** The map has every layer below; only when a common ancestor is looked for. *)
Definition side_full (x : Z) (d : Side (T := T)) : Prop :=
  ∀ c, c ≠ 0 → ancestor L c x → is_Some (side_map d !! c) ∨ ancestor L c (side_layer d).
Definition side_has (d : Side (T := T)) : Prop := side_layer d ≠ 0 → is_Some (side_map d !! side_layer d).

Lemma side_new_ok x : x = 0 ∨ is_Some (L !! x) → side_ok x (Side_new identity x) ∧ side_full x (Side_new identity x) ∧ side_has (Side_new identity x).
Proof.
  intros Hx. split; [split; cbn [Side_new side_layer side_transform side_map]|split].
  - constructor.
  - done.
  - intros y t [<- <-]%lookup_singleton_Some. constructor.
  - intros c _ Hc. by right.
  - intros _. unfold Side_new. cbn [side_map side_layer]. by rewrite lookup_singleton_eq.
Qed.

(** The two sides together: they have no layer in common but where both start. *)
Record sides_ok (need : bool) (x y : Z) (a b : Side (T := T)) : Prop := {
  so_a : side_ok x a;
  so_b : side_ok y b;
  so_full : need = true → (side_full x a ∧ side_has a) ∧ (side_full y b ∧ side_has b);
  so_apart : need = true → ∀ c, is_Some (side_map a !! c) → is_Some (side_map b !! c) → c = x ∧ c = y }.

Lemma sides_swap need x y a b : sides_ok need x y a b → sides_ok need y x b a.
Proof. intros [Ha Hb Hf Hd]. split; [done|done|naive_solver|]. intros Hn c ??. by destruct (Hd Hn c) as [-> ->]. Qed.

Lemma side_ok_up x (d : Side (T := T)) l mp :
  side_ok x d → L !! side_layer d = Some l → (∀ y t, mp !! y = Some t → climbs x y t) →
  side_ok x (mkSide mp (superlayer l) (concat_t (side_transform d) (layer_transform (side_layer d)))).
Proof.
  intros Hd Hl Hmp. split; cbn [side_layer side_transform side_map]; [|by apply (fo_parent _ HL _ _ Hl)|done].
  apply climbs_up; [apply (sd_here _ _ Hd)|done].
Qed.

Lemma side_full_up x (d : Side (T := T)) l mp t :
  side_full x d → side_has d → L !! side_layer d = Some l → side_layer d ≠ 0 → (∀ c, is_Some (side_map d !! c) → is_Some (mp !! c)) →
  side_full x (mkSide mp (superlayer l) t).
Proof.
  intros Hf Hh Hl H0 Hmp c Hc Ha. cbn [side_map side_layer]. destruct (Hf c Hc Ha) as [?|Hcur]; [left; by apply Hmp|].
  inversion Hcur as [|? k' Hk' Hc']; subst; [left; by apply Hmp, Hh|]. right. by simplify_eq.
Qed.

Lemma side_step_spec need x y a b h :
  sides_ok need x y a b → height L (side_layer a) h →
  match side_step concat_t layer_transform need a b s with
  | Ret (inl a') => sides_ok need x y a' b ∧ height L (side_layer a') (pred h)
  | Ret (inr (c, t, t')) => c ≠ 0 ∧ climbs x c t ∧ climbs y c t'
  | Panic => False
  end.
Proof.
  intros Hs Hh. unfold side_step. destruct (Z.eqb_spec (side_layer a) 0) as [E|E].
  { split; [done|]. rewrite E in Hh |- *. inversion Hh as [|? ? ? Hn]; subst; [done|]. by rewrite (fo_nil _ HL) in Hn. }
  inversion Hh as [|cur l k Hl Hk]; subst; [done|]. fold L in Hl. cbn [parent layer_node] in Hk.
  unfold borrow_layer. fold L. rewrite Hl. cbn [unwrap mbind outcome_bind pred].
  pose proof (climbs_up _ _ _ _ (sd_here _ _ (so_a _ _ _ _ _ Hs)) Hl) as Hup.
  destruct (need && negb (superlayer l =? 0)) eqn:En.
  - apply andb_true_iff in En as [-> Hn0%negb_true_iff%Z.eqb_neq].
    destruct (side_map b !! superlayer l) as [t'|] eqn:Eb.
    { split; [done|]. split; [done|]. by apply (sd_map _ _ (so_b _ _ _ _ _ Hs)). }
    split; [|done]. destruct (so_full _ _ _ _ _ Hs eq_refl) as [[Hfa Hha] Hfb]. split.
    + apply side_ok_up; [apply (so_a _ _ _ _ _ Hs)|done|]. intros z t Hz.
      apply lookup_insert_Some in Hz as [[<- <-]|[_ Hz]]; [done|]. by apply (sd_map _ _ (so_a _ _ _ _ _ Hs)).
    + apply (so_b _ _ _ _ _ Hs).
    + intros _. split; [|done]. split.
      * apply (side_full_up x a); try done. intros c ?.
        destruct (decide (c = superlayer l)) as [->|]; [by rewrite lookup_insert_eq|by rewrite lookup_insert_ne].
      * intros _. cbn [side_map side_layer]. by rewrite lookup_insert_eq.
    + intros _ c. cbn [side_map]. destruct (decide (c = superlayer l)) as [->|].
      * intros _ [? Hc]. by rewrite Eb in Hc.
      * rewrite lookup_insert_ne by done. by apply (so_apart _ _ _ _ _ Hs).
  - split; [|done]. split.
    + apply side_ok_up; [apply (so_a _ _ _ _ _ Hs)|done|apply (sd_map _ _ (so_a _ _ _ _ _ Hs))].
    + apply (so_b _ _ _ _ _ Hs).
    + intros ->. destruct (so_full _ _ _ _ _ Hs eq_refl) as [[Hfa Hha] Hfb]. apply andb_false_iff in En as [?|Hn0%negb_false_iff%Z.eqb_eq]; [done|].
      split; [|done]. split; [by apply (side_full_up x a)|]. intros E0. by rewrite Hn0 in E0.
    + apply (so_apart _ _ _ _ _ Hs).
Qed.

(** What the loop ends with: a layer above both, or none when there is none. *)
Definition common (x y : Z) (r : Z * T * T) : Prop :=
  let '(a, t1, t2) := r in
  climbs x a t1 ∧ climbs y a t2 ∧ (a = 0 → ∀ c, c ≠ 0 → ancestor L c x → ancestor L c y → c = x ∧ c = y).

Lemma sides_done need x y a b :
  sides_ok need x y a b → need = negb (x =? 0) && negb (y =? 0) → side_layer a = 0 → side_layer b = 0 →
  common x y (0, side_transform a, side_transform b).
Proof.
  intros Hs Hn Ea Eb. split; [|split].
  - rewrite <-Ea. apply (sd_here _ _ (so_a _ _ _ _ _ Hs)).
  - rewrite <-Eb. apply (sd_here _ _ (so_b _ _ _ _ _ Hs)).
  - intros _ c Hc Hx Hy. pose proof (ancestor_nil L c (fo_nil _ HL)) as Hz. destruct need.
    + destruct (so_full _ _ _ _ _ Hs eq_refl) as [[Hfa _] [Hfb _]]. apply (so_apart _ _ _ _ _ Hs eq_refl).
      * destruct (Hfa c Hc Hx) as [?|Ha]; [done|]. rewrite Ea in Ha. by apply Hz in Ha.
      * destruct (Hfb c Hc Hy) as [?|Ha]; [done|]. rewrite Eb in Ha. by apply Hz in Ha.
    + destruct (Z.eqb_spec x 0) as [->|]; [by apply Hz in Hx|]. destruct (Z.eqb_spec y 0) as [->|]; [by apply Hz in Hy|done].
Qed.

Lemma conversion_loop need x y n a b ha hb :
  sides_ok need x y a b → need = negb (x =? 0) && negb (y =? 0) →
  height L (side_layer a) ha → height L (side_layer b) hb → (ha + hb ≤ n)%nat →
  ∃ k r, iterates (conversion_body concat_t layer_transform need s) k (a, b) (Ret r) ∧ k ≤ Z.of_nat n + 1 ∧ common x y r.
Proof.
  intros Hs Hn. revert a b ha hb Hs. induction n as [n IH] using (well_founded_induction lt_wf). intros a b ha hb Hs Ha Hb Hle.
  assert (Hbody : ∀ r, conversion_body concat_t layer_transform need s (a, b) = Ret (inr r) → common x y r →
    ∃ k r, iterates (conversion_body concat_t layer_transform need s) k (a, b) (Ret r) ∧ k ≤ Z.of_nat n + 1 ∧ common x y r).
  { intros r Er Hc. exists 1, r. split; [by constructor|]. split; [lia|done]. }
  pose proof (side_step_spec need x y a b ha Hs Ha) as H1. unfold conversion_body in Hbody at 1.
  destruct (side_step _ _ need a b s) as [[a'|[[c t] t']]|] eqn:E1; [| |done]; cbn [mbind outcome_bind] in Hbody.
  2: { destruct H1 as (? & ? & ?). by apply (Hbody _ eq_refl). }
  destruct H1 as [Hs1 Ha']. pose proof (side_step_spec need y x b a' hb (sides_swap _ _ _ _ _ Hs1) Hb) as H2.
  destruct (side_step _ _ need b a' s) as [[b'|[[c t] t']]|] eqn:E2; [| |done]; cbn [mbind outcome_bind] in Hbody.
  2: { destruct H2 as (? & ? & ?). by apply (Hbody _ eq_refl). }
  destruct H2 as [Hs2%sides_swap Hb']. destruct ((side_layer a' =? 0) && (side_layer b' =? 0)) eqn:E0.
  { apply andb_true_iff in E0 as [Ea%Z.eqb_eq Eb%Z.eqb_eq]. by apply (Hbody _ eq_refl), (sides_done need). }
  assert (Hlt : (pred ha + pred hb < ha + hb)%nat).
  { destruct ha, hb; try lia. apply height_zero in Ha', Hb'. by rewrite Ha', Hb' in E0. }
  destruct (IH (pred ha + pred hb)%nat) with (a := a') (b := b') (ha := pred ha) (hb := pred hb) as (k & r & Hk & Hkn & Hr); try done; [lia|].
  exists (k + 1), r. split; [|split; [lia|done]]. apply (iterates_step _ _ _ (a', b')); [|done].
  unfold conversion_body. rewrite E1. cbn [mbind outcome_bind]. rewrite E2. cbn [mbind outcome_bind]. by rewrite E0.
Qed.
End conversion.

(** [transform_for_conversion] finds a common ancestor.  In a forest of layers, for two
    layers (one of them may be nil), the search ends; it stops at a layer [a] to which both sides climb, and the
    result is the product of the other side's matrices up to [a] with the inverse of the product of
    this side's; [a] is nil only if no layer is above both (but a root that is on both sides). *)
Theorem conversion_correct {T : Type} (identity : T) (concat_t : T → T → T) (invert : T → T) (layer_transform : Z → T) s this other :
  forest_ok (scene_layers s) → Z.of_nat (size (scene_layers s)) < U32_MOD →
  this = 0 ∨ is_Some (scene_layers s !! this) → other = 0 ∨ is_Some (scene_layers s !! other) → ¬ (this = 0 ∧ other = 0) →
  ∃ a t1 t2, transform_for_conversion identity concat_t invert layer_transform this other s = Ret (concat_t t2 (invert t1)) ∧
    common identity concat_t layer_transform s this other (a, t1, t2).
Proof.
  intros HL Hsz Ht Ho Hn. set (need := negb (this =? 0) && negb (other =? 0)).
  assert (Hh : ∀ x, x = 0 ∨ is_Some (scene_layers s !! x) → ∃ h, height (scene_layers s) x h ∧ (h ≤ size (scene_layers s))%nat).
  { intros x Hx. destruct (rooted_height (scene_layers s) x) as [h Hh]; [|by eauto using height_size].
    destruct Hx as [->|[l Hl]]; [constructor|by apply (fo_rooted _ HL _ _ Hl)]. }
  destruct (Hh _ Ht) as (ha & Ha & Hla), (Hh _ Ho) as (hb & Hb & Hlb).
  destruct (side_new_ok identity concat_t layer_transform s _ Ht) as (Ha1 & Ha2 & Ha3).
  destruct (side_new_ok identity concat_t layer_transform s _ Ho) as (Hb1 & Hb2 & Hb3).
  destruct (conversion_loop identity concat_t layer_transform s HL need this other (ha + hb) (Side_new identity this) (Side_new identity other) ha hb)
    as (k & [[a t1] t2] & Hk & Hkn & Hc); try done.
  { split; try done. unfold Side_new. cbn [side_map]. intros _ c [? [<- _]%lookup_singleton_Some] [? [E _]%lookup_singleton_Some]. done. }
  exists a, t1, t2. split; [|done].   assert (E : loop_end (run_loop 33 (conversion_body concat_t layer_transform need s) (Side_new identity this, Side_new identity other)) = Ret (a, t1, t2)).
  { apply (iterates_loop _ 33 _ _ _ Hk). unfold U32_MOD in Hsz. lia. }
  unfold transform_for_conversion. change (negb (this =? 0) && negb (other =? 0)) with need.
  assert (Hr : rassert (negb ((this =? 0) && (other =? 0))) = Ret ()) by (destruct (Z.eqb_spec this 0), (Z.eqb_spec other 0); naive_solver).
  rewrite Hr, ret_bind, E, ret_bind. reflexivity.
Qed.

Definition example_layers : Scene :=
  mkScene {[1 := mkLayer [2; 3] 0; 2 := mkLayer [] 1; 3 := mkLayer [4] 1; 4 := mkLayer [] 3]} ∅ ∅ [].
Lemma conversion_correct_witness :
  ∃ a t1 t2, common 0 Z.add (λ x, x) example_layers 2 4 (a, t1, t2) ∧ t2 - t1 = 5.
Proof.
  destruct (conversion_correct 0 Z.add Z.opp (λ x, x) example_layers 2 4) as (a & t1 & t2 & E & Hc).
  - apply (forest_by_rank _ Z.to_nat); [done|]. refine (bool_decide_unpack _ _). vm_compute. exact I.
  - done.
  - right. by eexists.
  - right. by eexists.
  - lia.
  - exists a, t1, t2. split; [exact Hc|]. assert (V : transform_for_conversion 0 Z.add Z.opp (λ x, x) 2 4 example_layers = Ret 5) by (vm_compute; reflexivity).
    rewrite V in E. injection E as E. lia.
Defined.
