(* ===== verification/Calendar.v ===== *)
(** * Calendar dates ([libc/time.rs])

    Conversion between UNIX timestamps ([time_t], an [i32]) and broken-down UTC dates,
    with the lookup tables it computes.  A reference count of days, in closed form,
    shows both directions right and inverse to each other. *)

From S2P Require Import Prelude.

(** ** Tables *)

(** [%] of [i32] rounds towards zero. *)
Definition is_leap_year (year : Z) : bool :=
  (Z.rem year 4 =? 0) && (negb (Z.rem year 100 =? 0) || (Z.rem year 400 =? 0)).

Definition year_days (year : Z) : Z := if is_leap_year year then 366 else 365.

Definition CYCLE_YEARS : Z := 400.

(** The loop of [calc_year_to_day], with [n] iterations left. *)
Fixpoint year_to_day_loop (n : nat) (year day : Z) : list Z * Z :=
  match n with
  | O => ([], day)
  | S n' => let '(table, last) := year_to_day_loop n' (year + 1) (day + year_days year) in (day :: table, last)
  end.
Definition calc_year_to_day : list Z * Z := year_to_day_loop (Z.to_nat CYCLE_YEARS) 0 0.
Definition YEAR_TO_DAY : list Z := Eval vm_compute in calc_year_to_day.1.
Definition CYCLE_DAYS : Z := Eval vm_compute in calc_year_to_day.2.

Definition DAYS_IN_MONTH : list Z := [31; 28; 31; 30; 31; 30; 31; 31; 30; 31; 30; 31].

Fixpoint month_to_day_loop (leap_year : bool) (days : list Z) (month day : Z) : list Z :=
  match days with
  | [] => []
  | d :: days' => day :: month_to_day_loop leap_year days' (month + 1) (day + (d + (if leap_year && (month =? 1) then 1 else 0)))
  end.
Definition calc_month_to_day (leap_year : bool) : list Z := month_to_day_loop leap_year DAYS_IN_MONTH 0 0.
Definition MONTH_TO_DAY_NONLEAP : list Z := Eval vm_compute in calc_month_to_day false.
Definition MONTH_TO_DAY_LEAP : list Z := Eval vm_compute in calc_month_to_day true.
Definition month_to_day (leap : bool) : list Z := if leap then MONTH_TO_DAY_LEAP else MONTH_TO_DAY_NONLEAP.

(** [slice.partition_point(|&day| day <= x)] on a sorted slice: where the first
    greater element is. *)
Fixpoint partition_point (x : Z) (l : list Z) : nat :=
  match l with
  | day :: l' => if day <=? x then S (partition_point x l') else O
  | [] => O
  end.

(** [slice[usize::try_from(i).unwrap()]]. *)
Definition index (l : list Z) (i : Z) : outcome Z :=
  if i <? 0 then Panic else unwrap (l !! Z.to_nat i).

(** ** Conversions *)

(** [struct tm]; [tm_zone] is a guest pointer. *)
Record tm := mkTm {
  tm_sec : Z; tm_min : Z; tm_hour : Z; tm_mday : Z; tm_mon : Z; tm_year : Z;
  tm_wday : Z; tm_yday : Z; tm_isdst : Z; tm_gmtoff : Z; tm_zone : Z
}.

Definition MINUTE_SECONDS : Z := 60.
Definition HOUR_SECONDS : Z := MINUTE_SECONDS * 60.
Definition DAY_SECONDS : Z := HOUR_SECONDS * 24.

(** [div_euclid] and [rem_euclid] by a positive number are [Z.div] and [Z.modulo]. *)
Definition timestamp_to_calendar_date (timestamp : Z) : outcome tm :=
  let days_since_unix_epoch := timestamp / DAY_SECONDS in
  let second_in_day := timestamp mod DAY_SECONDS in
  let sec := Z.rem second_in_day MINUTE_SECONDS in
  let min := Z.quot (Z.rem second_in_day HOUR_SECONDS) MINUTE_SECONDS in
  let hour := Z.quot second_in_day HOUR_SECONDS in
  days_since_y2k ← i32 (days_since_unix_epoch - 10957);
  let cycles_since_y2k := days_since_y2k / CYCLE_DAYS in
  let day_in_cycle := days_since_y2k mod CYCLE_DAYS in
  year_in_cycle ← i32 (Z.of_nat (partition_point day_in_cycle YEAR_TO_DAY) - 1);
  c ← i32 (cycles_since_y2k * CYCLE_YEARS);
  y ← i32 (2000 + c);
  year ← i32 (y + year_in_cycle);
  start ← index YEAR_TO_DAY year_in_cycle;
  day_in_year ← i32 (day_in_cycle - start);
  let leap := is_leap_year year_in_cycle in
  rassert (day_in_year <? 365 + (if leap then 1 else 0));;
  month_in_year ← i32 (Z.of_nat (partition_point day_in_year (month_to_day leap)) - 1);
  mstart ← index (month_to_day leap) month_in_year;
  day_in_month ← i32 (day_in_year - mstart);
  mlen ← index DAYS_IN_MONTH month_in_year;
  rassert (day_in_month <? mlen + (if leap then 1 else 0));;
  w ← i32 (4 + days_since_unix_epoch);
  mday ← i32 (day_in_month + 1);
  y1900 ← i32 (year - 1900);
  Ret (mkTm sec min hour mday month_in_year y1900 (w mod 7) day_in_year 0 0 0).

(** The sum of a [for y in a..b] loop. *)
Definition sum_years (f : Z → Z) (a b : Z) : Z := foldl (λ s y, s + f y) 0 (seqZ a (b - a)).

(** The seconds are an [i64], which cannot overflow here ([seconds_in_i64] below). *)
Definition calendar_seconds (year cumul : Z) (t : tm) : Z :=
  let seconds := sum_years (λ y, year_days y * 86400) 1970 year in
  let seconds := seconds + cumul * 86400 in
  let seconds := seconds + (tm_mday t - 1) * 86400 in
  let seconds := seconds + tm_hour t * 3600 in
  let seconds := seconds + tm_min t * 60 in
  let seconds := seconds + tm_sec t in
  if year <? 1970 then seconds - sum_years year_days year 1970 * 86400 else seconds.

Definition calendar_date_to_timestamp (t : tm) : outcome Z :=
  year ← i32 (tm_year t + 1900);
  cumul ← index (month_to_day (is_leap_year year)) (tm_mon t);
  i32 (calendar_seconds year cumul t).

(** [tm::from]: the fields of a [zip] entry's date, [u16] and [u8]. *)
Definition tm_from (year month day hour minute second : Z) : outcome tm :=
  y ← (if year <? 1900 then Panic else Ret (year - 1900));
  m ← (if month <? 1 then Panic else Ret (month - 1));
  Ret (mkTm second minute hour day m y 0 0 0 0 0).

(** ** Reference: counting days *)

(** Days from 2000-01-01 to the first of January of [y] in the Gregorian calendar. *)
Definition days_to_year (y : Z) : Z :=
  let n := y - 2000 in 365 * n + (n + 3) / 4 - (n + 99) / 100 + (n + 399) / 400.

Lemma rem_zero_mod a b : 0 < b → (Z.rem a b =? 0) = (a mod b =? 0).
Proof.
  intros Hb. apply Bool.eq_iff_eq_true. rewrite !Z.eqb_eq, Z.rem_divide, Z.mod_divide by lia. done.
Qed.

Lemma days_to_year_succ y : days_to_year (y + 1) = days_to_year y + year_days y.
Proof.
  unfold days_to_year, year_days, is_leap_year. rewrite !rem_zero_mod by lia.
  destruct (Z.eqb_spec (y mod 4) 0), (Z.eqb_spec (y mod 100) 0), (Z.eqb_spec (y mod 400) 0); simpl;
    Z.to_euclidean_division_equations; lia.
Qed.

Lemma days_to_year_cycle c k : days_to_year (2000 + c * 400 + k) = c * CYCLE_DAYS + days_to_year (2000 + k).
Proof.
  unfold days_to_year, CYCLE_DAYS. Z.to_euclidean_division_equations; lia.
Qed.

Lemma is_leap_year_cycle c k : is_leap_year (2000 + c * 400 + k) = is_leap_year k.
Proof.
  unfold is_leap_year. rewrite !rem_zero_mod by lia.
  assert ((2000 + c * 400 + k) mod 4 = k mod 4) as -> by (Z.to_euclidean_division_equations; lia).
  assert ((2000 + c * 400 + k) mod 100 = k mod 100) as -> by (Z.to_euclidean_division_equations; lia).
  by assert ((2000 + c * 400 + k) mod 400 = k mod 400) as -> by (Z.to_euclidean_division_equations; lia).
Qed.

(** The tables count days. *)
Lemma year_table : YEAR_TO_DAY = (λ k, days_to_year (2000 + k)) <$> seqZ 0 400.
Proof. vm_compute. reflexivity. Qed.

Lemma year_table_lookup k : 0 ≤ k < 400 → YEAR_TO_DAY !! Z.to_nat k = Some (days_to_year (2000 + k)).
Proof.
  intros Hk. rewrite year_table, list_lookup_fmap, lookup_seqZ_lt by lia. simpl. do 3 f_equal. lia.
Qed.

Lemma year_days_positive y : 365 ≤ year_days y ≤ 366.
Proof. unfold year_days. destruct (is_leap_year y); lia. Qed.

Lemma days_to_year_mono y y' : y ≤ y' → days_to_year y + 365 * (y' - y) ≤ days_to_year y'.
Proof.
  intros H. replace y' with (y + Z.of_nat (Z.to_nat (y' - y))) by lia. generalize (Z.to_nat (y' - y)). intros n.
  induction n as [|n IH]; [rewrite Z.add_0_r; lia|].
  replace (y + Z.of_nat (S n)) with (y + Z.of_nat n + 1) by lia. rewrite days_to_year_succ.
  pose proof (year_days_positive (y + Z.of_nat n)). lia.
Qed.

(** A [for] loop over years telescopes. *)
Lemma sum_years_telescope g f a b :
  a ≤ b → (∀ y, g (y + 1) = g y + f y) → sum_years f a b = g b - g a.
Proof.
  intros Hab Hg. unfold sum_years. replace b with (a + Z.of_nat (Z.to_nat (b - a))) by lia.
  generalize (Z.to_nat (b - a)). intros n. replace (a + Z.of_nat n - a) with (Z.of_nat n) by lia.
  induction n as [|n IH]; [rewrite seqZ_nil by lia; simpl; rewrite Z.add_0_r; lia|].
  rewrite Nat2Z.inj_succ, <- Z.add_1_r, seqZ_app by lia. rewrite foldl_app, IH.
  change (seqZ (a + Z.of_nat n) 1) with [a + Z.of_nat n]. simpl.
  replace (a + (Z.of_nat n + 1)) with (a + Z.of_nat n + 1) by lia. rewrite Hg. lia.
Qed.

Lemma sum_years_empty f a b : b ≤ a → sum_years f a b = 0.
Proof. intros. unfold sum_years. by rewrite seqZ_nil by lia. Qed.

(** The first of January 1970 is 10957 days before 2000. *)
Lemma calendar_seconds_spec year cumul t :
  calendar_seconds year cumul t =
    (days_to_year year + 10957 + cumul + (tm_mday t - 1)) * 86400 + tm_hour t * 3600 + tm_min t * 60 + tm_sec t.
Proof.
  assert (days_to_year 1970 = -10957) as H70 by reflexivity.
  assert (∀ y, days_to_year (y + 1) * 86400 = days_to_year y * 86400 + year_days y * 86400) as Hs.
  { intros y. rewrite days_to_year_succ. lia. }
  unfold calendar_seconds. destruct (Z.ltb_spec year 1970).
  - rewrite (sum_years_empty _ 1970) by lia.
    rewrite (sum_years_telescope days_to_year) by (try lia; apply days_to_year_succ). lia.
  - rewrite (sum_years_telescope (λ y, days_to_year y * 86400)) by (done || lia). lia.
Qed.

(** ** Searching the tables *)

Lemma partition_point_spec x l :
  (partition_point x l ≤ length l)%nat ∧
  (∀ i d, (i < partition_point x l)%nat → l !! i = Some d → d ≤ x) ∧
  (∀ d, l !! partition_point x l = Some d → x < d).
Proof.
  induction l as [|a l (IH1 & IH2 & IH3)]; simpl; [split_and!; [lia|intros; lia|done]|].
  destruct (Z.leb_spec a x).
  - split_and!; [lia| |done]. intros [|i] d Hi; simpl; [by intros [= <-]|]. apply IH2. lia.
  - split_and!; [lia|intros; lia|by intros d [= <-]].
Qed.

Definition increasing (l : list Z) : Prop :=
  ∀ i j a b, (i ≤ j)%nat → l !! i = Some a → l !! j = Some b → a ≤ b.

Lemma partition_point_unique x l k a :
  increasing l → l !! k = Some a → a ≤ x → (∀ b, l !! S k = Some b → x < b) → partition_point x l = S k.
Proof.
  intros Hinc Hk Ha Hb. destruct (partition_point_spec x l) as (Hle & Hbelow & Habove).
  set (n := partition_point x l) in *. apply lookup_lt_Some in Hk as Hlen.
  destruct (lt_eq_lt_dec n (S k)) as [[H|H]|H]; [|done|]; exfalso.
  - destruct (lookup_lt_is_Some_2 l n) as [d Hd]; [lia|]. pose proof (Habove d Hd).
    pose proof (Hinc n k d a ltac:(lia) Hd Hk). lia.
  - destruct (lookup_lt_is_Some_2 l (S k)) as [d Hd]; [lia|]. pose proof (Hb d Hd).
    pose proof (Hbelow (S k) d H Hd). lia.
Qed.

Lemma year_table_increasing : increasing YEAR_TO_DAY.
Proof.
  intros i j a b Hij Ha Hb. rewrite year_table, list_lookup_fmap in Ha, Hb.
  apply fmap_Some in Ha as (k & Hk & ->). apply fmap_Some in Hb as (k' & Hk' & ->).
  apply lookup_seqZ in Hk, Hk'. pose proof (days_to_year_mono (2000 + k) (2000 + k')). lia.
Qed.

(** Days in a month, and days of the year before it. *)
Definition month_days (leap : bool) (m : Z) : Z :=
  default 0 (DAYS_IN_MONTH !! Z.to_nat m) + (if leap && (m =? 1) then 1 else 0).
Definition month_start (leap : bool) (m : Z) : Z := default 0 (month_to_day leap !! Z.to_nat m).

(** The twelve months, one at a time. *)
Ltac twelve m := 
  assert (m = 0 ∨ m = 1 ∨ m = 2 ∨ m = 3 ∨ m = 4 ∨ m = 5 ∨ m = 6 ∨ m = 7 ∨ m = 8 ∨ m = 9 ∨ m = 10 ∨ m = 11) as Hm12 by lia;
  destruct_or! Hm12; subst m.

Lemma month_table leap m : 0 ≤ m < 12 →
  month_to_day leap !! Z.to_nat m = Some (month_start leap m) ∧
  DAYS_IN_MONTH !! Z.to_nat m = Some (month_days false m) ∧
  month_days false m ≤ month_days leap m ≤ month_days false m + (if leap then 1 else 0) ∧
  1 ≤ month_days leap m ∧ 0 ≤ month_start leap m ∧
  month_start leap m + month_days leap m =
    (if m =? 11 then 365 + (if leap then 1 else 0) else month_start leap (m + 1)) ∧
  month_start leap m + month_days leap m ≤ 365 + (if leap then 1 else 0).
Proof. intros Hm. twelve m; destruct leap; vm_compute; intuition congruence. Qed.

Lemma month_table_increasing leap : increasing (month_to_day leap).
Proof.
  intros i j a b Hij Ha Hb. apply lookup_lt_Some in Hb as Hj. apply lookup_lt_Some in Ha as Hi.
  assert (length (month_to_day leap) = 12%nat) as Hl by (by destruct leap). rewrite Hl in *.
  assert (∀ k : nat, (i + k < 12)%nat → ∀ c, month_to_day leap !! (i + k)%nat = Some c → a ≤ c) as H.
  { induction k as [|k IH]; intros Hk c Hc; [rewrite Nat.add_0_r in Hc; assert (a = c) by congruence; lia|].
    destruct (month_table leap (Z.of_nat (i + k))) as (E & _ & _ & Hd & _ & Hn & _); [lia|].
    rewrite Nat2Z.id in E. specialize (IH ltac:(lia) _ E).
    destruct (Z.eqb_spec (Z.of_nat (i + k)) 11); [lia|].
    destruct (month_table leap (Z.of_nat (i + k) + 1)) as (E' & _); [lia|].
    replace (Z.to_nat (Z.of_nat (i + k) + 1)) with (i + S k)%nat in E' by lia.
    rewrite E' in Hc. injection Hc as <-. lia. }
  apply (H (j - i)%nat); [lia|]. by replace (i + (j - i))%nat with j by lia.
Qed.

(** ** Both directions against the reference *)

Definition valid_date (y m d h mi s : Z) : Prop :=
  0 ≤ m < 12 ∧ 1 ≤ d ≤ month_days (is_leap_year y) m ∧ 0 ≤ h < 24 ∧ 0 ≤ mi < 60 ∧ 0 ≤ s < 60.
Definition year_day (y m d : Z) : Z := month_start (is_leap_year y) m + (d - 1).
Definition unix_time (y m d h mi s : Z) : Z :=
  (days_to_year y + 10957 + year_day y m d) * 86400 + h * 3600 + mi * 60 + s.

Lemma year_day_range y m d h mi s : valid_date y m d h mi s → 0 ≤ year_day y m d < year_days y.
Proof.
  intros (Hm & Hd & _). destruct (month_table (is_leap_year y) m Hm) as (_ & _ & _ & _ & H0 & _ & Hle).
  unfold year_day, year_days. destruct (is_leap_year y); lia.
Qed.

(** The clock part. *)
Lemma unix_time_split y m d h mi s :
  valid_date y m d h mi s →
  unix_time y m d h mi s / DAY_SECONDS = days_to_year y + 10957 + year_day y m d ∧
  unix_time y m d h mi s mod DAY_SECONDS = h * 3600 + mi * 60 + s.
Proof.
  intros (_ & _ & Hh & Hmi & Hs). unfold unix_time, DAY_SECONDS, HOUR_SECONDS, MINUTE_SECONDS.
  generalize (days_to_year y + 10957 + year_day y m d). intros D.
  Z.to_euclidean_division_equations; lia.
Qed.

Lemma clock_split h mi s :
  0 ≤ h < 24 → 0 ≤ mi < 60 → 0 ≤ s < 60 →
  let x := h * 3600 + mi * 60 + s in
  Z.rem x MINUTE_SECONDS = s ∧ Z.quot (Z.rem x HOUR_SECONDS) MINUTE_SECONDS = mi ∧ Z.quot x HOUR_SECONDS = h.
Proof.
  intros Hh Hmi Hs x. unfold HOUR_SECONDS, MINUTE_SECONDS, x.
  rewrite !Z.rem_mod_nonneg, !Z.quot_div_nonneg by (try lia; apply Z.mod_pos_bound; lia).
  Z.to_euclidean_division_equations; lia.
Qed.

(** The year a day of the calendar falls in. *)
Lemma cycle_split y e :
  0 ≤ e < year_days y →
  let k := (y - 2000) mod 400 in
  let c := (y - 2000) / 400 in
  0 ≤ k < 400 ∧ y = 2000 + c * 400 + k ∧
  (days_to_year y + e) / CYCLE_DAYS = c ∧ (days_to_year y + e) mod CYCLE_DAYS = days_to_year (2000 + k) + e ∧
  is_leap_year k = is_leap_year y ∧
  partition_point (days_to_year (2000 + k) + e) YEAR_TO_DAY = S (Z.to_nat k).
Proof.
  intros He k c. assert (0 ≤ k < 400) as Hk by (apply Z.mod_pos_bound; lia).
  assert (y = 2000 + c * 400 + k) as Hy by (unfold c, k; Z.to_euclidean_division_equations; lia).
  assert (is_leap_year k = is_leap_year y) as Hl by (rewrite Hy; symmetry; apply is_leap_year_cycle).
  assert (days_to_year (2000 + k) + year_days y = days_to_year (2000 + k + 1)) as Hnext.
  { rewrite days_to_year_succ. f_equal. unfold year_days. rewrite <- Hl. 
    by rewrite <- (is_leap_year_cycle 0 k), Z.add_0_r. }
  assert (0 ≤ days_to_year (2000 + k) + e < CYCLE_DAYS) as Hr.
  { pose proof (days_to_year_mono 2000 (2000 + k) ltac:(lia)). pose proof (days_to_year_mono (2000 + k + 1) 2400 ltac:(lia)).
    change (days_to_year 2000) with 0 in *. change (days_to_year 2400) with CYCLE_DAYS in *. lia. }
  assert (days_to_year y + e = c * CYCLE_DAYS + (days_to_year (2000 + k) + e)) as E by (rewrite Hy at 1; rewrite days_to_year_cycle; lia).
  split_and!; [lia|lia|done| | |done|].
  - rewrite E, Z.div_add_l, Z.div_small by (lia || done). lia.
  - rewrite E, Z.add_comm, Z.mod_add, Z.mod_small by (lia || done). done.
  - eapply partition_point_unique; [apply year_table_increasing|by apply year_table_lookup|lia|].
    intros b Hb. apply lookup_lt_Some in Hb as Hlt. change (length YEAR_TO_DAY) with 400%nat in Hlt.
    pose proof (year_table_lookup (k + 1) ltac:(lia)) as Hk1. replace (Z.to_nat (k + 1)) with (S (Z.to_nat k)) in Hk1 by lia.
    rewrite Hb in Hk1. injection Hk1 as ->. replace (2000 + (k + 1)) with (2000 + k + 1) by lia. lia.
Qed.

Lemma month_split leap m d :
  0 ≤ m < 12 → 1 ≤ d ≤ month_days leap m →
  partition_point (month_start leap m + (d - 1)) (month_to_day leap) = S (Z.to_nat m).
Proof.
  intros Hm Hd. destruct (month_table leap m Hm) as (E & _ & _ & _ & _ & Hn & _).
  eapply partition_point_unique; [apply month_table_increasing|exact E|lia|]. intros b Hb.
  apply lookup_lt_Some in Hb as Hlt. assert (length (month_to_day leap) = 12%nat) as Hl by (by destruct leap).
  destruct (Z.eqb_spec m 11); [lia|]. destruct (month_table leap (m + 1)) as (E' & _); [lia|].
  replace (Z.to_nat (m + 1)) with (S (Z.to_nat m)) in E' by lia. rewrite Hb in E'. injection E' as ->. lia.
Qed.

Definition is_i32 (z : Z) : Prop := -2147483648 ≤ z < 2147483648.

Lemma index_ok l i d : 0 ≤ i → l !! Z.to_nat i = Some d → index l i = Ret d.
Proof. intros Hi E. unfold index. rewrite (proj2 (Z.ltb_ge _ _)) by lia. by rewrite E. Qed.

(** A timestamp's year is at most some centuries from 2000. *)
Lemma year_bound y e : -40000 ≤ days_to_year y + e ≤ 40000 → 0 ≤ e < year_days y → 1800 ≤ y ≤ 2200.
Proof.
  intros H He. pose proof (year_days_positive y). destruct (Z_lt_le_dec y 1800) as [Hy|Hy].
  - pose proof (days_to_year_mono y 1800 ltac:(lia)). change (days_to_year 1800) with (-73048) in *. lia.
  - destruct (Z_lt_le_dec 2200 y) as [Hy'|]; [|lia]. pose proof (days_to_year_mono 2200 y ltac:(lia)).
    change (days_to_year 2200) with 73049 in *. lia.
Qed.

(** Discharge the overflow checks of a sequence of [i32] operations. *)
Ltac arith :=
  repeat match goal with |- i32 ?z ≫= ?f = _ => rewrite (bind_eq (i32 z) f z (i32_ok z ltac:(lia))) end;
  cbv beta.

Lemma timestamp_to_calendar_date_spec y m d h mi s :
  valid_date y m d h mi s → is_i32 (unix_time y m d h mi s) →
  timestamp_to_calendar_date (unix_time y m d h mi s) =
    Ret (mkTm s mi h d m (y - 1900) ((4 + (days_to_year y + 10957 + year_day y m d)) mod 7) (year_day y m d) 0 0 0).
Proof.
  intros Hv Ht. destruct (unix_time_split _ _ _ _ _ _ Hv) as [Hdiv Hmod]. unfold timestamp_to_calendar_date.
  rewrite Hdiv, Hmod. pose proof (year_day_range _ _ _ _ _ _ Hv) as He.
  destruct Hv as (Hm & Hd & Hh & Hmi & Hs). destruct (clock_split h mi s Hh Hmi Hs) as (-> & -> & ->).
  assert (-40000 ≤ days_to_year y + year_day y m d ≤ 40000) as HD.
  { unfold is_i32, unix_time in Ht. lia. }
  pose proof (year_bound _ _ HD He) as Hy.
  replace (days_to_year y + 10957 + year_day y m d - 10957) with (days_to_year y + year_day y m d) by lia.
  destruct (cycle_split y (year_day y m d) He) as (Hk & Ey & Ec & Ek & Hl & Ep). cbv zeta in Ek, Ep, Ec, Hk, Ey, Hl.
  set (k := (y - 2000) mod 400) in *. set (c := (y - 2000) / 400) in *. clearbody k c.
  unfold CYCLE_YEARS. arith. cbv beta zeta.
  rewrite Ec, Ek, Ep. replace (Z.of_nat (S (Z.to_nat k)) - 1) with k by lia.
  arith.
  rewrite (bind_eq _ _ _ (index_ok _ _ _ (proj1 Hk) (year_table_lookup k Hk))).
  replace (days_to_year (2000 + k) + year_day y m d - days_to_year (2000 + k)) with (year_day y m d) by lia.
  pose proof (year_days_positive y). arith. rewrite Hl, <- Ey.
  rewrite (proj2 (Z.ltb_lt _ _)) by (unfold year_days in He; destruct (is_leap_year y); lia). rewrite (bind_eq (rassert true) _ ()) by done.
  assert (partition_point (year_day y m d) (month_to_day (is_leap_year y)) = S (Z.to_nat m)) as -> by (by apply month_split).
  replace (Z.of_nat (S (Z.to_nat m)) - 1) with m by lia.
  arith.
  destruct (month_table (is_leap_year y) m Hm) as (E1 & E2 & Hb & _).
  rewrite (bind_eq _ _ _ (index_ok _ _ _ (proj1 Hm) E1)).
  replace (year_day y m d - month_start (is_leap_year y) m) with (d - 1) by (unfold year_day; lia).
  assert (d ≤ 366) by (unfold year_day in *; destruct (month_table (is_leap_year y) m Hm) as (_ & _ & _ & _ & ? & _); lia).
  arith. rewrite (bind_eq _ _ _ (index_ok _ _ _ (proj1 Hm) E2)).
  rewrite (proj2 (Z.ltb_lt _ _)), (bind_eq (rassert true) _ ()) by (lia || done).
  arith. by replace (d - 1 + 1) with d by lia.
Qed.

Lemma calendar_date_to_timestamp_spec y m d h mi s w yd dst off z :
  valid_date y m d h mi s → is_i32 (y - 1900) → is_i32 y → is_i32 (unix_time y m d h mi s) →
  calendar_date_to_timestamp (mkTm s mi h d m (y - 1900) w yd dst off z) = Ret (unix_time y m d h mi s).
Proof.
  intros (Hm & _) _ Hy Ht. unfold is_i32 in *. unfold calendar_date_to_timestamp. cbn [tm_year tm_mon].
  replace (y - 1900 + 1900) with y by lia. arith.
  destruct (month_table (is_leap_year y) m Hm) as (E & _). rewrite (bind_eq _ _ _ (index_ok _ _ _ (proj1 Hm) E)).
  rewrite calendar_seconds_spec. cbn [tm_mday tm_hour tm_min tm_sec].
  replace (_ + s) with (unix_time y m d h mi s) by (unfold unix_time, year_day; lia). by apply i32_ok.
Qed.

(** Every day is some date. *)
Lemma day_exists D : ∃ y m d, 0 ≤ m < 12 ∧ 1 ≤ d ≤ month_days (is_leap_year y) m ∧ D = days_to_year y + year_day y m d.
Proof.
  assert (∃ y, days_to_year y ≤ D < days_to_year (y + 1)) as (y & Hy).
  { set (x := D mod CYCLE_DAYS). set (c := D / CYCLE_DAYS).
    assert (0 ≤ x < CYCLE_DAYS) as Hx by (apply Z.mod_pos_bound; done).
    assert (D = c * CYCLE_DAYS + x) as HD by (unfold c, x; rewrite Z.mul_comm; apply Z.div_mod; done).
    destruct (partition_point_spec x YEAR_TO_DAY) as (Hle & Hb & Ha). change (length YEAR_TO_DAY) with 400%nat in Hle.
    assert (partition_point x YEAR_TO_DAY ≠ 0%nat) as Hne.
    { intros E. rewrite E in Ha. specialize (Ha 0 eq_refl). lia. }
    set (k := Z.of_nat (partition_point x YEAR_TO_DAY) - 1). exists (2000 + c * 400 + k).
    pose proof (days_to_year_cycle c k) as H0. pose proof (days_to_year_cycle c (k + 1)) as H1.
    replace (2000 + c * 400 + (k + 1)) with (2000 + c * 400 + k + 1) in H1 by lia.
    pose proof (Hb (Z.to_nat k) _ ltac:(lia) (year_table_lookup k ltac:(lia))).
    destruct (decide (partition_point x YEAR_TO_DAY = 400%nat)) as [E|E].
    - assert (k = 399) as -> by lia. change (days_to_year (2000 + (399 + 1))) with CYCLE_DAYS in *. lia.
    - pose proof (year_table_lookup (k + 1) ltac:(lia)) as Hk1.
      replace (Z.to_nat (k + 1)) with (partition_point x YEAR_TO_DAY) in Hk1 by lia. pose proof (Ha _ Hk1). lia. }
  rewrite days_to_year_succ in Hy. set (e := D - days_to_year y). set (leap := is_leap_year y).
  assert (0 ≤ e < 365 + (if leap then 1 else 0)) as He by (unfold year_days in Hy; unfold e, leap; destruct (is_leap_year y); lia).
  destruct (partition_point_spec e (month_to_day leap)) as (Hle & Hb & Ha).
  assert (length (month_to_day leap) = 12%nat) as Hl by (by destruct leap).
  assert (partition_point e (month_to_day leap) ≠ 0%nat) as Hne.
  { intros E. rewrite E in Ha. specialize (Ha 0). destruct leap; specialize (Ha eq_refl); lia. }
  set (m := Z.of_nat (partition_point e (month_to_day leap)) - 1).
  destruct (month_table leap m) as (E1 & _ & _ & _ & _ & Hn & _); [lia|].
  pose proof (Hb (Z.to_nat m) _ ltac:(lia) E1). exists y, m, (e - month_start leap m + 1). fold leap.
  split_and!; [lia..| |unfold year_day; fold leap; lia].
  destruct (Z.eqb_spec m 11); [lia|]. destruct (month_table leap (m + 1)) as (E2 & _); [lia|].
  replace (Z.to_nat (m + 1)) with (partition_point e (month_to_day leap)) in E2 by lia. pose proof (Ha _ E2). lia.
Qed.

Lemma date_exists t : ∃ y m d h mi s, valid_date y m d h mi s ∧ t = unix_time y m d h mi s.
Proof.
  destruct (day_exists (t / 86400 - 10957)) as (y & m & d & Hm & Hd & HD).
  exists y, m, d, (t mod 86400 / 3600), (t mod 3600 / 60), (t mod 60). split.
  - split_and!; try lia; Z.to_euclidean_division_equations; lia.
  - unfold unix_time. replace (days_to_year y + 10957 + year_day y m d) with (t / 86400) by lia.
    Z.to_euclidean_division_equations; lia.
Qed.

Lemma i32_year y m d h mi s : valid_date y m d h mi s → is_i32 (unix_time y m d h mi s) → 1800 ≤ y ≤ 2200.
Proof.
  intros Hv Ht. pose proof (year_day_range _ _ _ _ _ _ Hv) as He. apply (year_bound y (year_day y m d)); [|done].
  destruct Hv as (_ & _ & ? & ? & ?). unfold is_i32, unix_time in Ht. lia.
Qed.



(** Converting a real date to a timestamp and back gives the same date, with the day
    of the week and of the year filled in, as long as the timestamp fits in 32 bits; a
    date that does not fit panics. *)
Theorem date_roundtrip y m d h mi s w yd dst off z :
  valid_date y m d h mi s → is_i32 (y - 1900) → is_i32 y →
  let date := mkTm s mi h d m (y - 1900) w yd dst off z in
  (is_i32 (unix_time y m d h mi s) →
     ∃ t w' yd', calendar_date_to_timestamp date = Ret t ∧
       timestamp_to_calendar_date t = Ret (mkTm s mi h d m (y - 1900) w' yd' 0 0 0)) ∧
  (¬ is_i32 (unix_time y m d h mi s) → calendar_date_to_timestamp date = Panic).
Proof.
  intros Hv H1900 Hy. split.
  - intros Ht. eexists _, _, _. split; [by apply calendar_date_to_timestamp_spec|].
    by apply timestamp_to_calendar_date_spec.
  - intros Ht. unfold is_i32 in *. unfold calendar_date_to_timestamp. cbn [tm_year tm_mon].
    replace (y - 1900 + 1900) with y by lia. arith. destruct Hv as (Hm & _).
    destruct (month_table (is_leap_year y) m Hm) as (E & _). rewrite (bind_eq _ _ _ (index_ok _ _ _ (proj1 Hm) E)).
    rewrite calendar_seconds_spec. cbn [tm_mday tm_hour tm_min tm_sec].
    replace (_ + s) with (unix_time y m d h mi s) by (unfold unix_time, year_day; lia).
    destruct (i32 (unix_time y m d h mi s)) eqn:Ei; [|done]. apply i32_inv in Ei. lia.
Qed.

Lemma date_roundtrip_witness :
  (∃ t w' yd', calendar_date_to_timestamp (mkTm 7 30 23 29 1 (2024 - 1900) 0 0 0 0 0) = Ret t ∧
     timestamp_to_calendar_date t = Ret (mkTm 7 30 23 29 1 (2024 - 1900) w' yd' 0 0 0)) ∧
  calendar_date_to_timestamp (mkTm 0 0 0 1 0 (2040 - 1900) 0 0 0 0 0) = Panic.
Proof.
  split.
  - apply (date_roundtrip 2024 1 29 23 30 7 0 0 0 0 0); vm_compute; intuition congruence.
  - apply (date_roundtrip 2040 0 1 0 0 0 0 0 0 0 0); vm_compute; intuition congruence.
Defined.

(** No sum of the conversion leaves [i64]: the years' seconds stay under [2^57], and
    each of the other terms under [2^49]. *)
Lemma seconds_in_i64 year cumul t :
  is_i32 year → 0 ≤ cumul ≤ 365 → is_i32 (tm_mday t) → is_i32 (tm_hour t) → is_i32 (tm_min t) → is_i32 (tm_sec t) →
  0 ≤ sum_years (λ y, year_days y * 86400) 1970 year < 2 ^ 57 ∧
  0 ≤ sum_years year_days year 1970 * 86400 < 2 ^ 57 ∧
  Forall (λ x, - 2 ^ 49 < x < 2 ^ 49)
    [cumul * 86400; (tm_mday t - 1) * 86400; tm_hour t * 3600; tm_min t * 60; tm_sec t].
Proof.
  unfold is_i32. intros Hy Hc Hd Hh Hm Hs.
  assert (∀ a b, a ≤ b → days_to_year b - days_to_year a ≤ 366 * (b - a)) as Hup.
  { intros a b Hab. replace b with (a + Z.of_nat (Z.to_nat (b - a))) by lia. generalize (Z.to_nat (b - a)). intros n.
    induction n as [|n IH]; [rewrite Z.add_0_r; lia|].
    replace (a + Z.of_nat (S n)) with (a + Z.of_nat n + 1) by lia. rewrite days_to_year_succ.
    pose proof (year_days_positive (a + Z.of_nat n)). lia. }
  assert (∀ y, days_to_year (y + 1) * 86400 = days_to_year y * 86400 + year_days y * 86400) as Hstep.
  { intros y. rewrite days_to_year_succ. lia. }
  split_and!; [| | | |repeat constructor; lia].
  all: destruct (Z_le_gt_dec year 1970) as [Hle|Hgt].
  all: try (rewrite sum_years_empty by lia; lia).
  all: try rewrite (sum_years_telescope (λ y, days_to_year y * 86400)) by (done || lia).
  all: try rewrite (sum_years_telescope days_to_year) by (lia || apply days_to_year_succ).
  all: try (pose proof (Hup 1970 year ltac:(lia)); pose proof (days_to_year_mono 1970 year ltac:(lia)); lia).
  all: pose proof (Hup year 1970 ltac:(lia)); pose proof (days_to_year_mono year 1970 ltac:(lia)); lia.
Qed.
