(* ===== verification/LoadOrder.v ===== *)
(** * The order in which binaries are initialised ([environment.rs])

    [generate_binary_load_order]: Kahn's algorithm on the dependencies of the app's
    binary and the bundled libraries.  The hash map of in-degrees is iterated in an
    unspecified order, which is an argument. *)

From S2P Require Import Prelude.

Notation str := (list Z) (only parsing).

Record BinaryDependencyNode := mkNode { name : str; dependencies : list str }.

(** [path.strip_prefix("/usr/lib/").unwrap_or(path)]. *)
Definition USR_LIB : str := [47; 117; 115; 114; 47; 108; 105; 98; 47].
Definition strip_usr_lib (path : str) : str :=
  if decide (take (length USR_LIB) path = USR_LIB) then drop (length USR_LIB) path else path.

(** [collect] of the pairs of names and positions: a later position replaces an
    earlier one. *)
Definition node_to_index (graph : list BinaryDependencyNode) : gmap str nat :=
  foldl (λ m (p : nat * BinaryDependencyNode), <[name p.2 := p.1]> m) ∅ (imap pair graph).

(** The state of the scan: dependents and in-degrees. *)
Notation Dependents := (gmap nat (list nat)) (only parsing).
Notation Degrees := (gmap nat Z) (only parsing).

Definition add_dependency (index : gmap str nat) (bin_index : nat) (path : str) (s : Dependents * Degrees)
    : outcome (Dependents * Degrees) :=
  match index !! strip_usr_lib path with
  | None => Ret s
  | Some dylib_index =>
      deg ← match s.2 !! bin_index with
            | Some d => d' ← i32 (d + 1); Ret (<[bin_index := d']> s.2)
            | None => Ret s.2
            end;
      Ret (<[dylib_index := default [] (s.1 !! dylib_index) ++ [bin_index]]> s.1, deg)
  end.

Definition add_node (index : gmap str nat) (node : BinaryDependencyNode) (s : Dependents * Degrees)
    : outcome (Dependents * Degrees) :=
  bin_index ← unwrap (index !! name node);
  for_each (add_dependency index bin_index) (dependencies node) s.

(** One dependent of a node that has been put into the order. *)
Definition release_dependant (dependant : nat) (s : list nat * Degrees) : outcome (list nat * Degrees) :=
  match s.2 !! dependant with
  | None => Ret s
  | Some d =>
      d' ← i32 (d - 1);
      let deg := <[dependant := d']> s.2 in
      Ret (if d' =? 0 then s.1 ++ [dependant] else s.1, deg)
  end.

(** The [while let] loop. *)
Fixpoint drain (fuel : nat) (dependents : Dependents) (queue sorted : list nat) (deg : Degrees)
    : outcome (list nat * Degrees) :=
  match queue with
  | [] => Ret (sorted, deg)
  | node :: queue' =>
      match fuel with
      | O => Panic
      | S fuel' =>
          '(queue2, deg2) ← for_each release_dependant (default [] (dependents !! node)) (queue', deg);
          drain fuel' dependents queue2 (sorted ++ [node]) deg2
      end
  end.

(** The name of a binary in a log message: [graph.get(index).unwrap()]. *)
Definition log_name (graph : list BinaryDependencyNode) (i : nat) (_ : unit) : outcome unit :=
  node ← unwrap (graph !! i); Ret ().

Section load_order.
(** The iteration order of the hash map. *)
Context (iter : Degrees → list (nat * Z)).

Definition generate_binary_load_order (graph : list BinaryDependencyNode) : outcome (result (list nat) nat) :=
  let index := node_to_index graph in
  let deg0 : Degrees := list_to_map ((λ p, (p.2, 0)) <$> map_to_list index) in
  '(dependents, deg) ← for_each (add_node index) graph (∅, deg0);
  let leaf_nodes := (filter (λ p, p.2 = 0) (iter deg)).*1 in
  '(sorted, deg) ← drain (S (length graph)) dependents leaf_nodes [] deg;
  match filter (λ p, 0 < p.2) (iter deg) with
  | (i, _) :: _ => _ ← unwrap (graph !! i); Ret (Err i)
  | [] =>
      for_each (log_name graph) sorted ();;
      Ret (Ok sorted)
  end.
End load_order.

(** ** The graph *)

(** The dependencies that are among the binaries, as pairs of a library and a binary
    that needs it. *)
Definition edges_of (index : gmap str nat) (bin : nat) (deps : list str) : list (nat * nat) :=
  omap (λ path, (λ lib, (lib, bin)) <$> index !! strip_usr_lib path) deps.
Definition edges (graph : list BinaryDependencyNode) : list (nat * nat) :=
  concat (imap (λ i n, edges_of (node_to_index graph) i (dependencies n)) graph).

(** How many edges satisfy a test. *)
Definition count (P : nat * nat → bool) (E : list (nat * nat)) : Z := Z.of_nat (length (List.filter P E)).

Lemma count_nonneg P E : 0 ≤ count P E.
Proof. unfold count. lia. Qed.
Lemma count_nil P : count P [] = 0.
Proof. done. Qed.
Lemma count_cons P e E : count P (e :: E) = (if P e then 1 else 0) + count P E.
Proof. unfold count. simpl. destruct (P e); simpl; lia. Qed.
Lemma count_app P E E' : count P (E ++ E') = count P E + count P E'.
Proof. unfold count. rewrite List.filter_app, length_app. lia. Qed.
Lemma count_pos P E : 0 < count P E ↔ ∃ e, e ∈ E ∧ P e = true.
Proof.
  induction E as [|e E IH]; [rewrite count_nil; split; [lia|intros (? & []%elem_of_nil & _)]|].
  rewrite count_cons. pose proof (count_nonneg P E). destruct (P e) eqn:He.
  - split; [intros _; exists e; split; [by left|done]|lia].
  - rewrite Z.add_0_l, IH. split; intros (x & Hx & HP); exists x; (split; [|done]); [by right|].
    apply elem_of_cons in Hx as [->|]; [congruence|done].
Qed.
Lemma count_split P Q E : count P E = count (λ e, P e && Q e) E + count (λ e, P e && negb (Q e)) E.
Proof.
  induction E as [|e E IH]; [done|]. rewrite !count_cons, IH. destruct (P e), (Q e); simpl; lia.
Qed.
Lemma count_ext P Q E : (∀ e, e ∈ E → P e = Q e) → count P E = count Q E.
Proof.
  intros H. induction E as [|e E IH]; [done|]. rewrite !count_cons, IH by (intros; apply H; by right).
  by rewrite (H e) by (by left).
Qed.
Lemma count_le P E : count P E ≤ Z.of_nat (length E).
Proof. induction E as [|e E IH]; [done|]. rewrite count_cons. simpl. destruct (P e); lia. Qed.

(** Edges into a binary. *)
Definition into (b : nat) (e : nat * nat) : bool := bool_decide (e.2 = b).

(** Names and positions. *)
Lemma node_to_index_app g n :
  node_to_index (g ++ [n]) = <[name n := length g]> (node_to_index g).
Proof. unfold node_to_index. rewrite imap_app, foldl_app. simpl. by rewrite Nat.add_0_r. Qed.

Lemma node_to_index_spec g s i :
  NoDup (name <$> g) → node_to_index g !! s = Some i ↔ ∃ n, g !! i = Some n ∧ name n = s.
Proof.
  revert i. induction g as [|n g IH] using rev_ind; intros i Hnd.
  { unfold node_to_index. simpl. rewrite lookup_empty. split; [done|intros (? & ? & _); done]. }
  rewrite fmap_app in Hnd. apply NoDup_app in Hnd as (Hnd & Hdisj & _). rewrite node_to_index_app.
  destruct (decide (name n = s)) as [<-|Hne].
  - rewrite lookup_insert_eq. split.
    + intros [= <-]. exists n. split; [|done]. by rewrite lookup_app_r, Nat.sub_diag by lia.
    + intros (m & Hm & E). apply lookup_app_Some in Hm as [Hm|[Hle Hm]].
      * exfalso. apply (Hdisj (name n)); [|by left]. rewrite <- E. apply list_elem_of_fmap. exists m. split; [done|].
        by eapply list_elem_of_lookup_2.
      * apply list_lookup_singleton_Some in Hm as [? _]. f_equal. lia.
  - rewrite lookup_insert_ne by done. rewrite IH by done. split; intros (m & Hm & E); exists m; (split; [|done]).
    + by apply lookup_app_l_Some.
    + apply lookup_app_Some in Hm as [Hm|[_ Hm]]; [done|]. apply list_lookup_singleton_Some in Hm as [_ <-]. done.
Qed.

(** Every edge is between binaries. *)
Lemma edges_range g d b : NoDup (name <$> g) → (d, b) ∈ edges g → (d < length g)%nat ∧ (b < length g)%nat.
Proof.
  intros Hnd. unfold edges. rewrite list_elem_of_In, in_concat. intros (l & Hl & Hin). apply list_elem_of_In in Hl, Hin.
  apply elem_of_lookup_imap in Hl as (i & n & -> & Hi). apply list_elem_of_omap in Hin as (p & Hp & E).
  destruct (node_to_index g !! _) as [lib|] eqn:El; [|done]. injection E as <- <-.
  apply node_to_index_spec in El as (m & Hm & _); [|done]. split; by eapply lookup_lt_Some.
Qed.

(** ** The scan *)

(** The dependents and in-degrees describe the edges [E] over [n] binaries. *)
Definition describes (n : nat) (E : list (nat * nat)) (s : Dependents * Degrees) : Prop :=
  (∀ d, default [] (s.1 !! d) = (List.filter (λ e, bool_decide (e.1 = d)) E).*2) ∧
  (∀ b, s.2 !! b = if decide (b < n)%nat then Some (count (into b) E) else None).

Lemma add_dependency_ok index n E bin path s :
  describes n E s → Z.of_nat (length (E ++ edges_of index bin [path])) < 2 ^ 31 →
  ∃ s', add_dependency index bin path s = Ret s' ∧ describes n (E ++ edges_of index bin [path]) s'.
Proof.
  intros [H1 H2] Hlen. unfold add_dependency, edges_of in *. cbn [omap list_omap] in *.
  destruct (index !! strip_usr_lib path) as [lib|]; cbn [fmap option_fmap option_map] in *; [|exists s; rewrite app_nil_r; by split].
  rewrite H2. rewrite length_app in Hlen. simpl in Hlen.
  assert (∀ deg, (∀ b, deg !! b = if decide (b < n)%nat then Some (count (into b) (E ++ [(lib, bin)])) else None) →
    describes n (E ++ [(lib, bin)]) (<[lib := default [] (s.1 !! lib) ++ [bin]]> s.1, deg)) as Hd.
  { intros deg Hdeg. split; [|done]. intros d. cbn [fst]. rewrite List.filter_app, fmap_app. simpl.
    destruct (decide (lib = d)) as [->|Hne].
    - rewrite lookup_insert_eq, bool_decide_eq_true_2 by done. simpl. by rewrite H1.
    - rewrite lookup_insert_ne, bool_decide_eq_false_2 by done. simpl. by rewrite app_nil_r, H1. }
  assert (∀ b, count (into b) (E ++ [(lib, bin)]) = count (into b) E + (if decide (bin = b) then 1 else 0)) as Hc.
  { intros b. rewrite count_app. f_equal. unfold count, into. simpl. case_bool_decide; case_decide; done. }
  destruct (decide (bin < n)%nat) as [Hb|Hb].
  - pose proof (count_le (into bin) E). pose proof (count_nonneg (into bin) E).
    rewrite i32_ok by lia. simpl. eexists. split; [done|]. apply Hd. intros b. rewrite Hc.
    destruct (decide (bin = b)) as [<-|Hne]; [by rewrite lookup_insert_eq, decide_True|].
    by rewrite lookup_insert_ne, Z.add_0_r by done.
  - simpl. eexists. split; [done|]. apply Hd. intros b. rewrite H2, Hc. destruct (decide (b < n)%nat); [|done].
    rewrite decide_False by (intros ->; done). by rewrite Z.add_0_r.
Qed.

Lemma edges_of_cons index bin p ps : edges_of index bin (p :: ps) = edges_of index bin [p] ++ edges_of index bin ps.
Proof. unfold edges_of. simpl. by destruct (index !! strip_usr_lib p). Qed.

Lemma add_dependencies_ok index n E bin ps s :
  describes n E s → Z.of_nat (length (E ++ edges_of index bin ps)) < 2 ^ 31 →
  ∃ s', for_each (add_dependency index bin) ps s = Ret s' ∧ describes n (E ++ edges_of index bin ps) s'.
Proof.
  revert E s. induction ps as [|p ps IH]; intros E s Hs Hlen; cbn [for_each].
  { exists s. split; [done|]. by rewrite app_nil_r. }
  rewrite edges_of_cons, app_assoc in *. rewrite length_app in Hlen.
  destruct (add_dependency_ok index n E bin p s Hs) as (s' & -> & Hs'); [lia|]. cbn [mbind outcome_bind].
  apply IH; [done|]. rewrite length_app. lia.
Qed.

(** The nodes in the order of the graph; [i] is the position of the first. *)
Lemma add_nodes_ok index n g i E s :
  (∀ k m, g !! k = Some m → index !! name m = Some (i + k)%nat) → describes n E s →
  Z.of_nat (length (E ++ concat (imap (λ k m, edges_of index (i + k) (dependencies m)) g))) < 2 ^ 31 →
  ∃ s', for_each (add_node index) g s = Ret s' ∧
    describes n (E ++ concat (imap (λ k m, edges_of index (i + k) (dependencies m)) g)) s'.
Proof.
  revert i E s. induction g as [|m g IH]; intros i E s Hidx Hs Hlen; cbn [for_each].
  { exists s. split; [done|]. by rewrite app_nil_r. }
  assert (imap (λ k m, edges_of index (i + k) (dependencies m)) (m :: g) =
    edges_of index i (dependencies m) :: imap (λ k m, edges_of index (S i + k) (dependencies m)) g) as Ei.
  { cbn [imap]. rewrite Nat.add_0_r. f_equal. apply imap_ext. intros k x _. simpl. f_equal. lia. }
  rewrite Ei in *. cbn [concat] in *. rewrite app_assoc in *.
  assert (add_node index m s = for_each (add_dependency index i) (dependencies m) s) as ->.
  { unfold add_node. rewrite (Hidx 0%nat m) by done. simpl. by rewrite Nat.add_0_r. }
  destruct (add_dependencies_ok index n E i (dependencies m) s Hs) as (s' & -> & Hs'); [rewrite length_app in Hlen; lia|].
  cbn [mbind outcome_bind]. apply IH; [|done|done]. intros k x Hk. rewrite (Hidx (S k) x) by done. f_equal. lia.
Qed.

(** ** The loop *)

Lemma release_dependant_eq b q deg : release_dependant b (q, deg) =
  match deg !! b with
  | None => Ret (q, deg)
  | Some d => i32 (d - 1) ≫= λ d', Ret (if d' =? 0 then q ++ [b] else q, <[b := d']> deg)
  end.
Proof. done. Qed.

Lemma release_all F q deg :
  (∀ b x, deg !! b = Some x → count (into b) F ≤ x < 2 ^ 31) →
  ∃ new deg', for_each release_dependant F.*2 (q, deg) = Ret (q ++ new, deg') ∧
    (∀ b, deg' !! b = (λ x, x - count (into b) F) <$> deg !! b) ∧ NoDup new ∧
    (∀ b, b ∈ new ↔ ∃ x, deg !! b = Some x ∧ x = count (into b) F ∧ 0 < x).
Proof.
  revert q deg. induction F as [|e F IH]; intros q deg Hdeg.
  { exists [], deg. rewrite app_nil_r. split_and!; [done| |constructor|].
    - intros b. rewrite count_nil. destruct (deg !! b) as [x|]; simpl; [|done]. by rewrite Z.sub_0_r.
    - intros b. rewrite count_nil, elem_of_nil. split; [done|intros (x & _ & -> & ?); lia]. }
  assert (∀ b, count (into b) (e :: F) = (if decide (e.2 = b) then 1 else 0) + count (into b) F) as Hc.
  { intros b. rewrite count_cons. unfold into at 1. case_bool_decide; case_decide; done. }
  cbn [fmap list_fmap for_each]. rewrite release_dependant_eq. destruct (deg !! e.2) as [x|] eqn:Ex; cbn [mbind outcome_bind].
  2:{ destruct (IH q deg) as (new & deg' & -> & H1 & H2 & H3).
      { intros b x Hb. pose proof (Hdeg b x Hb) as H. rewrite Hc in H. destruct (decide (e.2 = b)); [congruence|lia]. }
      exists new, deg'. split_and!; [done| |done|].
      - intros b. rewrite H1, Hc. destruct (decide (e.2 = b)) as [<-|]; [by rewrite Ex|done].
      - intros b. rewrite H3, Hc. destruct (decide (e.2 = b)) as [<-|]; [rewrite Ex; naive_solver|done]. }
  pose proof (Hdeg _ _ Ex) as Hx. rewrite Hc, decide_True in Hx by done. pose proof (count_nonneg (into e.2) F).
  rewrite i32_ok by lia. cbn [mbind outcome_bind]. cbv zeta. set (q1 := if x - 1 =? 0 then q ++ [e.2] else q).
  destruct (IH q1 (<[e.2 := x - 1]> deg)) as (new & deg' & E & H1 & H2 & H3).
  { intros b y. destruct (decide (e.2 = b)) as [<-|Hne]; [rewrite lookup_insert_eq; intros [= <-]; lia|].
    rewrite lookup_insert_ne by done. intros Hb. pose proof (Hdeg b y Hb) as H'. rewrite Hc, decide_False in H' by done. lia. }
  exists ((if x - 1 =? 0 then [e.2] else []) ++ new), deg'. split_and!.
  - rewrite E. unfold q1. destruct (x - 1 =? 0); [by rewrite <- app_assoc|done].
  - intros b. rewrite H1, Hc. destruct (decide (e.2 = b)) as [<-|Hne].
    + rewrite lookup_insert_eq, Ex. simpl. f_equal. lia.
    + by rewrite lookup_insert_ne, Z.add_0_l by done.
  - destruct (Z.eqb_spec (x - 1) 0); [|done]. apply NoDup_cons. split; [|done]. rewrite H3. intros (y & Hy & _ & Hpos).
    rewrite lookup_insert_eq in Hy. injection Hy as <-. lia.
  - intros b. rewrite elem_of_app, H3, Hc. destruct (decide (e.2 = b)) as [<-|Hne].
    + rewrite lookup_insert_eq, Ex. destruct (Z.eqb_spec (x - 1) 0).
      * split; [intros _; exists x; split_and!; lia || done|intros _; left; by left].
      * split; [intros [[]%elem_of_nil|(y & [= <-] & ? & ?)]; exists x; split_and!; lia || done|].
        intros (y & [= <-] & ? & ?). right. exists (x - 1). split_and!; lia || done.
    + rewrite lookup_insert_ne, Z.add_0_l by done. split; [|by right]. intros [Hb|]; [|done].
      destruct (x - 1 =? 0); [|by apply elem_of_nil in Hb]. by apply list_elem_of_singleton in Hb as ->.
Qed.

(** Edges into a binary from one that is not in the order yet. *)
Definition live (sorted : list nat) (b : nat) (e : nat * nat) : bool :=
  into b e && negb (bool_decide (e.1 ∈ sorted)).

(** The invariant of Kahn's algorithm. *)
Record kahn (n : nat) (E : list (nat * nat)) (sorted queue : list nat) (deg : Degrees) : Prop := {
  kahn_nodup : NoDup (sorted ++ queue);
  kahn_range b : b ∈ sorted ++ queue → (b < n)%nat;
  kahn_degree b : deg !! b = if decide (b < n)%nat
    then Some (count (live sorted b) E) else None;
  kahn_zero b : (b < n)%nat → (deg !! b = Some 0 ↔ b ∈ sorted ++ queue);
  kahn_order l1 b l2 d : sorted = l1 ++ b :: l2 → (d, b) ∈ E → d ∈ l1
}.

Lemma count_filter P Q E : count P (List.filter Q E) = count (λ e, P e && Q e) E.
Proof.
  induction E as [|e E IH]; [done|]. simpl. rewrite count_cons, <- IH. destruct (Q e); [rewrite count_cons; destruct (P e)|destruct (P e)]; simpl; lia.
Qed.

Lemma live_split sorted node b E :
  node ∉ sorted →
  count (live sorted b) E =
    count (into b) (List.filter (λ e, bool_decide (e.1 = node)) E) + count (live (sorted ++ [node]) b) E.
Proof.
  intros Hns. rewrite (count_split _ (λ e, bool_decide (e.1 = node))). rewrite count_filter. f_equal.
  - apply count_ext. intros e _. unfold live. destruct (into b e); simpl; [|done].
    case_bool_decide; case_bool_decide; simpl; naive_solver.
  - apply count_ext. intros e _. unfold live. destruct (into b e); simpl; [|done].
    repeat case_bool_decide; simpl; try done; set_solver.
Qed.

Lemma kahn_step n E sorted node queue deg :
  Z.of_nat (length E) < 2 ^ 31 → kahn n E sorted (node :: queue) deg →
  ∃ new deg', for_each release_dependant (List.filter (λ e, bool_decide (e.1 = node)) E).*2 (queue, deg) = Ret (queue ++ new, deg') ∧
    kahn n E (sorted ++ [node]) (queue ++ new) deg'.
Proof.
  intros Hlen [Knd Kr Kd Kz Ko]. set (F := List.filter (λ e, bool_decide (e.1 = node)) E).
  assert (node ∉ sorted) as Hns by (apply NoDup_app in Knd as (_ & H & _); intros Hin; apply (H node Hin); by left).
  assert (∀ b, count (live sorted b) E = count (into b) F + count (live (sorted ++ [node]) b) E) as Hsplit by (intros; by apply live_split).
  destruct (release_all F queue deg) as (new & deg' & E1 & H1 & H2 & H3).
  { intros b x. rewrite Kd. case_decide; [|done]. intros [= <-]. rewrite Hsplit.
    pose proof (count_nonneg (live (sorted ++ [node]) b) E). pose proof (count_le (live sorted b) E) as Hl. rewrite Hsplit in Hl. lia. }
  exists new, deg'. split; [done|].
  assert (∀ b, (b < n)%nat → deg !! b = Some (count (into b) F + count (live (sorted ++ [node]) b) E)) as Hdeg.
  { intros b Hb. rewrite Kd, decide_True by done. by rewrite <- Hsplit. }
  assert (∀ b, b ∈ new → (b < n)%nat ∧ b ∉ sorted ++ node :: queue) as Hnew.
  { intros b Hb. apply H3 in Hb as (x & Hx & _ & Hpos). assert (b < n)%nat as Hbn by (rewrite Kd in Hx; by case_decide).
    split; [done|]. intros Hin. apply Kz in Hin; [|done]. assert (x = 0) by congruence. lia. }
  assert ((sorted ++ [node]) ++ queue ++ new = (sorted ++ node :: queue) ++ new) as Eapp by (by rewrite <- !app_assoc).
  split; rewrite ?Eapp.
  - apply NoDup_app. split_and!; [done| |done]. intros x Hx Hx'. by apply Hnew in Hx' as [_ ?].
  - intros b Hb. apply elem_of_app in Hb as [Hb|Hb]; [by apply Kr|by apply Hnew].
  - intros b. rewrite H1, Kd. case_decide; [|done]. simpl. f_equal. rewrite Hsplit. lia.
  - intros b Hb. rewrite H1, elem_of_app, <- Kz, H3, (Hdeg b Hb) by done. simpl.
    pose proof (count_nonneg (into b) F). pose proof (count_nonneg (live (sorted ++ [node]) b) E).
    split.
    + intros [= Hx]. destruct (decide (count (into b) F = 0)); [left; f_equal; lia|right; eexists; split_and!; [done|lia|lia]].
    + intros [[= Hx]|(x & [= <-] & Hx & _)]; f_equal; lia.
  - intros l1 b l2 d Hl Hd. destruct l2 as [|y l2 _] using rev_ind.
    + apply app_inj_tail in Hl as [<- <-]. 
      assert (deg !! node = Some 0) as Hz by (apply Kz; [apply Kr|]; set_solver).
      rewrite Kd in Hz. case_decide; [|done]. injection Hz as Hz. destruct (decide (d ∈ sorted)) as [|Hn]; [done|].
      assert (0 < count (live sorted node) E) as Hp; [|lia]. apply count_pos. exists (d, node). split; [done|].
      unfold live, into. simpl. by rewrite bool_decide_eq_true_2, bool_decide_eq_false_2.
    + rewrite app_comm_cons, app_assoc in Hl. apply app_inj_tail in Hl as [-> _]. by eapply Ko.
Qed.

(** Distinct numbers below [n] are at most [n]. *)
Lemma length_below (n : nat) (l : list nat) : NoDup l → (∀ x, x ∈ l → (x < n)%nat) → (length l ≤ n)%nat.
Proof.
  intros Hnd Hl. transitivity (length (seq 0 n)); [|by rewrite length_seq]. apply submseteq_length, NoDup_submseteq; [done|].
  intros x Hx. apply elem_of_seq. specialize (Hl x Hx). lia.
Qed.

Lemma drain_ok n E dependents fuel queue sorted deg :
  (∀ d, default [] (dependents !! d) = (List.filter (λ e, bool_decide (e.1 = d)) E).*2) →
  Z.of_nat (length E) < 2 ^ 31 → kahn n E sorted queue deg → (n < fuel + length sorted)%nat →
  ∃ order deg', drain fuel dependents queue sorted deg = Ret (order, deg') ∧ kahn n E order [] deg'.
Proof.
  intros Hdep Hlen. revert queue sorted deg. induction fuel as [|fuel IH]; intros queue sorted deg K Hf;
    (destruct queue as [|node queue]; [by exists sorted, deg|]).
  - exfalso. pose proof (length_below n _ (kahn_nodup _ _ _ _ _ K) (kahn_range _ _ _ _ _ K)) as H.
    rewrite length_app in H. simpl in *. lia.
  - cbn [drain]. rewrite Hdep. destruct (kahn_step _ _ _ _ _ _ Hlen K) as (new & deg' & -> & K'). cbn [mbind outcome_bind].
    apply IH; [done|]. rewrite length_app. simpl. lia.
Qed.

(** ** Correctness *)

Section correct.
Context (iter : Degrees → list (nat * Z)) (iter_perm : ∀ m, iter m ≡ₚ map_to_list m).

Lemma iter_elem m i x : (i, x) ∈ iter m ↔ m !! i = Some x.
Proof. rewrite iter_perm. apply elem_of_map_to_list. Qed.

(** The leaves start the queue. *)
Lemma kahn_init n E deg :
  (∀ b, deg !! b = if decide (b < n)%nat then Some (count (into b) E) else None) →
  kahn n E [] (filter (λ p, p.2 = 0) (iter deg)).*1 deg.
Proof.
  intros Hdeg. assert (∀ b, b ∈ (filter (λ p, p.2 = 0) (iter deg)).*1 ↔ deg !! b = Some 0) as Hin.
  { intros b. rewrite list_elem_of_fmap. split.
    - intros ([i x] & -> & [Hx Hi]%list_elem_of_filter). simpl in *. subst x. by apply iter_elem.
    - intros Hb. exists (b, 0). split; [done|]. apply list_elem_of_filter. split; [done|]. by apply iter_elem. }
  split; simpl.
  - assert (NoDup (iter deg).*1) as Hnd by (rewrite iter_perm; apply NoDup_fst_map_to_list).
    eapply sublist_NoDup; [exact Hnd|]. apply fmap_sublist, sublist_filter.
  - intros b Hb%Hin. rewrite Hdeg in Hb. by case_decide.
  - intros b. rewrite Hdeg. case_decide; [|done]. f_equal. apply count_ext. intros e _. unfold live.
    rewrite bool_decide_eq_false_2 by apply not_elem_of_nil. by rewrite andb_true_r.
  - intros b _. by rewrite Hin.
  - by intros [|] ? ? ? [=].
Qed.

(** The initial in-degrees: one zero for each binary. *)
Lemma degrees_init graph b :
  NoDup (name <$> graph) →
  (list_to_map ((λ p, (p.2, 0)) <$> map_to_list (node_to_index graph)) : Degrees) !! b =
    if decide (b < length graph)%nat then Some 0 else None.
Proof.
  intros Hnd. set (l := (λ p : str * nat, (p.2, 0)) <$> map_to_list (node_to_index graph)).
  assert (∀ i x, (i, x) ∈ l ↔ (i < length graph)%nat ∧ x = 0) as Hl.
  { intros i x. unfold l. rewrite list_elem_of_fmap. split.
    - intros ([s j] & [= -> ->] & Hj%elem_of_map_to_list). apply node_to_index_spec in Hj as (m & Hm & _); [|done].
      split; [by eapply lookup_lt_Some|done].
    - intros [Hi ->]. apply lookup_lt_is_Some in Hi as [m Hm]. exists (name m, i). split; [done|].
      apply elem_of_map_to_list, node_to_index_spec; [done|]. by exists m. }
  case_decide as Hb.
  - destruct ((list_to_map l : Degrees) !! b) as [x|] eqn:E.
    + apply elem_of_list_to_map_2, Hl in E as [_ ->]. done.
    + apply not_elem_of_list_to_map_2 in E. destruct E. apply list_elem_of_fmap. exists (b, 0). split; [done|]. by apply Hl.
  - apply not_elem_of_list_to_map_1. intros ([i x] & -> & [? _]%Hl)%list_elem_of_fmap. simpl in *. lia.
Qed.

Lemma check_indices graph l :
  (∀ i, i ∈ l → (i < length graph)%nat) → for_each (log_name graph) l () = Ret ().
Proof.
  induction l as [|i l IH]; intros Hl; [done|]. cbn [for_each].
  destruct (lookup_lt_is_Some_2 graph i) as [m Hm]; [apply Hl; by left|].
  rewrite (bind_eq _ _ ()) by (unfold log_name; by rewrite Hm). apply IH. intros j Hj. apply Hl. by right.
Qed.

(** What the loop leaves, and when it is complete. *)
Lemma load_order_spec graph :
  NoDup (name <$> graph) → Z.of_nat (length (edges graph)) < 2 ^ 31 →
  ∃ order deg, kahn (length graph) (edges graph) order [] deg ∧
    generate_binary_load_order iter graph =
      match filter (λ p, 0 < p.2) (iter deg) with (i, _) :: _ => Ret (Err i) | [] => Ret (Ok order) end.
Proof.
  intros Hnd Hlen. unfold generate_binary_load_order.
  destruct (add_nodes_ok (node_to_index graph) (length graph) graph 0 []
    (∅, list_to_map ((λ p, (p.2, 0)) <$> map_to_list (node_to_index graph)))) as ([dependents deg] & E & H1 & H2).
  - intros k m Hk. apply node_to_index_spec; [done|]. by exists m.
  - split; [intros d; simpl; by rewrite lookup_empty|]. intros b. by apply degrees_init.
  - done.
  - rewrite (bind_eq _ _ _ E). simpl in H1, H2.
    destruct (drain_ok (length graph) (edges graph) dependents (S (length graph)) _ [] deg H1 Hlen (kahn_init _ _ _ H2))
      as (order & deg' & E' & K); [simpl; lia|].
    exists order, deg'. split; [done|]. rewrite (bind_eq _ _ _ E'). destruct (filter _ (iter deg')) as [|[i x] l] eqn:Ef.
    + rewrite (bind_eq _ _ _ (check_indices graph order ltac:(intros i Hi; apply (kahn_range _ _ _ _ _ K); rewrite app_nil_r; done))). done.
    + assert ((i, x) ∈ filter (λ p : nat * Z, 0 < p.2) (iter deg')) as Hi by (rewrite Ef; by left).
      apply list_elem_of_filter in Hi as [_ Hi%iter_elem]. rewrite (kahn_degree _ _ _ _ _ K) in Hi. case_decide as Hb; [|done].
      destruct (lookup_lt_is_Some_2 graph i Hb) as [m ->]. done.
Qed.
End correct.

(** A set in which each depends on another excludes a ranking. *)
Lemma cycle_unranked (E : list (nat * nat)) i :
  (∃ cycle : nat → Prop, cycle i ∧ ∀ b, cycle b → ∃ d, cycle d ∧ (d, b) ∈ E) →
  (∃ cycle : nat → Prop, cycle i ∧ ∀ b, cycle b → ∃ d, cycle d ∧ (d, b) ∈ E) ∧
  ¬ ∃ rank : nat → nat, ∀ d b, (d, b) ∈ E → (rank d < rank b)%nat.
Proof.
  intros (cycle & Hi & Hc). split; [by exists cycle|]. intros [rank Hrank].
  assert (∀ k b, (rank b < k)%nat → ¬ cycle b) as Hno; [|by apply (Hno (S (rank i)) i); [lia|]].
  induction k as [|k IH]; intros b Hb Hcb; [lia|]. destruct (Hc b Hcb) as (d & Hd & He).
  apply (IH d); [|done]. specialize (Hrank d b He). lia.
Qed.

(** C12: the load order is right.  For binaries of distinct names, whatever order the hash
    map is iterated in, the computation ends without a panic; a reported order holds
    every binary once, each after all the binaries it depends on; an error is reported
    only for a binary in a set in which each depends on another of the set (a cycle),
    so never where the dependencies can be ranked. *)
Theorem load_order_correct iter graph :
  (∀ m, iter m ≡ₚ map_to_list m) → NoDup (name <$> graph) → Z.of_nat (length (edges graph)) < 2 ^ 31 →
  match generate_binary_load_order iter graph with
  | Ret (Ok order) => order ≡ₚ seq 0 (length graph) ∧
      ∀ l1 b l2 d, order = l1 ++ b :: l2 → (d, b) ∈ edges graph → d ∈ l1
  | Ret (Err i) => (i < length graph)%nat ∧
      (∃ cycle : nat → Prop, cycle i ∧ ∀ b, cycle b → ∃ d, cycle d ∧ (d, b) ∈ edges graph) ∧
      ¬ ∃ rank : nat → nat, ∀ d b, (d, b) ∈ edges graph → (rank d < rank b)%nat
  | Panic => False
  end.
Proof.
  intros Hiter Hnd Hlen. destruct (load_order_spec iter Hiter graph Hnd Hlen) as (order & deg & K & ->).
  destruct (filter _ (iter deg)) as [|[i x] l] eqn:Ef.
  - split; [|intros l1 b l2 d; by apply (kahn_order _ _ _ _ _ K)].
    apply NoDup_Permutation; [rewrite <- (app_nil_r order); apply K|apply NoDup_seq|]. intros b. rewrite elem_of_seq.
    split; [intros Hb; pose proof (kahn_range _ _ _ _ _ K b) as H; rewrite app_nil_r in H; specialize (H Hb); lia|].
    intros [_ Hb]. rewrite <- (app_nil_r order). apply (kahn_zero _ _ _ _ _ K); [lia|].
    pose proof (kahn_degree _ _ _ _ _ K b) as Hd. rewrite decide_True in Hd by lia. rewrite Hd. f_equal.
    pose proof (count_nonneg (live order b) (edges graph)). destruct (decide (0 < count (live order b) (edges graph))) as [Hp|]; [|lia].
    assert ((b, count (live order b) (edges graph)) ∈ filter (λ p : nat * Z, 0 < p.2) (iter deg)) as Hin.
    { apply list_elem_of_filter. split; [done|]. by apply iter_elem. }
    rewrite Ef in Hin. by apply elem_of_nil in Hin.
  - assert ((i, x) ∈ filter (λ p : nat * Z, 0 < p.2) (iter deg)) as Hi by (rewrite Ef; by left).
    apply list_elem_of_filter in Hi as [Hx Hi]. apply iter_elem in Hi; [|done]. simpl in Hx.
    assert (∀ b x, deg !! b = Some x → 0 < x → ∃ d y, deg !! d = Some y ∧ 0 < y ∧ (d, b) ∈ edges graph) as Hnext.
    { intros b y Hb Hy. rewrite (kahn_degree _ _ _ _ _ K) in Hb. case_decide; [|done]. injection Hb as <-.
      apply count_pos in Hy as ([d b'] & He & [Hb Hd]%andb_true_iff). apply bool_decide_eq_true in Hb. simpl in Hb. subst b'.
      apply negb_true_iff, bool_decide_eq_false in Hd. simpl in Hd. destruct (edges_range _ _ _ Hnd He) as [Hdn _].
      pose proof (kahn_degree _ _ _ _ _ K d) as Hdd. rewrite decide_True in Hdd by done.
      exists d, (count (live order d) (edges graph)). split_and!; [done| |done].
      pose proof (count_nonneg (live order d) (edges graph)). destruct (decide (count (live order d) (edges graph) = 0)) as [Hz|]; [|lia].
      rewrite Hz in Hdd. apply (kahn_zero _ _ _ _ _ K) in Hdd; [|done]. by rewrite app_nil_r in Hdd. }
    rewrite (kahn_degree _ _ _ _ _ K) in Hi. case_decide as Hb; [|done]. split; [done|].
    apply cycle_unranked. exists (λ b, ∃ y, deg !! b = Some y ∧ 0 < y). split.
    + exists x. split; [|done]. rewrite (kahn_degree _ _ _ _ _ K), decide_True by done. done.
    + intros b (y & Hb' & Hy). destruct (Hnext b y Hb' Hy) as (d & z & Hd & Hz & He). exists d. eauto.
Qed.

(** An app that needs two libraries, one of which needs the other. *)
Definition demo_graph : list BinaryDependencyNode :=
  [mkNode [65] [USR_LIB ++ [66]; USR_LIB ++ [67]; [68]]; mkNode [66] [USR_LIB ++ [67]]; mkNode [67] []].
Lemma load_order_correct_witness :
  generate_binary_load_order map_to_list demo_graph = Ret (Ok [2; 1; 0]%nat) ∧ [2; 1; 0]%nat ≡ₚ seq 0 3 ∧
  generate_binary_load_order map_to_list [mkNode [65] [[65]]] = Ret (Err 0%nat) ∧
  ¬ ∃ rank : nat → nat, ∀ d b, (d, b) ∈ edges [mkNode [65] [[65]]] → (rank d < rank b)%nat.
Proof.
  assert (generate_binary_load_order map_to_list demo_graph = Ret (Ok [2; 1; 0]%nat)) as E1 by (vm_compute; reflexivity).
  assert (generate_binary_load_order map_to_list [mkNode [65] [[65]]] = Ret (Err 0%nat)) as E2 by (vm_compute; reflexivity).
  pose proof (load_order_correct map_to_list demo_graph (λ m, Permutation_refl _)
    ltac:(apply (bool_decide_eq_true_1 _); vm_compute; reflexivity) ltac:(vm_compute; reflexivity)) as H1.
  pose proof (load_order_correct map_to_list [mkNode [65] [[65]]] (λ m, Permutation_refl _)
    ltac:(apply (bool_decide_eq_true_1 _); vm_compute; reflexivity) ltac:(vm_compute; reflexivity)) as H2.
  rewrite E1 in H1. rewrite E2 in H2. split_and!; [exact E1|exact (proj1 H1)|exact E2|exact (proj2 (proj2 H2))].
Defined.
