(* ===== verification/ObjcSync.v ===== *)
(** * [@synchronized] blocks ([objc/synchronization.rs])

    Each object that a thread is in, or waits for, a [@synchronized] block of has a
    recursive mutex, created on entry and destroyed on the last exit. *)

From S2P Require Import Prelude ChunkMap SizeBucketed VMAllocator HeapAllocator GuestMem Env Scheduler SchedulerFacts MutexFacts.

Definition objc_sync_enter (obj : Z) (e : Environment) : outcome (run Z) :=
  match sync_mutexes e !! obj with
  | Some mutex_id =>
      x ← lock_mutex mutex_id e;
      run_map (λ r e', _ ← expect_ok r; Ret (0, e')) x
  | None =>
      '(mutex_id, s) ← init_mutex PTHREAD_MUTEX_RECURSIVE (mutex_state e);
      x ← lock_mutex mutex_id (set_mutex_state s e);
      run_map (λ r e', _ ← expect_ok r; Ret (0, set_sync_mutexes (<[obj := mutex_id]> (sync_mutexes e')) e')) x
  end.

Definition objc_sync_exit (obj : Z) (e : Environment) : outcome (Z * Environment) :=
  match sync_mutexes e !! obj with
  | Some mutex_id =>
      '(r, e) ← unlock_mutex mutex_id e;
      match r with
      | Ok lock_count =>
          if lock_count =? 0 then
            '(d, s) ← destroy_mutex mutex_id (mutex_state e);
            let e := set_mutex_state s e in
            match d with
            | Ok _ => Ret (0, set_sync_mutexes (delete obj (sync_mutexes e)) e)
            | Err _ => Ret (0, e)
            end
          else Ret (0, e)
      | Err _ => Panic
      end
  | None => Panic
  end.

(** ** Invariant *)

(** In use: held, or waited for. *)
Definition in_use (m : Mutex) : Prop := is_Some (locked m) ∨ 0 < waiting_count m.

Definition sync_ok (e : Environment) : Prop :=
  process_ok e ∧
  (∀ obj id, sync_mutexes e !! obj = Some id →
     ∃ m, mutexes (mutex_state e) !! id = Some m ∧ mtype m = PTHREAD_MUTEX_RECURSIVE ∧ in_use m) ∧
  (∀ obj obj' id, sync_mutexes e !! obj = Some id → sync_mutexes e !! obj' = Some id → obj = obj').

(** Who is in the blocks of an object, and how many of them are open. *)
Definition holder (obj : Z) (e : Environment) : option (ThreadId * Z) :=
  sync_mutexes e !! obj ≫= λ id, mutexes (mutex_state e) !! id ≫= locked.

(** A change that keeps the table, and the type and use of its mutexes. *)
Definition keeps (e e' : Environment) : Prop :=
  sync_mutexes e' = sync_mutexes e ∧
  ∀ obj id m, sync_mutexes e !! obj = Some id → mutexes (mutex_state e) !! id = Some m →
    ∃ m', mutexes (mutex_state e') !! id = Some m' ∧ mtype m' = mtype m ∧ (in_use m → in_use m').

Lemma keeps_sync_ok e e' : sync_ok e → process_ok e' → keeps e e' → sync_ok e'.
Proof.
  intros (_ & Ht & Hi) Hp [Hs Hk]. split_and!; [done| |].
  - intros obj id. rewrite Hs. intros H. destruct (Ht obj id H) as (m & Hm & Hty & Hu).
    destruct (Hk obj id m H Hm) as (m' & Hm' & E & Hu'). exists m'. split_and!; [done|congruence|auto].
  - intros obj obj' id. rewrite Hs. apply Hi.
Qed.

Lemma keeps_same e e' : sync_mutexes e' = sync_mutexes e → mutex_state e' = mutex_state e → keeps e e'.
Proof. intros H1 H2. split; [done|]. intros obj id m _. rewrite H2. eauto. Qed.

(** A mutex that no object uses. *)
Definition unrelated (id : MutexId) (e : Environment) : Prop := ∀ obj, sync_mutexes e !! obj ≠ Some id.

Lemma keeps_unrelated e e' id :
  unrelated id e → sync_mutexes e' = sync_mutexes e →
  (∀ i, i ≠ id → mutexes (mutex_state e') !! i = mutexes (mutex_state e) !! i) → keeps e e'.
Proof.
  intros Hu Hs Hi. split; [done|]. intros obj i m Ho Hm. rewrite Hi; [eauto|]. intros ->. by apply (Hu obj).
Qed.

Lemma keeps_put e e' id m m' :
  sync_mutexes e' = sync_mutexes e → mutex_state e' = put_mutex id m' (mutex_state e) →
  mutexes (mutex_state e) !! id = Some m → mtype m' = mtype m → (in_use m → in_use m') → keeps e e'.
Proof.
  intros H1 H2 Hm Hty Hu. split; [done|]. intros obj i x _ Hx. rewrite H2. simpl. destruct (decide (id = i)) as [->|].
  - rewrite lookup_insert_eq. simplify_eq. eauto.
  - rewrite lookup_insert_ne by done. eauto.
Qed.

(** ** Locking and unlocking *)

Definition after {R} (x : run R) : Environment := match x with Finished _ e => e | Yielded e _ => e end.

(** Locking makes a mutex used, or leaves it so. *)
Lemma lock_mutex_keeps id e x : lock_mutex id e = Ret x →
  keeps e (after x) ∧ ∃ m m', mutexes (mutex_state e) !! id = Some m ∧
    mutex_state (after x) = put_mutex id m' (mutex_state e) ∧ mtype m' = mtype m ∧ in_use m'.
Proof.
  unfold lock_mutex. intros H. apply bind_ret_inv in H as (m & Hm%get_mutex_inv & H).
  assert (∀ e' m', after x = e' → mutex_state e' = put_mutex id m' (mutex_state e) → sync_mutexes e' = sync_mutexes e →
    mtype m' = mtype m → in_use m' → keeps e (after x) ∧ ∃ m m', mutexes (mutex_state e) !! id = Some m ∧
    mutex_state (after x) = put_mutex id m' (mutex_state e) ∧ mtype m' = mtype m ∧ in_use m') as Hput.
  { intros e' m' -> E1 E2 Hty Hu. split; [by eapply keeps_put|]. by exists m, m'. }
  destruct (locked m) as [[o c]|] eqn:El.
  2:{ injection H as <-. eapply Hput; [reflexivity..|]. left. by eexists. }
  destruct (decide _); [destruct (mtype m) eqn:Ety; [done| |]|].
  - injection H as <-. eapply (Hput e m); try done; [|left; rewrite El; by eexists].
    unfold put_mutex. rewrite insert_id by done. by destruct (mutex_state e).
  - apply bind_ret_inv in H as (n & _ & H). injection H as <-.
    eapply Hput; [reflexivity|reflexivity|reflexivity|done|]. left. by eexists.
  - apply bind_ret_inv in H as (w & _ & H). apply yield_thread_inv in H as (th & k & _ & _ & ->).
    eapply Hput; [reflexivity..|]. left. by eexists.
Qed.

Lemma unlock_mutex_frame id e r e' : unlock_mutex id e = Ret (r, e') →
  sync_mutexes e' = sync_mutexes e ∧ threads e' = threads e ∧
  ∃ m m', mutexes (mutex_state e) !! id = Some m ∧ mutex_state e' = put_mutex id m' (mutex_state e) ∧ mtype m' = mtype m ∧
    (∀ n, r = Ok n → n ≠ 0 → in_use m') ∧ (∀ err, r = Err err → e' = e).
Proof.
  unfold unlock_mutex. intros H. apply bind_ret_inv in H as (m & Hm%get_mutex_inv & H).
  assert (mutex_state e = put_mutex id m (mutex_state e)) as Hid.
  { unfold put_mutex. rewrite insert_id by done. by destruct (mutex_state e). }
  destruct (locked m) as [[o c]|] eqn:El.
  2:{ destruct (mtype m); [done|injection H as <- <-..]; (split_and!; [done..|]; exists m, m; split_and!; naive_solver). }
  destruct (_ && _); [injection H as <- <-; split_and!; [done..|]; exists m, m; split_and!; naive_solver|].
  destruct (c =? 1).
  - injection H as <- <-. split_and!; [done..|]. eexists m, _. split_and!; [done|reflexivity|done|naive_solver|done].
  - apply bind_ret_inv in H as (u & _ & H). apply bind_ret_inv in H as (n & _ & H). apply bind_ret_inv in H as (u' & _ & H).
    injection H as <- <-. split_and!; [done..|]. eexists m, _. split_and!; [done|reflexivity|done| |done].
    intros _ _ _. left. by eexists.
Qed.

(** ** Entering and leaving *)

Lemma run_map_after {R R'} (f : R → Environment → outcome (R' * Environment)) x y :
  run_map f x = Ret y →
  match x with Finished r e => ∃ r', f r e = Ret (r', after y) | Yielded e _ => after y = e end.
Proof.
  destruct x as [r e|e k]; simpl; [|by intros [= <-]]. intros H. apply bind_ret_inv in H as ([r' e'] & E & H).
  injection H as <-. by exists r'.
Qed.

Lemma runnable_set_mutex_state t s e : runnable t e → runnable t (set_mutex_state s e).
Proof. done. Qed.

Lemma lock_process_ok e id x :
  process_ok e → runnable (current_thread e) e → lock_mutex id e = Ret x → process_ok (after x).
Proof. intros Hok Hr H. pose proof (lock_mutex_ok e id x Hok Hr H). by destruct x. Qed.

(** A new object in the table. *)
Lemma sync_ok_insert e obj id m :
  sync_ok e → unrelated id e → mutexes (mutex_state e) !! id = Some m → mtype m = PTHREAD_MUTEX_RECURSIVE → in_use m →
  sync_ok (set_sync_mutexes (<[obj := id]> (sync_mutexes e)) e).
Proof.
  intros (Hp & Ht & Hi) Hu Hm Hty Huse. split_and!; [done|..]; simpl.
  - intros o i. destruct (decide (o = obj)) as [->|]; [rewrite lookup_insert_eq; intros [= <-]; eauto|].
    rewrite lookup_insert_ne by done. apply Ht.
  - intros o o' i. rewrite !lookup_insert_Some. intros [[<- <-]|[? Ho]] [[<- ?]|[? Ho']]; subst; try done.
    + by destruct (Hu o').
    + by destruct (Hu o).
    + by eapply Hi.
Qed.

Lemma objc_sync_enter_ok obj e x :
  sync_ok e → runnable (current_thread e) e → objc_sync_enter obj e = Ret x → sync_ok (after x).
Proof.
  intros Hok Hr H. unfold objc_sync_enter in H. destruct (sync_mutexes e !! obj) as [id|] eqn:Eo.
  - apply bind_ret_inv in H as (y & Hy & H). pose proof (lock_process_ok _ _ _ (proj1 Hok) Hr Hy) as Hp.
    destruct (lock_mutex_keeps _ _ _ Hy) as [Hk _].
    assert (after x = after y) as ->; [|by eapply keeps_sync_ok].
    apply run_map_after in H. destruct y as [r e1|e1 k]; [|done]. destruct H as [r' H].
    apply bind_ret_inv in H as (u & _ & H). by injection H.
  - apply bind_ret_inv in H as ([id s] & Hinit & H). apply bind_ret_inv in H as (y & Hy & H).
    pose proof (init_mutex_ok _ _ _ _ (proj1 Hok) Hinit) as Hp1.
    pose proof (lock_process_ok _ _ _ Hp1 (runnable_set_mutex_state _ s _ Hr) Hy) as Hp2.
    unfold init_mutex in Hinit. apply bind_ret_inv in Hinit as (n & Hn & Hinit). injection Hinit as <- <-.
    set (id := mutex_count (mutex_state e)) in *. set (e1 := set_mutex_state _ e) in *.
    assert (∀ o i, sync_mutexes e !! o = Some i → i ≠ id) as Hfresh.
    { intros o i Ho ->. destruct (proj1 (proj2 Hok) o id Ho) as (m & Hm & _). apply (proj1 (proj1 Hok)) in Hm as [? _].
      unfold id in *. lia. }
    assert (sync_ok e1) as Hok1.
    { eapply keeps_sync_ok; [done|done|]. apply (keeps_unrelated _ _ id); [intros o Ho; by apply (Hfresh o id Ho)|done|].
      intros i Hi. unfold e1. simpl. by rewrite lookup_insert_ne. }
    destruct (lock_mutex_keeps _ _ _ Hy) as (Hk & m & m' & Hm & Hs & Hty & Hu).
    assert (mtype m = PTHREAD_MUTEX_RECURSIVE) as Hrec.
    { unfold e1 in Hm. simpl in Hm. rewrite lookup_insert_eq in Hm. by injection Hm as <-. }
    pose proof (keeps_sync_ok _ _ Hok1 Hp2 Hk) as Hok2. apply run_map_after in H.
    destruct y as [r e2|e2 k]; [|by rewrite H]. destruct H as [r' H]. apply bind_ret_inv in H as (u & _ & H).
    injection H as _ <-. apply (sync_ok_insert _ _ _ m'); [done| | |congruence|done].
    + intros o Ho. cbn [after] in Hk. rewrite (proj1 Hk) in Ho. by apply (Hfresh o id).
    + cbn [after] in Hs. rewrite Hs. simpl. by rewrite lookup_insert_eq.
Qed.

Lemma objc_sync_exit_ok obj e r e' :
  sync_ok e → runnable (current_thread e) e → objc_sync_exit obj e = Ret (r, e') → sync_ok e'.
Proof.
  intros Hok Hr H. unfold objc_sync_exit in H. destruct (sync_mutexes e !! obj) as [id|] eqn:Eo; [|done].
  apply bind_ret_inv in H as ([ru e1] & Hu & H). pose proof (unlock_mutex_ok _ _ _ _ (proj1 Hok) Hr Hu) as Hp1.
  destruct (unlock_mutex_frame _ _ _ _ Hu) as (Hs & _ & m & m' & Hm & Hms & Hty & Huse & _).
  destruct ru as [n|]; [|done]. destruct (Z.eqb_spec n 0) as [->|Hn].
  2:{ injection H as <- <-. eapply keeps_sync_ok; [done|done|]. eapply keeps_put; [done|done|done|done|]. intros _. by eapply Huse. }
  apply bind_ret_inv in H as ([d s] & Hd & H). pose proof (destroy_mutex_ok _ _ _ _ Hp1 Hd) as Hp2.
  assert (mutexes (mutex_state e1) !! id = Some m') as Hm' by (rewrite Hms; simpl; by rewrite lookup_insert_eq).
  assert (0 ≤ waiting_count m') as Hw by (destruct (proj1 Hp1 _ _ Hm') as (_ & -> & _); lia).
  unfold destroy_mutex, get_mutex in Hd. rewrite Hm' in Hd. simpl in Hd.
  assert (∀ s0, s0 = mutex_state e1 → in_use m' → process_ok (set_mutex_state s0 e1) → sync_ok (set_mutex_state s0 e1)) as Hkept.
  { intros s0 -> Hiu Hp. eapply keeps_sync_ok; [done|done|]. by eapply keeps_put. }
  destruct (locked m') eqn:El; [injection Hd as <- <-; injection H as <- <-; apply Hkept; [done|left; by rewrite El|done]|].
  destruct (Z.eqb_spec (waiting_count m') 0); simpl in Hd; injection Hd as <- <-; injection H as <- <-.
  2:{ apply Hkept; [done|right; lia|done]. }
  destruct Hok as (_ & Ht & Hi). split_and!; [done|..]; simpl; rewrite Hs.
  - intros o i [Hne Ho]%lookup_delete_Some. assert (i ≠ id) as Hii by (intros ->; apply Hne; by eapply Hi).
    destruct (Ht o i Ho) as (x & Hx & ? & ?). exists x. split_and!; [|done|done].
    rewrite Hms. simpl. by rewrite lookup_delete_ne, lookup_insert_ne.
  - intros o o' i [_ Ho]%lookup_delete_Some [_ Ho']%lookup_delete_Some. by eapply Hi.
Qed.

(** ** The other steps *)

Lemma keeps_trans e1 e2 e3 : keeps e1 e2 → keeps e2 e3 → keeps e1 e3.
Proof.
  intros [S1 K1] [S2 K2]. split; [congruence|]. intros obj id m Ho Hm.
  destruct (K1 obj id m Ho Hm) as (m1 & Hm1 & T1 & U1). rewrite <- S1 in Ho.
  destruct (K2 obj id m1 Ho Hm1) as (m2 & Hm2 & T2 & U2). exists m2. split_and!; [done|congruence|auto].
Qed.

Lemma set_block_keeps t b e e' : set_block t b e = Ret e' → keeps e e'.
Proof. intros (th & _ & ->)%set_block_inv. by apply keeps_same. Qed.

Lemma relock_keeps t id e e' : relock_unblocked_mutex_for_thread t id e = Ret e' → keeps e e'.
Proof.
  unfold relock_unblocked_mutex_for_thread. intros H. apply bind_ret_inv in H as (m & Hm%get_mutex_inv & H).
  apply bind_ret_inv in H as (u & _ & H). injection H as <-. eapply keeps_put; [done|reflexivity|done|done|].
  intros _. left. by eexists.
Qed.

Lemma schedule_candidate_keeps now sys t next e s e' :
  schedule_candidate now sys t next e = Ret (inr (s, e')) → keeps e e'.
Proof.
  intros H. unfold schedule_candidate, get_thread in H.
  destruct (threads e !! t) as [th|] eqn:Ht; simpl in H; [|done].
  destruct (active th); simpl in H; [|done].
  assert (∀ e0 e1 b, sync_mutexes e0 = sync_mutexes e → mutex_state e0 = mutex_state e → set_block t b e0 = Ret e1 → keeps e e1) as Hwake.
  { intros e0 e1 b E1 E2 Hs. eapply keeps_trans; [by apply (keeps_same e e0)|by eapply set_block_keeps]. }
  destruct (blocked_by th) eqn:Hb; simpl in H; try done.
  - ret_inv H; simplify_eq. by apply keeps_same.
  - ret_inv H; simplify_eq. by eapply Hwake.
  - ret_inv H; simplify_eq. eapply keeps_trans; [by eapply set_block_keeps|by eapply relock_keeps].
  - ret_inv H; simplify_eq. eapply Hwake; [..|exact H1]; done.
  - ret_inv H; simplify_eq; (eapply keeps_trans; [|by eapply relock_keeps]); match goal with Hs : set_block _ _ _ = Ret _ |- _ => by eapply Hwake; [..|exact Hs] end.
  - apply bind_ret_inv in H as (j & _ & H). destruct (negb _); [|done].
    apply bind_ret_inv in H as (e1 & H1 & H). apply bind_ret_inv in H as (e2 & H2 & H). simplify_eq.
    eapply (Hwake e1); [..|done]; ret_inv H1; by simplify_eq.
  - ret_inv H; simplify_eq.
  - ret_inv H; simplify_eq. apply try_acquire_inv in H0 as [fs ->]. eapply Hwake; [..|exact H1]; done.
Qed.

Lemma schedule_sync_ok clks e t e' :
  sync_ok e → schedule_next_thread clks e = Ret (Some (t, e')) → sync_ok e'.
Proof.
  apply schedule_preserves. intros now sys u next e1 s e2 Hok H. eapply keeps_sync_ok; [done| |by eapply schedule_candidate_keeps].
  eapply schedule_candidate_ok; [apply Hok|done].
Qed.

(** A process with [@synchronized] blocks, mutexes of its own, and threads that sleep, wait for
    each other, suspend each other, start and end. *)
Inductive sync_step : Environment → Environment → Prop :=
| sync_enter e obj x :
    runnable (current_thread e) e → objc_sync_enter obj e = Ret x → sync_step e (after x)
| sync_exit e obj r e' :
    runnable (current_thread e) e → objc_sync_exit obj e = Ret (r, e') → sync_step e e'
| sync_schedule e clks t e' :
    schedule_next_thread clks e = Ret (Some (t, e')) → sync_step e (set_current t e')
| sync_lock e id x :
    runnable (current_thread e) e → lock_mutex id e = Ret x → sync_step e (after x)
| sync_unlock e id r e' :
    runnable (current_thread e) e → unrelated id e → unlock_mutex id e = Ret (r, e') → sync_step e e'
| sync_destroy e id r s :
    runnable (current_thread e) e → unrelated id e → destroy_mutex id (mutex_state e) = Ret (r, s) →
    sync_step e (set_mutex_state s e)
| sync_sleep e now d x :
    runnable (current_thread e) e → sleep now d e = Ret x → sync_step e (after x)
| sync_suspend e t e' :
    runnable (current_thread e) e → suspend_thread t e = Ret e' ∨ resume_thread t e = Ret e' → sync_step e e'
| sync_new e n t e' :
    runnable (current_thread e) e → new_thread n e = Ret (t, e') → sync_step e e'
| sync_thread_exit e v e' :
    runnable (current_thread e) e → thread_returned v e = Ret e' → sync_step e e'.

Lemma sync_step_ok e e' : sync_ok e → sync_step e e' → sync_ok e'.
Proof.
  intros Hok. assert (∀ e1, process_step e e1 → keeps e e1 → sync_ok e1) as Hk.
  { intros e1 Hs. eapply keeps_sync_ok; [done|]. eapply process_step_ok; [apply Hok|done]. }
  destruct 1 as [e obj x ? H|e obj r e' ? H|e clks t e' H|e id x ? H|e id r e' ? Hu H|e id r s ? Hu H|e now d x ? H
    |e t e' ? H|e n t e' ? H|e v e' ? H].
  - by eapply objc_sync_enter_ok.
  - by eapply objc_sync_exit_ok.
  - assert (sync_ok e') as Hok' by (by eapply schedule_sync_ok). exact Hok'.
  - destruct (lock_mutex_keeps _ _ _ H) as [Hkeep _].
    apply Hk; [|done]. destruct x as [r e1|e1 k]; [by eapply step_lock|by eapply step_lock_blocked].
  - apply Hk; [by eapply step_unlock|]. destruct (unlock_mutex_frame _ _ _ _ H) as (Hs & _ & m & m' & _ & Hms & _).
    eapply keeps_unrelated; [done|done|]. intros i Hi. rewrite Hms. simpl. by rewrite lookup_insert_ne.
  - apply Hk; [by eapply step_destroy|]. eapply keeps_unrelated; [done|done|]. intros i Hi. simpl.
    unfold destroy_mutex in H. ret_inv H; simplify_eq; simpl; by rewrite ?lookup_delete_ne.
  - pose proof H as (th & k & _ & _ & ->)%yield_thread_inv. apply Hk; [by eapply step_sleep|by apply keeps_same].
  - apply Hk; [destruct H; [by eapply step_suspend|by eapply step_resume]|].
    destruct H as [H|H]; unfold suspend_thread, resume_thread in H; ret_inv H; by eapply set_block_keeps.
  - apply Hk; [by eapply step_new|]. unfold new_thread in H. ret_inv H. simplify_eq. by apply keeps_same.
  - apply Hk; [by eapply step_exit|]. unfold thread_returned in H. apply update_thread_inv in H as (th & _ & ->). by apply keeps_same.
Qed.

(** ** What the calls do *)

Lemma holder_frame obj e e' id m' :
  sync_ok e → sync_mutexes e' = sync_mutexes e → mutex_state e' = put_mutex id m' (mutex_state e) →
  sync_mutexes e !! obj ≠ Some id → holder obj e' = holder obj e.
Proof.
  intros _ Hs Hm Hne. unfold holder. rewrite Hs, Hm. destruct (sync_mutexes e !! obj) as [i|] eqn:E; [|done].
  simpl. rewrite lookup_insert_ne by congruence. done.
Qed.

Lemma holder_put obj e e' id m' l :
  sync_mutexes e' = sync_mutexes e → mutex_state e' = put_mutex id m' (mutex_state e) →
  sync_mutexes e !! obj = Some id → locked m' = l → holder obj e' = l.
Proof. intros Hs Hm Ho <-. unfold holder. rewrite Hs, Hm, Ho. simpl. by rewrite lookup_insert_eq. Qed.

(** No counter is at its limit. *)
Definition counters_below (e : Environment) : Prop :=
  0 ≤ mutex_count (mutex_state e) < 2 ^ 64 - 1 ∧
  ∀ id m, mutexes (mutex_state e) !! id = Some m → waiting_count m < 2 ^ 32 - 1 ∧
    ∀ t c, locked m = Some (t, c) → c < 2 ^ 32 - 1.

Lemma objc_sync_enter_spec obj e :
  sync_ok e → runnable (current_thread e) e → counters_below e →
  let cur := current_thread e in
  match holder obj e with
  | Some (o, c) =>
      if decide (o = cur)
      then ∃ e', objc_sync_enter obj e = Ret (Finished 0 e') ∧ holder obj e' = Some (cur, c + 1) ∧
             ∀ x, x ≠ obj → holder x e' = holder x e
      else ∃ e' k, objc_sync_enter obj e = Ret (Yielded e' k) ∧ ∀ x, holder x e' = holder x e
  | None => ∃ e', objc_sync_enter obj e = Ret (Finished 0 e') ∧ holder obj e' = Some (cur, 1) ∧
              ∀ x, x ≠ obj → holder x e' = holder x e
  end.
Proof.
  intros Hok Hr [Hmc Hcb] cur. pose proof Hok as (Hp & Ht & Hi). unfold holder at 1, objc_sync_enter.
  destruct (sync_mutexes e !! obj) as [id|] eqn:Eo; simpl.
  - destruct (Ht obj id Eo) as (m & Hm & Hty & _). rewrite Hm. simpl. destruct (Hcb id m Hm) as [Hw Hc].
    destruct (proj1 Hp id m Hm) as (_ & Hwc & Hl). unfold lock_mutex, get_mutex. rewrite Hm. simpl.
    assert (∀ x, x ≠ obj → sync_mutexes e !! x ≠ Some id) as Hother by (intros x Hx E; apply Hx; by eapply Hi).
    destruct (locked m) as [[o c]|] eqn:El; simpl.
    + destruct (Hl o c eq_refl) as (Hc1 & _). specialize (Hc o c eq_refl). destruct (decide (o = cur)) as [->|Hne].
      * rewrite decide_True, Hty, u32_ok by (done || unfold U32_MOD; lia). simpl. eexists. split; [reflexivity|]. split.
        -- by eapply (holder_put obj e); [|reflexivity|..].
        -- intros x Hx. eapply holder_frame; [done|done|reflexivity|auto].
      * rewrite decide_False, u32_ok by (done || unfold U32_MOD; lia). simpl.
        destruct Hr as (th & Hth & _ & Hb). unfold block_on_mutex, yield_thread, get_thread. simpl. rewrite Hth. simpl.
        unfold is_blocked. rewrite Hb. simpl. unfold set_block, update_thread, get_thread. simpl. rewrite Hth. simpl.
        eexists _, _. split; [reflexivity|]. intros x. destruct (decide (x = obj)) as [->|Hx].
        -- eapply (holder_put obj e); [done|reflexivity|done|]. simpl. unfold holder. rewrite Eo. simpl. by rewrite Hm.
        -- eapply holder_frame; [done|done|reflexivity|auto].
    + eexists. split; [reflexivity|]. split.
      * by eapply (holder_put obj e); [|reflexivity|..].
      * intros x Hx. eapply holder_frame; [done|done|reflexivity|auto].
  - unfold init_mutex. rewrite u64_ok by (unfold U64_MOD; lia). simpl. unfold lock_mutex, get_mutex. simpl. rewrite lookup_insert_eq. simpl.
    eexists. split; [reflexivity|]. unfold holder. simpl. rewrite lookup_insert_eq. simpl. rewrite lookup_insert_eq. split; [done|].
    intros x Hx. rewrite lookup_insert_ne by done. destruct (sync_mutexes e !! x) as [i|] eqn:Ex; [|done]. simpl.
    destruct (Ht x i Ex) as (m & Hm & _). apply (proj1 Hp) in Hm as [Hlt _].
    by rewrite !lookup_insert_ne by lia.
Qed.

Lemma objc_sync_exit_spec obj e :
  sync_ok e → runnable (current_thread e) e → counters_below e →
  let cur := current_thread e in
  match holder obj e with
  | Some (o, c) =>
      if decide (o = cur)
      then ∃ e', objc_sync_exit obj e = Ret (0, e') ∧
             holder obj e' = (if decide (c = 1) then None else Some (cur, c - 1)) ∧
             ∀ x, x ≠ obj → holder x e' = holder x e
      else objc_sync_exit obj e = Panic
  | None => objc_sync_exit obj e = Panic
  end.
Proof.
  intros Hok Hr [_ Hcb] cur. pose proof Hok as (Hp & Ht & Hi). unfold holder at 1, objc_sync_exit.
  destruct (sync_mutexes e !! obj) as [id|] eqn:Eo; simpl; [|done].
  destruct (Ht obj id Eo) as (m & Hm & Hty & _). rewrite Hm. simpl. destruct (Hcb id m Hm) as [_ Hc].
  destruct (proj1 Hp id m Hm) as (_ & _ & Hl). unfold unlock_mutex, get_mutex. rewrite Hm. simpl.
  assert (∀ x, x ≠ obj → sync_mutexes e !! x ≠ Some id) as Hother by (intros x Hx E; apply Hx; by eapply Hi).
  destruct (locked m) as [[o c]|] eqn:El; simpl; [|by rewrite Hty].
  destruct (Hl o c eq_refl) as (Hc1 & _). specialize (Hc o c eq_refl). rewrite Hty.
  rewrite (bool_decide_eq_false_2 (PTHREAD_MUTEX_RECURSIVE = PTHREAD_MUTEX_NORMAL)), andb_true_r by done.
  destruct (decide (o = cur)) as [->|Hne]; [rewrite bool_decide_eq_true_2 by done|by rewrite bool_decide_eq_false_2].
  cbn [negb]. destruct (decide (c = 1)) as [->|Hc1'].
  - rewrite Z.eqb_refl. simpl. unfold destroy_mutex, get_mutex. simpl. rewrite lookup_insert_eq. simpl.
    destruct (waiting_count m =? 0); simpl; (eexists; split; [reflexivity|]).
    + split; [unfold holder; simpl; by rewrite lookup_delete_eq|]. intros x Hx. unfold holder. simpl.
      rewrite lookup_delete_ne by done. destruct (sync_mutexes e !! x) as [i|] eqn:Ex; [|done]. simpl.
      assert (id ≠ i) by (intros ->; by destruct (Hother x Hx)). by rewrite lookup_delete_ne, lookup_insert_ne.
    + split; [by eapply (holder_put obj e); [|reflexivity|..]|].
      intros x Hx. eapply holder_frame; [done|done|reflexivity|auto].
  - rewrite (proj2 (Z.eqb_neq _ _)) by done. rewrite bool_decide_eq_true_2, u32_ok by (done || unfold U32_MOD; lia). simpl.
    rewrite (proj2 (Z.eqb_neq _ _)) by lia. simpl. rewrite (proj2 (Z.eqb_neq _ _)) by lia.
    eexists. split; [reflexivity|]. split; [by eapply (holder_put obj e); [|reflexivity|..]|].
    intros x Hx. eapply holder_frame; [done|done|reflexivity|auto].
Qed.

(** ** Reachable states *)

Lemma sync_reachable_ok e0 e :
  initial_process e0 → sync_mutexes e0 = ∅ → rtc sync_step e0 e → sync_ok e.
Proof.
  intros H0 Hs Hr. assert (sync_ok e0) as Hok.
  { split_and!; [by apply initial_process_ok|..]; intros *; by rewrite Hs, lookup_empty. }
  clear H0 Hs. induction Hr; eauto using sync_step_ok.
Qed.

(** C11: [@synchronized] blocks exclude each other.  In every state a process reaches, a
    thread that enters a block of an object goes on exactly if no other thread is in a
    block of that object, and otherwise is suspended; blocks of one thread nest; leaving
    closes one of them, and panics in a thread that is not in a block of the object; no
    other object is affected. *)
Theorem synchronized_blocks_exclude e0 e obj :
  initial_process e0 → sync_mutexes e0 = ∅ → rtc sync_step e0 e →
  runnable (current_thread e) e → counters_below e →
  let cur := current_thread e in
  match holder obj e with
  | None =>
      (∃ e', objc_sync_enter obj e = Ret (Finished 0 e') ∧ holder obj e' = Some (cur, 1) ∧
         ∀ x, x ≠ obj → holder x e' = holder x e) ∧
      objc_sync_exit obj e = Panic
  | Some (o, c) =>
      if decide (o = cur) then
        (∃ e', objc_sync_enter obj e = Ret (Finished 0 e') ∧ holder obj e' = Some (cur, c + 1) ∧
           ∀ x, x ≠ obj → holder x e' = holder x e) ∧
        (∃ e', objc_sync_exit obj e = Ret (0, e') ∧
           holder obj e' = (if decide (c = 1) then None else Some (cur, c - 1)) ∧
           ∀ x, x ≠ obj → holder x e' = holder x e)
      else
        (∃ e' k, objc_sync_enter obj e = Ret (Yielded e' k) ∧ ∀ x, holder x e' = holder x e) ∧
        objc_sync_exit obj e = Panic
  end.
Proof.
  intros H0 Hs Hr Hrun Hb cur. pose proof (sync_reachable_ok _ _ H0 Hs Hr) as Hok.
  pose proof (objc_sync_enter_spec obj e Hok Hrun Hb) as He. pose proof (objc_sync_exit_spec obj e Hok Hrun Hb) as Hx.
  cbv zeta in He, Hx. destruct (holder obj e) as [[o c]|]; [|done]. fold cur in He, Hx. by destruct (decide (o = cur)).
Qed.

(** No mutex is leaked.  In every state a process reaches, an object has a mutex only
    while a thread is in one of its blocks or waits to enter one, and two objects never
    share a mutex. *)
Theorem synchronized_no_leak e0 e obj id :
  initial_process e0 → sync_mutexes e0 = ∅ → rtc sync_step e0 e → sync_mutexes e !! obj = Some id →
  (is_Some (holder obj e) ∨ ∃ t th, threads e !! t = Some th ∧ waits_on id (blocked_by th) = true) ∧
  ∀ obj', sync_mutexes e !! obj' = Some id → obj' = obj.
Proof.
  intros H0 Hs Hr Ho. destruct (sync_reachable_ok _ _ H0 Hs Hr) as (Hp & Ht & Hi). split; [|by intros; eapply Hi].
  destruct (Ht obj id Ho) as (m & Hm & _ & [Hu|Hu]).
  - left. unfold holder. rewrite Ho. simpl. by rewrite Hm.
  - right. destruct (proj1 Hp id m Hm) as (_ & Hc & _). unfold waiters in Hc.
    destruct (filter _ (threads e)) as [|th l] eqn:Ef; [simpl in Hc; lia|].
    assert (th ∈ th :: l) as Hin by left. rewrite <- Ef in Hin.
    apply list_elem_of_filter in Hin as [Hw [t Hth]%list_elem_of_lookup]. eauto.
Qed.

(** Thread 0 enters a block, and thread 1 is scheduled. *)
Definition one_inside : outcome Environment :=
  x ← objc_sync_enter 100 (demo_env 0 three_threads);
  s ← schedule_next_thread [clock_at 0] (after x);
  '(t, e) ← unwrap s;
  Ret (set_current t e).

Lemma one_inside_reached : ∃ e, one_inside = Ret e ∧ rtc sync_step (demo_env 0 three_threads) e.
Proof.
  assert (is_ret one_inside = true) as [e E]%is_ret_inv by (vm_compute; reflexivity). exists e. split; [exact E|].
  unfold one_inside in E. apply bind_ret_inv in E as (x & Hx & E). apply bind_ret_inv in E as (s & Hs & E).
  apply bind_ret_inv in E as ([t e1] & Ht & E). injection E as <-. destruct s as [[t' e']|]; [|discriminate Ht].
  injection Ht as -> ->.
  eapply rtc_l; [eapply (sync_enter _ 100); [eexists; repeat split|exact Hx]|].
  eapply rtc_l; [eapply sync_schedule; exact Hs|]. apply rtc_refl.
Qed.

Lemma demo_initial : initial_process (demo_env 0 three_threads) ∧ sync_mutexes (demo_env 0 three_threads) = ∅.
Proof. split; [|reflexivity]. split; [reflexivity|]. intros [|[|[|t]]] th; intros [= <-]; reflexivity. Qed.

(** What is seen of the state. *)
Definition one_inside_view : outcome (option (ThreadId * Z) * ThreadId * option Thread * gmap Z Mutex * Z * option MutexId) :=
  e ← one_inside;
  Ret (holder 100 e, current_thread e, threads e !! 1%nat, mutexes (mutex_state e), mutex_count (mutex_state e),
       sync_mutexes e !! 100).

Lemma synchronized_blocks_exclude_witness : ∃ e, one_inside = Ret e ∧
  (∃ e' k, objc_sync_enter 100 e = Ret (Yielded e' k)) ∧ objc_sync_exit 100 e = Panic.
Proof.
  destruct one_inside_reached as (e & E & Hr). exists e. split; [exact E|].
  assert (one_inside_view = Ret (Some (0%nat, 1), 1%nat, three_threads !! 1%nat, {[0 := mkMutex PTHREAD_MUTEX_RECURSIVE 0 (Some (0%nat, 1))]}, 1, Some 0)) as V
    by (vm_compute; reflexivity).
  unfold one_inside_view in V. rewrite E in V. cbn [mbind outcome_bind] in V. injection V as V1 V2 V3 V4 V5 V6.
  assert (runnable (current_thread e) e) as Hrun by (rewrite V2; eexists; split; [exact V3|split; reflexivity]).
  assert (counters_below e) as Hb.
  { split; [rewrite V5; lia|]. intros id m. rewrite V4. intros [<- <-]%lookup_singleton_Some. split; [simpl; lia|].
    intros t c [= <- <-]. lia. }
  pose proof (synchronized_blocks_exclude _ _ 100 (proj1 demo_initial) (proj2 demo_initial) Hr Hrun Hb) as H.
  cbv zeta in H. rewrite V1, V2 in H. destruct H as [(e' & k & H1 & _) H2]. eauto.
Defined.

Lemma synchronized_no_leak_witness : ∃ e, one_inside = Ret e ∧ sync_mutexes e !! 100 = Some 0 ∧
  (is_Some (holder 100 e) ∨ ∃ t th, threads e !! t = Some th ∧ waits_on 0 (blocked_by th) = true).
Proof.
  destruct one_inside_reached as (e & E & Hr). exists e. split; [exact E|].
  assert ((e ← one_inside; Ret (sync_mutexes e !! 100)) = Ret (Some 0)) as V by (vm_compute; reflexivity).
  rewrite E in V. cbn [mbind outcome_bind] in V. injection V as V. split; [exact V|].
  apply (synchronized_no_leak _ _ 100 0 (proj1 demo_initial) (proj2 demo_initial) Hr V).
Defined.
