(* ===== verification/Objects.v ===== *)
(** * Objective-C objects and autorelease pools

    The table of objects with their reference counts ([objc/objects.rs]), the messages that
    count references ([objc/messages.rs], [ns_object.rs], [objc/arc.rs]) and
    [NSAutoreleasePool] ([ns_autorelease_pool.rs]).  A message goes to the implementation of
    the receiver's class: those of [NSObject], of [NSAutoreleasePool] and of classes are
    modelled, classes that override them are not. *)

From S2P Require Import Prelude ChunkMap SizeBucketed VMAllocator HeapAllocator GuestMem.

Notation ThreadId := nat (only parsing).
Definition nil_id : Z := 0.

(** Which implementation of [retain], [release], [autorelease] and [dealloc] a class has. *)
Inductive Implementation := NSObject | NSAutoreleasePool | ClassObject.

Inductive AnyHostObject :=
| TrivialHostObject
| NSAutoreleasePoolHostObject (original_thread : ThreadId) (pool_objects : list Z)
| ClassHostObject (instance_size : Z) (impl : Implementation).

(** [refcount] is a [NonZeroU32], or [None] for an object of static duration. *)
Record HostObjectEntry := mkEntry { host_object : AnyHostObject; refcount : option Z }.

(** What the runtime uses of the environment: [pool_stack] is the running thread's. *)
Record ObjC := mkObjC {
  objects : gmap Z HostObjectEntry;
  guest : Mem;
  pool_stacks : gmap ThreadId (list Z);
  thread : ThreadId
}.
Definition set_objects (x : gmap Z HostObjectEntry) (s : ObjC) : ObjC := mkObjC x (guest s) (pool_stacks s) (thread s).
Definition set_guest (x : Mem) (s : ObjC) : ObjC := mkObjC (objects s) x (pool_stacks s) (thread s).
Definition set_pools (x : gmap ThreadId (list Z)) (s : ObjC) : ObjC := mkObjC (objects s) (guest s) x (thread s).

(** ** Objects *)

Definition read_isa (object : Z) (m : Mem) : outcome Z := read_u32 object m.

Definition alloc_object_inner (isa instance_size : Z) (host : AnyHostObject) (rc : option Z) (s : ObjC)
    : outcome (Z * ObjC) :=
  rassert (4 <=? instance_size);;
  '(ptr, m) ← mem_alloc instance_size (guest s);
  m ← write_u32 ptr isa m;
  rassert (bool_decide (objects s !! ptr = None));;
  Ret (ptr, set_objects (<[ptr := mkEntry host rc]> (objects s)) (set_guest m s)).

(** [borrow::<ClassHostObject>(isa)]. *)
Definition borrow_class (isa : Z) (s : ObjC) : outcome (Z * Implementation) :=
  match objects s !! isa with
  | Some (mkEntry (ClassHostObject n i) _) => Ret (n, i)
  | _ => Panic
  end.

Definition alloc_object (isa : Z) (host : AnyHostObject) (s : ObjC) : outcome (Z * ObjC) :=
  '(instance_size, _) ← borrow_class isa s;
  alloc_object_inner isa instance_size host (Some 1) s.

Definition alloc_static_object (isa : Z) (host : AnyHostObject) (s : ObjC) : outcome (Z * ObjC) :=
  alloc_object_inner isa 4 host None s.

Definition register_static_object (object : Z) (host : AnyHostObject) (s : ObjC) : outcome ObjC :=
  rassert (bool_decide (objects s !! object = None));;
  Ret (set_objects (<[object := mkEntry host None]> (objects s)) s).

Definition get_refcount (object : Z) (s : ObjC) : outcome Z :=
  entry ← unwrap (objects s !! object);
  unwrap (refcount entry).

Definition increment_refcount (object : Z) (s : ObjC) : outcome ObjC :=
  entry ← unwrap (objects s !! object);
  n ← unwrap (refcount entry);
  n' ← u32 (n + 1);
  Ret (set_objects (<[object := mkEntry (host_object entry) (Some n')]> (objects s)) s).

(** The result says whether the object is to be deallocated. *)
Definition decrement_refcount (object : Z) (s : ObjC) : outcome (bool * ObjC) :=
  entry ← unwrap (objects s !! object);
  n ← unwrap (refcount entry);
  if n =? 1
  then Ret (true, set_objects (<[object := mkEntry (host_object entry) None]> (objects s)) s)
  else Ret (false, set_objects (<[object := mkEntry (host_object entry) (Some (n - 1))]> (objects s)) s).

Definition dealloc_object (object : Z) (s : ObjC) : outcome ObjC :=
  _ ← unwrap (objects s !! object);
  '(_, m) ← mem_free object (guest s);
  Ret (set_objects (delete object (objects s)) (set_guest m s)).

(** ** Messages *)

(** The implementation a message reaches; [None]: nobody, as for [nil]. *)
Definition receiver (object : Z) (s : ObjC) : outcome (option Implementation) :=
  if (object =? nil_id) || (object <? null_segment_size (guest s)) then Ret None
  else
    isa ← read_isa object (guest s);
    if isa =? nil_id then Ret None
    else
      match objects s !! isa with
      | None => Ret None
      | Some (mkEntry (ClassHostObject _ i) _) => Ret (Some i)
      | Some _ => Panic
      end.

(** [borrow_mut::<NSAutoreleasePoolHostObject>]. *)
Definition borrow_pool (pool : Z) (s : ObjC) : outcome (ThreadId * list Z * option Z) :=
  match objects s !! pool with
  | Some (mkEntry (NSAutoreleasePoolHostObject t l) rc) => Ret (t, l, rc)
  | _ => Panic
  end.

(** [-addObject:] and [+addObject:]. *)
Definition pool_addObject (pool obj : Z) (s : ObjC) : outcome ObjC :=
  '(t, l, rc) ← borrow_pool pool s;
  Ret (set_objects (<[pool := mkEntry (NSAutoreleasePoolHostObject t (l ++ [obj])) rc]> (objects s)) s).

Definition class_addObject (obj : Z) (s : ObjC) : outcome ObjC :=
  match pool_stacks s !! thread s ≫= last with
  | Some current_pool =>
      i ← receiver current_pool s;
      match i with
      | None => Ret s
      | Some NSAutoreleasePool => pool_addObject current_pool obj s
      | Some _ => Panic
      end
  | None => Ret s
  end.

(** [+allocWithZone:] followed by [-init]. *)
Definition pool_new (isa : Z) (s : ObjC) : outcome (Z * ObjC) :=
  '(this, s) ← alloc_object isa (NSAutoreleasePoolHostObject (thread s) []) s;
  Ret (this, set_pools (<[thread s := default [] (pool_stacks s !! thread s) ++ [this]]> (pool_stacks s)) s).

(** The [retain] message, with the implementations of [NSObject], pools and classes. *)
Definition send_retain (object : Z) (s : ObjC) : outcome (Z * ObjC) :=
  i ← receiver object s;
  match i with
  | None => Ret (nil_id, s)
  | Some NSObject => s' ← increment_refcount object s; Ret (object, s')
  | Some NSAutoreleasePool => Panic
  | Some ClassObject => Ret (object, s)
  end.
Definition retain (object : Z) (s : ObjC) : outcome (Z * ObjC) :=
  if object =? nil_id then Ret (nil_id, s) else send_retain object s.

(** The [autorelease] message. *)
Definition send_autorelease (object : Z) (s : ObjC) : outcome (Z * ObjC) :=
  i ← receiver object s;
  match i with
  | None => Ret (nil_id, s)
  | Some NSObject => s' ← class_addObject object s; Ret (object, s')
  | Some NSAutoreleasePool => Panic
  | Some ClassObject => Ret (object, s)
  end.
Definition autorelease (object : Z) (s : ObjC) : outcome (Z * ObjC) :=
  if object =? nil_id then Ret (nil_id, s) else send_autorelease object s.

(** The position of the last occurrence: [iter().enumerate().rev().find]. *)
Fixpoint rfind (x : Z) (l : list Z) : option nat :=
  match l with
  | [] => None
  | y :: l' =>
      match rfind x l' with
      | Some i => Some (S i)
      | None => if decide (y = x) then Some O else None
      end
  end.

(** One pool of the loop of [-dealloc], [release] being the message to the objects. *)
Definition drop_pool (release : Z → ObjC → outcome ObjC) (this pool : Z) (s : ObjC) : outcome ObjC :=
  s ← (if decide (pool = this) then Ret s
       else n ← get_refcount pool s; rassert (n =? 1);; '(_, s) ← decrement_refcount pool s; Ret s);
  '(t, l, rc) ← borrow_pool pool s;
  s ← dealloc_object pool (set_objects (<[pool := mkEntry (NSAutoreleasePoolHostObject t []) rc]> (objects s)) s);
  for_each release l s.

Definition pool_dealloc (release : Z → ObjC → outcome ObjC) (this : Z) (s : ObjC) : outcome ObjC :=
  '(t, _, _) ← borrow_pool this s;
  rassert (bool_decide (t = thread s));;
  pool_stack ← unwrap (pool_stacks s !! thread s);
  index ← unwrap (rfind this pool_stack);
  let s := set_pools (<[thread s := take index pool_stack]> (pool_stacks s)) s in
  for_each (drop_pool release this) (rev (drop index pool_stack)) s.

Definition release_with (send : Z → ObjC → outcome ObjC) (object : Z) (s : ObjC) : outcome ObjC :=
  if object =? nil_id then Ret s else send object s.

(** The [release] message, and the [dealloc] it may send; pools nest as deep as [fuel]. *)
Fixpoint send_release (fuel : nat) (object : Z) (s : ObjC) : outcome ObjC :=
  i ← receiver object s;
  match i with
  | None => Ret s
  | Some ClassObject => Ret s
  | Some i =>
      '(last, s) ← decrement_refcount object s;
      if negb last then Ret s
      else
        match i with
        | NSAutoreleasePool =>
            match fuel with O => Panic | S fuel' => pool_dealloc (release_with (send_release fuel')) object s end
        | _ => dealloc_object object s
        end
  end.
Definition release (fuel : nat) : Z → ObjC → outcome ObjC := release_with (send_release fuel).

(** ** ARC ([objc/arc.rs]) *)

Definition objc_retainAutorelease (object : Z) (s : ObjC) : outcome (Z * ObjC) :=
  '(object, s) ← retain object s;
  autorelease object s.

Definition objc_storeStrong (fuel : nat) (location object : Z) (s : ObjC) : outcome ObjC :=
  old ← read_u32 location (guest s);
  if old =? object then Ret s
  else
    '(object, s) ← retain object s;
    m ← write_u32 location object (guest s);
    release fuel old (set_guest m s).

(** The entry points that forward to the messages: [objc_autoreleaseReturnValue] is
    [objc_autorelease], [objc_retainAutoreleaseReturnValue] is [objc_retainAutorelease],
    [objc_retainAutoreleasedReturnValue] and [objc_retainBlock] are
    [objc_retain]. *)
Definition objc_retain : Z → ObjC → outcome (Z * ObjC) := retain.
Definition objc_release : nat → Z → ObjC → outcome ObjC := release.
Definition objc_autorelease : Z → ObjC → outcome (Z * ObjC) := autorelease.

(** [objc_storeWeak] and [objc_initWeak] have the same body. *)
Definition objc_storeWeak (location object : Z) (s : ObjC) : outcome (Z * ObjC) :=
  m ← write_u32 location object (guest s);
  Ret (object, set_guest m s).

Definition objc_loadWeak (location : Z) (s : ObjC) : outcome (Z * ObjC) :=
  object ← read_u32 location (guest s);
  '(object, s) ← retain object s;
  autorelease object s.

Definition objc_loadWeakRetained (location : Z) (s : ObjC) : outcome (Z * ObjC) :=
  object ← read_u32 location (guest s);
  retain object s.

Definition objc_destroyWeak (location : Z) (s : ObjC) : outcome ObjC :=
  m ← write_u32 location nil_id (guest s);
  Ret (set_guest m s).

Definition objc_copyWeak (to from : Z) (s : ObjC) : outcome ObjC :=
  object ← read_u32 from (guest s);
  m ← write_u32 to object (guest s);
  Ret (set_guest m s).

(** ** Invariant *)

(** The implementation an instance's class has to have. *)
Definition implementation_of (h : AnyHostObject) : option Implementation :=
  match h with
  | TrivialHostObject => Some NSObject
  | NSAutoreleasePoolHostObject _ _ => Some NSAutoreleasePool
  | ClassHostObject _ _ => None
  end.

(** An instance: a live block of guest memory whose [isa] is a class of the right kind. *)
Definition instance_ok (s : ObjC) (p : Z) (i : Implementation) : Prop :=
  p ≠ nil_id ∧ null_segment_size (guest s) ≤ p ∧ (∃ n, mem_live (guest s) p n ∧ 4 ≤ n) ∧
  ∃ isa size rc, read_isa p (guest s) = Ret isa ∧ isa ≠ nil_id ∧ objects s !! isa = Some (mkEntry (ClassHostObject size i) rc).

Definition objc_ok (s : ObjC) : Prop :=
  mem_ok (guest s) ∧ is_Some (heap_allocator (guest s)) ∧
  ∀ p e i, objects s !! p = Some e → implementation_of (host_object e) = Some i → instance_ok s p i.

Lemma receiver_instance s p e i :
  objc_ok s → objects s !! p = Some e → implementation_of (host_object e) = Some i → receiver p s = Ret (Some i).
Proof.
  intros (_ & _ & Hi) Hp He. destruct (Hi p e i Hp He) as (Hn & Hs & _ & isa & size & rc & Hr & Hz & Hc).
  unfold receiver. rewrite (proj2 (Z.eqb_neq _ _)), (proj2 (Z.ltb_ge _ _)) by done. simpl. rewrite Hr. simpl.
  by rewrite (proj2 (Z.eqb_neq _ _)), Hc.
Qed.

Lemma mem_free_null p m n m' : mem_free p m = Ret (n, m') → null_segment_size m' = null_segment_size m.
Proof.
  unfold mem_free, free_in_heap. intros H. apply bind_ret_inv in H as ([[k h] m1] & H & E). injection E as _ <-.
  apply bind_ret_inv in H as ([h0 m0] & Ha & H). apply bind_ret_inv in H as ([[sz h'] v'] & _ & H). simpl in H.
  apply bind_ret_inv in H as (m2 & Hz & H). injection H as _ _ <-.
  assert (null_segment_size m0 = null_segment_size m) as <-.
  { unfold allocators_mut in Ha. destruct (heap_allocator m); [by injection Ha as _ <-|].
    apply bind_ret_inv in Ha as ([h1 v1] & _ & Ha). by injection Ha as _ <-. }
  destruct (_ || _); [|by injection Hz as <-]. unfold bytes_at_mut_zero in Hz.
  apply bind_ret_inv in Hz as (u & _ & Hz). by injection Hz as <-.
Qed.

(** The first word of a block that does not change. *)
Lemma read_isa_same p m m' :
  0 ≤ p → p + 4 ≤ U32_MOD → (∀ a, p ≤ a < p + 4 → byte_at m' a = byte_at m a) → read_isa p m' = read_isa p m.
Proof.
  intros H0 Hp Hb. unfold read_isa, read_u32, read_u. rewrite !mem_read_eq by (unfold U32_MOD in *; simpl; lia).
  cbn [mbind outcome_bind]. f_equal. f_equal. apply list_fmap_ext. intros i x Hx. apply Hb. apply lookup_seqZ in Hx. lia.
Qed.

(** Changing the entry of an instance without changing what it is. *)
Lemma objc_ok_entry s p e e' :
  objc_ok s → objects s !! p = Some e → implementation_of (host_object e') = implementation_of (host_object e) →
  is_Some (implementation_of (host_object e)) →
  objc_ok (set_objects (<[p := e']> (objects s)) s).
Proof.
  intros (Hm & Hh & Hi) Hp He Hs. split_and!; [done|done|]. intros q x i. simpl.
  assert (∀ q i, instance_ok s q i → instance_ok (set_objects (<[p := e']> (objects s)) s) q i) as Hk.
  { intros q' i' (H1 & H2 & H3 & isa & size & rc & H4 & H5 & H6). split_and!; [done..|]. exists isa, size, rc.
    split_and!; [done..|]. simpl. rewrite lookup_insert_ne; [done|]. intros ->. rewrite Hp in H6. injection H6 as ->. by destruct Hs. }
  destruct (decide (p = q)) as [<-|Hne].
  - rewrite lookup_insert_eq. intros [= <-] Hx. rewrite He in Hx. by eapply Hk, Hi.
  - rewrite lookup_insert_ne by done. intros Hq Hx. by eapply Hk, Hi.
Qed.

Lemma dealloc_instance s p e i :
  objc_ok s → objects s !! p = Some e → implementation_of (host_object e) = Some i →
  ∃ m, dealloc_object p s = Ret (set_objects (delete p (objects s)) (set_guest m s)) ∧
    objc_ok (set_objects (delete p (objects s)) (set_guest m s)).
Proof.
  intros (Hm & [h Hh] & Hi) Hp He. destruct (Hi p e i Hp He) as (_ & _ & (n & Hl & Hn) & _).
  destruct (mem_free_spec (guest s) h p n Hm Hh Hl) as (m & Ef & Hm' & Hh' & Hl' & Hb).
  assert (mem_free p (guest s) = Ret (n, m)) as Ef' by (unfold mem_free; by rewrite Ef).
  exists m. split; [unfold dealloc_object; rewrite Hp; simpl; by rewrite Ef'|].
  split_and!; [done|done|]. simpl. intros q x j [Hne Hq]%lookup_delete_Some Hx.
  destruct (Hi q x j Hq Hx) as (H1 & H2 & (k & Hk & Hk4) & isa & size & rc & H4 & H5 & H6).
  pose proof (mem_live_pos _ _ _ Hm Hk). split_and!; simpl; [done|by rewrite (mem_free_null _ _ _ _ Ef')|exists k; by rewrite Hl'|].
  exists isa, size, rc. split_and!; [|done|].
  - rewrite (read_isa_same q (guest s)); [done|lia|lia|]. intros a Ha. apply Hb. intros Hpa.
    destruct (mem_live_disjoint _ _ _ _ _ a Hm Hl Hk) as [? _]; [done|lia|done].
  - rewrite lookup_delete_ne; [done|]. intros ->. rewrite Hp in H6. by injection H6 as ->.
Qed.

(** ** Releasing *)

(** How often an object occurs. *)
Definition occ (l : list Z) (p : Z) : Z := Z.of_nat (count_occ Z.eq_dec l p).
Lemma occ_nil p : occ [] p = 0.
Proof. done. Qed.
Lemma occ_cons x l p : occ (x :: l) p = (if decide (x = p) then 1 else 0) + occ l p.
Proof. unfold occ. simpl. destruct (Z.eq_dec x p), (decide (x = p)); try done; lia. Qed.
Lemma occ_app l l' p : occ (l ++ l') p = occ l p + occ l' p.
Proof. unfold occ. rewrite count_occ_app. lia. Qed.
Lemma occ_nonneg l p : 0 ≤ occ l p.
Proof. unfold occ. lia. Qed.
Lemma occ_zero l p : p ∉ l → occ l p = 0.
Proof. intros H. unfold occ. rewrite (proj1 (count_occ_not_In _ _ _)); [done|]. by rewrite <- list_elem_of_In. Qed.
Lemma occ_pos l p : p ∈ l → 0 < occ l p.
Proof. intros H. unfold occ. apply list_elem_of_In, (count_occ_In Z.eq_dec) in H. lia. Qed.

(** An entry after [k] releases: taken out when they use up its references. *)
Definition lower (k : Z) (e : option HostObjectEntry) : option HostObjectEntry :=
  if k =? 0 then e
  else match e with
       | Some (mkEntry h (Some n)) => if n =? k then None else Some (mkEntry h (Some (n - k)))
       | _ => e
       end.

Lemma lower_lower j k e :
  0 ≤ j → 0 ≤ k → (∀ h n, e = Some (mkEntry h (Some n)) → 0 < j + k → j + k ≤ n) → lower k (lower j e) = lower (j + k) e.
Proof.
  intros Hj Hk Hn. unfold lower. destruct (Z.eqb_spec j 0) as [->|Hj0]; [done|].
  rewrite (proj2 (Z.eqb_neq (j + k) 0)) by lia.
  destruct e as [[h [x|]]|]; [|by destruct (k =? 0)..]. specialize (Hn h x eq_refl ltac:(lia)).
  destruct (Z.eqb_spec x j), (Z.eqb_spec x (j + k)), (Z.eqb_spec k 0); try lia; try done; simpl.
  - rewrite (proj2 (Z.eqb_eq _ _)) by lia. done.
  - do 3 f_equal. lia.
  - rewrite (proj2 (Z.eqb_neq _ _)) by lia. do 3 f_equal. lia.
Qed.

(** The parts a release does not touch. *)
Definition same_pools (s s' : ObjC) : Prop := pool_stacks s' = pool_stacks s ∧ thread s' = thread s.

Definition plain (s : ObjC) (p n : Z) : Prop := objects s !! p = Some (mkEntry TrivialHostObject (Some n)).

Lemma release_plain fuel s p n :
  objc_ok s → plain s p n → 1 ≤ n →
  ∃ s', release fuel p s = Ret s' ∧ objc_ok s' ∧ same_pools s s' ∧
    ∀ q, objects s' !! q = if decide (p = q) then lower 1 (objects s !! q) else objects s !! q.
Proof.
  intros Hok Hp Hn. assert (p ≠ nil_id) as Hnil by (by apply (proj2 (proj2 Hok) p _ NSObject Hp)).
  pose proof (receiver_instance _ _ _ _ Hok Hp eq_refl) as Hr. unfold plain in Hp.
  assert (∀ e', implementation_of (host_object e') = Some NSObject →
    objc_ok (set_objects (<[p := e']> (objects s)) s)) as Hent by (intros; by eapply objc_ok_entry).
  assert (release fuel p s = ('(last, s) ← decrement_refcount p s; if negb last then Ret s else dealloc_object p s)) as ->.
  { unfold release, release_with. rewrite (proj2 (Z.eqb_neq _ _)) by done. destruct fuel; cbn [send_release]; by rewrite Hr. }
  unfold decrement_refcount. rewrite Hp. simpl. destruct (Z.eqb_spec n 1) as [->|Hn1]; simpl.
  - destruct (dealloc_instance (set_objects (<[p := mkEntry TrivialHostObject None]> (objects s)) s) p
      (mkEntry TrivialHostObject None) NSObject) as (m & -> & Hok'); [by apply Hent|simpl; by rewrite lookup_insert_eq|done|].
    eexists. split; [done|]. split_and!; [done|done|]. intros q. simpl. rewrite delete_insert_eq.
    destruct (decide (p = q)) as [<-|]; [rewrite lookup_delete_eq, Hp; done|by rewrite lookup_delete_ne].
  - eexists. split; [done|]. split_and!; [by apply Hent|done|]. intros q. simpl.
    destruct (decide (p = q)) as [<-|]; [|by rewrite lookup_insert_ne].
    rewrite lookup_insert_eq, Hp. unfold lower. simpl. by rewrite (proj2 (Z.eqb_neq _ _)).
Qed.

(** The objects of a list are [nil], or plain ones with a reference for each occurrence. *)
Definition releasable (s : ObjC) (l : list Z) : Prop :=
  ∀ p, p ∈ l → p ≠ nil_id → ∃ n, plain s p n ∧ occ l p ≤ n.

Lemma release_nil fuel s : release fuel nil_id s = Ret s.
Proof. by destruct fuel. Qed.

Lemma release_list fuel l s :
  objc_ok s → releasable s l →
  ∃ s', for_each (release fuel) l s = Ret s' ∧ objc_ok s' ∧ same_pools s s' ∧
    ∀ q, objects s' !! q = if decide (q = nil_id) then objects s !! q else lower (occ l q) (objects s !! q).
Proof.
  revert s. induction l as [|p l IH]; intros s Hok Hrel.
  { exists s. split_and!; [done|done|done|]. intros q. case_decide; done. }
  cbn [for_each]. destruct (decide (p = nil_id)) as [->|Hnil].
  { rewrite release_nil. cbn [mbind outcome_bind]. destruct (IH s Hok) as (s' & -> & Hok' & Hs & Ho).
    { intros q Hq Hn. destruct (Hrel q) as (n & Hp & Hle); [by right|done|]. exists n. split; [done|].
      rewrite occ_cons, decide_False in Hle by done. lia. }
    exists s'. split_and!; [done..|]. intros q. rewrite Ho. destruct (decide (q = nil_id)); [done|].
    by rewrite occ_cons, decide_False, Z.add_0_l by done. }
  destruct (Hrel p) as (n & Hp & Hn); [by left|done|]. rewrite occ_cons, decide_True in Hn by done.
  pose proof (occ_nonneg l p). destruct (release_plain fuel s p n Hok Hp) as (s1 & -> & Hok1 & Hs1 & Ho1); [lia|].
  cbn [mbind outcome_bind]. destruct (IH s1 Hok1) as (s2 & -> & Hok2 & Hs2 & Ho2).
  { intros q Hq Hqn. destruct (Hrel q) as (k & Hk & Hle); [by right|done|]. rewrite occ_cons in Hle. unfold plain in *. rewrite Ho1.
    pose proof (occ_pos l q Hq). destruct (decide (p = q)) as [<-|]; [|exists k; split; [done|lia]].
    rewrite Hk. unfold lower. simpl. rewrite (proj2 (Z.eqb_neq k 1)) by lia. exists (k - 1). split; [done|lia]. }
  exists s2. split_and!; [done|done|unfold same_pools in *; intuition congruence|]. intros q. rewrite Ho2, Ho1, occ_cons.
  destruct (decide (q = nil_id)) as [->|]; [by rewrite decide_False|]. destruct (decide (p = q)) as [<-|]; [|done].
  rewrite lower_lower; [done|lia|lia|]. intros h k Hk _. unfold plain in Hp. rewrite Hp in Hk. injection Hk as _ <-. lia.
Qed.

(** ** Draining pools *)

(** A pool in the loop: its own reference is gone if it is the one being deallocated. *)
Definition pool_entry (this pool : Z) (t : ThreadId) (l : list Z) : HostObjectEntry :=
  mkEntry (NSAutoreleasePoolHostObject t l) (if decide (pool = this) then None else Some 1).

Lemma drop_pool_ok fuel this pool t l s :
  objc_ok s → objects s !! pool = Some (pool_entry this pool t l) → releasable s l →
  ∃ s', drop_pool (release fuel) this pool s = Ret s' ∧ objc_ok s' ∧ same_pools s s' ∧
    ∀ q, objects s' !! q = if decide (q = pool) then None
                           else if decide (q = nil_id) then objects s !! q else lower (occ l q) (objects s !! q).
Proof.
  intros Hok Hp Hrel.
  assert (∀ l' rc, objc_ok (set_objects (<[pool := mkEntry (NSAutoreleasePoolHostObject t l') rc]> (objects s)) s)) as Hent.
  { intros l' rc. eapply objc_ok_entry; [done|done|done|by eexists]. }
  assert (∃ rc, drop_pool (release fuel) this pool s =
    (s ← dealloc_object pool (set_objects (<[pool := mkEntry (NSAutoreleasePoolHostObject t []) rc]> (objects s)) s);
     for_each (release fuel) l s)) as [rc ->].
  { unfold drop_pool, pool_entry in *. destruct (decide (pool = this)).
    - exists None. simpl. unfold borrow_pool. rewrite Hp. done.
    - exists None. unfold get_refcount, decrement_refcount. rewrite Hp. simpl. unfold borrow_pool. simpl.
      rewrite lookup_insert_eq. simpl. unfold set_objects. simpl. by rewrite insert_insert_eq. }
  destruct (dealloc_instance _ pool _ NSAutoreleasePool (Hent [] rc) (lookup_insert_eq _ _ _) eq_refl) as (m & -> & Hok1).
  cbn [mbind outcome_bind]. cbn [objects set_objects] in *. rewrite delete_insert_eq in *.
  match goal with |- context [for_each _ _ ?x] => set (s1 := x) in * end.
  assert (∀ q, q ≠ pool → objects s1 !! q = objects s !! q) as Hs1 by (intros q Hq; unfold s1; simpl; by rewrite lookup_delete_ne).
  assert (∀ q, q ∈ l → q ≠ nil_id → q ≠ pool) as Hlp.
  { intros q Hq Hn ->. destruct (Hrel pool Hq Hn) as (n & Hpl & _). unfold plain in Hpl. rewrite Hp in Hpl. done. }
  destruct (release_list fuel l s1 Hok1) as (s2 & -> & Hok2 & Hs2 & Ho2).
  { intros q Hq Hn. destruct (Hrel q Hq Hn) as (n & Hpl & Hle). exists n. split; [|done]. unfold plain. rewrite Hs1; auto. }
  exists s2. split_and!; [done|done|done|]. intros q. rewrite Ho2. destruct (decide (q = pool)) as [->|Hq]; [|by rewrite Hs1].
  assert (objects s1 !! pool = None) as -> by (unfold s1; simpl; by rewrite lookup_delete_eq).
  case_decide; [done|]. unfold lower. by destruct (_ =? _).
Qed.

Lemma drop_pools_ok fuel this ps ls s :
  objc_ok s → NoDup ps → Forall2 (λ p l, ∃ t, objects s !! p = Some (pool_entry this p t l)) ps ls →
  releasable s (concat ls) →
  ∃ s', for_each (drop_pool (release fuel) this) ps s = Ret s' ∧ objc_ok s' ∧ same_pools s s' ∧
    ∀ q, objects s' !! q = if decide (q ∈ ps) then None
                           else if decide (q = nil_id) then objects s !! q else lower (occ (concat ls) q) (objects s !! q).
Proof.
  intros Hok Hnd Hall. revert s Hok Hall. revert ls. induction Hnd as [|p ps Hni Hnd IH]; intros ls s Hok Hall Hrel.
  { apply Forall2_nil_inv_l in Hall as ->. exists s. split_and!; [done..|]. intros q.
    rewrite (decide_False (P := q ∈ [])) by apply not_elem_of_nil. by case_decide. }
  apply Forall2_cons_inv_l in Hall as (l & ls' & [t Hp] & Hall & ->). cbn [concat for_each] in *.
  destruct (drop_pool_ok fuel this p t l s Hok Hp) as (s1 & -> & Hok1 & Hs1 & Ho1).
  { intros q Hq Hn. destruct (Hrel q) as (n & ? & Hle); [apply elem_of_app; by left|done|]. exists n. split; [done|].
    rewrite occ_app in Hle. pose proof (occ_nonneg (concat ls') q). lia. }
  assert (∀ x h rc i, objects s !! x = Some (mkEntry (NSAutoreleasePoolHostObject h i) rc) → x ∉ l ++ concat ls') as Hpool.
  { intros x h rc i Hx Hin. destruct (Hrel x Hin) as (n & Hpl & _).
    - apply (proj2 (proj2 Hok) x _ NSAutoreleasePool Hx eq_refl).
    - unfold plain in Hpl. rewrite Hx in Hpl. done. }
  cbn [mbind outcome_bind]. destruct (IH ls' s1 Hok1) as (s2 & -> & Hok2 & Hs2 & Ho2).
  - apply Forall2_same_length_lookup in Hall as [Hlen Hall]. apply Forall2_same_length_lookup. split; [done|].
    intros i x k Hx Hk. destruct (Hall i x k Hx Hk) as [t' Ht']. exists t'. rewrite Ho1.
    rewrite decide_False by (intros ->; apply Hni; by eapply list_elem_of_lookup_2).
    rewrite occ_zero by (apply Hpool in Ht'; rewrite elem_of_app in Ht'; tauto). by case_decide.
  - intros q Hq Hn. destruct (Hrel q) as (n & Hpl & Hle); [apply elem_of_app; by right|done|]. rewrite occ_app in Hle.
    pose proof (occ_pos _ _ Hq). pose proof (occ_nonneg l q). exists (n - occ l q). split; [|lia].
    unfold plain in *. rewrite Ho1, decide_False, decide_False, Hpl by (done || (intros ->; by rewrite Hp in Hpl)).
    unfold lower. destruct (Z.eqb_spec (occ l q) 0) as [->|]; [by rewrite Z.sub_0_r|]. by rewrite (proj2 (Z.eqb_neq _ _)) by lia.
  - exists s2. split_and!; [done|done|unfold same_pools in *; intuition congruence|]. intros q. rewrite Ho2, Ho1, occ_app.
    destruct (decide (q ∈ ps)) as [Hq|Hq]; [by rewrite decide_True by (by right)|].
    destruct (decide (q = p)) as [->|Hqp].
    { rewrite (decide_True (P := p ∈ _)) by (by left). case_decide; [done|]. unfold lower. by destruct (_ =? _). }
    rewrite (decide_False (P := q ∈ p :: ps)) by (rewrite elem_of_cons; tauto).
    destruct (decide (q = nil_id)) as [|Hn]; [done|]. apply lower_lower; [apply occ_nonneg..|].
    intros h n Hqe Hpos. destruct (decide (q ∈ l ++ concat ls')) as [Hin|Hni'].
    + destruct (Hrel q Hin Hn) as (k & Hpl & Hle). unfold plain in Hpl. rewrite Hqe in Hpl. injection Hpl as _ <-. by rewrite <- occ_app.
    + rewrite <- occ_app, occ_zero in Hpos by done. lia.
Qed.

(** The objects of pools, in the order of the stack. *)
Definition pool_list (s : ObjC) (p : Z) : list Z :=
  match objects s !! p with Some (mkEntry (NSAutoreleasePoolHostObject _ l) _) => l | _ => [] end.

Lemma rfind_last x l l' : x ∉ l' → rfind x (l ++ x :: l') = Some (length l).
Proof.
  intros Hx. assert (rfind x l' = None) as Hn.
  { induction l' as [|y l' IH]; [done|]. apply not_elem_of_cons in Hx as [Hxy Hx]. simpl. rewrite IH by done.
    by rewrite decide_False. }
  induction l as [|y l IH]; simpl; [rewrite Hn; by rewrite decide_True|by rewrite IH].
Qed.

Lemma occ_perm l l' p : l ≡ₚ l' → occ l p = occ l' p.
Proof. intros H. unfold occ. f_equal. by apply (Permutation_count_occ Z.eq_dec). Qed.

Lemma drain_spec fuel s this below above t :
  objc_ok s → pool_stacks s !! thread s = Some (below ++ this :: above) → NoDup (this :: above) →
  objects s !! this = Some (mkEntry (NSAutoreleasePoolHostObject (thread s) t) (Some 1)) →
  (∀ p, p ∈ above → ∃ th l, objects s !! p = Some (mkEntry (NSAutoreleasePoolHostObject th l) (Some 1))) →
  releasable s (flat_map (pool_list s) (this :: above)) →
  ∃ s', release (S fuel) this s = Ret s' ∧ objc_ok s' ∧
    pool_stacks s' = <[thread s := below]> (pool_stacks s) ∧
    ∀ q, q ≠ nil_id → objects s' !! q =
      if decide (q ∈ this :: above) then None
      else lower (occ (flat_map (pool_list s) (this :: above)) q) (objects s !! q).
Proof.
  intros Hok Hst Hnd Hthis Habove Hrel.
  assert (this ≠ nil_id) as Hnil by (by apply (proj2 (proj2 Hok) this _ NSAutoreleasePool Hthis)).
  pose proof (receiver_instance _ _ _ NSAutoreleasePool Hok Hthis eq_refl) as Hr.
  set (s1 := set_pools (<[thread s := below]> (pool_stacks s))
    (set_objects (<[this := mkEntry (NSAutoreleasePoolHostObject (thread s) t) None]> (objects s)) s)).
  assert (release (S fuel) this s = for_each (drop_pool (release fuel) this) (rev (this :: above)) s1) as ->.
  { unfold release at 1, release_with. rewrite (proj2 (Z.eqb_neq _ _)) by done. cbn [send_release]. rewrite Hr. simpl. unfold decrement_refcount. rewrite Hthis. simpl.
    unfold pool_dealloc, borrow_pool. simpl. rewrite lookup_insert_eq. simpl. rewrite bool_decide_eq_true_2 by done. simpl.
    rewrite Hst. simpl. apply NoDup_cons in Hnd as [Hni _]. rewrite rfind_last by done. simpl.
    by rewrite take_app_length, drop_app_length. }
  assert (objc_ok s1) as Hok1.
  { refine (objc_ok_entry s this _ (mkEntry (NSAutoreleasePoolHostObject (thread s) t) None) Hok Hthis eq_refl _). by eexists. }
  assert (∀ q, q ≠ this → objects s1 !! q = objects s !! q) as Hs1 by (intros q Hq; unfold s1; simpl; by rewrite lookup_insert_ne).
  set (pools := this :: above) in *. assert (concat (pool_list s <$> rev pools) ≡ₚ flat_map (pool_list s) pools) as Hperm.
  { rewrite flat_map_concat_map. change (map (pool_list s) pools) with (pool_list s <$> pools). f_equiv.
    by rewrite <- (Permutation_rev pools). }
  assert (releasable s1 (concat (pool_list s <$> rev pools))) as Hrel1.
  { intros p Hp Hn. rewrite Hperm in Hp. destruct (Hrel p Hp Hn) as (n & Hpl & Hle). exists n. rewrite (occ_perm _ _ _ Hperm).
    split; [|done]. unfold plain in *. rewrite Hs1; [done|]. intros ->. by rewrite Hthis in Hpl. }
  destruct (drop_pools_ok fuel this (rev pools) (pool_list s <$> rev pools) s1 Hok1) as (s' & -> & Hok' & Hs' & Ho).
  - by rewrite <- (Permutation_rev pools).
  - apply Forall2_fmap_r, Forall_Forall2_diag, Forall_forall. intros p Hp. rewrite <- (Permutation_rev pools) in Hp. unfold pool_entry, pool_list.
    destruct (decide (p = this)) as [->|Hne].
    + exists (thread s). unfold s1. simpl. by rewrite lookup_insert_eq, Hthis.
    + apply elem_of_cons in Hp as [?|Hp]; [done|]. destruct (Habove p Hp) as (th & l & E). exists th. by rewrite Hs1, E.
  - done.
  - exists s'. split_and!; [done|done|by rewrite (proj1 Hs')|]. intros q Hq. rewrite Ho, (occ_perm _ _ _ Hperm).
    rewrite (decide_ext (q ∈ rev pools) (q ∈ pools)) by (by rewrite <- (Permutation_rev pools)).
    destruct (decide (q ∈ pools)) as [|Hni]; [done|]. rewrite decide_False by done. rewrite Hs1; [done|].
    intros ->. apply Hni. by left.
Qed.

(** ** Counting references *)

Lemma increment_plain s p n :
  objc_ok s → plain s p n → 0 ≤ n → n + 1 < U32_MOD →
  retain p s = Ret (p, set_objects (<[p := mkEntry TrivialHostObject (Some (n + 1))]> (objects s)) s) ∧
  objc_ok (set_objects (<[p := mkEntry TrivialHostObject (Some (n + 1))]> (objects s)) s).
Proof.
  intros Hok Hp H0 Hn. assert (p ≠ nil_id) as Hnil by (by apply (proj2 (proj2 Hok) p _ NSObject Hp)). split.
  - unfold retain, send_retain. rewrite (proj2 (Z.eqb_neq _ _)) by done. rewrite (receiver_instance _ _ _ NSObject Hok Hp eq_refl). simpl.
    unfold increment_refcount. rewrite Hp. simpl. by rewrite u32_ok by lia.
  - eapply objc_ok_entry; [done|done|done|by eexists].
Qed.

(** [autorelease] adds an object to the pool at the top of the stack. *)
Lemma autorelease_adds s p n below pool t l :
  objc_ok s → plain s p n → pool_stacks s !! thread s = Some (below ++ [pool]) →
  objects s !! pool = Some (mkEntry (NSAutoreleasePoolHostObject t l) (Some 1)) →
  autorelease p s = Ret (p, set_objects (<[pool := mkEntry (NSAutoreleasePoolHostObject t (l ++ [p])) (Some 1)]> (objects s)) s).
Proof.
  intros Hok Hp Hst Hpool. assert (p ≠ nil_id) as Hnil by (by apply (proj2 (proj2 Hok) p _ NSObject Hp)).
  unfold autorelease, send_autorelease. rewrite (proj2 (Z.eqb_neq _ _)) by done. rewrite (receiver_instance _ _ _ NSObject Hok Hp eq_refl). simpl.
  unfold class_addObject. rewrite Hst. simpl. rewrite last_snoc.
  rewrite (receiver_instance _ _ _ NSAutoreleasePool Hok Hpool eq_refl). simpl. unfold pool_addObject, borrow_pool. by rewrite Hpool.
Qed.

(** C21: draining an autorelease pool.  Releasing a pool of the running thread takes it and
    all pools above it off the thread's stack and deallocates them, and releases every
    object they hold as many times as it was added: an object whose references are used
    up is deallocated, any other loses that many references, and nothing else changes. *)
Theorem drain_releases fuel s this below above t :
  objc_ok s → pool_stacks s !! thread s = Some (below ++ this :: above) → NoDup (this :: above) →
  objects s !! this = Some (mkEntry (NSAutoreleasePoolHostObject (thread s) t) (Some 1)) →
  (∀ p, p ∈ above → ∃ th l, objects s !! p = Some (mkEntry (NSAutoreleasePoolHostObject th l) (Some 1))) →
  releasable s (flat_map (pool_list s) (this :: above)) →
  ∃ s', release (S fuel) this s = Ret s' ∧ objc_ok s' ∧
    pool_stacks s' = <[thread s := below]> (pool_stacks s) ∧
    ∀ q, q ≠ nil_id → objects s' !! q =
      if decide (q ∈ this :: above) then None
      else lower (occ (flat_map (pool_list s) (this :: above)) q) (objects s !! q).
Proof. apply drain_spec. Qed.

(** [objc_retainAutorelease] is balanced.  An object that is retained and autoreleased
    keeps its references once the pool is drained: every object is as if the pool had
    been drained without it. *)
Theorem retain_autorelease_balanced fuel s p n below pool l :
  objc_ok s → plain s p n → 1 ≤ n → n + 1 < U32_MOD →
  pool_stacks s !! thread s = Some (below ++ [pool]) →
  objects s !! pool = Some (mkEntry (NSAutoreleasePoolHostObject (thread s) l) (Some 1)) → releasable s l →
  ∃ s1 s2, objc_retainAutorelease p s = Ret (p, s1) ∧ release (S fuel) pool s1 = Ret s2 ∧
    ∀ q, q ≠ nil_id → q ≠ pool → objects s2 !! q = lower (occ l q) (objects s !! q).
Proof.
  intros Hok Hp H1 Hn Hst Hpool Hrel. destruct (increment_plain s p n Hok Hp ltac:(lia) Hn) as [Er Hok1].
  set (s0 := set_objects _ s) in *. assert (p ≠ pool) as Hne by (intros ->; unfold plain in Hp; congruence).
  assert (objects s0 !! pool = Some (mkEntry (NSAutoreleasePoolHostObject (thread s) l) (Some 1))) as Hpool0.
  { unfold s0. simpl. by rewrite lookup_insert_ne. }
  assert (plain s0 p (n + 1)) as Hp0 by (unfold plain, s0; simpl; by rewrite lookup_insert_eq).
  pose proof (autorelease_adds s0 p (n + 1) below pool (thread s) l Hok1 Hp0 Hst Hpool0) as Ea. set (s1 := set_objects _ s0) in *.
  assert (objc_ok s1) as Hok2 by (eapply objc_ok_entry; [done|exact Hpool0|done|by eexists]).
  assert (∀ q, objects s1 !! q = if decide (q = pool) then Some (mkEntry (NSAutoreleasePoolHostObject (thread s) (l ++ [p])) (Some 1))
    else if decide (q = p) then Some (mkEntry TrivialHostObject (Some (n + 1))) else objects s !! q) as Hs1.
  { intros q. unfold s1, s0. simpl. destruct (decide (q = pool)) as [->|]; [by rewrite lookup_insert_eq|].
    rewrite lookup_insert_ne by done. destruct (decide (q = p)) as [->|]; [by rewrite lookup_insert_eq|by rewrite lookup_insert_ne]. }
  assert (flat_map (pool_list s1) [pool] = l ++ [p]) as El.
  { simpl. unfold pool_list. by rewrite Hs1, decide_True, app_nil_r by done. }
  destruct (drain_spec fuel s1 pool below [] (l ++ [p])) as (s2 & E2 & _ & _ & Ho).
  - done.
  - exact Hst.
  - apply NoDup_singleton.
  - by rewrite Hs1, decide_True.
  - intros q []%elem_of_nil.
  - rewrite El. intros q Hq Hqn. rewrite occ_app, occ_cons, occ_nil. unfold plain. rewrite Hs1. destruct (decide (q = p)) as [->|Hqp].
    + rewrite decide_False by done. exists (n + 1). split; [done|]. rewrite decide_True by done.
      destruct (decide (p ∈ l)) as [Hin|Hni]; [|rewrite occ_zero by done; lia].
      destruct (Hrel p Hin Hqn) as (k & Hk & ?). unfold plain in *. rewrite Hp in Hk. injection Hk as <-. lia.
    + apply elem_of_app in Hq as [Hq|Hq]; [|by apply list_elem_of_singleton in Hq].
      destruct (Hrel q Hq Hqn) as (k & Hk & ?). exists k. rewrite (decide_False (P := p = q)) by done.
      rewrite decide_False by (intros ->; unfold plain in Hk; congruence). split; [done|lia].
  - exists s1, s2. split_and!; [|done|].
    + unfold objc_retainAutorelease. rewrite Er. simpl. exact Ea.
    + intros q Hqn Hqp. rewrite Ho, decide_False by (done || by rewrite list_elem_of_singleton). rewrite El, occ_app, occ_cons, occ_nil, Hs1.
      rewrite (decide_False (P := q = pool)) by done. destruct (decide (q = p)) as [->|Hqp'].
      * rewrite (decide_True (P := p = p)) by done. unfold plain in Hp. rewrite Hp. unfold lower. pose proof (occ_nonneg l p).
        destruct (Z.eqb_spec (occ l p) 0), (Z.eqb_spec (occ l p + (1 + 0)) 0), (Z.eqb_spec (n + 1) (occ l p + (1 + 0))),
          (Z.eqb_spec n (occ l p)); try lia; try done; do 3 f_equal; lia.
      * by rewrite (decide_False (P := p = q)), !Z.add_0_r by done.
Qed.

(** ** Allocation *)

Lemma mem_alloc_null size m p m' : mem_alloc size m = Ret (p, m') → null_segment_size m' = null_segment_size m.
Proof.
  unfold mem_alloc, alloc_in_heap. intros H. apply bind_ret_inv in H as ([[k h] m1] & H & E). injection E as _ <-.
  apply bind_ret_inv in H as ([h0 m0] & Ha & H). apply bind_ret_inv in H as ([[r h'] v'] & _ & H).
  apply bind_ret_inv in H as (c & _ & H). simpl in H.
  apply bind_ret_inv in H as (m2 & Hz & H). injection H as _ _ <-.
  assert (null_segment_size m0 = null_segment_size m) as <-.
  { unfold allocators_mut in Ha. destruct (heap_allocator m); [by injection Ha as _ <-|].
    apply bind_ret_inv in Ha as ([h1 v1] & _ & Ha). by injection Ha as _ <-. }
  destruct (_ && _); [|by injection Hz as <-]. unfold bytes_at_mut_zero in Hz.
  apply bind_ret_inv in Hz as (u & _ & Hz). by injection Hz as <-.
Qed.

(** A new instance, where the address it gets is not that of a class. *)
Lemma alloc_object_ok s isa size i rc host :
  objc_ok s → objects s !! isa = Some (mkEntry (ClassHostObject size i) rc) → 0 < isa < U32_MOD →
  implementation_of host = Some i → 4 ≤ size → size + 2 * PAGE_SIZE < U32_MOD →
  vm_has_room (vm_allocator (guest s)) HEAP_CHUNK_SIZE → vm_has_room (vm_allocator (guest s)) (round_up size) →
  (∀ p m, mem_alloc size (guest s) = Ret (p, m) → p ≠ nil_id ∧ null_segment_size (guest s) ≤ p ∧
     ∀ e, objects s !! p = Some e → is_Some (implementation_of (host_object e))) →
  ∃ p m, alloc_object isa host s = Ret (p, set_objects (<[p := mkEntry host (Some 1)]> (objects s)) (set_guest m s)) ∧
    objects s !! p = None ∧ objc_ok (set_objects (<[p := mkEntry host (Some 1)]> (objects s)) (set_guest m s)).
Proof.
  intros (Hm & [h Hh] & Hi) Hisa Hr Himpl Hs4 Hs Hroom Hroom' Hfresh.
  destruct (mem_alloc_spec (guest s) h size) as (p & n & m1 & Ea & Hm1 & Hh1 & Hn & Hl & Hd & Hb); [done|done|lia|done..|].
  assert (mem_alloc size (guest s) = Ret (p, m1)) as Ea' by (unfold mem_alloc; by rewrite Ea).
  destruct (Hfresh p m1 Ea') as (Hpn & Hps & Hpc).
  assert (mem_live m1 p n) as Hpl by (apply Hl; by right). pose proof (mem_live_pos _ _ _ Hm1 Hpl) as (?&?&?).
  assert (objects s !! p = None) as Hnone.
  { destruct (objects s !! p) as [e|] eqn:E; [|done]. destruct (Hpc e eq_refl) as [j Hj].
    destruct (Hi p e j E Hj) as (_ & _ & (k & Hk & Hk4) & _). exfalso. apply (Hd p k p Hk); lia. }
  destruct (write_read_spec 4 p isa m1) as (m2 & Ew & Er & Hb2 & Eh & Ev & En); [lia|lia|unfold U32_MOD in *; simpl; lia|].
  assert (∀ b k, mem_live m2 b k ↔ mem_live m1 b k) as Hl2 by (intros; unfold mem_live; by rewrite Eh).
  exists p, m2. split; [|split; [done|]].
  { unfold alloc_object, borrow_class, alloc_object_inner. rewrite Hisa. simpl. rewrite (proj2 (Z.leb_le _ _)) by done. simpl.
    rewrite Ea'. simpl. unfold write_u32. rewrite Ew. simpl. by rewrite bool_decide_eq_true_2. }
  split_and!; simpl; [unfold mem_ok; by rewrite Eh, Ev|by rewrite Eh|]. intros q e j.
  assert (isa ≠ p) as Hip by (intros ->; congruence).
  assert (objects s !! isa = Some (mkEntry (ClassHostObject size i) rc)) by done.
  destruct (decide (p = q)) as [<-|Hne].
  - rewrite lookup_insert_eq. intros [= <-]. simpl. rewrite Himpl. intros [= <-].
    split_and!; simpl; [done|by rewrite En, (mem_alloc_null _ _ _ _ Ea')|exists n; rewrite Hl2; split; [done|lia]|].
    exists isa, size, rc. split_and!; [|unfold nil_id; lia|by rewrite lookup_insert_ne].
    unfold read_isa, read_u32. rewrite Er. f_equal. apply Z.mod_small. unfold U32_MOD in *. simpl. lia.
  - rewrite lookup_insert_ne by done. intros Hq Hj.
    destruct (Hi q e j Hq Hj) as (Hq1 & Hq2 & (k & Hk & Hk4) & isa' & size' & rc' & Hq4 & Hq5 & Hq6).
    pose proof (mem_live_pos _ _ _ Hm Hk) as (?&?&?).
    split_and!; simpl; [done|by rewrite En, (mem_alloc_null _ _ _ _ Ea')|exists k; rewrite Hl2, Hl; split; [by left|done]|].
    exists isa', size', rc'. split_and!; [|done|rewrite lookup_insert_ne; [done|intros ->; congruence]].
    rewrite (read_isa_same q (guest s)); [done|lia|lia|]. intros a Ha.
    assert (¬ (p ≤ a < p + n)) by (apply (Hd q k a Hk); lia). rewrite Hb2 by (simpl; lia). apply Hb. lia.
Qed.

(** ** Examples *)

(** Two classes, and then an object and a pool. *)
Definition demo_classes : gmap Z HostObjectEntry :=
  {[ 16 := mkEntry (ClassHostObject 8 NSObject) None; 20 := mkEntry (ClassHostObject 8 NSAutoreleasePool) None ]}.
Definition demo_start : outcome ObjC := '(_, _, m) ← demo_mem; Ret (mkObjC demo_classes m ∅ 0%nat).
Definition demo_object : outcome (Z * ObjC) := s ← demo_start; alloc_object 16 TrivialHostObject s.
Definition demo_pool : outcome (Z * Z * ObjC) :=
  '(p, s) ← demo_object; '(pool, s) ← pool_new 20 s; Ret (p, pool, s).

(** The room left, the null segment, and the address the next object gets. *)
Definition memory_view (s : ObjC) : option Z * Z * option Z :=
  (chunks (vm_unused_chunks (vm_allocator (guest s))) !! 2101248, null_segment_size (guest s),
   match mem_alloc 8 (guest s) with Ret (p, _) => Some p | Panic => None end).

Lemma demo_views :
  (s ← demo_start; Ret (memory_view s)) = Ret (Some 4291817472, 4096, Some 4208) ∧
  ('(p, s) ← demo_object; Ret (p, memory_view s)) = Ret (4208, (Some 4291817472, 4096, Some 4224)).
Proof. split; vm_compute; reflexivity. Qed.

(** An allocation in a state whose memory is known as above. *)
Lemma demo_alloc s isa host i p :
  objc_ok s → objects s !! isa = Some (mkEntry (ClassHostObject 8 i) None) → 0 < isa < U32_MOD →
  implementation_of host = Some i → memory_view s = (Some 4291817472, 4096, Some p) → 4096 ≤ p →
  (∀ e, objects s !! p = Some e → is_Some (implementation_of (host_object e))) →
  ∃ m, alloc_object isa host s = Ret (p, set_objects (<[p := mkEntry host (Some 1)]> (objects s)) (set_guest m s)) ∧
    objects s !! p = None ∧ objc_ok (set_objects (<[p := mkEntry host (Some 1)]> (objects s)) (set_guest m s)).
Proof.
  intros Hok Hisa Hr Himpl Hv Hp Hfresh. unfold memory_view in Hv. injection Hv as Hc Hn Ha.
  destruct (alloc_object_ok s isa 8 i None host) as (q & m & E & Hq & Hok'); try done.
  - eapply vm_has_room_chunk; [exact Hc|]. vm_compute. discriminate.
  - eapply vm_has_room_chunk; [exact Hc|]. vm_compute. discriminate.
  - intros x mx Ex. rewrite Ex in Ha. injection Ha as ->. unfold nil_id. split_and!; [lia|lia|done].
  - assert (q = p) as ->; [|by exists m]. unfold alloc_object, borrow_class, alloc_object_inner in E. rewrite Hisa in E. simpl in E.
    destruct (mem_alloc 8 (guest s)) as [[x mx]|]; [|done]. injection Ha as ->. simpl in E.
    apply bind_ret_inv in E as (m2 & _ & E). apply bind_ret_inv in E as (u & _ & E). by injection E.
Qed.

Lemma demo_pool_ok : ∃ s, demo_pool = Ret (4208, 4224, s) ∧ objc_ok s ∧ plain s 4208 1 ∧ thread s = 0%nat ∧
  pool_stacks s !! 0%nat = Some ([] ++ [4224]) ∧ objects s !! 4224 = Some (mkEntry (NSAutoreleasePoolHostObject 0 []) (Some 1)).
Proof.
  destruct demo_views as [V0 V1]. unfold demo_pool, demo_object, demo_start in *.
  destruct demo_mem_ok as (m & E & Hm & (h & Hh & _) & _). rewrite E in V0, V1 |- *. cbn [mbind outcome_bind] in V0, V1 |- *.
  set (s0 := mkObjC demo_classes m ∅ 0%nat) in *.
  assert (∀ A (a b : A), Ret a = Ret b → a = b) as Hinj by congruence. apply Hinj in V0.
  assert (objc_ok s0) as Hok0.
  { split_and!; [done|by eexists|]. unfold s0, demo_classes. simpl. intros p e i. rewrite lookup_insert_Some, lookup_singleton_Some.
    intros [[<- <-]|(_ & <- & <-)]; done. }
  destruct (demo_alloc s0 16 TrivialHostObject NSObject 4208) as (m1 & E1 & Hn1 & Hok1); try done.
  rewrite E1 in V1 |- *. cbn [mbind outcome_bind] in V1 |- *. apply Hinj, (f_equal snd) in V1.
  match type of Hok1 with objc_ok ?x => set (s1 := x) in * end.
  destruct (demo_alloc s1 20 (NSAutoreleasePoolHostObject 0 []) NSAutoreleasePool 4224) as (m2 & E2 & Hn2 & Hok2); try done.
  unfold pool_new. replace (thread s1) with 0%nat by done. rewrite E2. simpl. eexists. split; [reflexivity|]. split_and!; [exact Hok2|..]; simpl.
  - unfold plain. simpl. by rewrite lookup_insert_ne, lookup_insert_eq.
  - done.
  - by rewrite lookup_insert_eq.
  - by rewrite lookup_insert_eq.
Qed.

Lemma drain_releases_witness : ∃ s s', objects s !! 4208 = Some (mkEntry TrivialHostObject (Some 1)) ∧
  pool_list s 4224 = [4208] ∧ release 1 4224 s = Ret s' ∧ objects s' !! 4208 = None.
Proof.
  destruct demo_pool_ok as (s & _ & Hok & Hp & Ht & Hst & Hpool).
  assert (objc_ok (set_objects (<[4224 := mkEntry (NSAutoreleasePoolHostObject 0 [4208]) (Some 1)]> (objects s)) s)) as Hok'
    by (eapply objc_ok_entry; [done|exact Hpool|done|by eexists]).
  set (s1 := set_objects _ s) in *. unfold plain in Hp.
  assert (objects s1 !! 4208 = Some (mkEntry TrivialHostObject (Some 1))) as Hp1 by (unfold s1; simpl; by rewrite lookup_insert_ne).
  assert (pool_list s1 4224 = [4208]) as Hl by (unfold pool_list, s1; simpl; by rewrite lookup_insert_eq).
  destruct (drain_releases 0 s1 4224 [] [] [4208]) as (s' & E & _ & _ & Ho).
  - exact Hok'.
  - unfold s1. simpl. rewrite Ht. exact Hst.
  - apply NoDup_singleton.
  - unfold s1. simpl. rewrite Ht. by rewrite lookup_insert_eq.
  - intros q []%elem_of_nil.
  - simpl. rewrite Hl. intros q Hq _. simpl in Hq. apply list_elem_of_singleton in Hq as ->. exists 1. split; [exact Hp1|]. vm_compute. discriminate.
  - exists s1, s'. split_and!; [exact Hp1|exact Hl|exact E|]. rewrite Ho by discriminate. rewrite decide_False by (by rewrite list_elem_of_singleton).
    cbn [flat_map]. rewrite Hl, Hp1. reflexivity.
Defined.

Lemma retain_autorelease_balanced_witness : ∃ s s1 s2, plain s 4208 1 ∧
  objc_retainAutorelease 4208 s = Ret (4208, s1) ∧ release 1 4224 s1 = Ret s2 ∧ plain s2 4208 1.
Proof.
  destruct demo_pool_ok as (s & _ & Hok & Hp & Ht & Hst & Hpool).
  destruct (retain_autorelease_balanced 0 s 4208 1 [] 4224 []) as (s1 & s2 & E1 & E2 & Ho).
  - exact Hok.
  - exact Hp.
  - lia.
  - vm_compute. reflexivity.
  - rewrite Ht. exact Hst.
  - rewrite Ht. exact Hpool.
  - intros q []%elem_of_nil.
  - exists s, s1, s2. split_and!; [exact Hp|exact E1|exact E2|]. unfold plain. rewrite Ho by discriminate. exact Hp.
Defined.
