(* ===== verification/CStdlib.v ===== *)
(** * [stdlib.h] and [locale.h] ([libc/stdlib.rs], [libc/clocale.rs])

    Memory allocation for the guest, random numbers, environment variables,
    integer division and multibyte strings.  The number parsers are in
    [StrToInt], sorting and searching in [Qsort]. *)

From S2P Require Import Prelude ChunkMap SizeBucketed VMAllocator HeapAllocator GuestMem Env Pthread GenericChar GenericCharFacts GenericCharWrites CString CStringFacts StrToInt Qsort Objects.

(** ** Memory *)

(** The walk of the frame pointers that [malloc] logs for large blocks. *)
Fixpoint frame_chain (n : nat) (fp : Z) (m : Mem) : outcome () :=
  match n with
  | O => Ret ()
  | S n' =>
      if (fp =? 0) || negb (Z.land fp 3 =? 0) then Ret ()
      else
        q ← u32 (fp + 4);
        _ ← read_u32 q m;
        next ← read_u32 fp m;
        if next <=? fp then Ret () else frame_chain n' next m
  end.

Definition malloc (size : Z) (e : Environment) : outcome (Z * Environment) :=
  e ← set_errno 0 e;
  '(ptr, m) ← mem_alloc size (mem e);
  let e := set_mem m e in
  (if 262144 <=? size then fp ← unwrap (regs (cpu e) !! 7%nat); frame_chain 14 fp m else Ret ());;
  Ret (ptr, e).
Definition malloc_size (ptr : Z) (e : Environment) : outcome (Z * Environment) :=
  '(n, m) ← malloc_size_in_heap None ptr (mem e); Ret (n, set_mem m e).
Definition c_calloc (count size : Z) (e : Environment) : outcome (Z * Environment) :=
  e ← set_errno 0 e;
  total ← u32 (size * count);
  '(ptr, m) ← calloc total (mem e);
  Ret (ptr, set_mem m e).
Definition valloc (size : Z) (e : Environment) : outcome (Z * Environment) :=
  e ← set_errno 0 e;
  '(ptr, m) ← mem_valloc size (mem e);
  Ret (ptr, set_mem m e).
Definition realloc (ptr size : Z) (e : Environment) : outcome (Z * Environment) :=
  e ← set_errno 0 e;
  if ptr =? 0 then malloc size e
  else '(p, _, m) ← realloc_in_heap None ptr size (mem e); Ret (p, set_mem m e).

(** [free] on an object of the Objective-C runtime deallocates the object. *)
Definition free (ptr : Z) (objc : ObjC) (e : Environment) : outcome (ObjC * Environment) :=
  match objects objc !! ptr with
  | Some _ =>
      objc ← dealloc_object ptr (set_guest (mem e) objc);
      Ret (objc, set_mem (guest objc) e)
  | None =>
      e ← set_errno 0 e;
      if ptr =? 0 then Ret (objc, e)
      else '(_, m) ← mem_free ptr (mem e); Ret (objc, set_mem m e)
  end.

(** ** Random numbers *)

Record RandState := mkRand { rand_state : Z; random_state : Z; arc4random_state : Z }.

(** xorshift32, on a state that is not zero. *)
Definition prng (state : Z) : Z :=
  let state := Z.max state 1 in
  let state := Z.lxor state (Z.shiftl state 13 mod U32_MOD) in
  let state := Z.lxor state (Z.shiftr state 17) in
  Z.lxor state (Z.shiftl state 5 mod U32_MOD).

Definition RAND_MAX : Z := I32_MAX.
Definition srand (seed : Z) (st : RandState) : RandState := mkRand seed (random_state st) (arc4random_state st).
Definition rand (st : RandState) : Z * RandState :=
  let s := prng (rand_state st) in (Z.land (to_i32 s) RAND_MAX, mkRand s (random_state st) (arc4random_state st)).
Definition rand_r (seed_ptr : Z) (m : Mem) : outcome (Z * Mem) :=
  seed ← read_u32 seed_ptr m;
  let seed := prng seed in
  m ← write_u32 seed_ptr seed m;
  Ret (Z.land (to_i32 seed) RAND_MAX, m).
Definition srandom (seed : Z) (st : RandState) (e : Environment) : outcome (RandState * Environment) :=
  e ← set_errno 0 e; Ret (mkRand (rand_state st) seed (arc4random_state st), e).
Definition random (st : RandState) (e : Environment) : outcome (Z * RandState * Environment) :=
  e ← set_errno 0 e;
  let s := prng (random_state st) in
  Ret (Z.land (to_i32 s) RAND_MAX, mkRand (rand_state st) s (arc4random_state st), e).
Definition arc4random (st : RandState) : Z * RandState :=
  let s := prng (arc4random_state st) in (s, mkRand (rand_state st) (random_state st) s).

(** ** Division *)

(** [wrapping_div] and [wrapping_rem] of [w]-bit integers ([min] the least one);
    division by zero panics. *)
Definition wrapping_div (min a b : Z) : outcome Z :=
  rassert (negb (b =? 0));; Ret (if (a =? min) && (b =? -1) then min else Z.quot a b).
Definition wrapping_rem (a b : Z) : outcome Z :=
  rassert (negb (b =? 0));; Ret (Z.rem a b).

Definition div (numer denom : Z) : outcome (Z * Z) :=
  quot ← wrapping_div I32_MIN numer denom;
  rem ← wrapping_rem numer denom;
  Ret (quot, rem).
Definition __udivsi3 (a b : Z) : Z := if b =? 0 then 0 else a / b.
Definition __umodsi3 (a b : Z) : Z := if b =? 0 then 0 else a mod b.
Definition __divsi3 (a b : Z) : outcome Z := if b =? 0 then Ret 0 else wrapping_div I32_MIN a b.
Definition __modsi3 (a b : Z) : outcome Z := if b =? 0 then Ret 0 else wrapping_rem a b.
Definition __udivdi3 (a b : Z) : Z := if b =? 0 then 0 else a / b.
Definition __umoddi3 (a b : Z) : Z := if b =? 0 then 0 else a mod b.
Definition __divdi3 (a b : Z) : outcome Z :=
  let a := to_i64 a in let b := to_i64 b in if b =? 0 then Ret 0 else wrapping_div I64_MIN a b.
Definition __moddi3 (a b : Z) : outcome Z :=
  let a := to_i64 a in let b := to_i64 b in if b =? 0 then Ret 0 else wrapping_rem a b.

(** ** Environment variables *)

Definition EnvVars : Type := gmap (list Z) Z.

Definition getenv (name : Z) (vars : EnvVars) (m : Mem) : outcome Z :=
  name_cstr ← cstr_at name m;
  Ret (default 0 (vars !! name_cstr)).

Definition setenv (name value overwrite : Z) (vars : EnvVars) (e : Environment) : outcome (Z * EnvVars * Environment) :=
  e ← set_errno 0 e;
  name_cstr ← cstr_at name (mem e);
  let store_value (m : Mem) :=
    '(value, m) ← strdup value m;
    name_cstr ← cstr_at name m;
    Ret (0, <[name_cstr := value]> vars, set_mem m e) in
  match vars !! name_cstr with
  | Some existing =>
      if overwrite =? 0 then Ret (0, vars, e)
      else '(_, m) ← mem_free existing (mem e); store_value m
  | None => store_value (mem e)
  end.

Definition unsetenv (name : Z) (vars : EnvVars) (e : Environment) : outcome (Z * Environment) :=
  e ← set_errno 0 e;
  name_cstr ← cstr_at name (mem e);
  match vars !! name_cstr with
  | None => e ← set_errno EINVAL e; Ret (-1, e)
  | Some _ => Panic
  end.

(** [_NSGetExecutablePath], given the bytes of the executable's path. *)
Definition _NSGetExecutablePath (path_bytes : list Z) (buf bufsize : Z) (m : Mem) : outcome (Z * Mem) :=
  n ← u32 (Z.of_nat (length path_bytes));
  needed ← u32 (n + 1);
  avail ← (if bufsize =? 0 then Ret 0 else read_u32 bufsize m);
  m ← (if bufsize =? 0 then Ret m else write_u32 bufsize needed m);
  if (buf =? 0) || (avail <? needed) then Ret (-1, m)
  else m ← bytes_at_mut_copy buf needed (path_bytes ++ [0]) m; Ret (0, m).

(** [dispatch_once], [call] being the invocation of a guest function on a block. *)
Definition dispatch_once (call : Z → Z → Environment → outcome Environment) (predicate block : Z) (e : Environment)
    : outcome Environment :=
  pred_val ← read_u32 predicate (mem e);
  if negb (pred_val =? 0) then Ret e
  else
    m ← write_u32 predicate 1 (mem e);
    let e := set_mem m e in
    p ← u32 (block + 12);
    invoke_ptr ← read_u32 p (mem e);
    if negb (invoke_ptr =? 0) then call invoke_ptr block e else Ret e.

(** ** Locales and multibyte strings *)

Definition LC_ALL : Z := 0.
Definition LC_CTYPE : Z := 2.
Definition LC_MESSAGES : Z := 6.
(** The locale string of each category that was set or asked for. *)
Definition LocaleState : Type := gmap Z Z.

Definition setlocale (category locale : Z) (st : LocaleState) (m : Mem) : outcome (Z * LocaleState * Mem) :=
  rassert ((LC_ALL <=? category) && (category <=? LC_MESSAGES));;
  if negb (locale =? 0) then
    locale_cstr ← cstr_at locale m;
    rassert (negb (Nat.eqb (length locale_cstr) 0));;
    '(new_locale, m) ← alloc_and_write_cstr locale_cstr m;
    m ← match st !! category with
        | Some old_locale => '(_, m) ← mem_free old_locale m; Ret m
        | None => Ret m
        end;
    Ret (new_locale, <[category := new_locale]> st, m)
  else
    match st !! category with
    | Some p => Ret (p, st, m)
    | None => '(p, m) ← alloc_and_write_cstr [67] m; Ret (p, <[category := p]> st, m)
    end.

(** [assert_eq!(read(setlocale(LC_CTYPE, NULL)), 'C')]. *)
Definition assert_C_locale (st : LocaleState) (m : Mem) : outcome (LocaleState * Mem) :=
  '(p, st, m) ← setlocale LC_CTYPE 0 st m;
  c ← read_u8 p m;
  rassert (c =? 67);;
  Ret (st, m).

Definition mbstowcs (pwcs s n : Z) (st : LocaleState) (e : Environment) : outcome (Z * LocaleState * Environment) :=
  e ← set_errno 0 e;
  '(st, m) ← assert_C_locale st (mem e);
  size ← strlen s m;
  let to_write := Z.min size n in
  m ← for_count to_write
        (λ i m, p ← ptr_add 1 s i; c ← read_u8 p m; q ← ptr_add 4 pwcs i; write_u32 q c m) m;
  m ← (if to_write <? n then q ← ptr_add 4 pwcs to_write; write_u32 q 0 m else Ret m);
  Ret (to_write, st, set_mem m e).

(** ** Random numbers stay in range *)

Lemma lxor_u32 a b : 0 ≤ a < U32_MOD → 0 ≤ b < U32_MOD → 0 ≤ Z.lxor a b < U32_MOD.
Proof.
  intros Ha Hb. assert (0 ≤ Z.lxor a b) by (apply Z.lxor_nonneg; lia). split; [done|].
  change U32_MOD with (2 ^ 32). apply Z.log2_lt_cancel. rewrite Z.log2_pow2 by lia.
  assert (∀ x, 0 ≤ x < U32_MOD → Z.log2 x < 32) as Hl.
  { intros x Hx. destruct (decide (x = 0)) as [->|]; [done|]. apply Z.log2_lt_pow2; [lia|]. exact (proj2 Hx). }
  pose proof (Z.log2_lxor a b ltac:(lia) ltac:(lia)). pose proof (Hl a Ha). pose proof (Hl b Hb). lia.
Qed.

(** A shift by a positive distance cannot cancel a number that is not 0: the bits
    would be 0 one after the other, from the end where the shift brings in zeros. *)
Lemma xor_shl_nonzero a k : 0 < k → 0 < a < U32_MOD → Z.lxor a (Z.shiftl a k mod U32_MOD) ≠ 0.
Proof.
  intros Hk Ha E. apply Z.lxor_eq in E. assert (∀ n : nat, Z.testbit a (Z.of_nat n) = false) as Hbits.
  { intros n. induction (lt_wf n) as [n _ IH]. rewrite E. change U32_MOD with (2 ^ 32).
    destruct (decide (Z.of_nat n < 32)).
    - rewrite Z.mod_pow2_bits_low, Z.shiftl_spec by lia. destruct (decide (Z.of_nat n < k)); [by apply Z.testbit_neg_r; lia|].
      replace (Z.of_nat n - k) with (Z.of_nat (Z.to_nat (Z.of_nat n - k))) by lia. apply IH. lia.
    - by rewrite Z.mod_pow2_bits_high by lia. }
  assert (a = 0); [|lia]. apply Z.bits_inj'. intros n Hn. rewrite Z.testbit_0_l. rewrite <- (Z2Nat.id n Hn). apply Hbits.
Qed.

Lemma xor_shr_nonzero a k : 0 < k → 0 < a → Z.lxor a (Z.shiftr a k) ≠ 0.
Proof.
  intros Hk Ha E. apply Z.lxor_eq in E. rewrite Z.shiftr_div_pow2 in E by lia.
  assert (1 < 2 ^ k) by (apply Z.pow_gt_1; lia). pose proof (Z.div_lt a (2 ^ k) Ha ltac:(lia)). lia.
Qed.

(** [prng] gives a 32-bit number that is not 0, so that the generators never get
    stuck and [rand] stays between 0 and [RAND_MAX]. *)
Lemma prng_range s : 0 ≤ s < U32_MOD → 0 < prng s < U32_MOD.
Proof.
  intros Hs. unfold prng. set (a := Z.max s 1).
  assert (∀ x, 0 < x < U32_MOD → ∀ k, 0 < k → 0 < Z.lxor x (Z.shiftl x k mod U32_MOD) < U32_MOD) as Hl.
  { intros x Hx k Hk. pose proof (lxor_u32 x (Z.shiftl x k mod U32_MOD) ltac:(lia) (Z.mod_pos_bound _ U32_MOD eq_refl)).
    pose proof (xor_shl_nonzero x k Hk Hx). lia. }
  assert (∀ x, 0 < x < U32_MOD → 0 < Z.lxor x (Z.shiftr x 17) < U32_MOD) as Hr.
  { intros x Hx. assert (0 ≤ Z.shiftr x 17 < U32_MOD).
    { rewrite Z.shiftr_div_pow2 by lia. split; [apply Z.div_pos; lia|]. apply (Z.le_lt_trans _ x); [|lia].
      apply Z.div_le_upper_bound; [lia|]. nia. }
    pose proof (lxor_u32 x _ ltac:(lia) H). pose proof (xor_shr_nonzero x 17 ltac:(lia) ltac:(lia)). lia. }
  apply Hl; [|lia]. apply Hr. apply Hl; [unfold a, U32_MOD in *; lia|lia].
Qed.

(** [setenv] with overwriting frees the old value before it copies the new one:
    setting a variable to its own value loses the value. *)
Definition setenv_to_itself : outcome (list Z * list Z) :=
  '(_, _, m) ← demo_mem;
  '(name, m) ← alloc_and_write_cstr [65] m;
  '(value, m) ← alloc_and_write_cstr [104; 105] m;
  '(_, vars, e) ← setenv name value 1 ∅ (idle_env m);
  p ← getenv name vars (mem e);
  before ← cstr_at p (mem e);
  '(_, vars, e) ← setenv name p 1 vars e;
  q ← getenv name vars (mem e);
  after ← cstr_at q (mem e);
  Ret (before, after).
Example setenv_to_itself_loses_value : setenv_to_itself = Ret ([104; 105], []).
Proof. vm_compute. reflexivity. Qed.
